(* ===== verification/_CoqProject ===== *)
-Q . S2P
Prelude.v
GoStrings.v
GoPath.v
GoFloat.v
GoIO.v
Microarch.v
MicroarchFeatures.v
MicroarchSelect.v
Format.v
FormatIndex.v
Sha256.v
FormatTrailer.v
CgroupSize.v
CgroupTuning.v
CgroupHierarchy.v
Codec.v
PackAssemble.v
PackTrim.v
PackPlan.v
PackPrewarm.v
Vfs.v
GoOS.v
InputFile.v
VfsLogic.v
VfsEffects.v
VfsStage.v
VfsKept.v
Lifecycle.v
LifecycleProofs.v
LifecycleAtomic.v
LifecycleSafety.v
Cache.v
CacheProofs.v
CacheMaterialize.v
CacheDirProofs.v
Install.v
InstallOpen.v
InstallCopy.v
InstallStage.v
InstallApply.v
InstallAtomic.v
InstallVerify.v
InstallRemove.v
StubEnv.v
StubEnvProofs.v
RuntimeInfo.v
RuntimeInfoProofs.v
Diagnostics.v
Telemetry.v
TelemetryProofs.v
Stub.v
StubProofs.v
StubRun.v
Abi.v
AbiBounds.v
AbiParse.v
AbiReport.v
AbiText.v
AbiRender.v
AbiCompare.v
AbiCompareProofs.v
AbiVerdict.v
Elf.v
ElfProofs.v
PackOptions.v
PackInput.v
PackStage.v
PackStop.v
Pack.v
PackHeld.v
Prewarm.v
PrewarmProofs.v
StubCommands.v
PackTemp.v
PackWrite.v
PackPool.v
PackArtifact.v
PackAtomic.v
PackVerifies.v
PackTheorems.v
