(* ===== verification/Prelude.v ===== *)
(** * Verification of microfat

    microfat packs several builds of one Go program, compiled for different
    microarchitecture levels, behind a small launcher (the stub) into one fat
    binary.  At start the stub detects the CPU, picks the best variant it can
    run, decompresses it and executes it; on the way it reads the limits of its
    container and tunes the Go runtime.  The development models the core of the
    program, the Go code under [src/internal] and the launcher under
    [src/cmd/microfat-stub], and proves it correct.

    ** Parts of the program and the files that model them

    - [internal/microarch] (levels, detection, selection).  [Microarch.v]: level
      names, [Normalize], [Rank], [Compare], the policy read from the
      environment.  [MicroarchFeatures.v]: the feature records, [EvaluateAMD64],
      the ARM64 requirement table and its recursive check with its cache,
      [EvaluateARM64], [EvaluateARM64Detailed], the feature lists, the CPUID and
      auxiliary-vector probes.  [MicroarchSelect.v]: [hostSupports],
      [SelectVariantForHost] and the other entry points.
    - [internal/format] (the file format).  [Format.v]: [Index], [VariantEntry],
      checksums, [FindVariant], [ValidateBounds].  [FormatIndex.v]: the binary
      table, [MarshalBinaryIndex] and [UnmarshalBinaryIndex].
      [FormatTrailer.v]: [ReadTrailerAndIndex], [WriteIndexAndTrailer],
      [IsFatBinary].  [Sha256.v]: SHA-256, executable.
    - [internal/cgroup] (limits and tuning).  [CgroupSize.v]: [ParseByteSize],
      [RuntimeMemoryLimit] and memory budgets.  [CgroupTuning.v]: the tuning
      plan.  [CgroupHierarchy.v]: reading both versions of the hierarchy.
    - [internal/codec].  [Codec.v]: the bounded writer, decompression, the
      registry, profiles, encoder admission, dictionary samples.
    - [internal/pack].  [PackAssemble.v]: choosing and writing the smaller
      candidate ([profitability.go]).  [PackTrim.v]: [TrimBinary] and
      [VerifyBinary] ([pack.go]).  [PackPlan.v]: worker admission
      ([parallel.go]).  [PackPrewarm.v]: prewarm selection and plan
      ([prewarm_plan.go]).  [Prewarm.v], [PrewarmProofs.v]: filling the cache
      from a fat binary and comparing the two ([pack.go]).
      The main line on the file system:
      [PackOptions.v]: options, levels, codec choice ([pack.go])
      and the [Compress] methods.  [PackInput.v]: bounded reading,
      input snapshots and their checks ([input.go]).  [PackStage.v]: the workers
      that compress variants, as a machine under a schedule ([parallel.go]).
      [Pack.v]: dictionary, assembly, publication ([pack.go],
      [profitability.go]).  The proofs about it: [PackHeld.v]: paths, and the
      relation [held], which bounds what packing has changed.  [PackTemp.v]:
      code that only looks, and temporary files.  [PackWrite.v]: what is
      appended to the file under construction.  [PackPool.v]: the staged frames
      under any schedule.  [PackStop.v]: staging ends.  [PackArtifact.v]: both
      ways of assembling.  [PackAtomic.v]: the copies of the inputs and the
      publication.  [PackVerifies.v]: what is left, and that it verifies.
      [PackTheorems.v]: the theorems on [Pack], on a disk to run on.
    - ELF ABI inspection in [internal/pack].  [Abi.v]: reading what a file
      declares, in a monad that keeps the accounts and counts the bytes asked
      of the reader ([abi.go], first half).  [AbiBounds.v]: the logic of that
      monad.  [AbiParse.v], [AbiReport.v]: what is read.  [AbiText.v]:
      UTF-8 and escapes.  [AbiRender.v]: presentation ([abi_render.go]).
      [AbiCompare.v],
      [AbiCompareProofs.v], [AbiVerdict.v]: comparison of variants ([abi.go],
      second half).  [Elf.v], [ElfProofs.v]: the checks that a variant is an
      executable for the target ([elf.go], [platform.go]).
    - The file system.  [Vfs.v]: inodes, directory entries, path resolution
      with symbolic links and [os.Root], the system calls, and the monad of code
      that calls them, in which any call can fail, another process can act
      before it and the process can die at it.  [GoOS.v]: the functions of [os]
      and [path/filepath] as sequences of calls.  [VfsLogic.v]: the program
      logic, with separate conditions for returning, failing and dying, and
      guarantees under interference.  [VfsEffects.v]: what each call changes.
      [VfsStage.v]: temporary files, and concrete disks and kernels.
      [VfsKept.v]: the relation [kept], which bounds a change by the names and
      directories it may touch, and removal of trees.
    - [internal/lifecycle] (replacing an executable).  [Lifecycle.v]: policies,
      snapshots, [Execute] and its steps.  [LifecycleProofs.v],
      [LifecycleAtomic.v], [LifecycleSafety.v]: its theorems.
    - [internal/cache] and the cache directory of [internal/format].
      [Cache.v]: validation, materialization, observation, resolution of the
      directory.  [CacheProofs.v], [CacheMaterialize.v], [CacheDirProofs.v].
    - [internal/install] (generations of an installed release).  [Install.v]:
      every operation, from [Inspect] to [Apply], [Uninstall], discovery and
      update checks.  [InstallOpen.v]: code that only looks, the opening phase,
      and a disk to run on.  [InstallCopy.v]: new files.  [InstallStage.v]: owner
      record, cleanup, staging.  [InstallApply.v]: activation.
      [InstallAtomic.v], [InstallVerify.v], [InstallRemove.v]: the theorems.
    - [cmd/microfat-stub] (the launcher), [internal/memfd],
      [internal/inputfile].  [InputFile.v]: opening and reading inputs.
      [StubEnv.v]: the environment of the payload and the
      tuning applied to it.  [Stub.v]: the privilege check, extraction, sealed
      memory, cached execution, the fallback between them and the main line.
      [StubEnvProofs.v], [StubProofs.v], [StubRun.v]: the theorems.
      [StubCommands.v]: the commands of the full profile ([meta_full.go],
      [optimize.go], [trim.go], [image_path.go]) and their theorems; the main
      line takes them as an argument, and [full_handleMetaCommand] is one it can
      be given.
    - Diagnostics of the launcher.  [Diagnostics.v]: error numbers, attempts,
      hints ([internal/format/diagnostics.go]).  [Telemetry.v],
      [TelemetryProofs.v]: the telemetry lines as text, and a JSON reader.
    - [runtimeinfo] and the inspection report of the launcher
      ([runtime_info.go]).  [RuntimeInfo.v], [RuntimeInfoProofs.v].
    - Go itself.  This file: the outcome of fallible code ([Ok], [Err] for a
      returned error, [Panic]), machine integers, bytes, slices.
      [GoStrings.v], [GoPath.v], [GoFloat.v], [GoIO.v]: what the code uses of
      [strings], [strconv], [path/filepath], floating point and [io].

    The packer assembles a file through the format and publishes it in a
    lifecycle transaction; the stub opens it through the format, selects with
    the microarchitecture part, decompresses through the codec, and keeps
    payloads in the cache; the installer publishes generations of the program's
    own release; the packer's and the codec's admission read the cgroup part.

    ** How code becomes definitions

    A Go function is a Rocq function of the same name.  An [int64] or [uint64]
    is a [Z] and arithmetic on it wraps ([i64_add] and the like); an index or a
    slice out of range is [Panic]; an error is a constructor of the component's
    error type, one per sentinel, or a list of the errors it wraps where code
    asks [errors.Is].  A pointer that is updated is passed and returned.

    Code that works on files is in the monad [io]: one step per system call,
    [deferring] for [defer], [try] where an error is looked at.  A [Kernel]
    decides call by call what fails, when the process dies, what other
    processes do ([k_env]), and random numbers and times.  [quiet] says that no
    other process interferes, [faultless] that no call fails, [truthful] that
    none claims a name is missing when it is not.  Death is that of the process:
    what it has written stays, in the order it wrote it; the loss of power,
    with writes that never reached the disk, is not modelled, so [fsync] only
    can fail.  Permission checks of the kernel are failures it may decide; a
    rename of a directory into itself is not refused.

    Loops are structural, or take fuel where the recursion is not structural:
    [arm64_fuel] (above the height of the requirement table, lemma
    [height_bound]), [walk_fuel] (a step up shortens the path, [fuel_covers]),
    the scanners (every token advances), [scan_string] (the length of the
    string table; a round advances), the loops over runes (the length of the
    text), [scan_windows] (the size of the segment; a window advances).  There the model panics when fuel runs
    out, so the theorems that exclude [Panic] also prove termination.  In file
    system code fuel that runs out is an error: the length of the path for
    [MkdirAll] and for the walk up to the root, the ten thousand attempts of
    [CreateTemp] and the 255 links of [EvalSymlinks] which are Go's own,
    [stream_fuel] (one step for each piece and one for the end, lemma
    [hoare_stream_reads]), [read_limit] (one step for each piece and one for the
    end, lemma [hoare_read_limit]), the 32 samples of a file, 500 polls of the installation lock (its timeout over
    its interval), and [remove_depth], 1024 nested directories for [RemoveAll].
    A [schedule] gives the workers of packing a number of steps; a run it ends
    is a run that was killed there, and some number of steps is always enough
    ([stage_positions_ends]).

    What is outside the repository is an argument with the contract the code
    relies on: Unicode tables beyond ASCII ([GoUnicode], instance
    [ascii_tables]), sorting ([SliceSort], instance [merge_slice_sort]), readers
    and writers ([ReaderAt], [Writer], with files in memory as instances), the
    cgroup file system ([FileSystem]), conversions Go leaves to the
    implementation ([GoFloat], instance [amd64_float]), the LZ4 and Zstandard
    libraries ([Decoders], [Encoders] with [EncoderLaws], [DictBuilder]), the
    order of a loop over a map ([MapRange]), [encoding/json/v2] on the
    installer's metadata ([Json], instance [plain_json]), the printing of
    floats in telemetry ([FormatFloat]), the reader of Go build information
    ([ParseBuildInfo]) and the names [debug/elf] gives to types and machines
    ([Type_String], [Machine_String]).  [execve] ends the launcher: a run of
    the launcher returns the program image the kernel took.

    ** What the theorems show

    - Selection ([MicroarchSelect.v], [MicroarchFeatures.v]): the choice is
      offered, supported, runs on the CPU, is best among what the policy admits,
      and is always reached; both ARM64 evaluations agree and return the highest
      satisfied level; x86-64 likewise.
    - Format ([Format.v], [FormatIndex.v], [FormatTrailer.v]): the layout check
      is exactly a declarative layout and keeps regions disjoint; table and
      trailer round trips and exact acceptance, without panics on any input.
    - Packing ([PackAssemble.v], [PackTrim.v], [PackPlan.v], [PackPrewarm.v]):
      assembled and trimmed binaries open and hold the right bytes,
      verification is exact, workers fit the memory, prewarm plans account for
      every digest once.
    - [Pack] on the file system ([PackTheorems.v], [PackStop.v]):
      [Pack_atomic] (whatever fails, the name of the output stands for what it
      stood for or for the complete artifact, and the rest is as it was),
      [Pack_verifies] (what a successful run leaves opens and verifies, with the
      digests of the inputs), [writeAllVariantPayloads_schedule] (staging does
      not depend on how the workers are scheduled), [stage_positions_ends] (it
      ends).
    - ABI inspection: [inspection_bounded] (no file makes the inspection panic,
      run past its budgets or read more than it charged), [report_sound] (a
      report states what the file declares), [translateVaddr_exact],
      [EscapeMetadata_safe] (shown text has no control characters and the
      announced length), [RenderABIReport_measured], [comparison_verdict] (the
      answer says exactly whether variants agree), [comparison_bounded].
    - Executables: [validateExecutableELF_exact] (what passes is loadable with
      its entry point in executable file bytes), [window_search_complete] (the
      windows of the search miss nothing), [executable_checks_return].
    - Codec ([Codec.v]): decompression is exact and bounded.
    - Limits and tuning ([CgroupSize.v], [CgroupTuning.v],
      [CgroupHierarchy.v]): sizes parse exactly, the walks end, find the least
      limits and return limits in range, the plan stays below the ceilings.
    - Lifecycle: [Execute_atomic] refines an atomic step, at every return, error
      and death; with create-only intent no name that exists is taken away
      whatever other processes do; a published file has the promised metadata;
      a destination that is a link to the source is replaced as a link.
    - Cache: [materialize_atomic], [cache_history_consistent] (the invariant
      over any sequence of runs that fail or are killed), [materialize_succeeds]
      and the exactness of validation; the directory handed out is private.
      [PrewarmBinary_fills] (what a prewarm reports is in the cache, and no
      failure leaves a wrong file under a digest) and
      [VerifyCacheBinary_after_PrewarmBinary] (the cache it filled verifies).
    - Installation: [Apply_atomic] (the selection changes only to a complete
      generation, leftovers of interrupted runs are removed and nothing else
      is), [verifyFileForUID_exact], [Uninstall_own_links],
      [inspections_change_nothing].
    - Launcher: [launched_program_verified] (what runs is the selected variant
      of the launcher's own file, with its digest, sealed in memory, whatever
      fails), [verified_file_launches] (a file that verifies does run),
      [damaged_payload_stops], [extraction_agrees_with_verify],
      [checkLauncherPrivilege_exact], [mutation_atomic] (a command that writes a
      program replaces the running file, or takes a free name, in one step, by
      exactly the program asked for), [full_passes_on] (other command lines are
      left to the payload).
    - Environment and reports: [payload_environment] (the environment of the
      payload refines a specification by key), [launcher_hints_read_back] (the
      payload reads back what the launcher chose, whatever the parent claimed),
      [inspection_matches_dispatch] (the report shows what a launch would do),
      [error_telemetry_round_trip] (telemetry is JSON that reads back).

    Every component ends with concrete inputs on which its theorems are
    applied, runs that are killed included.  Sizes of files in the theorems on
    formats are bounded by 2^61 or 2^62 bytes, above any real file, so that sums
    of offsets stay in [int64].

    ** What is not modelled

    What the launcher's commands print, how long a prewarm took, texts of errors
    and log lines, setting the limits of the running Go runtime
    ([runtimeinit]), downloading and authenticating releases, the command line,
    and the repository's release and benchmark tools.  The order planned for
    extending the development: release authentication, [runtimeinit]. *)

From stdpp Require Import base list strings gmap.
From Stdlib Require Import ZArith Lia Strings.Byte.

Local Open Scope Z_scope.

(** ** Outcomes of Go code

    A Go function that can fail returns its value, an error, or panics (an
    index or a slice bound out of range).  The three are kept apart, so that
    "never panics" is a statement of its own. *)

Inductive outcome (E A : Type) : Type :=
| Ok (a : A)
| Err (e : E)
| Panic.
Arguments Ok {E A} a.
Arguments Err {E A} e.
Arguments Panic {E A}.

Global Instance outcome_ret E : MRet (outcome E) := fun A a => Ok a.
Global Instance outcome_bind E : MBind (outcome E) := fun A B k m =>
  match m with
  | Ok a => k a
  | Err e => Err e
  | Panic => Panic
  end.

(** [fmt.Errorf("...: %w", err)] around a call: the error is rewrapped. *)
Definition wrap_err {E F A} (f : E -> F) (m : outcome E A) : outcome F A :=
  match m with
  | Ok a => Ok a
  | Err e => Err (f e)
  | Panic => Panic
  end.

Definition is_ok {E A} (m : outcome E A) : bool :=
  match m with Ok _ => true | _ => false end.

Lemma bind_Ok_inv {E A B} (m : outcome E A) (k : A -> outcome E B) b :
  mbind k m = Ok b -> exists a, m = Ok a /\ k a = Ok b.
Proof. destruct m; simpl; intros H; try discriminate; eauto. Qed.

Lemma bind_not_panic {E A B} (m : outcome E A) (k : A -> outcome E B) :
  m <> Panic -> (forall a, m = Ok a -> k a <> Panic) -> mbind k m <> Panic.
Proof. destruct m; simpl; intros; try congruence; auto. Qed.

Lemma wrap_err_Ok {E F A} (f : E -> F) (m : outcome E A) a :
  wrap_err f m = Ok a <-> m = Ok a.
Proof. destruct m; simpl; split; congruence. Qed.

Lemma wrap_err_panic {E F A} (f : E -> F) (m : outcome E A) :
  wrap_err f m = Panic <-> m = Panic.
Proof. destruct m; simpl; split; congruence. Qed.

(** ** Machine integers

    A Go integer is a [Z] in the range of its type; the conversions and the
    operations that can wrap do so explicitly. *)

Definition MaxInt64 : Z := 9223372036854775807.
Definition MaxUint64 : Z := 18446744073709551615.

Definition int64_range (z : Z) : Prop := - 2 ^ 63 <= z < 2 ^ 63.
Definition uint64_range (z : Z) : Prop := 0 <= z < 2 ^ 64.
Definition uint32_range (z : Z) : Prop := 0 <= z < 2 ^ 32.

(** Conversion to [int64] and to [uint64], modulo 2^64. *)
Definition to_int64 (z : Z) : Z := (z + 2 ^ 63) mod 2 ^ 64 - 2 ^ 63.
Definition to_uint64 (z : Z) : Z := z mod 2 ^ 64.

Definition i64_add (a b : Z) : Z := to_int64 (a + b).
Definition i64_sub (a b : Z) : Z := to_int64 (a - b).
Definition i64_mul (a b : Z) : Z := to_int64 (a * b).
Definition u64_add (a b : Z) : Z := to_uint64 (a + b).
Definition u64_sub (a b : Z) : Z := to_uint64 (a - b).
Definition u64_mul (a b : Z) : Z := to_uint64 (a * b).

Lemma to_int64_small z : int64_range z -> to_int64 z = z.
Proof. unfold int64_range, to_int64. intros H. rewrite Z.mod_small; lia. Qed.

Lemma to_uint64_small z : uint64_range z -> to_uint64 z = z.
Proof. unfold uint64_range, to_uint64. intros H. by rewrite Z.mod_small. Qed.

Lemma to_int64_range z : int64_range (to_int64 z).
Proof.
  unfold int64_range, to_int64.
  pose proof (Z.mod_pos_bound (z + 2 ^ 63) (2 ^ 64) eq_refl). lia.
Qed.

Lemma to_uint64_range z : uint64_range (to_uint64 z).
Proof. apply Z.mod_pos_bound. lia. Qed.

(** [int64(uint64(x))] is the identity on [int64]. *)
Lemma to_int64_to_uint64 z : int64_range z -> to_int64 (to_uint64 z) = z.
Proof.
  unfold int64_range, to_int64, to_uint64. intros H.
  rewrite Zplus_mod_idemp_l, Z.mod_small; lia.
Qed.

(** Solves the side conditions of the wrap-free lemmas. *)
Ltac int_range :=
  unfold int64_range, uint64_range, uint32_range, MaxInt64, MaxUint64 in *;
  try lia.

Ltac no_wrap :=
  repeat match goal with
  | |- context [to_int64 ?z] => rewrite (to_int64_small z) by int_range
  | |- context [to_uint64 ?z] => rewrite (to_uint64_small z) by int_range
  end.

(** ** Bytes *)

Definition byte_val (b : byte) : Z := Z.of_N (Byte.to_N b).

(** Conversion to [byte], modulo 256. *)
Definition byte_of (z : Z) : byte :=
  match Byte.of_N (Z.to_N (z mod 256)) with
  | Some b => b
  | None => x00
  end.

Lemma byte_val_range b : 0 <= byte_val b < 256.
Proof.
  unfold byte_val. pose proof (Byte.to_N_bounded b). split; [apply N2Z.is_nonneg|lia].
Qed.

Lemma byte_val_of z : byte_val (byte_of z) = z mod 256.
Proof.
  unfold byte_val, byte_of.
  pose proof (Z.mod_pos_bound z 256 eq_refl).
  destruct (Byte.of_N (Z.to_N (z mod 256))) as [b|] eqn:E.
  - apply Byte.to_of_N in E. rewrite E. lia.
  - apply Byte.of_N_None_iff in E. lia.
Qed.

Lemma byte_val_inj a b : byte_val a = byte_val b -> a = b.
Proof.
  unfold byte_val. intros H%N2Z.inj.
  pose proof (Byte.of_to_N a). pose proof (Byte.of_to_N b). congruence.
Qed.

Lemma byte_of_val b : byte_of (byte_val b) = b.
Proof.
  apply byte_val_inj. rewrite byte_val_of.
  apply Z.mod_small, byte_val_range.
Qed.

Global Instance byte_eq_dec : EqDecision byte := Byte.byte_eq_dec.

(** ** [encoding/binary.LittleEndian] *)

Fixpoint le_bytes (n : nat) (z : Z) : list byte :=
  match n with
  | O => []
  | S n => byte_of z :: le_bytes n (z / 256)
  end.

Fixpoint le_val (l : list byte) : Z :=
  match l with
  | [] => 0
  | b :: l => byte_val b + 256 * le_val l
  end.

Lemma length_le_bytes n z : length (le_bytes n z) = n.
Proof. revert z; induction n; intros; simpl; auto. Qed.

Lemma le_val_range l : 0 <= le_val l < 256 ^ Z.of_nat (length l).
Proof.
  induction l as [|b l IH]; [simpl; lia|].
  simpl le_val. pose proof (byte_val_range b).
  cbn [length]. rewrite Nat2Z.inj_succ, Z.pow_succ_r by lia. lia.
Qed.

Lemma le_val_bytes n z : le_val (le_bytes n z) = z mod 256 ^ Z.of_nat n.
Proof.
  revert z; induction n as [|n IH]; intros z.
  - simpl. by rewrite Z.mod_1_r.
  - cbn [le_bytes le_val]. rewrite IH, byte_val_of.
    rewrite Nat2Z.inj_succ, Z.pow_succ_r by lia.
    rewrite Z.rem_mul_r by lia. lia.
Qed.

(** ** Slices

    [data[lo:hi]] and [data[i]] with their bound checks. *)

Definition go_slice {E A} (data : list A) (lo hi : nat) : outcome E (list A) :=
  if decide (lo <= hi /\ hi <= length data)%nat
  then Ok (take (hi - lo) (drop lo data))
  else Panic.

Definition go_index {E A} (data : list A) (i : nat) : outcome E A :=
  match data !! i with
  | Some x => Ok x
  | None => Panic
  end.

Lemma go_slice_ok {E A} (data : list A) lo hi :
  (lo <= hi)%nat -> (hi <= length data)%nat ->
  go_slice (E := E) data lo hi = Ok (take (hi - lo) (drop lo data)).
Proof. intros. unfold go_slice. by rewrite decide_True. Qed.

Lemma go_slice_inv {E A} (data : list A) lo hi r :
  go_slice (E := E) data lo hi = Ok r ->
  (lo <= hi)%nat /\ (hi <= length data)%nat /\ r = take (hi - lo) (drop lo data).
Proof. unfold go_slice. case_decide; [|done]. intros [=<-]. tauto. Qed.

(** Reading [data[|pre| : |pre| + |mid|]] out of [pre ++ mid ++ post]. *)
Lemma go_slice_app {E A} (pre mid post : list A) lo hi :
  lo = length pre -> hi = (length pre + length mid)%nat ->
  go_slice (E := E) (pre ++ mid ++ post) lo hi = Ok mid.
Proof.
  intros -> ->. rewrite go_slice_ok; [|lia|rewrite !length_app; lia].
  rewrite drop_app_length.
  replace (length pre + length mid - length pre)%nat with (length mid) by lia.
  by rewrite take_app_length.
Qed.

Lemma go_index_app {E A} (pre post : list A) x i :
  i = length pre -> go_index (E := E) (pre ++ x :: post) i = Ok x.
Proof.
  intros ->. unfold go_index. by rewrite list_lookup_middle.
Qed.

Lemma go_index_ok {E A} (data : list A) i :
  (i < length data)%nat -> exists x, go_index (E := E) data i = Ok x /\ data !! i = Some x.
Proof.
  intros H%lookup_lt_is_Some. unfold go_index. destruct H as [x Hx].
  rewrite Hx. eauto.
Qed.

Create HintDb microfat.
Create Rewrite HintDb lens.
#[export] Hint Rewrite @length_app @length_take @length_drop @length_replicate
  length_le_bytes : lens.
#[export] Hint Resolve to_int64_range to_uint64_range byte_val_range : microfat.

(** Inverts a chain of successful steps. *)
Ltac inv_bind H :=
  repeat match type of H with
  | mbind _ _ = Ok _ =>
      let a := fresh "a" in let Ha := fresh "Ha" in
      apply bind_Ok_inv in H as (a & Ha & H)
  end.

(** Case analysis on the first condition the goal or a hypothesis branches on. *)
Ltac split_if :=
  match goal with
  | |- context [if ?c then _ else _] => destruct c eqn:?
  | H : context [if ?c then _ else _] |- _ => destruct c eqn:?
  end.
