(* ===== verification/GoStrings.v ===== *)
(** * Go's [strings], [strconv] and [unicode] as the program uses them

    A Go string is a sequence of bytes, here [string] (a sequence of 8-bit
    characters).  [strings.TrimSpace], [strings.ToLower] and
    [strings.EqualFold] run a byte loop on ASCII input and leave it for the
    Unicode tables when they meet a byte of value 128 or more.  The loops are
    written out; what the tables do with the rest of the string is the class
    [GoUnicode], so every theorem holds for any version of the tables. *)

From S2P Require Import Prelude.
From stdpp Require Import base list strings gmap.
From Stdlib Require Import ZArith Lia Strings.Byte Strings.Ascii.

Local Open Scope string_scope.

Class GoUnicode := {
  (** [strings.TrimFunc(s, unicode.IsSpace)] *)
  unicode_TrimFunc_IsSpace : string -> string;
  (** [strings.TrimRightFunc(s, unicode.IsSpace)] *)
  unicode_TrimRightFunc_IsSpace : string -> string;
  (** [strings.Map(unicode.ToLower, s)] *)
  unicode_Map_ToLower : string -> string;
  (** the rune loop of [strings.EqualFold] *)
  unicode_EqualFold : string -> string -> bool;
  (** the rune loop of [strings.Fields] *)
  unicode_FieldsFunc_IsSpace : string -> list string
}.

(** ** Characters *)

Definition chr (c : ascii) : N := N_of_ascii c.

Definition non_ascii (c : ascii) : bool := (128 <=? chr c)%N.

Definition is_space (c : ascii) : bool :=
  ((chr c =? 9) || (chr c =? 10) || (chr c =? 11) || (chr c =? 12)
   || (chr c =? 13) || (chr c =? 32))%N.

Definition is_upper (c : ascii) : bool := ((65 <=? chr c) && (chr c <=? 90))%N.

Definition is_digit (c : ascii) : bool := ((48 <=? chr c) && (chr c <=? 57))%N.

Definition lower_char (c : ascii) : ascii :=
  if is_upper c then ascii_of_N (chr c + 32) else c.

Definition digit_val (c : ascii) : Z := Z.of_N (chr c) - 48.

(** ** Generic string functions *)

Fixpoint smap (f : ascii -> ascii) (s : string) : string :=
  match s with
  | "" => ""
  | String c s => String (f c) (smap f s)
  end.

Fixpoint sforallb (p : ascii -> bool) (s : string) : bool :=
  match s with
  | "" => true
  | String c s => p c && sforallb p s
  end.

Fixpoint srev_app (s acc : string) : string :=
  match s with
  | "" => acc
  | String c s => srev_app s (String c acc)
  end.

Definition srev (s : string) : string := srev_app s "".

Fixpoint sdrop (n : nat) (s : string) : string :=
  match n, s with
  | O, _ => s
  | S _, "" => ""
  | S n, String _ s => sdrop n s
  end.

Fixpoint stake (n : nat) (s : string) : string :=
  match n, s with
  | O, _ => ""
  | S _, "" => ""
  | S n, String c s => String c (stake n s)
  end.

Definition is_ascii (s : string) : bool := sforallb (fun c => negb (non_ascii c)) s.

(** ** [strings] *)

Definition HasPrefix (s prefix : string) : bool := String.prefix prefix s.

Definition TrimPrefix (s prefix : string) : string :=
  if HasPrefix s prefix then sdrop (String.length prefix) s else s.

Definition HasSuffix (s suffix : string) : bool :=
  String.prefix (srev suffix) (srev s).

Definition TrimSuffix (s suffix : string) : string :=
  if HasSuffix s suffix then stake (String.length s - String.length suffix) s else s.

(** [strings.Split(s, sep)] for a one-byte separator. *)
Fixpoint Split (s : string) (sep : ascii) : list string :=
  match s with
  | "" => [""]
  | String c s =>
      if Ascii.eqb c sep then "" :: Split s sep
      else match Split s sep with
           | [] => [String c ""]
           | p :: ps => String c p :: ps
           end
  end.

(** [strings.SplitN(s, sep, 1 + n)] for a one-byte separator. *)
Fixpoint SplitN (s : string) (sep : ascii) (n : nat) : list string :=
  match s with
  | "" => [""]
  | String c s' =>
      match n with
      | O => [s]
      | S m =>
          if Ascii.eqb c sep then "" :: SplitN s' sep m
          else match SplitN s' sep n with
               | [] => [String c ""]
               | p :: ps => String c p :: ps
               end
      end
  end.

(** [strings.Join(parts, sep)] *)
Fixpoint strings_Join (parts : list string) (sep : string) : string :=
  match parts with
  | [] => ""
  | [p] => p
  | p :: ps => p ++ sep ++ strings_Join ps sep
  end.

(** [strings.ReplaceAll(s, old, new)] for one-byte strings. *)
Definition ReplaceAll (s : string) (old new : ascii) : string :=
  smap (fun c => if Ascii.eqb c old then new else c) s.

Section Unicode.
Context {GU : GoUnicode}.

(** The backward loop of [strings.TrimSpace], on the reversed string. *)
Fixpoint trim_hi (r : string) : string :=
  match r with
  | "" => ""
  | String c r' =>
      if non_ascii c then unicode_TrimRightFunc_IsSpace (srev r)
      else if is_space c then trim_hi r'
      else srev r
  end.

Fixpoint TrimSpace (s : string) : string :=
  match s with
  | "" => ""
  | String c s' =>
      if non_ascii c then unicode_TrimFunc_IsSpace s
      else if is_space c then TrimSpace s'
      else trim_hi (srev s)
  end.

Definition ToLower (s : string) : string :=
  if is_ascii s then smap lower_char s else unicode_Map_ToLower s.

Definition fold_char_eq (a b : ascii) : bool := Ascii.eqb (lower_char a) (lower_char b).

Fixpoint EqualFold (s t : string) : bool :=
  match s, t with
  | "", "" => true
  | String a s', String b t' =>
      if non_ascii a || non_ascii b then unicode_EqualFold s t
      else fold_char_eq a b && EqualFold s' t'
  | _, _ => false
  end.

(** The ASCII loop of [strings.Fields]: maximal runs of non-space bytes. *)
Fixpoint fields_aux (s cur : string) : list string :=
  match s with
  | "" => if String.eqb cur "" then [] else [srev cur]
  | String c s =>
      if is_space c
      then if String.eqb cur "" then fields_aux s "" else srev cur :: fields_aux s ""
      else fields_aux s (String c cur)
  end.

Definition Fields (s : string) : list string :=
  if is_ascii s then fields_aux s "" else unicode_FieldsFunc_IsSpace s.
End Unicode.

(** ** [strconv] *)

(** The digits of a nonempty decimal string, most significant first. *)
Fixpoint dec_val_aux (s : string) (acc : Z) : option Z :=
  match s with
  | "" => Some acc
  | String c s => if is_digit c then dec_val_aux s (acc * 10 + digit_val c) else None
  end.

Definition dec_val (s : string) : option Z :=
  if String.eqb s "" then None else dec_val_aux s 0.

(** [strconv.ParseInt(s, 10, 64)] and, on 64-bit targets, [strconv.Atoi(s)]:
    an optional sign, then digits only; out of range is an error. *)
Definition ParseInt (s : string) : option Z :=
  let '(neg, body) :=
    match s with
    | String "-" t => (true, t)
    | String "+" t => (false, t)
    | _ => (false, s)
    end in
  match dec_val body with
  | None => None
  | Some v =>
      if neg then if (v <=? 2 ^ 63)%Z then Some (- v)%Z else None
      else if (v <? 2 ^ 63)%Z then Some v else None
  end.

Definition digit_char (d : Z) : ascii := ascii_of_N (Z.to_N (d + 48)).

(** Decimal digits of [n >= 0]; [fuel] bounds their number. *)
Fixpoint dec_digits (fuel : nat) (n : Z) (acc : string) : string :=
  match fuel with
  | O => acc
  | S fuel =>
      let acc := String (digit_char (n mod 10)) acc in
      if (n <? 10)%Z then acc else dec_digits fuel (n / 10) acc
  end.

(** [strconv.Itoa] and [fmt.Sprintf("%d", n)]; an [int64] has at most 19
    digits. *)
Definition Itoa (n : Z) : string :=
  if (n <? 0)%Z then "-" ++ dec_digits 20 (- n) "" else dec_digits 20 n "".

(** ** Byte slices and strings: conversions that copy the bytes *)

Abbreviation bytes_of := String.list_byte_of_string.
Abbreviation string_of := String.string_of_list_byte.

(** ** Lemmas on the generic functions *)

Fixpoint slast (s : string) : option ascii :=
  match s with
  | "" => None
  | String c "" => Some c
  | String _ s => slast s
  end.

Lemma sapp_cons c s t : String c s ++ t = String c (s ++ t).
Proof. done. Qed.

Lemma sapp_nil_l s : "" ++ s = s.
Proof. done. Qed.

Lemma sapp_nil_r s : s ++ "" = s.
Proof. induction s as [|c s IH]; [done|]. by rewrite !sapp_cons, IH. Qed.

Lemma sapp_assoc s t u : (s ++ t) ++ u = s ++ (t ++ u).
Proof. induction s as [|c s IH]; [done|]. by rewrite !sapp_cons, IH. Qed.

Lemma stake_app s t : stake (String.length s) (s ++ t) = s.
Proof. induction s; rewrite ?sapp_cons, ?sapp_nil_l; cbn; [by destruct t|congruence]. Qed.

Lemma sdrop_app s t : sdrop (String.length s) (s ++ t) = t.
Proof. induction s; rewrite ?sapp_cons, ?sapp_nil_l; cbn; [by destruct t|done]. Qed.

Lemma slength_app s t : String.length (s ++ t) = (String.length s + String.length t)%nat.
Proof. induction s; rewrite ?sapp_cons, ?sapp_nil_l; cbn; congruence. Qed.

Lemma nonempty_length (s : string) : s <> "" <-> String.length s <> 0%nat.
Proof. by destruct s. Qed.

Lemma srev_app_spec s acc : srev_app s acc = srev s ++ acc.
Proof.
  unfold srev. revert acc. induction s as [|c s IH]; intros acc; [done|]. simpl.
  rewrite IH, (IH (String c "")), sapp_assoc. done.
Qed.

Lemma srev_cons c s : srev (String c s) = srev s ++ String c "".
Proof. unfold srev at 1. simpl. apply srev_app_spec. Qed.

Lemma srev_app_distr s t : srev (s ++ t) = srev t ++ srev s.
Proof.
  induction s as [|c s IH].
  - by rewrite sapp_nil_r.
  - by rewrite sapp_cons, !srev_cons, IH, sapp_assoc.
Qed.

Lemma srev_involutive s : srev (srev s) = s.
Proof.
  induction s as [|c s IH]; [done|]. rewrite srev_cons, srev_app_distr, IH. done.
Qed.

Lemma slast_app_cons s c t : slast (s ++ String c t) = slast (String c t).
Proof.
  induction s as [|a s IH]; [done|]. rewrite <- IH, sapp_cons. simpl.
  destruct (s ++ String c t) eqn:E; [by destruct s|done].
Qed.

(** A nonempty string reversed starts with its last character. *)
Lemma srev_slast s c : slast s = Some c -> exists r, srev s = String c r.
Proof.
  intros H. destruct (srev s) as [|d r] eqn:E.
  - apply (f_equal srev) in E. rewrite srev_involutive in E. by subst.
  - apply (f_equal srev) in E. rewrite srev_involutive, srev_cons in E.
    rewrite E, slast_app_cons in H. simplify_eq/=. eauto.
Qed.

Lemma slast_nonempty s : s <> "" -> is_Some (slast s).
Proof.
  induction s as [|c [|d s] IH]; intros H; [done|by eexists|]. apply IH. done.
Qed.

Lemma slast_sdrop n s : sdrop n s <> "" -> slast (sdrop n s) = slast s.
Proof.
  revert s. induction n as [|n IH]; intros [|c s] H; try done.
  cbn [sdrop] in *. rewrite (IH _ H). destruct s; [by destruct n|done].
Qed.

Lemma slast_smap f s : slast (smap f s) = f <$> slast s.
Proof. induction s as [|c [|d s] IH]; done. Qed.

Lemma sforallb_app p s t : sforallb p (s ++ t) = sforallb p s && sforallb p t.
Proof.
  induction s; [done|]. rewrite sapp_cons. simpl. by rewrite IHs, andb_assoc.
Qed.

Lemma sforallb_srev p s : sforallb p (srev s) = sforallb p s.
Proof.
  induction s as [|c s IH]; [done|].
  rewrite srev_cons, sforallb_app, IH. simpl. rewrite andb_true_r. apply andb_comm.
Qed.

Lemma sforallb_sdrop p n s : sforallb p s = true -> sforallb p (sdrop n s) = true.
Proof.
  revert s; induction n as [|n IH]; intros [|c s]; simpl; auto.
  intros [_ H]%andb_prop. auto.
Qed.

Lemma sforallb_smap p f s :
  sforallb p (smap f s) = sforallb (fun c => p (f c)) s.
Proof. induction s; simpl; congruence. Qed.

Lemma sforallb_impl (p q : ascii -> bool) s :
  (forall c, p c = true -> q c = true) -> sforallb p s = true -> sforallb q s = true.
Proof.
  intros Hpq. induction s; simpl; [done|].
  intros [H1 H2]%andb_prop. rewrite Hpq; auto.
Qed.

Lemma smap_id f s : sforallb (fun c => Ascii.eqb (f c) c) s = true -> smap f s = s.
Proof.
  induction s; simpl; [done|].
  intros [H1%Ascii.eqb_eq H2]%andb_prop. rewrite H1, IHs; auto.
Qed.

Lemma slast_forallb p s c : sforallb p s = true -> slast s = Some c -> p c = true.
Proof.
  induction s as [|d [|e s] IH]; [done| |].
  - simpl. intros [H _]%andb_prop ?. by simplify_eq.
  - intros [_ H]%andb_prop Hl. apply IH; auto.
Qed.

Lemma HasPrefix_char c s : HasPrefix s (String c "") = true -> exists s', s = String c s'.
Proof.
  destruct s as [|d s]; [done|]. unfold HasPrefix. cbn [String.prefix].
  destruct (ascii_dec c d) as [<-|]; [eauto|done].
Qed.

(** Facts about characters, by running through the 256 of them. *)
Ltac all_chars c := destruct c as [[] [] [] [] [] [] [] []]; vm_compute; (reflexivity || congruence).

Lemma lower_char_idem c : Ascii.eqb (lower_char (lower_char c)) (lower_char c) = true.
Proof. all_chars c. Qed.

Lemma lower_char_ascii c : non_ascii (lower_char c) = non_ascii c.
Proof. all_chars c. Qed.

Lemma lower_char_space c : is_space (lower_char c) = is_space c.
Proof. all_chars c. Qed.

(** ** [TrimSpace], [ToLower] and prefixes on ASCII strings *)

(** Nonempty, ASCII, lower case, and without a space at the end. *)
Definition clean (s : string) : Prop :=
  is_ascii s = true /\ sforallb (fun c => Ascii.eqb (lower_char c) c) s = true /\
  exists c, slast s = Some c /\ is_space c = false.

Section UnicodeLemmas.
Context {GU : GoUnicode}.

Lemma trim_hi_ascii r :
  is_ascii r = true ->
  trim_hi r = "" \/
  (exists c, slast (trim_hi r) = Some c /\ is_space c = false) /\ is_ascii (trim_hi r) = true.
Proof.
  induction r as [|c r IH]; [by left|]. unfold is_ascii. simpl.
  intros [Hc Hr]%andb_prop. apply negb_true_iff in Hc. rewrite Hc.
  destruct (is_space c) eqn:Es; [by apply IH|right]. split.
  - exists c. by rewrite srev_cons, slast_app_cons.
  - unfold is_ascii. rewrite sforallb_srev. simpl. by rewrite Hc, Hr.
Qed.

Lemma TrimSpace_ascii s :
  is_ascii s = true ->
  TrimSpace s = "" \/
  (exists c, slast (TrimSpace s) = Some c /\ is_space c = false) /\
  is_ascii (TrimSpace s) = true.
Proof.
  induction s as [|c s IH]; [by left|]. unfold is_ascii.
  cbn [TrimSpace sforallb]. intros Hs. pose proof Hs as [Hc Hr]%andb_prop.
  apply negb_true_iff in Hc. rewrite Hc.
  destruct (is_space c); [by apply IH|].
  apply trim_hi_ascii. unfold is_ascii. by rewrite sforallb_srev.
Qed.

(** A string with no space at either end is left alone. *)
Lemma TrimSpace_clean c s :
  is_space c = false -> clean (String c s) -> TrimSpace (String c s) = String c s.
Proof.
  intros Hc (Ha & _ & d & Hl & Hd).
  pose proof (slast_forallb _ _ _ Ha Hl) as Hda%negb_true_iff.
  unfold is_ascii in Ha. simpl in Ha. apply andb_prop in Ha as [Hca _].
  apply negb_true_iff in Hca.
  cbn [TrimSpace]. rewrite Hca, Hc.
  destruct (srev_slast _ _ Hl) as [r Hr]. rewrite Hr. cbn [trim_hi].
  by rewrite Hda, Hd, <- Hr, srev_involutive.
Qed.

Lemma ToLower_clean s : clean s -> ToLower s = s.
Proof.
  intros (Ha & Hl & _). unfold ToLower. rewrite Ha. by apply smap_id.
Qed.

Lemma ToLower_TrimSpace_clean s :
  is_ascii s = true -> ToLower (TrimSpace s) = "" \/ clean (ToLower (TrimSpace s)).
Proof.
  intros Hs. destruct (TrimSpace_ascii s Hs) as [->|[(c & Hc & Hsp) Ha]]; [by left|right].
  unfold ToLower. rewrite Ha. repeat split.
  - unfold is_ascii in *. rewrite sforallb_smap.
    eapply sforallb_impl; [|exact Ha]. intros d Hd. by rewrite lower_char_ascii.
  - rewrite sforallb_smap. eapply sforallb_impl; [|exact Ha].
    intros d _. apply lower_char_idem.
  - exists (lower_char c). rewrite slast_smap, Hc. by rewrite lower_char_space.
Qed.

Lemma TrimPrefix_clean s p : s = "" \/ clean s -> TrimPrefix s p = "" \/ clean (TrimPrefix s p).
Proof.
  intros [->|(Ha & Hl & c & Hc & Hs)].
  - left. unfold TrimPrefix. destruct (HasPrefix "" p); [by destruct p|done].
  - unfold TrimPrefix. destruct (HasPrefix s p); [|right; repeat split; eauto].
    destruct (decide (sdrop (String.length p) s = "")) as [->|Hne]; [by left|right].
    repeat split; try by apply sforallb_sdrop.
    exists c. by rewrite slast_sdrop.
Qed.

Lemma clean_cons c s :
  non_ascii c = false -> lower_char c = c -> clean s -> clean (String c s).
Proof.
  intros Hc Hlc (Ha & Hl & d & Hd & Hs). repeat split.
  - unfold is_ascii in *. simpl. by rewrite Hc, Ha.
  - simpl. by rewrite Hlc, Ascii.eqb_refl, Hl.
  - exists d. destruct s; done.
Qed.
End UnicodeLemmas.

(** The tables restricted to ASCII: what the concrete examples run on. *)
Definition ascii_tables : GoUnicode := {|
  unicode_TrimFunc_IsSpace := fun s => s;
  unicode_TrimRightFunc_IsSpace := fun s => s;
  unicode_Map_ToLower := smap lower_char;
  unicode_EqualFold := String.eqb;
  unicode_FieldsFunc_IsSpace := fun s => [s]
|}.
