(* ===== verification/GoPath.v ===== *)
(** * Go's [path/filepath] on Unix: [Clean], [Join] and [Dir]

    The lexical rules of [filepath.Clean] on the components between slashes,
    and the facts a walk up a directory tree needs: going to the parent makes
    a path shorter until it is a fixed point, and takes exactly the last
    component off a clean absolute path. *)

From S2P Require Import Prelude GoStrings.
From stdpp Require Import base list strings.
From Stdlib Require Import ZArith Lia Strings.Ascii.

Local Open Scope string_scope.

Definition slash : ascii := "/"%char.

(** The components kept so far, last first: a double dot takes the last one
    away, or stays when the path is relative and there is none. *)
Definition clean_step (rooted : bool) (kept : list string) (c : string) : list string :=
  if String.eqb c "" || String.eqb c "." then kept
  else if String.eqb c ".." then
    match kept with
    | top :: rest => if String.eqb top ".." then ".." :: kept else rest
    | [] => if rooted then [] else [".."]
    end
  else c :: kept.

Definition clean_components (rooted : bool) (cs : list string) : list string :=
  rev (foldl (clean_step rooted) [] cs).

Definition is_rooted (path : string) : bool := HasPrefix path "/".

Definition filepath_Clean (path : string) : string :=
  let rooted := is_rooted path in
  let kept := clean_components rooted (Split path slash) in
  if rooted then "/" ++ strings_Join kept "/"
  else match kept with [] => "." | _ => strings_Join kept "/" end.

(** [Join] ignores empty elements at the front. *)
Fixpoint filepath_Join (elems : list string) : string :=
  match elems with
  | [] => ""
  | e :: rest =>
      if String.eqb e "" then filepath_Join rest else filepath_Clean (strings_Join elems "/")
  end.

(** Everything up to the last slash, included. *)
Fixpoint up_to_last_slash (path : string) : string :=
  match path with
  | "" => ""
  | String c rest =>
      let r := up_to_last_slash rest in
      if String.eqb r "" then if Ascii.eqb c slash then String c "" else "" else String c r
  end.

Definition filepath_Dir (path : string) : string := filepath_Clean (up_to_last_slash path).

(** [filepath.Base]: the last element; trailing slashes do not count. *)
Definition filepath_Base (path : string) : string :=
  if String.eqb path "" then "."
  else match last (List.filter (fun c => negb (String.eqb c "")) (Split path slash)) with
       | Some c => c
       | None => "/"
       end.

Fixpoint strip_common (base targ : list string) : list string * list string :=
  match base, targ with
  | b :: base', t :: targ' => if String.eqb b t then strip_common base' targ' else (base, targ)
  | _, _ => (base, targ)
  end.

(** [filepath.Rel]; [None] when no relative path can be made without knowing
    the current directory. *)
Definition filepath_Rel (basepath targpath : string) : option string :=
  let base := filepath_Clean basepath in
  let targ := filepath_Clean targpath in
  let solid p := List.filter (fun c => negb (String.eqb c "" || String.eqb c ".")) (Split p slash) in
  if String.eqb targ base then Some "."
  else if negb (Bool.eqb (is_rooted base) (is_rooted targ)) then None
  else
    let '(b, t) := strip_common (solid base) (solid targ) in
    match b with
    | ".." :: _ => None
    | _ => Some (strings_Join (replicate (length b) ".." ++ t)%list "/")
    end.

(** ** Lengths *)

(** Every component with a slash. *)
Definition path_weight (cs : list string) : nat :=
  sum_list_with (fun c => S (String.length c)) cs.

Lemma path_weight_rev cs : path_weight (rev cs) = path_weight cs.
Proof.
  unfold path_weight. induction cs as [|c cs IH]; [done|].
  cbn [rev]. rewrite sum_list_with_app, IH. cbn. lia.
Qed.

Lemma clean_step_weight rooted kept c :
  (path_weight (clean_step rooted kept c) <= path_weight kept +
   (if String.eqb c "" then 0 else S (String.length c)))%nat.
Proof.
  unfold clean_step. destruct (String.eqb_spec c ""); cbn [orb]; [lia|].
  destruct (String.eqb c "."); [lia|].
  destruct (String.eqb_spec c ".."); [subst|unfold path_weight; cbn [sum_list_with]; lia].
  destruct kept as [|top rest]; [by destruct rooted; unfold path_weight; cbn; lia|].
  destruct (String.eqb top ".."); unfold path_weight; cbn [sum_list_with String.length]; lia.
Qed.

(** The weight of the components that are not empty. *)
Definition solid_weight (cs : list string) : nat :=
  sum_list_with (fun c => if String.eqb c "" then 0%nat else S (String.length c)) cs.

Lemma clean_components_weight rooted cs :
  (path_weight (clean_components rooted cs) <= solid_weight cs)%nat.
Proof.
  unfold clean_components. rewrite path_weight_rev.
  enough (forall kept, (path_weight (foldl (clean_step rooted) kept cs) <=
                        path_weight kept + solid_weight cs)%nat) as H.
  { specialize (H []). cbn in H. lia. }
  induction cs as [|c cs IH]; intros kept; cbn [foldl]; [cbn; lia|].
  specialize (IH (clean_step rooted kept c)). pose proof (clean_step_weight rooted kept c).
  unfold solid_weight in *. cbn [sum_list_with]. lia.
Qed.

Lemma length_join cs : String.length (strings_Join cs "/") = (path_weight cs - 1)%nat.
Proof.
  induction cs as [|c cs IH]; [done|]. destruct cs as [|d cs]; [cbn; lia|].
  change (strings_Join (c :: d :: cs) "/") with (c ++ "/" ++ strings_Join (d :: cs) "/").
  rewrite !slength_app, IH. cbn. lia.
Qed.

Lemma Split_nonempty s sep : Split s sep <> [].
Proof. destruct s as [|c s]; [done|]. cbn. destruct (Ascii.eqb c sep); [done|]. by case_match. Qed.

Lemma Split_weight s : path_weight (Split s slash) = S (String.length s).
Proof.
  unfold path_weight. induction s as [|c s IH]; [done|]. cbn [Split].
  destruct (Ascii.eqb c slash); [cbn [sum_list_with String.length]; lia|].
  destruct (Split s slash) eqn:E; [by apply Split_nonempty in E|].
  cbn [sum_list_with String.length] in *. lia.
Qed.

Lemma Split_app p q : Split (p ++ String slash q) slash = (Split p slash ++ Split q slash)%list.
Proof.
  induction p as [|c p IH]; [by rewrite sapp_nil_l|]. rewrite sapp_cons. cbn [Split].
  destruct (Ascii.eqb c slash); [by rewrite IH|].
  rewrite IH. destruct (Split p slash) eqn:E; [by apply Split_nonempty in E|]. done.
Qed.

Lemma solid_le_path cs : (solid_weight cs <= path_weight cs)%nat.
Proof.
  unfold solid_weight, path_weight. induction cs as [|c cs IH]; [done|].
  cbn [sum_list_with]. destruct (String.eqb c ""); lia.
Qed.

Lemma solid_weight_app a b : solid_weight (a ++ b) = (solid_weight a + solid_weight b)%nat.
Proof. apply sum_list_with_app. Qed.

Lemma HasPrefix_slash c s : HasPrefix (String c s) "/" = Ascii.eqb c slash.
Proof.
  unfold HasPrefix. cbn [String.prefix].
  destruct (Ascii.eqb_spec c slash) as [->|Hne].
  - destruct (ascii_dec _ _); [by destruct s|done].
  - destruct (ascii_dec _ _); [by destruct Hne|done].
Qed.

Lemma clean_shorter q :
  q <> "" -> (String.length (filepath_Clean (q ++ "/")) <= String.length q)%nat.
Proof.
  intros Hq. unfold filepath_Clean. set (rooted := is_rooted (q ++ "/")).
  change (q ++ "/") with (q ++ String slash ""). rewrite Split_app. cbn [Split].
  set (kept := clean_components _ _).
  assert (path_weight kept <= solid_weight (Split q slash))%nat as Hk.
  { unfold kept. etransitivity; [apply clean_components_weight|].
    rewrite solid_weight_app. cbn. lia. }
  pose proof (solid_le_path (Split q slash)). rewrite Split_weight in *.
  apply nonempty_length in Hq as Hq'. destruct rooted eqn:E.
  - rewrite sapp_cons, sapp_nil_l. cbn [String.length]. rewrite length_join.
    destruct q as [|c q']; [done|]. unfold rooted, is_rooted in E.
    rewrite sapp_cons, HasPrefix_slash in E. apply Ascii.eqb_eq in E as ->.
    cbn [Split] in Hk. rewrite Ascii.eqb_refl in Hk.
    pose proof (solid_le_path (Split q' slash)). rewrite Split_weight in *.
    unfold solid_weight in Hk at 1. cbn [sum_list_with String.eqb] in Hk.
    fold (solid_weight (Split q' slash)) in Hk. cbn [String.length] in *. lia.
  - destruct kept as [|k ks] eqn:Ek; [cbn; lia|]. rewrite <- Ek in *.
    rewrite length_join. lia.
Qed.

Lemma up_to_last_slash_cases s :
  up_to_last_slash s = "" \/
  exists q r, up_to_last_slash s = q ++ "/" /\ s = q ++ String slash r.
Proof.
  induction s as [|c s IH]; [by left|]. cbn [up_to_last_slash].
  destruct IH as [->|(q & r & E & ->)].
  - cbn. destruct (Ascii.eqb_spec c slash) as [->|]; [right; by exists "", s|by left].
  - right. exists (String c q), r. rewrite E, !sapp_cons.
    destruct (String.eqb_spec (q ++ "/") ""); [by destruct q|done].
Qed.

(** The parent of a path is the path itself, or shorter; on a path of at most
    one character it is a fixed point. *)
Lemma Dir_shrinks s :
  filepath_Dir s = s \/ (String.length (filepath_Dir s) < String.length s)%nat \/
  (String.length s <= 1)%nat /\ filepath_Dir (filepath_Dir s) = filepath_Dir s.
Proof.
  unfold filepath_Dir at 1 2. destruct (up_to_last_slash_cases s) as [E|(q & r & E & ->)].
  - rewrite E. change (filepath_Clean "") with ".". destruct s as [|c [|d s]].
    + right. right. split; [cbn; lia|]. reflexivity.
    + right. right. split; [cbn; lia|]. unfold filepath_Dir. rewrite E. reflexivity.
    + right. left. cbn. lia.
  - rewrite E. destruct (decide (q = "")) as [->|Hq].
    + rewrite !sapp_nil_l. change (filepath_Clean "/") with "/".
      destruct r as [|c r]; [by left|right; left; cbn; lia].
    + right. left. pose proof (clean_shorter q Hq). rewrite slength_app. cbn [String.length]. lia.
Qed.

(** ** Clean absolute paths *)

(** A component that [Clean] keeps. *)
Definition plain (c : string) : Prop :=
  c <> "" /\ c <> "." /\ c <> ".." /\ Split c slash = [c].

(** [/c1/c2/...]; the root is [/]. *)
Definition abs_path (cs : list string) : string := "/" ++ strings_Join cs "/".

Lemma clean_step_plain rooted kept c : plain c -> clean_step rooted kept c = c :: kept.
Proof.
  intros (H1 & H2 & H3 & _). unfold clean_step.
  by rewrite !(proj2 (String.eqb_neq _ _)).
Qed.

Lemma foldl_plain rooted kept cs :
  Forall plain cs -> foldl (clean_step rooted) kept cs = (rev cs ++ kept)%list.
Proof.
  revert kept. induction cs as [|c cs IH]; intros kept Hp; [done|].
  inversion Hp; subst. cbn [foldl rev]. rewrite clean_step_plain, IH by done.
  by rewrite <- app_assoc.
Qed.

Lemma Split_join c cs :
  Forall plain (c :: cs) -> Split (strings_Join (c :: cs) "/") slash = c :: cs.
Proof.
  revert c. induction cs as [|d cs IH]; intros c Hp.
  { inversion Hp as [|? ? (_ & _ & _ & H) _]; subst. done. }
  inversion Hp as [|? ? (_ & _ & _ & H) Hp']; subst.
  change (strings_Join (c :: d :: cs) "/")
    with (c ++ String slash (strings_Join (d :: cs) "/")).
  by rewrite Split_app, H, IH.
Qed.

Lemma join_app c cs d :
  strings_Join ((c :: cs) ++ [d]) "/" = strings_Join (c :: cs) "/" ++ String slash d.
Proof.
  revert c. induction cs as [|e cs IH]; intros c; [done|].
  change (strings_Join ((c :: e :: cs) ++ [d]) "/")
    with (c ++ "/" ++ strings_Join ((e :: cs) ++ [d]) "/").
  rewrite IH. change (strings_Join (c :: e :: cs) "/") with (c ++ "/" ++ strings_Join (e :: cs) "/").
  by rewrite !sapp_assoc.
Qed.

Lemma up_to_last_slash_app q r :
  Split r slash = [r] -> up_to_last_slash (q ++ String slash r) = q ++ "/".
Proof.
  intros Hr. assert (up_to_last_slash r = "") as H0.
  { induction r as [|c r IH]; [done|]. cbn [Split up_to_last_slash] in *.
    destruct (Ascii.eqb c slash); [by destruct (Split r slash)|].
    destruct (Split r slash) as [|p ps] eqn:E; [by apply Split_nonempty in E|].
    injection Hr as -> ->. by rewrite IH. }
  induction q as [|c q IH].
  - rewrite !sapp_nil_l. cbn [up_to_last_slash]. rewrite H0. cbn. done.
  - rewrite !sapp_cons. cbn [up_to_last_slash]. rewrite IH.
    by destruct (String.eqb_spec (q ++ "/") ""); [destruct q|].
Qed.

(** The parent of [/c1/.../cn/d] is [/c1/.../cn]. *)
Lemma Dir_abs_path cs d :
  Forall plain cs -> plain d -> filepath_Dir (abs_path (cs ++ [d])) = abs_path cs.
Proof.
  intros Hcs (_ & _ & _ & Hd). unfold filepath_Dir, abs_path.
  destruct cs as [|c cs].
  - cbn [app strings_Join]. change ("/" ++ d) with ("" ++ String slash d).
    by rewrite up_to_last_slash_app.
  - rewrite join_app, <- sapp_assoc, up_to_last_slash_app by done.
    unfold filepath_Clean, is_rooted.
    rewrite !sapp_assoc, !(sapp_cons slash "") , !sapp_nil_l, HasPrefix_slash. cbn [Ascii.eqb Bool.eqb].
    cbn [Split]. change (Ascii.eqb "/" slash) with true. cbv iota.
    change (strings_Join (c :: cs) "/" ++ "/") with (strings_Join (c :: cs) "/" ++ String slash "").
    rewrite Split_app, Split_join by done. unfold clean_components.
    change (Ascii.eqb slash slash) with true. cbv iota.
    change (foldl (clean_step true) [] ("" :: ?l)) with (foldl (clean_step true) [] l).
    rewrite foldl_app, (foldl_plain true []) by exact Hcs. cbn [foldl Split].
    change (clean_step true ?k "") with k. rewrite app_nil_r, rev_involutive. done.
Qed.

Lemma join_app_r c cs d ds :
  strings_Join ((c :: cs) ++ d :: ds) "/" =
  strings_Join (c :: cs) "/" ++ "/" ++ strings_Join (d :: ds) "/".
Proof.
  revert c. induction cs as [|e cs IH]; intros c; [done|].
  change (strings_Join ((c :: e :: cs) ++ d :: ds) "/")
    with (c ++ "/" ++ strings_Join ((e :: cs) ++ d :: ds) "/").
  rewrite IH. change (strings_Join (c :: e :: cs) "/") with (c ++ "/" ++ strings_Join (e :: cs) "/").
  by rewrite !sapp_assoc.
Qed.

Lemma HasPrefix_app p q : HasPrefix (p ++ q) p = true.
Proof.
  unfold HasPrefix. induction p as [|c p IH]; [rewrite sapp_nil_l; by destruct q|].
  rewrite sapp_cons. cbn [String.prefix]. by destruct (ascii_dec c c).
Qed.

Lemma length_abs_path cs :
  String.length (abs_path cs) = S (path_weight cs - 1).
Proof. unfold abs_path. rewrite slength_app, length_join. done. Qed.

(** [/c1/.../cn], its parent, and so on up to [/r1/.../rm]; the components
    below the root are given last first. *)
Fixpoint ancestors (rs below : list string) : list string :=
  abs_path (rs ++ rev below) ::
  match below with [] => [] | _ :: below => ancestors rs below end.

Lemma abs_path_inj_snoc cs d : plain d -> abs_path cs <> abs_path (cs ++ [d]).
Proof.
  intros (Hd & _) E. apply (f_equal String.length) in E. rewrite !length_abs_path in E.
  apply nonempty_length in Hd. unfold path_weight in E. rewrite sum_list_with_app in E.
  cbn [sum_list_with] in E. lia.
Qed.

Lemma abs_path_inj_app cs ds : Forall plain ds -> abs_path cs = abs_path (cs ++ ds) -> ds = [].
Proof.
  intros Hd E. apply (f_equal String.length) in E. rewrite !length_abs_path in E.
  unfold path_weight in E. rewrite sum_list_with_app in E. destruct ds as [|d ds]; [done|].
  inversion Hd as [|? ? (Hd' & _) _]; subst. apply nonempty_length in Hd'.
  cbn [sum_list_with] in E. lia.
Qed.
