(* ===== verification/GoFloat.v ===== *)
(** * Go's [float64], [math] and [strconv.ParseFloat] as the program uses them

    A [float64] is Rocq's [spec_float] at precision 53; products, quotients and
    differences are its correctly rounded operations, and comparisons compare
    the exact values.  What Go leaves to the platform (the conversion to an
    integer of a value that does not fit) and the numerals the program has no
    use for (hexadecimal, underscores, [Inf] and [NaN]) are the class
    [GoFloat]; every theorem holds for all of its instances. *)

From S2P Require Import Prelude GoStrings.
From stdpp Require Import base list strings.
From Stdlib Require Import ZArith Lia Floats.SpecFloat Strings.Ascii.

Local Open Scope Z_scope.

Abbreviation float64 := spec_float.
Definition prec : Z := 53.
Definition emax : Z := 1024.

Class GoFloat := {
  (** [int64(x)] when the value of [x] is not in the range of [int64] *)
  float_overflow : float64 -> Z;
  (** [strconv.ParseFloat] on a string that is not a plain decimal numeral *)
  parse_float_special : string -> option float64
}.

(** ** Arithmetic *)

Definition float_of_int (z : Z) : float64 := binary_normalize prec emax z 0 false.
Definition fmul (x y : float64) : float64 := SFmul prec emax x y.
Definition fdiv (x y : float64) : float64 := SFdiv prec emax x y.
Definition fsub (x y : float64) : float64 := SFsub prec emax x y.

Definition IsNaN (x : float64) : bool := match x with S754_nan => true | _ => false end.
Definition IsInf (x : float64) : bool := match x with S754_infinity _ => true | _ => false end.

(** The sign and mantissa of a finite value, and its exponent. *)
Definition signed_mantissa (s : bool) (m : positive) : Z := if s then Zneg m else Zpos m.

Definition decode (x : float64) : option (Z * Z) :=
  match x with
  | S754_zero _ => Some (0, 0)
  | S754_finite s m e => Some (signed_mantissa s m, e)
  | _ => None
  end.

(** The comparison of [m1 * 2^e1] with [m2 * 2^e2]. *)
Definition compare_values (v1 v2 : Z * Z) : comparison :=
  let e := Z.min v1.2 v2.2 in
  (v1.1 * 2 ^ (v1.2 - e)) ?= (v2.1 * 2 ^ (v2.2 - e)).

(** [None] when an argument is a NaN: all six comparisons are then false. *)
Definition fcompare (x y : float64) : option comparison :=
  match x, y with
  | S754_nan, _ | _, S754_nan => None
  | S754_infinity s, S754_infinity t =>
      Some (if Bool.eqb s t then Eq else if s then Lt else Gt)
  | S754_infinity s, _ => Some (if s then Lt else Gt)
  | _, S754_infinity t => Some (if t then Gt else Lt)
  | _, _ =>
      match decode x, decode y with
      | Some v1, Some v2 => Some (compare_values v1 v2)
      | _, _ => None
      end
  end.

Definition flt (x y : float64) : bool := bool_decide (fcompare x y = Some Lt).
Definition fle (x y : float64) : bool :=
  bool_decide (fcompare x y = Some Lt) || bool_decide (fcompare x y = Some Eq).
Definition feq (x y : float64) : bool := bool_decide (fcompare x y = Some Eq).
Definition fzero : float64 := S754_zero false.

(** ** Conversion to integers *)

(** The integer part, towards minus infinity, and the nearest integer, halves
    away from zero, of [m * 2^e]. *)
Definition floor_value (v : Z * Z) : Z :=
  if 0 <=? v.2 then v.1 * 2 ^ v.2 else v.1 / 2 ^ (- v.2).

Definition round_value (v : Z * Z) : Z :=
  if 0 <=? v.2 then v.1 * 2 ^ v.2
  else
    let d := 2 ^ (- v.2) in
    if v.1 <? 0 then - ((2 * - v.1 + d) / (2 * d)) else (2 * v.1 + d) / (2 * d).

(** [int64(math.Floor(x))] and [int64(math.Round(x))] *)
Definition int_by `{GoFloat} (f : Z * Z -> Z) (x : float64) : Z :=
  match decode x with
  | Some v =>
      if (- 2 ^ 63 <=? f v) && (f v <? 2 ^ 63) then f v else float_overflow x
  | None => float_overflow x
  end.
Definition int_floor `{GoFloat} : float64 -> Z := int_by floor_value.
Definition int_round `{GoFloat} : float64 -> Z := int_by round_value.

(** ** [strconv.ParseFloat(s, 64)] *)

(** [m * 10^e], correctly rounded. *)
Definition decimal_to_float (neg : bool) (m e : Z) : float64 :=
  if m =? 0 then S754_zero neg
  else if 0 <=? e then
    binary_normalize prec emax (if neg then - (m * 10 ^ e) else m * 10 ^ e) 0 neg
  else
    let '(q, e', l) := SFdiv_core_binary prec emax m 0 (10 ^ (- e)) 0 in
    binary_round_aux prec emax neg q e' l.

(** Digits with at most one point: mantissa, digits behind the point, number
    of digits, and the rest. *)
Fixpoint read_mantissa (s : string) (m : Z) (behind : Z) (dot : bool) (n : nat) :
    option (Z * Z * nat * string) :=
  match s with
  | String c s' =>
      if is_digit c
      then read_mantissa s' (m * 10 + digit_val c) (if dot then behind + 1 else behind) dot (S n)
      else if Ascii.eqb c "." then
        if dot then None else read_mantissa s' m behind true n
      else Some (m, behind, n, s)
  | EmptyString => Some (m, behind, n, s)
  end.

(** The digits of an exponent; Go stops adding them at 10000. *)
Fixpoint read_exponent (s : string) (e : Z) : option Z :=
  match s with
  | EmptyString => Some e
  | String c s =>
      if is_digit c then read_exponent s (if e <? 10000 then e * 10 + digit_val c else e)
      else None
  end.

Definition exponent_part (s : string) : option Z :=
  match s with
  | EmptyString => Some 0
  | String c s =>
      if Ascii.eqb c "e" || Ascii.eqb c "E" then
        let '(neg, s) :=
          match s with
          | String "-" t => (true, t)
          | String "+" t => (false, t)
          | _ => (false, s)
          end in
        if String.eqb s "" then None
        else (fun e => if neg then - e else e) <$> read_exponent s 0
      else None
  end.

Definition decimal_literal (s : string) : option (bool * Z * Z) :=
  let '(neg, body) :=
    match s with
    | String "-" t => (true, t)
    | String "+" t => (false, t)
    | _ => (false, s)
    end in
  '(m, behind, n, rest) ← read_mantissa body 0 0 false 0;
  if (n =? 0)%nat then None else
  e ← exponent_part rest;
  Some (neg, m, e - behind).

Definition ParseFloat `{GoFloat} (s : string) : option float64 :=
  match decimal_literal s with
  | Some (neg, m, e) =>
      let x := decimal_to_float neg m e in
      if IsInf x then None else Some x
  | None => parse_float_special s
  end.

(** Constants of the sources. *)
Definition float_one : float64 := float_of_int 1.

Example float_0_9 : decimal_to_float false 9 (-1) = S754_finite false 8106479329266893 (-53).
Proof. vm_compute. reflexivity. Qed.

(** An instance for examples: amd64 answers the smallest integer. *)
Definition amd64_float : GoFloat :=
  {| float_overflow := fun _ => - 2 ^ 63; parse_float_special := fun _ => None |}.

(** ** Lemmas *)

(** [n <= v] and [v <= n] for an integer [n], without fractions. *)
Definition int_le (n : Z) (v : Z * Z) : Prop :=
  if 0 <=? v.2 then n <= v.1 * 2 ^ v.2 else n * 2 ^ (- v.2) <= v.1.
Definition le_int (v : Z * Z) (n : Z) : Prop :=
  if 0 <=? v.2 then v.1 * 2 ^ v.2 <= n else v.1 <= n * 2 ^ (- v.2).

(** [c * 2^ec] is the integer [n]. *)
Definition is_int (c : Z * Z) (n : Z) : Prop := c.2 <= 0 /\ c.1 = n * 2 ^ (- c.2).

Lemma pow2_split a b : 0 <= a -> 0 <= b -> 2 ^ (a + b) = 2 ^ a * 2 ^ b.
Proof. intros. by apply Z.pow_add_r. Qed.

(** Both sides of a comparison, over a common power of two. *)
Lemma compare_int_scaled c n v :
  is_int c n ->
  exists p, 0 < p /\
    c.1 * 2 ^ (c.2 - Z.min c.2 v.2) = (if 0 <=? v.2 then n else n * 2 ^ (- v.2)) * p /\
    v.1 * 2 ^ (v.2 - Z.min c.2 v.2) = (if 0 <=? v.2 then v.1 * 2 ^ v.2 else v.1) * p.
Proof.
  intros [Hc ->]. destruct c as [c ec], v as [a ea]. cbn [fst snd] in *.
  set (e := Z.min ec ea). destruct (Z.leb_spec 0 ea).
  - assert (e = ec) as -> by lia. exists (2 ^ (- ec)). split; [lia|].
    rewrite Z.sub_diag, Z.mul_1_r. split; [done|].
    replace (ea - ec) with (ea + - ec) by lia. rewrite pow2_split by lia. lia.
  - exists (2 ^ (ea - e)). split; [lia|]. split; [|done].
    rewrite <- !Z.mul_assoc, <- !pow2_split by lia. do 2 f_equal. lia.
Qed.

Lemma not_below_int c n v : is_int c n -> compare_values v c <> Lt -> int_le n v.
Proof.
  intros Hc. destruct (compare_int_scaled c n v Hc) as (p & Hp & E1 & E2).
  unfold compare_values, int_le. rewrite Z.min_comm, E1, E2.
  destruct (0 <=? v.2); intros H; apply Z.nlt_ge; intros Hlt; apply H, Z.compare_lt_iff; nia.
Qed.

Lemma not_above_int c n v : is_int c n -> compare_values c v <> Lt -> le_int v n.
Proof.
  intros Hc. destruct (compare_int_scaled c n v Hc) as (p & Hp & E1 & E2).
  unfold compare_values, le_int. rewrite E1, E2.
  destruct (0 <=? v.2); intros H; apply Z.nlt_ge; intros Hlt; apply H, Z.compare_lt_iff; nia.
Qed.

(** Rounding stays between integer bounds. *)
Lemma round_value_bounds lo hi v :
  0 <= lo -> int_le lo v -> le_int v hi -> lo <= round_value v <= hi.
Proof.
  unfold int_le, le_int, round_value. intros Hlo. destruct (Z.leb_spec 0 v.2); [lia|].
  intros H1 H2. assert (0 < 2 ^ (- v.2)) by lia. set (d := 2 ^ (- v.2)) in *.
  destruct (Z.ltb_spec v.1 0); [nia|]. split.
  - apply Z.div_le_lower_bound; lia.
  - apply Z.lt_succ_r, Z.div_lt_upper_bound; lia.
Qed.

Lemma floor_value_lower n v : int_le n v -> n <= floor_value v.
Proof.
  unfold int_le, floor_value. destruct (Z.leb_spec 0 v.2); [done|]. intros H1.
  assert (0 < 2 ^ (- v.2)) by lia. apply Z.div_le_lower_bound; lia.
Qed.

(** *** Correctly rounded results of nonnegative mantissas are numbers *)

Lemma iter_pos_shr_nonneg p r : 0 <= shr_m r -> 0 <= shr_m (iter_pos shr_1 p r).
Proof.
  revert r. assert (forall r, 0 <= shr_m r -> 0 <= shr_m (shr_1 r)) as Hstep.
  { intros [[|m|m] r s]; cbn; try lia. destruct m; cbn; lia. }
  induction p as [p IH|p IH|]; intros r Hr; cbn [iter_pos]; auto.
Qed.

Lemma shr_fexp_nonneg m e l : 0 <= m -> 0 <= shr_m (fst (shr_fexp prec emax m e l)).
Proof.
  intros Hm. unfold shr_fexp, shr.
  assert (0 <= shr_m (shr_record_of_loc m l)) as H0.
  { unfold shr_record_of_loc. by destruct l as [|[]]. }
  destruct (_ - e); cbn [fst]; try done. by apply iter_pos_shr_nonneg.
Qed.

Lemma round_nearest_even_nonneg m l : 0 <= m -> 0 <= round_nearest_even m l.
Proof. intros. destruct l as [|[]]; cbn; try lia. destruct (Z.even m); lia. Qed.

Lemma binary_round_aux_not_nan s m e l :
  0 <= m -> IsNaN (binary_round_aux prec emax s m e l) = false.
Proof.
  intros Hm. unfold binary_round_aux.
  destruct (shr_fexp prec emax m e l) as [mrs' e'] eqn:E1.
  pose proof (shr_fexp_nonneg m e l Hm) as H1. rewrite E1 in H1. cbn [fst] in H1.
  destruct (shr_fexp prec emax (round_nearest_even (shr_m mrs') (loc_of_shr_record mrs')) e' loc_Exact)
    as [mrs'' e''] eqn:E2.
  pose proof (shr_fexp_nonneg (round_nearest_even (shr_m mrs') (loc_of_shr_record mrs')) e'
    loc_Exact (round_nearest_even_nonneg _ _ H1)) as H2.
  rewrite E2 in H2. cbn [fst] in H2. destruct (shr_m mrs''); [done| |lia].
  by destruct (e'' <=? emax - prec).
Qed.

Lemma binary_normalize_not_nan m e s : IsNaN (binary_normalize prec emax m e s) = false.
Proof.
  unfold binary_normalize. destruct m as [|m|m]; [done| |];
    unfold binary_round; destruct (shl_align _ _ _) as [mz ez]; by apply binary_round_aux_not_nan.
Qed.

(** *** The sign of a quotient and of a product *)

Definition positive_float (x : float64) : Prop :=
  match x with S754_finite false _ _ => True | _ => False end.
Definition nonneg_float (x : float64) : Prop :=
  match x with
  | S754_zero false | S754_infinity false | S754_finite false _ _ => True | _ => False end.

Lemma binary_round_aux_nonneg m e l :
  0 <= m -> nonneg_float (binary_round_aux prec emax false m e l).
Proof.
  intros Hm. pose proof (binary_round_aux_not_nan false m e l Hm) as Hn. revert Hn.
  unfold binary_round_aux. destruct (shr_fexp _ _ _ _ _) as [mrs' e'].
  destruct (shr_fexp _ _ _ _ _) as [mrs'' e'']. destruct (shr_m mrs''); [done| |done].
  by destruct (e'' <=? emax - prec).
Qed.

(** *** Integers convert to finite floats *)

Lemma digits2_bounds p : 2 ^ (Zpos (digits2_pos p) - 1) <= Zpos p < 2 ^ Zpos (digits2_pos p).
Proof.
  assert (forall q, 2 ^ (Zpos (Pos.succ q)) = 2 * 2 ^ (Zpos q)) as Hs.
  { intros q. rewrite Pos2Z.inj_succ, Z.pow_succ_r; lia. }
  assert (forall q, 2 ^ (Zpos (Pos.succ q) - 1) = 2 * 2 ^ (Zpos q - 1)) as Hp.
  { intros q. rewrite Pos2Z.inj_succ.
    replace (Z.succ (Zpos q) - 1) with (Z.succ (Zpos q - 1)) by lia.
    rewrite Z.pow_succ_r; lia. }
  induction p as [p IH|p IH|]; cbn [digits2_pos]; [| |cbn; lia];
    specialize (Hs (digits2_pos p)); specialize (Hp (digits2_pos p)); lia.
Qed.

Lemma iter_pos_shr p r :
  0 <= shr_m r -> shr_m (iter_pos shr_1 p r) = shr_m r / 2 ^ Zpos p.
Proof.
  assert (forall r, 0 <= shr_m r -> shr_m (shr_1 r) = shr_m r / 2) as Hstep.
  { intros [[|m|m] rr s] Hm; [done| |by cbn in Hm; lia]. destruct m; cbn [shr_1 shr_m]; try done.
    - rewrite Pos2Z.inj_xI. by rewrite Z.mul_comm, Z.div_add_l.
    - rewrite Pos2Z.inj_xO. by rewrite Z.mul_comm, Z.div_mul. }
  revert r. induction p as [p IH|p IH|]; intros r Hr; cbn [iter_pos].
  - pose proof (Hstep r Hr) as H1.
    assert (0 <= shr_m r / 2) by (apply Z.div_pos; lia).
    pose proof (IH (shr_1 r) ltac:(lia)) as H2. rewrite H1 in H2.
    assert (0 <= shr_m r / 2 / 2 ^ Zpos p) by (apply Z.div_pos; lia).
    rewrite (IH (iter_pos shr_1 p (shr_1 r))) by lia. rewrite H2, !Z.div_div by lia. f_equal.
    rewrite (Pos2Z.inj_xI p), Z.pow_add_r, Z.pow_1_r, Z.pow_twice_r by lia. lia.
  - pose proof (IH r Hr) as H1. assert (0 <= shr_m r / 2 ^ Zpos p) by (apply Z.div_pos; lia).
    rewrite (IH (iter_pos shr_1 p r)) by lia. rewrite H1, Z.div_div by lia. f_equal.
    by rewrite (Pos2Z.inj_xO p), Z.pow_twice_r.
  - by apply Hstep.
Qed.

(** One shift to the precision: the mantissa stays positive when it does not
    underflow, and the exponent is bounded. *)
Lemma shr_fexp_positive m e l :
  0 < m -> -1074 <= Zdigits2 m - 1 + e ->
  let '(mrs, e') := shr_fexp prec emax m e l in
  0 < shr_m mrs /\ e' = Z.max e (Z.max (Zdigits2 m + e - 53) (-1074)) /\
  shr_m mrs < 2 ^ (Zdigits2 m + e - e').
Proof.
  intros Hm He. unfold shr_fexp, shr, fexp, emin, prec, emax.
  assert (shr_m (shr_record_of_loc m l) = m) as H0 by (by destruct l as [|[]]).
  destruct m as [|m|m]; [lia| |lia]. cbn [Zdigits2] in *.
  pose proof (digits2_bounds m) as Hd. set (d := Zpos (digits2_pos m)) in *.
  change (3 - 1024 - 53) with (-1074).
  destruct (Z.max (d + e - 53) (-1074) - e) as [|p|p] eqn:En.
  - rewrite H0. split; [lia|]. split; [lia|].
    eapply Z.lt_le_trans; [apply Hd|]. apply Z.pow_le_mono_r; lia.
  - rewrite iter_pos_shr by lia. rewrite H0. split; [|split; [lia|]].
    + apply Z.div_str_pos. split; [lia|]. transitivity (2 ^ (d - 1)); [|lia].
      apply Z.pow_le_mono_r; lia.
    + apply Z.div_lt_upper_bound; [lia|]. rewrite <- Z.pow_add_r by lia.
      replace (Zpos p + (d + e - (e + Zpos p))) with d by lia. lia.
  - rewrite H0. split; [lia|]. split; [lia|].
    eapply Z.lt_le_trans; [apply Hd|]. apply Z.pow_le_mono_r; lia.
Qed.

Lemma Zdigits2_upper m k : 0 < m <= 2 ^ k -> 0 <= k -> Zdigits2 m <= k + 1.
Proof.
  intros Hm Hk. destruct m as [|m|m]; [lia| |lia]. cbn [Zdigits2].
  pose proof (digits2_bounds m). apply Z.nlt_ge. intros Hlt.
  assert (2 ^ (k + 1) <= 2 ^ (Zpos (digits2_pos m) - 1)) by (apply Z.pow_le_mono_r; lia).
  rewrite Z.pow_add_r in * by lia. lia.
Qed.

Lemma Zdigits2_lower m : 0 < m -> 1 <= Zdigits2 m.
Proof. destruct m; cbn; lia. Qed.

Lemma round_aux_finite m e l :
  0 < m -> -1074 <= Zdigits2 m - 1 + e -> Zdigits2 m + e <= 1000 -> e <= 900 ->
  positive_float (binary_round_aux prec emax false m e l).
Proof.
  intros Hm He Hhi Hle. unfold binary_round_aux.
  pose proof (shr_fexp_positive m e l Hm He) as H1.
  destruct (shr_fexp prec emax m e l) as [mrs e1]. destruct H1 as (Hp & He1 & Hup).
  set (m2 := round_nearest_even (shr_m mrs) (loc_of_shr_record mrs)).
  assert (shr_m mrs <= m2 <= shr_m mrs + 1) as Hm2.
  { unfold m2, round_nearest_even. destruct (loc_of_shr_record mrs) as [|[]]; try lia.
    destruct (Z.even _); lia. }
  pose proof (Zdigits2_lower m2 ltac:(lia)).
  pose proof (shr_fexp_positive m2 e1 loc_Exact ltac:(lia) ltac:(lia)) as H2.
  destruct (shr_fexp prec emax m2 e1 loc_Exact) as [mrs' e2]. destruct H2 as (Hp2 & He2 & _).
  assert (Zdigits2 m2 <= Zdigits2 m + e - e1 + 1) as Hd2.
  { apply Zdigits2_upper; [lia|]. apply Z.nlt_ge. intros Hneg.
    rewrite Z.pow_neg_r in Hup; lia. }
  destruct (shr_m mrs'); [lia| |lia].
  rewrite (proj2 (Z.leb_le _ _)); [done|]. unfold emax, prec. lia.
Qed.

Lemma digits2_shift p q :
  Zpos (digits2_pos (Pos.iter xO p q)) = Zpos (digits2_pos p) + Zpos q.
Proof.
  induction q as [|q IH] using Pos.peano_ind; [cbn; lia|].
  rewrite Pos.iter_succ. cbn [digits2_pos]. lia.
Qed.

Lemma float_of_int_positive z : 0 < z < 2 ^ 63 -> positive_float (float_of_int z).
Proof.
  intros Hz. destruct z as [|p|p]; [lia| |lia]. unfold float_of_int, binary_normalize, binary_round.
  pose proof (Zdigits2_upper (Zpos p) 63 ltac:(lia) ltac:(lia)) as Hd. cbn [Zdigits2] in Hd.
  unfold shl_align, fexp, emin.
  destruct (Z.max _ _ - 0) as [|q|q] eqn:E.
  - apply round_aux_finite; cbn [Zdigits2]; lia.
  - apply round_aux_finite; cbn [Zdigits2]; lia.
  - pose proof (digits2_shift p q). unfold prec, emax in *.
    apply round_aux_finite; cbn [Zdigits2]; lia.
Qed.

(** A positive quotient, less one, scaled, is a number. *)
Lemma scaled_quotient_not_nan x y z :
  positive_float x -> positive_float y -> positive_float z ->
  IsNaN (fmul (fsub (fdiv x y) float_one) z) = false.
Proof.
  intros Hx Hy Hz. destruct x as [| | |[] mx ex], y as [| | |[] my ey], z as [| | |[] mz ez]; try done.
  assert (nonneg_float (fdiv (S754_finite false mx ex) (S754_finite false my ey))) as Hq.
  { unfold fdiv, SFdiv. destruct (SFdiv_core_binary _ _ _ _ _ _) as [[q e] l] eqn:E.
    apply binary_round_aux_nonneg. unfold SFdiv_core_binary in E.
    destruct (Z.div_eucl _ _) as [q' r'] eqn:Ed. injection E as <- _ _.
    assert (q' = _) as -> by (transitivity (fst (q', r')); [done|rewrite <- Ed; reflexivity]).
    apply Z.div_pos; [|lia]. case_match; try lia. apply Z.shiftl_nonneg. lia. }
  set (q := fdiv _ _) in *. clearbody q.
  assert (IsNaN (fsub q float_one) = false) as Hs.
  { unfold fsub, float_one. change (float_of_int 1) with (S754_finite false 4503599627370496 (-52)).
    destruct q as [[]|[]| |[] mq eq']; try done. apply binary_normalize_not_nan. }
  unfold fmul. destruct (fsub q float_one) as [|[]| |[] ms es]; try done;
    by apply binary_round_aux_not_nan.
Qed.
