(* ===== verification/GoIO.v ===== *)
(** * Go's [io] interfaces as the program uses them

    [io.ReaderAt] and [io.Writer] as type classes with the contract of their
    documentation, and the instances on a file held in memory. *)

From S2P Require Import Prelude.
From stdpp Require Import base list.
From Stdlib Require Import ZArith Lia Strings.Byte.

Local Open Scope Z_scope.

(** [ReadAt(p, off)] with a buffer of [n] bytes fills it, or fails. *)
Class ReaderAt (R : Type) := {
  ReadAt : R -> nat -> Z -> option (list byte);
  ReadAt_full r n off data : ReadAt r n off = Some data -> length data = n
}.

(** [Write(p)]: the writer afterwards, the number of bytes of [p] it took, and
    whether it failed; without a failure it took them all. *)
Class Writer (W : Type) := {
  Write : W -> list byte -> W * nat * bool;
  Write_count w p w' n failed : Write w p = (w', n, failed) -> (n <= length p)%nat;
  Write_full w p w' n : Write w p = (w', n, false) -> n = length p
}.

(** A file held in memory, read by position ... *)
Definition file_read (file : list byte) (n : nat) (off : Z) : option (list byte) :=
  if (0 <=? off) && (off + Z.of_nat n <=? Z.of_nat (length file))
  then Some (take n (drop (Z.to_nat off) file)) else None.

Lemma file_read_full file n off data : file_read file n off = Some data -> length data = n.
Proof.
  unfold file_read. destruct (_ && _) eqn:E; [|done]. intros [= <-].
  rewrite andb_true_iff, !Z.leb_le in E. rewrite length_take, length_drop. lia.
Qed.

Global Instance file_reader : ReaderAt (list byte) :=
  {| ReadAt := file_read; ReadAt_full := file_read_full |}.

(** ... and written at its end. *)
Definition file_append (file p : list byte) : list byte * nat * bool :=
  (file ++ p, length p, false).

Lemma file_append_count file p file' n failed :
  file_append file p = (file', n, failed) -> (n <= length p)%nat.
Proof. by intros [= _ <- _]. Qed.

Lemma file_append_full file p file' n :
  file_append file p = (file', n, false) -> n = length p.
Proof. by intros [= _ <-]. Qed.

Global Instance file_writer : Writer (list byte) :=
  {| Write := file_append; Write_count := file_append_count; Write_full := file_append_full |}.

(** Reading one part of a file in three. *)
Lemma file_read_app (pre mid post : list byte) off n :
  off = Z.of_nat (length pre) -> n = length mid ->
  file_read (pre ++ mid ++ post) n off = Some mid.
Proof.
  intros -> ->. unfold file_read. rewrite (proj2 (andb_true_iff _ _)).
  - by rewrite Nat2Z.id, drop_app_length, take_app_length.
  - rewrite !Z.leb_le, !length_app. lia.
Qed.

(** A writer that keeps the pieces it is given. *)
Record pieces := mkPieces { piece_list : list (list byte) }.

Definition pieces_write (w : pieces) (p : list byte) : pieces * nat * bool :=
  (mkPieces (piece_list w ++ [p]), length p, false).

Global Program Instance pieces_writer : Writer pieces := {| Write := pieces_write |}.
Next Obligation. by intros w p w' n failed [= _ <- _]. Qed.
Next Obligation. by intros w p w' n [= _ <-]. Qed.
