(* ===== verification/Microarch.v ===== *)
(** * Levels and policy of [internal/microarch]

    The names of the microarchitecture levels, their normal form, their rank
    and the selection policy read from the environment.  Feature detection is
    in [MicroarchFeatures], variant selection in [MicroarchSelect]. *)

From S2P Require Import Prelude GoStrings.
From stdpp Require Import base list strings gmap.
From Stdlib Require Import ZArith Lia Strings.Ascii.

Local Open Scope string_scope.

(** ** Architectures and levels *)

Definition ArchAMD64 := "amd64".
Definition ArchARM64 := "arm64".

Definition AMD64v1 := "v1".
Definition AMD64v2 := "v2".
Definition AMD64v3 := "v3".
Definition AMD64v4 := "v4".

Definition ARM64v8_0 := "v8.0".
Definition ARM64v8_1 := "v8.1".
Definition ARM64v8_2 := "v8.2".
Definition ARM64v8_3 := "v8.3".
Definition ARM64v8_4 := "v8.4".
Definition ARM64v8_5 := "v8.5".
Definition ARM64v8_6 := "v8.6".
Definition ARM64v8_7 := "v8.7".
Definition ARM64v8_8 := "v8.8".
Definition ARM64v8_9 := "v8.9".
Definition ARM64v9_0 := "v9.0".
Definition ARM64v9_1 := "v9.1".
Definition ARM64v9_2 := "v9.2".
Definition ARM64v9_3 := "v9.3".
Definition ARM64v9_4 := "v9.4".
Definition ARM64v9_5 := "v9.5".

Definition rankUnknown : Z := -1.
Definition rankBaseline : Z := 1.
Definition rankAMD64v3 : Z := 3.
Definition rankAMD64v4 : Z := 4.

(** The ranks the source lists as constants, as the table its [switch]
    statements spell out. *)
Definition amd64_ranks : list (string * Z) :=
  [(AMD64v1, 1%Z); (AMD64v2, 2%Z); (AMD64v3, rankAMD64v3); (AMD64v4, rankAMD64v4)].

Definition arm64_ranks : list (string * Z) :=
  [(ARM64v8_0, 80%Z); (ARM64v8_1, 81%Z); (ARM64v8_2, 82%Z); (ARM64v8_3, 83%Z);
   (ARM64v8_4, 84%Z); (ARM64v8_5, 85%Z); (ARM64v8_6, 86%Z); (ARM64v8_7, 87%Z);
   (ARM64v8_8, 88%Z); (ARM64v8_9, 89%Z); (ARM64v9_0, 90%Z); (ARM64v9_1, 91%Z);
   (ARM64v9_2, 92%Z); (ARM64v9_3, 93%Z); (ARM64v9_4, 94%Z); (ARM64v9_5, 95%Z)].

(** [switch norm { case k: return v ... default: return rankUnknown }] *)
Fixpoint switch_rank (cases : list (string * Z)) (norm : string) : Z :=
  match cases with
  | [] => rankUnknown
  | (k, v) :: cases => if String.eqb norm k then v else switch_rank cases norm
  end.

(** ** Policy *)

Record Policy := mkPolicy {
  policy_Name : string;
  ForceLevel : string;
  MaxLevel : string;
  DisabledVariants : list string;
  AVX512DownclockProtection : bool
}.

Definition PolicySafeAVX512 := "safe_avx512".
Definition PolicyNoDownclock := "no_downclock".

(** [Policy{}] *)
Definition zero_policy : Policy := mkPolicy "" "" "" [] false.

Definition EnvForceLevel := "MICROFAT_FORCE_LEVEL".
Definition EnvMaxLevel := "MICROFAT_MAX_LEVEL".
Definition EnvDisableVariants := "MICROFAT_DISABLE_VARIANTS".
Definition EnvPolicy := "MICROFAT_POLICY".
Definition EnvAVX512DownclockProtection := "MICROFAT_AVX512_DOWNCLOCK_PROTECTION".

Section Levels.
Context {GU : GoUnicode}.

(** The prefixes [Normalize] strips, in its order. *)
Definition level_prefixes : list string :=
  ["linux_"; "darwin_"; "windows_"; "amd64_"; "amd64-"; "arm64_"; "arm64-";
   "x86_64_"; "x86_64-"; "x86-64_"; "x86-64-"; "aarch64_"; "aarch64-"].

Definition Normalize (level : string) : string :=
  let l := ToLower (TrimSpace level) in
  let l := fold_left TrimPrefix level_prefixes l in
  if String.eqb l "" then "v1"
  else if HasPrefix l "v" then l else "v" ++ l.

Definition Rank (arch level : string) : Z :=
  let norm := Normalize level in
  let a := ToLower arch in
  if String.eqb a ArchAMD64 || String.eqb a "x86_64" || String.eqb a "x86-64" then
    switch_rank amd64_ranks norm
  else if String.eqb a ArchARM64 || String.eqb a "aarch64" then
    switch_rank arm64_ranks norm
  else if String.eqb norm "v1" then rankBaseline else rankUnknown.

Definition Compare (arch a b : string) : Z :=
  let ra := Rank arch a in
  let rb := Rank arch b in
  if (ra >? rb)%Z then 1 else if (ra <? rb)%Z then -1 else 0.

Definition canonicalArch (arch : string) : string :=
  let a := ToLower arch in
  if String.eqb a "aarch64" then ArchARM64
  else if String.eqb a "x86_64" || String.eqb a "x86-64" then ArchAMD64
  else a.

(** [os.Getenv] is the function [getenv], empty for an unset variable. *)
Definition ReadPolicyFromEnv (getenv : string -> string) : Policy :=
  let force := TrimSpace (getenv EnvForceLevel) in
  let maxl := TrimSpace (getenv EnvMaxLevel) in
  let dis := TrimSpace (getenv EnvDisableVariants) in
  let disabled :=
    if String.eqb dis "" then []
    else filter (fun v => v <> "") (TrimSpace <$> Split dis ","%char) in
  let name := ToLower (TrimSpace (getenv EnvPolicy)) in
  let avxVal := ToLower (TrimSpace (getenv EnvAVX512DownclockProtection)) in
  let protect :=
    String.eqb avxVal "1" || String.eqb avxVal "true" || String.eqb avxVal "yes" ||
    String.eqb avxVal "on" || String.eqb name PolicySafeAVX512 ||
    String.eqb name PolicyNoDownclock in
  mkPolicy name force maxl disabled protect.
End Levels.

(** ** Ranks *)

(** [amd64], [arm64] and their aliases: the architectures with a rank table. *)
Inductive ranked_arch := RankAMD64 | RankARM64 | RankOther.

Definition rank_table (r : ranked_arch) : list (string * Z) :=
  match r with
  | RankAMD64 => amd64_ranks
  | RankARM64 => arm64_ranks
  | RankOther => [("v1", rankBaseline)]
  end.

Lemma switch_rank_spec cases norm :
  (exists r, (norm, r) ∈ cases /\ switch_rank cases norm = r) \/
  switch_rank cases norm = rankUnknown.
Proof.
  induction cases as [|[k v] cases IH]; [by right|]. simpl.
  destruct (String.eqb norm k) eqn:E.
  - apply String.eqb_eq in E. subst. left. exists v. split; [by constructor|done].
  - destruct IH as [(r & Hr & ->) | ->]; [left|by right].
    exists r. split; [by constructor|done].
Qed.

(** Within a table a nonnegative rank determines the level. *)
Lemma rank_table_inj t n1 n2 r :
  (n1, r) ∈ rank_table t -> (n2, r) ∈ rank_table t -> n1 = n2.
Proof.
  intros H1 H2. destruct t; cbn in H1, H2;
    rewrite ?list_elem_of_In in H1, H2; simpl in H1, H2;
    repeat (destruct H1 as [H1|H1]; [injection H1 as <- <-|]); try done;
    repeat (destruct H2 as [H2|H2]; [by injection H2 as <-|]); done.
Qed.

Section LevelLemmas.
Context {GU : GoUnicode}.

Definition arch_table (arch : string) : ranked_arch :=
  let a := ToLower arch in
  if String.eqb a ArchAMD64 || String.eqb a "x86_64" || String.eqb a "x86-64" then RankAMD64
  else if String.eqb a ArchARM64 || String.eqb a "aarch64" then RankARM64
  else RankOther.

Lemma Rank_table arch level :
  Rank arch level = switch_rank (rank_table (arch_table arch)) (Normalize level).
Proof.
  unfold Rank, arch_table. generalize (Normalize level) (ToLower arch). intros n a.
  destruct (String.eqb a ArchAMD64 || String.eqb a "x86_64" || String.eqb a "x86-64");
    [reflexivity|].
  destruct (String.eqb a ArchARM64 || String.eqb a "aarch64"); reflexivity.
Qed.

Lemma arch_table_canonical a :
  arch_table a =
  if String.eqb (canonicalArch a) ArchAMD64 then RankAMD64
  else if String.eqb (canonicalArch a) ArchARM64 then RankARM64 else RankOther.
Proof.
  unfold canonicalArch, arch_table. generalize (ToLower a). intros x.
  destruct (String.eqb_spec x "aarch64") as [->|]; [done|].
  destruct (String.eqb_spec x "x86_64") as [->|]; [done|].
  destruct (String.eqb_spec x "x86-64") as [->|]; [done|].
  by rewrite !orb_false_r.
Qed.

Lemma Rank_canonical a b level :
  canonicalArch a = canonicalArch b -> Rank a level = Rank b level.
Proof. intros H. by rewrite !Rank_table, !arch_table_canonical, H. Qed.

Lemma Rank_nonneg arch level :
  (0 <= Rank arch level)%Z ->
  (Normalize level, Rank arch level) ∈ rank_table (arch_table arch).
Proof.
  rewrite Rank_table. intros H.
  destruct (switch_rank_spec (rank_table (arch_table arch)) (Normalize level))
    as [(r & Hr & E)|E]; rewrite E in *; [done|by unfold rankUnknown in H].
Qed.

Lemma fold_TrimPrefix_clean ps l :
  l = "" \/ clean l -> fold_left TrimPrefix ps l = "" \/ clean (fold_left TrimPrefix ps l).
Proof.
  revert l; induction ps as [|p ps IH]; intros l H; [done|]. simpl.
  apply IH, TrimPrefix_clean, H.
Qed.

Lemma Normalize_clean level :
  is_ascii level = true -> clean (Normalize level) /\ HasPrefix (Normalize level) "v" = true.
Proof.
  intros Ha. unfold Normalize.
  destruct (fold_TrimPrefix_clean level_prefixes _ (ToLower_TrimSpace_clean level Ha))
    as [->|Hc].
  - split; [|done]. repeat split. by exists "1"%char.
  - revert Hc. generalize (fold_left TrimPrefix level_prefixes (ToLower (TrimSpace level))).
    intros l Hc.
    destruct (String.eqb l "") eqn:E.
    + apply String.eqb_eq in E. rewrite E in Hc. destruct Hc as (_ & _ & c & [=] & _).
    + destruct (HasPrefix l "v") eqn:Hv; [done|]. split; [|by destruct l].
      by apply (clean_cons "v").
Qed.

(** A clean string that starts with [v] is its own normal form. *)
Lemma Normalize_fixpoint l : clean l -> HasPrefix l "v" = true -> Normalize l = l.
Proof.
  intros Hc (l' & ->)%HasPrefix_char.
  unfold Normalize. rewrite (TrimSpace_clean "v" l' eq_refl Hc), (ToLower_clean _ Hc).
  by destruct l'.
Qed.
End LevelLemmas.

(** ** Theorems *)

Section LevelTheorems.
Context {GU : GoUnicode}.

Theorem Normalize_idempotent (level : string) :
  is_ascii level = true -> Normalize (Normalize level) = Normalize level.
Proof. intros H. apply Normalize_fixpoint; apply Normalize_clean, H. Qed.

Theorem Rank_injective (arch l1 l2 : string) :
  (0 <= Rank arch l1)%Z -> Rank arch l1 = Rank arch l2 -> Normalize l1 = Normalize l2.
Proof.
  intros H E. pose proof (Rank_nonneg _ _ H) as H1.
  rewrite E in H. pose proof (Rank_nonneg _ _ H) as H2. rewrite E in H1.
  eapply rank_table_inj; eauto.
Qed.

Theorem Compare_ranks (arch a b : string) :
  (Compare arch a b = 1%Z <-> (Rank arch b < Rank arch a)%Z) /\
  (Compare arch a b = (-1)%Z <-> (Rank arch a < Rank arch b)%Z) /\
  (Compare arch a b = 0%Z <-> Rank arch a = Rank arch b) /\
  Compare arch b a = (- Compare arch a b)%Z.
Proof.
  unfold Compare. destruct (Z.gtb_spec (Rank arch a) (Rank arch b));
    destruct (Z.gtb_spec (Rank arch b) (Rank arch a));
    destruct (Z.ltb_spec (Rank arch a) (Rank arch b));
    destruct (Z.ltb_spec (Rank arch b) (Rank arch a)); lia.
Qed.
End LevelTheorems.
