(* ===== verification/MicroarchFeatures.v ===== *)
(** * CPU features and the levels they satisfy

    The feature records of [internal/microarch], the table of ARM64 level
    requirements, the memoised search that evaluates it ([EvaluateARM64],
    [EvaluateARM64Detailed]), the AMD64 levels and the feature probes.

    [Satisfies] and [Requires] say what the table means, without a search,
    a cache or an order; the theorems compare the code with them. *)

From S2P Require Import Prelude GoStrings Microarch.
From stdpp Require Import base list strings gmap sorting.
From Stdlib Require Import ZArith Lia Strings.Byte.

Local Open Scope string_scope.

(** ** Feature records *)

Record X86Features := mkX86Features {
  HasLAHFSAHF : bool;
  HasCX16 : bool;
  HasPOPCNT : bool;
  HasSSE3 : bool;
  HasSSSE3 : bool;
  HasSSE41 : bool;
  HasSSE42 : bool;
  HasAVX : bool;
  HasAVX2 : bool;
  HasBMI1 : bool;
  HasBMI2 : bool;
  HasFMA : bool;
  HasOSXSAVE : bool;
  HasF16C : bool;
  HasLZCNT : bool;
  HasMOVBE : bool;
  HasAVX512F : bool;
  HasAVX512BW : bool;
  HasAVX512CD : bool;
  HasAVX512DQ : bool;
  HasAVX512VL : bool
}.

Record ARM64Features := mkARM64Features {
  HasFP : bool;
  HasASIMD : bool;
  HasATOMICS : bool;
  HasCRC32 : bool;
  HasFPHP : bool;
  HasASIMDHP : bool;
  HasJSCVT : bool;
  HasFCMA : bool;
  HasLRCPC : bool;
  HasDCPOP : bool;
  HasASIMDDP : bool;
  HasDIT : bool;
  HasSVE : bool;
  HasSVE2 : bool;
  HasI8MM : bool;
  HasBF16 : bool;
  HasWFxT : bool;
  HasSME : bool;
  HasSME2 : bool;
  HasMOPS : bool;
  HasNMI : bool;
  HasHBC : bool;
  HasGCS : bool;
  HasTHE : bool;
  HasAES : bool;
  HasPMULL : bool;
  HasSHA1 : bool;
  HasSHA2 : bool;
  HasSHA3 : bool;
  HasSHA512 : bool;
  HasSM3 : bool;
  HasSM4 : bool;
  HasASIMDFHM : bool;
  HasASIMDRDM : bool
}.

(** [ARM64Features{}] *)
Definition no_arm64_features : ARM64Features :=
  mkARM64Features false false false false false false false false false false false false false false false false false false false false false false false false false false false false false false false false false false.

(** ** AMD64 *)

Definition EvaluateAMD64 (f : X86Features) : string :=
  let hasV2 := HasLAHFSAHF f && HasCX16 f && HasPOPCNT f && HasSSE3 f && HasSSSE3 f &&
               HasSSE41 f && HasSSE42 f in
  if negb hasV2 then AMD64v1 else
  let hasV3 := hasV2 && HasAVX f && HasAVX2 f && HasBMI1 f && HasBMI2 f && HasFMA f &&
               HasOSXSAVE f && HasF16C f && HasLZCNT f && HasMOVBE f in
  if negb hasV3 then AMD64v2 else
  let hasV4 := hasV3 && HasAVX512F f && HasAVX512BW f && HasAVX512CD f && HasAVX512DQ f &&
               HasAVX512VL f in
  if negb hasV4 then AMD64v3 else AMD64v4.

(** ** The ARM64 requirement table *)

Record LevelRequirement := mkReq {
  req_Level : string;
  Prereqs : list string;
  RequiredFeatures : list string;
  CheckFeatures : ARM64Features -> bool;
  SourceDoc : string
}.

Definition arm64LevelRequirements : list LevelRequirement :=
  [
   mkReq ARM64v8_0 [] ["fp"; "asimd"]
     (fun f => HasFP f && HasASIMD f)
     "Go compiler GOARM64=v8.0: Base 64-bit ARM architecture with floating-point and Advanced SIMD (NEON)";
   mkReq ARM64v8_1 [ARM64v8_0] ["atomics"; "crc32"]
     (fun f => HasATOMICS f && HasCRC32 f)
     "Go compiler GOARM64=v8.1: v8.0 + Large System Extensions (LSE/ATOMICS) and CRC32 instructions";
   mkReq ARM64v8_2 [ARM64v8_1] ["fphp"; "asimdhp"]
     (fun f => HasFPHP f && HasASIMDHP f)
     "Go compiler GOARM64=v8.2: v8.1 + Half-precision floating-point (FPHP) and Advanced SIMD half-precision (ASIMDHP)";
   mkReq ARM64v8_3 [ARM64v8_2] ["jscvt"; "fcma"; "lrcpc"]
     (fun f => HasJSCVT f && HasFCMA f && HasLRCPC f)
     "Go compiler GOARM64=v8.3: v8.2 + JSCVT, FCMA, and LRCPC instructions";
   mkReq ARM64v8_4 [ARM64v8_3] ["dcpop"; "asimddp"]
     (fun f => HasDCPOP f && HasASIMDDP f)
     "Go compiler GOARM64=v8.4: v8.3 + DCPOP and ASIMDDP instructions";
   mkReq ARM64v8_5 [ARM64v8_4] ["dit"]
     (fun f => HasDIT f)
     "Go compiler GOARM64=v8.5: v8.4 + Data Independent Timing (DIT)";
   mkReq ARM64v8_6 [ARM64v8_5] ["i8mm"; "bf16"]
     (fun f => HasI8MM f && HasBF16 f)
     "Go compiler GOARM64=v8.6: v8.5 + Int8 matrix multiplication (I8MM) and BFloat16 instructions (BF16)";
   mkReq ARM64v8_7 [ARM64v8_6] ["wfxt"]
     (fun f => HasWFxT f)
     "Go compiler GOARM64=v8.7: v8.6 + Wait For Event/Interrupt with Timeout instructions (WFxT / WFIT / WFIS)";
   mkReq ARM64v8_8 [ARM64v8_7] ["mops"; "nmi"; "hbc"]
     (fun f => HasMOPS f && HasNMI f && HasHBC f)
     "Microfat v8.8 contract: v8.7 + MOPS, NMI and HBC; native NMI detection is unavailable";
   mkReq ARM64v8_9 [ARM64v8_8] ["gcs"; "the"]
     (fun f => HasGCS f && HasTHE f)
     "Microfat v8.9 contract: v8.8 + GCS and THE; native THE detection is unavailable";
   mkReq ARM64v9_0 [ARM64v8_5] ["sve"]
     (fun f => HasSVE f)
     "Go compiler GOARM64=v9.0: v8.5 + Scalable Vector Extension (SVE)";
   mkReq ARM64v9_1 [ARM64v9_0; ARM64v8_6] []
     (fun f => true)
     "Go compiler GOARM64=v9.1: v9.0 + v8.6 (includes SVE, I8MM, BF16, and DIT)";
   mkReq ARM64v9_2 [ARM64v9_1] ["sve2"]
     (fun f => HasSVE2 f)
     "Go compiler GOARM64=v9.2: v9.1 + Scalable Vector Extension 2 (SVE2)";
   mkReq ARM64v9_3 [ARM64v9_2] ["sme"]
     (fun f => HasSME f)
     "Go compiler GOARM64=v9.3: v9.2 + Scalable Matrix Extension (SME)";
   mkReq ARM64v9_4 [ARM64v9_3] []
     (fun f => true)
     "Go compiler GOARM64=v9.4: v9.3 baseline architecture level";
   mkReq ARM64v9_5 [ARM64v9_4] ["sme2"]
     (fun f => HasSME2 f)
     "Go compiler GOARM64=v9.5: v9.4 + Scalable Matrix Extension 2 (SME2)"
  ].

Definition arm64RequirementsMap : gmap string LevelRequirement :=
  fold_left (fun m req => <[req_Level req := req]> m) arm64LevelRequirements ∅.

Definition arm64OrderedLevels : list string :=
  [ARM64v9_5; ARM64v9_4; ARM64v9_3; ARM64v9_2; ARM64v9_1; ARM64v9_0; ARM64v8_9; ARM64v8_8;
   ARM64v8_7; ARM64v8_6; ARM64v8_5; ARM64v8_4; ARM64v8_3; ARM64v8_2; ARM64v8_1; ARM64v8_0].

Definition hasARM64NamedFeature (name : string) (f : ARM64Features) : bool :=
  if String.eqb name "fp" then HasFP f
  else if String.eqb name "asimd" then HasASIMD f
  else if String.eqb name "atomics" then HasATOMICS f
  else if String.eqb name "crc32" then HasCRC32 f
  else if String.eqb name "fphp" then HasFPHP f
  else if String.eqb name "asimdhp" then HasASIMDHP f
  else if String.eqb name "jscvt" then HasJSCVT f
  else if String.eqb name "fcma" then HasFCMA f
  else if String.eqb name "lrcpc" then HasLRCPC f
  else if String.eqb name "dcpop" then HasDCPOP f
  else if String.eqb name "asimddp" then HasASIMDDP f
  else if String.eqb name "dit" then HasDIT f
  else if String.eqb name "i8mm" then HasI8MM f
  else if String.eqb name "bf16" then HasBF16 f
  else if String.eqb name "wfxt" then HasWFxT f
  else if String.eqb name "sve" then HasSVE f
  else if String.eqb name "sve2" then HasSVE2 f
  else if String.eqb name "sme" then HasSME f
  else if String.eqb name "sme2" then HasSME2 f
  else if String.eqb name "mops" then HasMOPS f
  else if String.eqb name "nmi" then HasNMI f
  else if String.eqb name "hbc" then HasHBC f
  else if String.eqb name "gcs" then HasGCS f
  else if String.eqb name "the" then HasTHE f
  else false.

Definition findMissingARM64Features (required : list string) (f : ARM64Features) : list string :=
  filter (fun feat => hasARM64NamedFeature feat f = false) required.

(** ** Errors of the package *)

Inductive microarch_err :=
| ErrNoMatchingVariant
| ErrEmptyVariants
| ErrIncompatibleForcedVariant
| ErrVariantNotEmbedded
| ErrUnknownHostLevel.

(** Go maps [map[string]bool]: a missing key reads as [false]. *)
Abbreviation bool_map := (gmap string bool).

(** The cache and the set of levels being visited, both shared by every
    recursive call. *)
Abbreviation check_state := (bool_map * bool_map)%type.

(** The loop over the prerequisites: stops at the first that fails. *)
Fixpoint check_prereqs (check : string -> check_state -> outcome microarch_err (bool * check_state))
    (ps : list string) (st : check_state) : outcome microarch_err (bool * check_state) :=
  match ps with
  | [] => Ok (true, st)
  | p :: ps =>
      '(sat, st) ← check p st;
      if negb sat then Ok (false, st) else check_prereqs check ps st
  end.

(** [checkARM64LevelSatisfied].  [fuel] bounds the depth of the recursion; a
    recursion that does not end overflows the stack, a [Panic]. *)
Fixpoint checkARM64LevelSatisfied (fuel : nat) (level : string) (f : ARM64Features)
    (st : check_state) : outcome microarch_err (bool * check_state) :=
  match fuel with
  | O => Panic
  | S fuel =>
      let '(cache, visiting) := st in
      match cache !! level with
      | Some sat => Ok (sat, st)
      | None =>
          if default false (visiting !! level) then Ok (false, st) else
          let visiting := <[level := true]> visiting in
          match arm64RequirementsMap !! level with
          | None => Ok (false, (<[level := false]> cache, delete level visiting))
          | Some req =>
              if negb (CheckFeatures req f)
              then Ok (false, (<[level := false]> cache, delete level visiting))
              else
                '(ok, (cache, visiting)) ←
                  check_prereqs (fun p st => checkARM64LevelSatisfied fuel p f st)
                    (Prereqs req) (cache, visiting);
                Ok (ok, (<[level := ok]> cache, delete level visiting))
          end
      end
  end.

(** One more than the sixteen levels: no chain of prerequisites is longer. *)
Definition arm64_fuel : nat := 17.

(** The loop of [EvaluateARM64] over [arm64OrderedLevels]. *)
Fixpoint EvaluateARM64_loop (levels : list string) (f : ARM64Features) (cache : bool_map) :
    outcome microarch_err string :=
  match levels with
  | [] => Ok ARM64v8_0
  | lvl :: levels =>
      '(sat, (cache, _)) ← checkARM64LevelSatisfied arm64_fuel lvl f (cache, ∅);
      if (sat : bool) then Ok lvl else EvaluateARM64_loop levels f cache
  end.

Definition EvaluateARM64 (f : ARM64Features) : outcome microarch_err string :=
  EvaluateARM64_loop arm64OrderedLevels f ∅.

(** ** [EvaluateARM64Detailed] *)

Record ARM64LevelStatus := mkStatus {
  st_Level : string;
  Satisfied : bool;
  st_Prereqs : list string;
  MissingPrereqs : list string;
  st_RequiredFeatures : list string;
  MissingFeatures : list string;
  st_SourceDoc : string
}.

(** The zero [LevelRequirement], read for a missing key; its [CheckFeatures]
    is nil, which the code never calls. *)
Definition zero_requirement : LevelRequirement := mkReq "" [] [] (fun _ => true) "".

Fixpoint missing_prereqs (ps : list string) (f : ARM64Features) (cache : bool_map) :
    outcome microarch_err (list string * bool_map) :=
  match ps with
  | [] => Ok ([], cache)
  | p :: ps =>
      '(sat, (cache, _)) ← checkARM64LevelSatisfied arm64_fuel p f (cache, ∅);
      '(rest, cache) ← missing_prereqs ps f cache;
      Ok (if (sat : bool) then rest else p :: rest, cache)
  end.

Fixpoint EvaluateARM64Detailed_loop (levels : list string) (f : ARM64Features)
    (cache : bool_map) (highestLevel : string) :
    outcome microarch_err (string * list ARM64LevelStatus * bool_map) :=
  match levels with
  | [] => Ok (highestLevel, [], cache)
  | lvl :: levels =>
      let req := default zero_requirement (arm64RequirementsMap !! lvl) in
      let missingF :=
        if negb (CheckFeatures req f) then findMissingARM64Features (RequiredFeatures req) f
        else [] in
      '(missingP, cache) ← missing_prereqs (Prereqs req) f cache;
      let isSat := bool_decide (missingF = []) && bool_decide (missingP = []) in
      let cache := <[lvl := isSat]> cache in
      let highestLevel :=
        if isSat && String.eqb highestLevel ARM64v8_0 && negb (String.eqb lvl ARM64v8_0)
        then lvl else highestLevel in
      let status := mkStatus lvl isSat (Prereqs req) missingP (RequiredFeatures req) missingF
                             (SourceDoc req) in
      '(highest, statuses, cache) ← EvaluateARM64Detailed_loop levels f cache highestLevel;
      Ok (highest, status :: statuses, cache)
  end.

Definition EvaluateARM64Detailed (f : ARM64Features) :
    outcome microarch_err (string * list ARM64LevelStatus) :=
  '(highest, statuses, cache) ← EvaluateARM64Detailed_loop arm64OrderedLevels f ∅ ARM64v8_0;
  if String.eqb highest ARM64v8_0 then
    '(sat, _) ← checkARM64LevelSatisfied arm64_fuel ARM64v8_0 f (cache, ∅);
    Ok (if (sat : bool) then ARM64v8_0 else highest, statuses)
  else Ok (highest, statuses).

(** ** Feature lists *)

(** [if flag { list = append(list, name) }], for each pair in turn. *)
Definition append_flags (lst : list string) (flags : list (bool * string)) : list string :=
  fold_left (fun l '(flag, name) => if (flag : bool) then (l ++ [name])%list else l) flags lst.

Definition x86_flags (f : X86Features) : list (bool * string) :=
  [
   (HasLAHFSAHF f, "lahf_lm"); (HasCX16 f, "cx16"); (HasPOPCNT f, "popcnt");
   (HasSSE3 f, "sse3"); (HasSSSE3 f, "ssse3"); (HasSSE41 f, "sse4.1");
   (HasSSE42 f, "sse4.2"); (HasAVX f, "avx"); (HasAVX2 f, "avx2"); (HasBMI1 f, "bmi1");
   (HasBMI2 f, "bmi2"); (HasFMA f, "fma"); (HasOSXSAVE f, "osxsave"); (HasF16C f, "f16c");
   (HasLZCNT f, "lzcnt"); (HasMOVBE f, "movbe"); (HasAVX512F f, "avx512f");
   (HasAVX512BW f, "avx512bw"); (HasAVX512CD f, "avx512cd"); (HasAVX512DQ f, "avx512dq");
   (HasAVX512VL f, "avx512vl")
  ].

Definition extractX86FeatureList (f : X86Features) : list string := append_flags [] (x86_flags f).

Definition simd_flags (f : ARM64Features) : list (bool * string) :=
  [
   (HasFP f, "fp"); (HasASIMD f, "asimd"); (HasFPHP f, "fphp"); (HasASIMDHP f, "asimdhp");
   (HasASIMDDP f, "asimddp"); (HasSVE f, "sve"); (HasSVE2 f, "sve2"); (HasI8MM f, "i8mm");
   (HasBF16 f, "bf16"); (HasSME f, "sme"); (HasSME2 f, "sme2"); (HasASIMDFHM f, "asimdfhm");
   (HasASIMDRDM f, "asimdrdm")
  ].

Definition appendSIMDFeatureList (lst : list string) (f : ARM64Features) : list string :=
  append_flags lst (simd_flags f).

Definition crypto_flags (f : ARM64Features) : list (bool * string) :=
  [
   (HasAES f, "aes"); (HasPMULL f, "pmull"); (HasSHA1 f, "sha1"); (HasSHA2 f, "sha2");
   (HasSHA3 f, "sha3"); (HasSHA512 f, "sha512"); (HasSM3 f, "sm3"); (HasSM4 f, "sm4")
  ].

Definition appendCryptoFeatureList (lst : list string) (f : ARM64Features) : list string :=
  append_flags lst (crypto_flags f).

Definition core_flags (f : ARM64Features) : list (bool * string) :=
  [
   (HasATOMICS f, "atomics"); (HasCRC32 f, "crc32"); (HasJSCVT f, "jscvt");
   (HasFCMA f, "fcma"); (HasLRCPC f, "lrcpc"); (HasDCPOP f, "dcpop"); (HasDIT f, "dit");
   (HasWFxT f, "wfxt"); (HasMOPS f, "mops"); (HasNMI f, "nmi"); (HasHBC f, "hbc");
   (HasGCS f, "gcs"); (HasTHE f, "the")
  ].

Definition appendCoreFeatureList (lst : list string) (f : ARM64Features) : list string :=
  append_flags lst (core_flags f).

Definition extractARM64FeatureList (f : ARM64Features) : list string :=
  let lst := appendSIMDFeatureList [] f in
  let lst := appendCryptoFeatureList lst f in
  appendCoreFeatureList lst f.

(** ** Detection *)

Record Info := mkInfo {
  OS : string;
  Arch : string;
  Level : string;
  Features : list string;
  Levels : list ARM64LevelStatus
}.

Definition detectForArch (goos goarch : string) (x86Feat : X86Features)
    (armFeat : ARM64Features) : outcome microarch_err Info :=
  if String.eqb goarch ArchAMD64 then
    Ok (mkInfo goos goarch (EvaluateAMD64 x86Feat) (extractX86FeatureList x86Feat) [])
  else if String.eqb goarch ArchARM64 then
    '(level, statuses) ← EvaluateARM64Detailed armFeat;
    Ok (mkInfo goos goarch level (extractARM64FeatureList armFeat) statuses)
  else Ok (mkInfo goos goarch "v1" [] []).

(** ** Probes *)

(** [query(leaf, subleaf)] returns EAX, EBX, ECX, EDX. *)
Definition cpuid_query : Type := Z -> Z -> Z * Z * Z * Z.

(** Returns hasF16C, hasLZCNT, hasMOVBE, hasLAHFSAHF. *)
Definition probeX86ExtraFeaturesWithCPUID (query : cpuid_query) : bool * bool * bool * bool :=
  let '(maxBasic, _, _, _) := query 0%Z 0%Z in
  let '(hasMOVBE, hasF16C) :=
    if (maxBasic >=? 1)%Z then
      let '(_, _, ecx, _) := query 1%Z 0%Z in
      (negb (Z.land ecx (Z.shiftl 1 22) =? 0)%Z, negb (Z.land ecx (Z.shiftl 1 29) =? 0)%Z)
    else (false, false) in
  let '(maxExt, _, _, _) := query 0x80000000%Z 0%Z in
  let '(hasLZCNT, hasLAHFSAHF) :=
    if (maxExt >=? 0x80000001)%Z then
      let '(_, _, ecx, _) := query 0x80000001%Z 0%Z in
      (negb (Z.land ecx (Z.shiftl 1 5) =? 0)%Z, negb (Z.land ecx (Z.shiftl 1 0) =? 0)%Z)
    else (false, false) in
  (hasF16C, hasLZCNT, hasMOVBE, hasLAHFSAHF).

(** [cpu] holds the flags of golang.org/x/sys/cpu, [probe] the result of
    [probeX86ExtraFeaturesFunc]. *)
Definition currentX86Features (cpu : X86Features) (probe : bool * bool * bool * bool) :
    X86Features :=
  let '(hasF16C, hasLZCNT, hasMOVBE, hasLAHFSAHF) := probe in
  {|
     HasLAHFSAHF := hasLAHFSAHF; HasCX16 := HasCX16 cpu; HasPOPCNT := HasPOPCNT cpu;
     HasSSE3 := HasSSE3 cpu; HasSSSE3 := HasSSSE3 cpu; HasSSE41 := HasSSE41 cpu;
     HasSSE42 := HasSSE42 cpu; HasAVX := HasAVX cpu; HasAVX2 := HasAVX2 cpu;
     HasBMI1 := HasBMI1 cpu; HasBMI2 := HasBMI2 cpu; HasFMA := HasFMA cpu;
     HasOSXSAVE := HasOSXSAVE cpu; HasF16C := hasF16C; HasLZCNT := hasLZCNT;
     HasMOVBE := hasMOVBE; HasAVX512F := HasAVX512F cpu; HasAVX512BW := HasAVX512BW cpu;
     HasAVX512CD := HasAVX512CD cpu; HasAVX512DQ := HasAVX512DQ cpu;
     HasAVX512VL := HasAVX512VL cpu
  |}.

(** [auxv] holds what [readLinuxAuxvARM64Func] returns, [linux] is
    [runtime.GOOS == "linux"].  NMI and THE are never set. *)
Definition currentARM64Features (linux : bool) (cpu auxv : ARM64Features) : ARM64Features :=
  {|
     HasFP := HasFP cpu; HasASIMD := HasASIMD cpu; HasATOMICS := HasATOMICS cpu;
     HasCRC32 := HasCRC32 cpu; HasFPHP := HasFPHP cpu; HasASIMDHP := HasASIMDHP cpu;
     HasJSCVT := HasJSCVT cpu; HasFCMA := HasFCMA cpu; HasLRCPC := HasLRCPC cpu;
     HasDCPOP := HasDCPOP cpu; HasASIMDDP := HasASIMDDP cpu; HasDIT := HasDIT cpu;
     HasSVE := HasSVE cpu; HasSVE2 := HasSVE2 cpu; HasI8MM := HasI8MM cpu;
     HasBF16 := linux && HasBF16 auxv; HasWFxT := linux && HasWFxT auxv;
     HasSME := linux && HasSME auxv; HasSME2 := linux && HasSME2 auxv;
     HasMOPS := linux && HasMOPS auxv; HasNMI := false; HasHBC := linux && HasHBC auxv;
     HasGCS := linux && HasGCS auxv; HasTHE := false; HasAES := HasAES cpu;
     HasPMULL := HasPMULL cpu; HasSHA1 := HasSHA1 cpu; HasSHA2 := HasSHA2 cpu;
     HasSHA3 := HasSHA3 cpu; HasSHA512 := HasSHA512 cpu; HasSM3 := HasSM3 cpu;
     HasSM4 := HasSM4 cpu; HasASIMDFHM := HasASIMDFHM cpu; HasASIMDRDM := HasASIMDRDM cpu
  |}.

Definition auxvAT_HWCAP : Z := 16%Z.
Definition auxvAT_HWCAP2 : Z := 26%Z.

Definition has_bit (val : Z) (bit : Z) : bool := negb (Z.land val (Z.shiftl 1 bit) =? 0)%Z.

Definition set_hwcap (val : Z) (f : ARM64Features) : ARM64Features :=
  {|
     HasFP := HasFP f; HasASIMD := HasASIMD f; HasATOMICS := HasATOMICS f;
     HasCRC32 := HasCRC32 f; HasFPHP := HasFPHP f; HasASIMDHP := HasASIMDHP f;
     HasJSCVT := HasJSCVT f; HasFCMA := HasFCMA f; HasLRCPC := HasLRCPC f;
     HasDCPOP := HasDCPOP f; HasASIMDDP := HasASIMDDP f; HasDIT := HasDIT f;
     HasSVE := HasSVE f; HasSVE2 := HasSVE2 f; HasI8MM := HasI8MM f; HasBF16 := HasBF16 f;
     HasWFxT := HasWFxT f; HasSME := HasSME f; HasSME2 := HasSME2 f; HasMOPS := HasMOPS f;
     HasNMI := HasNMI f; HasHBC := HasHBC f; HasGCS := has_bit val 32; HasTHE := HasTHE f;
     HasAES := HasAES f; HasPMULL := HasPMULL f; HasSHA1 := HasSHA1 f; HasSHA2 := HasSHA2 f;
     HasSHA3 := HasSHA3 f; HasSHA512 := HasSHA512 f; HasSM3 := HasSM3 f; HasSM4 := HasSM4 f;
     HasASIMDFHM := HasASIMDFHM f; HasASIMDRDM := HasASIMDRDM f
  |}.

Definition set_hwcap2 (val : Z) (f : ARM64Features) : ARM64Features :=
  {|
     HasFP := HasFP f; HasASIMD := HasASIMD f; HasATOMICS := HasATOMICS f;
     HasCRC32 := HasCRC32 f; HasFPHP := HasFPHP f; HasASIMDHP := HasASIMDHP f;
     HasJSCVT := HasJSCVT f; HasFCMA := HasFCMA f; HasLRCPC := HasLRCPC f;
     HasDCPOP := HasDCPOP f; HasASIMDDP := HasASIMDDP f; HasDIT := HasDIT f;
     HasSVE := HasSVE f; HasSVE2 := HasSVE2 f; HasI8MM := HasI8MM f;
     HasBF16 := has_bit val 14; HasWFxT := has_bit val 31; HasSME := has_bit val 23;
     HasSME2 := has_bit val 37; HasMOPS := has_bit val 43; HasNMI := HasNMI f;
     HasHBC := has_bit val 44; HasGCS := HasGCS f; HasTHE := HasTHE f; HasAES := HasAES f;
     HasPMULL := HasPMULL f; HasSHA1 := HasSHA1 f; HasSHA2 := HasSHA2 f;
     HasSHA3 := HasSHA3 f; HasSHA512 := HasSHA512 f; HasSM3 := HasSM3 f; HasSM4 := HasSM4 f;
     HasASIMDFHM := HasASIMDFHM f; HasASIMDRDM := HasASIMDRDM f
  |}.

(** The loop of [parseLinuxAuxvARM64] from offset [i]; each round consumes a
    sixteen-byte entry. *)
Fixpoint auxv_loop (fuel : nat) (data : list byte) (i : nat) (features : ARM64Features) :
    outcome microarch_err ARM64Features :=
  match fuel with
  | O => Panic
  | S fuel =>
      if (i + 16 <=? length data)%nat then
        tagBytes ← go_slice data i (i + 8);
        valBytes ← go_slice data (i + 8) (i + 16);
        let tag := le_val tagBytes in
        let val := le_val valBytes in
        if (tag =? 0)%Z then Ok features else
        let features :=
          if (tag =? auxvAT_HWCAP)%Z then set_hwcap val features
          else if (tag =? auxvAT_HWCAP2)%Z then set_hwcap2 val features
          else features in
        auxv_loop fuel data (i + 16) features
      else Ok features
  end.

Definition parseLinuxAuxvARM64 (data : list byte) : outcome microarch_err ARM64Features :=
  auxv_loop (S (length data)) data 0 no_arm64_features.

(** ** What the table means *)

(** The level is in the table, the CPU has its features, and it satisfies
    every prerequisite level. *)
Inductive Satisfies (f : ARM64Features) : string -> Prop :=
| Satisfies_intro level req :
    arm64RequirementsMap !! level = Some req ->
    CheckFeatures req f = true ->
    (forall p, p ∈ Prereqs req -> Satisfies f p) ->
    Satisfies f level.

(** The level needs the feature, itself or through a prerequisite. *)
Inductive Requires : string -> string -> Prop :=
| Requires_here level req feat :
    arm64RequirementsMap !! level = Some req ->
    feat ∈ RequiredFeatures req -> Requires level feat
| Requires_prereq level req p feat :
    arm64RequirementsMap !! level = Some req ->
    p ∈ Prereqs req -> Requires p feat -> Requires level feat.

(** Height of a level in the prerequisite order, from its rank. *)
Definition height (level : string) : nat := Z.to_nat (switch_rank arm64_ranks level - 79).

Lemma table_lookup level req :
  arm64RequirementsMap !! level = Some req ->
  req ∈ arm64LevelRequirements /\ req_Level req = level.
Proof.
  unfold arm64RequirementsMap.
  assert (forall reqs (m : gmap string LevelRequirement),
    fold_left (fun m req => <[req_Level req := req]> m) reqs m !! level = Some req ->
    m !! level = Some req \/ req ∈ reqs /\ req_Level req = level) as Hgen.
  { induction reqs as [|r reqs IH]; intros m; simpl; [by left|].
    intros [H|[H1 H2]]%IH; [|right; split; [by constructor|done]].
    apply lookup_insert_Some in H as [[<- <-]|[_ H]]; [right|by left].
    split; [by constructor|done]. }
  intros [H|H]%Hgen; [by rewrite lookup_empty in H|done].
Qed.

(** Case analysis on the entry of the table. *)
Ltac table_cases H :=
  apply table_lookup in H as [H <-];
  unfold arm64LevelRequirements in H; rewrite list_elem_of_In in H; simpl in H;
  repeat (destruct H as [H|H]; [subst; simpl|]); [..|done].

Lemma prereq_height level req p :
  arm64RequirementsMap !! level = Some req -> p ∈ Prereqs req -> (height p < height level)%nat.
Proof.
  intros H Hp. table_cases H; rewrite list_elem_of_In in Hp; simpl in Hp;
    destruct_or?; subst; try done; vm_compute; lia.
Qed.

Lemma prereq_known level req p :
  arm64RequirementsMap !! level = Some req -> p ∈ Prereqs req ->
  is_Some (arm64RequirementsMap !! p).
Proof.
  intros H Hp. table_cases H; rewrite list_elem_of_In in Hp; simpl in Hp;
    destruct_or?; subst; try done; eexists; vm_compute; reflexivity.
Qed.

Lemma height_bound level : (height level < arm64_fuel)%nat.
Proof.
  unfold height, arm64_fuel.
  destruct (switch_rank_spec arm64_ranks level) as [(r & Hr & ->)| ->]; [|vm_compute; lia].
  rewrite list_elem_of_In in Hr. simpl in Hr. destruct_or?; simplify_eq; try lia; done.
Qed.

(** The boolean check of an entry is the conjunction of its named features. *)
Lemma check_required level req f :
  arm64RequirementsMap !! level = Some req ->
  CheckFeatures req f = forallb (fun n => hasARM64NamedFeature n f) (RequiredFeatures req).
Proof.
  intros H. table_cases H; unfold hasARM64NamedFeature; simpl;
    rewrite ?andb_true_r, ?andb_assoc; reflexivity.
Qed.

#[local] Opaque arm64RequirementsMap.

Lemma Satisfies_inv f level req :
  arm64RequirementsMap !! level = Some req ->
  Satisfies f level <->
  CheckFeatures req f = true /\ forall p, p ∈ Prereqs req -> Satisfies f p.
Proof.
  intros H. split.
  - inversion 1 as [? req' H' Hc Hp]; subst.
    assert (req' = req) as -> by congruence. by split.
  - intros [??]. by econstructor.
Qed.

Lemma Requires_inv level req feat :
  arm64RequirementsMap !! level = Some req ->
  Requires level feat <->
  feat ∈ RequiredFeatures req \/ exists p, p ∈ Prereqs req /\ Requires p feat.
Proof.
  intros H. split.
  - inversion 1 as [? req' ? H' ?|? req' ? ? H' ? ?]; subst;
      assert (req' = req) as -> by congruence; eauto.
  - intros [Hf|(p & Hp & Hr)]; [by eapply Requires_here|by eapply Requires_prereq].
Qed.

Lemma height_ind (P : string -> Prop) :
  (forall level, (forall p, (height p < height level)%nat -> P p) -> P level) ->
  forall level, P level.
Proof. intros H. apply (well_founded_ind (well_founded_ltof _ height)), H. Qed.

(** Satisfying a known level is having every feature it requires. *)
Lemma Satisfies_Requires f level :
  is_Some (arm64RequirementsMap !! level) ->
  Satisfies f level <-> forall feat, Requires level feat -> hasARM64NamedFeature feat f = true.
Proof.
  induction level as [level IH] using height_ind. intros [req Hreq].
  rewrite (Satisfies_inv _ _ _ Hreq), (check_required _ _ _ Hreq), forallb_forall.
  setoid_rewrite (Requires_inv _ _ _ Hreq). setoid_rewrite <- list_elem_of_In.
  assert (forall p, p ∈ Prereqs req ->
    Satisfies f p <-> forall feat, Requires p feat -> hasARM64NamedFeature feat f = true) as Hp.
  { intros p Hp. eapply IH; [by eapply prereq_height|by eapply prereq_known]. }
  split.
  - intros [Hf Hs] feat [Hin|(p & Hin & Hr)]; [by apply Hf|].
    by eapply Hp; [|apply Hs|].
  - intros H. split; [by auto|]. intros p Hin. apply Hp; [done|]. eauto.
Qed.

(** ** The memoised search *)

(** Every cached answer is right, and no ancestor of [level] is pending. *)
Definition cache_sound (f : ARM64Features) (cache : bool_map) : Prop :=
  forall l b, cache !! l = Some b -> b = true <-> Satisfies f l.

Definition pending_above (level : string) (visiting : bool_map) : Prop :=
  forall l, is_Some (visiting !! l) -> (height level < height l)%nat.

Lemma cache_sound_insert f cache level b :
  cache_sound f cache -> (b = true <-> Satisfies f level) ->
  cache_sound f (<[level := b]> cache).
Proof.
  intros Hc Hb l b' [[<- <-]|[_ H]]%lookup_insert_Some; [done|]. by eapply Hc.
Qed.

Lemma cache_sound_empty f : cache_sound f ∅.
Proof. intros l b H. by rewrite lookup_empty in H. Qed.

(** What a call returns: the right answer, a sound cache, and the set of
    pending levels as it was. *)
Definition check_result (f : ARM64Features) (P : Prop) (visiting : bool_map)
    (r : outcome microarch_err (bool * check_state)) : Prop :=
  exists b cache', r = Ok (b, (cache', visiting)) /\ (b = true <-> P) /\ cache_sound f cache'.

Lemma check_prereqs_correct check f visiting ps cache :
  (forall p c, p ∈ ps -> cache_sound f c ->
     check_result f (Satisfies f p) visiting (check p (c, visiting))) ->
  cache_sound f cache ->
  check_result f (forall p, p ∈ ps -> Satisfies f p) visiting
    (check_prereqs check ps (cache, visiting)).
Proof.
  revert cache. induction ps as [|p ps IH]; intros cache Hcheck Hc.
  { exists true, cache. split; [done|]. split; [|done]. split; [|done].
    intros _ p Hp. by apply elem_of_nil in Hp. }
  destruct (Hcheck p cache) as (b & c & Hr & Hb & Hc'); [by constructor|done|].
  cbn [check_prereqs]. rewrite Hr. cbn.
  destruct b; cbn [negb].
  - destruct (IH c) as (b & c2 & Hr2 & Hb2 & Hc2); [|done|].
    { intros p' c' Hp'. apply Hcheck. by constructor. }
    exists b, c2. split; [done|]. split; [|done]. rewrite Hb2. split.
    + intros H p' [-> |Hp']%elem_of_cons; [by apply Hb|by apply H].
    + intros H p' Hp'. apply H. by constructor.
  - exists false, c. split; [done|]. split; [|done]. split; [done|].
    intros H. by apply Hb, H; constructor.
Qed.

Lemma check_correct fuel level f cache visiting :
  (height level < fuel)%nat -> cache_sound f cache -> pending_above level visiting ->
  check_result f (Satisfies f level) visiting
    (checkARM64LevelSatisfied fuel level f (cache, visiting)).
Proof.
  revert level cache visiting. induction fuel as [|fuel IH]; [lia|].
  intros level cache visiting Hh Hc Hv. cbn [checkARM64LevelSatisfied].
  destruct (cache !! level) as [b|] eqn:Ec.
  { exists b, cache. eauto. }
  assert (visiting !! level = None) as Hnone.
  { destruct (visiting !! level) eqn:E; [|done]. specialize (Hv level (mk_is_Some _ _ E)). lia. }
  rewrite Hnone. cbn [default].
  assert (delete level (<[level:=true]> visiting) = visiting) as Hdel
    by by apply delete_insert_id.
  destruct (arm64RequirementsMap !! level) as [req|] eqn:Ereq.
  2:{ exists false. eexists. rewrite Hdel. split; [done|].
      assert (false = true <-> Satisfies f level) as Hb.
      { split; [done|]. inversion 1; congruence. }
      split; [done|by apply cache_sound_insert]. }
  destruct (CheckFeatures req f) eqn:Ecf; cbn [negb].
  2:{ exists false. eexists. rewrite Hdel. split; [done|].
      assert (false = true <-> Satisfies f level) as Hb.
      { rewrite (Satisfies_inv _ _ _ Ereq), Ecf. by split; [|intros [? _]]. }
      split; [done|by apply cache_sound_insert]. }
  destruct (check_prereqs_correct (fun p st => checkARM64LevelSatisfied fuel p f st) f
    (<[level:=true]> visiting) (Prereqs req) cache) as (b & c & Hr & Hb & Hc'); [|done|].
  { intros p c Hp Hc'. pose proof (prereq_height _ _ _ Ereq Hp). apply IH; [lia|done|].
    intros l [v Hl]. apply lookup_insert_Some in Hl as [[<- _]|[_ Hl]]; [done|].
    specialize (Hv l (mk_is_Some _ _ Hl)). lia. }
  rewrite Hr. cbn. exists b. eexists. rewrite Hdel. split; [done|].
  assert (b = true <-> Satisfies f level) as Hb'.
  { rewrite Hb, (Satisfies_inv _ _ _ Ereq), Ecf. by split; [|intros [_ ?]]. }
  split; [done|by apply cache_sound_insert].
Qed.

(** A call from the top: no level is pending. *)
Lemma check_top level f cache :
  cache_sound f cache ->
  check_result f (Satisfies f level) ∅
    (checkARM64LevelSatisfied arm64_fuel level f (cache, ∅)).
Proof.
  intros Hc. apply check_correct; [apply height_bound|done|].
  intros l [v Hl]. by rewrite lookup_empty in Hl.
Qed.

(** ** The evaluation loops *)

Definition arm64_rank (level : string) : Z := switch_rank arm64_ranks level.

Lemma Satisfies_known f level : Satisfies f level -> level ∈ arm64OrderedLevels.
Proof.
  intros [level' req H _ _]. table_cases H; vm_compute; repeat constructor.
Qed.

(** [l] is the first satisfied level of [levels], [v8.0] when there is none. *)
Fixpoint first_satisfied (f : ARM64Features) (levels : list string) (l : string) : Prop :=
  match levels with
  | [] => l = ARM64v8_0
  | x :: levels =>
      (Satisfies f x /\ l = x) \/ (~ Satisfies f x /\ first_satisfied f levels l)
  end.

Lemma first_satisfied_unique f levels l1 l2 :
  first_satisfied f levels l1 -> first_satisfied f levels l2 -> l1 = l2.
Proof.
  induction levels as [|x levels IH]; simpl; [congruence|].
  intros [[H1 ->]|[H1 F1]] [[H2 ->]|[H2 F2]]; try done. auto.
Qed.

Lemma EvaluateARM64_loop_correct levels f cache :
  cache_sound f cache ->
  exists l, EvaluateARM64_loop levels f cache = Ok l /\ first_satisfied f levels l.
Proof.
  revert cache. induction levels as [|lvl levels IH]; intros cache Hc; [by exists ARM64v8_0|].
  destruct (check_top lvl f cache Hc) as (b & c & Hr & Hb & Hc').
  cbn [EvaluateARM64_loop first_satisfied]. rewrite Hr. cbn. destruct b.
  - exists lvl. split; [done|]. left. split; [by apply Hb|done].
  - destruct (IH c Hc') as (l & Hl & Hf). exists l. split; [done|]. right.
    split; [by rewrite <- Hb|done].
Qed.

Lemma ordered_levels_sorted :
  StronglySorted (fun a b => (arm64_rank b < arm64_rank a)%Z) arm64OrderedLevels.
Proof. repeat constructor; vm_compute; reflexivity. Qed.

(** In a list of decreasing rank the first satisfied level is the highest. *)
Lemma first_satisfied_highest f levels l :
  StronglySorted (fun a b => (arm64_rank b < arm64_rank a)%Z) levels ->
  first_satisfied f levels l ->
  (l ∈ levels /\ Satisfies f l /\
   forall l', l' ∈ levels -> Satisfies f l' -> (arm64_rank l' <= arm64_rank l)%Z) \/
  (l = ARM64v8_0 /\ forall l', l' ∈ levels -> ~ Satisfies f l').
Proof.
  induction 1 as [|x levels Hs IH HF]; simpl.
  { intros ->. right. split; [done|]. intros l' H. by apply elem_of_nil in H. }
  intros [[Hx ->]|[Hx Hf]].
  - left. split; [by constructor|]. split; [done|].
    intros l' [-> |Hl']%elem_of_cons _; [lia|].
    rewrite Forall_forall in HF. specialize (HF l' Hl'). cbv beta in HF. lia.
  - destruct (IH Hf) as [(Hin & Hl & Hmax)|[-> Hno]]; [left|right].
    + split; [by constructor|]. split; [done|].
      intros l' [-> |Hl']%elem_of_cons Hs'; [done|by apply Hmax].
    + split; [done|]. intros l' [-> |Hl']%elem_of_cons; auto.
Qed.

(** ** [EvaluateARM64Detailed] *)

(** What the status of a level must report. *)
Definition status_right (f : ARM64Features) (s : ARM64LevelStatus) : Prop :=
  exists req, arm64RequirementsMap !! st_Level s = Some req /\
    st_Prereqs s = Prereqs req /\ st_RequiredFeatures s = RequiredFeatures req /\
    st_SourceDoc s = SourceDoc req /\
    (Satisfied s = true <-> Satisfies f (st_Level s)) /\
    (forall p, p ∈ MissingPrereqs s <-> p ∈ Prereqs req /\ ~ Satisfies f p) /\
    (forall n, n ∈ MissingFeatures s <->
               n ∈ RequiredFeatures req /\ hasARM64NamedFeature n f = false).

Lemma missing_prereqs_correct ps f cache :
  cache_sound f cache ->
  exists missing cache', missing_prereqs ps f cache = Ok (missing, cache') /\
    cache_sound f cache' /\ forall p, p ∈ missing <-> p ∈ ps /\ ~ Satisfies f p.
Proof.
  revert cache. induction ps as [|q ps IH]; intros cache Hc.
  { exists [], cache. split; [done|]. split; [done|]. intros p.
    split; [by intros ?%elem_of_nil|by intros [?%elem_of_nil _]]. }
  destruct (check_top q f cache Hc) as (b & c & Hr & Hb & Hc').
  destruct (IH c Hc') as (missing & c2 & Hm & Hc2 & Hspec).
  cbn [missing_prereqs]. rewrite Hr. cbn. rewrite Hm. cbn.
  eexists _, c2. split; [done|]. split; [done|]. intros p.
  destruct b; rewrite ?elem_of_cons, Hspec.
  - assert (Satisfies f q) by by apply Hb. split.
    + intros [? ?]. auto.
    + intros [[-> |?] ?]; [done|auto].
  - assert (~ Satisfies f q) by by rewrite <- Hb. split.
    + intros [-> |[? ?]]; auto.
    + intros [[-> |?] ?]; auto.
Qed.

Lemma findMissing_spec required f n :
  n ∈ findMissingARM64Features required f <->
  n ∈ required /\ hasARM64NamedFeature n f = false.
Proof. unfold findMissingARM64Features. rewrite list_elem_of_filter. tauto. Qed.

(** The missing features the status lists are all that are missing: a level
    whose check passes misses none. *)
Lemma missing_features_spec level req f n :
  arm64RequirementsMap !! level = Some req ->
  n ∈ (if negb (CheckFeatures req f) then findMissingARM64Features (RequiredFeatures req) f
       else []) <->
  n ∈ RequiredFeatures req /\ hasARM64NamedFeature n f = false.
Proof.
  intros H. destruct (CheckFeatures req f) eqn:E; cbn [negb]; [|apply findMissing_spec].
  rewrite (check_required _ _ _ H), forallb_forall in E. split; [by intros ?%elem_of_nil|].
  intros [Hin Hf]. rewrite list_elem_of_In in Hin. apply E in Hin. congruence.
Qed.

Lemma CheckFeatures_missing level req f :
  arm64RequirementsMap !! level = Some req ->
  CheckFeatures req f = true <->
  forall n, ~ (n ∈ RequiredFeatures req /\ hasARM64NamedFeature n f = false).
Proof.
  intros H. rewrite (check_required _ _ _ H), forallb_forall. split.
  - intros Hf n [Hin Hn]. rewrite list_elem_of_In in Hin. rewrite Hf in Hn; done.
  - intros Hf n Hin%list_elem_of_In. destruct (hasARM64NamedFeature n f) eqn:E; [done|].
    by destruct (Hf n).
Qed.

Lemma nil_iff_no_elem {A} (l : list A) : l = [] <-> forall x, x ∉ l.
Proof.
  split; [intros ->; apply not_elem_of_nil|]. destruct l as [|a l]; [done|].
  intros H. destruct (H a). by constructor.
Qed.

Lemma ordered_levels_known level :
  level ∈ arm64OrderedLevels -> is_Some (arm64RequirementsMap !! level).
Proof.
  intros H. rewrite list_elem_of_In in H. simpl in H.
  destruct_or?; subst; try done; eexists; vm_compute; reflexivity.
Qed.

Lemma Satisfies_em f p : Satisfies f p \/ ~ Satisfies f p.
Proof.
  destruct (check_top p f ∅ (cache_sound_empty f)) as (b & ? & _ & Hb & _).
  rewrite <- Hb. destruct b; auto.
Qed.

(** No missing feature and no missing prerequisite: the level is satisfied. *)
Lemma nothing_missing level req f (mf mp : list string) :
  arm64RequirementsMap !! level = Some req ->
  (forall n, n ∈ mf <-> n ∈ RequiredFeatures req /\ hasARM64NamedFeature n f = false) ->
  (forall p, p ∈ mp <-> p ∈ Prereqs req /\ ~ Satisfies f p) ->
  bool_decide (mf = []) && bool_decide (mp = []) = true <-> Satisfies f level.
Proof.
  intros Hreq Hmf Hmp. rewrite andb_true_iff, !bool_decide_eq_true, !nil_iff_no_elem.
  rewrite (Satisfies_inv _ _ _ Hreq), (CheckFeatures_missing _ _ _ Hreq).
  setoid_rewrite Hmf. setoid_rewrite Hmp. split; intros [H1 H2]; (split; [done|]).
  - intros p Hp. destruct (Satisfies_em f p) as [|Hn]; [done|]. by destruct (H2 p).
  - intros p [Hp Hn]. auto.
Qed.

(** A suffix of the ordered levels. *)
Definition ordered_part (levels : list string) : Prop :=
  StronglySorted (fun a b => (arm64_rank b < arm64_rank a)%Z) levels /\
  forall l, l ∈ levels -> l ∈ arm64OrderedLevels.

Lemma ordered_part_tail x levels : ordered_part (x :: levels) -> ordered_part levels.
Proof.
  intros [Hs Hk]. split; [by inversion Hs|]. intros l Hl. apply Hk. by constructor.
Qed.

(** [v8.0] comes last. *)
Lemma ordered_part_v8_0 levels : ordered_part (ARM64v8_0 :: levels) -> levels = [].
Proof.
  intros [Hs Hk]. apply nil_iff_no_elem. intros l Hl.
  inversion Hs as [|? ? _ HF]; subst. rewrite Forall_forall in HF. specialize (HF l Hl).
  assert (l ∈ arm64OrderedLevels) as Hin by (apply Hk; by constructor).
  rewrite list_elem_of_In in Hin. simpl in Hin. revert HF.
  destruct_or?; subst; try done; vm_compute; congruence.
Qed.

(** Once a level other than [v8.0] is chosen the loop keeps it. *)
Definition highest_inv (f : ARM64Features) (levels : list string) (start final : string) : Prop :=
  if String.eqb start ARM64v8_0 then first_satisfied f levels final else final = start.

Lemma highest_step f lvl levels start final (isSat : bool) :
  ordered_part (lvl :: levels) -> (isSat = true <-> Satisfies f lvl) ->
  highest_inv f levels
    (if isSat && String.eqb start ARM64v8_0 && negb (String.eqb lvl ARM64v8_0)
     then lvl else start) final ->
  highest_inv f (lvl :: levels) start final.
Proof.
  intros Ho Hsat. unfold highest_inv. destruct (String.eqb_spec start ARM64v8_0) as [->|Hne].
  - cbn [first_satisfied]. destruct isSat; simpl.
    + assert (Satisfies f lvl) by by apply Hsat.
      destruct (String.eqb_spec lvl ARM64v8_0) as [->|Hne]; simpl.
      * rewrite (ordered_part_v8_0 _ Ho). simpl. intros ->. by left.
      * rewrite (proj2 (String.eqb_neq _ _)) by done. by left.
    + intros Hf. right. split; [by rewrite <- Hsat|done].
  - rewrite andb_false_r. simpl. by rewrite (proj2 (String.eqb_neq _ _)).
Qed.

Lemma Detailed_loop_correct levels f cache start :
  ordered_part levels -> cache_sound f cache ->
  exists final statuses cache',
    EvaluateARM64Detailed_loop levels f cache start = Ok (final, statuses, cache') /\
    cache_sound f cache' /\ highest_inv f levels start final /\
    st_Level <$> statuses = levels /\ Forall (status_right f) statuses.
Proof.
  revert cache start. induction levels as [|lvl levels IH]; intros cache start Ho Hc.
  { exists start, [], cache. split; [done|]. split; [done|]. split; [|by split].
    unfold highest_inv. destruct (String.eqb_spec start ARM64v8_0); done. }
  destruct (ordered_levels_known lvl) as [req Hreq]; [apply Ho; by constructor|].
  cbn [EvaluateARM64Detailed_loop]. rewrite Hreq.
  change (default zero_requirement (Some req)) with req. cbv zeta.
  destruct (missing_prereqs_correct (Prereqs req) f cache Hc) as (mp & c & Hm & Hc' & Hmp).
  rewrite Hm. cbn -[EvaluateARM64Detailed_loop].
  pose proof (missing_features_spec lvl req f) as Hmf.
  set (mf := if negb (CheckFeatures req f) then _ else _) in *.
  pose proof (nothing_missing lvl req f mf mp Hreq (fun n => Hmf n Hreq) Hmp) as Hsat.
  set (isSat := bool_decide (mf = []) && bool_decide (mp = [])) in *.
  destruct (IH (<[lvl:=isSat]> c)
    (if isSat && String.eqb start ARM64v8_0 && negb (String.eqb lvl ARM64v8_0)
     then lvl else start)) as (final & sts & c2 & Hr & Hc2 & Hhi & Hlv & Hst).
  { by eapply ordered_part_tail. }
  { by apply cache_sound_insert. }
  rewrite Hr. cbn. eexists final, (_ :: sts), c2.
  split; [done|]. split; [done|]. split; [by eapply highest_step|].
  split; [by rewrite fmap_cons, Hlv|]. constructor; [|done]. exists req. simpl.
  do 4 (split; [done|]). do 2 (split; [assumption|]). intros n. by apply Hmf.
Qed.

(** ** Feature lists *)

Definition flag_of (flags : list (bool * string)) (name : string) : bool :=
  existsb (fun '(flag, n) => String.eqb name n && flag) flags.

Lemma flag_of_spec flags name : flag_of flags name = true <-> (true, name) ∈ flags.
Proof.
  unfold flag_of. rewrite existsb_exists. split.
  - intros ([b n] & Hin & [->%String.eqb_eq ->]%andb_prop). by apply list_elem_of_In.
  - intros H. exists (true, name). split; [by apply list_elem_of_In|].
    by rewrite String.eqb_refl.
Qed.

Lemma append_flags_spec flags lst name :
  name ∈ append_flags lst flags <-> name ∈ lst \/ flag_of flags name = true.
Proof.
  rewrite flag_of_spec. unfold append_flags. revert lst.
  induction flags as [|[b n] flags IH]; intros lst; simpl.
  { rewrite elem_of_nil. tauto. }
  rewrite IH, elem_of_cons. destruct b; [rewrite elem_of_app, list_elem_of_singleton|];
    split; intros; destruct_or?; simplify_eq; auto.
Qed.

Lemma flag_of_app l1 l2 name : flag_of (l1 ++ l2) name = flag_of l1 name || flag_of l2 name.
Proof. apply existsb_app. Qed.

Lemma extractARM64_flags f name :
  name ∈ extractARM64FeatureList f <->
  flag_of (simd_flags f ++ crypto_flags f ++ core_flags f) name = true.
Proof.
  unfold extractARM64FeatureList, appendSIMDFeatureList, appendCryptoFeatureList,
    appendCoreFeatureList.
  rewrite !append_flags_spec, !flag_of_app, !orb_true_iff, elem_of_nil. tauto.
Qed.

(** A required feature is in the extracted list exactly when its flag is set. *)
Lemma extract_named_feature level req feat f :
  arm64RequirementsMap !! level = Some req -> feat ∈ RequiredFeatures req ->
  feat ∈ extractARM64FeatureList f <-> hasARM64NamedFeature feat f = true.
Proof.
  intros H Hin. rewrite extractARM64_flags. apply eq_iff_eq_true.
  table_cases H; rewrite list_elem_of_In in Hin; simpl in Hin;
    destruct_or?; subst; try done; unfold hasARM64NamedFeature, flag_of; simpl;
    rewrite ?orb_false_r; reflexivity.
Qed.

Lemma Requires_in_table level feat :
  Requires level feat ->
  exists l req, arm64RequirementsMap !! l = Some req /\ feat ∈ RequiredFeatures req.
Proof. induction 1; eauto. Qed.

Lemma extract_required level feat f :
  Requires level feat ->
  feat ∈ extractARM64FeatureList f <-> hasARM64NamedFeature feat f = true.
Proof.
  intros (l & req & H & Hin)%Requires_in_table. by eapply extract_named_feature.
Qed.

(** ** Theorems *)

(** The CPU [g] has every feature [f] has, among those the table names. *)
Definition features_le (f g : ARM64Features) : Prop :=
  forall n, hasARM64NamedFeature n f = true -> hasARM64NamedFeature n g = true.

Lemma Satisfies_mono f g level : features_le f g -> Satisfies f level -> Satisfies g level.
Proof.
  intros Hle H. assert (is_Some (arm64RequirementsMap !! level)) as Hk by (destruct H; eauto).
  rewrite Satisfies_Requires in * by done. intros feat Hr. apply Hle, H, Hr.
Qed.

Lemma EvaluateARM64_first f :
  exists l, EvaluateARM64 f = Ok l /\ first_satisfied f arm64OrderedLevels l.
Proof. apply EvaluateARM64_loop_correct, cache_sound_empty. Qed.

(** The evaluation of ARM64 features returns a satisfied level that no other satisfied
    level outranks, and the baseline when none is satisfied. *)
Theorem EvaluateARM64_highest (f : ARM64Features) :
  exists l, EvaluateARM64 f = Ok l /\
    ((Satisfies f l /\ forall l', Satisfies f l' -> (arm64_rank l' <= arm64_rank l)%Z) \/
     (l = ARM64v8_0 /\ forall l', ~ Satisfies f l')).
Proof.
  destruct (EvaluateARM64_first f) as (l & Hl & Hf). exists l. split; [done|].
  destruct (first_satisfied_highest _ _ _ ordered_levels_sorted Hf)
    as [(_ & Hs & Hmax)|[-> Hno]]; [left|right].
  - split; [done|]. intros l' Hl'. apply Hmax; [by eapply Satisfies_known|done].
  - split; [done|]. intros l' Hl'. eapply Hno; [by eapply Satisfies_known|done].
Qed.

(** The detailed evaluation returns the level of the short one, and for every level of the
    table, in order, a status that lists exactly what is missing. *)
Theorem EvaluateARM64Detailed_agrees (f : ARM64Features) :
  exists l statuses, EvaluateARM64Detailed f = Ok (l, statuses) /\
    EvaluateARM64 f = Ok l /\
    st_Level <$> statuses = arm64OrderedLevels /\ Forall (status_right f) statuses.
Proof.
  destruct (EvaluateARM64_first f) as (l & Hl & Hf).
  destruct (Detailed_loop_correct arm64OrderedLevels f ∅ ARM64v8_0)
    as (final & sts & c & Hr & Hc & Hhi & Hlv & Hst).
  { split; [apply ordered_levels_sorted|done]. }
  { apply cache_sound_empty. }
  assert (final = l) as -> by exact (first_satisfied_unique _ _ _ _ Hhi Hf).
  exists l, sts. unfold EvaluateARM64Detailed. rewrite Hr. cbn -[checkARM64LevelSatisfied].
  split; [|split; [exact Hl|split; assumption]].
  destruct (String.eqb_spec l ARM64v8_0) as [->|]; [|done].
  destruct (check_top ARM64v8_0 f c Hc) as (b & ? & Hb & _). rewrite Hb. by destruct b.
Qed.

(** A CPU with at least the features of another never evaluates to a lower level. *)
Theorem EvaluateARM64_monotone (f g : ARM64Features) :
  features_le f g ->
  exists lf lg, EvaluateARM64 f = Ok lf /\ EvaluateARM64 g = Ok lg /\
    (arm64_rank lf <= arm64_rank lg)%Z.
Proof.
  intros Hle. destruct (EvaluateARM64_first f) as (lf & Hf & Ff).
  destruct (EvaluateARM64_first g) as (lg & Hg & Fg). exists lf, lg.
  split; [done|]. split; [done|].
  pose proof (first_satisfied_highest _ _ _ ordered_levels_sorted Ff) as Sf.
  pose proof (first_satisfied_highest _ _ _ ordered_levels_sorted Fg) as Sg.
  destruct Sf as [(Hin & Hs & _)|[-> _]], Sg as [(Hin' & Hs' & Hmax)|[-> Hno]].
  - apply Hmax; [done|]. by eapply Satisfies_mono.
  - destruct (Hno lf Hin (Satisfies_mono _ _ _ Hle Hs)).
  - rewrite list_elem_of_In in Hin'. simpl in Hin'.
    destruct_or?; subst; try done; vm_compute; congruence.
  - lia.
Qed.

Lemma v8_8_requires_nmi : Requires ARM64v8_8 "nmi".
Proof. eapply Requires_here; [vm_compute; reflexivity|]. simpl. repeat constructor. Qed.

Lemma v8_9_requires_nmi : Requires ARM64v8_9 "nmi".
Proof.
  eapply Requires_prereq; [vm_compute; reflexivity| |apply v8_8_requires_nmi].
  simpl. repeat constructor.
Qed.

Lemma nmi_needed f level :
  Requires level "nmi" -> HasNMI f = false -> ~ Satisfies f level.
Proof.
  intros Hr Hf Hs. rewrite Satisfies_Requires in Hs by (destruct Hr; eauto).
  specialize (Hs _ Hr). change (HasNMI f = true) in Hs. congruence.
Qed.

(** No host satisfies [v8.8] or [v8.9] by native detection. *)
Theorem native_detection_below_v8_8 (linux : bool) (cpu auxv : ARM64Features) :
  ~ Satisfies (currentARM64Features linux cpu auxv) ARM64v8_8 /\
  ~ Satisfies (currentARM64Features linux cpu auxv) ARM64v8_9.
Proof.
  split; apply nmi_needed; try done; [apply v8_8_requires_nmi|apply v8_9_requires_nmi].
Qed.

(** ** AMD64 levels *)

(** The features each level adds, as the comments of [EvaluateAMD64] name
    them and [extractX86FeatureList] spells them. *)
Definition amd64_v2_features : list string :=
  ["lahf_lm"; "cx16"; "popcnt"; "sse3"; "ssse3"; "sse4.1"; "sse4.2"].
Definition amd64_v3_features : list string :=
  ["avx"; "avx2"; "bmi1"; "bmi2"; "fma"; "osxsave"; "f16c"; "lzcnt"; "movbe"].
Definition amd64_v4_features : list string :=
  ["avx512f"; "avx512bw"; "avx512cd"; "avx512dq"; "avx512vl"].

Definition amd64_required (level : string) : list string :=
  if String.eqb level AMD64v2 then amd64_v2_features
  else if String.eqb level AMD64v3 then amd64_v2_features ++ amd64_v3_features
  else if String.eqb level AMD64v4 then
    amd64_v2_features ++ amd64_v3_features ++ amd64_v4_features
  else [].

Definition amd64_levels : list string := [AMD64v1; AMD64v2; AMD64v3; AMD64v4].

Lemma x86_list_forallb f names :
  (forall n, n ∈ names -> n ∈ extractX86FeatureList f) <->
  forallb (flag_of (x86_flags f)) names = true.
Proof.
  rewrite forallb_forall. setoid_rewrite <- list_elem_of_In.
  unfold extractX86FeatureList. setoid_rewrite append_flags_spec.
  setoid_rewrite elem_of_nil. split; intros H n Hn; specialize (H n Hn); tauto.
Qed.

Lemma EvaluateAMD64_groups f :
  EvaluateAMD64 f =
  if forallb (flag_of (x86_flags f)) amd64_v2_features then
    if forallb (flag_of (x86_flags f)) amd64_v3_features then
      if forallb (flag_of (x86_flags f)) amd64_v4_features then AMD64v4 else AMD64v3
    else AMD64v2
  else AMD64v1.
Proof.
  unfold EvaluateAMD64, flag_of. cbn. rewrite ?orb_false_r, ?andb_true_r, ?andb_assoc.
  destruct (HasLAHFSAHF f && HasCX16 f && HasPOPCNT f && HasSSE3 f && HasSSSE3 f &&
    HasSSE41 f && HasSSE42 f); simpl; [|done].
  destruct (HasAVX f && HasAVX2 f && HasBMI1 f && HasBMI2 f && HasFMA f && HasOSXSAVE f &&
    HasF16C f && HasLZCNT f && HasMOVBE f); simpl; [|done].
  by destruct (_ && _).
Qed.

Lemma EvaluateAMD64_required f level :
  level ∈ amd64_levels ->
  (switch_rank amd64_ranks level <= switch_rank amd64_ranks (EvaluateAMD64 f))%Z <->
  (forall n, n ∈ amd64_required level -> n ∈ extractX86FeatureList f).
Proof.
  intros Hl. rewrite x86_list_forallb, <- Z.leb_le.
  set (v2 := forallb (flag_of (x86_flags f)) amd64_v2_features).
  set (v3 := forallb (flag_of (x86_flags f)) amd64_v3_features).
  set (v4 := forallb (flag_of (x86_flags f)) amd64_v4_features).
  rewrite EvaluateAMD64_groups. fold v2 v3 v4.
  assert (forall l1 l2, forallb (flag_of (x86_flags f)) (l1 ++ l2) =
    forallb (flag_of (x86_flags f)) l1 && forallb (flag_of (x86_flags f)) l2) as Happ
    by (intros; apply forallb_app).
  rewrite list_elem_of_In in Hl. destruct Hl as [<-|[<-|[<-|[<-|[]]]]].
  - change (amd64_required AMD64v1) with (@nil string). cbn [forallb].
    by destruct v2, v3, v4.
  - change (amd64_required AMD64v2) with amd64_v2_features. fold v2.
    by destruct v2, v3, v4.
  - change (amd64_required AMD64v3) with (amd64_v2_features ++ amd64_v3_features)%list.
    rewrite Happ. fold v2 v3. by destruct v2, v3, v4.
  - change (amd64_required AMD64v4)
      with (amd64_v2_features ++ amd64_v3_features ++ amd64_v4_features)%list.
    rewrite !Happ. fold v2 v3 v4. by destruct v2, v3, v4.
Qed.

(** A level is at most the evaluated one exactly when the CPU reports every feature that
    level needs. *)
Theorem EvaluateAMD64_highest (f : X86Features) (level : string) :
  level ∈ amd64_levels ->
  (switch_rank amd64_ranks level <= switch_rank amd64_ranks (EvaluateAMD64 f))%Z <->
  (forall n, n ∈ amd64_required level -> n ∈ extractX86FeatureList f).
Proof. apply EvaluateAMD64_required. Qed.

(** ** The auxiliary vector *)

(** The sixteen bytes of an entry. *)
Definition auxv_entry (e : Z * Z) : list byte := le_bytes 8 e.1 ++ le_bytes 8 e.2.

Lemma length_auxv_entry e : length (auxv_entry e) = 16%nat.
Proof. unfold auxv_entry. by rewrite length_app, !length_le_bytes. Qed.

(** What an entry does to the features read so far. *)
Definition apply_auxv (f : ARM64Features) (e : Z * Z) : ARM64Features :=
  if (e.1 =? auxvAT_HWCAP)%Z then set_hwcap e.2 f
  else if (e.1 =? auxvAT_HWCAP2)%Z then set_hwcap2 e.2 f else f.

Definition uint64_entry (e : Z * Z) : Prop := uint64_range e.1 /\ uint64_range e.2.

(** The entries before the terminator. *)
Fixpoint until_null (es : list (Z * Z)) : list (Z * Z) :=
  match es with
  | [] => []
  | e :: es => if (e.1 =? 0)%Z then [] else e :: until_null es
  end.

Lemma le_val_uint64 z : uint64_range z -> le_val (le_bytes 8 z) = z.
Proof. intros H. rewrite le_val_bytes. apply Z.mod_small. exact H. Qed.

Lemma auxv_loop_entries fuel pre es tail features :
  (length (concat (auxv_entry <$> es)) < fuel)%nat -> (length tail < 16)%nat ->
  Forall uint64_entry es ->
  auxv_loop fuel (pre ++ concat (auxv_entry <$> es) ++ tail) (length pre) features =
  Ok (fold_left apply_auxv (until_null es) features).
Proof.
  revert fuel pre features. induction es as [|e es IH]; intros [|fuel] pre features Hf Ht Hes;
    try lia.
  { cbn. rewrite (proj2 (Nat.leb_gt _ _)); [done|]. rewrite length_app. simpl. lia. }
  inversion Hes as [|? ? [He1 He2] Hes']; subst.
  rewrite fmap_cons in *. cbn [concat] in *. rewrite length_app, length_auxv_entry in Hf.
  set (R := (concat (auxv_entry <$> es) ++ tail)%list).
  replace (pre ++ (auxv_entry e ++ concat (auxv_entry <$> es)) ++ tail)%list
    with (pre ++ le_bytes 8 e.1 ++ le_bytes 8 e.2 ++ R)%list
    by (unfold auxv_entry at 1, R; by rewrite <- !app_assoc).
  cbn [auxv_loop].
  rewrite (proj2 (Nat.leb_le _ _)) by (rewrite !length_app, !length_le_bytes; lia).
  rewrite (go_slice_app pre (le_bytes 8 e.1) _ (length pre)) by (rewrite ?length_le_bytes; lia).
  cbn [mbind outcome_bind]. rewrite (app_assoc pre).
  rewrite (go_slice_app (pre ++ le_bytes 8 e.1)%list (le_bytes 8 e.2))
    by (rewrite ?length_app, ?length_le_bytes; lia).
  cbn [mbind outcome_bind]. rewrite !le_val_uint64 by done.
  cbn [until_null]. destruct (e.1 =? 0)%Z; [done|].
  replace (length pre + 16)%nat with (length ((pre ++ le_bytes 8 e.1) ++ le_bytes 8 e.2))
    by (rewrite !length_app, !length_le_bytes; lia).
  rewrite (app_assoc _ (le_bytes 8 e.2)). unfold R. by rewrite IH by (try done; lia).
Qed.

(** Parsing the bytes of an auxiliary vector applies the entries before the terminator, in
    order, and ignores an incomplete entry at the end. *)
Theorem parseLinuxAuxvARM64_entries (es : list (Z * Z)) (tail : list byte) :
  Forall uint64_entry es -> (length tail < 16)%nat ->
  parseLinuxAuxvARM64 (concat (auxv_entry <$> es) ++ tail) =
  Ok (fold_left apply_auxv (until_null es) no_arm64_features).
Proof.
  intros Hes Ht. apply (auxv_loop_entries _ []); try done.
  rewrite length_app. lia.
Qed.

(** ** Concrete runs *)

Definition v2_cpu : X86Features :=
  mkX86Features true true true true true true true false false false false false false false false
    false false false false false false.

Lemma EvaluateAMD64_highest_witness :
  (switch_rank amd64_ranks AMD64v3 <= switch_rank amd64_ranks (EvaluateAMD64 v2_cpu))%Z <->
  (forall n, n ∈ amd64_required AMD64v3 -> n ∈ extractX86FeatureList v2_cpu).
Proof. apply (EvaluateAMD64_highest v2_cpu AMD64v3). right. right. left. Defined.

(** One feature more. *)
Definition fp_only : ARM64Features :=
  mkARM64Features true false false false false false false false false false false false false
    false false false false false false false false false false false false false false false
    false false false false false false.

Lemma EvaluateARM64_monotone_witness :
  exists lf lg, EvaluateARM64 no_arm64_features = Ok lf /\ EvaluateARM64 fp_only = Ok lg /\
    (arm64_rank lf <= arm64_rank lg)%Z.
Proof. 
  apply (EvaluateARM64_monotone no_arm64_features fp_only). intros n Hn. unfold hasARM64NamedFeature in Hn.
  repeat match type of Hn with (if ?c then _ else _) = true => destruct c; [discriminate Hn|] end.
  discriminate Hn.
Defined.

(** [AT_HWCAP2] with the BF16 bit, then the terminator, then a stray byte. *)
Lemma parseLinuxAuxvARM64_entries_witness :
  parseLinuxAuxvARM64 (concat (auxv_entry <$> [(auxvAT_HWCAP2, 16384%Z); (0%Z, 0%Z)]) ++ [x01]) =
  Ok (fold_left apply_auxv (until_null [(auxvAT_HWCAP2, 16384%Z); (0%Z, 0%Z)]) no_arm64_features).
Proof.
  apply parseLinuxAuxvARM64_entries; [|cbn; lia].
  repeat constructor; vm_compute; (reflexivity || discriminate).
Defined.
