(* ===== verification/MicroarchSelect.v ===== *)
(** * Variant selection of [internal/microarch]

    [SelectVariantForHost] and the functions it calls: the compatibility
    filter on the host's features, the forced level, the rank cap, the
    disabled variants, and the choice of the highest remaining candidate.

    The candidates are ordered by [sort.Slice], which is not stable; the class
    [SliceSort] states its contract and nothing more, so the theorems hold for
    whatever order it gives to equal ranks. *)

From S2P Require Import Prelude GoStrings Microarch MicroarchFeatures.
From stdpp Require Import base list strings gmap sorting.
From Stdlib Require Import ZArith Lia.

Local Open Scope string_scope.

(** ** [sort.Slice] *)

(** [less] orders by a key, smaller keys first. *)
Definition less_by {A} (key : A -> Z) (a b : A) : bool := (key a <? key b)%Z.

(** [b] need not come before [a]. *)
Definition not_after {A} (less : A -> A -> bool) (a b : A) : Prop := less b a = false.

(** What [sort.Slice] asks of the order: transitive, and so where it is false. *)
Record weak_order {A} (less : A -> A -> bool) : Prop := {
  wo_irreflexive a : less a a = false;
  wo_transitive a b c : less a b = true -> less b c = true -> less a c = true;
  wo_negative a b c : less a b = false -> less b c = false -> less a c = false
}.

Class SliceSort := {
  sort_slice : forall {A}, (A -> A -> bool) -> list A -> list A;
  sort_slice_Permutation : forall {A} (less : A -> A -> bool) l,
    sort_slice less l ≡ₚ l;
  sort_slice_ordered : forall {A} (less : A -> A -> bool) l,
    weak_order less -> StronglySorted (not_after less) (sort_slice less l)
}.

Lemma sort_slice_sorted {SS : SliceSort} {A} (less : A -> A -> bool) (key : A -> Z) l :
  (forall a b, less a b = less_by key a b) ->
  StronglySorted (fun a b => (key a <= key b)%Z) (sort_slice less l).
Proof.
  intros H. assert (weak_order less) as Hw.
  { split; intros *; rewrite !H; unfold less_by; rewrite ?Z.ltb_lt, ?Z.ltb_ge; lia. }
  induction (sort_slice_ordered less l Hw) as [|x l' Hs IH HF]; constructor; [done|].
  eapply Forall_impl; [exact HF|]. intros y. unfold not_after. rewrite H. apply Z.ltb_ge.
Qed.

(** ** Requirements of a level *)

Fixpoint collect_prereqs (collect : string -> bool_map -> outcome microarch_err (bool * bool_map))
    (ps : list string) (features : bool_map) : outcome microarch_err (bool * bool_map) :=
  match ps with
  | [] => Ok (true, features)
  | p :: ps =>
      '(ok, features) ← collect p features;
      if negb ok then Ok (false, features) else collect_prereqs collect ps features
  end.

(** [collectARM64Requirements]: fills the caller's map; [fuel] as for
    [checkARM64LevelSatisfied]. *)
Fixpoint collectARM64Requirements (fuel : nat) (level : string) (features : bool_map) :
    outcome microarch_err (bool * bool_map) :=
  match fuel with
  | O => Panic
  | S fuel =>
      match arm64RequirementsMap !! level with
      | None => Ok (false, features)
      | Some req =>
          '(ok, features) ←
            collect_prereqs (collectARM64Requirements fuel) (Prereqs req) features;
          if negb ok then Ok (false, features)
          else Ok (true, fold_left (fun m feature => <[feature := true]> m)
                                   (RequiredFeatures req) features)
      end
  end.

Record PolicyResult := mkResult {
  SelectedVariant : string;
  PolicyApplied : string;
  OverrideReason : string
}.

Record variantCandidate := mkCandidate {
  original : string;
  norm : string;
  rank : Z
}.

Section Select.
Context {GU : GoUnicode} {SS : SliceSort}.

Definition hostSupports (host : Info) (level : string) : outcome microarch_err bool :=
  if negb (String.eqb (canonicalArch (Arch host)) ArchARM64) then
    let rank := Rank (Arch host) level in
    Ok ((0 <=? rank) && (rank <=? Rank (Arch host) (Level host)))%Z
  else
    '(ok, required) ← collectARM64Requirements arm64_fuel (Normalize level) ∅;
    if negb ok then Ok false
    else
      let required := fold_left (fun m feature => delete feature m) (Features host) required in
      Ok (bool_decide (size required = 0%nat)).

Definition buildDisabledSet (disabled : list string) : gset string :=
  fold_left (fun s d => {[Normalize d]} ∪ s) disabled ∅.

(** [skylake] is what [isSkylakeXOrCascadeLakeFunc] returns. *)
Definition computeEffectiveMaxRank (skylake : bool) (arch : string) (hostRank : Z)
    (policy : Policy) : Z * string * string :=
  let '(effectiveMaxRank, policyApplied, overrideReason) :=
    if negb (String.eqb (MaxLevel policy) "") then
      let maxRank := Rank arch (Normalize (MaxLevel policy)) in
      if ((0 <=? maxRank) && (maxRank <? hostRank))%Z
      then (maxRank, "max_level", "MICROFAT_MAX_LEVEL=" ++ MaxLevel policy)
      else (hostRank, "", "")
    else (hostRank, "", "") in
  let isSafeAVX512 := AVX512DownclockProtection policy ||
    String.eqb (policy_Name policy) PolicySafeAVX512 ||
    String.eqb (policy_Name policy) PolicyNoDownclock in
  if isSafeAVX512 && String.eqb (canonicalArch arch) ArchAMD64 &&
     (rankAMD64v4 <=? hostRank)%Z && skylake && (rankAMD64v3 <? effectiveMaxRank)%Z
  then (rankAMD64v3, "avx512_downclock_protection",
        "Intel Skylake-X/Cascade Lake AVX-512 downclocking protection applied (capped at v3)")
  else (effectiveMaxRank, policyApplied, overrideReason).

Fixpoint filterAndRankCandidates (arch : string) (hostRank effectiveMaxRank : Z)
    (availableLevels : list string) (disabledSet : gset string) : list variantCandidate :=
  match availableLevels with
  | [] => []
  | lvl :: levels =>
      let n := Normalize lvl in
      let r := Rank arch n in
      let rest := filterAndRankCandidates arch hostRank effectiveMaxRank levels disabledSet in
      if ((r <? 0) || (hostRank <? r) || (effectiveMaxRank <? r))%Z then rest
      else if bool_decide (n ∈ disabledSet) then rest
      else mkCandidate lvl n r :: rest
  end.

Definition resolveForcedVariant (arch : string) (hostRank : Z) (availableLevels : list string)
    (forceLevel : string) : outcome microarch_err PolicyResult :=
  let normForced := Normalize forceLevel in
  let forcedRank := Rank arch normForced in
  if (forcedRank <? 0)%Z then Err ErrIncompatibleForcedVariant
  else if ((0 <=? hostRank) && (hostRank <? forcedRank))%Z
  then Err ErrIncompatibleForcedVariant
  else
    match find (fun lvl => String.eqb (Normalize lvl) normForced) availableLevels with
    | Some lvl => Ok (mkResult lvl "force_level" ("MICROFAT_FORCE_LEVEL=" ++ forceLevel))
    | None => Err ErrVariantNotEmbedded
    end.

Definition selectCompatibleVariant (skylake : bool) (arch hostLevel : string)
    (availableLevels : list string) (policy : Policy) : outcome microarch_err PolicyResult :=
  if bool_decide (availableLevels = []) then Err ErrEmptyVariants else
  let hostRank := Rank arch hostLevel in
  if negb (String.eqb (ForceLevel policy) "") then
    resolveForcedVariant arch hostRank availableLevels (ForceLevel policy)
  else if (hostRank <? 0)%Z then Err ErrUnknownHostLevel
  else
    let '(effectiveMaxRank, policyApplied, overrideReason) :=
      computeEffectiveMaxRank skylake arch hostRank policy in
    let disabledSet := buildDisabledSet (DisabledVariants policy) in
    let '(policyApplied, overrideReason) :=
      if negb (bool_decide (disabledSet = ∅)) && String.eqb policyApplied "" then
        ("disable_variants", "MICROFAT_DISABLE_VARIANTS=" ++ strings_Join (DisabledVariants policy) ",")
      else (policyApplied, overrideReason) in
    let candidates :=
      filterAndRankCandidates arch hostRank effectiveMaxRank availableLevels disabledSet in
    if (length candidates =? 0)%nat then Err ErrNoMatchingVariant else
    match sort_slice (fun a b => rank b <? rank a)%Z candidates with
    | [] => Panic
    | c :: _ => Ok (mkResult (original c) policyApplied overrideReason)
    end.

(** The loop that keeps the levels the host supports. *)
Fixpoint compatible_levels (host : Info) (levels : list string) :
    outcome microarch_err (list string) :=
  match levels with
  | [] => Ok []
  | level :: levels =>
      ok ← hostSupports host level;
      rest ← compatible_levels host levels;
      Ok (if (ok : bool) then level :: rest else rest)
  end.

Definition SelectVariantForHost (skylake : bool) (arch : string) (host : Info)
    (availableLevels : list string) (policy : Policy) : outcome microarch_err PolicyResult :=
  if negb (String.eqb (canonicalArch arch) (canonicalArch (Arch host)))
  then Err ErrNoMatchingVariant
  else if (Rank arch (Level host) <? 0)%Z then Err ErrNoMatchingVariant
  else
    compatible ← compatible_levels host availableLevels;
    forceOk ← (if String.eqb (ForceLevel policy) "" then Ok true
               else hostSupports host (ForceLevel policy));
    if negb forceOk then Err ErrIncompatibleForcedVariant
    else if (0 <? length availableLevels)%nat && (length compatible =? 0)%nat
    then Err ErrNoMatchingVariant
    else selectCompatibleVariant skylake arch (Level host) compatible policy.

(** [order] is the order in which Go ranges over the feature map. *)
Definition SelectVariantWithPolicy (order : list string -> list string) (skylake : bool)
    (arch hostLevel : string) (availableLevels : list string) (policy : Policy) :
    outcome microarch_err PolicyResult :=
  features ←
    (if EqualFold arch ArchARM64 || EqualFold arch "aarch64" then
       '(_, features) ← collectARM64Requirements arm64_fuel (Normalize hostLevel) ∅;
       Ok (order (elements (dom features)))
     else Ok []);
  SelectVariantForHost skylake arch (mkInfo "" arch hostLevel features []) availableLevels policy.

Definition BestMatchingVariantFor (order : list string -> list string) (skylake : bool)
    (arch hostLevel : string) (availableLevels : list string) : outcome microarch_err string :=
  res ← SelectVariantWithPolicy order skylake arch hostLevel availableLevels zero_policy;
  Ok (SelectedVariant res).

(** [host] is what [Detect] returns. *)
Definition BestMatchingVariant (skylake : bool) (host : Info) (availableLevels : list string) :
    outcome microarch_err string :=
  if bool_decide (availableLevels = []) then Err ErrEmptyVariants
  else
    res ← SelectVariantForHost skylake (Arch host) host availableLevels zero_policy;
    Ok (SelectedVariant res).
End Select.

(** ** Collecting requirements *)

Lemma fold_insert_dom (feats : list string) (m : bool_map) k :
  is_Some (fold_left (fun m feature => <[feature := true]> m) feats m !! k) <->
  is_Some (m !! k) \/ k ∈ feats.
Proof.
  revert m. induction feats as [|x feats IH]; intros m; simpl.
  { rewrite elem_of_nil. tauto. }
  rewrite IH, lookup_insert_is_Some', elem_of_cons.
  split; [intros [[->|?]|?]; auto|intros [?|[->|?]]; auto].
Qed.

Lemma fold_delete_lookup (feats : list string) (m : bool_map) k :
  is_Some (fold_left (fun m feature => delete feature m) feats m !! k) <->
  is_Some (m !! k) /\ k ∉ feats.
Proof.
  revert m. induction feats as [|x feats IH]; intros m; simpl.
  { pose proof (not_elem_of_nil k). tauto. }
  rewrite IH, lookup_delete_is_Some, not_elem_of_cons.
  split; [intros [[? ?] ?]|intros [? [? ?]]]; auto.
Qed.

#[local] Opaque arm64RequirementsMap.

(** [m'] adds to [m] exactly the features [P] holds of. *)
Definition adds (P : string -> Prop) (m m' : bool_map) : Prop :=
  forall k, is_Some (m' !! k) <-> is_Some (m !! k) \/ P k.

Lemma collect_prereqs_correct collect ps m :
  (forall p m, p ∈ ps -> exists m', collect p m = Ok (true, m') /\ adds (Requires p) m m') ->
  exists m', collect_prereqs collect ps m = Ok (true, m') /\
    adds (fun k => exists p, p ∈ ps /\ Requires p k) m m'.
Proof.
  revert m. induction ps as [|p ps IH]; intros m H.
  { exists m. split; [done|]. intros k. split; [auto|].
    by intros [?|(p & ?%elem_of_nil & _)]. }
  destruct (H p m) as (m1 & Hr & Ha); [by constructor|].
  destruct (IH m1) as (m2 & Hr2 & Ha2); [intros q mq Hq; apply H; by constructor|].
  exists m2. cbn [collect_prereqs]. rewrite Hr. cbn. split; [done|].
  intros k. rewrite (Ha2 k), (Ha k). setoid_rewrite elem_of_cons. split.
  - intros [[?|?]|(q & ? & ?)]; eauto.
  - intros [?|(q & [->|?] & ?)]; eauto.
Qed.

Lemma collect_correct fuel level m :
  (height level < fuel)%nat -> is_Some (arm64RequirementsMap !! level) ->
  exists m', collectARM64Requirements fuel level m = Ok (true, m') /\
    adds (Requires level) m m'.
Proof.
  revert level m. induction fuel as [|fuel IH]; intros level m Hh [req Hreq]; [lia|].
  cbn [collectARM64Requirements]. rewrite Hreq.
  destruct (collect_prereqs_correct (collectARM64Requirements fuel) (Prereqs req) m)
    as (m1 & Hr & Ha).
  { intros p m' Hp. apply IH; [|by eapply prereq_known].
    pose proof (prereq_height _ _ _ Hreq Hp). lia. }
  rewrite Hr. cbn. eexists. split; [done|]. intros k.
  rewrite fold_insert_dom, (Ha k), (Requires_inv _ _ _ Hreq). tauto.
Qed.

Section SelectLemmas.
Context {GU : GoUnicode} {SS : SliceSort}.

(** What the compatibility filter decides for an ARM64 host. *)
Definition arm64_supported (host : Info) (level : string) : Prop :=
  is_Some (arm64RequirementsMap !! Normalize level) /\
  forall feat, Requires (Normalize level) feat -> feat ∈ Features host.

Lemma hostSupports_arm64 host level :
  canonicalArch (Arch host) = ArchARM64 ->
  exists b, hostSupports host level = Ok b /\ (b = true <-> arm64_supported host level).
Proof.
  intros Ha. unfold hostSupports, arm64_supported. rewrite Ha, String.eqb_refl. cbn [negb].
  destruct (arm64RequirementsMap !! Normalize level) as [req|] eqn:E.
  2:{ unfold arm64_fuel. cbn [collectARM64Requirements]. rewrite E. cbn. exists false.
      split; [done|]. split; [done|]. by intros [[? ?] _]. }
  destruct (collect_correct arm64_fuel (Normalize level) ∅) as (m & Hr & Hm);
    [apply height_bound|by eauto|].
  rewrite Hr. cbn -[size]. eexists. split; [done|].
  rewrite bool_decide_eq_true, map_size_empty_iff, map_empty.
  assert (forall k, fold_left (fun m feature => delete feature m) (Features host) m !! k = None
    <-> (Requires (Normalize level) k -> k ∈ Features host)) as Hk.
  { intros k. rewrite eq_None_not_Some, fold_delete_lookup, (Hm k), lookup_empty.
    split.
    - intros H Hk. destruct (decide (k ∈ Features host)); [done|].
      destruct H. split; [by right|done].
    - intros H [[[? [=]]|Hk] Hn]. auto. }
  setoid_rewrite Hk. split; [|by intros [_ ?]]. intros H. split; [by eauto|done].
Qed.

Lemma hostSupports_ok host level : exists b, hostSupports host level = Ok b.
Proof.
  destruct (decide (canonicalArch (Arch host) = ArchARM64)) as [Ha|Ha].
  - destruct (hostSupports_arm64 host level Ha) as (b & ? & _). eauto.
  - unfold hostSupports. rewrite (proj2 (String.eqb_neq _ _)) by done. cbn. eauto.
Qed.

(** The levels kept are those the host supports. *)
Lemma compatible_levels_spec host levels :
  exists kept, compatible_levels host levels = Ok kept /\
    forall l, l ∈ kept <-> l ∈ levels /\ hostSupports host l = Ok true.
Proof.
  induction levels as [|l levels (kept & Hr & Hk)].
  { exists []. split; [done|]. intros l. rewrite elem_of_nil. tauto. }
  destruct (hostSupports_ok host l) as [b Hb].
  cbn [compatible_levels]. rewrite Hb. cbn. rewrite Hr. cbn. eexists. split; [done|].
  intros l'. destruct b; rewrite ?elem_of_cons, Hk.
  - split; [intros [->|[? ?]]; auto|intros [[->|?] ?]; auto].
  - split; [intros [? ?]; auto|intros [[->|?] ?]; [congruence|auto]].
Qed.

Lemma elem_of_disabled disabled n :
  n ∈ buildDisabledSet disabled <-> exists d, d ∈ disabled /\ Normalize d = n.
Proof.
  unfold buildDisabledSet. assert (forall s : gset string, n ∈ fold_left (fun s d => {[Normalize d]} ∪ s)
    disabled s <-> n ∈ s \/ exists d, d ∈ disabled /\ Normalize d = n) as H.
  { induction disabled as [|d disabled IH]; intros s; simpl.
    - setoid_rewrite elem_of_nil. naive_solver.
    - rewrite IH, elem_of_union, elem_of_singleton. setoid_rewrite elem_of_cons. naive_solver. }
  rewrite H, elem_of_empty. tauto.
Qed.

(** A level the policy leaves eligible. *)
Definition eligible (arch : string) (hostRank maxRank : Z) (disabled : gset string)
    (level : string) : Prop :=
  (0 <= Rank arch (Normalize level) <= hostRank)%Z /\
  (Rank arch (Normalize level) <= maxRank)%Z /\ Normalize level ∉ disabled.

Lemma filterAndRank_spec arch hostRank maxRank levels disabled c :
  c ∈ filterAndRankCandidates arch hostRank maxRank levels disabled <->
  original c ∈ levels /\ eligible arch hostRank maxRank disabled (original c) /\
  norm c = Normalize (original c) /\ rank c = Rank arch (Normalize (original c)).
Proof.
  induction levels as [|l levels IH]; cbn [filterAndRankCandidates].
  { rewrite !elem_of_nil. tauto. }
  unfold eligible in *. rewrite elem_of_cons.
  destruct (_ || _) eqn:E.
  { rewrite IH. split; [tauto|]. intros [[->|?] ?]; [|tauto].
    rewrite !orb_true_iff, !Z.ltb_lt in E. lia. }
  rewrite !orb_false_iff, !Z.ltb_ge in E. case_bool_decide as Hd.
  { rewrite IH. split; [tauto|]. intros [[->|?] ?]; tauto. }
  rewrite elem_of_cons, IH. split.
  - intros [->|?]; [|tauto]. cbn. split; [auto|]. repeat split; auto; lia.
  - intros [[E'|?] ?]; [left|tauto]. destruct c as [o n r]. cbn in *. subst.
    destruct H as (_ & -> & ->). done.
Qed.

(** The head of the sorted candidates is one of them, and none ranks higher. *)
Lemma sorted_head candidates :
  (length candidates =? 0)%nat = false ->
  exists c rest, sort_slice (fun a b => rank b <? rank a)%Z candidates = c :: rest /\
    c ∈ candidates /\ forall d, d ∈ candidates -> (rank d <= rank c)%Z.
Proof.
  intros Hne. set (less := fun a b => (rank b <? rank a)%Z).
  pose proof (sort_slice_Permutation less candidates) as Hp.
  pose proof (sort_slice_sorted less (fun c => - rank c)%Z candidates) as Hs.
  destruct (sort_slice less candidates) as [|c rest] eqn:E.
  { apply Permutation_nil_l in Hp. by subst. }
  exists c, rest. split; [done|]. split.
  - rewrite <- Hp. by constructor.
  - intros d. rewrite <- Hp. intros [-> |Hd]%elem_of_cons; [lia|].
    assert (StronglySorted (fun a b => (- rank a <= - rank b)%Z) (c :: rest)) as Hs'.
    { apply Hs. intros a b. unfold less, less_by.
      destruct (Z.ltb_spec (rank b) (rank a)), (Z.ltb_spec (- rank a) (- rank b)); lia. }
    inversion Hs' as [|? ? _ HF]; subst. rewrite Forall_forall in HF.
    specialize (HF d Hd). cbv beta in HF. lia.
Qed.

Lemma cap_le (c : bool) m h (a b a' b' : string) :
  (m <= h)%Z ->
  ((if c && (rankAMD64v3 <? m)%Z then (rankAMD64v3, a, b) else (m, a', b')).1.1 <= h)%Z.
Proof. destruct c, (Z.ltb_spec rankAMD64v3 m); simpl; lia. Qed.

(** The rank cap never exceeds the host's rank. *)
Lemma effective_max_le skylake arch hostRank policy :
  ((computeEffectiveMaxRank skylake arch hostRank policy).1.1 <= hostRank)%Z.
Proof.
  unfold computeEffectiveMaxRank.
  destruct (negb (String.eqb (MaxLevel policy) "")).
  - set (r := Rank arch (Normalize (MaxLevel policy))).
    destruct ((0 <=? r) && (r <? hostRank))%Z eqn:E.
    + apply andb_prop in E as [_ E%Z.ltb_lt]. apply (cap_le _ r); lia.
    + apply (cap_le _ hostRank). lia.
  - apply (cap_le _ hostRank). lia.
Qed.

Definition cap (skylake : bool) (arch hostLevel : string) (policy : Policy) : Z :=
  (computeEffectiveMaxRank skylake arch (Rank arch hostLevel) policy).1.1.

(** A level [selectCompatibleVariant] may choose. *)
Definition choosable (skylake : bool) (arch hostLevel : string) (policy : Policy)
    (level : string) : Prop :=
  eligible arch (Rank arch hostLevel) (cap skylake arch hostLevel policy)
    (buildDisabledSet (DisabledVariants policy)) level.

(** The result when no level is forced: the highest choosable level, or the
    error when there is none. *)
Definition best_choice (choosable : string -> Prop) (rank : string -> Z) (levels : list string)
    (r : outcome microarch_err PolicyResult) : Prop :=
  (exists res, r = Ok res /\ SelectedVariant res ∈ levels /\ choosable (SelectedVariant res) /\
     forall l, l ∈ levels -> choosable l -> (rank l <= rank (SelectedVariant res))%Z) \/
  (r = Err ErrNoMatchingVariant /\ forall l, l ∈ levels -> ~ choosable l).

Lemma selectCompatible_best skylake arch hostLevel levels policy :
  levels <> [] -> ForceLevel policy = "" -> (0 <= Rank arch hostLevel)%Z ->
  best_choice (choosable skylake arch hostLevel policy) (fun l => Rank arch (Normalize l)) levels
    (selectCompatibleVariant skylake arch hostLevel levels policy).
Proof.
  intros Hne Hf Hr. unfold selectCompatibleVariant, choosable, cap.
  rewrite bool_decide_false by done. rewrite Hf. cbn [String.eqb negb].
  rewrite (proj2 (Z.ltb_ge _ _)) by done.
  destruct (computeEffectiveMaxRank _ _ _ _) as [[maxRank applied] reason]. cbn [fst].
  destruct (if _ && _ then _ else _) as [applied' reason'].
  set (cands := filterAndRankCandidates _ _ _ _ _).
  pose proof (filterAndRank_spec arch (Rank arch hostLevel) maxRank levels
    (buildDisabledSet (DisabledVariants policy))) as Hspec. fold cands in Hspec.
  destruct (length cands =? 0)%nat eqn:El.
  - right. split; [done|]. intros l Hl He. apply Nat.eqb_eq, nil_length_inv in El.
    assert (mkCandidate l (Normalize l) (Rank arch (Normalize l)) ∈ cands) as Hin
      by by apply Hspec.
    rewrite El in Hin. by apply elem_of_nil in Hin.
  - left. destruct (sorted_head cands El) as (c & rest & -> & Hc & Hmax).
    apply Hspec in Hc as (Hin & He & _ & Hrank). eexists. split; [done|].
    cbn [SelectedVariant]. split; [done|]. split; [done|].
    intros l Hl Hel. rewrite <- Hrank.
    apply (Hmax (mkCandidate l (Normalize l) (Rank arch (Normalize l)))), Hspec. done.
Qed.
End SelectLemmas.

(** ** Theorems *)

Section SelectTheorems.
Context {GU : GoUnicode} {SS : SliceSort}.

Lemma resolveForced_spec arch hostRank levels force res :
  resolveForcedVariant arch hostRank levels force = Ok res ->
  SelectedVariant res ∈ levels /\ Normalize (SelectedVariant res) = Normalize force.
Proof.
  unfold resolveForcedVariant. repeat (split_if; [done|]).
  destruct (find _ levels) as [l|] eqn:E; [|done]. intros [= <-].
  apply find_some in E as [Hin E%String.eqb_eq]. by rewrite list_elem_of_In.
Qed.

(** Whatever the policy, the choice is one of the levels offered. *)
Lemma selectCompatible_in skylake arch hostLevel levels policy res :
  selectCompatibleVariant skylake arch hostLevel levels policy = Ok res ->
  SelectedVariant res ∈ levels /\
  (ForceLevel policy <> "" -> Normalize (SelectedVariant res) = Normalize (ForceLevel policy)).
Proof.
  intros H. destruct (decide (levels = [])) as [->|Hne]; [done|].
  destruct (decide (ForceLevel policy = "")) as [Hf|Hf].
  - destruct (decide (0 <= Rank arch hostLevel)%Z) as [Hr|Hr].
    + destruct (selectCompatible_best skylake arch hostLevel levels policy Hne Hf Hr)
        as [(res' & E & Hin & _)|[E _]]; rewrite E in H; [|done].
      injection H as ->. done.
    + unfold selectCompatibleVariant in H. rewrite bool_decide_false, Hf in H by done.
      cbn [String.eqb negb] in H. rewrite (proj2 (Z.ltb_lt _ _)) in H by lia. done.
  - unfold selectCompatibleVariant in H. rewrite bool_decide_false in H by done.
    rewrite (proj2 (String.eqb_neq _ _)) in H by done.
    apply resolveForced_spec in H as [? ?]. done.
Qed.

Lemma selectCompatible_no_panic skylake arch hostLevel levels policy :
  selectCompatibleVariant skylake arch hostLevel levels policy <> Panic.
Proof.
  destruct (decide (levels = [])) as [->|Hne]; [done|].
  destruct (decide (ForceLevel policy = "")) as [Hf|Hf].
  - destruct (decide (0 <= Rank arch hostLevel)%Z) as [Hr|Hr].
    + destruct (selectCompatible_best skylake arch hostLevel levels policy Hne Hf Hr)
        as [(res' & -> & _)|[-> _]]; done.
    + unfold selectCompatibleVariant. rewrite bool_decide_false, Hf by done.
      cbn [String.eqb negb]. rewrite (proj2 (Z.ltb_lt _ _)) by lia. done.
  - unfold selectCompatibleVariant. rewrite bool_decide_false by done.
    rewrite (proj2 (String.eqb_neq _ _)) by done. cbn [negb].
    unfold resolveForcedVariant. repeat (split_if; [done|]). by destruct (find _ _).
Qed.

(** Selection never panics, and its recursion over the requirement table ends, on every
    host, list of levels and policy. *)
Theorem SelectVariantForHost_total (skylake : bool) (arch : string) (host : Info)
    (available : list string) (policy : Policy) :
  SelectVariantForHost skylake arch host available policy <> Panic.
Proof.
  unfold SelectVariantForHost. repeat (split_if; [done|]).
  destruct (compatible_levels_spec host available) as (kept & -> & _).
  destruct (hostSupports_ok host (ForceLevel policy)) as [b Hb]. cbn [mbind outcome_bind].
  destruct (String.eqb (ForceLevel policy) ""); rewrite ?Hb; cbn [mbind outcome_bind].
  - cbn [negb]. split_if; [done|]. apply selectCompatible_no_panic.
  - destruct b; [|done]. cbn [negb]. split_if; [done|]. apply selectCompatible_no_panic.
Qed.

Lemma SelectVariantForHost_Ok skylake arch host available policy res :
  SelectVariantForHost skylake arch host available policy = Ok res ->
  canonicalArch arch = canonicalArch (Arch host) /\ (0 <= Rank arch (Level host))%Z /\
  exists kept, compatible_levels host available = Ok kept /\
    selectCompatibleVariant skylake arch (Level host) kept policy = Ok res.
Proof.
  unfold SelectVariantForHost.
  destruct (String.eqb_spec (canonicalArch arch) (canonicalArch (Arch host))); [|done].
  destruct (Z.ltb_spec (Rank arch (Level host)) 0); [done|]. cbn [negb].
  intros HS. inv_bind HS. repeat (split_if; [done|]). eauto.
Qed.

Lemma SelectVariantForHost_supported skylake arch host available policy res :
  SelectVariantForHost skylake arch host available policy = Ok res ->
  SelectedVariant res ∈ available /\ hostSupports host (SelectedVariant res) = Ok true /\
  (ForceLevel policy <> "" -> Normalize (SelectedVariant res) = Normalize (ForceLevel policy)).
Proof.
  intros (_ & _ & kept & Hk & Hs)%SelectVariantForHost_Ok.
  destruct (compatible_levels_spec host available) as (kept' & Hk' & Hspec).
  rewrite Hk in Hk'. injection Hk' as <-.
  apply selectCompatible_in in Hs as [Hin Hf]. apply Hspec in Hin as [? ?]. done.
Qed.

(** Whatever the policy, the selected variant is offered, supported by the host, and the
    forced one when a level is forced. *)
Theorem SelectVariantForHost_sound (skylake : bool) (arch : string) (host : Info)
    (available : list string) (policy : Policy) (res : PolicyResult) :
  SelectVariantForHost skylake arch host available policy = Ok res ->
  SelectedVariant res ∈ available /\ hostSupports host (SelectedVariant res) = Ok true /\
  (ForceLevel policy <> "" -> Normalize (SelectedVariant res) = Normalize (ForceLevel policy)).
Proof. apply SelectVariantForHost_supported. Qed.


Lemma Normalize_amd64 l : l ∈ amd64_levels -> Normalize l = l.
Proof.
  intros H. rewrite list_elem_of_In in H. by destruct H as [<-|[<-|[<-|[<-|[]]]]].
Qed.

Lemma EvaluateAMD64_level f : EvaluateAMD64 f ∈ amd64_levels.
Proof.
  rewrite EvaluateAMD64_groups. repeat split_if; repeat constructor.
Qed.

Lemma Rank_amd64 l : Rank ArchAMD64 l = switch_rank amd64_ranks (Normalize l).
Proof. reflexivity. Qed.

(** The features a variant of a level needs, on either architecture. *)
Definition cpu_can_run (goarch : string) (x86 : X86Features) (arm : ARM64Features)
    (level : string) : Prop :=
  if String.eqb goarch ArchAMD64 then
    forall n, n ∈ amd64_required (Normalize level) -> n ∈ extractX86FeatureList x86
  else if String.eqb goarch ArchARM64 then Satisfies arm (Normalize level)
  else Normalize level = "v1".

Lemma arm64_supported_Satisfies host arm level :
  Features host = extractARM64FeatureList arm ->
  arm64_supported host level <-> Satisfies arm (Normalize level).
Proof.
  intros HF. unfold arm64_supported. rewrite HF. split.
  - intros [Hk H]. rewrite Satisfies_Requires by done. intros feat Hr.
    apply (extract_required _ _ arm Hr), H, Hr.
  - intros Hs. assert (is_Some (arm64RequirementsMap !! Normalize level)) as Hk
      by (destruct Hs; eauto).
    split; [done|]. intros feat Hr. apply (extract_required _ _ arm Hr).
    rewrite Satisfies_Requires in Hs by done. auto.
Qed.

Lemma hostSupports_rank host level :
  canonicalArch (Arch host) <> ArchARM64 -> hostSupports host level = Ok true ->
  (0 <= Rank (Arch host) level <= Rank (Arch host) (Level host))%Z.
Proof.
  intros Ha. unfold hostSupports. rewrite (proj2 (String.eqb_neq _ _)) by done. cbn [negb].
  intros [= H]. apply andb_prop in H as [?%Z.leb_le ?%Z.leb_le]. done.
Qed.

(** What a detected host supports, its CPU can run. *)
Lemma detected_supports goos goarch x86 arm host level :
  detectForArch goos goarch x86 arm = Ok host ->
  (goarch = ArchAMD64 \/ goarch = ArchARM64) ->
  hostSupports host level = Ok true -> cpu_can_run goarch x86 arm level.
Proof.
  intros Hd [-> | ->] Hs; unfold cpu_can_run.
  - rewrite String.eqb_refl. injection Hd as <-. apply hostSupports_rank in Hs; [|done]. cbn [Arch Level] in Hs.
    rewrite !Rank_amd64, (Normalize_amd64 _ (EvaluateAMD64_level x86)) in Hs.
    apply EvaluateAMD64_required; [|lia].
    destruct (switch_rank_spec amd64_ranks (Normalize level)) as [(r & Hr & _)|E].
    + apply list_elem_of_In in Hr. apply list_elem_of_In. simpl in Hr |- *.
      destruct_or?; simplify_eq; auto.
    + rewrite E in Hs. unfold rankUnknown in Hs. lia.
  - change (String.eqb ArchARM64 ArchAMD64) with false. rewrite String.eqb_refl.
    unfold detectForArch in Hd.
    change (String.eqb ArchARM64 ArchAMD64) with false in Hd. rewrite String.eqb_refl in Hd.
    inv_bind Hd. destruct a as [lvl sts]. injection Hd as <-.
    destruct (hostSupports_arm64 (mkInfo goos ArchARM64 lvl (extractARM64FeatureList arm) sts)
      level eq_refl) as (b & Hb & Hiff).
    rewrite Hs in Hb. injection Hb as <-.
    by eapply arm64_supported_Satisfies, Hiff.
Qed.

(** C2. What is selected for a detected host is one of the variants offered, and the CPU has
    every feature its level needs. *)
Theorem selected_variant_runs (skylake : bool) (goos goarch : string) (x86 : X86Features)
    (arm : ARM64Features) (host : Info) (available : list string) (policy : Policy)
    (res : PolicyResult) :
  goarch = ArchAMD64 \/ goarch = ArchARM64 ->
  detectForArch goos goarch x86 arm = Ok host ->
  SelectVariantForHost skylake goarch host available policy = Ok res ->
  SelectedVariant res ∈ available /\ cpu_can_run goarch x86 arm (SelectedVariant res).
Proof.
  intros Hg Hd (Hin & Hs & _)%SelectVariantForHost_supported.
  split; [done|]. by eapply detected_supports.
Qed.

(** The level-only entry point chooses conservatively: what it picks runs on every CPU of
    the given level. *)
Theorem SelectVariantWithPolicy_conservative (order : list string -> list string)
    (skylake : bool) (arch hostLevel : string) (available : list string) (policy : Policy)
    (res : PolicyResult) (f : ARM64Features) :
  (forall l, order l ≡ₚ l) -> arch = ArchARM64 \/ arch = "aarch64" ->
  SelectVariantWithPolicy order skylake arch hostLevel available policy = Ok res ->
  Satisfies f (Normalize hostLevel) -> Satisfies f (Normalize (SelectedVariant res)).
Proof.
  intros Hord Harch H Hf. unfold SelectVariantWithPolicy in H.
  assert (EqualFold arch ArchARM64 || EqualFold arch "aarch64" = true /\
          canonicalArch arch = ArchARM64) as [Hfold Hc] by by destruct Harch as [-> | ->].
  assert (is_Some (arm64RequirementsMap !! Normalize hostLevel)) as Hk by (destruct Hf; eauto).
  destruct (collect_correct arm64_fuel (Normalize hostLevel) ∅) as (m & Hr & Hm);
    [apply height_bound|done|].
  rewrite Hfold, Hr in H. cbn [mbind outcome_bind] in H.
  apply SelectVariantForHost_supported in H as (_ & Hs & _).
  set (host := mkInfo _ _ _ _ _) in Hs.
  destruct (hostSupports_arm64 host (SelectedVariant res) Hc) as (b & Hb & Hiff).
  rewrite Hs in Hb. injection Hb as <-. destruct (proj1 Hiff eq_refl) as [Hk' Hreq].
  rewrite Satisfies_Requires in Hf |- * by done. intros feat Hfeat.
  apply Hf. specialize (Hreq feat Hfeat). cbn in Hreq.
  rewrite (Hord _), elem_of_elements, elem_of_dom, (Hm feat), lookup_empty in Hreq.
  destruct Hreq as [[? [=]]|?]; done.
Qed.
End SelectTheorems.

(** ** [sort.Slice] meets its contract *)

#[export] Instance not_after_dec {A} (less : A -> A -> bool) : RelDecision (not_after less).
Proof. intros a b. unfold not_after. apply _. Defined.

(** Merge sort, with [less] read as a total preorder. *)
Lemma merge_sort_ordered {A} (less : A -> A -> bool) l :
  weak_order less -> StronglySorted (not_after less) (merge_sort (not_after less) l).
Proof.
  intros Hw. apply StronglySorted_merge_sort; unfold not_after.
  - intros a b c H1 H2. by apply (wo_negative _ Hw c b a).
  - intros a b. destruct (less b a) eqn:E; [right|by left]. destruct (less a b) eqn:E2; [|done].
    pose proof (wo_transitive _ Hw a b a E2 E) as Hc. by rewrite (wo_irreflexive _ Hw) in Hc.
Qed.

Definition merge_slice_sort : SliceSort := {|
  sort_slice := fun A less l => merge_sort (not_after less) l;
  sort_slice_Permutation := fun A less l => merge_sort_Permutation _ l;
  sort_slice_ordered := fun A less l H => merge_sort_ordered less l H
|}.

(** ** Concrete runs *)

(** An x86-64-v3 machine. *)
Definition v3_cpu : X86Features :=
  mkX86Features true true true true true true true true true true true true true true true true
    false false false false false.
Definition v3_host : Info :=
  mkInfo "linux" ArchAMD64 (EvaluateAMD64 v3_cpu) (extractX86FeatureList v3_cpu) [].
Definition offered : list string := ["v1"; "v2"; "v3"; "v4"].
Definition picked_v3 : PolicyResult := mkResult "v3" "" "".


Lemma selected_variant_runs_witness :
  SelectedVariant picked_v3 ∈ offered /\
  @cpu_can_run ascii_tables ArchAMD64 v3_cpu no_arm64_features (SelectedVariant picked_v3).
Proof.
  apply (@selected_variant_runs ascii_tables merge_slice_sort false "linux" ArchAMD64 v3_cpu
    no_arm64_features v3_host offered zero_policy picked_v3).
  - left. reflexivity.
  - reflexivity.
  - vm_compute. reflexivity.
Defined.

Lemma SelectVariantForHost_sound_witness :
  SelectedVariant picked_v3 ∈ offered /\
  @hostSupports ascii_tables v3_host (SelectedVariant picked_v3) = Ok true /\
  (ForceLevel zero_policy <> "" ->
   @Normalize ascii_tables (SelectedVariant picked_v3) =
     @Normalize ascii_tables (ForceLevel zero_policy)).
Proof.
  apply (@SelectVariantForHost_sound ascii_tables merge_slice_sort false ArchAMD64 v3_host offered
    zero_policy picked_v3). vm_compute. reflexivity.
Defined.

Lemma SelectVariantForHost_total_witness :
  @SelectVariantForHost ascii_tables merge_slice_sort true ArchAMD64 v3_host [] zero_policy <> Panic.
Proof. apply (@SelectVariantForHost_total ascii_tables merge_slice_sort). Defined.

(** A machine with the baseline features. *)
Definition v8_cpu : ARM64Features :=
  mkARM64Features true true false false false false false false false false false false false
    false false false false false false false false false false false false false false false
    false false false false false false.

Lemma v8_cpu_baseline : Satisfies v8_cpu ARM64v8_0.
Proof.
  eapply Satisfies_intro; [vm_compute; reflexivity|vm_compute; reflexivity|].
  intros p Hp. by apply elem_of_nil in Hp.
Qed.

Lemma SelectVariantWithPolicy_conservative_witness :
  Satisfies v8_cpu (@Normalize ascii_tables (SelectedVariant (mkResult "arm64_v8.0" "" ""))).
Proof.
  apply (@SelectVariantWithPolicy_conservative ascii_tables merge_slice_sort (fun l => l) false
    ArchARM64 "v8.0" ["v8.1"; "arm64_v8.0"] zero_policy).
  - intros l. reflexivity.
  - left. reflexivity.
  - vm_compute. reflexivity.
  - exact v8_cpu_baseline.
Defined.
