(* ===== verification/Format.v ===== *)
(** * The index of a fat binary ([internal/format/format.go])

    The [Index] and [VariantEntry] structures, checksum syntax, lookup by
    level, and [ValidateBounds], with the layout it establishes.  The binary
    encoding is in [FormatIndex], the trailer in [FormatTrailer]. *)

From S2P Require Import Prelude GoStrings Microarch.
From stdpp Require Import base list strings gmap sorting.
From Stdlib Require Import ZArith Lia Strings.Ascii.

Local Open Scope Z_scope.

(** ** Constants *)

Definition TrailerSize : Z := 56.
Definition FormatVersion1 : Z := 1.
Definition FormatVersion2 : Z := 2.
Definition FormatVersionCurrent : Z := FormatVersion2.
Definition MaxIndexSize : Z := 1024 * 1024.
Definition MaxPayloadSize : Z := 1024 * 1024 * 1024.
Definition MaxDictionarySize : Z := 1024 * 1024.
Definition maxSHA256HexLen : nat := 64.
Definition defaultCompressionAlgorithm : string := "zstd".
Definition minBinaryHeaderSize : nat := 34.

(** ** Errors

    An error is the sentinel it wraps; the formatted text is not kept. *)

Inductive format_err :=
| ErrBinaryTooSmall
| ErrInvalidMagic
| ErrTrailerRead
| ErrUnsupportedVersion
| ErrInvalidIndexOffset
| ErrInvalidIndexSize
| ErrIndexCorrupted
| ErrOutOfBounds
| ErrPayloadTooLarge
| ErrOverlappingVariant
| ErrTruncatedIndex
| ErrDictionaryCorrupted
| ErrPayloadCorrupted
| ErrInvalidDictionary
| ErrInvalidChecksum
| ErrNoVariantsSpecified
| ErrDuplicateVariant
| ErrInvalidVariant
| ErrFieldLimit      (* "exceeds binary format limits" *)
| ErrIndexTooLarge   (* "index size exceeds maximum" *)
| ErrNegativeOffset  (* "invalid negative offset" *)
| ErrIndexRead       (* "reading index payload" *)
| ErrWrite.          (* an error of the io.Writer *)

(** ** Data *)

Record VariantEntry := mkVariant {
  ve_Level : string;
  Offset : Z;
  CompressedSize : Z;
  UncompressedSize : Z;
  SHA256 : string;
  Compression : string
}.

Record Index := mkIndex {
  Version : Z;
  AppName : string;
  TargetOS : string;
  TargetArch : string;
  CreatedUnix : Z;
  DictionaryOffset : Z;
  DictionarySize : Z;
  DictionarySHA256 : string;
  DictionaryID : Z;
  Variants : list VariantEntry
}.

(** The fields hold values of their Go types. *)
Definition variant_typed (v : VariantEntry) : Prop :=
  int64_range (Offset v) /\ int64_range (CompressedSize v) /\ int64_range (UncompressedSize v).

Definition index_typed (idx : Index) : Prop :=
  int64_range (CreatedUnix idx) /\ int64_range (DictionaryOffset idx) /\
  int64_range (DictionarySize idx) /\ uint32_range (DictionaryID idx) /\
  Forall variant_typed (Variants idx).

(** ** Checksums *)

Definition is_hex (c : ascii) : bool :=
  (((48 <=? chr c) && (chr c <=? 57)) || ((97 <=? chr c) && (chr c <=? 102))
   || ((65 <=? chr c) && (chr c <=? 70)))%N.

Definition ValidateChecksum (s : string) : bool :=
  if String.eqb s "" then true
  else if negb (String.length s =? maxSHA256HexLen)%nat then false
  else sforallb is_hex s.

(** [s == "" || !ValidateChecksum(s)], the test every required digest goes
    through. *)
Definition bad_checksum (s : string) : bool := String.eqb s "" || negb (ValidateChecksum s).

(** A required digest: sixty-four hexadecimal digits. *)
Definition digest_syntax (s : string) : Prop :=
  String.length s = 64%nat /\ sforallb is_hex s = true.

Section Index.
Context {GU : GoUnicode}.

Definition NormalizeVariant (level : string) : string := Normalize level.

Definition VariantLevels (idx : Index) : list string := ve_Level <$> Variants idx.

Definition FindVariant (idx : Index) (level : string) : option VariantEntry :=
  let norm := NormalizeVariant level in
  find (fun v => String.eqb (NormalizeVariant (ve_Level v)) norm) (Variants idx).

Definition validateDictionaryBounds (idx : Index) (indexOffset : Z) : outcome format_err Z :=
  if (DictionarySize idx <? 0) || (DictionarySize idx >? MaxDictionarySize)
  then Err ErrInvalidDictionary
  else if DictionarySize idx =? 0 then Ok 0
  else if DictionaryOffset idx <? 0 then Err ErrInvalidDictionary
  else if bad_checksum (DictionarySHA256 idx) then Err ErrInvalidChecksum
  else if (DictionaryOffset idx >? indexOffset) ||
          (DictionarySize idx >? i64_sub indexOffset (DictionaryOffset idx))
  then Err ErrOutOfBounds
  else Ok (i64_add (DictionaryOffset idx) (DictionarySize idx)).

(** The loop over [idx.Variants] from position [i]. *)
Fixpoint validateVariantBounds (targetArch : string) (dictionarySize indexOffset : Z)
    (i : nat) (seenLevels : gset string) (lastEnd : Z) (vs : list VariantEntry) :
    outcome format_err unit :=
  match vs with
  | [] => Ok ()
  | v :: vs =>
      if String.eqb (TrimSpace (ve_Level v)) "" then Err ErrInvalidVariant else
      let normLevel := NormalizeVariant (ve_Level v) in
      if Rank targetArch normLevel <=? 0 then Err ErrInvalidVariant
      else if bool_decide (normLevel ∈ seenLevels) then Err ErrDuplicateVariant
      else if (Offset v <? 0) || (CompressedSize v <=? 0) || (UncompressedSize v <=? 0)
      then Err ErrOutOfBounds
      else if UncompressedSize v >? MaxPayloadSize then Err ErrPayloadTooLarge
      else if (Offset v >? indexOffset) ||
              (CompressedSize v >? i64_sub indexOffset (Offset v))
      then Err ErrOutOfBounds
      else if ((0 <? i)%nat || (dictionarySize >? 0)) && (Offset v <? lastEnd)
      then Err ErrOverlappingVariant
      else if bad_checksum (SHA256 v) then Err ErrInvalidChecksum
      else validateVariantBounds targetArch dictionarySize indexOffset (S i)
             ({[normLevel]} ∪ seenLevels) (i64_add (Offset v) (CompressedSize v)) vs
  end.

Definition ValidateBounds (idx : Index) (indexOffset : Z) : outcome format_err unit :=
  if Version idx =? FormatVersion1 then Err ErrUnsupportedVersion
  else if negb (Version idx =? FormatVersion2) then Err ErrUnsupportedVersion
  else if indexOffset <? 0 then Err ErrOutOfBounds
  else if (length (Variants idx) =? 0)%nat then Err ErrNoVariantsSpecified
  else
    let targetArch := ToLower (TrimSpace (TargetArch idx)) in
    if negb (String.eqb targetArch ArchAMD64) && negb (String.eqb targetArch ArchARM64)
    then Err ErrInvalidVariant
    else
      lastEnd ← validateDictionaryBounds idx indexOffset;
      validateVariantBounds (TargetArch idx) (DictionarySize idx) indexOffset 0 ∅ lastEnd
        (Variants idx).
End Index.

(** ** The layout [ValidateBounds] stands for *)

Definition region_end (v : VariantEntry) : Z := Offset v + CompressedSize v.

(** Every region starts where the one before it ends, or later. *)
Fixpoint chained (lastEnd : Z) (vs : list VariantEntry) : Prop :=
  match vs with
  | [] => True
  | v :: vs => lastEnd <= Offset v /\ chained (region_end v) vs
  end.

Section Layout.
Context {GU : GoUnicode}.

Definition variant_ok (targetArch : string) (indexOffset : Z) (v : VariantEntry) : Prop :=
  TrimSpace (ve_Level v) <> ""%string /\ 0 < Rank targetArch (Normalize (ve_Level v)) /\
  0 <= Offset v /\ 0 < CompressedSize v /\ 0 < UncompressedSize v <= MaxPayloadSize /\
  region_end v <= indexOffset /\ digest_syntax (SHA256 v).

(** The dictionary: absent, or a checksummed region below the index. *)
Definition dictionary_ok (idx : Index) (indexOffset : Z) : Prop :=
  DictionarySize idx = 0 \/
  (0 < DictionarySize idx <= MaxDictionarySize /\ 0 <= DictionaryOffset idx /\
   DictionaryOffset idx + DictionarySize idx <= indexOffset /\
   digest_syntax (DictionarySHA256 idx)).

(** Where the variants may start. *)
Definition dictionary_end (idx : Index) : Z :=
  if DictionarySize idx =? 0 then 0 else DictionaryOffset idx + DictionarySize idx.

Definition known_target (arch : string) : Prop :=
  ToLower (TrimSpace arch) = ArchAMD64 \/ ToLower (TrimSpace arch) = ArchARM64.

Record valid_layout (idx : Index) (indexOffset : Z) : Prop := {
  vl_version : Version idx = FormatVersion2;
  vl_offset : 0 <= indexOffset;
  vl_nonempty : Variants idx <> [];
  vl_target : known_target (TargetArch idx);
  vl_dictionary : dictionary_ok idx indexOffset;
  vl_variants : Forall (variant_ok (TargetArch idx) indexOffset) (Variants idx);
  vl_levels : NoDup (Normalize <$> VariantLevels idx);
  vl_chained : chained (dictionary_end idx) (Variants idx)
}.
End Layout.

(** ** Lemmas *)

Lemma bad_checksum_false s : bad_checksum s = false <-> digest_syntax s.
Proof.
  unfold bad_checksum, ValidateChecksum, digest_syntax, maxSHA256HexLen.
  destruct (String.eqb_spec s "") as [->|]; [split; [done|by intros [[=] _]]|].
  cbn [orb].
  destruct (Nat.eqb_spec (String.length s) 64) as [E|E]; cbn [negb].
  - rewrite negb_false_iff. tauto.
  - split; [done|]. by intros [? _].
Qed.

(** Subtracting an offset from the index offset does not wrap. *)
Lemma fits_below a size limit :
  int64_range a -> int64_range size -> int64_range limit -> 0 <= a -> 0 < size ->
  (a >? limit) || (size >? i64_sub limit a) = false <-> a + size <= limit.
Proof.
  intros Ha Hs Hl H0 H1. rewrite orb_false_iff, !Z.gtb_ltb, !Z.ltb_ge.
  unfold i64_sub. destruct (decide (a <= limit)).
  - rewrite to_int64_small by int_range. lia.
  - lia.
Qed.

Section BoundsLemmas.
Context {GU : GoUnicode}.

Lemma validateDictionary_spec idx indexOffset lastEnd :
  index_typed idx -> int64_range indexOffset ->
  validateDictionaryBounds idx indexOffset = Ok lastEnd <->
  dictionary_ok idx indexOffset /\ lastEnd = dictionary_end idx.
Proof.
  intros (_ & Ho & Hs & _ & _) Hi. unfold validateDictionaryBounds, dictionary_ok, dictionary_end.
  destruct ((DictionarySize idx <? 0) || (DictionarySize idx >? MaxDictionarySize)) eqn:E1.
  { rewrite orb_true_iff, Z.ltb_lt, Z.gtb_lt in E1. unfold MaxDictionarySize in *.
    split; [done|]. lia. }
  rewrite orb_false_iff, Z.ltb_ge, Z.gtb_ltb, Z.ltb_ge in E1.
  destruct (Z.eqb_spec (DictionarySize idx) 0) as [E2|E2].
  { split; [intros [= <-]; auto|by intros [_ ->]]. }
  destruct (Z.ltb_spec (DictionaryOffset idx) 0); [split; [done|lia]|].
  destruct (bad_checksum (DictionarySHA256 idx)) eqn:E3.
  { rewrite <- bad_checksum_false, E3. split; [done|]. intuition congruence. }
  apply bad_checksum_false in E3.
  pose proof (fits_below (DictionaryOffset idx) (DictionarySize idx) indexOffset) as Hfit.
  destruct (_ || _).
  - split; [done|]. intros [[?|(? & ? & Hend & _)] _]; [lia|].
    apply Hfit in Hend; done || lia.
  - assert (DictionaryOffset idx + DictionarySize idx <= indexOffset) as Hend
      by (apply Hfit; done || lia).
    unfold i64_add. no_wrap. split; [intros [= <-]; auto 6 with lia|by intros [_ ->]].
Qed.

Lemma validateVariants_spec arch dsize indexOffset vs i seen lastEnd :
  int64_range indexOffset -> Forall variant_typed vs ->
  (i = 0%nat -> dsize <= 0 -> lastEnd <= 0) ->
  validateVariantBounds arch dsize indexOffset i seen lastEnd vs = Ok () <->
  Forall (variant_ok arch indexOffset) vs /\ NoDup (Normalize <$> (ve_Level <$> vs)) /\
  (forall v, v ∈ vs -> Normalize (ve_Level v) ∉ seen) /\ chained lastEnd vs.
Proof.
  intros Hi. revert i seen lastEnd. induction vs as [|v vs IH]; intros i seen lastEnd Ht Hl.
  { split; [intros _|done]. repeat split; try constructor. by intros v ?%elem_of_nil. }
  inversion Ht as [|? ? (Ho & Hcs & Hus) Ht']; subst. cbn [validateVariantBounds chained].
  rewrite Forall_cons. unfold variant_ok at 1, NormalizeVariant, region_end at 1.
  destruct (String.eqb_spec (TrimSpace (ve_Level v)) ""); [split; [done|tauto]|].
  destruct (Z.leb_spec (Rank arch (Normalize (ve_Level v))) 0); [split; [done|lia]|].
  case_bool_decide as Hseen.
  { split; [done|]. intros (_ & _ & Hs & _). destruct (Hs v); [by constructor|done]. }
  destruct (_ || _ || _) eqn:E1.
  { rewrite !orb_true_iff, Z.ltb_lt, !Z.leb_le in E1. split; [done|lia]. }
  rewrite !orb_false_iff, Z.ltb_ge, !Z.leb_gt in E1.
  rewrite Z.gtb_ltb. destruct (Z.ltb_spec MaxPayloadSize (UncompressedSize v));
    [split; [done|lia]|].
  pose proof (fits_below (Offset v) (CompressedSize v) indexOffset Ho Hcs Hi) as Hfit.
  destruct (_ || _).
  { split; [done|]. intros (((? & ? & ? & ? & ? & Hend & ?) & _) & _).
    apply Hfit in Hend; done || lia. }
  assert (Offset v + CompressedSize v <= indexOffset) as Hend by (apply Hfit; done || lia).
  assert (((0 <? i)%nat || (dsize >? 0)) && (Offset v <? lastEnd) = (Offset v <? lastEnd)) as ->.
  { destruct (Z.ltb_spec (Offset v) lastEnd); [|by rewrite andb_false_r].
    destruct (Nat.ltb_spec 0 i), (Z.gtb_spec dsize 0); try done. lia. }
  destruct (Z.ltb_spec (Offset v) lastEnd); [split; [done|lia]|].
  destruct (bad_checksum (SHA256 v)) eqn:E2.
  { split; [done|]. rewrite <- bad_checksum_false, E2. intuition congruence. }
  apply bad_checksum_false in E2. rewrite IH; [|done|lia]. unfold i64_add. no_wrap.
  rewrite !fmap_cons, NoDup_cons, list_elem_of_fmap. setoid_rewrite list_elem_of_fmap.
  split.
  - intros (HF & Hnd & Hs & Hch). split; [|split; [split; [|done]|split]].
    + split; [|done]. do 6 (split; [done || lia|]). done.
    + intros (l & Hl1 & (w & -> & Hw)). specialize (Hs w Hw). set_solver.
    + intros w [->|Hw]%elem_of_cons; [done|]. specialize (Hs w Hw). set_solver.
    + split; [lia|done].
  - intros ((_ & HF) & (Hn & Hnd) & Hs & (_ & Hch)). split; [done|]. split; [done|].
    split; [|done]. intros w Hw. rewrite elem_of_union, elem_of_singleton. intros [E|E].
    + apply Hn. exists (ve_Level w). split; [done|]. eauto.
    + apply (Hs w); [by constructor|done].
Qed.
End BoundsLemmas.

(** ** Theorems *)

Section BoundsTheorems.
Context {GU : GoUnicode}.

Lemma variants_total arch dsize indexOffset i seen lastEnd vs :
  validateVariantBounds arch dsize indexOffset i seen lastEnd vs <> Panic.
Proof.
  revert i seen lastEnd. induction vs as [|v vs IH]; intros i seen lastEnd; [done|].
  cbn [validateVariantBounds]. repeat (case_match; try done).
Qed.

Lemma bounds_total idx indexOffset : ValidateBounds idx indexOffset <> Panic.
Proof.
  unfold ValidateBounds, validateDictionaryBounds.
  repeat (case_match; try done); cbn [mbind outcome_bind]; apply variants_total.
Qed.

Lemma ValidateBounds_layout idx indexOffset :
  index_typed idx -> int64_range indexOffset ->
  ValidateBounds idx indexOffset = Ok () <-> valid_layout idx indexOffset.
Proof.
  intros Ht Hi. unfold ValidateBounds, FormatVersion1.
  destruct (Z.eqb_spec (Version idx) 1) as [E|].
  { split; [done|]. intros [Hv]. rewrite E in Hv. done. }
  destruct (Z.eqb_spec (Version idx) FormatVersion2) as [Hv|Hv]; cbn [negb].
  2:{ split; [done|]. by intros []. }
  destruct (Z.ltb_spec indexOffset 0); [split; [done|intros []; lia]|].
  destruct (Nat.eqb_spec (length (Variants idx)) 0) as [El|El].
  { apply nil_length_inv in El. split; [done|]. by intros []. }
  destruct (negb _ && negb _) eqn:Ea.
  { rewrite andb_true_iff, !negb_true_iff, !String.eqb_neq in Ea.
    split; [done|]. intros []. unfold known_target in *. tauto. }
  rewrite andb_false_iff, !negb_false_iff, !String.eqb_eq in Ea.
  assert (forall lastEnd, dictionary_ok idx indexOffset -> lastEnd = dictionary_end idx ->
    validateVariantBounds (TargetArch idx) (DictionarySize idx) indexOffset 0 ∅ lastEnd
      (Variants idx) = Ok () <->
    Forall (variant_ok (TargetArch idx) indexOffset) (Variants idx) /\
    NoDup (Normalize <$> VariantLevels idx) /\ chained lastEnd (Variants idx)) as Hvs.
  { intros lastEnd Hd ->. rewrite validateVariants_spec; [|done|apply Ht|].
    - unfold VariantLevels. split; [tauto|]. intros (? & ? & ?). split_and!; try done.
    - intros _ Hs. unfold dictionary_end. destruct Hd as [->|Hd]; [done|lia]. }
  split.
  - intros Hb. inv_bind Hb. apply validateDictionary_spec in Ha as [Hd ->]; try done.
    apply Hvs in Hb as (? & ? & ?); [|done|done]. constructor; auto.
    by intros E; rewrite E in El.
  - intros [].
    rewrite (proj2 (validateDictionary_spec idx indexOffset _ Ht Hi) (conj vl_dictionary0 eq_refl)).
    cbn [mbind outcome_bind]. by apply Hvs.
Qed.

Lemma chained_after lastEnd vs :
  chained lastEnd vs -> Forall (fun v => 0 < CompressedSize v) vs ->
  forall v, v ∈ vs -> lastEnd <= Offset v.
Proof.
  revert lastEnd. induction vs as [|w vs IH]; intros lastEnd Hc Hp v; [by intros ?%elem_of_nil|].
  destruct Hc as [Hw Hc]. inversion Hp as [|? ? Hpw Hp']; subst.
  intros [-> |Hv]%elem_of_cons; [done|]. specialize (IH _ Hc Hp' v Hv). unfold region_end in IH. lia.
Qed.

Lemma chained_ordered lastEnd vs i j v w :
  chained lastEnd vs -> Forall (fun v => 0 < CompressedSize v) vs ->
  (i < j)%nat -> vs !! i = Some v -> vs !! j = Some w -> region_end v <= Offset w.
Proof.
  revert lastEnd i j. induction vs as [|x vs IH]; intros lastEnd i j Hc Hp Hij Hi Hj; [done|].
  destruct Hc as [_ Hc]. inversion Hp as [|? ? _ Hp']; subst.
  destruct j as [|j]; [lia|]. cbn in Hj. destruct i as [|i]; cbn in Hi.
  - injection Hi as <-. eapply chained_after; [done|done|].
    by eapply list_elem_of_lookup_2.
  - eapply (IH _ i j); try done. lia.
Qed.

Lemma valid_layout_positive idx indexOffset :
  valid_layout idx indexOffset -> Forall (fun v => 0 < CompressedSize v) (Variants idx).
Proof.
  intros H. eapply Forall_impl; [apply H|]. intros v Hv. apply Hv.
Qed.

(** C25. The bounds check accepts exactly the valid layouts: a known target, a checksummed
    dictionary, and variants of distinct known levels whose regions follow one another below the
    index. *)
Theorem ValidateBounds_iff (idx : Index) (indexOffset : Z) :
  index_typed idx -> int64_range indexOffset ->
  ValidateBounds idx indexOffset = Ok () <-> valid_layout idx indexOffset.
Proof. apply ValidateBounds_layout. Qed.

(** The regions of an accepted index lie in order between 0 and the index, and no two of
    them overlap. *)
Theorem accepted_regions_disjoint (idx : Index) (indexOffset : Z) :
  index_typed idx -> int64_range indexOffset -> ValidateBounds idx indexOffset = Ok () ->
  (forall i j v w, (i < j)%nat -> Variants idx !! i = Some v -> Variants idx !! j = Some w ->
     region_end v <= Offset w) /\
  (forall v, v ∈ Variants idx -> 0 <= Offset v /\ Offset v < region_end v <= indexOffset) /\
  (0 < DictionarySize idx -> 0 <= DictionaryOffset idx /\
     forall v, v ∈ Variants idx -> DictionaryOffset idx + DictionarySize idx <= Offset v).
Proof.
  intros Ht Hi H%ValidateBounds_layout; [|done|done].
  pose proof (valid_layout_positive _ _ H) as Hp. destruct H. split; [|split].
  - intros i j v w Hij Hv Hw. by eapply chained_ordered.
  - intros v Hv. rewrite Forall_forall in vl_variants0.
    destruct (vl_variants0 v Hv) as (_ & _ & ? & ? & _ & ? & _). unfold region_end in *. lia.
  - intros Hd. destruct vl_dictionary0 as [?|(_ & ? & _)]; [lia|]. split; [done|].
    intros v Hv. pose proof (chained_after _ _ vl_chained0 Hp v Hv) as Ha.
    unfold dictionary_end in Ha. destruct (Z.eqb_spec (DictionarySize idx) 0); lia.
Qed.

(** In an accepted index every spelling of a level finds its one variant. *)
Theorem FindVariant_unique (idx : Index) (indexOffset : Z) (v : VariantEntry) (level : string) :
  index_typed idx -> int64_range indexOffset -> ValidateBounds idx indexOffset = Ok () ->
  v ∈ Variants idx -> Normalize level = Normalize (ve_Level v) ->
  FindVariant idx level = Some v.
Proof.
  intros Ht Hi H%ValidateBounds_layout Hv Hn; [|done|done]. destruct H. clear -Hv Hn vl_levels0.
  unfold FindVariant, VariantLevels, NormalizeVariant in *. rewrite Hn.
  induction (Variants idx) as [|w vs IH]; [by apply elem_of_nil in Hv|].
  rewrite !fmap_cons, NoDup_cons in vl_levels0. destruct vl_levels0 as [Hw Hnd]. cbn [find].
  apply elem_of_cons in Hv as [->|Hv]; [by rewrite String.eqb_refl|].
  rewrite (proj2 (String.eqb_neq _ _)); [by apply IH|].
  intros E. apply Hw. rewrite E. by do 2 apply list_elem_of_fmap_2.
Qed.

(** A level the index does not carry is not found. *)
Theorem FindVariant_None (idx : Index) (level : string) :
  FindVariant idx level = None <->
  Normalize level ∉ (Normalize <$> VariantLevels idx).
Proof.
  unfold FindVariant, VariantLevels, NormalizeVariant.
  induction (Variants idx) as [|w vs IH]; [split; [intros _; apply not_elem_of_nil|done]|].
  cbn [find]. rewrite !fmap_cons, not_elem_of_cons.
  destruct (String.eqb_spec (Normalize (ve_Level w)) (Normalize level)) as [E|E].
  - split; [done|]. by intros [? _].
  - rewrite IH. split; [by intros ?|by intros [_ ?]].
Qed.
End BoundsTheorems.

(** ** A concrete index *)

(** Two variants of the three bytes "abc" behind a stub of four bytes. *)
Definition abc_digest : string :=
  "ba7816bf8f01cfea414140de5dae2223b00361a396177a9cb410ff61f20015ad".
Definition sample_v1 : VariantEntry := mkVariant "v1" 4 3 3 abc_digest "none".
Definition sample_v3 : VariantEntry := mkVariant "amd64_v3" 7 3 3 abc_digest "none".
Definition sample_index : Index :=
  mkIndex 2 "app" "linux" "amd64" 1700000000 0 0 "" 0 [sample_v1; sample_v3].

Lemma sample_typed : index_typed sample_index.
Proof. unfold index_typed, variant_typed, sample_index. cbn. repeat constructor; cbn; int_range. Qed.

Lemma ValidateBounds_iff_witness :
  @ValidateBounds ascii_tables sample_index 10 = Ok () <-> @valid_layout ascii_tables sample_index 10.
Proof. apply (@ValidateBounds_iff ascii_tables); [exact sample_typed|int_range]. Defined.

Lemma accepted_regions_disjoint_witness :
  (forall i j v w, (i < j)%nat -> Variants sample_index !! i = Some v ->
     Variants sample_index !! j = Some w -> region_end v <= Offset w) /\
  (forall v, v ∈ Variants sample_index -> 0 <= Offset v /\ Offset v < region_end v <= 10) /\
  (0 < DictionarySize sample_index -> 0 <= DictionaryOffset sample_index /\
     forall v, v ∈ Variants sample_index ->
       DictionaryOffset sample_index + DictionarySize sample_index <= Offset v).
Proof.
  apply (@accepted_regions_disjoint ascii_tables sample_index 10);
    [exact sample_typed|int_range|vm_compute; reflexivity].
Defined.

Lemma FindVariant_unique_witness :
  @FindVariant ascii_tables sample_index "V3" = Some sample_v3.
Proof.
  apply (@FindVariant_unique ascii_tables sample_index 10);
    [exact sample_typed|int_range|vm_compute; reflexivity|right; left|vm_compute; reflexivity].
Defined.
