(* ===== verification/FormatIndex.v ===== *)
(** * The Format v2 binary index ([internal/format/format.go])

    [MarshalBinaryIndex] computes the size of the table, allocates a buffer
    and writes every field at a running offset; [UnmarshalBinaryIndex] reads
    the fields back with a bound check before each access.  Both are modelled
    with the panics Go raises on an index or a slice out of range, and
    [encode_index] is the plain concatenation they are compared with. *)

From S2P Require Import Prelude GoStrings Microarch Format.
From stdpp Require Import base list strings gmap sorting.
From Stdlib Require Import ZArith Lia Strings.Byte.

Local Open Scope Z_scope.

(** ["\x00\xFAM2"] *)
Definition IndexMagicV2 : list byte := [x00; xfa; x4d; x32].

(** ** Writing into a buffer *)

(** [buf[i] = b] *)
Definition set_byte (buf : list byte) (i : nat) (b : byte) : outcome format_err (list byte) :=
  if decide (i < length buf)%nat then Ok (<[i := b]> buf) else Panic.

(** [copy(buf[offset:], src)]: as much of [src] as fits. *)
Definition copy_at (buf : list byte) (offset : nat) (src : list byte) :
    outcome format_err (list byte) :=
  if decide (offset <= length buf)%nat then
    let n := Nat.min (length buf - offset) (length src) in
    Ok (take offset buf ++ take n src ++ drop (offset + n) buf)
  else Panic.

(** [binary.LittleEndian.PutUintN(buf[lo:hi], z)] with [hi - lo] the width. *)
Definition put_uint (buf : list byte) (lo hi : nat) (z : Z) : outcome format_err (list byte) :=
  if decide (lo <= hi /\ hi <= length buf)%nat
  then Ok (take lo buf ++ le_bytes (hi - lo) z ++ drop hi buf)
  else Panic.

(** [buf[offset] = byte(len(s)); offset++; copy(buf[offset:], s); offset += len(s)] *)
Definition put_string8 (st : list byte * nat) (s : string) : outcome format_err (list byte * nat) :=
  let '(buf, offset) := st in
  buf ← set_byte buf offset (byte_of (Z.of_nat (String.length s)));
  buf ← copy_at buf (offset + 1) (bytes_of s);
  Ok (buf, (offset + 1 + String.length s)%nat).

Definition put_uint64 (st : list byte * nat) (z : Z) : outcome format_err (list byte * nat) :=
  let '(buf, offset) := st in
  buf ← put_uint buf offset (offset + 8) (to_uint64 z);
  Ok (buf, (offset + 8)%nat).

(** [if comp == "" { comp = defaultCompressionAlgorithm }] *)
Definition effective_compression (comp : string) : string :=
  if String.eqb comp "" then defaultCompressionAlgorithm else comp.

Definition put_variant (st : list byte * nat) (v : VariantEntry) :
    outcome format_err (list byte * nat) :=
  st ← put_string8 st (ve_Level v);
  st ← put_uint64 st (Offset v);
  st ← put_uint64 st (CompressedSize v);
  st ← put_uint64 st (UncompressedSize v);
  st ← put_string8 st (SHA256 v);
  put_string8 st (effective_compression (Compression v)).

Fixpoint put_variants (st : list byte * nat) (vs : list VariantEntry) :
    outcome format_err (list byte * nat) :=
  match vs with
  | [] => Ok st
  | v :: vs => st ← put_variant st v; put_variants st vs
  end.

Definition variant_size (v : VariantEntry) : nat :=
  (1 + String.length (ve_Level v) + 8 + 8 + 8 + 1 + String.length (SHA256 v) + 1 +
   String.length (effective_compression (Compression v)))%nat.

(** The loop that checks the variants and adds up their sizes. *)
Fixpoint check_variants (totalSize : nat) (vs : list VariantEntry) : outcome format_err nat :=
  match vs with
  | [] => Ok totalSize
  | v :: vs =>
      if bad_checksum (SHA256 v) then Err ErrInvalidChecksum
      else if (255 <? String.length (ve_Level v))%nat || (255 <? String.length (SHA256 v))%nat ||
              (255 <? String.length (effective_compression (Compression v)))%nat
      then Err ErrFieldLimit
      else check_variants (totalSize + variant_size v) vs
  end.

Definition header_size (idx : Index) : nat :=
  (34 + 1 + String.length (DictionarySHA256 idx) + 1 + String.length (TargetOS idx) + 1 +
   String.length (TargetArch idx) + 2 + String.length (AppName idx) + 2)%nat.

(** The writes of [MarshalBinaryIndex] into the buffer it made. *)
Definition write_table (idx : Index) (buf : list byte) : outcome format_err (list byte) :=
  buf ← copy_at buf 0 IndexMagicV2;
  buf ← put_uint buf 4 6 FormatVersion2;
  buf ← put_uint buf 6 14 (to_uint64 (CreatedUnix idx));
  buf ← put_uint buf 14 22 (to_uint64 (DictionaryOffset idx));
  buf ← put_uint buf 22 30 (to_uint64 (DictionarySize idx));
  buf ← put_uint buf 30 34 (DictionaryID idx);
  st ← put_string8 (buf, 34%nat) (DictionarySHA256 idx);
  st ← put_string8 st (TargetOS idx);
  '(buf, offset) ← put_string8 st (TargetArch idx);
  buf ← put_uint buf offset (offset + 2) (Z.of_nat (String.length (AppName idx)));
  buf ← copy_at buf (offset + 2) (bytes_of (AppName idx));
  let offset := (offset + 2 + String.length (AppName idx))%nat in
  buf ← put_uint buf offset (offset + 2) (Z.of_nat (length (Variants idx)));
  '(buf, _) ← put_variants (buf, (offset + 2)%nat) (Variants idx);
  Ok buf.

Definition MarshalBinaryIndex (idx : Index) : outcome format_err (list byte) :=
  if (255 <? String.length (TargetOS idx))%nat || (255 <? String.length (TargetArch idx))%nat ||
     (65535 <? Z.of_nat (String.length (AppName idx))) ||
     (65535 <? Z.of_nat (length (Variants idx))) ||
     (255 <? String.length (DictionarySHA256 idx))%nat
  then Err ErrFieldLimit
  else if (DictionarySize idx >? 0) && bad_checksum (DictionarySHA256 idx)
  then Err ErrInvalidChecksum
  else
    totalSize ← check_variants (header_size idx) (Variants idx);
    write_table idx (replicate totalSize x00).


(** ** Reading *)

(** A length byte, then as many bytes. *)
Definition read_string8 (data : list byte) (offset : nat) : outcome format_err (string * nat) :=
  if (length data <=? offset)%nat then Err ErrTruncatedIndex else
  b ← go_index data offset;
  let n := Z.to_nat (byte_val b) in
  let offset := (offset + 1)%nat in
  if (length data <? offset + n)%nat then Err ErrTruncatedIndex else
  s ← go_slice data offset (offset + n);
  Ok (string_of s, (offset + n)%nat).

Definition read_uint16 (data : list byte) (offset : nat) : outcome format_err (Z * nat) :=
  if (length data <? offset + 2)%nat then Err ErrTruncatedIndex else
  s ← go_slice data offset (offset + 2);
  Ok (le_val s, (offset + 2)%nat).

(** [int64(binary.LittleEndian.Uint64(data[lo:lo+8]))] *)
Definition get_int64 (data : list byte) (lo : nat) : outcome format_err Z :=
  s ← go_slice data lo (lo + 8);
  Ok (to_int64 (le_val s)).

Section Unmarshal.
Context {GU : GoUnicode}.

Definition decodeBinaryVariant (data : list byte) (offset : nat) :
    outcome format_err (VariantEntry * nat) :=
  '(level, offset) ← read_string8 data offset;
  if (length data <? offset + 24)%nat then Err ErrTruncatedIndex else
  vOffset ← get_int64 data offset;
  compSize ← get_int64 data (offset + 8);
  uncompSize ← get_int64 data (offset + 16);
  '(shaStr, offset) ← read_string8 data (offset + 24);
  if bad_checksum shaStr then Err ErrInvalidChecksum else
  '(compStr, offset) ← read_string8 data offset;
  Ok (mkVariant level vOffset compSize uncompSize (ToLower shaStr)
        (effective_compression compStr), offset).

Fixpoint decode_variants (n : nat) (data : list byte) (offset : nat) :
    outcome format_err (list VariantEntry) :=
  match n with
  | O => Ok []
  | S n =>
      '(entry, offset) ← decodeBinaryVariant data offset;
      rest ← decode_variants n data offset;
      Ok (entry :: rest)
  end.

Definition UnmarshalBinaryIndex (data : list byte) : outcome format_err Index :=
  if (length data <? minBinaryHeaderSize)%nat then Err ErrTruncatedIndex else
  magic ← go_slice data 0 4;
  if negb (bool_decide (magic = IndexMagicV2)) then Err ErrInvalidMagic else
  versionBytes ← go_slice data 4 6;
  let version := le_val versionBytes in
  if negb (version =? FormatVersion2) then Err ErrUnsupportedVersion else
  createdUnix ← get_int64 data 6;
  dictOffset ← get_int64 data 14;
  dictSize ← get_int64 data 22;
  idBytes ← go_slice data 30 34;
  let dictID := le_val idBytes in
  '(dictSHA, offset) ← read_string8 data 34;
  if (dictSize >? 0) && bad_checksum dictSHA then Err ErrInvalidChecksum else
  '(targetOS, offset) ← read_string8 data offset;
  '(targetArch, offset) ← read_string8 data offset;
  '(appLen, offset) ← read_uint16 data offset;
  let appLen := Z.to_nat appLen in
  if (length data <? offset + appLen)%nat then Err ErrTruncatedIndex else
  appBytes ← go_slice data offset (offset + appLen);
  '(variantCount, offset) ← read_uint16 data (offset + appLen);
  variants ← decode_variants (Z.to_nat variantCount) data offset;
  Ok (mkIndex version (string_of appBytes) targetOS targetArch createdUnix dictOffset dictSize
        (ToLower dictSHA) dictID variants).
End Unmarshal.

(** ** The table as a concatenation *)

Definition enc_string8 (s : string) : list byte :=
  byte_of (Z.of_nat (String.length s)) :: bytes_of s.

Definition encode_variant (v : VariantEntry) : list byte :=
  enc_string8 (ve_Level v) ++ le_bytes 8 (Offset v) ++ le_bytes 8 (CompressedSize v) ++
  le_bytes 8 (UncompressedSize v) ++ enc_string8 (SHA256 v) ++
  enc_string8 (effective_compression (Compression v)).

Definition encode_fixed (idx : Index) : list byte :=
  IndexMagicV2 ++ le_bytes 2 FormatVersion2 ++ le_bytes 8 (CreatedUnix idx) ++
  le_bytes 8 (DictionaryOffset idx) ++ le_bytes 8 (DictionarySize idx) ++
  le_bytes 4 (DictionaryID idx).

Definition encode_strings (idx : Index) : list byte :=
  enc_string8 (DictionarySHA256 idx) ++ enc_string8 (TargetOS idx) ++
  enc_string8 (TargetArch idx) ++
  le_bytes 2 (Z.of_nat (String.length (AppName idx))) ++ bytes_of (AppName idx) ++
  le_bytes 2 (Z.of_nat (length (Variants idx))).

Definition encode_index (idx : Index) : list byte :=
  encode_fixed idx ++ encode_strings idx ++ concat (encode_variant <$> Variants idx).

(** What the encoder accepts. *)
Definition variant_encodable (v : VariantEntry) : Prop :=
  digest_syntax (SHA256 v) /\ (String.length (ve_Level v) <= 255)%nat /\
  (String.length (effective_compression (Compression v)) <= 255)%nat.

Record encodable (idx : Index) : Prop := {
  enc_os : (String.length (TargetOS idx) <= 255)%nat;
  enc_arch : (String.length (TargetArch idx) <= 255)%nat;
  enc_app : Z.of_nat (String.length (AppName idx)) <= 65535;
  enc_count : Z.of_nat (length (Variants idx)) <= 65535;
  enc_dict_sha : (String.length (DictionarySHA256 idx) <= 255)%nat;
  enc_dict : 0 < DictionarySize idx -> digest_syntax (DictionarySHA256 idx);
  enc_variants : Forall variant_encodable (Variants idx)
}.

(** ** Writing at the running offset appends *)

Lemma le_val_inj l1 l2 : length l1 = length l2 -> le_val l1 = le_val l2 -> l1 = l2.
Proof.
  revert l2. induction l1 as [|b l1 IH]; intros [|c l2] Hl H; try done.
  cbn in Hl, H. pose proof (byte_val_range b). pose proof (byte_val_range c).
  assert (byte_val b = byte_val c /\ le_val l1 = le_val l2) as [Hb Hv] by lia.
  apply byte_val_inj in Hb as ->. f_equal. apply IH; [lia|done].
Qed.

Lemma le_bytes_mod n z m : m = 256 ^ Z.of_nat n -> le_bytes n (z mod m) = le_bytes n z.
Proof.
  intros ->. apply le_val_inj; [by rewrite !length_le_bytes|].
  rewrite !le_val_bytes. apply Z.mod_mod. apply Z.pow_nonzero; lia.
Qed.

Lemma le_bytes_to_uint64 z : le_bytes 8 (to_uint64 z) = le_bytes 8 z.
Proof. by apply le_bytes_mod. Qed.

Lemma length_bytes_of s : length (bytes_of s) = String.length s.
Proof.
  induction s as [|c s IH]; [done|]. cbn [String.length]. rewrite <- IH. done.
Qed.

Lemma length_enc_string8 s : length (enc_string8 s) = S (String.length s).
Proof. cbn. by rewrite length_bytes_of. Qed.

(** A buffer written up to [done], and the offset behind it. *)
Definition buffer (done : list byte) (k : nat) : list byte := done ++ replicate k x00.
Definition writing (done : list byte) (k : nat) : list byte * nat := (buffer done k, length done).

Lemma set_byte_buffer done k b :
  (1 <= k)%nat -> set_byte (buffer done k) (length done) b = Ok (buffer (done ++ [b]) (k - 1)).
Proof.
  intros Hk. unfold set_byte, buffer. rewrite decide_True by (rewrite length_app, length_replicate; lia).
  rewrite insert_app_r_alt, Nat.sub_diag by lia. destruct k as [|k]; [lia|].
  cbn. rewrite <- app_assoc, Nat.sub_0_r. done.
Qed.

Lemma copy_at_buffer done k offset src :
  offset = length done -> (length src <= k)%nat ->
  copy_at (buffer done k) offset src = Ok (buffer (done ++ src) (k - length src)).
Proof.
  intros -> Hk. unfold copy_at, buffer. rewrite length_app, length_replicate.
  rewrite decide_True by lia. cbv zeta.
  replace (Nat.min (length done + k - length done) (length src)) with (length src) by lia.
  rewrite take_app_length, firstn_all, <- drop_drop, drop_app_length, drop_replicate.
  by rewrite <- app_assoc.
Qed.

Lemma put_uint_buffer done k lo hi z :
  lo = length done -> (lo <= hi)%nat -> (hi - lo <= k)%nat ->
  put_uint (buffer done k) lo hi z =
  Ok (buffer (done ++ le_bytes (hi - lo) z) (k - (hi - lo))).
Proof.
  intros -> H1 H2. unfold put_uint, buffer. rewrite length_app, length_replicate.
  rewrite decide_True by lia. rewrite take_app_length.
  replace hi with (length done + (hi - length done))%nat at 2 by lia.
  rewrite <- drop_drop, drop_app_length, drop_replicate. by rewrite <- app_assoc.
Qed.

Lemma put_string8_writing done k s :
  (length (enc_string8 s) <= k)%nat ->
  put_string8 (writing done k) s =
  Ok (writing (done ++ enc_string8 s) (k - length (enc_string8 s))).
Proof.
  rewrite length_enc_string8. intros Hk. unfold put_string8, writing.
  rewrite set_byte_buffer by lia. cbn [mbind outcome_bind].
  set (b := byte_of (Z.of_nat (String.length s))).
  replace (length done + 1)%nat with (length (done ++ [b])) by (rewrite length_app; done).
  rewrite copy_at_buffer by (done || (rewrite length_bytes_of; lia)). cbn [mbind outcome_bind].
  rewrite <- app_assoc. unfold enc_string8. fold b. cbn [app]. do 2 f_equal.
  - f_equal. rewrite length_bytes_of. lia.
  - rewrite !length_app. cbn [length]. rewrite length_bytes_of. lia.
Qed.

Lemma put_uint64_writing done k z :
  (8 <= k)%nat ->
  put_uint64 (writing done k) z = Ok (writing (done ++ le_bytes 8 z) (k - 8)).
Proof.
  intros Hk. unfold put_uint64, writing. rewrite put_uint_buffer by lia.
  replace (length done + 8 - length done)%nat with 8%nat by lia. cbn [mbind outcome_bind].
  rewrite le_bytes_to_uint64. do 2 f_equal. by rewrite length_app, length_le_bytes.
Qed.

Lemma length_encode_variant v : length (encode_variant v) = variant_size v.
Proof.
  unfold encode_variant, variant_size.
  rewrite !length_app, !length_enc_string8, !length_le_bytes. lia.
Qed.

Lemma put_variant_writing done k v :
  (variant_size v <= k)%nat ->
  put_variant (writing done k) v =
  Ok (writing (done ++ encode_variant v) (k - variant_size v)).
Proof.
  intros Hk. unfold put_variant. unfold variant_size in *.
  rewrite put_string8_writing by (rewrite length_enc_string8; lia). cbn [mbind outcome_bind].
  rewrite length_enc_string8.
  do 3 (rewrite put_uint64_writing by lia; cbn [mbind outcome_bind]).
  rewrite put_string8_writing by (rewrite length_enc_string8; lia). cbn [mbind outcome_bind].
  rewrite length_enc_string8.
  rewrite put_string8_writing by (rewrite length_enc_string8; lia).
  rewrite length_enc_string8. unfold encode_variant. rewrite <- !app_assoc.
  do 2 f_equal. lia.
Qed.

Lemma put_variants_writing done k vs :
  (length (concat (encode_variant <$> vs)) <= k)%nat ->
  put_variants (writing done k) vs =
  Ok (writing (done ++ concat (encode_variant <$> vs))
        (k - length (concat (encode_variant <$> vs)))).
Proof.
  revert done k. induction vs as [|v vs IH]; intros done k Hk.
  { cbn. by rewrite app_nil_r, Nat.sub_0_r. }
  rewrite fmap_cons in *. cbn [concat put_variants] in *.
  rewrite length_app, length_encode_variant in *.
  rewrite put_variant_writing by lia. cbn [mbind outcome_bind].
  rewrite IH by lia. rewrite <- app_assoc. do 2 f_equal. lia.
Qed.

Lemma check_variants_spec totalSize vs :
  (Forall variant_encodable vs /\
   check_variants totalSize vs = Ok (totalSize + length (concat (encode_variant <$> vs)))%nat) \/
  (~ Forall variant_encodable vs /\ exists e, check_variants totalSize vs = Err e).
Proof.
  revert totalSize. induction vs as [|v vs IH]; intros totalSize.
  { left. split; [constructor|]. cbn. by rewrite Nat.add_0_r. }
  cbn [check_variants]. rewrite Forall_cons, fmap_cons. cbn [concat].
  rewrite length_app, length_encode_variant. unfold variant_encodable at 1 3.
  destruct (bad_checksum (SHA256 v)) eqn:E1.
  { right. split; [|eauto]. rewrite <- bad_checksum_false, E1. by intros [[? _] _]. }
  apply bad_checksum_false in E1. pose proof E1 as [El _].
  destruct (_ || _ || _) eqn:E2.
  { right. split; [|eauto]. rewrite !orb_true_iff, !Nat.ltb_lt in E2. rewrite El in E2. lia. }
  rewrite !orb_false_iff, !Nat.ltb_ge in E2.
  destruct (IH (totalSize + variant_size v)%nat) as [[HF ->]|[HF He]].
  - left. split; [tauto|]. f_equal. lia.
  - right. split; [tauto|done].
Qed.

(** ** [MarshalBinaryIndex] writes the concatenation *)

Lemma length_encode_fixed idx : length (encode_fixed idx) = 34%nat.
Proof. unfold encode_fixed. by rewrite !length_app, !length_le_bytes. Qed.

Lemma length_encode_strings idx :
  (34 + length (encode_strings idx))%nat = header_size idx.
Proof.
  unfold encode_strings, header_size.
  rewrite !length_app, !length_enc_string8, !length_le_bytes, length_bytes_of. lia.
Qed.

(** Solves a length side condition of the writes. *)
Ltac by_lengths :=
  rewrite ?length_app, ?length_le_bytes, ?length_enc_string8, ?length_bytes_of; cbn [length]; lia.

Lemma write_fixed idx k :
  (34 <= k)%nat ->
  (buf ← copy_at (buffer [] k) 0 IndexMagicV2;
   buf ← put_uint buf 4 6 FormatVersion2;
   buf ← put_uint buf 6 14 (to_uint64 (CreatedUnix idx));
   buf ← put_uint buf 14 22 (to_uint64 (DictionaryOffset idx));
   buf ← put_uint buf 22 30 (to_uint64 (DictionarySize idx));
   put_uint buf 30 34 (DictionaryID idx)) = Ok (buffer (encode_fixed idx) (k - 34)).
Proof.
  intros Hk. rewrite copy_at_buffer by (done || (cbn; lia)). cbn [mbind outcome_bind].
  do 5 (rewrite put_uint_buffer by (by_lengths || (cbn; lia)); cbn [mbind outcome_bind]).
  rewrite !le_bytes_to_uint64. unfold encode_fixed. rewrite <- !app_assoc. cbn [app].
  do 2 f_equal. cbn. lia.
Qed.

Lemma bind_assoc {E A B C} (m : outcome E A) (f : A -> outcome E B) (g : B -> outcome E C) :
  mbind g (mbind f m) = mbind (fun a => mbind g (f a)) m.
Proof. by destruct m. Qed.

Lemma length_encode_index idx :
  length (encode_index idx) =
  (header_size idx + length (concat (encode_variant <$> Variants idx)))%nat.
Proof.
  unfold encode_index. rewrite !length_app, length_encode_fixed, <- length_encode_strings. lia.
Qed.

Lemma put_variants_all done vs :
  put_variants (writing done (length (concat (encode_variant <$> vs)))) vs =
  Ok (writing (done ++ concat (encode_variant <$> vs)) 0).
Proof. by rewrite put_variants_writing, Nat.sub_diag by done. Qed.

(** The writes behind the target architecture, which fill the buffer. *)
Lemma write_tail (app : string) vs done k :
  k = (2 + String.length app + 2 + length (concat (encode_variant <$> vs)))%nat ->
  (let offset := length done in
   buf ← put_uint (buffer done k) offset (offset + 2) (Z.of_nat (String.length app));
   buf ← copy_at buf (offset + 2) (bytes_of app);
   buf ← put_uint buf (offset + 2 + String.length app) (offset + 2 + String.length app + 2)
           (Z.of_nat (length vs));
   '(buf, _) ← put_variants (buf, (offset + 2 + String.length app + 2)%nat) vs;
   Ok buf) =
  Ok (done ++ le_bytes 2 (Z.of_nat (String.length app)) ++ bytes_of app ++
      le_bytes 2 (Z.of_nat (length vs)) ++ concat (encode_variant <$> vs)).
Proof.
  intros ->. cbv zeta.
  rewrite put_uint_buffer by lia. cbn [mbind outcome_bind].
  rewrite copy_at_buffer by by_lengths. cbn [mbind outcome_bind].
  rewrite put_uint_buffer by by_lengths. cbn [mbind outcome_bind].
  replace (length done + 2 - length done)%nat with 2%nat by lia.
  replace (length done + 2 + String.length app + 2 - (length done + 2 + String.length app))%nat
    with 2%nat by lia.
  match goal with |- context [put_variants (buffer ?d ?k, ?o)] =>
    replace (buffer d k, o) with (writing d (length (concat (encode_variant <$> vs)))) end.
  - rewrite put_variants_all. cbn [mbind outcome_bind writing]. unfold buffer.
    cbn [replicate]. by rewrite app_nil_r, <- !app_assoc.
  - unfold writing. f_equal; [f_equal|]; by_lengths.
Qed.

Lemma write_table_encodes idx :
  write_table idx (replicate (length (encode_index idx)) x00) = Ok (encode_index idx).
Proof.
  rewrite length_encode_index. set (total := (header_size idx + _)%nat).
  pose proof (write_fixed idx total ltac:(unfold total, header_size; lia)) as Hf.
  unfold write_table. change (replicate total x00) with (buffer [] total).
  rewrite <- !bind_assoc. rewrite <- !bind_assoc in Hf. rewrite Hf. clear Hf. cbn [mbind outcome_bind].
  replace 34%nat with (length (encode_fixed idx)) at 2 by apply length_encode_fixed.
  change (buffer ?d ?k, length ?d) with (writing d k).
  unfold header_size in total.
  do 3 (rewrite put_string8_writing by (unfold total; by_lengths); cbn [mbind outcome_bind]).
  unfold writing at 1. cbn [mbind outcome_bind].
  etransitivity; [apply write_tail; rewrite !length_enc_string8; unfold total; lia|].
  unfold encode_index, encode_strings. by rewrite <- !app_assoc.
Qed.

(** What [MarshalBinaryIndex] does on every index. *)
Lemma marshal_spec idx :
  (encodable idx /\ MarshalBinaryIndex idx = Ok (encode_index idx)) \/
  (~ encodable idx /\ exists e, MarshalBinaryIndex idx = Err e).
Proof.
  unfold MarshalBinaryIndex.
  destruct (_ || _) eqn:E1.
  { right. split; [|eauto]. intros []. rewrite !orb_true_iff, !Nat.ltb_lt, !Z.ltb_lt in E1. lia. }
  rewrite !orb_false_iff, !Nat.ltb_ge, !Z.ltb_ge in E1.
  destruct (_ && _) eqn:E2.
  { right. split; [|eauto]. intros []. rewrite andb_true_iff, Z.gtb_lt in E2.
    destruct E2 as [E2 E3]. apply enc_dict0, bad_checksum_false in E2. congruence. }
  destruct (check_variants_spec (header_size idx) (Variants idx)) as [[HF ->]|[HF [e ->]]];
    cbn [mbind outcome_bind].
  - left. rewrite <- length_encode_index, write_table_encodes. split; [|done].
    constructor; try tauto. intros Hd. apply bad_checksum_false.
    rewrite andb_false_iff, Z.gtb_ltb, Z.ltb_ge in E2. destruct E2; [lia|done].
  - right. split; [by intros []|eauto].
Qed.

(** ** [UnmarshalBinaryIndex] *)

(** Solves [read <> Panic] for a read whose bounds were checked. *)
Lemma read_string8_total data offset : read_string8 data offset <> Panic.
Proof.
  unfold read_string8. destruct (Nat.leb_spec (length data) offset); [done|].
  destruct (go_index_ok (E := format_err) data offset) as (b & -> & _); [done|].
  cbn [mbind outcome_bind]. destruct (Nat.ltb_spec (length data) (offset + 1 + Z.to_nat (byte_val b)));
    [done|]. by rewrite go_slice_ok by lia.
Qed.

Lemma read_uint16_total data offset : read_uint16 data offset <> Panic.
Proof.
  unfold read_uint16. destruct (Nat.ltb_spec (length data) (offset + 2)); [done|].
  by rewrite go_slice_ok by lia.
Qed.

Lemma get_int64_total data lo : (lo + 8 <= length data)%nat -> get_int64 data lo <> Panic.
Proof. intros. unfold get_int64. by rewrite go_slice_ok by lia. Qed.

Section UnmarshalTotal.
Context {GU : GoUnicode}.

Lemma decodeBinaryVariant_total data offset : decodeBinaryVariant data offset <> Panic.
Proof.
  unfold decodeBinaryVariant. apply bind_not_panic; [apply read_string8_total|].
  intros [level o] _. destruct (Nat.ltb_spec (length data) (o + 24)); [done|].
  do 3 (apply bind_not_panic; [apply get_int64_total; lia|intros ? _]).
  apply bind_not_panic; [apply read_string8_total|]. intros [sha o'] _.
  destruct (bad_checksum sha); [done|].
  apply bind_not_panic; [apply read_string8_total|]. by intros [].
Qed.

Lemma decode_variants_total n data offset : decode_variants n data offset <> Panic.
Proof.
  revert offset. induction n as [|n IH]; intros offset; [done|]. cbn [decode_variants].
  apply bind_not_panic; [apply decodeBinaryVariant_total|]. intros [e o] _.
  by apply bind_not_panic; [apply IH|].
Qed.

Lemma unmarshal_total data : UnmarshalBinaryIndex data <> Panic.
Proof.
  unfold UnmarshalBinaryIndex, minBinaryHeaderSize.
  destruct (Nat.ltb_spec (length data) 34); [done|].
  rewrite !go_slice_ok by lia. cbn [mbind outcome_bind]. destruct (negb _); [done|].
  destruct (negb _); [done|].
  do 3 (apply bind_not_panic; [apply get_int64_total; lia|intros ? _]).
  apply bind_not_panic; [apply read_string8_total|]. intros [sha o] _.
  destruct (_ && _); [done|].
  do 2 (apply bind_not_panic; [apply read_string8_total|intros [] _]).
  apply bind_not_panic; [apply read_uint16_total|]. intros [appLen o'] _.
  destruct (Nat.ltb_spec (length data) (o' + Z.to_nat appLen)); [done|].
  rewrite go_slice_ok by lia. cbn [mbind outcome_bind].
  apply bind_not_panic; [apply read_uint16_total|]. intros [cnt o''] _.
  by apply bind_not_panic; [apply decode_variants_total|].
Qed.
End UnmarshalTotal.

(** ** Reading back what was written *)

(** What lies behind offset [o]. *)
Definition reads (data : list byte) (o : nat) (rest : list byte) : Prop :=
  (o <= length data)%nat /\ drop o data = rest.

Lemma reads_start data : reads data 0 data.
Proof. split; [lia|done]. Qed.

Lemma reads_length data o x rest : reads data o (x ++ rest) -> (o + length x <= length data)%nat.
Proof.
  intros [Ho H]. apply (f_equal length) in H. rewrite length_drop, length_app in H. lia.
Qed.

Lemma reads_advance data o x rest o' :
  reads data o (x ++ rest) -> o' = (o + length x)%nat -> reads data o' rest.
Proof.
  intros H ->. split; [by eapply reads_length|]. destruct H as [_ H].
  by rewrite <- drop_drop, H, drop_app_length.
Qed.

Lemma reads_slice {E} data o x rest hi :
  reads data o (x ++ rest) -> hi = (o + length x)%nat -> go_slice (E := E) data o hi = Ok x.
Proof.
  intros H ->. pose proof (reads_length _ _ _ _ H). destruct H as [_ H].
  rewrite go_slice_ok, H by lia.
  replace (o + length x - o)%nat with (length x) by lia. by rewrite take_app_length.
Qed.

Lemma reads_index {E} data o b rest :
  reads data o (b :: rest) -> go_index (E := E) data o = Ok b.
Proof.
  intros [Ho H]. unfold go_index.
  rewrite <- (Nat.add_0_r o), <- lookup_drop, H. done.
Qed.

Lemma read_string8_reads data o' o s rest :
  reads data o' (enc_string8 s ++ rest) -> o = o' -> (String.length s <= 255)%nat ->
  read_string8 data o = Ok (s, (o + length (enc_string8 s))%nat).
Proof.
  intros H -> Hs. rename o' into o. pose proof (reads_length _ _ _ _ H) as Hl. rewrite length_enc_string8 in *.
  unfold read_string8. rewrite (proj2 (Nat.leb_gt _ _)) by lia.
  pose proof H as H'. unfold enc_string8 in H'. cbn [app] in H'.
  rewrite (reads_index _ _ _ _ H'). cbn [mbind outcome_bind].
  rewrite byte_val_of, Z.mod_small by lia. rewrite Nat2Z.id.
  rewrite (proj2 (Nat.ltb_ge _ _)) by lia.
  assert (reads data (o + 1) (bytes_of s ++ rest)) as H2.
  { by apply (reads_advance _ _ [byte_of (Z.of_nat (String.length s))] _ _ H'). }
  rewrite (reads_slice _ _ _ _ _ H2) by (rewrite length_bytes_of; done).
  cbn [mbind outcome_bind].
  rewrite String.string_of_list_byte_of_string. do 2 f_equal. lia.
Qed.

Lemma get_int64_reads data o' o z rest :
  reads data o' (le_bytes 8 z ++ rest) -> o = o' -> int64_range z -> get_int64 data o = Ok z.
Proof.
  intros H -> Hz. unfold get_int64.
  rewrite (reads_slice _ _ _ _ _ H) by (by rewrite length_le_bytes). cbn [mbind outcome_bind].
  rewrite le_val_bytes. f_equal. by apply to_int64_to_uint64.
Qed.

Lemma read_uint16_reads data o' o z rest :
  reads data o' (le_bytes 2 z ++ rest) -> o = o' -> 0 <= z <= 65535 ->
  read_uint16 data o = Ok (z, (o + 2)%nat).
Proof.
  intros H -> Hz. pose proof (reads_length _ _ _ _ H) as Hl. rewrite length_le_bytes in Hl.
  unfold read_uint16. rewrite (proj2 (Nat.ltb_ge _ _)) by lia.
  rewrite (reads_slice _ _ _ _ _ H) by (by rewrite length_le_bytes). cbn [mbind outcome_bind].
  rewrite le_val_bytes, Z.mod_small by (cbn; lia). done.
Qed.

Lemma bind_step {E A B} (m : outcome E A) (k : A -> outcome E B) a r :
  m = Ok a -> k a = r -> mbind k m = r.
Proof. by intros -> <-. Qed.

(** Runs the first step of the goal by [lem] on the field [H] is at. *)
Ltac read_by lem H := eapply bind_step; [eapply lem; [apply H|lia|lia || done]|]; cbv beta iota.

(** Advances a [reads] hypothesis over its first field. *)
Ltac skip H :=
  let H' := fresh in
  rename H into H';
  assert (H := reads_advance _ _ _ _ _ H' eq_refl); clear H'; rewrite ?length_le_bytes in H.

Section RoundTrip.
Context {GU : GoUnicode}.

(** What comes back: digests in lower case, the compression defaulted. *)
Definition canonical_variant (v : VariantEntry) : VariantEntry :=
  mkVariant (ve_Level v) (Offset v) (CompressedSize v) (UncompressedSize v) (ToLower (SHA256 v))
    (effective_compression (Compression v)).

Definition canonical (idx : Index) : Index :=
  mkIndex FormatVersion2 (AppName idx) (TargetOS idx) (TargetArch idx) (CreatedUnix idx)
    (DictionaryOffset idx) (DictionarySize idx) (ToLower (DictionarySHA256 idx))
    (DictionaryID idx) (canonical_variant <$> Variants idx).

Lemma effective_compression_idem c :
  effective_compression (effective_compression c) = effective_compression c.
Proof.
  unfold effective_compression. destruct (String.eqb_spec c "") as [|Hc]; [done|].
  by rewrite (proj2 (String.eqb_neq _ _) Hc).
Qed.

Lemma decodeBinaryVariant_reads data o v rest :
  reads data o (encode_variant v ++ rest) -> variant_encodable v -> variant_typed v ->
  decodeBinaryVariant data o = Ok (canonical_variant v, (o + length (encode_variant v))%nat).
Proof.
  intros H (Hsha & Hlevel & Hcomp) (Ho & Hc & Hu). pose proof (reads_length _ _ _ _ H) as Hlen.
  rewrite length_encode_variant in *. unfold variant_size in *.
  pose proof Hsha as [Hsl _]. apply bad_checksum_false in Hsha.
  unfold encode_variant in H. rewrite <- !app_assoc in H. unfold decodeBinaryVariant.
  read_by read_string8_reads H. skip H.
  rewrite (proj2 (Nat.ltb_ge _ _)) by (rewrite length_enc_string8; lia).
  do 3 (read_by get_int64_reads H; skip H).
  read_by read_string8_reads H. rewrite Hsha. skip H.
  read_by read_string8_reads H. rewrite effective_compression_idem.
  rewrite !length_enc_string8. unfold canonical_variant. do 2 f_equal. lia.
Qed.

Lemma decode_variants_reads vs data o rest :
  reads data o (concat (encode_variant <$> vs) ++ rest) ->
  Forall variant_encodable vs -> Forall variant_typed vs ->
  decode_variants (length vs) data o = Ok (canonical_variant <$> vs).
Proof.
  revert o. induction vs as [|v vs IH]; intros o H He Ht; [done|].
  inversion He; inversion Ht; subst.
  change (encode_variant <$> v :: vs) with (encode_variant v :: (encode_variant <$> vs)) in H.
  cbn [concat] in H.
  rewrite <- app_assoc in H. cbn [length decode_variants].
  rewrite (decodeBinaryVariant_reads _ _ _ _ H) by done. cbn [mbind outcome_bind].
  rewrite IH; [done|eapply reads_advance; [apply H|done]|done|done].
Qed.

(** The encoding read back from the start of any data. *)
Lemma unmarshal_encoded idx tail :
  encodable idx -> index_typed idx ->
  UnmarshalBinaryIndex (encode_index idx ++ tail) = Ok (canonical idx).
Proof.
  intros [Hos Harch Happ Hcnt Hdsha Hdict Hvs] (Hc & Hdo & Hds & Hid & Hvt).
  set (data := encode_index idx ++ tail). pose proof (reads_start data) as H.
  assert (34 <= length data)%nat as Hlen.
  { unfold data. rewrite length_app, length_encode_index. unfold header_size. lia. }
  unfold data at 2 in H. unfold encode_index, encode_fixed, encode_strings in H.
  rewrite <- !app_assoc in H. clearbody data.
  unfold UnmarshalBinaryIndex, minBinaryHeaderSize. rewrite (proj2 (Nat.ltb_ge _ _)) by done.
  rewrite (reads_slice _ 0 _ _ 4 H) by done. cbn [mbind outcome_bind].
  rewrite bool_decide_true by done. cbn [negb]. skip H. cbn [length IndexMagicV2] in H.
  rewrite (reads_slice _ 4 _ _ 6 H) by done. cbn [mbind outcome_bind].
  rewrite le_val_bytes. change (FormatVersion2 mod _) with FormatVersion2.
  rewrite Z.eqb_refl. cbn [negb]. skip H.
  do 3 (read_by get_int64_reads H; skip H).
  rewrite (reads_slice _ 30 _ _ 34 H) by done. cbn [mbind outcome_bind]. skip H.
  rewrite (le_val_bytes 4), Z.mod_small by apply Hid.
  read_by read_string8_reads H. skip H.
  assert ((DictionarySize idx >? 0) && bad_checksum (DictionarySHA256 idx) = false) as ->.
  { destruct (Z.gtb_spec (DictionarySize idx) 0); [|done].
    by apply bad_checksum_false, Hdict. }
  do 2 (read_by read_string8_reads H; skip H).
  read_by read_uint16_reads H.
  rewrite Nat2Z.id. skip H. pose proof (reads_length _ _ _ _ H) as Hl.
  rewrite length_bytes_of in Hl. rewrite (proj2 (Nat.ltb_ge _ _)) by lia.
  rewrite (reads_slice _ _ _ _ _ H) by (rewrite length_bytes_of; lia). cbn [mbind outcome_bind].
  skip H. rewrite length_bytes_of in H.
  read_by read_uint16_reads H. skip H.
  rewrite Nat2Z.id. eapply bind_step.
  { eapply decode_variants_reads; [|done|done].
    match type of H with reads _ ?a _ => match goal with |- reads _ ?b _ =>
      replace b with a by lia end end. apply H. }
  rewrite String.string_of_list_byte_of_string. done.
Qed.
End RoundTrip.

(** ** What a decoded index satisfies *)

Section Decoded.
Context {GU : GoUnicode}.

Lemma read_string8_length data o s o' :
  read_string8 data o = Ok (s, o') -> (String.length s <= 255)%nat.
Proof.
  unfold read_string8. destruct (_ <=? _)%nat; [done|]. intros H. inv_bind H.
  destruct (_ <? _)%nat; [done|]. inv_bind H. injection H as <- _.
  apply go_slice_inv in Ha0 as (_ & _ & ->). pose proof (byte_val_range a).
  rewrite <- length_bytes_of, String.list_byte_of_string_of_list_byte, length_take. lia.
Qed.

Lemma get_int64_typed data o z : get_int64 data o = Ok z -> int64_range z.
Proof. unfold get_int64. intros H. inv_bind H. injection H as <-. apply to_int64_range. Qed.

Lemma is_hex_ascii c : is_hex c = true -> negb (non_ascii c) = true.
Proof. all_chars c. Qed.

Lemma is_hex_lower c : is_hex c = true -> is_hex (lower_char c) = true.
Proof. all_chars c. Qed.

Lemma length_smap f s : String.length (smap f s) = String.length s.
Proof. induction s; simpl; congruence. Qed.

Lemma digest_syntax_lower s : digest_syntax s -> digest_syntax (ToLower s).
Proof.
  unfold digest_syntax, ToLower, is_ascii. intros [Hl Hx].
  rewrite (sforallb_impl _ _ _ is_hex_ascii Hx), length_smap, sforallb_smap.
  split; [done|]. exact (sforallb_impl _ _ _ is_hex_lower Hx).
Qed.

Lemma effective_compression_length c :
  (String.length c <= 255)%nat -> (String.length (effective_compression c) <= 255)%nat.
Proof. unfold effective_compression. destruct (String.eqb c ""); [cbn; lia|done]. Qed.

Lemma decoded_variant data o v o' :
  decodeBinaryVariant data o = Ok (v, o') -> variant_encodable v /\ variant_typed v.
Proof.
  unfold decodeBinaryVariant. intros H. inv_bind H. destruct a as [level p].
  destruct (_ <? _)%nat; [done|]. inv_bind H. destruct a2 as [sha q].
  destruct (bad_checksum sha) eqn:Es; [done|]. inv_bind H. destruct a2 as [comp r].
  injection H as <- _. apply bad_checksum_false in Es.
  apply read_string8_length in Ha, Ha4.
  unfold variant_encodable, variant_typed. cbn. rewrite effective_compression_idem.
  split_and!; eauto using digest_syntax_lower, effective_compression_length, get_int64_typed;
    by apply effective_compression_length.
Qed.

Lemma decoded_variants n data o vs :
  decode_variants n data o = Ok vs ->
  length vs = n /\ Forall variant_encodable vs /\ Forall variant_typed vs.
Proof.
  revert o vs. induction n as [|n IH]; intros o vs; cbn [decode_variants].
  { intros [= <-]. by split_and!. }
  intros H. inv_bind H. destruct a as [v o']. inv_bind H. injection H as <-.
  apply decoded_variant in Ha as [? ?]. apply IH in Ha0 as (<- & ? & ?).
  by split_and!; try constructor.
Qed.

Lemma read_uint16_range data o z o' : read_uint16 data o = Ok (z, o') -> 0 <= z <= 65535.
Proof.
  unfold read_uint16. destruct (_ <? _)%nat; [done|]. intros H. inv_bind H. injection H as <- _.
  apply go_slice_inv in Ha as (_ & _ & ->).
  match goal with |- context [le_val ?l] => pose proof (le_val_range l) as Hr end.
  rewrite length_take in Hr.
  assert (256 ^ Z.of_nat ((o + 2 - o) `min` length (drop o data)) <= 256 ^ 2)
    by (apply Z.pow_le_mono_r; lia). lia.
Qed.

(** The decoder returns typed fields that fit the format again. *)
Lemma unmarshal_sound data idx :
  UnmarshalBinaryIndex data = Ok idx ->
  index_typed idx /\ Version idx = FormatVersion2 /\
  (String.length (TargetOS idx) <= 255)%nat /\ (String.length (TargetArch idx) <= 255)%nat /\
  Z.of_nat (String.length (AppName idx)) <= 65535 /\
  (0 < DictionarySize idx -> digest_syntax (DictionarySHA256 idx)) /\
  Forall variant_encodable (Variants idx).
Proof.
  unfold UnmarshalBinaryIndex. destruct (_ <? _)%nat; [done|]. intros H.
  inv_bind H. destruct (negb _); [done|]. inv_bind H.
  destruct (Z.eqb_spec (le_val a0) FormatVersion2) as [Ev|]; cbn [negb] in H; [|done].
  inv_bind H. destruct a5 as [sha o1]. destruct (_ && _) eqn:Es; [done|].
  inv_bind H. destruct a5 as [os o2]. inv_bind H. destruct a5 as [arch o3].
  inv_bind H. destruct a5 as [appLen o4]. destruct (_ <? _)%nat; [done|].
  inv_bind H. destruct a6 as [cnt o5]. inv_bind H. injection H as <-.
  repeat match goal with
  | H : decode_variants _ _ _ = Ok _ |- _ => apply decoded_variants in H as (_ & He & Ht)
  | H : read_string8 _ _ = Ok _ |- _ => apply read_string8_length in H
  | H : get_int64 _ _ = Ok _ |- _ => apply get_int64_typed in H
  | H : read_uint16 _ _ = Ok _ |- _ => apply read_uint16_range in H
  | H : go_slice _ _ _ = Ok _ |- _ => apply go_slice_inv in H as (_ & ? & ->)
  end.
  cbn [Version TargetOS TargetArch AppName DictionarySize DictionarySHA256 Variants].
  split; [|split_and!; try done].
  - unfold index_typed. cbn. split_and!; try done.
    all: match goal with |- context [le_val ?l] => pose proof (le_val_range l) as Hr end;
      rewrite length_take, length_drop in Hr; replace (_ `min` _)%nat with 4%nat in Hr by lia;
      apply Hr.
  - rewrite <- length_bytes_of, String.list_byte_of_string_of_list_byte, length_take. lia.
  - intros Hd. apply digest_syntax_lower, bad_checksum_false.
    rewrite andb_false_iff, Z.gtb_ltb, Z.ltb_ge in Es. destruct Es; [lia|done].
Qed.

Lemma unmarshal_count data idx :
  UnmarshalBinaryIndex data = Ok idx -> Z.of_nat (length (Variants idx)) <= 65535.
Proof.
  unfold UnmarshalBinaryIndex. destruct (_ <? _)%nat; [done|]. intros H.
  inv_bind H. destruct (negb _); [done|]. inv_bind H. destruct (negb _); [done|].
  inv_bind H. destruct a5 as [sha o1]. destruct (_ && _); [done|].
  inv_bind H. destruct a5 as [os o2]. inv_bind H. destruct a5 as [arch o3].
  inv_bind H. destruct a5 as [appLen o4]. destruct (_ <? _)%nat; [done|].
  inv_bind H. destruct a6 as [cnt o5]. inv_bind H. injection H as <-.
  match goal with H : decode_variants _ _ _ = Ok _ |- _ => apply decoded_variants in H as [Hl _] end.
  match goal with H : read_uint16 _ _ = Ok (cnt, _) |- _ => apply read_uint16_range in H end.
  cbn [Variants]. rewrite Hl. lia.
Qed.
End Decoded.

(** ** Theorems *)

(** [MarshalBinaryIndex] never panics: it returns the table byte for byte when every field
    fits the format, and an error otherwise. *)
Theorem MarshalBinaryIndex_exact (idx : Index) :
  (encodable idx -> MarshalBinaryIndex idx = Ok (encode_index idx)) /\
  (~ encodable idx -> exists e, MarshalBinaryIndex idx = Err e) /\
  MarshalBinaryIndex idx <> Panic.
Proof. destruct (marshal_spec idx) as [[? ->]|[? [e ->]]]; split_and!; naive_solver. Qed.

(** No input makes [UnmarshalBinaryIndex] index out of range. *)
Theorem UnmarshalBinaryIndex_never_panics {GU : GoUnicode} (data : list byte) :
  UnmarshalBinaryIndex data <> Panic.
Proof. apply unmarshal_total. Qed.

(** C26. What [MarshalBinaryIndex] writes, [UnmarshalBinaryIndex] reads back. *)
Theorem index_round_trip {GU : GoUnicode} (idx : Index) (data tail : list byte) :
  index_typed idx -> MarshalBinaryIndex idx = Ok data ->
  UnmarshalBinaryIndex (data ++ tail) = Ok (canonical idx).
Proof.
  intros Ht Hm. destruct (marshal_spec idx) as [[He H]|[_ [e H]]]; [|congruence].
  rewrite H in Hm. injection Hm as <-. by apply unmarshal_encoded.
Qed.

(** ** A concrete table *)

Lemma index_round_trip_witness :
  @UnmarshalBinaryIndex ascii_tables (encode_index sample_index ++ [x00]) =
  Ok (@canonical ascii_tables sample_index).
Proof.
  apply (@index_round_trip ascii_tables sample_index); [exact sample_typed|vm_compute; reflexivity].
Defined.

(** The sample fits the format. *)
Lemma sample_digest_syntax : digest_syntax abc_digest.
Proof. by split; vm_compute. Qed.

Lemma sample_encodable : encodable sample_index.
Proof.
  constructor; cbn; try lia. repeat constructor; cbn; try lia; apply sample_digest_syntax.
Qed.

Lemma MarshalBinaryIndex_exact_witness :
  MarshalBinaryIndex sample_index = Ok (encode_index sample_index).
Proof. apply (MarshalBinaryIndex_exact sample_index). exact sample_encodable. Defined.
