(* ===== verification/Sha256.v ===== *)
(** * SHA-256 ([crypto/sha256], FIPS 180-4)

    [sha256.Sum256] and [hex.EncodeToString] as the code uses them, executable
    so that a witness can seal and open a file.  Words are [Z] modulo 2^32. *)

From S2P Require Import Prelude.
From stdpp Require Import base list list_numbers strings.
From Stdlib Require Import ZArith Lia Strings.Byte Strings.Ascii.

Local Open Scope Z_scope.

Definition w32 (z : Z) : Z := z mod 2 ^ 32.
Definition rotr (x n : Z) : Z := Z.lor (Z.shiftr x n) (w32 (Z.shiftl x (32 - n))).
Definition not32 (x : Z) : Z := 2 ^ 32 - 1 - x.

Definition Ch (x y z : Z) : Z := Z.lxor (Z.land x y) (Z.land (not32 x) z).
Definition Maj (x y z : Z) : Z := Z.lxor (Z.lxor (Z.land x y) (Z.land x z)) (Z.land y z).
Definition bigSigma0 (x : Z) : Z := Z.lxor (Z.lxor (rotr x 2) (rotr x 13)) (rotr x 22).
Definition bigSigma1 (x : Z) : Z := Z.lxor (Z.lxor (rotr x 6) (rotr x 11)) (rotr x 25).
Definition smallSigma0 (x : Z) : Z := Z.lxor (Z.lxor (rotr x 7) (rotr x 18)) (Z.shiftr x 3).
Definition smallSigma1 (x : Z) : Z := Z.lxor (Z.lxor (rotr x 17) (rotr x 19)) (Z.shiftr x 10).

(** The first primes, from which the standard derives its constants. *)
Definition is_prime (n : Z) : bool :=
  (2 <=? n) && forallb (fun d => negb (n mod d =? 0)) (seqZ 2 (n - 2)).
Definition first_primes : list Z := Eval vm_compute in List.filter is_prime (seqZ 2 310).

(** The integer cube root of a number below 2^108, bit by bit. *)
Definition cube_root (n : Z) : Z :=
  fold_left (fun r i => let r' := r + 2 ^ (35 - i) in if r' ^ 3 <=? n then r' else r)
    (seqZ 0 36) 0.

(** The first 32 bits of the fractional parts of the cube roots of the first
    64 primes. *)
Definition sha256_K : list Z :=
  Eval vm_compute in (fun p => w32 (cube_root (p * 2 ^ 96))) <$> first_primes.

(** The eight words of the hash state. *)
Record hash_state := mkHash { hA : Z; hB : Z; hC : Z; hD : Z; hE : Z; hF : Z; hG : Z; hH : Z }.

(** The first 32 bits of the fractional parts of the square roots of the first
    eight primes. *)
Definition sqrt_word (p : Z) : Z := w32 (Z.sqrt (p * 2 ^ 64)).
Definition sha256_init : hash_state :=
  Eval vm_compute in
    mkHash (sqrt_word 2) (sqrt_word 3) (sqrt_word 5) (sqrt_word 7)
      (sqrt_word 11) (sqrt_word 13) (sqrt_word 17) (sqrt_word 19).

(** The message schedule as a sliding window of sixteen words. *)
Definition next_word (w : list Z) : Z :=
  w32 (smallSigma1 (nth 14 w 0) + nth 9 w 0 + smallSigma0 (nth 1 w 0) + nth 0 w 0).

Definition round (s : hash_state) (k w : Z) : hash_state :=
  let t1 := w32 (hH s + bigSigma1 (hE s) + Ch (hE s) (hF s) (hG s) + k + w) in
  let t2 := w32 (bigSigma0 (hA s) + Maj (hA s) (hB s) (hC s)) in
  mkHash (w32 (t1 + t2)) (hA s) (hB s) (hC s) (w32 (hD s + t1)) (hE s) (hF s) (hG s).

Fixpoint rounds (ks : list Z) (w : list Z) (s : hash_state) : hash_state :=
  match ks with
  | [] => s
  | k :: ks => rounds ks (tail w ++ [next_word w]) (round s k (nth 0 w 0))
  end.

Definition add_state (a b : hash_state) : hash_state :=
  mkHash (w32 (hA a + hA b)) (w32 (hB a + hB b)) (w32 (hC a + hC b)) (w32 (hD a + hD b))
    (w32 (hE a + hE b)) (w32 (hF a + hF b)) (w32 (hG a + hG b)) (w32 (hH a + hH b)).

Definition be_val (l : list byte) : Z := le_val (rev l).
Definition be_bytes (n : nat) (z : Z) : list byte := rev (le_bytes n z).

Fixpoint words (n : nat) (block : list byte) : list Z :=
  match n with
  | O => []
  | S n => be_val (take 4 block) :: words n (drop 4 block)
  end.

Definition compress (s : hash_state) (block : list byte) : hash_state :=
  add_state s (rounds sha256_K (words 16 block) s).

Fixpoint blocks (n : nat) (s : hash_state) (data : list byte) : hash_state :=
  match n with
  | O => s
  | S n => blocks n (compress s (take 64 data)) (drop 64 data)
  end.

Definition sha256_pad (data : list byte) : list byte :=
  let n := length data in
  data ++ [x80] ++ replicate ((119 - n mod 64) mod 64) x00 ++ be_bytes 8 (8 * Z.of_nat n).

Definition Sum256 (data : list byte) : list byte :=
  let msg := sha256_pad data in
  let s := blocks (length msg / 64) sha256_init msg in
  concat (be_bytes 4 <$> [hA s; hB s; hC s; hD s; hE s; hF s; hG s; hH s]).

(** ** [encoding/hex] *)

Definition hex_digit (d : Z) : ascii :=
  ascii_of_N (Z.to_N (if d <? 10 then d + 48 else d + 87)).

Fixpoint EncodeToString (data : list byte) : string :=
  match data with
  | [] => EmptyString
  | b :: data =>
      String (hex_digit (byte_val b / 16))
        (String (hex_digit (byte_val b mod 16)) (EncodeToString data))
  end.

(** ** Lemmas *)

Lemma length_Sum256 data : length (Sum256 data) = 32%nat.
Proof.
  unfold Sum256, be_bytes. cbn [fmap list_fmap concat].
  by rewrite !length_app, !length_rev, !length_le_bytes.
Qed.

(** Padding fills whole blocks. *)
Lemma sha256_pad_blocks data : (length (sha256_pad data) mod 64 = 0)%nat.
Proof.
  unfold sha256_pad, be_bytes. rewrite !length_app, length_replicate, length_rev, length_le_bytes.
  cbn [length]. set (n := length data).
  pose proof (Nat.div_mod_eq n 64). pose proof (Nat.mod_upper_bound n 64 ltac:(lia)).
  pose proof (Nat.div_mod_eq (119 - n mod 64) 64).
  pose proof (Nat.mod_upper_bound (119 - n mod 64) 64 ltac:(lia)).
  symmetry. apply (Nat.mod_unique _ _ (n / 64 + 2 - (119 - n mod 64) / 64)); lia.
Qed.

(** The published vectors for the empty string and for "abc". *)
Example Sum256_empty : EncodeToString (Sum256 []) =
  "e3b0c44298fc1c149afbf4c8996fb92427ae41e4649b934ca495991b7852b855"%string.
Proof. vm_compute. reflexivity. Qed.

Example Sum256_abc : EncodeToString (Sum256 [x61; x62; x63]) =
  "ba7816bf8f01cfea414140de5dae2223b00361a396177a9cb410ff61f20015ad"%string.
Proof. vm_compute. reflexivity. Qed.
