(* ===== verification/FormatTrailer.v ===== *)
(** * The trailer of a fat binary ([internal/format/format.go])

    [WriteIndexAndTrailerWithVersion] appends the index and the 56-byte
    trailer to a writer; [ReadTrailerAndIndex] opens them again from a
    [io.ReaderAt].  The reading theorems hold for every reader that keeps the
    contract of [GoIO]. *)

From S2P Require Import Prelude GoStrings Microarch GoIO Format FormatIndex Sha256.
From stdpp Require Import base list strings gmap.
From Stdlib Require Import ZArith Lia Strings.Byte.

Local Open Scope Z_scope.

Definition OffsetLen : nat := 8.
Definition SizeLen : nat := 8.
Definition HashLen : nat := 32.
Definition MagicLen : nat := 8.

(** ["\x00\xFA\x7FMICRO"] *)
Definition MagicString : list byte := [x00; xfa; x7f; x4d; x49; x43; x52; x4f].

(** ** Operations *)

(** [bytes.TrimLeft(data, " \t\r\n")] *)
Fixpoint TrimLeft_space (data : list byte) : list byte :=
  match data with
  | b :: rest =>
      if bool_decide (b ∈ [x20; x09; x0d; x0a]) then TrimLeft_space rest else data
  | [] => []
  end.

Definition looksLikeLegacyJSONIndex (data : list byte) : bool :=
  match TrimLeft_space data with
  | b :: _ => bool_decide (b = x7b)
  | [] => false
  end.

Definition with_version (idx : Index) (version : Z) : Index :=
  mkIndex version (AppName idx) (TargetOS idx) (TargetArch idx) (CreatedUnix idx)
    (DictionaryOffset idx) (DictionarySize idx) (DictionarySHA256 idx) (DictionaryID idx)
    (Variants idx).

(** The trailer buffer, filled from the front. *)
Definition make_trailer (currentOffset indexSize : Z) (indexHash : list byte) :
    outcome format_err (list byte) :=
  let trailer := replicate (Z.to_nat TrailerSize) x00 in
  trailer ← put_uint trailer 0 OffsetLen (to_uint64 currentOffset);
  trailer ← put_uint trailer OffsetLen (OffsetLen * 2) (to_uint64 indexSize);
  trailer ← copy_at trailer (OffsetLen * 2) indexHash;
  copy_at trailer (OffsetLen * 2 + HashLen) MagicString.

Section Operations.
Context {GU : GoUnicode}.

Definition ReadTrailerAndIndex `{ReaderAt R} (r : R) (totalSize : Z) : outcome format_err Index :=
  if totalSize <? TrailerSize then Err ErrBinaryTooSmall else
  match ReadAt r (Z.to_nat TrailerSize) (i64_sub totalSize TrailerSize) with
  | None => Err ErrTrailerRead
  | Some trailerBuf =>
      let offset := (OffsetLen + SizeLen)%nat in
      let hashOffset := (offset + HashLen)%nat in
      magic ← go_slice trailerBuf hashOffset (hashOffset + MagicLen);
      if negb (bool_decide (magic = MagicString)) then Err ErrInvalidMagic else
      indexOffsetBytes ← go_slice trailerBuf 0 OffsetLen;
      let indexOffset := to_int64 (le_val indexOffsetBytes) in
      indexSizeBytes ← go_slice trailerBuf OffsetLen offset;
      let indexSize := to_int64 (le_val indexSizeBytes) in
      let trailerOffset := i64_sub totalSize TrailerSize in
      if (indexOffset <? 0) || (indexOffset >=? trailerOffset) then Err ErrInvalidIndexOffset
      else if (indexSize <=? 0) || (indexSize >? MaxIndexSize) ||
              negb (indexSize =? i64_sub trailerOffset indexOffset)
      then Err ErrInvalidIndexSize
      else
        expectedHash ← go_slice trailerBuf offset (offset + HashLen);
        match ReadAt r (Z.to_nat indexSize) indexOffset with
        | None => Err ErrIndexRead
        | Some idxBytes =>
            let actualHash := Sum256 idxBytes in
            if negb (bool_decide (actualHash = expectedHash)) then Err ErrIndexCorrupted
            else if looksLikeLegacyJSONIndex idxBytes then Err ErrUnsupportedVersion
            else
              idx ← UnmarshalBinaryIndex idxBytes;
              _ ← ValidateBounds idx indexOffset;
              Ok idx
        end
  end.

Definition IsFatBinary `{ReaderAt R} (r : R) (totalSize : Z) : bool :=
  if totalSize <? TrailerSize then false else
  match ReadAt r MagicLen (i64_sub totalSize (Z.of_nat MagicLen)) with
  | None => false
  | Some buf => bool_decide (buf = MagicString)
  end.

Definition IsMissingTrailerError (err : format_err) : bool :=
  match err with ErrBinaryTooSmall | ErrInvalidMagic => true | _ => false end.
End Operations.

(** The caller's index is a pointer: its [Version] is set on the way.  The
    result is the writer and the index as they are left, and what is returned. *)
Definition WriteIndexAndTrailerWithVersion `{Writer W} (w : W) (idx : Index)
    (currentOffset version : Z) : W * Index * outcome format_err Z :=
  if currentOffset <? 0 then (w, idx, Err ErrNegativeOffset)
  else if version =? FormatVersion1 then (w, idx, Err ErrUnsupportedVersion)
  else if negb (version =? FormatVersion2) then (w, idx, Err ErrUnsupportedVersion)
  else
    let idx := with_version idx FormatVersion2 in
    match MarshalBinaryIndex idx with
    | Err e => (w, idx, Err e)
    | Panic => (w, idx, Panic)
    | Ok idxBytes =>
        let indexSize := Z.of_nat (length idxBytes) in
        if indexSize >? MaxIndexSize then (w, idx, Err ErrIndexTooLarge) else
        match Write w idxBytes with
        | (w, _, true) => (w, idx, Err ErrWrite)
        | (w, n, false) =>
            match make_trailer currentOffset indexSize (Sum256 idxBytes) with
            | Err e => (w, idx, Err e)
            | Panic => (w, idx, Panic)
            | Ok trailer =>
                match Write w trailer with
                | (w, _, true) => (w, idx, Err ErrWrite)
                | (w, tn, false) => (w, idx, Ok (Z.of_nat (n + tn)))
                end
            end
        end
    end.

Definition WriteIndexAndTrailer `{Writer W} (w : W) (idx : Index) (currentOffset : Z) :
    W * Index * outcome format_err Z :=
  let version := if Version idx =? 0 then FormatVersionCurrent else Version idx in
  WriteIndexAndTrailerWithVersion w idx currentOffset version.

(** ** The bytes of the trailer *)

Definition encode_trailer (currentOffset indexSize : Z) (indexHash : list byte) : list byte :=
  le_bytes 8 currentOffset ++ le_bytes 8 indexSize ++ indexHash ++ MagicString.

Lemma make_trailer_encodes currentOffset indexSize indexHash :
  length indexHash = 32%nat ->
  make_trailer currentOffset indexSize indexHash =
  Ok (encode_trailer currentOffset indexSize indexHash).
Proof.
  intros Hh. unfold make_trailer, encode_trailer, OffsetLen, HashLen.
  change (replicate (Z.to_nat TrailerSize) x00) with (buffer [] 56). cbn [Nat.mul Nat.add].
  do 2 (rewrite put_uint_buffer by (by_lengths || (cbn; lia)); cbn [mbind outcome_bind]).
  do 2 (rewrite copy_at_buffer by (rewrite ?Hh; by_lengths || (cbn; lia)); cbn [mbind outcome_bind]).
  rewrite !le_bytes_to_uint64, Hh. unfold buffer. cbn [Nat.sub length MagicString replicate app].
  by rewrite app_nil_r, <- !app_assoc.
Qed.

Lemma length_encode_trailer o n h :
  length h = 32%nat -> length (encode_trailer o n h) = 56%nat.
Proof. intros Hh. unfold encode_trailer. by rewrite !length_app, !length_le_bytes, Hh. Qed.

Lemma le_bytes_val l n : length l = n -> le_bytes n (le_val l) = l.
Proof.
  intros <-. apply le_val_inj; [apply length_le_bytes|].
  rewrite le_val_bytes. apply Z.mod_small, le_val_range.
Qed.

Lemma le_bytes_to_int64 z : le_bytes 8 (to_int64 z) = le_bytes 8 z.
Proof.
  rewrite <- (le_bytes_to_uint64 (to_int64 z)), <- (le_bytes_to_uint64 z). f_equal.
  unfold to_uint64, to_int64. rewrite Zminus_mod, Zmod_mod, <- Zminus_mod. f_equal. lia.
Qed.

(** The fields of any 56 bytes that end in the magic. *)
Lemma trailer_fields trailer :
  length trailer = 56%nat -> take 8 (drop 48 trailer) = MagicString ->
  trailer = encode_trailer (to_int64 (le_val (take 8 (drop 0 trailer))))
              (to_int64 (le_val (take 8 (drop 8 trailer)))) (take 32 (drop 16 trailer)).
Proof.
  intros Hl Hm. unfold encode_trailer. rewrite !le_bytes_to_int64, !le_bytes_val
    by (rewrite length_take, length_drop; lia).
  rewrite <- Hm. cbn [drop].
  rewrite (firstn_all2 (n := 8) (drop 48 trailer)) by (rewrite length_drop; lia).
  rewrite <- (firstn_skipn 8 trailer) at 1. f_equal.
  rewrite <- (firstn_skipn 8 (drop 8 trailer)) at 1. f_equal. rewrite drop_drop. cbn [Nat.add].
  rewrite <- (firstn_skipn 32 (drop 16 trailer)) at 1. by rewrite drop_drop.
Qed.

(** What opening a fat binary of [totalSize] bytes finds. *)
Record opened {GU : GoUnicode} `{ReaderAt R} (r : R) (totalSize : Z) (idx : Index)
    (indexOffset : Z) (idxBytes : list byte) : Prop := {
  op_offset : 0 <= indexOffset;
  op_size : 0 < Z.of_nat (length idxBytes) <= MaxIndexSize;
  op_end : indexOffset + Z.of_nat (length idxBytes) + TrailerSize = totalSize;
  op_trailer : ReadAt r 56 (totalSize - TrailerSize) =
    Some (encode_trailer indexOffset (Z.of_nat (length idxBytes)) (Sum256 idxBytes));
  op_bytes : ReadAt r (length idxBytes) indexOffset = Some idxBytes;
  op_json : looksLikeLegacyJSONIndex idxBytes = false;
  op_index : UnmarshalBinaryIndex idxBytes = Ok idx;
  op_bounds : ValidateBounds idx indexOffset = Ok ()
}.

Lemma trailer_reads o n h :
  length h = 32%nat ->
  let t := encode_trailer o n h in
  reads t 0 (le_bytes 8 o ++ le_bytes 8 n ++ h ++ MagicString) /\
  reads t 8 (le_bytes 8 n ++ h ++ MagicString) /\
  reads t 16 (h ++ MagicString) /\ reads t 48 (MagicString ++ []).
Proof.
  intros Hh t. pose proof (reads_start t) as H0. unfold t in H0 at 2. unfold encode_trailer in H0.
  assert (H1 := reads_advance _ _ _ _ 8 H0 ltac:(by rewrite length_le_bytes)).
  assert (H2 := reads_advance _ _ _ _ 16 H1 ltac:(by rewrite length_le_bytes)).
  assert (H3 := reads_advance _ _ _ _ 48 H2 ltac:(by rewrite Hh)).
  by rewrite app_nil_r.
Qed.

Section TrailerLemmas.
Context {GU : GoUnicode} `{ReaderAt R}.

Lemma read_trailer_opened (r : R) totalSize idx :
  int64_range totalSize -> ReadTrailerAndIndex r totalSize = Ok idx ->
  exists indexOffset idxBytes, opened r totalSize idx indexOffset idxBytes.
Proof.
  intros Ht. unfold ReadTrailerAndIndex.
  destruct (Z.ltb_spec totalSize TrailerSize) as [|Hsz]; [done|].
  change (Z.to_nat TrailerSize) with 56%nat.
  unfold TrailerSize, i64_sub in *. rewrite (to_int64_small (totalSize - 56)) by int_range.
  destruct (ReadAt r _ _) as [trailer|] eqn:Er; [|done].
  pose proof (ReadAt_full _ _ _ _ Er) as Hl.
  unfold OffsetLen, SizeLen, HashLen, MagicLen.
  rewrite !go_slice_ok by (cbn in *; lia). cbn [mbind outcome_bind Nat.add Nat.sub].
  case_bool_decide as Hm; cbn [negb]; [|done]. pose proof (trailer_fields _ Hl Hm) as Hf.
  set (io := to_int64 (le_val (take 8 (drop 0 trailer)))) in *.
  set (isz := to_int64 (le_val (take 8 (drop 8 trailer)))) in *.
  destruct ((io <? 0) || (io >=? totalSize - 56)) eqn:E1; [done|].
  rewrite orb_false_iff, Z.ltb_ge, Z.geb_leb, Z.leb_gt in E1.
  rewrite (to_int64_small (totalSize - 56 - io)) by int_range.
  destruct (_ || _ || _) eqn:E2; [done|].
  rewrite !orb_false_iff, Z.leb_gt, Z.gtb_ltb, Z.ltb_ge, negb_false_iff, Z.eqb_eq in E2.
  destruct (ReadAt r (Z.to_nat isz) io) as [idxBytes|] eqn:Ei; [|done].
  pose proof (ReadAt_full _ _ _ _ Ei) as Hli.
  case_bool_decide as Hh; cbn [negb]; [|done].
  destruct (looksLikeLegacyJSONIndex idxBytes) eqn:Ej; [done|].
  intros Hb. inv_bind Hb. injection Hb as <-. destruct a0 as [].
  assert (Z.of_nat (length idxBytes) = isz) as Hz by lia.
  exists io, idxBytes. constructor; rewrite ?Hz; unfold TrailerSize; try done; try lia.
  + rewrite Er. f_equal. by rewrite Hh, Hf at 1.
  + by rewrite Hli.
Qed.

(** Once the trailer and the table are read and the hash agrees, the rest is
    the decoding of the table. *)
Lemma read_trailer_table (r : R) totalSize io idxBytes :
  int64_range totalSize -> 0 <= io -> 0 < Z.of_nat (length idxBytes) <= MaxIndexSize ->
  io + Z.of_nat (length idxBytes) + TrailerSize = totalSize ->
  ReadAt r 56 (totalSize - TrailerSize) =
    Some (encode_trailer io (Z.of_nat (length idxBytes)) (Sum256 idxBytes)) ->
  ReadAt r (length idxBytes) io = Some idxBytes ->
  ReadTrailerAndIndex r totalSize =
  if looksLikeLegacyJSONIndex idxBytes then Err ErrUnsupportedVersion
  else idx ← UnmarshalBinaryIndex idxBytes; _ ← ValidateBounds idx io; Ok idx.
Proof.
  intros Ht Hio Hn Hend Htr Hby. unfold ReadTrailerAndIndex.
  rewrite (proj2 (Z.ltb_ge _ _)) by (unfold TrailerSize in *; lia).
  unfold i64_sub. rewrite (to_int64_small (totalSize - TrailerSize))
    by (unfold TrailerSize in *; int_range).
  change (Z.to_nat TrailerSize) with 56%nat. rewrite Htr.
  set (n := Z.of_nat (length idxBytes)) in *.
  destruct (trailer_reads io n (Sum256 idxBytes)) as (H0 & H1 & H2 & H3);
    [apply length_Sum256|]. unfold MaxIndexSize in *.
  rewrite (reads_slice _ 48 _ _ 56 H3), (reads_slice _ 0 _ _ 8 H0), (reads_slice _ 8 _ _ 16 H1),
    (reads_slice _ 16 _ _ 48 H2) by (rewrite ?length_Sum256; done).
  cbn [mbind outcome_bind]. rewrite !le_val_bytes, bool_decide_true by done. cbn [negb].
  change (to_int64 (?z mod _)) with (to_int64 (to_uint64 z)).
  rewrite !to_int64_to_uint64 by (unfold TrailerSize in *; int_range).
  rewrite (to_int64_small (totalSize - TrailerSize - io)) by (unfold TrailerSize in *; int_range).
  assert ((io <? 0) || (io >=? totalSize - TrailerSize) = false) as ->.
  { rewrite orb_false_iff, Z.ltb_ge, Z.geb_leb, Z.leb_gt. lia. }
  assert ((n <=? 0) || (n >? 1024 * 1024) || negb (n =? totalSize - TrailerSize - io) = false) as ->.
  { rewrite !orb_false_iff, Z.leb_gt, Z.gtb_ltb, Z.ltb_ge, negb_false_iff, Z.eqb_eq. lia. }
  unfold n. rewrite Nat2Z.id, Hby, bool_decide_true by done. done.
Qed.

Lemma opened_read_trailer (r : R) totalSize idx io idxBytes :
  int64_range totalSize -> opened r totalSize idx io idxBytes ->
  ReadTrailerAndIndex r totalSize = Ok idx.
Proof.
  intros Ht []. erewrite read_trailer_table by done.
  by rewrite op_json0, op_index0; cbn [mbind outcome_bind]; rewrite op_bounds0.
Qed.

Lemma read_trailer_total (r : R) totalSize : ReadTrailerAndIndex r totalSize <> Panic.
Proof.
  unfold ReadTrailerAndIndex. destruct (totalSize <? TrailerSize); [done|].
  destruct (ReadAt r _ _) as [trailer|] eqn:Er; [|done].
  pose proof (ReadAt_full _ _ _ _ Er) as Hl. change (Z.to_nat TrailerSize) with 56%nat in Hl.
  unfold OffsetLen, SizeLen, HashLen, MagicLen.
  rewrite !go_slice_ok by (cbn in *; lia). cbn [mbind outcome_bind].
  repeat (case_match; try done).
  apply bind_not_panic; [apply unmarshal_total|]. intros idx _.
  apply bind_not_panic; [apply bounds_total|done].
Qed.
End TrailerLemmas.

(** ** Writing, then reading *)

Lemma encode_index_not_json idx : looksLikeLegacyJSONIndex (encode_index idx) = false.
Proof. reflexivity. Qed.

Section RoundTrip.
Context {GU : GoUnicode}.

Lemma canonical_levels (vs : list VariantEntry) : ve_Level <$> (canonical_variant <$> vs) = ve_Level <$> vs.
Proof. by rewrite <- list_fmap_compose. Qed.

Lemma canonical_chained e vs : chained e vs -> chained e (canonical_variant <$> vs).
Proof.
  revert e. induction vs as [|v vs IH]; intros e; [done|]. intros [? ?]. split; [done|].
  by apply IH.
Qed.

(** A valid layout survives the trip through the binary table. *)
Lemma canonical_layout idx o :
  valid_layout (with_version idx FormatVersion2) o -> valid_layout (canonical idx) o.
Proof.
  intros [Hv Ho Hne Ht Hd Hvs Hl Hc]. constructor; cbn in *; try done.
  - by intros ?%fmap_nil_inv.
  - destruct Hd as [|(? & ? & ? & ?)]; [by left|right].
    cbn in *. auto using digest_syntax_lower.
  - apply Forall_fmap. eapply Forall_impl; [done|]. intros v (? & ? & ? & ? & ? & ? & ?).
    unfold variant_ok, compose. cbn. auto 10 using digest_syntax_lower.
  - unfold VariantLevels in *. cbn in *. by rewrite canonical_levels.
  - by apply canonical_chained.
Qed.

Lemma canonical_typed idx : index_typed idx -> index_typed (canonical idx).
Proof.
  intros (? & ? & ? & ? & ?). unfold index_typed, canonical. cbn. split_and!; try done.
  apply Forall_fmap. eapply Forall_impl; [done|]. intros v (? & ? & ?). done.
Qed.

(** What a successful write did, on any writer. *)
Lemma write_ok_inv `{Writer W} (w : W) idx o version w' idx' n :
  WriteIndexAndTrailerWithVersion w idx o version = (w', idx', Ok n) ->
  let table := encode_index idx' in
  let trailer := encode_trailer o (Z.of_nat (length table)) (Sum256 table) in
  0 <= o /\ version = FormatVersion2 /\ idx' = with_version idx FormatVersion2 /\
  encodable idx' /\ Z.of_nat (length table) <= MaxIndexSize /\
  n = Z.of_nat (length table) + TrailerSize /\
  exists w1 n1 n2, Write w table = (w1, n1, false) /\ Write w1 trailer = (w', n2, false).
Proof.
  unfold WriteIndexAndTrailerWithVersion.
  destruct (Z.ltb_spec o 0); [done|]. destruct (version =? FormatVersion1); [done|].
  destruct (Z.eqb_spec version FormatVersion2); cbn [negb]; [|done].
  destruct (marshal_spec (with_version idx FormatVersion2)) as [[He ->]|[_ [err ->]]]; [|done].
  remember (encode_index (with_version idx FormatVersion2)) as b eqn:Hb.
  rewrite Z.gtb_ltb. destruct (Z.ltb_spec MaxIndexSize (Z.of_nat (length b))); [done|].
  destruct (Write w b) as [[w1 n1] []] eqn:E1; [done|].
  rewrite make_trailer_encodes by apply length_Sum256.
  pose proof (length_encode_trailer o (Z.of_nat (length b)) (Sum256 b) (length_Sum256 b)) as Ht.
  remember (encode_trailer o (Z.of_nat (length b)) (Sum256 b)) as t eqn:Hteq.
  destruct (Write w1 t) as [[w2 n2] []] eqn:E2; [done|].
  pose proof (Write_full _ _ _ _ E1). pose proof (Write_full _ _ _ _ E2).
  intros [= <- <- <-]. cbv zeta. rewrite <- Hb, <- Hteq.
  split_and!; try done; [unfold TrailerSize; lia|eauto].
Qed.

(** What a successful write leaves behind in a file. *)
Lemma write_inv (pre : list byte) idx o version file idx' n :
  WriteIndexAndTrailerWithVersion pre idx o version = (file, idx', Ok n) ->
  0 <= o /\ version = FormatVersion2 /\ idx' = with_version idx FormatVersion2 /\
  encodable idx' /\ Z.of_nat (length (encode_index idx')) <= MaxIndexSize /\
  file = pre ++ encode_index idx' ++
    encode_trailer o (Z.of_nat (length (encode_index idx'))) (Sum256 (encode_index idx')) /\
  n = Z.of_nat (length (encode_index idx')) + TrailerSize.
Proof.
  intros H. apply write_ok_inv in H as (H1 & H2 & H3 & H4 & H5 & H6 & w1 & n1 & n2 & E1 & E2).
  do 5 (split; [done|]). split; [|done]. cbn [Write file_writer] in E1, E2.
  clear H1 H2 H3 H4 H5 H6. set (b := encode_index idx') in *. set (t := encode_trailer _ _ _) in *.
  clearbody b t. unfold file_append in E1, E2. simplify_eq. by rewrite app_assoc.
Qed.

(** A write to a file succeeds when the index fits the format. *)
Lemma write_ok (pre : list byte) idx o :
  0 <= o -> encodable (with_version idx FormatVersion2) ->
  Z.of_nat (length (encode_index (with_version idx FormatVersion2))) <= MaxIndexSize ->
  exists file n, WriteIndexAndTrailerWithVersion pre idx o FormatVersion2 =
    (file, with_version idx FormatVersion2, Ok n).
Proof.
  intros Ho He Hs. unfold WriteIndexAndTrailerWithVersion.
  rewrite (proj2 (Z.ltb_ge _ _)) by done. cbn [Z.eqb FormatVersion1 FormatVersion2 negb Pos.eqb].
  destruct (marshal_spec (with_version idx FormatVersion2)) as [[_ ->]|[Hn _]]; [|done].
  rewrite Z.gtb_ltb, (proj2 (Z.ltb_ge _ _)) by done. cbn [Write file_writer]. unfold file_append.
  rewrite make_trailer_encodes by apply length_Sum256. eauto.
Qed.
End RoundTrip.

(** A file made of payloads, a table and the trailer that seals it. *)
Definition sealed (payloads table : list byte) : list byte :=
  payloads ++ table ++
  encode_trailer (Z.of_nat (length payloads)) (Z.of_nat (length table)) (Sum256 table).

Lemma length_sealed payloads table :
  Z.of_nat (length (sealed payloads table)) =
  Z.of_nat (length payloads) + (Z.of_nat (length table) + TrailerSize).
Proof.
  unfold sealed. rewrite !length_app, length_encode_trailer by apply length_Sum256.
  unfold TrailerSize. lia.
Qed.

Lemma sealed_fat payloads table :
  int64_range (Z.of_nat (length (sealed payloads table))) ->
  IsFatBinary (sealed payloads table) (Z.of_nat (length (sealed payloads table))) = true.
Proof.
  rewrite length_sealed. intros Hr. unfold IsFatBinary, TrailerSize in *.
  rewrite (proj2 (Z.ltb_ge _ _)) by lia.
  unfold i64_sub. rewrite to_int64_small by (unfold MagicLen in *; int_range).
  cbn [ReadAt file_reader]. unfold sealed, encode_trailer. rewrite !app_assoc.
  rewrite <- (app_nil_r (_ ++ MagicString)), <- app_assoc.
  rewrite (file_read_app _ MagicString); [by rewrite bool_decide_true| |done].
  rewrite !length_app, !length_le_bytes, length_Sum256. unfold MagicLen. lia.
Qed.

Lemma sealed_trailer payloads table :
  file_read (sealed payloads table) 56
    (Z.of_nat (length (sealed payloads table)) - TrailerSize) =
  Some (encode_trailer (Z.of_nat (length payloads)) (Z.of_nat (length table)) (Sum256 table)).
Proof.
  rewrite length_sealed. unfold sealed. rewrite app_assoc.
  rewrite <- (app_nil_r (encode_trailer _ _ _)) at 1. apply file_read_app; [|done].
  rewrite length_app. lia.
Qed.

Lemma sealed_table payloads table :
  file_read (sealed payloads table) (length table) (Z.of_nat (length payloads)) = Some table.
Proof. by apply file_read_app. Qed.

(** A file sealed over a valid index opens to it. *)
Lemma sealed_opens {GU : GoUnicode} payloads idx :
  let idx' := with_version idx FormatVersion2 in
  let file := sealed payloads (encode_index idx') in
  index_typed idx -> int64_range (Z.of_nat (length file)) -> encodable idx' ->
  Z.of_nat (length (encode_index idx')) <= MaxIndexSize ->
  ValidateBounds idx' (Z.of_nat (length payloads)) = Ok () ->
  ReadTrailerAndIndex file (Z.of_nat (length file)) = Ok (canonical idx).
Proof.
  cbv zeta. set (b := encode_index _). intros Ht Hr He Hm Hb.
  pose proof (length_sealed payloads b) as HZ.
  eapply (opened_read_trailer _ _ _ (Z.of_nat (length payloads)) b); [done|].
  assert (0 < length b)%nat by (unfold b; rewrite length_encode_index; unfold header_size; lia).
  constructor; try lia; try done.
  - apply sealed_trailer.
  - apply sealed_table.
  - rewrite <- (app_nil_r b). unfold b. rewrite unmarshal_encoded; done.
  - unfold TrailerSize in HZ.
    apply ValidateBounds_layout; [by apply canonical_typed|int_range|].
    apply canonical_layout. apply ValidateBounds_layout; [done|int_range|done].
Qed.

(** ** Theorems *)

(** C9. Opening succeeds exactly on the files whose last bytes are a trailer that names, sizes
    and hashes an index table that ends where it starts. *)
Theorem ReadTrailerAndIndex_exact {GU : GoUnicode} `{ReaderAt R} (r : R) (totalSize : Z)
    (idx : Index) :
  int64_range totalSize ->
  ReadTrailerAndIndex r totalSize = Ok idx <->
  exists indexOffset idxBytes, opened r totalSize idx indexOffset idxBytes.
Proof.
  intros Ht. split; [by apply read_trailer_opened|].
  intros (? & ? & ?). by eapply opened_read_trailer.
Qed.

(** No reader and no size makes opening a file panic. *)
Theorem ReadTrailerAndIndex_never_panics {GU : GoUnicode} `{ReaderAt R} (r : R) (totalSize : Z) :
  ReadTrailerAndIndex r totalSize <> Panic.
Proof. apply read_trailer_total. Qed.

(** C8. Closing a file over an index that fits the format succeeds, and the file opens to that
    index in canonical form. *)
Theorem trailer_round_trip {GU : GoUnicode} (payloads : list byte) (idx : Index) :
  let o := Z.of_nat (length payloads) in
  let idx' := with_version idx FormatVersion2 in
  index_typed idx -> encodable idx' -> o <= 2 ^ 62 ->
  Z.of_nat (length (encode_index idx')) <= MaxIndexSize -> ValidateBounds idx' o = Ok () ->
  exists file n,
    WriteIndexAndTrailerWithVersion payloads idx o FormatVersion2 = (file, idx', Ok n) /\
    Z.of_nat (length file) = o + n /\
    IsFatBinary file (Z.of_nat (length file)) = true /\
    ReadTrailerAndIndex file (Z.of_nat (length file)) = Ok (canonical idx).
Proof.
  intros o idx' Ht He Ho Hm Hb. destruct (write_ok payloads idx o) as (file & n & Hw); [lia|done|done|].
  exists file, n. split; [done|]. apply write_inv in Hw as (_ & _ & _ & _ & _ & Hf & ->).
  fold idx' in Hf |- *. change (file = sealed payloads (encode_index idx')) in Hf. subst file.
  assert (int64_range (Z.of_nat (length (sealed payloads (encode_index idx'))))) as Hr.
  { rewrite length_sealed. unfold MaxIndexSize, TrailerSize in *. int_range. }
  split; [by rewrite length_sealed|].
  split; [by apply sealed_fat|by apply sealed_opens].
Qed.

(** A table sealed by a correct hash under a correct trailer, but which does not start with
    the magic of the index, is reported with the error that [IsMissingTrailerError] takes for a
    file without a trailer, although [IsFatBinary] sees the trailer. *)
Theorem sealed_foreign_index_reported_missing {GU : GoUnicode} (payloads table : list byte) :
  let file := sealed payloads table in
  34 <= Z.of_nat (length table) <= MaxIndexSize -> int64_range (Z.of_nat (length file)) ->
  take 4 table <> IndexMagicV2 -> looksLikeLegacyJSONIndex table = false ->
  IsFatBinary file (Z.of_nat (length file)) = true /\
  exists e, ReadTrailerAndIndex file (Z.of_nat (length file)) = Err e /\
    IsMissingTrailerError e = true.
Proof.
  intros file Hn Hr Hm Hj. split; [by apply sealed_fat|]. exists ErrInvalidMagic. split; [|done].
  unfold file in *. clear file. pose proof (length_sealed payloads table) as HZ.
  erewrite (read_trailer_table _ _ (Z.of_nat (length payloads)) table);
    [|done|lia|lia|lia|apply sealed_trailer|apply sealed_table].
  rewrite Hj. unfold UnmarshalBinaryIndex, minBinaryHeaderSize.
  rewrite (proj2 (Nat.ltb_ge _ _)) by lia.
  rewrite (go_slice_ok table 0 4) by lia. cbn [mbind outcome_bind].
  by rewrite bool_decide_false.
Qed.

(** ** A concrete file *)

(** A stub of four bytes and the payloads of [sample_index]. *)
Definition sample_payloads : list byte := [x7f; x45; x4c; x46; x61; x62; x63; x61; x62; x63].

Lemma trailer_round_trip_witness :
  exists file n,
    WriteIndexAndTrailerWithVersion sample_payloads sample_index 10 FormatVersion2 =
      (file, with_version sample_index FormatVersion2, Ok n) /\
    Z.of_nat (length file) = 10 + n /\
    IsFatBinary file (Z.of_nat (length file)) = true /\
    @ReadTrailerAndIndex ascii_tables _ _ file (Z.of_nat (length file)) =
      Ok (@canonical ascii_tables sample_index).
Proof.
  apply (@trailer_round_trip ascii_tables sample_payloads sample_index).
  - exact sample_typed.
  - exact sample_encodable.
  - vm_compute. discriminate.
  - vm_compute. discriminate.
  - vm_compute. reflexivity.
Defined.

Definition sample_file : list byte := sealed sample_payloads (encode_index sample_index).

Lemma ReadTrailerAndIndex_exact_witness :
  @ReadTrailerAndIndex ascii_tables _ _ sample_file (Z.of_nat (length sample_file)) = Ok sample_index <->
  exists indexOffset idxBytes,
    @opened ascii_tables _ _ sample_file (Z.of_nat (length sample_file)) sample_index
      indexOffset idxBytes.
Proof.
  apply (@ReadTrailerAndIndex_exact ascii_tables). vm_compute. split; [discriminate|reflexivity].
Defined.

Lemma ReadTrailerAndIndex_never_panics_witness :
  @ReadTrailerAndIndex ascii_tables _ _ sample_payloads 10 <> Panic.
Proof. apply (@ReadTrailerAndIndex_never_panics ascii_tables). Defined.

Definition foreign_table : list byte := replicate 40 x41.

Lemma sealed_foreign_index_reported_missing_witness :
  let file := sealed sample_payloads foreign_table in
  IsFatBinary file (Z.of_nat (length file)) = true /\
  exists e, @ReadTrailerAndIndex ascii_tables _ _ file (Z.of_nat (length file)) = Err e /\
    IsMissingTrailerError e = true.
Proof.
  apply (@sealed_foreign_index_reported_missing ascii_tables sample_payloads foreign_table).
  - vm_compute. split; discriminate.
  - vm_compute. split; [discriminate|reflexivity].
  - vm_compute. discriminate.
  - vm_compute. reflexivity.
Defined.
