(* ===== verification/CgroupSize.v ===== *)
(** * Byte sizes and memory budgets ([internal/cgroup])

    [ParseByteSize] with its checked decimal arithmetic (from [cgroup.go]),
    [RuntimeMemoryLimit] (from [batch_gc.go]), the extraction and retention
    budgets (from [memory.go]) and the deduction for a sealed executable (from
    [executable_linux.go]).  The theorems compare the loops with exact
    rationals. *)

From S2P Require Import Prelude GoStrings.
From stdpp Require Import base list strings.
From Stdlib Require Import ZArith Lia Strings.Ascii.

Local Open Scope string_scope.
Local Open Scope Z_scope.

Definition decimalBase : Z := 10.
Definition halfDecimalBase : Z := 5.
Definition byteUnitKibi : Z := 1024.
Definition byteUnitMebi : Z := 1024 * byteUnitKibi.
Definition byteUnitGibi : Z := 1024 * byteUnitMebi.
Definition byteUnitTebi : Z := 1024 * byteUnitGibi.

Inductive size_err :=
| EmptyByteSize        (* "empty byte size string" *)
| MultipleDots         (* "multiple decimal points" *)
| MissingNumber        (* "missing numeric value" *)
| UnknownUnit          (* "unknown byte unit" *)
| ExceedsMaxInt64.     (* "exceeds max int64" *)

(** The scan of [splitByteSizeToken] from position [i]: where it stops, where
    the point was, how many digits it saw. *)
Fixpoint scan_number (s : string) (i : nat) (dotIndex : option nat) (digitsCount : nat) :
    outcome size_err (nat * option nat * nat) :=
  match s with
  | "" => Ok (i, dotIndex, digitsCount)
  | String ch s =>
      if is_digit ch then scan_number s (S i) dotIndex (S digitsCount)
      else if Ascii.eqb ch "." then
        match dotIndex with
        | Some _ => Err MultipleDots
        | None => scan_number s (S i) (Some i) digitsCount
        end
      else Ok (i, dotIndex, digitsCount)
  end.

Definition splitByteSizeToken {GU : GoUnicode} (s : string) :
    outcome size_err (string * string * option nat) :=
  let trimmed := TrimSpace s in
  if String.eqb trimmed "" then Err EmptyByteSize else
  '(i, dotIndex, digitsCount) ← scan_number trimmed 0 None 0;
  if (digitsCount =? 0)%nat then Err MissingNumber else
  let numStr := stake i trimmed in
  let unitStr := ToLower (TrimSpace (sdrop i trimmed)) in
  Ok (numStr, unitStr, dotIndex).

Definition unit_table : list (list string * Z) :=
  [(["" ; "b"; "byte"; "bytes"], 1);
   (["k"; "kb"; "kib"], byteUnitKibi);
   (["m"; "mb"; "mib"], byteUnitMebi);
   (["g"; "gb"; "gib"], byteUnitGibi);
   (["t"; "tb"; "tib"], byteUnitTebi)].

Definition resolveByteMultiplier (unitStr : string) : outcome size_err Z :=
  match find (fun row => existsb (String.eqb unitStr) row.1) unit_table with
  | Some row => Ok row.2
  | None => Err UnknownUnit
  end.

(** The loop over the digits before the point, in [uint64]. *)
Fixpoint whole_loop (maxWhole : Z) (wholeStr : string) (whole : Z) : outcome size_err Z :=
  match wholeStr with
  | "" => Ok whole
  | String ch rest =>
      let d := digit_val ch in
      if (whole >? maxWhole / decimalBase) ||
         ((whole =? maxWhole / decimalBase) && (d >? maxWhole mod decimalBase))
      then Err ExceedsMaxInt64
      else whole_loop maxWhole rest (u64_add (u64_mul whole decimalBase) d)
  end.

(** The loop over the digits behind the point, from the last to the first:
    carry, digit of the highest place, and whether any digit is nonzero. *)
Fixpoint frac_loop (multiplier : Z) (reversed : string) (fracCarry firstFracDigit : Z)
    (hasNonzeroFrac : bool) : Z * Z * bool :=
  match reversed with
  | "" => (fracCarry, firstFracDigit, hasNonzeroFrac)
  | String ch rest =>
      let d := digit_val ch in
      let v := u64_add (u64_mul d multiplier) fracCarry in
      let rem := v mod decimalBase in
      frac_loop multiplier rest (v / decimalBase) rem (hasNonzeroFrac || negb (rem =? 0))
  end.

(** The end of [ParseByteSize]: adding the fraction and rounding. *)
Definition add_fraction (wholeBytes fracCarry firstFracDigit : Z) (hasNonzeroFrac : bool) :
    outcome size_err Z :=
  let remaining := u64_sub MaxInt64 wholeBytes in
  if fracCarry >? remaining then Err ExceedsMaxInt64 else
  let integralBytes := u64_add wholeBytes fracCarry in
  if (integralBytes =? MaxInt64) && hasNonzeroFrac then Err ExceedsMaxInt64 else
  let roundCarry := if firstFracDigit >=? halfDecimalBase then 1 else 0 in
  integralBytes ←
    (if roundCarry >? 0
     then if integralBytes >=? MaxInt64 then Err ExceedsMaxInt64
          else Ok (u64_add integralBytes roundCarry)
     else Ok integralBytes);
  if integralBytes >? MaxInt64 then Err ExceedsMaxInt64 else Ok (to_int64 integralBytes).

(** The arithmetic of [ParseByteSize] once the token is split. *)
Definition checked_size (wholeStr fracStr : string) (multiplier : Z) : outcome size_err Z :=
  let maxWhole := MaxInt64 / multiplier in
  whole ← whole_loop maxWhole wholeStr 0;
  let wholeBytes := u64_mul whole multiplier in
  let '(fracCarry, firstFracDigit, hasNonzeroFrac) :=
    frac_loop multiplier (srev fracStr) 0 0 false in
  add_fraction wholeBytes fracCarry firstFracDigit hasNonzeroFrac.

Definition ParseByteSize {GU : GoUnicode} (s : string) : outcome size_err Z :=
  '(numStr, unitStr, dotIndex) ← splitByteSizeToken s;
  multiplier ← resolveByteMultiplier unitStr;
  let '(wholeStr, fracStr) :=
    match dotIndex with
    | None => (numStr, "")
    | Some dot => (stake dot numStr, sdrop (dot + 1) numStr)
    end in
  checked_size wholeStr fracStr multiplier.

(** ** [RuntimeMemoryLimit] *)

Definition memlimit_suffixes : list (string * Z) :=
  [("B", 1); ("KiB", 1024); ("MiB", 1024 * 1024); ("GiB", 1024 * 1024 * 1024);
   ("TiB", 1024 * 1024 * 1024 * 1024)].

(** The loop over the suffixes: the first that matches is removed. *)
Fixpoint strip_suffix (suffixes : list (string * Z)) (value : string) : string * Z :=
  match suffixes with
  | [] => (value, 1)
  | (suffix, multiplier) :: suffixes =>
      if HasSuffix value suffix && (negb (String.eqb suffix "B") || negb (HasSuffix value "iB"))
      then (TrimSuffix value suffix, multiplier)
      else strip_suffix suffixes value
  end.

Definition RuntimeMemoryLimit (value : string) : Z :=
  let '(value, multiplier) := strip_suffix memlimit_suffixes value in
  match ParseInt value with
  | None => 0
  | Some n =>
      if (n <=? 0) || (n >? MaxInt64 / multiplier) || (i64_mul n multiplier =? MaxInt64)
      then 0 else i64_mul n multiplier
  end.

(** ** Budgets *)

(** The loop of [ExtractionMemory] over its four values. *)
Fixpoint checked_sum (total : Z) (values : list Z) : option Z :=
  match values with
  | [] => Some total
  | value :: values =>
      if (value <? 0) || (value >? i64_sub MaxInt64 total) then None
      else checked_sum (i64_add total value) values
  end.

(** [None] is [ErrMemoryBudget]. *)
Definition ExtractionMemory (payload dictionary decoder reserve : Z) : option Z :=
  checked_sum 0 [payload; dictionary; decoder; reserve].

Definition RetainedMemoryLimit (limit retained : Z) : Z :=
  if (retained <? 0) || (retained >=? limit) then 0 else i64_sub limit retained.

(** *** A sealed executable *)

Inductive seals_result :=
| SealsUnsupported            (* EINVAL or ENOTTY *)
| SealsError
| Seals (bits : Z).

Definition F_SEAL_SEAL : Z := 1.
Definition F_SEAL_SHRINK : Z := 2.
Definition F_SEAL_GROW : Z := 4.
Definition F_SEAL_WRITE : Z := 8.

Inductive retained_err := SealsFailed | StatFailed | RetainedBudget.

(** [seals] is what [fcntl(F_GET_SEALS)] answers, [size] the [Stat] of the
    file, [page] the page size. *)
Definition retainedMemoryForFile (seals : seals_result) (size : option Z) (page : Z) :
    outcome retained_err Z :=
  match seals with
  | SealsUnsupported => Ok 0
  | SealsError => Err SealsFailed
  | Seals bits =>
      let required := Z.lor (Z.lor (Z.lor F_SEAL_WRITE F_SEAL_GROW) F_SEAL_SHRINK) F_SEAL_SEAL in
      if negb (Z.land bits required =? required) then Ok 0 else
      match size with
      | None => Err StatFailed
      | Some size =>
          if (size <? 0) || (size >? i64_add (i64_sub MaxInt64 page) 1) then Err RetainedBudget
          else Ok (i64_mul (i64_sub (i64_add size page) 1 / page) page)
      end
  end.

(** ** What a numeral means *)

(** The number a string of digits stands for, behind the digits of [acc]. *)
Fixpoint digits_val (acc : Z) (s : string) : Z :=
  match s with
  | "" => acc
  | String c s => digits_val (acc * 10 + digit_val c) s
  end.

Definition all_digits (s : string) : Prop := sforallb is_digit s = true.

(** [10 ^ |s|], the weight of the digits behind the point. *)
Definition weight (s : string) : Z := 10 ^ Z.of_nat (String.length s).

(** [whole.frac] times [multiplier], as a numerator over [weight frac]. *)
Definition size_numerator (whole frac : string) (multiplier : Z) : Z :=
  (digits_val 0 whole * weight frac + digits_val 0 frac) * multiplier.

(** The exact size, rounded half up, when it fits an [int64]. *)
Definition exact_size (whole frac : string) (multiplier : Z) : outcome size_err Z :=
  let n := size_numerator whole frac multiplier in
  if n <=? MaxInt64 * weight frac
  then Ok ((2 * n + weight frac) / (2 * weight frac))
  else Err ExceedsMaxInt64.

Lemma digit_val_range c : is_digit c = true -> 0 <= digit_val c <= 9.
Proof.
  unfold is_digit, digit_val. rewrite andb_true_iff, !N.leb_le. lia.
Qed.

Lemma weight_pos s : 0 < weight s.
Proof. unfold weight. lia. Qed.

Lemma weight_cons c s : weight (String c s) = 10 * weight s.
Proof. unfold weight. cbn [String.length]. by rewrite Nat2Z.inj_succ, Z.pow_succ_r by lia. Qed.

Lemma digits_val_acc acc s : digits_val acc s = acc * weight s + digits_val 0 s.
Proof.
  revert acc. induction s as [|c s IH]; intros acc; [unfold weight; cbn; lia|].
  cbn [digits_val]. rewrite IH, (IH (0 * 10 + digit_val c)), weight_cons. lia.
Qed.

Lemma all_digits_cons c s : all_digits (String c s) <-> is_digit c = true /\ all_digits s.
Proof. unfold all_digits. cbn [sforallb]. by rewrite andb_true_iff. Qed.

Lemma digits_val_nonneg acc s : all_digits s -> 0 <= acc -> acc <= digits_val acc s.
Proof.
  revert acc. induction s as [|c s IH]; intros acc; [cbn; lia|].
  intros [Hc Hs]%all_digits_cons Ha. apply digit_val_range in Hc. cbn [digits_val].
  specialize (IH (acc * 10 + digit_val c) Hs ltac:(lia)). lia.
Qed.

(** ** The loops *)

Lemma whole_loop_exact maxWhole s whole :
  all_digits s -> 0 <= whole <= maxWhole -> maxWhole <= MaxInt64 ->
  whole_loop maxWhole s whole =
  if digits_val whole s <=? maxWhole then Ok (digits_val whole s) else Err ExceedsMaxInt64.
Proof.
  revert whole. induction s as [|c s IH]; intros whole Hs Hw Hm; cbn [whole_loop digits_val].
  { by rewrite (proj2 (Z.leb_le _ _)) by lia. }
  apply all_digits_cons in Hs as [Hc Hs]. apply digit_val_range in Hc. unfold decimalBase.
  pose proof (Z.div_mod maxWhole 10 ltac:(lia)). pose proof (Z.mod_pos_bound maxWhole 10 ltac:(lia)).
  destruct (_ || _) eqn:E.
  - rewrite orb_true_iff, andb_true_iff, !Z.gtb_lt, Z.eqb_eq in E.
    pose proof (digits_val_nonneg (whole * 10 + digit_val c) s Hs ltac:(lia)).
    rewrite (proj2 (Z.leb_gt _ _)) by lia. done.
  - rewrite orb_false_iff, andb_false_iff, !Z.gtb_ltb, !Z.ltb_ge, Z.eqb_neq in E.
    unfold u64_add, u64_mul. rewrite (to_uint64_small (whole * 10)) by int_range.
    rewrite to_uint64_small by int_range. apply IH; [done|lia|done].
Qed.

(** The state of [frac_loop] behind the digits [t]: the carry, and the
    remainder that the other two components summarise. *)
Definition frac_state (multiplier : Z) (t : string) (carry first : Z) (nz : bool) : Prop :=
  exists rem,
    digits_val 0 t * multiplier = carry * weight t + rem /\ 0 <= rem < weight t /\
    0 <= carry <= multiplier /\ first = 10 * rem / weight t /\ nz = negb (rem =? 0).

Lemma frac_step multiplier c t carry first nz :
  0 < multiplier <= byteUnitTebi -> is_digit c = true ->
  frac_state multiplier t carry first nz ->
  let v := u64_add (u64_mul (digit_val c) multiplier) carry in
  frac_state multiplier (String c t) (v / 10) (v mod 10) (nz || negb (v mod 10 =? 0)).
Proof.
  intros Hm Hc%digit_val_range (rem & Heq & Hr & Hcar & -> & ->) v.
  assert (0 <= digit_val c * multiplier <= 9 * multiplier) by nia.
  unfold byteUnitTebi, byteUnitGibi, byteUnitMebi, byteUnitKibi in Hm.
  assert (v = digit_val c * multiplier + carry) as Hv
    by (unfold v, u64_add, u64_mul; no_wrap; done).
  pose proof (Z.div_mod v 10 ltac:(lia)). pose proof (Z.mod_pos_bound v 10 ltac:(lia)).
  pose proof (weight_pos t). unfold frac_state. rewrite weight_cons.
  set (q := v mod 10) in *. set (w := weight t) in *. clearbody q.
  assert (0 <= q * w <= 9 * w) by (clear -H1 H2; clearbody w; nia).
  exists (q * w + rem). split; [|split; [lia|split; [lia|split]]].
  - cbn [digits_val]. rewrite digits_val_acc, Z.mul_add_distr_r, Heq. fold w.
    replace (v / 10 * (10 * w)) with ((10 * (v / 10)) * w) by lia.
    replace (10 * (v / 10)) with (digit_val c * multiplier + carry - q) by lia. lia.
  - rewrite Z.div_mul_cancel_l by lia. rewrite Z.div_add_l by lia.
    rewrite Z.div_small by lia. lia.
  - destruct (Z.eqb_spec rem 0), (Z.eqb_spec q 0), (Z.eqb_spec (q * w + rem) 0);
      cbn; try done; exfalso; clearbody w; clear Heq Hv; nia.
Qed.

Lemma frac_loop_state multiplier rs t carry first nz :
  0 < multiplier <= byteUnitTebi -> all_digits rs -> frac_state multiplier t carry first nz ->
  let '(carry', first', nz') := frac_loop multiplier rs carry first nz in
  frac_state multiplier (srev rs ++ t) carry' first' nz'.
Proof.
  intros Hm. revert t carry first nz. induction rs as [|c rs IH]; intros t carry first nz Hd Hst.
  { done. }
  apply all_digits_cons in Hd as [Hc Hd]. cbn [frac_loop].
  rewrite srev_cons, sapp_assoc, sapp_cons, sapp_nil_l. apply IH; [done|].
  by apply (frac_step multiplier c t carry first nz).
Qed.

(** The first digit of the remainder decides the rounding. *)
Lemma round_half_up n rem w :
  0 <= rem < w ->
  (2 * (n * w + rem) + w) / (2 * w) = n + (if 10 * rem / w >=? 5 then 1 else 0).
Proof.
  intros Hr. replace (2 * (n * w + rem) + w) with (n * (2 * w) + (2 * rem + w)) by lia.
  rewrite Z.div_add_l by lia. f_equal. rewrite Z.geb_leb.
  destruct (Z.leb_spec 5 (10 * rem / w)) as [H|H].
  - assert (5 * w <= 10 * rem) by (pose proof (Z.mul_div_le (10 * rem) w ltac:(lia)); nia).
    symmetry. apply (Z.div_unique _ _ _ (2 * rem - w)); lia.
  - assert (10 * rem < 5 * w).
    { apply Z.nle_gt. intros Hle. pose proof (Z.div_le_lower_bound (10 * rem) w 5). lia. }
    symmetry. apply (Z.div_unique _ _ _ (2 * rem + w)); lia.
Qed.

Lemma fits_with_remainder n rem w limit :
  0 <= rem < w -> n * w + rem <= limit * w <-> n < limit \/ n = limit /\ rem = 0.
Proof.
  intros Hr. split.
  - intros H. destruct (Z.lt_trichotomy n limit) as [|[->|]]; [by left|right; lia|].
    assert ((limit + 1) * w <= n * w) by (apply Z.mul_le_mono_nonneg_r; lia). lia.
  - intros [H|[-> ->]]; [|lia].
    assert ((n + 1) * w <= limit * w) by (apply Z.mul_le_mono_nonneg_r; lia). lia.
Qed.

Lemma add_fraction_exact B carry rem w :
  0 <= B <= MaxInt64 -> 0 <= carry <= byteUnitTebi -> 0 <= rem < w ->
  add_fraction B carry (10 * rem / w) (negb (rem =? 0)) =
  if (B + carry) * w + rem <=? MaxInt64 * w
  then Ok ((2 * ((B + carry) * w + rem) + w) / (2 * w)) else Err ExceedsMaxInt64.
Proof.
  intros HB Hc Hr. rewrite round_half_up by done. unfold add_fraction.
  unfold byteUnitTebi, byteUnitGibi, byteUnitMebi, byteUnitKibi, halfDecimalBase in *.
  unfold u64_sub, u64_add.
  rewrite (to_uint64_small (MaxInt64 - B)), (to_uint64_small (B + carry)) by int_range.
  pose proof (fits_with_remainder (B + carry) rem w MaxInt64 Hr) as Hfit.
  destruct (Z.gtb_spec carry (MaxInt64 - B)).
  { rewrite (proj2 (Z.leb_gt _ _)); [done|]. apply Z.nle_gt. rewrite Hfit. lia. }
  destruct (Z.eqb_spec (B + carry) MaxInt64) as [E|E].
  - destruct (Z.eqb_spec rem 0) as [->|Hrem]; cbn [andb negb].
    + rewrite (proj2 (Z.leb_le _ _)) by (rewrite Hfit; lia).
      rewrite Z.div_0_l by lia. cbn. rewrite Z.add_0_r, E. done.
    + rewrite (proj2 (Z.leb_gt _ _)); [done|]. apply Z.nle_gt. rewrite Hfit. lia.
  - rewrite andb_false_l. rewrite (proj2 (Z.leb_le _ _)) by (rewrite Hfit; lia).
    destruct (10 * rem / w >=? 5); cbn [Z.gtb Z.compare].
    + rewrite Z.geb_leb, (proj2 (Z.leb_gt _ _)) by lia. cbn [mbind outcome_bind].
      rewrite to_uint64_small by int_range. rewrite Z.gtb_ltb, (proj2 (Z.ltb_ge _ _)) by lia.
      by rewrite to_int64_small by int_range.
    + cbn [mbind outcome_bind]. rewrite Z.gtb_ltb, (proj2 (Z.ltb_ge _ _)) by lia.
      rewrite to_int64_small by int_range. f_equal. lia.
Qed.

(** The checked arithmetic is exact. *)
Lemma checked_size_exact whole frac multiplier :
  all_digits whole -> all_digits frac -> 0 < multiplier <= byteUnitTebi ->
  checked_size whole frac multiplier = exact_size whole frac multiplier.
Proof.
  intros Hw Hf Hm. unfold checked_size, exact_size, size_numerator.
  assert (0 <= MaxInt64 / multiplier) by (apply Z.div_pos; unfold MaxInt64; lia).
  assert (MaxInt64 / multiplier <= MaxInt64) by (apply Z.div_le_upper_bound; unfold MaxInt64; nia).
  rewrite whole_loop_exact by (done || lia).
  pose proof (digits_val_nonneg 0 whole Hw ltac:(lia)) as HW0.
  pose proof (frac_loop_state multiplier (srev frac) "" 0 0 false Hm) as Hfr.
  destruct (frac_loop multiplier (srev frac) 0 0 false) as [[carry first] nz].
  destruct Hfr as (rem & Heq & Hr & Hc & -> & ->).
  { unfold all_digits. by rewrite sforallb_srev. }
  { exists 0. unfold weight. cbn. split_and!; try done; lia. }
  rewrite srev_involutive, sapp_nil_r in *.
  set (W := digits_val 0 whole) in *. set (w := weight frac) in *.
  assert (0 < w) as Hwp by apply weight_pos. rewrite Z.mul_add_distr_r, Heq. clearbody W w.
  clear Hw Hf Heq.
  replace (W * w * multiplier + (carry * w + rem)) with ((W * multiplier + carry) * w + rem) by lia.
  destruct (Z.leb_spec W (MaxInt64 / multiplier)) as [HW|HW]; cbn [mbind outcome_bind].
  - assert (0 <= W * multiplier <= MaxInt64) as HB.
    { pose proof (Z.mul_div_le MaxInt64 multiplier ltac:(lia)). split; [lia|].
      transitivity (multiplier * (MaxInt64 / multiplier)); [|done].
      rewrite Z.mul_comm. apply Z.mul_le_mono_nonneg_l; lia. }
    unfold u64_mul. rewrite to_uint64_small by int_range. apply add_fraction_exact; lia.
  - rewrite (proj2 (Z.leb_gt _ _)); [done|]. apply Z.nle_gt.
    rewrite fits_with_remainder by done.
    assert (MaxInt64 < W * multiplier); [|lia].
    pose proof (Z.mul_succ_div_gt MaxInt64 multiplier ltac:(lia)).
    assert (multiplier * Z.succ (MaxInt64 / multiplier) <= multiplier * W)
      by (apply Z.mul_le_mono_nonneg_l; lia). lia.
Qed.

Lemma resolveByteMultiplier_range u m :
  resolveByteMultiplier u = Ok m -> 0 < m <= byteUnitTebi.
Proof.
  unfold resolveByteMultiplier. destruct (find _ _) as [row|] eqn:E; [|done]. intros [= <-].
  apply find_some in E as [Hin _]. unfold unit_table in Hin. cbn [In] in Hin.
  unfold byteUnitTebi, byteUnitGibi, byteUnitMebi, byteUnitKibi in *.
  destruct Hin as [<-|[<-|[<-|[<-|[<-|[]]]]]]; cbn [snd]; lia.
Qed.

(** ** The token *)

(** No digit at the front. *)
Definition no_digit (s : string) : Prop :=
  match s with "" => True | String c _ => is_digit c = false end.

Lemma digits_prefix s : exists w r, s = w ++ r /\ all_digits w /\ no_digit r.
Proof.
  induction s as [|c s (w & r & -> & Hw & Hr)]; [by exists "", ""|].
  destruct (is_digit c) eqn:E.
  - exists (String c w), r. split; [done|]. split; [by apply all_digits_cons|done].
  - by exists "", (String c (w ++ r)).
Qed.

Lemma scan_digits w r i dot n :
  all_digits w ->
  scan_number (w ++ r) i dot n =
  scan_number r (i + String.length w) dot (n + String.length w).
Proof.
  revert i n. induction w as [|c w IH]; intros i n Hw.
  { cbn. rewrite sapp_nil_l, !Nat.add_0_r. done. }
  apply all_digits_cons in Hw as [Hc Hw]. rewrite sapp_cons. cbn [scan_number].
  rewrite Hc, IH by done. cbn [String.length]. f_equal; lia.
Qed.

(** Where the numeral stops: at the end, or at a character that is neither a
    digit nor a point. *)
Definition stops (r : string) : Prop :=
  match r with "" => True | String c _ => is_digit c = false /\ c <> "."%char end.

Lemma scan_stops r i dot n : stops r -> scan_number r i dot n = Ok (i, dot, n).
Proof.
  destruct r as [|c r]; [done|]. intros [Hc Hd]. cbn [scan_number]. rewrite Hc.
  by destruct (Ascii.eqb_spec c ".").
Qed.

(** The two shapes of a size: with and without a point. *)
Definition size_token (t whole frac rest : string) : Prop :=
  all_digits whole /\ all_digits frac /\ (whole ++ frac)%string <> "" /\ stops rest /\
  (t = (whole ++ rest)%string /\ frac = "" \/ t = (whole ++ "." ++ frac ++ rest)%string).

Lemma stops_or_dot r : no_digit r -> stops r \/ exists r', r = String "." r'.
Proof.
  destruct r as [|c r]; [by left|]. cbn. intros Hc.
  destruct (Ascii.eqb_spec c "."); [subst; eauto|by left].
Qed.

(** The scan over a token finds its parts. *)
Lemma token_scan t w f r :
  size_token t w f r ->
  exists dot n, n <> 0%nat /\
    scan_number t 0 None 0 = Ok (String.length t - String.length r, dot, n)%nat /\
    sdrop (String.length t - String.length r) t = r /\
    (let num := stake (String.length t - String.length r) t in
     match dot with
     | None => num = w /\ f = ""
     | Some d => stake d num = w /\ sdrop (d + 1) num = f
     end).
Proof.
  intros (Hw & Hf & Hne & Hs & [[-> ->]| ->]); apply nonempty_length in Hne;
    rewrite slength_app in Hne; rewrite scan_digits by done; cbn [Nat.add].
  - rewrite scan_stops by done. exists None, (String.length w). rewrite slength_app.
    replace (String.length w + String.length r - String.length r)%nat with (String.length w) by lia.
    rewrite sdrop_app, stake_app. cbn [String.length] in Hne. split_and!; try done. lia.
  - rewrite sapp_cons, sapp_nil_l. cbn [scan_number].
    change (is_digit ".") with false. cbn [Ascii.eqb Bool.eqb].
    rewrite scan_digits, scan_stops by done.
    exists (Some (String.length w)), (String.length w + String.length f)%nat. split; [done|].
    set (num := (w ++ String "." f)%string).
    assert ((w ++ String "." (f ++ r) = num ++ r)%string) as ->
      by (unfold num; by rewrite sapp_assoc, sapp_cons).
    assert (String.length num = String.length w + 1 + String.length f)%nat as Hl
      by (unfold num; rewrite slength_app; cbn; lia).
    rewrite slength_app.
    replace (String.length num + String.length r - String.length r)%nat
      with (String.length num) by lia.
    rewrite sdrop_app, stake_app. split_and!; try done.
    + do 3 f_equal. lia.
    + apply stake_app.
    + unfold num. replace (String.length w + 1)%nat with (String.length (w ++ "."))
        by (rewrite slength_app; done).
      change (String "." f) with ("." ++ f)%string. rewrite <- sapp_assoc. apply sdrop_app.
Qed.

(** A string that is not a token has no digit, or two points. *)
Lemma token_cases t :
  (exists w f r, size_token t w f r) \/
  (exists i dot, scan_number t 0 None 0 = Ok (i, dot, 0%nat)) \/
  scan_number t 0 None 0 = Err MultipleDots.
Proof.
  destruct (digits_prefix t) as (w & r & -> & Hw & Hr). rewrite scan_digits by done.
  cbn [Nat.add]. destruct (stops_or_dot r Hr) as [Hs|[r' ->]].
  - rewrite scan_stops by done. destruct (decide (w = "")) as [->|Hne]; [right; left; eauto|left].
    exists w, "", r. unfold size_token. rewrite sapp_nil_r. split_and!; try done. by left.
  - cbn [scan_number]. change (is_digit ".") with false. cbn [Ascii.eqb Bool.eqb].
    destruct (digits_prefix r') as (f & r & -> & Hf & Hr'). rewrite scan_digits by done.
    destruct (stops_or_dot r Hr') as [Hs|[r'' ->]]; [|by right; right].
    rewrite scan_stops by done.
    destruct (decide ((w ++ f)%string = "")) as [E|Hne].
    + right; left. apply (f_equal String.length) in E. rewrite slength_app in E. cbn in E.
      rewrite E. eauto.
    + left. exists w, f, r. unfold size_token. split_and!; try done. by right.
Qed.

Section Parse.
Context {GU : GoUnicode}.

Lemma parse_token s w f r :
  size_token (TrimSpace s) w f r ->
  ParseByteSize s = (m ← resolveByteMultiplier (ToLower (TrimSpace r)); exact_size w f m).
Proof.
  intros Ht. pose proof Ht as (Hw & Hf & Hne & _ & Hshape).
  destruct (token_scan _ _ _ _ Ht) as (dot & n & Hn & Hscan & Hr & Hnum).
  unfold ParseByteSize, splitByteSizeToken.
  rewrite (proj2 (String.eqb_neq _ _)).
  2:{ intros E. rewrite E in Hscan. cbn in Hscan. by injection Hscan. }
  rewrite Hscan. cbn [mbind outcome_bind]. rewrite (proj2 (Nat.eqb_neq _ _)) by done.
  cbn [mbind outcome_bind]. rewrite Hr.
  destruct (resolveByteMultiplier (ToLower (TrimSpace r))) as [m|e|] eqn:Em;
    cbn [mbind outcome_bind]; try done.
  apply resolveByteMultiplier_range in Em.
  destruct dot as [d|]; destruct Hnum as [Hnum Hnum'];
    rewrite ?Hnum, ?Hnum'; [|rewrite <- Hnum']; by apply checked_size_exact.
Qed.

End Parse.

(** ** Theorems *)

(** [ParseByteSize] returns a size exactly on numerals with a known unit whose exact value
    fits an [int64], and the size is that value rounded half up: no wrap-around and no lost
    digit, however many digits there are. *)
Theorem ParseByteSize_exact {GU : GoUnicode} (s : string) (v : Z) :
  ParseByteSize s = Ok v <->
  exists whole frac rest multiplier,
    size_token (TrimSpace s) whole frac rest /\
    resolveByteMultiplier (ToLower (TrimSpace rest)) = Ok multiplier /\
    size_numerator whole frac multiplier <= MaxInt64 * weight frac /\
    v = (2 * size_numerator whole frac multiplier + weight frac) / (2 * weight frac).
Proof.
  split.
  - intros H. destruct (token_cases (TrimSpace s)) as [(w & f & r & Ht)|Hno].
    + rewrite (parse_token _ _ _ _ Ht) in H. inv_bind H. unfold exact_size in H.
      destruct (Z.leb_spec (size_numerator w f a) (MaxInt64 * weight f)); [|done].
      injection H as <-. eauto 10.
    + unfold ParseByteSize, splitByteSizeToken in H.
      destruct (String.eqb (TrimSpace s) ""); [done|]. by destruct Hno as [(? & ? & E)|E]; rewrite E in H.
  - intros (w & f & r & m & Ht & Hm & Hle & ->).
    rewrite (parse_token _ _ _ _ Ht), Hm. cbn [mbind outcome_bind]. unfold exact_size.
    by rewrite (proj2 (Z.leb_le _ _)).
Qed.

(** [ParseByteSize] never panics. *)
Theorem ParseByteSize_total {GU : GoUnicode} (s : string) : ParseByteSize s <> Panic.
Proof.
  destruct (token_cases (TrimSpace s)) as [(w & f & r & Ht)|Hno].
  - rewrite (parse_token _ _ _ _ Ht). apply bind_not_panic.
    + unfold resolveByteMultiplier. by case_match.
    + intros m _. unfold exact_size. by case_match.
  - unfold ParseByteSize, splitByteSizeToken. destruct (String.eqb (TrimSpace s) ""); [done|].
    by destruct Hno as [(? & ? & E)|E]; rewrite E.
Qed.

(** A limit [RuntimeMemoryLimit] accepts is the number times the unit, finite
    and in range. *)
Theorem RuntimeMemoryLimit_sound (value : string) :
  RuntimeMemoryLimit value <> 0 ->
  exists digits unit n,
    strip_suffix memlimit_suffixes value = (digits, unit) /\ ParseInt digits = Some n /\
    RuntimeMemoryLimit value = n * unit /\ 0 < RuntimeMemoryLimit value < MaxInt64.
Proof.
  unfold RuntimeMemoryLimit. destruct (strip_suffix _ _) as [digits unit] eqn:Es.
  assert (1 <= unit <= 2 ^ 40) as Hu.
  { unfold memlimit_suffixes in Es. cbn [strip_suffix] in Es.
    repeat (case_match; [injection Es as _ <-; lia|]). injection Es as _ <-. lia. }
  destruct (ParseInt digits) as [n|] eqn:Ep; [|done].
  destruct (_ || _ || _) eqn:E; [done|]. intros _.
  rewrite !orb_false_iff, Z.leb_gt, Z.gtb_ltb, Z.ltb_ge, Z.eqb_neq in E.
  assert (n * unit <= MaxInt64).
  { pose proof (Z.mul_div_le MaxInt64 unit ltac:(lia)). nia. }
  assert (0 < n * unit) by nia. unfold i64_mul in *.
  rewrite (to_int64_small (n * unit)) in E |- * by int_range. exists digits, unit, n. split_and!; try done; lia.
Qed.

Lemma checked_sum_exact total values :
  0 <= total <= MaxInt64 -> Forall int64_range values ->
  checked_sum total values =
  if decide (Forall (fun v => 0 <= v) values /\ total + foldr Z.add 0 values <= MaxInt64)
  then Some (total + foldr Z.add 0 values) else None.
Proof.
  revert total. induction values as [|v vs IH]; intros total Ht Hr; cbn [checked_sum foldr].
  { rewrite decide_True by (split; [constructor|lia]). f_equal. lia. }
  inversion Hr as [|? ? Hv Hvs]; subst. unfold i64_sub, i64_add.
  rewrite (to_int64_small (MaxInt64 - total)) by int_range.
  destruct (_ || _) eqn:E.
  - rewrite decide_False; [done|]. rewrite orb_true_iff, Z.ltb_lt, Z.gtb_lt in E.
    rewrite Forall_cons. intros [[? HF] Hs].
    assert (0 <= foldr Z.add 0 vs); [|lia]. clear -HF. induction HF; cbn [foldr]; lia.
  - rewrite orb_false_iff, Z.ltb_ge, Z.gtb_ltb, Z.ltb_ge in E.
    rewrite to_int64_small by int_range. rewrite IH by (done || lia).
    replace (total + (v + foldr Z.add 0 vs)) with (total + v + foldr Z.add 0 vs) by lia.
    apply decide_ext. rewrite Forall_cons. intuition lia.
Qed.

(** The extraction budget is the sum, or an error: never a wrapped total. *)
Theorem ExtractionMemory_exact (payload dictionary decoder reserve : Z) :
  Forall int64_range [payload; dictionary; decoder; reserve] ->
  ExtractionMemory payload dictionary decoder reserve =
  if decide (Forall (fun v => 0 <= v) [payload; dictionary; decoder; reserve] /\
             payload + dictionary + decoder + reserve <= MaxInt64)
  then Some (payload + dictionary + decoder + reserve) else None.
Proof.
  intros Hr. unfold ExtractionMemory. rewrite checked_sum_exact by (done || (unfold MaxInt64; lia)).
  cbn [foldr]. replace (0 + (payload + (dictionary + (decoder + (reserve + 0)))))
    with (payload + dictionary + decoder + reserve) by lia. done.
Qed.

Lemma to_int64_sub_idemp a b : to_int64 (to_int64 a - b) = to_int64 (a - b).
Proof.
  unfold to_int64. f_equal.
  replace ((a + 2 ^ 63) mod 2 ^ 64 - 2 ^ 63 - b + 2 ^ 63)
    with ((a + 2 ^ 63) mod 2 ^ 64 - b) by lia.
  rewrite Zminus_mod_idemp_l. f_equal. lia.
Qed.

(** A fully sealed executable costs its size rounded up to whole pages. *)
Theorem retainedMemoryForFile_pages (bits size page r : Z) :
  int64_range size -> 0 < page <= MaxInt64 ->
  retainedMemoryForFile (Seals bits) (Some size) page = Ok r ->
  Z.land bits 15 <> 15 /\ r = 0 \/
  Z.land bits 15 = 15 /\ (page | r) /\ size <= r < size + page /\ 0 <= r <= MaxInt64.
Proof.
  intros Hs Hp. unfold retainedMemoryForFile.
  change (Z.lor (Z.lor (Z.lor F_SEAL_WRITE F_SEAL_GROW) F_SEAL_SHRINK) F_SEAL_SEAL) with 15.
  destruct (Z.eqb_spec (Z.land bits 15) 15) as [E|E]; cbn [negb]; [|intros [= <-]; auto].
  unfold i64_add, i64_sub, i64_mul. rewrite (to_int64_small (MaxInt64 - page)) by int_range.
  rewrite (to_int64_small (MaxInt64 - page + 1)) by int_range.
  destruct (_ || _) eqn:E1; [done|]. rewrite orb_false_iff, Z.ltb_ge, Z.gtb_ltb, Z.ltb_ge in E1.
  rewrite to_int64_sub_idemp, (to_int64_small (size + page - 1)) by int_range.
  pose proof (Z.div_mod (size + page - 1) page ltac:(lia)) as Hd.
  pose proof (Z.mod_pos_bound (size + page - 1) page ltac:(lia)).
  set (q := (size + page - 1) / page) in *.
  assert (q * page = size + page - 1 - (size + page - 1) mod page) as Hq by lia.
  rewrite to_int64_small by int_range. intros [= <-]. right.
  split_and!; try lia; try done. by exists q.
Qed.

(** ** A concrete size *)

Lemma ParseByteSize_exact_witness :
  @ParseByteSize ascii_tables " 1.5KiB" = Ok 1536 <->
  exists whole frac rest multiplier,
    size_token (@TrimSpace ascii_tables " 1.5KiB") whole frac rest /\
    resolveByteMultiplier (@ToLower ascii_tables (@TrimSpace ascii_tables rest)) = Ok multiplier /\
    size_numerator whole frac multiplier <= MaxInt64 * weight frac /\
    1536 = (2 * size_numerator whole frac multiplier + weight frac) / (2 * weight frac).
Proof. apply (@ParseByteSize_exact ascii_tables). Defined.
