(* ===== verification/CgroupTuning.v ===== *)
(** * Runtime tuning from container limits ([internal/cgroup])

    [Limits] and its methods, [CalculateGOMEMLIMIT], [CalculateGOMAXPROCS],
    the garbage-collection profiles and [ResolveTuningPlanWithProfile] (from
    [cgroup.go]), [ResolveBatchGOGC] (from [batch_gc.go]) and the CPU policy
    (from [cpu_policy.go]). *)

From S2P Require Import Prelude GoStrings GoFloat CgroupSize.
From stdpp Require Import base list strings.
From Stdlib Require Import ZArith Lia Floats.SpecFloat Strings.Ascii.

Local Open Scope string_scope.
Local Open Scope Z_scope.

(** ** Constants *)

Definition DefaultMemoryRatio : float64 := decimal_to_float false 90 (-2).
Definition DefaultMinHeadroomBytes : Z := 64 * 1024 * 1024.
Definition MinimumCPUs : Z := 1.
Definition UnlimitedCgroupV1MemoryThreshold : Z := 1024 * 1024 * 1024 * 1024 * 1024.
Definition smallContainerHeadroomDivisor : Z := 2.

Definition LimitConstraintNone : string := "".
Definition LimitConstraintMax : string := "max".
Definition LimitConstraintHigh : string := "high".

(** [type GCProfile string] *)
Definition GCProfile := string.
Definition GCProfileDefault : GCProfile := "default".
Definition GCProfileLatencyCritical : GCProfile := "latency_critical".
Definition GCProfileMemoryConstrained : GCProfile := "memory_constrained".
Definition GCProfileBatchETL : GCProfile := "batch_etl".
Definition GCProfileAdaptive : GCProfile := "adaptive".

Definition DefaultLatencyCriticalGOGC : Z := 75.
Definition DefaultMemoryConstrainedGOGC : Z := 40.
Definition DefaultMemoryConstrainedRatio : float64 := decimal_to_float false 80 (-2).
Definition DefaultBatchETLGOGC : Z := -1.
Definition AdaptiveMinGOGC : Z := 10.
Definition AdaptiveMaxGOGC : Z := 100.
Definition adaptiveScaleMultiplier : float64 := float_of_int 100.

Definition VersionUnknown : Z := 0.
Definition VersionV1 : Z := 1.
Definition VersionV2 : Z := 2.

(** ** Data *)

Record Limits := mkLimits {
  RetainedExecutableBytes : Z;
  CgroupVersion : Z;
  MemoryLimitBytes : Z;
  MemoryHighBytes : Z;
  EffectiveMemoryLimitBytes : Z;
  MemoryLimitFinite : bool;
  MemoryHighFinite : bool;
  CPUQuota : float64;
  CPUs : Z
}.

Record TuningPlan := mkPlan {
  GOMEMLIMITBytes : Z;
  GOMEMLIMITStr : string;
  ConstrainingLimit : string;
  GOMAXPROCS : Z;
  GOMAXPROCSStr : string;
  AppliedRatio : float64;
  GOGC : Z;
  GOGCStr : string;
  plan_GCProfile : GCProfile;
  GOGCApplied : bool;
  GOGCSkippedReason : string
}.

(** ** Limits *)

Definition HasMemoryLimit (l : Limits) : bool := MemoryLimitFinite l || (MemoryLimitBytes l >? 0).
Definition HasMemoryHigh (l : Limits) : bool := MemoryHighFinite l || (MemoryHighBytes l >? 0).

Definition CalculateEffectiveMemoryLimit (maxBytes highBytes : Z) : Z :=
  if (maxBytes >? 0) && (highBytes >? 0) then
    if highBytes <? maxBytes then highBytes else maxBytes
  else if highBytes >? 0 then highBytes
  else if maxBytes >? 0 then maxBytes
  else 0.

Definition DetermineConstrainingLimit (maxBytes highBytes : Z) : string :=
  if (maxBytes >? 0) && (highBytes >? 0) then
    if highBytes <? maxBytes then LimitConstraintHigh else LimitConstraintMax
  else if highBytes >? 0 then LimitConstraintHigh
  else if maxBytes >? 0 then LimitConstraintMax
  else LimitConstraintNone.

Definition EffectiveMemoryLimit (l : Limits) : Z * bool :=
  if (HasMemoryLimit l && (MemoryLimitBytes l =? 0)) ||
     (HasMemoryHigh l && (MemoryHighBytes l =? 0))
  then (0, true)
  else if EffectiveMemoryLimitBytes l >? 0 then (EffectiveMemoryLimitBytes l, true)
  else (CalculateEffectiveMemoryLimit (MemoryLimitBytes l) (MemoryHighBytes l),
        HasMemoryLimit l || HasMemoryHigh l).

Definition ConstrainingMemoryLimit (l : Limits) : string :=
  if HasMemoryHigh l && (negb (HasMemoryLimit l) || (MemoryHighBytes l <? MemoryLimitBytes l))
  then LimitConstraintHigh
  else if HasMemoryLimit l then LimitConstraintMax
  else LimitConstraintNone.

(** ** Calculations *)

Definition bad_ratio (ratio : float64) : bool :=
  IsNaN ratio || IsInf ratio || fle ratio fzero || flt float_one ratio.

Section Calculations.
Context `{GoFloat}.

(** [None] is [(0, false)]. *)
Definition CalculateGOMEMLIMIT (limitBytes : Z) (ratio : float64) (minHeadroomBytes : Z) :
    option Z :=
  if (limitBytes <=? 0) || (limitBytes >=? UnlimitedCgroupV1MemoryThreshold) then None else
  let ratio := if bad_ratio ratio then DefaultMemoryRatio else ratio in
  let minHeadroomBytes :=
    if minHeadroomBytes <=? 0 then DefaultMinHeadroomBytes else minHeadroomBytes in
  let ratioBudget := int_floor (fmul (float_of_int limitBytes) ratio) in
  let half := limitBytes / smallContainerHeadroomDivisor in
  let reserved := Z.min minHeadroomBytes (i64_sub limitBytes half) in
  let headroomBudget := i64_sub limitBytes reserved in
  let budget := Z.min ratioBudget headroomBudget in
  if budget <=? 0 then None else Some budget.

Definition CalculateGOMAXPROCS (quota : float64) : option Z :=
  if fle quota fzero || IsNaN quota || IsInf quota then None
  else Some (Z.max (int_floor quota) MinimumCPUs).

Definition CalculateAdaptiveGOGC (availableHeadroomBytes liveHeapBytes : Z) : option Z :=
  if (availableHeadroomBytes <=? 0) || (liveHeapBytes <=? 0) then None else
  let ratio := fdiv (float_of_int availableHeadroomBytes) (float_of_int liveHeapBytes) in
  let gogcFloat := fmul (fsub ratio float_one) adaptiveScaleMultiplier in
  let gogcFloat :=
    if flt gogcFloat (float_of_int AdaptiveMinGOGC) then float_of_int AdaptiveMinGOGC
    else gogcFloat in
  let gogcFloat :=
    if flt (float_of_int AdaptiveMaxGOGC) gogcFloat then float_of_int AdaptiveMaxGOGC
    else gogcFloat in
  Some (int_round gogcFloat).

Definition resolveTuningRatio {GU : GoUnicode} (envRatioStr : string) (defaultRatio : float64)
    (profile : GCProfile) : float64 :=
  let ratio :=
    if String.eqb profile GCProfileMemoryConstrained && feq defaultRatio DefaultMemoryRatio
    then DefaultMemoryConstrainedRatio else defaultRatio in
  let ratio := if bad_ratio ratio then DefaultMemoryRatio else ratio in
  let trimmed := TrimSpace envRatioStr in
  if String.eqb trimmed "" then ratio else
  match ParseFloat trimmed with
  | Some parsed =>
      if negb (IsNaN parsed) && negb (IsInf parsed) && flt fzero parsed && fle parsed float_one
      then parsed else ratio
  | None => ratio
  end.
End Calculations.

Definition profile_names : list (list string * GCProfile) :=
  [([""; GCProfileDefault], GCProfileDefault);
   ([GCProfileLatencyCritical; "latency"], GCProfileLatencyCritical);
   ([GCProfileMemoryConstrained; "memory"], GCProfileMemoryConstrained);
   ([GCProfileBatchETL; "batch"; "etl"], GCProfileBatchETL);
   ([GCProfileAdaptive; "dynamic"], GCProfileAdaptive)].

(** The profile, and whether the name was known. *)
Definition ParseGCProfile {GU : GoUnicode} (s : string) : GCProfile * bool :=
  let norm := ReplaceAll (ToLower (TrimSpace s)) "-" "_" in
  match find (fun row => existsb (String.eqb norm) row.1) profile_names with
  | Some row => (row.2, true)
  | None => (GCProfileDefault, false)
  end.

(** ** The plan *)

Definition set_GOGC (p : TuningPlan) (gogc : Z) (str : string) (applied : bool) (reason : string) :
    TuningPlan :=
  mkPlan (GOMEMLIMITBytes p) (GOMEMLIMITStr p) (ConstrainingLimit p) (GOMAXPROCS p)
    (GOMAXPROCSStr p) (AppliedRatio p) gogc str (plan_GCProfile p) applied reason.

Definition set_memory (p : TuningPlan) (bytes : Z) (str constraining : string) : TuningPlan :=
  mkPlan bytes str constraining (GOMAXPROCS p) (GOMAXPROCSStr p) (AppliedRatio p) (GOGC p)
    (GOGCStr p) (plan_GCProfile p) (GOGCApplied p) (GOGCSkippedReason p).

Definition set_procs (p : TuningPlan) (procs : Z) (str : string) : TuningPlan :=
  mkPlan (GOMEMLIMITBytes p) (GOMEMLIMITStr p) (ConstrainingLimit p) procs str (AppliedRatio p)
    (GOGC p) (GOGCStr p) (plan_GCProfile p) (GOGCApplied p) (GOGCSkippedReason p).

Definition batch_skipped : string :=
  "batch_etl GOGC tuning skipped (no finite effective memory ceiling)".

Definition ResolveBatchGOGC (p : TuningPlan) (memoryLimit : Z) : TuningPlan :=
  if negb (String.eqb (plan_GCProfile p) GCProfileBatchETL) then p
  else if (memoryLimit <=? 0) || (memoryLimit =? MaxInt64)
  then set_GOGC p 0 "" false batch_skipped
  else set_GOGC p DefaultBatchETLGOGC "off" true "".

Definition applyProfileGOGC `{GoFloat} (plan : TuningPlan) (profile : GCProfile)
    (liveHeapEstimateBytes : Z) : TuningPlan :=
  if String.eqb profile GCProfileLatencyCritical then
    set_GOGC plan DefaultLatencyCriticalGOGC (Itoa DefaultLatencyCriticalGOGC) true
      (GOGCSkippedReason plan)
  else if String.eqb profile GCProfileMemoryConstrained then
    set_GOGC plan DefaultMemoryConstrainedGOGC (Itoa DefaultMemoryConstrainedGOGC) true
      (GOGCSkippedReason plan)
  else if String.eqb profile GCProfileBatchETL then
    ResolveBatchGOGC plan (GOMEMLIMITBytes plan)
  else if String.eqb profile GCProfileAdaptive then
    if (liveHeapEstimateBytes >? 0) && (GOMEMLIMITBytes plan >? 0) then
      match CalculateAdaptiveGOGC (GOMEMLIMITBytes plan) liveHeapEstimateBytes with
      | Some gogc => set_GOGC plan gogc (Itoa gogc) true (GOGCSkippedReason plan)
      | None => plan
      end
    else plan
  else plan.

(** The memory part of the plan: a finite zero boundary first, then the budget
    of what the retained executable leaves. *)
Definition plan_memory `{GoFloat} (plan : TuningPlan) (limits : Limits) (ratio : float64)
    (minHeadroomBytes : Z) : TuningPlan :=
  let '(effectiveLimit, finite) := EffectiveMemoryLimit limits in
  let plan :=
    if finite && (effectiveLimit =? 0)
    then set_memory plan (GOMEMLIMITBytes plan) "0B" (ConstrainingMemoryLimit limits)
    else plan in
  let effectiveLimit := RetainedMemoryLimit effectiveLimit (RetainedExecutableBytes limits) in
  if effectiveLimit >? 0 then
    match CalculateGOMEMLIMIT effectiveLimit ratio minHeadroomBytes with
    | Some memLimit =>
        let constraining := ConstrainingMemoryLimit limits in
        set_memory plan memLimit (Itoa memLimit ++ "B")
          (if String.eqb constraining LimitConstraintNone then LimitConstraintMax
           else constraining)
    | None => plan
    end
  else plan.

Definition plan_cpus `{GoFloat} (plan : TuningPlan) (limits : Limits) : TuningPlan :=
  if CPUs limits >? 0 then set_procs plan (CPUs limits) (Itoa (CPUs limits))
  else if flt fzero (CPUQuota limits) then
    match CalculateGOMAXPROCS (CPUQuota limits) with
    | Some cpus => set_procs plan cpus (Itoa cpus)
    | None => plan
    end
  else plan.

Definition ResolveTuningPlanWithProfile {GU : GoUnicode} `{GoFloat} (limits : Limits)
    (envRatioStr : string) (defaultRatio : float64) (minHeadroomBytes : Z) (profile : GCProfile)
    (liveHeapEstimateBytes : Z) : TuningPlan :=
  let ratio := resolveTuningRatio envRatioStr defaultRatio profile in
  let minHeadroomBytes :=
    if minHeadroomBytes <=? 0 then DefaultMinHeadroomBytes else minHeadroomBytes in
  let plan := mkPlan 0 "" "" 0 "" ratio 0 "" profile false "" in
  let plan := plan_memory plan limits ratio minHeadroomBytes in
  let plan := plan_cpus plan limits in
  applyProfileGOGC plan profile liveHeapEstimateBytes.

Definition ResolveTuningPlan {GU : GoUnicode} `{GoFloat} (limits : Limits) (envRatioStr : string)
    (defaultRatio : float64) (minHeadroomBytes : Z) : TuningPlan :=
  ResolveTuningPlanWithProfile limits envRatioStr defaultRatio minHeadroomBytes
    GCProfileDefault 0.

(** ** CPU policy *)

Definition CPUPolicyStatic : string := "static".
Definition CPUPolicyNative : string := "native".

(** The loop over the environment value and the fallback. *)
Fixpoint first_cpu_policy {GU : GoUnicode} (values : list string) : string :=
  match values with
  | [] => CPUPolicyStatic
  | value :: values =>
      let policy := ToLower (TrimSpace value) in
      if String.eqb policy CPUPolicyStatic || String.eqb policy CPUPolicyNative
      then policy else first_cpu_policy values
  end.

Definition ResolveCPUPolicy {GU : GoUnicode} (envValue fallback : string) : string :=
  first_cpu_policy [envValue; fallback].

Definition ApplyCPUPolicy (p : TuningPlan) (policy : string) : TuningPlan :=
  if String.eqb policy CPUPolicyNative then set_procs p 0 "" else p.

(** ** Lemmas *)

(** The finite boundaries of a [Limits] value, with their names. *)
Definition boundaries (l : Limits) : list (Z * string) :=
  (if HasMemoryLimit l then [(MemoryLimitBytes l, LimitConstraintMax)] else []) ++
  (if HasMemoryHigh l then [(MemoryHighBytes l, LimitConstraintHigh)] else []).

(** The fields hold values of their types, and what is not finite is zero. *)
Definition limits_wf (l : Limits) : Prop :=
  0 <= MemoryLimitBytes l <= MaxInt64 /\ 0 <= MemoryHighBytes l <= MaxInt64.

Lemma effective_none l :
  limits_wf l -> EffectiveMemoryLimitBytes l = 0 -> boundaries l = [] ->
  EffectiveMemoryLimit l = (0, false) /\ ConstrainingMemoryLimit l = LimitConstraintNone.
Proof.
  intros Hwf He. unfold boundaries, EffectiveMemoryLimit, ConstrainingMemoryLimit.
  destruct (HasMemoryLimit l) eqn:E1; [done|]. destruct (HasMemoryHigh l) eqn:E2; [done|].
  intros _. rewrite He. cbn. unfold HasMemoryLimit, HasMemoryHigh in *.
  rewrite orb_false_iff in E1, E2. destruct E1 as [_ E1], E2 as [_ E2].
  unfold CalculateEffectiveMemoryLimit. by rewrite E1, E2.
Qed.

Ltac boundary_member :=
  rewrite ?elem_of_cons; solve [left; f_equal; lia | right; left; f_equal; lia].

Lemma effective_some l :
  limits_wf l -> EffectiveMemoryLimitBytes l = 0 -> boundaries l <> [] ->
  exists b, EffectiveMemoryLimit l = (b, true) /\
    (b, ConstrainingMemoryLimit l) ∈ boundaries l /\
    forall b' n, (b', n) ∈ boundaries l -> b <= b'.
Proof.
  intros [H1 H2] He. unfold boundaries, EffectiveMemoryLimit, ConstrainingMemoryLimit.
  unfold CalculateEffectiveMemoryLimit, HasMemoryLimit, HasMemoryHigh. rewrite He.
  destruct (MemoryLimitFinite l), (MemoryHighFinite l),
    (Z.gtb_spec (MemoryLimitBytes l) 0), (Z.gtb_spec (MemoryHighBytes l) 0),
    (Z.eqb_spec (MemoryLimitBytes l) 0), (Z.eqb_spec (MemoryHighBytes l) 0);
    cbn; try lia; try done; intros _;
    destruct (Z.ltb_spec (MemoryHighBytes l) (MemoryLimitBytes l)); cbn; try lia;
    (eexists; split; [reflexivity|]; split; [boundary_member|]);
    intros b' name; rewrite ?elem_of_cons, elem_of_nil; intros Hin;
    destruct_or? Hin; try done; simplify_eq; lia.
Qed.

(** What stays outside the budget. *)
Definition headroom (minHeadroomBytes : Z) : Z :=
  if minHeadroomBytes <=? 0 then DefaultMinHeadroomBytes else minHeadroomBytes.

Section Lemmas.
Context `{GoFloat}.

(** The budget leaves the headroom, or half of a small container, free. *)
Lemma gomemlimit_bounds limitBytes ratio minHeadroomBytes b :
  CalculateGOMEMLIMIT limitBytes ratio minHeadroomBytes = Some b ->
  0 < b < limitBytes /\ limitBytes < UnlimitedCgroupV1MemoryThreshold /\
  Z.min (headroom minHeadroomBytes) (limitBytes - limitBytes / 2) <= limitBytes - b.
Proof.
  unfold CalculateGOMEMLIMIT, headroom, smallContainerHeadroomDivisor. intros Hb.
  destruct (_ || _) eqn:E in Hb; [done|].
  rewrite orb_false_iff, Z.leb_gt, Z.geb_leb, Z.leb_gt in E.
  unfold UnlimitedCgroupV1MemoryThreshold in *. set (r := int_floor _) in Hb.
  set (h := if minHeadroomBytes <=? 0 then _ else _) in *.
  assert (0 < h) by (unfold h, DefaultMinHeadroomBytes; destruct (Z.leb_spec minHeadroomBytes 0); lia).
  pose proof (Z.div_mod limitBytes 2 ltac:(lia)). pose proof (Z.mod_pos_bound limitBytes 2 ltac:(lia)).
  unfold i64_sub in Hb. rewrite (to_int64_small (limitBytes - limitBytes / 2)) in Hb by int_range.
  rewrite to_int64_small in Hb by int_range.
  destruct (Z.leb_spec (Z.min r (limitBytes - Z.min h (limitBytes - limitBytes / 2))) 0); [done|].
  injection Hb as <-. lia.
Qed.

(** When there is a budget. *)
Lemma gomemlimit_some limitBytes ratio minHeadroomBytes :
  2 <= limitBytes < UnlimitedCgroupV1MemoryThreshold ->
  0 < int_floor (fmul (float_of_int limitBytes)
        (if bad_ratio ratio then DefaultMemoryRatio else ratio)) ->
  is_Some (CalculateGOMEMLIMIT limitBytes ratio minHeadroomBytes).
Proof.
  unfold CalculateGOMEMLIMIT, smallContainerHeadroomDivisor, UnlimitedCgroupV1MemoryThreshold.
  intros Hl Hr. rewrite (proj2 (orb_false_iff _ _))
    by (rewrite Z.leb_gt, Z.geb_leb, Z.leb_gt; lia).
  set (r := int_floor _) in *.
  set (h := if minHeadroomBytes <=? 0 then _ else _) in *.
  assert (0 < h) by (unfold h, DefaultMinHeadroomBytes; destruct (Z.leb_spec minHeadroomBytes 0); lia).
  pose proof (Z.div_mod limitBytes 2 ltac:(lia)). pose proof (Z.mod_pos_bound limitBytes 2 ltac:(lia)).
  unfold i64_sub. rewrite (to_int64_small (limitBytes - limitBytes / 2)) by int_range.
  rewrite to_int64_small by int_range. rewrite (proj2 (Z.leb_gt _ _)) by lia. eauto.
Qed.

Lemma flt_finite x y vx vy :
  decode x = Some vx -> decode y = Some vy -> flt x y = false -> compare_values vx vy <> Lt.
Proof.
  unfold flt. intros Hx Hy. rewrite bool_decide_eq_false. intros Hn E. apply Hn.
  destruct x, y; cbn in Hx, Hy |- *; try done; simplify_eq; cbn; by rewrite E.
Qed.

Lemma decode_10 : decode (float_of_int 10) = Some (5629499534213120, -49).
Proof. vm_compute. reflexivity. Qed.
Lemma decode_100 : decode (float_of_int 100) = Some (7036874417766400, -46).
Proof. vm_compute. reflexivity. Qed.

(** A number that was clamped to 10 and 100 rounds to an integer between. *)
Lemma clamped_round x :
  IsNaN x = false -> flt x (float_of_int 10) = false -> flt (float_of_int 100) x = false ->
  10 <= int_round x <= 100.
Proof.
  intros Hn H1 H2. destruct (decode x) as [v|] eqn:Ev.
  - apply (flt_finite _ _ _ _ Ev decode_10) in H1.
    apply (flt_finite _ _ _ _ decode_100 Ev) in H2.
    assert (10 <= round_value v <= 100) as Hr.
    { apply round_value_bounds; [lia| |].
      - eapply not_below_int; [|done]. split; done.
      - eapply not_above_int; [|done]. split; done. }
    unfold int_round, int_by. rewrite Ev. rewrite (proj2 (andb_true_iff _ _)); [done|].
    rewrite Z.leb_le, Z.ltb_lt. lia.
  - by destruct x as [|[]| |].
Qed.
End Lemmas.

Section Theorems.
Context {GU : GoUnicode} `{GoFloat}.

Lemma adaptive_bounds available live :
  0 < available <= MaxInt64 -> 0 < live <= MaxInt64 ->
  exists g, CalculateAdaptiveGOGC available live = Some g /\ 10 <= g <= 100.
Proof.
  intros Ha Hl. unfold CalculateAdaptiveGOGC, AdaptiveMinGOGC, AdaptiveMaxGOGC.
  rewrite (proj2 (orb_false_iff _ _)) by (rewrite !Z.leb_gt; lia).
  eexists. split; [reflexivity|]. unfold MaxInt64 in *.
  assert (IsNaN (fmul (fsub (fdiv (float_of_int available) (float_of_int live)) float_one)
    adaptiveScaleMultiplier) = false) as Hn.
  { apply scaled_quotient_not_nan; apply float_of_int_positive; lia. }
  set (x := fmul _ _) in *. clearbody x.
  set (y := if flt x (float_of_int 10) then float_of_int 10 else x).
  assert (IsNaN y = false /\ flt y (float_of_int 10) = false) as [Hy1 Hy2].
  { unfold y. by destruct (flt x (float_of_int 10)) eqn:E. }
  clearbody y. destruct (flt (float_of_int 100) y) eqn:E; by apply clamped_round.
Qed.

(** The memory part of a plan. *)
Lemma plan_memory_cases plan limits ratio minHeadroomBytes :
  let plan' := plan_memory plan limits ratio minHeadroomBytes in
  let usable := RetainedMemoryLimit (EffectiveMemoryLimit limits).1
                  (RetainedExecutableBytes limits) in
  plan_GCProfile plan' = plan_GCProfile plan /\ GOGC plan' = GOGC plan /\
  ((GOMEMLIMITBytes plan' = GOMEMLIMITBytes plan) \/
   (CalculateGOMEMLIMIT usable ratio minHeadroomBytes = Some (GOMEMLIMITBytes plan') /\
    GOMEMLIMITStr plan' = (Itoa (GOMEMLIMITBytes plan') ++ "B")%string)).
Proof.
  unfold plan_memory. destruct (EffectiveMemoryLimit limits) as [e fin]. cbn [fst].
  set (u := RetainedMemoryLimit _ _). destruct (u >? 0).
  - destruct (CalculateGOMEMLIMIT u ratio minHeadroomBytes) as [b|] eqn:Eb;
      destruct (fin && (e =? 0)); cbn; auto.
  - destruct (fin && (e =? 0)); cbn; auto.
Qed.

Lemma plan_cpus_memory plan limits :
  GOMEMLIMITBytes (plan_cpus plan limits) = GOMEMLIMITBytes plan /\
  GOMEMLIMITStr (plan_cpus plan limits) = GOMEMLIMITStr plan /\
  GOGC (plan_cpus plan limits) = GOGC plan /\
  plan_GCProfile (plan_cpus plan limits) = plan_GCProfile plan.
Proof. unfold plan_cpus. by repeat case_match. Qed.

Lemma apply_profile_memory plan profile live :
  GOMEMLIMITBytes (applyProfileGOGC plan profile live) = GOMEMLIMITBytes plan /\
  GOMEMLIMITStr (applyProfileGOGC plan profile live) = GOMEMLIMITStr plan.
Proof. unfold applyProfileGOGC, ResolveBatchGOGC. by repeat case_match. Qed.

Lemma retained_limit limit retained :
  0 <= limit <= MaxInt64 -> 0 < RetainedMemoryLimit limit retained ->
  0 <= retained /\ RetainedMemoryLimit limit retained = limit - retained.
Proof.
  unfold RetainedMemoryLimit. intros Hl. destruct (_ || _) eqn:E; [done|].
  rewrite orb_false_iff, Z.ltb_ge, Z.geb_leb, Z.leb_gt in E. unfold i64_sub.
  rewrite to_int64_small by int_range. lia.
Qed.

Lemma effective_range limits :
  limits_wf limits -> 0 <= EffectiveMemoryLimitBytes limits <= MaxInt64 ->
  0 <= (EffectiveMemoryLimit limits).1 <= MaxInt64.
Proof.
  intros [? ?] ?. unfold EffectiveMemoryLimit, CalculateEffectiveMemoryLimit.
  repeat case_match; cbn; try done; unfold MaxInt64; lia.
Qed.

(** The effective ceiling is the least finite boundary and is named after it; without a
    finite boundary there is none. *)
Theorem EffectiveMemoryLimit_least (l : Limits) :
  limits_wf l -> EffectiveMemoryLimitBytes l = 0 ->
  (boundaries l = [] -> EffectiveMemoryLimit l = (0, false) /\
     ConstrainingMemoryLimit l = LimitConstraintNone) /\
  (boundaries l <> [] -> exists b, EffectiveMemoryLimit l = (b, true) /\
     (b, ConstrainingMemoryLimit l) ∈ boundaries l /\
     forall b' name, (b', name) ∈ boundaries l -> b <= b').
Proof. intros Hwf He. split; [by apply effective_none|by apply effective_some]. Qed.

(** A computed [GOMEMLIMIT] is positive, below the limit, and leaves the headroom free, or
    at least half of a container smaller than that. *)
Theorem CalculateGOMEMLIMIT_safe (limitBytes : Z) (ratio : float64) (minHeadroomBytes b : Z) :
  CalculateGOMEMLIMIT limitBytes ratio minHeadroomBytes = Some b ->
  0 < b < limitBytes /\ limitBytes < UnlimitedCgroupV1MemoryThreshold /\
  Z.min (headroom minHeadroomBytes) (limitBytes - limitBytes / 2) <= limitBytes - b.
Proof. apply gomemlimit_bounds. Qed.

(** The adaptive garbage-collection target is defined for every positive headroom and heap
    and stays between its clamps, whatever the rounding of the quotient. *)
Theorem CalculateAdaptiveGOGC_clamped (available live : Z) :
  0 < available <= MaxInt64 -> 0 < live <= MaxInt64 ->
  exists g, CalculateAdaptiveGOGC available live = Some g /\
    AdaptiveMinGOGC <= g <= AdaptiveMaxGOGC.
Proof. apply adaptive_bounds. Qed.

(** A quota that is a number above zero gives at least one processor, and no
    more than the quota when that is at least one. *)
Theorem CalculateGOMAXPROCS_floor (quota : float64) (v : Z * Z) :
  decode quota = Some v -> 0 < v.1 -> floor_value v < 2 ^ 63 ->
  CalculateGOMAXPROCS quota = Some (Z.max (floor_value v) 1).
Proof.
  intros Hd Hv Hr. unfold CalculateGOMAXPROCS, MinimumCPUs.
  assert (fle quota fzero = false) as ->.
  { unfold fle. destruct quota as [| | |[] m e]; cbn in Hd; simplify_eq; cbn in Hv; try lia.
    unfold fcompare, decode, compare_values. cbn [fst snd signed_mantissa fzero].
    rewrite Z.mul_0_l. rewrite (proj2 (Z.compare_gt_iff _ _)); [done|].
    apply Z.mul_pos_pos; [lia|]. apply Z.pow_pos_nonneg; lia. }
  assert (IsNaN quota = false /\ IsInf quota = false) as [-> ->].
  { by destruct quota. }
  assert (0 <= floor_value v).
  { unfold floor_value. destruct (Z.leb_spec 0 v.2); [lia|]. apply Z.div_pos; lia. }
  cbn [orb]. unfold int_floor, int_by. rewrite Hd.
  rewrite (proj2 (andb_true_iff _ _)); [done|]. rewrite Z.leb_le, Z.ltb_lt. lia.
Qed.

(** Where the memory limit of a plan comes from. *)
Lemma tuning_plan_memory limits envRatioStr defaultRatio minHeadroomBytes profile live :
  let plan := ResolveTuningPlanWithProfile limits envRatioStr defaultRatio minHeadroomBytes
                profile live in
  GOMEMLIMITBytes plan = 0 \/
  CalculateGOMEMLIMIT
    (RetainedMemoryLimit (EffectiveMemoryLimit limits).1 (RetainedExecutableBytes limits))
    (resolveTuningRatio envRatioStr defaultRatio profile) (headroom minHeadroomBytes) =
    Some (GOMEMLIMITBytes plan) /\
  GOMEMLIMITStr plan = (Itoa (GOMEMLIMITBytes plan) ++ "B")%string.
Proof.
  unfold ResolveTuningPlanWithProfile. cbv zeta. fold (headroom minHeadroomBytes).
  rewrite !(proj1 (apply_profile_memory _ _ _)), !(proj2 (apply_profile_memory _ _ _)).
  rewrite !(proj1 (plan_cpus_memory _ _)), !(proj1 (proj2 (plan_cpus_memory _ _))).
  match goal with |- context [plan_memory ?p ?l ?r ?h] =>
    destruct (plan_memory_cases p l r h) as (_ & _ & [E|[E1 E2]]) end; auto.
Qed.

(** The garbage collector is only turned off by the batch profile. *)
Lemma tuning_plan_gc_off limits envRatioStr defaultRatio minHeadroomBytes profile live :
  live <= MaxInt64 ->
  let plan := ResolveTuningPlanWithProfile limits envRatioStr defaultRatio minHeadroomBytes
                profile live in
  GOMEMLIMITBytes plan <= MaxInt64 ->
  GOGC plan = DefaultBatchETLGOGC ->
  profile = GCProfileBatchETL /\ GOGCStr plan = "off" /\ 0 < GOMEMLIMITBytes plan < MaxInt64.
Proof.
  intros Hl. unfold ResolveTuningPlanWithProfile. cbv zeta.
  rewrite !(proj1 (apply_profile_memory _ _ _)).
  set (q := plan_cpus _ _).
  assert (GOGC q = 0 /\ plan_GCProfile q = profile) as [Hq Hp].
  { unfold q. destruct (plan_cpus_memory (plan_memory
      (mkPlan 0 "" "" 0 "" (resolveTuningRatio envRatioStr defaultRatio profile) 0 "" profile false "")
      limits (resolveTuningRatio envRatioStr defaultRatio profile) (headroom minHeadroomBytes)) limits)
      as (_ & _ & E1 & E2). fold (headroom minHeadroomBytes). rewrite E1, E2.
    match goal with |- context [plan_memory ?p ?l ?r ?h] =>
      destruct (plan_memory_cases p l r h) as (E3 & E4 & _) end. by rewrite E3, E4. }
  clearbody q. intros Hb. unfold applyProfileGOGC, ResolveBatchGOGC.
  destruct (String.eqb_spec profile GCProfileLatencyCritical); [done|].
  destruct (String.eqb_spec profile GCProfileMemoryConstrained); [done|].
  destruct (String.eqb_spec profile GCProfileBatchETL) as [->|].
  - rewrite Hp, String.eqb_refl. cbn [negb]. destruct (_ || _) eqn:E; [done|].
    rewrite orb_false_iff, Z.leb_gt, Z.eqb_neq in E. cbn. intros _. split; [done|]. split; [done|]. lia.
  - destruct (String.eqb_spec profile GCProfileAdaptive); [|by rewrite Hq].
    destruct (_ && _) eqn:E; [|by rewrite Hq]. rewrite andb_true_iff, !Z.gtb_lt in E.
    destruct (adaptive_bounds (GOMEMLIMITBytes q) live) as (g & -> & Hg); [lia|lia|].
    cbn. unfold DefaultBatchETLGOGC. lia.
Qed.

(** C38. Whatever the limits, ratios and profile, a memory limit in the plan is positive, below
    the effective ceiling less what the executable retains, and is what the printed setting
    says. *)
Theorem ResolveTuningPlan_memory_safe (limits : Limits) (envRatioStr : string)
    (defaultRatio : float64) (minHeadroomBytes : Z) (profile : GCProfile) (live : Z) :
  limits_wf limits -> 0 <= EffectiveMemoryLimitBytes limits <= MaxInt64 ->
  let plan := ResolveTuningPlanWithProfile limits envRatioStr defaultRatio minHeadroomBytes
                profile live in
  GOMEMLIMITBytes plan <> 0 ->
  0 < GOMEMLIMITBytes plan < (EffectiveMemoryLimit limits).1 - RetainedExecutableBytes limits /\
  GOMEMLIMITStr plan = (Itoa (GOMEMLIMITBytes plan) ++ "B")%string.
Proof.
  intros Hwf He plan Hne. pose proof (effective_range limits Hwf He) as Hr.
  destruct (tuning_plan_memory limits envRatioStr defaultRatio minHeadroomBytes profile live)
    as [E|[E1 E2]]; [done|].
  apply gomemlimit_bounds in E1 as (Hb & _ & _). split; [|done].
  destruct (retained_limit (EffectiveMemoryLimit limits).1 (RetainedExecutableBytes limits))
    as [_ <-]; [done|lia|]. done.
Qed.

(** The collector is turned off only under a finite memory limit. *)
Theorem gc_off_needs_limit (limits : Limits) (envRatioStr : string) (defaultRatio : float64)
    (minHeadroomBytes : Z) (profile : GCProfile) (live : Z) :
  live <= MaxInt64 ->
  let plan := ResolveTuningPlanWithProfile limits envRatioStr defaultRatio minHeadroomBytes
                profile live in
  GOGC plan = DefaultBatchETLGOGC ->
  profile = GCProfileBatchETL /\ GOGCStr plan = "off" /\
  0 < GOMEMLIMITBytes plan < UnlimitedCgroupV1MemoryThreshold.
Proof.
  intros Hl plan Hg.
  destruct (tuning_plan_memory limits envRatioStr defaultRatio minHeadroomBytes profile live)
    as [E|[E1 _]].
  - exfalso. apply tuning_plan_gc_off in Hg as (_ & _ & Hx); [|done|by rewrite E].
    rewrite E in Hx. lia.
  - apply gomemlimit_bounds in E1 as (Hb & Ht & _).
    apply tuning_plan_gc_off in Hg as (? & ? & ?); [|done|].
    + split; [done|]. split; [done|]. unfold plan. lia.
    + unfold UnlimitedCgroupV1MemoryThreshold, MaxInt64 in *. lia.
Qed.

(** A finite boundary of zero bytes is never taken for an absent one. *)
Theorem zero_boundary_kept (limits : Limits) (envRatioStr : string) (defaultRatio : float64)
    (minHeadroomBytes : Z) (profile : GCProfile) (live : Z) :
  EffectiveMemoryLimit limits = (0, true) ->
  let plan := ResolveTuningPlanWithProfile limits envRatioStr defaultRatio minHeadroomBytes
                profile live in
  GOMEMLIMITStr plan = "0B" /\ GOMEMLIMITBytes plan = 0.
Proof.
  intros He. unfold ResolveTuningPlanWithProfile. cbv zeta.
  rewrite !(proj1 (apply_profile_memory _ _ _)), !(proj2 (apply_profile_memory _ _ _)).
  rewrite !(proj1 (plan_cpus_memory _ _)), !(proj1 (proj2 (plan_cpus_memory _ _))).
  unfold plan_memory. rewrite He. cbn [andb Z.eqb].
  unfold RetainedMemoryLimit. destruct (_ || _) eqn:E; [done|].
  rewrite orb_false_iff, Z.ltb_ge, Z.geb_leb, Z.leb_gt in E. lia.
Qed.

(** The CPU policy is one of the two, and a valid environment setting wins. *)
Theorem ResolveCPUPolicy_valid (envValue fallback : string) :
  (ResolveCPUPolicy envValue fallback = CPUPolicyStatic \/
   ResolveCPUPolicy envValue fallback = CPUPolicyNative) /\
  (forall p, ToLower (TrimSpace envValue) = p -> p = CPUPolicyStatic \/ p = CPUPolicyNative ->
     ResolveCPUPolicy envValue fallback = p).
Proof.
  unfold ResolveCPUPolicy. cbn [first_cpu_policy]. split.
  - destruct (String.eqb_spec (ToLower (TrimSpace envValue)) CPUPolicyStatic),
      (String.eqb_spec (ToLower (TrimSpace envValue)) CPUPolicyNative); cbn [orb]; auto.
    destruct (String.eqb_spec (ToLower (TrimSpace fallback)) CPUPolicyStatic),
      (String.eqb_spec (ToLower (TrimSpace fallback)) CPUPolicyNative); cbn [orb]; auto.
  - intros p -> Hp. rewrite (proj2 (orb_true_iff _ _)); [done|]. by rewrite !String.eqb_eq.
Qed.
End Theorems.

(** ** Concrete limits *)

(** One gigabyte, of which 768 MiB before the kernel throttles, on two CPUs. *)
Definition sample_limits : Limits :=
  mkLimits 0 VersionV2 1073741824 805306368 0 true true fzero 2.

Lemma sample_limits_wf : limits_wf sample_limits.
Proof. unfold limits_wf, MaxInt64. cbn. lia. Qed.

Lemma EffectiveMemoryLimit_least_witness :
  (boundaries sample_limits = [] -> EffectiveMemoryLimit sample_limits = (0, false) /\
     ConstrainingMemoryLimit sample_limits = LimitConstraintNone) /\
  (boundaries sample_limits <> [] -> exists b, EffectiveMemoryLimit sample_limits = (b, true) /\
     (b, ConstrainingMemoryLimit sample_limits) ∈ boundaries sample_limits /\
     forall b' name, (b', name) ∈ boundaries sample_limits -> b <= b').
Proof. apply EffectiveMemoryLimit_least; [exact sample_limits_wf|reflexivity]. Defined.

Lemma CalculateGOMEMLIMIT_safe_witness :
  let b := 966367641 in
  0 < b < 1073741824 /\ 1073741824 < UnlimitedCgroupV1MemoryThreshold /\
  Z.min (headroom 1048576) (1073741824 - 1073741824 / 2) <= 1073741824 - b.
Proof.
  apply (@CalculateGOMEMLIMIT_safe amd64_float 1073741824 DefaultMemoryRatio 1048576).
  vm_compute. reflexivity.
Defined.

Lemma CalculateAdaptiveGOGC_clamped_witness :
  exists g, @CalculateAdaptiveGOGC amd64_float 536870912 67108864 = Some g /\
    AdaptiveMinGOGC <= g <= AdaptiveMaxGOGC.
Proof. apply (@CalculateAdaptiveGOGC_clamped amd64_float); unfold MaxInt64; lia. Defined.

Lemma ResolveTuningPlan_memory_safe_witness :
  let plan := @ResolveTuningPlanWithProfile ascii_tables amd64_float sample_limits "" DefaultMemoryRatio
                1048576 GCProfileDefault 0 in
  0 < GOMEMLIMITBytes plan < (EffectiveMemoryLimit sample_limits).1 -
      RetainedExecutableBytes sample_limits /\
  GOMEMLIMITStr plan = (Itoa (GOMEMLIMITBytes plan) ++ "B")%string.
Proof.
  apply (@ResolveTuningPlan_memory_safe ascii_tables amd64_float).
  - exact sample_limits_wf.
  - unfold MaxInt64. cbn. lia.
  - vm_compute. discriminate.
Defined.

Lemma gc_off_needs_limit_witness :
  let plan := @ResolveTuningPlanWithProfile ascii_tables amd64_float sample_limits "" DefaultMemoryRatio
                1048576 GCProfileBatchETL 0 in
  GCProfileBatchETL = GCProfileBatchETL /\ GOGCStr plan = "off" /\
  0 < GOMEMLIMITBytes plan < UnlimitedCgroupV1MemoryThreshold.
Proof.
  apply (@gc_off_needs_limit ascii_tables amd64_float).
  - unfold MaxInt64. lia.
  - vm_compute. reflexivity.
Defined.
