(* ===== verification/CgroupHierarchy.v ===== *)
(** * Reading limits from the cgroup hierarchy ([internal/cgroup])

    [parseProcCgroup] and the line splitter of [proc.go], the readers of the
    limit files, the walks from a process's directory up to the mount, and
    [ReadLimitsCustom].  The file system is the class [FileSystem]; a walk is
    a loop with fuel, and running out of fuel is a [Panic] the theorems
    exclude. *)

From S2P Require Import Prelude GoStrings GoPath GoFloat CgroupSize CgroupTuning.
From stdpp Require Import base list strings gmap.
From Stdlib Require Import ZArith Lia Floats.SpecFloat Strings.Ascii.

Local Open Scope string_scope.
Local Open Scope Z_scope.

(** ** The file system *)

Inductive fs_err := NotExist | OtherFsError.

(** [os.Stat] answers or fails; [os.Open] gives the bytes of the file and
    whether reading them ends in an error. *)
Class FileSystem := {
  fs_stat : string -> option fs_err;
  fs_open : string -> sum fs_err (string * bool)
}.

Inductive cgroup_err :=
| ErrCgroupMountInaccessible
| ErrCgroupProcUnreadable
| ErrCgroupHierarchyNotFound
| ErrCgroupLimitCorrupted.

Definition defaultProcSelfCgroup : string := "/proc/self/cgroup".
Definition cgroupV2HierarchyID : string := "0".
Definition cgroupV2MemoryMax : string := "memory.max".
Definition cgroupV2MemoryHigh : string := "memory.high".

Definition newline : ascii := "010"%char.
Definition carriage_return : ascii := "013"%char.

(** [bufio.MaxScanTokenSize]: a longer line is an error. *)
Definition MaxScanTokenSize : nat := Z.to_nat 65536.

(** ** [bufio.Scanner] *)

(** [bytes.IndexByte] *)
Fixpoint IndexByte (data : string) (c : ascii) : option nat :=
  match data with
  | "" => None
  | String d data => if Ascii.eqb d c then Some O else S <$> IndexByte data c
  end.

(** The advance and the token; [None] asks for more data. *)
Definition ScanProcCgroupLine (data : string) (atEOF : bool) : nat * option string :=
  match IndexByte data newline with
  | Some i => ((i + 1)%nat, Some (stake i data))
  | None =>
      if atEOF && (0 <? String.length data)%nat then (String.length data, Some data)
      else (0%nat, None)
  end.

(** The tokens of a whole file, or [None] for [bufio.ErrTooLong]. *)
Fixpoint scan_records (fuel : nat) (data : string) : option (list string) :=
  match fuel with
  | O => Some []
  | S fuel =>
      match ScanProcCgroupLine data true with
      | (_, None) => Some []
      | (advance, Some token) =>
          if (MaxScanTokenSize <=? String.length token)%nat then None
          else cons token <$> scan_records fuel (sdrop advance data)
      end
  end.

(** The first token of [bufio.ScanLines], without a trailing CR. *)
Definition first_line (data : string) : option string :=
  let line := match IndexByte data newline with Some i => stake i data | None => data end in
  if (MaxScanTokenSize <=? String.length line)%nat then None
  else Some (TrimSuffix line (String carriage_return "")).

Section Readers.
Context {GU : GoUnicode} {FS : FileSystem} {GF : GoFloat}.

Definition exists_path (path : string) : bool :=
  match fs_stat path with None => true | Some _ => false end.

Definition readTrimmedFile (path : string) : outcome fs_err string :=
  match fs_open (filepath_Clean path) with
  | inl e => Err e
  | inr (data, _) =>
      if String.eqb data "" then Err OtherFsError
      else match first_line data with
           | Some line => Ok (TrimSpace line)
           | None => Err OtherFsError
           end
  end.

(** ** [/proc/self/cgroup] *)

Record ProcCgroup := mkProc { v2Path : string; hasV2 : bool; v1Paths : gmap string string }.

Definition add_controllers (controllers relPath : string) (paths : gmap string string) :
    gmap string string :=
  foldl (fun m ctrl =>
    let trimmedCtrl := TrimSpace ctrl in
    if String.eqb trimmedCtrl "" then m else <[trimmedCtrl := relPath]> m)
    paths (Split controllers ",").

(** One record: the state, and whether it was an entry. *)
Definition parse_record (st : ProcCgroup * bool) (line : string) : ProcCgroup * bool :=
  let '(p, hasEntries) := st in
  if String.eqb (TrimSpace line) "" || HasPrefix (TrimSpace line) "#" then st else
  match SplitN line ":" 2 with
  | [id; ctrls; relPath] =>
      let hierarchyID := TrimSpace id in
      let controllers := TrimSpace ctrls in
      if String.eqb hierarchyID cgroupV2HierarchyID && String.eqb controllers ""
      then (mkProc relPath true (v1Paths p), true)
      else (mkProc (v2Path p) (hasV2 p) (add_controllers controllers relPath (v1Paths p)), true)
  | _ => st
  end.

(** [None] is an error, which the caller wraps. *)
Definition parseProcCgroup (procPath : string) : option ProcCgroup :=
  let targetPath := if String.eqb procPath "" then defaultProcSelfCgroup else procPath in
  match fs_open (filepath_Clean targetPath) with
  | inl _ => None
  | inr (data, failed) =>
      match scan_records (S (String.length data)) data with
      | None => None
      | Some lines =>
          let '(p, hasEntries) := foldl parse_record (mkProc "" false ∅, false) lines in
          if failed then None else if hasEntries then Some p else None
      end
  end.

(** ** Directories *)

Definition isSubpath (root path : string) : bool :=
  if String.eqb root path || String.eqb root "/" then true
  else HasPrefix path (root ++ "/").

Definition resolveTargetDirectory (baseDir relPath : string) : outcome cgroup_err string :=
  if String.eqb relPath "" then Err ErrCgroupHierarchyNotFound
  else if String.eqb relPath "/" || String.eqb relPath "." then Ok baseDir
  else
    let candidate := filepath_Join [baseDir; filepath_Clean ("/" ++ relPath)] in
    if negb (isSubpath baseDir candidate) then Err ErrCgroupHierarchyNotFound
    else if negb (exists_path candidate) then Err ErrCgroupHierarchyNotFound
    else Ok candidate.

(** ** Limit files: a finite value, none, or an error *)

Definition readCgroupV2MemoryValue (dir filename : string) : outcome cgroup_err (option Z) :=
  match readTrimmedFile (filepath_Join [dir; filename]) with
  | Err NotExist => Ok None
  | Err OtherFsError | Panic => Err ErrCgroupLimitCorrupted
  | Ok memBytes =>
      if String.eqb memBytes "max" then Ok None
      else if String.eqb memBytes "" then Err ErrCgroupLimitCorrupted
      else match ParseInt memBytes with
           | None => Err ErrCgroupLimitCorrupted
           | Some val => if val <? 0 then Err ErrCgroupLimitCorrupted else Ok (Some val)
           end
  end.

Definition readCgroupV2Memory (dir : string) := readCgroupV2MemoryValue dir cgroupV2MemoryMax.
Definition readCgroupV2MemoryHigh (dir : string) := readCgroupV2MemoryValue dir cgroupV2MemoryHigh.

(** A period, alone or under a quota. *)
Definition parse_positive (s : string) : option float64 :=
  match ParseFloat s with
  | Some x => if fle x fzero then None else Some x
  | None => None
  end.

Definition readCgroupV2CPU (dir : string) : outcome cgroup_err (option float64) :=
  match readTrimmedFile (filepath_Join [dir; "cpu.max"]) with
  | Err NotExist => Ok None
  | Err OtherFsError | Panic => Err ErrCgroupLimitCorrupted
  | Ok cpuContent =>
      if String.eqb cpuContent "" then Err ErrCgroupLimitCorrupted else
      match Fields cpuContent with
      | [quotaStr; periodStr] =>
          if String.eqb quotaStr "max" then
            match parse_positive periodStr with
            | Some _ => Ok None
            | None => Err ErrCgroupLimitCorrupted
            end
          else
            match parse_positive quotaStr, parse_positive periodStr with
            | Some quota, Some period => Ok (Some (fdiv quota period))
            | _, _ => Err ErrCgroupLimitCorrupted
            end
      | _ => Err ErrCgroupLimitCorrupted
      end
  end.

Definition readCgroupV1Memory (dir : string) : outcome cgroup_err (option Z) :=
  match readTrimmedFile (filepath_Join [dir; "memory.limit_in_bytes"]) with
  | Err NotExist => Ok None
  | Err OtherFsError | Panic => Err ErrCgroupLimitCorrupted
  | Ok memBytes =>
      if String.eqb memBytes "" then Err ErrCgroupLimitCorrupted
      else if String.eqb memBytes "-1" then Ok None
      else match ParseInt memBytes with
           | None => Err ErrCgroupLimitCorrupted
           | Some val =>
               if val <=? 0 then Err ErrCgroupLimitCorrupted
               else if val >=? UnlimitedCgroupV1MemoryThreshold then Ok None
               else Ok (Some val)
           end
  end.

Definition readCgroupV1CPU (dir : string) : outcome cgroup_err (option float64) :=
  match readTrimmedFile (filepath_Join [dir; "cpu.cfs_quota_us"]) with
  | Err NotExist => Ok None
  | Err OtherFsError | Panic => Err ErrCgroupLimitCorrupted
  | Ok quotaStr =>
      match readTrimmedFile (filepath_Join [dir; "cpu.cfs_period_us"]) with
      | Err NotExist => Ok None
      | Err OtherFsError | Panic => Err ErrCgroupLimitCorrupted
      | Ok periodStr =>
          if String.eqb quotaStr "-1" then
            match parse_positive periodStr with
            | Some _ => Ok None
            | None => Err ErrCgroupLimitCorrupted
            end
          else
            match parse_positive quotaStr, parse_positive periodStr with
            | Some quota, Some period => Ok (Some (fdiv quota period))
            | _, _ => Err ErrCgroupLimitCorrupted
            end
      end
  end.

(** ** Walking up to the mount *)

(** The loop all four traversals share: visit, stop at [root] or where the
    parent is the directory itself or lies outside, else go to the parent. *)
Fixpoint walk_up {A} (visit : A -> string -> outcome cgroup_err A) (root : string) (fuel : nat)
    (curr : string) (acc : A) : outcome cgroup_err A :=
  match fuel with
  | O => Panic
  | S fuel =>
      acc ← visit acc curr;
      if String.eqb curr root then Ok acc else
      let parent := filepath_Dir curr in
      if String.eqb parent curr || negb (isSubpath root parent) then Ok acc
      else walk_up visit root fuel parent acc
  end.

(** Every step shortens the path, so its length bounds the walk. *)
Definition walk_fuel (dir : string) : nat := S (S (S (String.length dir))).

(** [if ok { if !has || val < min { min = val; has = true } }] *)
Definition keep_min {A} (lt : A -> A -> bool) (acc val : option A) : option A :=
  match val with
  | None => acc
  | Some v =>
      match acc with
      | None => Some v
      | Some m => if lt v m then Some v else Some m
      end
  end.

Definition traverseCgroupV2Memory (targetDir root : string) :
    outcome cgroup_err (option Z * option Z) :=
  walk_up (fun acc curr =>
      maxVal ← readCgroupV2Memory curr;
      highVal ← readCgroupV2MemoryHigh curr;
      Ok (keep_min Z.ltb acc.1 maxVal, keep_min Z.ltb acc.2 highVal))
    root (walk_fuel targetDir) targetDir (None, None).

Definition traverseCgroupV2CPU (targetDir root : string) : outcome cgroup_err (option float64) :=
  walk_up (fun acc curr => q ← readCgroupV2CPU curr; Ok (keep_min flt acc q))
    root (walk_fuel targetDir) targetDir None.

Definition traverseCgroupV1Memory (memBaseDir targetMemDir : string) :
    outcome cgroup_err (option Z) :=
  walk_up (fun acc curr => v ← readCgroupV1Memory curr; Ok (keep_min Z.ltb acc v))
    memBaseDir (walk_fuel targetMemDir) targetMemDir None.

Definition traverseCgroupV1CPU (cpuBaseDir targetCPUDir : string) :
    outcome cgroup_err (option float64) :=
  walk_up (fun acc curr => q ← readCgroupV1CPU curr; Ok (keep_min flt acc q))
    cpuBaseDir (walk_fuel targetCPUDir) targetCPUDir None.

(** ** Limits of a hierarchy *)

Definition no_limits (version : Z) : Limits := mkLimits 0 version 0 0 0 false false fzero 0.

Definition with_memory (l : Limits) (maxVal highVal : option Z) : Limits :=
  mkLimits (RetainedExecutableBytes l) (CgroupVersion l)
    (default (MemoryLimitBytes l) maxVal) (default (MemoryHighBytes l) highVal)
    (EffectiveMemoryLimitBytes l)
    (MemoryLimitFinite l || bool_decide (is_Some maxVal))
    (MemoryHighFinite l || bool_decide (is_Some highVal)) (CPUQuota l) (CPUs l).

Definition with_effective (l : Limits) (effective : Z) : Limits :=
  mkLimits (RetainedExecutableBytes l) (CgroupVersion l) (MemoryLimitBytes l) (MemoryHighBytes l)
    effective (MemoryLimitFinite l) (MemoryHighFinite l) (CPUQuota l) (CPUs l).

(** [if hasCPU && minQuota > 0 { ... }] *)
Definition with_quota (l : Limits) (quota : option float64) : Limits :=
  match quota with
  | Some q =>
      if flt fzero q then
        mkLimits (RetainedExecutableBytes l) (CgroupVersion l) (MemoryLimitBytes l)
          (MemoryHighBytes l) (EffectiveMemoryLimitBytes l) (MemoryLimitFinite l)
          (MemoryHighFinite l) q (default (CPUs l) (CalculateGOMAXPROCS q))
      else l
  | None => l
  end.

Definition readCgroupV2 (root relPath : string) : outcome cgroup_err Limits :=
  targetDir ← resolveTargetDirectory root relPath;
  '(minMem, minHigh) ← traverseCgroupV2Memory targetDir root;
  let limits := with_memory (no_limits VersionV2) minMem minHigh in
  let limits := with_effective limits (EffectiveMemoryLimit limits).1 in
  quota ← traverseCgroupV2CPU targetDir root;
  Ok (with_quota limits quota).

Definition resolveCgroupV1MemBase (root : string) : string :=
  let memBaseDir := filepath_Join [root; "memory"] in
  if exists_path memBaseDir then memBaseDir
  else if exists_path (filepath_Join [root; "memory.limit_in_bytes"]) then root
  else memBaseDir.

Definition resolveCgroupV1CPUBase (root : string) : string :=
  let cpuBaseDir := filepath_Join [root; "cpu"] in
  if exists_path cpuBaseDir then cpuBaseDir else
  let cpuAcctDir := filepath_Join [root; "cpu,cpuacct"] in
  if exists_path cpuAcctDir then cpuAcctDir
  else if exists_path (filepath_Join [root; "cpu.cfs_quota_us"]) then root
  else cpuBaseDir.

Definition cgroupV1ControllerAvailable (base : string) : bool :=
  match fs_stat base with Some NotExist => false | _ => true end.

(** The memory part of [readCgroupV1]. *)
Definition v1_memory (root : string) (memRelPath : option string) (limits : Limits) :
    outcome cgroup_err Limits :=
  let memBaseDir := resolveCgroupV1MemBase root in
  match memRelPath with
  | Some rel =>
      if negb (String.eqb rel "") && cgroupV1ControllerAvailable memBaseDir then
        targetMemDir ← resolveTargetDirectory memBaseDir rel;
        minMem ← traverseCgroupV1Memory memBaseDir targetMemDir;
        match minMem with
        | Some m => Ok (with_effective (with_memory limits (Some m) None) m)
        | None => Ok limits
        end
      else Ok limits
  | None => Ok limits
  end.

(** The CPU part. *)
Definition v1_cpu (root : string) (cpuRelPath : option string) (limits : Limits) :
    outcome cgroup_err Limits :=
  let cpuBaseDir := resolveCgroupV1CPUBase root in
  match cpuRelPath with
  | Some rel =>
      if negb (String.eqb rel "") && cgroupV1ControllerAvailable cpuBaseDir then
        targetCPUDir ← resolveTargetDirectory cpuBaseDir rel;
        quota ← traverseCgroupV1CPU cpuBaseDir targetCPUDir;
        Ok (with_quota limits quota)
      else Ok limits
  | None => Ok limits
  end.

Definition readCgroupV1 (root : string) (v1RelPaths : gmap string string) :
    outcome cgroup_err Limits :=
  let memRelPath := v1RelPaths !! "memory" in
  let cpuRelPath :=
    match v1RelPaths !! "cpu" with
    | Some path => Some path
    | None => v1RelPaths !! "cpu,cpuacct"
    end in
  if negb (bool_decide (is_Some memRelPath)) && negb (bool_decide (is_Some cpuRelPath))
  then Ok (no_limits VersionUnknown)
  else
    limits ← v1_memory root memRelPath (no_limits VersionV1);
    v1_cpu root cpuRelPath limits.

Definition ReadLimitsCustom (root procCgroupPath : string) : outcome cgroup_err Limits :=
  let cleanRoot := filepath_Clean root in
  if negb (exists_path cleanRoot) then Err ErrCgroupMountInaccessible else
  match parseProcCgroup procCgroupPath with
  | None => Err ErrCgroupProcUnreadable
  | Some p =>
      let v2 := exists_path (filepath_Join [cleanRoot; cgroupV2MemoryMax]) ||
                exists_path (filepath_Join [cleanRoot; cgroupV2MemoryHigh]) ||
                exists_path (filepath_Join [cleanRoot; "cgroup.controllers"]) in
      let v1 := exists_path (filepath_Join [cleanRoot; "memory"; "memory.limit_in_bytes"]) ||
                exists_path (filepath_Join [cleanRoot; "memory.limit_in_bytes"]) ||
                exists_path (filepath_Join [resolveCgroupV1CPUBase cleanRoot; "cpu.cfs_quota_us"]) in
      if v2 then if hasV2 p then readCgroupV2 cleanRoot (v2Path p) else Ok (no_limits VersionUnknown)
      else if v1 then readCgroupV1 cleanRoot (v1Paths p)
      else Ok (no_limits VersionUnknown)
  end.

Definition ReadLimitsFrom (root : string) : outcome cgroup_err Limits :=
  ReadLimitsCustom root defaultProcSelfCgroup.
Definition ReadLimits : outcome cgroup_err Limits :=
  ReadLimitsCustom "/sys/fs/cgroup" defaultProcSelfCgroup.
End Readers.

(** ** The walk *)

Section WalkLemmas.
Context {A : Type} (visit : A -> string -> outcome cgroup_err A).

(** Visiting a list of directories in order. *)
Fixpoint visit_all (dirs : list string) (acc : A) : outcome cgroup_err A :=
  match dirs with
  | [] => Ok acc
  | d :: dirs => acc ← visit acc d; visit_all dirs acc
  end.

(** The fuel is enough: the walk never runs out of it. *)
Lemma walk_up_total root fuel curr acc :
  (forall acc d, visit acc d <> Panic) -> (String.length curr + 2 <= fuel)%nat ->
  walk_up visit root fuel curr acc <> Panic.
Proof.
  intros Hv. revert curr acc. induction fuel as [|fuel IH]; intros curr acc Hf; [lia|].
  cbn [walk_up]. apply bind_not_panic; [apply Hv|]. intros acc' _.
  destruct (String.eqb curr root); [done|].
  destruct (String.eqb_spec (filepath_Dir curr) curr) as [|Hne]; [done|]. cbn [orb].
  destruct (negb _); [done|].
  destruct (Dir_shrinks curr) as [E|[Hlt|[Hle Hfix]]]; [done|by apply IH; lia|].
  destruct fuel as [|fuel]; [lia|]. cbn [walk_up]. apply bind_not_panic; [apply Hv|].
  intros acc'' _. rewrite Hfix. destruct (String.eqb _ root); [done|]. by rewrite String.eqb_refl.
Qed.

Lemma isSubpath_abs rs qs : isSubpath (abs_path rs) (abs_path (rs ++ qs)) = true.
Proof.
  unfold isSubpath. destruct (_ || _) eqn:E; [done|].
  rewrite orb_false_iff, !String.eqb_neq in E. destruct E as [E1 E2].
  destruct rs as [|r rs]; [done|]. destruct qs as [|q qs]; [by rewrite app_nil_r in E1|].
  unfold abs_path. rewrite join_app_r, <- !sapp_assoc. apply HasPrefix_app.
Qed.

(** On clean absolute paths the walk visits every ancestor, down from the
    directory and up to the root, both included. *)
Lemma walk_up_abs rs below fuel acc :
  Forall plain rs -> Forall plain below -> (length below < fuel)%nat ->
  walk_up visit (abs_path rs) fuel (abs_path (rs ++ rev below)) acc =
  visit_all (ancestors rs below) acc.
Proof.
  intros Hrs. revert fuel acc. induction below as [|b below IH]; intros fuel acc Hb Hf;
    (destruct fuel as [|fuel]; [cbn in Hf; lia|]); cbn [walk_up ancestors visit_all].
  - cbn [rev]. rewrite app_nil_r. destruct (visit acc (abs_path rs)); try done.
    cbn [mbind outcome_bind]. by rewrite String.eqb_refl.
  - inversion Hb as [|? ? Hpb Hbelow]; subst.
    destruct (visit acc _); try done. cbn [mbind outcome_bind].
    rewrite (proj2 (String.eqb_neq _ _)).
    2:{ intros E. symmetry in E. apply abs_path_inj_app in E; [|by apply Forall_rev].
        apply (f_equal length) in E. rewrite length_rev in E. done. }
    cbn [rev]. rewrite app_assoc, Dir_abs_path; [|by apply Forall_app; split; [|apply Forall_rev]|done].
    rewrite (proj2 (String.eqb_neq _ _)) by (by apply abs_path_inj_snoc).
    rewrite isSubpath_abs. cbn [negb orb]. apply IH; [done|cbn in Hf; lia].
Qed.
End WalkLemmas.

(** ** The least value of a walk *)

Definition least (o : option Z) (l : list Z) : Prop :=
  match o with
  | None => l = []
  | Some m => m ∈ l /\ forall x, x ∈ l -> m <= x
  end.

(** Keeping the minimum of what was seen. *)
Lemma keep_min_least acc l v :
  least acc l -> least (keep_min Z.ltb acc v) (l ++ option_list v).
Proof.
  destruct v as [v|]; cbn [keep_min option_list]; [|by rewrite app_nil_r].
  destruct acc as [m|]; cbn [least].
  - intros [Hm Hle]. destruct (Z.ltb_spec v m); cbn [least].
    + split; [set_solver|]. intros x [Hx|Hx]%elem_of_app; [specialize (Hle x Hx); lia|].
      apply list_elem_of_singleton in Hx. lia.
    + split; [set_solver|]. intros x [Hx|Hx]%elem_of_app; [by apply Hle|].
      apply list_elem_of_singleton in Hx. lia.
  - intros ->. cbn. split; [set_solver|]. intros x Hx%list_elem_of_singleton. lia.
Qed.

(** The finite values among a list of readings. *)
Definition finite_values (l : list (option Z)) : list Z := l ≫= option_list.

Lemma finite_values_cons v l : finite_values (v :: l) = (option_list v ++ finite_values l)%list.
Proof. done. Qed.

Lemma mapM_cons_Ok {B} (read : string -> outcome cgroup_err B) d dirs v vals :
  read d = Ok v -> mapM read dirs = Ok vals -> mapM read (d :: dirs) = Ok (v :: vals).
Proof.
  intros Hd Hds.
  change (mapM read (d :: dirs)) with (y ← read d; k ← mapM read dirs; mret (y :: k)).
  rewrite Hd. cbn [mbind outcome_bind]. by rewrite Hds.
Qed.

(** One reading per directory. *)
Lemma visit_all_least (read : string -> outcome cgroup_err (option Z)) dirs acc seen r :
  least acc seen ->
  visit_all (fun acc curr => v ← read curr; Ok (keep_min Z.ltb acc v)) dirs acc = Ok r ->
  exists vals, mapM read dirs = Ok vals /\ least r (seen ++ finite_values vals).
Proof.
  revert acc seen. induction dirs as [|d dirs IH]; intros acc seen Hl; cbn [visit_all].
  { intros [= <-]. exists []. cbn. by rewrite app_nil_r. }
  intros H. inv_bind H. inv_bind Ha. injection Ha as <-.
  apply (IH _ (seen ++ option_list a0)%list) in H as (vals & Hv & Hr); [|by apply keep_min_least].
  exists (a0 :: vals). split; [by apply mapM_cons_Ok|].
  by rewrite finite_values_cons, app_assoc.
Qed.

(** Two readings per directory. *)
Lemma visit_all_least2 (read1 read2 : string -> outcome cgroup_err (option Z)) dirs acc
    seen1 seen2 r :
  least acc.1 seen1 -> least acc.2 seen2 ->
  visit_all (fun acc curr => v ← read1 curr; w ← read2 curr;
               Ok (keep_min Z.ltb acc.1 v, keep_min Z.ltb acc.2 w)) dirs acc = Ok r ->
  exists vals1 vals2, mapM read1 dirs = Ok vals1 /\ mapM read2 dirs = Ok vals2 /\
    least r.1 (seen1 ++ finite_values vals1) /\ least r.2 (seen2 ++ finite_values vals2).
Proof.
  revert acc seen1 seen2. induction dirs as [|d dirs IH]; intros acc seen1 seen2 H1 H2;
    cbn [visit_all].
  { intros [= <-]. exists [], []. cbn. by rewrite !app_nil_r. }
  intros H. inv_bind H. inv_bind Ha. injection Ha as <-.
  apply (IH _ (seen1 ++ option_list a0)%list (seen2 ++ option_list a1)%list) in H
    as (vals1 & vals2 & Hv1 & Hv2 & Hr1 & Hr2); [|by apply keep_min_least..].
  exists (a0 :: vals1), (a1 :: vals2). rewrite !finite_values_cons, !app_assoc.
  split; [by apply mapM_cons_Ok|]. by split; [apply mapM_cons_Ok|].
Qed.

Lemma least_unique a b l : least a l -> least b l -> a = b.
Proof.
  destruct a as [a|], b as [b|]; cbn; [| | |done].
  - intros [Ha Hla] [Hb Hlb]. f_equal. apply Z.le_antisymm; auto.
  - intros [Ha _] ->. by apply elem_of_nil in Ha.
  - intros -> [Hb _]. by apply elem_of_nil in Hb.
Qed.

Lemma mapM_cons_inv {B} (read : string -> outcome cgroup_err B) d dirs vs :
  mapM read (d :: dirs) = Ok vs ->
  exists v vals, vs = v :: vals /\ read d = Ok v /\ mapM read dirs = Ok vals.
Proof.
  change (mapM read (d :: dirs)) with (y ← read d; k ← mapM read dirs; mret (y :: k)).
  intros H. inv_bind H. injection H as <-. eauto.
Qed.

(** The walk succeeds when every reading does. *)
Lemma visit_all_ok {B} (read1 read2 : string -> outcome cgroup_err (option Z))
    (add : B -> option Z -> option Z -> B) dirs vals1 vals2 acc :
  mapM read1 dirs = Ok vals1 -> mapM read2 dirs = Ok vals2 ->
  exists r, visit_all (fun acc curr => v ← read1 curr; w ← read2 curr; Ok (add acc v w)) dirs acc = Ok r.
Proof.
  revert vals1 vals2 acc. induction dirs as [|d dirs IH]; intros vals1 vals2 acc H1 H2; [by eexists|].
  apply mapM_cons_inv in H1 as (v1 & vs1 & -> & E1 & H1).
  apply mapM_cons_inv in H2 as (v2 & vs2 & -> & E2 & H2).
  cbn [visit_all]. rewrite E1. cbn [mbind outcome_bind]. rewrite E2. cbn [mbind outcome_bind].
  by eapply IH.
Qed.

Section HierarchyTheorems.
Context {GU : GoUnicode} {FS : FileSystem} {GF : GoFloat}.

Lemma readTrimmedFile_total path : readTrimmedFile path <> Panic.
Proof. unfold readTrimmedFile. by repeat case_match. Qed.

Lemma readCgroupV2MemoryValue_total dir filename : readCgroupV2MemoryValue dir filename <> Panic.
Proof. unfold readCgroupV2MemoryValue. by repeat case_match. Qed.

Lemma readCgroupV2CPU_total dir : readCgroupV2CPU dir <> Panic.
Proof. unfold readCgroupV2CPU. by repeat case_match. Qed.

Lemma readCgroupV1Memory_total dir : readCgroupV1Memory dir <> Panic.
Proof. unfold readCgroupV1Memory. by repeat case_match. Qed.

Lemma readCgroupV1CPU_total dir : readCgroupV1CPU dir <> Panic.
Proof. unfold readCgroupV1CPU. by repeat case_match. Qed.

Lemma traverse_total :
  (forall t r, traverseCgroupV2Memory t r <> Panic) /\
  (forall t r, traverseCgroupV2CPU t r <> Panic) /\
  (forall b t, traverseCgroupV1Memory b t <> Panic) /\
  (forall b t, traverseCgroupV1CPU b t <> Panic).
Proof.
  split_and!; intros a b; apply walk_up_total; unfold walk_fuel; try lia; intros acc d;
    repeat (apply bind_not_panic; [|intros ? _]); try done;
    first [apply readCgroupV2MemoryValue_total|apply readCgroupV2CPU_total
          |apply readCgroupV1Memory_total|apply readCgroupV1CPU_total].
Qed.

Lemma resolveTargetDirectory_total b r : resolveTargetDirectory b r <> Panic.
Proof. unfold resolveTargetDirectory. by repeat case_match. Qed.


Lemma fuel_covers rs below :
  (length below < walk_fuel (abs_path (rs ++ rev below)))%nat.
Proof.
  unfold walk_fuel. rewrite length_abs_path. unfold path_weight.
  rewrite sum_list_with_app. rewrite <- (length_rev below).
  assert (length (rev below) <= sum_list_with (fun c => S (String.length c)) (rev below))%nat; [|lia].
  induction (rev below); cbn [length sum_list_with]; lia.
Qed.

(** *** Ranges *)

Definition in_range (o : option Z) : Prop := forall v, o = Some v -> 0 <= v <= MaxInt64.

Lemma ParseInt_range s v : ParseInt s = Some v -> int64_range v.
Proof.
  unfold ParseInt. destruct (match s with "" => _ | String _ _ => _ end) as [neg body] eqn:E.
  clear E. unfold dec_val. destruct (String.eqb body ""); [done|].
  assert (forall b acc w, 0 <= acc -> dec_val_aux b acc = Some w -> 0 <= w) as Hpos.
  { induction b as [|c b IH]; intros acc w Ha; cbn [dec_val_aux]; [by intros [= <-]|].
    destruct (is_digit c) eqn:Ec; [|done]. apply digit_val_range in Ec. apply IH. lia. }
  destruct (dec_val_aux body 0) as [w|] eqn:Ew; [|done].
  apply Hpos in Ew; [|lia]. unfold int64_range.
  destruct neg; [destruct (Z.leb_spec w (2 ^ 63))|destruct (Z.ltb_spec w (2 ^ 63))];
    intros; simplify_eq; lia.
Qed.

Lemma readCgroupV2MemoryValue_range dir f o : readCgroupV2MemoryValue dir f = Ok o -> in_range o.
Proof.
  unfold readCgroupV2MemoryValue. intros Ho v ->.
  repeat (case_match; try done). simplify_eq.
  match goal with H : ParseInt _ = Some _ |- _ => apply ParseInt_range in H end.
  match goal with H : (_ <? 0) = false |- _ => apply Z.ltb_ge in H end. int_range.
Qed.

Lemma readCgroupV1Memory_range dir o : readCgroupV1Memory dir = Ok o -> in_range o.
Proof.
  unfold readCgroupV1Memory. intros Ho v ->.
  repeat (case_match; try done). simplify_eq.
  match goal with H : ParseInt _ = Some _ |- _ => apply ParseInt_range in H end.
  match goal with H : (_ <=? 0) = false |- _ => apply Z.leb_gt in H end. int_range.
Qed.

Lemma keep_min_range acc v : in_range acc -> in_range v -> in_range (keep_min Z.ltb acc v).
Proof. unfold keep_min, in_range. intros Ha Hv w. repeat case_match; naive_solver. Qed.

(** A property of the accumulator that every visit keeps. *)
Lemma walk_up_invariant {A} (P : A -> Prop) visit root fuel curr acc r :
  (forall acc d acc', P acc -> visit acc d = Ok acc' -> P acc') -> P acc ->
  walk_up visit root fuel curr acc = Ok r -> P r.
Proof.
  intros Hv. revert curr acc. induction fuel as [|fuel IH]; intros curr acc Ha; [done|].
  cbn [walk_up]. intros H. inv_bind H. apply Hv in Ha0; [|done].
  repeat case_match; simplify_eq; eauto.
Qed.

Lemma no_limits_wf v : limits_wf (no_limits v) /\ 0 <= EffectiveMemoryLimitBytes (no_limits v) <= MaxInt64.
Proof. by unfold limits_wf, MaxInt64; cbn. Qed.

Lemma with_quota_fields l q :
  MemoryLimitBytes (with_quota l q) = MemoryLimitBytes l /\
  MemoryHighBytes (with_quota l q) = MemoryHighBytes l /\
  EffectiveMemoryLimitBytes (with_quota l q) = EffectiveMemoryLimitBytes l.
Proof. unfold with_quota. by repeat case_match. Qed.

Lemma with_quota_wf l q :
  limits_wf l /\ 0 <= EffectiveMemoryLimitBytes l <= MaxInt64 ->
  limits_wf (with_quota l q) /\ 0 <= EffectiveMemoryLimitBytes (with_quota l q) <= MaxInt64.
Proof. unfold limits_wf. by destruct (with_quota_fields l q) as (-> & -> & ->). Qed.

Lemma default_range o : in_range o -> 0 <= default 0 o <= MaxInt64.
Proof. intros H. destruct o as [v|]; [by apply H|by unfold MaxInt64]. Qed.

Lemma readCgroupV2_wf root rel l :
  readCgroupV2 root rel = Ok l -> limits_wf l /\ 0 <= EffectiveMemoryLimitBytes l <= MaxInt64.
Proof.
  unfold readCgroupV2. intros H. inv_bind H. destruct a0 as [mx hi]. inv_bind H.
  injection H as <-. apply with_quota_wf.
  assert (in_range mx /\ in_range hi) as [Hmx Hhi].
  { apply (walk_up_invariant (fun r => in_range r.1 /\ in_range r.2)) in Ha0; [done| |done].
    intros acc d acc' [H1 H2] Hv. inv_bind Hv. injection Hv as <-. cbn.
    split; apply keep_min_range; try done; by eapply readCgroupV2MemoryValue_range. }
  set (m := with_memory _ _ _).
  assert (limits_wf m) as Hwf by (split; cbn; by apply default_range).
  split; [done|]. cbn. apply effective_range; [done|]. by unfold MaxInt64; cbn.
Qed.

Lemma readCgroupV1_wf root paths l :
  readCgroupV1 root paths = Ok l -> limits_wf l /\ 0 <= EffectiveMemoryLimitBytes l <= MaxInt64.
Proof.
  unfold readCgroupV1. destruct (_ && _); [intros [= <-]; apply no_limits_wf|].
  intros H. inv_bind H. assert (limits_wf a /\ 0 <= EffectiveMemoryLimitBytes a <= MaxInt64) as Hw.
  { clear H. unfold v1_memory in Ha. repeat case_match; simplify_eq; try apply no_limits_wf.
    inv_bind Ha. case_match; simplify_eq; [|apply no_limits_wf].
    assert (in_range (Some z)) as Hz.
    { apply (walk_up_invariant in_range) in Ha1; [done| |done].
      intros acc d acc' H1 Hv. inv_bind Hv. injection Hv as <-.
      apply keep_min_range; [done|]. by eapply readCgroupV1Memory_range. }
    specialize (Hz z eq_refl). unfold limits_wf, MaxInt64 in *. cbn. lia. }
  unfold v1_cpu in H. repeat case_match; simplify_eq; try done;
    inv_bind H; injection H as <-; by apply with_quota_wf.
Qed.

(** In a unified hierarchy the walk succeeds exactly when both files of every directory
    from the process's own up to the mount can be read, and the limits are then the least of
    their finite values; without one there is no limit. *)
Theorem traverseCgroupV2Memory_least (rs below : list string) (mx hi : option Z) :
  Forall plain rs -> Forall plain below ->
  traverseCgroupV2Memory (abs_path (rs ++ rev below)) (abs_path rs) = Ok (mx, hi) <->
  exists maxs highs,
    mapM readCgroupV2Memory (ancestors rs below) = Ok maxs /\
    mapM readCgroupV2MemoryHigh (ancestors rs below) = Ok highs /\
    least mx (finite_values maxs) /\ least hi (finite_values highs).
Proof.
  intros Hrs Hb. unfold traverseCgroupV2Memory.
  rewrite walk_up_abs by (done || apply fuel_covers). split.
  - intros H. apply (visit_all_least2 _ _ _ (None, None) [] []) in H; [exact H|done|done].
  - intros (maxs & highs & H1 & H2 & L1 & L2).
    destruct (visit_all_ok _ _ (fun acc v w => (keep_min Z.ltb acc.1 v, keep_min Z.ltb acc.2 w))
      _ _ _ (None, None) H1 H2) as [r Hr]. rewrite Hr. destruct r as [mx' hi'].
    apply (visit_all_least2 _ _ _ (None, None) [] []) in Hr
      as (maxs' & highs' & H1' & H2' & L1' & L2'); [|done|done].
    rewrite H1 in H1'. rewrite H2 in H2'. injection H1' as <-. injection H2' as <-.
    cbn [fst snd] in L1', L2'. rewrite app_nil_l in L1', L2'.
    by rewrite (least_unique _ _ _ L1 L1'), (least_unique _ _ _ L2 L2').
Qed.

(** The same for the memory controller of a version 1 hierarchy. *)
Theorem traverseCgroupV1Memory_least (rs below : list string) (m : option Z) :
  Forall plain rs -> Forall plain below ->
  traverseCgroupV1Memory (abs_path rs) (abs_path (rs ++ rev below)) = Ok m <->
  exists vals, mapM readCgroupV1Memory (ancestors rs below) = Ok vals /\
    least m (finite_values vals).
Proof.
  intros Hrs Hb. unfold traverseCgroupV1Memory.
  rewrite walk_up_abs by (done || apply fuel_covers). split.
  - intros H. by apply (visit_all_least _ _ None []) in H.
  - intros (vals & Hv & L).
    assert (exists r, visit_all (fun acc curr => v ← readCgroupV1Memory curr;
      Ok (keep_min Z.ltb acc v)) (ancestors rs below) None = Ok r) as [r Hr].
    { clear L. revert vals Hv. generalize (@None Z). induction (ancestors rs below) as [|d ds IH];
        intros acc vals Hv; [by eexists|].
      apply mapM_cons_inv in Hv as (v & vs & -> & E & Hv). cbn [visit_all]. rewrite E.
      cbn [mbind outcome_bind]. by eapply IH. }
    rewrite Hr. apply (visit_all_least _ _ None []) in Hr as (vals' & Hv' & L'); [|done].
    rewrite Hv in Hv'. injection Hv' as <-. cbn in L'. by rewrite (least_unique _ _ _ L L').
Qed.

(** C40. Whatever the files hold, the limits that come back are in range, so the tuning plan can
    rely on them. *)
Theorem ReadLimitsCustom_wf (root procCgroupPath : string) (l : Limits) :
  ReadLimitsCustom root procCgroupPath = Ok l ->
  limits_wf l /\ 0 <= EffectiveMemoryLimitBytes l <= MaxInt64.
Proof.
  unfold ReadLimitsCustom. destruct (negb _); [done|].
  destruct (parseProcCgroup procCgroupPath) as [p|]; [|done].
  repeat case_match; try (by intros [= <-]; apply no_limits_wf).
  - apply readCgroupV2_wf.
  - apply readCgroupV1_wf.
Qed.
End HierarchyTheorems.

(** ** A concrete hierarchy *)

Definition nl : string := String newline "".

(** A unified hierarchy with a limit on the slice and a smaller one on the pod,
    and beside it a version 1 controller. *)
Definition sample_files : list (string * string) :=
  [("/proc/self/cgroup", "0::/slice/pod" ++ nl);
   ("/sys/fs/cgroup/cgroup.controllers", "cpu memory" ++ nl);
   ("/sys/fs/cgroup/slice/memory.max", "2147483648" ++ nl);
   ("/sys/fs/cgroup/slice/pod/memory.max", "1073741824" ++ nl);
   ("/sys/fs/cgroup/slice/pod/memory.high", "max" ++ nl);
   ("/v1/memory/job/memory.limit_in_bytes", "4096" ++ nl)].

Definition sample_fs : FileSystem := {|
  fs_stat := fun p =>
    if String.eqb p "/sys/fs/cgroup" || existsb (fun f => String.eqb p f.1) sample_files ||
       String.eqb p "/sys/fs/cgroup/slice/pod"
    then None else Some NotExist;
  fs_open := fun p =>
    match find (fun f => String.eqb p f.1) sample_files with
    | Some f => inr (f.2, false)
    | None => inl NotExist
    end
|}.

Lemma plain_by_computation c :
  negb (String.eqb c "") && negb (String.eqb c ".") && negb (String.eqb c "..") &&
  bool_decide (Split c slash = [c]) = true -> plain c.
Proof.
  rewrite !andb_true_iff, !negb_true_iff, !String.eqb_neq, bool_decide_eq_true.
  unfold plain. tauto.
Qed.

Lemma traverseCgroupV2Memory_least_witness :
  @traverseCgroupV2Memory ascii_tables sample_fs
    (abs_path (["sys"; "fs"; "cgroup"] ++ rev ["pod"; "slice"])%list)
    (abs_path ["sys"; "fs"; "cgroup"]) = Ok (Some 1073741824, None) <->
  exists maxs highs,
    mapM (@readCgroupV2Memory ascii_tables sample_fs)
      (ancestors ["sys"; "fs"; "cgroup"] ["pod"; "slice"]) = Ok maxs /\
    mapM (@readCgroupV2MemoryHigh ascii_tables sample_fs)
      (ancestors ["sys"; "fs"; "cgroup"] ["pod"; "slice"]) = Ok highs /\
    least (Some 1073741824) (finite_values maxs) /\ least None (finite_values highs).
Proof.
  apply (@traverseCgroupV2Memory_least ascii_tables sample_fs).
  - repeat constructor; apply plain_by_computation; vm_compute; reflexivity.
  - repeat constructor; apply plain_by_computation; vm_compute; reflexivity.
Defined.

Lemma traverseCgroupV1Memory_least_witness :
  @traverseCgroupV1Memory ascii_tables sample_fs (abs_path ["v1"; "memory"])
    (abs_path (["v1"; "memory"] ++ rev ["job"])%list) = Ok (Some 4096) <->
  exists vals, mapM (@readCgroupV1Memory ascii_tables sample_fs)
      (ancestors ["v1"; "memory"] ["job"]) = Ok vals /\
    least (Some 4096) (finite_values vals).
Proof.
  apply (@traverseCgroupV1Memory_least ascii_tables sample_fs).
  - repeat constructor; apply plain_by_computation; vm_compute; reflexivity.
  - repeat constructor; apply plain_by_computation; vm_compute; reflexivity.
Defined.

Definition sample_read : outcome cgroup_err Limits :=
  @ReadLimitsCustom ascii_tables sample_fs amd64_float "/sys/fs/cgroup/" "".


Definition sample_pod_limits : Limits :=
  mkLimits 0 VersionV2 1073741824 0 1073741824 true false fzero 0.

Lemma ReadLimitsCustom_wf_witness :
  limits_wf sample_pod_limits /\ 0 <= EffectiveMemoryLimitBytes sample_pod_limits <= MaxInt64.
Proof.
  apply (@ReadLimitsCustom_wf ascii_tables sample_fs amd64_float "/sys/fs/cgroup/" "").
  vm_compute. reflexivity.
Defined.
