(* ===== verification/Codec.v ===== *)
(** * Compression codecs ([internal/codec])

    The bounded writer every decompressor writes through, the [Decompress]
    methods, the registry and [ResolveCompression] (from [codec.go], [none.go],
    [lz4.go], [zstd.go]), and the admission of concurrent encoders (from
    [admission.go]).  The LZ4 and Zstandard libraries are not part of the
    repository: a decoder is a function from its input to the chunks it
    delivers and whether it ends in an error. *)

From S2P Require Import Prelude GoStrings GoFloat GoIO CgroupTuning CgroupHierarchy.
From stdpp Require Import base list strings gmap.
From Stdlib Require Import ZArith Lia Strings.Byte Strings.Ascii.

Local Open Scope string_scope.
Local Open Scope Z_scope.

Definition AlgorithmZstd : string := "zstd".
Definition AlgorithmLZ4 : string := "lz4".
Definition AlgorithmNone : string := "none".
Definition ProfileLatency : string := "latency".
Definition ProfileBalanced : string := "balanced".
Definition ProfileSize : string := "size".
Definition DefaultLatencyUncompressedThreshold : Z := 512 * 1024.
Definition DefaultMaxPayloadSize : Z := 1024 * 1024 * 1024.

Inductive codec_err :=
| ErrUnsupportedCodec
| ErrUnsupportedProfile
| ErrInvalidCompressionLevel
| ErrDecompressionFailed
| ErrSizeMismatch
| ErrCompressWrite      (* "writing uncompressed payload" *)
| ErrSamples.           (* the refusals of [TrainDictionary] *)

(** ** The bounded writer *)

Record boundedWriter (W : Type) := mkBounded { bw_w : W; bw_limit : Z; bw_written : Z }.
Arguments mkBounded {W}.
Arguments bw_w {W}.
Arguments bw_limit {W}.
Arguments bw_written {W}.

Definition newBoundedWriter {W} (w : W) (limit : Z) : boundedWriter W :=
  let limit := if (limit <? 0) || (limit >? DefaultMaxPayloadSize)
               then DefaultMaxPayloadSize else limit in
  mkBounded w limit 0.

(** What a write through the bound reports. *)
Inductive write_err := WriteOk | SizeMismatch | UnderlyingFailed.

Definition bounded_Write `{Writer W} (bw : boundedWriter W) (p : list byte) :
    boundedWriter W * nat * write_err :=
  if (length p =? 0)%nat then (bw, 0%nat, WriteOk) else
  let remaining := i64_sub (bw_limit bw) (bw_written bw) in
  if remaining <=? 0 then (bw, 0%nat, SizeMismatch) else
  if Z.of_nat (length p) >? remaining then
    let allowed := Z.to_nat remaining in
    let '(w, n, failed) := Write (bw_w bw) (take allowed p) in
    let bw := mkBounded w (bw_limit bw) (i64_add (bw_written bw) (Z.of_nat n)) in
    if failed : bool then (bw, n, UnderlyingFailed) else (bw, n, SizeMismatch)
  else
    let '(w, n, failed) := Write (bw_w bw) p in
    let bw := mkBounded w (bw_limit bw) (i64_add (bw_written bw) (Z.of_nat n)) in
    (bw, n, if failed : bool then UnderlyingFailed else WriteOk).

(** ** Decompression *)

(** What a reader delivers: chunks, then the end or an error. *)
Record stream := mkStream { chunks : list (list byte); ends_in_error : bool }.

Inductive copy_err := CopyOk | CopyMismatch | CopyFailed.

(** [io.Copy(bw, reader)]: each chunk is written; a write error, a short write
    or the reader's error ends it. *)
Fixpoint copy_stream `{Writer W} (bw : boundedWriter W) (cs : list (list byte)) (fails : bool) :
    boundedWriter W * copy_err :=
  match cs with
  | [] => (bw, if fails then CopyFailed else CopyOk)
  | c :: cs =>
      match bounded_Write bw c with
      | (bw, n, SizeMismatch) => (bw, CopyMismatch)
      | (bw, n, UnderlyingFailed) => (bw, CopyFailed)
      | (bw, n, WriteOk) =>
          if (n =? length c)%nat then copy_stream bw cs fails else (bw, CopyFailed)
      end
  end.

(** The body the three [Decompress] methods share: the writer as it is left
    and what is returned.  [None] for the stream is a reader that cannot be
    set up. *)
Definition decompress `{Writer W} (w : W) (s : option stream) (uncompressedSize : Z) :
    W * outcome codec_err unit :=
  if uncompressedSize <? 0 then (w, Err ErrSizeMismatch)
  else if uncompressedSize >? DefaultMaxPayloadSize then (w, Err ErrSizeMismatch)
  else
    match s with
    | None => (w, Err ErrDecompressionFailed)
    | Some s =>
        let bw := newBoundedWriter w uncompressedSize in
        match copy_stream bw (chunks s) (ends_in_error s) with
        | (bw, CopyMismatch) => (bw_w bw, Err ErrSizeMismatch)
        | (bw, CopyFailed) => (bw_w bw, Err ErrDecompressionFailed)
        | (bw, CopyOk) =>
            if negb (bw_written bw =? uncompressedSize) then (bw_w bw, Err ErrSizeMismatch)
            else (bw_w bw, Ok ())
        end
    end.

(** The libraries: an LZ4 reader, and a Zstandard reader that takes an optional
    dictionary and may refuse it. *)
Class Decoders := {
  lz4_reader : stream -> stream;
  zstd_reader : stream -> list byte -> option stream
}.

Section Decompress.
Context `{Writer W} {D : Decoders}.

Definition none_Compress (w : W) (src : list byte) : W * outcome codec_err unit :=
  match Write w src with
  | (w, _, true) => (w, Err ErrCompressWrite)
  | (w, _, false) => (w, Ok ())
  end.

Definition none_Decompress (w : W) (r : stream) (uncompressedSize : Z) :=
  decompress w (Some r) uncompressedSize.
Definition lz4_Decompress (w : W) (r : stream) (uncompressedSize : Z) :=
  decompress w (Some (lz4_reader r)) uncompressedSize.
Definition zstd_DecompressWithDict (w : W) (r : stream) (uncompressedSize : Z) (dict : list byte) :=
  decompress w (zstd_reader r dict) uncompressedSize.
Definition zstd_Decompress (w : W) (r : stream) (uncompressedSize : Z) :=
  zstd_DecompressWithDict w r uncompressedSize [].
End Decompress.

(** ** The registry *)

Inductive Codec := ZstdCodec | LZ4Codec | NoneCodec.

Global Instance Codec_eq_dec : EqDecision Codec.
Proof. solve_decision. Defined.

Definition codec_Name (c : Codec) : string :=
  match c with
  | ZstdCodec => AlgorithmZstd
  | LZ4Codec => AlgorithmLZ4
  | NoneCodec => AlgorithmNone
  end.

(** [c.(DictCodec)] *)
Definition is_dict_codec (c : Codec) : bool := match c with ZstdCodec => true | _ => false end.

Definition codec_Decompress `{Writer W} {D : Decoders} (c : Codec) (w : W) (r : stream)
    (uncompressedSize : Z) : W * outcome codec_err unit :=
  match c with
  | ZstdCodec => zstd_Decompress w r uncompressedSize
  | LZ4Codec => lz4_Decompress w r uncompressedSize
  | NoneCodec => none_Decompress w r uncompressedSize
  end.

Definition DecompressWithOptionalDict `{Writer W} {D : Decoders} (c : Codec) (w : W) (r : stream)
    (uncompressedSize : Z) (dict : list byte) : W * outcome codec_err unit :=
  if (0 <? length dict)%nat && is_dict_codec c
  then zstd_DecompressWithDict w r uncompressedSize dict
  else codec_Decompress c w r uncompressedSize.

Section Registry.
Context {GU : GoUnicode}.

Definition Register (registry : gmap string Codec) (c : Codec) : gmap string Codec :=
  <[ToLower (TrimSpace (codec_Name c)) := c]> registry.

Definition registry_init : gmap string Codec :=
  Register (Register (Register ∅ ZstdCodec) LZ4Codec) NoneCodec.

Definition Get (registry : gmap string Codec) (name : string) : outcome codec_err Codec :=
  let cleanName := ToLower (TrimSpace name) in
  let cleanName := if String.eqb cleanName "" then AlgorithmZstd else cleanName in
  match registry !! cleanName with
  | Some c => Ok c
  | None => Err ErrUnsupportedCodec
  end.

Definition ParseCompressionSpec (spec : string) : string * string :=
  let spec := TrimSpace spec in
  if String.eqb spec "" then ("", "") else
  match SplitN spec ":" 1 with
  | [a] => (ToLower (TrimSpace a), "")
  | a :: l :: _ => (ToLower (TrimSpace a), TrimSpace l)
  | [] => ("", "")
  end.

Definition ResolveCompression (registry : gmap string Codec) (profile algorithm level : string)
    (payloadSize : Z) : outcome codec_err (Codec * string) :=
  let profile := ToLower (TrimSpace profile) in
  let '(algo, specLevel) := ParseCompressionSpec algorithm in
  let level := TrimSpace level in
  let level := if negb (String.eqb specLevel "") && String.eqb level "" then specLevel else level in
  if negb (String.eqb profile "") && negb (String.eqb profile ProfileLatency) &&
     negb (String.eqb profile ProfileBalanced) && negb (String.eqb profile ProfileSize)
  then Err ErrUnsupportedProfile
  else
    let '(targetAlgo, targetLevel) :=
      if String.eqb profile ProfileLatency then
        (if String.eqb algo "" then
           if (payloadSize >? 0) && (payloadSize <? DefaultLatencyUncompressedThreshold)
           then AlgorithmNone else AlgorithmLZ4
         else algo, level)
      else
        let targetAlgo := if String.eqb algo "" then AlgorithmZstd else algo in
        (targetAlgo,
         if String.eqb level "" && String.eqb targetAlgo AlgorithmZstd
         then if String.eqb profile ProfileSize then "best" else "better"
         else level) in
    c ← Get registry targetAlgo;
    Ok (c, targetLevel).

Definition ParseLevelInt (level : string) (defaultVal : Z) : outcome codec_err Z :=
  let trimmed := TrimSpace level in
  if String.eqb trimmed "" then Ok defaultVal
  else match ParseInt trimmed with
       | Some v => Ok v
       | None => Err ErrInvalidCompressionLevel
       end.

(** The levels of the two libraries. *)
Inductive lz4_level := LZ4Fast | LZ4Level (n : nat).
Inductive zstd_level := SpeedFastest | SpeedDefault | SpeedBetterCompression | SpeedBestCompression.

Global Instance zstd_level_eq_dec : EqDecision zstd_level.
Proof. solve_decision. Defined.

Definition lz4Levels : list lz4_level := LZ4Fast :: (LZ4Level <$> seq 1 9).

Definition lz4_MapLevel (level : string) : outcome codec_err lz4_level :=
  let cleanLevel := ToLower (TrimSpace level) in
  if existsb (String.eqb cleanLevel) [""; "default"; "fast"; "fastest"] then Ok LZ4Fast
  else if String.eqb cleanLevel "better" then Ok (LZ4Level 5)
  else if existsb (String.eqb cleanLevel) ["best"; "max"] then Ok (LZ4Level 9)
  else
    num ← ParseLevelInt level 0;
    if num <=? 0 then Ok LZ4Fast
    else if num <? Z.of_nat (length lz4Levels) then go_index lz4Levels (Z.to_nat num)
    else Ok (LZ4Level 9).

Definition zstd_MapLevel (level : string) : outcome codec_err zstd_level :=
  let cleanLevel := ToLower (TrimSpace level) in
  if existsb (String.eqb cleanLevel) [""; "default"; "standard"] then Ok SpeedDefault
  else if existsb (String.eqb cleanLevel) ["fastest"; "fast"; "speed"] then Ok SpeedFastest
  else if String.eqb cleanLevel "better" then Ok SpeedBetterCompression
  else if existsb (String.eqb cleanLevel) ["best"; "max"] then Ok SpeedBestCompression
  else
    num ← ParseLevelInt level 0;
    if num <=? 1 then Ok SpeedFastest
    else if num =? 2 then Ok SpeedDefault
    else if (num >=? 3) && (num <=? 9) then Ok SpeedBetterCompression
    else Ok SpeedBestCompression.
End Registry.

(** ** Admission of concurrent encoders *)

Definition lz4DefaultBlockSize : Z := 4 * 1024 * 1024.
Definition maxLZ4BlockConcurrency : Z := 8.
Definition zstdFastestSingleBlockLimit : Z := 64 * 1024.
Definition zstdDefaultSingleBlockLimit : Z := 128 * 1024.
Definition zstdPipelineConcurrency : Z := 2.
Definition singleThreadConcurrency : Z := 1.
Definition lowMemorySingleThreadCeiling : Z := 256 * 1024 * 1024.
Definition lz4HeadroomReserveBytes : Z := 64 * 1024 * 1024.
Definition lz4BytesPerWorker : Z := 16 * 1024 * 1024.

Record codecResources := mkResources {
  effectiveCPUs : Z;
  memoryBytes : Z;
  hasMemoryCap : bool
}.

Record zstdEncodePlan := mkZstdPlan { singleShot : bool; concurrency : Z }.

(** [limits] is what [readLimits] returns, [None] for an error. *)
Definition resolveCodecResourcesWith (gomaxprocs goMemLimit : Z) (limits : option Limits) :
    codecResources :=
  let cpus := Z.max gomaxprocs MinimumCPUs in
  let '(memCap, hasMem) :=
    if (goMemLimit >=? 0) && (goMemLimit <? MaxInt64) then (goMemLimit, true) else (0, false) in
  match limits with
  | None => mkResources (Z.max cpus MinimumCPUs) memCap hasMem
  | Some limits =>
      let cpus := if (CPUs limits >? 0) && (CPUs limits <? cpus) then CPUs limits else cpus in
      let '(memCap, hasMem) :=
        match EffectiveMemoryLimit limits with
        | (cgMem, true) =>
            if negb hasMem || (cgMem <? memCap) then (cgMem, true) else (memCap, hasMem)
        | (_, false) => (memCap, hasMem)
        end in
      mkResources (Z.max cpus MinimumCPUs) memCap hasMem
  end.

Definition computeLZ4Concurrency (payloadLen : Z) (res : codecResources) : Z :=
  if (payloadLen <=? lz4DefaultBlockSize) || (effectiveCPUs res <=? singleThreadConcurrency)
  then singleThreadConcurrency
  else
    let finish (cpus : Z) :=
      let blocks := i64_sub (i64_add payloadLen lz4DefaultBlockSize) 1 / lz4DefaultBlockSize in
      Z.max (Z.min (Z.min cpus blocks) maxLZ4BlockConcurrency) singleThreadConcurrency in
    if hasMemoryCap res then
      if memoryBytes res <? lowMemorySingleThreadCeiling then singleThreadConcurrency
      else
        let avail := i64_sub (i64_sub (memoryBytes res) payloadLen) lz4HeadroomReserveBytes in
        if avail <? lz4BytesPerWorker then singleThreadConcurrency
        else finish (Z.min (effectiveCPUs res) (avail / lz4BytesPerWorker))
    else finish (effectiveCPUs res).

(** [runtime.GOMAXPROCS(0)] is [gomaxprocs]. *)
Definition resolveLZ4Concurrency (gomaxprocs payloadLen : Z) (res : codecResources) : Z :=
  if payloadLen <=? lz4DefaultBlockSize then singleThreadConcurrency
  else if gomaxprocs <=? singleThreadConcurrency then singleThreadConcurrency
  else computeLZ4Concurrency payloadLen res.

Definition LZ4EncoderWorkspaceBytes (payloadLen : Z) : Z :=
  if payloadLen <=? lz4DefaultBlockSize then lz4BytesPerWorker
  else
    let blocks := i64_add (i64_sub payloadLen 1 / lz4DefaultBlockSize) 1 in
    let inFlightBlocks := Z.min blocks (maxLZ4BlockConcurrency + 1) in
    i64_mul (i64_add inFlightBlocks 1) lz4BytesPerWorker.

Definition zstdSingleBlockLimit (level : zstd_level) : Z :=
  if bool_decide (level = SpeedFastest) then zstdFastestSingleBlockLimit
  else zstdDefaultSingleBlockLimit.

Definition computeZstdEncodePlan (payloadLen : Z) (level : zstd_level) (hasDict : bool)
    (res : codecResources) : zstdEncodePlan :=
  if payloadLen <=? 0 then mkZstdPlan false singleThreadConcurrency
  else if payloadLen <? zstdSingleBlockLimit level then mkZstdPlan true singleThreadConcurrency
  else if effectiveCPUs res <=? singleThreadConcurrency
  then mkZstdPlan false singleThreadConcurrency
  else if negb hasDict && hasMemoryCap res && (memoryBytes res <? lowMemorySingleThreadCeiling)
  then mkZstdPlan false singleThreadConcurrency
  else mkZstdPlan false zstdPipelineConcurrency.

Definition resolveZstdEncodePlan (gomaxprocs payloadLen : Z) (level : zstd_level) (hasDict : bool)
    (res : codecResources) : zstdEncodePlan :=
  let limit := zstdSingleBlockLimit level in
  if payloadLen =? 0 then mkZstdPlan false singleThreadConcurrency
  else if (payloadLen >? 0) && (payloadLen <? limit) then mkZstdPlan true singleThreadConcurrency
  else if gomaxprocs <=? singleThreadConcurrency then mkZstdPlan false singleThreadConcurrency
  else computeZstdEncodePlan payloadLen level hasDict res.

(** ** Dictionary training *)

Definition DefaultDictSize : Z := 112 * 1024.
Definition MaxDictSize : Z := 1024 * 1024.
Definition historySampleFractionDivisor : Z := 4.
Definition maxDictTrainingSampleSize : nat := Z.to_nat (128 * 1024).

(** The loop that fills the history buffer. *)
Fixpoint collect_history (maxHist : nat) (hist : list byte) (samples : list (list byte)) :
    list byte :=
  match samples with
  | [] => hist
  | s :: samples =>
      if (maxHist <=? length hist)%nat then hist
      else
        let remaining := (maxHist - length hist)%nat in
        collect_history maxHist
          (hist ++ (if (length s <=? remaining)%nat then s else take remaining s)) samples
  end.

(** The inner loop that splits one sample; each round takes a full block off. *)
Fixpoint split_sample (fuel : nat) (sample : list byte) : list (list byte) :=
  match fuel with
  | O => [sample]
  | S fuel =>
      if (maxDictTrainingSampleSize <? length sample)%nat
      then take maxDictTrainingSampleSize sample ::
           split_sample fuel (drop maxDictTrainingSampleSize sample)
      else [sample]
  end.

Definition training_samples (samples : list (list byte)) : list (list byte) :=
  samples ≫= (fun s => split_sample (length s) s).

(** The dictionary builder of the library. *)
Class DictBuilder := {
  BuildDict : list byte -> list (list byte) -> zstd_level -> option (list byte)
}.

Definition TrainDictionary {GU : GoUnicode} {DB : DictBuilder} (samples : list (list byte))
    (targetDictSize : Z) (level : string) : outcome codec_err (list byte) :=
  if (length samples =? 0)%nat then Err ErrSamples else
  let totalBytes := Z.of_nat (sum_list_with length samples) in
  if totalBytes <? 8 then Err ErrSamples else
  let targetDictSize := if targetDictSize <=? 0 then DefaultDictSize else targetDictSize in
  let targetDictSize := if targetDictSize >? MaxDictSize then MaxDictSize else targetDictSize in
  let maxHistBytes := Z.max (Z.min targetDictSize (totalBytes / historySampleFractionDivisor)) 8 in
  let hist := collect_history (Z.to_nat maxHistBytes) [] samples in
  if (length hist <? 8)%nat then Err ErrSamples else
  let encLevel := match zstd_MapLevel level with Ok l => l | _ => SpeedDefault end in
  match BuildDict hist (training_samples samples) encLevel with
  | Some dict => Ok dict
  | None => Err ErrSamples
  end.

(** ** The bound holds *)

Section BoundedLemmas.
Context `{Writer W}.

(** A bounded writer in use: the count is within the limit. *)
Definition bounded_ok (bw : boundedWriter W) : Prop :=
  0 <= bw_written bw <= bw_limit bw /\ bw_limit bw <= DefaultMaxPayloadSize.

Lemma newBoundedWriter_ok (w : W) limit : bounded_ok (newBoundedWriter w limit).
Proof.
  unfold bounded_ok, newBoundedWriter, DefaultMaxPayloadSize. cbn.
  destruct (_ || _) eqn:E; [lia|]. rewrite orb_false_iff, Z.ltb_ge, Z.gtb_ltb, Z.ltb_ge in E.
  unfold DefaultMaxPayloadSize in *. lia.
Qed.

Lemma bounded_Write_ok bw p bw' n e :
  bounded_ok bw -> bounded_Write bw p = (bw', n, e) ->
  bounded_ok bw' /\ bw_limit bw' = bw_limit bw /\
  bw_written bw' = bw_written bw + Z.of_nat n /\ (n <= length p)%nat.
Proof.
  intros [Hw Hl]. unfold bounded_Write, bounded_ok, DefaultMaxPayloadSize in *.
  unfold i64_sub, i64_add.
  destruct (Nat.eqb_spec (length p) 0); [intros [= <- <- <-]; lia|].
  rewrite (to_int64_small (bw_limit bw - bw_written bw)) by int_range.
  destruct (Z.leb_spec (bw_limit bw - bw_written bw) 0); [intros [= <- <- <-]; lia|].
  rewrite Z.gtb_ltb. destruct (Z.ltb_spec (bw_limit bw - bw_written bw) (Z.of_nat (length p))).
  - destruct (Write (bw_w bw) _) as [[w m] failed] eqn:Ew. apply Write_count in Ew.
    rewrite length_take in Ew.
    destruct failed; intros [= <- <- <-]; cbn; rewrite to_int64_small by int_range; lia.
  - destruct (Write (bw_w bw) p) as [[w m] failed] eqn:Ew. apply Write_count in Ew.
    intros [= <- <- <-]; cbn; rewrite to_int64_small by int_range; lia.
Qed.

(** A successful write took everything, and there was room for it. *)
Lemma bounded_Write_success bw p bw' n :
  bounded_ok bw -> bounded_Write bw p = (bw', n, WriteOk) ->
  n = length p /\ bw_written bw + Z.of_nat (length p) <= bw_limit bw.
Proof.
  intros [Hw Hl]. unfold bounded_Write, DefaultMaxPayloadSize in *. unfold i64_sub, i64_add.
  destruct (Nat.eqb_spec (length p) 0); [intros [= <- <-]; lia|].
  rewrite (to_int64_small (bw_limit bw - bw_written bw)) by int_range.
  destruct (Z.leb_spec (bw_limit bw - bw_written bw) 0); [done|].
  rewrite Z.gtb_ltb. destruct (Z.ltb_spec (bw_limit bw - bw_written bw) (Z.of_nat (length p))).
  - destruct (Write (bw_w bw) _) as [[w m] []]; done.
  - destruct (Write (bw_w bw) p) as [[w m] []] eqn:Ew; [done|]. apply Write_full in Ew.
    intros [= <- <-]. lia.
Qed.

Lemma copy_stream_ok bw cs fails bw' e :
  bounded_ok bw -> copy_stream bw cs fails = (bw', e) ->
  bounded_ok bw' /\ bw_limit bw' = bw_limit bw.
Proof.
  revert bw. induction cs as [|c cs IH]; intros bw Hok; cbn [copy_stream]; [by intros [= <- _]|].
  destruct (bounded_Write bw c) as [[bw1 n] we] eqn:Ew.
  apply bounded_Write_ok in Ew as (Hok1 & Hl1 & _); [|done].
  destruct we; [|by intros [= <- _]..]. destruct (n =? length c)%nat; [|by intros [= <- _]].
  intros Hc. apply IH in Hc as [? ?]; [|done]. split; [done|congruence].
Qed.

Lemma copy_stream_success bw cs fails bw' :
  bounded_ok bw -> copy_stream bw cs fails = (bw', CopyOk) ->
  fails = false /\ bw_written bw' = bw_written bw + Z.of_nat (length (concat cs)).
Proof.
  revert bw. induction cs as [|c cs IH]; intros bw Hok; cbn [copy_stream].
  { destruct fails; [done|]. intros [= <-]. cbn. lia. }
  destruct (bounded_Write bw c) as [[bw1 n] we] eqn:Ew. destruct we; try done.
  pose proof (bounded_Write_success _ _ _ _ Hok Ew) as [-> _].
  apply bounded_Write_ok in Ew as (Hok1 & _ & Hw1 & _); [|done].
  rewrite Nat.eqb_refl. intros Hc. apply IH in Hc as [-> Hw]; [|done]. split; [done|].
  cbn [concat]. rewrite length_app. lia.
Qed.
End BoundedLemmas.

(** ** Writing to a file in memory *)

(** A write through the bound appends what fits, and complains if something
    does not. *)
Lemma bounded_Write_file (bw : boundedWriter (list byte)) p :
  bounded_ok bw ->
  bounded_Write bw p =
  let room := Z.to_nat (bw_limit bw - bw_written bw) in
  let part := take room p in
  (mkBounded (bw_w bw ++ part)%list (bw_limit bw) (bw_written bw + Z.of_nat (length part)),
   length part, if (length p <=? room)%nat then WriteOk else SizeMismatch).
Proof.
  intros [Hw Hl]. unfold bounded_Write, DefaultMaxPayloadSize in *. unfold i64_sub, i64_add.
  destruct bw as [w limit written]. cbn [bw_w bw_limit bw_written] in *. cbv zeta.
  destruct (Nat.eqb_spec (length p) 0) as [E|E].
  { apply nil_length_inv in E as ->. rewrite take_nil, app_nil_r. cbn. by rewrite Z.add_0_r. }
  rewrite (to_int64_small (limit - written)) by int_range.
  destruct (Z.leb_spec (limit - written) 0).
  { replace (Z.to_nat (limit - written)) with 0%nat by lia. cbn. rewrite app_nil_r, Z.add_0_r.
    by rewrite (proj2 (Nat.leb_gt _ _)) by lia. }
  rewrite Z.gtb_ltb. cbn [Write file_writer]. unfold file_append.
  destruct (Z.ltb_spec (limit - written) (Z.of_nat (length p))).
  - rewrite to_int64_small by (rewrite length_take; int_range).
    by rewrite (proj2 (Nat.leb_gt _ _)) by lia.
  - rewrite to_int64_small by int_range.
    rewrite (firstn_all2 (n := Z.to_nat (limit - written)) p) by lia.
    by rewrite (proj2 (Nat.leb_le _ _)) by lia.
Qed.

(** Copying appends a prefix of the stream, all of it exactly when it fits. *)
Lemma copy_stream_file (bw : boundedWriter (list byte)) cs fails :
  bounded_ok bw ->
  let room := Z.to_nat (bw_limit bw - bw_written bw) in
  let part := take room (concat cs) in
  exists bw', bw_w bw' = (bw_w bw ++ part)%list /\
    bw_written bw' = bw_written bw + Z.of_nat (length part) /\
    copy_stream bw cs fails =
    (bw', if (length (concat cs) <=? room)%nat then if fails then CopyFailed else CopyOk
          else CopyMismatch).
Proof.
  revert bw. induction cs as [|c cs IH]; intros bw Hok.
  { exists bw. cbn. rewrite take_nil, app_nil_r, Z.add_0_r. done. }
  cbv zeta. cbn [copy_stream concat]. rewrite bounded_Write_file by done. cbv zeta.
  set (room := Z.to_nat (bw_limit bw - bw_written bw)). rewrite length_app.
  destruct (Nat.leb_spec (length c) room) as [Hfit|Hfit].
  - rewrite (firstn_all2 (n := room) c) by done. rewrite Nat.eqb_refl.
    assert (bounded_ok (mkBounded (bw_w bw ++ c)%list (bw_limit bw)
      (bw_written bw + Z.of_nat (length c)))) as Hok'.
    { destruct Hok as [? ?]. split; cbn; [|done]. unfold room in Hfit. lia. }
    destruct (IH _ Hok') as (bw' & Hw & Hn & Hc). cbn [bw_w bw_limit bw_written] in *.
    replace (Z.to_nat (bw_limit bw - (bw_written bw + Z.of_nat (length c))))
      with (room - length c)%nat in * by (unfold room; lia).
    exists bw'. rewrite take_app_ge by done. rewrite Hc. split; [by rewrite Hw, <- app_assoc|].
    rewrite length_app. split; [lia|].
    destruct (Nat.leb_spec (length (concat cs)) (room - length c)),
      (Nat.leb_spec (length c + length (concat cs)) room); try lia; done.
  - eexists. split; [|split].
    3:{ rewrite (proj2 (Nat.leb_gt _ _)) by lia. reflexivity. }
    + cbn. by rewrite take_app_le by lia.
    + cbn. by rewrite take_app_le by lia.
Qed.

Lemma decompress_file (w : list byte) (s : stream) (size : Z) :
  0 <= size <= DefaultMaxPayloadSize ->
  let data := concat (chunks s) in
  decompress w (Some s) size =
  ((w ++ take (Z.to_nat size) data)%list,
   if decide (ends_in_error s = false /\ Z.of_nat (length data) = size) then Ok ()
   else Err (if ends_in_error s && (Z.of_nat (length data) <=? size)
             then ErrDecompressionFailed else ErrSizeMismatch)).
Proof.
  intros Hs data. unfold decompress.
  rewrite (proj2 (Z.ltb_ge _ _)) by lia. rewrite Z.gtb_ltb, (proj2 (Z.ltb_ge _ _)) by lia.
  destruct (copy_stream_file (newBoundedWriter w size) (chunks s) (ends_in_error s)
    (newBoundedWriter_ok w size)) as (bw & Hw & Hn & Hc).
  rewrite Hc. clear Hc.
  assert (newBoundedWriter w size = mkBounded w size 0) as E.
  { unfold newBoundedWriter. rewrite (proj2 (orb_false_iff _ _)); [done|].
    rewrite Z.ltb_ge, Z.gtb_ltb, Z.ltb_ge. lia. }
  rewrite E in Hw, Hn |- *. cbn [bw_w bw_limit bw_written] in Hw, Hn |- *.
  fold data in Hw, Hn |- *. rewrite Z.sub_0_r in Hw, Hn |- *. rewrite Hw, Hn. clear Hw Hn E.
  destruct (Nat.leb_spec (length data) (Z.to_nat size)) as [Hle|Hgt].
  - destruct (ends_in_error s); cbn [andb].
    + rewrite decide_False by (by intros [? _]). by rewrite (proj2 (Z.leb_le _ _)) by lia.
    + rewrite firstn_all2 by done. destruct (Z.eqb_spec (0 + Z.of_nat (length data)) size).
      * by rewrite decide_True by (split; [done|lia]).
      * by rewrite decide_False by (intros [_ ?]; lia).
  - rewrite decide_False by (intros [_ ?]; lia).
    rewrite (proj2 (Z.leb_gt _ _)) by lia. by rewrite andb_false_r.
Qed.

(** ** Theorems *)

(** Whatever a decoder delivers and whatever writer is below, the bytes handed to it never
    exceed the declared size, nor the one-gigabyte ceiling. *)
Theorem decompression_bounded `{Writer W} (w : W) (s : stream) (limit : Z) bw e :
  copy_stream (newBoundedWriter w limit) (chunks s) (ends_in_error s) = (bw, e) ->
  0 <= bw_written bw <= DefaultMaxPayloadSize /\
  (0 <= limit <= DefaultMaxPayloadSize -> bw_written bw <= limit).
Proof.
  intros Hc. pose proof (newBoundedWriter_ok w limit) as Hok.
  apply copy_stream_ok in Hc as [Hok' Hl]; [|done].
  unfold bounded_ok in *. split; [lia|]. intros Hr. rewrite Hl in Hok'.
  unfold newBoundedWriter in Hok'. cbn in Hok'.
  rewrite (proj2 (orb_false_iff _ _)) in Hok'; [lia|].
  rewrite Z.ltb_ge, Z.gtb_ltb, Z.ltb_ge. lia.
Qed.

(** Decompression succeeds exactly when the stream ends cleanly with the declared number of
    bytes, and then the output is the stream; on every other stream the output is a prefix of it
    no longer than declared. *)
Theorem decompress_exact (w : list byte) (s : stream) (size : Z) :
  0 <= size <= DefaultMaxPayloadSize ->
  let data := concat (chunks s) in
  decompress w (Some s) size =
  ((w ++ take (Z.to_nat size) data)%list,
   if decide (ends_in_error s = false /\ Z.of_nat (length data) = size) then Ok ()
   else Err (if ends_in_error s && (Z.of_nat (length data) <=? size)
             then ErrDecompressionFailed else ErrSizeMismatch)).
Proof. apply decompress_file. Qed.

(** What [NoneCodec.Compress] writes, [NoneCodec.Decompress] reads back, in
    whatever chunks it arrives. *)
Theorem none_round_trip (src : list byte) (cs : list (list byte)) (out : list byte) :
  Z.of_nat (length src) <= DefaultMaxPayloadSize ->
  none_Compress [] src = (out, Ok ()) -> concat cs = out ->
  none_Decompress [] (mkStream cs false) (Z.of_nat (length src)) = (src, Ok ()).
Proof.
  intros Hl Ho Hc. cbn in Ho. injection Ho as <-. unfold none_Decompress.
  rewrite decompress_file by (unfold DefaultMaxPayloadSize in *; lia).
  cbn [chunks ends_in_error]. rewrite Hc, Nat2Z.id, firstn_all.
  by rewrite decide_True.
Qed.

(** Without an explicit algorithm the profile decides: small payloads stay uncompressed and
    others use LZ4 for latency, Zstandard otherwise, with the level of the profile unless one is
    given; an unknown profile is refused. *)
Theorem ResolveCompression_profiles {GU : GoUnicode} (profile algorithm level : string)
    (payloadSize : Z) :
  TrimSpace algorithm = "" ->
  let p := ToLower (TrimSpace profile) in
  let given := TrimSpace level in
  ResolveCompression registry_init profile algorithm level payloadSize =
  if String.eqb p ProfileLatency then
    Ok (if decide (0 < payloadSize < DefaultLatencyUncompressedThreshold)
        then NoneCodec else LZ4Codec, given)
  else if String.eqb p ProfileSize then
    Ok (ZstdCodec, if String.eqb given "" then "best" else given)
  else if String.eqb p "" || String.eqb p ProfileBalanced then
    Ok (ZstdCodec, if String.eqb given "" then "better" else given)
  else Err ErrUnsupportedProfile.
Proof.
  intros Ha p given. unfold ResolveCompression, ParseCompressionSpec. rewrite Ha. fold p given.
  cbn [String.eqb negb andb].
  destruct (String.eqb_spec p ProfileLatency) as [->|].
  { cbn [String.eqb negb andb ProfileLatency]. case_decide as Hd.
    - rewrite (proj2 (andb_true_iff _ _)) by (rewrite Z.gtb_lt, Z.ltb_lt; lia). reflexivity.
    - rewrite (proj2 (andb_false_iff _ _)) by (rewrite Z.gtb_ltb, !Z.ltb_ge; lia). reflexivity. }
  destruct (String.eqb_spec p ProfileSize) as [->|].
  { cbn. by destruct (String.eqb given ""). }
  destruct (String.eqb_spec p "") as [->|].
  { cbn. by destruct (String.eqb given ""). }
  destruct (String.eqb_spec p ProfileBalanced) as [->|].
  { cbn. by destruct (String.eqb given ""). }
  done.
Qed.

(** ** Admission *)

Lemma blocks_range payloadLen :
  lz4DefaultBlockSize < payloadLen <= 2 ^ 62 ->
  i64_sub (i64_add payloadLen lz4DefaultBlockSize) 1 / lz4DefaultBlockSize =
    (payloadLen - 1) / lz4DefaultBlockSize + 1 /\
  2 <= (payloadLen - 1) / lz4DefaultBlockSize + 1 <= payloadLen.
Proof.
  unfold lz4DefaultBlockSize. intros Hp. unfold i64_sub, i64_add.
  rewrite (to_int64_small (payloadLen + _)) by int_range. rewrite to_int64_small by int_range.
  replace (payloadLen + 4 * 1024 * 1024 - 1) with (payloadLen - 1 + 1 * (4 * 1024 * 1024)) by lia.
  rewrite Z.div_add by lia. split; [done|].
  assert (1 <= (payloadLen - 1) / (4 * 1024 * 1024)) by (apply Z.div_le_lower_bound; lia).
  assert ((payloadLen - 1) / (4 * 1024 * 1024) <= payloadLen - 1)
    by (apply Z.div_le_upper_bound; lia). lia.
Qed.

(** The number of concurrent LZ4 workers stays within the processors, the blocks, the fixed
    ceiling, and, under a memory limit, the memory left beside the payload and the reserve. *)
Theorem computeLZ4Concurrency_admitted (payloadLen : Z) (res : codecResources) :
  0 <= payloadLen <= 2 ^ 62 -> 0 <= memoryBytes res <= MaxInt64 ->
  let c := computeLZ4Concurrency payloadLen res in
  1 <= c <= maxLZ4BlockConcurrency /\
  (1 < c -> c <= effectiveCPUs res /\ c <= (payloadLen - 1) / lz4DefaultBlockSize + 1 /\
     (hasMemoryCap res = true ->
      payloadLen + lz4HeadroomReserveBytes + c * lz4BytesPerWorker <= memoryBytes res)).
Proof.
  intros Hp Hm. unfold computeLZ4Concurrency, singleThreadConcurrency, maxLZ4BlockConcurrency.
  destruct (_ || _) eqn:E1; [lia|].
  rewrite orb_false_iff, !Z.leb_gt in E1.
  destruct (blocks_range payloadLen) as [-> Hb]; [lia|].
  set (blocks := (payloadLen - 1) / lz4DefaultBlockSize + 1) in *.
  unfold lowMemorySingleThreadCeiling, lz4HeadroomReserveBytes, lz4BytesPerWorker in *.
  destruct (hasMemoryCap res); [|cbv zeta; split; [lia|intros; split; [lia|split; [lia|done]]]].
  destruct (Z.ltb_spec (memoryBytes res) (256 * 1024 * 1024)); [lia|].
  unfold i64_sub. rewrite (to_int64_small (memoryBytes res - payloadLen)) by int_range.
  rewrite to_int64_small by int_range.
  set (avail := memoryBytes res - payloadLen - 64 * 1024 * 1024).
  destruct (Z.ltb_spec avail (16 * 1024 * 1024)); [lia|].
  pose proof (Z.mul_div_le avail (16 * 1024 * 1024) ltac:(lia)).
  cbv zeta. split; [lia|]. intros Hc. split; [lia|]. split; [lia|]. intros _. lia.
Qed.

(** The workspace reserved for an LZ4 encoder covers the blocks it can have in
    flight at any concurrency the admission can choose. *)
Theorem LZ4EncoderWorkspace_covers (payloadLen : Z) (res : codecResources) :
  0 <= payloadLen <= 2 ^ 62 -> 0 <= memoryBytes res <= MaxInt64 ->
  let c := computeLZ4Concurrency payloadLen res in
  let blocks := (payloadLen - 1) / lz4DefaultBlockSize + 1 in
  lz4DefaultBlockSize < payloadLen ->
  (Z.min (c + 1) blocks + 1) * lz4BytesPerWorker <= LZ4EncoderWorkspaceBytes payloadLen.
Proof.
  intros Hp Hm c blocks Hlt.
  assert (c <= 8) as Hc.
  { unfold c, computeLZ4Concurrency, singleThreadConcurrency, maxLZ4BlockConcurrency.
    repeat case_match; lia. }
  clearbody c. unfold LZ4EncoderWorkspaceBytes. rewrite (proj2 (Z.leb_gt _ _)) by lia.
  destruct (blocks_range payloadLen) as [_ Hb]; [lia|]. fold blocks in Hb.
  unfold i64_sub, i64_mul, i64_add, maxLZ4BlockConcurrency, lz4BytesPerWorker.
  rewrite (to_int64_small (payloadLen - 1)) by int_range. fold blocks.
  rewrite (to_int64_small blocks) by int_range.
  rewrite (to_int64_small (_ + 1)) by int_range. rewrite to_int64_small by int_range. lia.
Qed.

(** *** Training samples *)

Lemma split_sample_spec fuel s :
  (length s <= fuel)%nat ->
  concat (split_sample fuel s) = s /\
  Forall (fun p => length p <= maxDictTrainingSampleSize)%nat (split_sample fuel s).
Proof.
  assert (0 < maxDictTrainingSampleSize)%nat as Hpos by (unfold maxDictTrainingSampleSize; lia).
  revert s. induction fuel as [|fuel IH]; intros s Hf; cbn [split_sample].
  { cbn. rewrite app_nil_r. split; [done|]. constructor; [lia|constructor]. }
  destruct (Nat.ltb_spec maxDictTrainingSampleSize (length s)).
  - destruct (IH (drop maxDictTrainingSampleSize s)) as [IH1 IH2]; [rewrite length_drop; lia|].
    cbn [concat]. rewrite IH1, firstn_skipn. split; [done|].
    constructor; [rewrite length_take; lia|done].
  - cbn. rewrite app_nil_r. split; [done|]. constructor; [lia|constructor].
Qed.

(** The samples given to the dictionary builder are the input, cut into pieces
    it can take. *)
Theorem training_samples_cut (samples : list (list byte)) :
  concat (training_samples samples) = concat samples /\
  Forall (fun p => length p <= maxDictTrainingSampleSize)%nat (training_samples samples).
Proof.
  unfold training_samples. induction samples as [|s samples [IH1 IH2]]; [by split|].
  change ((s :: samples) ≫= ?f) with (f s ++ (samples ≫= f))%list.
  destruct (split_sample_spec (length s) s) as [H1 H2]; [done|].
  rewrite concat_app, H1, IH1. split; [done|]. by apply Forall_app.
Qed.

(** ** Concrete streams *)

Definition abc_stream : stream := mkStream [[x61]; [x62; x63]] false.

Lemma decompress_exact_witness :
  decompress ([] : list byte) (Some abc_stream) 3 =
  (([] ++ take (Z.to_nat 3) (concat (chunks abc_stream)))%list,
   if decide (ends_in_error abc_stream = false /\ Z.of_nat (length (concat (chunks abc_stream))) = 3)
   then Ok ()
   else Err (if ends_in_error abc_stream && (Z.of_nat (length (concat (chunks abc_stream))) <=? 3)
             then ErrDecompressionFailed else ErrSizeMismatch)).
Proof. apply (decompress_exact [] abc_stream 3). unfold DefaultMaxPayloadSize. lia. Defined.

Lemma decompression_bounded_witness :
  let bw := mkBounded ([x61; x62] : list byte) 2 2 in
  0 <= bw_written bw <= DefaultMaxPayloadSize /\
  (0 <= 2 <= DefaultMaxPayloadSize -> bw_written bw <= 2).
Proof.
  apply (decompression_bounded ([] : list byte) abc_stream 2 (mkBounded [x61; x62] 2 2) CopyMismatch).
  vm_compute. reflexivity.
Defined.

Lemma ResolveCompression_profiles_witness :
  @ResolveCompression ascii_tables (@registry_init ascii_tables) " Latency " "" "" 1000 =
  Ok (NoneCodec, "").
Proof.
  pose proof (@ResolveCompression_profiles ascii_tables " Latency " "" "" 1000) as H.
  cbv zeta in H. rewrite H; vm_compute; reflexivity.
Defined.

Definition sample_resources : codecResources := mkResources 8 268435456 true.

Lemma computeLZ4Concurrency_admitted_witness :
  let c := computeLZ4Concurrency 33554432 sample_resources in
  1 <= c <= maxLZ4BlockConcurrency /\
  (1 < c -> c <= effectiveCPUs sample_resources /\
     c <= (33554432 - 1) / lz4DefaultBlockSize + 1 /\
     (hasMemoryCap sample_resources = true ->
      33554432 + lz4HeadroomReserveBytes + c * lz4BytesPerWorker <= memoryBytes sample_resources)).
Proof.
  apply (computeLZ4Concurrency_admitted 33554432 sample_resources); vm_compute; split; discriminate.
Defined.
