(* ===== verification/PackAssemble.v ===== *)
(** * Assembling a fat binary ([internal/pack/profitability.go])

    Staged frames are laid out behind the stub twice, with and without the
    shared dictionary; the smaller candidate is written out and closed with
    the index and the trailer.  Staging (compression and temporary files) is
    outside: a staged result is its entry and the bytes of its file. *)

From S2P Require Import Prelude GoStrings GoIO Microarch Format FormatIndex Sha256 FormatTrailer.
From stdpp Require Import base list strings gmap.
From Stdlib Require Import ZArith Lia Strings.Byte.

Local Open Scope Z_scope.

Definition DefaultDictionaryID : Z := 0x4D464154.
Definition MaxDictProfitabilitySpoolBytes : Z := 2 * MaxPayloadSize.

(** [parallelVariantResult]: the entry, and what the staged file holds. *)
Record parallelVariantResult := mkResult { entry : VariantEntry; staged : list byte }.

Inductive pack_err :=
| ErrFormat (e : format_err)
| ErrFrameSizeMismatch
| ErrSpoolBudgetExceeded.

(** ** The spool budget *)

Record spoolBudgetTracker := mkTracker { spool_used : Z; spool_limit : Z }.

Definition newSpoolBudgetTracker (customLimit : Z) : spoolBudgetTracker :=
  mkTracker 0 (if customLimit <=? 0 then MaxDictProfitabilitySpoolBytes else customLimit).

(** [spoolBoundedWriter.Write]: the writer and the tracker afterwards, and the
    count, or the error of the budget or of the writer. *)
Definition spool_Write `{Writer W} (w : W) (t : spoolBudgetTracker) (p : list byte) :
    W * spoolBudgetTracker * nat * option pack_err * bool :=
  if (length p =? 0)%nat then (w, t, 0%nat, None, false) else
  let total := i64_add (spool_used t) (Z.of_nat (length p)) in
  let t := mkTracker total (spool_limit t) in
  if total >? spool_limit t then (w, t, 0%nat, Some ErrSpoolBudgetExceeded, false)
  else let '(w, n, failed) := Write w p in (w, t, n, None, failed).

(** ** Layout *)

Definition with_offset (v : VariantEntry) (offset : Z) : VariantEntry :=
  mkVariant (ve_Level v) offset (CompressedSize v) (UncompressedSize v) (SHA256 v) (Compression v).

(** The loop that gives every entry its offset. *)
Fixpoint place_entries (offset : Z) (results : list parallelVariantResult) :
    list VariantEntry * Z :=
  match results with
  | [] => ([], offset)
  | r :: results =>
      let e := with_offset (entry r) offset in
      let '(es, finish) := place_entries (i64_add offset (CompressedSize (entry r))) results in
      (e :: es, finish)
  end.

(** [io.Discard] *)
Definition discard_write (w : unit) (p : list byte) : unit * nat * bool := ((), length p, false).
Lemma discard_count (w : unit) p w' n failed :
  discard_write w p = (w', n, failed) -> (n <= length p)%nat.
Proof. by intros [= _ <- _]. Qed.
Lemma discard_full (w : unit) p w' n : discard_write w p = (w', n, false) -> n = length p.
Proof. by intros [= _ <-]. Qed.
Global Instance discard : Writer unit :=
  {| Write := discard_write; Write_count := discard_count; Write_full := discard_full |}.

(** The candidate index, the offset behind its payloads, and its full size. *)
Definition measureCandidateCompleteBytes (baseIdx : Index) (stubOffset : Z)
    (dictBytes : list byte) (dictSHAHex : string) (results : list parallelVariantResult)
    (formatVersion : Z) : outcome pack_err (Index * Z * Z) :=
  let hasDict := (0 <? length dictBytes)%nat in
  let dictSize := Z.of_nat (length dictBytes) in
  let start := if hasDict then i64_add stubOffset dictSize else stubOffset in
  let '(variants, offset) := place_entries start results in
  let cand :=
    mkIndex formatVersion (AppName baseIdx) (TargetOS baseIdx) (TargetArch baseIdx)
      (CreatedUnix baseIdx) (if hasDict then stubOffset else 0) (if hasDict then dictSize else 0)
      (if hasDict then dictSHAHex else ""%string) (if hasDict then DefaultDictionaryID else 0)
      variants in
  match WriteIndexAndTrailerWithVersion () cand offset formatVersion with
  | (_, cand, Ok tailBytes) => Ok (cand, offset, i64_add offset tailBytes)
  | (_, _, Err e) => Err (ErrFormat e)
  | (_, _, Panic) => Panic
  end.

(** [appendStagedVariantFrame]: at most one byte more than expected is copied,
    to notice a file that grew. *)
Definition appendStagedVariantFrame (dst frame : list byte) (expectedBytes : Z) :
    list byte * outcome pack_err Z :=
  let copied := take (Z.to_nat (i64_add expectedBytes 1)) frame in
  let n := Z.of_nat (length copied) in
  ((dst ++ copied)%list, if n =? expectedBytes then Ok n else Err ErrFrameSizeMismatch).

Fixpoint append_frames (dst : list byte) (writeOffset : Z) (results : list parallelVariantResult) :
    list byte * outcome pack_err Z :=
  match results with
  | [] => (dst, Ok writeOffset)
  | r :: results =>
      match appendStagedVariantFrame dst (staged r) (CompressedSize (entry r)) with
      | (dst, Ok copied) => append_frames dst (i64_add writeOffset copied) results
      | (dst, Err e) => (dst, Err e)
      | (dst, Panic) => (dst, Panic)
      end
  end.

(** Writing out the chosen candidate. *)
Definition write_candidate (tmpFile : list byte) (writeOffset : Z) (chosen : Index * Z * Z)
    (results : list parallelVariantResult) (formatVersion : Z) : list byte * outcome pack_err Index :=
  let '(chosenIdx, chosenEnd, _) := chosen in
  match append_frames tmpFile writeOffset results with
  | (tmpFile, Ok writeOffset) =>
      if negb (writeOffset =? chosenEnd) then (tmpFile, Err ErrFrameSizeMismatch) else
      match WriteIndexAndTrailerWithVersion tmpFile chosenIdx writeOffset formatVersion with
      | (tmpFile, idx, Ok _) => (tmpFile, Ok idx)
      | (tmpFile, _, Err e) => (tmpFile, Err (ErrFormat e))
      | (tmpFile, _, Panic) => (tmpFile, Panic)
      end
  | (tmpFile, Err e) => (tmpFile, Err e)
  | (tmpFile, Panic) => (tmpFile, Panic)
  end.

(** [assembleProfitableArtifact] once the frames are staged: the file and the
    index that was written. *)
Definition assembleProfitableArtifact (tmpFile : list byte) (stubOffset : Z) (baseIdx : Index)
    (dictBytes : list byte) (dictSHAHex : string)
    (noDictResults withDictResults : list parallelVariantResult) (formatVersion : Z) :
    list byte * outcome pack_err Index :=
  match measureCandidateCompleteBytes baseIdx stubOffset [] "" noDictResults formatVersion with
  | Err e => (tmpFile, Err e)
  | Panic => (tmpFile, Panic)
  | Ok noDict =>
      match measureCandidateCompleteBytes baseIdx stubOffset dictBytes dictSHAHex withDictResults
              formatVersion with
      | Err e => (tmpFile, Err e)
      | Panic => (tmpFile, Panic)
      | Ok withDict =>
          if withDict.2 <? noDict.2
          then write_candidate (tmpFile ++ dictBytes) (i64_add stubOffset (Z.of_nat (length dictBytes)))
                 withDict withDictResults formatVersion
          else write_candidate tmpFile stubOffset noDict noDictResults formatVersion
      end
  end.

(** ** The layout without wrap-around *)

Definition frames (rs : list parallelVariantResult) : list byte := concat (staged <$> rs).

(** The declared compressed sizes are those of the staged files. *)
Definition honest (r : parallelVariantResult) : Prop :=
  CompressedSize (entry r) = Z.of_nat (length (staged r)).

Fixpoint placed (offset : Z) (rs : list parallelVariantResult) : list VariantEntry :=
  match rs with
  | [] => []
  | r :: rs => with_offset (entry r) offset :: placed (offset + CompressedSize (entry r)) rs
  end.

Lemma frames_cons r rs : frames (r :: rs) = (staged r ++ frames rs)%list.
Proof. done. Qed.

Lemma place_entries_placed offset rs :
  Forall honest rs -> 0 <= offset -> offset + Z.of_nat (length (frames rs)) <= MaxInt64 ->
  place_entries offset rs = (placed offset rs, offset + Z.of_nat (length (frames rs))).
Proof.
  revert offset. induction rs as [|r rs IH]; intros offset Hh Ho Hr; cbn [place_entries placed].
  { cbn. by rewrite Z.add_0_r. }
  inversion Hh as [|? ? Hr1 Hh']; subst. unfold honest in Hr1.
  rewrite frames_cons, length_app in *. unfold i64_add. rewrite Hr1 in *.
  rewrite to_int64_small by int_range. rewrite IH by (done || lia). f_equal. lia.
Qed.

Lemma append_frames_all dst offset rs :
  Forall honest rs -> 0 <= offset -> offset + Z.of_nat (length (frames rs)) < MaxInt64 ->
  append_frames dst offset rs =
  ((dst ++ frames rs)%list, Ok (offset + Z.of_nat (length (frames rs)))).
Proof.
  revert dst offset. induction rs as [|r rs IH]; intros dst offset Hh Ho Hr; cbn [append_frames].
  { cbn. by rewrite app_nil_r, Z.add_0_r. }
  inversion Hh as [|? ? Hr1 Hh']; subst. unfold honest in Hr1.
  rewrite frames_cons, length_app in *. unfold appendStagedVariantFrame, i64_add. rewrite Hr1.
  rewrite (to_int64_small (_ + 1)) by int_range. rewrite firstn_all2 by lia.
  rewrite Z.eqb_refl. rewrite to_int64_small by int_range. rewrite IH by (done || lia).
  rewrite <- app_assoc. f_equal. f_equal. lia.
Qed.

(** The frame of the [i]-th result lies at the offset of the [i]-th entry. *)
Lemma placed_reads pre rs post i r v :
  Forall honest rs -> rs !! i = Some r -> placed (Z.of_nat (length pre)) rs !! i = Some v ->
  file_read (pre ++ frames rs ++ post) (Z.to_nat (CompressedSize v)) (Offset v) = Some (staged r).
Proof.
  revert pre i. induction rs as [|x rs IH]; intros pre i Hh Hr Hv; [done|].
  inversion Hh as [|? ? Hx Hh']; subst. unfold honest in Hx. rewrite frames_cons, <- app_assoc.
  destruct i as [|i]; cbn in Hr, Hv.
  - simplify_eq. cbn. apply file_read_app; [done|]. rewrite Hx. lia.
  - rewrite app_assoc. apply (IH (pre ++ staged x) i); [done|done|].
    by rewrite length_app, Nat2Z.inj_add, <- Hx.
Qed.

Lemma placed_levels offset rs : ve_Level <$> placed offset rs = ve_Level <$> (entry <$> rs).
Proof.
  revert offset. induction rs as [|r rs IH]; intros offset; [done|].
  cbn [placed]. rewrite !fmap_cons. f_equal. apply IH.
Qed.

Lemma placed_chained offset rs : chained offset (placed offset rs).
Proof.
  revert offset. induction rs as [|r rs IH]; intros offset; [done|].
  cbn [placed chained]. split; [cbn; lia|]. apply IH.
Qed.

Lemma placed_typed offset rs :
  Forall honest rs -> Forall (fun r => 0 < UncompressedSize (entry r) <= MaxPayloadSize) rs ->
  0 <= offset -> offset + Z.of_nat (length (frames rs)) <= MaxInt64 ->
  Forall variant_typed (placed offset rs).
Proof.
  revert offset. induction rs as [|r rs IH]; intros offset Hh Hu Ho Hm; [constructor|].
  inversion Hh as [|? ? Hr Hh']; inversion Hu as [|? ? Hur Hu']; subst. unfold honest in Hr.
  rewrite frames_cons, length_app in Hm. cbn [placed]. constructor.
  - unfold variant_typed, MaxPayloadSize in *. cbn. split_and!; int_range.
  - apply IH; [done|done|lia|lia].
Qed.

Section Assemble.
Context {GU : GoUnicode}.

(** What staging guarantees for a target architecture. *)
Definition result_ok (arch : string) (r : parallelVariantResult) : Prop :=
  honest r /\ TrimSpace (ve_Level (entry r)) <> ""%string /\
  0 < Rank arch (Normalize (ve_Level (entry r))) /\
  staged r <> [] /\ 0 < UncompressedSize (entry r) <= MaxPayloadSize /\
  digest_syntax (SHA256 (entry r)).

Definition results_ok (arch : string) (rs : list parallelVariantResult) : Prop :=
  rs <> [] /\ Forall (result_ok arch) rs /\ NoDup (Normalize <$> (ve_Level <$> (entry <$> rs))).

Definition dictionary_input_ok (dict : list byte) (sha : string) : Prop :=
  dict = [] \/ Z.of_nat (length dict) <= MaxDictionarySize /\ digest_syntax sha.

Definition base_ok (base : Index) : Prop :=
  known_target (TargetArch base) /\ int64_range (CreatedUnix base).

(** The index of a candidate behind [stub] bytes. *)
Definition candidate (base : Index) (stub : Z) (dict : list byte) (sha : string)
    (rs : list parallelVariantResult) : Index :=
  let hasDict := (0 <? length dict)%nat in
  mkIndex FormatVersion2 (AppName base) (TargetOS base) (TargetArch base) (CreatedUnix base)
    (if hasDict then stub else 0) (if hasDict then Z.of_nat (length dict) else 0)
    (if hasDict then sha else ""%string) (if hasDict then DefaultDictionaryID else 0)
    (placed (stub + Z.of_nat (length dict)) rs).

Lemma results_honest arch rs : Forall (result_ok arch) rs -> Forall honest rs.
Proof. intros H. eapply Forall_impl; [exact H|]. by intros r (? & _). Qed.

Lemma placed_variants_ok arch offset rs :
  Forall (result_ok arch) rs -> 0 <= offset ->
  Forall (variant_ok arch (offset + Z.of_nat (length (frames rs)))) (placed offset rs).
Proof.
  revert offset. induction rs as [|r rs IH]; intros offset Hr Ho; [constructor|].
  inversion Hr as [|? ? (Hh & Hl & Hk & Hne & Hu & Hd) Hr']; subst. unfold honest in Hh.
  assert (0 < length (staged r))%nat by (destruct (staged r); [done|cbn; lia]).
  cbn [placed]. rewrite frames_cons, length_app.
  constructor.
  - unfold variant_ok, region_end. cbn. split_and!; try done; lia.
  - specialize (IH (offset + CompressedSize (entry r)) Hr' ltac:(lia)).
    replace (offset + Z.of_nat (length (staged r) + length (frames rs)))
      with (offset + CompressedSize (entry r) + Z.of_nat (length (frames rs))) by lia. done.
Qed.

(** The candidate's layout is the one readers accept. *)
Lemma candidate_layout base stub dict sha rs :
  base_ok base -> results_ok (TargetArch base) rs -> dictionary_input_ok dict sha -> 0 <= stub ->
  valid_layout (candidate base stub dict sha rs)
    (stub + Z.of_nat (length dict) + Z.of_nat (length (frames rs))).
Proof.
  intros [Hk _] (Hne & Hr & Hnd) Hd Hs.
  destruct (decide (dict = [])) as [->|Hdne].
  - constructor; try done; try lia.
    + by destruct rs.
    + by left.
    + unfold candidate. cbn [TargetArch Variants length Z.of_nat]. rewrite !Z.add_0_r.
      apply placed_variants_ok; [done|lia].
    + unfold VariantLevels. cbn. by rewrite placed_levels.
    + cbn. rewrite Z.add_0_r. destruct rs as [|r rs]; [done|]. split; [done|apply placed_chained].
  - destruct Hd as [->|[Hd Hsha]]; [done|].
    assert (0 < length dict)%nat as Hpos by (destruct dict; [done|cbn; lia]).
    unfold candidate. rewrite (proj2 (Nat.ltb_lt _ _) Hpos).
    constructor; cbn [Version Variants TargetArch]; try done; try lia.
    + by destruct rs.
    + right. cbn [DictionarySize DictionaryOffset DictionarySHA256]. split_and!; try done; lia.
    + apply placed_variants_ok; [done|lia].
    + unfold VariantLevels. cbn. by rewrite placed_levels.
    + unfold dictionary_end. cbn [DictionarySize DictionaryOffset].
      rewrite (proj2 (Z.eqb_neq _ _)) by lia. apply placed_chained.
Qed.

Lemma candidate_typed base stub dict sha rs :
  base_ok base -> Forall honest rs ->
  Forall (fun r => 0 < UncompressedSize (entry r) <= MaxPayloadSize) rs -> 0 <= stub ->
  stub + Z.of_nat (length dict) + Z.of_nat (length (frames rs)) <= MaxInt64 ->
  index_typed (candidate base stub dict sha rs).
Proof.
  intros [_ Hc] Hh Hu Hs Hm. unfold index_typed, candidate.
  cbn [CreatedUnix DictionaryOffset DictionarySize DictionaryID Variants].
  split; [done|]. destruct (0 <? length dict)%nat; unfold DefaultDictionaryID;
    (split; [int_range|split; [int_range|split; [int_range|]]]);
    apply placed_typed; (done || lia).
Qed.

(** A candidate whose table fits the format. *)
Definition fits (idx : Index) : Prop :=
  encodable idx /\ Z.of_nat (length (encode_index idx)) <= MaxIndexSize.

Definition payload_end (stub : Z) (dict : list byte) (rs : list parallelVariantResult) : Z :=
  stub + Z.of_nat (length dict) + Z.of_nat (length (frames rs)).

Definition complete_size (base : Index) (stub : Z) (dict : list byte) (sha : string)
    (rs : list parallelVariantResult) : Z :=
  payload_end stub dict rs +
  Z.of_nat (length (encode_index (candidate base stub dict sha rs))) + TrailerSize.

(** Measuring a candidate gives its index, its end and its size. *)
Lemma measure_value base stub dict sha rs :
  Forall honest rs -> 0 <= stub -> payload_end stub dict rs <= 2 ^ 62 ->
  fits (candidate base stub dict sha rs) ->
  measureCandidateCompleteBytes base stub dict sha rs FormatVersion2 =
  Ok (candidate base stub dict sha rs, payload_end stub dict rs, complete_size base stub dict sha rs).
Proof.
  intros Hh Hs Hm [He Hl]. unfold payload_end in Hm. unfold measureCandidateCompleteBytes.
  assert ((if (0 <? length dict)%nat then i64_add stub (Z.of_nat (length dict)) else stub) =
          stub + Z.of_nat (length dict)) as ->.
  { unfold i64_add. destruct (Nat.ltb_spec 0 (length dict)); [|lia].
    rewrite to_int64_small by int_range. done. }
  rewrite place_entries_placed by (done || (unfold MaxInt64; lia)).
  fold (payload_end stub dict rs). fold (candidate base stub dict sha rs).
  unfold complete_size. set (cand := candidate _ _ _ _ _) in *.
  set (fin := payload_end stub dict rs) in *. assert (0 <= fin <= 2 ^ 62) by (unfold fin, payload_end; lia).
  assert (exists n, WriteIndexAndTrailerWithVersion () cand fin FormatVersion2 = ((), cand, Ok n))
    as [n Hw].
  { unfold WriteIndexAndTrailerWithVersion. rewrite (proj2 (Z.ltb_ge _ _)) by lia.
    cbn [Z.eqb FormatVersion1 FormatVersion2 negb Pos.eqb].
    change (with_version cand FormatVersion2) with cand.
    destruct (marshal_spec cand) as [[_ ->]|[Hn _]]; [|done].
    rewrite Z.gtb_ltb, (proj2 (Z.ltb_ge _ _)) by done. cbn [Write discard]. unfold discard_write.
    rewrite make_trailer_encodes by apply length_Sum256. eauto. }
  rewrite Hw. apply write_ok_inv in Hw as (_ & _ & _ & _ & _ & -> & _).
  f_equal. f_equal. unfold i64_add. rewrite to_int64_small; [lia|].
  unfold MaxIndexSize, TrailerSize in *. int_range.
Qed.

(** Writing out a measured candidate seals the file over it. *)
Lemma write_candidate_sealed (tmp : list byte) offset base stub dict sha rs finish total :
  Forall honest rs -> offset = Z.of_nat (length tmp) ->
  offset + Z.of_nat (length (frames rs)) = finish -> finish <= 2 ^ 62 ->
  let idx := candidate base stub dict sha rs in
  encodable idx -> Z.of_nat (length (encode_index idx)) <= MaxIndexSize ->
  write_candidate tmp offset (idx, finish, total) rs FormatVersion2 =
  (sealed (tmp ++ frames rs) (encode_index idx), Ok idx).
Proof.
  intros Hh Ho Hf Hm idx He Hl. unfold write_candidate.
  rewrite append_frames_all by (done || (unfold MaxInt64; lia)).
  rewrite Hf, Z.eqb_refl. cbn [negb].
  destruct (write_ok (tmp ++ frames rs) idx finish) as (file & n & Hw); [lia|done|done|].
  rewrite Hw. apply write_inv in Hw as (_ & _ & _ & _ & _ & -> & _).
  change (with_version idx FormatVersion2) with idx. unfold sealed.
  rewrite length_app, Nat2Z.inj_add, <- Ho, Hf. done.
Qed.
End Assemble.

Section AssembleTheorems.
Context {GU : GoUnicode}.

(** A sealed candidate opens, and its regions hold the frames. *)
Lemma sealed_candidate (stub dict : list byte) base sha rs :
  base_ok base -> dictionary_input_ok dict sha -> results_ok (TargetArch base) rs ->
  Z.of_nat (length stub + length dict + length (frames rs)) <= 2 ^ 61 ->
  let idx := candidate base (Z.of_nat (length stub)) dict sha rs in
  let file := sealed ((stub ++ dict) ++ frames rs) (encode_index idx) in
  encodable idx -> Z.of_nat (length (encode_index idx)) <= MaxIndexSize ->
  ReadTrailerAndIndex file (Z.of_nat (length file)) = Ok (canonical idx) /\
  length (Variants idx) = length rs /\
  (forall i r v, rs !! i = Some r -> Variants idx !! i = Some v ->
     file_read file (Z.to_nat (CompressedSize v)) (Offset v) = Some (staged r)).
Proof.
  intros Hb Hd Hr Hm idx file He Hl. pose proof Hr as (_ & Hro & _).
  pose proof (results_honest _ _ Hro) as Hh. split; [|split].
  - assert (index_typed idx) as Ht.
    { apply candidate_typed; [done|done| |lia|unfold MaxInt64; lia].
      eapply Forall_impl; [exact Hro|]. by intros r (_ & _ & _ & _ & ? & _). }
    apply (sealed_opens _ idx); try done.
    + change (with_version idx FormatVersion2) with idx. rewrite length_sealed, !length_app.
      unfold MaxIndexSize, TrailerSize in *. int_range.
    + apply ValidateBounds_layout; [done|rewrite !length_app; int_range|].
      rewrite !length_app, !Nat2Z.inj_add. apply candidate_layout; (done || lia).
  - unfold idx, candidate. cbn [Variants]. generalize (Z.of_nat (length stub) + Z.of_nat (length dict)).
    clear. induction rs as [|r rs IH]; intros o; cbn; [done|]. f_equal. apply IH.
  - intros i r v Hri Hvi. unfold file, sealed. rewrite <- (app_assoc (stub ++ dict)).
    eapply placed_reads; [done|done|]. by rewrite length_app, Nat2Z.inj_add.
Qed.

(** C29. Once the frames are staged, assembling succeeds: the file is the smaller of the two
    candidates, it opens to the index that is returned, and every variant's region holds exactly
    its staged frame. *)
Theorem assembled_binary_opens (stub : list byte) (base : Index) (dict : list byte) (sha : string)
    (noDict withDict : list parallelVariantResult) :
  let stubOffset := Z.of_nat (length stub) in
  base_ok base -> dictionary_input_ok dict sha ->
  results_ok (TargetArch base) noDict -> results_ok (TargetArch base) withDict ->
  fits (candidate base stubOffset [] "" noDict) -> fits (candidate base stubOffset dict sha withDict) ->
  Z.of_nat (length stub + length dict + length (frames noDict) + length (frames withDict)) <= 2 ^ 61 ->
  exists file idx chosen,
    assembleProfitableArtifact stub stubOffset base dict sha noDict withDict FormatVersion2 =
      (file, Ok idx) /\
    (chosen = noDict \/ chosen = withDict) /\
    Z.of_nat (length file) = Z.min (complete_size base stubOffset [] "" noDict)
                                   (complete_size base stubOffset dict sha withDict) /\
    ReadTrailerAndIndex file (Z.of_nat (length file)) = Ok (canonical idx) /\
    length (Variants idx) = length chosen /\
    (forall i r v, chosen !! i = Some r -> Variants idx !! i = Some v ->
       file_read file (Z.to_nat (CompressedSize v)) (Offset v) = Some (staged r)).
Proof.
  intros o Hb Hd Hn Hw Fn Fw Hm. unfold assembleProfitableArtifact.
  pose proof Hn as (_ & Hnr & _). pose proof Hw as (_ & Hwr & _).
  apply results_honest in Hnr as Hnh, Hwr as Hwh. unfold o in *. clear o.
  rewrite measure_value by (done || (unfold payload_end; cbn; lia)).
  rewrite measure_value by (done || (unfold payload_end; lia)).
  destruct Fn as [He1 Hl1], Fw as [He2 Hl2]. cbn [snd].
  match goal with |- context [?x <? ?y] => destruct (Z.ltb_spec x y) as [Hlt|Hge] end.
  - unfold i64_add. rewrite to_int64_small by int_range.
    rewrite write_candidate_sealed;
      [|done|rewrite length_app; lia|unfold payload_end; lia|unfold payload_end; lia|done|done].
    eexists _, _, withDict. split; [done|]. split; [by right|].
    split; [|apply (sealed_candidate stub dict); try done; lia].
    rewrite Z.min_r by lia. rewrite length_sealed, !length_app. unfold complete_size, payload_end. lia.
  - rewrite write_candidate_sealed;
      [|done|done|unfold payload_end; cbn; lia|unfold payload_end; cbn; lia|done|done].
    eexists _, _, noDict. split; [done|]. split; [by left|].
    split; [rewrite Z.min_l by lia; rewrite length_sealed, !length_app;
            unfold complete_size, payload_end; cbn [length]; lia|].
    pose proof (sealed_candidate stub [] base "" noDict Hb (or_introl eq_refl) Hn) as Hsc.
    rewrite app_nil_r in Hsc. apply Hsc; [cbn; lia|done|done].
Qed.
End AssembleTheorems.

(** ** A concrete artifact *)

Definition sample_base : Index := mkIndex 0 "app" "linux" "amd64" 1700000000 0 0 "" 0 [].
Definition sample_stub : list byte := [x7f; x45; x4c; x46].
Definition sample_results (n : nat) : list parallelVariantResult :=
  [mkResult (mkVariant "v1" 0 (Z.of_nat n) 3 abc_digest "zstd") (replicate n x61);
   mkResult (mkVariant "v3" 0 (Z.of_nat n) 3 abc_digest "zstd") (replicate n x62)].

Lemma sample_results_ok n :
  (0 < n)%nat -> @results_ok ascii_tables (TargetArch sample_base) (sample_results n).
Proof.
  intros Hn. split; [done|]. split.
  - repeat constructor; cbn; try done; try (by unfold honest; cbn; rewrite length_replicate);
      try (destruct n; [lia|done]); apply sample_digest_syntax.
  - vm_compute. repeat constructor; set_solver.
Qed.

Lemma sample_candidate_fits (dict : list byte) (sha : string) n :
  (dict = [] \/ sha = abc_digest) ->
  fits (candidate sample_base 4 dict sha (sample_results n)).
Proof.
  intros Hd. pose proof sample_digest_syntax as Hs. split.
  - constructor; cbn; try lia.
    + destruct dict; cbn; [lia|]. destruct Hd as [| ->]; [done|]. cbn. lia.
    + destruct dict; cbn; [lia|]. destruct Hd as [| ->]; done.
    + repeat constructor; cbn; try lia; apply Hs.
  - rewrite length_encode_index. unfold header_size, candidate, sample_results, MaxIndexSize.
    cbn [Variants placed fmap list_fmap concat]. rewrite !length_app, !length_encode_variant.
    unfold variant_size. destruct dict as [|b dict]; [cbn; lia|].
    destruct Hd as [| ->]; [done|]. cbn. lia.
Qed.

Lemma assembled_binary_opens_witness :
  exists file idx chosen,
    assembleProfitableArtifact sample_stub 4 sample_base [x64; x69] abc_digest
      (sample_results 100) (sample_results 9) FormatVersion2 = (file, Ok idx) /\
    (chosen = sample_results 100 \/ chosen = sample_results 9) /\
    Z.of_nat (length file) = Z.min (complete_size sample_base 4 [] "" (sample_results 100))
      (complete_size sample_base 4 [x64; x69] abc_digest (sample_results 9)) /\
    @ReadTrailerAndIndex ascii_tables _ _ file (Z.of_nat (length file)) =
      Ok (@canonical ascii_tables idx) /\
    length (Variants idx) = length chosen /\
    (forall i r v, chosen !! i = Some r -> Variants idx !! i = Some v ->
       file_read file (Z.to_nat (CompressedSize v)) (Offset v) = Some (staged r)).
Proof.
  apply (@assembled_binary_opens ascii_tables sample_stub).
  - split; [left; vm_compute; reflexivity|cbn; int_range].
  - right. split; [vm_compute; discriminate|exact sample_digest_syntax].
  - apply sample_results_ok. lia.
  - apply sample_results_ok. lia.
  - apply sample_candidate_fits. left. reflexivity.
  - apply sample_candidate_fits. right. reflexivity.
  - vm_compute. discriminate.
Defined.
