(* ===== verification/PackTrim.v ===== *)
(** * Trimming and verifying a fat binary ([internal/pack/pack.go])

    [TrimBinary] copies the stub, the dictionary and one frame into a new fat
    binary; [VerifyBinary] decompresses every variant and checks its digest. *)

From S2P Require Import Prelude GoStrings GoIO Microarch Format FormatIndex Sha256 FormatTrailer.
From S2P Require Import CgroupTuning Codec.
From stdpp Require Import base list strings gmap.
From Stdlib Require Import ZArith Lia Strings.Byte.

Local Open Scope Z_scope.

Inductive trim_err :=
| TrimIndex (e : format_err)   (* "reading index" *)
| TrimNoVariants
| TrimNotFound                 (* "variant level not found" *)
| TrimStubOffset               (* "invalid stub offset" *)
| TrimCopy                     (* a section that cannot be read or written *)
| TrimWrite (e : format_err).  (* "writing trimmed index and trailer" *)

(** [io.Copy(out, io.NewSectionReader(r, off, n))].  The sections copied lie
    before the index of a file whose trailer was read, so a section that does
    not read in full is a read error, not the end of the file. *)
Definition copy_section `{ReaderAt R, Writer W} (r : R) (off n : Z) (out : W) :
    W * outcome trim_err unit :=
  match ReadAt r (Z.to_nat n) off with
  | None => (out, Err TrimCopy)
  | Some data =>
      match Write out data with
      | (out, _, true) => (out, Err TrimCopy)
      | (out, _, false) => (out, Ok ())
      end
  end.

(** State passing for the writer. *)
Definition andthen {W A B} (m : W * outcome trim_err A) (k : W -> A -> W * outcome trim_err B) :
    W * outcome trim_err B :=
  match m with
  | (w, Ok a) => k w a
  | (w, Err e) => (w, Err e)
  | (w, Panic) => (w, Panic)
  end.

Definition lift {W A} (w : W) (m : outcome trim_err A) : W * outcome trim_err A := (w, m).

Section Trim.
Context {GU : GoUnicode} `{ReaderAt R, Writer W}.

(** The index of the trimmed binary; [now] is [time.Now().Unix()]. *)
Definition trimmed_index (idx : Index) (selected : VariantEntry) (stubSize now : Z) : Index :=
  let hasDict := DictionarySize idx >? 0 in
  let variantOffset := if hasDict then i64_add stubSize (DictionarySize idx) else stubSize in
  mkIndex (Version idx) (AppName idx) (TargetOS idx) (TargetArch idx) now
    (if hasDict then stubSize else 0) (if hasDict then DictionarySize idx else 0)
    (if hasDict then DictionarySHA256 idx else ""%string)
    (if hasDict then DictionaryID idx else 0)
    [mkVariant (ve_Level selected) variantOffset (CompressedSize selected)
       (UncompressedSize selected) (SHA256 selected) (Compression selected)].

Definition TrimBinary (r : R) (totalSize : Z) (targetLevel : string) (now : Z) (out : W) :
    W * outcome trim_err Index :=
  andthen (lift out (wrap_err TrimIndex (ReadTrailerAndIndex r totalSize))) (fun out idx =>
  if (length (Variants idx) =? 0)%nat then (out, Err TrimNoVariants) else
  match FindVariant idx targetLevel with
  | None => (out, Err TrimNotFound)
  | Some selected =>
      andthen (lift out (wrap_err TrimIndex (go_index (Variants idx) 0))) (fun out first =>
      let stubSize := if DictionarySize idx >? 0 then DictionaryOffset idx else Offset first in
      if (stubSize <=? 0) || (stubSize >? totalSize) then (out, Err TrimStubOffset) else
      andthen (copy_section r 0 stubSize out) (fun out _ =>
      andthen (if DictionarySize idx >? 0
               then copy_section r (DictionaryOffset idx) (DictionarySize idx) out
               else (out, Ok ())) (fun out _ =>
      andthen (copy_section r (Offset selected) (CompressedSize selected) out) (fun out _ =>
      let newIdx := trimmed_index idx selected stubSize now in
      let variantOffset :=
        if DictionarySize idx >? 0 then i64_add stubSize (DictionarySize idx) else stubSize in
      let currentOffset := i64_add variantOffset (CompressedSize selected) in
      match WriteIndexAndTrailer out newIdx currentOffset with
      | (out, newIdx, Ok _) => (out, Ok newIdx)
      | (out, _, Err e) => (out, Err (TrimWrite e))
      | (out, _, Panic) => (out, Panic)
      end))))
  end).
End Trim.

(** ** Verification *)

Inductive verify_err :=
| VerifyCodec (e : codec_err)
| VerifyDecompress (e : codec_err)
| VerifyInvalidChecksum
| VerifyChecksumMismatch.

Record VerificationResult := mkVerified {
  vr_entry : VariantEntry;
  vr_actual : string;
  vr_error : option verify_err
}.

Definition Valid (res : VerificationResult) : bool :=
  match vr_error res with None => true | Some _ => false end.

Section Verify.
Context {GU : GoUnicode} `{ReaderAt R} {D : Decoders}.

Definition verify_dictionary (r : R) (idx : Index) : outcome format_err (list byte) :=
  if negb (DictionarySize idx >? 0) then Ok []
  else if (DictionarySize idx >? MaxDictionarySize) || (DictionaryOffset idx <? 0)
  then Err ErrInvalidDictionary
  else if bad_checksum (DictionarySHA256 idx) then Err ErrInvalidChecksum
  else
    match ReadAt r (Z.to_nat (DictionarySize idx)) (DictionaryOffset idx) with
    | None => Err ErrIndexRead
    | Some dictBytes =>
        if negb (String.eqb (EncodeToString (Sum256 dictBytes)) (DictionarySHA256 idx))
        then Err ErrDictionaryCorrupted else Ok dictBytes
    end.

(** [io.NewSectionReader(r, off, n)] as the decompressor reads it: the bytes of
    the section, or a read error. *)
Definition section_stream (r : R) (off n : Z) : stream :=
  match ReadAt r (Z.to_nat n) off with
  | Some data => mkStream [data] false
  | None => mkStream [] true
  end.

(** One round of the loop: the hasher is the writer, so the digest is taken of
    what was written to it. *)
Definition verify_variant (r : R) (dict : list byte) (v : VariantEntry) :
    outcome format_err VerificationResult :=
  match Get registry_init (Compression v) with
  | Panic => Panic
  | Err e => Ok (mkVerified v "" (Some (VerifyCodec e)))
  | Ok c =>
      match DecompressWithOptionalDict c ([] : list byte)
              (section_stream r (Offset v) (CompressedSize v)) (UncompressedSize v) dict with
      | (_, Panic) => Panic
      | (_, Err e) => Ok (mkVerified v "" (Some (VerifyDecompress e)))
      | (written, Ok _) =>
          let actual := EncodeToString (Sum256 written) in
          Ok (mkVerified v actual
            (if bad_checksum (SHA256 v) then Some VerifyInvalidChecksum
             else if negb (String.eqb actual (SHA256 v)) then Some VerifyChecksumMismatch
             else None))
      end
  end.

Definition VerifyBinary (r : R) (totalSize : Z) :
    outcome format_err (Index * list VerificationResult) :=
  idx ← ReadTrailerAndIndex r totalSize;
  dictBytes ← verify_dictionary r idx;
  results ← mapM (verify_variant r dictBytes) (Variants idx);
  Ok (idx, results).
End Verify.

(** ** Lemmas *)

(** The bytes of a region of a file. *)
Definition region (file : list byte) (off n : Z) : list byte :=
  take (Z.to_nat n) (drop (Z.to_nat off) file).

(** Where the first payload, and so the copied stub, ends. *)
Definition stub_size (idx : Index) : Z :=
  if DictionarySize idx >? 0 then DictionaryOffset idx
  else match Variants idx with [] => 0 | v :: _ => Offset v end.

(** Where the trimmed binary has its frame. *)
Definition frame_offset (idx : Index) : Z :=
  if DictionarySize idx >? 0 then stub_size idx + DictionarySize idx else stub_size idx.

Lemma length_region file off n :
  0 <= off -> 0 <= n -> off + n <= Z.of_nat (length file) ->
  Z.of_nat (length (region file off n)) = n.
Proof. intros. unfold region. rewrite length_take, length_drop. lia. Qed.

Lemma file_read_region file off n :
  0 <= off -> 0 <= n -> off + n <= Z.of_nat (length file) ->
  file_read file (Z.to_nat n) off = Some (region file off n).
Proof.
  intros. unfold file_read. rewrite (proj2 (andb_true_iff _ _)); [done|].
  rewrite !Z.leb_le. lia.
Qed.

Lemma copy_section_file file off n (out : list byte) :
  0 <= off -> 0 <= n -> off + n <= Z.of_nat (length file) ->
  copy_section file off n out = ((out ++ region file off n)%list, Ok ()).
Proof.
  intros. unfold copy_section. cbn [ReadAt file_reader].
  by rewrite file_read_region by done.
Qed.

Section TrimLemmas.
Context {GU : GoUnicode}.

(** In an accepted index the sections that are copied fit, in order, below the
    index. *)
Lemma trim_sections idx o v :
  valid_layout idx o -> v ∈ Variants idx ->
  0 <= stub_size idx /\ stub_size idx <= frame_offset idx /\
  frame_offset idx <= Offset v /\ 0 < CompressedSize v /\ Offset v + CompressedSize v <= o /\
  (0 < DictionarySize idx -> stub_size idx = DictionaryOffset idx /\
     frame_offset idx = DictionaryOffset idx + DictionarySize idx) /\
  (DictionarySize idx <= 0 -> frame_offset idx = stub_size idx).
Proof.
  intros H Hv. pose proof (valid_layout_positive _ _ H) as Hp. destruct H.
  pose proof (proj1 (Forall_forall _ _) vl_variants v Hv) as (_ & _ & ? & ? & _ & ? & _).
  unfold region_end in *. unfold frame_offset, stub_size. rewrite Z.gtb_ltb.
  destruct (Z.ltb_spec 0 (DictionarySize idx)) as [Hd|Hd].
  - destruct vl_dictionary as [|(_ & ? & _)]; [lia|].
    pose proof (chained_after _ _ vl_chained Hp v Hv) as Ha. unfold dictionary_end in Ha.
    destruct (Z.eqb_spec (DictionarySize idx) 0); [lia|]. split_and!; try lia.
  - destruct (Variants idx) as [|w ws] eqn:E; [done|]. rewrite <- E in *.
    assert (w ∈ Variants idx) as Hw by (rewrite E; left).
    pose proof (proj1 (Forall_forall _ _) vl_variants w Hw) as (_ & _ & ? & _).
    assert (Offset w <= Offset v).
    { rewrite E in *. destruct vl_chained as [_ Hc]. inversion Hp; subst.
      apply elem_of_cons in Hv as [-> |Hv]; [lia|].
      pose proof (chained_after _ _ Hc ltac:(done) v Hv) as Ha. unfold region_end in Ha. lia. }
    split_and!; lia.
Qed.

Lemma trimmed_index_offset idx o v now :
  valid_layout idx o -> int64_range o -> v ∈ Variants idx ->
  Variants (trimmed_index idx v (stub_size idx) now) =
  [mkVariant (ve_Level v) (frame_offset idx) (CompressedSize v) (UncompressedSize v) (SHA256 v)
     (Compression v)].
Proof.
  intros H Ho Hv. destruct (trim_sections idx o v H Hv) as (? & ? & ? & ? & ? & ? & ?).
  unfold trimmed_index. cbn. unfold frame_offset in *. destruct (_ >? _); [|done].
  unfold i64_add. by rewrite to_int64_small by int_range.
Qed.

(** The trimmed index is accepted over the shorter file. *)
Lemma trimmed_layout idx o v now :
  valid_layout idx o -> int64_range o -> v ∈ Variants idx ->
  valid_layout (trimmed_index idx v (stub_size idx) now) (frame_offset idx + CompressedSize v).
Proof.
  intros H Ho Hv. pose proof (trimmed_index_offset idx o v now H Ho Hv) as Hvs.
  destruct (trim_sections idx o v H Hv) as (? & ? & ? & ? & ? & Hd & ?). destruct H.
  pose proof (proj1 (Forall_forall _ _) vl_variants v Hv) as (? & ? & ? & ? & ? & ? & ?).
  constructor; try done; rewrite ?Hvs; try done.
  - lia.
  - unfold dictionary_ok, trimmed_index. cbn. rewrite Z.gtb_ltb.
    destruct (Z.ltb_spec 0 (DictionarySize idx)); [|by left]. right.
    destruct vl_dictionary as [|(? & ? & ? & ?)]; [lia|]. destruct Hd; [done|].
    split_and!; try done; lia.
  - apply Forall_singleton. unfold variant_ok, region_end. cbn. split_and!; try done; lia.
  - unfold VariantLevels. rewrite Hvs. apply NoDup_singleton.
  - split; [|done]. cbn. unfold dictionary_end, trimmed_index. cbn. rewrite Z.gtb_ltb.
    destruct (Z.ltb_spec 0 (DictionarySize idx)).
    + destruct (Z.eqb_spec (DictionarySize idx) 0); [lia|]. destruct Hd; [done|]. lia.
    + cbn. lia.
Qed.
End TrimLemmas.

Section TrimTheorems.
Context {GU : GoUnicode}.

(** What opening a file tells about its index. *)
Record good_index (idx : Index) (o : Z) : Prop := {
  gi_typed : index_typed idx;
  gi_layout : valid_layout idx o;
  gi_os : (String.length (TargetOS idx) <= 255)%nat;
  gi_arch : (String.length (TargetArch idx) <= 255)%nat;
  gi_app : Z.of_nat (String.length (AppName idx)) <= 65535;
  gi_variants : Forall variant_encodable (Variants idx)
}.

Lemma opened_good (file : list byte) idx :
  int64_range (Z.of_nat (length file)) ->
  ReadTrailerAndIndex file (Z.of_nat (length file)) = Ok idx ->
  exists o, 0 <= o /\ o + TrailerSize <= Z.of_nat (length file) /\ good_index idx o.
Proof.
  intros Hr H. apply read_trailer_opened in H as (o & b & Ho); [|done].
  destruct Ho as [H0 H1 H2 _ _ _ Hu Hb]. exists o. split; [done|]. split; [lia|].
  apply unmarshal_sound in Hu as (? & ? & ? & ? & ? & ? & ?).
  unfold TrailerSize in *. constructor; try done.
  apply ValidateBounds_layout; [done|int_range|done].
Qed.

Lemma trimmed_typed idx o v now :
  int64_range now -> int64_range o -> good_index idx o -> v ∈ Variants idx ->
  index_typed (trimmed_index idx v (stub_size idx) now).
Proof.
  intros Hn Ho [(_ & ? & ? & ? & Ht) Hl] Hv.
  pose proof (trimmed_index_offset idx o v now Hl Ho Hv) as Hvs.
  destruct (trim_sections idx o v Hl Hv) as (? & ? & ? & ? & ? & ? & ?).
  unfold index_typed. rewrite Hvs. unfold trimmed_index. cbn.
  destruct (_ >? _); cbn; split_and!; try done; try int_range.
  all: apply Forall_singleton; unfold variant_typed; cbn;
    pose proof (proj1 (Forall_forall _ _) Ht v Hv) as (? & ? & ?); split_and!; int_range.
Qed.

Lemma trimmed_encodable idx o v now :
  int64_range o -> good_index idx o -> v ∈ Variants idx ->
  let t := trimmed_index idx v (stub_size idx) now in
  encodable t /\ Z.of_nat (length (encode_index t)) <= 2 ^ 18.
Proof.
  intros Ho [_ Hl ? ? ? He] Hv t.
  pose proof (trimmed_index_offset idx o v now Hl Ho Hv) as Hvs. fold t in Hvs.
  pose proof (proj1 (Forall_forall _ _) He v Hv) as Hev.
  assert (digest_syntax (DictionarySHA256 t) \/ DictionarySize t = 0 /\ DictionarySHA256 t = ""%string)
    as Hd.
  { unfold t, trimmed_index. cbn. rewrite Z.gtb_ltb.
    destruct (Z.ltb_spec 0 (DictionarySize idx)); [left|by right].
    destruct (vl_dictionary _ _ Hl) as [|(_ & _ & _ & ?)]; [lia|done]. }
  assert (String.length (DictionarySHA256 t) <= 64)%nat.
  { destruct Hd as [[-> _]|[_ ->]]; cbn; lia. }
  split.
  - constructor; rewrite ?Hvs; try done; [lia| |by apply Forall_singleton].
    intros Hp. destruct Hd as [|[Hz _]]; [done|]. by rewrite Hz in Hp.
  - rewrite length_encode_index, Hvs. cbn [fmap list_fmap concat].
    rewrite length_app, length_encode_variant. unfold header_size, variant_size.
    destruct Hev as ([? _] & ? & ?). cbn [ve_Level SHA256 Compression length].
    change (TargetOS t) with (TargetOS idx). change (TargetArch t) with (TargetArch idx).
    change (AppName t) with (AppName idx). lia.
Qed.

(** The payloads of the trimmed binary. *)
Definition trimmed_payloads (file : list byte) (idx : Index) (v : VariantEntry) : list byte :=
  region file 0 (stub_size idx) ++
  (if DictionarySize idx >? 0 then region file (DictionaryOffset idx) (DictionarySize idx) else []) ++
  region file (Offset v) (CompressedSize v).

Lemma length_trimmed_payloads (file : list byte) idx o v :
  valid_layout idx o -> v ∈ Variants idx -> o <= Z.of_nat (length file) ->
  Z.of_nat (length (trimmed_payloads file idx v)) = frame_offset idx + CompressedSize v.
Proof.
  intros Hl Hv Ho. destruct (trim_sections idx o v Hl Hv) as (? & ? & ? & ? & ? & Hd & Hnd).
  unfold trimmed_payloads. rewrite !length_app, !Nat2Z.inj_add, !length_region by lia.
  rewrite Z.gtb_ltb. destruct (Z.ltb_spec 0 (DictionarySize idx)); [|cbn; lia].
  destruct Hd; [done|]. rewrite length_region by lia. lia.
Qed.

Lemma trim_writes (file : list byte) idx o v level now :
  int64_range (Z.of_nat (length file)) ->
  ReadTrailerAndIndex file (Z.of_nat (length file)) = Ok idx ->
  good_index idx o -> o + TrailerSize <= Z.of_nat (length file) ->
  FindVariant idx level = Some v -> v ∈ Variants idx -> 0 < stub_size idx ->
  let t := trimmed_index idx v (stub_size idx) now in
  Z.of_nat (length (trimmed_payloads file idx v)) = frame_offset idx + CompressedSize v /\
  TrimBinary file (Z.of_nat (length file)) level now ([] : list byte) =
  (sealed (trimmed_payloads file idx v) (encode_index t), Ok t).
Proof.
  intros Hr Hread Hg Ho Hf Hv Hs t. pose proof (gi_layout _ _ Hg) as Hl.
  unfold TrailerSize in Ho. pose proof (vl_offset _ _ Hl).
  destruct (trim_sections idx o v Hl Hv) as (? & ? & ? & ? & ? & Hd & Hnd).
  assert (int64_range o) as Hio by int_range.
  destruct (trimmed_encodable idx o v now Hio Hg Hv) as [He Hm]. fold t in He, Hm.
  assert (with_version t FormatVersion2 = t) as Hwv.
  { unfold with_version. rewrite <- (vl_version _ _ Hl). done. }
  pose proof (length_trimmed_payloads file idx o v Hl Hv ltac:(lia)) as Hlen.
  split; [done|]. unfold TrimBinary, lift. rewrite Hread. cbn [wrap_err andthen].
  destruct (Variants idx) as [|first rest] eqn:Ev; [by apply elem_of_nil in Hv|].
  cbn [length Nat.eqb]. rewrite Hf. cbn [wrap_err andthen go_index lookup list_lookup].
  replace (if DictionarySize idx >? 0 then DictionaryOffset idx else Offset first)
    with (stub_size idx) by (unfold stub_size; by rewrite Ev).
  rewrite (proj2 (orb_false_iff _ _)) by (rewrite Z.leb_gt, Z.gtb_ltb, Z.ltb_ge; lia).
  rewrite copy_section_file by lia. cbn [andthen].
  assert (forall out, (if DictionarySize idx >? 0
     then copy_section file (DictionaryOffset idx) (DictionarySize idx) out else (out, Ok ())) =
     ((out ++ if DictionarySize idx >? 0
              then region file (DictionaryOffset idx) (DictionarySize idx) else [])%list, Ok ()))
    as ->.
  { intros out. rewrite Z.gtb_ltb. destruct (Z.ltb_spec 0 (DictionarySize idx)).
    - destruct Hd; [done|]. by rewrite copy_section_file by lia.
    - by rewrite app_nil_r. }
  cbn [andthen]. rewrite copy_section_file by lia. cbn [andthen].
  assert (i64_add (if DictionarySize idx >? 0 then i64_add (stub_size idx) (DictionarySize idx)
                   else stub_size idx) (CompressedSize v) = frame_offset idx + CompressedSize v) as ->.
  { unfold frame_offset in *. unfold i64_add. destruct (_ >? _).
    all: rewrite ?(to_int64_small (_ + DictionarySize _)) by int_range.
    all: by rewrite to_int64_small by int_range. }
  fold t. unfold WriteIndexAndTrailer.
  replace (if Version t =? 0 then FormatVersionCurrent else Version t) with FormatVersion2
    by (change (Version t) with (Version idx); by rewrite (vl_version _ _ Hl)).
  rewrite <- !app_assoc. change (region file 0 _ ++ _ ++ _) with (trimmed_payloads file idx v).
  destruct (write_ok (trimmed_payloads file idx v) t (frame_offset idx + CompressedSize v))
    as (out & n & Hw); [lia|by rewrite Hwv|rewrite Hwv; unfold MaxIndexSize; lia|].
  rewrite app_nil_l. rewrite Hw. apply write_inv in Hw as (_ & _ & _ & _ & _ & -> & _).
  rewrite Hwv. unfold sealed. by rewrite Hlen.
Qed.

Lemma payload_reads (file : list byte) idx o v post :
  good_index idx o -> v ∈ Variants idx -> o <= Z.of_nat (length file) ->
  let out := (trimmed_payloads file idx v ++ post)%list in
  file_read out (Z.to_nat (stub_size idx)) 0 = Some (region file 0 (stub_size idx)) /\
  file_read out (Z.to_nat (CompressedSize v)) (frame_offset idx) =
    Some (region file (Offset v) (CompressedSize v)) /\
  (0 < DictionarySize idx ->
   file_read out (Z.to_nat (DictionarySize idx)) (stub_size idx) =
     Some (region file (DictionaryOffset idx) (DictionarySize idx))).
Proof.
  intros Hg Hv Hf out. destruct (trim_sections idx o v (gi_layout _ _ Hg) Hv)
    as (? & ? & ? & ? & ? & Hd & Hnd).
  unfold out, trimmed_payloads. rewrite Z.gtb_ltb.
  pose proof (length_region file 0 (stub_size idx)) as L1.
  pose proof (length_region file (Offset v) (CompressedSize v)) as L2.
  pose proof (length_region file (DictionaryOffset idx) (DictionarySize idx)) as L3.
  split_and!.
  - rewrite <- !app_assoc. apply (file_read_app []); [done|]. lia.
  - rewrite <- !app_assoc. rewrite (app_assoc (region file 0 _)).
    apply file_read_app; [|lia]. rewrite length_app.
    destruct (Z.ltb_spec 0 (DictionarySize idx)); [destruct Hd; [done|]|cbn]; lia.
  - intros Hp. rewrite (proj2 (Z.ltb_lt _ _)) by done. destruct Hd; [done|].
    rewrite <- !app_assoc. apply file_read_app; lia.
Qed.

Lemma trimmed_opens (file : list byte) idx o v now :
  let t := trimmed_index idx v (stub_size idx) now in
  let out := sealed (trimmed_payloads file idx v) (encode_index t) in
  0 <= o <= 2 ^ 61 -> int64_range now -> good_index idx o -> v ∈ Variants idx ->
  Z.of_nat (length (trimmed_payloads file idx v)) = frame_offset idx + CompressedSize v ->
  ReadTrailerAndIndex out (Z.of_nat (length out)) = Ok (canonical t).
Proof.
  intros t out Ho Hnow Hg Hv Hpl. assert (int64_range o) as Hio by int_range.
  destruct (trimmed_encodable idx o v now Hio Hg Hv) as [He Hm].
  pose proof (gi_layout _ _ Hg) as Hl. fold t in He, Hm.
  destruct (trim_sections idx o v Hl Hv) as (? & ? & ? & ? & ? & Hd & Hnd).
  assert (with_version t FormatVersion2 = t) as Hwv.
  { unfold with_version. by rewrite <- (vl_version _ _ Hl). }
  unfold out. rewrite <- Hwv at 1 2. apply sealed_opens; rewrite ?Hwv.
  - by apply (trimmed_typed idx o).
  - rewrite length_sealed, Hpl. unfold TrailerSize. int_range.
  - done.
  - unfold MaxIndexSize. lia.
  - rewrite Hpl. apply ValidateBounds_layout;
      [by apply (trimmed_typed idx o)|int_range|by apply (trimmed_layout idx o)].
Qed.

(** C30. Trimming a fat binary to one of its levels succeeds, and the result is a fat binary
    again: it opens to an index with that one variant, and its stub, dictionary and compressed
    payload are those of the input. *)
Theorem trimmed_binary_opens (file : list byte) (idx : Index) (level : string)
    (v : VariantEntry) (now : Z) :
  Z.of_nat (length file) <= 2 ^ 61 -> int64_range now ->
  ReadTrailerAndIndex file (Z.of_nat (length file)) = Ok idx ->
  FindVariant idx level = Some v -> 0 < stub_size idx ->
  exists out newIdx w,
    TrimBinary file (Z.of_nat (length file)) level now [] = (out, Ok newIdx) /\
    ReadTrailerAndIndex out (Z.of_nat (length out)) = Ok (canonical newIdx) /\
    Variants newIdx = [w] /\ ve_Level w = ve_Level v /\ SHA256 w = SHA256 v /\
    UncompressedSize w = UncompressedSize v /\ Compression w = Compression v /\
    CompressedSize w = CompressedSize v /\
    file_read out (Z.to_nat (stub_size idx)) 0 = file_read file (Z.to_nat (stub_size idx)) 0 /\
    file_read out (Z.to_nat (CompressedSize w)) (Offset w) =
      file_read file (Z.to_nat (CompressedSize v)) (Offset v) /\
    DictionarySize newIdx = DictionarySize idx `max` 0 /\
    (0 < DictionarySize idx ->
     file_read out (Z.to_nat (DictionarySize newIdx)) (DictionaryOffset newIdx) =
       file_read file (Z.to_nat (DictionarySize idx)) (DictionaryOffset idx)).
Proof.
  intros Hlen Hnow Hread Hf Hs.
  assert (int64_range (Z.of_nat (length file))) as Hr by int_range.
  destruct (opened_good file idx Hr Hread) as (o & Ho0 & Ho & Hg).
  assert (v ∈ Variants idx) as Hv by (apply find_some in Hf as [? _]; by apply list_elem_of_In).
  unfold TrailerSize in Ho. assert (int64_range o) as Hio by int_range.
  destruct (trim_writes file idx o v level now Hr Hread Hg Ho Hf Hv Hs) as [Hpl Htrim].
  pose proof (gi_layout _ _ Hg) as Hl.
  destruct (trim_sections idx o v Hl Hv) as (? & ? & ? & ? & ? & Hd & Hnd).
  pose proof (trimmed_index_offset idx o v now Hl Hio Hv) as Hvs.
  pose proof (payload_reads file idx o v) as Hreads.
  remember (trimmed_index idx v (stub_size idx) now) as t eqn:Ht.
  assert (DictionarySize t = if DictionarySize idx >? 0 then DictionarySize idx else 0) as Hds
    by by subst t.
  assert (DictionaryOffset t = if DictionarySize idx >? 0 then stub_size idx else 0) as Hdo
    by by subst t.
  assert (ReadTrailerAndIndex (sealed (trimmed_payloads file idx v) (encode_index t))
    (Z.of_nat (length (sealed (trimmed_payloads file idx v) (encode_index t)))) = Ok (canonical t))
    as Hopen by (subst t; apply (trimmed_opens file idx o); try done; lia).
  destruct (Hreads (encode_index t ++ encode_trailer (Z.of_nat (length (trimmed_payloads file idx v)))
     (Z.of_nat (length (encode_index t))) (Sum256 (encode_index t)))%list Hg Hv ltac:(lia))
    as (R1 & R2 & R3).
  eexists _, t, _. split; [exact Htrim|]. split; [exact Hopen|]. split; [exact Hvs|].
  cbn [ve_Level SHA256 UncompressedSize Compression CompressedSize Offset].
  do 5 (split; [done|]). unfold sealed.
  split; [rewrite R1, file_read_region by lia; done|].
  split; [rewrite R2, file_read_region by lia; done|].
  rewrite Hds, Hdo, Z.gtb_ltb.
  destruct (Z.ltb_spec 0 (DictionarySize idx)); [|split; lia]. split; [lia|].
  intros Hp. destruct (Hd Hp). rewrite R3 by done. by rewrite file_read_region by lia.
Qed.
End TrimTheorems.

Section VerifyTheorems.
Context {GU : GoUnicode} {D : Decoders} `{ReaderAt R}.

(** What the codec's decoder delivers for a compressed section. *)
Definition decoded_stream (c : Codec) (s : stream) (dict : list byte) : option stream :=
  match c with
  | NoneCodec => Some s
  | LZ4Codec => Some (lz4_reader s)
  | ZstdCodec => zstd_reader s dict
  end.

Lemma decompress_optional_dict c (w : list byte) s size dict :
  DecompressWithOptionalDict c w s size dict = decompress w (decoded_stream c s dict) size.
Proof. by destruct c, dict. Qed.

(** The declared payload: the whole stream, cleanly ended. *)
Definition delivers (o : option stream) (size : Z) (data : list byte) : Prop :=
  exists s, o = Some s /\ ends_in_error s = false /\ concat (chunks s) = data /\
    Z.of_nat (length data) = size.

Lemma decompress_delivers o size (w : list byte) :
  0 <= size <= DefaultMaxPayloadSize ->
  (exists data, delivers o size data /\ decompress w o size = ((w ++ data)%list, Ok ())) \/
  ((forall data, ~ delivers o size data) /\ exists w' e, decompress w o size = (w', Err e)).
Proof.
  intros Hs. destruct o as [s|].
  - rewrite decompress_file by done. case_decide as E; [left|right].
    + destruct E as [E1 E2]. exists (concat (chunks s)). split; [by exists s|].
      by rewrite firstn_all2 by lia.
    + split; [|eauto]. intros data (s' & [= Hs'] & ? & <- & ?). subst s'. by apply E.
  - right. split; [by intros data (s & ? & _)|]. unfold decompress.
    destruct (_ <? _); [eauto|]. destruct (_ >? _); eauto.
Qed.

Lemma verify_variant_spec (r : R) dict v :
  0 <= UncompressedSize v <= DefaultMaxPayloadSize -> digest_syntax (SHA256 v) ->
  exists res, verify_variant r dict v = Ok res /\ vr_entry res = v /\
    (Valid res = true <-> exists c data, Get registry_init (Compression v) = Ok c /\
       delivers (decoded_stream c (section_stream r (Offset v) (CompressedSize v)) dict)
         (UncompressedSize v) data /\
       EncodeToString (Sum256 data) = SHA256 v).
Proof.
  intros Hs Hd. unfold verify_variant.
  destruct (Get registry_init (Compression v)) as [c|e|] eqn:Eg.
  - rewrite decompress_optional_dict.
    destruct (decompress_delivers (decoded_stream c (section_stream r (Offset v) (CompressedSize v)) dict)
      (UncompressedSize v) [] Hs) as [(data & Hdel & ->)|(Hnot & w & e & ->)].
    + eexists. split; [done|]. split; [done|]. unfold Valid. cbn [vr_error].
      rewrite (proj2 (bad_checksum_false _)) by done. rewrite app_nil_l.
      destruct (String.eqb_spec (EncodeToString (Sum256 data)) (SHA256 v)) as [E|E]; cbn [negb].
      * split; [intros _; eauto|done].
      * split; [done|]. intros (c' & data' & [= <-] & Hdel' & E').
        destruct Hdel as (s & E1 & _ & E2 & _), Hdel' as (s' & E1' & _ & E2' & _).
        congruence.
    + eexists. split; [done|]. split; [done|]. cbn. split; [done|].
      intros (c' & data' & [= <-] & Hdel' & _). by destruct (Hnot data').
  - eexists. split; [done|]. split; [done|]. cbn. split; [done|]. by intros (? & ? & ? & _).
  - unfold Get in Eg. by destruct (registry_init !! _).
Qed.

(** Every variant gets a report, which says whether the section delivers the payload. *)
Lemma VerifyBinary_reports (r : R) (totalSize : Z) (idx : Index) (dict : list byte) :
  int64_range totalSize -> ReadTrailerAndIndex r totalSize = Ok idx ->
  verify_dictionary r idx = Ok dict ->
  exists results, VerifyBinary r totalSize = Ok (idx, results) /\
    vr_entry <$> results = Variants idx /\
    Forall (fun res => let v := vr_entry res in
      Valid res = true <-> exists c data, Get registry_init (Compression v) = Ok c /\
        delivers (decoded_stream c (section_stream r (Offset v) (CompressedSize v)) dict)
          (UncompressedSize v) data /\
        EncodeToString (Sum256 data) = SHA256 v) results.
Proof.
  intros Hr Hread Hdict. unfold VerifyBinary. rewrite Hread. cbn [mbind outcome_bind].
  rewrite Hdict. cbn [mbind outcome_bind].
  apply read_trailer_opened in Hread as (o & b & Ho); [|done].
  destruct Ho as [H0 H1 H2 _ _ _ Hu Hb]. apply unmarshal_sound in Hu as (Ht & _).
  unfold TrailerSize in *.
  apply ValidateBounds_layout in Hb as Hl; [|done|int_range].
  pose proof (vl_variants _ _ Hl) as Hvs. clear -Hvs.
  match goal with |- context [Forall ?P _] =>
    assert (exists results, mapM (verify_variant r dict) (Variants idx) = Ok results /\
      vr_entry <$> results = Variants idx /\ Forall P results) as (results & -> & ? & ?) end.
  { induction Hvs as [|v vs (_ & _ & _ & _ & Hs & _ & Hd) _ (results & E & Em & Hf)].
    - exists []. done.
    - destruct (verify_variant_spec r dict v) as (res & Ev & Ee & Hv); [|done|].
      { unfold MaxPayloadSize, DefaultMaxPayloadSize in *. lia. }
      exists (res :: results). cbn. rewrite Ev. cbn. rewrite E. cbn. rewrite Em, Ee.
      split; [done|]. split; [done|]. constructor; [|exact Hf]. cbv zeta. rewrite Ee. exact Hv. }
  eexists. eauto.
Qed.

(** C31. A variant is reported valid exactly when its codec is registered and decompressing its
    section gives a payload of the declared size with the recorded SHA-256; every variant gets a
    report, in order. *)
Theorem VerifyBinary_valid (r : R) (totalSize : Z) (idx : Index) (dict : list byte) :
  int64_range totalSize -> ReadTrailerAndIndex r totalSize = Ok idx ->
  verify_dictionary r idx = Ok dict ->
  exists results, VerifyBinary r totalSize = Ok (idx, results) /\
    vr_entry <$> results = Variants idx /\
    Forall (fun res => let v := vr_entry res in
      Valid res = true <-> exists c data, Get registry_init (Compression v) = Ok c /\
        delivers (decoded_stream c (section_stream r (Offset v) (CompressedSize v)) dict)
          (UncompressedSize v) data /\
        EncodeToString (Sum256 data) = SHA256 v) results.
Proof. apply VerifyBinary_reports. Qed.
End VerifyTheorems.

(** ** A concrete binary *)

(** No payload of the sample is compressed, so the decoders are not used. *)
Definition no_decoders : Decoders :=
  {| lz4_reader := fun s => s; zstd_reader := fun s _ => Some s |}.

Lemma trimmed_binary_opens_witness :
  exists out newIdx w,
    @TrimBinary ascii_tables _ _ _ _ sample_file (Z.of_nat (length sample_file)) "v3" 1800000000 [] =
      (out, Ok newIdx) /\
    @ReadTrailerAndIndex ascii_tables _ _ out (Z.of_nat (length out)) =
      Ok (@canonical ascii_tables newIdx) /\
    Variants newIdx = [w] /\ ve_Level w = "amd64_v3"%string /\ SHA256 w = abc_digest /\
    UncompressedSize w = 3 /\ Compression w = "none"%string /\ CompressedSize w = 3 /\
    file_read out (Z.to_nat (stub_size sample_index)) 0 =
      file_read sample_file (Z.to_nat (stub_size sample_index)) 0 /\
    file_read out (Z.to_nat (CompressedSize w)) (Offset w) =
      file_read sample_file (Z.to_nat 3) 7 /\
    DictionarySize newIdx = DictionarySize sample_index `max` 0 /\
    (0 < DictionarySize sample_index ->
     file_read out (Z.to_nat (DictionarySize newIdx)) (DictionaryOffset newIdx) =
       file_read sample_file (Z.to_nat (DictionarySize sample_index)) (DictionaryOffset sample_index)).
Proof.
  apply (@trimmed_binary_opens ascii_tables sample_file sample_index "v3" sample_v3 1800000000).
  - vm_compute. discriminate.
  - vm_compute. split; [discriminate|reflexivity].
  - vm_compute. reflexivity.
  - vm_compute. reflexivity.
  - reflexivity.
Defined.

Lemma VerifyBinary_valid_witness :
  exists results,
    @VerifyBinary ascii_tables _ _ no_decoders sample_file (Z.of_nat (length sample_file)) =
      Ok (sample_index, results) /\
    vr_entry <$> results = Variants sample_index /\
    Forall (fun res => let v := vr_entry res in
      Valid res = true <-> exists c data,
        @Get ascii_tables (@registry_init ascii_tables) (Compression v) = Ok c /\
        delivers (@decoded_stream no_decoders c
          (section_stream sample_file (Offset v) (CompressedSize v)) [])
          (UncompressedSize v) data /\
        EncodeToString (Sum256 data) = SHA256 v) results.
Proof.
  apply (@VerifyBinary_valid ascii_tables no_decoders _ _ sample_file
    (Z.of_nat (length sample_file)) sample_index []).
  - vm_compute. split; [discriminate|reflexivity].
  - vm_compute. reflexivity.
  - vm_compute. reflexivity.
Defined.

(** Both variants of the sample verify. *)
Example sample_verifies :
  match @VerifyBinary ascii_tables _ _ no_decoders sample_file (Z.of_nat (length sample_file)) with
  | Ok (_, results) => map Valid results
  | _ => []
  end = [true; true].
Proof. vm_compute. reflexivity. Qed.
