(* ===== verification/PackPlan.v ===== *)
(** * Planning the packer's work ([internal/pack/parallel.go])

    How many variant workers the memory ceilings admit, and the estimates it is
    decided by.  The state of the host ([GOMAXPROCS], the cgroup limits,
    [GOMEMLIMIT], [/proc/meminfo]) is an argument. *)

From S2P Require Import Prelude GoStrings GoPath GoFloat GoIO MicroarchSelect Microarch Format.
From S2P Require Import Sha256 FormatTrailer CgroupTuning CgroupHierarchy Codec.
From stdpp Require Import base list strings gmap.
From Stdlib Require Import ZArith Lia Strings.Byte Strings.Ascii Sorting.Sorted.

Local Open Scope string_scope.
Local Open Scope Z_scope.

(** ** Workers *)

Definition packMebiByte : Z := 1024 * 1024.
Definition packKibiByte : Z := 1024.
Definition packBaseMemoryReserveBytes : Z := 64 * packMebiByte.
Definition packUsableMemoryNumerator : Z := 17.
Definition packUsableMemoryDenominator : Z := 20.
Definition packRawPayloadGCFactor : Z := 2.
Definition packWorkspaceNoneBytes : Z := 4 * packMebiByte.
Definition packWorkspaceLZ4FastBytes : Z := 16 * packMebiByte.
Definition packWorkspaceLZ4HCBytes : Z := 32 * packMebiByte.
Definition packWorkspaceZstdFastestBytes : Z := 32 * packMebiByte.
Definition packWorkspaceZstdDefaultBytes : Z := 64 * packMebiByte.
Definition packWorkspaceZstdBetterBytes : Z := 112 * packMebiByte.
Definition packWorkspaceZstdBestBytes : Z := 224 * packMebiByte.
Definition packLZ4HCThresholdLevel : Z := 4.
Definition packMinParallelVariants : Z := 2.
Definition packMemAvailablePrefix : string := "MemAvailable:".

Record variantWorkPlan := mkWork {
  wp_level : string;
  wp_normalizedLvl : string;
  wp_cleanPath : string;
  wp_statSize : Z;
  wp_codec : Codec;
  wp_resolvedLevel : string;
  estimatedBytes : Z
}.

(** [strings.Contains] *)
Fixpoint Contains (s substr : string) : bool :=
  HasPrefix s substr ||
  match s with
  | EmptyString => false
  | String _ s => Contains s substr
  end.

(** [EncoderLevel_String] is the [String] method of the Zstandard library's levels. *)
Section Estimates.
Context {GU : GoUnicode} (EncoderLevel_String : zstd_level -> string).

Definition zstdLevelWorkspaceBytes (mapped : string) : Z :=
  let lower := ToLower mapped in
  if Contains lower "fastest" then packWorkspaceZstdFastestBytes
  else if Contains lower "better" then packWorkspaceZstdBetterBytes
  else if Contains lower "best" then packWorkspaceZstdBestBytes
  else packWorkspaceZstdDefaultBytes.

Definition encoderWorkspaceBytes (codecName resolvedLevel : string) : Z :=
  if String.eqb codecName AlgorithmNone then packWorkspaceNoneBytes
  else if String.eqb codecName AlgorithmLZ4 then
    let clean := ToLower (TrimSpace resolvedLevel) in
    if existsb (String.eqb clean) ["better"; "best"; "max"] then packWorkspaceLZ4HCBytes
    else match ParseLevelInt clean 0 with
         | Ok num => if num >=? packLZ4HCThresholdLevel then packWorkspaceLZ4HCBytes
                     else packWorkspaceLZ4FastBytes
         | _ => packWorkspaceLZ4FastBytes
         end
  else if String.eqb codecName AlgorithmZstd then
    match zstd_MapLevel resolvedLevel with
    | Ok lvl => zstdLevelWorkspaceBytes (EncoderLevel_String lvl)
    | _ => packWorkspaceZstdDefaultBytes
    end
  else packWorkspaceZstdDefaultBytes.

Definition estimateVariantWorkerMemoryBytes (uncompressedSize : Z)
    (codecName resolvedLevel : string) : Z :=
  let rawSize := Z.max uncompressedSize 0 in
  let workspace := encoderWorkspaceBytes codecName resolvedLevel in
  let workspace := if String.eqb codecName AlgorithmLZ4
                   then Z.max workspace (LZ4EncoderWorkspaceBytes rawSize) else workspace in
  if rawSize >? i64_sub MaxInt64 workspace / packRawPayloadGCFactor then MaxInt64
  else i64_add (i64_mul rawSize packRawPayloadGCFactor) workspace.
End Estimates.

(** One line of [/proc/meminfo]: skipped, refused, or the answer. *)
Definition mem_available_line {GU : GoUnicode} (text : string) : option (Z * bool) :=
  let line := TrimSpace text in
  if negb (HasPrefix line packMemAvailablePrefix) then None else
  match Fields (TrimPrefix line packMemAvailablePrefix) with
  | [] => Some (0, false)
  | f :: _ =>
      match ParseInt f with
      | Some kb =>
          if (kb <? 0) || (kb >? MaxInt64 / packKibiByte) then Some (0, false)
          else Some (i64_mul kb packKibiByte, true)
      | None => Some (0, false)
      end
  end.

(** The scanner's loop; [fuel] above the length of the data is enough, since a
    token advances.  [bufio.ScanLines] cuts as [ScanProcCgroupLine] does, less a
    trailing CR that [TrimSpace] removes as well. *)
Fixpoint scan_mem_available {GU : GoUnicode} (fuel : nat) (data : string) : Z * bool :=
  match fuel with
  | O => (0, false)
  | S fuel =>
      match ScanProcCgroupLine data true with
      | (_, None) => (0, false)
      | (advance, Some token) =>
          if (MaxScanTokenSize <=? String.length token)%nat then (0, false)
          else match mem_available_line token with
               | Some answer => answer
               | None => scan_mem_available fuel (sdrop advance data)
               end
      end
  end.

Definition parseMemAvailableFromFile {GU : GoUnicode} {FS : FileSystem} (path : string) : Z * bool :=
  match fs_open (filepath_Clean path) with
  | inl _ => (0, false)
  | inr (data, _) => scan_mem_available (S (String.length data)) data
  end.

(** The loop that takes the largest estimates first. *)
Fixpoint admit_loop (fuel : nat) (k maxWorkers workerBudget cumulative admitted : Z)
    (estimates : list Z) : outcome codec_err Z :=
  match fuel with
  | O => Ok admitted
  | S fuel =>
      if negb (k <=? maxWorkers) then Ok admitted else
      wCost ← go_index estimates (Z.to_nat (k - 1));
      if wCost >? i64_sub workerBudget cumulative then Ok admitted
      else admit_loop fuel (k + 1) maxWorkers workerBudget (i64_add cumulative wCost)
             (if k >=? packMinParallelVariants then k else admitted) estimates
  end.

Section Workers.
Context {SS : SliceSort}.

Definition admitWorkersByMemory (plans : list variantWorkPlan) (maxWorkers ceilingBytes : Z) :
    outcome codec_err Z :=
  if (ceilingBytes <=? 0) || (maxWorkers <? packMinParallelVariants) then Ok 1 else
  let usableBytes :=
    i64_mul (ceilingBytes / packUsableMemoryDenominator) packUsableMemoryNumerator in
  if usableBytes <=? packBaseMemoryReserveBytes then Ok 1 else
  let workerBudget := i64_sub usableBytes packBaseMemoryReserveBytes in
  let estimates := sort_slice (fun a b => a >? b) (estimatedBytes <$> plans) in
  admit_loop (S (Z.to_nat maxWorkers)) 1 maxWorkers workerBudget 0 1 estimates.

(** [gomemlimit] is [debug.SetMemoryLimit(-1)], [avail] the answer of
    [parseMemAvailableFromFile]. *)
Definition effectivePackMemoryCeiling (limits : Limits) (limitsValid : bool)
    (gomemlimit : Z) (avail : Z * bool) : Z * bool :=
  let '(ceiling, hasCeiling) :=
    if limitsValid then
      let '(cgroupBytes, finite) := EffectiveMemoryLimit limits in
      if finite : bool then (cgroupBytes, true) else (0, false)
    else (0, false) in
  let '(ceiling, hasCeiling) :=
    if (gomemlimit >=? 0) && (gomemlimit <? MaxInt64) then
      if negb hasCeiling || (gomemlimit <? ceiling) then (gomemlimit, true)
      else (ceiling, hasCeiling)
    else (ceiling, hasCeiling) in
  let '(availBytes, ok) := avail in
  if ok && (availBytes >=? 0) then
    if negb hasCeiling || (availBytes <? ceiling) then (availBytes, true)
    else (ceiling, hasCeiling)
  else (ceiling, hasCeiling).

(** [limits] is what [cgroup.ReadLimits] returned, with whether it failed. *)
Definition resolvePackWorkerCount (plans : list variantWorkPlan) (gomaxprocs : Z)
    (limits : Limits) (limitsFailed : bool) (gomemlimit : Z) (avail : Z * bool) :
    outcome codec_err Z :=
  if Z.of_nat (length plans) <? packMinParallelVariants then Ok 1 else
  let cpuBudget :=
    if negb limitsFailed && (CPUs limits >? 0) && (CPUs limits <? gomaxprocs)
    then CPUs limits else gomaxprocs in
  if cpuBudget <? packMinParallelVariants then Ok 1 else
  let maxWorkers := Z.min (Z.of_nat (length plans)) cpuBudget in
  let '(memCeiling, hasCeiling) :=
    effectivePackMemoryCeiling limits (negb limitsFailed) gomemlimit avail in
  if negb hasCeiling then Ok maxWorkers
  else admitWorkersByMemory plans maxWorkers memCeiling.
End Workers.

(** ** Lemmas on the workers *)

Definition sum_Z (l : list Z) : Z := foldr Z.add 0 l.

Lemma sum_Z_nonneg l : Forall (Z.le 0) l -> 0 <= sum_Z l.
Proof. unfold sum_Z. induction 1; cbn in *; lia. Qed.

Lemma sum_Z_Permutation l k : l ≡ₚ k -> sum_Z l = sum_Z k.
Proof. unfold sum_Z. induction 1; cbn in *; lia. Qed.

(** No [k] elements of a list add up to more than the [k] that come first in
    descending order. *)
Lemma sum_largest l : StronglySorted (fun a b => b <= a) l -> Forall (Z.le 0) l ->
  forall k ps, ps ⊆+ l -> (length ps <= k)%nat -> sum_Z ps <= sum_Z (take k l).
Proof.
  induction l as [|x l IH]; intros Hs Hp k ps Hsub Hk.
  - apply submseteq_nil_r in Hsub as ->. by destruct k.
  - inversion Hs as [|? ? Hs' Hx]; subst. inversion Hp as [|? ? Hx0 Hp']; subst.
    destruct k as [|k]; [by destruct ps; [|cbn in Hk; lia]|]. cbn [take sum_Z foldr].
    apply submseteq_cons_r in Hsub as [Hsub|(ps' & Hps & Hsub)].
    + destruct ps as [|y ps].
      * pose proof (sum_Z_nonneg (take k l) ltac:(by apply Forall_take)). cbn [sum_Z foldr] in *.
        unfold sum_Z in *. lia.
      * assert (y <= x).
        { rewrite Forall_forall in Hx. apply Hx.
          apply (elem_of_submseteq _ _ _ (list_elem_of_here y ps) Hsub). }
        assert (ps ⊆+ l) as Hsub' by (etrans; [|exact Hsub]; by apply submseteq_cons).
        specialize (IH Hs' Hp' k ps Hsub' ltac:(cbn in Hk; lia)). cbn. unfold sum_Z in *. lia.
    + rewrite (sum_Z_Permutation _ _ Hps). apply Permutation_length in Hps. cbn in Hps.
      specialize (IH Hs' Hp' k ps' Hsub ltac:(lia)). cbn. unfold sum_Z in *. lia.
Qed.

Lemma sum_take_S l k x : l !! k = Some x -> sum_Z (take (S k) l) = sum_Z (take k l) + x.
Proof.
  revert k. induction l as [|y l IH]; intros [|k] H; [done|done| |].
  - injection H as ->. cbn. destruct l; cbn; lia.
  - cbn [take sum_Z foldr]. specialize (IH k H). unfold sum_Z in *. cbn [take] in *. lia.
Qed.

(** The loop stops at the first prefix that does not fit. *)
Lemma admit_loop_spec fuel k maxWorkers budget admitted estimates :
  Forall (Z.le 0) estimates -> Forall int64_range estimates ->
  maxWorkers <= Z.of_nat (length estimates) -> int64_range budget -> 0 <= budget ->
  1 <= k -> k - 1 <= maxWorkers -> (Z.to_nat (maxWorkers - (k - 1)) < fuel)%nat ->
  sum_Z (take (Z.to_nat (k - 1)) estimates) <= budget ->
  admitted = Z.max 1 (k - 1) ->
  exists a, admit_loop fuel k maxWorkers budget (sum_Z (take (Z.to_nat (k - 1)) estimates))
      admitted estimates = Ok a /\
    1 <= a <= Z.max 1 maxWorkers /\
    (2 <= a -> sum_Z (take (Z.to_nat a) estimates) <= budget) /\
    (a < maxWorkers -> budget < sum_Z (take (Z.to_nat (a + 1)) estimates)).
Proof.
  intros Hp Hi Hm Hb Hb0. revert k admitted.
  induction fuel as [|fuel IH]; intros k admitted Hk1 Hkm Hf Hsum ->; [lia|].
  cbn [admit_loop]. destruct (Z.leb_spec k maxWorkers) as [Hk|Hk]; cbn [negb].
  - destruct (lookup_lt_is_Some_2 estimates (Z.to_nat (k - 1))) as [c Hc]; [lia|].
    unfold go_index. rewrite Hc. cbn [mbind outcome_bind].
    pose proof (Forall_lookup_1 _ _ _ _ Hp Hc) as Hc0. cbn in Hc0.
    pose proof (Forall_lookup_1 _ _ _ _ Hi Hc) as Hci.
    pose proof (sum_Z_nonneg (take (Z.to_nat (k - 1)) estimates) ltac:(by apply Forall_take)) as Hn.
    pose proof (sum_take_S _ _ _ Hc) as HS.
    replace (S (Z.to_nat (k - 1))) with (Z.to_nat (k + 1 - 1)) in HS by lia.
    unfold i64_sub. rewrite to_int64_small by int_range.
    rewrite Z.gtb_ltb. destruct (Z.ltb_spec (budget - sum_Z (take (Z.to_nat (k - 1)) estimates)) c).
    + eexists. split; [done|]. split; [lia|]. split.
      * intros. replace (Z.max 1 (k - 1)) with (k - 1) by lia. done.
      * intros Ha. destruct (decide (k = 1)) as [-> |].
        -- apply (Z.lt_le_trans _ (sum_Z (take (Z.to_nat (1 + 1 - 1)) estimates))); [lia|].
           change (Z.max 1 (1 - 1) + 1) with 2.
           destruct (lookup_lt_is_Some_2 estimates 1%nat) as [d Hd]; [lia|].
           pose proof (Forall_lookup_1 _ _ _ _ Hp Hd) as Hd0. cbn in Hd0.
           pose proof (sum_take_S _ _ _ Hd) as HS2. change (Z.to_nat 2) with 2%nat.
           change (Z.to_nat (1 + 1 - 1)) with 1%nat. lia.
        -- replace (Z.max 1 (k - 1) + 1) with (k + 1 - 1) by lia. lia.
    + unfold i64_add. rewrite to_int64_small by int_range. rewrite <- HS.
      apply IH; try lia. unfold packMinParallelVariants. rewrite Z.geb_leb.
      destruct (Z.leb_spec 2 k); lia.
  - eexists. split; [done|]. split; [lia|]. split; [|lia].
    intros. replace (Z.max 1 (k - 1)) with (k - 1) by lia. done.
Qed.

(** What is left for workers under a ceiling: 85% of it, less the reserve. *)
Definition worker_budget (ceilingBytes : Z) : Z :=
  ceilingBytes / packUsableMemoryDenominator * packUsableMemoryNumerator -
  packBaseMemoryReserveBytes.

(** Every [k] of the plans fit a budget together. *)
Definition any_fit (plans : list variantWorkPlan) (k budget : Z) : Prop :=
  forall ps, ps ⊆+ plans -> Z.of_nat (length ps) <= k -> sum_Z (estimatedBytes <$> ps) <= budget.

Lemma take_submseteq {A} k (l : list A) : take k l ⊆+ l.
Proof. apply sublist_submseteq, sublist_take. Qed.

Lemma sum_Z_pos l : Forall (Z.lt 0) l -> l <> [] -> 0 < sum_Z l.
Proof.
  intros H. destruct H as [|x l Hx H]; [done|]. intros _. cbn.
  assert (0 <= sum_Z l); [|unfold sum_Z in *; lia].
  apply sum_Z_nonneg. eapply Forall_impl; [exact H|]. cbn. lia.
Qed.

(** A choice of estimates is a choice of plans. *)
Lemma fmap_submseteq_inv {A B} (f : A -> B) (l : list A) ks :
  ks ⊆+ f <$> l -> exists ps, ps ⊆+ l /\ ks ≡ₚ f <$> ps.
Proof.
  revert ks. induction l as [|x l IH]; intros ks H.
  - apply submseteq_nil_r in H as ->. by exists [].
  - cbn in H. apply submseteq_cons_r in H as [H|(ks' & E & H)].
    + destruct (IH _ H) as (ps & ? & ?). exists ps. split; [by apply submseteq_cons|done].
    + destruct (IH _ H) as (ps & ? & E'). exists (x :: ps). split; [by apply submseteq_skip|].
      by rewrite E, E'.
Qed.

Section WorkersLemmas.
Context {SS : SliceSort}.

Lemma descending (l : list Z) :
  StronglySorted (fun a b => b <= a) (sort_slice (fun a b => a >? b) l).
Proof.
  pose proof (sort_slice_sorted (fun a b => a >? b) Z.opp l) as H.
  assert (forall a b, (a >? b) = less_by Z.opp a b) as E.
  { intros. unfold less_by. rewrite Z.gtb_ltb. apply eq_true_iff_eq. rewrite !Z.ltb_lt. lia. }
  specialize (H E). induction H as [|x k H IH Hx]; constructor; [done|].
  eapply Forall_impl; [exact Hx|]. cbn. lia.
Qed.

Definition plans_typed (plans : list variantWorkPlan) : Prop :=
  Forall (fun p => 0 < estimatedBytes p <= MaxInt64) plans.

Lemma some_plan_costs plans ps :
  plans_typed plans -> ps ⊆+ plans -> ps <> [] -> 0 < sum_Z (estimatedBytes <$> ps).
Proof.
  intros Hp Hs Hne. apply sum_Z_pos; [|by intros ?%fmap_nil_inv].
  apply Forall_fmap, Forall_forall. intros p Hin. cbn.
  unfold plans_typed in Hp. rewrite Forall_forall in Hp.
  destruct (Hp p); [|lia]. by eapply elem_of_submseteq.
Qed.

(** Without a budget no plan fits. *)
Lemma none_fit plans k budget :
  plans_typed plans -> budget <= 0 -> 1 <= k -> k <= Z.of_nat (length plans) ->
  ~ any_fit plans k budget.
Proof.
  intros Hp Hb Hk Hl Ha. specialize (Ha (take (Z.to_nat k) plans) (take_submseteq _ _)).
  rewrite length_take in Ha. specialize (Ha ltac:(lia)).
  pose proof (some_plan_costs plans (take (Z.to_nat k) plans) Hp (take_submseteq _ _)) as Hsp.
  destruct plans as [|p plans]; [cbn in Hl; lia|].
  destruct (Z.to_nat k) eqn:E; [lia|]. specialize (Hsp ltac:(done)). lia.
Qed.

(** The loop over the sorted estimates, in terms of the plans. *)
Lemma admit_sorted plans maxWorkers budget :
  plans_typed plans -> int64_range budget -> 0 <= budget -> 0 <= maxWorkers ->
  maxWorkers <= Z.of_nat (length plans) ->
  exists k, admit_loop (S (Z.to_nat maxWorkers)) 1 maxWorkers budget 0 1
      (sort_slice (fun a b => a >? b) (estimatedBytes <$> plans)) = Ok k /\
    1 <= k <= Z.max 1 maxWorkers /\ (2 <= k -> any_fit plans k budget) /\
    (k < maxWorkers -> ~ any_fit plans (k + 1) budget).
Proof.
  intros Hp Hb Hb0 Hm0 Hm. set (es := estimatedBytes <$> plans).
  set (sorted := sort_slice (fun a b => a >? b) es).
  assert (sorted ≡ₚ es) as Hperm by apply sort_slice_Permutation.
  assert (Forall (fun e => 0 <= e /\ int64_range e) sorted) as [H0 Hi]%Forall_and.
  { rewrite Hperm. apply Forall_fmap. eapply Forall_impl; [exact Hp|]. cbn. int_range. }
  destruct (admit_loop_spec (S (Z.to_nat maxWorkers)) 1 maxWorkers budget 1 sorted)
    as (a & E & Ha & Hfit & Hmax); try done; try lia.
  { rewrite Hperm. unfold es. rewrite length_fmap. done. }
  exists a. split; [exact E|]. split; [done|]. split.
  - intros H2 ps Hps Hl. etrans; [|by apply Hfit].
    apply sum_largest; [apply descending|done| |rewrite length_fmap; lia].
    rewrite Hperm. by apply fmap_submseteq.
  - intros Hlt Hany. specialize (Hmax Hlt).
    destruct (fmap_submseteq_inv estimatedBytes plans (take (Z.to_nat (a + 1)) sorted))
      as (ps & Hps & Ep); [fold es; rewrite <- Hperm; apply take_submseteq|].
    specialize (Hany ps Hps). rewrite <- (sum_Z_Permutation _ _ Ep) in Hany.
    apply Permutation_length in Ep. rewrite length_fmap, length_take in Ep.
    specialize (Hany ltac:(lia)). lia.
Qed.

Lemma admit_spec plans maxWorkers ceiling :
  plans_typed plans -> int64_range ceiling -> maxWorkers <= Z.of_nat (length plans) ->
  exists k, admitWorkersByMemory plans maxWorkers ceiling = Ok k /\
    1 <= k <= Z.max 1 maxWorkers /\
    (2 <= k -> any_fit plans k (worker_budget ceiling)) /\
    (k < maxWorkers -> ~ any_fit plans (k + 1) (worker_budget ceiling)).
Proof.
  intros Hp Hc Hm.
  assert (forall k, worker_budget ceiling <= 0 -> 1 <= k < maxWorkers ->
    ~ any_fit plans (k + 1) (worker_budget ceiling)) as Hnone by (intros; apply none_fit; lia || done).
  assert (worker_budget ceiling = ceiling / 20 * 17 - 67108864) as Hwb by done.
  unfold admitWorkersByMemory, packMinParallelVariants.
  destruct (Z.leb_spec ceiling 0); cbn [orb].
  { assert (ceiling / 20 <= 0) by (apply (Z.div_le_mono _ 0 20); lia).
    exists 1. split; [done|]. split; [lia|]. split; [lia|]. intros. apply Hnone; lia. }
  destruct (Z.ltb_spec maxWorkers 2); [exists 1; split; [done|]; lia|].
  pose proof (Z.mul_div_le ceiling 20 ltac:(lia)).
  assert (0 <= ceiling / 20) by (apply Z.div_pos; lia).
  unfold i64_mul, i64_sub, packUsableMemoryNumerator, packUsableMemoryDenominator.
  rewrite (to_int64_small (ceiling / 20 * 17)) by int_range.
  change packBaseMemoryReserveBytes with 67108864.
  destruct (Z.leb_spec (ceiling / 20 * 17) 67108864).
  { exists 1. split; [done|]. split; [lia|]. split; [lia|]. intros. apply Hnone; lia. }
  rewrite to_int64_small by int_range. rewrite <- Hwb.
  apply admit_sorted; [done|int_range|lia|lia|done].
Qed.
End WorkersLemmas.

(** The finite ceilings the host reports. *)
Definition pack_ceilings (limits : Limits) (limitsFailed : bool) (gomemlimit : Z)
    (avail : Z * bool) : list Z :=
  ((if negb limitsFailed && snd (EffectiveMemoryLimit limits)
    then [fst (EffectiveMemoryLimit limits)] else []) ++
   (if (0 <=? gomemlimit) && (gomemlimit <? MaxInt64) then [gomemlimit] else []) ++
   (if snd avail && (0 <=? fst avail) then [fst avail] else []))%list.

(** The effective ceiling is the least of them. *)
Lemma effective_ceiling limits failed gomemlimit avail :
  let cs := pack_ceilings limits failed gomemlimit avail in
  match effectivePackMemoryCeiling limits (negb failed) gomemlimit avail with
  | (c, true) => c ∈ cs /\ forall c', c' ∈ cs -> c <= c'
  | (_, false) => cs = []
  end.
Proof.
  unfold pack_ceilings, effectivePackMemoryCeiling.
  destruct (EffectiveMemoryLimit limits) as [b f], avail as [a ok]. cbn [fst snd].
  rewrite !Z.geb_leb.
  destruct (negb failed); cbn [andb]; [destruct f|];
  destruct ((0 <=? gomemlimit) && (gomemlimit <? MaxInt64)); cbn [negb orb app];
  repeat match goal with |- context [(?x <? ?y)] => destruct (Z.ltb_spec x y) end;
  destruct (ok && (0 <=? a)); cbn [app fst snd negb orb];
  cbn [negb orb app];
  repeat match goal with |- context [(?x <? ?y)] => destruct (Z.ltb_spec x y) end;
  try done; (split; [set_solver|]); intros c' Hc';
  repeat (apply elem_of_cons in Hc' as [-> |Hc']); try lia; by apply elem_of_nil in Hc'.
Qed.

(** Budgets grow with the ceiling. *)
Lemma worker_budget_mono c c' : c <= c' -> worker_budget c <= worker_budget c'.
Proof.
  intros H. unfold worker_budget, packUsableMemoryDenominator, packUsableMemoryNumerator.
  pose proof (Z.div_le_mono c c' 20 ltac:(lia) H). lia.
Qed.

Lemma LZ4_workspace_range n :
  0 <= n <= MaxInt64 -> 16 * packMebiByte <= LZ4EncoderWorkspaceBytes n <= 160 * packMebiByte.
Proof.
  intros Hn. unfold LZ4EncoderWorkspaceBytes, lz4DefaultBlockSize, maxLZ4BlockConcurrency,
    lz4BytesPerWorker, packMebiByte.
  change (4 * 1024 * 1024) with 4194304. change (16 * 1024 * 1024) with 16777216.
  destruct (Z.leb_spec n 4194304); [lia|].
  unfold i64_sub, i64_add, i64_mul. rewrite (to_int64_small (n - 1)) by int_range.
  assert (0 <= (n - 1) / 4194304 <= n - 1)
    by (split; [apply Z.div_pos; lia|apply Z.div_le_upper_bound; lia]).
  assert ((n - 1) / 4194304 < 2 ^ 42) by (apply Z.div_lt_upper_bound; int_range).
  rewrite (to_int64_small ((n - 1) / 4194304 + 1)) by int_range.
  rewrite (to_int64_small (Z.min _ _ + 1)) by int_range. rewrite to_int64_small by int_range. lia.
Qed.

Section EstimateLemmas.
Context {GU : GoUnicode} (EncoderLevel_String : zstd_level -> string).

Lemma encoder_workspace_range name level :
  4 * packMebiByte <= encoderWorkspaceBytes EncoderLevel_String name level <= 224 * packMebiByte.
Proof.
  unfold encoderWorkspaceBytes, zstdLevelWorkspaceBytes, packWorkspaceNoneBytes,
    packWorkspaceLZ4HCBytes, packWorkspaceLZ4FastBytes, packWorkspaceZstdDefaultBytes,
    packWorkspaceZstdFastestBytes, packWorkspaceZstdBetterBytes, packWorkspaceZstdBestBytes,
    packMebiByte.
  repeat case_match; lia.
Qed.

(** The estimate saturates instead of wrapping, and covers two copies of the
    payload. *)
Lemma estimate_spec size name level :
  int64_range size ->
  let e := estimateVariantWorkerMemoryBytes EncoderLevel_String size name level in
  Z.min MaxInt64 (2 * size + 4 * packMebiByte) <= e <= MaxInt64 /\ 4 * packMebiByte <= e.
Proof.
  intros Hs. unfold estimateVariantWorkerMemoryBytes. cbv zeta.
  pose proof (encoder_workspace_range name level) as Hw.
  pose proof (LZ4_workspace_range (Z.max size 0) ltac:(int_range)) as Hl.
  match goal with |- context [i64_sub MaxInt64 ?w] => set (ws := w) end.
  assert (4 * packMebiByte <= ws <= 224 * packMebiByte) as Hws
    by (unfold ws; destruct (String.eqb _ _); lia).
  clearbody ws. clear Hw Hl. unfold packMebiByte, packRawPayloadGCFactor in *.
  unfold i64_sub. rewrite to_int64_small by int_range. rewrite Z.gtb_ltb.
  pose proof (Z.mul_div_le (MaxInt64 - ws) 2 ltac:(lia)).
  destruct (Z.ltb_spec ((MaxInt64 - ws) / 2) (Z.max size 0)).
  - unfold MaxInt64 in *. lia.
  - unfold i64_add, i64_mul. rewrite (to_int64_small (Z.max size 0 * 2)) by int_range.
    rewrite to_int64_small by int_range. unfold MaxInt64 in *. lia.
Qed.
End EstimateLemmas.

(** A plan as [prepareVariantWorkPlans] fills it in. *)
Definition plan_ok {GU : GoUnicode} (EncoderLevel_String : zstd_level -> string)
    (p : variantWorkPlan) : Prop :=
  int64_range (wp_statSize p) /\
  estimatedBytes p = estimateVariantWorkerMemoryBytes EncoderLevel_String (wp_statSize p)
    (codec_Name (wp_codec p)) (wp_resolvedLevel p).

(** The worker count is at least one and never above the plans or the CPUs; when variants
    are packed in parallel, the estimates of any that many of them stay, together, within 85% of
    every memory ceiling less the reserve. *)
Theorem resolvePackWorkerCount_fits {GU : GoUnicode} {SS : SliceSort}
    (EncoderLevel_String : zstd_level -> string) (plans : list variantWorkPlan) (gomaxprocs : Z)
    (limits : Limits) (limitsFailed : bool) (gomemlimit : Z) (avail : Z * bool) :
  Forall (plan_ok EncoderLevel_String) plans ->
  Forall int64_range (pack_ceilings limits limitsFailed gomemlimit avail) ->
  exists k,
    resolvePackWorkerCount plans gomaxprocs limits limitsFailed gomemlimit avail = Ok k /\
    1 <= k <= Z.max 1 (Z.min (Z.of_nat (length plans)) gomaxprocs) /\
    (limitsFailed = false -> 0 < CPUs limits -> k <= CPUs limits) /\
    (2 <= k -> forall c, c ∈ pack_ceilings limits limitsFailed gomemlimit avail ->
       any_fit plans k (worker_budget c)).
Proof.
  intros Hp Hc. unfold resolvePackWorkerCount, packMinParallelVariants.
  pose proof (effective_ceiling limits limitsFailed gomemlimit avail) as He. cbv zeta in He.
  destruct (Z.ltb_spec (Z.of_nat (length plans)) 2); [exists 1; split; [done|]; lia|].
  assert (exists cpu, (if negb limitsFailed && (CPUs limits >? 0) && (CPUs limits <? gomaxprocs)
      then CPUs limits else gomaxprocs) = cpu /\ cpu <= gomaxprocs /\
      (limitsFailed = false -> 0 < CPUs limits -> cpu <= CPUs limits)) as (cpu & -> & Hcpu & Hlim).
  { eexists. split; [done|]. rewrite Z.gtb_ltb.
    destruct limitsFailed, (Z.ltb_spec 0 (CPUs limits)), (Z.ltb_spec (CPUs limits) gomaxprocs);
      cbn [negb andb]; split; lia || done. }
  destruct (Z.ltb_spec cpu 2).
  { exists 1. split; [done|]. split; [lia|]. split; [lia|]. lia. }
  destruct (effectivePackMemoryCeiling _ _ _ _) as [c []]; cbn [negb].
  - destruct He as [Hin Hleast]. pose proof (proj1 (Forall_forall _ _) Hc c Hin) as Hci.
    destruct (admit_spec plans (Z.min (Z.of_nat (length plans)) cpu) c) as (k & -> & Hk & Hfit & _);
      [|done|lia|].
    { eapply Forall_impl; [exact Hp|]. intros p [Hs E]. cbn. rewrite E.
      pose proof (estimate_spec EncoderLevel_String (wp_statSize p) (codec_Name (wp_codec p))
        (wp_resolvedLevel p) Hs) as Hest. unfold packMebiByte in Hest. cbv zeta in Hest. lia. }
    exists k. split; [done|]. split; [lia|]. split; [intros Hf Hcp; specialize (Hlim Hf Hcp); lia|].
    intros H2 c' Hc' ps Hps Hl. etrans; [by apply (Hfit H2)|]. apply worker_budget_mono. auto.
  - exists (Z.min (Z.of_nat (length plans)) cpu). split; [done|]. split; [lia|].
    split; [intros Hf Hcp; specialize (Hlim Hf Hcp); lia|]. rewrite He. intros _ c' Hc'.
    by apply elem_of_nil in Hc'.
Qed.

(** ** A concrete plan *)

(** The names the Zstandard library prints for its levels. *)
Definition sample_level_names (l : zstd_level) : string :=
  match l with
  | SpeedFastest => "fastest"
  | SpeedDefault => "default"
  | SpeedBetterCompression => "better"
  | SpeedBestCompression => "best"
  end.

Definition sample_plan : variantWorkPlan :=
  mkWork "v1" "v1" "/in/v1" 8388608 ZstdCodec "better"
    (@estimateVariantWorkerMemoryBytes ascii_tables sample_level_names 8388608 "zstd" "better").

Lemma resolvePackWorkerCount_fits_witness :
  exists k,
    @resolvePackWorkerCount merge_slice_sort [sample_plan; sample_plan; sample_plan] 4 sample_limits
      false MaxInt64 (536870912, true) = Ok k /\
    1 <= k <= Z.max 1 (Z.min (Z.of_nat (length [sample_plan; sample_plan; sample_plan])) 4) /\
    (false = false -> 0 < CPUs sample_limits -> k <= CPUs sample_limits) /\
    (2 <= k -> forall c, c ∈ pack_ceilings sample_limits false MaxInt64 (536870912, true) ->
       any_fit [sample_plan; sample_plan; sample_plan] k (worker_budget c)).
Proof.
  apply (@resolvePackWorkerCount_fits ascii_tables merge_slice_sort sample_level_names).
  - repeat constructor; vm_compute; try discriminate; reflexivity.
  - replace (pack_ceilings sample_limits false MaxInt64 (536870912, true))
      with [805306368; 536870912] by (vm_compute; reflexivity).
    repeat (apply Forall_cons_2; [unfold int64_range; lia|]). apply Forall_nil_2.
Defined.
