(* ===== verification/PackPrewarm.v ===== *)
(** * Planning a cache prewarm ([internal/pack/prewarm_plan.go])

    Which variants a prewarm selects, how their bytes are counted once per
    digest, and the read-only plan.  [cache.ObserveVariant] is an argument: the
    theorems hold for every answer it can give. *)

From S2P Require Import Prelude GoStrings GoIO Microarch Format FormatIndex Sha256 FormatTrailer.
From S2P Require Import CgroupTuning Codec PackPlan.
From stdpp Require Import base list strings gmap.
From Stdlib Require Import ZArith Lia Strings.Byte.

Local Open Scope Z_scope.

Inductive prewarm_err :=
| PrewarmFormat (e : format_err)
| PrewarmLevelNotFound
| ErrPrewarmPayloadLimit
| ErrPrewarmAccounting.

(** [cache.ObservationStatus] and [cache.VariantObservation] *)
Inductive ObservationStatus :=
| ObservationValid
| ObservationMissing
| ObservationCorruptSafe
| ObservationUnsafe
| ObservationUnavailable.

Global Instance ObservationStatus_eq_dec : EqDecision ObservationStatus.
Proof. solve_decision. Defined.

Record VariantObservation := mkObservation {
  obs_Status : ObservationStatus;
  obs_CachedPath : string;
  obs_Error : string
}.

Record PrewarmPlanEntry := mkEntry {
  pe_Level : string;
  pe_SHA256 : string;
  pe_UncompressedSize : Z;
  CachePath : string;
  CacheStatus : ObservationStatus;
  CacheError : string;
  DecoderAvailable : bool;
  DecoderError : option codec_err;
  MaterializationPossible : bool;
  CanPrewarm : bool;
  ReuseAfterLevel : string
}.

Record PrewarmPlan := mkPrewarmPlan {
  Entries : list PrewarmPlanEntry;
  UniquePayloadCount : Z;
  UniquePayloadBytes : Z;
  VerifiedCacheBytes : Z;
  NeedsMaterializationBytes : Z;
  BlockedPayloadBytes : Z
}.

Definition addPrewarmBytes (total size : Z) : outcome prewarm_err Z :=
  if size >? MaxUint64 - total then Err ErrPrewarmAccounting else Ok (to_uint64 (total + size)).

(** The entry with its digest lowered, as it is selected. *)
Definition lower_digest {GU : GoUnicode} (v : VariantEntry) : VariantEntry :=
  mkVariant (ve_Level v) (Offset v) (CompressedSize v) (UncompressedSize v)
    (ToLower (SHA256 v)) (Compression v).

Section Select.
Context {GU : GoUnicode}.

(** The levels asked for, as the index spells them. *)
Fixpoint target_levels (idx : Index) (targetLevels : list string) (targetSet : gset string) :
    outcome prewarm_err (gset string) :=
  match targetLevels with
  | [] => Ok targetSet
  | level :: rest =>
      match FindVariant idx level with
      | None => Err PrewarmLevelNotFound
      | Some entry => target_levels idx rest ({[ve_Level entry]} ∪ targetSet)
      end
  end.

(** No targets: every variant. *)
Definition chosen (targetSet : option (gset string)) (v : VariantEntry) : bool :=
  match targetSet with
  | None => true
  | Some s => bool_decide (ve_Level v ∈ s)
  end.

Fixpoint select_variants (targetSet : option (gset string)) (identities : gmap string Z)
    (total : Z) (vs : list VariantEntry) : outcome prewarm_err (list VariantEntry * Z) :=
  match vs with
  | [] => Ok ([], total)
  | v :: vs =>
      if negb (chosen targetSet v) then select_variants targetSet identities total vs else
      if bad_checksum (SHA256 v) then Err (PrewarmFormat ErrInvalidChecksum) else
      if (UncompressedSize v <=? 0) || (UncompressedSize v >? MaxPayloadSize)
      then Err (PrewarmFormat ErrPayloadTooLarge) else
      let entry := lower_digest v in
      '(identities, total) ←
        match identities !! SHA256 entry with
        | Some previousSize =>
            if negb (previousSize =? UncompressedSize entry) then Err ErrPrewarmAccounting
            else Ok (identities, total)
        | None =>
            total ← addPrewarmBytes total (to_uint64 (UncompressedSize entry));
            Ok (<[SHA256 entry := UncompressedSize entry]> identities, total)
        end;
      '(selected, total) ← select_variants targetSet identities total vs;
      Ok (entry :: selected, total)
  end.

(** [maxPayloadBytes] is [opts.MaxPayloadBytes]. *)
Definition selectPrewarmVariants (idx : Index) (targetLevels : list string)
    (maxPayloadBytes : option Z) : outcome prewarm_err (list VariantEntry * Z) :=
  targetSet ← match targetLevels with
              | [] => Ok None
              | _ => s ← target_levels idx targetLevels ∅; Ok (Some s)
              end;
  '(selected, total) ← select_variants targetSet ∅ 0 (Variants idx);
  match maxPayloadBytes with
  | Some limit => if total >? limit then Err ErrPrewarmPayloadLimit else Ok (selected, total)
  | None => Ok (selected, total)
  end.

Definition ValidatePrewarmAdmission (idx : Index) (targetLevels : list string)
    (maxPayloadBytes : option Z) : outcome prewarm_err unit :=
  _ ← selectPrewarmVariants idx targetLevels maxPayloadBytes; Ok ().

Definition readPrewarmDictionary `{ReaderAt R} (r : R) (idx : Index) :
    outcome format_err (list byte) :=
  if DictionarySize idx =? 0 then Ok [] else
  if (DictionarySize idx <? 0) || (DictionarySize idx >? MaxDictionarySize) ||
     (DictionaryOffset idx <? 0)
  then Err ErrInvalidDictionary
  else if bad_checksum (DictionarySHA256 idx) then Err ErrInvalidChecksum
  else
    match ReadAt r (Z.to_nat (DictionarySize idx)) (DictionaryOffset idx) with
    | None => Err ErrIndexRead
    | Some dictBytes =>
        if negb (String.eqb (EncodeToString (Sum256 dictBytes)) (ToLower (DictionarySHA256 idx)))
        then Err ErrDictionaryCorrupted else Ok dictBytes
    end.

Definition describePrewarmEntry (entry : VariantEntry) (observation : VariantObservation) :
    PrewarmPlanEntry :=
  let decoder := Get registry_init (Compression entry) in
  let available := match decoder with Ok _ => true | _ => false end in
  let safe := bool_decide (obs_Status observation = ObservationValid) ||
              bool_decide (obs_Status observation = ObservationMissing) ||
              bool_decide (obs_Status observation = ObservationCorruptSafe) in
  mkEntry (ve_Level entry) (SHA256 entry) (UncompressedSize entry) (obs_CachedPath observation)
    (obs_Status observation) (obs_Error observation) available
    (match decoder with Err e => Some e | _ => None end)
    (available && safe)
    (bool_decide (obs_Status observation = ObservationValid) || (available && safe)) "".
End Select.

(** ** The plan *)

(** The counters after a digest is first observed. *)
Definition account (plan : PrewarmPlan) (status : ObservationStatus) (size : Z) : PrewarmPlan :=
  let add b x := if b : bool then to_uint64 (x + size) else x in
  let valid := bool_decide (status = ObservationValid) in
  let needs := bool_decide (status = ObservationMissing) ||
               bool_decide (status = ObservationCorruptSafe) in
  mkPrewarmPlan (Entries plan) (i64_add (UniquePayloadCount plan) 1) (UniquePayloadBytes plan)
    (add valid (VerifiedCacheBytes plan))
    (add needs (NeedsMaterializationBytes plan))
    (add (negb valid && negb needs) (BlockedPayloadBytes plan)).

Definition add_entry (plan : PrewarmPlan) (e : PrewarmPlanEntry) : PrewarmPlan :=
  mkPrewarmPlan (Entries plan ++ [e]) (UniquePayloadCount plan) (UniquePayloadBytes plan)
    (VerifiedCacheBytes plan) (NeedsMaterializationBytes plan) (BlockedPayloadBytes plan).

Definition reuse_after (e : PrewarmPlanEntry) (priorLevel : string) : PrewarmPlanEntry :=
  mkEntry (pe_Level e) (pe_SHA256 e) (pe_UncompressedSize e) (CachePath e) (CacheStatus e)
    (CacheError e) (DecoderAvailable e) (DecoderError e) (MaterializationPossible e)
    true priorLevel.

Section Plan.
Context {GU : GoUnicode} (ObserveVariant : VariantEntry -> string -> VariantObservation).

(** The maps and the plan of the loop. *)
Record plan_state := mkPlanState {
  observations : gmap string VariantObservation;
  preparedLevels : gmap string string;
  planned : PrewarmPlan
}.

(** A missing key of [preparedLevels] reads as the empty string. *)
Definition prior_level (st : plan_state) (sha : string) : string :=
  default ""%string (preparedLevels st !! sha).

Definition plan_entry (cacheDir : string) (st : plan_state) (entry : VariantEntry) : plan_state :=
  let '(observation, st) :=
    match observations st !! SHA256 entry with
    | Some observation => (observation, st)
    | None =>
        let observation := ObserveVariant entry cacheDir in
        (observation,
         mkPlanState (<[SHA256 entry := observation]> (observations st)) (preparedLevels st)
           (account (planned st) (obs_Status observation) (to_uint64 (UncompressedSize entry))))
    end in
  let result := describePrewarmEntry entry observation in
  let priorLevel := prior_level st (SHA256 entry) in
  let result :=
    if negb (String.eqb priorLevel "") &&
       negb (bool_decide (obs_Status observation = ObservationValid))
    then reuse_after result priorLevel else result in
  let prepared :=
    if MaterializationPossible result && String.eqb (prior_level st (SHA256 entry)) ""
    then <[SHA256 entry := ve_Level entry]> (preparedLevels st) else preparedLevels st in
  mkPlanState (observations st) prepared (add_entry (planned st) result).

Definition PlanPrewarmBinary `{ReaderAt R} (r : R) (totalSize : Z) (targetLevels : list string)
    (cacheDir : string) (maxPayloadBytes : option Z) : outcome prewarm_err (Index * PrewarmPlan) :=
  idx ← wrap_err PrewarmFormat (ReadTrailerAndIndex r totalSize);
  '(selected, total) ← selectPrewarmVariants idx targetLevels maxPayloadBytes;
  _ ← wrap_err PrewarmFormat (readPrewarmDictionary r idx);
  let st := foldl (plan_entry cacheDir) (mkPlanState ∅ ∅ (mkPrewarmPlan [] 0 total 0 0 0)) selected in
  Ok (idx, planned st).
End Plan.

(** ** Lemmas *)

(** The first entry of every digest not seen yet. *)
Fixpoint firsts (seen : gset string) (es : list VariantEntry) : list VariantEntry :=
  match es with
  | [] => []
  | e :: es =>
      if decide (SHA256 e ∈ seen) then firsts seen es
      else e :: firsts ({[SHA256 e]} ∪ seen) es
  end.

Definition sizes (es : list VariantEntry) : Z := sum_Z (UncompressedSize <$> es).

Lemma sizes_cons e es : sizes (e :: es) = UncompressedSize e + sizes es.
Proof. reflexivity. Qed.

(** One size per digest, also with what was recorded before. *)
Definition agrees (identities : gmap string Z) (es : list VariantEntry) : Prop :=
  (forall e, e ∈ es -> forall s, identities !! SHA256 e = Some s -> s = UncompressedSize e) /\
  (forall e e', e ∈ es -> e' ∈ es -> SHA256 e = SHA256 e' -> UncompressedSize e = UncompressedSize e').

(** What format validation guarantees of an entry. *)
Definition declared (v : VariantEntry) : Prop :=
  digest_syntax (SHA256 v) /\ 0 < UncompressedSize v <= MaxPayloadSize.

Lemma agrees_seen ids e es :
  ids !! SHA256 e = Some (UncompressedSize e) -> agrees ids (e :: es) <-> agrees ids es.
Proof.
  intros He. unfold agrees. split.
  - intros [H1 H2]. split; [intros x Hx; apply H1; by right|].
    intros x y Hx Hy. apply H2; by right.
  - intros [H1 H2]. split.
    + intros x [-> |Hx]%elem_of_cons s Hs; [congruence|by apply H1].
    + intros x y [-> |Hx]%elem_of_cons [-> |Hy]%elem_of_cons E; [done| | |by apply H2].
      * apply (H1 y Hy). by rewrite <- E.
      * symmetry. apply (H1 x Hx). by rewrite E.
Qed.

Lemma agrees_new ids e es :
  ids !! SHA256 e = None ->
  agrees ids (e :: es) <-> agrees (<[SHA256 e := UncompressedSize e]> ids) es.
Proof.
  intros He. unfold agrees. split.
  - intros [H1 H2]. split; [|intros x y Hx Hy; apply H2; by right].
    intros x Hx s Hs. destruct (decide (SHA256 e = SHA256 x)) as [E|E].
    + rewrite E, lookup_insert_eq in Hs. injection Hs as <-. rewrite E in *.
      apply H2; [left|by right|done].
    + rewrite lookup_insert_ne in Hs by done. apply (H1 x); [by right|done].
  - intros [H1 H2].
    assert (forall x, x ∈ es -> SHA256 e = SHA256 x -> UncompressedSize e = UncompressedSize x) as He'.
    { intros x Hx E. apply (H1 x Hx). by rewrite E, lookup_insert_eq. }
    split.
    + intros x [-> |Hx]%elem_of_cons s Hs; [congruence|].
      destruct (decide (SHA256 e = SHA256 x)) as [E|E]; [congruence|].
      apply (H1 x Hx). by rewrite lookup_insert_ne by done.
    + intros x y [-> |Hx]%elem_of_cons [-> |Hy]%elem_of_cons E; auto.
      symmetry. by apply He'.
Qed.

Lemma agrees_conflict ids e es s :
  ids !! SHA256 e = Some s -> s <> UncompressedSize e -> ~ agrees ids (e :: es).
Proof. intros He Hne [H _]. apply Hne. apply (H e); [left|done]. Qed.

Section SelectLemmas.
Context {GU : GoUnicode}.

Lemma add_bytes total size :
  0 <= total -> 0 <= size <= MaxPayloadSize -> total + size <= MaxUint64 ->
  addPrewarmBytes total (to_uint64 size) = Ok (total + size).
Proof.
  intros. unfold addPrewarmBytes, MaxPayloadSize in *. rewrite (to_uint64_small size) by int_range.
  rewrite Z.gtb_ltb, (proj2 (Z.ltb_ge _ _)) by lia. by rewrite to_uint64_small by int_range.
Qed.

Lemma select_variants_spec targetSet ids total vs :
  Forall declared vs -> 0 <= total ->
  total + Z.of_nat (length vs) * MaxPayloadSize <= MaxUint64 ->
  let sel := lower_digest <$> List.filter (chosen targetSet) vs in
  match select_variants targetSet ids total vs with
  | Ok (sel', total') => sel' = sel /\ agrees ids sel /\ total' = total + sizes (firsts (dom ids) sel)
  | Err e => ~ agrees ids sel
  | Panic => False
  end.
Proof.
  intros Hd. revert ids total. induction Hd as [|v vs [Hv Hs] Hd IH]; intros ids total H0 Hm.
  - cbn. split; [done|]. split; [|unfold sizes; cbn; lia].
    split; [by intros e ?%elem_of_nil|by intros e e' ?%elem_of_nil].
  - cbn [length] in Hm. rewrite Nat2Z.inj_succ in Hm.
    assert (MaxPayloadSize = 1073741824) as HM by done.
    cbn [select_variants List.filter]. destruct (chosen targetSet v); cbn [negb].
    2: { apply IH; [done|lia]. }
    rewrite (proj2 (bad_checksum_false _)) by done.
    rewrite (proj2 (orb_false_iff _ _)) by (rewrite Z.leb_gt, Z.gtb_ltb, Z.ltb_ge; lia).
    cbn [fmap list_fmap]. set (e := lower_digest v) in *.
    change (UncompressedSize v) with (UncompressedSize e) in Hs. clearbody e.
    set (sel := lower_digest <$> List.filter (chosen targetSet) vs) in *.
    cbn [firsts]. destruct (ids !! SHA256 e) as [s|] eqn:E.
    + destruct (Z.eqb_spec s (UncompressedSize e)) as [-> |Hne]; cbn [negb mbind outcome_bind];
        [|by eapply agrees_conflict].
      specialize (IH ids total H0 ltac:(lia)). cbv zeta in IH. fold sel in IH.
      rewrite decide_True by by eapply elem_of_dom_2.
      pose proof (agrees_seen ids e sel E) as Ha.
      destruct (select_variants targetSet ids total vs) as [[sel' t]|err|]; cbn [mbind outcome_bind]; [|tauto|done].
      destruct IH as (-> & ? & ->). tauto.
    + rewrite add_bytes by lia. cbn [mbind outcome_bind].
      specialize (IH (<[SHA256 e := UncompressedSize e]> ids) (total + UncompressedSize e)
        ltac:(lia) ltac:(lia)). cbv zeta in IH. fold sel in IH.
      rewrite decide_False by (by apply not_elem_of_dom).
      rewrite dom_insert_L in IH. pose proof (agrees_new ids e sel E) as Ha.
      destruct (select_variants _ _ _ vs) as [[sel' t]|err|]; cbn [mbind outcome_bind]; [|tauto|done].
      destruct IH as (-> & ? & ->). split; [done|]. split; [tauto|].
      rewrite sizes_cons. lia.
Qed.

(** The levels a caller asks for. *)
Definition wanted (idx : Index) (targetLevels : list string) (v : VariantEntry) : bool :=
  match targetLevels with
  | [] => true
  | _ => existsb (fun t => match FindVariant idx t with
                           | Some w => String.eqb (ve_Level w) (ve_Level v)
                           | None => false
                           end) targetLevels
  end.

Lemma target_levels_spec idx targets s :
  match target_levels idx targets s with
  | Ok s' => (forall t, t ∈ targets -> FindVariant idx t <> None) /\
      forall l, l ∈ s' <-> l ∈ s \/
        exists t w, t ∈ targets /\ FindVariant idx t = Some w /\ ve_Level w = l
  | Err _ => exists t, t ∈ targets /\ FindVariant idx t = None
  | Panic => False
  end.
Proof.
  revert s. induction targets as [|t ts IH]; intros s; cbn [target_levels].
  - split; [by intros t ?%elem_of_nil|]. intros l. split; [by left|].
    intros [|(t & w & Ht & _)]; [done|]. by apply elem_of_nil in Ht.
  - destruct (FindVariant idx t) as [w|] eqn:E; [|exists t; split; [left|done]].
    specialize (IH ({[ve_Level w]} ∪ s)). destruct (target_levels _ _ _) as [s'|e|]; [|set_solver|done].
    destruct IH as [Hf Hs]. split.
    + intros u [-> |Hu]%elem_of_cons; [by rewrite E|by apply Hf].
    + intros l. rewrite Hs, elem_of_union, elem_of_singleton. split.
      * intros [[-> |?]|(u & w' & ? & ? & ?)]; [right|by left|right].
        -- exists t, w. split; [left|done].
        -- exists u, w'. split; [by right|done].
      * intros [?|(u & w' & [-> |Hu]%elem_of_cons & E' & El)]; [auto| |].
        -- left. left. congruence.
        -- right. eauto.
Qed.

(** The set of levels makes the loop choose the wanted variants. *)
Lemma chosen_wanted idx targets :
  match (match targets with
         | [] => Ok None
         | _ => s ← target_levels idx targets ∅; Ok (Some s)
         end) with
  | Ok ts => (forall t, t ∈ targets -> FindVariant idx t <> None) /\
      forall v, chosen ts v = wanted idx targets v
  | Err _ => exists t, t ∈ targets /\ FindVariant idx t = None
  | Panic => False
  end.
Proof.
  destruct targets as [|t0 ts0] eqn:Et; [split; [by intros t ?%elem_of_nil|done]|].
  rewrite <- Et. pose proof (target_levels_spec idx targets ∅) as H.
  destruct (target_levels idx targets ∅) as [s|e|]; cbn [mbind outcome_bind]; [|done|done].
  destruct H as [Hf Hs]. split; [done|]. intros v. cbn [chosen]. rewrite Et at 1. cbn [wanted].
  rewrite <- Et. apply eq_true_iff_eq. rewrite bool_decide_eq_true, existsb_exists, Hs. split.
  - intros [?%elem_of_empty|(t & w & Ht & E & El)]; [done|]. exists t.
    split; [by apply list_elem_of_In|]. by rewrite E, El, String.eqb_refl.
  - intros (t & Ht%list_elem_of_In & E). right.
    destruct (FindVariant idx t) as [w|] eqn:Ew; [|done]. apply String.eqb_eq in E. eauto.
Qed.

Lemma select_prewarm_spec (idx : Index) (indexOffset : Z) (targetLevels : list string)
    (limit : option Z) (selected : list VariantEntry) (total : Z) :
  valid_layout idx indexOffset -> Z.of_nat (length (Variants idx)) <= 65535 ->
  selectPrewarmVariants idx targetLevels limit = Ok (selected, total) <->
  (forall t, t ∈ targetLevels -> FindVariant idx t <> None) /\
  selected = lower_digest <$> List.filter (wanted idx targetLevels) (Variants idx) /\
  (forall e e', e ∈ selected -> e' ∈ selected -> SHA256 e = SHA256 e' ->
     UncompressedSize e = UncompressedSize e') /\
  total = sizes (firsts ∅ selected) /\
  (forall l, limit = Some l -> total <= l).
Proof.
  intros Hl Hn. unfold selectPrewarmVariants. pose proof (chosen_wanted idx targetLevels) as Hc.
  destruct (match targetLevels with [] => _ | _ => _ end) as [ts|e|];
    cbn [mbind outcome_bind]; [|split; [done|]|done].
  2: { intros [Hf _]. destruct Hc as (t & Ht & E). by destruct (Hf t Ht). }
  destruct Hc as [Hf Hw].
  assert (Forall declared (Variants idx)) as Hd.
  { eapply Forall_impl; [apply (vl_variants _ _ Hl)|]. intros v (_ & _ & _ & _ & ? & _ & ?). done. }
  pose proof (select_variants_spec ts ∅ 0 (Variants idx) Hd ltac:(lia)) as Hs.
  unfold MaxPayloadSize, MaxUint64 in Hs. specialize (Hs ltac:(lia)). cbv zeta in Hs.
  rewrite (filter_ext _ _ Hw) in Hs. set (sel := lower_digest <$> _) in *.
  assert (agrees ∅ sel <-> forall e e', e ∈ sel -> e' ∈ sel -> SHA256 e = SHA256 e' ->
     UncompressedSize e = UncompressedSize e') as Ha.
  { unfold agrees. split; [tauto|]. intros Hag. split; [|done].
    intros e _ s E. by rewrite lookup_empty in E. }
  destruct (select_variants ts ∅ 0 (Variants idx)) as [[sel' t]|e|]; cbn [mbind outcome_bind];
    [|split; [done|]|done].
  - destruct Hs as (-> & Hag & ->). rewrite dom_empty_L, Z.add_0_l.
    destruct limit as [l|]; [rewrite Z.gtb_ltb; destruct (Z.ltb_spec l (sizes (firsts ∅ sel)))|].
    + split; [done|]. intros (_ & -> & _ & -> & Hlim). specialize (Hlim l eq_refl). lia.
    + split; [intros [= <- <-]; split_and!; try done; [tauto|by intros ? [= <-]]|].
      by intros (_ & -> & _ & -> & _).
    + split; [intros [= <- <-]; split_and!; try done; tauto|]. by intros (_ & -> & _ & -> & _).
  - intros (_ & -> & Hag & _). tauto.
Qed.
End SelectLemmas.

Section PlanTheorems.
Context {GU : GoUnicode} (ObserveVariant : VariantEntry -> string -> VariantObservation).
Context (cacheDir : string).

(** The bytes of the entries whose first observation has a status. *)
Definition observed (p : ObservationStatus -> bool) (es : list VariantEntry) : Z :=
  sizes (List.filter (fun e => p (obs_Status (ObserveVariant e cacheDir))) es).

Definition is_valid (s : ObservationStatus) : bool := bool_decide (s = ObservationValid).
Definition is_missing (s : ObservationStatus) : bool :=
  bool_decide (s = ObservationMissing) || bool_decide (s = ObservationCorruptSafe).
Definition is_blocked (s : ObservationStatus) : bool := negb (is_valid s) && negb (is_missing s).

Lemma status_cases s :
  is_valid s = match s with ObservationValid => true | _ => false end /\
  is_missing s = match s with ObservationMissing | ObservationCorruptSafe => true | _ => false end /\
  is_blocked s = match s with ObservationUnsafe | ObservationUnavailable => true | _ => false end.
Proof. by destruct s. Qed.

Lemma observed_cons p e es :
  observed p (e :: es) =
  (if p (obs_Status (ObserveVariant e cacheDir)) then UncompressedSize e else 0) + observed p es.
Proof. unfold observed. cbn [List.filter]. destruct (p _); [apply sizes_cons|done]. Qed.

Lemma observed_nonneg p es : Forall declared es -> 0 <= observed p es.
Proof.
  induction 1 as [|e es [_ ?] _ IH]; [done|]. rewrite observed_cons. destruct (p _); lia.
Qed.

Lemma observed_split es :
  observed is_valid es + observed is_missing es + observed is_blocked es = sizes es.
Proof.
  induction es as [|e es IH]; [done|]. rewrite !observed_cons, sizes_cons, <- IH.
  generalize (observed is_valid es) (observed is_missing es) (observed is_blocked es).
  destruct (status_cases (obs_Status (ObserveVariant e cacheDir))) as (-> & -> & ->).
  destruct (obs_Status (ObserveVariant e cacheDir)); intros; cbn; lia.
Qed.

Lemma firsts_declared seen es : Forall declared es -> Forall declared (firsts seen es).
Proof.
  intros H. revert seen. induction H as [|e es He _ IH]; intros seen; cbn; [done|].
  destruct (decide _); [apply IH|constructor; [done|apply IH]].
Qed.

(** What the loop adds to the counters of a plan. *)
Definition counted (plan plan' : PrewarmPlan) (us : list VariantEntry) : Prop :=
  UniquePayloadBytes plan' = UniquePayloadBytes plan /\
  UniquePayloadCount plan' = UniquePayloadCount plan + Z.of_nat (length us) /\
  VerifiedCacheBytes plan' = VerifiedCacheBytes plan + observed is_valid us /\
  NeedsMaterializationBytes plan' = NeedsMaterializationBytes plan + observed is_missing us /\
  BlockedPayloadBytes plan' = BlockedPayloadBytes plan + observed is_blocked us.

(** The counters hold values that the bytes still to come do not overflow. *)
Definition room (plan : PrewarmPlan) (us : list VariantEntry) : Prop :=
  0 <= UniquePayloadCount plan /\ UniquePayloadCount plan + Z.of_nat (length us) <= MaxInt64 /\
  0 <= VerifiedCacheBytes plan /\ 0 <= NeedsMaterializationBytes plan /\
  0 <= BlockedPayloadBytes plan /\
  VerifiedCacheBytes plan + observed is_valid us <= MaxUint64 /\
  NeedsMaterializationBytes plan + observed is_missing us <= MaxUint64 /\
  BlockedPayloadBytes plan + observed is_blocked us <= MaxUint64.

Lemma account_counts plan e us :
  declared e -> Forall declared us -> room plan (e :: us) ->
  let s := obs_Status (ObserveVariant e cacheDir) in
  counted plan (account plan s (to_uint64 (UncompressedSize e))) [e] /\
  room (account plan s (to_uint64 (UncompressedSize e))) us.
Proof.
  intros [_ He] Hus (H1 & H2 & H3 & H4 & H5 & H6 & H7 & H8) s.
  rewrite observed_cons in H6, H7, H8. fold s in H6, H7, H8.
  pose proof (observed_nonneg is_valid us Hus). pose proof (observed_nonneg is_missing us Hus).
  pose proof (observed_nonneg is_blocked us Hus). cbn [length] in H2.
  unfold MaxPayloadSize in He. unfold counted, room, observed, account. cbn [List.filter].
  fold s. fold (observed is_valid us) (observed is_missing us) (observed is_blocked us).
  cbn [UniquePayloadBytes UniquePayloadCount VerifiedCacheBytes NeedsMaterializationBytes
    BlockedPayloadBytes length].
  rewrite (to_uint64_small (UncompressedSize e)) by int_range. unfold i64_add.
  rewrite to_int64_small by int_range. fold (is_valid s) (is_missing s) (is_blocked s).
  destruct (status_cases s) as (Ev & Em & Eb). rewrite Ev, Em, Eb in *. clear Ev Em Eb.
  clearbody s. remember (observed is_valid us) as x1. remember (observed is_missing us) as x2.
  remember (observed is_blocked us) as x3. unfold sizes.
  destruct s; cbn [fmap list_fmap sum_Z foldr];
    rewrite ?to_uint64_small by int_range; split; split_and!; int_range.
Qed.

Lemma counted_trans p1 p2 p3 us vs :
  counted p1 p2 us -> counted p2 p3 vs -> counted p1 p3 (us ++ vs).
Proof.
  assert (forall p, observed p (us ++ vs) = observed p us + observed p vs) as Happ.
  { intros p. clear. induction us as [|e us IH]; [done|]. cbn [app]. rewrite !observed_cons, IH. lia. }
  intros (? & ? & ? & ? & ?) (? & ? & ? & ? & ?). unfold counted. rewrite !Happ, length_app.
  split_and!; lia || congruence.
Qed.

(** One round: the counters move by the entry's first observation, and the
    digest is recorded. *)
Lemma plan_entry_counts st e us :
  declared e -> Forall declared us ->
  let seen := dom (observations st) in
  let new := if decide (SHA256 e ∈ seen) then [] else [e] in
  let st' := plan_entry ObserveVariant cacheDir st e in
  room (planned st) (new ++ us) ->
  dom (observations st') = {[SHA256 e]} ∪ seen /\
  counted (planned st) (planned st') new /\ room (planned st') us.
Proof.
  intros He Hus seen new st' Hr. unfold st', plan_entry, new, seen in *.
  destruct (observations st !! SHA256 e) as [o|] eqn:E.
  - rewrite decide_True in Hr |- * by by eapply elem_of_dom_2. cbn [observations planned].
    split; [apply elem_of_dom_2 in E; set_solver|]. split; [|done].
    unfold counted, add_entry, observed, sizes. cbn. split_and!; lia || done.
  - rewrite decide_False in Hr |- * by by apply not_elem_of_dom.
    cbn [observations planned preparedLevels]. rewrite dom_insert_L. split; [done|].
    apply account_counts; done.
Qed.

Lemma plan_entries_count es st :
  Forall declared es -> room (planned st) (firsts (dom (observations st)) es) ->
  counted (planned st) (planned (foldl (plan_entry ObserveVariant cacheDir) st es))
    (firsts (dom (observations st)) es).
Proof.
  intros Hd. revert st. induction Hd as [|e es He Hd IH]; intros st Hr.
  - unfold counted, observed, sizes. cbn. split_and!; lia || done.
  - set (us := firsts ({[SHA256 e]} ∪ dom (observations st)) es).
    set (new := if decide (SHA256 e ∈ dom (observations st)) then [] else [e]).
    assert (firsts (dom (observations st)) (e :: es) = (new ++ us)%list) as Hf.
    { unfold new, us. cbn [firsts]. destruct (decide _) as [Hin|]; [|done].
      by replace ({[SHA256 e]} ∪ dom (observations st)) with (dom (observations st)) by set_solver. }
    rewrite Hf in Hr |- *. cbn [foldl].
    destruct (plan_entry_counts st e us He) as (Hdom & Hc & Hr'); [by apply firsts_declared|done|].
    eapply counted_trans; [exact Hc|]. unfold us. rewrite <- Hdom. apply IH.
    rewrite Hdom. exact Hr'.
Qed.

(** *** Reuse of an earlier entry *)

(** Entry [i] names the level of an earlier entry with its digest that can be
    materialized. *)
Definition materialized_before (es : list PrewarmPlanEntry) (i : nat) (sha level : string) : Prop :=
  exists j e', (j < i)%nat /\ es !! j = Some e' /\ pe_SHA256 e' = sha /\ pe_Level e' = level /\
    MaterializationPossible e' = true.

Record reuse_ok (st : plan_state) : Prop := {
  ro_prepared : forall sha level, preparedLevels st !! sha = Some level ->
    materialized_before (Entries (planned st)) (length (Entries (planned st))) sha level;
  ro_entries : forall i e, Entries (planned st) !! i = Some e -> ReuseAfterLevel e <> ""%string ->
    CanPrewarm e = true /\
    materialized_before (Entries (planned st)) i (pe_SHA256 e) (ReuseAfterLevel e)
}.

Lemma materialized_before_app es e i sha level :
  materialized_before es i sha level -> materialized_before (es ++ [e]) i sha level.
Proof.
  intros (j & e' & ? & Hj & ?). exists j, e'. split; [done|]. split; [|done].
  by apply lookup_app_l_Some.
Qed.

Lemma materialized_before_le es i k sha level :
  (i <= k)%nat -> materialized_before es i sha level -> materialized_before es k sha level.
Proof. intros ? (j & e' & ? & ?). exists j, e'. split; [lia|done]. Qed.

(** The entry a round appends keeps the invariant. *)
Lemma append_reuse st result prepared :
  reuse_ok st ->
  (ReuseAfterLevel result <> ""%string -> CanPrewarm result = true /\
     preparedLevels st !! pe_SHA256 result = Some (ReuseAfterLevel result)) ->
  (prepared = preparedLevels st \/ MaterializationPossible result = true /\
     prepared = <[pe_SHA256 result := pe_Level result]> (preparedLevels st)) ->
  forall obs, reuse_ok (mkPlanState obs prepared (add_entry (planned st) result)).
Proof.
  intros [Hp He] Hres Hprep obs. constructor; cbn [preparedLevels planned add_entry Entries].
  - intros sha level Hl. rewrite length_app. cbn [length].
    assert (preparedLevels st !! sha = Some level -> materialized_before
      (Entries (planned st) ++ [result]) (length (Entries (planned st)) + 1) sha level) as Hold.
    { intros Ho. apply materialized_before_app. eapply materialized_before_le; [|by apply Hp]. lia. }
    destruct Hprep as [-> |[Hm ->]]; [auto|].
    apply lookup_insert_Some in Hl as [[<- <-]|[_ Hl]]; [|auto].
    exists (length (Entries (planned st))), result. split; [lia|].
    split; [by apply list_lookup_middle|done].
  - intros i e Hi Hr. apply lookup_app_Some in Hi as [Hi|[Hle Hi]].
    + destruct (He i e Hi Hr). split; [done|]. by apply materialized_before_app.
    + apply list_lookup_singleton_Some in Hi as [Hz <-]. destruct (Hres Hr) as [? Hlk].
      split; [done|]. apply materialized_before_app. eapply materialized_before_le; [|by apply Hp]. lia.
Qed.

Lemma plan_entry_reuse st e : reuse_ok st -> reuse_ok (plan_entry ObserveVariant cacheDir st e).
Proof.
  intros Hok. unfold plan_entry.
  assert (exists o st1, (match observations st !! SHA256 e with
    | Some observation => (observation, st)
    | None => _
    end) = (o, st1) /\ preparedLevels st1 = preparedLevels st /\
      Entries (planned st1) = Entries (planned st)) as (o & st1 & -> & Ep & Ee)
    by (destruct (observations st !! SHA256 e); eexists _, _; split; [done|done|done|done]).
  assert (reuse_ok st1) as Hok1.
  { destruct Hok as [H1 H2]. constructor; rewrite ?Ep, Ee; auto. }
  clear Hok Ep Ee st. set (result := if negb _ && _ then _ else _).
  assert (pe_SHA256 result = SHA256 e /\ pe_Level result = ve_Level e) as [Es El]
    by (unfold result; by destruct (_ && _)).
  apply append_reuse; [done| |].
  - unfold result. destruct (negb (String.eqb _ _) && _) eqn:Eb; [|done].
    intros _. cbn. split; [done|]. apply andb_true_iff in Eb as [Eb _].
    unfold prior_level in Eb. unfold prior_level.
    destruct (preparedLevels st1 !! SHA256 e); [done|]. by cbn in Eb.
  - destruct (MaterializationPossible result && _) eqn:Eb; [|by left]. right.
    apply andb_true_iff in Eb as [Eb _]. by rewrite Es, El.
Qed.

Lemma plan_entries_reuse es st :
  reuse_ok st -> reuse_ok (foldl (plan_entry ObserveVariant cacheDir) st es).
Proof.
  revert st. induction es as [|e es IH]; intros st Hok; [done|]. cbn.
  apply IH. by apply plan_entry_reuse.
Qed.

Lemma sizes_bound es :
  Forall declared es -> 0 <= sizes es <= Z.of_nat (length es) * MaxPayloadSize.
Proof.
  induction 1 as [|e es [_ ?] _ IH]; [done|]. rewrite sizes_cons. cbn [length]. lia.
Qed.

Lemma length_firsts seen es : (length (firsts seen es) <= length es)%nat.
Proof.
  revert seen. induction es as [|e es IH]; intros seen; cbn; [done|].
  destruct (decide _); cbn; [specialize (IH seen)|specialize (IH ({[SHA256 e]} ∪ seen))]; lia.
Qed.

Lemma selected_declared idx o targets limit sel total :
  valid_layout idx o -> Z.of_nat (length (Variants idx)) <= 65535 ->
  selectPrewarmVariants idx targets limit = Ok (sel, total) ->
  Forall declared sel /\ Z.of_nat (length sel) <= 65535 /\ total = sizes (firsts ∅ sel).
Proof.
  intros Hl Hn H. apply (select_prewarm_spec idx o) in H as (_ & -> & _ & -> & _); [|done|done].
  split; [|split; [|done]].
  - apply Forall_fmap, Forall_forall. intros v Hv%list_elem_of_In.
    apply filter_In in Hv as [Hv%list_elem_of_In _].
    pose proof (proj1 (Forall_forall _ _) (vl_variants _ _ Hl) v Hv) as (_ & _ & _ & _ & ? & _ & ?).
    split; [by apply digest_syntax_lower|done].
  - rewrite length_fmap. pose proof (filter_length_le (wanted idx targets) (Variants idx)). lia.
Qed.

(** From an empty plan there is room for every selected digest. *)
Lemma room_start total sel :
  Forall declared sel -> Z.of_nat (length sel) <= 65535 ->
  room (mkPrewarmPlan [] 0 total 0 0 0) (firsts ∅ sel).
Proof.
  intros Hd Hn. pose proof (firsts_declared ∅ sel Hd) as Hf.
  pose proof (sizes_bound _ Hf) as Hb. pose proof (length_firsts ∅ sel).
  pose proof (observed_split (firsts ∅ sel)).
  pose proof (observed_nonneg is_valid _ Hf). pose proof (observed_nonneg is_missing _ Hf).
  pose proof (observed_nonneg is_blocked _ Hf). unfold MaxPayloadSize in Hb.
  unfold room. cbn. split_and!; int_range.
Qed.
End PlanTheorems.

(** ** Theorems *)

(** A prewarm selects exactly the variants asked for, refuses a digest declared with two
    sizes, counts the bytes of each digest once, and keeps the caller's limit. *)
Theorem selectPrewarmVariants_exact {GU : GoUnicode} (idx : Index) (indexOffset : Z) (targetLevels : list string)
    (limit : option Z) (selected : list VariantEntry) (total : Z) :
  valid_layout idx indexOffset -> Z.of_nat (length (Variants idx)) <= 65535 ->
  selectPrewarmVariants idx targetLevels limit = Ok (selected, total) <->
  (forall t, t ∈ targetLevels -> FindVariant idx t <> None) /\
  selected = lower_digest <$> List.filter (wanted idx targetLevels) (Variants idx) /\
  (forall e e', e ∈ selected -> e' ∈ selected -> SHA256 e = SHA256 e' ->
     UncompressedSize e = UncompressedSize e') /\
  total = sizes (firsts ∅ selected) /\
  (forall l, limit = Some l -> total <= l).
Proof. apply select_prewarm_spec. Qed.

(** The plan accounts for every selected digest once: the verified, missing and blocked
    bytes are those of the digests observed so, they add up to the unique bytes, and an entry
    that is to reuse another one names an earlier entry with its digest that can be
    materialized. *)
Theorem PlanPrewarmBinary_accounts {GU : GoUnicode} `{ReaderAt R}
    (ObserveVariant : VariantEntry -> string -> VariantObservation) (r : R) (totalSize : Z)
    (targetLevels : list string) (cacheDir : string) (limit : option Z) (idx : Index)
    (plan : PrewarmPlan) :
  int64_range totalSize ->
  PlanPrewarmBinary ObserveVariant r totalSize targetLevels cacheDir limit = Ok (idx, plan) ->
  exists selected, selectPrewarmVariants idx targetLevels limit = Ok (selected, UniquePayloadBytes plan) /\
    let us := firsts ∅ selected in
    UniquePayloadCount plan = Z.of_nat (length us) /\
    VerifiedCacheBytes plan = observed ObserveVariant cacheDir is_valid us /\
    NeedsMaterializationBytes plan = observed ObserveVariant cacheDir is_missing us /\
    BlockedPayloadBytes plan = observed ObserveVariant cacheDir is_blocked us /\
    VerifiedCacheBytes plan + NeedsMaterializationBytes plan + BlockedPayloadBytes plan =
      UniquePayloadBytes plan /\
    (forall i e, Entries plan !! i = Some e -> ReuseAfterLevel e <> ""%string ->
       CanPrewarm e = true /\
       materialized_before (Entries plan) i (pe_SHA256 e) (ReuseAfterLevel e)).
Proof.
  intros Hr H0. unfold PlanPrewarmBinary in H0. apply bind_Ok_inv in H0 as (idx0 & Hread & H0).
  apply bind_Ok_inv in H0 as ([sel total] & Hsel & H0). apply bind_Ok_inv in H0 as (d & _ & H0).
  injection H0 as -> <-. apply wrap_err_Ok in Hread.
  apply read_trailer_opened in Hread as (o & b & Ho); [|done].
  destruct Ho as [H0 H1 H2 _ _ _ Hu Hb].
  apply unmarshal_count in Hu as Hn. apply unmarshal_sound in Hu as (Ht & _).
  unfold TrailerSize in *. apply ValidateBounds_layout in Hb; [|done|int_range].
  destruct (selected_declared idx o targetLevels limit sel total Hb Hn Hsel) as (Hd & Hc & Htot).
  set (st := mkPlanState ∅ ∅ (mkPrewarmPlan [] 0 total 0 0 0)).
  assert (dom (observations st) = ∅) as Hdom by apply dom_empty_L.
  pose proof (plan_entries_count ObserveVariant cacheDir sel st Hd) as Hcount.
  rewrite Hdom in Hcount. specialize (Hcount (room_start _ _ total sel Hd Hc)).
  destruct Hcount as (E1 & E2 & E3 & E4 & E5). rewrite E1. cbn [planned st UniquePayloadBytes] in *.
  exists sel. split; [done|]. cbv zeta. rewrite E2, E3, E4, E5. cbn. split_and!; try done.
  - rewrite Htot. apply observed_split.
  - apply ro_entries. apply plan_entries_reuse. constructor; cbn.
    + intros sha level Hl. by rewrite lookup_empty in Hl.
    + intros i e Hi. by rewrite lookup_nil in Hi.
Qed.

(** ** A concrete prewarm *)

(** A cache that holds nothing. *)
Definition empty_cache (e : VariantEntry) (dir : string) : VariantObservation :=
  mkObservation ObservationMissing (dir ++ "/" ++ SHA256 e) "".

Lemma sample_layout : @valid_layout ascii_tables sample_index 10.
Proof.
  apply (@ValidateBounds_layout ascii_tables); [exact sample_typed|int_range|vm_compute; reflexivity].
Qed.

Lemma selectPrewarmVariants_exact_witness :
  @selectPrewarmVariants ascii_tables sample_index ["v1"; "v3"]%string (Some 3) =
    Ok ([sample_v1; sample_v3], 3) <->
  (forall t, t ∈ ["v1"; "v3"]%string -> @FindVariant ascii_tables sample_index t <> None) /\
  [sample_v1; sample_v3] = @lower_digest ascii_tables <$>
    List.filter (@wanted ascii_tables sample_index ["v1"; "v3"]%string) (Variants sample_index) /\
  (forall e e', e ∈ [sample_v1; sample_v3] -> e' ∈ [sample_v1; sample_v3] -> SHA256 e = SHA256 e' ->
     UncompressedSize e = UncompressedSize e') /\
  3 = sizes (firsts ∅ [sample_v1; sample_v3]) /\
  (forall l, Some 3 = Some l -> 3 <= l).
Proof.
  apply (@selectPrewarmVariants_exact ascii_tables sample_index 10).
  - exact sample_layout.
  - vm_compute. discriminate.
Defined.

Definition sample_prewarm : outcome prewarm_err (Index * PrewarmPlan) :=
  @PlanPrewarmBinary ascii_tables empty_cache _ _ sample_file (Z.of_nat (length sample_file)) []
    "/cache" None.

Definition sample_prewarm_plan : PrewarmPlan :=
  match sample_prewarm with Ok (_, plan) => plan | _ => mkPrewarmPlan [] 0 0 0 0 0 end.

Lemma PlanPrewarmBinary_accounts_witness :
  exists selected,
    @selectPrewarmVariants ascii_tables sample_index [] None =
      Ok (selected, UniquePayloadBytes sample_prewarm_plan) /\
    let us := firsts ∅ selected in
    UniquePayloadCount sample_prewarm_plan = Z.of_nat (length us) /\
    VerifiedCacheBytes sample_prewarm_plan = observed empty_cache "/cache" is_valid us /\
    NeedsMaterializationBytes sample_prewarm_plan = observed empty_cache "/cache" is_missing us /\
    BlockedPayloadBytes sample_prewarm_plan = observed empty_cache "/cache" is_blocked us /\
    VerifiedCacheBytes sample_prewarm_plan + NeedsMaterializationBytes sample_prewarm_plan +
      BlockedPayloadBytes sample_prewarm_plan = UniquePayloadBytes sample_prewarm_plan /\
    (forall i e, Entries sample_prewarm_plan !! i = Some e -> ReuseAfterLevel e <> ""%string ->
       CanPrewarm e = true /\
       materialized_before (Entries sample_prewarm_plan) i (pe_SHA256 e) (ReuseAfterLevel e)).
Proof.
  apply (@PlanPrewarmBinary_accounts ascii_tables _ _ empty_cache sample_file
    (Z.of_nat (length sample_file)) [] "/cache" None sample_index sample_prewarm_plan).
  - vm_compute. split; [discriminate|reflexivity].
  - vm_compute. reflexivity.
Defined.
