(* ===== verification/Vfs.v ===== *)
(** * Files, directories and system calls

    The state the transactional code works on: a tree of directory entries over
    inodes, the attributes of every inode, and the advisory locks.  Every
    system call goes through [syscall], which counts the calls and asks the
    [Kernel] what happens at each: other processes may change the file system
    just before it, it may fail with any error number, or the process may die
    there.  A theorem over an arbitrary [Kernel] therefore covers every error
    path and every crash point of the code. *)

From S2P Require Import Prelude GoStrings GoPath.
From stdpp Require Import base list strings gmap.
From Stdlib Require Import ZArith Lia Strings.Ascii Strings.Byte.

Local Open Scope Z_scope.

(** ** Errors

    A Go error is the set of sentinels and error numbers that [errors.Is] finds
    in its tree: wrapping with two verbs, and [errors.Join], append. *)

Inductive errno : Set :=
| ENOENT | EEXIST | ENOTDIR | EISDIR | ENOTEMPTY | ELOOP | EINVAL | ENOSYS
| ENOTSUP | ENODATA | ERANGE | EWOULDBLOCK | EINTR | EACCES | EPERM | EXDEV
| EBADF | EIO | ENOSPC | ENOMEM | EMFILE | ENFILE | ETXTBSY | EROFS | ENOEXEC
| PathEscapes.

Global Instance errno_eq_dec : EqDecision errno.
Proof. solve_decision. Defined.

Inductive etag : Set :=
| Errno (e : errno)
| Sentinel (name : string).

Global Instance etag_eq_dec : EqDecision etag.
Proof. solve_decision. Defined.

Definition gerror : Set := list etag.

Definition errors_Is (e : gerror) (t : etag) : bool := bool_decide (t ∈ e).

(** [errors.New] with a text of its own: nothing else is ever equal to it. *)
Definition errors_New (text : string) : gerror := [Sentinel text].

(** [os.ErrNotExist] and [os.ErrExist] match through [syscall.Errno.Is]. *)
Definition is_not_exist (e : gerror) : bool := errors_Is e (Errno ENOENT).
Definition is_exist (e : gerror) : bool :=
  errors_Is e (Errno EEXIST) || errors_Is e (Errno ENOTEMPTY).

(** ** The file system *)

Inductive tnode : Type :=
| TFile
| TDir (m : gmap string Z)
| TLink (target : string)
| TOther.

Abbreviation tree := (gmap Z tnode).

Record attr := mkAttr {
  a_dev : Z;
  a_perm : Z;
  a_uid : Z;
  a_gid : Z;
  a_mtime : Z;
  a_data : list byte;
  a_xattrs : gmap string (list byte)
}.

Record fs := mkFs {
  f_tree : tree;
  f_attr : gmap Z attr;
  f_locks : gset Z
}.

Definition entries (T : tree) (d : Z) : option (gmap string Z) :=
  match T !! d with
  | Some (TDir m) => Some m
  | _ => None
  end.

(** What the name [n] of the directory [d] stands for. *)
Definition entry (T : tree) (d : Z) (n : string) : option Z := entries T d ≫= (.!! n).

Definition set_entry (T : tree) (d : Z) (n : string) (i : Z) : tree :=
  match entries T d with
  | Some m => <[d := TDir (<[n := i]> m)]> T
  | None => T
  end.

Definition del_entry (T : tree) (d : Z) (n : string) : tree :=
  match entries T d with
  | Some m => <[d := TDir (delete n m)]> T
  | None => T
  end.

(** Names of an inode, over all directories. *)
Definition nlink (T : tree) (i : Z) : Z :=
  map_fold (fun _ node acc =>
    match node with
    | TDir m => Z.of_nat (size (filter (fun e => e.2 = i) m)) + acc
    | _ => acc
    end) 0 T.

Definition max_key {A} (m : gmap Z A) : Z := map_fold (fun k _ acc => Z.max k acc) 0 m.

(** An inode number neither the tree nor the attributes know. *)
Definition next_ino (F : fs) : Z := 1 + Z.max (max_key (f_tree F)) (max_key (f_attr F)).

Definition with_tree (F : fs) (T : tree) : fs := mkFs T (f_attr F) (f_locks F).

Definition set_attr (F : fs) (i : Z) (a : attr) : fs :=
  mkFs (f_tree F) (<[i := a]> (f_attr F)) (f_locks F).

(** ** Path resolution

    [walk] goes down the components with the directories passed on a stack, the
    current one on top.  A symbolic link is replaced by its target, at most
    [links] times.  In an [os.Root] ([root = None]) neither an absolute target
    nor a double dot may leave the directory the root was opened on.  Empty and
    dot components are dropped before the walk. *)

Record loc := mkLoc {
  l_dir : list Z;
  l_name : option string;
  l_ino : option Z
}.

Definition components (path : string) : list string :=
  List.filter (fun c => negb (String.eqb c "" || String.eqb c ".")) (Split path slash).

Section walk.
Context (T : tree) (root : option (list Z)) (follow : bool).

Fixpoint walk (links : nat) : list Z -> list string -> outcome errno loc :=
  fix go (stack : list Z) (cs : list string) {struct cs} : outcome errno loc :=
    match cs with
    | [] => Ok (mkLoc stack None (head stack))
    | c :: rest =>
        if String.eqb c ".." then
          match stack with
          | _ :: ((_ :: _) as up) => go up rest
          | _ => match root with Some _ => go stack rest | None => Err PathEscapes end
          end
        else
          match stack with
          | [] => Err ENOENT
          | d :: _ =>
              match entries T d with
              | None => Err ENOTDIR
              | Some m =>
                  match m !! c with
                  | None =>
                      match rest with
                      | [] => Ok (mkLoc stack (Some c) None)
                      | _ => Err ENOENT
                      end
                  | Some i =>
                      match T !! i, rest with
                      | Some (TLink t), _ =>
                          if match rest with [] => negb follow | _ => false end
                          then Ok (mkLoc stack (Some c) (Some i))
                          else
                            match links with
                            | O => Err ELOOP
                            | S l =>
                                if is_rooted t
                                then match root with
                                     | Some r => walk l r (components t ++ rest)
                                     | None => Err PathEscapes
                                     end
                                else walk l stack (components t ++ rest)
                            end
                      | _, [] => Ok (mkLoc stack (Some c) (Some i))
                      | Some (TDir _), _ => go (i :: stack) rest
                      | _, _ => Err ENOTDIR
                      end
                  end
              end
          end
    end.

End walk.

(** ** The kernel *)

Inductive fault : Type :=
| NoFault
| Fails (e : errno)
| Dies.

(** What the environment decides, call by call: interference by other
    processes ([k_env]), failures, random numbers, times, the extended
    attributes a new file inherits, and the mode a file system really stores
    when asked for one. *)
Class Kernel := {
  k_env : nat -> fs -> fs;
  k_fault : nat -> fault;
  k_random : nat -> Z;
  k_time : nat -> Z;
  k_inherited : nat -> gmap string (list byte);
  k_chmod : nat -> Z -> Z;
  k_euid : Z;
  k_egid : Z;
  k_umask : Z;
  k_dev : Z;
  k_root : Z;
  k_cwd : list Z;
  k_symlinks : nat
}.

(** No other process touches the file system. *)
Definition quiet `{Kernel} : Prop := forall n F, k_env n F = F.

(** No call fails and the process is not killed. *)
Definition faultless `{Kernel} : Prop := forall n, k_fault n = NoFault.

(** No call says that a name is missing when it is there. *)
Definition truthful `{Kernel} : Prop := forall n, k_fault n <> Fails ENOENT.

(** ** The monad

    A run has a state of the world: the file system, the number of calls made,
    and the changes the process made itself, as pairs of file systems. *)

Record world := mkWorld {
  w_fs : fs;
  w_clock : nat;
  w_log : list (fs * fs)
}.

Inductive res (A : Type) : Type :=
| Done (a : A)
| Failed (e : gerror)
| Dead.
Arguments Done {A} a.
Arguments Failed {A} e.
Arguments Dead {A}.

Definition io (A : Type) : Type := world -> res A * world.

Global Instance io_ret : MRet io := fun A a w => (Done a, w).
Global Instance io_bind : MBind io := fun A B k m w =>
  match m w with
  | (Done a, w') => k a w'
  | (Failed e, w') => (Failed e, w')
  | (Dead, w') => (Dead, w')
  end.

Definition fail {A} (e : gerror) : io A := fun w => (Failed e, w).

(** [if err != nil { return wrap(err) }] after a call. *)
Definition wrapping {A} (f : gerror -> gerror) (m : io A) : io A := fun w =>
  match m w with
  | (Failed e, w') => (Failed (f e), w')
  | r => r
  end.

(** A call whose error is looked at. *)
Definition try {A} (m : io A) : io (A + gerror) := fun w =>
  match m w with
  | (Done a, w') => (Done (inl a), w')
  | (Failed e, w') => (Done (inr e), w')
  | (Dead, w') => (Dead, w')
  end.

(** [_ = f()]: the error is dropped. *)
Definition ignore (m : io unit) : io unit := fun w =>
  match m w with
  | (Failed _, w') => (Done tt, w')
  | r => r
  end.

(** [defer cleanup()]: runs after a return and after an error, not after the
    death of the process; what it returns is dropped. *)
Definition deferring {A} (cleanup : io unit) (m : io A) : io A := fun w =>
  match m w with
  | (Dead, w') => (Dead, w')
  | (r, w') =>
      match cleanup w' with
      | (Dead, w'') => (Dead, w'')
      | (_, w'') => (r, w'')
      end
  end.

(** [errors.Join] of results, every one computed. *)
Fixpoint join_all (ms : list (io unit)) (acc : gerror) : io unit := fun w =>
  match ms with
  | [] => match acc with [] => (Done tt, w) | _ => (Failed acc, w) end
  | m :: rest =>
      match m w with
      | (Done _, w') => join_all rest acc w'
      | (Failed e, w') => join_all rest (acc ++ e) w'
      | (Dead, w') => (Dead, w')
      end
  end.

Fixpoint each {A} (f : A -> io unit) (l : list A) : io unit :=
  match l with
  | [] => mret tt
  | a :: rest => _ ← f a; each f rest
  end.

Section calls.
Context `{Kernel}.

Definition syscall {A} (f : nat -> fs -> outcome errno (A * fs)) : io A := fun w =>
  let n := w_clock w in
  let F := k_env n (w_fs w) in
  match k_fault n with
  | Dies => (Dead, mkWorld F (S n) (w_log w))
  | Fails e => (Failed [Errno e], mkWorld F (S n) (w_log w))
  | NoFault =>
      match f n F with
      | Ok (a, F') => (Done a, mkWorld F' (S n) ((F, F') :: w_log w))
      | Err e => (Failed [Errno e], mkWorld F (S n) (w_log w))
      | Panic => (Failed [Errno EIO], mkWorld F (S n) (w_log w))
      end
  end.

(** A call that only looks. *)
Definition inspect {A} (f : fs -> outcome errno A) : io A :=
  syscall (fun _ F => a ← f F; Ok (a, F)).

(** ** Where a path starts: the working directory, a directory descriptor, or
    an [os.Root]. *)

Record base := mkBase { b_stack : list Z; b_root : option (list Z) }.

Definition cwd_base : base := mkBase k_cwd (Some [k_root]).
Definition fd_base (d : Z) : base := mkBase [d] (Some [k_root]).
Definition root_base (d : Z) : base := mkBase [d] None.

Definition locate (b : base) (follow : bool) (path : string) (F : fs) : outcome errno loc :=
  if String.eqb path "" then Err ENOENT
  else if is_rooted path then
    match b_root b with
    | Some r => walk (f_tree F) (b_root b) follow k_symlinks r (components path)
    | None => Err PathEscapes
    end
  else walk (f_tree F) (b_root b) follow k_symlinks (b_stack b) (components path).

Definition found (l : loc) : outcome errno Z :=
  match l_ino l with Some i => Ok i | None => Err ENOENT end.

(** The directory and the name a call that changes an entry works on. *)
Definition place (l : loc) : outcome errno (Z * string) :=
  match l_dir l, l_name l with
  | d :: _, Some n => Ok (d, n)
  | _, _ => Err EINVAL
  end.

(** ** Attributes *)

Record FileInfo := mkInfo {
  fi_ino : Z;
  fi_node : tnode;
  fi_attr : attr;
  fi_nlink : Z
}.

Definition fi_size (i : FileInfo) : Z := Z.of_nat (length (a_data (fi_attr i))).

Definition info_of (i : Z) (F : fs) : outcome errno FileInfo :=
  match f_tree F !! i, f_attr F !! i with
  | Some node, Some a => Ok (mkInfo i node a (nlink (f_tree F) i))
  | _, _ => Err ENOENT
  end.

Definition sys_stat (b : base) (follow : bool) (path : string) : io FileInfo :=
  inspect (fun F => l ← locate b follow path F; i ← found l; info_of i F).

Definition sys_fstat (i : Z) : io FileInfo := inspect (info_of i).

Definition read_attr (i : Z) (F : fs) : outcome errno attr :=
  match f_attr F !! i with Some a => Ok a | None => Err EBADF end.

(** A change of the attributes of an open file. *)
Definition update_attr (i : Z) (f : nat -> attr -> outcome errno attr) : io unit :=
  syscall (fun n F => a ← read_attr i F; a' ← f n a; Ok (tt, set_attr F i a')).

Definition sys_fchmod (i perm : Z) : io unit :=
  update_attr i (fun n a => Ok (mkAttr (a_dev a) (k_chmod n perm) (a_uid a) (a_gid a)
    (a_mtime a) (a_data a) (a_xattrs a))).

Definition sys_fchown (i uid gid : Z) : io unit :=
  update_attr i (fun n a => Ok (mkAttr (a_dev a) (a_perm a) uid gid
    (a_mtime a) (a_data a) (a_xattrs a))).

Definition set_xattrs (a : attr) (x : gmap string (list byte)) : attr :=
  mkAttr (a_dev a) (a_perm a) (a_uid a) (a_gid a) (a_mtime a) (a_data a) x.

Definition sys_fsetxattr (i : Z) (name : string) (v : list byte) : io unit :=
  update_attr i (fun n a => Ok (set_xattrs a (<[name := v]> (a_xattrs a)))).

Definition sys_fremovexattr (i : Z) (name : string) : io unit :=
  update_attr i (fun n a =>
    match a_xattrs a !! name with
    | Some _ => Ok (set_xattrs a (delete name (a_xattrs a)))
    | None => Err ENODATA
    end).

(** The data of an open file after a write, with the time of the write. *)
Definition sys_write (i : Z) (f : list byte -> list byte) : io unit :=
  update_attr i (fun n a => Ok (mkAttr (a_dev a) (a_perm a) (a_uid a) (a_gid a)
    (k_time n) (f (a_data a)) (a_xattrs a))).

(** Names of the extended attributes: the size of the list, or the list in a
    buffer of a given size. *)
Definition xattr_names (a : attr) : list string := (map_to_list (a_xattrs a)).*1.

Definition names_size (names : list string) : Z :=
  Z.of_nat (foldr (fun n acc => S (String.length n) + acc)%nat 0%nat names).

Definition list_size (i : Z) (F : fs) : outcome errno Z :=
  a ← read_attr i F; Ok (names_size (xattr_names a)).

Definition list_into (i size : Z) (F : fs) : outcome errno (list string) :=
  a ← read_attr i F;
  if names_size (xattr_names a) <=? size then Ok (xattr_names a) else Err ERANGE.

Definition get_size (i : Z) (name : string) (F : fs) : outcome errno Z :=
  a ← read_attr i F;
  match a_xattrs a !! name with
  | Some v => Ok (Z.of_nat (length v))
  | None => Err ENODATA
  end.

(** A value in a buffer of [size] zero bytes. *)
Definition get_into (i : Z) (name : string) (size : Z) (F : fs) : outcome errno (list byte) :=
  a ← read_attr i F;
  match a_xattrs a !! name with
  | Some v => if Z.of_nat (length v) <=? size
              then Ok (v ++ replicate (Z.to_nat size - length v) (byte_of 0))
              else Err ERANGE
  | None => Err ENODATA
  end.

Definition sys_flistxattr_size (i : Z) : io Z := inspect (list_size i).
Definition sys_flistxattr (i size : Z) : io (list string) := inspect (list_into i size).
Definition sys_fgetxattr_size (i : Z) (n : string) : io Z := inspect (get_size i n).
Definition sys_fgetxattr (i : Z) (n : string) (size : Z) : io (list byte) :=
  inspect (get_into i n size).

(** ** Opening *)

(** [open] for reading; with [O_NOFOLLOW] a final symbolic link is refused. *)
Definition sys_open (b : base) (nofollow : bool) (path : string) : io Z :=
  inspect (fun F =>
    l ← locate b (negb nofollow) path F;
    i ← found l;
    match f_tree F !! i with
    | Some (TLink _) => Err ELOOP
    | Some TOther => Err EIO
    | Some _ => Ok i
    | None => Err ENOENT
    end).

Definition sys_opendir (b : base) (path : string) : io Z :=
  inspect (fun F =>
    l ← locate b true path F;
    i ← found l;
    match f_tree F !! i with
    | Some (TDir _) => Ok i
    | _ => Err ENOTDIR
    end).

(** [open] with [O_DIRECTORY | O_NOFOLLOW]: what is not a directory, a link
    included, is refused. *)
Definition sys_opendir_nofollow (b : base) (path : string) : io Z :=
  inspect (fun F =>
    l ← locate b false path F;
    i ← found l;
    match f_tree F !! i with
    | Some (TDir _) => Ok i
    | _ => Err ENOTDIR
    end).

(** [pread]: at most [n] bytes from [off]. *)
Definition sys_pread (i : Z) (n : nat) (off : Z) : io (list byte) :=
  inspect (fun F => a ← read_attr i F; Ok (take n (drop (Z.to_nat off) (a_data a)))).

(** Random bytes, as a number. *)
Definition sys_getrandom : io Z := syscall (fun n F => Ok (k_random n, F)).

Definition new_attr (n : nat) (perm : Z) : attr :=
  mkAttr k_dev (Z.land perm (Z.lnot k_umask)) k_euid k_egid (k_time n) [] (k_inherited n).

(** A new inode under a name that must not exist. *)
Definition add_node (b : base) (path : string) (node : tnode) (a : attr) (F : fs) :
    outcome errno (Z * fs) :=
  l ← locate b false path F;
  match l_ino l with
  | Some _ => Err EEXIST
  | None =>
      dn ← place l;
      let i := next_ino F in
      Ok (i, mkFs (set_entry (<[i := node]> (f_tree F)) dn.1 dn.2 i)
                  (<[i := a]> (f_attr F)) (f_locks F))
  end.

Definition sys_create_excl (b : base) (path : string) (perm : Z) : io Z :=
  syscall (fun n => add_node b path TFile (new_attr n perm)).

(** [open] with [O_RDWR | O_CREAT | O_NOFOLLOW]: the file, made if the name is
    free. *)
Definition sys_open_create (b : base) (path : string) (perm : Z) : io Z :=
  syscall (fun n F =>
    l ← locate b false path F;
    match l_ino l with
    | None => add_node b path TFile (new_attr n perm) F
    | Some i =>
        match f_tree F !! i with
        | Some TFile => Ok (i, F)
        | Some (TDir _) => Err EISDIR
        | Some (TLink _) => Err ELOOP
        | _ => Err EIO
        end
    end).

Definition sys_mkdir (b : base) (path : string) (perm : Z) : io unit :=
  syscall (fun n F => '(_, F') ← add_node b path (TDir ∅) (new_attr n perm) F; Ok (tt, F')).

Definition sys_symlink (b : base) (target path : string) : io unit :=
  syscall (fun n F => '(_, F') ← add_node b path (TLink target) (new_attr n 511) F; Ok (tt, F')).

Definition sys_readlink (b : base) (path : string) : io string :=
  inspect (fun F =>
    l ← locate b false path F;
    i ← found l;
    match f_tree F !! i with
    | Some (TLink t) => Ok t
    | Some _ => Err EINVAL
    | None => Err ENOENT
    end).

Definition sys_readdir (d : Z) : io (list string) :=
  inspect (fun F =>
    match entries (f_tree F) d with
    | Some m => Ok (map_to_list m).*1
    | None => Err ENOTDIR
    end).

(** ** Changing entries *)

Definition is_dir (F : fs) (i : Z) : bool :=
  match f_tree F !! i with Some (TDir _) => true | _ => false end.

Definition is_empty_dir (F : fs) (i : Z) : bool :=
  match f_tree F !! i with Some (TDir m) => bool_decide (m = ∅) | _ => false end.

Definition unlink_at (l : loc) (want_dir : bool) (F : fs) : outcome errno (unit * fs) :=
  i ← found l;
  dn ← place l;
  if want_dir then
    if negb (is_dir F i) then Err ENOTDIR
    else if negb (is_empty_dir F i) then Err ENOTEMPTY
    else Ok (tt, with_tree F (del_entry (f_tree F) dn.1 dn.2))
  else if is_dir F i then Err EISDIR
  else Ok (tt, with_tree F (del_entry (f_tree F) dn.1 dn.2)).

Definition sys_unlink (b : base) (path : string) : io unit :=
  syscall (fun _ F => l ← locate b false path F; unlink_at l false F).

Definition sys_rmdir (b : base) (path : string) : io unit :=
  syscall (fun _ F => l ← locate b false path F; unlink_at l true F).

Definition move (T : tree) (from to : Z * string) (i : Z) : tree :=
  set_entry (del_entry T from.1 from.2) to.1 to.2 i.

(** [renameat2]: two names of one inode stay as they are; a directory only
    replaces an empty directory, anything else only what is not a directory. *)
Definition rename_at (noreplace : bool) (from to : loc) (F : fs) : outcome errno (unit * fs) :=
  i ← found from;
  src ← place from;
  dst ← place to;
  match l_ino to with
  | None => Ok (tt, with_tree F (move (f_tree F) src dst i))
  | Some j =>
      if noreplace then Err EEXIST
      else if i =? j then Ok (tt, F)
      else if is_dir F i then
        if negb (is_dir F j) then Err ENOTDIR
        else if negb (is_empty_dir F j) then Err ENOTEMPTY
        else Ok (tt, with_tree F (move (f_tree F) src dst i))
      else if is_dir F j then Err EISDIR
      else Ok (tt, with_tree F (move (f_tree F) src dst i))
  end.

Definition sys_rename (noreplace : bool) (b1 : base) (p1 : string) (b2 : base) (p2 : string) :
    io unit :=
  syscall (fun _ F =>
    from ← locate b1 false p1 F;
    to ← locate b2 false p2 F;
    rename_at noreplace from to F).

Definition link_at (from to : loc) (F : fs) : outcome errno (unit * fs) :=
  i ← found from;
  match l_ino to with
  | Some _ => Err EEXIST
  | None =>
      dst ← place to;
      if is_dir F i then Err EPERM
      else Ok (tt, with_tree F (set_entry (f_tree F) dst.1 dst.2 i))
  end.

Definition sys_link (b1 : base) (p1 : string) (b2 : base) (p2 : string) : io unit :=
  syscall (fun _ F =>
    from ← locate b1 false p1 F;
    to ← locate b2 false p2 F;
    link_at from to F).

(** ** Durability and locks: [fsync] and [close] can fail, and change nothing
    another process can see. *)

Definition sys_fsync (i : Z) : io unit := inspect (fun _ => Ok tt).
Definition sys_close (i : Z) : io unit := inspect (fun _ => Ok tt).

Definition sys_flock_nb (i : Z) : io unit :=
  syscall (fun _ F =>
    if decide (i ∈ f_locks F) then Err EWOULDBLOCK
    else Ok (tt, mkFs (f_tree F) (f_attr F) ({[i]} ∪ f_locks F))).

Definition sys_funlock (i : Z) : io unit :=
  syscall (fun _ F => Ok (tt, mkFs (f_tree F) (f_attr F) (f_locks F ∖ {[i]}))).

End calls.
