(* ===== verification/GoOS.v ===== *)
(** * Go's [os] package over the system calls

    File modes, the functions of [os] and [path/filepath] the transactional
    code calls, written as the sequences of system calls they make: a single
    call of [os.Remove] or [os.Rename] can die between two of them. *)

From S2P Require Import Prelude GoStrings GoPath Vfs.
From stdpp Require Import base list strings gmap.
From Stdlib Require Import ZArith Lia Strings.Ascii Strings.Byte.

Local Open Scope Z_scope.

(** ** [os.FileMode] *)

Definition ModePerm : Z := 511.
Definition ModeSticky : Z := 2 ^ 20.
Definition ModeSetgid : Z := 2 ^ 22.
Definition ModeSetuid : Z := 2 ^ 23.
Definition ModeIrregular : Z := 2 ^ 19.
Definition ModeSymlink : Z := 2 ^ 27.
Definition ModeDir : Z := 2 ^ 31.
Definition ModeType : Z := Z.lor (Z.lor ModeDir ModeSymlink) ModeIrregular.

Definition S_ISUID : Z := 2048.
Definition S_ISGID : Z := 1024.
Definition S_ISVTX : Z := 512.

Definition bit_if (mask m out : Z) : Z := if Z.land m mask =? 0 then 0 else out.

Definition node_mode (node : tnode) : Z :=
  match node with
  | TFile => 0
  | TDir _ => ModeDir
  | TLink _ => ModeSymlink
  | TOther => ModeIrregular
  end.

(** [fillFileStatFromSys]: the kernel's twelve permission bits and the type as
    a [FileMode]. *)
Definition go_perm (perm : Z) : Z :=
  Z.lor (Z.land perm ModePerm)
    (Z.lor (bit_if S_ISGID perm ModeSetgid)
      (Z.lor (bit_if S_ISUID perm ModeSetuid) (bit_if S_ISVTX perm ModeSticky))).

Definition Mode (i : FileInfo) : Z := Z.lor (node_mode (fi_node i)) (go_perm (a_perm (fi_attr i))).

Definition Perm (mode : Z) : Z := Z.land mode ModePerm.

Definition IsDir (i : FileInfo) : bool := match fi_node i with TDir _ => true | _ => false end.

Definition IsRegular (mode : Z) : bool := Z.land mode ModeType =? 0.

(** [syscallMode]: back to the kernel's bits. *)
Definition syscallMode (mode : Z) : Z :=
  Z.lor (Perm mode)
    (Z.lor (bit_if ModeSetuid mode S_ISUID)
      (Z.lor (bit_if ModeSetgid mode S_ISGID) (bit_if ModeSticky mode S_ISVTX))).

(** [os.SameFile] *)
Definition SameFile (a b : FileInfo) : bool :=
  (fi_ino a =? fi_ino b) && (a_dev (fi_attr a) =? a_dev (fi_attr b)).

Definition filepath_IsAbs (path : string) : bool := is_rooted path.

Section os.
Context `{Kernel}.

Definition os_Stat (path : string) : io FileInfo := sys_stat cwd_base true path.
Definition os_Lstat (path : string) : io FileInfo := sys_stat cwd_base false path.
Definition File_Chmod (f mode : Z) : io unit := sys_fchmod f (syscallMode mode).

(** The next random number of the process. *)
Definition random : io Z := fun w =>
  (Done (k_random (w_clock w)), mkWorld (w_fs w) (S (w_clock w)) (w_log w)).

(** [os.Remove]: [unlink], then [rmdir]. *)
Definition remove_at (b : base) (path : string) : io unit :=
  r ← try (sys_unlink b path);
  match r with
  | inl _ => mret tt
  | inr e =>
      r1 ← try (sys_rmdir b path);
      match r1 with
      | inl _ => mret tt
      | inr e1 => fail (if errors_Is e1 (Errno ENOTDIR) then e else e1)
      end
  end.

Definition os_Remove (path : string) : io unit := remove_at cwd_base path.

(** The removal of an emptied directory, with the error to report when it
    fails. *)
Definition remove_dir_or (d : Z) (n : string) (recurse : gerror) : io unit :=
  r ← try (sys_rmdir (fd_base d) n);
  match r with
  | inl _ => mret tt
  | inr e => if is_not_exist e then mret tt else fail (match recurse with [] => e | _ => recurse end)
  end.

(** Every step is taken; the first error is kept. *)
Fixpoint first_error {A} (f : A -> io unit) (l : list A) : io gerror :=
  match l with
  | [] => mret []
  | a :: rest =>
      r ← try (f a);
      e ← first_error f rest;
      mret match r with inr (t :: e1) => t :: e1 | _ => e end
  end.

(** [removeAllFrom]: what is not a directory is unlinked; a directory is
    emptied and removed.  The names of a directory come in one batch; [fuel]
    bounds the nesting. *)
Fixpoint remove_all_from (fuel : nat) (d : Z) (n : string) : io unit :=
  match fuel with
  | O => fail [Errno EIO]
  | S fuel' =>
      r ← try (sys_unlink (fd_base d) n);
      match r with
      | inl _ => mret tt
      | inr e =>
          if is_not_exist e then mret tt
          else if negb (errors_Is e (Errno EISDIR) || errors_Is e (Errno EPERM) || errors_Is e (Errno EACCES))
          then fail e
          else
            f ← try (sys_opendir_nofollow (fd_base d) n);
            match f with
            | inr e1 =>
                if is_not_exist e1 then mret tt
                else if errors_Is e1 (Errno ENOTDIR) || errors_Is e1 (Errno ELOOP) then fail e
                else remove_dir_or d n e1
            | inl j =>
                names ← try (sys_readdir j);
                match names with
                | inr e1 => _ ← ignore (sys_close j); if is_not_exist e1 then mret tt else fail e1
                | inl names =>
                    err ← first_error (remove_all_from fuel' j) names;
                    _ ← ignore (sys_close j);
                    remove_dir_or d n err
                end
            end
      end
  end.

(** [os.Root.RemoveAll] of a single name; nothing to remove is no error. *)
Definition remove_depth : nat := Z.to_nat 1024.

Definition root_RemoveAll (d : Z) (n : string) : io unit := remove_all_from remove_depth d n.

(** [os.Rename] refuses a directory as the new name unless both names are the
    same directory. *)
Definition os_Rename (old new : string) : io unit :=
  fi ← try (os_Lstat new);
  match fi with
  | inl i =>
      if IsDir i then
        ofi ← os_Lstat old;
        if String.eqb new old || negb (SameFile i ofi) then fail [Errno EEXIST]
        else sys_rename false cwd_base old cwd_base new
      else sys_rename false cwd_base old cwd_base new
  | inr _ => sys_rename false cwd_base old cwd_base new
  end.

Definition os_Link (old new : string) : io unit := sys_link cwd_base old cwd_base new.

Fixpoint drop_slashes (r : string) : string :=
  match r with
  | String c rest => if Ascii.eqb c slash then drop_slashes rest else r
  | EmptyString => ""
  end.

(** The path up to the separator before its last component. *)
Definition parent_prefix (path : string) : string :=
  up_to_last_slash (srev (drop_slashes (srev path))).

(** [os.MkdirAll]; the parent is a proper prefix, so the length of the path is
    fuel enough. *)
Fixpoint mkdir_all (fuel : nat) (path : string) (perm : Z) : io unit :=
  match fuel with
  | O => fail [Errno EIO]
  | S fuel' =>
      st ← try (os_Stat path);
      match st with
      | inl i => if IsDir i then mret tt else fail [Errno ENOTDIR]
      | inr _ =>
          let parent := parent_prefix path in
          _ ← (if String.eqb parent "" then mret tt else mkdir_all fuel' parent perm);
          r ← try (sys_mkdir cwd_base path perm);
          match r with
          | inl _ => mret tt
          | inr e =>
              l ← try (os_Lstat path);
              match l with
              | inl i => if IsDir i then mret tt else fail e
              | inr _ => fail e
              end
          end
      end
  end.

Definition os_MkdirAll (path : string) (perm : Z) : io unit :=
  mkdir_all (S (String.length path)) path perm.

(** [os.CreateTemp]: random names until one is free, ten thousand at most. *)
Definition temp_path (dir prefix suffix : string) (r : Z) : string :=
  ((if HasSuffix dir "/" then dir else dir ++ "/") ++ prefix ++ Itoa (r mod 2 ^ 32) ++ suffix)%string.

Fixpoint create_temp (tries : nat) (dir prefix suffix : string) : io (Z * string) :=
  r ← random;
  let name := temp_path dir prefix suffix r in
  f ← try (sys_create_excl cwd_base name 384);
  match f with
  | inl i => mret (i, name)
  | inr e =>
      match tries with
      | S tries' => if is_exist e then create_temp tries' dir prefix suffix else fail e
      | O => fail e
      end
  end.

Definition os_CreateTemp (dir prefix suffix : string) : io (Z * string) :=
  create_temp (Z.to_nat 9999) dir prefix suffix.

(** [os.MkdirTemp]; [dir] is not empty. *)
Fixpoint mkdir_temp (tries : nat) (dir prefix suffix : string) : io string :=
  r ← random;
  let name := temp_path dir prefix suffix r in
  f ← try (sys_mkdir cwd_base name 448);
  match f with
  | inl _ => mret name
  | inr e =>
      if is_exist e then
        match tries with
        | S tries' => mkdir_temp tries' dir prefix suffix
        | O => fail [Errno EEXIST]
        end
      else if is_not_exist e then
        st ← try (os_Stat dir);
        match st with
        | inr e1 => if is_not_exist e1 then fail e1 else fail e
        | inl _ => fail e
        end
      else fail e
  end.

Definition os_MkdirTemp (dir prefix suffix : string) : io string :=
  mkdir_temp (Z.to_nat 9999) dir prefix suffix.

(** [splitPath]: the directory of a path and its last element. *)
Fixpoint one_slash (path : string) : string :=
  match path with
  | String a ((String b _) as rest) => if Ascii.eqb a slash && Ascii.eqb b slash then one_slash rest else path
  | _ => path
  end.

Fixpoint drop_last (s : string) : string :=
  match s with
  | String c ((String _ _) as rest) => String c (drop_last rest)
  | _ => ""
  end.

Definition os_splitPath (path : string) : string * string :=
  let path := one_slash path in
  let trimmed := srev (drop_slashes (srev path)) in
  let path := if String.eqb trimmed "" then path else trimmed in
  let prefix := if String.eqb trimmed "" then ""%string else up_to_last_slash path in
  ((if String.eqb prefix "" then "." else if String.eqb prefix "/" then "/" else drop_last prefix)%string,
   TrimPrefix path prefix).

(** [os.RemoveAll]: [Remove], then the tree from its parent directory. *)
Definition os_RemoveAll (path : string) : io unit :=
  if String.eqb path "" then mret tt
  else if String.eqb path "." || HasSuffix path "/." then fail [Errno EINVAL]
  else
    r ← try (os_Remove path);
    match r with
    | inl _ => mret tt
    | inr e =>
        if is_not_exist e then mret tt
        else
          let '(parentDir, base) := os_splitPath path in
          p ← try (sys_open cwd_base false parentDir);
          match p with
          | inr e1 => if is_not_exist e1 then mret tt else fail e1
          | inl parent => deferring (sys_close parent) (remove_all_from remove_depth parent base)
          end
    end.

(** [filepath.EvalSymlinks]: the path rewritten component by component, asking
    the file system at each whether it is a link, 255 links at most.  The
    result so far is kept as components, last first. *)
Definition dest_path (rooted : bool) (kept : list string) : string :=
  ((if rooted then "/" else "") ++ strings_Join (rev kept) "/")%string.

Fixpoint eval_links (links : nat) : bool -> list string -> list string -> io string :=
  fix go (rooted : bool) (kept cs : list string) {struct cs} : io string :=
    match cs with
    | [] => mret (filepath_Clean (dest_path rooted kept))
    | c :: rest =>
        if String.eqb c ".." then
          match kept with
          | top :: ((_ :: _) as up) =>
              if String.eqb top ".." then go rooted (".." :: kept) rest else go rooted up rest
          | _ => go rooted (".." :: kept) rest
          end
        else
          let dest := dest_path rooted (c :: kept) in
          fi ← os_Lstat dest;
          match fi_node fi with
          | TLink _ =>
              match links with
              | O => fail (errors_New "EvalSymlinks: too many links")
              | S l =>
                  link ← sys_readlink cwd_base dest;
                  if is_rooted link then eval_links l true [] (components link ++ rest)
                  else eval_links l rooted kept (components link ++ rest)
              end
          | TDir _ => go rooted (c :: kept) rest
          | _ => match rest with
                 | [] => go rooted (c :: kept) rest
                 | _ => fail [Errno ENOTDIR]
                 end
          end
    end.

Definition filepath_EvalSymlinks (path : string) : io string :=
  eval_links 255 (is_rooted path) [] (components path).

(** [sync] of a directory: opened, synced, closed. *)
Definition sync_path (dir : string) : io unit :=
  d ← sys_open cwd_base false dir;
  deferring (sys_close d) (sys_fsync d).

End os.
