(* ===== verification/InputFile.v ===== *)
(** * Opening input files ([internal/inputfile])

    The program reads its inputs through a descriptor that was checked to be a
    nonempty regular file.  A descriptor is the inode it is open on. *)

From S2P Require Import Prelude GoStrings GoPath Vfs GoOS.
From stdpp Require Import base list strings gmap.
From Stdlib Require Import ZArith Lia Strings.Ascii Strings.Byte.

Local Open Scope Z_scope.

Definition ErrNotRegular : gerror := [Sentinel "inputfile.ErrNotRegular"].

(** What an open file holds. *)
Definition image (self : Z) (F : fs) : list byte :=
  match f_attr F !! self with Some a => a_data a | None => [] end.

Section inputfile.
Context `{Kernel}.

Definition inputfile_Open (path : string) : io Z :=
  f ← sys_open cwd_base false (filepath_Clean path);
  st ← try (sys_fstat f);
  match st with
  | inr e => _ ← ignore (sys_close f); fail e
  | inl fi =>
      match fi_node fi with
      | TFile => if fi_size fi <=? 0 then _ ← ignore (sys_close f); fail ErrNotRegular else mret f
      | _ => _ ← ignore (sys_close f); fail ErrNotRegular
      end
  end.

(** Reading through a [LimitReader], piece by piece, each piece given to
    [sink]; the bytes read.  A piece of a regular file is full but for the
    last. *)
Fixpoint read_pieces (fuel : nat) (chunk : Z) (sink : list byte -> io unit) (fd off remaining : Z)
    (acc : list byte) : io (list byte) :=
  if remaining <=? 0 then mret acc
  else
    match fuel with
    | O => fail [Errno EIO]
    | S fuel' =>
        piece ← sys_pread fd (Z.to_nat (Z.min chunk remaining)) off;
        match piece with
        | [] => mret acc
        | _ =>
            _ ← sink piece;
            let n := Z.of_nat (length piece) in
            read_pieces fuel' chunk sink fd (off + n) (remaining - n) (acc ++ piece)
        end
    end.

(** One step for each piece and one for the end. *)
Definition read_limit (chunk : Z) (sink : list byte -> io unit) (fd limit : Z) : io (list byte) :=
  read_pieces (Z.to_nat (limit / chunk + 2)) chunk sink fd 0 limit [].

End inputfile.
