(* ===== verification/VfsLogic.v ===== *)
(** * Reasoning about file system code

    Facts on entries, inode numbers and path resolution; a small program logic
    with separate conditions for returning, failing and dying; and the
    guarantee of a run, what each of its own changes does, which holds under
    any interference. *)

From S2P Require Import Prelude GoStrings GoPath Vfs GoOS.
From stdpp Require Import base list strings gmap.
From Stdlib Require Import ZArith Lia Strings.Ascii Strings.Byte.

Local Open Scope Z_scope.

(** ** Entries *)

Lemma entry_entries T d n : entry T d n = (m ← entries T d; m !! n).
Proof. reflexivity. Qed.

Lemma entries_insert T d m d' :
  entries (<[d := TDir m]> T) d' = if decide (d = d') then Some m else entries T d'.
Proof.
  unfold entries. destruct (decide (d = d')) as [<- |Hne].
  - by rewrite lookup_insert_eq.
  - by rewrite lookup_insert_ne.
Qed.

Lemma entry_set_entry T d n i d' n' :
  is_Some (entries T d) ->
  entry (set_entry T d n i) d' n' =
    if decide ((d, n) = (d', n')) then Some i else entry T d' n'.
Proof.
  intros [m Hm]. unfold set_entry. rewrite Hm, entry_entries, entries_insert.
  destruct (decide (d = d')) as [<- |Hne].
  - simpl. destruct (decide ((d, n) = (d, n'))) as [[= <-]|Hn].
    + by rewrite lookup_insert_eq.
    + rewrite lookup_insert_ne by congruence. unfold entry. by rewrite Hm.
  - destruct (decide ((d, n) = (d', n'))) as [[= ? ?]|_]; [congruence|reflexivity].
Qed.

Lemma entry_del_entry T d n d' n' :
  entry (del_entry T d n) d' n' = if decide ((d, n) = (d', n')) then None else entry T d' n'.
Proof.
  unfold del_entry. destruct (entries T d) as [m|] eqn:Hm.
  - rewrite entry_entries, entries_insert.
    destruct (decide (d = d')) as [<- |Hne].
    + simpl. destruct (decide ((d, n) = (d, n'))) as [[= <-]|Hn].
      * by rewrite lookup_delete_eq.
      * rewrite lookup_delete_ne by congruence. unfold entry. by rewrite Hm.
    + destruct (decide ((d, n) = (d', n'))) as [[= ? ?]|_]; [congruence|reflexivity].
  - destruct (decide ((d, n) = (d', n'))) as [[= <- <-]|_]; [|done].
    unfold entry. by rewrite Hm.
Qed.

Lemma entries_del_entry T d n d' : is_Some (entries T d') -> is_Some (entries (del_entry T d n) d').
Proof.
  intros [m Hm]. unfold del_entry. destruct (entries T d) eqn:Hd; [|by rewrite Hm].
  rewrite entries_insert. case_decide; eauto.
Qed.

Lemma entry_Some_entries T d n i : entry T d n = Some i -> is_Some (entries T d).
Proof. unfold entry. destruct (entries T d); [eauto|discriminate]. Qed.

(** A node that is not a directory is not touched by a change of entries. *)
Definition node_kept (T T' : tree) : Prop :=
  forall i node, T !! i = Some node ->
    match node with
    | TDir _ => is_Some (entries T' i)
    | _ => T' !! i = Some node
    end.

Lemma node_kept_refl T : node_kept T T.
Proof. intros i [] Hi; try done. unfold entries. rewrite Hi. eauto. Qed.

Lemma node_kept_trans T1 T2 T3 : node_kept T1 T2 -> node_kept T2 T3 -> node_kept T1 T3.
Proof.
  intros H12 H23 i [] Hi; specialize (H12 i _ Hi); simpl in *;
    try exact (H23 _ _ H12).
  unfold entries in H12. destruct (T2 !! i) as [[]|] eqn:Hi2; destruct H12; try discriminate.
  exact (H23 _ _ Hi2).
Qed.

Lemma node_kept_insert_dir T d m : is_Some (entries T d) -> node_kept T (<[d := TDir m]> T).
Proof.
  intros Hd i node Hi. destruct (decide (d = i)) as [<- |Hne].
  - unfold entries in Hd. rewrite Hi in Hd. destruct node; destruct Hd; try discriminate.
    unfold entries. rewrite lookup_insert_eq. eauto.
  - unfold entries. rewrite lookup_insert_ne by done. destruct node; rewrite ?Hi; eauto.
Qed.

Lemma node_kept_set_entry T d n i : node_kept T (set_entry T d n i).
Proof.
  unfold set_entry. destruct (entries T d) eqn:Hd; [|apply node_kept_refl].
  apply node_kept_insert_dir. eauto.
Qed.

Lemma node_kept_del_entry T d n : node_kept T (del_entry T d n).
Proof.
  unfold del_entry. destruct (entries T d) eqn:Hd; [|apply node_kept_refl].
  apply node_kept_insert_dir. eauto.
Qed.

Lemma node_kept_new T i node : T !! i = None -> node_kept T (<[i := node]> T).
Proof.
  intros Hi j nd Hj. assert (i <> j) by congruence. unfold entries.
  rewrite lookup_insert_ne by done. destruct nd; rewrite ?Hj; eauto.
Qed.

Lemma node_kept_move T from to i : node_kept T (move T from to i).
Proof. eapply node_kept_trans; [apply node_kept_del_entry|apply node_kept_set_entry]. Qed.

Create HintDb vfs.
#[export] Hint Resolve node_kept_refl node_kept_set_entry node_kept_del_entry node_kept_new
  node_kept_move : vfs.

Lemma entry_new T i node d n :
  T !! i = None -> (forall m, node = TDir m -> m = ∅) -> entry (<[i := node]> T) d n = entry T d n.
Proof.
  intros Hi Hm. unfold entry, entries. destruct (decide (i = d)) as [<- |Hne].
  - rewrite lookup_insert_eq, Hi. simpl. destruct node as [|m| |]; try done.
    simpl. by rewrite (Hm m), lookup_empty.
  - by rewrite lookup_insert_ne.
Qed.

(** ** Proper names *)

Local Open Scope string_scope.

Definition slashless (s : string) : bool := sforallb (fun c => negb (Ascii.eqb c slash)) s.

Lemma slashless_Split s : slashless s = true -> Split s slash = [s].
Proof.
  unfold slashless. induction s as [|c s IH]; [done|]. cbn [sforallb Split].
  rewrite andb_true_iff. intros [Hc Hs]. rewrite (IH Hs). by destruct (Ascii.eqb c slash).
Qed.

Definition single (c : string) : Prop :=
  c <> "" /\ c <> "." /\ c <> ".." /\ slashless c = true.

Lemma single_components c : single c -> components c = [c].
Proof.
  intros (H1 & H2 & H3 & Hs). unfold components. rewrite slashless_Split by done. cbn [List.filter].
  by rewrite !(proj2 (String.eqb_neq _ _)).
Qed.

Lemma single_not_rooted c : single c -> is_rooted c = false.
Proof.
  intros (H1 & _ & _ & Hs). unfold is_rooted. destruct c as [|ch c]; [done|].
  rewrite HasPrefix_slash. unfold slashless in Hs. cbn [sforallb] in Hs.
  by destruct (Ascii.eqb ch slash).
Qed.

(** What a path is split into, but for double dots. *)
Definition component (c : string) : Prop := c <> "" /\ c <> "." /\ slashless c = true.

Lemma Split_slashless s c : c ∈ Split s slash -> slashless c = true.
Proof.
  revert c. induction s as [|ch s IH]; intros c; cbn [Split].
  - by intros ->%list_elem_of_singleton.
  - destruct (Ascii.eqb ch slash) eqn:Hch.
    + intros [-> |Hc]%elem_of_cons; [done|auto].
    + destruct (Split s slash) as [|p ps] eqn:Hs; [by destruct (Split_nonempty s slash)|].
      intros [-> |Hc]%elem_of_cons; [|apply IH; by right].
      unfold slashless in *. cbn [sforallb]. rewrite Hch. apply IH. by left.
Qed.

Lemma components_ok p : Forall component (components p).
Proof.
  rewrite Forall_forall. intros c Hc. unfold components in Hc.
  rewrite list_elem_of_In, filter_In, <- list_elem_of_In in Hc. destruct Hc as [Hin Hf].
  apply negb_true_iff, orb_false_iff in Hf as [H1%String.eqb_neq H2%String.eqb_neq].
  split_and!; [done..|by eapply Split_slashless].
Qed.

Local Close Scope string_scope.

(** ** Inode numbers *)

Lemma max_key_bound {A} (m : gmap Z A) k : is_Some (m !! k) -> k <= max_key m.
Proof.
  unfold max_key. revert k.
  apply (map_fold_weak_ind (fun r (m : gmap Z A) => forall k, is_Some (m !! k) -> k <= r)).
  - intros k [? Hk]. by rewrite lookup_empty in Hk.
  - intros i x m' r Hi IH k [y Hk]. destruct (decide (i = k)) as [<- |Hne].
    + lia.
    + rewrite lookup_insert_ne in Hk by done. specialize (IH k (ex_intro _ _ Hk)). lia.
Qed.

Lemma next_ino_fresh F : f_tree F !! next_ino F = None /\ f_attr F !! next_ino F = None.
Proof.
  unfold next_ino. split; (destruct (_ !! _) eqn:Hi; [exfalso|done]).
  - pose proof (max_key_bound (f_tree F) _ (ex_intro _ _ Hi)). lia.
  - pose proof (max_key_bound (f_attr F) _ (ex_intro _ _ Hi)). lia.
Qed.

(** Every name is a proper one and stands for an inode, and every inode has
    attributes. *)
Record wf_fs (F : fs) : Prop := {
  wf_entry : forall d n i, entry (f_tree F) d n = Some i -> is_Some (f_tree F !! i);
  wf_attr : forall i, is_Some (f_tree F !! i) -> is_Some (f_attr F !! i);
  wf_name : forall d n i, entry (f_tree F) d n = Some i -> single n
}.

Lemma wf_next_ino F d n : wf_fs F -> entry (f_tree F) d n <> Some (next_ino F).
Proof.
  intros Hwf He. apply (wf_entry _ Hwf) in He as [? He].
  by rewrite (proj1 (next_ino_fresh F)) in He.
Qed.

(** ** Path resolution *)

Lemma walk_cons T root follow links stack c rest :
  walk T root follow links stack (c :: rest) =
    if String.eqb c ".." then
      match stack with
      | _ :: ((_ :: _) as up) => walk T root follow links up rest
      | _ => match root with
             | Some _ => walk T root follow links stack rest
             | None => Err PathEscapes
             end
      end
    else
      match stack with
      | [] => Err ENOENT
      | d :: _ =>
          match entries T d with
          | None => Err ENOTDIR
          | Some m =>
              match m !! c with
              | None => match rest with
                        | [] => Ok (mkLoc stack (Some c) None)
                        | _ => Err ENOENT
                        end
              | Some i =>
                  match T !! i, rest with
                  | Some (TLink t), _ =>
                      if match rest with [] => negb follow | _ => false end
                      then Ok (mkLoc stack (Some c) (Some i))
                      else
                        match links with
                        | O => Err ELOOP
                        | S k =>
                            if is_rooted t
                            then match root with
                                 | Some r => walk T root follow k r (components t ++ rest)
                                 | None => Err PathEscapes
                                 end
                            else walk T root follow k stack (components t ++ rest)
                        end
                  | _, [] => Ok (mkLoc stack (Some c) (Some i))
                  | Some (TDir _), _ => walk T root follow links (i :: stack) rest
                  | _, _ => Err ENOTDIR
                  end
              end
          end
      end.
Proof. destruct links; reflexivity. Qed.

Lemma walk_nil T root follow links stack :
  walk T root follow links stack [] = Ok (mkLoc stack None (head stack)).
Proof. destruct links; reflexivity. Qed.

(** Case analysis along one component of a walk. *)
Ltac walk_component :=
  rewrite ?walk_cons;
  match goal with
  | |- context [String.eqb ?c ".."] => destruct (String.eqb_spec c "..")
  | |- context [match ?stack with [] => Err ENOENT | _ => _ end] => destruct stack as [|? ?]
  | |- context [match entries ?T ?d with _ => _ end] => destruct (entries T d) as [?|] eqn:?
  | |- context [match ?m !! ?c with _ => _ end] => destruct (m !! c) as [?|] eqn:?
  end.

(** The name a path ends at, and what it stands for. *)
Lemma walk_entry T root follow links stack cs l d ds n :
  walk T root follow links stack cs = Ok l -> l_dir l = d :: ds -> l_name l = Some n ->
  entry T d n = l_ino l /\ is_Some (entries T d).
Proof.
  revert stack cs. induction links as [links IHl] using lt_wf_ind.
  intros stack cs. revert stack. induction cs as [|c rest IH]; intros stack.
  { rewrite walk_nil. by intros [= <-]. }
  walk_component.
  { destruct stack as [|x [|y up]]; try (destruct root; [apply IH|discriminate]); apply IH. }
  destruct stack as [|d0 ds0]; [discriminate|].
  destruct (entries T d0) as [m|] eqn:Hm; [|discriminate].
  assert (forall oi l', m !! c = oi -> Ok (E := errno) (mkLoc (d0 :: ds0) (Some c) oi) = Ok l' ->
    l_dir l' = d :: ds -> l_name l' = Some n -> entry T d n = l_ino l' /\ is_Some (entries T d))
    as Hhere.
  { intros oi l' Hoi [= <-]; simpl; intros [= <- <-] [= <-]. unfold entry. rewrite Hm. eauto. }
  destruct (m !! c) as [i|].
  2: { destruct rest; [by apply Hhere|discriminate]. }
  destruct (T !! i) as [[|m'|t|]|]; destruct rest as [|r rest']; simpl;
    try (by apply Hhere); try discriminate; try apply IH.
  all: destruct follow; simpl; try (by apply Hhere); try discriminate.
  all: destruct links as [|k]; [discriminate|].
  all: destruct (is_rooted t); [destruct root; [|discriminate]|]; apply IHl; lia.
Qed.

(** The name a path ends at is a proper one. *)
Lemma walk_single T root follow links stack cs l n :
  Forall component cs -> walk T root follow links stack cs = Ok l -> l_name l = Some n -> single n.
Proof.
  revert stack cs. induction links as [links IHl] using lt_wf_ind.
  intros stack cs. revert stack. induction cs as [|c rest IH]; intros stack Hcs.
  { rewrite walk_nil. by intros [= <-]. }
  inversion Hcs as [|? ? (H1 & H2 & H3) Hrest]; subst. walk_component.
  { destruct stack as [|x [|y up]]; try (destruct root; [by apply IH|discriminate]); by apply IH. }
  destruct stack as [|d0 ds0]; [discriminate|].
  assert (forall oi, Ok (E := errno) (mkLoc (d0 :: ds0) (Some c) oi) = Ok l -> l_name l = Some n -> single n) as Hhere
    by (by intros oi [= <-] [= <-]).
  destruct (entries T d0) as [m|]; [|discriminate]. destruct (m !! c) as [i|].
  2: { destruct rest; [apply Hhere|discriminate]. }
  destruct (T !! i) as [[|m'|t|]|]; destruct rest as [|r rest']; simpl;
    try apply Hhere; try discriminate; try by apply IH.
  all: destruct follow; simpl; try apply Hhere; try discriminate.
  all: destruct links as [|k]; [discriminate|].
  all: destruct (is_rooted t); [destruct root; [|discriminate]|].
  all: apply IHl; [lia|]; apply Forall_app; split; [apply components_ok|done].
Qed.

(** Without following, a path that ends in a plain name ends at that name. *)
Lemma walk_last T root links stack cs c l :
  c <> ".."%string ->
  walk T root false links stack (cs ++ [c]) = Ok l -> l_name l = Some c.
Proof.
  intros Hc. revert stack cs. induction links as [links IHl] using lt_wf_ind.
  intros stack cs. revert stack. induction cs as [|a rest IH]; intros stack; cbn [app].
  - walk_component; [done|].
    destruct stack as [|d0 ds0]; [discriminate|].
    destruct (entries T d0) as [m|]; [|discriminate].
    destruct (m !! c) as [i|]; [|by intros [= <-]].
    destruct (T !! i) as [[]|]; simpl; by intros [= <-].
  - walk_component.
    { destruct stack as [|x [|y up]]; try (destruct root; [apply IH|discriminate]); apply IH. }
    destruct stack as [|d0 ds0]; [discriminate|].
    destruct (entries T d0) as [m|]; [|discriminate].
    assert (exists r rest', rest ++ [c] = r :: rest') as (r & rest' & Hr)
      by (destruct rest; simpl; eauto).
    rewrite Hr in *.
    destruct (m !! a) as [i|]; [|discriminate].
    destruct (T !! i) as [[|m'|t|]|]; try discriminate; try apply IH.
    destruct links as [|k]; [discriminate|].
    rewrite <- Hr, app_assoc.
    destruct (is_rooted t); [destruct root; [|discriminate]|]; apply IHl; lia.
Qed.

(** A final component that is not a link is the same with and without
    following. *)
Lemma walk_follow T root links stack cs l i :
  walk T root false links stack cs = Ok l -> l_ino l = Some i ->
  (forall t, T !! i <> Some (TLink t)) ->
  walk T root true links stack cs = Ok l.
Proof.
  revert stack cs. induction links as [links IHl] using lt_wf_ind.
  intros stack cs. revert stack. induction cs as [|c rest IH]; intros stack.
  { by rewrite !walk_nil. }
  rewrite !walk_cons. destruct (String.eqb c "..").
  { destruct stack as [|x [|y up]]; try (destruct root; [apply IH|discriminate]); apply IH. }
  destruct stack as [|d0 ds0]; [discriminate|].
  destruct (entries T d0) as [m|]; [|discriminate].
  destruct (m !! c) as [j|]; [|done].
  destruct (T !! j) as [[|m'|t|]|] eqn:Hj; destruct rest as [|r rest']; simpl; try done; try apply IH.
  { intros [= <-]; simpl; intros [= <-] Hl. by destruct (Hl t). }
  destruct links as [|k]; [discriminate|].
  destruct (is_rooted t); [destruct root; [|discriminate]|]; apply IHl; lia.
Qed.

Section locate.
Context `{Kernel}.

Lemma locate_entry b follow p F l d n :
  locate b follow p F = Ok l -> place l = Ok (d, n) ->
  entry (f_tree F) d n = l_ino l /\ is_Some (entries (f_tree F) d).
Proof.
  unfold place. destruct (l_dir l) as [|d' ds] eqn:Hd; [discriminate|].
  destruct (l_name l) eqn:Hn; [|discriminate].
  intros Hl [= -> ->]. unfold locate in Hl. repeat split_if; try discriminate.
  - destruct (b_root b); [|discriminate]. eapply walk_entry; eauto.
  - eapply walk_entry; eauto.
Qed.

Lemma locate_proper b follow p F l d n :
  locate b follow p F = Ok l -> place l = Ok (d, n) -> single n.
Proof.
  unfold place. destruct (l_dir l) as [|d' ds]; [discriminate|].
  destruct (l_name l) eqn:Hn; [|discriminate].
  intros Hl [= -> ->]. pose proof (components_ok p). unfold locate in Hl. repeat split_if; try discriminate.
  - destruct (b_root b); [|discriminate]. eapply walk_single; eauto.
  - eapply walk_single; eauto.
Qed.

Lemma locate_last b p F l cs c :
  components p = cs ++ [c] -> c <> ".."%string ->
  locate b false p F = Ok l -> l_name l = Some c.
Proof.
  intros Hp Hc. unfold locate. rewrite Hp.
  repeat split_if; try discriminate; [destruct (b_root b); [|discriminate]|]; by apply walk_last.
Qed.

Lemma locate_follow b p F l i :
  locate b false p F = Ok l -> l_ino l = Some i ->
  (forall t, f_tree F !! i <> Some (TLink t)) -> locate b true p F = Ok l.
Proof.
  unfold locate. repeat split_if; try discriminate;
    [destruct (b_root b); [|discriminate]|]; by apply walk_follow.
Qed.

Lemma locate_tree b follow p F F' :
  f_tree F = f_tree F' -> locate b follow p F = locate b follow p F'.
Proof. unfold locate. by intros ->. Qed.

End locate.

Lemma found_inv l i : found l = Ok i -> l_ino l = Some i.
Proof. unfold found. destruct (l_ino l); congruence. Qed.

(** ** A program logic

    [hoare P m Q E C]: from a file system that satisfies [P], a return is in
    [Q], a failure in [E], and the death of the process leaves a state in
    [C]. *)

Definition hoare {A} (P : fs -> Prop) (m : io A) (Q : A -> fs -> Prop)
    (E : gerror -> fs -> Prop) (C : fs -> Prop) : Prop :=
  forall w, P (w_fs w) ->
    match m w with
    | (Done a, w') => Q a (w_fs w')
    | (Failed e, w') => E e (w_fs w')
    | (Dead, w') => C (w_fs w')
    end.

Section hoare.
Context {A B : Type}.
Implicit Types (P C : fs -> Prop) (E : gerror -> fs -> Prop).

Lemma hoare_ret P (a : A) (Q : A -> fs -> Prop) E C :
  (forall F, P F -> Q a F) -> hoare P (mret a) Q E C.
Proof. intros HQ w HP. by apply HQ. Qed.

Lemma hoare_fail P e (Q : A -> fs -> Prop) E C :
  (forall F, P F -> E e F) -> hoare P (fail e) Q E C.
Proof. intros HE w HP. by apply HE. Qed.

Lemma hoare_bind P (m : io A) (k : A -> io B) R Q E C :
  hoare P m R E C -> (forall a, hoare (R a) (k a) Q E C) -> hoare P (m ≫= k) Q E C.
Proof.
  intros Hm Hk w HP. specialize (Hm w HP). unfold mbind, io_bind.
  destruct (m w) as [[a|e|] w']; [exact (Hk a w' Hm)|done|done].
Qed.

Lemma hoare_conseq P P' (m : io A) (Q Q' : A -> fs -> Prop) E E' C C' :
  hoare P m Q E C -> (forall F, P' F -> P F) -> (forall a F, Q a F -> Q' a F) ->
  (forall e F, E e F -> E' e F) -> (forall F, C F -> C' F) -> hoare P' m Q' E' C'.
Proof.
  intros Hm HP HQ HE HC w Hw. specialize (Hm w (HP _ Hw)).
  destruct (m w) as [[a|e|] w']; auto.
Qed.

Lemma hoare_pre P P' (m : io A) (Q : A -> fs -> Prop) E C :
  hoare P m Q E C -> (forall F, P' F -> P F) -> hoare P' m Q E C.
Proof. intros Hm HP w Hw. apply Hm, HP, Hw. Qed.

Lemma hoare_seq P (m : io A) (k : A -> io B) R Q (Err0 : fs -> Prop) E C0 C :
  hoare P m R (fun _ => Err0) C0 -> (forall e F, Err0 F -> E e F) -> (forall F, C0 F -> C F) ->
  (forall a, hoare (R a) (k a) Q E C) -> hoare P (m ≫= k) Q E C.
Proof.
  intros Hm HE HC Hk. eapply hoare_bind; [|exact Hk]. by eapply hoare_conseq; [exact Hm|..].
Qed.

Lemma hoare_wrapping_any P f (m : io A) Q (Err0 : fs -> Prop) C :
  hoare P m Q (fun _ => Err0) C -> hoare P (wrapping f m) Q (fun _ => Err0) C.
Proof.
  intros Hm w HP. specialize (Hm w HP). unfold wrapping. by destruct (m w) as [[a|e|] w'].
Qed.

Lemma hoare_wrapping P f (m : io A) Q E C :
  hoare P m Q (fun e => E (f e)) C -> hoare P (wrapping f m) Q E C.
Proof.
  intros Hm w HP. specialize (Hm w HP). unfold wrapping. by destruct (m w) as [[a|e|] w'].
Qed.

Lemma hoare_try P (m : io A) Q E C :
  hoare P m (fun a => Q (inl a)) (fun e => Q (inr e)) C -> hoare P (try m) Q E C.
Proof.
  intros Hm w HP. specialize (Hm w HP). unfold try. by destruct (m w) as [[a|e|] w'].
Qed.

Lemma hoare_ignore P m Q E C :
  hoare P m Q (fun _ => Q tt) C -> hoare P (ignore m) Q E C.
Proof.
  intros Hm w HP. specialize (Hm w HP). unfold ignore.
  destruct (m w) as [[[]|e|] w']; done.
Qed.

(** The cleanup runs on both ways out. *)
Lemma hoare_deferring P cleanup (m : io A) Q0 E0 Q E C :
  hoare P m Q0 E0 C ->
  (forall a, hoare (Q0 a) cleanup (fun _ => Q a) (fun _ => Q a) C) ->
  (forall e, hoare (E0 e) cleanup (fun _ => E e) (fun _ => E e) C) ->
  hoare P (deferring cleanup m) Q E C.
Proof.
  intros Hm HQ HE w HP. specialize (Hm w HP). unfold deferring.
  destruct (m w) as [[a|e|] w']; [..|done].
  - specialize (HQ a w' Hm). destruct (cleanup w') as [[[]|?|] w'']; done.
  - specialize (HE e w' Hm). destruct (cleanup w') as [[[]|?|] w'']; done.
Qed.

End hoare.

(** Two steps taken as one. *)
Lemma hoare_assoc {A B D} P (m : io A) (k : A -> io B) (l : B -> io D) Q E C :
  hoare P ((m ≫= k) ≫= l) Q E C -> hoare P (m ≫= (fun a => k a ≫= l)) Q E C.
Proof.
  intros Hm w HP. specialize (Hm w HP). unfold mbind, io_bind in *. by destruct (m w) as [[a|e|] w'].
Qed.

Lemma hoare_each {A} (f : A -> io unit) l (P : fs -> Prop) (E : gerror -> fs -> Prop) (C : fs -> Prop) :
  (forall a, a ∈ l -> hoare P (f a) (fun _ => P) E C) ->
  hoare P (each f l) (fun _ => P) E C.
Proof.
  induction l as [|a l IH]; simpl; intros Hf; [by apply hoare_ret|].
  eapply hoare_bind; [apply Hf; left|]. intros []. apply IH. intros; apply Hf; by right.
Qed.

Section hoare_calls.
Context {A : Type}.
Implicit Types (P C : fs -> Prop) (E : gerror -> fs -> Prop).
Context `{Kernel} (Hquiet : quiet).

Lemma hoare_syscall P (f : nat -> fs -> outcome errno (A * fs)) Q E C :
  (forall F, P F -> C F) -> (forall F e, P F -> E [Errno e] F) ->
  (forall n F a F', P F -> f n F = Ok (a, F') -> Q a F') ->
  hoare P (syscall f) Q E C.
Proof.
  intros HC HE HQ w HP. unfold syscall. rewrite (Hquiet (w_clock w) (w_fs w)).
  destruct (k_fault _); simpl; auto.
  destruct (f _ _) as [[a F']|e|] eqn:Hf; simpl; eauto.
Qed.

Lemma hoare_inspect P (f : fs -> outcome errno A) Q E C :
  (forall F, P F -> C F) -> (forall F e, P F -> E [Errno e] F) ->
  (forall F a, P F -> f F = Ok a -> Q a F) ->
  hoare P (inspect f) Q E C.
Proof.
  intros HC HE HQ. apply hoare_syscall; auto. intros n F a F' HP Hf.
  destruct (f F) as [a'|e|] eqn:Hfa; try discriminate. injection Hf as <- <-. eauto.
Qed.

Lemma hoare_inv_inspect P (f : fs -> outcome errno A) :
  hoare P (inspect f) (fun _ => P) (fun _ => P) P.
Proof. by apply hoare_inspect. Qed.

End hoare_calls.

(** ** Guarantees

    Every change the process makes is a pair in the log; a guarantee holds for
    all of them whatever other processes do in between. *)

Definition guarantees {A} (G : fs -> fs -> Prop) (m : io A) : Prop :=
  forall w, Forall (fun p => G p.1 p.2) (w_log w) -> Forall (fun p => G p.1 p.2) (w_log (m w).2).

Section guarantees.
Context {A B : Type} (G : fs -> fs -> Prop).

Lemma guar_ret (a : A) : guarantees G (mret a).
Proof. by intros w. Qed.

Lemma guar_fail e : guarantees (A := A) G (fail e).
Proof. by intros w. Qed.

Lemma guar_bind (m : io A) (k : A -> io B) :
  guarantees G m -> (forall a, guarantees G (k a)) -> guarantees G (m ≫= k).
Proof.
  intros Hm Hk w Hw. specialize (Hm w Hw). unfold mbind, io_bind.
  destruct (m w) as [[a|e|] w']; [by apply Hk|done|done].
Qed.

Lemma guar_wrapping f (m : io A) : guarantees G m -> guarantees G (wrapping f m).
Proof. intros Hm w Hw. specialize (Hm w Hw). unfold wrapping. by destruct (m w) as [[]]. Qed.

Lemma guar_try (m : io A) : guarantees G m -> guarantees G (try m).
Proof. intros Hm w Hw. specialize (Hm w Hw). unfold try. by destruct (m w) as [[]]. Qed.

Lemma guar_ignore m : guarantees G m -> guarantees G (ignore m).
Proof. intros Hm w Hw. specialize (Hm w Hw). unfold ignore. by destruct (m w) as [[]]. Qed.

Lemma guar_deferring cleanup (m : io A) :
  guarantees G cleanup -> guarantees G m -> guarantees G (deferring cleanup m).
Proof.
  intros Hc Hm w Hw. specialize (Hm w Hw). unfold deferring.
  destruct (m w) as [[] w']; [| |done]; specialize (Hc w' Hm);
    by destruct (cleanup w') as [[] w''].
Qed.

Lemma guar_each (f : A -> io unit) l : (forall a, a ∈ l -> guarantees G (f a)) -> guarantees G (each f l).
Proof.
  induction l as [|a l IH]; simpl; intros Hf w Hw; [done|].
  unfold mbind, io_bind. pose proof (Hf a (list_elem_of_here _ _) w Hw) as Ha.
  destruct (f a w) as [[] w']; try done. apply IH; [|done]. intros; apply Hf; by right.
Qed.

Context `{Kernel}.

Lemma guar_syscall (f : nat -> fs -> outcome errno (A * fs)) :
  (forall n F a F', f n F = Ok (a, F') -> G F F') -> guarantees G (syscall f).
Proof.
  intros Hf w Hw. unfold syscall. destruct (k_fault _); try done.
  destruct (f _ _) as [[a F']|e|] eqn:Hfa; simpl; try done. constructor; eauto.
Qed.

Lemma guar_inspect (f : fs -> outcome errno A) : (forall F, G F F) -> guarantees G (inspect f).
Proof.
  intros HG. apply guar_syscall. intros n F a F' Hf.
  destruct (f F); try discriminate. injection Hf as <- <-. apply HG.
Qed.

End guarantees.

#[export] Hint Resolve guar_ret guar_fail guar_wrapping guar_try guar_ignore guar_deferring
  guar_each : vfs.

(** ** Code that only looks *)

Definition observes {A} (m : io A) : Prop :=
  forall F0, hoare (eq F0) m (fun _ => eq F0) (fun _ => eq F0) (eq F0).

Lemma hoare_ghost {A} P (m : io A) Q E C :
  (forall F0, P F0 -> hoare (eq F0) m Q E C) -> hoare P m Q E C.
Proof. intros Hm w HP. exact (Hm _ HP w eq_refl). Qed.

Lemma observes_hoare {A} (m : io A) (P : fs -> Prop) :
  observes m -> hoare P m (fun _ => P) (fun _ => P) P.
Proof.
  intros Hm. apply hoare_ghost. intros F0 HP.
  eapply hoare_conseq; [apply (Hm F0)|..]; simpl; intros; subst; auto.
Qed.

Lemma hoare_observe {A B} (m : io A) (k : A -> io B) P Q E C :
  observes m -> (forall e F, P F -> E e F) -> (forall F, P F -> C F) ->
  (forall a, hoare P (k a) Q E C) -> hoare P (m ≫= k) Q E C.
Proof.
  intros Hm HE HC Hk. eapply hoare_bind; [|exact Hk].
  eapply hoare_conseq; [exact (observes_hoare m P Hm)|..]; simpl; eauto.
Qed.

Lemma hoare_deferring_observes {A} cleanup (m : io A) P Q E C :
  observes cleanup -> (forall a F, Q a F -> C F) -> (forall e F, E e F -> C F) ->
  hoare P m Q E C -> hoare P (deferring cleanup m) Q E C.
Proof.
  intros Hc HQ HE Hm. eapply hoare_deferring; [exact Hm|..].
  - intros a. eapply hoare_conseq; [exact (observes_hoare cleanup (Q a) Hc)|..]; simpl; eauto.
  - intros e. eapply hoare_conseq; [exact (observes_hoare cleanup (E e) Hc)|..]; simpl; eauto.
Qed.

Lemma observes_ret {A} (a : A) : observes (mret a).
Proof. intros F0. by apply hoare_ret. Qed.

Lemma observes_fail {A} e : observes (A := A) (fail e).
Proof. intros F0. by apply hoare_fail. Qed.

Lemma observes_bind {A B} (m : io A) (k : A -> io B) :
  observes m -> (forall a, observes (k a)) -> observes (m ≫= k).
Proof. intros Hm Hk F0. eapply hoare_bind; [apply Hm|intros a; apply Hk]. Qed.

Lemma observes_wrapping {A} f (m : io A) : observes m -> observes (wrapping f m).
Proof. intros Hm F0. by apply hoare_wrapping. Qed.

Lemma observes_try {A} (m : io A) : observes m -> observes (try m).
Proof. intros Hm F0. by apply hoare_try. Qed.

Lemma observes_ignore m : observes m -> observes (ignore m).
Proof. intros Hm F0. by apply hoare_ignore. Qed.

Lemma observes_deferring {A} c (m : io A) : observes c -> observes m -> observes (deferring c m).
Proof. intros Hc Hm F0. eapply hoare_deferring; [apply Hm|..]; intros; apply Hc. Qed.

Lemma observes_each {A} (f : A -> io unit) l : (forall a, observes (f a)) -> observes (each f l).
Proof. intros Hf F0. apply hoare_each. intros; apply Hf. Qed.

Lemma observes_inspect `{Kernel} {A} (f : fs -> outcome errno A) : quiet -> observes (inspect f).
Proof. intros Hq F0. by apply hoare_inv_inspect. Qed.

#[export] Hint Resolve observes_ret observes_fail observes_wrapping observes_try observes_ignore
  observes_deferring observes_inspect : vfs.

(** Works through binds and case analyses down to single calls. *)
Ltac observe :=
  repeat lazymatch goal with
  | |- observes (mbind _ _) => apply observes_bind; [|intros ?]
  | |- observes (each _ _) => apply observes_each; intros ?
  | |- observes (match ?x with _ => _ end) => destruct x
  | |- observes (deferring _ _) => apply observes_deferring
  | |- observes (wrapping _ _) => apply observes_wrapping
  | |- observes (try _) => apply observes_try
  | |- observes (ignore _) => apply observes_ignore
  end;
  auto with vfs.

(** The same for guarantees. *)
Ltac guarantee :=
  repeat lazymatch goal with
  | |- guarantees _ (mbind _ _) => apply guar_bind; [|intros ?]
  | |- guarantees _ (each _ _) => apply guar_each; intros ? ?
  | |- guarantees _ (match ?x with _ => _ end) => destruct x
  | |- guarantees _ (deferring _ _) => apply guar_deferring
  | |- guarantees _ (wrapping _ _) => apply guar_wrapping
  | |- guarantees _ (try _) => apply guar_try
  | |- guarantees _ (ignore _) => apply guar_ignore
  end;
  auto with vfs.

Section observers.
Context `{Kernel} (Hquiet : quiet).

Lemma observes_stat b follow p : observes (sys_stat b follow p).
Proof using Hquiet. unfold sys_stat. auto with vfs. Qed.

Lemma observes_sync_path dir : observes (sync_path dir).
Proof using Hquiet. unfold sync_path, sys_open, sys_close, sys_fsync. observe. Qed.

Lemma observes_random : observes random.
Proof using Type. by intros F0 w. Qed.

Lemma observes_EvalSymlinks p : observes (filepath_EvalSymlinks p).
Proof using Hquiet.
  unfold filepath_EvalSymlinks. generalize (is_rooted p) (@nil string) (components p).
  generalize 255%nat as links.
  induction links as [links IHl] using lt_wf_ind; intros rooted kept cs.
  revert rooted kept. induction cs as [|c rest IH]; intros rooted kept.
  { destruct links; apply observes_ret. }
  assert (forall k, (k < links)%nat -> forall r kp cs', observes (eval_links k r kp cs')) as IHl'
    by auto.
  destruct links as [|links']; cbn [eval_links]; fold (eval_links);
  (destruct (String.eqb c "..");
    [destruct kept as [|top [|? ?]]; try destruct (String.eqb top ".."); apply IH|]);
  (apply observes_bind; [apply observes_stat|intros fi]);
  (destruct (fi_node fi); [destruct rest; [apply IH|apply observes_fail]|apply IH| |
     destruct rest; [apply IH|apply observes_fail]]).
  - apply observes_fail.
  - apply observes_bind; [unfold sys_readlink; auto with vfs|intros link].
    destruct (is_rooted link); apply IHl; lia.
Qed.

End observers.

#[export] Hint Resolve observes_stat observes_sync_path observes_random observes_EvalSymlinks : vfs.

(** ** Names of temporary files *)

Local Open Scope string_scope.

Lemma slashless_app s t : slashless (s ++ t) = slashless s && slashless t.
Proof. apply sforallb_app. Qed.

Lemma digit_slashless d : 0 <= d < 10 -> Ascii.eqb (digit_char d) slash = false.
Proof.
  intros Hd. assert (d ∈ [0; 1; 2; 3; 4; 5; 6; 7; 8; 9]%Z) as Hin.
  { rewrite !elem_of_cons. lia. }
  rewrite !elem_of_cons in Hin.
  repeat (destruct Hin as [-> |Hin]; [reflexivity|]). by apply not_elem_of_nil in Hin.
Qed.

Lemma dec_digits_slashless fuel n acc :
  slashless acc = true -> slashless (dec_digits fuel n acc) = true.
Proof.
  revert n acc. induction fuel as [|fuel IH]; intros n acc Hacc; [done|]. cbn [dec_digits].
  assert (slashless (String (digit_char (n mod 10)) acc) = true).
  { unfold slashless. cbn [sforallb]. rewrite digit_slashless by (apply Z.mod_pos_bound; lia). done. }
  destruct (n <? 10)%Z; auto.
Qed.

Lemma Itoa_slashless n : slashless (Itoa n) = true.
Proof.
  unfold Itoa. destruct (n <? 0)%Z; [rewrite slashless_app|]; by rewrite dec_digits_slashless.
Qed.

Lemma HasSuffix_slash s : HasSuffix s "/" = true -> exists q, s = q ++ "/".
Proof.
  unfold HasSuffix. intros Hs. change (srev "/") with "/" in Hs.
  apply HasPrefix_char in Hs as [r Hr]. exists (srev r).
  rewrite <- (srev_involutive s), Hr. apply srev_cons.
Qed.

(** The last component of a temporary path is the prefix, the number and the
    suffix. *)
Lemma components_temp_path dir prefix suffix r :
  slashless prefix = true -> slashless suffix = true ->
  let name := prefix ++ Itoa (r mod 2 ^ 32) ++ suffix in
  name <> "" -> name <> "." ->
  exists cs, components (temp_path dir prefix suffix r) = (cs ++ [name])%list.
Proof.
  intros Hp Hs name Hn1 Hn2.
  assert (slashless name = true) as Hname.
  { unfold name. by rewrite !slashless_app, Hp, Hs, Itoa_slashless. }
  assert (exists q, temp_path dir prefix suffix r = q ++ String slash name) as [q Hq].
  { unfold temp_path. fold name. destruct (HasSuffix dir "/") eqn:Hd.
    - apply HasSuffix_slash in Hd as [q ->]. exists q. by rewrite sapp_assoc.
    - exists dir. by rewrite sapp_assoc. }
  unfold components. rewrite Hq, Split_app, (slashless_Split name) by done.
  rewrite List.filter_app. eexists. f_equal. cbn [List.filter].
  by rewrite !(proj2 (String.eqb_neq _ _)).
Qed.

(** A single name of an open directory. *)
Lemma locate_single `{Kernel} b d c F :
  b_stack b = [d] -> single c ->
  locate b false c F =
    match entries (f_tree F) d with
    | Some m => Ok (mkLoc [d] (Some c) (m !! c))
    | None => Err ENOTDIR
    end.
Proof.
  intros Hb Hc. unfold locate. rewrite single_not_rooted by done. rewrite single_components by done.
  destruct Hc as (H1 & H2 & H3 & Hs).
  rewrite (proj2 (String.eqb_neq c "")), walk_cons, (proj2 (String.eqb_neq c "..")), Hb by done.
  destruct (entries (f_tree F) d) as [m|]; [|done].
  destruct (m !! c) as [i|]; [|done]. by destruct (f_tree F !! i) as [[]|].
Qed.

(** A name of a directory of it. *)
Lemma locate_pair `{Kernel} b d p c1 c2 j F :
  b_stack b = [d] -> p <> "" -> is_rooted p = false -> components p = [c1; c2]%list ->
  c1 <> ".." -> c2 <> ".." ->
  entry (f_tree F) d c1 = Some j -> is_dir F j = true ->
  locate b false p F = Ok (mkLoc [j; d] (Some c2) (entry (f_tree F) j c2)).
Proof.
  intros Hb Hp Hr Hc H1 H2 He Hj. unfold locate. rewrite Hr, Hc, (proj2 (String.eqb_neq p "")), Hb by done.
  rewrite walk_cons, (proj2 (String.eqb_neq c1 "..")) by done. unfold entry in He.
  destruct (entries (f_tree F) d) as [m|]; [|discriminate]. simpl in He. rewrite He.
  unfold is_dir in Hj. destruct (f_tree F !! j) as [[|mj| |]|] eqn:Hn; try discriminate.
  rewrite walk_cons, (proj2 (String.eqb_neq c2 "..")) by done. unfold entry, entries. rewrite Hn. simpl.
  destruct (mj !! c2) as [k|]; [|done]. by destruct (f_tree F !! k) as [[]|].
Qed.

(** With the reason of a failure: a fault, or what the call itself says. *)
Lemma hoare_inspect_err `{Kernel} {A} (P : fs -> Prop) (f : fs -> outcome errno A) Q E C :
  quiet -> (forall F, P F -> C F) ->
  (forall F e, P F -> (exists n, k_fault n = Fails e) \/ f F = Err e \/ f F = Panic -> E [Errno e] F) ->
  (forall F a, P F -> f F = Ok a -> Q a F) ->
  hoare P (inspect f) Q E C.
Proof.
  intros Hq HC HE HQ w HP. unfold inspect, syscall. rewrite (Hq (w_clock w) (w_fs w)).
  destruct (k_fault (w_clock w)) eqn:Hf; simpl; eauto.
  destruct (f (w_fs w)) as [a|e|] eqn:Hfa; simpl; eauto.
Qed.

(** The file system gives real answers about extended attributes: no call
    fails with the errors that mean there are none. *)
Definition xattrs_supported `{Kernel} : Prop :=
  forall n e, k_fault n = Fails e -> e <> ENOTSUP /\ e <> ENODATA /\ e <> ENOSYS.

(** ** Runs that cannot fail

    [G] collects what a run needs to succeed.  A call after which the run is
    lost is impossible under [G]; so a triple whose failure and death
    conditions contain [~ G] says, at once, what a failing run leaves behind
    and that under [G] there is none. *)

Section live.
Context `{Kernel} (Hquiet : quiet) (G : Prop) (Hcalm : G -> faultless).

Lemma hoare_call {A} (P : fs -> Prop) (f : nat -> fs -> outcome errno (A * fs)) Q E C :
  (forall F, P F -> ~ G -> C F) -> (forall F e, P F -> ~ G -> E [Errno e] F) ->
  (forall n F, P F -> G -> exists r, f n F = Ok r) ->
  (forall n F a F', P F -> f n F = Ok (a, F') -> Q a F') ->
  hoare P (syscall f) Q E C.
Proof using Hquiet Hcalm.
  intros HC HE Hlive HQ w HP. unfold syscall. rewrite (Hquiet (w_clock w) (w_fs w)).
  destruct (k_fault (w_clock w)) eqn:Hf.
  2, 3: assert (~ G) by (intros HG; pose proof (Hcalm HG (w_clock w)); congruence); auto.
  destruct (f (w_clock w) (w_fs w)) as [[a F']|e|] eqn:Hr; simpl; [eauto|..].
  all: assert (~ G) by (intros HG; destruct (Hlive (w_clock w) _ HP HG) as [r Hr']; congruence); auto.
Qed.

Lemma hoare_look {A} (P : fs -> Prop) (f : fs -> outcome errno A) Q E C :
  (forall F, P F -> ~ G -> C F) -> (forall F e, P F -> ~ G -> E [Errno e] F) ->
  (forall F, P F -> G -> exists a, f F = Ok a) ->
  (forall F a, P F -> f F = Ok a -> Q a F) ->
  hoare P (inspect f) Q E C.
Proof using Hquiet Hcalm.
  intros HC HE Hlive HQ. apply hoare_call; [done..| |].
  - intros _ F HP HG. destruct (Hlive F HP HG) as [a ->]. by eexists.
  - intros _ F a F' HP Hr. apply bind_Ok_inv in Hr as (a' & Ha & [= <- <-]). eauto.
Qed.

(** A call whose failure is dropped. *)
Lemma hoare_close P i (Q : unit -> fs -> Prop) E C :
  (forall F, P F -> ~ G -> C F) -> (forall F, P F -> Q tt F) ->
  hoare P (ignore (sys_close i)) Q E C.
Proof using Hquiet Hcalm.
  intros HC HQ. apply hoare_ignore, hoare_look; auto; [eauto|]. by intros F [] HP _; apply HQ.
Qed.

End live.
