(* ===== verification/VfsEffects.v ===== *)
(** * What the system calls change

    Inversion of every call that changes the file system, the invariant of file
    systems, and [evolves]: everything that was there is still there, but for
    one name, and what is new is a directory or has a temporary name. *)

From S2P Require Import Prelude GoStrings GoPath Vfs GoOS VfsLogic.
From stdpp Require Import base list strings gmap.
From Stdlib Require Import ZArith Lia Strings.Ascii Strings.Byte.

Local Open Scope Z_scope.

Section effects.
Context `{Kernel}.

(** ** Inversions *)

Record added (b : base) (p : string) (node : tnode) (a : attr) (F : fs) (i : Z) (F' : fs)
    (d : Z) (n : string) : Prop := {
  add_ino : i = next_ino F;
  add_at : exists l, locate b false p F = Ok l /\ place l = Ok (d, n) /\ l_ino l = None;
  add_free : entry (f_tree F) d n = None;
  add_dir : is_Some (entries (f_tree F) d);
  add_tree : f_tree F' = set_entry (<[i := node]> (f_tree F)) d n i;
  add_attr : f_attr F' = <[i := a]> (f_attr F);
  add_locks : f_locks F' = f_locks F
}.

Lemma add_node_inv b p node a F i F' :
  add_node b p node a F = Ok (i, F') -> exists d n, added b p node a F i F' d n.
Proof.
  unfold add_node. intros Hadd. apply bind_Ok_inv in Hadd as (l & Hl & Hadd).
  destruct (l_ino l) eqn:Hi; [discriminate|].
  apply bind_Ok_inv in Hadd as ([d n] & Hp & [= <- <-]).
  destruct (locate_entry _ _ _ _ _ _ _ Hl Hp) as [He Hd].
  exists d, n. split; simpl; try done; [eauto|congruence].
Qed.

#[global] Arguments add_ino {b p node a F i F' d n} _.
#[global] Arguments add_at {b p node a F i F' d n} _.
#[global] Arguments add_free {b p node a F i F' d n} _.
#[global] Arguments add_dir {b p node a F i F' d n} _.
#[global] Arguments add_tree {b p node a F i F' d n} _.
#[global] Arguments add_attr {b p node a F i F' d n} _.
#[global] Arguments add_locks {b p node a F i F' d n} _.

Lemma added_entry b p node a F i F' d n d' n' :
  added b p node a F i F' d n -> (forall m, node = TDir m -> m = ∅) ->
  entry (f_tree F') d' n' = if decide ((d, n) = (d', n')) then Some i else entry (f_tree F) d' n'.
Proof.
  intros Ha Hm. destruct (next_ino_fresh F) as [Hf _]. rewrite <- (add_ino Ha) in Hf.
  rewrite (add_tree Ha), entry_set_entry.
  - by rewrite entry_new.
  - destruct (add_dir Ha) as [m' Hd]. unfold entries.
    destruct (decide (i = d)) as [<- |Hne]; [|rewrite lookup_insert_ne by done; eauto].
    unfold entries in Hd. by rewrite Hf in Hd.
Qed.

Lemma added_node b p node a F i F' d n :
  added b p node a F i F' d n -> (forall m, node <> TDir m) -> f_tree F' !! i = Some node.
Proof.
  intros Ha Hn. rewrite (add_tree Ha).
  pose proof (node_kept_set_entry (<[i := node]> (f_tree F)) d n i i node (lookup_insert_eq _ _ _)) as Hk.
  destruct node; try done. by destruct (Hn m).
Qed.

Lemma added_kept b p node a F i F' d n :
  added b p node a F i F' d n -> node_kept (f_tree F) (f_tree F').
Proof.
  intros Ha. rewrite (add_tree Ha).
  eapply node_kept_trans; [|apply node_kept_set_entry]. apply node_kept_new.
  rewrite (add_ino Ha). apply next_ino_fresh.
Qed.

Lemma unlink_at_inv b follow p F l want u F' :
  locate b follow p F = Ok l -> unlink_at l want F = Ok (u, F') ->
  exists d n i, place l = Ok (d, n) /\ l_ino l = Some i /\ entry (f_tree F) d n = Some i /\
    F' = with_tree F (del_entry (f_tree F) d n) /\ is_dir F i = want.
Proof.
  unfold unlink_at. intros Hl Hu. apply bind_Ok_inv in Hu as (i & Hi & Hu).
  apply bind_Ok_inv in Hu as ([d n] & Hp & Hu). apply found_inv in Hi.
  destruct (locate_entry _ _ _ _ _ _ _ Hl Hp) as [He _].
  exists d, n, i. destruct want; destruct (is_dir F i) eqn:Hdir; simpl in Hu; try discriminate.
  - destruct (negb (is_empty_dir F i)); [discriminate|]. injection Hu as <- <-.
    repeat split; congruence.
  - injection Hu as <- <-. repeat split; congruence.
Qed.

(** A rename that succeeds: nothing happens between two names of one inode;
    otherwise the entry moves, over nothing or over what the kind of the inode
    allows. *)
Lemma rename_at_inv noreplace b1 b2 f1 f2 p1 p2 F from to u F' :
  locate b1 f1 p1 F = Ok from -> locate b2 f2 p2 F = Ok to ->
  rename_at noreplace from to F = Ok (u, F') ->
  exists i ds ns dt nt,
    place from = Ok (ds, ns) /\ l_ino from = Some i /\ entry (f_tree F) ds ns = Some i /\
    place to = Ok (dt, nt) /\ entry (f_tree F) dt nt = l_ino to /\
    is_Some (entries (f_tree F) dt) /\
    (F' = F /\ l_ino to = Some i /\ noreplace = false \/
     F' = with_tree F (move (f_tree F) (ds, ns) (dt, nt) i) /\ l_ino to <> Some i /\
     (noreplace = true -> l_ino to = None) /\
     (forall j, l_ino to = Some j -> is_dir F j = is_dir F i)).
Proof.
  unfold rename_at. intros Hfrom Hto Hr.
  apply bind_Ok_inv in Hr as (i & Hi & Hr). apply found_inv in Hi.
  apply bind_Ok_inv in Hr as ([ds ns] & Hs & Hr).
  apply bind_Ok_inv in Hr as ([dt nt] & Ht & Hr).
  destruct (locate_entry _ _ _ _ _ _ _ Hfrom Hs) as [Hes _].
  destruct (locate_entry _ _ _ _ _ _ _ Hto Ht) as [Het Hdt].
  exists i, ds, ns, dt, nt. repeat split; try done; [congruence|].
  destruct (l_ino to) as [j|] eqn:Hj.
  - destruct noreplace; [discriminate|]. destruct (Z.eqb_spec i j) as [<- |Hne].
    + injection Hr as <- <-. by left.
    + right.
      destruct (is_dir F i) eqn:Hdi; destruct (is_dir F j) eqn:Hdj; simpl in Hr; try discriminate.
      * destruct (is_empty_dir F j); [|discriminate]. injection Hr as <- <-.
        repeat split; congruence.
      * injection Hr as <- <-. repeat split; congruence.
  - right. injection Hr as <- <-. repeat split; congruence.
Qed.

Lemma entry_move T from to i d n :
  is_Some (entries T to.1) ->
  entry (move T from to i) d n =
    if decide (to = (d, n)) then Some i else if decide (from = (d, n)) then None else entry T d n.
Proof.
  intros Hto. unfold move. destruct from as [ds ns], to as [dt nt]. simpl in *.
  rewrite entry_set_entry by by apply entries_del_entry. by rewrite entry_del_entry.
Qed.

Lemma link_at_inv b1 b2 f1 f2 p1 p2 F from to u F' :
  locate b1 f1 p1 F = Ok from -> locate b2 f2 p2 F = Ok to -> link_at from to F = Ok (u, F') ->
  exists i dt nt,
    l_ino from = Some i /\ place to = Ok (dt, nt) /\
    l_ino to = None /\ entry (f_tree F) dt nt = None /\ is_Some (entries (f_tree F) dt) /\
    is_dir F i = false /\ F' = with_tree F (set_entry (f_tree F) dt nt i).
Proof.
  unfold link_at. intros Hfrom Hto Hl. apply bind_Ok_inv in Hl as (i & Hi & Hl).
  apply found_inv in Hi. destruct (l_ino to) eqn:Hj; [discriminate|].
  apply bind_Ok_inv in Hl as ([dt nt] & Hp & Hl).
  destruct (locate_entry _ _ _ _ _ _ _ Hto Hp) as [He Hd].
  destruct (is_dir F i) eqn:Hdir; [discriminate|]. injection Hl as <- <-.
  exists i, dt, nt. repeat split; congruence.
Qed.

Lemma update_attr_inv i (f : nat -> attr -> outcome errno attr) n F u F' :
  (a ← read_attr i F; a' ← f n a; Ok (tt, set_attr F i a')) = Ok (u, F') ->
  exists a a', f_attr F !! i = Some a /\ f n a = Ok a' /\ F' = set_attr F i a'.
Proof.
  unfold read_attr. destruct (f_attr F !! i) as [a|]; [|discriminate].
  intros Hu. apply bind_Ok_inv in Hu as (a0 & [= <-] & Hu).
  apply bind_Ok_inv in Hu as (a' & Ha & [= <- <-]). eauto.
Qed.

End effects.

(** ** Well-formedness *)

Lemma wf_set_attr F i a : wf_fs F -> wf_fs (set_attr F i a).
Proof.
  intros [He Ha Hn]. split; simpl; [done| |done]. intros j Hj.
  destruct (decide (i = j)) as [<- |Hne].
  - rewrite lookup_insert_eq; eauto.
  - rewrite lookup_insert_ne by done. eauto.
Qed.

Lemma node_kept_is_Some T T' i : node_kept T T' -> is_Some (T !! i) -> is_Some (T' !! i).
Proof.
  intros Hk [node Hi]. specialize (Hk i node Hi). destruct node; eauto.
  unfold entries in Hk. destruct (T' !! i); [eauto|]. by destruct Hk.
Qed.

(** A change of entries that moves names between known inodes. *)
Lemma wf_with_tree F T :
  wf_fs F -> node_kept (f_tree F) T -> (forall i, is_Some (T !! i) -> is_Some (f_tree F !! i)) ->
  (forall d n i, entry T d n = Some i -> single n /\ exists d' n', entry (f_tree F) d' n' = Some i) ->
  wf_fs (with_tree F T).
Proof.
  intros [He Ha Hn] Hk Hold Hent. split; simpl; [|eauto|].
  - intros d n i Hi. destruct (Hent d n i Hi) as (_ & d' & n' & Hi'). eapply node_kept_is_Some; eauto.
  - intros d n i Hi. by destruct (Hent d n i Hi).
Qed.

Lemma set_entry_old T d n i j : is_Some (set_entry T d n i !! j) -> is_Some (T !! j).
Proof.
  unfold set_entry, entries. destruct (T !! d) as [[]|] eqn:Hd; try done.
  intros Hj. destruct (decide (d = j)) as [<- |Hne]; [eauto|]. by rewrite lookup_insert_ne in Hj.
Qed.

Lemma del_entry_old T d n j : is_Some (del_entry T d n !! j) -> is_Some (T !! j).
Proof.
  unfold del_entry, entries. destruct (T !! d) as [[]|] eqn:Hd; try done.
  intros Hj. destruct (decide (d = j)) as [<- |Hne]; [eauto|]. by rewrite lookup_insert_ne in Hj.
Qed.

Lemma wf_del_entry F d n : wf_fs F -> wf_fs (with_tree F (del_entry (f_tree F) d n)).
Proof.
  intros Hwf. apply wf_with_tree; auto with vfs; [apply del_entry_old|].
  intros d' n' i. rewrite entry_del_entry. case_decide; [discriminate|].
  intros Hi. split; [by eapply wf_name|eauto].
Qed.

Lemma wf_link F d n i d0 n0 :
  wf_fs F -> single n -> is_Some (entries (f_tree F) d) -> entry (f_tree F) d0 n0 = Some i ->
  wf_fs (with_tree F (set_entry (f_tree F) d n i)).
Proof.
  intros Hwf Hn Hd Hi. apply wf_with_tree; auto with vfs; [apply set_entry_old|].
  intros d' n' j. rewrite entry_set_entry by done. case_decide as Heq.
  - injection Heq as <- <-. intros [= <-]; eauto.
  - intros Hj. split; [by eapply wf_name|eauto].
Qed.

Lemma wf_move F from to i :
  wf_fs F -> single to.2 -> is_Some (entries (f_tree F) to.1) -> entry (f_tree F) from.1 from.2 = Some i ->
  wf_fs (with_tree F (move (f_tree F) from to i)).
Proof.
  intros Hwf Hn Hd Hi. apply wf_with_tree; auto with vfs.
  - intros j Hj. apply set_entry_old, del_entry_old in Hj. done.
  - intros d' n' j. rewrite entry_move by done. case_decide as Heq.
    + intros [= <-]. split; [by rewrite Heq in Hn|eauto].
    + case_decide; [discriminate|]. intros Hj. split; [by eapply wf_name|eauto].
Qed.

Lemma wf_added `{Kernel} b p node a F i F' d n :
  wf_fs F -> (forall m, node = TDir m -> m = ∅) -> added b p node a F i F' d n -> wf_fs F'.
Proof.
  intros [He Ha Hn] Hm Hadd. split.
  - intros d' n' j. rewrite (added_entry _ _ _ _ _ _ _ _ _ _ _ Hadd) by done.
    assert (is_Some (f_tree F' !! i)) as Hi.
    { rewrite (add_tree Hadd).
      eapply node_kept_is_Some; [apply node_kept_set_entry|]. rewrite lookup_insert_eq. eauto. }
    case_decide; [by intros [= <-]|]. intros Hj.
    eapply node_kept_is_Some; [by eapply added_kept|eauto].
  - intros j. rewrite (add_attr Hadd).
    destruct (decide (i = j)) as [<- |Hne]; [rewrite lookup_insert_eq; eauto|].
    rewrite lookup_insert_ne by done. intros Hj. apply Ha.
    rewrite (add_tree Hadd) in Hj. apply set_entry_old in Hj.
    by rewrite lookup_insert_ne in Hj.
  - intros d' n' j. rewrite (added_entry _ _ _ _ _ _ _ _ _ _ _ Hadd) by done.
    case_decide as Heq; [|eauto]. injection Heq as <- <-. intros _.
    destruct (add_at Hadd) as (l & Hl & Hp & _). by eapply locate_proper.
Qed.

(** ** Evolution

    [evolves tmp x F0 F]: attributes and nodes of [F0] are as they were; every
    name but [x] still stands for the same inode; and a new name is [x], or
    stands for a new directory, or is one that [tmp] calls temporary. *)

Record evolves (tmp : string -> Prop) (x : option (Z * string)) (F0 F : fs) : Prop := {
  ev_attr : f_attr F0 ⊆ f_attr F;
  ev_node : node_kept (f_tree F0) (f_tree F);
  ev_entry : forall d n j, x <> Some (d, n) ->
    entry (f_tree F0) d n = Some j -> entry (f_tree F) d n = Some j;
  ev_new : forall d n j, x <> Some (d, n) -> entry (f_tree F) d n = Some j ->
    entry (f_tree F0) d n = Some j \/ (is_dir F j = true /\ f_tree F0 !! j = None) \/ tmp n
}.

Section evolves.
Context (tmp : string -> Prop) (F0 : fs).

Lemma evolves_refl x : evolves tmp x F0 F0.
Proof. split; auto with vfs. Qed.

Lemma evolves_weaken x F : evolves tmp None F0 F -> evolves tmp x F0 F.
Proof. intros [Ha Hn He Hw]. split; auto. Qed.

(** An inode that was not there at the start can be changed freely. *)
Lemma evolves_set_attr x F i a :
  f_attr F0 !! i = None -> evolves tmp x F0 F -> evolves tmp x F0 (set_attr F i a).
Proof.
  intros Hi [Ha Hn He Hw]. split; simpl; auto. by apply insert_subseteq_r.
Qed.

Lemma node_kept_is_dir T T' i :
  node_kept T T' -> match T !! i with Some (TDir _) => true | _ => false end = true ->
  match T' !! i with Some (TDir _) => true | _ => false end = true.
Proof.
  intros Hk Hi. destruct (T !! i) as [[]|] eqn:HT; try discriminate.
  specialize (Hk i _ HT). simpl in Hk. unfold entries in Hk.
  destruct (T' !! i) as [[]|]; destruct Hk; done.
Qed.

Lemma is_dir_kept F F' i :
  node_kept (f_tree F) (f_tree F') -> is_dir F i = true -> is_dir F' i = true.
Proof. apply node_kept_is_dir. Qed.

(** A new node, a directory or under a temporary name. *)
Lemma evolves_added `{Kernel} b p node a F i F' d n :
  wf_fs F -> (forall m, node = TDir m -> m = ∅) -> added b p node a F i F' d n ->
  (node = TDir ∅ \/ tmp n) -> evolves tmp None F0 F -> evolves tmp None F0 F'.
Proof.
  intros Hwf Hm Hadd Hnew [Ha Hn He Hw].
  pose proof (added_kept _ _ _ _ _ _ _ _ _ Hadd) as Hk.
  pose proof (next_ino_fresh F) as [Hf1 Hf2]. rewrite <- (add_ino Hadd) in *.
  split.
  - rewrite (add_attr Hadd). apply insert_subseteq_r; [|done].
    destruct (f_attr F0 !! i) eqn:Hi; [|done]. pose proof (lookup_weaken _ _ _ _ Hi Ha). congruence.
  - by eapply node_kept_trans.
  - intros d' n' j _ Hj. rewrite (added_entry _ _ _ _ _ _ _ _ _ _ _ Hadd) by done.
    specialize (He d' n' j ltac:(done) Hj). case_decide as Heq; [|done].
    injection Heq as <- <-. rewrite (add_free Hadd) in He. done.
  - intros d' n' j _. rewrite (added_entry _ _ _ _ _ _ _ _ _ _ _ Hadd) by done.
    case_decide as Heq.
    + intros [= <-]. injection Heq as <- <-. destruct Hnew as [-> |Ht]; [|auto].
      right. left. split.
      * unfold is_dir. rewrite (add_tree Hadd).
        eapply node_kept_is_dir; [apply node_kept_set_entry|]. by rewrite lookup_insert_eq.
      * destruct (f_tree F0 !! i) eqn:Hi; [|done].
        destruct (node_kept_is_Some _ _ i Hn (ex_intro _ _ Hi)). congruence.
    + intros Hj. destruct (Hw d' n' j ltac:(done) Hj) as [|[[Hd Ht]|]]; [auto| |auto].
      right. left. split; [by eapply is_dir_kept|done].
Qed.

Lemma with_tree_is_dir F T i :
  node_kept (f_tree F) T -> is_dir F i = true -> is_dir (with_tree F T) i = true.
Proof. apply node_kept_is_dir. Qed.

(** Removing a name that was not there at the start. *)
Lemma evolves_del_entry x F d n :
  entry (f_tree F0) d n = None -> evolves tmp x F0 F ->
  evolves tmp x F0 (with_tree F (del_entry (f_tree F) d n)).
Proof.
  intros H0 [Ha Hn He Hw]. split; simpl; [done| | |].
  - eapply node_kept_trans; [exact Hn|auto with vfs].
  - intros d' n' j Hx Hj. rewrite entry_del_entry. case_decide as Heq; [|auto].
    injection Heq as <- <-. congruence.
  - intros d' n' j Hx. rewrite entry_del_entry. case_decide; [discriminate|]. intros Hj.
    destruct (Hw d' n' j Hx Hj) as [|[[Hd Ht]|]]; [auto| |auto].
    right. left. split; [|done]. apply with_tree_is_dir; auto with vfs.
Qed.

(** One more name, the one that may change. *)
Lemma evolves_set_entry F d n i :
  is_Some (entries (f_tree F) d) -> evolves tmp (Some (d, n)) F0 F ->
  evolves tmp (Some (d, n)) F0 (with_tree F (set_entry (f_tree F) d n i)).
Proof.
  intros Hd [Ha Hn He Hw]. split; simpl; [done| | |].
  - eapply node_kept_trans; [exact Hn|auto with vfs].
  - intros d' n' j Hx Hj. rewrite entry_set_entry by done. case_decide; [congruence|auto].
  - intros d' n' j Hx. rewrite entry_set_entry by done. case_decide; [congruence|]. intros Hj.
    destruct (Hw d' n' j Hx Hj) as [|[[Hdj Ht]|]]; [auto| |auto].
    right. left. split; [|done]. apply with_tree_is_dir; auto with vfs.
Qed.

Lemma evolves_move F from to i :
  entry (f_tree F0) from.1 from.2 = None -> is_Some (entries (f_tree F) to.1) ->
  evolves tmp None F0 F ->
  evolves tmp (Some to) F0 (with_tree F (move (f_tree F) from to i)).
Proof.
  intros Hfrom Hto Hev. destruct from as [ds ns], to as [dt nt]. unfold move. simpl in *.
  change (with_tree F ?T) with (with_tree (with_tree F (del_entry (f_tree F) ds ns)) T).
  apply evolves_set_entry; [by apply entries_del_entry|].
  apply evolves_weaken, evolves_del_entry; auto.
Qed.

(** Names that [F0] has not used stay out of it. *)
Lemma evolves_unused F d n :
  evolves tmp None F0 F -> entry (f_tree F) d n = None -> entry (f_tree F0) d n = None.
Proof.
  intros [_ _ He _] Hn. destruct (entry (f_tree F0) d n) eqn:Hd; [|done].
  rewrite (He d n z) in Hn; done.
Qed.

Lemma evolves_locks x F L :
  evolves tmp x F0 F -> evolves tmp x F0 (mkFs (f_tree F) (f_attr F) L).
Proof. intros [Ha Hn He Hw]. by split. Qed.

End evolves.
