(* ===== verification/VfsStage.v ===== *)
(** * Staging a file under a temporary name

    Every transaction of the program writes a new file under a temporary name
    first.  [staging] describes the file system when that file has been made,
    [holding] the states in which it is being filled; the rules here carry a
    transaction from one call to the next, through every failure and crash.  At
    the end, a small tree with a program in [/opt], an executable check of
    well-formedness, and kernels: one that never fails, and ones with a given
    schedule of failures, on which the witnesses run. *)

From S2P Require Import Prelude GoStrings GoPath Vfs GoOS VfsLogic VfsEffects.
From stdpp Require Import base list strings gmap.
From Stdlib Require Import ZArith Lia Strings.Ascii Strings.Byte.

Local Open Scope Z_scope.

(** A path that ended at a free name ends at the new inode once it is there. *)
Lemma walk_added T T' root links stack cs d ds n i :
  node_kept T T' -> entry T d n = None ->
  (forall d' n', entry T' d' n' = if decide ((d, n) = (d', n')) then Some i else entry T d' n') ->
  walk T root false links stack cs = Ok (mkLoc (d :: ds) (Some n) None) ->
  walk T' root false links stack cs = Ok (mkLoc (d :: ds) (Some n) (Some i)).
Proof.
  intros Hk Hfree He. revert stack cs. induction links as [links IHl] using lt_wf_ind.
  intros stack cs. revert stack. induction cs as [|c rest IH]; intros stack.
  { by rewrite walk_nil. }
  rewrite !walk_cons. destruct (String.eqb c "..").
  { destruct stack as [|x [|y up]]; try (destruct root; [apply IH|discriminate]); apply IH. }
  destruct stack as [|d0 ds0]; [discriminate|].
  destruct (entries T d0) as [m|] eqn:Hm; [|discriminate].
  assert (exists m', entries T' d0 = Some m') as [m' Hm'].
  { unfold entries in Hm. destruct (T !! d0) as [[]|] eqn:Hd0; try discriminate.
    exact (Hk d0 _ Hd0). }
  specialize (He d0 c). unfold entry in He. rewrite Hm, Hm' in He. simpl in He.
  rewrite Hm', He. destruct (m !! c) as [j|] eqn:Hmc.
  - rewrite decide_False.
    2: { intros [= -> ->]. unfold entry in Hfree. rewrite Hm in Hfree. simpl in Hfree. congruence. }
    destruct (T !! j) as [node|] eqn:Hj; [|by destruct rest].
    specialize (Hk j node Hj). destruct node as [|mj|t|].
    + rewrite Hk. destruct rest; discriminate.
    + unfold entries in Hk. destruct (T' !! j) as [[]|]; destruct Hk as [? Hk]; try discriminate.
      destruct rest; [discriminate|apply IH].
    + rewrite Hk. destruct rest as [|r rest']; simpl; [discriminate|].
      destruct links as [|k]; [discriminate|].
      destruct (is_rooted t); [destruct root; [|discriminate]|]; apply IHl; lia.
    + rewrite Hk. destruct rest; discriminate.
  - destruct rest; [|discriminate]. intros [= -> -> ->]. rewrite decide_True by done.
    by destruct (T' !! i) as [[]|] eqn:Hi.
Qed.

(** A path that ended at an inode still does when names are added. *)
Lemma walk_mono T T' root follow links stack cs l i :
  node_kept T T' -> (forall d n j, entry T d n = Some j -> entry T' d n = Some j) ->
  (forall d n j, entry T d n = Some j -> is_Some (T !! j)) ->
  walk T root follow links stack cs = Ok l -> l_ino l = Some i ->
  walk T' root follow links stack cs = Ok l.
Proof.
  intros Hk He Hwf. revert stack cs. induction links as [links IHl] using lt_wf_ind.
  intros stack cs. revert stack. induction cs as [|c rest IH]; intros stack.
  { by rewrite !walk_nil. }
  rewrite !walk_cons. destruct (String.eqb c "..").
  { destruct stack as [|x [|y up]]; try (destruct root; [apply IH|discriminate]); apply IH. }
  destruct stack as [|d0 ds0]; [discriminate|].
  destruct (entries T d0) as [m|] eqn:Hm; [|discriminate].
  assert (exists m', entries T' d0 = Some m') as [m' Hm'].
  { unfold entries in Hm. destruct (T !! d0) as [[]|] eqn:Hd0; try discriminate.
    exact (Hk d0 _ Hd0). }
  rewrite Hm'. destruct (m !! c) as [j|] eqn:Hmc.
  2: { destruct rest; [|discriminate]. by intros [= <-]. }
  assert (entry T d0 c = Some j) as Hc by (unfold entry; by rewrite Hm).
  pose proof (He _ _ _ Hc) as Hc'. unfold entry in Hc'. rewrite Hm' in Hc'. simpl in Hc'.
  rewrite Hc'. destruct (Hwf _ _ _ Hc) as [node Hj]. rewrite Hj.
  specialize (Hk j node Hj). destruct node as [|mj|t|].
  - rewrite Hk. by destruct rest.
  - unfold entries in Hk. destruct (T' !! j) as [[]|]; destruct Hk as [? Hk]; try discriminate.
    destruct rest; [done|apply IH].
  - rewrite Hk. destruct (match rest with [] => negb follow | _ => false end); [done|].
    destruct links as [|k]; [discriminate|].
    destruct (is_rooted t); [destruct root; [|discriminate]|]; apply IHl; lia.
  - rewrite Hk. by destruct rest.
Qed.

Lemma locate_mono `{Kernel} b follow p F F' l i :
  wf_fs F -> node_kept (f_tree F) (f_tree F') ->
  (forall d n j, entry (f_tree F) d n = Some j -> entry (f_tree F') d n = Some j) ->
  locate b follow p F = Ok l -> l_ino l = Some i -> locate b follow p F' = Ok l.
Proof.
  intros Hwf Hk He. pose proof (wf_entry _ Hwf).
  unfold locate. repeat split_if; try discriminate;
    [destruct (b_root b); [|discriminate]|]; by apply walk_mono.
Qed.

Section stage.
Context `{Kernel} (Hquiet : quiet).
Context (tmp : string -> Prop) (F0 : fs).

(** What holds as long as nothing has been published. *)
Definition unpublished (F : fs) : Prop := wf_fs F /\ evolves tmp None F0 F.

Lemma locate_added b p node a F i F' d n l :
  added b p node a F i F' d n -> (forall m, node = TDir m -> m = ∅) ->
  locate b false p F = Ok l -> place l = Ok (d, n) -> l_ino l = None ->
  locate b false p F' = Ok (mkLoc (l_dir l) (l_name l) (Some i)).
Proof using Type.
  intros Hadd Hdir Hl Hp Hi. destruct l as [[|d' ds] [n'|] oi]; try discriminate.
  injection Hp as -> ->. simpl in *. subst oi.
  assert (forall root links stack cs,
    walk (f_tree F) root false links stack cs = Ok (mkLoc (d :: ds) (Some n) None) ->
    walk (f_tree F') root false links stack cs = Ok (mkLoc (d :: ds) (Some n) (Some i))) as Hw.
  { intros root links stack cs. apply walk_added.
    - by eapply added_kept.
    - exact (add_free Hadd).
    - intros d' n'. by apply (added_entry _ _ _ _ _ _ _ _ _ _ _ Hadd). }
  unfold locate in *. repeat split_if; try discriminate; [destruct (b_root b); [|discriminate]|]; auto.
Qed.

(** A new, empty file [i] under the path [sp] of [b], at the name [n] of [d]. *)
Record staging (b : base) (sp : string) (F1 : fs) (i d : Z) (n : string) : Prop := {
  st_unpublished : unpublished F1;
  st_attr0 : f_attr F0 !! i = None;
  st_tree0 : f_tree F0 !! i = None;
  st_file : f_tree F1 !! i = Some TFile;
  st_at : exists l, locate b false sp F1 = Ok l /\ place l = Ok (d, n) /\ l_ino l = Some i;
  st_name : tmp n;
  st_free0 : entry (f_tree F0) d n = None;
  st_only : forall d' n', entry (f_tree F1) d' n' = Some i -> (d', n') = (d, n)
}.

Lemma added_staging b p a F i F' d n :
  unpublished F -> added b p TFile a F i F' d n -> tmp n -> staging b p F' i d n.
Proof using Type.
  intros [Hwf Hev] Hadd Hn. destruct (add_at Hadd) as (l & Hl & Hp & Hi).
  pose proof (next_ino_fresh F) as [Hf1 Hf2]. rewrite <- (add_ino Hadd) in *.
  split; try done.
  - split; [eapply wf_added; [exact Hwf| |exact Hadd]; done|eapply evolves_added; eauto; done].
  - destruct (f_attr F0 !! i) eqn:Hx; [|done].
    pose proof (lookup_weaken _ _ _ _ Hx (ev_attr _ _ _ _ Hev)). congruence.
  - destruct (f_tree F0 !! i) eqn:Hx; [|done].
    destruct (node_kept_is_Some _ _ i (ev_node _ _ _ _ Hev) (ex_intro _ _ Hx)). congruence.
  - by eapply added_node.
  - exists (mkLoc (l_dir l) (l_name l) (Some i)). repeat split; [by eapply locate_added|done].
  - eapply evolves_unused; [done|]. exact (add_free Hadd).
  - intros d' n'. rewrite (added_entry _ _ _ _ _ _ _ _ _ _ _ Hadd) by done.
    case_decide; [done|]. intros He. apply (wf_entry _ Hwf) in He as [? He]. congruence.
Qed.

(** The staged file has attributes that satisfy [phi]; nothing else moved. *)
Definition holding (F1 : fs) (i : Z) (phi : attr -> Prop) (F : fs) : Prop :=
  f_tree F = f_tree F1 /\ (forall j, j <> i -> f_attr F !! j = f_attr F1 !! j) /\
  exists a, f_attr F !! i = Some a /\ phi a.

Lemma holding_unpublished b sp F1 i d n phi F :
  staging b sp F1 i d n -> holding F1 i phi F -> unpublished F.
Proof using Type.
  intros [[Hwf [Ha Hn He Hw]] Hi0 _ _ _ _ _ _] (HT & Hj & a & Hai & _). split.
  - split; rewrite HT; [apply Hwf| |apply Hwf]. intros j Hjs. destruct (decide (j = i)) as [-> |Hne]; [eauto|].
    rewrite Hj by done. by apply Hwf.
  - split; rewrite ?HT; auto.
    + apply map_subseteq_spec. intros j aj Hj0. assert (j <> i) by congruence.
      rewrite Hj by done. by eapply lookup_weaken.
    + intros d' n' j Hx Hj'. destruct (Hw d' n' j Hx Hj') as [|[[Hd Ht]|]]; auto.
      right. left. unfold is_dir in *. by rewrite HT.
Qed.

Lemma holding_impl F1 i (phi psi : attr -> Prop) F :
  (forall a, phi a -> psi a) -> holding F1 i phi F -> holding F1 i psi F.
Proof using Type. intros Himp (HT & Hj & a & Ha & Hp). repeat split; eauto. Qed.

(** A change of the staged file. *)
Lemma hoare_update_attr F1 i f phi psi (E : gerror -> fs -> Prop) (C : fs -> Prop) :
  (forall n a a', phi a -> f n a = Ok a' -> psi a') ->
  (forall e F, holding F1 i phi F -> E e F) -> (forall F, holding F1 i phi F -> C F) ->
  hoare (holding F1 i phi) (update_attr i f) (fun _ => holding F1 i psi) E C.
Proof using Hquiet.
  intros Hf HE HC. apply hoare_syscall; auto.
  intros n F u F' (HT & Hj & a & Ha & Hp) Hu.
  apply update_attr_inv in Hu as (a0 & a' & Ha0 & Hfa & ->).
  repeat split; simpl; [done| |].
  - intros j Hne. rewrite lookup_insert_ne by congruence. auto.
  - exists a'. rewrite lookup_insert_eq. split; [done|]. eapply Hf; [|exact Hfa]. congruence.
Qed.

(** Removing it again: whatever fails, the rest is as it was. *)
Lemma hoare_discard b sp F1 i d n :
  staging b sp F1 i d n ->
  hoare (holding F1 i (fun _ => True)) (remove_at b sp) (fun _ => unpublished) (fun _ => unpublished)
    unpublished.
Proof using Hquiet.
  intros Hst. pose proof (fun F => holding_unpublished b sp F1 i d n (fun _ => True) F Hst) as Hup.
  assert (forall want F u F', holding F1 i (fun _ => True) F ->
    (l ← locate b false sp F; unlink_at l want F) = Ok (u, F') ->
    want = false /\ unpublished F') as Hun.
  { intros want F u F' Hh Hu. apply bind_Ok_inv in Hu as (l & Hl & Hu).
    destruct Hh as (HT & Hj & a & Ha & _). destruct (st_at _ _ _ _ _ _ Hst) as (l' & Hl' & Hp & Hi).
    assert (l = l') as ->. { rewrite <- (locate_tree _ _ _ F F1 HT) in Hl'. congruence. }
    destruct (unlink_at_inv _ _ _ _ _ _ _ _ Hl Hu) as (d' & n' & i' & Hp' & Hi' & _ & -> & Hdir).
    assert (i' = i) as -> by congruence. assert ((d', n') = (d, n)) as [= -> ->] by congruence.
    split.
    - unfold is_dir in Hdir. by rewrite HT, (st_file _ _ _ _ _ _ Hst) in Hdir.
    - destruct (Hup F (conj HT (conj Hj (ex_intro _ a (conj Ha I))))) as [Hwf Hev].
      split; [by apply wf_del_entry|]. apply evolves_del_entry; [|done].
      exact (st_free0 _ _ _ _ _ _ Hst). }
  eapply hoare_bind with (R := fun r F => match r with inl _ => unpublished F | inr _ => holding F1 i (fun _ => True) F end).
  - apply hoare_try, hoare_syscall; eauto. intros nn F u F' Hh Hu. by eapply Hun.
  - intros [[]|e]; [by apply hoare_ret|].
    eapply hoare_bind with (R := fun _ F => unpublished F).
    + apply hoare_try, hoare_syscall; eauto. intros nn F u F' Hh Hu. by eapply Hun.
    + intros [[]|e1]; [by apply hoare_ret|by apply hoare_fail].
Qed.

(** Making it. *)
Lemma hoare_create_excl b p perm n :
  (forall F l, locate b false p F = Ok l -> l_name l = Some n) -> tmp n ->
  hoare unpublished (sys_create_excl b p perm)
    (fun i F => exists d, staging b p F i d n /\ holding F i (fun a => a_data a = []) F)
    (fun _ => unpublished) unpublished.
Proof using Hquiet.
  intros Hname Hn. apply hoare_syscall; [done..|]. intros nn F i F' Hup Hadd.
  apply add_node_inv in Hadd as (d & n' & Hadd). destruct (add_at Hadd) as (l & Hl & Hp & _).
  assert (n' = n) as ->.
  { specialize (Hname F l Hl). unfold place in Hp. rewrite Hname in Hp.
    destruct (l_dir l); congruence. }
  exists d. split; [by eapply added_staging|]. repeat split.
  exists (new_attr nn perm). rewrite (add_attr Hadd), lookup_insert_eq. done.
Qed.

(** [os.CreateTemp], when names with its prefix are temporary. *)
Lemma hoare_CreateTemp dir prefix suffix :
  slashless prefix = true -> slashless suffix = true ->
  (forall s, (prefix ++ s)%string <> "" /\ (prefix ++ s)%string <> "." /\ (prefix ++ s)%string <> "..") ->
  (forall s, tmp (prefix ++ s)%string) ->
  hoare unpublished (os_CreateTemp dir prefix suffix)
    (fun r F => exists d n, staging cwd_base r.2 F r.1 d n /\ holding F r.1 (fun a => a_data a = []) F)
    (fun _ => unpublished) unpublished.
Proof using Hquiet.
  intros Hp Hs Hne Htmp. unfold os_CreateTemp. generalize (Z.to_nat 9999) as tries.
  assert (forall tries, hoare unpublished
    (create_temp tries dir prefix suffix)
    (fun r F => exists d n, staging cwd_base r.2 F r.1 d n /\ holding F r.1 (fun a => a_data a = []) F)
    (fun _ => unpublished) unpublished) as Hall; [|exact Hall].
  induction tries as [|tries IH]; cbn [create_temp].
  all: apply hoare_observe; [apply observes_random|done..|intros r].
  all: eapply hoare_bind with (R := fun x F => match x with
         | inl i => exists d n, staging cwd_base (temp_path dir prefix suffix r) F i d n /\
                      holding F i (fun a => a_data a = []) F
         | inr _ => unpublished F end).
  1, 3: apply hoare_try; eapply hoare_conseq;
    [eapply (hoare_create_excl cwd_base (temp_path dir prefix suffix r) 384
               (prefix ++ Itoa (r mod 2 ^ 32) ++ suffix)%string)|..]; try done;
    [|intros i F [d Hd]; eauto];
    intros F l Hl; destruct (Hne (Itoa (r mod 2 ^ 32) ++ suffix)%string) as (H1 & H2 & H3);
    destruct (components_temp_path dir prefix suffix r Hp Hs H1 H2) as [cs Hcs];
    by eapply locate_last.
  all: intros [i|e]; [by apply hoare_ret|].
  - by apply hoare_fail.
  - destruct (is_exist e); [apply IH|by apply hoare_fail].
Qed.

(** New directories only. *)
Lemma hoare_MkdirAll path perm :
  hoare unpublished (os_MkdirAll path perm) (fun _ => unpublished) (fun _ => unpublished) unpublished.
Proof using Hquiet.
  unfold os_MkdirAll. generalize (S (String.length path)) as fuel.
  intros fuel. revert path. induction fuel as [|fuel IH]; intros path; cbn [mkdir_all];
    [by apply hoare_fail|].
  apply hoare_observe; [apply observes_try, observes_stat; done|done..|].
  intros [fi|e]; [destruct (IsDir fi); [by apply hoare_ret|by apply hoare_fail]|].
  eapply hoare_bind with (R := fun _ => unpublished).
  { destruct (String.eqb _ _); [by apply hoare_ret|apply IH]. }
  intros []. eapply hoare_bind with (R := fun _ => unpublished).
  - apply hoare_try, hoare_syscall; [done..|]. intros n F u F' [Hwf Hev] Hm.
    apply bind_Ok_inv in Hm as ([j F2] & Hadd & [= <- <-]).
    apply add_node_inv in Hadd as (d & nm & Hadd).
    assert (forall m : gmap string Z, TDir ∅ = TDir m -> m = ∅) by congruence.
    split; [eapply wf_added; [exact Hwf|done|exact Hadd]|]. eapply evolves_added; eauto.
  - intros [[]|e1]; [by apply hoare_ret|].
    apply hoare_observe; [apply observes_try, observes_stat; done|done..|].
    intros [fi|e2]; [destruct (IsDir fi)|]; (by apply hoare_ret) || by apply hoare_fail.
Qed.

End stage.

(** ** A concrete file system and kernel *)

Definition name_check (n : string) : bool :=
  negb (String.eqb n "") && negb (String.eqb n ".") && negb (String.eqb n "..") && slashless n.

Lemma name_check_sound n : name_check n = true -> single n.
Proof.
  unfold name_check. rewrite !andb_true_iff, !negb_true_iff, !String.eqb_neq. intros [[[? ?] ?] ?].
  by split_and!.
Qed.

Definition node_check (F : fs) (node : tnode) : bool :=
  match node with
  | TDir m => forallb (fun e => bool_decide (is_Some (f_tree F !! e.2)) && name_check e.1) (map_to_list m)
  | _ => true
  end.

Definition wf_check (F : fs) : bool :=
  forallb (fun e => node_check F e.2 && bool_decide (is_Some (f_attr F !! e.1))) (map_to_list (f_tree F)).

Lemma wf_check_sound F : wf_check F = true -> wf_fs F.
Proof.
  unfold wf_check. rewrite forallb_forall. intros Hall.
  assert (forall i node, f_tree F !! i = Some node ->
    node_check F node = true /\ is_Some (f_attr F !! i)) as Hn.
  { intros i node Hi. specialize (Hall (i, node)).
    rewrite <- list_elem_of_In, elem_of_map_to_list in Hall. specialize (Hall Hi). simpl in Hall.
    apply andb_true_iff in Hall as [H1 H2%bool_decide_eq_true_1]. done. }
  assert (forall d n i, entry (f_tree F) d n = Some i -> is_Some (f_tree F !! i) /\ name_check n = true) as He.
  { intros d n i. unfold entry, entries. destruct (f_tree F !! d) as [[]|] eqn:Hd; try discriminate.
    simpl. intros Hi. destruct (Hn d _ Hd) as [Hc _]. simpl in Hc. rewrite forallb_forall in Hc.
    specialize (Hc (n, i)). rewrite <- list_elem_of_In, elem_of_map_to_list in Hc.
    apply Hc, andb_true_iff in Hi as [H1%bool_decide_eq_true_1 H2]. done. }
  split.
  - intros d n i Hi. by apply (He d n i).
  - intros i [node Hi]. by apply (Hn i node).
  - intros d n i Hi. by apply name_check_sound, (He d n i).
Qed.

Definition plain_attr (perm : Z) (data : list byte) : attr :=
  mkAttr 8 perm 1000 1000 50 data ∅.

Definition program_bytes : list byte := [byte_of 127; byte_of 69; byte_of 76; byte_of 70].

(** [/opt/app], an executable with an attribute of its own, and [/opt/link],
    a symbolic link to it. *)
Definition sample_tree : tree :=
  <[1 := TDir {["opt"%string := 2]}]>
    (<[2 := TDir (<["app"%string := 3]> {["link"%string := 4]})]>
      (<[3 := TFile]> {[4 := TLink "app"]})).

Definition sample_disk : fs := mkFs sample_tree
  (<[1 := plain_attr 493 []]>
    (<[2 := plain_attr 493 []]>
      (<[3 := mkAttr 8 493 1000 1000 50 program_bytes {["user.note"%string := [byte_of 7]]}]>
        {[4 := plain_attr 511 []]}))) ∅.

Definition kernel_with (faults : nat -> fault) : Kernel := {|
  k_env := fun _ F => F;
  k_fault := faults;
  k_random := fun n => Z.of_nat n;
  k_time := fun n => 100 + Z.of_nat n;
  k_inherited := fun _ => ∅;
  k_chmod := fun _ p => p;
  k_euid := 1000;
  k_egid := 1000;
  k_umask := 18;
  k_dev := 8;
  k_root := 1;
  k_cwd := [1];
  k_symlinks := 40
|}.

Definition calm_kernel : Kernel := kernel_with (fun _ => NoFault).

Definition sample_world (F : fs) : world := mkWorld F 0 [].

Lemma sample_disk_wf : wf_fs sample_disk.
Proof. apply wf_check_sound. vm_compute. reflexivity. Qed.

Lemma kernel_with_quiet faults : @quiet (kernel_with faults).
Proof. by intros n F. Qed.

Lemma calm_supported : @xattrs_supported calm_kernel.
Proof. by intros n e. Qed.

(** A run from the result of it. *)
Lemma run_result {A} (m : io A) w r : (m w).1 = r -> m w = (r, (m w).2).
Proof. by destruct (m w); simpl; intros ->. Qed.
