(* ===== verification/VfsKept.v ===== *)
(** * What a step keeps

    [kept U vol F F'] bounds a change of the file system: what was there is as
    it was, but for the names that [vol] or the directories that [U] give up;
    what is new is new altogether.  The relation composes, so an operation is
    specified step by step, each from the state it starts in. *)

From S2P Require Import Prelude GoStrings GoPath Vfs GoOS VfsLogic VfsEffects.
From stdpp Require Import base list strings gmap.
From Stdlib Require Import ZArith Lia Strings.Ascii Strings.Byte.

Local Open Scope Z_scope.

Abbreviation names := (Z -> string -> Prop).

(** Directories given up, with what they hold; names that no new directory
    takes; and names that nothing new takes. *)
Record zone := mkZone { gone :> Z -> Prop; reserved : string -> Prop; sealed : string -> Prop }.

Definition free_name (U : zone) (n : string) : Prop := ~ reserved U n /\ ~ sealed U n.

Lemma is_dir_back T T' i :
  node_kept T T' -> is_Some (T !! i) ->
  match T' !! i with Some (TDir _) => true | _ => false end = true ->
  match T !! i with Some (TDir _) => true | _ => false end = true.
Proof. intros Hk [node Hi] Hd. specialize (Hk i node Hi). rewrite Hi. destruct node; [|done|..]; by rewrite Hk in Hd. Qed.

Section kept.
Context (U : zone).

Record kept (vol : names) (F F' : fs) : Prop := {
  kp_wf : wf_fs F';
  kp_attr : f_attr F ⊆ f_attr F';
  kp_node : node_kept (f_tree F) (f_tree F');
  kp_entry : forall d n j, entry (f_tree F) d n = Some j -> ~ U d -> ~ vol d n ->
    entry (f_tree F') d n = Some j;
  kp_new : forall d n j, entry (f_tree F') d n = Some j ->
    entry (f_tree F) d n = Some j \/ f_tree F !! j = None;
  kp_unsafe : forall d n j, U d -> entry (f_tree F') d n = Some j -> entry (f_tree F) d n = Some j;
  kp_reserved : forall d n j, reserved U n -> entry (f_tree F') d n = Some j -> is_dir F' j = true ->
    entry (f_tree F) d n = Some j;
  kp_sealed : forall d n j, sealed U n -> ~ vol d n -> entry (f_tree F') d n = Some j ->
    entry (f_tree F) d n = Some j
}.

Lemma kept_dir_back vol F F' i :
  kept vol F F' -> is_Some (f_tree F !! i) -> is_dir F' i = true -> is_dir F i = true.
Proof. intros Hk. apply is_dir_back, Hk. Qed.

Lemma kept_refl vol F : wf_fs F -> kept vol F F.
Proof. intros Hwf. split; auto with vfs. Qed.

Lemma kept_trans vol F1 F2 F3 : kept vol F1 F2 -> kept vol F2 F3 -> kept vol F1 F3.
Proof.
  intros [Hw Ha Hn He Hnew Hu Hr Hsl] [Hw' Ha' Hn' He' Hnew' Hu' Hr' Hsl'].
  split; [done|by etrans|by eapply node_kept_trans|auto| |auto| |auto].
  - intros d n j Hj. destruct (Hnew' d n j Hj) as [Hj'|Hj']; [auto|]. right.
    destruct (f_tree F1 !! j) eqn:Hx; [|done].
    destruct (node_kept_is_Some _ _ j Hn (ex_intro _ _ Hx)). congruence.
  - intros d n j Hres Hj Hd. specialize (Hr' d n j Hres Hj Hd). apply Hr; [done..|].
    eapply is_dir_back; [exact Hn'|by eapply wf_entry|done].
Qed.

Lemma kept_weaken (vol vol' : names) F F' :
  (forall d n, vol d n -> vol' d n) -> kept vol F F' -> kept vol' F F'.
Proof. intros Hv [Hw Ha Hn He Hnew Hu Hr Hx]. split; auto. Qed.

(** An inode that is new later is new now. *)
Lemma kept_fresh vol F F' i : kept vol F F' -> f_tree F' !! i = None -> f_tree F !! i = None.
Proof.
  intros Hk Hi. destruct (f_tree F !! i) eqn:Hx; [|done].
  destruct (node_kept_is_Some _ _ i (kp_node _ _ _ Hk) (ex_intro _ _ Hx)). congruence.
Qed.

Lemma kept_attr_eq vol F F' i a : kept vol F F' -> f_attr F !! i = Some a -> f_attr F' !! i = Some a.
Proof. intros Hk Ha. exact (lookup_weaken _ _ _ _ Ha (kp_attr _ _ _ Hk)). Qed.

Lemma kept_file vol F F' i : kept vol F F' -> f_tree F !! i = Some TFile -> f_tree F' !! i = Some TFile.
Proof. intros Hk Hi. exact (kp_node _ _ _ Hk i _ Hi). Qed.

Lemma kept_link vol F F' i t : kept vol F F' -> f_tree F !! i = Some (TLink t) -> f_tree F' !! i = Some (TLink t).
Proof. intros Hk Hi. exact (kp_node _ _ _ Hk i _ Hi). Qed.

Lemma kept_dir vol F F' i : kept vol F F' -> is_dir F i = true -> is_dir F' i = true.
Proof. intros Hk. apply is_dir_kept, (kp_node _ _ _ Hk). Qed.

(** ** Single changes *)

Lemma kept_added `{Kernel} vol b p node a F i F' d n :
  wf_fs F -> (forall m, node = TDir m -> m = ∅ /\ ~ reserved U n) -> ~ sealed U n -> ~ U d ->
  added b p node a F i F' d n -> kept vol F F'.
Proof.
  intros Hwf Hm0 Hseal Hd Hadd. assert (forall m, node = TDir m -> m = ∅) as Hm by (intros m Hx; by apply (Hm0 m)). pose proof (next_ino_fresh F) as [Hf1 Hf2]. rewrite <- (add_ino Hadd) in *.
  assert (forall d' n', entry (f_tree F') d' n' = if decide ((d, n) = (d', n')) then Some i else entry (f_tree F) d' n')
    as He by (intros; by eapply added_entry).
  split.
  - by eapply wf_added.
  - rewrite (add_attr Hadd). by apply insert_subseteq.
  - by eapply added_kept.
  - intros d' n' j Hj _ _. rewrite He. case_decide as Heq; [|done].
    injection Heq as <- <-. rewrite (add_free Hadd) in Hj. done.
  - intros d' n' j. rewrite He. case_decide; [intros [= <-]|]; auto.
  - intros d' n' j Hu. rewrite He. case_decide as Heq; [|done]. congruence.
  - intros d' n' j Hr. rewrite He. case_decide as Heq; [|done]. injection Heq as <- <-. intros [= <-] Hi. exfalso.
    destruct node as [|m| |]; [|by apply (Hm0 m)|..]; unfold is_dir in Hi;
      by rewrite (added_node _ _ _ _ _ _ _ _ _ Hadd) in Hi.
  - intros d' n' j Hs _. rewrite He. case_decide as Heq; [|done]. by injection Heq as <- <-.
Qed.

Lemma kept_set_attr vol F i a : wf_fs F -> f_attr F !! i = None -> kept vol F (set_attr F i a).
Proof.
  intros Hwf Hi. split; simpl; auto with vfs; [by apply wf_set_attr|by apply insert_subseteq].
Qed.

Lemma kept_locks vol F L : wf_fs F -> kept vol F (mkFs (f_tree F) (f_attr F) L).
Proof. intros [He Ha]. split; simpl; auto with vfs. by split. Qed.

(** A name that may go, or was not there at first, goes. *)
Lemma kept_drop vol F1 F d n :
  kept vol F1 F -> U d \/ vol d n \/ entry (f_tree F1) d n = None ->
  kept vol F1 (with_tree F (del_entry (f_tree F) d n)).
Proof.
  intros [Hw Ha Hn He Hnew Hu Hr Hx] Hv. split; simpl; [by apply wf_del_entry|done| | | | | |].
  - eapply node_kept_trans; [exact Hn|auto with vfs].
  - intros d' n' j Hj Hud Hvol. rewrite entry_del_entry. case_decide as Heq; [|auto].
    injection Heq as <- <-. destruct Hv as [?|[?|?]]; [done|done|congruence].
  - intros d' n' j. rewrite entry_del_entry. case_decide; [discriminate|auto].
  - intros d' n' j Hud. rewrite entry_del_entry. case_decide; [discriminate|auto].
  - intros d' n' j Hres. rewrite entry_del_entry. case_decide; [discriminate|]. intros Hj Hd. apply Hr; [done..|].
    eapply is_dir_back; [apply node_kept_del_entry|by eapply wf_entry|exact Hd].
  - intros d' n' j Hs Hvol. rewrite entry_del_entry. case_decide; [discriminate|auto].
Qed.

(** A change of an inode that was new at an earlier state. *)
Lemma kept_change vol F1 F i a :
  kept vol F1 F -> f_attr F1 !! i = None -> kept vol F1 (set_attr F i a).
Proof.
  intros [Hw Ha Hn He Hnew Hu Hr Hx] Hi. split; simpl; auto; [by apply wf_set_attr|].
  by apply insert_subseteq_r.
Qed.

(** A new inode moves from one name to another. *)
Lemma kept_rename vol F1 F from to i :
  kept vol F1 F -> entry (f_tree F) from.1 from.2 = Some i -> is_Some (entries (f_tree F) to.1) ->
  f_tree F1 !! i = None -> single to.2 -> (is_dir F i = true -> ~ reserved U to.2) ->
  vol to.1 to.2 \/ ~ sealed U to.2 ->
  vol from.1 from.2 \/ entry (f_tree F1) from.1 from.2 = None ->
  vol to.1 to.2 \/ entry (f_tree F1) to.1 to.2 = None -> ~ U to.1 ->
  kept vol F1 (with_tree F (move (f_tree F) from to i)).
Proof.
  intros [Hw Ha Hn He Hnew Hu Hr Hx] Hfrom Hto Hi Hname Hres Hseal Hvf Hvt HU.
  destruct from as [ds ns], to as [dt nt]. cbn [fst snd] in *. split; simpl.
  - by apply wf_move.
  - done.
  - eapply node_kept_trans; [exact Hn|auto with vfs].
  - intros d n j Hj Hud Hv. rewrite entry_move by done. case_decide as Heq.
    { injection Heq as <- <-. destruct Hvt; [done|congruence]. }
    case_decide as Heq2; [|auto]. injection Heq2 as <- <-. destruct Hvf; [done|congruence].
  - intros d n j. rewrite entry_move by done. case_decide; [intros [= <-]; auto|].
    case_decide; [discriminate|auto].
  - intros d n j Hud. rewrite entry_move by done. case_decide as Heq; [congruence|].
    case_decide; [discriminate|auto].
  - intros d n j Hrn. rewrite entry_move by done. intros Hj Hd.
    assert (is_dir F j = true) as Hdj.
    { eapply is_dir_back; [apply node_kept_move| |exact Hd]. case_decide; [injection Hj as <-|case_decide; [discriminate|]];
        by eapply wf_entry. }
    case_decide as Heq; [|case_decide; [discriminate|auto]].
    injection Heq as <- <-. injection Hj as <-. by destruct (Hres Hdj).
  - intros d n j Hs Hvol. rewrite entry_move by done. case_decide as Heq; [|case_decide; [discriminate|auto]].
    injection Heq as <- <-. by destruct Hseal.
Qed.

End kept.

(** ** Following names *)

Fixpoint dir_at (T : tree) (d : Z) (cs : list string) : option Z :=
  match cs with
  | [] => Some d
  | c :: rest => j ← entry T d c; dir_at T j rest
  end.

(** Every directory passed is one that [U] does not give up. *)
Fixpoint path_safe (U : Z -> Prop) (T : tree) (d : Z) (cs : list string) : Prop :=
  ~ U d /\ match cs with
           | [] => True
           | c :: rest => match entry T d c with Some j => path_safe U T j rest | None => True end
           end.

Lemma path_safe_here U T d cs : path_safe U T d cs -> ~ U d.
Proof. destruct cs; by intros [? _]. Qed.

Lemma path_safe_new U F F' d cs :
  wf_fs F -> (forall i, U i -> is_Some (f_tree F !! i)) ->
  (forall d n j, entry (f_tree F') d n = Some j -> entry (f_tree F) d n = Some j \/ f_tree F !! j = None) ->
  f_tree F !! d = None -> path_safe U (f_tree F') d cs.
Proof.
  intros Hwf HU Hnew. revert d. induction cs as [|c rest IH]; intros d Hd.
  { split; [|done]. intros [? Hx]%HU. congruence. }
  split; [intros [? Hx]%HU; congruence|].
  destruct (entry (f_tree F') d c) as [j|] eqn:Hj; [|done].
  destruct (Hnew d c j Hj) as [Hj0|Hj0]; [|auto].
  unfold entry, entries in Hj0. rewrite Hd in Hj0. discriminate.
Qed.

Lemma path_safe_kept (U : zone) F F' vol d cs :
  wf_fs F -> (forall i, U i -> is_Some (f_tree F !! i)) -> kept U vol F F' ->
  (forall d n, ~ vol d n) -> path_safe U (f_tree F) d cs -> path_safe U (f_tree F') d cs.
Proof.
  intros Hwf HU Hk Hvol. revert d. induction cs as [|c rest IH]; intros d; [done|].
  intros [Hd Hrest]. split; [done|].
  destruct (entry (f_tree F) d c) as [j|] eqn:Hj.
  - rewrite (kp_entry _ _ _ _ Hk d c j Hj Hd (Hvol d c)). auto.
  - destruct (entry (f_tree F') d c) as [j|] eqn:Hj'; [|done].
    destruct (kp_new _ _ _ _ Hk d c j Hj') as [|Hx]; [congruence|].
    eapply path_safe_new; eauto. apply Hk.
Qed.

Lemma dir_at_kept (U : zone) F F' vol d cs s :
  kept U vol F F' -> Forall (fun c => forall d, ~ vol d c) cs -> path_safe U (f_tree F) d cs ->
  dir_at (f_tree F) d cs = Some s -> dir_at (f_tree F') d cs = Some s.
Proof.
  intros Hk Hvol. revert d. induction Hvol as [|c rest Hc _ IH]; intros d; [done|].
  cbn [dir_at path_safe]. intros [Hd Hrest].
  destruct (entry (f_tree F) d c) as [j|] eqn:Hj; [|discriminate].
  rewrite (kp_entry _ _ _ _ Hk d c j Hj Hd (Hc d)). simpl. auto.
Qed.

(** Where a path leads was there before, by the same path, or is new. *)
Lemma dir_at_old (U : zone) F F' vol d cs s :
  wf_fs F -> kept U vol F F' -> dir_at (f_tree F') d cs = Some s ->
  dir_at (f_tree F) d cs = Some s \/ f_tree F !! s = None.
Proof.
  intros Hwf Hk. revert d.
  assert (forall cs d, f_tree F !! d = None -> dir_at (f_tree F') d cs = Some s -> f_tree F !! s = None) as Hnew.
  { clear cs. induction cs as [|c rest IH]; intros d Hd; cbn [dir_at]; [by intros [= <-]|].
    destruct (entry (f_tree F') d c) as [j|] eqn:Hj; [|discriminate]. simpl. apply IH.
    destruct (kp_new _ _ _ _ Hk d c j Hj) as [Hj0|]; [|done]. unfold entry, entries in Hj0. by rewrite Hd in Hj0. }
  induction cs as [|c rest IH]; intros d; cbn [dir_at]; [auto|].
  destruct (entry (f_tree F') d c) as [j|] eqn:Hj; [|discriminate]. simpl. intros Hs.
  destruct (kp_new _ _ _ _ Hk d c j Hj) as [-> |Hj0]; [by apply IH|]. right. by eapply Hnew.
Qed.

Lemma path_safe_end U T d cs s : path_safe U T d cs -> dir_at T d cs = Some s -> ~ U s.
Proof.
  revert d. induction cs as [|c rest IH]; intros d; cbn [path_safe dir_at].
  - by intros [? _] [= <-].
  - intros [Hd Hrest]. destruct (entry T d c) as [j|]; [|discriminate]. simpl. eauto.
Qed.

(** ** Removing trees *)

Section remove.
Context `{Kernel} (Hquiet : quiet) (S : Z -> Prop) (Inv : fs -> Prop).

(** [Inv] survives the removal of any name of the directories in [S], which
    hold every directory below them. *)
Hypothesis HS : forall F d n j, Inv F -> S d -> entry (f_tree F) d n = Some j -> is_dir F j = true -> S j.
Hypothesis Hdel : forall F d n, Inv F -> S d -> Inv (with_tree F (del_entry (f_tree F) d n)).

Lemma observes_opendir_nofollow b p : observes (sys_opendir_nofollow b p).
Proof using Hquiet. unfold sys_opendir_nofollow. auto with vfs. Qed.

Lemma hoare_unlink_here (unlink : base -> string -> io unit) want b d n :
  (unlink = sys_unlink /\ want = false) \/ (unlink = sys_rmdir /\ want = true) -> b_stack b = [d] -> single n ->
  (forall F, Inv F -> Inv (with_tree F (del_entry (f_tree F) d n))) ->
  hoare Inv (unlink b n) (fun _ => Inv) (fun _ => Inv) Inv.
Proof using Hquiet.
  intros Hu Hb Hn Hd.
  assert (hoare Inv (syscall (fun _ F => l ← locate b false n F; unlink_at l want F))
    (fun _ => Inv) (fun _ => Inv) Inv) as Hs.
  { apply hoare_syscall; [done..|]. intros k F u F' HI Hr. apply bind_Ok_inv in Hr as (l & Hl & Hr).
    destruct (unlink_at_inv _ _ _ _ _ _ _ _ Hl Hr) as (d' & n' & i' & Hp & _ & _ & -> & _).
    rewrite (locate_single _ d) in Hl by done. destruct (entries (f_tree F) d); [|discriminate].
    injection Hl as <-. injection Hp as <- <-. auto. }
  destruct Hu as [[-> ->]|[-> ->]]; exact Hs.
Qed.

Lemma hoare_remove_at b d n :
  b_stack b = [d] -> single n ->
  (forall F, Inv F -> Inv (with_tree F (del_entry (f_tree F) d n))) ->
  hoare Inv (remove_at b n) (fun _ => Inv) (fun _ => Inv) Inv.
Proof using Hquiet.
  intros Hb Hn Hd. unfold remove_at.
  apply hoare_bind with (R := fun _ => Inv); [apply hoare_try, (hoare_unlink_here sys_unlink false b d); auto|].
  intros [u|e]; [by apply hoare_ret|].
  apply hoare_bind with (R := fun _ => Inv); [apply hoare_try, (hoare_unlink_here sys_rmdir true b d); auto|].
  intros [u|e1]; [by apply hoare_ret|by apply hoare_fail].
Qed.

Lemma hoare_first_error {A} (f : A -> io unit) l :
  (forall a, a ∈ l -> hoare Inv (f a) (fun _ => Inv) (fun _ => Inv) Inv) ->
  hoare Inv (first_error f l) (fun _ => Inv) (fun _ => Inv) Inv.
Proof using Type.
  induction l as [|a l IH]; intros Hf; cbn [first_error]; [by apply hoare_ret|].
  apply hoare_bind with (R := fun _ => Inv); [apply hoare_try, Hf; left|]. intros r.
  eapply hoare_bind; [apply IH; intros; apply Hf; by right|]. intros e. by apply hoare_ret.
Qed.

Hypothesis Hwf : forall F, Inv F -> wf_fs F.

Lemma hoare_remove_all fuel d n :
  single n ->
  (forall F, Inv F -> Inv (with_tree F (del_entry (f_tree F) d n))) ->
  (forall F j, Inv F -> entry (f_tree F) d n = Some j -> is_dir F j = true -> S j) ->
  hoare Inv (remove_all_from fuel d n) (fun _ => Inv) (fun _ => Inv) Inv.
Proof using Hquiet HS Hdel Hwf.
  revert d n. induction fuel as [|fuel IH]; intros d n Hn Hd Hj; cbn [remove_all_from]; [by apply hoare_fail|].
  assert (forall e, hoare Inv (remove_dir_or d n e) (fun _ => Inv) (fun _ => Inv) Inv) as Hrm.
  { intros e. unfold remove_dir_or. apply hoare_bind with (R := fun _ => Inv);
      [apply hoare_try, (hoare_unlink_here sys_rmdir true _ d); auto|].
    intros [u|e']; [by apply hoare_ret|]. destruct (is_not_exist e'); [by apply hoare_ret|by apply hoare_fail]. }
  apply hoare_bind with (R := fun _ => Inv); [apply hoare_try, (hoare_unlink_here sys_unlink false _ d); auto|].
  intros [u|e]; [by apply hoare_ret|].
  destruct (is_not_exist e); [by apply hoare_ret|]. destruct (negb _); [by apply hoare_fail|].
  eapply hoare_bind with (R := fun r F => Inv F /\ match r with inl j => S j | inr _ => True end).
  { apply hoare_try, hoare_inspect; [done|done|auto|]. intros F j HI Ho. split; [done|].
    apply bind_Ok_inv in Ho as (l & Hl & Ho). apply bind_Ok_inv in Ho as (k & Hk & Ho). apply found_inv in Hk.
    rewrite (locate_single _ d) in Hl by done. destruct (entries (f_tree F) d) as [m|] eqn:Hm; [|discriminate].
    injection Hl as <-. simpl in Hk. destruct (f_tree F !! k) as [[]|] eqn:Hnode; try discriminate.
    injection Ho as <-. apply (Hj F); [done| |unfold is_dir; by rewrite Hnode].
    unfold entry. by rewrite Hm. }
  intros [j|e1]; apply hoare_ghost; intros F [HI HSj].
  2: { eapply hoare_pre; [|by intros F' <-].
       destruct (is_not_exist e1); [by apply hoare_ret|]. destruct (_ || _); [by apply hoare_fail|apply Hrm]. }
  eapply hoare_bind with (R := fun r F' => Inv F' /\ match r with inl ns => Forall single ns | inr _ => True end).
  { apply hoare_try, hoare_inspect; [done|by intros F' <-|by intros F' e' <-|]. intros F' ns <- Hns. split; [done|].
    destruct (entries (f_tree F) j) as [m|] eqn:Hm; [|discriminate]. injection Hns as <-.
    rewrite Forall_fmap, Forall_forall. intros [n' i'] Hin%elem_of_map_to_list. simpl.
    apply (wf_name F (Hwf F HI) j n' i'). unfold entry. by rewrite Hm. }
  intros [ns|e1]; apply hoare_ghost; intros F' [HI' Hns]; (eapply hoare_pre; [|by intros F'' <-]).
  - eapply hoare_bind with (R := fun _ => Inv).
    { apply hoare_first_error. intros n' Hin. rewrite Forall_forall in Hns.
      apply IH; [by apply Hns|auto|]. intros F'' j' HI'' He Hdir. by eapply HS. }
    intros e'. apply hoare_observe; [unfold sys_close; observe|done..|]. intros []. apply Hrm.
  - apply hoare_observe; [unfold sys_close; observe|done..|]. intros [].
    destruct (is_not_exist e1); [by apply hoare_ret|by apply hoare_fail].
Qed.

End remove.
