(* ===== verification/Lifecycle.v ===== *)
(** * Safe replacement of executables ([internal/lifecycle])

    Metadata policies, the snapshot of the source, and [Execute]: stage a
    transformed copy next to the destination, give it the source's metadata,
    read everything back, and publish it with one rename. *)

From S2P Require Import Prelude GoStrings GoPath Vfs GoOS.
From stdpp Require Import base list strings gmap.
From Stdlib Require Import ZArith Lia Strings.Ascii Strings.Byte.

Local Open Scope Z_scope.

(** ** Policies ([policy.go]) *)

Inductive MetadataPolicy : Set := PolicyStrict | PolicyStrip.

Global Instance MetadataPolicy_eq_dec : EqDecision MetadataPolicy.
Proof. solve_decision. Defined.

Inductive PublicationIntent : Set :=
| IntentReplaceSource
| IntentCreateOnly
| IntentOther (s : string).

Definition ErrInvalidMetadataPolicy : gerror := [Sentinel "ErrInvalidMetadataPolicy"].
Definition ErrInvalidPublicationIntent : gerror := [Sentinel "ErrInvalidPublicationIntent"].
Definition ErrHardLinkDetected : gerror := [Sentinel "ErrHardLinkDetected"].
Definition ErrSourceModified : gerror := [Sentinel "ErrSourceModified"].
Definition ErrConcurrentTransformation : gerror := [Sentinel "ErrConcurrentTransformation"].
Definition ErrDestinationExists : gerror := [Sentinel "ErrDestinationExists"].
Definition ErrUnsafeCapabilities : gerror := [Sentinel "ErrUnsafeCapabilities"].
Definition ErrUnsafeIntegrityClaim : gerror := [Sentinel "ErrUnsafeIntegrityClaim"].
Definition ErrUnsafeSetuidSetgid : gerror := [Sentinel "ErrUnsafeSetuidSetgid"].
Definition ErrUnsupportedXattr : gerror := [Sentinel "ErrUnsupportedXattr"].
Definition ErrOwnershipPreservation : gerror := [Sentinel "ErrOwnershipPreservation"].
Definition ErrDurabilitySyncFailed : gerror := [Sentinel "ErrDurabilitySyncFailed"].
Definition ErrReadbackVerification : gerror := [Sentinel "ErrReadbackVerification"].
Definition ErrStagingFailed : gerror := [Sentinel "ErrStagingFailed"].

Definition ParsePolicy `{GoUnicode} (raw : string) : outcome gerror MetadataPolicy :=
  let trimmed := ToLower (TrimSpace raw) in
  if String.eqb trimmed "strict" || String.eqb trimmed "" then Ok PolicyStrict
  else if String.eqb trimmed "strip" then Ok PolicyStrip
  else Err ErrInvalidMetadataPolicy.

(** ** The snapshot of the source ([snapshot.go]) *)

Definition attrSecurityCapability : string := "security.capability".
Definition attrSecurityIMA : string := "security.ima".
Definition attrSecurityEVM : string := "security.evm".
Definition attrSecuritySELinux : string := "security.selinux".
Definition attrUserPrefix : string := "user.".
Definition posixACLAccess : string := "system.posix_acl_access".
Definition posixACLDefault : string := "system.posix_acl_default".

Record SourceSnapshot := mkSnapshot {
  s_Path : string;
  s_Dev : Z;
  s_Ino : Z;
  s_Mode : Z;
  s_UID : Z;
  s_GID : Z;
  s_Nlink : Z;
  s_Size : Z;
  s_ModTime : Z;
  s_Xattrs : gmap string (list byte)
}.

Definition not_supported (e : gerror) : bool := errors_Is e (Errno ENOTSUP).

(** The loop over the names of [readXattrs] and [readFdXattrs]. *)
Fixpoint read_values (get_size : string -> io Z) (get : string -> Z -> io (list byte))
    (names : list string) (acc : gmap string (list byte)) : io (gmap string (list byte)) :=
  match names with
  | [] => mret acc
  | n :: rest =>
      let skip e := errors_Is e (Errno ENODATA) || not_supported e in
      if String.eqb n "" then read_values get_size get rest acc
      else
        sz ← try (get_size n);
        match sz with
        | inr e => if skip e then read_values get_size get rest acc else fail e
        | inl sz =>
            v ← try (get n sz);
            match v with
            | inr e => if skip e then read_values get_size get rest acc else fail e
            | inl v => read_values get_size get rest (<[n := v]> acc)
            end
        end
  end.

Definition read_xattrs (list_size : io Z) (list : Z -> io (list string))
    (get_size : string -> io Z) (get : string -> Z -> io (Datatypes.list byte)) :
    io (gmap string (Datatypes.list byte)) :=
  let unsupported e := not_supported e || errors_Is e (Errno ENOSYS) in
  sz ← try list_size;
  match sz with
  | inr e => if unsupported e then mret ∅ else fail e
  | inl sz =>
      if sz <=? 0 then mret ∅
      else
        names ← try (list sz);
        match names with
        | inr e => if unsupported e then mret ∅ else fail e
        | inl names => read_values get_size get names ∅
        end
  end.

(** Modes ([transaction.go]). *)
Definition defaultStagingMode : Z := 384.
Definition defaultDirMode : Z := 493.
Definition standardExecMask : Z := 493.
Definition ownerExecuteMask : Z := 64.
Definition chmodModeMask : Z := Z.lor (Z.lor (Z.lor ModePerm ModeSetuid) ModeSetgid) ModeSticky.

Definition has_bits (mode mask : Z) : bool := negb (Z.land mode mask =? 0).

(** Which error an attribute of the source is, if any. *)
Definition xattr_error (attr : string) : option gerror :=
  if String.eqb attr attrSecurityCapability then Some ErrUnsafeCapabilities
  else if String.eqb attr attrSecurityIMA || String.eqb attr attrSecurityEVM
  then Some ErrUnsafeIntegrityClaim
  else if String.eqb attr attrSecuritySELinux || HasPrefix attr attrUserPrefix then None
  else Some ErrUnsupportedXattr.

Fixpoint check_xattrs (attrs : list string) : outcome gerror unit :=
  match attrs with
  | [] => Ok tt
  | a :: rest => match xattr_error a with Some e => Err e | None => check_xattrs rest end
  end.

Definition ValidateSnapshot (snap : option SourceSnapshot) (policy : MetadataPolicy) :
    outcome gerror unit :=
  match snap with
  | None => Ok tt
  | Some snap =>
      if negb (bool_decide (policy = PolicyStrict)) then Ok tt
      else if has_bits (s_Mode snap) (Z.lor ModeSetuid ModeSetgid) then Err ErrUnsafeSetuidSetgid
      else check_xattrs (map_to_list (s_Xattrs snap)).*1
  end.

Definition lift {A} (m : outcome gerror A) : io A :=
  match m with
  | Ok a => mret a
  | Err e => fail e
  | Panic => fail []
  end.

(** ** Transactions ([transaction.go], [transaction_linux.go]) *)

(** The callback: from the file system it starts on, the pieces it writes to
    the staging file one after the other, and the error it returns. *)
Definition TransformFunc : Type := fs -> list (list byte) * option gerror.

Record Transaction := mkTx {
  tx_SrcPath : string;
  tx_SrcFile : option Z;
  tx_DestPath : string;
  tx_Intent : PublicationIntent;
  tx_Policy : string;
  tx_BreakHardlinks : bool;
  tx_Transform : option TransformFunc
}.

(** [defer func() { if !committed { cleanup } }()] *)
Definition on_failure {A} (cleanup : io unit) (m : io A) : io A := fun w =>
  match m w with
  | (Failed e, w') =>
      match cleanup w' with
      | (Dead, w'') => (Dead, w'')
      | (_, w'') => (Failed e, w'')
      end
  | r => r
  end.

Section lifecycle.
Context `{Kernel} `{GoUnicode}.

Definition path_ino (path : string) (F : fs) : outcome errno Z :=
  l ← locate cwd_base true path F; found l.

Definition readXattrs (path : string) : io (gmap string (list byte)) :=
  read_xattrs (inspect (fun F => i ← path_ino path F; list_size i F))
    (fun sz => inspect (fun F => i ← path_ino path F; list_into i sz F))
    (fun n => inspect (fun F => i ← path_ino path F; get_size i n F))
    (fun n sz => inspect (fun F => i ← path_ino path F; get_into i n sz F)).

Definition readFdXattrs (fd : Z) : io (gmap string (list byte)) :=
  read_xattrs (sys_flistxattr_size fd) (sys_flistxattr fd) (sys_fgetxattr_size fd) (sys_fgetxattr fd).

Definition removeFdXattr (fd : Z) (attr : string) : io unit :=
  r ← try (sys_fremovexattr fd attr);
  match r with
  | inl _ => mret tt
  | inr e => if errors_Is e (Errno ENODATA) || not_supported e then mret tt else fail e
  end.

Definition TakeSourceSnapshot (f : option Z) (path : string) : io SourceSnapshot :=
  '(fi, xattrs) ←
    match f with
    | Some fd => fi ← sys_fstat fd; x ← readFdXattrs fd; mret (fi, x)
    | None => fi ← os_Stat path; x ← readXattrs path; mret (fi, x)
    end;
  let a := fi_attr fi in
  mret (mkSnapshot path (a_dev a) (fi_ino fi) (Mode fi) (a_uid a) (a_gid a)
    (fi_nlink fi) (fi_size fi) (a_mtime a) xattrs).

Definition same_inode (fi : FileInfo) (snap : SourceSnapshot) : bool :=
  (a_dev (fi_attr fi) =? s_Dev snap) && (fi_ino fi =? s_Ino snap).

(** Where an in-place replacement goes. *)
Definition replace_destination (tx : Transaction) (snap : SourceSnapshot) (cleanSrc realSrc : string) :
    io string :=
  if String.eqb (tx_DestPath tx) "" then mret realSrc
  else
    let cleanDest := filepath_Clean (tx_DestPath tx) in
    if negb (String.eqb cleanDest cleanSrc) && negb (String.eqb cleanDest realSrc) then
      fi ← os_Stat cleanDest;
      if same_inode fi snap then mret cleanDest
      else fail (errors_New "destination does not match source inode")
    else mret realSrc.

Definition resolveTargetAndSnapshot (tx : Transaction) (policy : MetadataPolicy) :
    io (SourceSnapshot * string * bool) :=
  let cleanSrc := filepath_Clean (tx_SrcPath tx) in
  snap ← TakeSourceSnapshot (tx_SrcFile tx) cleanSrc;
  _ ← lift (ValidateSnapshot (Some snap) policy);
  real ← try (filepath_EvalSymlinks cleanSrc);
  let realSrc := match real with inl p => p | inr _ => cleanSrc end in
  _ ← match tx_SrcFile tx with
      | Some _ =>
          fi ← wrapping (app ErrSourceModified) (os_Stat realSrc);
          if same_inode fi snap then mret tt else fail ErrSourceModified
      | None => mret tt
      end;
  match tx_Intent tx with
  | IntentReplaceSource =>
      dest ← replace_destination tx snap cleanSrc realSrc;
      if (1 <? s_Nlink snap) && negb (tx_BreakHardlinks tx) then fail ErrHardLinkDetected
      else mret (snap, dest, true)
  | IntentCreateOnly => mret (snap, filepath_Clean (tx_DestPath tx), false)
  | IntentOther _ => mret (snap, ""%string, false)
  end.

Definition acquireAdvisoryLock (path : string) : io (io unit) :=
  f ← sys_open cwd_base false path;
  r ← try (sys_flock_nb f);
  match r with
  | inl _ => mret (_ ← ignore (sys_funlock f); ignore (sys_close f))
  | inr e =>
      _ ← ignore (sys_close f);
      if errors_Is e (Errno EWOULDBLOCK) then fail ErrConcurrentTransformation else fail e
  end.

Definition stripInheritedStagingACLs (staged : Z) : io unit :=
  _ ← removeFdXattr staged posixACLAccess;
  removeFdXattr staged posixACLDefault.

Definition run_transform (t : TransformFunc) (staged : Z) : io unit :=
  F ← inspect (fun F => Ok F);
  _ ← each (fun piece => sys_write staged (fun data => data ++ piece)) (t F).1;
  match (t F).2 with
  | Some e => fail e
  | None => mret tt
  end.

Definition target_mode (snap : SourceSnapshot) (policy : MetadataPolicy) : Z :=
  let m := Perm (s_Mode snap) in
  match policy with
  | PolicyStrict => Z.lor m (Z.land (s_Mode snap) ModeSticky)
  | PolicyStrip =>
      let m := Z.land m standardExecMask in
      if has_bits m ownerExecuteMask then m else Z.lor m standardExecMask
  end.

(** Ownership; when the change is refused the file may already be right. *)
Definition preserve_owner (staged : Z) (snap : SourceSnapshot) : io unit :=
  r ← try (sys_fchown staged (s_UID snap) (s_GID snap));
  match r with
  | inl _ => mret tt
  | inr e =>
      fi ← wrapping (app ErrOwnershipPreservation) (sys_fstat staged);
      if (a_uid (fi_attr fi) =? s_UID snap) && (a_gid (fi_attr fi) =? s_GID snap) then mret tt
      else fail (ErrOwnershipPreservation ++ e)
  end.

Definition applyMetadata (staged : Z) (snap : SourceSnapshot) (policy : MetadataPolicy) : io Z :=
  _ ← stripInheritedStagingACLs staged;
  _ ← match policy with
      | PolicyStrict =>
          _ ← preserve_owner staged snap;
          each (fun av => sys_fsetxattr staged av.1 av.2) (map_to_list (s_Xattrs snap))
      | PolicyStrip => mret tt
      end;
  let m := target_mode snap policy in
  _ ← File_Chmod staged m;
  mret m.

(** Whether a staged attribute is one the policy allows. *)
Definition staged_attr_ok (snap : SourceSnapshot) (policy : MetadataPolicy) (attr : string) : bool :=
  if String.eqb attr posixACLAccess || String.eqb attr posixACLDefault then false
  else if String.eqb attr attrSecurityCapability then false
  else if String.eqb attr attrSecurityIMA || String.eqb attr attrSecurityEVM then false
  else String.eqb attr attrSecuritySELinux ||
       match policy with
       | PolicyStrip => false
       | PolicyStrict => bool_decide (is_Some (s_Xattrs snap !! attr))
       end.

(** Whether every attribute of the source arrived. *)
Definition attrs_arrived (snap : SourceSnapshot) (staged : gmap string (list byte)) : bool :=
  forallb (fun av => bool_decide (staged !! av.1 = Some av.2)) (map_to_list (s_Xattrs snap)).

Definition verifyReadback (staged targetMode : Z) (snap : SourceSnapshot) (policy : MetadataPolicy) :
    io unit :=
  fi ← wrapping (app ErrReadbackVerification) (sys_fstat staged);
  if fi_size fi =? 0 then fail ErrReadbackVerification
  else if negb (Z.land (Mode fi) chmodModeMask =? targetMode) then fail ErrReadbackVerification
  else if bool_decide (policy = PolicyStrict) &&
          negb ((a_uid (fi_attr fi) =? s_UID snap) && (a_gid (fi_attr fi) =? s_GID snap))
  then fail ErrReadbackVerification
  else
    attrs ← wrapping (app ErrReadbackVerification) (readFdXattrs staged);
    if negb (forallb (staged_attr_ok snap policy) (map_to_list attrs).*1)
    then fail ErrReadbackVerification
    else if bool_decide (policy = PolicyStrict) && negb (attrs_arrived snap attrs)
    then fail ErrReadbackVerification
    else mret tt.

Definition publishCreateOnly (stagedPath destPath : string) : io unit :=
  r ← try (sys_rename true cwd_base stagedPath cwd_base destPath);
  match r with
  | inl _ => mret tt
  | inr e =>
      if errors_Is e (Errno EEXIST) then fail ErrDestinationExists
      else if errors_Is e (Errno ENOSYS) || errors_Is e (Errno EINVAL) then
        l ← try (os_Link stagedPath destPath);
        match l with
        | inl _ => ignore (os_Remove stagedPath)
        | inr le => if is_exist le then fail ErrDestinationExists else fail le
        end
      else fail e
  end.

Definition publishTransaction (inPlace : bool) (stagedPath destPath : string)
    (snap : SourceSnapshot) (breakHardlinks : bool) : io unit :=
  if inPlace then
    fi ← wrapping (app ErrSourceModified) (os_Stat destPath);
    if negb (same_inode fi snap) || negb (fi_size fi =? s_Size snap) ||
       negb (a_mtime (fi_attr fi) =? s_ModTime snap) then fail ErrSourceModified
    else if (1 <? fi_nlink fi) && negb breakHardlinks then fail ErrHardLinkDetected
    else os_Rename stagedPath destPath
  else publishCreateOnly stagedPath destPath.

(** From the new staging file to its publication. *)
Definition fill_and_publish (tx : Transaction) (transform : TransformFunc) (policy : MetadataPolicy)
    (snap : SourceSnapshot) (destPath : string) (inPlace : bool) (staged : Z) (stagedPath : string) :
    io unit :=
  _ ← wrapping (app ErrStagingFailed) (File_Chmod staged defaultStagingMode);
  _ ← wrapping (app ErrStagingFailed) (stripInheritedStagingACLs staged);
  _ ← run_transform transform staged;
  targetMode ← applyMetadata staged snap policy;
  _ ← verifyReadback staged targetMode snap policy;
  _ ← sys_fsync staged;
  _ ← sys_close staged;
  publishTransaction inPlace stagedPath destPath snap (tx_BreakHardlinks tx).

Definition discard_staged (staged : Z) (stagedPath : string) : io unit :=
  _ ← ignore (sys_close staged); ignore (os_Remove stagedPath).

Definition stage_and_publish (tx : Transaction) (transform : TransformFunc) (policy : MetadataPolicy)
    (snap : SourceSnapshot) (destPath : string) (inPlace : bool) : io unit :=
  let destDir := filepath_Dir destPath in
  _ ← os_MkdirAll destDir defaultDirMode;
  '(staged, stagedPath) ←
    wrapping (app ErrStagingFailed) (os_CreateTemp destDir ".microfat-tx-" ".tmp");
  _ ← on_failure (discard_staged staged stagedPath)
        (fill_and_publish tx transform policy snap destPath inPlace staged stagedPath);
  wrapping (app ErrDurabilitySyncFailed) (sync_path destDir).

Definition Execute (tx : Transaction) : io unit :=
  match tx_Transform tx with
  | None => fail (errors_New "transformation callback must not be nil")
  | Some transform =>
      if String.eqb (tx_SrcPath tx) "" then fail (errors_New "source path must not be empty")
      else if match tx_Intent tx with IntentOther _ => true | _ => false end
      then fail ErrInvalidPublicationIntent
      else if match tx_Intent tx with IntentCreateOnly => String.eqb (tx_DestPath tx) "" | _ => false end
      then fail (errors_New "destination path must not be empty for create-only intent")
      else
        policy ← lift (ParsePolicy (tx_Policy tx));
        '(snap, destPath, inPlace) ← resolveTargetAndSnapshot tx policy;
        if (inPlace : bool) then
          unlock ← acquireAdvisoryLock destPath;
          deferring unlock (stage_and_publish tx transform policy snap destPath true)
        else stage_and_publish tx transform policy snap destPath false
  end.

End lifecycle.
