(* ===== verification/LifecycleProofs.v ===== *)
(** * Replacement is atomic

    [Execute] refines one step: whatever fails and wherever the process dies,
    the file system is as before but for temporary names and new directories,
    or the destination, and only it, stands for a complete new file. *)

From S2P Require Import Prelude GoStrings GoPath Vfs GoOS VfsLogic VfsEffects VfsStage Lifecycle.
From stdpp Require Import base list strings gmap.
From Stdlib Require Import ZArith Lia Strings.Ascii Strings.Byte.

Local Open Scope Z_scope.

Definition staging_name (n : string) : Prop := HasPrefix n ".microfat-tx-" = true.

Lemma hoare_pure {A} (phi : Prop) (P : fs -> Prop) (m : io A) Q E C :
  (phi -> hoare P m Q E C) -> hoare (fun F => phi /\ P F) m Q E C.
Proof. intros Hm w [Hphi HP]. exact (Hm Hphi w HP). Qed.

Lemma hoare_on_failure {A} (P : fs -> Prop) cleanup (m : io A) Q E0 (E : gerror -> fs -> Prop) C :
  hoare P m Q E0 C ->
  (forall e, hoare (E0 e) cleanup (fun _ => E e) (fun _ => E e) C) ->
  hoare P (on_failure cleanup m) Q E C.
Proof.
  intros Hm HE w HP. specialize (Hm w HP). unfold on_failure.
  destruct (m w) as [[a|e|] w']; [done| |done].
  specialize (HE e w' Hm). destruct (cleanup w') as [[[]|?|] w'']; done.
Qed.

Section spec.
Context `{Kernel} (F0 : fs).

(** Where the published name is: the path [dest], resolved without following
    its last component in a state that only added to [F0]; free before a
    create-only publication, leading to the source before a replacement. *)
Definition destination (dest : string) (inPlace : bool) (src d : Z) (n : string) : Prop :=
  exists F l, evolves staging_name None F0 F /\ locate cwd_base false dest F = Ok l /\
    place l = Ok (d, n) /\
    if inPlace then exists l', locate cwd_base true dest F = Ok l' /\ l_ino l' = Some src
    else entry (f_tree F0) d n = None.

Lemma destination_single dest inPlace src d n : destination dest inPlace src d n -> single n.
Proof. intros (F & l & _ & Hl & Hp & _). by eapply locate_proper. Qed.

(** The name [n] of [d] stands for a file [i] that did not exist before, with
    attributes in [phi]; every other name and every old inode is as it was. *)
Record published (dest : string) (inPlace : bool) (src : Z) (phi : attr -> Prop) (F : fs) : Prop := {
  pub_wf : wf_fs F;
  pub_at : exists d n i a,
    evolves staging_name (Some (d, n)) F0 F /\
    destination dest inPlace src d n /\
    entry (f_tree F) d n = Some i /\ f_tree F0 !! i = None /\
    f_tree F !! i = Some TFile /\ f_attr F !! i = Some a /\ phi a
}.

End spec.

Section publish.
Context `{Kernel} (Hquiet : quiet).
Context (F0 : fs).
Abbreviation unpub := (unpublished staging_name F0).

(** The staged file, and what the destination leads to. *)
Context (sp dest : string) (F1 : fs) (i d0 : Z) (n0 : string) (src : Z) (phi : attr -> Prop).
Hypothesis Hst : staging staging_name F0 cwd_base sp F1 i d0 n0.
Hypothesis Hsrc : src <> i.

Lemma hoare_rename inPlace :
  (inPlace = true -> exists l', locate cwd_base true dest F1 = Ok l' /\ l_ino l' = Some src) ->
  hoare (holding F1 i phi) (sys_rename (negb inPlace) cwd_base sp cwd_base dest)
    (fun _ => published F0 dest inPlace src phi) (fun _ => holding F1 i phi) (holding F1 i phi).
Proof using Hquiet Hst Hsrc.
  intros Hin. apply hoare_syscall; [done..|]. intros nn F u F' Hh Hr.
  destruct (holding_unpublished _ _ _ _ _ _ _ _ _ _ Hst Hh) as [Hwf Hev].
  destruct Hh as (HT & Hj & a & Ha & Hphi).
  apply bind_Ok_inv in Hr as (from & Hfrom & Hr). apply bind_Ok_inv in Hr as (to & Hto & Hr).
  destruct (rename_at_inv _ _ _ _ _ _ _ _ _ _ _ _ Hfrom Hto Hr)
    as (i' & ds & ns & dt & nt & Hps & His & Hes & Hpt & Het & Hdt & Hcase).
  destruct (st_at _ _ _ _ _ _ _ _ Hst) as (l & Hl & Hp & Hi).
  rewrite <- (locate_tree _ _ _ F F1 HT) in Hl. assert (from = l) as -> by congruence.
  assert ((ds, ns) = (d0, n0)) as [= -> ->] by congruence. assert (i' = i) as -> by congruence.
  pose proof (st_file _ _ _ _ _ _ _ _ Hst) as Hfile. rewrite <- HT in Hfile.
  destruct Hcase as [(-> & Hto_i & Hnr)|(-> & Hne & Hnr & Hkind)].
  - exfalso. destruct inPlace; [|done]. destruct (Hin eq_refl) as (l' & Hl' & Hsl).
    rewrite <- (locate_tree _ _ _ F F1 HT) in Hl'.
    rewrite (locate_follow _ _ _ _ i Hto) in Hl' by (done || congruence). congruence.
  - split; [apply wf_move; [done|exact (locate_proper _ _ _ _ _ _ _ Hto Hpt)|done..]|]. exists dt, nt, i, a. split_and!.
    + apply evolves_move; [exact (st_free0 _ _ _ _ _ _ _ _ Hst)|done|done].
    + exists F, to. split_and!; [done..|]. destruct inPlace.
      * destruct (Hin eq_refl) as (l' & Hl' & Hsl). exists l'.
        by rewrite (locate_tree _ _ _ F F1 HT).
      * eapply evolves_unused; [exact Hev|]. rewrite Het. by apply Hnr.
    + simpl. rewrite entry_move by done. by rewrite decide_True.
    + exact (st_tree0 _ _ _ _ _ _ _ _ Hst).
    + exact (node_kept_move (f_tree F) (d0, n0) (dt, nt) i i _ Hfile).
    + done.
    + done.
Qed.

(** After a link both names stand for the file; removing the temporary one may
    fail. *)
Definition linked (d : Z) (n : string) (F : fs) : Prop :=
  exists F2, holding F1 i phi F2 /\ F = with_tree F2 (set_entry (f_tree F2) d n i).

Section linked.
Context (d : Z) (n : string).
Hypothesis Hfree : entry (f_tree F1) d n = None.
Hypothesis Hd : is_Some (entries (f_tree F1) d).
Hypothesis Hdest : destination F0 dest false src d n.
Abbreviation pub := (published F0 dest false src phi).

Lemma linked_published F : linked d n F -> pub F.
Proof using All.
  intros (F2 & Hh & ->).
  destruct (holding_unpublished _ _ _ _ _ _ _ _ _ _ Hst Hh) as [Hwf Hev].
  destruct Hh as (HT & Hj & a & Ha & Hphi).
  destruct (st_at _ _ _ _ _ _ _ _ Hst) as (l & Hl & Hp & Hi).
  destruct (locate_entry _ _ _ _ _ _ _ Hl Hp) as [He _].
  pose proof (st_file _ _ _ _ _ _ _ _ Hst) as Hfile. rewrite <- HT in *. rewrite Hi in He.
  split; [by eapply wf_link; [|by eapply destination_single|..]|]. exists d, n, i, a. split_and!; try done.
  - apply evolves_set_entry; [done|]. by apply evolves_weaken.
  - simpl. rewrite entry_set_entry by done. by rewrite decide_True.
  - exact (st_tree0 _ _ _ _ _ _ _ _ Hst).
  - exact (node_kept_set_entry (f_tree F2) d n i i _ Hfile).
Qed.

Lemma linked_locate F :
  linked d n F -> exists l, locate cwd_base false sp F = Ok l /\ place l = Ok (d0, n0).
Proof using Hst Hfree Hd.
  intros (F2 & Hh & ->).
  destruct (holding_unpublished _ _ _ _ _ _ _ _ _ _ Hst Hh) as [Hwf _].
  destruct Hh as (HT & _). destruct (st_at _ _ _ _ _ _ _ _ Hst) as (l & Hl & Hp & Hi).
  rewrite <- HT in Hfree, Hd. rewrite <- (locate_tree _ _ _ F2 F1 HT) in Hl.
  exists l. split; [|done]. eapply locate_mono; [exact Hwf|..|exact Hl|exact Hi]; simpl; auto with vfs.
  intros d' n' j Hj. rewrite entry_set_entry by done. case_decide; [congruence|done].
Qed.

Lemma linked_unlink want F u F' :
  linked d n F -> (l ← locate cwd_base false sp F; unlink_at l want F) = Ok (u, F') -> pub F'.
Proof using All.
  intros Hlk Hu. destruct (linked_locate F Hlk) as (l & Hl & Hp).
  destruct (linked_published F Hlk) as [Hwf _].
  rewrite Hl in Hu. destruct (unlink_at_inv _ _ _ _ _ _ _ _ Hl Hu) as (d' & n' & i' & Hp' & _ & _ & -> & _).
  assert ((d', n') = (d0, n0)) as [= -> ->] by congruence.
  destruct Hlk as (F2 & Hh & ->).
  destruct (holding_unpublished _ _ _ _ _ _ _ _ _ _ Hst Hh) as [_ Hev].
  destruct Hh as (HT & Hj & a & Ha & Hphi).
  pose proof (st_file _ _ _ _ _ _ _ _ Hst) as Hfile.
  assert ((d, n) <> (d0, n0)) as Hne.
  { intros [= -> ->]. destruct (st_at _ _ _ _ _ _ _ _ Hst) as (l' & Hl' & Hpl & Hi).
    destruct (locate_entry _ _ _ _ _ _ _ Hl' Hpl) as [He _]. congruence. }
  rewrite <- HT in *.
  split; [by apply wf_del_entry|]. exists d, n, i, a. split_and!; try done.
  - apply evolves_del_entry; [exact (st_free0 _ _ _ _ _ _ _ _ Hst)|].
    apply evolves_set_entry; [done|]. by apply evolves_weaken.
  - simpl. rewrite entry_del_entry, decide_False by congruence.
    rewrite entry_set_entry by done. by rewrite decide_True.
  - exact (st_tree0 _ _ _ _ _ _ _ _ Hst).
  - apply (node_kept_del_entry _ d0 n0 i TFile), (node_kept_set_entry (f_tree F2) d n i i _ Hfile).
Qed.

Lemma hoare_unlink_linked : hoare (linked d n) (os_Remove sp) (fun _ => pub) (fun _ => pub) pub.
Proof using All.
  eapply hoare_bind with (R := fun r F => match r with inl _ => pub F | inr _ => linked d n F end).
  - apply hoare_try, hoare_syscall; eauto using linked_published, linked_unlink.
  - intros [[]|e]; [by apply hoare_ret|].
    eapply hoare_bind with (R := fun _ => pub).
    + apply hoare_try, hoare_syscall; eauto using linked_published, linked_unlink.
    + intros [[]|e1]; [by apply hoare_ret|by apply hoare_fail].
Qed.

End linked.

(** Create-only publication: by rename, or by link where the file system has no
    such rename. *)
Lemma hoare_publishCreateOnly :
  hoare (holding F1 i phi) (publishCreateOnly sp dest)
    (fun _ => published F0 dest false src phi) (fun _ => holding F1 i phi)
    (fun F => holding F1 i phi F \/ published F0 dest false src phi F).
Proof using All.
  eapply hoare_bind with (R := fun r F =>
    match r with inl _ => published F0 dest false src phi F | inr _ => holding F1 i phi F end).
  { apply hoare_try. eapply hoare_conseq; [by apply (hoare_rename false)|..]; simpl; auto. }
  intros [[]|e]; [by apply hoare_ret|].
  destruct (errors_Is e (Errno EEXIST)); [by apply hoare_fail|].
  destruct (_ || _); [|by apply hoare_fail].
  eapply hoare_bind with (R := fun r F =>
    match r with
    | inl _ => exists d n, entry (f_tree F1) d n = None /\ is_Some (entries (f_tree F1) d) /\
                 destination F0 dest false src d n /\ linked d n F
    | inr _ => holding F1 i phi F
    end).
  - apply hoare_try, hoare_syscall; auto. intros nn F u F' Hh Hl.
    apply bind_Ok_inv in Hl as (from & Hfrom & Hl). apply bind_Ok_inv in Hl as (to & Hto & Hl).
    destruct (link_at_inv _ _ _ _ _ _ _ _ _ _ _ Hfrom Hto Hl)
      as (i' & dt & nt & Hi' & Hp & Hno & He & Hd & _ & ->).
    destruct (holding_unpublished _ _ _ _ _ _ _ _ _ _ Hst Hh) as [_ Hev].
    destruct (st_at _ _ _ _ _ _ _ _ Hst) as (l & Hlo & Hpl & Hil).
    pose proof Hh as (HT & _). rewrite <- (locate_tree _ _ _ F F1 HT) in Hlo. rewrite <- HT.
    assert (i' = i) as -> by congruence.
    exists dt, nt. split_and!; [done..| |by exists F].
    exists F, to. split_and!; [done..|]. by eapply evolves_unused.
  - intros [[]|le].
    + apply hoare_ghost. intros Fx (d & n & He & Hd & Hdest & Hlk). apply hoare_ignore.
      eapply hoare_conseq; [by apply (hoare_unlink_linked d n)|..]; simpl; auto. by intros ? <-.
    + destruct (is_exist le); by apply hoare_fail.
Qed.

End publish.

(** ** Reading extended attributes *)

Section xattrs.
Context `{Kernel} (Hquiet : quiet) (Hsup : xattrs_supported).
Context (F : fs) (i : Z) (a : attr) (Ha : f_attr F !! i = Some a).

(** The four calls, on a descriptor or on a path that leads to [i]. *)
Context (ls : fs -> outcome errno Z) (li : Z -> fs -> outcome errno (list string)).
Context (gs : string -> fs -> outcome errno Z) (gi : string -> Z -> fs -> outcome errno (list byte)).
Hypothesis Hls : ls F = list_size i F.
Hypothesis Hli : forall sz, li sz F = list_into i sz F.
Hypothesis Hgs : forall n, gs n F = get_size i n F.
Hypothesis Hgi : forall n sz, gi n sz F = get_into i n sz F.

Definition read_spec (names : list string) (acc x : gmap string (list byte)) : Prop :=
  forall n, x !! n = if decide (n ∈ names /\ n <> ""%string)
                     then match a_xattrs a !! n with Some v => Some v | None => acc !! n end
                     else acc !! n.

Lemma errors_Is_errno e e' : errors_Is [Errno e] (Errno e') = bool_decide (e = e').
Proof using Type.
  unfold errors_Is. apply bool_decide_ext. rewrite elem_of_cons, elem_of_nil.
  split; [intros [[= ->]|[]]; done|intros ->; by left].
Qed.

Lemma read_attr_here : read_attr i F = Ok a.
Proof using Ha. unfold read_attr. by rewrite Ha. Qed.

(** The errors that make the code skip an attribute do not happen. *)
Lemma no_skip_fault e : (exists n, k_fault n = Fails e) ->
  errors_Is [Errno e] (Errno ENODATA) || not_supported [Errno e] = false /\
  not_supported [Errno e] || errors_Is [Errno e] (Errno ENOSYS) = false.
Proof using Hsup.
  intros [n Hn]. destruct (Hsup n e Hn) as (H1 & H2 & H3).
  unfold not_supported. rewrite !errors_Is_errno, !bool_decide_eq_false_2 by done. done.
Qed.

Lemma read_spec_step n names acc x acc' :
  read_spec names acc' x ->
  (forall k, acc' !! k = if decide (k = n /\ n <> ""%string)
     then match a_xattrs a !! k with Some v => Some v | None => acc !! k end else acc !! k) ->
  read_spec (n :: names) acc x.
Proof using Type.
  intros Hx Hacc k. rewrite (Hx k), (Hacc k).
  destruct (a_xattrs a !! k); repeat case_decide; try done; rewrite elem_of_cons in *; naive_solver.
Qed.

Lemma hoare_read_values names acc :
  hoare (eq F) (read_values (fun n => inspect (gs n)) (fun n sz => inspect (gi n sz)) names acc)
    (fun x F' => F = F' /\ read_spec names acc x) (fun _ => eq F) (eq F).
Proof using All.
  revert acc. induction names as [|n names IH]; intros acc; cbn [read_values].
  { apply hoare_ret. intros F' <-. split; [done|]. intros n.
    rewrite decide_False; [done|]. by intros [?%not_elem_of_nil _]. }
  destruct (String.eqb_spec n "") as [-> |Hne].
  { eapply hoare_conseq; [apply IH|..]; simpl; try done. intros x F' [-> Hx]. split; [done|].
    eapply read_spec_step; [exact Hx|]. intros k. rewrite decide_False; [done|]. naive_solver. }
  assert (forall x, a_xattrs a !! n = None -> read_spec names acc x -> read_spec (n :: names) acc x)
    as Hskip.
  { intros x Hn Hx. eapply read_spec_step; [exact Hx|]. intros k.
    case_decide as Hk; [|done]. destruct Hk as [-> _]. by rewrite Hn. }
  eapply hoare_bind with (R := fun r F' => F = F' /\
    match r with
    | inl sz => exists v, a_xattrs a !! n = Some v /\ sz = Z.of_nat (length v)
    | inr e => errors_Is e (Errno ENODATA) || not_supported e = true -> a_xattrs a !! n = None
    end).
  { apply hoare_try, hoare_inspect_err; [done|done|..].
    - intros F' e <- Hr. split; [done|]. destruct Hr as [Hf|Hr].
      + rewrite (proj1 (no_skip_fault e Hf)). done.
      + rewrite Hgs in Hr. unfold get_size in Hr. rewrite read_attr_here in Hr. simpl in Hr.
        destruct (a_xattrs a !! n); [|done]. by destruct Hr.
    - intros F' sz <- Hg. split; [done|]. rewrite Hgs in Hg. unfold get_size in Hg. rewrite read_attr_here in Hg.
      simpl in Hg. destruct (a_xattrs a !! n) as [v|]; [|discriminate]. injection Hg as <-. eauto. }
  intros [sz|e]; apply hoare_ghost; intros F' [<- Hr].
  2: { destruct (_ || _); [|by apply hoare_fail].
       eapply hoare_conseq; [apply IH|..]; simpl; try done. naive_solver. }
  destruct Hr as (v & Hv & ->).
  eapply hoare_bind with (R := fun r F' => F = F' /\
    match r with
    | inl v' => v' = v
    | inr e => errors_Is e (Errno ENODATA) || not_supported e = false
    end).
  { apply hoare_try, hoare_inspect_err; [done|done|..]; intros F' e <-; rewrite Hgi; unfold get_into;
      rewrite read_attr_here; simpl; rewrite Hv, Z.leb_refl.
    - intros [Hf|[Hr|Hr]]; try discriminate. split; [done|]. by apply no_skip_fault.
    - intros [= <-]. split; [done|]. by rewrite Nat2Z.id, Nat.sub_diag, app_nil_r. }
  intros [v'|e]; apply hoare_ghost; intros F' [<- Hr].
  - subst v'. eapply hoare_conseq; [apply IH|..]; simpl; try done. intros x F' [-> Hx].
    split; [done|]. eapply read_spec_step; [exact Hx|]. intros k.
    destruct (decide (k = n)) as [-> |Hk].
    + rewrite lookup_insert_eq, decide_True by done. by rewrite Hv.
    + rewrite lookup_insert_ne by done. rewrite decide_False; [done|]. naive_solver.
  - rewrite Hr. by apply hoare_fail.
Qed.

Lemma names_size_pos names : names <> [] -> 0 < names_size names.
Proof using Type. destruct names; [done|]. unfold names_size. simpl. lia. Qed.

Lemma hoare_read_xattrs :
  hoare (eq F) (read_xattrs (inspect ls) (fun sz => inspect (li sz)) (fun n => inspect (gs n))
                  (fun n sz => inspect (gi n sz)))
    (fun x F' => F = F' /\ x = delete ""%string (a_xattrs a)) (fun _ => eq F) (eq F).
Proof using All.
  unfold read_xattrs.
  eapply hoare_bind with (R := fun r F' => F = F' /\
    match r with
    | inl sz => sz = names_size (xattr_names a)
    | inr e => not_supported e || errors_Is e (Errno ENOSYS) = false
    end).
  { apply hoare_try, hoare_inspect_err; [done|done|..]; intros F' e <-; rewrite Hls; unfold list_size;
      rewrite read_attr_here; simpl.
    - intros [Hf|[Hr|Hr]]; try discriminate. split; [done|]. by apply no_skip_fault.
    - by intros [= <-]. }
  intros [sz|e]; apply hoare_ghost; intros F' [<- Hr]; [|rewrite Hr; by apply hoare_fail].
  subst sz. destruct (Z.leb_spec (names_size (xattr_names a)) 0) as [Hle|Hgt].
  { apply hoare_ret. intros F' <-. split; [done|].
    assert (xattr_names a = []) as Hn.
    { destruct (decide (xattr_names a = [])) as [|Hne]; [done|]. pose proof (names_size_pos _ Hne). lia. }
    unfold xattr_names in Hn. apply fmap_nil_inv, map_to_list_empty_iff in Hn. by rewrite Hn, delete_empty. }
  eapply hoare_bind with (R := fun r F' => F = F' /\
    match r with
    | inl names => names = xattr_names a
    | inr e => not_supported e || errors_Is e (Errno ENOSYS) = false
    end).
  { apply hoare_try, hoare_inspect_err; [done|done|..]; intros F' e <-; rewrite Hli; unfold list_into;
      rewrite read_attr_here; simpl; rewrite Z.leb_refl.
    - intros [Hf|[Hr|Hr]]; try discriminate. split; [done|]. by apply no_skip_fault.
    - by intros [= <-]. }
  intros [names|e]; apply hoare_ghost; intros F' [<- Hr]; [|rewrite Hr; by apply hoare_fail].
  subst names. eapply hoare_conseq; [apply hoare_read_values|..]; simpl; try done.
  intros x F' [-> Hx]. split; [done|]. apply map_eq. intros n. rewrite (Hx n).
  destruct (decide (n = ""%string)) as [-> |Hne].
  { rewrite lookup_delete_eq, decide_False; [by rewrite lookup_empty|]. naive_solver. }
  rewrite lookup_delete_ne by done. case_decide as Hin.
  - rewrite lookup_empty. by destruct (a_xattrs a !! n).
  - rewrite lookup_empty. destruct (a_xattrs a !! n) eqn:Hn; [|done]. destruct Hin. split; [|done].
    unfold xattr_names. apply list_elem_of_fmap. exists (n, l). split; [done|].
    by apply elem_of_map_to_list.
Qed.

End xattrs.

(** Both functions that read attributes read all of them. *)
Lemma hoare_readFdXattrs `{Kernel} F i a :
  quiet -> xattrs_supported -> f_attr F !! i = Some a ->
  hoare (eq F) (readFdXattrs i) (fun x F' => F = F' /\ x = delete ""%string (a_xattrs a))
    (fun _ => eq F) (eq F).
Proof. intros Hq Hs Ha. by apply (hoare_read_xattrs Hq Hs F i a Ha). Qed.

Lemma hoare_readXattrs `{Kernel} F p i a :
  quiet -> xattrs_supported -> path_ino p F = Ok i -> f_attr F !! i = Some a ->
  hoare (eq F) (readXattrs p) (fun x F' => F = F' /\ x = delete ""%string (a_xattrs a))
    (fun _ => eq F) (eq F).
Proof.
  intros Hq Hs Hp Ha. apply (hoare_read_xattrs Hq Hs F i a Ha); intros; by rewrite Hp.
Qed.
