(* ===== verification/LifecycleAtomic.v ===== *)
(** * [Execute] as one atomic step

    The phases of a transaction in the program logic, the atomic specification
    they refine, and what the specification promises about the metadata of the
    published file. *)

From S2P Require Import Prelude GoStrings GoPath Vfs GoOS VfsLogic VfsEffects VfsStage Lifecycle LifecycleProofs.
From stdpp Require Import base list strings gmap.
From Stdlib Require Import ZArith Lia Strings.Ascii Strings.Byte.

Local Open Scope Z_scope.

(** ** Modes *)

Lemma bit_if_mask mask m out full : Z.land out full = out -> Z.land (bit_if mask m out) full = bit_if mask m out.
Proof. unfold bit_if. by destruct (_ =? _). Qed.

(** A mode the kernel reports has no bit outside those [Chmod] can set. *)
Lemma go_perm_mask p : Z.land (go_perm p) chmodModeMask = go_perm p.
Proof.
  unfold go_perm. rewrite !Z.land_lor_distr_l, !bit_if_mask by reflexivity.
  by rewrite <- Z.land_assoc.
Qed.

Lemma Mode_file i a k :
  Z.land (Mode (mkInfo i TFile a k)) chmodModeMask = go_perm (a_perm a).
Proof. unfold Mode. simpl. rewrite Z.lor_0_l. apply go_perm_mask. Qed.

(** A reading of attributes, with its result where it can be relied on. *)
Lemma hoare_xattrs_of `{Kernel} F0 (m : io (gmap string (list byte))) a :
  observes m ->
  (xattrs_supported -> hoare (eq F0) m (fun x F => F0 = F /\ x = delete ""%string (a_xattrs a))
     (fun _ => eq F0) (eq F0)) ->
  hoare (eq F0) m (fun x F => F0 = F /\ (xattrs_supported -> x = delete ""%string (a_xattrs a)))
    (fun _ => eq F0) (eq F0).
Proof.
  intros Hobs Hval w Hw. pose proof (Hobs F0 w Hw) as Ho. pose proof (fun Hs => Hval Hs w Hw) as Hv.
  destruct (m w) as [[x|e|] w']; [|done|done]. split; [done|]. intros Hs. by apply Hv.
Qed.

Section execute.
Context `{Kernel} `{GoUnicode} (Hquiet : quiet).
Context (F0 : fs).
Abbreviation unpub := (unpublished staging_name F0).

(** ** Resolution *)

(** The file the transaction starts from. *)
Definition source_info (tx : Transaction) : outcome errno FileInfo :=
  match tx_SrcFile tx with
  | Some fd => info_of fd F0
  | None => i ← path_ino (filepath_Clean (tx_SrcPath tx)) F0; info_of i F0
  end.

Definition snapshot_of (fi : FileInfo) (snap : SourceSnapshot) : Prop :=
  s_Dev snap = a_dev (fi_attr fi) /\ s_Ino snap = fi_ino fi /\ s_Mode snap = Mode fi /\
  s_UID snap = a_uid (fi_attr fi) /\ s_GID snap = a_gid (fi_attr fi) /\
  s_Nlink snap = fi_nlink fi /\ s_Size snap = fi_size fi /\ s_ModTime snap = a_mtime (fi_attr fi) /\
  (xattrs_supported -> s_Xattrs snap = delete ""%string (a_xattrs (fi_attr fi))).

Lemma info_of_inv i F fi :
  info_of i F = Ok fi -> fi_ino fi = i /\ f_tree F !! i = Some (fi_node fi) /\
    f_attr F !! i = Some (fi_attr fi) /\ fi_nlink fi = nlink (f_tree F) i.
Proof using Type.
  unfold info_of. destruct (f_tree F !! i), (f_attr F !! i); try discriminate. by intros [= <-].
Qed.

Lemma observes_read_xattrs ls li gs gi :
  observes (read_xattrs (inspect ls) (fun sz => inspect (li sz)) (fun n => inspect (gs n))
              (fun n sz => inspect (gi n sz))).
Proof using Hquiet.
  unfold read_xattrs. observe.
  match goal with |- observes (read_values _ _ ?l ?acc) => generalize acc; induction l as [|n l IH] end;
    intros acc; cbn [read_values]; observe.
Qed.

Lemma observes_readFdXattrs i : observes (readFdXattrs i).
Proof using Hquiet. apply observes_read_xattrs. Qed.

Lemma observes_readXattrs p : observes (readXattrs p).
Proof using Hquiet. apply observes_read_xattrs. Qed.

Lemma hoare_TakeSourceSnapshot tx :
  hoare (eq F0) (TakeSourceSnapshot (tx_SrcFile tx) (filepath_Clean (tx_SrcPath tx)))
    (fun snap F => F0 = F /\ exists fi, source_info tx = Ok fi /\ snapshot_of fi snap)
    (fun _ => eq F0) (eq F0).
Proof using Hquiet.
  unfold TakeSourceSnapshot.
  eapply hoare_bind with (R := fun r F => F0 = F /\ source_info tx = Ok r.1 /\
    (xattrs_supported -> r.2 = delete ""%string (a_xattrs (fi_attr r.1)))).
  2: { intros [fi x]. apply hoare_ret. intros F (<- & Hs & Hx). split; [done|].
       exists fi. split; [done|]. by repeat split. }
  unfold source_info. destruct (tx_SrcFile tx) as [fd|].
  - eapply hoare_bind with (R := fun fi F => F0 = F /\ info_of fd F0 = Ok fi).
    { apply hoare_inspect; try done. by intros F fi <-. }
    intros fi. apply hoare_ghost. intros F [<- Hfi]. destruct (info_of_inv _ _ _ Hfi) as (_ & _ & Ha & _).
    eapply hoare_bind.
    { apply (hoare_xattrs_of F0 _ (fi_attr fi)); [apply observes_readFdXattrs|].
      intros Hs. by apply hoare_readFdXattrs. }
    intros x. apply hoare_ret. by intros F [<- Hx].
  - eapply hoare_bind with (R := fun fi F => F0 = F /\
      exists i, path_ino (filepath_Clean (tx_SrcPath tx)) F0 = Ok i /\ info_of i F0 = Ok fi).
    { apply hoare_inspect; try done. intros F fi <- Hl.
      apply bind_Ok_inv in Hl as (l & Hl & Hr). apply bind_Ok_inv in Hr as (i & Hi & Hr).
      split; [done|]. exists i. unfold path_ino. by rewrite Hl. }
    intros fi. apply hoare_ghost. intros F (<- & i & Hp & Hfi).
    destruct (info_of_inv _ _ _ Hfi) as (_ & _ & Ha & _).
    eapply hoare_bind.
    { apply (hoare_xattrs_of F0 _ (fi_attr fi)); [apply observes_readXattrs|].
      intros Hs. by eapply hoare_readXattrs. }
    intros x. apply hoare_ret. intros F [<- Hx]. by rewrite Hp.
Qed.

(** What [resolveTargetAndSnapshot] returns. *)
Record resolved (tx : Transaction) (policy : MetadataPolicy) (snap : SourceSnapshot)
    (dest : string) (inPlace : bool) : Prop := {
  rs_source : exists fi, source_info tx = Ok fi /\ snapshot_of fi snap;
  rs_valid : ValidateSnapshot (Some snap) policy = Ok tt;
  rs_target : match tx_Intent tx with
              | IntentReplaceSource => inPlace = true /\ (1 < s_Nlink snap -> tx_BreakHardlinks tx = true)
              | IntentCreateOnly => inPlace = false /\ dest = filepath_Clean (tx_DestPath tx)
              | IntentOther _ => inPlace = false /\ dest = ""%string
              end
}.

Lemma observes_replace_destination tx snap a b : observes (replace_destination tx snap a b).
Proof using Hquiet. unfold replace_destination, os_Stat. observe. Qed.

Lemma hoare_resolve tx policy :
  hoare (eq F0) (resolveTargetAndSnapshot tx policy)
    (fun r F => F0 = F /\ resolved tx policy r.1.1 r.1.2 r.2) (fun _ => eq F0) (eq F0).
Proof using Hquiet.
  unfold resolveTargetAndSnapshot.
  eapply hoare_bind; [apply hoare_TakeSourceSnapshot|]. intros snap. apply hoare_ghost.
  intros F [<- Hsrc].
  assert (forall dest inPlace,
    ValidateSnapshot (Some snap) policy = Ok tt ->
    match tx_Intent tx with
    | IntentReplaceSource => inPlace = true /\ (1 < s_Nlink snap -> tx_BreakHardlinks tx = true)
    | IntentCreateOnly => inPlace = false /\ dest = filepath_Clean (tx_DestPath tx)
    | IntentOther _ => inPlace = false /\ dest = ""%string
    end -> hoare (eq F0) (mret (snap, dest, inPlace))
      (fun r F => F0 = F /\ resolved tx policy r.1.1 r.1.2 r.2) (fun _ => eq F0) (eq F0)) as Hret.
  { intros dest inPlace Hv Ht. apply hoare_ret. intros F <-. by repeat split. }
  destruct (ValidateSnapshot (Some snap) policy) as [[]|e|] eqn:Hv; simpl lift.
  2, 3: exact (hoare_fail (eq F0) _ _ (fun _ => eq F0) _ (fun F HF => HF)).
  apply hoare_observe; [apply observes_ret|done..|intros _].
  apply hoare_observe; [apply observes_try, observes_EvalSymlinks; done|done..|intros real].
  apply hoare_observe; [|done..|intros _].
  { destruct (tx_SrcFile tx); [|apply observes_ret]. unfold os_Stat. observe. }
  destruct (tx_Intent tx) eqn:Hi; [|by apply Hret..].
  apply hoare_observe; [apply observes_replace_destination|done..|intros dest].
  destruct (_ && _) eqn:Hh; [by apply hoare_fail|]. apply Hret; [done|]. split; [done|].
  intros Hn. apply Z.ltb_lt in Hn. rewrite Hn in Hh. by destruct (tx_BreakHardlinks tx).
Qed.

(** ** Filling the staging file *)

(** Bytes the callback writes when it starts on a state that only added to
    [F0]. *)
Definition transformed (t : TransformFunc) (data : list byte) : Prop :=
  exists F, evolves staging_name None F0 F /\ (t F).2 = None /\ data = concat (t F).1.

(** Metadata the policy asks for. *)
Definition stamped (snap : SourceSnapshot) (policy : MetadataPolicy) (a : attr) : Prop :=
  go_perm (a_perm a) = target_mode snap policy /\
  (policy = PolicyStrict -> a_uid a = s_UID snap /\ a_gid a = s_GID snap) /\
  (xattrs_supported ->
    (forall n v, n <> ""%string -> a_xattrs a !! n = Some v -> staged_attr_ok snap policy n = true) /\
    (policy = PolicyStrict -> forall n v, s_Xattrs snap !! n = Some v -> a_xattrs a !! n = Some v)).

Section fill.
Context (sp : string) (F1 : fs) (i d0 : Z) (n0 : string).
Hypothesis Hst : staging staging_name F0 cwd_base sp F1 i d0 n0.
Abbreviation held := (holding F1 i (fun _ => True)).
Abbreviation data_is D := (fun a : attr => a_data a = D).

Lemma held_of phi F : holding F1 i phi F -> held F.
Proof using Type. by apply holding_impl. Qed.

(** A call that changes metadata keeps the bytes. *)
Lemma hoare_keep_data D f :
  (forall n a a', f n a = Ok a' -> a_data a' = a_data a) ->
  hoare (holding F1 i (data_is D)) (update_attr i f) (fun _ => holding F1 i (data_is D))
    (fun _ => holding F1 i (data_is D)) (holding F1 i (data_is D)).
Proof using Hquiet.
  intros Hf. apply hoare_update_attr; [done| |done..]. intros n a a' <- Ha. by eapply Hf.
Qed.

Lemma hoare_File_Chmod D mode :
  hoare (holding F1 i (data_is D)) (File_Chmod i mode) (fun _ => holding F1 i (data_is D))
    (fun _ => holding F1 i (data_is D)) (holding F1 i (data_is D)).
Proof using Hquiet. apply hoare_keep_data. by intros n a a' [= <-]. Qed.

Lemma hoare_removeFdXattr D attr :
  hoare (holding F1 i (data_is D)) (removeFdXattr i attr) (fun _ => holding F1 i (data_is D))
    (fun _ => holding F1 i (data_is D)) (holding F1 i (data_is D)).
Proof using Hquiet.
  unfold removeFdXattr.
  eapply hoare_bind with (R := fun _ => holding F1 i (data_is D)).
  - apply hoare_try. apply hoare_keep_data. intros n a a' Ha.
    destruct (a_xattrs a !! attr); [|discriminate]. by injection Ha as <-.
  - intros [[]|e]; [by apply hoare_ret|]. destruct (_ || _); [by apply hoare_ret|by apply hoare_fail].
Qed.

Lemma hoare_strip D :
  hoare (holding F1 i (data_is D)) (stripInheritedStagingACLs i) (fun _ => holding F1 i (data_is D))
    (fun _ => holding F1 i (data_is D)) (holding F1 i (data_is D)).
Proof using Hquiet. eapply hoare_bind; [apply hoare_removeFdXattr|intros []; apply hoare_removeFdXattr]. Qed.

Lemma hoare_applyMetadata D snap policy :
  hoare (holding F1 i (data_is D)) (applyMetadata i snap policy)
    (fun m F => m = target_mode snap policy /\ holding F1 i (data_is D) F)
    (fun _ => holding F1 i (data_is D)) (holding F1 i (data_is D)).
Proof using Hquiet.
  unfold applyMetadata. eapply hoare_bind; [apply hoare_strip|intros []].
  eapply hoare_bind with (R := fun _ => holding F1 i (data_is D)).
  - destruct policy; [|by apply hoare_ret].
    eapply hoare_bind with (R := fun _ => holding F1 i (data_is D)).
    + unfold preserve_owner. eapply hoare_bind with (R := fun _ => holding F1 i (data_is D)).
      { apply hoare_try, hoare_keep_data. by intros n a a' [= <-]. }
      intros [[]|e]; [by apply hoare_ret|].
      apply observes_hoare. unfold sys_fstat. observe.
    + intros []. apply hoare_each. intros av _. apply hoare_keep_data. by intros n a a' [= <-].
  - intros []. eapply hoare_bind; [apply hoare_File_Chmod|]. intros []. by apply hoare_ret.
Qed.

Lemma hoare_write_pieces D pieces :
  hoare (holding F1 i (data_is D))
    (each (fun piece => sys_write i (fun data => data ++ piece)) pieces)
    (fun _ => holding F1 i (data_is (D ++ concat pieces))) (fun _ => held) held.
Proof using Hquiet.
  revert D. induction pieces as [|p pieces IH]; intros D; cbn [each concat].
  - apply hoare_ret. intros F. apply holding_impl. intros a ->. by rewrite app_nil_r.
  - eapply hoare_bind with (R := fun _ => holding F1 i (data_is (D ++ p))).
    + apply hoare_update_attr; [done| |intros e; apply held_of..].
      intros n a a' <- [= <-]. done.
    + intros []. eapply hoare_conseq; [apply (IH (D ++ p))|..]; simpl; try done.
      intros u F. apply holding_impl. intros a ->. by rewrite app_assoc.
Qed.

Lemma hoare_run_transform t :
  hoare (holding F1 i (data_is [])) (run_transform t i)
    (fun _ F => exists D, transformed t D /\ holding F1 i (data_is D) F) (fun _ => held) held.
Proof using Hquiet Hst.
  unfold run_transform. apply hoare_ghost. intros F Hh.
  destruct (holding_unpublished _ _ _ _ _ _ _ _ _ _ Hst Hh) as [_ Hev].
  eapply hoare_bind with (R := fun r F' => r = F /\ holding F1 i (data_is []) F').
  { apply hoare_inspect; [done|intros F' <-; by eapply held_of|intros F' e <-; by eapply held_of|].
    by intros F' r <- [= <-]. }
  intros r. apply hoare_pure. intros ->.
  eapply hoare_bind; [apply hoare_write_pieces|]. intros [].
  destruct (t F).2 eqn:Ht.
  - apply hoare_fail. intros F'. apply held_of.
  - apply hoare_ret. intros F' Hh'. exists (concat (t F).1). split; [|done]. by exists F.
Qed.

(** The readback accepts only what the policy asks for. *)
Lemma stamped_intro snap policy a x :
  go_perm (a_perm a) = target_mode snap policy ->
  bool_decide (policy = PolicyStrict) &&
    negb ((a_uid a =? s_UID snap) && (a_gid a =? s_GID snap)) = false ->
  (xattrs_supported -> x = delete ""%string (a_xattrs a)) ->
  forallb (staged_attr_ok snap policy) (map_to_list x).*1 = true ->
  bool_decide (policy = PolicyStrict) && negb (attrs_arrived snap x) = false ->
  stamped snap policy a.
Proof using Type.
  intros Hmode Hown Hx Hall Harr. split; [done|]. split.
  { intros ->. rewrite bool_decide_eq_true_2 in Hown by done. simpl in Hown.
    apply negb_false_iff, andb_true_iff in Hown as [H1%Z.eqb_eq H2%Z.eqb_eq]. done. }
  intros Hs. specialize (Hx Hs). subst x. split.
  - intros n v Hn Hv. rewrite forallb_forall in Hall. apply Hall. apply list_elem_of_In.
    apply list_elem_of_fmap. exists (n, v). split; [done|]. apply elem_of_map_to_list.
    by rewrite lookup_delete_ne.
  - intros -> n v Hv. rewrite bool_decide_eq_true_2 in Harr by done. simpl in Harr.
    apply negb_false_iff in Harr. unfold attrs_arrived in Harr. rewrite forallb_forall in Harr.
    specialize (Harr (n, v)). rewrite <- list_elem_of_In, elem_of_map_to_list in Harr.
    specialize (Harr Hv). simpl in Harr. apply bool_decide_eq_true_1 in Harr.
    by apply lookup_delete_Some in Harr as [_ ?].
Qed.

Lemma hoare_verifyReadback D snap policy :
  hoare (holding F1 i (data_is D)) (verifyReadback i (target_mode snap policy) snap policy)
    (fun _ => holding F1 i (fun a => a_data a = D /\ D <> [] /\ stamped snap policy a))
    (fun _ => held) held.
Proof using Hquiet Hst.
  apply hoare_ghost. intros F Hh. pose proof (held_of _ _ Hh) as Hheld.
  destruct Hh as (HT & Hj & a & Ha & HD). unfold verifyReadback.
  assert (forall e, hoare (eq F) (fail e) (fun (_ : unit) =>
    holding F1 i (fun a => a_data a = D /\ D <> [] /\ stamped snap policy a)) (fun _ => held) held)
    as Hfail by (intros e; apply hoare_fail; by intros F' <-).
  eapply hoare_bind with (R := fun fi F' => F = F' /\ exists k, fi = mkInfo i TFile a k).
  { apply hoare_wrapping, hoare_inspect; [done|by intros F' <-|by intros F' e <-|].
    intros F' fi <- Hfi. split; [done|].
    unfold info_of in Hfi. rewrite HT, (st_file _ _ _ _ _ _ _ _ Hst), Ha in Hfi.
    injection Hfi as <-. eauto. }
  intros fi. apply hoare_ghost. intros F' (<- & k & ->).
  destruct (Z.eqb_spec (fi_size (mkInfo i TFile a k)) 0) as [|Hsz]; [apply Hfail|].
  rewrite Mode_file. simpl fi_attr.
  destruct (Z.eqb_spec (go_perm (a_perm a)) (target_mode snap policy)) as [Hmode|]; [|apply Hfail].
  simpl negb. cbv iota.
  destruct (bool_decide (policy = PolicyStrict) && _) eqn:Hown; [apply Hfail|].
  eapply hoare_bind with (R := fun x F' => F = F' /\
    (xattrs_supported -> x = delete ""%string (a_xattrs a))).
  { apply hoare_wrapping. eapply hoare_conseq.
    - apply (hoare_xattrs_of F (readFdXattrs i) a); [by apply observes_readFdXattrs|].
      intros Hs. by apply hoare_readFdXattrs.
    - done.
    - done.
    - by intros e F' <-.
    - by intros F' <-. }
  intros x. apply hoare_ghost. intros F' [<- Hx].
  destruct (forallb _ _) eqn:Hall; simpl; [|apply Hfail].
  destruct (_ && negb (attrs_arrived snap x)) eqn:Harr; [apply Hfail|].
  apply hoare_ret. intros F' <-. split_and!; [done..|]. exists a. split_and!; [done..| |].
  - intros ->. apply Hsz. unfold fi_size. simpl. by rewrite HD.
  - by eapply stamped_intro.
Qed.

End fill.

(** ** Publication *)

Lemma hoare_os_Rename sp dest F1 i d0 n0 src phi :
  staging staging_name F0 cwd_base sp F1 i d0 n0 -> src <> i ->
  (exists l', locate cwd_base true dest F1 = Ok l' /\ l_ino l' = Some src) ->
  hoare (holding F1 i phi) (os_Rename sp dest) (fun _ => published F0 dest true src phi)
    (fun _ => holding F1 i phi) (holding F1 i phi).
Proof using Hquiet.
  intros Hst Hsrc Hl.
  pose proof (hoare_rename Hquiet F0 sp dest F1 i d0 n0 src phi Hst Hsrc true (fun _ => Hl)) as Hren.
  unfold os_Rename.
  apply hoare_observe; [apply observes_try, observes_stat; done|done..|].
  intros [fi|e]; [|exact Hren]. destruct (IsDir fi); [|exact Hren].
  apply hoare_observe; [by apply observes_stat|done..|]. intros ofi.
  destruct (_ || _); [by apply hoare_fail|exact Hren].
Qed.

Lemma hoare_publish sp dest F1 i d0 n0 snap inPlace bh phi :
  staging staging_name F0 cwd_base sp F1 i d0 n0 -> s_Ino snap <> i ->
  hoare (holding F1 i phi) (publishTransaction inPlace sp dest snap bh)
    (fun _ => published F0 dest inPlace (s_Ino snap) phi) (fun _ => holding F1 i phi)
    (fun F => holding F1 i phi F \/ published F0 dest inPlace (s_Ino snap) phi F).
Proof using Hquiet.
  intros Hst Hsrc. unfold publishTransaction. destruct inPlace; [|by eapply hoare_publishCreateOnly].
  eapply hoare_bind with (R := fun fi F => (exists l', locate cwd_base true dest F1 = Ok l' /\
    l_ino l' = Some (fi_ino fi)) /\ holding F1 i phi F).
  { apply hoare_wrapping, hoare_inspect; [done|by left|done|]. intros F fi Hh Hl.
    split; [|done]. apply bind_Ok_inv in Hl as (l & Hl & Hr). apply bind_Ok_inv in Hr as (j & Hj & Hr).
    apply found_inv in Hj. apply info_of_inv in Hr as (-> & _).
    rewrite (locate_tree _ _ _ F F1 (proj1 Hh)) in Hl. eauto. }
  intros fi. apply hoare_pure. intros Hl.
  destruct (_ || _) eqn:Hsame; [by apply hoare_fail|].
  destruct (_ && _); [by apply hoare_fail|].
  rewrite !orb_false_iff, !negb_false_iff in Hsame. destruct Hsame as [[Hsame _] _].
  unfold same_inode in Hsame. apply andb_true_iff in Hsame as [_ Hino%Z.eqb_eq].
  rewrite Hino in Hl. eapply hoare_conseq; [by apply (hoare_os_Rename sp dest F1 i d0 n0 (s_Ino snap) phi)|..]; simpl; auto.
Qed.

(** ** The whole transaction *)

(** A published file with the callback's bytes and the policy's metadata. *)
Definition complete (t : TransformFunc) (snap : SourceSnapshot) (policy : MetadataPolicy) (a : attr) :
    Prop :=
  transformed t (a_data a) /\ a_data a <> [] /\ stamped snap policy a.

Lemma hoare_fill_and_publish tx t policy snap dest inPlace sp F1 i d0 n0 :
  staging staging_name F0 cwd_base sp F1 i d0 n0 -> s_Ino snap <> i ->
  let held := holding F1 i (fun _ => True) in
  hoare (holding F1 i (fun a => a_data a = []))
    (fill_and_publish tx t policy snap dest inPlace i sp)
    (fun _ => published F0 dest inPlace (s_Ino snap) (complete t snap policy)) (fun _ => held)
    (fun F => held F \/ published F0 dest inPlace (s_Ino snap) (complete t snap policy) F).
Proof using Hquiet.
  intros Hst Hsrc held. unfold fill_and_publish.
  assert (forall phi F, holding F1 i phi F -> held F) as Hheld by (intros phi F; by apply holding_impl).
  pose proof (fun phi F Hh => or_introl (B := published F0 dest inPlace (s_Ino snap)
    (complete t snap policy) F) (Hheld phi F Hh)) as Hor.
  eapply hoare_seq; [apply hoare_wrapping_any; by apply (hoare_File_Chmod F1 i [])|eauto..|].
  intros []. eapply hoare_seq; [apply hoare_wrapping_any; by apply (hoare_strip F1 i [])|eauto..|].
  intros []. eapply hoare_seq; [by eapply hoare_run_transform|eauto..|].
  intros []. apply hoare_ghost. intros F (D & HD & Hh).
  eapply hoare_seq; [eapply hoare_conseq; [by apply (hoare_applyMetadata F1 i D snap policy)|..];
    try done; by intros F' <-|eauto..|].
  intros m. apply hoare_pure. intros ->.
  eapply hoare_seq; [by eapply hoare_verifyReadback|eauto..|].
  intros []. apply hoare_observe; [by apply observes_inspect|eauto..|]. intros [].
  apply hoare_observe; [by apply observes_inspect|eauto..|]. intros [].
  eapply hoare_conseq; [by apply (hoare_publish sp dest F1 i d0 n0 snap inPlace (tx_BreakHardlinks tx)
    (complete t snap policy))|..]; simpl; eauto.
  - intros F'. apply holding_impl. intros a (<- & Hne & Hs). by split_and!.
  - intros F' [Hh'|Hp]; eauto.
Qed.

Lemma hoare_stage_and_publish tx t policy snap dest inPlace :
  is_Some (f_tree F0 !! s_Ino snap) ->
  let pub := published F0 dest inPlace (s_Ino snap) (complete t snap policy) in
  hoare unpub (stage_and_publish tx t policy snap dest inPlace) (fun _ => pub)
    (fun e F => unpub F \/ (exists e', e = ErrDurabilitySyncFailed ++ e') /\ pub F)
    (fun F => unpub F \/ pub F).
Proof using Hquiet.
  intros Hsrc pub. unfold stage_and_publish.
  eapply hoare_seq; [by apply hoare_MkdirAll|eauto..|intros []].
  eapply hoare_seq.
  { apply hoare_wrapping_any, (hoare_CreateTemp Hquiet staging_name F0); try done.
    intros s. apply HasPrefix_app. }
  1, 2: eauto.
  intros [i sp]. apply hoare_ghost. intros F1 (d & n & Hst & Hh). simpl in Hst, Hh.
  assert (s_Ino snap <> i) as Hne.
  { intros <-. rewrite (st_tree0 _ _ _ _ _ _ _ _ Hst) in Hsrc. by destruct Hsrc. }
  eapply hoare_bind with (R := fun _ => pub).
  - apply hoare_on_failure with (E0 := fun _ => holding F1 i (fun _ => True)).
    + eapply hoare_conseq; [by eapply hoare_fill_and_publish|..]; simpl; eauto.
      * by intros F <-.
      * intros F [Hx|Hx]; [left; by eapply holding_unpublished|by right].
    + intros e. unfold discard_staged.
      apply hoare_observe; [apply observes_ignore; by apply observes_inspect| | |].
      * intros e' F Hx. left. by eapply holding_unpublished.
      * intros F Hx. left. by eapply holding_unpublished.
      * intros []. apply hoare_ignore. eapply hoare_conseq; [by eapply hoare_discard|..]; simpl; auto.
  - intros []. apply hoare_wrapping.
    eapply hoare_conseq; [apply (observes_hoare _ pub), observes_sync_path; done|..]; simpl; eauto.
Qed.

(** The specification: a run that did not publish left the file system as it
    was, but for temporary names and directories; a run that published
    replaced exactly one name by a complete file. *)
Inductive atomic_outcome (tx : Transaction) : res unit -> fs -> Prop :=
| not_published r F :
    r <> Done tt -> unpub F -> atomic_outcome tx r F
| is_published t policy snap dest inPlace r F :
    tx_Transform tx = Some t ->
    ParsePolicy (tx_Policy tx) = Ok policy ->
    resolved tx policy snap dest inPlace ->
    r = Done tt \/ r = Dead \/ (exists e, r = Failed (ErrDurabilitySyncFailed ++ e)) ->
    published F0 dest inPlace (s_Ino snap) (complete t snap policy) F ->
    atomic_outcome tx r F.

End execute.

(** A change of the locks is not a change of files. *)
Lemma unpublished_locks tmp F0 F L :
  unpublished tmp F0 F -> unpublished tmp F0 (mkFs (f_tree F) (f_attr F) L).
Proof. intros [[He Ha] Hev]. split; [by split|by apply evolves_locks]. Qed.

Lemma published_locks `{Kernel} F0 dest inPlace src phi F L :
  published F0 dest inPlace src phi F ->
  published F0 dest inPlace src phi (mkFs (f_tree F) (f_attr F) L).
Proof.
  intros [[He Ha] (d & n & i & a & Hev & Hrest)]. split; [by split|].
  exists d, n, i, a. split; [by apply evolves_locks|done].
Qed.

Section theorem.
Context `{Kernel} `{GoUnicode} (Hquiet : quiet).

(** A triple as a statement on the result of a run. *)
Lemma hoare_outcome {A} (O : res A -> fs -> Prop) F0 (m : io A) w :
  hoare (eq F0) m (fun a => O (Done a)) (fun e => O (Failed e)) (O Dead) -> F0 = w_fs w ->
  O (m w).1 (w_fs (m w).2).
Proof using Type. intros Hm Hw. specialize (Hm w Hw). by destruct (m w) as [[a|e|] w']. Qed.

Definition lock_blind (P : fs -> Prop) : Prop :=
  forall F L, P F -> P (mkFs (f_tree F) (f_attr F) L).

Lemma atomic_outcome_locks F0 tx r : lock_blind (atomic_outcome F0 tx r).
Proof using Type.
  intros F L [r' F' Hr Hu|t policy snap dest inPlace r' F' Ht Hp Hres Hr Hpub].
  - by apply not_published, unpublished_locks.
  - by eapply is_published, published_locks.
Qed.

(** A process that dies after its work is done has done it. *)
Lemma atomic_outcome_dead F0 tx r F : atomic_outcome F0 tx r F -> atomic_outcome F0 tx Dead F.
Proof using Type.
  intros [r' F' Hr Hu|t policy snap dest inPlace r' F' Ht Hp Hres Hr Hpub].
  - by apply not_published.
  - eapply is_published; eauto.
Qed.

(** Locking changes nothing else, and unlocking neither. *)
Lemma hoare_lock path (P : fs -> Prop) :
  lock_blind P ->
  hoare P (acquireAdvisoryLock path)
    (fun unlock F => P F /\ forall Q, lock_blind Q -> hoare Q unlock (fun _ => Q) (fun _ => Q) Q)
    (fun _ => P) P.
Proof using Hquiet.
  intros HP. unfold acquireAdvisoryLock.
  apply hoare_observe; [by apply observes_inspect|done..|]. intros f.
  eapply hoare_bind with (R := fun _ => P).
  - apply hoare_try, hoare_syscall; [done..|]. intros n F u F' HF Hl.
    destruct (decide _); [discriminate|]. injection Hl as <- <-. by apply HP.
  - intros [[]|e].
    + apply hoare_ret. intros F HF. split; [done|]. intros Q HQ.
      eapply hoare_bind with (R := fun _ => Q).
      * apply hoare_ignore, hoare_syscall; [done..|]. intros n F' u F'' HF' [= <- <-]. by apply HQ.
      * intros []. apply observes_hoare, observes_ignore. by apply observes_inspect.
    + apply hoare_observe; [apply observes_ignore; by apply observes_inspect|done..|]. intros [].
      destruct (errors_Is _ _); by apply hoare_fail.
Qed.

Lemma Execute_refines tx w :
  wf_fs (w_fs w) ->
  atomic_outcome (w_fs w) tx (Execute tx w).1 (w_fs (Execute tx w).2).
Proof using Hquiet.
  intros Hwf. set (F0 := w_fs w).
  assert (unpublished staging_name F0 F0) as Hup by (split; [done|apply evolves_refl]).
  assert (forall e, atomic_outcome F0 tx (Failed e) F0) as Hfail by (intros e; by apply not_published).
  unfold Execute. destruct (tx_Transform tx) as [t|] eqn:Ht; [|apply Hfail].
  destruct (String.eqb _ _); [apply Hfail|].
  destruct (match tx_Intent tx with IntentOther _ => true | _ => false end); [apply Hfail|].
  destruct (match tx_Intent tx with IntentCreateOnly => _ | _ => false end); [apply Hfail|].
  destruct (ParsePolicy (tx_Policy tx)) as [policy|e|] eqn:Hpol; [|apply Hfail..].
  apply (hoare_outcome (atomic_outcome F0 tx) F0); [|done].
  change (lift (Ok policy) ≫= ?k) with (k policy). cbv beta.
  eapply hoare_seq; [by apply hoare_resolve|by intros e F <-|intros F <-; by apply not_published|].
  intros [[snap dest] inPlace]. apply hoare_ghost. simpl. intros F [<- Hres].
  assert (is_Some (f_tree F0 !! s_Ino snap)) as Hsrc.
  { destruct (rs_source _ _ _ _ _ _ Hres) as (fi & Hfi & (_ & -> & _)). unfold source_info in Hfi.
    destruct (tx_SrcFile tx); [|apply bind_Ok_inv in Hfi as (? & _ & Hfi)];
      apply info_of_inv in Hfi as (-> & -> & _); eauto. }
  assert (hoare (unpublished staging_name F0) (stage_and_publish tx t policy snap dest inPlace)
    (fun u => atomic_outcome F0 tx (Done u)) (fun e => atomic_outcome F0 tx (Failed e))
    (atomic_outcome F0 tx Dead)) as Hstage.
  { eapply hoare_conseq; [by apply hoare_stage_and_publish|..]; simpl.
    - done.
    - intros [] F' Hp. by eapply is_published; eauto.
    - intros e F' [Hu|[[e' ->] Hp]]; [by apply not_published|]. eapply is_published; eauto.
    - intros F' [Hu|Hp]; [by apply not_published|]. eapply is_published; eauto. }
  apply (hoare_pre (unpublished staging_name F0)); [|by intros F <-].
  destruct inPlace; [|exact Hstage].
  eapply hoare_seq; [apply (hoare_lock dest (unpublished staging_name F0))|..].
  { intros F L. apply unpublished_locks. }
  1, 2: intros; by apply not_published.
  intros unlock. apply hoare_ghost. intros F [HF Hunlock].
  eapply hoare_deferring; [by eapply hoare_pre; [exact Hstage|intros F' <-]|..].
  - intros []. eapply hoare_conseq; [apply Hunlock, atomic_outcome_locks|..]; simpl; try done.
    intros F'. apply atomic_outcome_dead.
  - intros e. eapply hoare_conseq; [apply Hunlock, (atomic_outcome_locks F0 tx (Failed e))|..];
      simpl; try done. intros F'. apply atomic_outcome_dead.
Qed.

(** C4. [Execute] refines the atomic specification: under every schedule of failures and at
    every point where the process can die, the outcome and the file system left behind are those
    of a run that did nothing or of one that replaced the destination, in one step, by a
    complete file. *)
Theorem Execute_atomic tx w :
  wf_fs (w_fs w) ->
  atomic_outcome (w_fs w) tx (Execute tx w).1 (w_fs (Execute tx w).2).
Proof using Hquiet. apply Execute_refines. Qed.

End theorem.

(** ** Concrete runs *)

(** Appends a byte to the program. *)
Definition sample_transform : TransformFunc := fun F =>
  ([match f_attr F !! 3 with Some a => a_data a | None => [] end; [byte_of 1]], None).

Definition sample_tx (intent : PublicationIntent) (dest : string) : Transaction :=
  mkTx "/opt/app" None dest intent "strict" false (Some sample_transform).

(** The source is replaced, the run returns, and the new bytes are there. *)
Lemma Execute_atomic_witness :
  let K := calm_kernel in
  let tx := sample_tx IntentReplaceSource "" in
  let w := sample_world sample_disk in
  ((@Execute K ascii_tables tx w).1 = Done tt /\
   a_data <$> (i ← entry (f_tree (w_fs (@Execute K ascii_tables tx w).2)) 2 "app";
               f_attr (w_fs (@Execute K ascii_tables tx w).2) !! i) =
     Some (program_bytes ++ [byte_of 1])) /\
  @atomic_outcome K ascii_tables sample_disk tx
    (@Execute K ascii_tables tx w).1 (w_fs (@Execute K ascii_tables tx w).2).
Proof.
  split; [split; vm_compute; reflexivity|].
  apply (@Execute_atomic calm_kernel ascii_tables (kernel_with_quiet _)
    (sample_tx IntentReplaceSource "") (sample_world sample_disk)).
  exact sample_disk_wf.
Defined.

(** A rename that fails leaves the names of the directory as they were. *)
Example Execute_failing_rename :
  let K := kernel_with (fun n => if (n =? 32)%nat then Fails EIO else NoFault) in
  let r := @Execute K ascii_tables (sample_tx IntentReplaceSource "") (sample_world sample_disk) in
  r.1 = Failed [Errno EIO] /\ entries (f_tree (w_fs r.2)) 2 = entries (f_tree sample_disk) 2.
Proof. split; vm_compute; reflexivity. Qed.
