(* ===== verification/LifecycleSafety.v ===== *)
(** * What a transaction never does, and what it leaves

    Under any interference by other processes a create-only transaction never
    takes a name away from what it stands for; the metadata of a published file
    in terms of the source; concrete runs. *)

From S2P Require Import Prelude GoStrings GoPath Vfs GoOS VfsLogic VfsEffects VfsStage Lifecycle LifecycleProofs LifecycleAtomic.
From stdpp Require Import base list strings gmap.
From Stdlib Require Import ZArith Lia Strings.Ascii Strings.Byte.

Local Open Scope Z_scope.

(** ** Values a run can return *)

Definition returns {A} (m : io A) (phi : A -> Prop) : Prop :=
  forall w a w', m w = (Done a, w') -> phi a.

Lemma returns_ret {A} (a : A) (phi : A -> Prop) : phi a -> returns (mret a) phi.
Proof. by intros Hp w a' w' [= <- <-]. Qed.

Lemma returns_fail {A} e (phi : A -> Prop) : returns (fail e) phi.
Proof. by intros w a w'. Qed.

Lemma returns_bind {A B} (m : io A) (k : A -> io B) phi :
  (forall a, returns (k a) phi) -> returns (m ≫= k) phi.
Proof.
  intros Hk w b w' Hb. unfold mbind, io_bind in Hb.
  destruct (m w) as [[a|e|] w1]; try discriminate. by eapply Hk.
Qed.

Lemma returns_wrapping {A} f (m : io A) phi : returns m phi -> returns (wrapping f m) phi.
Proof.
  intros Hm w a w'. unfold wrapping. specialize (Hm w). destruct (m w) as [[a'|e|] w1]; try discriminate.
  intros [= <- <-]. eauto.
Qed.

Lemma guar_bind_val {A B} G (m : io A) (k : A -> io B) phi :
  guarantees G m -> returns m phi -> (forall a, phi a -> guarantees G (k a)) ->
  guarantees G (m ≫= k).
Proof.
  intros Hm Hr Hk w Hw. specialize (Hm w Hw). specialize (Hr w). unfold mbind, io_bind.
  destruct (m w) as [[a|e|] w']; [|done|done]. apply Hk; eauto.
Qed.

Lemma guar_on_failure {A} G cleanup (m : io A) :
  guarantees G cleanup -> guarantees G m -> guarantees G (on_failure cleanup m).
Proof.
  intros Hc Hm w Hw. specialize (Hm w Hw). unfold on_failure.
  destruct (m w) as [[] w']; [done| |done]. specialize (Hc w' Hm).
  by destruct (cleanup w') as [[] w''].
Qed.

(** ** Names are kept *)

(** A change that leaves every name, temporary ones aside, as it is. *)
Definition names_kept (F F' : fs) : Prop :=
  forall d n j, entry (f_tree F) d n = Some j -> entry (f_tree F') d n = Some j \/ staging_name n.

Lemma names_kept_refl F : names_kept F F.
Proof. intros d n j. by left. Qed.

Section guarantee.
Context `{Kernel}.

Lemma names_kept_added b p node a F i F' d n :
  (forall m, node = TDir m -> m = ∅) -> added b p node a F i F' d n -> names_kept F F'.
Proof using Type.
  intros Hm Hadd d' n' j Hj. left. rewrite (added_entry _ _ _ _ _ _ _ _ _ _ _ Hadd) by done.
  case_decide as Heq; [|done]. injection Heq as <- <-. rewrite (add_free Hadd) in Hj. done.
Qed.

Lemma guar_add b p node (a : nat -> attr) :
  (forall m, node = TDir m -> m = ∅) ->
  forall n F i F', add_node b p node (a n) F = Ok (i, F') -> names_kept F F'.
Proof using Type.
  intros Hm n F i F' Hadd. apply add_node_inv in Hadd as (d & nm & Hadd). by eapply names_kept_added.
Qed.

Lemma guar_update_attr i f : guarantees names_kept (update_attr i f).
Proof using Type.
  apply guar_syscall. intros n F u F' Hu. apply update_attr_inv in Hu as (a & a' & _ & _ & ->).
  intros d nm j. by left.
Qed.

Lemma guar_look {A} (f : fs -> outcome errno A) : guarantees names_kept (inspect f).
Proof using Type. apply guar_inspect, names_kept_refl. Qed.

Lemma guar_random : guarantees names_kept random.
Proof using Type. by intros w. Qed.

Hint Resolve guar_update_attr guar_look guar_random : vfs.

Lemma guar_stat b follow p : guarantees names_kept (sys_stat b follow p).
Proof using Type. apply guar_look. Qed.
Hint Resolve guar_stat : vfs.

Lemma guar_read_xattrs ls li gs gi :
  guarantees names_kept (read_xattrs (inspect ls) (fun sz => inspect (li sz)) (fun n => inspect (gs n))
    (fun n sz => inspect (gi n sz))).
Proof using Type.
  unfold read_xattrs. guarantee.
  match goal with |- guarantees _ (read_values _ _ ?l ?acc) => generalize acc; induction l as [|n l IH] end;
    intros acc; cbn [read_values]; guarantee.
Qed.

Lemma guar_EvalSymlinks p : guarantees names_kept (filepath_EvalSymlinks p).
Proof using Type.
  unfold filepath_EvalSymlinks. generalize (is_rooted p) (@nil string) (components p).
  generalize 255%nat as links.
  induction links as [links IHl] using lt_wf_ind; intros rooted kept cs.
  revert rooted kept. induction cs as [|c rest IH]; intros rooted kept.
  { destruct links; apply guar_ret. }
  destruct links as [|links']; cbn [eval_links]; fold (eval_links);
  (destruct (String.eqb c "..");
    [destruct kept as [|top [|? ?]]; try destruct (String.eqb top ".."); apply IH|]);
  (apply guar_bind; [apply guar_stat|intros fi]);
  (destruct (fi_node fi); [destruct rest; [apply IH|apply guar_fail]|apply IH| |
     destruct rest; [apply IH|apply guar_fail]]).
  - apply guar_fail.
  - apply guar_bind; [apply guar_look|intros link]. destruct (is_rooted link); apply IHl; lia.
Qed.

Lemma guar_mkdir_all fuel path perm : guarantees names_kept (mkdir_all fuel path perm).
Proof using Type.
  revert path. induction fuel as [|fuel IH]; intros path; cbn [mkdir_all]; [apply guar_fail|].
  assert (guarantees names_kept (sys_mkdir cwd_base path perm)) as Hmk.
  { apply guar_syscall. intros n F u F' Hm. apply bind_Ok_inv in Hm as ([j F2] & Hadd & [= <- <-]).
    eapply (guar_add cwd_base path (TDir ∅) (fun n => new_attr n perm)); [congruence|exact Hadd]. }
  unfold os_Stat, os_Lstat. guarantee.
Qed.

Lemma guar_create_excl b p perm : guarantees names_kept (sys_create_excl b p perm).
Proof using Type.
  apply guar_syscall. intros n F i F' Hadd.
  eapply (guar_add b p TFile (fun n => new_attr n perm)); [congruence|exact Hadd].
Qed.
Hint Resolve guar_create_excl : vfs.

(** A path that ends in a temporary name. *)
Definition temp_ending (p : string) : Prop :=
  exists cs c, components p = cs ++ [c] /\ staging_name c.

Lemma temp_ending_temp_path dir r : temp_ending (temp_path dir ".microfat-tx-" ".tmp" r).
Proof using Type.
  destruct (components_temp_path dir ".microfat-tx-" ".tmp" r) as [cs Hcs]; try done.
  eexists cs, _. split; [exact Hcs|]. apply HasPrefix_app.
Qed.

Lemma guar_CreateTemp dir :
  guarantees names_kept (os_CreateTemp dir ".microfat-tx-" ".tmp") /\
  returns (os_CreateTemp dir ".microfat-tx-" ".tmp") (fun r => temp_ending r.2).
Proof using Type.
  unfold os_CreateTemp. generalize (Z.to_nat 9999) as tries.
  induction tries as [|tries [IHg IHr]]; cbn [create_temp].
  all: split; [guarantee|].
  all: apply returns_bind; intros r; apply returns_bind; intros [i|e].
  1, 3: apply returns_ret, temp_ending_temp_path.
  - apply returns_fail.
  - destruct (is_exist e); [exact IHr|apply returns_fail].
Qed.

(** A change at the end of such a path is a change of a temporary name. *)
Lemma temp_ending_place b p F l d n :
  temp_ending p -> locate b false p F = Ok l -> place l = Ok (d, n) -> staging_name n.
Proof using Type.
  intros (cs & c & Hp & Hc) Hl Hpl.
  assert (l_name l = Some c) as Hn.
  { eapply locate_last; [exact Hp| |exact Hl]. intros ->. discriminate Hc. }
  unfold place in Hpl. rewrite Hn in Hpl. destruct (l_dir l); [discriminate|]. by injection Hpl as _ <-.
Qed.

Lemma names_kept_del F d n : staging_name n -> names_kept F (with_tree F (del_entry (f_tree F) d n)).
Proof using Type.
  intros Hn d' n' j Hj. simpl. rewrite entry_del_entry. case_decide as Heq; [|by left].
  injection Heq as <- <-. by right.
Qed.

Lemma guar_Remove sp : temp_ending sp -> guarantees names_kept (os_Remove sp).
Proof using Type.
  intros Hsp. assert (forall want, guarantees names_kept
    (syscall (fun _ F => l ← locate cwd_base false sp F; unlink_at l want F))) as Hu.
  { intros want. apply guar_syscall. intros n F u F' Hu. apply bind_Ok_inv in Hu as (l & Hl & Hu).
    destruct (unlink_at_inv _ _ _ _ _ _ _ _ Hl Hu) as (d & nm & i & Hp & _ & _ & -> & _).
    apply names_kept_del. by eapply temp_ending_place. }
  unfold os_Remove, remove_at. guarantee; apply Hu.
Qed.

Lemma guar_publishCreateOnly sp dest :
  temp_ending sp -> guarantees names_kept (publishCreateOnly sp dest).
Proof using Type.
  intros Hsp. unfold publishCreateOnly. guarantee.
  - apply guar_syscall. intros n F u F' Hr.
    apply bind_Ok_inv in Hr as (from & Hfrom & Hr). apply bind_Ok_inv in Hr as (to & Hto & Hr).
    destruct (rename_at_inv _ _ _ _ _ _ _ _ _ _ _ _ Hfrom Hto Hr)
      as (i & ds & ns & dt & nt & Hps & _ & _ & _ & Het & Hdt & [(_ & _ & [=])|(-> & _ & Hnr & _)]).
    intros d' n' j Hj. simpl. rewrite entry_move by done.
    case_decide as Heq; [injection Heq as <- <-; rewrite Het, Hnr in Hj; done|].
    case_decide as Heq2; [|by left]. injection Heq2 as <- <-. right. by eapply temp_ending_place.
  - apply guar_syscall. intros n F u F' Hl.
    apply bind_Ok_inv in Hl as (from & Hfrom & Hl). apply bind_Ok_inv in Hl as (to & Hto & Hl).
    destruct (link_at_inv _ _ _ _ _ _ _ _ _ _ _ Hfrom Hto Hl) as (i & dt & nt & _ & _ & _ & He & Hd & _ & ->).
    intros d' n' j Hj. left. simpl. rewrite entry_set_entry by done. case_decide; congruence.
  - by apply guar_Remove.
Qed.

Lemma guar_strip i : guarantees names_kept (stripInheritedStagingACLs i).
Proof using Type. unfold stripInheritedStagingACLs, removeFdXattr, sys_fremovexattr. guarantee. Qed.

Lemma guar_File_Chmod i m : guarantees names_kept (File_Chmod i m).
Proof using Type. apply guar_update_attr. Qed.

Lemma guar_readFdXattrs i : guarantees names_kept (readFdXattrs i).
Proof using Type. apply guar_read_xattrs. Qed.

Hint Resolve guar_strip guar_File_Chmod guar_readFdXattrs : vfs.

Lemma guar_fill_and_publish tx t policy snap dest i sp :
  temp_ending sp ->
  guarantees names_kept (fill_and_publish tx t policy snap dest false i sp).
Proof using Type.
  intros Hsp. unfold fill_and_publish, run_transform, applyMetadata, preserve_owner, verifyReadback,
    sys_write, sys_fchown, sys_fsetxattr, sys_fstat, sys_fsync, sys_close, publishTransaction.
  guarantee. by apply guar_publishCreateOnly.
Qed.

Context `{GoUnicode}.

(** C34. A create-only transaction never takes a name away and never redirects one: whatever
    other processes do between its calls, and whichever of its calls fail, each change it makes
    itself keeps every name that is not temporary. *)
Theorem Execute_create_only_keeps_names tx w :
  tx_Intent tx = IntentCreateOnly -> w_log w = [] ->
  Forall (fun step => names_kept step.1 step.2) (w_log (Execute tx w).2).
Proof using Type.
  intros Hint Hlog. enough (guarantees names_kept (Execute tx)) as Hg by (apply Hg; by rewrite Hlog).
  pose proof guar_read_xattrs as Hx. pose proof guar_EvalSymlinks.
  assert (forall t policy snap dest, guarantees names_kept
    (stage_and_publish tx t policy snap dest false)) as Hstage.
  { intros t policy snap dest. unfold stage_and_publish.
    apply guar_bind; [apply guar_mkdir_all|intros _].
    destruct (guar_CreateTemp (filepath_Dir dest)) as [Hc Hr].
    eapply guar_bind_val; [by apply guar_wrapping|apply returns_wrapping, Hr|].
    intros [i sp] Hsp. apply guar_bind; [|intros _; unfold sync_path, sys_open, sys_fsync, sys_close; guarantee].
    apply guar_on_failure; [|by apply guar_fill_and_publish].
    unfold discard_staged, sys_close. guarantee. by apply guar_Remove. }
  unfold Execute. rewrite Hint.
  destruct (tx_Transform tx) as [t|]; [|apply guar_fail]. destruct (String.eqb _ _); [apply guar_fail|].
  destruct (String.eqb _ _); [apply guar_fail|].
  apply guar_bind; [destruct (ParsePolicy _); [apply guar_ret|apply guar_fail..]|intros policy].
  eapply (guar_bind_val _ _ _ (fun r => r.2 = false)).
  - unfold resolveTargetAndSnapshot, TakeSourceSnapshot, readFdXattrs, readXattrs, sys_fstat, os_Stat,
      lift. rewrite Hint. guarantee; apply Hx.
  - unfold resolveTargetAndSnapshot. rewrite Hint. repeat (apply returns_bind; intros ?).
    by apply returns_ret.
  - intros [[snap dest] inPlace] Hin. simpl in Hin. subst inPlace. apply Hstage.
Qed.

End guarantee.

(** ** Metadata in terms of the source *)

Lemma land_perm_high p m : Z.land ModePerm m = 0 -> Z.land (Z.land p ModePerm) m = 0.
Proof. intros Hm. by rewrite <- Z.land_assoc, Hm, Z.land_0_r. Qed.

Lemma land_bit_if mask p out m : Z.land out m = 0 -> Z.land (bit_if mask p out) m = 0.
Proof. intros Hm. unfold bit_if. by destruct (_ =? _). Qed.

Lemma node_mode_low node m :
  Z.land ModeType m = 0 -> Z.land (node_mode node) m = 0.
Proof.
  intros Hm. assert (forall b, Z.land b ModeType = b -> Z.land b m = 0) as Hb.
  { intros b Hb. rewrite <- Hb, <- Z.land_assoc, Hm. apply Z.land_0_r. }
  destruct node; by apply Hb.
Qed.

(** Without setuid and setgid, permission and sticky bits are all there is. *)
Lemma strict_mode fi :
  has_bits (Mode fi) (Z.lor ModeSetuid ModeSetgid) = false ->
  Z.lor (Perm (Mode fi)) (Z.land (Mode fi) ModeSticky) = go_perm (a_perm (fi_attr fi)).
Proof.
  unfold has_bits. rewrite negb_false_iff, Z.eqb_eq.
  unfold Mode, Perm, go_perm. set (p := a_perm (fi_attr fi)).
  rewrite !Z.land_lor_distr_l, !(node_mode_low (fi_node fi)) by reflexivity.
  rewrite !Z.lor_0_l, !(land_perm_high p) by reflexivity.
  rewrite <- !Z.land_assoc. change (Z.land ModePerm ModePerm) with ModePerm.
  rewrite !Z.lor_0_l. unfold bit_if.
  destruct (Z.land p S_ISGID =? 0), (Z.land p S_ISUID =? 0), (Z.land p S_ISVTX =? 0);
    intros Hz; try (vm_compute in Hz; discriminate);
    change (Z.land ModePerm ModeSticky) with 0; rewrite ?Z.land_0_r, ?Z.lor_0_l, ?Z.lor_0_r; reflexivity.
Qed.

(** What each policy promises of the new file, from the file it replaces. *)
Definition metadata_kept (policy : MetadataPolicy) (fi : FileInfo) (a : attr) : Prop :=
  match policy with
  | PolicyStrict =>
      go_perm (a_perm a) = go_perm (a_perm (fi_attr fi)) /\
      Z.land (a_perm (fi_attr fi)) (Z.lor S_ISUID S_ISGID) = 0 /\
      a_uid a = a_uid (fi_attr fi) /\ a_gid a = a_gid (fi_attr fi) /\
      forall n, n <> ""%string -> n <> attrSecuritySELinux ->
        a_xattrs a !! n = a_xattrs (fi_attr fi) !! n
  | PolicyStrip =>
      Z.land (go_perm (a_perm a)) (Z.lnot standardExecMask) = 0 /\
      Z.land (go_perm (a_perm a)) ownerExecuteMask <> 0 /\
      forall n, n <> ""%string -> n <> attrSecuritySELinux -> a_xattrs a !! n = None
  end.

Lemma strip_mode m :
  let r := if has_bits (Z.land m standardExecMask) ownerExecuteMask
           then Z.land m standardExecMask
           else Z.lor (Z.land m standardExecMask) standardExecMask in
  Z.land r (Z.lnot standardExecMask) = 0 /\ Z.land r ownerExecuteMask <> 0.
Proof.
  simpl. assert (Z.land standardExecMask (Z.lnot standardExecMask) = 0) as Hc by reflexivity.
  unfold has_bits. destruct (Z.eqb_spec (Z.land (Z.land m standardExecMask) ownerExecuteMask) 0); simpl.
  - rewrite !Z.land_lor_distr_l, <- !Z.land_assoc, Hc, Z.land_0_r. split; [reflexivity|].
    change (Z.land standardExecMask ownerExecuteMask) with 64. intros Hz%Z.lor_eq_0_iff. lia.
  - split; [|done]. by rewrite <- Z.land_assoc, Hc, Z.land_0_r.
Qed.

Lemma setid_bits fi :
  has_bits (Mode fi) (Z.lor ModeSetuid ModeSetgid) = false ->
  Z.land (a_perm (fi_attr fi)) (Z.lor S_ISUID S_ISGID) = 0.
Proof.
  unfold has_bits. rewrite negb_false_iff, Z.eqb_eq. unfold Mode, go_perm.
  set (p := a_perm (fi_attr fi)).
  rewrite !Z.land_lor_distr_l, (node_mode_low (fi_node fi)) by reflexivity.
  rewrite (land_perm_high p) by reflexivity. rewrite !Z.lor_0_l. unfold bit_if.
  rewrite (Z.land_lor_distr_r p S_ISUID S_ISGID).
  destruct (Z.eqb_spec (Z.land p S_ISGID) 0) as [Hg|_], (Z.eqb_spec (Z.land p S_ISUID) 0) as [Hu|_],
    (Z.land p S_ISVTX =? 0); intros Hz; try (vm_compute in Hz; discriminate); by rewrite Hg, Hu.
Qed.

Lemma stamped_kept `{Kernel} policy fi snap a :
  xattrs_supported -> snapshot_of fi snap -> ValidateSnapshot (Some snap) policy = Ok tt ->
  stamped snap policy a -> metadata_kept policy fi a.
Proof.
  intros Hsup (_ & _ & Hm & Hu & Hg & _ & _ & _ & Hx) Hv (Hmode & Hown & Hattr).
  specialize (Hx Hsup). destruct (Hattr Hsup) as [Hok Harr]. unfold target_mode in Hmode.
  unfold staged_attr_ok in Hok. destruct policy; simpl.
  - simpl in Hv. destruct (has_bits _ _) eqn:Hb; [discriminate|]. rewrite Hm in *.
    destruct (Hown eq_refl) as [Hu' Hg']. rewrite strict_mode in Hmode by done.
    split_and!; [done|by apply setid_bits|congruence..|]. intros n Hn Hs.
    destruct (a_xattrs (fi_attr fi) !! n) as [v|] eqn:Hf.
    + apply Harr; [done|]. by rewrite Hx, lookup_delete_ne.
    + destruct (a_xattrs a !! n) as [v|] eqn:Ha; [|done]. specialize (Hok n v Hn Ha).
      destruct (String.eqb_spec n attrSecuritySELinux); [done|].
      repeat (destruct (String.eqb _ _); try discriminate); simpl in Hok.
      apply bool_decide_eq_true_1 in Hok as [v' Hv']. rewrite Hx, lookup_delete_ne in Hv' by done.
      congruence.
  - destruct (strip_mode (Perm (s_Mode snap))) as [H1 H2]. rewrite <- Hmode in H1, H2.
    split_and!; [done..|]. intros n Hn Hs. destruct (a_xattrs a !! n) as [v|] eqn:Ha; [|done].
    specialize (Hok n v Hn Ha).
    destruct (String.eqb_spec n attrSecuritySELinux); [done|].
    repeat (destruct (String.eqb _ _); try discriminate).
Qed.

Section metadata.
Context `{Kernel} `{GoUnicode} (Hquiet : quiet) (Hsup : xattrs_supported).

(** A transaction that reports success published, under the destination, a new file with
    the bytes the callback wrote: under the strict policy with the permission bits, owner, group
    and extended attributes of the source, under the strip policy executable by its owner,
    without special bits, without write access for others and without attributes. *)
Theorem Execute_metadata tx w w' policy :
  wf_fs (w_fs w) -> ParsePolicy (tx_Policy tx) = Ok policy -> Execute tx w = (Done tt, w') ->
  exists fi t d n i a,
    source_info (w_fs w) tx = Ok fi /\ tx_Transform tx = Some t /\
    entry (f_tree (w_fs w')) d n = Some i /\ f_tree (w_fs w) !! i = None /\
    f_tree (w_fs w') !! i = Some TFile /\ f_attr (w_fs w') !! i = Some a /\
    transformed (w_fs w) t (a_data a) /\ a_data a <> [] /\ metadata_kept policy fi a.
Proof using Hquiet Hsup.
  intros Hwf Hpol Hrun. pose proof (Execute_refines Hquiet tx w Hwf) as Hat. rewrite Hrun in Hat.
  simpl in Hat. inversion Hat as [|t p snap dest inPlace r F Ht Hp Hres Hr Hpub]; subst; [done|].
  assert (p = policy) as -> by congruence. clear Hr.
  destruct (rs_source _ _ _ _ _ _ Hres) as (fi & Hfi & Hsnap).
  destruct Hpub as [_ (d & n & i & a & _ & _ & He & H0' & Hi & Ha & Htr & Hne & Hst)].
  exists fi, t, d, n, i, a. split_and!; try done.
  eapply stamped_kept; eauto. by apply (rs_valid _ _ _ _ _ _ Hres).
Qed.

End metadata.

(** ** Concrete runs *)

Lemma Execute_create_only_keeps_names_witness :
  let K := calm_kernel in
  let tx := sample_tx IntentCreateOnly "/opt/new" in
  let w := sample_world sample_disk in
  (tx_Intent tx = IntentCreateOnly /\ w_log w = [] /\ (@Execute K ascii_tables tx w).1 = Done tt) /\
  Forall (fun step => names_kept step.1 step.2) (w_log (@Execute K ascii_tables tx w).2).
Proof.
  split; [split_and!; vm_compute; reflexivity|].
  apply (@Execute_create_only_keeps_names calm_kernel ascii_tables); reflexivity.
Defined.

Lemma Execute_metadata_witness :
  let K := calm_kernel in
  let tx := sample_tx IntentReplaceSource "" in
  let w := sample_world sample_disk in
  let w' := (@Execute K ascii_tables tx w).2 in
  exists fi t d n i a,
    @source_info K sample_disk tx = Ok fi /\ tx_Transform tx = Some t /\
    entry (f_tree (w_fs w')) d n = Some i /\ f_tree sample_disk !! i = None /\
    f_tree (w_fs w') !! i = Some TFile /\ f_attr (w_fs w') !! i = Some a /\
    transformed sample_disk t (a_data a) /\ a_data a <> [] /\ metadata_kept PolicyStrict fi a.
Proof.
  apply (@Execute_metadata calm_kernel ascii_tables (kernel_with_quiet _) calm_supported
    (sample_tx IntentReplaceSource "") (sample_world sample_disk)).
  - exact sample_disk_wf.
  - vm_compute. reflexivity.
  - apply run_result. vm_compute. reflexivity.
Defined.

(** A destination that is a symbolic link to the source is replaced itself: the source
    keeps its bytes although the intent is to replace it. *)
Theorem Execute_replaces_symlink_destination :
  let r := @Execute calm_kernel ascii_tables (sample_tx IntentReplaceSource "/opt/link")
             (sample_world sample_disk) in
  r.1 = Done tt /\
  entry (f_tree (w_fs r.2)) 2 "app" = Some 3 /\
  a_data <$> (f_attr (w_fs r.2) !! 3) = Some program_bytes /\
  a_data <$> (i ← entry (f_tree (w_fs r.2)) 2 "link"; f_attr (w_fs r.2) !! i) =
    Some (program_bytes ++ [byte_of 1]).
Proof. vm_compute. split_and!; reflexivity. Qed.
