(* ===== verification/Cache.v ===== *)
(** * The payload cache ([internal/cache], [format/cache_unix.go])

    Finding a private cache directory, validating a cached program through an
    open descriptor, and materializing one: written under a temporary name,
    hashed while it is written, renamed to its digest, opened and validated
    again.  A descriptor is the inode it is open on. *)

From S2P Require Import Prelude GoStrings GoPath Vfs GoOS Lifecycle Sha256 Format PackPrewarm.
From stdpp Require Import base list strings gmap.
From Stdlib Require Import ZArith Lia Strings.Ascii Strings.Byte.

Local Open Scope Z_scope.

(** ** Errors *)

Module CacheErr.

Definition ErrNonRegularFile : gerror := [Sentinel "cache.ErrNonRegularFile"].
Definition ErrUnsafeFile : gerror := [Sentinel "cache.ErrUnsafeFile"].
Definition ErrNotExecutable : gerror := [Sentinel "cache.ErrNotExecutable"].
Definition ErrSizeMismatch : gerror := [Sentinel "cache.ErrSizeMismatch"].
Definition ErrChecksumMismatch : gerror := [Sentinel "format.ErrPayloadCorrupted"].
Definition ErrInsecureCacheDir : gerror := [Sentinel "format.ErrInsecureCacheDir"].
Definition ErrCacheInit : gerror := [Sentinel "format.ErrCacheInit"].
Definition ErrCacheWrite : gerror := [Sentinel "format.ErrCacheWrite"].
Definition ErrCacheExtract : gerror := [Sentinel "format.ErrCacheExtract"].
Definition ErrInvalidChecksum : gerror := [Sentinel "format.ErrInvalidChecksum"].
Definition ErrPayloadTooLarge : gerror := [Sentinel "format.ErrPayloadTooLarge"].

End CacheErr.
Import CacheErr.

Definition has (e : gerror) (sentinel : gerror) : bool :=
  forallb (fun t => errors_Is e t) sentinel.

(** ** [unix.Stat_t] *)

Definition S_IFMT : Z := 61440.
Definition S_IFREG : Z := 32768.
Definition S_IFDIR : Z := 16384.
Definition S_IFLNK : Z := 40960.
Definition S_IFIFO : Z := 4096.
Definition S_IXUSR : Z := 64.
Definition S_IWGRP : Z := 16.
Definition S_IWOTH : Z := 2.

Definition type_bits (node : tnode) : Z :=
  match node with
  | TFile => S_IFREG
  | TDir _ => S_IFDIR
  | TLink _ => S_IFLNK
  | TOther => S_IFIFO
  end.

(** The kernel's mode word: the type above twelve permission bits. *)
Definition st_mode (fi : FileInfo) : Z :=
  Z.lor (type_bits (fi_node fi)) (Z.land (a_perm (fi_attr fi)) 4095).

Definition InsecureCacheWriteBits : Z := 18.
Definition PrivateCacheDirMode : Z := 448.
Definition PrivateExecMode : Z := 448.
Definition maxTempFileAttempts : nat := Z.to_nat 1000.
Definition verifyBufferSize : nat := Z.to_nat 65536.

Definition IsSymlinkErr (e : gerror) : bool := errors_Is e (Errno ELOOP).
Definition isNotExistErr (e : gerror) : bool := errors_Is e (Errno ENOENT).

(** Whether [errors.As] finds an error number. *)
Definition has_errno (e : gerror) : bool :=
  existsb (fun t => match t with Errno _ => true | Sentinel _ => false end) e.

Definition unsafeBits : Z := Z.lor (Z.lor (Z.lor (Z.lor S_IWGRP S_IWOTH) S_ISUID) S_ISGID) S_ISVTX.

Definition validateCacheMetadata (fi : FileInfo) (expectedUID : Z) : bool :=
  (a_uid (fi_attr fi) =? expectedUID) && (Z.land (st_mode fi) unsafeBits =? 0).

(** ** Where the cache is *)

(** The variables of the environment the cache reads; [None] for a home
    directory means [os.UserHomeDir] failed. *)
Record CacheEnv := mkCacheEnv {
  env_CacheDir : string;
  env_XDG : string;
  env_Home : option string;
  env_TempDir : string
}.

(** The callback that writes a payload. *)
Definition PayloadFunc : Type := TransformFunc.

Section cache.
Context `{Kernel}.

(** Closing the descriptor and returning an error. *)
Definition close_fail {A} (fd : Z) (e : gerror) : io A :=
  _ ← ignore (sys_close fd); fail e.

Definition stat_or_close (fd : Z) (wrap : gerror -> gerror) : io FileInfo :=
  r ← try (sys_fstat fd);
  match r with
  | inl fi => mret fi
  | inr e => close_fail fd (wrap e)
  end.

Definition OpenAndValidateCacheDirFD (dir : string) (allowRemediate : bool) : io Z :=
  let dir := filepath_Clean dir in
  r ← try (sys_opendir_nofollow cwd_base dir);
  match r with
  | inr e =>
      if errors_Is e (Errno ELOOP) then fail ErrInsecureCacheDir
      else if errors_Is e (Errno ENOTDIR) then
        _ ← try (os_Lstat dir); fail ErrInsecureCacheDir
      else fail (ErrInsecureCacheDir ++ e)
  | inl fd =>
      fi ← stat_or_close fd (app ErrInsecureCacheDir);
      if negb (Z.land (st_mode fi) S_IFMT =? S_IFDIR) then close_fail fd ErrInsecureCacheDir
      else if (k_euid <? 0) || negb (a_uid (fi_attr fi) =? k_euid) then close_fail fd ErrInsecureCacheDir
      else if has_bits (st_mode fi) InsecureCacheWriteBits then
        if negb allowRemediate then close_fail fd ErrInsecureCacheDir
        else
          c ← try (sys_fchmod fd PrivateCacheDirMode);
          match c with
          | inr e => close_fail fd (ErrInsecureCacheDir ++ e)
          | inl _ =>
              fi2 ← stat_or_close fd (app ErrInsecureCacheDir);
              if has_bits (st_mode fi2) InsecureCacheWriteBits then close_fail fd ErrInsecureCacheDir
              else mret fd
          end
      else mret fd
  end.

Definition prepareCacheDir (dir : string) (materialize : bool) : io unit :=
  if materialize then os_MkdirAll dir PrivateCacheDirMode else mret tt.

(** An explicit directory: prepared, validated, never repaired. *)
Definition explicit_dir (dir : string) (materialize : bool) : io (Z * string) :=
  let cleanDir := filepath_Clean dir in
  _ ← prepareCacheDir cleanDir materialize;
  fd ← OpenAndValidateCacheDirFD cleanDir false;
  mret (fd, cleanDir).

Definition cache_candidates (E : CacheEnv) : list string :=
  (if negb (String.eqb (env_XDG E) "") then [filepath_Join [env_XDG E; "microfat"%string]]
   else match env_Home E with
        | Some home => if String.eqb home "" then []
                       else [filepath_Join [home; ".cache"%string; "microfat"%string]]
        | None => []
        end) ++
  [filepath_Join [env_TempDir E; (".microfat-" ++ Itoa k_euid)%string]].

(** The cascade over the candidates, each tried once. *)
Fixpoint try_candidates (cands seen : list string) (materialize : bool) : io (Z * string) :=
  match cands with
  | [] => fail ErrCacheInit
  | cand :: rest =>
      let cleanDir := filepath_Clean cand in
      if bool_decide (cleanDir ∈ seen) then try_candidates rest seen materialize
      else
        p ← try (prepareCacheDir cleanDir materialize);
        match p with
        | inr _ => try_candidates rest (cleanDir :: seen) materialize
        | inl _ =>
            fd ← try (OpenAndValidateCacheDirFD cleanDir materialize);
            match fd with
            | inl fd => mret (fd, cleanDir)
            | inr _ => try_candidates rest (cleanDir :: seen) materialize
            end
        end
  end.

Definition resolveCacheDirFD (E : CacheEnv) (customDir : string) (materialize : bool) : io (Z * string) :=
  if negb (String.eqb customDir "") then explicit_dir customDir materialize
  else if negb (String.eqb (env_CacheDir E) "") then explicit_dir (env_CacheDir E) materialize
  else try_candidates (cache_candidates E) [] materialize.

(** ** Validation of an entry *)

Definition validateCacheEntryMetadata (fi : FileInfo) : outcome gerror unit :=
  if negb (Z.land (st_mode fi) S_IFMT =? S_IFREG) then Err ErrNonRegularFile
  else if validateCacheMetadata fi k_euid then Ok tt
  else Err ErrUnsafeFile.

Definition classifyFailedCacheOpen (openErr : gerror) (stat : FileInfo + gerror) : gerror :=
  match stat with
  | inr statErr => ErrUnsafeFile ++ openErr ++ statErr
  | inl fi =>
      match validateCacheEntryMetadata fi with
      | Err e => e ++ openErr
      | _ => openErr
      end
  end.

(** The reads of [verifyCachedFD] until one is empty; what was read, or [None]
    when a read fails or the reads outnumber [fuel]. *)
Fixpoint read_all (fuel : nat) (fd offset : Z) (acc : list byte) : io (option (list byte)) :=
  match fuel with
  | O => mret None
  | S fuel' =>
      r ← try (sys_pread fd verifyBufferSize offset);
      match r with
      | inr _ => mret None
      | inl [] => mret (Some acc)
      | inl chunk => read_all fuel' fd (offset + Z.of_nat (length chunk)) (acc ++ chunk)
      end
  end.

(** A file of the size that was just checked is read in this many reads. *)
Definition read_fuel (size : Z) : nat := S (S (Z.to_nat (size / 65536))).

Definition verifyCachedFD (fd size : Z) (expectedHex : string) : io bool :=
  data ← read_all (read_fuel size) fd 0 [];
  mret match data with
       | Some data => String.eqb (EncodeToString (Sum256 data)) expectedHex
       | None => false
       end.

Definition validateOpenedDescriptor (fd expectedSize : Z) (expectedSHA256 : string)
    (onCorrupt : io unit) : io Z :=
  fi ← stat_or_close fd (fun e => e);
  match validateCacheEntryMetadata fi with
  | Err e => close_fail fd e
  | Panic => close_fail fd []
  | Ok _ =>
      if negb (has_bits (st_mode fi) S_IXUSR) then close_fail fd ErrNotExecutable
      else if negb (fi_size fi =? expectedSize) then
        _ ← ignore (sys_close fd); _ ← onCorrupt; fail ErrSizeMismatch
      else
        ok ← verifyCachedFD fd (fi_size fi) expectedSHA256;
        if ok : bool then mret fd
        else _ ← ignore (sys_close fd); _ ← onCorrupt; fail ErrChecksumMismatch
  end.

(** [OpenAndValidateAtFD] and [OpenAndValidateFD] differ in where the name
    starts and in how a corrupt file is removed. *)
Definition open_and_validate (b : base) (name : string) (expectedSize : Z) (expectedSHA256 : string)
    (onCorrupt : io unit) : io Z :=
  r ← try (sys_open b true name);
  match r with
  | inr e =>
      if isNotExistErr e then fail e
      else
        st ← try (sys_stat b false name);
        fail (classifyFailedCacheOpen e st)
  | inl fd => validateOpenedDescriptor fd expectedSize expectedSHA256 onCorrupt
  end.

Definition OpenAndValidateAtFD (dirFD : Z) (name : string) (expectedSize : Z) (expectedSHA256 : string)
    (removeOnCorrupt : bool) : io Z :=
  open_and_validate (fd_base dirFD) name expectedSize expectedSHA256
    (if removeOnCorrupt then ignore (sys_unlink (fd_base dirFD) name) else mret tt).

Definition OpenAndValidateFD (path : string) (expectedSize : Z) (expectedSHA256 : string)
    (removeOnCorrupt : bool) : io Z :=
  open_and_validate cwd_base path expectedSize expectedSHA256
    (if removeOnCorrupt then ignore (os_Remove path) else mret tt).

Definition OpenAndValidateVariantAtFD (dirFD : Z) (name : string) (entry : VariantEntry)
    (removeOnCorrupt : bool) : io Z :=
  OpenAndValidateAtFD dirFD name (UncompressedSize entry) (SHA256 entry) removeOnCorrupt.

Definition VerifyCachedBinary (path : string) (expectedSize : Z) (expectedSHA256 : string) : io bool :=
  r ← try (OpenAndValidateFD path expectedSize expectedSHA256 false);
  match r with
  | inr _ => mret false
  | inl fd => _ ← ignore (sys_close fd); mret true
  end.

Definition validateCacheReplacementAt (dirFD : Z) (name : string) : io unit :=
  r ← try (sys_stat (fd_base dirFD) false name);
  match r with
  | inr e => if isNotExistErr e then mret tt else fail (ErrUnsafeFile ++ e)
  | inl fi => lift (validateCacheEntryMetadata fi)
  end.

(** ** Materialization *)

Definition temp_name (r : Z) : string := (".exec-" ++ EncodeToString (le_bytes 8 r) ++ ".tmp")%string.

Fixpoint createTempFileAt (attempts : nat) (dirFD : Z) : io (Z * string) :=
  match attempts with
  | O => fail (errors_New "failed to create temporary file in cache directory")
  | S attempts' =>
      r ← sys_getrandom;
      let name := temp_name r in
      f ← try (sys_create_excl (fd_base dirFD) name PrivateExecMode);
      match f with
      | inl fd => mret (fd, name)
      | inr e => if errors_Is e (Errno EEXIST) then createTempFileAt attempts' dirFD else fail e
      end
  end.

(** The callback through a [MultiWriter]: what reaches the file reaches the
    hasher; the bytes hashed are returned. *)
Definition write_payload (payload : PayloadFunc) (tmp : Z) : io (list byte) :=
  F ← inspect (fun F => Ok F);
  _ ← each (fun piece => sys_write tmp (fun data => data ++ piece)) (payload F).1;
  match (payload F).2 with
  | Some e => fail e
  | None => mret (concat (payload F).1)
  end.

(** The temporary file filled, checked, made executable, synced and closed. *)
Definition fill_temp (entry : VariantEntry) (payload : PayloadFunc) (tmp : Z) : io unit :=
  hashed ← wrapping (app ErrCacheExtract) (write_payload payload tmp);
  if negb (String.eqb (EncodeToString (Sum256 hashed)) (SHA256 entry)) then fail ErrChecksumMismatch
  else
    _ ← wrapping (app ErrCacheWrite) (sys_fchmod tmp PrivateExecMode);
    _ ← wrapping (app ErrCacheWrite) (sys_fsync tmp);
    wrapping (app ErrCacheWrite) (sys_close tmp).

Definition rename_temp (dirFD : Z) (tmpName cachedName : string) : io unit :=
  wrapping (app ErrCacheWrite)
    (sys_rename false (fd_base dirFD) tmpName (fd_base dirFD) cachedName).

(** The deferred cleanup: the file is closed only while it is open. *)
Definition unlink_temp (dirFD : Z) (tmpName : string) : io unit :=
  ignore (sys_unlink (fd_base dirFD) tmpName).

Definition discard_temp (dirFD tmp : Z) (tmpName : string) : io unit :=
  _ ← ignore (sys_close tmp); unlink_temp dirFD tmpName.

Definition materializeAndOpenVariantAtFD (dirFD : Z) (dirPath : string) (entry : option VariantEntry)
    (payload : option PayloadFunc) : io (string * Z) :=
  if dirFD <? 0 then fail ErrCacheWrite
  else if String.eqb dirPath "" then fail ErrCacheWrite
  else match entry with
  | None => fail (errors_New "nil variant entry")
  | Some entry =>
      if bad_checksum (SHA256 entry) then fail ErrInvalidChecksum
      else if (UncompressedSize entry <=? 0) || (UncompressedSize entry >? MaxPayloadSize)
      then fail ErrPayloadTooLarge
      else match payload with
      | None => fail (errors_New "nil writePayload function")
      | Some payload =>
          let cachedName := filepath_Clean (SHA256 entry) in
          let cachedBinary := filepath_Join [filepath_Clean dirPath; cachedName] in
          _ ← wrapping (app ErrCacheWrite) (validateCacheReplacementAt dirFD cachedName);
          '(tmp, tmpName) ← wrapping (app ErrCacheWrite) (createTempFileAt maxTempFileAttempts dirFD);
          _ ← on_failure (discard_temp dirFD tmp tmpName) (fill_temp entry payload tmp);
          _ ← on_failure (unlink_temp dirFD tmpName) (rename_temp dirFD tmpName cachedName);
          v ← try (OpenAndValidateVariantAtFD dirFD cachedName entry false);
          match v with
          | inl vfd => mret (cachedBinary, vfd)
          | inr e =>
              _ ← ignore (sys_unlink (fd_base dirFD) cachedName);
              fail (ErrCacheWrite ++ e)
          end
      end
  end.

Definition MaterializeVariantAtFD (dirFD : Z) (dirPath : string) (entry : option VariantEntry)
    (payload : option PayloadFunc) : io string :=
  '(path, fd) ← materializeAndOpenVariantAtFD dirFD dirPath entry payload;
  _ ← ignore (sys_close fd);
  mret path.

(** ** Reports *)

Inductive PrewarmStatus : Set :=
| PrewarmStatusExtracted
| PrewarmStatusAlreadyCached
| PrewarmStatusValid
| PrewarmStatusMissing
| PrewarmStatusCorrupted.

(** [format.PrewarmResult], without its text. *)
Record PrewarmResult := mkPrewarmResult {
  pr_Level : string;
  pr_SHA256 : string;
  pr_CachedPath : string;
  pr_Size : Z;
  pr_AlreadyCached : bool;
  pr_Valid : bool;
  pr_Status : PrewarmStatus
}.

Definition VerifyVariant (E : CacheEnv) (entry : VariantEntry) (cacheDir : string) : io PrewarmResult :=
  let result path cached valid status :=
    mkPrewarmResult (ve_Level entry) (SHA256 entry) path (UncompressedSize entry) cached valid status in
  dir ← (if String.eqb cacheDir "" then
           r ← try (resolveCacheDirFD E "" false);
           mret match r with inl d => inl d | inr _ => inr PrewarmStatusMissing end
         else
           let cleanDir := filepath_Clean cacheDir in
           r ← try (OpenAndValidateCacheDirFD cleanDir false);
           mret match r with
                | inl fd => inl (fd, cleanDir)
                | inr e => inr (if isNotExistErr e then PrewarmStatusMissing else PrewarmStatusCorrupted)
                end);
  match dir with
  | inr status => mret (result ""%string false false status)
  | inl (dirFD, cleanDir) =>
      deferring (ignore (sys_close dirFD))
        (if bad_checksum (SHA256 entry) then mret (result ""%string false false PrewarmStatusCorrupted)
         else
           let cachedName := filepath_Clean (SHA256 entry) in
           let path := filepath_Join [cleanDir; cachedName] in
           r ← try (OpenAndValidateVariantAtFD dirFD cachedName entry false);
           match r with
           | inr e => if isNotExistErr e then mret (result path false false PrewarmStatusMissing)
                      else mret (result path true false PrewarmStatusCorrupted)
           | inl fd =>
               _ ← ignore (sys_close fd);
               mret (result path true true PrewarmStatusValid)
           end)
  end.

Definition classifyObservationError (e : gerror) : ObservationStatus :=
  if has e ErrNonRegularFile || has e ErrUnsafeFile || IsSymlinkErr e then ObservationUnsafe
  else if isNotExistErr e then ObservationMissing
  else if has e ErrNotExecutable || has e ErrSizeMismatch || has e ErrChecksumMismatch
  then ObservationCorruptSafe
  else if has e ErrInsecureCacheDir then
    if has_errno e then ObservationUnavailable else ObservationUnsafe
  else ObservationUnavailable.

(** [ObserveVariant]: the status and the path. *)
Definition ObserveVariant (E : CacheEnv) (entry : option VariantEntry) (cacheDir : string) :
    io (ObservationStatus * string) :=
  match entry with
  | None => mret (ObservationUnavailable, ""%string)
  | Some entry =>
      if bad_checksum (SHA256 entry) || (UncompressedSize entry <? 0)
      then mret (ObservationUnavailable, ""%string)
      else
        let requestedDir := if String.eqb cacheDir "" then env_CacheDir E else cacheDir in
        let path := if String.eqb requestedDir "" then ""%string
                    else filepath_Join [filepath_Clean requestedDir; SHA256 entry] in
        r ← try (resolveCacheDirFD E cacheDir false);
        match r with
        | inr e => mret (classifyObservationError e, path)
        | inl (dirFD, resolvedDir) =>
            let path := filepath_Join [resolvedDir; SHA256 entry] in
            deferring (ignore (sys_close dirFD))
              (v ← try (OpenAndValidateVariantAtFD dirFD (SHA256 entry) entry false);
               match v with
               | inr e => mret (classifyObservationError e, path)
               | inl fd => _ ← ignore (sys_close fd); mret (ObservationValid, path)
               end)
        end
  end.

End cache.
