(* ===== verification/CacheProofs.v ===== *)
(** * The payload cache is consistent

    What a validated descriptor is, what a materialization leaves behind under
    every failure and crash, and the invariant of the cache: a regular file
    under a digest has that digest. *)

From S2P Require Import Prelude GoStrings GoPath Vfs GoOS VfsLogic VfsEffects VfsStage Lifecycle LifecycleProofs LifecycleAtomic Sha256 Format PackPrewarm Cache.
From stdpp Require Import base list strings gmap.
From Stdlib Require Import ZArith Lia Strings.Ascii Strings.Byte.
Import CacheErr.

Local Open Scope Z_scope.

Definition exec_name (n : string) : Prop := HasPrefix n ".exec-" = true.

(** ** Single names under a directory descriptor *)

Lemma locate_name `{Kernel} d c F :
  single c ->
  locate (fd_base d) false c F =
    match entries (f_tree F) d with
    | Some m => Ok (mkLoc [d] (Some c) (m !! c))
    | None => Err ENOTDIR
    end.
Proof. by apply locate_single. Qed.

Lemma is_hex_slashless s : sforallb is_hex s = true -> slashless s = true.
Proof.
  apply sforallb_impl. intros c. destruct (Ascii.eqb_spec c slash) as [-> |]; [discriminate|done].
Qed.

Lemma digest_single s : digest_syntax s -> single s.
Proof.
  intros [Hl Hh]. split_and!; [by intros ->..|by apply is_hex_slashless].
Qed.

Lemma digest_not_exec s : digest_syntax s -> ~ exec_name s.
Proof.
  intros [Hl Hh] He. destruct s as [|c s]; [discriminate|]. unfold exec_name, HasPrefix in He.
  cbn [String.prefix] in He. destruct (ascii_dec "." c) as [<- |]; [|discriminate].
  cbn [sforallb] in Hh. done.
Qed.

Lemma Clean_digest s : digest_syntax s -> filepath_Clean s = s.
Proof.
  intros Hd. pose proof (digest_single s Hd) as Hs. unfold filepath_Clean.
  rewrite single_not_rooted by done. destruct Hs as (H1 & H2 & H3 & Hsl).
  rewrite slashless_Split by done. unfold clean_components. cbn [foldl].
  rewrite clean_step_plain by (split_and!; [done..|by apply slashless_Split]). done.
Qed.

(** ** What a validated descriptor is *)

Section validate.
Context `{Kernel}.

(** A regular file of the user, not writable or marked by anyone else,
    executable, with the expected length and digest. *)
Record valid_entry (F : fs) (i size : Z) (sha : string) : Prop := {
  va_file : f_tree F !! i = Some TFile;
  va_attr : exists a, f_attr F !! i = Some a /\ a_uid a = k_euid /\
    Z.land (a_perm a) unsafeBits = 0 /\ Z.land (a_perm a) S_IXUSR <> 0 /\
    Z.of_nat (length (a_data a)) = size /\ EncodeToString (Sum256 (a_data a)) = sha
}.

Lemma st_mode_type node p : Z.land (Z.lor (type_bits node) (Z.land p 4095)) S_IFMT = type_bits node.
Proof using Type.
  rewrite Z.land_lor_distr_l, <- Z.land_assoc. change (Z.land 4095 S_IFMT) with 0.
  rewrite Z.land_0_r, Z.lor_0_r. by destruct node.
Qed.

Lemma st_mode_low node p m :
  Z.land 4095 m = m -> Z.land S_IFMT m = 0 ->
  Z.land (Z.lor (type_bits node) (Z.land p 4095)) m = Z.land p m.
Proof using Type.
  intros Hm Hz. rewrite Z.land_lor_distr_l, <- Z.land_assoc, Hm.
  assert (Z.land (type_bits node) m = 0) as ->; [|apply Z.lor_0_l].
  assert (Z.land (type_bits node) S_IFMT = type_bits node) as Hn by by destruct node.
  by rewrite <- Hn, <- Z.land_assoc, Hz, Z.land_0_r.
Qed.

Lemma regular_metadata fi :
  validateCacheEntryMetadata fi = Ok tt <->
  fi_node fi = TFile /\ a_uid (fi_attr fi) = k_euid /\ Z.land (a_perm (fi_attr fi)) unsafeBits = 0.
Proof using Type.
  unfold validateCacheEntryMetadata, validateCacheMetadata, st_mode.
  rewrite st_mode_type, st_mode_low by reflexivity.
  destruct (fi_node fi); simpl; try (split; [discriminate|by intros ([=] & _)]).
  destruct (Z.eqb_spec (a_uid (fi_attr fi)) k_euid), (Z.eqb_spec (Z.land (a_perm (fi_attr fi)) unsafeBits) 0);
    simpl; split; (discriminate || naive_solver).
Qed.

Lemma executable_bit fi :
  has_bits (st_mode fi) S_IXUSR = true <-> Z.land (a_perm (fi_attr fi)) S_IXUSR <> 0.
Proof using Type.
  unfold has_bits, st_mode. rewrite st_mode_low by reflexivity. rewrite negb_true_iff. apply Z.eqb_neq.
Qed.

(** ** Reading a file through its descriptor *)

Lemma read_step (data : list byte) (n o : nat) :
  let chunk := take n (drop o data) in
  take o data ++ chunk = take (o + length chunk) data.
Proof using Type.
  intros chunk. rewrite <- take_take_drop. f_equal. subst chunk. rewrite length_take.
  destruct (decide (n <= length (drop o data))%nat).
  - by rewrite Nat.min_l.
  - rewrite Nat.min_r, !take_ge by lia. done.
Qed.

Lemma verifyBufferSize_Z : Z.of_nat verifyBufferSize = 65536.
Proof using Type. unfold verifyBufferSize. by rewrite Z2Nat.id. Qed.

Local Opaque verifyBufferSize.

Context (Hquiet : quiet) (G : Prop) (Hcalm : G -> faultless).
Context (F : fs) (i : Z) (a : attr) (Hattr : f_attr F !! i = Some a).

(** The reads of a file give its bytes; fuel for its size is enough. *)
Lemma hoare_read_all fuel o acc :
  acc = take o (a_data a) -> (o <= length (a_data a))%nat ->
  (G -> Z.of_nat (length (a_data a)) - Z.of_nat o <= (Z.of_nat fuel - 1) * 65536) ->
  hoare (eq F) (read_all fuel i (Z.of_nat o) acc)
    (fun r F' => F = F' /\ (forall d, r = Some d -> d = a_data a) /\ (G -> r = Some (a_data a)))
    (fun _ F' => F = F' /\ ~ G) (fun F' => F = F' /\ ~ G).
Proof using Hquiet Hcalm Hattr.
  revert o acc. induction fuel as [|fuel IH]; intros o acc Hacc Ho Hfuel; cbn [read_all].
  { apply hoare_ret. intros F' <-. split_and!; [done|done|]. intros HG. specialize (Hfuel HG). lia. }
  eapply hoare_bind with (R := fun r F' => F = F' /\
    match r with
    | inl chunk => chunk = take verifyBufferSize (drop o (a_data a))
    | inr _ => ~ G
    end).
  { apply hoare_try, (hoare_look Hquiet G Hcalm).
    - by intros F' <-.
    - by intros F' e <-.
    - intros F' <- _. unfold read_attr. rewrite Hattr. by eexists.
    - intros F' chunk <- Hc. unfold read_attr in Hc. rewrite Hattr in Hc. simpl in Hc.
      rewrite Nat2Z.id in Hc. split; [done|]. congruence. }
  intros [chunk|e]; apply hoare_ghost; intros F' [<- Hr].
  2: { apply hoare_ret. intros F' <-. by split_and!. }
  pose proof (read_step (a_data a) verifyBufferSize o) as Hstep. simpl in Hstep. rewrite <- Hr in Hstep.
  assert (length chunk = Nat.min verifyBufferSize (length (a_data a) - o)) as Hlen
    by (subst chunk; by rewrite length_take, length_drop).
  assert (Z.of_nat verifyBufferSize = 65536) as Hbuf by apply verifyBufferSize_Z.
  destruct chunk as [|c chunk].
  - apply hoare_ret. intros F' <-. assert (acc = a_data a) as ->.
    { rewrite Hacc, take_ge; [done|]. simpl in Hlen. lia. }
    split_and!; [done|by intros d [= <-]|done].
  - replace (Z.of_nat o + Z.of_nat (length (c :: chunk))) with (Z.of_nat (o + length (c :: chunk))) by lia.
    apply IH; [rewrite <- Hstep, Hacc; reflexivity|rewrite Hlen; lia|]. intros HG. specialize (Hfuel HG).
    assert (0 < length (c :: chunk))%nat by (simpl; lia). rewrite Hlen in *.
    destruct (Nat.min_spec verifyBufferSize (length (a_data a) - o)) as [[Hlt Hmin]|[Hge Hmin]];
      rewrite Hmin in *; lia.
Qed.

End validate.

(** ** Validation is exact *)

Section open.
Context `{Kernel} (Hquiet : quiet) (F : fs) (b : base) (name : string) (size : Z) (sha : string).

Definition leads_to (fd : Z) : Prop :=
  exists l, locate b false name F = Ok l /\ l_ino l = Some fd.

Context (G : Prop) (Hcalm : G -> faultless).
Hypothesis Hval : G -> exists fd, leads_to fd /\ valid_entry F fd size sha.

Abbreviation lost := (fun F' : fs => F = F' /\ ~ G).

Lemma leads_to_unique fd fd' : leads_to fd -> leads_to fd' -> fd = fd'.
Proof using Type. intros (l & Hl & Hi) (l' & Hl' & Hi'). congruence. Qed.

Lemma hoare_close_fail {A} fd e (Q : A -> fs -> Prop) :
  ~ G -> hoare (eq F) (close_fail fd e) Q (fun _ => lost) lost.
Proof using Hquiet.
  intros HG. unfold close_fail. apply hoare_observe; [apply observes_ignore; by apply observes_inspect|..].
  - by intros e' F' <-.
  - by intros F' <-.
  - intros _. apply hoare_fail. by intros F' <-.
Qed.

Lemma hoare_verifyCachedFD fd a :
  f_attr F !! fd = Some a ->
  hoare (eq F) (verifyCachedFD fd (Z.of_nat (length (a_data a))) sha)
    (fun ok F' => F = F' /\ (ok = true -> EncodeToString (Sum256 (a_data a)) = sha) /\
      (G -> EncodeToString (Sum256 (a_data a)) = sha -> ok = true))
    (fun _ => lost) lost.
Proof using Hquiet Hcalm.
  intros Ha. unfold verifyCachedFD.
  eapply hoare_bind; [apply (hoare_read_all Hquiet G Hcalm F fd a Ha _ 0 []); [done|lia|]|].
  { intros _. unfold read_fuel.
    pose proof (Z.div_mod (Z.of_nat (length (a_data a))) 65536 ltac:(lia)).
    pose proof (Z.mod_pos_bound (Z.of_nat (length (a_data a))) 65536 ltac:(lia)).
    pose proof (Z.div_pos (Z.of_nat (length (a_data a))) 65536 ltac:(lia) ltac:(lia)). lia. }
  intros r. apply hoare_ret. intros F' (<- & Hr & HG). split_and!; [done|..].
  - destruct r as [d|]; [|discriminate]. rewrite (Hr d eq_refl). apply String.eqb_eq.
  - intros G' Hs. rewrite (HG G'). by apply String.eqb_eq.
Qed.

Lemma hoare_stat_or_close fd :
  leads_to fd ->
  hoare (eq F) (stat_or_close fd (fun e => e)) (fun fi F' => F = F' /\ info_of fd F = Ok fi)
    (fun _ => lost) lost.
Proof using Hquiet Hcalm Hval.
  intros Hfd. unfold stat_or_close. eapply hoare_bind with (R := fun r F' => F = F' /\
    match r with inl fi => info_of fd F = Ok fi | inr _ => ~ G end).
  - apply hoare_try, (hoare_look Hquiet G Hcalm); [by intros F' <-|by intros F' e <-| |by intros F' fi <-].
    intros F' <- HG. destruct (Hval HG) as (fd' & Hl & [Hf (a & Ha & _)]).
    rewrite (leads_to_unique _ _ Hfd Hl). unfold info_of. rewrite Hf, Ha. by eexists.
  - intros [fi|e]; apply hoare_ghost; intros F' [<- Hi].
    + apply hoare_ret. by intros F' <-.
    + by apply hoare_close_fail.
Qed.

Lemma hoare_validateOpenedDescriptor fd :
  leads_to fd ->
  hoare (eq F) (validateOpenedDescriptor fd size sha (mret tt))
    (fun fd F' => F = F' /\ leads_to fd /\ valid_entry F fd size sha) (fun _ => lost) lost.
Proof using Hquiet Hcalm Hval.
  intros Hfd. unfold validateOpenedDescriptor.
  eapply hoare_bind; [by apply hoare_stat_or_close|].
  intros fi. apply hoare_ghost. intros F' [<- Hfi].
  destruct (info_of_inv _ _ _ Hfi) as (Hino & Hnode & Hattr & _).
  assert (G -> fi_node fi = TFile /\ a_uid (fi_attr fi) = k_euid /\
    Z.land (a_perm (fi_attr fi)) unsafeBits = 0 /\ Z.land (a_perm (fi_attr fi)) S_IXUSR <> 0 /\
    fi_size fi = size /\ EncodeToString (Sum256 (a_data (fi_attr fi))) = sha) as Hgood.
  { intros HG. destruct (Hval HG) as (fd' & Hl & [Hf (a & Ha & Hrest)]).
    rewrite <- (leads_to_unique _ _ Hfd Hl) in *. unfold fi_size.
    assert (a = fi_attr fi) as -> by congruence. split; [congruence|done]. }
  destruct (validateCacheEntryMetadata fi) as [[]|e|] eqn:Hmeta.
  2, 3: apply hoare_close_fail; intros HG; destruct (Hgood HG) as (? & ? & ? & _);
    rewrite (proj2 (regular_metadata fi)) in Hmeta by done; discriminate.
  apply regular_metadata in Hmeta as (Hfile & Huid & Hsafe).
  destruct (has_bits (st_mode fi) S_IXUSR) eqn:Hx; simpl.
  2: { apply hoare_close_fail. intros HG. destruct (Hgood HG) as (_ & _ & _ & Hx' & _).
       apply executable_bit in Hx'. congruence. }
  apply executable_bit in Hx.
  assert (forall e, ~ G -> hoare (eq F) (_ ← ignore (sys_close fd); _ ← mret tt; fail e)
    (fun fd F' => F = F' /\ leads_to fd /\ valid_entry F fd size sha) (fun _ => lost) lost) as Hbad.
  { intros e HG. by apply hoare_close_fail. }
  destruct (Z.eqb_spec (fi_size fi) size) as [Hsize|Hsize]; simpl.
  2: { apply Hbad. intros HG. by destruct (Hgood HG) as (_ & _ & _ & _ & ? & _). }
  eapply hoare_bind; [by apply (hoare_verifyCachedFD fd (fi_attr fi))|].
  intros [|]; apply hoare_ghost; intros F' (<- & Hok & Hlive).
  - apply hoare_ret. intros F' <-. split_and!; [done|done|]. split; [by rewrite <- Hfile|].
    exists (fi_attr fi). split_and!; try done. by apply Hok.
  - apply Hbad. intros HG. destruct (Hgood HG) as (_ & _ & _ & _ & _ & Hs). by specialize (Hlive HG Hs).
Qed.

(** A descriptor is returned exactly when the entry is a valid one. *)
Lemma hoare_open_and_validate :
  hoare (eq F) (open_and_validate b name size sha (mret tt))
    (fun fd F' => F = F' /\ leads_to fd /\ valid_entry F fd size sha) (fun _ => lost) lost.
Proof using Hquiet Hcalm Hval.
  unfold open_and_validate.
  eapply hoare_bind with (R := fun r F' => F = F' /\
    match r with inl fd => leads_to fd | inr _ => ~ G end).
  { apply hoare_try, (hoare_look Hquiet G Hcalm).
    - by intros F' <-.
    - by intros F' e <-.
    - intros F' <- HG. destruct (Hval HG) as (fd & (l & Hl & Hi) & [Hf _]). simpl. rewrite Hl. simpl.
      unfold found. rewrite Hi. simpl. rewrite Hf. by eexists.
    - intros F' fd <- Ho. split; [done|]. simpl in Ho. apply bind_Ok_inv in Ho as (l & Hl & Ho).
      apply bind_Ok_inv in Ho as (j & Hj & Ho). apply found_inv in Hj. exists l. split; [done|].
      destruct (f_tree F !! j) as [[]|]; congruence. }
  intros [fd|e]; apply hoare_ghost; intros F' [<- Hr].
  2: { destruct (isNotExistErr e); [by apply hoare_fail; intros F' <-|].
       apply hoare_observe; [apply observes_try; by apply observes_stat|by intros e' F' <-|by intros F' <-|].
       intros st. apply hoare_fail. by intros F' <-. }
  by apply hoare_validateOpenedDescriptor.
Qed.

End open.
