(* ===== verification/CacheMaterialize.v ===== *)
(** * Materialization

    [materializeAndOpenVariantAtFD] under every failure and every crash: what
    the cache directory looks like afterwards, that a return hands out a valid
    descriptor, and that nothing but a failing call or an unsafe directory
    keeps it from returning. *)

From S2P Require Import Prelude GoStrings GoPath Vfs GoOS VfsLogic VfsEffects VfsStage Lifecycle LifecycleProofs LifecycleAtomic Sha256 Format PackPrewarm Cache CacheProofs.
From stdpp Require Import base list strings gmap.
From Stdlib Require Import ZArith Lia Strings.Ascii Strings.Byte.
Import CacheErr.

Local Open Scope Z_scope.

Lemma EncodeToString_slashless data : slashless (EncodeToString data) = true.
Proof.
  induction data as [|b data IH]; [done|]. unfold slashless in *. cbn [EncodeToString sforallb].
  rewrite IH. by destruct b.
Qed.

Lemma temp_name_single r : single (temp_name r).
Proof.
  unfold temp_name. split_and!; try discriminate.
  by rewrite !slashless_app, EncodeToString_slashless.
Qed.

Lemma temp_name_exec r : exec_name (temp_name r).
Proof. apply HasPrefix_app. Qed.

Lemma leads_to_name `{Kernel} F d c fd :
  single c -> leads_to F (fd_base d) c fd <-> entry (f_tree F) d c = Some fd.
Proof.
  intros Hc. unfold leads_to, entry. rewrite locate_name by done.
  destruct (entries (f_tree F) d) as [m|]; simpl; [|naive_solver]. split.
  - by intros (l & [= <-] & Hl).
  - intros He. by exists (mkLoc [d] (Some c) (m !! c)).
Qed.

(** ** What a materialization may leave behind *)

Section outcome.
Context (F0 : fs) (d : Z) (sha : string).

(** The entry [sha] of [d] is a complete file. *)
Definition stored (i : Z) (F : fs) : Prop :=
  entry (f_tree F) d sha = Some i /\ f_tree F !! i = Some TFile /\
  exists a, f_attr F !! i = Some a /\ EncodeToString (Sum256 (a_data a)) = sha.

(** Everything that was there is still there, temporary names apart, and the
    entry is as it was, or complete, or gone. *)
Definition cache_outcome (F : fs) : Prop :=
  wf_fs F /\
  (evolves exec_name None F0 F \/
   evolves exec_name (Some (d, sha)) F0 F /\
   ((exists i, stored i F) \/ entry (f_tree F) d sha = None)).

End outcome.

(** A regular file under a digest has that digest. *)
Definition cache_consistent (F : fs) (d : Z) : Prop :=
  forall n i a, digest_syntax n -> entry (f_tree F) d n = Some i -> f_tree F !! i = Some TFile ->
    f_attr F !! i = Some a -> EncodeToString (Sum256 (a_data a)) = n.

Lemma evolves_old_attr tmp x F0 F i :
  wf_fs F0 -> evolves tmp x F0 F -> is_Some (f_tree F0 !! i) -> f_attr F !! i = f_attr F0 !! i.
Proof.
  intros Hwf Hev Hi. destruct (wf_attr _ Hwf i Hi) as [a Ha].
  by rewrite Ha, (lookup_weaken _ _ _ _ Ha (ev_attr _ _ _ _ Hev)).
Qed.

Lemma evolves_old_file tmp x F0 F i :
  evolves tmp x F0 F -> is_Some (f_tree F0 !! i) -> f_tree F !! i = Some TFile ->
  f_tree F0 !! i = Some TFile.
Proof.
  intros Hev [node Hi] HF. pose proof (ev_node _ _ _ _ Hev i node Hi) as Hk.
  destruct node; try congruence. unfold entries in Hk. rewrite HF in Hk. by destruct Hk.
Qed.

Lemma evolves_consistent x F0 F d :
  wf_fs F0 -> evolves exec_name x F0 F -> cache_consistent F0 d ->
  forall n i a, x <> Some (d, n) -> digest_syntax n -> entry (f_tree F) d n = Some i ->
    f_tree F !! i = Some TFile -> f_attr F !! i = Some a -> EncodeToString (Sum256 (a_data a)) = n.
Proof.
  intros Hwf Hev Hc n i a Hx Hn He Hi Ha.
  destruct (ev_new _ _ _ _ Hev d n i Hx He) as [He0|[[Hd _]|Ht]].
  - pose proof (wf_entry _ Hwf _ _ _ He0) as Hs.
    eapply Hc; [done|exact He0|by eapply evolves_old_file|].
    by rewrite <- (evolves_old_attr _ _ _ _ _ Hwf Hev Hs).
  - unfold is_dir in Hd. by rewrite Hi in Hd.
  - by destruct (digest_not_exec n Hn).
Qed.

Lemma outcome_consistent F0 d sha F :
  wf_fs F0 -> cache_consistent F0 d -> cache_outcome F0 d sha F -> cache_consistent F d.
Proof.
  intros Hwf Hc (_ & [Hev|[Hev Hcase]]) n i a Hn He Hi Ha.
  - by eapply evolves_consistent.
  - destruct (decide (sha = n)) as [<- |Hne].
    + destruct Hcase as [(j & Hj & _ & a' & Ha' & Hs)|Hnone]; congruence.
    + eapply evolves_consistent; try done. congruence.
Qed.

(** ** What a run needs to succeed *)

Record can_materialize `{Kernel} (F0 : fs) (d : Z) (entry0 : VariantEntry) (payload : PayloadFunc) :
    Prop := {
  cm_calm : faultless;
  cm_dir : is_Some (entries (f_tree F0) d);
  cm_old : forall j, entry (f_tree F0) d (SHA256 entry0) = Some j ->
    exists fi, info_of j F0 = Ok fi /\ validateCacheEntryMetadata fi = Ok tt;
  cm_names : forall n, entry (f_tree F0) d (temp_name (k_random n)) = None;
  cm_chmod : forall n m, k_chmod n m = m;
  cm_payload : forall F, (payload F).2 = None /\
    EncodeToString (Sum256 (concat (payload F).1)) = SHA256 entry0 /\
    Z.of_nat (length (concat (payload F).1)) = UncompressedSize entry0
}.

(** ** Call by call *)

Section materialize.
Context `{Kernel} (Hquiet : quiet) (F0 : fs) (Hwf0 : wf_fs F0) (d : Z).
Context (ve : VariantEntry) (payload : PayloadFunc) (Hsha : digest_syntax (SHA256 ve)).

Abbreviation sha := (SHA256 ve).
Abbreviation G := (can_materialize F0 d ve payload).
Abbreviation outcome_of := (cache_outcome F0 d sha).

Let Hcalm : G -> faultless := fun g => cm_calm _ _ _ _ g.

Lemma outcome_unchanged F : unpublished exec_name F0 F -> outcome_of F.
Proof using Type. intros [Hwf Hev]. split; auto. Qed.

Lemma outcome_start : outcome_of F0.
Proof using Hwf0. split; [done|]. left. apply evolves_refl. Qed.

Lemma hoare_validateCacheReplacementAt :
  hoare (eq F0) (validateCacheReplacementAt d sha) (fun _ => eq F0)
    (fun _ F => F0 = F /\ ~ G) (fun F => F0 = F /\ ~ G).
Proof using Hquiet Hsha.
  unfold validateCacheReplacementAt. pose proof (digest_single _ Hsha) as Hs.
  eapply hoare_bind with (R := fun r F => F0 = F /\
    match r with
    | inl fi => exists j, entry (f_tree F0) d sha = Some j /\ info_of j F0 = Ok fi
    | inr e => G -> isNotExistErr e = true
    end).
  - intros w Hw. unfold try, sys_stat, inspect, syscall. rewrite Hquiet, <- Hw.
    destruct (k_fault (w_clock w)) eqn:Hf; simpl.
    2: { split; [done|]. intros g. pose proof (Hcalm g (w_clock w)). congruence. }
    2: { split; [done|]. intros g. pose proof (Hcalm g (w_clock w)). congruence. }
    rewrite locate_name by done. unfold entry.
    destruct (entries (f_tree F0) d) as [m|] eqn:Hm; simpl.
    2: { split; [done|]. intros g. destruct (cm_dir _ _ _ _ g). congruence. }
    unfold found. simpl. destruct (m !! sha) as [j|] eqn:Hj; simpl; [|done].
    destruct (info_of j F0) as [fi|e|] eqn:Hi; simpl; [by eauto|..].
    all: split; [done|]; intros g; destruct (cm_old _ _ _ _ g j) as (fi & Hfi & _);
      [unfold entry; by rewrite Hm|congruence].
  - intros [fi|e]; apply hoare_ghost; intros F [<- Hr].
    + destruct Hr as (j & Hj & Hfi). destruct (validateCacheEntryMetadata fi) as [[]|e|] eqn:Hv.
      1: by apply hoare_ret.
      all: intros w Hw; unfold lift; simpl; split; [done|]; intros g;
        destruct (cm_old _ _ _ _ g j Hj) as (fi' & Hfi' & Hv'); congruence.
    + destruct (isNotExistErr e); [by apply hoare_ret|].
      apply hoare_fail. intros F <-. split; [done|]. intros g. by specialize (Hr g).
Qed.

Lemma hoare_createTempFileAt attempts :
  (G -> attempts <> O) ->
  hoare (eq F0) (createTempFileAt attempts d)
    (fun r F => exists nn, exec_name r.2 /\ single r.2 /\
      added (fd_base d) r.2 TFile (new_attr nn PrivateExecMode) F0 r.1 F d r.2)
    (fun _ F => F0 = F /\ ~ G) (fun F => F0 = F /\ ~ G).
Proof using Hquiet.
  induction attempts as [|attempts IH]; intros Hpos; cbn [createTempFileAt].
  { apply hoare_fail. intros F <-. split; [done|]. intros g. by apply (Hpos g). }
  eapply hoare_bind with (R := fun r F => F0 = F /\ exists n, r = k_random n).
  { apply (hoare_call Hquiet G Hcalm); [by intros F <-|by intros F e <-|by eexists|].
    intros n F a F' <- [= <- <-]. eauto. }
  intros r. apply hoare_ghost. intros F [<- [n ->]].
  pose proof (temp_name_single (k_random n)) as Hs.
  eapply hoare_bind with (R := fun x F => match x with
    | inl i => exists nn, exec_name (temp_name (k_random n)) /\ single (temp_name (k_random n)) /\
        added (fd_base d) (temp_name (k_random n)) TFile (new_attr nn PrivateExecMode) F0 i F d (temp_name (k_random n))
    | inr _ => F0 = F /\ ~ G end).
  - apply hoare_try, (hoare_call Hquiet G Hcalm); [by intros F <-|by intros F e <-|..].
    + intros nn F <- g. unfold add_node. rewrite locate_name by done.
      destruct (cm_dir _ _ _ _ g) as [m Hm]. pose proof (cm_names _ _ _ _ g n) as Hfree.
      unfold entry in Hfree. rewrite Hm in *. simpl in *. rewrite Hfree. by eexists.
    + intros nn F i F' <- Hadd. apply add_node_inv in Hadd as (d' & n' & Hadd).
      destruct (add_at Hadd) as (l & Hl & Hp & _). rewrite locate_name in Hl by done.
      destruct (entries (f_tree F0) d); [|discriminate]. injection Hl as <-.
      injection Hp as <- <-. exists nn. split_and!; [apply temp_name_exec|done..].
  - intros [i|e]; apply hoare_ghost; intros F HF.
    + apply hoare_ret. by intros F' <-.
    + destruct HF as [<- HG]. destruct (errors_Is e (Errno EEXIST)).
      * apply IH. by intros g.
      * apply hoare_fail. by intros F' <-.
Qed.

(** ** Filling the temporary file *)

Section fill.
Context (F1 : fs) (i : Z) (tn : string) (nn : nat).
Context (Hexec : exec_name tn) (Hsingle : single tn).
Context (Hadd : added (fd_base d) tn TFile (new_attr nn PrivateExecMode) F0 i F1 d tn).

Abbreviation keeps phi := (holding F1 i (fun a => a_uid a = k_euid /\ phi a)).
Abbreviation lost := (fun F => holding F1 i (fun _ => True) F /\ ~ G).

Lemma staged : staging exec_name F0 (fd_base d) tn F1 i d tn.
Proof using Hadd Hexec Hwf0.
  eapply added_staging; [|exact Hadd|done]. split; [done|apply evolves_refl].
Qed.

Lemma keeps_lost phi F : keeps phi F -> ~ G -> lost F.
Proof using Type. intros Hk HG. split; [|done]. by eapply holding_impl; [|exact Hk]. Qed.

Lemma hoare_change f phi psi :
  (forall n a, exists a', f n a = Ok a') ->
  (forall n a a', phi a -> f n a = Ok a' -> a_uid a' = a_uid a /\ psi a') ->
  hoare (keeps phi) (update_attr i f) (fun _ => keeps psi) (fun _ => lost) lost.
Proof using Hquiet.
  intros Hlive Hf. apply (hoare_call Hquiet G Hcalm).
  - intros F Hk HG. exact (keeps_lost _ _ Hk HG).
  - intros F e Hk HG. exact (keeps_lost _ _ Hk HG).
  - intros n F (HT & Hj & a & Ha & Hphi) _. unfold read_attr. rewrite Ha. simpl.
    destruct (Hlive n a) as [a' ->]. by eexists.
  - intros n F u F' (HT & Hj & a & Ha & Huid & Hphi) Hu.
    apply update_attr_inv in Hu as (a0 & a' & Ha0 & Hfa & ->).
    assert (a0 = a) as -> by congruence. destruct (Hf n a a' Hphi Hfa) as [Hu' Hp'].
    split_and!; simpl; [done| |].
    + intros j Hne. rewrite lookup_insert_ne by congruence. auto.
    + exists a'. rewrite lookup_insert_eq. split_and!; [done|congruence|done].
Qed.

Lemma hoare_pieces pieces acc :
  hoare (keeps (fun a => a_data a = acc)) (each (fun piece => sys_write i (fun data => data ++ piece)) pieces)
    (fun _ => keeps (fun a => a_data a = acc ++ concat pieces)) (fun _ => lost) lost.
Proof using Hquiet.
  revert acc. induction pieces as [|p pieces IH]; intros acc; cbn [each concat].
  - apply hoare_ret. intros F. rewrite (app_nil_r acc). done.
  - eapply hoare_bind; [apply hoare_change with (psi := fun a => a_data a = acc ++ p)|].
    + intros n a. by eexists.
    + intros n a a' <- [= <-]. done.
    + intros []. rewrite (app_assoc acc p). apply IH.
Qed.

Lemma hoare_write_payload :
  hoare (keeps (fun a => a_data a = [])) (write_payload payload i)
    (fun D F => keeps (fun a => a_data a = D) F /\
      (G -> EncodeToString (Sum256 D) = sha /\ Z.of_nat (length D) = UncompressedSize ve))
    (fun _ => lost) lost.
Proof using Hquiet.
  unfold write_payload. apply hoare_bind with (R := fun _ => keeps (fun a => a_data a = [])).
  { apply (hoare_look Hquiet G Hcalm); [intros F Hk HG; exact (keeps_lost _ _ Hk HG)|
      intros F e Hk HG; exact (keeps_lost _ _ Hk HG)|by eexists|done]. }
  intros F. eapply hoare_bind; [apply hoare_pieces|]. intros []. cbn [app].
  destruct (payload F).2 eqn:Hp.
  - apply hoare_fail. intros F' Hk. split; [by eapply holding_impl; [|exact Hk]|]. intros HG.
    destruct (cm_payload _ _ _ _ HG F) as [Hn _]. congruence.
  - apply hoare_ret. intros F' Hk. split; [done|]. intros HG.
    by destruct (cm_payload _ _ _ _ HG F) as [_ ?].
Qed.

(** What is renamed into place: the payload of the entry. *)
Definition sealed (a : attr) : Prop :=
  EncodeToString (Sum256 (a_data a)) = sha /\
  (G -> a_perm a = PrivateExecMode /\ Z.of_nat (length (a_data a)) = UncompressedSize ve).

Definition renamed (F : fs) : Prop :=
  wf_fs F /\ evolves exec_name (Some (d, sha)) F0 F /\ entry (f_tree F) d sha = Some i /\
  f_tree F !! i = Some TFile /\ exists a, f_attr F !! i = Some a /\ a_uid a = k_euid /\ sealed a.

Lemma temp_not_sha : tn <> sha.
Proof using Hexec Hsha. intros Heq. apply (digest_not_exec _ Hsha). by rewrite <- Heq. Qed.

Lemma entry_F1 n : entry (f_tree F1) d n = if decide (tn = n) then Some i else entry (f_tree F0) d n.
Proof using Hadd.
  rewrite (added_entry _ _ _ _ _ _ _ _ _ _ _ Hadd) by done. repeat case_decide; congruence.
Qed.

Lemma old_regular j :
  G -> entry (f_tree F0) d sha = Some j -> f_tree F1 !! j = Some TFile /\ j <> i.
Proof using Hadd Hexec Hwf0.
  intros HG Hj. destruct (cm_old _ _ _ _ HG j Hj) as (fi & Hfi & Hv).
  apply regular_metadata in Hv as (Hn & _). destruct (info_of_inv _ _ _ Hfi) as (_ & Hnode & _).
  rewrite Hn in Hnode. pose proof (added_kept _ _ _ _ _ _ _ _ _ Hadd j _ Hnode) as Hk.
  split; [done|]. intros ->. pose proof (st_tree0 _ _ _ _ _ _ _ _ staged). congruence.
Qed.

Lemma F1_dir : is_Some (entries (f_tree F1) d).
Proof using Hadd.
  pose proof (entry_F1 tn) as He. rewrite decide_True in He by done. unfold entry in He.
  destruct (entries (f_tree F1) d); [eauto|discriminate].
Qed.

Lemma rename_runs F :
  G -> f_tree F = f_tree F1 ->
  exists r, (from ← locate (fd_base d) false tn F; to ← locate (fd_base d) false sha F;
             rename_at false from to F) = Ok r.
Proof using Hadd Hexec Hsha Hsingle Hwf0.
  intros HG HT. rewrite !locate_name by auto using digest_single. rewrite HT.
  destruct F1_dir as [m Hm]. pose proof (entry_F1 tn) as Ht. pose proof (entry_F1 sha) as Hs.
  rewrite decide_True in Ht by done. rewrite decide_False in Hs by apply temp_not_sha.
  unfold entry at 1 in Ht. unfold entry at 1 in Hs. rewrite Hm in *. simpl in *. unfold rename_at, found. simpl.
  rewrite Ht. simpl. destruct (m !! sha) as [j|]; [|by eexists].
  destruct (old_regular j HG (eq_sym Hs)) as [Hj Hne].
  destruct (Z.eqb_spec i j); [congruence|]. unfold is_dir. rewrite HT, Hj.
  rewrite (st_file _ _ _ _ _ _ _ _ staged). by eexists.
Qed.

Lemma hoare_cache_rename :
  hoare (keeps sealed) (sys_rename false (fd_base d) tn (fd_base d) sha)
    (fun _ => renamed) (fun _ => lost) lost.
Proof using Hadd Hexec Hquiet Hsha Hsingle Hwf0.
  apply (hoare_call Hquiet G Hcalm).
  - intros F Hk HG. exact (keeps_lost _ _ Hk HG).
  - intros F e Hk HG. exact (keeps_lost _ _ Hk HG).
  - intros n F [HT _] HG. by apply rename_runs.
  - intros n F u F' Hk Hr.
    destruct (holding_unpublished _ _ _ _ _ _ _ _ _ _ staged Hk) as [Hwf Hev].
    destruct Hk as (HT & Hj & a & Ha & Huid & Hsealed).
    apply bind_Ok_inv in Hr as (from & Hfrom & Hr). apply bind_Ok_inv in Hr as (to & Hto & Hr).
    destruct (rename_at_inv _ _ _ _ _ _ _ _ _ _ _ _ Hfrom Hto Hr)
      as (i' & ds & ns & dt & nt & Hps & His & Hes & Hpt & Het & Hdt & Hcase).
    rewrite locate_name in Hfrom, Hto by auto using digest_single. rewrite HT in Hfrom, Hto.
    destruct F1_dir as [m Hm]. rewrite Hm in *. injection Hfrom as <-. injection Hto as <-.
    injection Hps as <- <-. injection Hpt as <- <-. simpl in *.
    rewrite HT, entry_F1, decide_True in Hes by done. injection Hes as <-.
    destruct Hcase as [(_ & Hto & _)|(-> & _)].
    + exfalso. rewrite HT, Hto in Het. pose proof (st_only _ _ _ _ _ _ _ _ staged _ _ Het) as [= Hx].
      by apply temp_not_sha.
    + split_and!; simpl.
      * apply wf_move; [done|by apply digest_single|done|]. simpl. by rewrite HT, entry_F1, decide_True.
      * apply evolves_move; [exact (st_free0 _ _ _ _ _ _ _ _ staged)|done..].
      * rewrite entry_move by done. by rewrite decide_True.
      * pose proof (st_file _ _ _ _ _ _ _ _ staged) as Hfile. rewrite <- HT in Hfile.
        pose proof (node_kept_trans _ _ _ (node_kept_del_entry (f_tree F) d tn)
          (node_kept_set_entry (del_entry (f_tree F) d tn) d sha i) i TFile Hfile) as Hk. done.
      * eauto.
Qed.

Lemma hoare_fill_temp :
  hoare (keeps (fun a => a_data a = [])) (fill_temp ve payload i)
    (fun _ => keeps sealed) (fun _ => lost) lost.
Proof using Hquiet.
  unfold fill_temp.
  eapply hoare_bind; [apply hoare_wrapping_any, hoare_write_payload|]. intros D.
  destruct (String.eqb_spec (EncodeToString (Sum256 D)) sha) as [HD|HD]; cbn [negb].
  2: { apply hoare_fail. intros F [Hk HG]. split; [by eapply holding_impl; [|exact Hk]|]. naive_solver. }
  eapply hoare_bind with (R := fun _ => keeps sealed).
  { apply hoare_wrapping_any. apply hoare_ghost. intros F [Hk HG].
    eapply hoare_pre; [apply hoare_change with (phi := fun a => a_data a = D)|by intros F' <-].
    - intros n a. by eexists.
    - intros n a a' <- [= <-]. split; [done|]. split; [done|]. intros g. simpl.
      split; [by rewrite (cm_chmod _ _ _ _ g)|by apply HG]. }
  assert (forall fd, hoare (keeps sealed) (wrapping (app ErrCacheWrite) (sys_close fd))
    (fun _ => keeps sealed) (fun _ => lost) lost) as Hlook.
  { intros fd. apply hoare_wrapping_any, (hoare_look Hquiet G Hcalm);
      [intros F Hk HG; exact (keeps_lost _ _ Hk HG)|intros F e Hk HG; exact (keeps_lost _ _ Hk HG)|
       by eexists|done]. }
  intros []. eapply hoare_bind; [apply Hlook|]. intros []. apply Hlook.
Qed.

Lemma lost_outcome F : lost F -> outcome_of F /\ ~ G.
Proof using Hadd Hexec Hwf0.
  intros [Hh HG]. split; [|done]. apply outcome_unchanged.
  exact (holding_unpublished _ _ _ _ _ _ _ _ _ _ staged Hh).
Qed.

(** A failure removes the temporary file, or tries to. *)
Lemma hoare_unlink_temp :
  hoare lost (unlink_temp d tn) (fun _ F => outcome_of F /\ ~ G) (fun _ F => outcome_of F /\ ~ G)
    (fun F => outcome_of F /\ ~ G).
Proof using Hadd Hexec Hquiet Hsingle Hwf0.
  pose proof lost_outcome as Hup. apply hoare_ignore, hoare_syscall; [done|auto..|]. intros n F u F' [Hh HG] Hr. split; [|done].
  apply bind_Ok_inv in Hr as (l & Hl & Hr).
  destruct (unlink_at_inv _ _ _ _ _ _ _ _ Hl Hr) as (d' & n' & i' & Hp & _ & _ & -> & _).
  rewrite locate_name in Hl by done. destruct (entries (f_tree F) d); [|discriminate].
  injection Hl as <-. injection Hp as <- <-.
  destruct (holding_unpublished _ _ _ _ _ _ _ _ _ _ staged Hh) as [Hwf Hev].
  apply outcome_unchanged. split; [by apply wf_del_entry|]. apply evolves_del_entry; [|done].
  exact (st_free0 _ _ _ _ _ _ _ _ staged).
Qed.

Lemma hoare_discard_temp :
  hoare lost (discard_temp d i tn) (fun _ F => outcome_of F /\ ~ G) (fun _ F => outcome_of F /\ ~ G)
    (fun F => outcome_of F /\ ~ G).
Proof using Hadd Hexec Hquiet Hsingle Hwf0.
  pose proof lost_outcome as Hup. unfold discard_temp.
  apply hoare_observe; [apply observes_ignore; by apply observes_inspect|auto..|]. intros [].
  apply hoare_unlink_temp.
Qed.

(** Filling and renaming, with their cleanups. *)
Lemma hoare_fill_and_rename :
  hoare (keeps (fun a => a_data a = []))
    (_ ← on_failure (discard_temp d i tn) (fill_temp ve payload i);
     on_failure (unlink_temp d tn) (rename_temp d tn sha))
    (fun _ => renamed) (fun _ F => outcome_of F /\ ~ G) (fun F => outcome_of F /\ ~ G).
Proof using Hadd Hexec Hquiet Hsha Hsingle Hwf0.
  pose proof lost_outcome as Hup. eapply hoare_bind with (R := fun _ => keeps sealed).
  - eapply hoare_on_failure; [|intros e; apply hoare_discard_temp].
    by eapply hoare_conseq; [apply hoare_fill_temp|..]; auto.
  - intros []. eapply hoare_on_failure; [|intros e; apply hoare_unlink_temp].
    by eapply hoare_conseq; [apply hoare_wrapping_any, hoare_cache_rename|..]; auto.
Qed.

Lemma renamed_outcome F : renamed F -> outcome_of F.
Proof using Type.
  intros (Hwf & Hev & He & Hi & a & Ha & _ & Hs & _). split; [done|]. right. split; [done|].
  left. exists i. split_and!; eauto.
Qed.

Lemma renamed_valid F :
  renamed F -> G -> exists fd, leads_to F (fd_base d) sha fd /\ valid_entry F fd (UncompressedSize ve) sha.
Proof using Hsha.
  intros (Hwf & Hev & He & Hi & a & Ha & Hu & Hs & Hlive) HG. destruct (Hlive HG) as [Hperm Hlen].
  exists i. split.
  - apply leads_to_name; [by apply digest_single|done].
  - split; [done|]. exists a. rewrite Hperm. by split_and!.
Qed.

(** A file that does not validate after the rename is removed again. *)
Lemma hoare_drop :
  ~ G -> hoare renamed (ignore (sys_unlink (fd_base d) sha)) (fun _ F => outcome_of F)
    (fun _ F => outcome_of F) outcome_of.
Proof using Hquiet Hsha.
  intros HG. apply hoare_ignore, hoare_syscall; [done|auto using renamed_outcome..|].
  intros n F u F' (Hwf & Hev & He & Hi & _) Hr. apply bind_Ok_inv in Hr as (l & Hl & Hr).
  destruct (unlink_at_inv _ _ _ _ _ _ _ _ Hl Hr) as (d' & n' & i' & Hp & _ & _ & -> & _).
  rewrite locate_name in Hl by by apply digest_single.
  destruct (entries (f_tree F) d); [|discriminate]. injection Hl as <-. injection Hp as <- <-.
  split; [by apply wf_del_entry|]. right. split.
  - destruct Hev as [Ha Hn Hen Hw]. split; simpl; [done|..].
    + eapply node_kept_trans; [exact Hn|auto with vfs].
    + intros d' n' j Hx Hj. rewrite entry_del_entry. case_decide; [congruence|auto].
    + intros d' n' j Hx. rewrite entry_del_entry. case_decide; [discriminate|]. intros Hj.
      destruct (Hw d' n' j Hx Hj) as [|[[Hd Ht]|]]; [auto| |auto].
      right. left. split; [|done]. apply with_tree_is_dir; auto with vfs.
  - right. simpl. rewrite entry_del_entry. by rewrite decide_True.
Qed.

End fill.

(** The descriptor returned is a valid entry, open under its digest. *)
Definition returned (fd : Z) (F : fs) : Prop :=
  outcome_of F /\ entry (f_tree F) d sha = Some fd /\ valid_entry F fd (UncompressedSize ve) sha.

Lemma hoare_materialize dirPath :
  0 <= d -> dirPath <> ""%string -> 0 < UncompressedSize ve <= MaxPayloadSize ->
  hoare (eq F0) (materializeAndOpenVariantAtFD d dirPath (Some ve) (Some payload))
    (fun r F => r.1 = filepath_Join [filepath_Clean dirPath; sha] /\ returned r.2 F) (fun _ F => outcome_of F /\ ~ G) (fun F => outcome_of F /\ ~ G).
Proof using Hquiet Hsha Hwf0.
  intros Hd Hpath Hsize. unfold materializeAndOpenVariantAtFD.
  rewrite (proj2 (Z.ltb_ge _ _)), (proj2 (String.eqb_neq _ _)) by done.
  rewrite (proj2 (bad_checksum_false _) Hsha), (proj2 (Z.leb_gt _ _)) by lia. cbn [orb].
  assert ((UncompressedSize ve >? MaxPayloadSize) = false) as -> by lia.
  rewrite (Clean_digest sha) by done.
  assert (forall F, F0 = F /\ ~ G -> outcome_of F /\ ~ G) as Hstart.
  { intros F [<- HG]. split; [|done]. by apply outcome_start. }
  eapply hoare_seq; [apply hoare_wrapping_any, hoare_validateCacheReplacementAt|auto..|]. intros [].
  eapply hoare_seq; [apply hoare_wrapping_any, (hoare_createTempFileAt maxTempFileAttempts); by intros _|
    auto..|].
  intros [i tn]. cbn [fst snd]. apply hoare_ghost. intros F1 (nn & Hexec & Hsingle & Hadd).
  apply hoare_assoc. eapply hoare_bind.
  { eapply hoare_pre; [by apply (hoare_fill_and_rename F1 i tn nn)|].
    intros F <-. split_and!; [done..|]. exists (new_attr nn PrivateExecMode).
    rewrite (add_attr Hadd), lookup_insert_eq. done. }
  intros []. apply hoare_ghost. intros F Hren.
  eapply hoare_bind with (R := fun v F' => F = F' /\
    match v with
    | inl fd => leads_to F (fd_base d) sha fd /\ valid_entry F fd (UncompressedSize ve) sha
    | inr _ => ~ G
    end).
  { apply hoare_try. eapply hoare_conseq;
      [apply (hoare_open_and_validate Hquiet F (fd_base d) sha _ sha G Hcalm (renamed_valid i F Hren))|..];
      try done. intros F' [<- HG]. split; [by eapply renamed_outcome|done]. }
  intros [fd|e]; apply hoare_ghost; intros F' [<- Hv].
  - destruct Hv as [Hl Hv]. apply leads_to_name in Hl; [|by apply digest_single].
    apply hoare_ret. intros F' <-. cbn [fst snd].
    split; [done|]. split_and!; [by eapply renamed_outcome|done..].
  - eapply hoare_bind with (R := fun _ F' => outcome_of F' /\ ~ G).
    + eapply hoare_conseq; [by apply (hoare_drop i)|..]; simpl; try done. by intros F' <-.
    + intros []. by apply hoare_fail.
Qed.

End materialize.

(** ** Requests that are refused at once *)

Definition admissible (d : Z) (dirPath : string) (ve : VariantEntry) : Prop :=
  0 <= d /\ dirPath <> ""%string /\ digest_syntax (SHA256 ve) /\
  0 < UncompressedSize ve <= MaxPayloadSize.

Lemma materialize_cases `{Kernel} d dirPath ve payload :
  (exists v p, ve = Some v /\ payload = Some p /\ admissible d dirPath v) \/
  (exists e, forall w, materializeAndOpenVariantAtFD d dirPath ve payload w = (Failed e, w)).
Proof.
  unfold materializeAndOpenVariantAtFD.
  destruct (Z.ltb_spec d 0); [right; by eexists|].
  destruct (String.eqb_spec dirPath ""); [right; by eexists|].
  destruct ve as [v|]; [|right; by eexists].
  destruct (bad_checksum (SHA256 v)) eqn:Hs; [right; by eexists|]. apply bad_checksum_false in Hs.
  destruct ((UncompressedSize v <=? 0) || (UncompressedSize v >? MaxPayloadSize)) eqn:Hsize;
    [right; by eexists|].
  destruct payload as [p|]; [|right; by eexists]. left. exists v, p. split_and!; [done..|].
  split_and!; try done; lia.
Qed.

(** ** Histories of the cache

    Any number of processes, one after the other, each with its own faults and
    dying anywhere, validate and materialize entries of one directory. *)

Inductive cache_op : Type :=
| OpMaterialize (dirPath : string) (ve : option VariantEntry) (payload : option PayloadFunc)
| OpValidate (name : string) (ve : VariantEntry) (removeOnCorrupt : bool).

Definition run_op `{Kernel} (d : Z) (op : cache_op) : io unit :=
  match op with
  | OpMaterialize dirPath ve payload => _ ← materializeAndOpenVariantAtFD d dirPath ve payload; mret tt
  | OpValidate name ve remove => _ ← OpenAndValidateVariantAtFD d name ve remove; mret tt
  end.

Inductive cache_history (d : Z) (F : fs) : fs -> Prop :=
| history_start : cache_history d F F
| history_step F1 (K : Kernel) (op : cache_op) (n : nat) (log : list (fs * fs)) :
    cache_history d F F1 -> quiet ->
    cache_history d F (w_fs (run_op d op (mkWorld F1 n log)).2).

Section histories.
Context `{Kernel} (Hquiet : quiet) (d : Z).

Abbreviation good := (fun F : fs => wf_fs F /\ cache_consistent F d).

Lemma consistent_del_entry F d' n :
  cache_consistent F d -> cache_consistent (with_tree F (del_entry (f_tree F) d' n)) d.
Proof using Type.
  intros Hc m i a Hm. simpl. rewrite entry_del_entry. case_decide; [discriminate|].
  intros He Hi Ha. eapply Hc; [done..| |done].
  unfold del_entry in Hi. destruct (entries (f_tree F) d') eqn:Hd; [|done].
  destruct (decide (d' = i)) as [-> |]; [by rewrite lookup_insert_eq in Hi|].
  by rewrite lookup_insert_ne in Hi.
Qed.

Lemma hoare_unlink_good b p : hoare good (sys_unlink b p) (fun _ => good) (fun _ => good) good.
Proof using Hquiet.
  apply hoare_syscall; [done..|]. intros n F u F' [Hwf Hc] Hr. apply bind_Ok_inv in Hr as (l & Hl & Hr).
  destruct (unlink_at_inv _ _ _ _ _ _ _ _ Hl Hr) as (d' & n' & i' & _ & _ & _ & -> & _).
  split; [by apply wf_del_entry|by apply consistent_del_entry].
Qed.

Lemma observes_read_all fuel fd off acc : observes (read_all fuel fd off acc).
Proof using Hquiet.
  revert off acc. induction fuel as [|fuel IH]; intros off acc; cbn [read_all]; [auto with vfs|].
  unfold sys_pread. observe.
Qed.

(** Validation only looks, but for the removal of a corrupt entry. *)
Lemma hoare_validation (P : fs -> Prop) b name size sha onCorrupt :
  hoare P onCorrupt (fun _ => P) (fun _ => P) P ->
  hoare P (open_and_validate b name size sha onCorrupt) (fun _ => P) (fun _ => P) P.
Proof using Hquiet.
  intros Hon. unfold open_and_validate, sys_open.
  apply hoare_observe; [observe|done..|]. intros [fd|e].
  2: { apply observes_hoare. unfold sys_stat. observe. }
  unfold validateOpenedDescriptor.
  apply hoare_observe; [unfold stat_or_close, close_fail, sys_fstat, sys_close; observe|done..|].
  intros fi. assert (forall e, hoare P (close_fail (A := Z) fd e) (fun _ => P) (fun _ => P) P) as Hclose.
  { intros e. apply observes_hoare. unfold close_fail, sys_close. observe. }
  assert (forall e, hoare P (_ ← ignore (sys_close fd); _ ← onCorrupt; fail (A := Z) e)
    (fun _ => P) (fun _ => P) P) as Hbad.
  { intros e. apply hoare_observe; [unfold sys_close; observe|done..|]. intros [].
    eapply hoare_bind; [exact Hon|]. intros []. by apply hoare_fail. }
  destruct (validateCacheEntryMetadata fi); try apply Hclose.
  destruct (negb _); [apply Hclose|]. destruct (negb _); [apply Hbad|].
  apply hoare_observe; [unfold verifyCachedFD; apply observes_bind;
    [apply observes_read_all|intros r; apply observes_ret]|done..|].
  intros [|]; [by apply hoare_ret|apply Hbad].
Qed.

Lemma hoare_run_op op : hoare good (run_op d op) (fun _ => good) (fun _ => good) good.
Proof using Hquiet.
  destruct op as [dirPath ve payload|name ve remove]; unfold run_op.
  - eapply hoare_bind with (R := fun _ => good); [|intros; by apply hoare_ret].
    destruct (materialize_cases d dirPath ve payload) as [(v & p & -> & -> & Hd & Hp & Hs & Hz)|[e He]].
    + apply hoare_ghost. intros F0 [Hwf Hc].
      assert (forall F, cache_outcome F0 d (SHA256 v) F -> good F) as Hgood.
      { intros F Ho. split; [apply Ho|by eapply outcome_consistent]. }
      eapply hoare_conseq; [by apply (hoare_materialize Hquiet F0 Hwf d v p Hs dirPath)|..];
        simpl; [done|..]; intros; apply Hgood; unfold returned in *; tauto.
    + intros w Hw. by rewrite He.
  - eapply hoare_bind with (R := fun _ => good); [|intros; by apply hoare_ret].
    apply hoare_validation. destruct remove; [|by apply hoare_ret].
    apply hoare_ignore, hoare_unlink_good.
Qed.

End histories.

(** ** A cache directory to run on *)

Definition cache_disk : fs := mkFs
  (<[1 := TDir {["cache"%string := 2]}]> {[2 := TDir ∅]})
  (<[1 := plain_attr 493 []]> {[2 := plain_attr 448 []]}) ∅.

Definition abc_entry : VariantEntry :=
  mkVariant "v1" 0 3 3 "ba7816bf8f01cfea414140de5dae2223b00361a396177a9cb410ff61f20015ad" "none".

Definition abc_payload : PayloadFunc := fun _ => ([[x61]; [x62; x63]], None).

Lemma cache_disk_wf : wf_fs cache_disk.
Proof. apply wf_check_sound. vm_compute. reflexivity. Qed.

Lemma cache_disk_consistent : cache_consistent cache_disk 2.
Proof. intros n i a _ He. discriminate He. Qed.

Lemma abc_admissible : admissible 2 "/cache" abc_entry.
Proof. repeat split; done. Qed.

(** The same machine, killed at one of its calls. *)
Definition killed_at (n : nat) : Kernel := kernel_with (fun k => if Nat.eqb k n then Dies else NoFault).

(** ** The invariant of the cache *)

(** C11. Whatever processes did to a cache directory before, in whatever order, and wherever
    they failed or were killed: a regular file whose name is a digest has that digest. *)
Theorem cache_history_consistent (d : Z) (F F' : fs) :
  wf_fs F -> cache_consistent F d -> cache_history d F F' -> cache_consistent F' d.
Proof.
  intros Hwf Hc Hh. enough (wf_fs F' /\ cache_consistent F' d) as [_ ?] by done.
  induction Hh as [|F1 K op n log Hh IH Hq]; [done|].
  pose proof (hoare_run_op Hq d op (mkWorld F1 n log) IH) as Hrun.
  destruct (run_op d op _) as [[a|e|] w']; exact Hrun.
Qed.

(** Killed between the rename and the validation: the entry is there, complete. *)
Definition after_kill : fs :=
  w_fs (@run_op (killed_at 10) 2 (OpMaterialize "/cache" (Some abc_entry) (Some abc_payload))
    (sample_world cache_disk)).2.

Lemma cache_history_consistent_witness :
  entry (f_tree after_kill) 2 (SHA256 abc_entry) = Some 3 /\ cache_consistent after_kill 2.
Proof.
  split; [vm_compute; reflexivity|].
  apply (cache_history_consistent 2 cache_disk); [apply cache_disk_wf|apply cache_disk_consistent|].
  apply (history_step 2 cache_disk cache_disk (killed_at 10)); [constructor|]. by intros n F.
Defined.

(** ** One materialization *)

(** C10. A materialization is atomic. A return hands out a descriptor that is open on the entry
    under its digest, owned by the user, private, executable, of the recorded size and digest.
    An error or the death of the process leaves everything that was there as it was, temporary
    names apart, with the entry unchanged, complete or absent. *)
Theorem materialize_atomic `{Kernel} (d : Z) (dirPath : string) (ve : VariantEntry)
    (payload : PayloadFunc) (w : world) :
  quiet -> wf_fs (w_fs w) -> admissible d dirPath ve ->
  match materializeAndOpenVariantAtFD d dirPath (Some ve) (Some payload) w with
  | (Done (path, fd), w') =>
      path = filepath_Join [filepath_Clean dirPath; SHA256 ve] /\
      cache_outcome (w_fs w) d (SHA256 ve) (w_fs w') /\
      entry (f_tree (w_fs w')) d (SHA256 ve) = Some fd /\
      valid_entry (w_fs w') fd (UncompressedSize ve) (SHA256 ve)
  | (_, w') => cache_outcome (w_fs w) d (SHA256 ve) (w_fs w')
  end.
Proof.
  intros Hq Hwf (Hd & Hp & Hs & Hz).
  pose proof (hoare_materialize Hq (w_fs w) Hwf d ve payload Hs dirPath Hd Hp Hz w eq_refl) as Hm.
  destruct (materializeAndOpenVariantAtFD _ _ _ _ w) as [[[path fd]|e|] w']; [exact Hm|apply Hm..].
Qed.

Lemma materialize_atomic_witness :
  match @materializeAndOpenVariantAtFD calm_kernel 2 "/cache" (Some abc_entry) (Some abc_payload)
          (sample_world cache_disk) with
  | (Done (path, fd), w') =>
      path = filepath_Join [filepath_Clean "/cache"; SHA256 abc_entry] /\
      cache_outcome cache_disk 2 (SHA256 abc_entry) (w_fs w') /\
      entry (f_tree (w_fs w')) 2 (SHA256 abc_entry) = Some fd /\
      @valid_entry calm_kernel (w_fs w') fd (UncompressedSize abc_entry) (SHA256 abc_entry)
  | (_, w') => cache_outcome cache_disk 2 (SHA256 abc_entry) (w_fs w')
  end.
Proof.
  apply (@materialize_atomic calm_kernel 2 "/cache" abc_entry abc_payload (sample_world cache_disk)).
  - by intros n F.
  - apply cache_disk_wf.
  - apply abc_admissible.
Defined.

(** C12. When no call fails, the directory takes new names, an old entry is a safe file and the
    callback delivers the recorded bytes, the materialization returns, and a later validation
    opens the same file. *)
Theorem materialize_succeeds `{Kernel} (d : Z) (dirPath : string) (ve : VariantEntry)
    (payload : PayloadFunc) (w : world) :
  quiet -> wf_fs (w_fs w) -> admissible d dirPath ve -> can_materialize (w_fs w) d ve payload ->
  exists path fd w', materializeAndOpenVariantAtFD d dirPath (Some ve) (Some payload) w = (Done (path, fd), w') /\
    forall n log, exists w'',
      OpenAndValidateVariantAtFD d (SHA256 ve) ve false (mkWorld (w_fs w') n log) = (Done fd, w'') /\
      w_fs w'' = w_fs w'.
Proof.
  intros Hq Hwf (Hd & Hp & Hs & Hz) HG.
  pose proof (hoare_materialize Hq (w_fs w) Hwf d ve payload Hs dirPath Hd Hp Hz w eq_refl) as Hm.
  destruct (materializeAndOpenVariantAtFD _ _ _ _ w) as [[[path fd]|e|] w'];
    [|by destruct Hm..].
  destruct Hm as (_ & _ & He & Hv). cbn [snd] in *. exists path, fd, w'. split; [done|]. intros n log.
  assert (leads_to (w_fs w') (fd_base d) (SHA256 ve) fd) as Hl.
  { by apply leads_to_name; [apply digest_single|]. }
  pose proof (hoare_open_and_validate Hq (w_fs w') (fd_base d) (SHA256 ve) (UncompressedSize ve)
    (SHA256 ve) faultless (fun h => h) (fun _ => ex_intro _ fd (conj Hl Hv)) (mkWorld (w_fs w') n log) eq_refl) as Ho.
  unfold OpenAndValidateVariantAtFD, OpenAndValidateAtFD. pose proof (cm_calm _ _ _ _ HG).
  destruct (open_and_validate _ _ _ _ _ _) as [[fd'|e|] w'']; [|by destruct Ho..].
  destruct Ho as (Heq & Hl' & _). exists w''. split; [|done].
  by rewrite (leads_to_unique _ _ _ _ _ Hl Hl').
Qed.

Lemma abc_can_materialize : @can_materialize calm_kernel cache_disk 2 abc_entry abc_payload.
Proof.
  split; [done|by eexists|by intros j|done|done|]. intros F. split_and!; [done|..]; vm_compute; reflexivity.
Qed.

Lemma materialize_succeeds_witness :
  exists path fd w', @materializeAndOpenVariantAtFD calm_kernel 2 "/cache" (Some abc_entry) (Some abc_payload)
      (sample_world cache_disk) = (Done (path, fd), w') /\
    forall n log, exists w'',
      @OpenAndValidateVariantAtFD calm_kernel 2 (SHA256 abc_entry) abc_entry false (mkWorld (w_fs w') n log) =
        (Done fd, w'') /\ w_fs w'' = w_fs w'.
Proof.
  apply (@materialize_succeeds calm_kernel 2 "/cache" abc_entry abc_payload (sample_world cache_disk)).
  - by intros n F.
  - apply cache_disk_wf.
  - apply abc_admissible.
  - apply abc_can_materialize.
Defined.

(** ** Validation *)

(** A descriptor is handed out only for a file of the user under that name, regular,
    private, executable and with the expected size and digest; and for every such file, unless a
    call fails. *)
Theorem OpenAndValidateAtFD_exact `{Kernel} (d : Z) (name : string) (size : Z) (sha : string) (fd : Z)
    (w : world) :
  quiet -> faultless -> single name ->
  (OpenAndValidateAtFD d name size sha false w).1 = Done fd <->
  entry (f_tree (w_fs w)) d name = Some fd /\ valid_entry (w_fs w) fd size sha.
Proof.
  intros Hq Hcalm Hs. unfold OpenAndValidateAtFD. split.
  - intros Hd. pose proof (hoare_open_and_validate Hq (w_fs w) (fd_base d) name size sha False
      (False_ind _) (False_ind _) w eq_refl) as Ho.
    destruct (open_and_validate _ _ _ _ _ _) as [[fd'|e|] w']; [|done..]. injection Hd as ->.
    destruct Ho as (_ & Hl & Hv). split; [|done]. by apply leads_to_name in Hl.
  - intros [He Hv]. apply leads_to_name in He; [|done].
    pose proof (hoare_open_and_validate Hq (w_fs w) (fd_base d) name size sha True
      (fun _ => Hcalm) (fun _ => ex_intro _ fd (conj He Hv)) w eq_refl) as Ho.
    destruct (open_and_validate _ _ _ _ _ _) as [[fd'|e|] w']; [|by destruct Ho..].
    destruct Ho as (_ & Hl & _). by rewrite (leads_to_unique _ _ _ _ _ He Hl).
Qed.

Lemma OpenAndValidateAtFD_exact_witness :
  (@OpenAndValidateAtFD calm_kernel 2 (SHA256 abc_entry) 3 (SHA256 abc_entry) false (sample_world after_kill)).1 =
    Done 3 <->
  entry (f_tree after_kill) 2 (SHA256 abc_entry) = Some 3 /\
  @valid_entry calm_kernel after_kill 3 3 (SHA256 abc_entry).
Proof.
  apply (@OpenAndValidateAtFD_exact calm_kernel 2 (SHA256 abc_entry) 3 (SHA256 abc_entry) 3 (sample_world after_kill)).
  - by intros n F.
  - by intros n.
  - apply digest_single. split; vm_compute; reflexivity.
Defined.

(** Both sides hold in the directory the killed process left. *)
Example killed_entry_opens :
  (@OpenAndValidateAtFD calm_kernel 2 (SHA256 abc_entry) 3 (SHA256 abc_entry) false (sample_world after_kill)).1 =
    Done 3.
Proof. vm_compute. reflexivity. Qed.
