(* ===== verification/CacheDirProofs.v ===== *)
(** * The cache directory is private

    Whatever directory the resolution returns belongs to the user and only the
    user can write to it; looking for one changes nothing; and a directory that
    was named explicitly is never changed. *)

From S2P Require Import Prelude GoStrings GoPath Vfs GoOS VfsLogic VfsEffects VfsStage Lifecycle LifecycleProofs LifecycleAtomic Sha256 Format PackPrewarm Cache CacheProofs CacheMaterialize.
From stdpp Require Import base list strings gmap.
From Stdlib Require Import ZArith Lia Strings.Ascii Strings.Byte.
Import CacheErr.

Local Open Scope Z_scope.

Section private.
Context `{Kernel}.

(** A directory of the user that no one else may write to. *)
Record private_dir (F : fs) (fd : Z) : Prop := {
  pd_dir : is_Some (entries (f_tree F) fd);
  pd_attr : exists a, f_attr F !! fd = Some a /\ a_uid a = k_euid /\
    Z.land (a_perm a) InsecureCacheWriteBits = 0;
  pd_user : 0 <= k_euid
}.

(** The modes of directories may have changed, nothing else. *)
Definition repaired (F F' : fs) : Prop :=
  f_tree F' = f_tree F /\ (forall i, is_Some (entries (f_tree F) i) \/ f_attr F' !! i = f_attr F !! i) /\
  (forall i a, f_attr F !! i = Some a -> exists p, f_attr F' !! i = Some (mkAttr (a_dev a) p
    (a_uid a) (a_gid a) (a_mtime a) (a_data a) (a_xattrs a))).

Lemma repaired_refl F : repaired F F.
Proof using Type.
  split_and!; [done|auto|]. intros i a Ha. exists (a_perm a). rewrite Ha. by destruct a.
Qed.

Lemma repaired_chmod F i a p :
  is_Some (entries (f_tree F) i) -> f_attr F !! i = Some a ->
  repaired F (set_attr F i (mkAttr (a_dev a) p (a_uid a) (a_gid a) (a_mtime a) (a_data a) (a_xattrs a))).
Proof using Type.
  intros Hi Ha. split_and!; simpl; [done|..].
  - intros j. destruct (decide (i = j)) as [<- |Hne]; [by left|]. right. by rewrite lookup_insert_ne.
  - intros j aj Hj. destruct (decide (i = j)) as [<- |Hne].
    + rewrite lookup_insert_eq. exists p. congruence.
    + rewrite lookup_insert_ne by done. exists (a_perm aj). rewrite Hj. by destruct aj.
Qed.

Lemma insecure_bits fi :
  has_bits (st_mode fi) InsecureCacheWriteBits = false <->
  Z.land (a_perm (fi_attr fi)) InsecureCacheWriteBits = 0.
Proof using Type.
  unfold has_bits, st_mode. rewrite st_mode_low by reflexivity. rewrite negb_false_iff. apply Z.eqb_eq.
Qed.

Lemma dir_mode fi : (Z.land (st_mode fi) S_IFMT =? S_IFDIR) = true -> exists m, fi_node fi = TDir m.
Proof using Type. unfold st_mode. rewrite st_mode_type. destruct (fi_node fi); [discriminate|eauto|discriminate..]. Qed.

Context (Hquiet : quiet).

(** Closing and failing never returns. *)
Lemma hoare_stop {A} (P : fs -> Prop) fd e (Q : A -> fs -> Prop) (E : gerror -> fs -> Prop) (C : fs -> Prop) :
  (forall F, P F -> E e F) -> (forall e' F, P F -> E e' F) -> (forall F, P F -> C F) ->
  hoare P (close_fail fd e) Q E C.
Proof using Hquiet.
  intros HE HE' HC. unfold close_fail, sys_close.
  apply hoare_observe; [observe|done..|]. intros []. by apply hoare_fail.
Qed.

Lemma hoare_fstat F fd wrap (ok : fs -> Prop) :
  ok F ->
  hoare (eq F) (stat_or_close fd wrap) (fun fi F' => F = F' /\ info_of fd F = Ok fi) (fun _ => ok) ok.
Proof using Hquiet.
  intros Hok. unfold stat_or_close. eapply hoare_bind with (R := fun r F' => F = F' /\
    match r with inl fi => info_of fd F = Ok fi | inr _ => True end).
  - apply hoare_try, hoare_inspect; [done|by intros F' <-|by intros F' e <-|by intros F' fi <-].
  - intros [fi|e]; apply hoare_ghost; intros F' [<- Hi]; [apply hoare_ret; by intros F' <-|].
    by apply hoare_stop; intros; subst.
Qed.

Lemma hoare_opendir F dir (ok : fs -> Prop) :
  ok F ->
  hoare (eq F) (try (sys_opendir_nofollow cwd_base dir))
    (fun r F' => F = F' /\ match r with
      | inl fd => leads_to F cwd_base dir fd /\ is_Some (entries (f_tree F) fd)
      | inr _ => True end) (fun _ => ok) ok.
Proof using Hquiet.
  intros Hok. apply hoare_try, hoare_inspect; [done|by intros F' <-|by intros F' e <-|].
  intros F' fd <- Ho. split; [done|]. apply bind_Ok_inv in Ho as (l & Hl & Ho).
  apply bind_Ok_inv in Ho as (j & Hj & Ho). apply found_inv in Hj. unfold entries.
  destruct (f_tree F !! j) as [[]|] eqn:Hn; try discriminate. injection Ho as <-.
  split; [by exists l|]. rewrite Hn. eauto.
Qed.

Lemma leads_to_tree F F' b p fd : f_tree F' = f_tree F -> leads_to F b p fd -> leads_to F' b p fd.
Proof using Type.
  intros HT (l & Hl & Hi). exists l. by rewrite (locate_tree b false p F' F HT).
Qed.

(** What the validation returns, and what it may change. *)
Lemma hoare_OpenAndValidateCacheDirFD F dir (remediate : bool) :
  let ok F' := repaired F F' /\ (remediate = false -> F = F') in
  hoare (eq F) (OpenAndValidateCacheDirFD dir remediate)
    (fun fd F' => ok F' /\ private_dir F' fd /\ leads_to F' cwd_base (filepath_Clean dir) fd)
    (fun _ => ok) ok.
Proof using Hquiet.
  intros ok. unfold OpenAndValidateCacheDirFD.
  assert (ok F) as Hok by (split; [apply repaired_refl|done]).
  eapply hoare_bind; [by apply hoare_opendir|].
  intros [fd|e]; apply hoare_ghost; intros F' [<- Hr].
  2: { destruct (errors_Is e (Errno ELOOP)); [by apply hoare_fail; intros F' <-|].
       destruct (errors_Is e (Errno ENOTDIR)); [|by apply hoare_fail; intros F' <-].
       apply hoare_observe; [apply observes_try; by apply observes_stat|by intros; subst..|].
       intros r. by apply hoare_fail; intros F' <-. }
  destruct Hr as [Hl Hdir].
  eapply hoare_bind; [by apply hoare_fstat|]. intros fi. apply hoare_ghost. intros F' [<- Hfi].
  destruct (info_of_inv _ _ _ Hfi) as (Hino & Hnode & Hattr & _).
  destruct (negb _); [by apply hoare_stop; intros; subst|].
  destruct ((k_euid <? 0) || negb (a_uid (fi_attr fi) =? k_euid)) eqn:Huid;
    [by apply hoare_stop; intros; subst|].
  apply orb_false_iff in Huid as [Huser%Z.ltb_ge Huid%negb_false_iff%Z.eqb_eq].
  destruct (has_bits (st_mode fi) InsecureCacheWriteBits) eqn:Hbits.
  2: { apply insecure_bits in Hbits. apply hoare_ret. intros F' <-. split_and!; [apply Hok..| |done].
       split; eauto. }
  destruct remediate; cbn [negb]; [|by apply hoare_stop; intros; subst].
  eapply hoare_bind with (R := fun r F' => match r with
    | inl _ => exists p, F' = set_attr F fd (mkAttr (a_dev (fi_attr fi)) p (a_uid (fi_attr fi))
        (a_gid (fi_attr fi)) (a_mtime (fi_attr fi)) (a_data (fi_attr fi)) (a_xattrs (fi_attr fi)))
    | inr _ => F = F' end).
  { apply hoare_try, hoare_syscall; [done|by intros F' <-|done|]. intros n F1 u F' <- Hu.
    unfold read_attr in Hu. rewrite Hattr in Hu. injection Hu as <- <-. eauto. }
  intros [[]|e]; [|by apply hoare_stop; intros; subst].
  apply hoare_ghost. intros F' [p ->].
  pose proof (repaired_chmod F fd _ p Hdir Hattr) as Hrep. set (F' := set_attr F fd _) in *.
  assert (ok F') as Hok' by done.
  eapply hoare_bind; [by apply hoare_fstat|]. intros fi2. apply hoare_ghost. intros F2 [<- Hfi2].
  destruct (info_of_inv _ _ _ Hfi2) as (_ & _ & Hattr2 & _).
  destruct (has_bits (st_mode fi2) InsecureCacheWriteBits) eqn:Hbits2; [by apply hoare_stop; intros; subst|].
  apply insecure_bits in Hbits2. apply hoare_ret. intros F2 <-. split_and!; [apply Hok'..| |].
  - split; [done| |done]. exists (fi_attr fi2). split_and!; [done| |done].
    unfold F' in Hattr2. simpl in Hattr2. rewrite lookup_insert_eq in Hattr2. by injection Hattr2 as <-.
  - by apply (leads_to_tree F).
Qed.

(** ** The resolution *)

Definition no_name (n : string) : Prop := False.

Lemma hoare_prepareCacheDir F0 dir materialize :
  hoare (unpublished no_name F0) (prepareCacheDir dir materialize)
    (fun _ => unpublished no_name F0) (fun _ => unpublished no_name F0) (unpublished no_name F0).
Proof using Hquiet.
  unfold prepareCacheDir. destruct materialize; [by apply hoare_MkdirAll|by apply hoare_ret].
Qed.

Abbreviation secure F fd dir := (private_dir F fd /\ leads_to F cwd_base dir fd).

Lemma hoare_explicit_dir F0 dir materialize :
  wf_fs F0 ->
  hoare (eq F0) (explicit_dir dir materialize)
    (fun r F => unpublished no_name F0 F /\ r.2 = filepath_Clean dir /\
      secure F r.1 (filepath_Clean (filepath_Clean dir)))
    (fun _ => unpublished no_name F0) (unpublished no_name F0).
Proof using Hquiet.
  intros Hwf. unfold explicit_dir.
  apply hoare_bind with (R := fun _ => unpublished no_name F0).
  { eapply hoare_pre; [apply hoare_prepareCacheDir|]. intros F <-. split; [done|apply evolves_refl]. }
  intros []. apply hoare_ghost. intros F HF.
  eapply hoare_seq; [apply (hoare_OpenAndValidateCacheDirFD F _ false)|..].
  - intros e F' [_ Heq]. by rewrite <- Heq.
  - intros F' [_ Heq]. by rewrite <- Heq.
  - intros fd. apply hoare_ret. intros F' ([_ Heq] & Hp & Hl). by rewrite <- (Heq eq_refl) in *.
Qed.

Lemma hoare_try_candidates cands seen materialize :
  hoare (fun _ => True) (try_candidates cands seen materialize)
    (fun r F => exists cand, cand ∈ cands /\ r.2 = filepath_Clean cand /\
      secure F r.1 (filepath_Clean (filepath_Clean cand)))
    (fun _ _ => True) (fun _ => True).
Proof using Hquiet.
  revert seen. induction cands as [|cand rest IH]; intros seen; cbn [try_candidates]; [by apply hoare_fail|].
  assert (forall seen', hoare (fun _ => True) (try_candidates rest seen' materialize)
    (fun r F => exists cand', cand' ∈ cand :: rest /\ r.2 = filepath_Clean cand' /\
      secure F r.1 (filepath_Clean (filepath_Clean cand'))) (fun _ _ => True) (fun _ => True)) as IH'.
  { intros seen'. eapply hoare_conseq; [apply (IH seen')|..]; try done.
    intros r F (c & Hc & Hr). exists c. split; [by right|done]. }
  destruct (bool_decide _); [apply IH'|].
  eapply hoare_bind with (R := fun _ _ => True).
  { intros w _. by destruct (try _ w) as [[]]. }
  intros [u|e]; [|apply IH'].
  eapply hoare_bind with (R := fun r F => match r with
    | inl fd => secure F fd (filepath_Clean (filepath_Clean cand)) | inr _ => True end).
  { apply hoare_try, hoare_ghost. intros F _.
    eapply hoare_conseq; [apply (hoare_OpenAndValidateCacheDirFD F)|..]; simpl; try done.
    by intros fd F' (_ & Hs). }
  intros [fd|e]; [|eapply hoare_pre; [apply IH'|done]].
  apply hoare_ret. intros F Hs. exists cand. split; [by left|done].
Qed.

Lemma observes_OpenAndValidateCacheDirFD dir : observes (OpenAndValidateCacheDirFD dir false).
Proof using Hquiet.
  intros F. eapply hoare_conseq; [apply (hoare_OpenAndValidateCacheDirFD F dir false)|..]; simpl; try done.
  - by intros fd F' ([_ Heq] & _); apply Heq.
  - by intros e F' [_ Heq]; apply Heq.
  - by intros F' [_ Heq]; apply Heq.
Qed.

Lemma observes_try_candidates cands seen : observes (try_candidates cands seen false).
Proof using Hquiet.
  revert seen. induction cands as [|cand rest IH]; intros seen; cbn [try_candidates]; [auto with vfs|].
  destruct (bool_decide _); [apply IH|].
  apply observes_bind; [apply observes_try, observes_ret|]. intros [u|e]; [|apply IH].
  apply observes_bind; [apply observes_try, observes_OpenAndValidateCacheDirFD|].
  intros [fd|e]; [apply observes_ret|apply IH].
Qed.

Lemma observes_resolveCacheDirFD E customDir : observes (resolveCacheDirFD E customDir false).
Proof using Hquiet.
  assert (forall dir, observes (explicit_dir dir false)) as Hex.
  { intros dir. unfold explicit_dir. apply observes_bind; [apply observes_ret|]. intros [].
    apply observes_bind; [apply observes_OpenAndValidateCacheDirFD|]. intros fd. apply observes_ret. }
  unfold resolveCacheDirFD. repeat split_if; auto using observes_try_candidates.
Qed.

End private.

(** The directories a request may end in. *)
Definition requested `{Kernel} (E : CacheEnv) (customDir : string) : list string :=
  if negb (String.eqb customDir "") then [customDir]
  else if negb (String.eqb (env_CacheDir E) "") then [env_CacheDir E]
  else cache_candidates E.

Definition explicitly (E : CacheEnv) (customDir : string) : Prop :=
  customDir <> ""%string \/ env_CacheDir E <> ""%string.

(** The directory handed out is one of those asked for, belongs to the user and cannot be
    written by anyone else. A resolution that is only to look changes nothing. A directory named
    by the caller or by the environment is made if it is missing, and never changed if it is
    there. *)
Theorem resolveCacheDirFD_private `{Kernel} (E : CacheEnv) (customDir : string) (materialize : bool)
    (r : res (Z * string)) (w w' : world) :
  quiet -> wf_fs (w_fs w) -> resolveCacheDirFD E customDir materialize w = (r, w') ->
  (forall fd dir, r = Done (fd, dir) ->
     private_dir (w_fs w') fd /\
     exists cand, cand ∈ requested E customDir /\ dir = filepath_Clean cand /\
       leads_to (w_fs w') cwd_base (filepath_Clean dir) fd) /\
  (materialize = false -> w_fs w' = w_fs w) /\
  (explicitly E customDir -> evolves no_name None (w_fs w) (w_fs w')).
Proof.
  intros Hq Hwf Hr. split; [|split].
  - intros fd dir ->. unfold resolveCacheDirFD, requested in *.
    destruct (String.eqb_spec customDir ""); cbn [negb] in *.
    1: destruct (String.eqb_spec (env_CacheDir E) ""); cbn [negb] in *.
    + pose proof (hoare_try_candidates Hq (cache_candidates E) [] materialize w I) as Ht.
      rewrite Hr in Ht. destruct Ht as (cand & Hc & Heq & Hp & Hl); simpl in Heq; subst dir. eauto 10.
    + pose proof (hoare_explicit_dir Hq _ (env_CacheDir E) materialize Hwf w eq_refl) as Ht.
      rewrite Hr in Ht. destruct Ht as (_ & Heq & Hp & Hl); simpl in Heq; subst dir. eauto 10 using list_elem_of_here.
    + pose proof (hoare_explicit_dir Hq _ customDir materialize Hwf w eq_refl) as Ht.
      rewrite Hr in Ht. destruct Ht as (_ & Heq & Hp & Hl); simpl in Heq; subst dir. eauto 10 using list_elem_of_here.
  - intros ->. pose proof (observes_resolveCacheDirFD Hq E customDir _ w eq_refl) as Ho.
    rewrite Hr in Ho. by destruct r.
  - intros Hex. unfold resolveCacheDirFD in Hr.
    assert (forall dir, explicit_dir dir materialize w = (r, w') -> evolves no_name None (w_fs w) (w_fs w'))
      as Hone.
    { intros dir He. pose proof (hoare_explicit_dir Hq _ dir materialize Hwf w eq_refl) as Ht.
      rewrite He in Ht. destruct r; [destruct Ht as [[_ ?] _]|destruct Ht|destruct Ht]; done. }
    destruct (String.eqb_spec customDir ""); cbn [negb] in *; [|by eapply Hone].
    destruct (String.eqb_spec (env_CacheDir E) ""); cbn [negb] in *; [|by eapply Hone].
    by destruct Hex.
Qed.

Definition cache_env : CacheEnv := mkCacheEnv "" "" (Some "/home/u"%string) "/cache".

(** On the sample disk the home directory is made, with the modes asked for. *)
Lemma resolveCacheDirFD_private_witness :
  let run := @resolveCacheDirFD calm_kernel cache_env "" true (sample_world cache_disk) in
  run.1 = Done (6, "/home/u/.cache/microfat"%string) /\
  (forall fd dir, run.1 = Done (fd, dir) ->
     @private_dir calm_kernel (w_fs run.2) fd /\
     exists cand, cand ∈ @requested calm_kernel cache_env "" /\ dir = filepath_Clean cand /\
       @leads_to calm_kernel (w_fs run.2) (@cwd_base calm_kernel) (filepath_Clean dir) fd) /\
  (true = false -> w_fs run.2 = w_fs (sample_world cache_disk)) /\
  (explicitly cache_env "" -> evolves no_name None (w_fs (sample_world cache_disk)) (w_fs run.2)).
Proof.
  intros run. split; [vm_compute; reflexivity|].
  apply (@resolveCacheDirFD_private calm_kernel cache_env "" true run.1 (sample_world cache_disk) run.2).
  - by intros n F.
  - apply cache_disk_wf.
  - apply surjective_pairing.
Defined.
