(* ===== verification/Install.v ===== *)
(** * Installed generations ([internal/install])

    A release is installed as a generation, a directory of the store with the
    three products and their metadata, and selected by the symbolic link
    [current]; links in the bin directory go through it.  The operations are
    written on the file system model call by call: inspection, opening under
    the lock, staging, activation, update checks, discovery and removal. *)

From S2P Require Import Prelude GoStrings GoPath Vfs GoOS Lifecycle Sha256.
From stdpp Require Import base list strings gmap countable.
From Stdlib Require Import ZArith Lia Strings.Ascii Strings.Byte.

Local Open Scope Z_scope.

(** ** Types ([types.go]) *)

Module InstallErr.

Definition ErrOwnership : gerror := [Sentinel "install.ErrOwnership"].
Definition ErrChanged : gerror := [Sentinel "install.ErrChanged"].
Definition ErrConflict : gerror := [Sentinel "install.ErrConflict"].
Definition ErrCorrupt : gerror := [Sentinel "install.ErrCorrupt"].
Definition ErrDiscovery : gerror := [Sentinel "install.ErrDiscovery"].
Definition ErrCanceled : gerror := [Sentinel "context.Canceled"].

End InstallErr.
Import InstallErr.

Definition SchemaVersion : Z := 1.
Definition OwnerKind : string := "microfat-installer".
Definition ownerFile : string := "owner.json".
Definition generationFile : string := "generation.json".
Definition currentLink : string := "current".
Definition generationDir : string := "generations".
Definition lockFile : string := ".lock".
Definition metadataLimit : Z := 32 * 1024.
Definition MaxFileBytes : Z := 250 * 1024 * 1024.
Definition directoryMode : Z := 493.
Definition privateMode : Z := 448.
Definition metadataMode : Z := 384.
Definition publicMetadataMode : Z := 420.

Definition lower_hex (c : ascii) : bool :=
  let n := nat_of_ascii c in ((48 <=? n) && (n <=? 57) || (97 <=? n) && (n <=? 102))%nat.

Definition digestPattern (s : string) : bool := (String.length s =? 64)%nat && sforallb lower_hex s.
Definition idPattern (s : string) : bool := (String.length s =? 32)%nat && sforallb lower_hex s.

(** [0] or a decimal numeral without leading zeros. *)
Definition version_number (s : string) : bool :=
  match s with
  | EmptyString => false
  | String c rest => sforallb is_digit s && (negb (Ascii.eqb c "0") || String.eqb rest "")
  end.

Definition versionPattern (s : string) : bool :=
  match Split s "." with
  | [a; b; c] => version_number a && version_number b && version_number c
  | _ => false
  end.

Definition Products : list string := ["microfat"; "microfat-stub"; "microfat-stub-minimal"]%string.

Record Paths := mkPaths { Bin : string; Store : string }.

Definition startsParent (path : string) : bool :=
  (3 <? String.length path)%nat && HasPrefix path "../".

Definition within (parent child : string) : bool :=
  match filepath_Rel parent child with
  | Some rel => String.eqb rel "." ||
      (negb (String.eqb rel "..") && negb (filepath_IsAbs rel) && negb (startsParent rel))
  | None => false
  end.

Definition good_root (name : string) : bool :=
  filepath_IsAbs name && String.eqb (filepath_Clean name) name && negb (String.eqb name "/").

Definition Paths_Validate (p : Paths) : outcome gerror unit :=
  if negb (good_root (Bin p) && good_root (Store p))
  then Err (errors_New "installation roots must be clean absolute non-root paths")
  else if within (Bin p) (Store p) || within (Store p) (Bin p)
  then Err (errors_New "installation store and bin directories must not overlap")
  else Ok tt.

Record Owner := mkOwner {
  o_Schema : Z;
  o_Kind : string;
  o_ID : string;
  o_UID : Z;
  o_Bin : string;
  o_Store : string
}.

Record File := mkFile { f_Size : Z; f_SHA256 : string }.

Record Generation := mkGeneration {
  g_Schema : Z;
  g_ID : string;
  g_Version : string;
  g_Arch : string;
  g_ArchiveSHA256 : string;
  g_Files : gmap string File
}.

Global Instance Paths_eq_dec : EqDecision Paths.
Proof. solve_decision. Defined.
Global Instance Owner_eq_dec : EqDecision Owner.
Proof. solve_decision. Defined.
Global Instance File_eq_dec : EqDecision File.
Proof. solve_decision. Defined.
Global Instance Generation_eq_dec : EqDecision Generation.
Proof. solve_decision. Defined.

(** Indexing a Go map: the zero value for a missing key. *)
Definition file_of (files : gmap string File) (name : string) : File :=
  default (mkFile 0 "") (files !! name).

Definition file_ok (f : File) : bool :=
  negb ((f_Size f <=? 0) || (f_Size f >? MaxFileBytes) || negb (digestPattern (f_SHA256 f))).

Definition Generation_Validate (g : Generation) : outcome gerror unit :=
  if negb (g_Schema g =? SchemaVersion) || negb (idPattern (g_ID g)) || negb (versionPattern (g_Version g)) ||
     (negb (String.eqb (g_Arch g) "amd64") && negb (String.eqb (g_Arch g) "arm64")) ||
     negb (digestPattern (g_ArchiveSHA256 g))
  then Err (errors_New "invalid generation identity or schema")
  else if negb (size (g_Files g) =? length Products)%nat
  then Err (errors_New "generation must contain exactly the three products")
  else if negb (forallb (fun name => file_ok (file_of (g_Files g) name)) Products)
  then Err (errors_New "invalid generation file metadata")
  else Ok tt.

(** [encoding/json/v2] on the two kinds of metadata; [None] is an error. *)
Class Json := {
  marshal_owner : Owner -> option (list byte);
  unmarshal_owner : list byte -> option Owner;
  marshal_generation : Generation -> option (list byte);
  unmarshal_generation : list byte -> option Generation
}.

Record Snapshot := mkSnap {
  sn_paths : Paths;
  sn_owner : option Owner;
  sn_binInfo : option FileInfo;
  sn_storeInfo : option FileInfo;
  sn_currentTarget : string;
  sn_current : option Generation;
  sn_currentError : option gerror;
  sn_updateOnly : bool;
  sn_updateFiles : list (string * FileInfo)
}.

Record Result := mkResult {
  r_Generation : Generation;
  r_Activated : bool;
  r_Reused : bool
}.

(** [operation], without the hook of the tests. *)
Record operation := mkOp {
  op_store : Z;
  op_bin : Z;
  op_lock : Z;
  op_paths : Paths;
  op_storeInfo : FileInfo;
  op_binInfo : FileInfo
}.

Definition sameRelease (a b : Generation) : bool :=
  String.eqb (g_Version a) (g_Version b) && String.eqb (g_Arch a) (g_Arch b) &&
  String.eqb (g_ArchiveSHA256 a) (g_ArchiveSHA256 b) && bool_decide (g_Files a = g_Files b).

Definition IsGenerationPath (name : string) : bool :=
  let dir := filepath_Dir name in
  String.eqb (filepath_Base (filepath_Dir dir)) generationDir && idPattern (filepath_Base dir).

(** An error or nothing: [if err != nil { return err }] on a pure result. *)
Definition ensure (ok : bool) (e : gerror) : outcome gerror unit := if ok then Ok tt else Err e.

Section install.
Context `{Kernel} `{Json}.

(** ** Ownership checks ([platform_linux.go], [discovery.go]) *)

Definition validateInfo (info : FileInfo) (directory exactUID : bool) : outcome gerror unit :=
  let uid := a_uid (fi_attr info) in
  let writable := has_bits (Perm (Mode info)) 18 || has_bits (Mode info) (Z.lor ModeSetuid ModeSetgid) in
  if (exactUID && negb (uid =? k_euid)) || (negb exactUID && negb (uid =? 0) && negb (uid =? k_euid))
  then Err ErrOwnership
  else if directory then
    if negb (IsDir info) then Err ErrOwnership
    else if negb exactUID && (uid =? 0) && has_bits (Mode info) ModeSticky then Ok tt
    else if writable then Err ErrOwnership else Ok tt
  else if negb (IsRegular (Mode info)) || negb (fi_nlink info =? 1) then Err ErrOwnership
  else if writable then Err ErrOwnership else Ok tt.

Definition validateReadInfo (info : FileInfo) (directory : bool) (uid : Z) : outcome gerror unit :=
  _ ← validateInfo info directory false;
  if negb (a_uid (fi_attr info) =? uid) || has_bits (Perm (Mode info)) 18 then Err ErrOwnership else Ok tt.

(** ** Files ([files.go]) *)

Definition NewID : io string := r ← random; mret (EncodeToString (le_bytes 16 r)).

(** From a directory up to the root. *)
Fixpoint validate_up (fuel : nat) (name : string) (allowMissing : bool) : io unit :=
  match fuel with
  | O => fail [Errno EIO]
  | S fuel' =>
      r ← try (os_Lstat name);
      _ ← match r with
          | inr e => if negb allowMissing || negb (is_not_exist e) then fail e else mret tt
          | inl info => lift (validateInfo info true false)
          end;
      let parent := filepath_Dir name in
      if String.eqb parent name then mret tt else validate_up fuel' parent allowMissing
  end.

Definition validateAncestors (name : string) (allowMissing : bool) : io unit :=
  validate_up (S (String.length name)) name allowMissing.

Definition ValidateStagingParent (name : string) : io unit :=
  if negb (filepath_IsAbs name) || negb (String.eqb (filepath_Clean name) name)
  then fail (errors_New "staging parent must be a clean absolute directory")
  else validateAncestors name false.

Definition ValidateVerifierExecutable (name : string) : io unit :=
  if negb (filepath_IsAbs name) || negb (String.eqb (filepath_Clean name) name)
  then fail (errors_New "verifier must have a clean absolute executable path")
  else
    _ ← validateAncestors (filepath_Dir name) false;
    info ← os_Lstat name;
    _ ← lift (validateInfo info false false);
    lift (ensure (has_bits (Perm (Mode info)) 73) (errors_New "pinned verifier is not executable")).

Definition rootInfo (name : string) : io (option FileInfo) :=
  r ← try (os_Lstat name);
  match r with
  | inr e => if is_not_exist e then mret None else fail e
  | inl info => _ ← lift (validateInfo info true true); mret (Some info)
  end.

(** Reading through a [LimitReader], piece by piece, each piece given to
    [sink]; the bytes read. *)
Fixpoint stream (fuel : nat) (chunk : nat) (sink : list byte -> io unit) (fd : Z) (off remaining : nat)
    (acc : list byte) : io (list byte) :=
  match remaining with
  | O => mret acc
  | S _ =>
      match fuel with
      | O => fail [Errno EIO]
      | S fuel' =>
          piece ← sys_pread fd (Nat.min chunk remaining) (Z.of_nat off);
          match piece with
          | [] => mret acc
          | _ =>
              _ ← sink piece;
              stream fuel' chunk sink fd (off + length piece) (remaining - length piece) (acc ++ piece)
          end
      end
  end.

Definition read_chunk : nat := Z.to_nat 512.
Definition copy_chunk : nat := Z.to_nat 32768.

(** Each piece but the last is full. *)
Definition stream_fuel (chunk limit : nat) : nat := S (S (limit / chunk)).

Definition read_limited (chunk : nat) (fd limit : Z) : io (list byte) :=
  stream (stream_fuel chunk (Z.to_nat limit)) chunk (fun _ => mret tt) fd 0 (Z.to_nat limit) [].

(** Opens, checks and reads the metadata file [name] of the root [root]. *)
Definition readJSONForUID {A} (unmarshal : list byte -> option A) (root : Z) (name : string) (uid : Z) : io A :=
  file ← sys_open (root_base root) true name;
  deferring (ignore (sys_close file))
    (info ← sys_fstat file;
     _ ← lift (validateReadInfo info false uid);
     if fi_size info >? metadataLimit then fail (errors_New "installation metadata exceeds size limit")
     else
       data ← read_limited read_chunk file (metadataLimit + 1);
       if Z.of_nat (length data) >? metadataLimit then fail (errors_New "installation metadata exceeds size limit")
       else match unmarshal data with
            | Some a => mret a
            | None => fail (errors_New "json")
            end).

Definition writeJSON {A} (marshal : A -> option (list byte)) (root : Z) (name : string) (value : A) : io unit :=
  match marshal value with
  | None => fail (errors_New "json")
  | Some data =>
      file ← sys_create_excl (root_base root) name publicMetadataMode;
      join_all [sys_write file (fun old => old ++ data); File_Chmod file publicMetadataMode;
                sys_fsync file; sys_close file] []
  end.

Definition publishableDirectory (root : Z) (name : string) : io unit :=
  file ← sys_open (root_base root) false name;
  join_all [File_Chmod file directoryMode; sys_fsync file; sys_close file] [].

Definition syncDir (root : Z) (name : string) : io unit :=
  file ← sys_open (root_base root) false name;
  join_all [sys_fsync file; sys_close file] [].

Definition owner_fits (owner : Owner) (uid : Z) : bool :=
  (o_Schema owner =? SchemaVersion) && String.eqb (o_Kind owner) OwnerKind && idPattern (o_ID owner) &&
  (o_UID owner =? uid).

Definition readOwner (root : Z) (paths : Paths) : io Owner :=
  owner ← readJSONForUID unmarshal_owner root ownerFile k_euid;
  if negb (owner_fits owner k_euid && String.eqb (o_Bin owner) (Bin paths) && String.eqb (o_Store owner) (Store paths))
  then fail ErrOwnership else mret owner.

Definition readGenerationForUID (root : Z) (id : string) (uid : Z) : io Generation :=
  if negb (idPattern id) then fail ErrOwnership
  else
    let name := filepath_Join [generationDir; id] in
    info ← sys_stat (root_base root) false name;
    _ ← lift (validateReadInfo info true uid);
    generation ← readJSONForUID unmarshal_generation root (filepath_Join [name; generationFile]) uid;
    _ ← lift (Generation_Validate generation);
    if negb (String.eqb (g_ID generation) id) then fail ErrOwnership else mret generation.

Definition readGeneration (root : Z) (id : string) : io Generation := readGenerationForUID root id k_euid.

Definition activeGeneration (root : Z) : io Generation :=
  _ ← sys_stat (root_base root) false currentLink;
  target ← wrapping (app ErrCorrupt) (sys_readlink (root_base root) currentLink);
  let id := TrimPrefix target "generations/" in
  if negb (String.eqb target (filepath_Join [generationDir; id])) then fail ErrOwnership
  else wrapping (fun _ => ErrCorrupt) (readGeneration root id).

Definition verifyFileForUID (root : Z) (name : string) (expected : File) (uid : Z) : io unit :=
  file ← sys_open (root_base root) true name;
  deferring (ignore (sys_close file))
    (info ← sys_fstat file;
     _ ← lift (validateReadInfo info false uid);
     if negb (fi_size info =? f_Size expected) || negb (Perm (Mode info) =? directoryMode) then fail ErrCorrupt
     else
       data ← read_limited copy_chunk file (f_Size expected + 1);
       lift (ensure ((Z.of_nat (length data) =? f_Size expected) &&
                    String.eqb (EncodeToString (Sum256 data)) (f_SHA256 expected)) ErrCorrupt)).

Definition verify_products (root : Z) (generation : Generation) (uid : Z) (wrap : gerror -> gerror) : io unit :=
  each (fun name => wrapping wrap (verifyFileForUID root
    (filepath_Join [generationDir; g_ID generation; name]) (file_of (g_Files generation) name) uid)) Products.

Definition verifyGeneration (root : Z) (generation : Generation) : io unit :=
  verify_products root generation k_euid (app ErrCorrupt).

(** ** Directories ([directories.go]) *)

Definition mkdirFunc : Type := Z -> string -> Z -> io unit.

Definition Root_Mkdir : mkdirFunc := fun root name mode => sys_mkdir (root_base root) name mode.

(** [root.Stat(".")] *)
Definition stat_self (root : Z) : io FileInfo := sys_stat (root_base root) true ".".

(** Closes a root and returns both errors. *)
Definition close_join {A} (root : Z) (e : gerror) : io A :=
  r ← try (sys_close root);
  fail (e ++ match r with inl _ => [] | inr e1 => e1 end).

(** An open root, closed again when what follows fails. *)
Definition or_close {A} (root : Z) (m : io A) : io A :=
  r ← try m;
  match r with
  | inl a => mret a
  | inr e => close_join root e
  end.

Definition openInstallDirectory (parent : Z) (name : string) (mkdir : mkdirFunc) : io Z :=
  st ← try (sys_stat (root_base parent) false name);
  '(info, created) ←
    match st with
    | inl info => mret (info, false)
    | inr e =>
        if negb (is_not_exist e) then fail e
        else
          r ← try (mkdir parent name directoryMode);
          match r with
          | inl _ => info ← sys_stat (root_base parent) false name; mret (info, true)
          | inr e1 => if negb (is_exist e1) then fail e1
                      else info ← sys_stat (root_base parent) false name; mret (info, false)
          end
    end;
  _ ← lift (validateInfo info true created);
  root ← sys_opendir (root_base parent) name;
  or_close root
    (opened ← stat_self root;
     if negb (SameFile info opened) then fail ErrChanged
     else if (created : bool) then
       _ ← publishableDirectory root ".";
       _ ← syncDir parent ".";
       mret root
     else mret root).

Fixpoint open_components (root : Z) (components : list string) (mkdir : mkdirFunc) : io Z :=
  match components with
  | [] => mret root
  | c :: rest =>
      r ← try (openInstallDirectory root c mkdir);
      _ ← ignore (sys_close root);
      match r with
      | inr e => fail e
      | inl next => open_components next rest mkdir
      end
  end.

Definition openInstallRoot (name : string) (mkdir : mkdirFunc) : io (Z * FileInfo) :=
  root ← sys_opendir cwd_base "/";
  _ ← or_close root (info ← stat_self root; lift (validateInfo info true false));
  root ← open_components root (Split (TrimPrefix name "/") slash) mkdir;
  info ← or_close root (info ← stat_self root; _ ← lift (validateInfo info true true); mret info);
  mret (root, info).

(** ** The lock ([platform_linux.go])

    A cancelled context is a failure the environment decides. *)

Definition ctx_Err : io unit := wrapping (fun _ => ErrCanceled) (inspect (fun _ => Ok tt)).

(** [lockTimeout] over [lockPoll] attempts. *)
Definition lockPolls : nat := Z.to_nat 500.

Fixpoint lock_loop (polls : nat) (file : Z) : io unit :=
  match polls with
  | O => fail ErrCanceled
  | S polls' =>
      _ ← ctx_Err;
      r ← try (sys_flock_nb file);
      match r with
      | inl _ => mret tt
      | inr e => if errors_Is e (Errno EWOULDBLOCK) || errors_Is e (Errno EINTR)
                 then lock_loop polls' file else fail e
      end
  end.

Definition lock (root : Z) : io Z :=
  file ← sys_open_create (root_base root) lockFile metadataMode;
  _ ← or_close file (info ← sys_fstat file; lift (validateInfo info false true));
  _ ← or_close file (lock_loop lockPolls file);
  mret file.

(** Closing the lock file gives the lock back. *)
Definition close_lock (file : Z) : io unit := ignore (sys_funlock file).

(** ** Inspection ([transaction.go]) *)

Definition selectedTarget (root : Z) : io string :=
  r ← try (sys_readlink (root_base root) currentLink);
  match r with
  | inl target => mret target
  | inr e => if is_not_exist e then mret ""%string else fail e
  end.

Definition validateUnclaimed (root : Z) : io unit :=
  file ← sys_open (root_base root) false ".";
  deferring (ignore (sys_close file))
    (names ← sys_readdir file;
     each (fun name =>
       if negb (String.eqb name lockFile) && negb (HasPrefix name ".owner-") then fail ErrOwnership
       else
         info ← sys_stat (root_base root) false name;
         lift (validateInfo info false true)) names).

Definition Inspect (paths : Paths) : io Snapshot :=
  _ ← lift (Paths_Validate paths);
  _ ← validateAncestors (Store paths) true;
  _ ← validateAncestors (Bin paths) true;
  binInfo ← rootInfo (Bin paths);
  storeInfo ← rootInfo (Store paths);
  match storeInfo with
  | None => mret (mkSnap paths None binInfo None "" None None false [])
  | Some _ =>
      root ← sys_opendir cwd_base (Store paths);
      deferring (ignore (sys_close root))
        (o ← try (readOwner root paths);
         match o with
         | inr e =>
             if negb (is_not_exist e) then fail e
             else _ ← validateUnclaimed root;
                  mret (mkSnap paths None binInfo storeInfo "" None None false [])
         | inl owner =>
             target ← selectedTarget root;
             if String.eqb target "" then
               mret (mkSnap paths (Some owner) binInfo storeInfo "" None None false [])
             else
               g ← try (activeGeneration root);
               mret match g with
                    | inl generation =>
                        mkSnap paths (Some owner) binInfo storeInfo target (Some generation) None false []
                    | inr e => mkSnap paths (Some owner) binInfo storeInfo target None (Some e) false []
                    end
         end)
  end.

(** ** Checks of an operation *)

Definition op_close (op : operation) : io unit :=
  _ ← ignore (sys_close (op_bin op));
  _ ← close_lock (op_lock op);
  ignore (sys_close (op_store op)).

Definition check_root (root : Z) (path : string) (info : FileInfo) : io unit :=
  _ ← validateAncestors path false;
  current ← rootInfo path;
  opened ← stat_self root;
  match current with
  | Some c => lift (ensure (SameFile c info && SameFile opened info) ErrChanged)
  | None => fail ErrChanged
  end.

Definition checkRoots (op : operation) : io unit :=
  _ ← check_root (op_store op) (Store (op_paths op)) (op_storeInfo op);
  check_root (op_bin op) (Bin (op_paths op)) (op_binInfo op).

Definition checkOwner (op : operation) (expected : option Owner) : io unit :=
  actual ← try (readOwner (op_store op) (op_paths op));
  match expected, actual with
  | Some _, inr e => fail (ErrChanged ++ e)
  | Some o, inl a => lift (ensure (bool_decide (o = a)) ErrChanged)
  | None, inl _ => fail ErrChanged
  | None, inr e => if negb (is_not_exist e) then fail e else validateUnclaimed (op_store op)
  end.

Definition linkTarget (paths : Paths) (name : string) : string :=
  filepath_Join [Store paths; currentLink; name].

Definition checkEntrypoints (op : operation) (owned : bool) : io unit :=
  each (fun name =>
    r ← try (sys_stat (root_base (op_bin op)) false name);
    match r with
    | inr e => if is_not_exist e then mret tt else fail e
    | inl info =>
        if negb owned || negb (has_bits (Mode info) ModeSymlink) then fail ErrConflict
        else
          target ← sys_readlink (root_base (op_bin op)) name;
          lift (ensure (String.eqb target (linkTarget (op_paths op) name)) ErrConflict)
    end) Products.

Definition checkExistingLinks (paths : Paths) (uid : Z) : io unit :=
  _ ← validateAncestors (Bin paths) false;
  root ← sys_opendir cwd_base (Bin paths);
  deferring (ignore (sys_close root))
    (info ← stat_self root;
     _ ← lift (validateReadInfo info true uid);
     each (fun name =>
       r ← try (sys_readlink (root_base root) name);
       match r with
       | inl target => lift (ensure (String.eqb target (linkTarget paths name)) ErrConflict)
       | inr e => fail (ErrConflict ++ e)
       end) Products).

Definition checkUpdateSnapshot (op : operation) (snapshot : Snapshot) : io unit :=
  match sn_owner snapshot, sn_current snapshot with
  | Some owner, Some current0 =>
      _ ← checkRoots op;
      _ ← checkOwner op (Some owner);
      current ← wrapping (app ErrChanged) (activeGeneration (op_store op));
      if negb (String.eqb (g_ID current) (g_ID current0)) || negb (sameRelease current current0)
      then fail ErrChanged
      else
        _ ← verifyGeneration (op_store op) current;
        _ ← each (fun nf =>
              actual ← wrapping (app ErrChanged) (sys_stat (root_base (op_store op)) false nf.1);
              lift (ensure (SameFile nf.2 actual) ErrChanged)) (sn_updateFiles snapshot);
        checkExistingLinks (sn_paths snapshot) (o_UID owner)
  | _, _ => fail ErrOwnership
  end.

Definition moved (before : option FileInfo) (now : FileInfo) : bool :=
  match before with Some b => negb (SameFile b now) | None => false end.

Definition openOperation (snapshot : Snapshot) : io operation :=
  let paths := sn_paths snapshot in
  _ ← ctx_Err;
  _ ← lift (Paths_Validate paths);
  let mkdir := if sn_updateOnly snapshot then (fun _ _ _ => fail ErrChanged) else Root_Mkdir in
  '(store, storeInfo) ← openInstallRoot (Store paths) mkdir;
  b ← try (openInstallRoot (Bin paths) mkdir);
  match b with
  | inr e => _ ← ignore (sys_close store); fail e
  | inl (bin, binInfo) =>
      let close_roots : io unit := _ ← ignore (sys_close bin); ignore (sys_close store) in
      if moved (sn_storeInfo snapshot) storeInfo || moved (sn_binInfo snapshot) binInfo
      then _ ← close_roots; fail ErrChanged
      else
        l ← try (lock store);
        match l with
        | inr e => _ ← close_roots; fail e
        | inl file =>
            let op := mkOp store bin file paths storeInfo binInfo in
            c ← try
              (_ ← checkRoots op;
               _ ← checkOwner op (sn_owner snapshot);
               target ← selectedTarget store;
               _ ← lift (ensure (String.eqb target (sn_currentTarget snapshot)) ErrChanged);
               if sn_updateOnly snapshot then checkUpdateSnapshot op snapshot else mret tt);
            match c with
            | inl _ => mret op
            | inr e => _ ← op_close op; fail e
            end
        end
  end.

(** ** Applying a generation *)

Definition initializeOwner (op : operation) : io unit :=
  id ← NewID;
  suffix ← NewID;
  let owner := mkOwner SchemaVersion OwnerKind id k_euid (Bin (op_paths op)) (Store (op_paths op)) in
  let temporary := (".owner-" ++ suffix)%string in
  _ ← writeJSON marshal_owner (op_store op) temporary owner;
  _ ← sys_rename false (root_base (op_store op)) temporary (root_base (op_store op)) ownerFile;
  syncDir (op_store op) ".".

Definition publishEntrypoints (op : operation) : io unit :=
  each (fun name =>
    r ← try (sys_symlink (root_base (op_bin op)) (linkTarget (op_paths op) name) name);
    _ ← match r with
        | inl _ => mret tt
        | inr e => if is_exist e then checkEntrypoints op true else fail e
        end;
    syncDir (op_bin op) ".") Products.

Definition completeEntrypoints (op : operation) (snapshot : Snapshot) : io unit :=
  if negb (sn_updateOnly snapshot) then publishEntrypoints op
  else
    _ ← checkRoots op;
    match sn_owner snapshot with
    | Some owner => checkExistingLinks (sn_paths snapshot) (o_UID owner)
    | None => fail ErrOwnership
    end.

Definition reusableGeneration (op : operation) (requested : Generation) (repair : bool) :
    io (option Generation) :=
  r ← try (activeGeneration (op_store op));
  match r with
  | inr e => if is_not_exist e || (repair && errors_Is e (Sentinel "install.ErrCorrupt"))
             then mret None else fail e
  | inl current =>
      v ← try (verifyGeneration (op_store op) current);
      match v with
      | inr e => if repair then mret None else fail e
      | inl _ => mret (if sameRelease current requested then Some current else None)
      end
  end.

Definition interrupted_id (prefix name : string) : bool :=
  HasPrefix name prefix && idPattern (TrimPrefix name prefix).

Definition removeInterruptedActivation (op : operation) (name : string) : io unit :=
  info ← sys_stat (root_base (op_store op)) false name;
  if negb (has_bits (Mode info) ModeSymlink) || negb (a_uid (fi_attr info) =? k_euid) then fail ErrOwnership
  else
    target ← sys_readlink (root_base (op_store op)) name;
    let id := TrimPrefix target "generations/" in
    if negb (idPattern id) || negb (String.eqb target (filepath_Join [generationDir; id])) then fail ErrOwnership
    else remove_at (root_base (op_store op)) name.

(** What an interrupted operation left under one name. *)
Definition clean_entry (op : operation) (name : string) : io unit :=
  if interrupted_id ".current-" name then removeInterruptedActivation op name
  else
    let '(prefix, directory) :=
      if HasPrefix name ".owner-" then (".owner-"%string, false) else (".stage-"%string, true) in
    if negb (interrupted_id prefix name) then mret tt
    else
      info ← sys_stat (root_base (op_store op)) false name;
      _ ← lift (validateInfo info directory true);
      root_RemoveAll (op_store op) name.

Definition maxEntries : nat := Z.to_nat 1024.

Definition cleanupStaging (op : operation) : io unit :=
  file ← sys_open (root_base (op_store op)) false ".";
  deferring (ignore (sys_close file))
    (names ← sys_readdir file;
     if (maxEntries <? length names)%nat then fail (errors_New "installation root has too many entries")
     else each (clean_entry op) names).

(** The copy itself: what reaches the file reaches the hash. *)
Definition copy_bytes (input output : Z) (expected : File) : io unit :=
  let limit := Z.to_nat (f_Size expected + 1) in
  data ← stream (stream_fuel copy_chunk limit) copy_chunk
           (fun piece => sys_write output (fun old => old ++ piece)) input 0 limit [];
  if negb (Z.of_nat (length data) =? f_Size expected) ||
     negb (String.eqb (EncodeToString (Sum256 data)) (f_SHA256 expected)) then fail ErrCorrupt
  else File_Chmod output directoryMode.

Definition copyProduct (source destination : Z) (name target : string) (expected : File) : io unit :=
  input ← sys_open (root_base source) true name;
  deferring (ignore (sys_close input))
    (info ← sys_fstat input;
     _ ← lift (validateInfo info false true);
     if negb (fi_size info =? f_Size expected) then fail ErrCorrupt
     else
       output ← sys_create_excl (root_base destination) target metadataMode;
       join_all [copy_bytes input output expected; sys_fsync output; sys_close output] []).

(** Everything under the temporary name: the products, the metadata, the mode. *)
Definition fill_stage (store : Z) (temporary source : string) (generation : Generation) : io unit :=
  input ← sys_opendir cwd_base source;
  deferring (ignore (sys_close input))
    (_ ← each (fun name => copyProduct input store name (filepath_Join [temporary; name])
           (file_of (g_Files generation) name)) Products;
     _ ← writeJSON marshal_generation store (filepath_Join [temporary; generationFile]) generation;
     _ ← publishableDirectory store temporary;
     let target := filepath_Join [generationDir; g_ID generation] in
     r ← try (sys_stat (root_base store) false target);
     match r with
     | inr e =>
         if is_not_exist e then
           _ ← sys_rename false (root_base store) temporary (root_base store) target;
           syncDir store generationDir
         else fail (errors_New "generation ID already exists")
     | inl _ => fail (errors_New "generation ID already exists")
     end).

Definition stage (op : operation) (source : string) (generation : Generation) : io unit :=
  parent ← openInstallDirectory (op_store op) generationDir Root_Mkdir;
  _ ← ignore (sys_close parent);
  info ← sys_stat (root_base (op_store op)) false generationDir;
  _ ← lift (validateInfo info true true);
  suffix ← NewID;
  let temporary := (".stage-" ++ suffix)%string in
  _ ← sys_mkdir (root_base (op_store op)) temporary privateMode;
  deferring (ignore (root_RemoveAll (op_store op) temporary))
    (fill_stage (op_store op) temporary source generation).

(** Up to the activation: a generation to reuse, or a staged one. *)
Definition prepare (op : operation) (snapshot : Snapshot) (generation : Generation) (source : string)
    (repair : bool) : io (option Generation) :=
  _ ← checkEntrypoints op (match sn_owner snapshot with Some _ => true | None => false end);
  _ ← match sn_owner snapshot with Some _ => mret tt | None => initializeOwner op end;
  _ ← cleanupStaging op;
  current ← reusableGeneration op generation repair;
  match current with
  | Some c => mret (Some c)
  | None =>
      _ ← stage op source generation;
      _ ← ctx_Err;
      _ ← checkRoots op;
      _ ← checkEntrypoints op true;
      _ ← (if sn_updateOnly snapshot then checkUpdateSnapshot op snapshot else mret tt);
      mret None
  end.

(** The error of a step, if any. *)
Definition attempt (m : io unit) : io (option gerror) :=
  r ← try m;
  mret match r with inl _ => None | inr e => Some e end.

(** The temporary link, its rename to [current], and what follows. *)
Definition activate (op : operation) (snapshot : Snapshot) (generation : Generation) :
    io (bool * option gerror) :=
  let store := root_base (op_store op) in
  suffix ← NewID;
  let temporary := (".current-" ++ suffix)%string in
  l ← attempt (sys_symlink store (filepath_Join [generationDir; g_ID generation]) temporary);
  match l with
  | Some e => mret (false, Some e)
  | None =>
      deferring (ignore (remove_at store temporary))
        (r ← attempt (_ ← ctx_Err; sys_rename false store temporary store currentLink);
         match r with
         | Some e => mret (false, Some e)
         | None =>
             e ← attempt (_ ← syncDir (op_store op) "."; completeEntrypoints op snapshot);
             mret (true, e)
         end)
  end.

(** The result and the error: an error after the activation does not undo it. *)
Definition Apply (snapshot : Snapshot) (generation : Generation) (source : string) (repair : bool) :
    io (Result * option gerror) :=
  match Generation_Validate generation with
  | Err e => mret (mkResult generation false false, Some e)
  | Panic => mret (mkResult generation false false, Some [])
  | Ok _ =>
      o ← try (openOperation snapshot);
      match o with
      | inr e => mret (mkResult generation false false, Some e)
      | inl op =>
          deferring (op_close op)
            (p ← try (prepare op snapshot generation source repair);
             match p with
             | inr e => mret (mkResult generation false false, Some e)
             | inl (Some current) =>
                 e ← attempt (completeEntrypoints op snapshot);
                 mret (mkResult current false true, e)
             | inl None =>
                 '(activated, e) ← activate op snapshot generation;
                 mret (mkResult generation activated false, e)
             end)
      end
  end.

(** ** Removal ([uninstall.go]) *)

(** What was removed, what was preserved, and the errors. *)
Fixpoint remove_links (op : operation) (names removed preserved : list string) (failures : gerror) :
    io (list string * list string * gerror) :=
  match names with
  | [] => mret (removed, preserved, failures)
  | name :: rest =>
      t ← try (sys_readlink (root_base (op_bin op)) name);
      match t with
      | inr e =>
          if is_not_exist e then remove_links op rest removed preserved failures
          else remove_links op rest removed (preserved ++ [name]) (failures ++ ErrConflict)
      | inl target =>
          if negb (String.eqb target (linkTarget (op_paths op) name))
          then remove_links op rest removed (preserved ++ [name]) (failures ++ ErrConflict)
          else
            r ← attempt (remove_at (root_base (op_bin op)) name);
            match r with
            | Some e => remove_links op rest removed preserved (failures ++ e)
            | None => remove_links op rest (removed ++ [name]) preserved failures
            end
      end
  end.

Definition Uninstall (snapshot : Snapshot) : io (list string * list string * gerror) :=
  match sn_owner snapshot with
  | None => fail ErrOwnership
  | Some _ =>
      op ← openOperation snapshot;
      deferring (op_close op)
        ('(removed, preserved, failures) ← remove_links op Products [] [] [];
         s ← attempt (syncDir (op_bin op) ".");
         mret (removed, preserved, failures ++ match s with Some e => e | None => [] end))
  end.

(** ** Discovery and updates ([discovery.go], [update.go]) *)

Record Installation := mkInstallation {
  i_Owner : Owner;
  i_Running : Generation;
  i_Current : Generation
}.

Definition inspectDiscoveryGeneration {A} (physical : string) (inspection : Z -> Owner -> Generation -> io A) : io A :=
  let dir := filepath_Dir physical in
  let store := filepath_Dir (filepath_Dir dir) in
  _ ← validateAncestors dir false;
  root ← sys_opendir cwd_base store;
  deferring (ignore (sys_close root))
    (info ← stat_self root;
     let uid := a_uid (fi_attr info) in
     _ ← each (fun name =>
           info ← sys_stat (root_base root) false name;
           lift (validateReadInfo info true uid)) ["."%string; generationDir];
     owner ← readJSONForUID unmarshal_owner root ownerFile uid;
     if negb (owner_fits owner uid && String.eqb (o_Store owner) store) then fail ErrOwnership
     else
       _ ← lift (Paths_Validate (mkPaths (o_Bin owner) store));
       generation ← readGenerationForUID root (filepath_Base dir) uid;
       _ ← verify_products root generation uid (fun e => e);
       inspection root owner generation).

Definition generation_cli (physical : string) : bool :=
  filepath_IsAbs physical && String.eqb (filepath_Clean physical) physical && IsGenerationPath physical &&
  String.eqb (filepath_Base physical) "microfat".

Definition ValidateDiscovery (original physical : string) : io (bool * option gerror) :=
  managed ← (if IsGenerationPath original || IsGenerationPath physical then mret true
             else
               r ← try (os_Lstat (filepath_Join [filepath_Dir physical; generationFile]));
               mret match r with inl _ => true | inr e => negb (is_not_exist e) end);
  if negb (managed : bool) then mret (false, None)
  else if negb (String.eqb original physical) || negb (generation_cli physical)
  then mret (true, Some ErrDiscovery)
  else
    r ← attempt (wrapping (app ErrDiscovery) (inspectDiscoveryGeneration physical (fun _ _ _ => mret tt)));
    mret (true, r).

Definition ReadInstallation (physical : string) : io Installation :=
  if negb (generation_cli physical) then fail ErrOwnership
  else inspectDiscoveryGeneration physical (fun root owner running =>
    target ← wrapping (app ErrChanged) (selectedTarget root);
    if String.eqb target "" then fail ErrChanged
    else
      let id := filepath_Base target in
      if negb (String.eqb target (filepath_Join [generationDir; id])) then fail ErrOwnership
      else
        current ← readGenerationForUID root id (o_UID owner);
        _ ← each (fun name => wrapping (app ErrCorrupt) (verifyFileForUID root
              (filepath_Join [generationDir; id; name]) (file_of (g_Files current) name) (o_UID owner))) Products;
        _ ← checkExistingLinks (mkPaths (o_Bin owner) (o_Store owner)) (o_UID owner);
        after ← wrapping (app ErrChanged) (selectedTarget root);
        if negb (String.eqb after target) then fail ErrChanged
        else mret (mkInstallation owner running current)).

Definition updateFileIdentities (paths : Paths) (current : Generation) : io (list (string * FileInfo)) :=
  root ← sys_opendir cwd_base (Store paths);
  let generation := filepath_Join [generationDir; g_ID current] in
  deferring (ignore (sys_close root))
    ((fix go (names : list string) : io (list (string * FileInfo)) :=
        match names with
        | [] => mret []
        | name :: rest =>
            info ← sys_stat (root_base root) false name;
            files ← go rest;
            mret ((name, info) :: files)
        end)
       ([ownerFile; generation; filepath_Join [generation; generationFile]] ++
        map (fun name => filepath_Join [generation; name]) Products)).

Definition InspectUpdate (physical : string) : io Snapshot :=
  observed ← ReadInstallation physical;
  if negb (String.eqb (g_ID (i_Running observed)) (g_ID (i_Current observed))) then fail ErrChanged
  else
    let owner := i_Owner observed in
    snapshot ← Inspect (mkPaths (o_Bin owner) (o_Store owner));
    match sn_owner snapshot, sn_current snapshot with
    | Some o, Some c =>
        if negb (bool_decide (o = owner)) || negb (String.eqb (g_ID c) (g_ID (i_Current observed))) ||
           negb (sameRelease c (i_Current observed))
        then fail ErrChanged
        else
          files ← updateFileIdentities (sn_paths snapshot) c;
          mret (mkSnap (sn_paths snapshot) (sn_owner snapshot) (sn_binInfo snapshot) (sn_storeInfo snapshot)
            (sn_currentTarget snapshot) (sn_current snapshot) (sn_currentError snapshot) true files)
    | _, _ => fail ErrChanged
    end.

End install.
