(* ===== verification/InstallOpen.v ===== *)
(** * What only looks at an installation, and opening one

    Inspection, discovery and every check before a change leave the file system
    as it is.

    The rules for code that only makes changes [kept] allows, and the opening
    phase of every operation: directories are made along the two paths, the
    lock file is made, and nothing that was there changes.

    First an encoding of the metadata, and a disk with a home directory and the
    products of a release to run on. *)

From S2P Require Import Prelude GoStrings GoPath Sha256 Vfs GoOS VfsLogic VfsEffects VfsStage VfsKept Lifecycle Install.
From stdpp Require Import base countable list strings gmap.
From Stdlib Require Import ZArith Lia Strings.Ascii Strings.Byte.
Import InstallErr.

Local Open Scope Z_scope.

(** ** An encoding of the metadata *)

Fixpoint pos_bytes (p : positive) : list byte :=
  match p with
  | xI p => byte_of 1 :: pos_bytes p
  | xO p => byte_of 0 :: pos_bytes p
  | xH => []
  end.

Fixpoint bytes_pos (l : list byte) : positive :=
  match l with
  | [] => xH
  | b :: l => if byte_val b =? 1 then xI (bytes_pos l) else xO (bytes_pos l)
  end.

Lemma bytes_pos_bytes p : bytes_pos (pos_bytes p) = p.
Proof. induction p; cbn [pos_bytes bytes_pos]; rewrite ?IHp; reflexivity. Qed.

Definition fields : Type := list string * list Z.

Definition put_fields (f : fields) : list byte := pos_bytes (encode f).
Definition get_fields (l : list byte) : option fields := decode (bytes_pos l).

Lemma get_put_fields f : get_fields (put_fields f) = Some f.
Proof. unfold get_fields, put_fields. by rewrite bytes_pos_bytes, decode_encode. Qed.

Definition owner_fields (o : Owner) : fields := ([o_Kind o; o_ID o; o_Bin o; o_Store o], [o_Schema o; o_UID o]).

Definition owner_of_fields (f : fields) : option Owner :=
  match f with
  | ([kind; id; bin; store], [schema; uid]) => Some (mkOwner schema kind id uid bin store)
  | _ => None
  end.

Definition files_of (names shas : list string) (sizes : list Z) : gmap string File :=
  list_to_map (zip names (zip_with mkFile sizes shas)).

Definition generation_fields (g : Generation) : fields :=
  let files := map_to_list (g_Files g) in
  ([g_ID g; g_Version g; g_Arch g; g_ArchiveSHA256 g] ++ files.*1 ++ (f_SHA256 <$> files.*2),
   g_Schema g :: (f_Size <$> files.*2)).

Definition generation_of_fields (f : fields) : option Generation :=
  match f with
  | (id :: version :: arch :: sha :: rest, schema :: sizes) =>
      Some (mkGeneration schema id version arch sha
        (files_of (take (length sizes) rest) (drop (length sizes) rest) sizes))
  | _ => None
  end.

Lemma generation_fields_inv g : generation_of_fields (generation_fields g) = Some g.
Proof.
  destruct g as [schema id version arch sha files]. unfold generation_fields, generation_of_fields.
  cbn [app g_Schema g_ID g_Version g_Arch g_ArchiveSHA256 g_Files]. do 2 f_equal. unfold files_of.
  set (l := map_to_list files).
  rewrite take_app_length', drop_app_length' by by rewrite !length_fmap.
  rewrite <- (list_to_map_to_list files). f_equal. fold l.
  clearbody l. induction l as [|[n [size s]] l IH]; [done|]. simpl. by f_equal.
Qed.

Definition plain_json : Json := {|
  marshal_owner o := Some (put_fields (owner_fields o));
  unmarshal_owner l := get_fields l ≫= owner_of_fields;
  marshal_generation g := Some (put_fields (generation_fields g));
  unmarshal_generation l := get_fields l ≫= generation_of_fields
|}.

(** ** A disk *)

Definition root_attr (perm : Z) : attr := mkAttr 8 perm 0 0 50 [] ∅.

(** [/home/u], which belongs to the user, and [/home/u/release] with the
    three products. *)
Definition install_tree : tree :=
  <[1 := TDir {["home"%string := 2]}]>
    (<[2 := TDir {["u"%string := 3]}]>
      (<[3 := TDir {["release"%string := 4]}]>
        (<[4 := TDir (<["microfat"%string := 5]>
                       (<["microfat-stub"%string := 6]> {["microfat-stub-minimal"%string := 7]}))]>
          (<[5 := TFile]> (<[6 := TFile]> {[7 := TFile]}))))).

Definition install_disk : fs := mkFs install_tree
  (<[1 := root_attr 493]> (<[2 := root_attr 493]> (<[3 := plain_attr 493 []]> (<[4 := plain_attr 493 []]>
    (<[5 := plain_attr 493 [x61; x62; x63]]> (<[6 := plain_attr 493 [x61; x62; x63]]>
      {[7 := plain_attr 493 [x61; x62; x63]]})))))) ∅.

Lemma install_disk_wf : wf_fs install_disk.
Proof. apply wf_check_sound. vm_compute. reflexivity. Qed.

Definition sample_paths : Paths := mkPaths "/home/u/bin" "/home/u/store".

Definition abc_file : File :=
  mkFile 3 "ba7816bf8f01cfea414140de5dae2223b00361a396177a9cb410ff61f20015ad".

Definition sample_generation (id : string) : Generation :=
  mkGeneration 1 id "1.2.3" "amd64" "ba7816bf8f01cfea414140de5dae2223b00361a396177a9cb410ff61f20015ad"
    (list_to_map ((fun n => (n, abc_file)) <$> Products)).

Definition first_id : string := "0123456789abcdef0123456789abcdef".
Definition next_id : string := "fedcba9876543210fedcba9876543210".

Lemma observes_lift {A} (m : outcome gerror A) : observes (lift m).
Proof. destruct m; unfold lift; auto with vfs. Qed.

Lemma observes_join_all ms acc : Forall observes ms -> observes (join_all ms acc).
Proof.
  revert acc. induction ms as [|m ms IH]; intros acc Hms F0 w Hw; cbn [join_all].
  { destruct acc; by simpl. }
  inversion Hms as [|? ? Hm Hrest]; subst. specialize (Hm _ w eq_refl).
  destruct (m w) as [[a|e|] w'] eqn:Hmw; simpl in *; [apply (IH acc Hrest (w_fs w) w' Hm)|
    apply (IH (acc ++ e) Hrest (w_fs w) w' Hm)|done].
Qed.

#[export] Hint Resolve observes_lift : vfs.

Section reads.
Context `{Kernel} `{Json} (Hquiet : quiet).

(** Down to single calls, unfolding the ones that look. *)
Ltac looks := unfold os_Lstat, sys_stat, sys_fstat, sys_open, sys_opendir, sys_close, sys_readlink, sys_readdir,
  sys_pread, sys_fsync, stat_self, attempt in *; observe.

Lemma observes_validateAncestors name allowMissing : observes (validateAncestors name allowMissing).
Proof using Hquiet.
  unfold validateAncestors. generalize (S (String.length name)) as fuel. intros fuel. revert name.
  induction fuel as [|fuel IH]; intros name; cbn [validate_up]; looks.
Qed.

Lemma observes_stream fuel chunk fd off remaining acc : observes (stream fuel chunk (fun _ => mret tt) fd off remaining acc).
Proof using Hquiet.
  revert off remaining acc. induction fuel as [|fuel IH]; intros off [|r] acc; cbn [stream]; looks.
Qed.

Hint Resolve observes_validateAncestors observes_stream : vfs.

Lemma observes_rootInfo name : observes (rootInfo name).
Proof using Hquiet. unfold rootInfo. looks. Qed.

Lemma observes_readJSON {A} (un : list byte -> option A) root name uid : observes (readJSONForUID un root name uid).
Proof using Hquiet. unfold readJSONForUID, read_limited. looks. Qed.

Hint Resolve observes_rootInfo observes_readJSON : vfs.

Lemma observes_readOwner root paths : observes (readOwner root paths).
Proof using Hquiet. unfold readOwner. looks. Qed.

Lemma observes_readGeneration root id uid : observes (readGenerationForUID root id uid).
Proof using Hquiet. unfold readGenerationForUID. looks. Qed.

Hint Resolve observes_readOwner observes_readGeneration : vfs.

Lemma observes_activeGeneration root : observes (activeGeneration root).
Proof using Hquiet. unfold activeGeneration, readGeneration. looks. Qed.

Lemma observes_verifyFile root name expected uid : observes (verifyFileForUID root name expected uid).
Proof using Hquiet. unfold verifyFileForUID, read_limited. looks. Qed.

Hint Resolve observes_activeGeneration observes_verifyFile : vfs.

Lemma observes_verify_products root g uid wrap : observes (verify_products root g uid wrap).
Proof using Hquiet. unfold verify_products. looks. Qed.

Lemma observes_selectedTarget root : observes (selectedTarget root).
Proof using Hquiet. unfold selectedTarget. looks. Qed.

Lemma observes_validateUnclaimed root : observes (validateUnclaimed root).
Proof using Hquiet. unfold validateUnclaimed. looks. Qed.

Lemma observes_ctx_Err : observes ctx_Err.
Proof using Hquiet. unfold ctx_Err. looks. Qed.

Lemma observes_syncDir root name : observes (syncDir root name).
Proof using Hquiet.
  unfold syncDir. looks. apply observes_join_all. unfold sys_fsync, sys_close. repeat constructor; auto with vfs.
Qed.

Lemma observes_check_root root path info : observes (check_root root path info).
Proof using Hquiet. unfold check_root. looks. Qed.

Hint Resolve observes_verify_products observes_selectedTarget observes_validateUnclaimed observes_ctx_Err
  observes_syncDir observes_check_root : vfs.

Lemma observes_checkRoots op : observes (checkRoots op).
Proof using Hquiet. unfold checkRoots. looks. Qed.

Lemma observes_checkOwner op expected : observes (checkOwner op expected).
Proof using Hquiet. unfold checkOwner. looks. Qed.

Lemma observes_checkEntrypoints op owned : observes (checkEntrypoints op owned).
Proof using Hquiet. unfold checkEntrypoints. looks. Qed.

Lemma observes_checkExistingLinks paths uid : observes (checkExistingLinks paths uid).
Proof using Hquiet. unfold checkExistingLinks. looks. Qed.

Hint Resolve observes_checkRoots observes_checkOwner observes_checkEntrypoints observes_checkExistingLinks : vfs.

Lemma observes_checkUpdateSnapshot op snapshot : observes (checkUpdateSnapshot op snapshot).
Proof using Hquiet. unfold checkUpdateSnapshot, verifyGeneration. looks. Qed.

Lemma observes_reusable op requested repair : observes (reusableGeneration op requested repair).
Proof using Hquiet. unfold reusableGeneration, verifyGeneration. looks. Qed.

Lemma observes_Inspect paths : observes (Inspect paths).
Proof using Hquiet. unfold Inspect. looks. Qed.

Lemma observes_discovery {A} physical (f : Z -> Owner -> Generation -> io A) :
  (forall root o g, observes (f root o g)) -> observes (inspectDiscoveryGeneration physical f).
Proof using Hquiet. intros Hf. unfold inspectDiscoveryGeneration. looks. Qed.

Lemma observes_ReadInstallation physical : observes (ReadInstallation physical).
Proof using Hquiet.
  unfold ReadInstallation. destruct (negb _); [auto with vfs|]. apply observes_discovery. intros root o g. looks.
Qed.

Lemma observes_ValidateDiscovery original physical : observes (ValidateDiscovery original physical).
Proof using Hquiet.
  unfold ValidateDiscovery. looks. apply observes_discovery. auto with vfs.
Qed.

Lemma observes_identities paths current : observes (updateFileIdentities paths current).
Proof using Hquiet.
  unfold updateFileIdentities. looks. induction (_ ++ _) as [|name rest IH]; looks.
Qed.

Lemma observes_InspectUpdate physical : observes (InspectUpdate physical).
Proof using Hquiet.
  unfold InspectUpdate. pose proof observes_ReadInstallation. pose proof observes_Inspect.
  pose proof observes_identities. looks.
Qed.

End reads.

#[export] Hint Resolve observes_validateAncestors observes_rootInfo observes_readOwner observes_activeGeneration
  observes_selectedTarget observes_validateUnclaimed observes_ctx_Err observes_syncDir observes_checkRoots
  observes_checkOwner observes_checkEntrypoints observes_checkExistingLinks observes_checkUpdateSnapshot
  observes_reusable : vfs.

Definition none : names := fun _ _ => False.

Section runs.
Context (U : zone).

(** [U] is a set of directories of [F], with everything below them. *)
Definition grounded (F : fs) : Prop :=
  wf_fs F /\ (forall i, U i -> is_Some (f_tree F !! i)) /\
  (forall d n j, U d -> entry (f_tree F) d n = Some j -> U j).

Lemma grounded_kept vol F F' : grounded F -> kept U vol F F' -> grounded F'.
Proof.
  intros (Hwf & Hdom & Hcl) Hk. split_and!; [apply Hk| |].
  - intros i Hi. eapply node_kept_is_Some; [apply Hk|auto].
  - intros d n j Hu He. eapply Hcl; [exact Hu|]. by eapply kp_unsafe.
Qed.

Lemma grounded_fresh F i : grounded F -> f_tree F !! i = None -> ~ U i.
Proof. intros (_ & Hdom & _) Hi Hu. destruct (Hdom i Hu). congruence. Qed.

(** From [F], [m] makes only changes that [vol] allows, and returns in [Q]. *)
Definition runs (vol : names) (F : fs) {A} (m : io A) (Q : A -> fs -> Prop) : Prop :=
  hoare (eq F) m (fun a F' => kept U vol F F' /\ Q a F') (fun _ => kept U vol F) (kept U vol F).

Section rules.
Context {A B : Type} (vol : names) (F : fs).
Implicit Types (Q : B -> fs -> Prop).

Lemma runs_ret (b : B) Q : wf_fs F -> Q b F -> runs vol F (mret b) Q.
Proof. intros Hwf HQ. apply hoare_ret. intros F' <-. split; [by apply kept_refl|done]. Qed.

Lemma runs_fail e Q : wf_fs F -> runs vol F (fail e) Q.
Proof. intros Hwf. apply hoare_fail. intros F' <-. by apply kept_refl. Qed.

Lemma runs_bind (m : io A) (k : A -> io B) R Q :
  runs vol F m R -> (forall a F', kept U vol F F' -> R a F' -> runs vol F' (k a) Q) ->
  runs vol F (m ≫= k) Q.
Proof.
  intros Hm Hk. eapply hoare_bind; [exact Hm|]. intros a. apply hoare_ghost. intros F' [HF' HR].
  eapply hoare_conseq; [exact (Hk a F' HF' HR)|..]; simpl; [done|..].
  - intros b F'' [Hk' HQ]. split; [by eapply kept_trans|done].
  - intros e F''. by apply kept_trans.
  - intros F''. by apply kept_trans.
Qed.

Lemma runs_conseq (m : io B) Q Q' :
  runs vol F m Q -> (forall b F', kept U vol F F' -> Q b F' -> Q' b F') -> runs vol F m Q'.
Proof.
  intros Hm HQ. eapply hoare_conseq; [exact Hm|..]; simpl; try done. intros b F' [Hk Hb]. split; auto.
Qed.

Lemma runs_weaken (vol' : names) (m : io B) Q :
  (forall d n, vol d n -> vol' d n) -> runs vol F m Q -> runs vol' F m Q.
Proof.
  intros Hv Hm. eapply hoare_conseq; [exact Hm|..]; simpl; try done.
  - intros b F' [Hk Hb]. split; [by eapply kept_weaken|done].
  - intros e F'. by apply kept_weaken.
  - intros F'. by apply kept_weaken.
Qed.

Lemma runs_of_observes (m : io B) : wf_fs F -> observes m -> runs vol F m (fun _ F' => F = F').
Proof.
  intros Hwf Hm. eapply hoare_conseq; [apply (Hm F)|..]; simpl; [done|..].
  - intros b F' <-. split; [by apply kept_refl|done].
  - intros e F' <-. by apply kept_refl.
  - intros F' <-. by apply kept_refl.
Qed.

Lemma runs_observe (m : io A) (k : A -> io B) Q :
  wf_fs F -> observes m -> (forall a, runs vol F (k a) Q) -> runs vol F (m ≫= k) Q.
Proof.
  intros Hwf Hm Hk. apply hoare_observe; [done|..]; simpl.
  - intros e F' <-. by apply kept_refl.
  - intros F' <-. by apply kept_refl.
  - exact Hk.
Qed.

Lemma runs_lift (m : outcome gerror A) (k : A -> io B) Q :
  wf_fs F -> (forall a, m = Ok a -> runs vol F (k a) Q) -> runs vol F (lift m ≫= k) Q.
Proof.
  intros Hwf Hk w Hw. destruct m as [a|e|]; [exact (Hk a eq_refl w Hw)|..]; simpl; subst; by apply kept_refl.
Qed.

Lemma runs_wrapping f (m : io B) Q : runs vol F m Q -> runs vol F (wrapping f m) Q.
Proof. apply hoare_wrapping_any. Qed.

Lemma runs_try (m : io B) Q :
  runs vol F m Q ->
  runs vol F (try m) (fun r F' => match r with inl b => Q b F' | inr _ => True end).
Proof. intros Hm. apply hoare_try. eapply hoare_conseq; [exact Hm|..]; simpl; auto. Qed.

(** A cleanup that is one of these runs from wherever it starts. *)
Lemma runs_deferring cleanup (m : io B) Q :
  runs vol F m Q ->
  (forall F', kept U vol F F' -> runs vol F' cleanup (fun _ _ => True)) ->
  (forall b F' F'', Q b F' -> kept U vol F' F'' -> Q b F'') ->
  runs vol F (deferring cleanup m) Q.
Proof.
  intros Hm Hc HQ. eapply hoare_deferring; [exact Hm|..]; simpl.
  - intros b. apply hoare_ghost. intros F' [Hk Hb].
    eapply hoare_conseq; [exact (Hc F' Hk)|..]; simpl; [done|..].
    + intros _ F'' [Hk' _]. split; [by eapply kept_trans|by eapply HQ].
    + intros _ F'' Hk'. split; [by eapply kept_trans|by eapply HQ].
    + intros F'' Hk'. by eapply kept_trans.
  - intros e. apply hoare_ghost. intros F' Hk.
    eapply hoare_conseq; [exact (Hc F' Hk)|..]; simpl; [done|..].
    + intros _ F'' [Hk' _]. by eapply kept_trans.
    + intros _ F'' Hk'. by eapply kept_trans.
    + intros F'' Hk'. by eapply kept_trans.
Qed.

Lemma runs_deferring_observes cleanup (m : io B) Q :
  observes cleanup -> runs vol F m Q -> runs vol F (deferring cleanup m) Q.
Proof. intros Hc Hm. by apply hoare_deferring_observes; [..|exact Hm]; [|intros b F' [? _]|]. Qed.

End rules.

Lemma runs_each {A} vol F (f : A -> io unit) l :
  wf_fs F -> (forall a F', a ∈ l -> kept U vol F F' -> runs vol F' (f a) (fun _ _ => True)) ->
  runs vol F (each f l) (fun _ _ => True).
Proof.
  revert F. induction l as [|a l IH]; intros F Hwf Hf; cbn [each]; [by apply runs_ret|].
  eapply runs_bind; [apply Hf; [left|by apply kept_refl]|]. intros [] F' Hk _.
  apply IH; [apply Hk|]. intros b F'' Hb Hk'. apply Hf; [by right|by eapply kept_trans].
Qed.

Context `{Kernel} (Hquiet : quiet).

Lemma runs_inspect {A B} vol F (f : fs -> outcome errno A) (k : A -> io B) Q :
  wf_fs F -> (forall a, f F = Ok a -> runs vol F (k a) Q) -> runs vol F (inspect f ≫= k) Q.
Proof using Hquiet.
  intros Hwf Hk. eapply hoare_bind with (R := fun a F' => F = F' /\ f F = Ok a).
  - apply hoare_inspect; [done|..]; [intros F' <-; by apply kept_refl|intros F' e <-; by apply kept_refl|].
    by intros F' a <-.
  - intros a. apply hoare_ghost. intros F' [<- Hf]. by apply Hk.
Qed.

Lemma runs_try_inspect {A B} vol F (f : fs -> outcome errno A) (k : A + gerror -> io B) Q :
  wf_fs F -> (forall a, f F = Ok a -> runs vol F (k (inl a)) Q) ->
  (forall e, (exists n, k_fault n = Fails e) \/ f F = Err e \/ f F = Panic -> runs vol F (k (inr [Errno e])) Q) ->
  runs vol F (try (inspect f) ≫= k) Q.
Proof using Hquiet.
  intros Hwf Hk He. eapply hoare_bind with (R := fun r F' => F = F' /\
    match r with
    | inl a => f F = Ok a
    | inr e => exists e', e = [Errno e'] /\ ((exists n, k_fault n = Fails e') \/ f F = Err e' \/ f F = Panic)
    end).
  - apply hoare_try, hoare_inspect_err; [done|intros F' <-; by apply kept_refl|..].
    + intros F' e <- Hr. eauto.
    + by intros F' a <-.
  - intros [a|e]; apply hoare_ghost; intros F' [<- Hf]; [by apply Hk|].
    destruct Hf as (e' & -> & Hr). by apply He.
Qed.

(** A node is added under a single name of an open directory. *)
Lemma runs_add vol F d n node (mk : nat -> attr) :
  wf_fs F -> single n -> ~ U d -> (forall m, node = TDir m -> m = ∅ /\ ~ reserved U n) -> ~ sealed U n ->
  runs vol F (syscall (fun k => add_node (root_base d) n node (mk k)))
    (fun i F' => exists a, added (root_base d) n node a F i F' d n).
Proof using Hquiet.
  intros Hwf Hn Hd Hm Hseal. apply hoare_syscall; [done|intros F' <-; by apply kept_refl|intros F' e <-; by apply kept_refl|].
  intros k F1 i F' <- Hadd. apply add_node_inv in Hadd as (d' & n' & Hadd).
  destruct (add_at Hadd) as (l & Hl & Hp & _). rewrite (locate_single _ d) in Hl by done.
  destruct (entries (f_tree F) d); [|discriminate]. injection Hl as <-. injection Hp as <- <-.
  split; [by eapply kept_added|eauto].
Qed.

Lemma syscall_unit_runs {A} vol F (f : nat -> fs -> outcome errno (A * fs)) Q :
  runs vol F (syscall f) Q ->
  runs vol F (syscall (fun k F => '(_, F') ← f k F; Ok (tt, F'))) (fun _ F' => exists a, Q a F').
Proof using Type.
  intros Hm w Hw. specialize (Hm w Hw). unfold syscall in *.
  destruct (k_fault (w_clock w)); [|exact Hm|exact Hm].
  destruct (f (w_clock w) (k_env (w_clock w) (w_fs w))) as [[a F']|e|]; simpl in *; [|exact Hm|exact Hm].
  destruct Hm; eauto.
Qed.

Lemma runs_mkdir vol F d n perm :
  wf_fs F -> single n -> ~ U d -> free_name U n ->
  runs vol F (sys_mkdir (root_base d) n perm)
    (fun _ F' => exists i a, added (root_base d) n (TDir ∅) a F i F' d n).
Proof using Hquiet.
  intros Hwf Hn Hd Hr. apply (syscall_unit_runs vol F (fun k => add_node (root_base d) n (TDir ∅) (new_attr k perm))).
  destruct Hr. apply runs_add; [done..| |done]. by intros m [= <-].
Qed.

Lemma runs_symlink vol F d n target :
  wf_fs F -> single n -> ~ U d -> ~ sealed U n ->
  runs vol F (sys_symlink (root_base d) target n)
    (fun _ F' => exists i a, added (root_base d) n (TLink target) a F i F' d n).
Proof using Hquiet.
  intros Hwf Hn Hd Hseal. apply (syscall_unit_runs vol F (fun k => add_node (root_base d) n (TLink target) (new_attr k 511))).
  by apply runs_add.
Qed.

End runs.

(** ** Directories *)

Lemma hoare_join_all (P : fs -> Prop) ms acc :
  Forall (fun m => hoare P m (fun _ => P) (fun _ => P) P) ms ->
  hoare P (join_all ms acc) (fun _ => P) (fun _ => P) P.
Proof.
  revert acc. induction ms as [|m ms IH]; intros acc Hms w Hw; cbn [join_all].
  { by destruct acc. }
  inversion Hms as [|? ? Hm Hrest]; subst. specialize (Hm w Hw).
  destruct (m w) as [[a|e|] w']; [exact (IH acc Hrest w' Hm)|exact (IH (acc ++ e) Hrest w' Hm)|done].
Qed.

Section open.
Context `{Kernel} `{Json} (Hquiet : quiet) (U : zone).

Lemma hoare_or_close {A} P root (m : io A) Q (E : fs -> Prop) :
  hoare P m Q (fun _ => E) E -> hoare P (or_close root m) Q (fun _ => E) E.
Proof using Hquiet.
  intros Hm. unfold or_close.
  eapply hoare_bind with (R := fun r F => match r with inl a => Q a F | inr _ => E F end); [by apply hoare_try|].
  intros [a|e]; [by apply hoare_ret|]. unfold close_join.
  apply hoare_observe; [unfold sys_close; observe|done..|]. intros r. by apply hoare_fail.
Qed.

(** The attributes of one inode may have changed. *)
Definition changed (F : fs) (i : Z) (F' : fs) : Prop := F' = F \/ exists a, F' = set_attr F i a.

Lemma changed_again F i F' a : changed F i F' -> changed F i (set_attr F' i a).
Proof using Type.
  intros [-> |[b ->]]; right; exists a; [done|]. unfold set_attr. simpl. by rewrite insert_insert_eq.
Qed.

Lemma hoare_change_attr F i (f : nat -> attr -> outcome errno attr) :
  hoare (changed F i) (update_attr i f) (fun _ => changed F i) (fun _ => changed F i) (changed F i).
Proof using Hquiet.
  apply hoare_syscall; [done..|]. intros n F1 u F2 Hc Hu.
  apply bind_Ok_inv in Hu as (a & _ & Hu). apply bind_Ok_inv in Hu as (a' & _ & [= <- <-]).
  by apply changed_again.
Qed.

Lemma hoare_looks {A} (P : fs -> Prop) (f : fs -> outcome errno A) :
  hoare P (inspect f) (fun _ => P) (fun _ => P) P.
Proof using Hquiet. by apply hoare_inv_inspect. Qed.

Lemma hoare_publishable F root name i :
  (forall l, locate (root_base root) true name F = Ok l -> l_ino l = Some i) ->
  hoare (eq F) (publishableDirectory root name) (fun _ => changed F i) (fun _ => changed F i) (changed F i).
Proof using Hquiet.
  intros Hi. unfold publishableDirectory.
  eapply hoare_bind with (R := fun file F' => F = F' /\ file = i).
  { apply hoare_inspect; [done|by left|by left|]. intros F' file <- Ho. split; [done|].
    apply bind_Ok_inv in Ho as (l & Hl & Ho). apply bind_Ok_inv in Ho as (j & Hj & Ho). apply found_inv in Hj.
    specialize (Hi l Hl). destruct (f_tree F !! j) as [[]|]; congruence. }
  intros file. apply hoare_ghost. intros F' [<- ->].
  eapply hoare_pre; [apply hoare_join_all|intros F' <-; by left].
  repeat constructor; [apply hoare_change_attr|apply hoare_looks..].
Qed.

Lemma locate_dot root follow F : locate (root_base root) follow "." F = Ok (mkLoc [root] None (Some root)).
Proof using Type.
  unfold locate. simpl. apply walk_nil.
Qed.

(** Making one directory, or refusing to. *)
Definition makes (mkdir : mkdirFunc) : Prop := forall F d n m,
  wf_fs F -> single n -> ~ U d -> free_name U n ->
  runs U none F (mkdir d n m) (fun _ F' => exists i a, added (root_base d) n (TDir ∅) a F i F' d n).

Lemma makes_Mkdir : makes Root_Mkdir.
Proof using Hquiet. intros F d n m Hwf Hn Hd Hr. by apply runs_mkdir. Qed.

Lemma makes_nothing e : makes (fun _ _ _ => fail e).
Proof using Type. intros F d n m Hwf Hn Hd Hr. by apply runs_fail. Qed.

(** The entry of a single name, as [Lstat] sees it. *)
Lemma stat_single F d n info :
  single n -> (l ← locate (root_base d) false n F; i ← found l; info_of i F) = Ok info ->
  entry (f_tree F) d n = Some (fi_ino info) /\ info_of (fi_ino info) F = Ok info.
Proof using Type.
  intros Hn Hs. apply bind_Ok_inv in Hs as (l & Hl & Hs). apply bind_Ok_inv in Hs as (i & Hi & Hs).
  apply found_inv in Hi. rewrite (locate_single _ d) in Hl by done. unfold entry.
  destruct (entries (f_tree F) d) as [m|]; [|discriminate]. injection Hl as <-. simpl in *.
  assert (fi_ino info = i) as ->; [|done].
  unfold info_of in Hs. destruct (f_tree F !! i), (f_attr F !! i); try discriminate. by injection Hs as <-.
Qed.

Lemma info_node F i info : info_of i F = Ok info -> f_tree F !! i = Some (fi_node info).
Proof using Type.
  unfold info_of. destruct (f_tree F !! i), (f_attr F !! i); try discriminate. by intros [= <-].
Qed.

Lemma validateInfo_dir info exact : validateInfo info true exact = Ok tt -> IsDir info = true.
Proof using Type.
  unfold validateInfo. destruct (_ || _); [discriminate|]. by destruct (IsDir info).
Qed.

Lemma info_is_dir F i info : info_of i F = Ok info -> IsDir info = true -> is_dir F i = true.
Proof using Type.
  intros Hi Hd. unfold is_dir, IsDir in *. rewrite (info_node _ _ _ Hi). by destruct (fi_node info).
Qed.

Lemma opendir_single F d n i root :
  single n -> entry (f_tree F) d n = Some i -> is_dir F i = true ->
  (l ← locate (root_base d) true n F; j ← found l;
   match f_tree F !! j with Some (TDir _) => Ok j | _ => Err ENOTDIR end) = Ok root -> root = i.
Proof using Type.
  intros Hn He Hi Ho. unfold is_dir in Hi.
  assert (locate (root_base d) true n F = Ok (mkLoc [d] (Some n) (Some i))) as Hl.
  { apply (locate_follow _ _ _ _ i); [|done|intros t Ht; by rewrite Ht in Hi].
    rewrite (locate_single _ d) by done. unfold entry in He.
    destruct (entries (f_tree F) d) as [m|]; [|discriminate]. simpl in He. by rewrite He. }
  rewrite Hl in Ho. simpl in Ho. destruct (f_tree F !! i) as [[]|]; congruence.
Qed.

(** What [openInstallDirectory] finds or makes, before it is opened. *)
Lemma runs_find F parent c mkdir :
  wf_fs F -> single c -> ~ U parent -> free_name U c -> makes mkdir ->
  runs U none F
    (st ← try (sys_stat (root_base parent) false c);
     match st with
     | inl info => mret (info, false)
     | inr e =>
         if negb (is_not_exist e) then fail e
         else
           r ← try (mkdir parent c directoryMode);
           match r with
           | inl _ => info ← sys_stat (root_base parent) false c; mret (info, true)
           | inr e1 => if negb (is_exist e1) then fail e1
                       else info ← sys_stat (root_base parent) false c; mret (info, false)
           end
     end)
    (fun r F' => entry (f_tree F') parent c = Some (fi_ino r.1) /\ info_of (fi_ino r.1) F' = Ok r.1 /\
      (r.2 = true -> f_attr F !! fi_ino r.1 = None)).
Proof using Hquiet.
  intros Hwf Hc Hp Hres Hmk. apply runs_try_inspect; [done|done|..].
  { intros info Hs. destruct (stat_single _ _ _ _ Hc Hs). apply runs_ret; [done|]. by split_and!. }
  intros e _. destruct (negb _); [by apply runs_fail|].
  eapply runs_bind; [by apply runs_try, Hmk|]. intros [u|e1] F' Hk Hr.
  - destruct Hr as (i & a & Hadd). apply runs_inspect; [done|apply Hk|]. intros info Hs.
    destruct (stat_single _ _ _ _ Hc Hs) as [He Hi]. apply runs_ret; [apply Hk|]. split_and!; [done..|]. intros _.
    simpl. rewrite (added_entry _ _ _ _ _ _ _ _ _ _ _ Hadd), decide_True in He by (done || congruence).
    injection He as <-. rewrite (add_ino Hadd). apply next_ino_fresh.
  - destruct (negb _); [apply runs_fail, Hk|]. apply runs_inspect; [done|apply Hk|]. intros info Hs.
    destruct (stat_single _ _ _ _ Hc Hs). apply runs_ret; [apply Hk|]. by split_and!.
Qed.

Lemma runs_openInstallDirectory F parent c mkdir :
  wf_fs F -> single c -> ~ U parent -> free_name U c -> makes mkdir ->
  runs U none F (openInstallDirectory parent c mkdir)
    (fun root F' => entry (f_tree F') parent c = Some root /\ is_dir F' root = true).
Proof using Hquiet.
  intros Hwf Hc Hp Hres Hmk. unfold openInstallDirectory. apply hoare_assoc.
  eapply hoare_bind; [by apply runs_find|].
  intros [info created]. apply hoare_ghost. intros F1 (Hk & He & Hi & Hnew). cbn [fst snd] in *.
  assert (forall F', changed F1 (fi_ino info) F' -> created = true -> kept U none F F') as Hch.
  { intros F' [-> |[a ->]] Hcr; [done|]. apply kept_change; auto. }
  destruct (validateInfo info true created) as [[]|e|] eqn:Hv; [|by apply hoare_fail; intros F' <-..].
  pose proof (info_is_dir _ _ _ Hi (validateInfo_dir _ _ Hv)) as Hd.
  eapply hoare_bind with (R := fun root F' => F1 = F' /\ root = fi_ino info).
  { apply hoare_inspect; [done|by intros F' <-|by intros F' e <-|]. intros F' root <- Ho.
    split; [done|]. by eapply opendir_single. }
  intros root. apply hoare_ghost. intros F' [<- ->]. apply hoare_or_close.
  apply hoare_observe; [unfold stat_self, sys_stat; observe|by intros e F' <-|by intros F' <-|]. intros opened.
  destruct (negb _); [by apply hoare_fail; intros F' <-|].
  destruct created; [|by apply hoare_ret; intros F' <-].
  eapply hoare_bind with (R := fun _ => changed F1 (fi_ino info)).
  { eapply hoare_conseq; [apply (hoare_publishable F1 (fi_ino info) "." (fi_ino info))|..]; simpl; auto.
    intros l. rewrite locate_dot. by intros [= <-]. }
  intros []. apply hoare_observe; [by apply observes_syncDir|auto..|]. intros [].
  apply hoare_ret. intros F' HF. split_and!; [auto|..]; by destruct HF as [-> |[a ->]].
Qed.

(** ** The components of a root *)

Definition root_components (name : string) : list string := Split (TrimPrefix name "/") slash.

Lemma clean_rooted_single cs :
  Forall (fun c => slashless c = true) cs -> Forall single (clean_components true cs).
Proof using Type.
  intros Hcs. unfold clean_components. apply Forall_rev.
  assert (forall kept, Forall single kept -> Forall single (foldl (clean_step true) kept cs)) as Hall; [|by apply Hall].
  induction Hcs as [|c cs Hc _ IH]; intros kept Hkept; [done|]. cbn [foldl]. apply IH. unfold clean_step.
  destruct (String.eqb_spec c ""); [done|]. destruct (String.eqb_spec c "."); [done|]. cbn [orb].
  destruct (String.eqb_spec c "..").
  - destruct Hkept as [|top rest Htop Hrest]; [done|]. destruct Htop as (_ & _ & Ht & _).
    by rewrite (proj2 (String.eqb_neq top "..") Ht).
  - constructor; [|done]. by split_and!.
Qed.

Lemma root_components_single name : good_root name = true -> Forall single (root_components name).
Proof using Type.
  unfold good_root, filepath_IsAbs. rewrite !andb_true_iff, negb_true_iff.
  intros [[Habs Hclean%String.eqb_eq] Hroot%String.eqb_neq].
  pose proof (clean_rooted_single (Split name slash)) as Hs.
  unfold filepath_Clean in Hclean. rewrite Habs in Hclean.
  specialize (Hs ltac:(rewrite Forall_forall; intros c Hc; by eapply Split_slashless)).
  unfold root_components. rewrite <- Hclean.
  destruct (clean_components true (Split name slash)) as [|c cs]; [by destruct Hroot|].
  unfold TrimPrefix. rewrite HasPrefix_app.
  change (sdrop (String.length "/") ("/" ++ ?x)) with x. rewrite Split_join; [done|].
  eapply Forall_impl; [exact Hs|]. intros x (H1 & H2 & H3 & H4). split_and!; [done..|]. by apply slashless_Split.
Qed.

Lemma runs_open_components F d cs mkdir :
  grounded U F -> Forall single cs -> path_safe U (f_tree F) d cs -> Forall (free_name U) cs ->
  is_dir F d = true -> makes mkdir ->
  runs U none F (open_components d cs mkdir)
    (fun root F' => dir_at (f_tree F') d cs = Some root /\ is_dir F' root = true).
Proof using Hquiet.
  revert F d. induction cs as [|c rest IH]; intros F d Hg Hcs Hps Hres Hd Hmk; cbn [open_components].
  { apply runs_ret; [apply Hg|done]. }
  inversion Hcs as [|? ? Hc Hrest]; inversion Hres as [|? ? Hrc Hrrest]; subst.
  pose proof (path_safe_here _ _ _ _ Hps) as HU.
  eapply runs_bind; [apply runs_try, runs_openInstallDirectory; [apply Hg|done..]|].
  intros r F' Hk Hr. apply runs_observe; [apply Hk|unfold sys_close; observe|]. intros [].
  destruct r as [next|e]; [|apply runs_fail, Hk]. destruct Hr as [He Hn].
  assert (path_safe U (f_tree F') next rest) as Hps'.
  { assert (path_safe U (f_tree F') d (c :: rest)) as [_ Hx].
    { eapply (path_safe_kept U F F' none); [apply Hg|apply Hg|exact Hk|by intros ? ? []|done]. }
    by rewrite He in Hx. }
  eapply runs_conseq; [apply IH; try done; by eapply grounded_kept|].
  intros root F'' Hk' [Hdir Hroot]. split; [|done]. cbn [dir_at].
  rewrite (kp_entry _ _ _ _ Hk' d c next He HU); [done|by intros []].
Qed.

Lemma runs_syscall {A} vol F (f : nat -> fs -> outcome errno (A * fs)) Q :
  wf_fs F -> (forall n a F', f n F = Ok (a, F') -> kept U vol F F' /\ Q a F') -> runs U vol F (syscall f) Q.
Proof using Hquiet.
  intros Hwf Hf. apply hoare_syscall; [done|intros F' <-; by apply kept_refl|intros F' e <-; by apply kept_refl|].
  intros n F1 a F' <-. apply Hf.
Qed.

Lemma runs_or_close {A} vol F root (m : io A) Q : runs U vol F m Q -> runs U vol F (or_close root m) Q.
Proof using Hquiet. apply hoare_or_close. Qed.

Lemma observes_close_join {A} root e : observes (close_join (A := A) root e).
Proof using Hquiet. unfold close_join, sys_close. observe. Qed.

Lemma observes_or_close {A} root (m : io A) : observes m -> observes (or_close root m).
Proof using Hquiet.
  intros Hm. unfold or_close. apply observes_bind; [by apply observes_try|].
  intros [a|e]; [apply observes_ret|apply observes_close_join].
Qed.

Definition opened_at (F : fs) (name : string) (root : Z) : Prop :=
  dir_at (f_tree F) k_root (root_components name) = Some root /\ is_dir F root = true.

Lemma runs_openInstallRoot F name mkdir :
  grounded U F -> good_root name = true -> path_safe U (f_tree F) k_root (root_components name) ->
  Forall (free_name U) (root_components name) -> makes mkdir ->
  runs U none F (openInstallRoot name mkdir) (fun r F' => opened_at F' name r.1).
Proof using Hquiet.
  intros Hg Hname Hps Hres Hmk. unfold openInstallRoot. apply runs_inspect; [done|apply Hg|]. intros root Ho.
  assert (root = k_root /\ is_dir F k_root = true) as [-> Hroot].
  { unfold locate in Ho. cbn in Ho. rewrite walk_nil in Ho. cbn in Ho. unfold is_dir.
    destruct (f_tree F !! k_root) as [[]|]; try discriminate. by injection Ho as <-. }
  apply runs_observe; [apply Hg|apply observes_or_close; unfold stat_self, sys_stat; observe|]. intros [].
  eapply runs_bind; [apply runs_open_components; try done; by apply root_components_single|].
  intros root F' Hk Hr.
  apply runs_observe; [apply Hk|apply observes_or_close; unfold stat_self, sys_stat; observe|].
  intros info. apply runs_ret; [apply Hk|done].
Qed.

(** ** The lock *)

Lemma runs_lock_loop vol F polls file : wf_fs F -> runs U vol F (lock_loop polls file) (fun _ _ => True).
Proof using Hquiet.
  revert F. induction polls as [|polls IH]; intros F Hwf; cbn [lock_loop]; [by apply runs_fail|].
  apply runs_observe; [done|by apply observes_ctx_Err|]. intros [].
  eapply runs_bind with (R := fun _ _ => True).
  - eapply runs_conseq; [apply runs_try, (runs_syscall vol F _ (fun _ _ => True)); [done|]|done].
    intros n a F' Hf. case_decide; [discriminate|]. injection Hf as <- <-. split; [by apply kept_locks|done].
  - intros [u|e] F' Hk _; [apply runs_ret; [apply Hk|done]|].
    destruct (_ || _); [apply IH, Hk|apply runs_fail, Hk].
Qed.

Lemma runs_lock F s : wf_fs F -> ~ U s -> ~ sealed U lockFile -> runs U none F (lock s) (fun _ _ => True).
Proof using Hquiet.
  intros Hwf Hs Hseal. unfold lock. eapply runs_bind with (R := fun _ _ => True).
  - apply runs_syscall; [done|]. intros n i F' Hf. apply bind_Ok_inv in Hf as (l & Hl & Hf).
    split; [|done]. destruct (l_ino l) as [j|].
    + destruct (f_tree F !! j) as [[]|]; try discriminate. injection Hf as <- <-. by apply kept_refl.
    + apply add_node_inv in Hf as (d' & n' & Hadd).
      destruct (add_at Hadd) as (l' & Hl' & Hp & _).
      rewrite (locate_single _ s) in Hl' by (done || by split_and!).
      destruct (entries (f_tree F) s); [|discriminate]. injection Hl' as <-. injection Hp as <- <-.
      eapply kept_added; [done| | |exact Hs|exact Hadd]; done.
  - intros file F' Hk _.
    apply runs_observe; [apply Hk|apply observes_or_close; unfold sys_fstat; observe|]. intros [].
    eapply runs_bind; [apply runs_or_close, runs_lock_loop, Hk|].
    intros [] F'' Hk' _. apply runs_ret; [apply Hk'|done].
Qed.

Lemma runs_op_close vol F op : wf_fs F -> runs U vol F (op_close op) (fun _ _ => True).
Proof using Hquiet.
  intros Hwf. unfold op_close, close_lock.
  apply runs_observe; [done|unfold sys_close; observe|]. intros [].
  eapply runs_bind with (R := fun _ _ => True).
  - intros w Hw. pose proof (runs_syscall vol F (fun _ F => Ok (tt, mkFs (f_tree F) (f_attr F) (f_locks F ∖ {[op_lock op]})))
      (fun _ _ => True) Hwf) as Hs.
    specialize (Hs ltac:(intros n a F' [= <- <-]; split; [by apply kept_locks|done]) w Hw).
    unfold ignore, sys_funlock. destruct (syscall _ w) as [[u|e|] w']; simpl in *; [done|by split|done].
  - intros [] F' Hk _. eapply runs_conseq; [apply runs_of_observes; [apply Hk|unfold sys_close; observe]|done].
Qed.

(** ** A store that nobody owns *)

Lemma hoare_each_all {A} (P : A -> Prop) F (f : A -> io unit) l :
  (forall a, a ∈ l -> hoare (eq F) (f a) (fun _ F' => F = F' /\ P a) (fun _ => eq F) (eq F)) ->
  hoare (eq F) (each f l) (fun _ F' => F = F' /\ Forall P l) (fun _ => eq F) (eq F).
Proof using Type.
  induction l as [|a l IH]; intros Hf; cbn [each]; [apply hoare_ret; by intros F' <-|].
  eapply hoare_bind; [apply Hf; left|]. intros []. apply hoare_ghost. intros F' [<- Ha].
  eapply hoare_conseq; [apply IH; intros; apply Hf; by right|..]; simpl; try done.
  intros _ F' [<- Hl]. split; [done|by constructor].
Qed.

Definition unclaimed_name (name : string) : Prop := name = lockFile \/ HasPrefix name ".owner-" = true.

Lemma hoare_validateUnclaimed F s :
  is_dir F s = true ->
  hoare (eq F) (validateUnclaimed s)
    (fun _ F' => F = F' /\ forall n j, entry (f_tree F) s n = Some j -> unclaimed_name n) (fun _ => eq F) (eq F).
Proof using Hquiet.
  intros Hs. unfold validateUnclaimed.
  eapply hoare_bind with (R := fun file F' => F = F' /\ file = s).
  { apply hoare_inspect; [done|done|done|]. intros F' file <- Ho. split; [done|].
    unfold negb in Ho. rewrite locate_dot in Ho. simpl in Ho. unfold is_dir in Hs.
    destruct (f_tree F !! s) as [[]|]; congruence. }
  intros file. apply hoare_ghost. intros F' [<- ->].
  apply hoare_deferring_observes; [unfold sys_close; observe|by intros _ F' [<- _]|done|].
  eapply hoare_bind with (R := fun ns F' => F = F' /\ forall n j, entry (f_tree F) s n = Some j -> n ∈ ns).
  { apply hoare_inspect; [done|done|done|]. intros F' ns <- Hns. split; [done|]. intros n j He.
    unfold entry in He. destruct (entries (f_tree F) s) as [m|]; [|discriminate]. injection Hns as <-.
    simpl in He. apply list_elem_of_fmap. exists (n, j). split; [done|]. by apply elem_of_map_to_list. }
  intros ns. apply hoare_ghost. intros F' [<- Hns].
  eapply hoare_conseq; [apply (hoare_each_all unclaimed_name F)|..]; simpl; try done.
  - intros name _. destruct (String.eqb_spec name lockFile) as [-> |Hne]; cbn [negb andb].
    2: destruct (HasPrefix name ".owner-") eqn:Hp; cbn [negb]; [|by apply hoare_fail].
    all: eapply hoare_conseq; [apply (observes_bind (sys_stat (root_base s) false _)
      (fun info => lift (validateInfo info false true))); [by apply observes_stat|intros; apply observes_lift]|..];
      simpl; try done; intros _ F' <-; split; [done|]; (by left) || by right.
  - intros _ F' [<- Hall]. split; [done|]. intros n j He. rewrite Forall_forall in Hall. eauto.
Qed.

(** What the checks under the lock establish when there was no owner. *)
Definition ownerless (snapshot : Snapshot) (F : fs) (s : Z) : Prop :=
  sn_owner snapshot = None -> entry (f_tree F) s ownerFile = None.

Lemma hoare_checkOwner F op expected :
  is_dir F (op_store op) = true ->
  hoare (eq F) (checkOwner op expected)
    (fun _ F' => F = F' /\ (expected = None -> entry (f_tree F) (op_store op) ownerFile = None))
    (fun _ => eq F) (eq F).
Proof using Hquiet.
  intros Hs. unfold checkOwner. apply hoare_observe; [apply observes_try; by apply observes_readOwner|done..|].
  intros actual. destruct expected as [o|].
  { eapply hoare_conseq; [apply (observes_hoare _ (eq F))|..]; simpl; try done.
    destruct actual; [apply observes_lift|apply observes_fail]. }
  destruct actual as [a|e]; [by apply hoare_fail|].
  destruct (negb _); [by apply hoare_fail|].
  eapply hoare_conseq; [by apply (hoare_validateUnclaimed F)|..]; simpl; try done.
  intros _ F' [<- Hall]. split; [done|]. intros _.
  destruct (entry (f_tree F) (op_store op) ownerFile) as [j|] eqn:He; [|done].
  destruct (Hall _ _ He) as [?|?]; discriminate.
Qed.

(** ** The operation is open *)

Definition opened (F : fs) (op : operation) : Prop :=
  opened_at F (Store (op_paths op)) (op_store op) /\ opened_at F (Bin (op_paths op)) (op_bin op).

Definition roots_safe (F : fs) (paths : Paths) : Prop :=
  path_safe U (f_tree F) k_root (root_components (Store paths)) /\
  path_safe U (f_tree F) k_root (root_components (Bin paths)).

(** No component of the two paths is a reserved or a sealed name. *)
Definition roots_free (paths : Paths) : Prop :=
  Forall (free_name U) (root_components (Store paths)) /\
  Forall (free_name U) (root_components (Bin paths)) /\ ~ sealed U lockFile.

Lemma roots_safe_kept F F' paths : grounded U F -> kept U none F F' -> roots_safe F paths -> roots_safe F' paths.
Proof using Type.
  intros Hg Hk [H1 H2]. split; (eapply (path_safe_kept U F F' none); [apply Hg|apply Hg|exact Hk|by intros ? ? []|done]).
Qed.

Lemma opened_at_kept F F' name root :
  kept U none F F' -> path_safe U (f_tree F) k_root (root_components name) ->
  opened_at F name root -> opened_at F' name root.
Proof using Type.
  intros Hk Hps [Hd Hr]. split; [|by eapply kept_dir]. eapply dir_at_kept; [exact Hk| |done..].
  apply Forall_true. by intros c d [].
Qed.

Lemma Paths_Validate_good paths :
  Paths_Validate paths = Ok tt -> good_root (Store paths) = true /\ good_root (Bin paths) = true.
Proof using Type.
  unfold Paths_Validate. destruct (good_root (Bin paths)), (good_root (Store paths)); simpl; done.
Qed.

Lemma runs_checks F op snapshot :
  wf_fs F -> is_dir F (op_store op) = true ->
  runs U none F
    (_ ← checkRoots op; _ ← checkOwner op (sn_owner snapshot); target ← selectedTarget (op_store op);
     _ ← lift (ensure (String.eqb target (sn_currentTarget snapshot)) ErrChanged);
     if sn_updateOnly snapshot then checkUpdateSnapshot op snapshot else mret tt)
    (fun _ F' => F = F' /\ ownerless snapshot F (op_store op)).
Proof using Hquiet.
  intros Hwf Hs. apply runs_observe; [done|by apply observes_checkRoots|]. intros [].
  eapply runs_bind with (R := fun _ F' => F = F' /\ ownerless snapshot F (op_store op)).
  - pose proof (hoare_checkOwner F op (sn_owner snapshot) Hs) as Hc. unfold runs, ownerless.
    eapply hoare_conseq; [exact Hc|..]; simpl; [done|..].
    + intros _ F' [<- Ho]. split; [by apply kept_refl|done].
    + intros e F' <-. by apply kept_refl.
    + intros F' <-. by apply kept_refl.
  - intros [] F' Hk [<- Ho]. apply runs_observe; [done|by apply observes_selectedTarget|]. intros target.
    apply runs_lift; [done|]. intros [] _. eapply runs_conseq; [apply runs_of_observes; [done|]|].
    + destruct (sn_updateOnly snapshot); [by apply observes_checkUpdateSnapshot|apply observes_ret].
    + by intros [] F' _ <-.
Qed.

Lemma runs_openOperation F snapshot :
  grounded U F -> roots_safe F (sn_paths snapshot) -> roots_free (sn_paths snapshot) ->
  runs U none F (openOperation snapshot)
    (fun op F' => op_paths op = sn_paths snapshot /\ opened F' op /\ ownerless snapshot F' (op_store op)).
Proof using Hquiet.
  intros Hg Hsafe (Hfree1 & Hfree2 & Hlock). unfold openOperation.
  apply runs_observe; [apply Hg|by apply observes_ctx_Err|]. intros [].
  apply runs_lift; [apply Hg|]. intros [] Hv. destruct (Paths_Validate_good _ Hv) as [Hgs Hgb].
  set (mkdir := if sn_updateOnly snapshot then _ else _).
  assert (makes mkdir) as Hmk.
  { unfold mkdir. destruct (sn_updateOnly snapshot); [apply makes_nothing|apply makes_Mkdir]. }
  eapply runs_bind; [apply runs_openInstallRoot; [done..|apply Hsafe|done|done]|].
  intros [store storeInfo] F1 Hk1 Hstore. cbn [fst] in Hstore.
  pose proof (grounded_kept _ _ _ _ Hg Hk1) as Hg1. pose proof (roots_safe_kept _ _ _ Hg Hk1 Hsafe) as Hsafe1.
  eapply runs_bind; [apply runs_try, runs_openInstallRoot; [done..|apply Hsafe1|done|done]|].
  intros b F2 Hk2 Hb. assert (wf_fs F2) as Hwf2 by apply Hk2.
  destruct b as [[bin binInfo]|e].
  2: { apply runs_observe; [done|unfold sys_close; observe|]. intros []. by apply runs_fail. }
  cbn [fst] in Hb. pose proof (opened_at_kept _ _ _ _ Hk2 (proj1 Hsafe1) Hstore) as Hstore2.
  pose proof (roots_safe_kept _ _ _ Hg1 Hk2 Hsafe1) as Hsafe2.
  destruct (_ || _).
  { apply runs_observe; [done|unfold sys_close; observe|]. intros []. by apply runs_fail. }
  assert (~ U store) as HUs by (exact (path_safe_end _ _ _ _ _ (proj1 Hsafe2) (proj1 Hstore2))).
  eapply runs_bind; [by apply runs_try, runs_lock|].
  intros l F3 Hk3 _. assert (wf_fs F3) as Hwf3 by apply Hk3.
  destruct l as [file|e].
  2: { apply runs_observe; [done|unfold sys_close; observe|]. intros []. by apply runs_fail. }
  pose proof (opened_at_kept _ _ _ _ Hk3 (proj1 Hsafe2) Hstore2) as Hstore3.
  pose proof (opened_at_kept _ _ _ _ Hk3 (proj2 Hsafe2) Hb) as Hbin3.
  set (op := mkOp _ _ _ _ _ _).
  eapply runs_bind; [apply runs_try, (runs_checks F3 op snapshot); [done|apply Hstore3]|].
  intros [u|e] F4 Hk4 Hc.
  - destruct Hc as [<- Ho]. apply runs_ret; [done|]. by split_and!.
  - eapply runs_bind; [apply runs_op_close, Hk4|]. intros [] F5 Hk5 _. apply runs_fail, Hk5.
Qed.

End open.
