(* ===== verification/InstallCopy.v ===== *)
(** * Writing the files of a generation

    Names of temporary files; results of steps that all run; and the new file
    a copy or a metadata record leaves, whatever step fails. *)

From S2P Require Import Prelude GoStrings GoPath Sha256 Vfs GoOS VfsLogic VfsEffects VfsStage VfsKept Lifecycle Install InstallOpen.
From stdpp Require Import base list strings gmap.
From Stdlib Require Import ZArith Lia Strings.Ascii Strings.Byte.
Import InstallErr.

Local Open Scope Z_scope.

(** ** Names *)

Lemma lower_hex_slashless s : sforallb lower_hex s = true -> slashless s = true.
Proof.
  apply sforallb_impl. intros c. destruct (Ascii.eqb_spec c slash) as [-> |]; [discriminate|done].
Qed.

Lemma idPattern_single s : idPattern s = true -> single s.
Proof.
  unfold idPattern. rewrite andb_true_iff, Nat.eqb_eq. intros [Hl Hs].
  split_and!; [by intros ->..|by apply lower_hex_slashless].
Qed.

Lemma hex_slashless data : slashless (EncodeToString data) = true.
Proof.
  induction data as [|b data IH]; [done|]. unfold slashless in *. cbn [EncodeToString sforallb].
  rewrite IH. by destruct b.
Qed.

(** A temporary name: a dot, a letter, and more. *)
Lemma temporary_single p c data :
  slashless (String p (String c "")) = true -> forall rest, slashless rest = true ->
  p = "."%char -> c <> "."%char -> single (String p (String c (rest ++ EncodeToString data))).
Proof.
  intros Hp rest Hr -> Hc. split_and!; [discriminate..|by intros [= ->]|].
  assert (forall s, String "." (String c s) = ((String "." (String c "")) ++ s)%string) as Happ by done.
  rewrite Happ, !slashless_app, Hp, Hr, hex_slashless. done.
Qed.

Lemma join_pair a b :
  single a -> single b ->
  filepath_Join [a; b] = (a ++ "/" ++ b)%string /\ components (filepath_Join [a; b]) = [a; b] /\
  is_rooted (filepath_Join [a; b]) = false /\ filepath_Join [a; b] <> ""%string.
Proof.
  intros Ha Hb. assert (is_rooted (a ++ "/" ++ b) = false) as Hr.
  { pose proof (single_not_rooted a Ha) as Hx. destruct Ha as (Ha & _). destruct a as [|ch a]; [done|].
    unfold is_rooted in *. rewrite HasPrefix_slash in Hx. change ((String ch a ++ ?x)%string) with (String ch (a ++ x)%string).
    by rewrite HasPrefix_slash. }
  assert (Split (a ++ "/" ++ b) slash = [a; b]) as Hs.
  { change ("/" ++ b)%string with (String slash b). rewrite Split_app.
    destruct Ha as (_ & _ & _ & Ha), Hb as (_ & _ & _ & Hb). by rewrite !slashless_Split. }
  assert (filepath_Join [a; b] = (a ++ "/" ++ b)%string) as Hj.
  { unfold filepath_Join. destruct Ha as (Ha1 & Ha2 & Ha3 & Ha4). rewrite (proj2 (String.eqb_neq a "") Ha1).
    change (strings_Join [a; b] "/") with (a ++ "/" ++ b)%string.
    unfold filepath_Clean. rewrite Hr, Hs. destruct Hb as (Hb1 & Hb2 & Hb3 & Hb4).
    unfold clean_components. rewrite foldl_plain; [done|].
    repeat constructor; try done; by apply slashless_Split. }
  rewrite Hj. split_and!; [done| |done|].
  - unfold components. rewrite Hs. cbn [List.filter]. destruct Ha as (? & ? & _), Hb as (? & ? & _).
    by rewrite !(proj2 (String.eqb_neq _ _)).
  - destruct Ha as (Ha & _). by destruct a.
Qed.

(** ** Results of joined steps *)

Lemma join_all_failed (E : fs -> Prop) ms acc :
  acc <> [] -> Forall (fun m => hoare E m (fun _ => E) (fun _ => E) E) ms ->
  hoare E (join_all ms acc) (fun _ _ => False) (fun _ => E) E.
Proof.
  revert acc. induction ms as [|m ms IH]; intros acc Hacc Hms w Hw; cbn [join_all].
  { by destruct acc. }
  inversion Hms as [|? ? Hm Hrest]; subst. specialize (Hm w Hw).
  destruct (m w) as [[a|e|] w']; [exact (IH acc Hacc Hrest w' Hm)|apply (IH (acc ++ e)); [|done..]|done].
  by destruct acc.
Qed.

(** The first step failed, or the rest ran after it. *)
Lemma hoare_join_cons (P Q : fs -> Prop) m ms (R : unit -> fs -> Prop) (E C : fs -> Prop) :
  hoare P m (fun _ => Q) (fun e F => e <> [] /\ E F) C ->
  hoare Q (join_all ms []) R (fun _ => E) C ->
  Forall (fun m => hoare E m (fun _ => E) (fun _ => E) E) ms -> (forall F, E F -> C F) ->
  hoare P (join_all (m :: ms) []) R (fun _ => E) C.
Proof.
  intros Hm Hms Hall HC w Hw. cbn [join_all]. specialize (Hm w Hw).
  destruct (m w) as [[a|e|] w']; [exact (Hms w' Hm)| |done].
  destruct Hm as [He HE]. pose proof (join_all_failed E ms ([] ++ e) He Hall w' HE) as Hf.
  destruct (join_all ms ([] ++ e) w') as [[a|e'|] w'']; [done|done|auto].
Qed.

Lemma hoare_join_nil (P : fs -> Prop) (E : gerror -> fs -> Prop) C :
  hoare P (join_all [] []) (fun _ => P) E C.
Proof. by intros w Hw. Qed.

(** The error of a step becomes its result. *)
Lemma hoare_attempt (P : fs -> Prop) m (R : option gerror -> fs -> Prop) E C :
  hoare P m (fun _ => R None) (fun e => R (Some e)) C -> hoare P (attempt m) R E C.
Proof.
  intros Hm w HP. specialize (Hm w HP). unfold attempt, try, mbind, io_bind.
  by destruct (m w) as [[[]|e|] w'].
Qed.

Section grow.
Context `{Kernel} (Hquiet : quiet).
Context (b : base) (p : string) (F : fs) (d : Z) (n : string).

(** The file system with one more file, under [n] in [d]. *)
Definition grown (i : Z) (phi : attr -> Prop) (F' : fs) : Prop :=
  exists a, added b p TFile a F i F' d n /\ phi a.

Lemma grown_impl i (phi psi : attr -> Prop) F' :
  (forall a, phi a -> psi a) -> grown i phi F' -> grown i psi F'.
Proof using Type. intros Hi (a & Ha & Hp). exists a. auto. Qed.

Lemma hoare_grow i f (phi psi : attr -> Prop) :
  (forall k a a', phi a -> f k a = Ok a' -> psi a') ->
  hoare (grown i phi) (update_attr i f) (fun _ => grown i psi) (fun e F' => e <> [] /\ grown i phi F') (grown i phi).
Proof using Hquiet.
  intros Hf. apply hoare_syscall; [done..|]. intros k F1 u F2 (a & Hadd & Hphi) Hu.
  unfold read_attr in Hu. rewrite (add_attr Hadd), lookup_insert_eq in Hu.
  apply bind_Ok_inv in Hu as (a0 & [= <-] & Hu). apply bind_Ok_inv in Hu as (a' & Ha' & [= <- <-]).
  exists a'. split; [|eauto]. destruct Hadd as [H1 H2 H3 H4 H5 H6 H7]. split; try done.
  simpl. by rewrite H6, insert_insert_eq.
Qed.

Lemma hoare_create_file perm :
  (forall l, locate b false p F = Ok l -> place l = Ok (d, n)) ->
  hoare (eq F) (sys_create_excl b p perm) (fun i => grown i (fun a => a_data a = [])) (fun _ => eq F) (eq F).
Proof using Hquiet.
  intros Hat. apply hoare_syscall; [done..|]. intros k F1 i F2 <- Hadd.
  apply add_node_inv in Hadd as (d' & n' & Hadd). destruct (add_at Hadd) as (l & Hl & Hp & _).
  assert ((d', n') = (d, n)) as [= -> ->] by (rewrite (Hat l Hl) in Hp; congruence). by exists (new_attr k perm).
Qed.

(** Only looks, or changes the file: a failure leaves at most the file. *)
Definition at_most (F' : fs) : Prop := F = F' \/ exists i, grown i (fun _ => True) F'.

Lemma grown_at_most i phi F' : grown i phi F' -> at_most F'.
Proof using Type. intros Hg. right. exists i. by eapply grown_impl; [|exact Hg]. Qed.

Lemma hoare_sync_grown i (P : attr -> Prop) :
  Forall (fun m => hoare (grown i P) m (fun _ => grown i P) (fun _ => grown i P) (grown i P))
    [sys_fsync i; sys_close i].
Proof using Hquiet. repeat constructor; by apply hoare_inv_inspect. Qed.

Lemma hoare_join_sync i (P : attr -> Prop) :
  hoare (grown i P) (join_all [sys_fsync i; sys_close i] []) (fun _ => grown i P)
    (fun _ => grown i (fun _ => True)) (grown i (fun _ => True)).
Proof using Hquiet.
  eapply hoare_conseq; [apply (hoare_join_all (grown i P)), hoare_sync_grown|..]; simpl; try done.
  - intros _ F'. by apply grown_impl.
  - intros F'. by apply grown_impl.
Qed.

(** [writeJSON]. *)
Lemma hoare_writeJSON {A} root (marshal : A -> option (list byte)) value :
  b = root_base root ->
  (forall l, locate b false p F = Ok l -> place l = Ok (d, n)) ->
  hoare (eq F) (writeJSON marshal root p value)
    (fun _ F' => exists i, grown i (fun a => marshal value = Some (a_data a)) F')
    (fun _ => at_most) at_most.
Proof using Hquiet.
  intros Hb Hat. unfold writeJSON. destruct (marshal value) as [data|]; [|apply hoare_fail; by left]. rewrite <- Hb.
  eapply hoare_seq; [by apply hoare_create_file|by left|by left|]. intros i.
  eapply hoare_conseq with (Q := fun _ => grown i (fun a => a_data a = data))
    (E := fun _ => grown i (fun _ => True)) (C := grown i (fun _ => True)); try done.
  2: { intros _ F' Hg. exists i. eapply grown_impl; [|exact Hg]. by intros a <-. }
  2, 3: intros; by eapply grown_at_most.
  assert (Forall (fun m => hoare (grown i (fun _ => True)) m (fun _ => grown i (fun _ => True))
    (fun _ => grown i (fun _ => True)) (grown i (fun _ => True)))
    [File_Chmod i publicMetadataMode; sys_fsync i; sys_close i]) as Hall.
  { constructor; [|apply hoare_sync_grown]. eapply hoare_conseq; [apply (hoare_grow i _ (fun _ => True) (fun _ => True))|..]; simpl; try done.
    by intros e F' [_ ?]. }
  eapply hoare_join_cons with (Q := grown i (fun a => a_data a = data)); [|..|exact Hall|done].
  - eapply hoare_conseq; [apply (hoare_grow i _ (fun a => a_data a = []) (fun a => a_data a = data))|..]; simpl; try done.
    + intros k a a' Ha [= <-]. simpl. by rewrite Ha.
    + intros e F' [He Hg]. split; [done|]. by eapply grown_impl; [|exact Hg].
    + intros F'. by apply grown_impl.
  - eapply hoare_join_cons with (Q := grown i (fun a => a_data a = data)); [|apply hoare_join_sync|apply hoare_sync_grown|done].
    eapply hoare_conseq; [apply (hoare_grow i _ (fun a => a_data a = data) (fun a => a_data a = data))|..]; simpl; try done.
    + intros k a a' Ha [= <-]. by simpl.
    + intros e F' [He Hg]. split; [done|]. by eapply grown_impl; [|exact Hg].
    + intros F'. by apply grown_impl.
Qed.

(** ** Copying a product *)

Definition matches (expected : File) (data : list byte) : Prop :=
  Z.of_nat (length data) = f_Size expected /\ EncodeToString (Sum256 data) = f_SHA256 expected.

Lemma hoare_stream_grown i fuel chunk fd off remaining acc :
  hoare (grown i (fun a => a_data a = acc))
    (stream fuel chunk (fun piece => sys_write i (fun old => old ++ piece)) fd off remaining acc)
    (fun data => grown i (fun a => a_data a = data))
    (fun e F' => e <> [] /\ grown i (fun _ => True) F') (grown i (fun _ => True)).
Proof using Hquiet.
  revert off remaining acc. induction fuel as [|fuel IH]; intros off [|r] acc; cbn [stream].
  1, 3: by apply hoare_ret.
  { apply hoare_fail. intros F' Hg. split; [done|]. by eapply grown_impl; [|exact Hg]. }
  eapply hoare_bind with (R := fun _ => grown i (fun a => a_data a = acc)).
  { apply hoare_inspect; [done|intros F'; by apply grown_impl| |done].
    intros F' e Hg. split; [done|]. by eapply grown_impl; [|exact Hg]. }
  intros [|c piece]; [by apply hoare_ret|].
  eapply hoare_bind with (R := fun _ => grown i (fun a => a_data a = acc ++ c :: piece)); [|intros []; apply IH].
  eapply hoare_conseq; [apply (hoare_grow i _ (fun a => a_data a = acc) (fun a => a_data a = acc ++ c :: piece))|..];
    simpl; try done.
  - intros k a a' <- [= <-]. done.
  - intros e F' [He Hg]. split; [done|]. by eapply grown_impl; [|exact Hg].
  - intros F'. by apply grown_impl.
Qed.

Lemma hoare_copy_bytes i input expected :
  hoare (grown i (fun a => a_data a = [])) (copy_bytes input i expected)
    (fun _ => grown i (fun a => matches expected (a_data a)))
    (fun e F' => e <> [] /\ grown i (fun _ => True) F') (grown i (fun _ => True)).
Proof using Hquiet.
  unfold copy_bytes. eapply hoare_bind; [apply hoare_stream_grown|]. intros data.
  destruct (Z.eqb_spec (Z.of_nat (length data)) (f_Size expected)) as [Hl|]; cbn [negb orb].
  2: { apply hoare_fail. intros F' Hg. split; [done|]. by eapply grown_impl; [|exact Hg]. }
  destruct (String.eqb_spec (EncodeToString (Sum256 data)) (f_SHA256 expected)) as [Hs|]; cbn [negb].
  2: { apply hoare_fail. intros F' Hg. split; [done|]. by eapply grown_impl; [|exact Hg]. }
  eapply hoare_conseq; [apply (hoare_grow i _ (fun a => a_data a = data) (fun a => matches expected (a_data a)))|..];
    simpl; try done.
  - intros k a a' Ha [= <-]. simpl. rewrite Ha. done.
  - intros e F' [He Hg]. split; [done|]. by eapply grown_impl; [|exact Hg].
  - intros F'. by apply grown_impl.
Qed.

Lemma hoare_copyProduct source root name expected :
  b = root_base root ->
  (forall l, locate b false p F = Ok l -> place l = Ok (d, n)) ->
  hoare (eq F) (copyProduct source root name p expected)
    (fun _ F' => exists i, grown i (fun a => matches expected (a_data a)) F') (fun _ => at_most) at_most.
Proof using Hquiet.
  intros Hb Hat. unfold copyProduct.
  apply hoare_observe; [unfold sys_open; observe|by left|by left|]. intros input.
  apply hoare_deferring_observes; [unfold sys_close; observe|intros _ F' [i Hg]; by eapply grown_at_most|done|].
  apply hoare_observe; [unfold sys_fstat; observe|by left|by left|]. intros info.
  apply hoare_observe; [apply observes_lift|by left|by left|]. intros [].
  destruct (negb _); [apply hoare_fail; by left|]. rewrite <- Hb.
  eapply hoare_seq; [by apply hoare_create_file|by left|by left|]. intros i.
  eapply hoare_conseq with (Q := fun _ => grown i (fun a => matches expected (a_data a)))
    (E := fun _ => grown i (fun _ => True)) (C := grown i (fun _ => True)); try done.
  2: { intros _ F' Hg. by exists i. }
  2, 3: intros; by eapply grown_at_most.
  eapply hoare_join_cons; [apply hoare_copy_bytes|apply hoare_join_sync|apply hoare_sync_grown|done].
Qed.

End grow.
