(* ===== verification/InstallStage.v ===== *)
(** * Staging a generation

    The owner record, the removal of what an interrupted run left, and the
    staging of a generation: the products and the metadata are complete under
    a temporary name before the generation has its own. *)

From S2P Require Import Prelude GoStrings GoPath Sha256 Vfs GoOS VfsLogic VfsEffects VfsStage VfsKept Lifecycle Install InstallOpen InstallCopy.
From stdpp Require Import base list strings gmap.
From Stdlib Require Import ZArith Lia Strings.Ascii Strings.Byte.
Import InstallErr.

Local Open Scope Z_scope.

Section stage.
Context `{Kernel} `{Json} (Hquiet : quiet) (U : zone).
Context (Hopen : forall n, ~ reserved U n) (Hseal : forall n, sealed U n -> n = currentLink).

Lemma hoare_NewID {A} F (k : string -> io A) Q E C :
  (forall r, hoare (eq F) (k (EncodeToString (le_bytes 16 r))) Q E C) -> hoare (eq F) (NewID ≫= k) Q E C.
Proof using Type. intros Hk w Hw. exact (Hk _ (mkWorld (w_fs w) (S (w_clock w)) (w_log w)) Hw). Qed.

(** ** Renames *)

Lemma hoare_move F b1 p1 b2 p2 from to i :
  (forall l, locate b1 false p1 F = Ok l -> place l = Ok from) ->
  (forall l, locate b2 false p2 F = Ok l -> place l = Ok to) ->
  entry (f_tree F) from.1 from.2 = Some i -> entry (f_tree F) to.1 to.2 <> Some i ->
  hoare (eq F) (sys_rename false b1 p1 b2 p2)
    (fun _ F' => F' = with_tree F (move (f_tree F) from to i) /\ is_Some (entries (f_tree F) to.1))
    (fun _ => eq F) (eq F).
Proof using Hquiet.
  intros Hfrom Hto Hi Hne. apply hoare_syscall; [done..|]. intros n F1 u F' <- Hr.
  apply bind_Ok_inv in Hr as (l1 & Hl1 & Hr). apply bind_Ok_inv in Hr as (l2 & Hl2 & Hr).
  destruct (rename_at_inv _ _ _ _ _ _ _ _ _ _ _ _ Hl1 Hl2 Hr)
    as (j & ds & ns & dt & nt & Hp1 & _ & Hj & Hp2 & He & Hd & Hcase).
  rewrite (Hfrom _ Hl1) in Hp1. rewrite (Hto _ Hl2) in Hp2. injection Hp1 as ->. injection Hp2 as ->.
  cbn [fst snd] in *. assert (j = i) as -> by congruence.
  destruct Hcase as [(_ & Hx & _)|(-> & _)]; [congruence|done].
Qed.

Lemma place_single F d n l : single n -> locate (root_base d) false n F = Ok l -> place l = Ok (d, n).
Proof using Type.
  intros Hn Hl. rewrite (locate_single _ d) in Hl by done.
  destruct (entries (f_tree F) d); [|discriminate]. by injection Hl as <-.
Qed.

(** ** The owner record *)

Lemma unsealed n : n <> currentLink -> ~ sealed U n.
Proof using Hseal. by intros Hn ->%Hseal. Qed.

Lemma grown_kept vol b p F d n i phi F' :
  wf_fs F -> ~ U d -> n <> currentLink -> grown b p F d n i phi F' -> kept U vol F F'.
Proof using Hseal.
  intros Hwf Hd Hn (a & Hadd & _). by eapply kept_added; [done| |by apply unsealed|exact Hd|exact Hadd].
Qed.

Lemma at_most_kept vol b p F d n F' :
  wf_fs F -> ~ U d -> n <> currentLink -> at_most b p F d n F' -> kept U vol F F'.
Proof using Hseal. intros Hwf Hd Hn [<- |[i Hg]]; [by apply kept_refl|by eapply grown_kept]. Qed.

Lemma grown_entry b p F d n i phi F' d' n' :
  grown b p F d n i phi F' ->
  entry (f_tree F') d' n' = if decide ((d, n) = (d', n')) then Some i else entry (f_tree F) d' n'.
Proof using Type. intros (a & Hadd & _). by apply (added_entry _ _ _ _ _ _ _ _ _ _ _ Hadd). Qed.

Lemma grown_free b p F d n i phi F' :
  grown b p F d n i phi F' -> entry (f_tree F) d n = None /\ f_tree F !! i = None /\ f_attr F !! i = None.
Proof using Type.
  intros (a & Hadd & _). split; [exact (add_free Hadd)|]. rewrite (add_ino Hadd). apply next_ino_fresh.
Qed.

Lemma runs_syncDir vol F root name : wf_fs F -> runs U vol F (syncDir root name) (fun _ F' => F = F').
Proof using Hquiet. intros Hwf. apply runs_of_observes; [done|by apply observes_syncDir]. Qed.

Lemma runs_initializeOwner F op :
  wf_fs F -> ~ U (op_store op) -> entry (f_tree F) (op_store op) ownerFile = None ->
  runs U none F (initializeOwner op) (fun _ _ => True).
Proof using Hquiet Hseal Hopen.
  intros Hwf Hs Hfree. unfold initializeOwner. set (s := op_store op) in *.
  apply hoare_NewID. intros r0. apply hoare_NewID. intros r.
  set (tmp := (".owner-" ++ _)%string).
  assert (single tmp) as Htmp by (apply (temporary_single "." "o" _ eq_refl "wner-"); done).
  assert (tmp <> currentLink) as Hcur by discriminate.
  eapply hoare_bind with (R := fun _ F' => exists i phi, grown (root_base s) tmp F s tmp i phi F').
  { eapply hoare_conseq; [apply (hoare_writeJSON Hquiet (root_base s) tmp F s tmp); [done|]|..]; simpl; try done.
    - intros l. by apply place_single.
    - intros _ F' [i Hg]. eauto.
    - intros _ F'. by apply at_most_kept.
    - intros F'. by apply at_most_kept. }
  intros []. apply hoare_ghost. intros F1 (i & phi & Hg).
  destruct (grown_free _ _ _ _ _ _ _ _ Hg) as (Hfree1 & Hi & _).
  pose proof (grown_kept none _ _ _ _ _ _ _ _ Hwf Hs Hcur Hg) as Hk.
  assert (single ownerFile) as Hown by (by split_and!).
  eapply hoare_bind with (R := fun _ => kept U none F).
  { eapply hoare_conseq; [apply (hoare_move F1 _ tmp _ ownerFile (s, tmp) (s, ownerFile) i)|..]; simpl; try done.
    - intros l. by apply place_single.
    - intros l. by apply place_single.
    - rewrite (grown_entry _ _ _ _ _ _ _ _ _ _ Hg). by rewrite decide_True.
    - rewrite (grown_entry _ _ _ _ _ _ _ _ _ _ Hg). rewrite decide_False, Hfree; [done|]. by intros [= ?].
    - intros _ F' [-> Hd]. apply kept_rename; auto; [|right; by apply unsealed].
      simpl. rewrite (grown_entry _ _ _ _ _ _ _ _ _ _ Hg). by rewrite decide_True.
    - by intros _ F' <-.
    - by intros F' <-. }
  intros []. eapply hoare_conseq; [apply (observes_hoare (syncDir s ".") (kept U none F)); by apply observes_syncDir|..]; simpl; auto.
Qed.

(** ** What an interrupted run left *)

(** The names the cleanup may remove. *)
Definition interrupted (n : string) : bool :=
  interrupted_id ".current-" n || interrupted_id ".owner-" n || interrupted_id ".stage-" n.

Definition leftovers (s : Z) : names := fun d n => d = s /\ interrupted n = true.

(** Directories under such names are given up. *)
Definition stale (F : fs) (s : Z) : Prop := forall n j,
  interrupted n = true -> entry (f_tree F) s n = Some j -> is_dir F j = true -> U j.

Section clean.
Context (F : fs) (s : Z) (Hg : grounded U F) (Hstale : stale F s).
Local Abbreviation Inv := (kept U (leftovers s) F).

Lemma clean_drop F' n : interrupted n = true -> Inv F' -> Inv (with_tree F' (del_entry (f_tree F') s n)).
Proof using Type. intros Hn Hk. apply kept_drop; [done|]. right. by left. Qed.

(** What was given up, or made since. *)
Local Abbreviation gone := (fun d => U d \/ f_tree F !! d = None).

Lemma hoare_clean_all fuel n :
  interrupted n = true -> single n -> hoare Inv (remove_all_from fuel s n) (fun _ => Inv) (fun _ => Inv) Inv.
Proof using Hquiet Hg Hstale.
  intros Hn Hsingle. apply (hoare_remove_all Hquiet gone); [| |by intros F' []|done|by intros; apply clean_drop|].
  - intros F' d n' j Hk [Hd|Hd] He _.
    + left. eapply Hg; [exact Hd|]. by eapply kp_unsafe.
    + destruct (kp_new _ _ _ _ Hk d n' j He) as [Hold|]; [|by right].
      unfold entry, entries in Hold. by rewrite Hd in Hold.
  - intros F' d n' Hk [Hd|Hd]; apply kept_drop; auto. right. right. unfold entry, entries. by rewrite Hd.
  - intros F' j Hk He Hd. destruct (kp_new _ _ _ _ Hk s n j He) as [Hold|]; [|by right].
    left. apply (Hstale n j); [done..|]. eapply kept_dir_back; [exact Hk| |done]. by eapply wf_entry, Hold; apply Hg.
Qed.

Lemma hoare_clean_entry op n :
  op_store op = s -> single n -> hoare Inv (clean_entry op n) (fun _ => Inv) (fun _ => Inv) Inv.
Proof using Hquiet Hg Hstale.
  intros Hs Hn. unfold clean_entry, removeInterruptedActivation. rewrite Hs. destruct (interrupted_id ".current-" n) eqn:Hc.
  - assert (interrupted n = true) as Hi by (unfold interrupted; by rewrite Hc).
    apply hoare_observe; [by apply observes_stat|done..|]. intros info.
    destruct (_ || _); [by apply hoare_fail|].
    apply hoare_observe; [unfold sys_readlink; observe|done..|]. intros target.
    destruct (_ || _); [by apply hoare_fail|].
    apply (hoare_remove_at Hquiet _ _ s); [done..|]. by intros; apply clean_drop.
  - destruct (if HasPrefix n ".owner-" then _ else _) as [prefix directory] eqn:Hp.
    destruct (interrupted_id prefix n) eqn:Hid; cbn [negb]; [|by apply hoare_ret].
    assert (interrupted n = true) as Hi.
    { unfold interrupted. destruct (HasPrefix n ".owner-"); injection Hp as <- <-; rewrite Hid; by rewrite ?orb_true_r. }
    apply hoare_observe; [by apply observes_stat|done..|]. intros info.
    apply hoare_observe; [apply observes_lift|done..|]. intros [].
    by apply hoare_clean_all.
Qed.

Lemma hoare_cleanupStaging op :
  op_store op = s -> is_dir F s = true -> hoare Inv (cleanupStaging op) (fun _ => Inv) (fun _ => Inv) Inv.
Proof using Hquiet Hg Hstale.
  intros Hs Hd. unfold cleanupStaging. rewrite Hs. apply hoare_ghost. intros F1 Hk.
  eapply hoare_bind with (R := fun file F' => F1 = F' /\ file = s).
  { apply hoare_inspect; [done|by intros F' <-|by intros F' e <-|]. intros F' file <- Ho. split; [done|].
    rewrite locate_dot in Ho. simpl in Ho. pose proof (kept_dir _ _ _ _ _ Hk Hd) as Hd1. unfold is_dir in Hd1.
    destruct (f_tree F1 !! s) as [[]|]; congruence. }
  intros file. apply hoare_ghost. intros F' [<- ->].
  apply hoare_deferring_observes; [unfold sys_close; observe|done..|].
  eapply hoare_bind with (R := fun ns F' => F1 = F' /\ Forall single ns).
  { apply hoare_inspect; [done|by intros F' <-|by intros F' e <-|]. intros F' ns <- Hns. split; [done|].
    unfold entries in Hns. destruct (f_tree F1 !! s) as [[|m| |]|] eqn:Hm; try discriminate. injection Hns as <-.
    rewrite Forall_fmap, Forall_forall. intros [n' i'] Hin%elem_of_map_to_list. simpl.
    apply (wf_name F1 (kp_wf _ _ _ _ Hk) s n' i'). unfold entry, entries. by rewrite Hm. }
  intros ns. apply hoare_ghost. intros F' [<- Hall].
  destruct (_ <? _)%nat; [apply hoare_fail; by intros F' <-|].
  eapply hoare_pre; [|intros F' <-; exact Hk].
  apply (hoare_each (clean_entry op) ns Inv (fun _ => Inv) Inv).
  rewrite Forall_forall in Hall. intros n Hin. apply hoare_clean_entry; auto.
Qed.

End clean.

(** ** A complete generation *)

(** A regular file with data in [phi]. *)
Definition holds (F : fs) (d : Z) (n : string) (phi : list byte -> Prop) : Prop :=
  exists j a, entry (f_tree F) d n = Some j /\ f_tree F !! j = Some TFile /\ f_attr F !! j = Some a /\ phi (a_data a).

Record generation_in (F : fs) (gi : Z) (g : Generation) : Prop := {
  gi_products : forall name, name ∈ Products -> holds F gi name (matches (file_of (g_Files g) name));
  gi_metadata : holds F gi generationFile (fun data => marshal_generation g = Some data)
}.

Record generation_at (F : fs) (s : Z) (g : Generation) (gd gi : Z) : Prop := {
  ga_dir : entry (f_tree F) s generationDir = Some gd;
  ga_entry : entry (f_tree F) gd (g_ID g) = Some gi;
  ga_in : generation_in F gi g
}.

Definition complete (F : fs) (s : Z) (g : Generation) : Prop := exists gd gi, generation_at F s g gd gi.

Lemma holds_kept vol F F' d n phi :
  kept U vol F F' -> ~ U d -> ~ vol d n -> holds F d n phi -> holds F' d n phi.
Proof using Type.
  intros Hk Hd Hv (j & a & He & Hn & Ha & Hphi). exists j, a.
  split_and!; [by eapply kp_entry|by eapply kept_file|by eapply kept_attr_eq|done].
Qed.

Lemma generation_in_kept vol F F' gi g :
  kept U vol F F' -> ~ U gi -> (forall n, n ∈ generationFile :: Products -> ~ vol gi n) ->
  generation_in F gi g -> generation_in F' gi g.
Proof using Type.
  intros Hk Hgi Hv [Hp Hm]. split.
  - intros name Hn. eapply holds_kept; [exact Hk|done| |by apply Hp]. apply Hv. by right.
  - eapply holds_kept; [exact Hk|done| |done]. apply Hv. by left.
Qed.

(** A file just made. *)
Lemma grown_holds b p F d n i phi F' : grown b p F d n i (fun a => phi (a_data a)) F' -> holds F' d n phi.
Proof using Type.
  intros Hg. pose proof (grown_entry _ _ _ _ _ _ _ _ d n Hg) as He. rewrite decide_True in He by done.
  destruct Hg as (a & Hadd & Hphi). exists i, a.
  split_and!; [done|by apply (added_node _ _ _ _ _ _ _ _ _ Hadd)| |done].
  rewrite (add_attr Hadd). apply lookup_insert_eq.
Qed.

Lemma runs_each_all {A} (P : A -> fs -> Prop) F (f : A -> io unit) l :
  wf_fs F -> (forall a F', a ∈ l -> kept U none F F' -> runs U none F' (f a) (fun _ => P a)) ->
  (forall a F' F'', kept U none F F' -> kept U none F' F'' -> P a F' -> P a F'') ->
  runs U none F (each f l) (fun _ F' => forall a, a ∈ l -> P a F').
Proof using Type.
  intros Hwf. revert F Hwf. induction l as [|a l IH]; intros F Hwf Hf HP; cbn [each].
  { apply runs_ret; [done|]. by intros a ?%elem_of_nil. }
  eapply runs_bind; [apply Hf; [left|by apply kept_refl]|]. intros [] F1 Hk Ha.
  eapply runs_conseq; [apply IH; [apply Hk|..]|].
  - intros b F' Hb Hk'. apply Hf; [by right|by eapply kept_trans].
  - intros b F' F'' Hk1 Hk2. apply HP; [by eapply kept_trans|done].
  - simpl. intros _ F' Hk' Hall b [-> |Hb]%elem_of_cons; [|auto]. eapply HP; [exact Hk|exact Hk'|done].
Qed.

(** ** Filling the temporary directory *)

Section fill.
Context (F : fs) (s gi : Z) (tmp : string) (Hg : grounded U F) (Hs : ~ U s) (Hgi : ~ U gi).
Context (Htmp : single tmp) (Hat : entry (f_tree F) s tmp = Some gi) (Hdir : is_dir F gi = true).

Lemma place_in_stage F' n l :
  kept U none F F' -> single n ->
  locate (root_base s) false (filepath_Join [tmp; n]) F' = Ok l -> place l = Ok (gi, n).
Proof using Hs Htmp Hat Hdir.
  intros Hk Hn Hl. destruct (join_pair tmp n Htmp Hn) as (_ & Hc & Hr & Hne).
  rewrite (locate_pair _ s _ tmp n gi) in Hl; try done; [by injection Hl as <-|apply Htmp|apply Hn| |by eapply kept_dir].
  eapply kp_entry; [exact Hk|done..|by intros []].
Qed.

Lemma runs_grows {A} (m : io A) F' n phi :
  kept U none F F' -> n <> currentLink ->
  hoare (eq F') m (fun _ F'' => exists i, grown (root_base s) (filepath_Join [tmp; n]) F' gi n i (fun a => phi (a_data a)) F'')
    (fun _ => at_most (root_base s) (filepath_Join [tmp; n]) F' gi n)
    (at_most (root_base s) (filepath_Join [tmp; n]) F' gi n) ->
  runs U none F' m (fun _ F'' => holds F'' gi n phi).
Proof using Hseal Hgi.
  intros Hk Hn Hm. assert (wf_fs F') as Hwf by apply Hk.
  eapply hoare_conseq; [exact Hm|..]; simpl; try done.
  - intros _ F'' [i Hi]. split; [by eapply grown_kept|by eapply grown_holds].
  - intros _ F''. by apply at_most_kept.
  - intros F''. by apply at_most_kept.
Qed.

Lemma product_single name : name ∈ Products -> single name.
Proof using Type. unfold Products. rewrite !elem_of_cons, elem_of_nil. intros [-> |[-> |[-> |[]]]]; by split_and!. Qed.

Lemma product_not_current name : name ∈ Products -> name <> currentLink.
Proof using Type. unfold Products. rewrite !elem_of_cons, elem_of_nil. by intros [-> |[-> |[-> |[]]]]. Qed.

Lemma runs_fill input g :
  runs U none F
    (_ ← each (fun name => copyProduct input s name (filepath_Join [tmp; name]) (file_of (g_Files g) name)) Products;
     writeJSON marshal_generation s (filepath_Join [tmp; generationFile]) g)
    (fun _ F' => generation_in F' gi g).
Proof using Hquiet Hseal Hg Hs Hgi Htmp Hat Hdir.
  eapply runs_bind; [apply (runs_each_all (fun name F' => holds F' gi name (matches (file_of (g_Files g) name))))|].
  - apply Hg.
  - intros name F' Hn Hk. apply runs_grows; [done|by apply product_not_current|]. apply hoare_copyProduct; [done..|].
    intros l. apply place_in_stage; [done|by apply product_single].
  - intros name F' F'' _ Hk. eapply holds_kept; [exact Hk|done|by intros []].
  - intros [] F' Hk Hall. eapply runs_conseq; [apply (runs_grows _ F' generationFile (fun data => marshal_generation g = Some data)); [done|done|]|].
    + apply hoare_writeJSON; [done..|]. intros l. apply place_in_stage; [done|by split_and!].
    + simpl. intros _ F'' Hk' Hm. split; [|done]. intros name Hn.
      eapply holds_kept; [exact Hk'|done|by intros []|by apply Hall].
Qed.

End fill.

(** ** Giving the generation its name *)

Lemma changed_in F F' gi g :
  is_dir F gi = true -> changed F gi F' -> generation_in F gi g -> generation_in F' gi g.
Proof using Type.
  intros Hd [-> |[a ->]] [Hp Hm]; [done|].
  assert (forall n phi, holds F gi n phi -> holds (set_attr F gi a) gi n phi) as Hh.
  { intros n phi (j & b & He & Hn & Ha & Hphi). exists j, b. split_and!; [done..| |done]. simpl.
    rewrite lookup_insert_ne; [done|]. intros <-. unfold is_dir in Hd. by rewrite Hn in Hd. }
  split; auto.
Qed.

Section publish.
Context (Htruth : truthful) (F : fs) (s gd gi : Z) (tmp : string) (g : Generation).
Context (Hg : grounded U F) (Hs : ~ U s) (Hgd : ~ U gd) (Htmp : single tmp) (Hid : single (g_ID g)).
Context (Hne1 : tmp <> generationDir) (Hne2 : g_ID g <> generationDir) (Hne3 : g_ID g <> currentLink).
Context (Hfree : entry (f_tree F) s tmp = None) (Hgen : entry (f_tree F) s generationDir = Some gd).
Context (Hdir : is_dir F gd = true) (Hnew : f_tree F !! gi = None) (Hnewa : f_attr F !! gi = None).

Lemma locate_generation F' :
  kept U none F F' ->
  locate (root_base s) false (filepath_Join [generationDir; g_ID g]) F' =
    Ok (mkLoc [gd; s] (Some (g_ID g)) (entry (f_tree F') gd (g_ID g))).
Proof using Hs Hid Hgen Hdir.
  intros Hk. destruct (join_pair generationDir (g_ID g) ltac:(by split_and!) Hid) as (_ & Hc & Hr & Hne).
  apply (locate_pair _ s _ generationDir); try done; [apply Hid|by eapply kp_entry; [exact Hk|done..|intros []]|].
  by eapply kept_dir.
Qed.

(** [Lstat] says the name is missing. *)
Lemma generation_missing F' e :
  kept U none F F' -> is_not_exist [Errno e] = true ->
  let look := (l ← locate (root_base s) false (filepath_Join [generationDir; g_ID g]) F'; i ← found l; info_of i F') in
  (exists k, k_fault k = Fails e) \/ look = Err e \/ look = Panic -> entry (f_tree F') gd (g_ID g) = None.
Proof using Htruth Hs Hid Hgen Hdir.
  intros Hk He look Hlook. unfold is_not_exist, errors_Is in He.
  apply bool_decide_eq_true_1, list_elem_of_singleton in He. injection He as <-.
  unfold look in Hlook. rewrite locate_generation in Hlook by done. cbn [mbind outcome_bind l_ino found] in Hlook.
  destruct (entry (f_tree F') gd (g_ID g)) as [j|] eqn:Hj; [|done]. exfalso.
  assert (is_Some (f_tree F' !! j)) as Hn by (eapply wf_entry, Hj; apply Hk).
  pose proof (wf_attr F' (kp_wf _ _ _ _ Hk) j Hn) as [a Ha]. destruct Hn as [node Hn].
  destruct Hlook as [[k Hf]|Hlook]; [by apply (Htruth k)|].
  unfold found, info_of in Hlook. simpl in Hlook. rewrite Hn, Ha in Hlook. by destruct Hlook.
Qed.

(** The rename. *)
Lemma hoare_name_generation F' :
  kept U none F F' -> entry (f_tree F') s tmp = Some gi -> generation_in F' gi g ->
  entry (f_tree F') gd (g_ID g) = None ->
  hoare (eq F') (sys_rename false (root_base s) tmp (root_base s) (filepath_Join [generationDir; g_ID g]))
    (fun _ F'' => kept U none F F'' /\ generation_at F'' s g gd gi /\ entry (f_tree F'') s tmp = None)
    (fun _ => kept U none F) (kept U none F).
Proof using Hquiet Hseal Hopen Hg Hs Hgd Htmp Hid Hne1 Hne2 Hne3 Hfree Hgen Hdir Hnew.
  intros Hk Hat Hin Hmiss.
  eapply hoare_conseq; [apply (hoare_move F' _ _ _ _ (s, tmp) (gd, g_ID g) gi)|..]; simpl; try done.
  - intros l. by apply place_single.
  - intros l. rewrite locate_generation by done. by intros [= <-].
  - congruence.
  - intros _ F'' [-> Hd].
    assert (forall d n, entry (move (f_tree F') (s, tmp) (gd, g_ID g) gi) d n =
      if decide ((gd, g_ID g) = (d, n)) then Some gi
      else if decide ((s, tmp) = (d, n)) then None else entry (f_tree F') d n) as He
      by (intros; by apply entry_move).
    assert (gd <> gi /\ s <> gi) as [Hx1 Hx2].
    { split; intros ->; [unfold is_dir in Hdir; by rewrite Hnew in Hdir|].
      unfold entry, entries in Hgen. by rewrite Hnew in Hgen. }
    assert (forall n phi, holds F' gi n phi -> holds (with_tree F' (move (f_tree F') (s, tmp) (gd, g_ID g) gi)) gi n phi) as Hh.
    { intros n phi (j & a & Hj & Hn & Ha & Hphi). exists j, a. split_and!; [|exact (node_kept_move _ _ _ _ j _ Hn)|done..].
      simpl. by rewrite He, !decide_False by congruence. }
    split_and!.
    + apply kept_rename; simpl; auto. right.
      destruct (entry (f_tree F) gd (g_ID g)) eqn:Hx; [|done].
      rewrite (kp_entry _ _ _ _ Hk _ _ _ Hx Hgd) in Hmiss; [done|intros []].
    + split; simpl.
      * rewrite He, !decide_False by congruence. eapply kp_entry; [exact Hk|done..|intros []].
      * by rewrite He, decide_True.
      * destruct Hin as [Hp Hm]. split; auto.
    + simpl. rewrite He, decide_False, decide_True; [done..|]. intros [= -> Hx]. 
      rewrite Hx in Hmiss. congruence.
  - by intros _ F'' <-.
  - by intros F'' <-.
Qed.

Lemma hoare_publish_stage F' :
  kept U none F F' -> entry (f_tree F') s tmp = Some gi -> is_dir F' gi = true -> generation_in F' gi g ->
  hoare (eq F')
    (_ ← publishableDirectory s tmp;
     let target := filepath_Join [generationDir; g_ID g] in
     r ← try (sys_stat (root_base s) false target);
     match r with
     | inr e =>
         if is_not_exist e then
           _ ← sys_rename false (root_base s) tmp (root_base s) target;
           syncDir s generationDir
         else fail (errors_New "generation ID already exists")
     | inl _ => fail (errors_New "generation ID already exists")
     end)
    (fun _ F'' => kept U none F F'' /\ generation_at F'' s g gd gi /\ entry (f_tree F'') s tmp = None)
    (fun _ => kept U none F) (kept U none F).
Proof using All.
  intros Hk Hat Hd Hin.
  assert (forall F'', changed F' gi F'' -> kept U none F F'') as Hch.
  { intros F'' [-> |[a ->]]; [done|]. by apply kept_change. }
  eapply hoare_bind with (R := fun _ => changed F' gi).
  { eapply hoare_conseq; [apply (hoare_publishable Hquiet F' s tmp gi)|..]; simpl; auto.
    intros l Hl. rewrite (locate_follow _ _ _ (mkLoc [s] (Some tmp) (Some gi)) gi) in Hl.
    - by injection Hl as <-.
    - rewrite (locate_single _ s) by done. unfold entry in Hat.
      destruct (entries (f_tree F') s) as [m|]; [|done]. simpl in Hat. by rewrite Hat.
    - done.
    - intros t Ht. unfold is_dir in Hd. by rewrite Ht in Hd. }
  intros []. apply hoare_ghost. intros F4 HF4. pose proof (Hch F4 HF4) as Hk4.
  assert (entry (f_tree F4) s tmp = Some gi) as Hat4 by (by destruct HF4 as [-> |[a ->]]).
  pose proof (changed_in _ _ _ _ Hd HF4 Hin) as Hin4.
  assert (wf_fs F4) as Hwf4 by apply Hk4. cbn zeta.
  eapply hoare_bind with (R := fun r F'' => F4 = F'' /\
    match r with inr e => is_not_exist e = true -> entry (f_tree F4) gd (g_ID g) = None | _ => True end).
  { apply hoare_try, hoare_inspect_err; [done|by intros F'' <-| |by intros F'' a <-].
    intros F'' e <- Hr. split; [done|]. intros He. by eapply generation_missing. }
  intros [info|e]; apply hoare_ghost; intros F'' [<- Hmiss].
  { apply hoare_fail. by intros F'' <-. }
  destruct (is_not_exist e); [|apply hoare_fail; by intros F'' <-].
  eapply hoare_bind; [apply hoare_name_generation; auto|]. intros [].
  eapply hoare_conseq; [apply (observes_hoare (syncDir s generationDir)); by apply observes_syncDir|..]; simpl;
    [intros F'' Hx; exact Hx|done|..].
  - by intros _ F'' [? _].
  - by intros F'' [? _].
Qed.

End publish.

(** ** The whole staging *)

Lemma del_entry_absent F d n : entry (f_tree F) d n = None -> with_tree F (del_entry (f_tree F) d n) = F.
Proof using Type.
  intros He. destruct F as [T A L]. unfold with_tree, del_entry, entry, entries in *. simpl in *.
  destruct (T !! d) as [[|m| |]|] eqn:Hd; try done. simpl in He. by rewrite delete_id, insert_id by done.
Qed.

(** A tree that was not there at first goes. *)
Lemma hoare_remove_new vol F s n fuel :
  entry (f_tree F) s n = None -> single n ->
  hoare (kept U vol F) (remove_all_from fuel s n) (fun _ => kept U vol F) (fun _ => kept U vol F) (kept U vol F).
Proof using Hquiet.
  intros Hfree Hn.
  apply (hoare_remove_all Hquiet (fun d => f_tree F !! d = None)); [| |by intros F' []|done|..].
  - intros F' d n' j Hk Hd He _. destruct (kp_new _ _ _ _ Hk d n' j He) as [Hold|]; [|done].
    unfold entry, entries in Hold. by rewrite Hd in Hold.
  - intros F' d n' Hk Hd. apply kept_drop; [done|]. right. right. unfold entry, entries. by rewrite Hd.
  - intros F' Hk. apply kept_drop; auto.
  - intros F' j Hk He _. destruct (kp_new _ _ _ _ Hk s n j He) as [Hold|]; [congruence|done].
Qed.

(** Nothing under the name: nothing goes. *)
Lemma hoare_remove_absent F s n fuel :
  wf_fs F -> entry (f_tree F) s n = None -> single n ->
  hoare (eq F) (remove_all_from fuel s n) (fun _ => eq F) (fun _ => eq F) (eq F).
Proof using Hquiet.
  intros Hwf Hfree Hn. apply (hoare_remove_all Hquiet (fun _ => False)); [done|done|by intros F' <-|done|..].
  - intros F' <-. by rewrite del_entry_absent.
  - intros F' j <-. congruence.
Qed.

Lemma added_dir b p F a i F' d n : added b p (TDir ∅) a F i F' d n -> is_dir F' i = true.
Proof using Type.
  intros Hadd. unfold is_dir. rewrite (add_tree Hadd).
  eapply node_kept_is_dir; [apply node_kept_set_entry|]. by rewrite lookup_insert_eq.
Qed.

Lemma hoare_fill_stage F F' s gd gi tmp source g :
  truthful -> grounded U F -> ~ U s -> ~ U gd -> single tmp -> single (g_ID g) ->
  tmp <> generationDir -> tmp <> currentLink -> g_ID g <> generationDir -> g_ID g <> currentLink ->
  entry (f_tree F) s generationDir = Some gd -> is_dir F gd = true ->
  (exists a, added (root_base s) tmp (TDir ∅) a F gi F' s tmp) ->
  hoare (eq F') (fill_stage s tmp source g)
    (fun _ F'' => kept U none F F'' /\ generation_at F'' s g gd gi /\ entry (f_tree F'') s tmp = None)
    (fun _ => kept U none F) (kept U none F).
Proof using Hquiet Hseal Hopen.
  intros Ht Hg Hs Hgd Htmp Hid Hn1 Hn1' Hn2 Hn3 Hgen Hdir [a Hadd].
  pose proof (next_ino_fresh F) as [Hf1 Hf2]. rewrite <- (add_ino Hadd) in Hf1, Hf2.
  assert (kept U none F F') as Hk by (eapply kept_added; [apply Hg| |exact (unsealed tmp Hn1')|exact Hs|exact Hadd]; by intros m [= <-]).
  assert (entry (f_tree F') s tmp = Some gi) as Hat.
  { rewrite (added_entry _ _ _ _ _ _ _ _ _ _ _ Hadd) by congruence. by rewrite decide_True. }
  pose proof (added_dir _ _ _ _ _ _ _ _ Hadd) as Hd. pose proof (grounded_kept _ _ _ _ Hg Hk) as Hg'.
  pose proof (grounded_fresh _ _ _ Hg Hf1) as HU.
  unfold fill_stage. apply hoare_observe; [unfold sys_opendir; observe|by intros _ F'' <-|by intros F'' <-|]. intros input.
  apply hoare_deferring_observes; [unfold sys_close; observe|by intros _ F'' [? _]|done|].
  apply hoare_assoc.
  eapply hoare_seq with (Err0 := kept U none F') (C0 := kept U none F').
  { exact (runs_fill F' s gi tmp Hg' Hs HU Htmp Hat Hd input g). }
  1, 2: intros; by eapply kept_trans.
  intros []. apply hoare_ghost. intros F3 [Hk3 Hin].
  apply (hoare_publish_stage Ht F s gd gi tmp g); try done; [exact (add_free Hadd)|by eapply kept_trans|..].
  - eapply kp_entry; [exact Hk3|done..|intros []].
  - by eapply kept_dir.
Qed.

Lemma runs_stage F op source g :
  truthful -> grounded U F -> ~ U (op_store op) -> idPattern (g_ID g) = true ->
  (forall gd, entry (f_tree F) (op_store op) generationDir = Some gd -> ~ U gd) ->
  runs U none F (stage op source g)
    (fun _ F' => exists gd gi, ~ U gd /\ ~ U gi /\ generation_at F' (op_store op) g gd gi).
Proof using Hquiet Hseal Hopen.
  intros Ht Hg Hs Hid Hgens. unfold stage. set (s := op_store op) in *.
  assert (single generationDir) as Hgd by (by split_and!).
  eapply runs_bind; [apply runs_openInstallDirectory; [done|apply Hg|done|done|split; [auto|by apply unsealed]|by apply makes_Mkdir]|].
  intros gd F1 Hk [Hgen Hdir]. pose proof (grounded_kept _ _ _ _ Hg Hk) as Hg1. assert (wf_fs F1) as Hwf by apply Hk.
  assert (~ U gd) as HUgd.
  { destruct (kp_new _ _ _ _ Hk _ _ _ Hgen) as [Hold|Hnew]; [by apply Hgens|exact (grounded_fresh _ _ _ Hg Hnew)]. }
  apply runs_observe; [done|unfold sys_close; observe|]. intros [].
  apply runs_observe; [done|by apply observes_stat|]. intros info.
  apply runs_observe; [done|apply observes_lift|]. intros [].
  apply hoare_NewID. intros r. set (tmp := (".stage-" ++ _)%string).
  assert (single tmp) as Htmp by (apply (temporary_single "." "s" _ eq_refl "tage-"); done).
  eapply hoare_seq with (Err0 := kept U none F1) (C0 := kept U none F1); [apply runs_mkdir; try done; split; [auto|by apply unsealed]|done..|].
  intros []. apply hoare_ghost. intros F2 [_ (gi & a & Hadd)].
  pose proof (grounded_fresh _ _ gi Hg1 ltac:(rewrite (add_ino Hadd); apply next_ino_fresh)) as HUgi.
  assert (entry (f_tree F1) s tmp = None) as Hfree by exact (add_free Hadd).
  eapply hoare_deferring.
  - apply (hoare_fill_stage F1 F2 s gd gi); try done; [by apply idPattern_single|intros Hx; by rewrite Hx in Hid..|by exists a].
  - intros []. apply hoare_ghost. intros F3 (Hk3 & Hat & Hgone). apply hoare_ignore.
    eapply hoare_conseq; [apply (hoare_remove_absent F3 s tmp); [apply Hk3|done..]|..]; simpl; [done|..].
    1, 2: intros _ F' <-; split; eauto 6.
    by intros F' <-.
  - intros e. apply hoare_ignore. eapply hoare_conseq; [by apply (hoare_remove_new none F1 s tmp)|..]; done.
Qed.

End stage.
