(* ===== verification/InstallApply.v ===== *)
(** * Applying a generation

    The new generation is complete before a link selects it.  Every way to
    fail or to die before the rename of the link leaves the selection as it
    was; afterwards the link leads to a complete generation. *)

From S2P Require Import Prelude GoStrings GoPath Sha256 Vfs GoOS VfsLogic VfsEffects VfsStage VfsKept Lifecycle Install InstallOpen InstallCopy InstallStage.
From stdpp Require Import base list strings gmap.
From Stdlib Require Import ZArith Lia Strings.Ascii Strings.Byte.
Import InstallErr.

Local Open Scope Z_scope.

Section activate.
Context `{Kernel} `{Json} (Hquiet : quiet) (U : zone).
Context (Hopen : forall n, ~ reserved U n) (Hseal : forall n, sealed U n -> n = currentLink).

(** ** The selected generation *)

Record selected (F : fs) (s : Z) (g : Generation) (gd gi : Z) : Prop := {
  se_link : exists i, entry (f_tree F) s currentLink = Some i /\
    f_tree F !! i = Some (TLink (filepath_Join [generationDir; g_ID g]));
  se_at : generation_at F s g gd gi
}.

Definition hidden (n : string) : bool := HasPrefix n ".".

Lemma id_visible id : idPattern id = true -> hidden id = false.
Proof using Type.
  unfold idPattern, hidden. rewrite andb_true_iff. intros [_ Hs].
  destruct (HasPrefix id ".") eqn:Hp; [|done]. apply HasPrefix_char in Hp as [r ->]. discriminate.
Qed.

Lemma prefix_hidden n p : HasPrefix n (String "." p) = true -> hidden n = true.
Proof using Type.
  unfold hidden, HasPrefix. destruct n as [|c n]; cbn [String.prefix]; [done|].
  destruct (ascii_dec "." c); [by destruct n|done].
Qed.

Lemma interrupted_hidden n : interrupted n = true -> hidden n = true.
Proof using Type.
  unfold interrupted, interrupted_id. rewrite !orb_true_iff, !andb_true_iff.
  intros [[[Hi _]|[Hi _]]|[Hi _]]; by eapply prefix_hidden.
Qed.

(** Changes of hidden names, and of [current] while it does not matter. *)
Lemma generation_at_kept vol F F' s g gd gi :
  kept U vol F F' -> (forall d n, vol d n -> hidden n = true \/ n = currentLink) ->
  idPattern (g_ID g) = true -> ~ U s -> ~ U gd -> ~ U gi ->
  generation_at F s g gd gi -> generation_at F' s g gd gi.
Proof using Type.
  intros Hk Hv Hid Hs Hgd Hgi [Hd He Hin].
  assert (forall d n, hidden n = false -> n <> currentLink -> ~ vol d n) as Hnv.
  { intros d n Hh Hc Hx. destruct (Hv d n Hx); congruence. }
  split.
  - eapply kp_entry; [exact Hk|done..|by apply Hnv].
  - eapply kp_entry; [exact Hk|done..|]. apply Hnv; [by apply id_visible|]. intros Hx. by rewrite Hx in Hid.
  - eapply generation_in_kept; [exact Hk|done| |done]. unfold Products.
    intros n Hn. rewrite !elem_of_cons, elem_of_nil in Hn. by destruct Hn as [-> |[-> |[-> |[-> |[]]]]]; apply Hnv.
Qed.

Lemma selected_kept vol F F' s g gd gi :
  kept U vol F F' -> (forall d n, vol d n -> hidden n = true) ->
  idPattern (g_ID g) = true -> ~ U s -> ~ U gd -> ~ U gi ->
  selected F s g gd gi -> selected F' s g gd gi.
Proof using Type.
  intros Hk Hv Hid Hs Hgd Hgi [(i & He & Hi) Hat]. split.
  - exists i. split; [|by eapply kept_link]. eapply kp_entry; [exact Hk|done..|]. intros Hx%Hv. discriminate.
  - eapply generation_at_kept; eauto.
Qed.

(** ** What follows the activation *)

Lemma runs_publishEntrypoints F op :
  wf_fs F -> ~ U (op_bin op) -> runs U none F (publishEntrypoints op) (fun _ _ => True).
Proof using Hquiet Hseal.
  intros Hwf Hb. unfold publishEntrypoints. apply runs_each; [done|]. intros name F' Hn Hk.
  assert (wf_fs F') as Hwf' by apply Hk.
  eapply runs_bind; [apply runs_try, runs_symlink; [done..|by apply product_single|done|by apply unsealed, product_not_current]|]. intros r F1 Hk1 _.
  assert (wf_fs F1) as Hwf1 by apply Hk1.
  assert (forall m : io unit, observes m -> runs U none F1 (_ ← m; syncDir (op_bin op) ".") (fun _ _ => True)) as Hrest.
  { intros m Hm. apply runs_observe; [done..|]. intros []. eapply runs_conseq; [by apply runs_syncDir|done]. }
  apply Hrest. destruct r as [|e]; [apply observes_ret|].
  destruct (is_exist e); [by apply observes_checkEntrypoints|apply observes_fail].
Qed.

Lemma runs_completeEntrypoints F op snapshot :
  wf_fs F -> ~ U (op_bin op) -> runs U none F (completeEntrypoints op snapshot) (fun _ _ => True).
Proof using Hquiet Hseal.
  intros Hwf Hb. unfold completeEntrypoints. destruct (negb _); [by apply runs_publishEntrypoints|].
  apply runs_observe; [done|by apply observes_checkRoots|]. intros [].
  eapply runs_conseq; [apply runs_of_observes; [done|]|done].
  destruct (sn_owner snapshot); [by apply observes_checkExistingLinks|apply observes_fail].
Qed.

(** ** The activation *)

Definition selection (s : Z) : names := fun d n => d = s /\ n = currentLink.

Section link.
Context (F : fs) (op : operation) (g : Generation) (gd gi : Z).
Context (Hg : grounded U F) (Hid : idPattern (g_ID g) = true).
Context (Hs : ~ U (op_store op)) (Hb : ~ U (op_bin op)) (Hgd : ~ U gd) (Hgi : ~ U gi).
Context (Hat : generation_at F (op_store op) g gd gi).

Local Abbreviation s := (op_store op).

(** Not activated, and activated. *)
Definition linked (b : bool) (F' : fs) : Prop :=
  if b then kept U (selection s) F F' /\ selected F' s g gd gi else kept U none F F'.

Definition either (F' : fs) : Prop := linked false F' \/ linked true F'.

Lemma linked_runs {A} F' (m : io A) Q :
  linked true F' -> runs U none F' m Q -> hoare (eq F') m (fun a F'' => linked true F'' /\ Q a F'') (fun _ => linked true) (linked true).
Proof using Hid Hs Hgd Hgi.
  intros [Hk Hsel] Hm.
  assert (forall F'', kept U none F' F'' -> linked true F'') as Hl.
  { intros F'' Hk'. split.
    - eapply kept_trans; [exact Hk|]. eapply kept_weaken; [|exact Hk']. by intros d n [].
    - eapply selected_kept; [exact Hk'|by intros d n []|done..]. }
  eapply hoare_conseq; [exact Hm|done|..]; cbv beta; eauto. intros a F'' [Hk' HQ]. auto.
Qed.

(** A hidden name goes. *)
Lemma linked_drop b F' n :
  entry (f_tree F) s n = None -> hidden n = true -> linked b F' ->
  linked b (with_tree F' (del_entry (f_tree F') s n)).
Proof using Hid Hs Hgd Hgi.
  intros Hfree Hh Hl. destruct b; cbn [linked] in *; [|by apply kept_drop; auto].
  destruct Hl as [Hk Hsel]. split; [by apply kept_drop; auto|].
  eapply (selected_kept (fun d n' => d = s /\ n' = n) F'); try done; [|by intros d n' [_ ->]].
  apply kept_drop; [apply kept_refl, Hk|]. right. by left.
Qed.

Lemma hoare_link_rename F' tmp :
  single tmp -> hidden tmp = true ->
  (exists i a, added (root_base s) tmp (TLink (filepath_Join [generationDir; g_ID g])) a F i F' s tmp) ->
  hoare (eq F') (sys_rename false (root_base s) tmp (root_base s) currentLink)
    (fun _ => linked true) (fun _ => linked false) (linked false).
Proof using Hquiet Hseal Hopen Hg Hid Hs Hgd Hgi Hat.
  intros Htmp Hh (i & a & Hadd). assert (tmp <> currentLink) as Hne by (by intros ->).
  assert (kept U none F F') as Hk by (by eapply kept_added; [apply Hg| |by apply (unsealed U Hseal tmp)|exact Hs|exact Hadd]).
  assert (entry (f_tree F') s tmp = Some i) as Hi.
  { rewrite (added_entry _ _ _ _ _ _ _ _ _ _ _ Hadd) by done. by rewrite decide_True. }
  assert (f_tree F !! i = None) as Hnew by (rewrite (add_ino Hadd); apply next_ino_fresh).
  pose proof (added_node _ _ _ _ _ _ _ _ _ Hadd ltac:(done)) as Hnode.
  eapply hoare_conseq; [apply (hoare_move Hquiet F' _ _ _ _ (s, tmp) (s, currentLink) i)|..]; simpl; try done.
  - intros l. by apply place_single.
  - intros l. apply place_single. by split_and!.
  - rewrite (added_entry _ _ _ _ _ _ _ _ _ _ _ Hadd) by done. rewrite decide_False by congruence.
    intros Hx%(wf_entry F (proj1 Hg)). rewrite Hnew in Hx. by destruct Hx.
  - intros _ F'' [-> Hd].
    assert (kept U (selection s) F (with_tree F' (move (f_tree F') (s, tmp) (s, currentLink) i))) as Hk'.
    { apply kept_rename; simpl; auto; [by eapply kept_weaken; [|exact Hk]; intros d n []|by split_and!|by left; split|..].
      - right. exact (add_free Hadd).
      - left. by split. }
    split; [done|]. split.
    + exists i. split; [|exact (node_kept_move _ _ _ _ _ _ Hnode)]. simpl.
      rewrite entry_move by done. by rewrite decide_True.
    + eapply generation_at_kept; [exact Hk'|by intros d n [_ ->]; right|done..].
  - by intros _ F'' <-.
  - by intros F'' <-.
Qed.

Lemma hoare_activate snapshot :
  hoare (eq F) (activate op snapshot g) (fun r => linked r.1) (fun _ _ => False) either.
Proof using Hquiet Hseal Hopen Hg Hid Hs Hb Hgd Hgi Hat.
  unfold activate. apply hoare_NewID. intros r. set (tmp := (".current-" ++ _)%string).
  assert (single tmp) as Htmp by (apply (temporary_single "." "c" _ eq_refl "urrent-"); done).
  assert (hidden tmp = true) as Hh by reflexivity.
  assert (~ sealed U tmp) as Hcur by (by apply unsealed). assert (wf_fs F) as Hwf by apply Hg.
  eapply hoare_bind with (R := fun l F' => match l with
    | Some _ => linked false F'
    | None => exists i a, added (root_base s) tmp (TLink (filepath_Join [generationDir; g_ID g])) a F i F' s tmp
    end).
  { apply hoare_attempt. eapply hoare_conseq; [by apply (runs_symlink U Hquiet none F s tmp)|..]; cbv beta; try done.
    - intros [] F' [_ Ha]. exact Ha.
    - intros F' Hk. by left. }
  intros [e|]; [by apply hoare_ret|]. apply hoare_ghost. intros F1 Hadd.
  assert (entry (f_tree F) s tmp = None) as Hfree by (destruct Hadd as (? & ? & Hadd); exact (add_free Hadd)).
  assert (linked false F1) as Hl1.
  { destruct Hadd as (i & a & Hadd). by eapply kept_added; [exact Hwf| |exact Hcur|exact Hs|exact Hadd]. }
  eapply hoare_deferring with (Q0 := fun r => linked r.1) (E0 := fun _ _ => False).
  - eapply hoare_bind with (R := fun e => linked (match e with None => true | Some _ => false end)).
    { apply hoare_attempt. apply hoare_observe; [by apply observes_ctx_Err|by intros e F' <-|intros F' <-; by left|].
      intros []. eapply hoare_conseq; [by apply (hoare_link_rename F1 tmp)|..]; cbv beta; try done.
      intros F' Hl. by left. }
    intros [e|]; [by apply hoare_ret|]. apply hoare_ghost. intros F2 Hl2.
    assert (wf_fs F2) as Hwf2 by apply Hl2.
    eapply hoare_bind with (R := fun _ => linked true); [|intros e; by apply hoare_ret].
    apply hoare_attempt. eapply hoare_conseq; [apply (linked_runs F2 _ (fun _ _ => True)); [done|]|..]; cbv beta; try done.
    + apply runs_observe; [done|by apply observes_syncDir|]. intros []. by apply runs_completeEntrypoints.
    + by intros [] F' [? _].
    + intros F' Hl. by right.
  - intros r0. apply hoare_ignore.
    eapply hoare_conseq; [apply (hoare_remove_at Hquiet (linked r0.1) (root_base s) s tmp)|..]; cbv beta; try done.
    + intros F'. by apply linked_drop.
    + intros F' Hl. destruct r0 as [[] ?]; [by right|by left].
  - intros e w [].
Qed.

End link.

(** ** Up to the activation *)

(** What may go from the store: leftovers of interrupted runs, and the link,
    once the operation has activated. *)
Definition volatile (s : Z) (b : bool) : names := fun d n =>
  d = s /\ (interrupted n = true \/ b = true /\ n = currentLink).

Section apply.
Context (Htruth : truthful) (F : fs) (op : operation) (snapshot : Snapshot) (g : Generation).
Context (Hg : grounded U F) (Hid : idPattern (g_ID g) = true).
Context (Hs : ~ U (op_store op)) (Hb : ~ U (op_bin op)) (Hdir : is_dir F (op_store op) = true).
Context (Hstale : stale U F (op_store op)) (Hown : ownerless snapshot F (op_store op)).
Context (Hgens : forall gd, entry (f_tree F) (op_store op) generationDir = Some gd -> ~ U gd).

Local Abbreviation s := (op_store op).
Local Abbreviation Inv := (kept U (leftovers s) F).

(** A run from a later state. *)
Lemma runs_later {A} F' (m : io A) Q :
  Inv F' -> runs U none F' m Q ->
  hoare (eq F') m (fun a F'' => Inv F'' /\ kept U none F' F'' /\ Q a F'') (fun _ => Inv) Inv.
Proof using Type.
  intros Hk Hm. assert (forall F'', kept U none F' F'' -> Inv F'') as Hl.
  { intros F'' Hk'. eapply kept_trans; [exact Hk|]. eapply kept_weaken; [|exact Hk']. by intros d n []. }
  eapply hoare_conseq; [exact Hm|done|..]; cbv beta; eauto. intros a F'' [? ?]. auto.
Qed.

Lemma hoare_prepare source repair :
  hoare (eq F) (prepare op snapshot g source repair)
    (fun r F' => Inv F' /\ (r = None -> exists gd gi, ~ U gd /\ ~ U gi /\ generation_at F' s g gd gi))
    (fun _ => Inv) Inv.
Proof using Hquiet Hseal Hopen Htruth Hg Hid Hs Hdir Hstale Hown Hgens.
  assert (Inv F) as HF by (apply kept_refl, Hg). unfold prepare.
  apply hoare_observe; [by apply observes_checkEntrypoints|by intros e F' <-|by intros F' <-|]. intros [].
  eapply hoare_bind with (R := fun _ => Inv).
  { destruct (sn_owner snapshot) eqn:Ho; [apply hoare_ret; by intros F' <-|].
    eapply hoare_conseq; [apply (runs_later F _ (fun _ _ => True)); [done|]|..]; cbv beta; try done.
    - apply runs_initializeOwner; [done..|apply Hg|done|]. by apply Hown.
    - by intros _ F' [? _]. }
  intros []. eapply hoare_bind; [by apply (hoare_cleanupStaging Hquiet U F s Hg Hstale op)|]. intros [].
  apply hoare_observe; [by apply observes_reusable|done..|]. intros [c|].
  { apply hoare_ret. by intros F' Hk. }
  apply hoare_ghost. intros F1 Hk1.
  eapply hoare_bind with (R := fun _ F' => Inv F' /\ exists gd gi, ~ U gd /\ ~ U gi /\ generation_at F' s g gd gi).
  { eapply hoare_conseq; [apply (runs_later F1 (stage op source g)); [done|apply runs_stage]|..]; cbv beta; try done.
    - by eapply grounded_kept.
    - intros gd He. destruct (kp_new _ _ _ _ Hk1 _ _ _ He) as [?|Hn]; [by apply Hgens|exact (grounded_fresh _ _ _ Hg Hn)].
    - intros _ F' (? & _ & ?). done. }
  intros [].
  apply hoare_observe; [by apply observes_ctx_Err|by intros e F' [? _]|by intros F' [? _]|]. intros [].
  apply hoare_observe; [by apply observes_checkRoots|by intros e F' [? _]|by intros F' [? _]|]. intros [].
  apply hoare_observe; [by apply observes_checkEntrypoints|by intros e F' [? _]|by intros F' [? _]|]. intros [].
  apply hoare_observe; [|by intros e F' [? _]|by intros F' [? _]|intros []; apply hoare_ret; by intros F' [? ?]].
  destruct (sn_updateOnly snapshot); [by apply observes_checkUpdateSnapshot|apply observes_ret].
Qed.

(** ** Under the lock *)

Definition reached (b : bool) (F' : fs) : Prop :=
  kept U (volatile s b) F F' /\
  (b = true -> exists gd gi, ~ U gd /\ ~ U gi /\ selected F' s g gd gi).

Lemma Inv_reached F' : Inv F' -> reached false F'.
Proof using Type. intros Hk. split; [|done]. eapply kept_weaken; [|exact Hk]. intros d n [-> Hn]. split; auto. Qed.

Lemma linked_reached F' gd gi b F'' :
  Inv F' -> ~ U gd -> ~ U gi -> linked F' op g gd gi b F'' -> reached b F''.
Proof using Type.
  intros Hk Hgd Hgi Hl. destruct b; cbn [linked] in Hl.
  - destruct Hl as [Hk' Hsel]. split; [|eauto]. eapply kept_trans; [eapply kept_weaken; [|exact Hk]|eapply kept_weaken; [|exact Hk']].
    + intros d n [-> Hn]. split; auto.
    + intros d n [-> ->]. split; auto.
  - apply Inv_reached. eapply kept_trans; [exact Hk|]. eapply kept_weaken; [|exact Hl]. by intros d n [].
Qed.

Lemma reached_runs {A} b F' (m : io A) Q :
  reached b F' -> runs U none F' m Q -> hoare (eq F') m (fun _ => reached b) (fun _ => reached b) (reached b).
Proof using Hid Hs.
  intros [Hk Hsel] Hm. assert (forall F'', kept U none F' F'' -> reached b F'') as Hl.
  { intros F'' Hk'. split.
    - eapply kept_trans; [exact Hk|]. eapply kept_weaken; [|exact Hk']. by intros d n [].
    - intros Hb'. destruct (Hsel Hb') as (gd & gi & Hgd & Hgi & Hse). exists gd, gi. split_and!; [done..|].
      eapply selected_kept; [exact Hk'|by intros d n []|done..]. }
  eapply hoare_conseq; [exact Hm|done|..]; cbv beta; eauto. intros a F'' [? _]. auto.
Qed.

Definition anywhere (F' : fs) : Prop := exists b, reached b F'.

Lemma hoare_under_lock source repair :
  hoare (eq F)
    (deferring (op_close op)
       (p ← try (prepare op snapshot g source repair);
        match p with
        | inr e => mret (mkResult g false false, Some e)
        | inl (Some current) =>
            e ← attempt (completeEntrypoints op snapshot);
            mret (mkResult current false true, e)
        | inl None =>
            '(activated, e) ← activate op snapshot g;
            mret (mkResult g activated false, e)
        end))
    (fun r => reached (r_Activated r.1)) (fun _ _ => False) anywhere.
Proof using Hquiet Hseal Hopen Htruth Hg Hid Hs Hb Hdir Hstale Hown Hgens.
  eapply hoare_deferring with (Q0 := fun r => reached (r_Activated r.1)) (E0 := fun _ _ => False).
  - eapply hoare_bind with (R := fun r F' => Inv F' /\
      (r = inl None -> exists gd gi, ~ U gd /\ ~ U gi /\ generation_at F' s g gd gi)).
    { apply hoare_try. eapply hoare_conseq; [apply hoare_prepare|done|..]; cbv beta.
      - intros r F' [? Hr]. split; [done|]. intros [= ->]. auto.
      - by intros e F'.
      - intros F' Hk. exists false. by apply Inv_reached. }
    intros [[c|]|e]; apply hoare_ghost; intros F' [Hk Hr].
    + eapply hoare_bind with (R := fun _ => reached false); [|intros e; by apply hoare_ret].
      apply hoare_attempt. eapply hoare_conseq; [apply (reached_runs false F' _ (fun _ _ => True)); [by apply Inv_reached|]|..];
        cbv beta; try done; [apply runs_completeEntrypoints; [apply Hk|done]|by exists false].
    + destruct (Hr eq_refl) as (gd & gi & Hgd & Hgi & Hat).
      eapply hoare_bind with (R := fun r => reached r.1); [|by intros [b e]; apply hoare_ret].
      eapply hoare_conseq; [apply (hoare_activate F' op g gd gi); try done; by eapply grounded_kept|..]; cbv beta; try done.
      * intros [b e] F''. cbn [fst]. by apply linked_reached.
      * intros F'' [Hl|Hl]; [exists false|exists true]; by apply (linked_reached F' gd gi).
    + apply hoare_ret. intros F'' <-. by apply Inv_reached.
  - intros r. apply hoare_ghost. intros F' Hr.
    eapply hoare_conseq; [apply (reached_runs (r_Activated r.1) F' _ (fun _ _ => True)); [done|]|..]; cbv beta; try done.
    + apply runs_op_close; [done|apply Hr].
    + intros F'' ?. by exists (r_Activated r.1).
  - intros e w [].
Qed.

End apply.

End activate.
