(* ===== verification/InstallAtomic.v ===== *)
(** * Installations are atomic

    The theorem about [Apply] for any file system, any failing call and any
    moment of death; what [Uninstall] and the inspections may change. *)

From S2P Require Import Prelude GoStrings GoPath Sha256 Vfs GoOS VfsLogic VfsEffects VfsStage VfsKept Lifecycle Install InstallOpen InstallCopy InstallStage InstallApply.
From stdpp Require Import base list strings gmap.
From Stdlib Require Import ZArith Lia Strings.Ascii Strings.Byte.
Import InstallErr.

Local Open Scope Z_scope.

Section atomic.
Context `{Kernel} `{Json}.

Definition store_of (F : fs) (paths : Paths) : option Z :=
  dir_at (f_tree F) k_root (root_components (Store paths)).

(** Where an installation may run: [U] is the trees that interrupted runs left
    in the store; the two roots are reached without passing them, the
    generations are not among them, and no component of the paths has the name
    of a leftover or of the link. *)
Record placed (U : Z -> Prop) (F : fs) (paths : Paths) : Prop := {
  pl_wf : wf_fs F;
  pl_known : forall i, U i -> is_Some (f_tree F !! i);
  pl_below : forall d n j, U d -> entry (f_tree F) d n = Some j -> U j;
  pl_store : path_safe U (f_tree F) k_root (root_components (Store paths));
  pl_bin : path_safe U (f_tree F) k_root (root_components (Bin paths));
  pl_names : Forall (fun c => interrupted c = false /\ c <> currentLink)
    (root_components (Store paths) ++ root_components (Bin paths));
  pl_stale : forall s n j, store_of F paths = Some s -> interrupted n = true ->
    entry (f_tree F) s n = Some j -> is_dir F j = true -> U j;
  pl_generations : forall s gd, store_of F paths = Some s -> entry (f_tree F) s generationDir = Some gd -> ~ U gd
}.

(** Directories in [U] are given up; nothing new is called [current]. *)
Definition opening (U : Z -> Prop) : zone := mkZone U (fun n => interrupted n = true) (fun n => n = currentLink).
Definition working (U : Z -> Prop) : zone := mkZone U (fun _ => False) (fun n => n = currentLink).

Lemma opening_working U vol F F' : kept (opening U) vol F F' -> kept (working U) vol F F'.
Proof using Type. intros [Hw Ha Hn He Hnew Hu Hr Hs]. by split. Qed.

(** The names that may change: leftovers in the store, and the link when the
    operation activates. *)
Definition may_change (F : fs) (paths : Paths) (activated : bool) : names := fun d n =>
  (store_of F paths = Some d \/ f_tree F !! d = None) /\
  (interrupted n = true \/ activated = true /\ n = currentLink).

(** The outcome of an operation from [F]. *)
Definition outcome_of (U : Z -> Prop) (F : fs) (paths : Paths) (g : Generation) (activated : bool) (F' : fs) : Prop :=
  kept (working U) (may_change F paths activated) F F' /\
  (activated = true -> exists s gd gi, opened_at F' (Store paths) s /\ selected F' s g gd gi).

Lemma Generation_Validate_id g : Generation_Validate g = Ok tt -> idPattern (g_ID g) = true.
Proof using Type.
  unfold Generation_Validate. destruct (idPattern (g_ID g)); [done|]. by rewrite orb_true_r.
Qed.

Section placed.
Context (U : Z -> Prop) (F : fs) (paths : Paths) (Hpl : placed U F paths).

Lemma placed_grounded r : grounded (mkZone U r (fun n => n = currentLink)) F.
Proof using Hpl. split_and!; apply Hpl. Qed.

Lemma placed_free : roots_free (opening U) paths.
Proof using Hpl.
  destruct (proj1 (Forall_app _ _ _) (pl_names _ _ _ Hpl)) as [H1 H2].
  split_and!; [eapply Forall_impl; [exact H1|]|eapply Forall_impl; [exact H2|]|discriminate];
    intros c [Hi Hc]; (split; [simpl; congruence|done]).
Qed.

Lemma store_old F1 vol s :
  kept (opening U) vol F F1 -> opened_at F1 (Store paths) s -> store_of F paths = Some s \/ f_tree F !! s = None.
Proof using Hpl. intros Hk [Hd _]. eapply dir_at_old; [apply Hpl|exact Hk|done]. Qed.

Lemma opened_stale F1 s :
  kept (opening U) none F F1 -> opened_at F1 (Store paths) s -> stale (working U) F1 s.
Proof using Hpl.
  intros Hk Ho n j Hn He Hd. pose proof (kp_reserved _ _ _ _ Hk s n j Hn He Hd) as Hold.
  destruct (store_old _ _ _ Hk Ho) as [Hs|Hs].
  - eapply pl_stale; [exact Hpl|exact Hs|done..|].
    eapply kept_dir_back; [exact Hk| |done]. eapply wf_entry, Hold. apply Hpl.
  - unfold entry, entries in Hold. by rewrite Hs in Hold.
Qed.

Lemma opened_generations F1 s gd :
  kept (opening U) none F F1 -> opened_at F1 (Store paths) s ->
  entry (f_tree F1) s generationDir = Some gd -> ~ U gd.
Proof using Hpl.
  intros Hk Ho He. destruct (kp_new _ _ _ _ Hk _ _ _ He) as [Hold|Hnew].
  - destruct (store_old _ _ _ Hk Ho) as [Hs|Hs]; [by eapply pl_generations|].
    unfold entry, entries in Hold. by rewrite Hs in Hold.
  - intros [? Hu]%(pl_known _ _ _ Hpl). congruence.
Qed.

Lemma reached_outcome F1 op g b F' :
  op_paths op = paths -> kept (opening U) none F F1 -> opened F1 op ->
  reached (working U) F1 op g b F' -> outcome_of U F paths g b F'.
Proof using Hpl.
  intros Hp Hk [Ho _] [Hk' Hsel]. rewrite Hp in Ho. pose proof (opening_working _ _ _ _ Hk) as Hkw. split.
  - eapply kept_trans; [eapply kept_weaken; [|exact Hkw]; by intros d n []|].
    eapply kept_weaken; [|exact Hk']. intros d n [-> Hn]. split; [|done]. by eapply store_old.
  - intros Hb. destruct (Hsel Hb) as (gd & gi & _ & _ & Hse). exists (op_store op), gd, gi. split; [|done].
    destruct Ho as [Hd Hdir]. split; [|by eapply kept_dir].
    eapply dir_at_kept; [exact Hk'| |eapply (path_safe_kept (working U) F F1 none); try done|done].
    + destruct (proj1 (Forall_app _ _ _) (pl_names _ _ _ Hpl)) as [Hn _].
      eapply Forall_impl; [exact Hn|]. intros c [Hi Hc] d [_ [Hx|[_ Hx]]]; congruence.
    + apply Hpl.
    + apply Hpl.
    + by intros d n [].
    + apply Hpl.
Qed.

Lemma kept_outcome g F' : kept (opening U) none F F' -> outcome_of U F paths g false F'.
Proof using Type.
  intros Hk. split; [|done]. eapply kept_weaken; [|by apply opening_working]. by intros d n [].
Qed.

End placed.

(** ** A check of [placed] *)

Definition entries_of (F : fs) (d : Z) : list (string * Z) :=
  match entries (f_tree F) d with Some m => map_to_list m | None => [] end.

Lemma entries_of_spec F d n j : entry (f_tree F) d n = Some j -> (n, j) ∈ entries_of F d.
Proof using Type.
  unfold entry, entries_of. destruct (entries (f_tree F) d); [|discriminate]. by rewrite elem_of_map_to_list.
Qed.

Definition outside (l : list Z) (i : Z) : bool := negb (bool_decide (i ∈ l)).

Fixpoint path_check (l : list Z) (T : tree) (d : Z) (cs : list string) : bool :=
  outside l d && match cs with
                 | [] => true
                 | c :: rest => match entry T d c with Some j => path_check l T j rest | None => true end
                 end.

Lemma path_check_sound l T d cs : path_check l T d cs = true -> path_safe (fun i => i ∈ l) T d cs.
Proof using Type.
  revert d. induction cs as [|c rest IH]; intros d; cbn [path_check path_safe]; rewrite andb_true_iff;
    unfold outside; rewrite negb_true_iff, bool_decide_eq_false; intros [Hd Hr]; (split; [done|]); [done|].
  destruct (entry T d c); [auto|done].
Qed.

Definition store_check (l : list Z) (F : fs) (s : Z) : bool :=
  forallb (fun e => negb (interrupted e.1) || negb (is_dir F e.2) || bool_decide (e.2 ∈ l)) (entries_of F s) &&
  match entry (f_tree F) s generationDir with Some gd => outside l gd | None => true end.

Definition placed_check (l : list Z) (F : fs) (paths : Paths) : bool :=
  wf_check F && forallb (fun i => bool_decide (is_Some (f_tree F !! i))) l &&
  forallb (fun d => forallb (fun e => bool_decide (e.2 ∈ l)) (entries_of F d)) l &&
  path_check l (f_tree F) k_root (root_components (Store paths)) &&
  path_check l (f_tree F) k_root (root_components (Bin paths)) &&
  forallb (fun c => negb (interrupted c) && negb (String.eqb c currentLink))
    (root_components (Store paths) ++ root_components (Bin paths)) &&
  match store_of F paths with Some s => store_check l F s | None => true end.

Lemma placed_check_sound l F paths : placed_check l F paths = true -> placed (fun i => i ∈ l) F paths.
Proof using Type.
  unfold placed_check. rewrite !andb_true_iff, !forallb_forall. intros [[[[[[Hwf Hk] Hb] Hs] Hbin] Hn] Hst].
  assert (forall i, i ∈ l <-> In i l) as Hin by (intros; apply list_elem_of_In).
  split; [by apply wf_check_sound| | |by apply path_check_sound|by apply path_check_sound|..].
  - intros i Hi%Hin. by eapply bool_decide_eq_true_1, Hk.
  - intros d n j Hd%Hin Hj%entries_of_spec. specialize (Hb d Hd). rewrite forallb_forall in Hb.
    rewrite list_elem_of_In in Hj. by apply Hb, bool_decide_eq_true_1 in Hj.
  - rewrite Forall_forall. intros c Hc%list_elem_of_In%Hn. rewrite andb_true_iff, !negb_true_iff in Hc.
    by destruct Hc as [? ?%String.eqb_neq].
  - intros s n j Hso Hi Hj%entries_of_spec Hd. rewrite Hso in Hst. apply andb_true_iff in Hst as [Ha _].
    rewrite forallb_forall in Ha. rewrite list_elem_of_In in Hj. specialize (Ha _ Hj). cbn [fst snd] in Ha.
    rewrite Hi, Hd in Ha. by apply bool_decide_eq_true_1 in Ha.
  - intros s gd Hso Hgd. rewrite Hso in Hst. apply andb_true_iff in Hst as [_ Ha]. rewrite Hgd in Ha.
    unfold outside in Ha. by rewrite negb_true_iff, bool_decide_eq_false in Ha.
Qed.

(** C5. Installing is atomic. From any file system on which the operation may run, with any
    calls failing and wherever the process dies: what was there keeps its contents, attributes
    and names, but for leftovers of interrupted runs in the store. The selection changes only
    when the result says that the generation is activated, and then the link leads to the new
    generation, every product of it complete with the recorded size and digest and its metadata
    written. After a death the state is one of the two. *)
Theorem Apply_atomic (U : Z -> Prop) (F : fs) (snapshot : Snapshot) (g : Generation) (source : string) (repair : bool) :
  quiet -> truthful -> placed U F (sn_paths snapshot) ->
  hoare (eq F) (Apply snapshot g source repair)
    (fun r => outcome_of U F (sn_paths snapshot) g (r_Activated r.1)) (fun _ _ => False)
    (fun F' => exists activated, outcome_of U F (sn_paths snapshot) g activated F').
Proof.
  intros Hquiet Htruth Hpl. set (paths := sn_paths snapshot) in *.
  assert (kept (opening U) none F F) as Hrefl by (apply kept_refl, Hpl).
  unfold Apply. destruct (Generation_Validate g) as [[]|e|] eqn:Hv.
  2, 3: apply hoare_ret; intros F' <-; by apply kept_outcome.
  pose proof (placed_grounded U F paths Hpl) as Hg.
  eapply hoare_bind with (R := fun o F1 => kept (opening U) none F F1 /\ match o with
    | inl op => op_paths op = paths /\ opened F1 op /\ ownerless snapshot F1 (op_store op)
    | inr _ => True end).
  { apply hoare_try. eapply hoare_conseq; [apply (runs_openOperation Hquiet (opening U) F snapshot)|..]; cbv beta; try done.
    - apply Hg.
    - split; apply Hpl.
    - exact (placed_free U F paths Hpl).
    - intros F' Hk. exists false. by apply kept_outcome. }
  intros [op|e]; apply hoare_ghost; intros F1 [Hk Ho].
  2: { apply hoare_ret. intros F' <-. by apply kept_outcome. }
  destruct Ho as (Hp & Hopened & Hown). destruct (Hopened) as [Hos Hob].
  assert (roots_safe (opening U) F1 paths) as [Hsafe1 Hsafe2].
  { eapply roots_safe_kept; [apply Hg|exact Hk|]. split; apply Hpl. }
  rewrite Hp in Hos, Hob.
  eapply hoare_conseq; [apply (hoare_under_lock Hquiet (working U)); try done|..]; cbv beta; try done.
  - by intros n [].
  - eapply grounded_kept; [apply Hg|]. by apply opening_working.
  - by apply Generation_Validate_id.
  - exact (path_safe_end _ _ _ _ _ Hsafe1 (proj1 Hos)).
  - exact (path_safe_end _ _ _ _ _ Hsafe2 (proj1 Hob)).
  - apply Hos.
  - by eapply opened_stale.
  - intros gd. by eapply opened_generations.
  - intros r F'. by apply reached_outcome.
  - intros F' [b Hr]. exists b. by eapply reached_outcome.
Qed.

End atomic.

(** ** A run that died while staging, and the run after it *)

Definition fresh_snapshot : Snapshot := mkSnap sample_paths None None None "" None None false [].

Definition dying_at (n : nat) : Kernel := kernel_with (fun k => if Nat.eqb k n then Dies else NoFault).

(** What a process leaves that dies with a generation staged that has no name
    yet; its locks die with it. *)
Definition after_death : fs :=
  let F := w_fs (@Apply (dying_at 140) plain_json fresh_snapshot (sample_generation first_id) "/home/u/release" false
                   (sample_world install_disk)).2 in
  mkFs (f_tree F) (f_attr F) ∅.

Definition inspected (F : fs) : Snapshot :=
  match (@Inspect calm_kernel plain_json sample_paths (sample_world F)).1 with
  | Done snapshot => snapshot
  | _ => fresh_snapshot
  end.

Definition rerun : res (Result * option gerror) * world :=
  @Apply calm_kernel plain_json (inspected after_death) (sample_generation next_id) "/home/u/release" false
    (sample_world after_death).

Lemma rerun_activates : match rerun.1 with Done r => r_Activated r.1 | _ => false end = true.
Proof. vm_compute. reflexivity. Qed.

(** The next run removes the leftover tree and activates its own generation. *)
Lemma Apply_atomic_witness :
  exists r w', rerun = (Done r, w') /\
    @outcome_of calm_kernel plain_json (fun i => i ∈ [13; 14; 15; 16; 17]) after_death
      (sn_paths (inspected after_death)) (sample_generation next_id) true (w_fs w').
Proof.
  pose proof (@Apply_atomic calm_kernel plain_json (fun i => i ∈ [13; 14; 15; 16; 17]) after_death
    (inspected after_death) (sample_generation next_id) "/home/u/release" false
    ltac:(by intros n F) ltac:(by intros n)
    ltac:(apply placed_check_sound; vm_compute; reflexivity) (sample_world after_death) eq_refl) as Hr.
  fold rerun in Hr. pose proof rerun_activates as Ha. destruct rerun as [[r|e|] w']; [|discriminate..].
  exists r, w'. split; [done|]. cbn [fst snd] in Ha, Hr. by rewrite Ha in Hr.
Defined.
