(* ===== verification/InstallVerify.v ===== *)
(** * Verifying installed files

    Reading through a limit returns the data of the file, whole pieces at a
    time; a product is accepted exactly when it is the recorded one. *)

From S2P Require Import Prelude GoStrings GoPath Sha256 Vfs GoOS VfsLogic VfsEffects VfsStage VfsKept Lifecycle LifecycleProofs LifecycleAtomic LifecycleSafety Install InstallOpen InstallCopy.
From stdpp Require Import base list strings gmap.
From Stdlib Require Import ZArith Lia Strings.Ascii Strings.Byte.
Import InstallErr.

Local Open Scope Z_scope.

Section verify.
Context `{Kernel} (Hquiet : quiet) (G : Prop) (Hcalm : G -> faultless).

(** ** Reading *)

(** Pieces left to read: full ones, the last one, and the end of the file. *)
Definition pieces (chunk left remaining : nat) : nat :=
  match left with O => 1 | S _ => S (S (Nat.min left remaining / chunk)) end.

Lemma pieces_step chunk left remaining :
  (0 < chunk)%nat -> (0 < remaining)%nat -> (0 < left)%nat ->
  let n := Nat.min (Nat.min chunk remaining) left in
  (0 < remaining - n -> S (pieces chunk (left - n) (remaining - n)) <= pieces chunk left remaining)%nat.
Proof using Type.
  intros Hc Hr Hl n Hn. unfold pieces. destruct left as [|left']; [lia|]. set (left := S left') in *.
  destruct (left - n)%nat as [|x] eqn:Hx; [lia|]. rewrite <- Hx.
  assert (n = chunk) as -> by lia.
  replace (Nat.min left remaining) with (Nat.min (left - chunk) (remaining - chunk) + 1 * chunk)%nat by lia.
  rewrite Nat.div_add by lia. lia.
Qed.

Lemma take_pieces {A} (l : list A) k n :
  (k <= n)%nat -> take k l ++ take (n - length (take k l)) (drop (length (take k l)) l) = take n l.
Proof using Type.
  intros Hk. rewrite length_take. destruct (decide (k <= length l)%nat) as [Hl|Hl].
  - rewrite Nat.min_l by done. rewrite take_take_drop. f_equal. lia.
  - rewrite Nat.min_r, (drop_ge l), take_nil, app_nil_r by lia. by rewrite !take_ge by lia.
Qed.

Lemma hoare_stream_reads F fd a fuel chunk off remaining acc :
  f_attr F !! fd = Some a -> (0 < chunk)%nat -> (off <= length (a_data a))%nat ->
  (0 < remaining -> pieces chunk (length (a_data a) - off) remaining <= fuel)%nat ->
  hoare (eq F) (stream fuel chunk (fun _ => mret tt) fd off remaining acc)
    (fun data F' => F = F' /\ data = acc ++ take remaining (drop off (a_data a)))
    (fun _ F' => F = F' /\ ~ G) (fun F' => F = F' /\ ~ G).
Proof using Hquiet Hcalm.
  intros Ha Hc. revert off remaining acc. induction fuel as [|fuel IH]; intros off [|r] acc Hoff Hfuel; cbn [stream].
  1, 3: apply hoare_ret; intros F' <-; by rewrite app_nil_r.
  { exfalso. specialize (Hfuel ltac:(lia)). unfold pieces in Hfuel. destruct (_ - _)%nat; lia. }
  set (remaining := S r) in *.
  eapply hoare_bind with (R := fun piece F' => F = F' /\ piece = take (Nat.min chunk remaining) (drop off (a_data a))).
  { apply (hoare_look Hquiet G Hcalm); [by intros F' <-|by intros F' e <-|..].
    - intros F' <- _. unfold read_attr. rewrite Ha. simpl. eauto.
    - intros F' piece <-. unfold read_attr. rewrite Ha. simpl. rewrite Nat2Z.id. by intros [= <-]. }
  intros piece. apply hoare_ghost. intros F' [<- Hp].
  assert (length piece = Nat.min (Nat.min chunk remaining) (length (a_data a) - off)) as Hlen.
  { by rewrite Hp, length_take, length_drop. }
  destruct piece as [|c piece'].
  - apply hoare_ret. intros F' <-. split; [done|]. simpl in Hlen.
    rewrite (drop_ge (a_data a) off) by lia. by rewrite take_nil, app_nil_r.
  - set (piece := c :: piece') in *. assert (length piece <> 0%nat) by done.
    eapply hoare_bind with (R := fun _ => eq F); [by apply hoare_ret|]. intros [].
    eapply hoare_conseq; [apply IH|..]; cbv beta; try done.
    + lia.
    + intros Hleft. pose proof (pieces_step chunk (length (a_data a) - off) remaining Hc ltac:(lia) ltac:(lia)) as Hs.
      cbv zeta in Hs. rewrite <- Hlen in Hs. specialize (Hs Hleft). specialize (Hfuel ltac:(lia)).
      replace (length (a_data a) - (off + length piece))%nat with (length (a_data a) - off - length piece)%nat by lia. lia.
    + intros data F' [<- ->]. split; [done|]. rewrite <- app_assoc, <- drop_drop. f_equal.
      rewrite Hp. apply take_pieces. lia.
Qed.

Lemma hoare_read_limited F fd a chunk limit :
  f_attr F !! fd = Some a -> (0 < chunk)%nat ->
  hoare (eq F) (read_limited chunk fd limit)
    (fun data F' => F = F' /\ data = take (Z.to_nat limit) (a_data a))
    (fun _ F' => F = F' /\ ~ G) (fun F' => F = F' /\ ~ G).
Proof using Hquiet Hcalm.
  intros Ha Hc. unfold read_limited, stream_fuel. eapply hoare_conseq; [apply (hoare_stream_reads F fd a)|..]; cbv beta; try done; [lia|]. intros Hl.
  unfold pieces. destruct (_ - _)%nat as [|left]; [lia|].
  pose proof (Nat.Div0.div_le_mono (Nat.min (S left) (Z.to_nat limit)) (Z.to_nat limit) chunk ltac:(lia)). lia.
Qed.

End verify.

(** ** What is accepted *)

Lemma Mode_type fi : Z.land (Mode fi) ModeType = node_mode (fi_node fi).
Proof.
  unfold Mode, go_perm. rewrite !Z.land_lor_distr_l, (land_perm_high _ ModeType) by reflexivity.
  rewrite !land_bit_if, !Z.lor_0_r by reflexivity. by destruct (fi_node fi).
Qed.

Lemma Mode_regular fi : IsRegular (Mode fi) = true <-> fi_node fi = TFile.
Proof. unfold IsRegular. rewrite Mode_type, Z.eqb_eq. destruct (fi_node fi); simpl; split; done. Qed.

Lemma Mode_perm fi : Perm (Mode fi) = Z.land (a_perm (fi_attr fi)) ModePerm.
Proof.
  unfold Perm, Mode, go_perm. rewrite !Z.land_lor_distr_l, (node_mode_low (fi_node fi)) by reflexivity.
  rewrite !land_bit_if, !Z.lor_0_r, Z.lor_0_l by reflexivity. by rewrite <- Z.land_assoc.
Qed.

Lemma Mode_setid fi :
  has_bits (Mode fi) (Z.lor ModeSetuid ModeSetgid) = false <->
  Z.land (a_perm (fi_attr fi)) (Z.lor S_ISUID S_ISGID) = 0.
Proof.
  split; [apply setid_bits|]. intros Hz. rewrite Z.land_lor_distr_r in Hz. apply Z.lor_eq_0_iff in Hz as [Hu Hg].
  unfold has_bits. rewrite negb_false_iff, Z.eqb_eq. unfold Mode, go_perm, bit_if. rewrite Hu, Hg.
  rewrite !Z.land_lor_distr_l, (node_mode_low (fi_node fi)), (land_perm_high _ (Z.lor ModeSetuid ModeSetgid)) by reflexivity.
  rewrite !Z.eqb_refl. by destruct (Z.land _ S_ISVTX =? 0).
Qed.

(** A product as it is recorded: a regular file with one name that only its
    owner can write. *)
Record recorded `{Kernel} (F : fs) (i uid : Z) (expected : File) (a : attr) : Prop := {
  rc_file : f_tree F !! i = Some TFile;
  rc_attr : f_attr F !! i = Some a;
  rc_nlink : nlink (f_tree F) i = 1;
  rc_uid : a_uid a = uid /\ (uid = 0 \/ uid = k_euid);
  rc_perm : Z.land (a_perm a) ModePerm = directoryMode /\ Z.land (a_perm a) (Z.lor S_ISUID S_ISGID) = 0;
  rc_data : matches expected (a_data a)
}.

Lemma validateReadInfo_file `{Kernel} info uid :
  Perm (Mode info) = directoryMode ->
  validateReadInfo info false uid = Ok tt <->
  fi_node info = TFile /\ fi_nlink info = 1 /\ a_uid (fi_attr info) = uid /\ (uid = 0 \/ uid = k_euid) /\
  Z.land (a_perm (fi_attr info)) (Z.lor S_ISUID S_ISGID) = 0.
Proof.
  intros Hp. unfold validateReadInfo, validateInfo. rewrite Hp. change (has_bits directoryMode 18) with false.
  cbn [andb orb negb]. rewrite <- Mode_regular, <- Mode_setid. 
  destruct (Z.eqb_spec (a_uid (fi_attr info)) uid) as [Hu|Hu]; cbn [negb].
  - rewrite Hu. destruct (Z.eqb_spec uid 0) as [H0|H0], (Z.eqb_spec uid k_euid) as [Hk|Hk]; cbn [negb andb orb];
      destruct (IsRegular (Mode info)), (Z.eqb_spec (fi_nlink info) 1), (has_bits (Mode info) (Z.lor ModeSetuid ModeSetgid));
      cbn; split; try done; intuition congruence.
  - split; [|intuition congruence]. repeat (case_match; try discriminate).
Qed.

(** What a name of the root leads to, a final link not followed. *)
Definition leads `{Kernel} (F : fs) (root : Z) (name : string) (i : Z) : Prop :=
  exists l, locate (root_base root) false name F = Ok l /\ l_ino l = Some i.

Definition product_at `{Kernel} (F : fs) (root : Z) (name : string) (uid : Z) (expected : File) : Prop :=
  exists i a, leads F root name i /\ recorded F i uid expected a.

Section exact.
Context `{Kernel} (Hquiet : quiet) (F : fs) (root : Z) (name : string) (uid : Z) (expected : File).
Context (G : Prop) (Hcalm : G -> faultless) (Hgood : G -> product_at F root name uid expected).

Local Abbreviation lost := (fun F' => F = F' /\ ~ G).

Lemma good_recorded i : G -> leads F root name i -> exists a, recorded F i uid expected a.
Proof using Hgood.
  intros HG (l & Hl & Hi). destruct (Hgood HG) as (j & a & (l' & Hl' & Hj) & Hr). exists a.
  assert (i = j) as -> by congruence. done.
Qed.

Lemma hoare_open_product :
  hoare (eq F) (sys_open (root_base root) true name) (fun i F' => F = F' /\ leads F root name i) (fun _ => lost) lost.
Proof using Hquiet Hcalm Hgood.
  apply (hoare_look Hquiet G Hcalm); [by intros F' <-|by intros F' e <-|..].
  - intros F' <- HG. destruct (Hgood HG) as (i & a & (l & Hl & Hi) & Hr).
    change (negb true) with false. rewrite Hl. unfold found. simpl.
    rewrite Hi. simpl. rewrite (rc_file _ _ _ _ _ Hr). eauto.
  - intros F' i <- Ho. split; [done|]. apply bind_Ok_inv in Ho as (l & Hl & Ho). apply bind_Ok_inv in Ho as (j & Hj & Ho).
    apply found_inv in Hj. exists l. split; [done|]. destruct (f_tree F !! j) as [[]|]; congruence.
Qed.

Lemma recorded_info i a info :
  recorded F i uid expected a -> info_of i F = Ok info ->
  validateReadInfo info false uid = Ok tt /\ fi_size info = f_Size expected /\ Perm (Mode info) = directoryMode.
Proof using Type.
  intros [Hf Ha Hn [Hu1 Hu2] [Hp1 Hp2] [Hd1 Hd2]] Hi. unfold info_of in Hi. rewrite Hf, Ha in Hi. injection Hi as <-.
  assert (Perm (Mode (mkInfo i TFile a (nlink (f_tree F) i))) = directoryMode) as Hp by (by rewrite Mode_perm).
  split_and!; [|done..]. by apply validateReadInfo_file.
Qed.

Lemma info_recorded i info :
  info_of i F = Ok info -> validateReadInfo info false uid = Ok tt -> Perm (Mode info) = directoryMode ->
  matches expected (a_data (fi_attr info)) -> recorded F i uid expected (fi_attr info).
Proof using Type.
  intros Hi Hv Hp Hm. apply validateReadInfo_file in Hv as (Hf & Hn & Hu & Hu' & Hs); [|done].
  unfold info_of in Hi. destruct (f_tree F !! i) eqn:Ht, (f_attr F !! i) eqn:Ha; try discriminate. injection Hi as <-.
  cbn [fi_node fi_nlink fi_attr] in *. rewrite Mode_perm in Hp. split; try done. by rewrite Ht, Hf.
Qed.

Lemma hoare_verifyFile :
  hoare (eq F) (verifyFileForUID root name expected uid)
    (fun _ F' => F = F' /\ product_at F root name uid expected) (fun _ => lost) lost.
Proof using Hquiet Hcalm Hgood.
  unfold verifyFileForUID. eapply hoare_bind; [apply hoare_open_product|]. intros i. apply hoare_ghost. intros F' [<- Hl].
  apply hoare_deferring with (Q0 := fun _ F' => F = F' /\ product_at F root name uid expected) (E0 := fun _ => lost).
  2: intros []; apply (hoare_close Hquiet G Hcalm); [by intros F' [<- _]|done].
  2: intros e; apply (hoare_close Hquiet G Hcalm); [by intros F' [<- _]|done].
  assert (forall e, ~ G -> hoare (eq F) (fail (A := unit) e) (fun _ F' => F = F' /\ product_at F root name uid expected) 
    (fun _ => lost) lost) as Hfail.
  { intros e HG. apply hoare_fail. by intros F' <-. }
  eapply hoare_bind with (R := fun info F' => F = F' /\ info_of i F = Ok info).
  { apply (hoare_look Hquiet G Hcalm); [by intros F' <-|by intros F' e <-| |by intros F' info <-].
    intros F' <- HG. destruct (good_recorded i HG Hl) as [a Hr]. unfold info_of.
    rewrite (rc_file _ _ _ _ _ Hr), (rc_attr _ _ _ _ _ Hr). eauto. }
  intros info. apply hoare_ghost. intros F' [<- Hi].
  assert (G -> validateReadInfo info false uid = Ok tt /\ fi_size info = f_Size expected /\ Perm (Mode info) = directoryMode /\
    matches expected (a_data (fi_attr info))) as HG.
  { intros HG. destruct (good_recorded i HG Hl) as [a Hr]. destruct (recorded_info _ _ _ Hr Hi) as (? & ? & ?).
    split_and!; try done. unfold info_of in Hi. rewrite (rc_file _ _ _ _ _ Hr), (rc_attr _ _ _ _ _ Hr) in Hi.
    injection Hi as <-. apply Hr. }
  destruct (validateReadInfo info false uid) as [[]|e|] eqn:Hv; [|apply Hfail; by intros [? _]%HG..]. cbn [lift].
  eapply hoare_bind with (R := fun _ => eq F); [by apply hoare_ret|]. intros [].
  destruct (Z.eqb_spec (fi_size info) (f_Size expected)) as [Hsz|]; cbn [negb orb]; [|apply Hfail; by intros (_ & ? & _)%HG].
  destruct (Z.eqb_spec (Perm (Mode info)) directoryMode) as [Hp|]; cbn [negb]; [|apply Hfail; by intros (_ & _ & ? & _)%HG].
  assert (f_attr F !! i = Some (fi_attr info)) as Ha.
  { unfold info_of in Hi. destruct (f_tree F !! i), (f_attr F !! i); try discriminate. by injection Hi as <-. }
  eapply hoare_bind; [apply (hoare_read_limited Hquiet G Hcalm F i (fi_attr info)); [done|unfold copy_chunk; lia]|].
  intros data. apply hoare_ghost. intros F' [<- ->]. rewrite take_ge by (unfold fi_size in Hsz; lia).
  unfold ensure. destruct (_ && _) eqn:Hm.
  - apply hoare_ret. intros F' <-. split; [done|]. exists i, (fi_attr info). split; [done|]. apply info_recorded; try done.
    apply andb_true_iff in Hm as [H1%Z.eqb_eq H2%String.eqb_eq]. by split.
  - apply Hfail. intros (_ & _ & _ & H1 & H2)%HG. rewrite (proj2 (Z.eqb_eq _ _) H1), (proj2 (String.eqb_eq _ _) H2) in Hm.
    discriminate.
Qed.

End exact.

(** A product is accepted exactly when it is the recorded one: the name leads to a regular
    file with a single name, owned by the installation's user, of mode 0755 without setuid and
    setgid, whose size and SHA-256 are those of the metadata. The reading, in pieces and through
    a limit of one byte more than the recorded size, ends and misses nothing. *)
Theorem verifyFileForUID_exact `{Kernel} (root : Z) (name : string) (expected : File) (uid : Z) (w : world) :
  quiet -> faultless ->
  (verifyFileForUID root name expected uid w).1 = Done tt <-> product_at (w_fs w) root name uid expected.
Proof.
  intros Hq Hcalm. split.
  - intros Hd. pose proof (hoare_verifyFile Hq (w_fs w) root name uid expected False
      (False_ind _) (False_ind _) w eq_refl) as Ho.
    destruct (verifyFileForUID _ _ _ _ _) as [[[]|e|] w']; [|discriminate..]. apply Ho.
  - intros Hp. pose proof (hoare_verifyFile Hq (w_fs w) root name uid expected True
      (fun _ => Hcalm) (fun _ => Hp) w eq_refl) as Ho.
    destruct (verifyFileForUID _ _ _ _ _) as [[[]|e|] w']; [done|by destruct Ho..].
Qed.

Lemma verifyFileForUID_exact_witness :
  @product_at calm_kernel (w_fs (sample_world install_disk)) 4 "microfat" 1000 abc_file.
Proof.
  apply (@verifyFileForUID_exact calm_kernel 4 "microfat" abc_file 1000 (sample_world install_disk)).
  - by intros n F.
  - by intros n.
  - vm_compute. reflexivity.
Defined.
