(* ===== verification/InstallRemove.v ===== *)
(** * Removal and inspection

    [Uninstall] removes the links in the bin directory that lead into the
    store, and nothing else; the inspections change nothing. *)

From S2P Require Import Prelude GoStrings GoPath Sha256 Vfs GoOS VfsLogic VfsEffects VfsStage VfsKept Lifecycle Install InstallOpen InstallCopy InstallStage.
From stdpp Require Import base list strings gmap.
From Stdlib Require Import ZArith Lia Strings.Ascii Strings.Byte.
Import InstallErr.

Local Open Scope Z_scope.

(** Nothing is given up, any name may be new. *)
Definition plain : zone := mkZone (fun _ => False) (fun _ => False) (fun _ => False).

Lemma plain_path T d cs : path_safe plain T d cs.
Proof.
  revert d. induction cs as [|c cs IH]; intros d; (split; [by intros []|]); [done|]. by destruct (entry T d c).
Qed.

Section remove.
Context `{Kernel} `{Json} (Hquiet : quiet).

(** [os.Root.Remove] of a single name: the name is gone, or nothing changed. *)
Lemma hoare_remove_exact F b d n :
  b_stack b = [d] -> single n ->
  hoare (eq F) (remove_at b n)
    (fun _ F' => F' = with_tree F (del_entry (f_tree F) d n)) (fun _ => eq F) (eq F).
Proof using Hquiet.
  intros Hb Hn.
  assert (forall want, hoare (eq F) (syscall (fun _ F => l ← locate b false n F; unlink_at l want F))
    (fun _ F' => F' = with_tree F (del_entry (f_tree F) d n)) (fun _ => eq F) (eq F)) as Hu.
  { intros want. apply hoare_syscall; [done..|]. intros k F1 u F' <- Hr. apply bind_Ok_inv in Hr as (l & Hl & Hr).
    destruct (unlink_at_inv _ _ _ _ _ _ _ _ Hl Hr) as (d' & n' & i' & Hp & _ & _ & -> & _).
    rewrite (locate_single _ d) in Hl by done. destruct (entries (f_tree F) d); [|discriminate].
    injection Hl as <-. by injection Hp as <- <-. }
  unfold remove_at.
  eapply hoare_bind with (R := fun r F' => match r with
    | inl _ => F' = with_tree F (del_entry (f_tree F) d n) | inr _ => F = F' end); [apply hoare_try, (Hu false)|].
  intros [u|e]; [by apply hoare_ret|].
  eapply hoare_bind with (R := fun r F' => match r with
    | inl _ => F' = with_tree F (del_entry (f_tree F) d n) | inr _ => F = F' end); [apply hoare_try, (Hu true)|].
  intros [u|e1]; [by apply hoare_ret|by apply hoare_fail].
Qed.

Lemma hoare_read_link F d n :
  single n ->
  hoare (eq F) (sys_readlink (root_base d) n)
    (fun t F' => F = F' /\ exists i, entry (f_tree F) d n = Some i /\ f_tree F !! i = Some (TLink t))
    (fun _ => eq F) (eq F).
Proof using Hquiet.
  intros Hn. apply hoare_inspect; [done..|]. intros F' t <- Hr. split; [done|].
  apply bind_Ok_inv in Hr as (l & Hl & Hr). apply bind_Ok_inv in Hr as (i & Hi & Hr). apply found_inv in Hi.
  rewrite (locate_single _ d) in Hl by done. unfold entry. destruct (entries (f_tree F) d) as [m|]; [|discriminate].
  injection Hl as <-. simpl in *. exists i. split; [done|]. destruct (f_tree F !! i) as [[]|]; congruence.
Qed.

(** ** The links of an installation *)

Definition bin_of (F : fs) (paths : Paths) : option Z :=
  dir_at (f_tree F) k_root (root_components (Bin paths)).

(** The links that lead into the store, under the given names. *)
Definition own_links (F : fs) (paths : Paths) (removed : list string) : names := fun d n =>
  bin_of F paths = Some d /\ n ∈ removed /\
  exists i, entry (f_tree F) d n = Some i /\ f_tree F !! i = Some (TLink (linkTarget paths n)).

Section links.
Context (F : fs) (op : operation) (Hwf : wf_fs F).
Context (Hbin : bin_of F (op_paths op) = Some (op_bin op) \/ f_tree F !! op_bin op = None).

Definition removing (removed : list string) (F' : fs) : Prop :=
  kept plain (own_links F (op_paths op) removed) F F' /\ removed ⊆ Products /\
  forall n, n ∈ removed -> entry (f_tree F') (op_bin op) n = None.

Lemma removing_more removed name F' :
  removing removed F' -> kept plain (own_links F (op_paths op) (removed ++ [name])) F F'.
Proof using Type.
  intros [Hk _]. eapply kept_weaken; [|exact Hk]. intros d n (Hb & Hn & Hi). split_and!; [done| |done].
  apply elem_of_app. by left.
Qed.

Lemma removing_step removed name F' i :
  removing removed F' -> name ∈ Products ->
  entry (f_tree F') (op_bin op) name = Some i -> f_tree F' !! i = Some (TLink (linkTarget (op_paths op) name)) ->
  removing (removed ++ [name]) (with_tree F' (del_entry (f_tree F') (op_bin op) name)).
Proof using Hwf Hbin.
  intros Hr Hn He Hi. pose proof (removing_more removed name F' Hr) as Hk. destruct Hr as (Hk0 & Hsub & Hgone). split_and!.
  - apply kept_drop; [exact Hk|]. right.
    destruct (entry (f_tree F) (op_bin op) name) as [j|] eqn:Hj; [left|by right].
    destruct Hbin as [Hb|Hb]; [|unfold entry, entries in Hj; by rewrite Hb in Hj].
    assert (name ∉ removed) as Hnr by (intros Hx%Hgone; congruence).
    rewrite (kp_entry _ _ _ _ Hk0 _ _ _ Hj) in He; [|by intros []|intros (_ & Hx & _); by apply Hnr]. injection He as <-.
    split_and!; [done|apply elem_of_app; right; by apply list_elem_of_singleton|]. exists j. split; [done|].
    destruct (wf_entry F Hwf _ _ _ Hj) as [node Hnode]. pose proof (kp_node _ _ _ _ Hk j node Hnode) as Hx.
    destruct node; [congruence| |congruence..]. unfold entries in Hx. rewrite Hi in Hx. by destruct Hx.
  - intros x [Hx| ->%list_elem_of_singleton]%elem_of_app; auto.
  - intros n Hx. simpl. rewrite entry_del_entry. case_decide as Heq; [done|].
    apply Hgone. apply elem_of_app in Hx as [?| ->%list_elem_of_singleton]; [done|]. by destruct Heq.
Qed.

Lemma hoare_remove_links names removed preserved failures :
  names ⊆ Products ->
  hoare (removing removed) (remove_links op names removed preserved failures)
    (fun r => removing r.1.1) (fun _ _ => False) (fun F' => exists removed', removing removed' F').
Proof using Hquiet Hwf Hbin.
  revert removed preserved failures. induction names as [|name rest IH]; intros removed preserved failures Hsub; cbn [remove_links].
  { by apply hoare_ret. }
  assert (name ∈ Products /\ rest ⊆ Products) as [Hn Hrest] by (split; [apply Hsub; left|intros x Hx; apply Hsub; by right]).
  apply hoare_ghost. intros F1 Hr.
  eapply hoare_bind with (R := fun t F' => F1 = F' /\ match t with
    | inl t => exists i, entry (f_tree F1) (op_bin op) name = Some i /\ f_tree F1 !! i = Some (TLink t)
    | inr _ => True end).
  { apply hoare_try. eapply hoare_conseq; [by apply (hoare_read_link F1), product_single|..]; cbv beta; try done.
    intros F' <-. by exists removed. }
  assert (forall F', F1 = F' -> removing removed F') as Heq by (by intros F' <-).
  intros [target|e]; apply hoare_ghost; intros F' [<- Ht].
  2: { destruct (is_not_exist e); (eapply hoare_pre; [by apply IH|exact Heq]). }
  destruct (String.eqb_spec target (linkTarget (op_paths op) name)) as [-> |]; cbn [negb].
  2: { eapply hoare_pre; [by apply IH|exact Heq]. }
  destruct Ht as (i & He & Hi).
  eapply hoare_bind with (R := fun r => removing (match r with Some _ => removed | None => removed ++ [name] end)).
  { unfold attempt. eapply hoare_bind with (R := fun r => removing (match r with inr _ => removed | inl _ => removed ++ [name] end));
      [|by intros [u|e]; apply hoare_ret].
    apply hoare_try. eapply hoare_conseq; [by apply (hoare_remove_exact F1 _ (op_bin op)), product_single|..]; cbv beta; try done.
    - intros _ F' ->. by apply (removing_step removed name F1 i).
    - intros F' <-. by exists removed. }
  intros [e|]; by apply IH.
Qed.

End links.

(** Closing the operation changes locks only. *)
Lemma hoare_close_locks (P : fs -> Prop) op :
  (forall F L, P F -> P (mkFs (f_tree F) (f_attr F) L)) ->
  hoare P (op_close op) (fun _ => P) (fun _ => P) P.
Proof using Hquiet.
  intros HP. unfold op_close, close_lock.
  apply hoare_observe; [unfold sys_close; observe|done..|]. intros [].
  eapply hoare_bind with (R := fun _ => P).
  - apply hoare_ignore, hoare_syscall; [done..|]. intros n F a F' HF [= <- <-]. by apply HP.
  - intros []. apply hoare_ignore. by apply hoare_inv_inspect.
Qed.

Lemma removing_locks F op removed F' L : removing F op removed F' -> removing F op removed (mkFs (f_tree F') (f_attr F') L).
Proof using Type.
  intros ([Hw Ha Hn He Hnew Hu Hr Hs] & Hsub & Hgone). split_and!; [|done..].
  split; try done. by destruct Hw.
Qed.

End remove.

(** C33. Uninstalling removes only the installation's own links. What it reports as removed is
    products, each of them gone from the bin directory; every other name and file, the store
    included, is as it was; a name that is not a link into the store is never removed. Before
    the operation is open, and when it dies, no more than such links is gone. *)
Theorem Uninstall_own_links `{Kernel} `{Json} (F : fs) (snapshot : Snapshot) :
  quiet -> wf_fs F ->
  hoare (eq F) (Uninstall snapshot)
    (fun r F' =>
       kept plain (own_links F (sn_paths snapshot) r.1.1) F F' /\ r.1.1 ⊆ Products /\
       forall bin n, bin_of F (sn_paths snapshot) = Some bin -> n ∈ r.1.1 -> entry (f_tree F') bin n = None)
    (fun _ => kept plain none F)
    (kept plain (own_links F (sn_paths snapshot) Products) F).
Proof.
  intros Hquiet Hwf. unfold Uninstall.
  assert (forall F', kept plain none F F' -> kept plain (own_links F (sn_paths snapshot) Products) F F') as Hnone.
  { intros F' Hk. eapply kept_weaken; [|exact Hk]. by intros d n []. }
  destruct (sn_owner snapshot); [|apply hoare_fail; intros F' <-; by apply kept_refl].
  eapply hoare_bind with (R := fun op F1 => op_paths op = sn_paths snapshot /\ kept plain none F F1 /\ opened F1 op).
  { eapply hoare_conseq; [apply (runs_openOperation Hquiet plain F snapshot)|..]; cbv beta; try done.
    - split; apply plain_path.
    - split_and!; [apply Forall_true; split; by intros []..|by intros []].
    - by intros op F' (Hk & Hp & Ho & _). }
  intros op. apply hoare_ghost. intros F1 (Hp & Hk & [_ [Hb _]]). rewrite <- Hp in *.
  assert (bin_of F (op_paths op) = Some (op_bin op) \/ f_tree F !! op_bin op = None) as Hbin.
  { eapply dir_at_old; [exact Hwf|exact Hk|done]. }
  assert (forall bin, bin_of F (op_paths op) = Some bin -> bin = op_bin op) as Hsame.
  { intros bin Hx. eapply (dir_at_kept plain F F1 none) in Hx; [congruence|done|apply Forall_true; by intros ? ? []|apply plain_path]. }
  assert (forall removed F', removing F op removed F' -> kept plain (own_links F (op_paths op) Products) F F') as Hdie.
  { intros removed F' (Hk' & Hsub & _). eapply kept_weaken; [|exact Hk']. intros d n (? & Hn & ?). split_and!; auto. }
  eapply hoare_conseq with (Q := fun r => removing F op r.1.1) (E := fun _ _ => False)
    (C := fun F' => exists removed, removing F op removed F'); cbv beta; [|done|..].
  - eapply hoare_deferring with (Q0 := fun r => removing F op r.1.1) (E0 := fun _ _ => False).
    + eapply hoare_bind; [eapply hoare_pre; [by apply (hoare_remove_links Hquiet F op Hwf Hbin)|]|].
      * intros F' <-. split_and!; [eapply kept_weaken; [|exact Hk]; by intros d n []|set_solver..].
      * intros [[removed preserved] failures]. cbn [fst].
        eapply hoare_bind with (R := fun _ => removing F op removed); [|by intros s; apply hoare_ret].
        apply hoare_attempt. eapply hoare_conseq; [apply (observes_hoare _ (removing F op removed)); by apply observes_syncDir|..];
          cbv beta; try done. intros F' Hr. by exists removed.
    + intros r. eapply hoare_conseq; [apply (hoare_close_locks Hquiet (removing F op r.1.1)); intros; by apply removing_locks|..]; cbv beta; try done.
      intros F' Hr. by exists r.1.1.
    + intros e w [].
  - intros r F' (Hk' & Hsub & Hgone). split_and!; [done..|]. intros bin n Hx%Hsame Hn. subst bin. auto.
  - done.
  - intros F' [removed Hr]. by eapply Hdie.
Qed.

(** The inspections look and change nothing, whatever they return and wherever they die:
    the ones before an installation, an update and an uninstallation, and those of an installed
    program about itself. *)
Theorem inspections_change_nothing `{Kernel} `{Json} (paths : Paths) (original physical : string) :
  quiet ->
  observes (Inspect paths) /\ observes (InspectUpdate physical) /\
  observes (ReadInstallation physical) /\ observes (ValidateDiscovery original physical).
Proof.
  intros Hquiet. split_and!; [by apply observes_Inspect|by apply observes_InspectUpdate|by apply observes_ReadInstallation|].
  by apply observes_ValidateDiscovery.
Qed.

Lemma inspections_change_nothing_witness :
  hoare (eq install_disk) (@Inspect calm_kernel plain_json sample_paths)
    (fun _ => eq install_disk) (fun _ => eq install_disk) (eq install_disk).
Proof.
  apply (proj1 (@inspections_change_nothing calm_kernel plain_json sample_paths "" "/home/u/store" ltac:(by intros n F))).
Defined.

(** ** A run *)

(** A home with an installation of which one link was replaced by a file. *)
Definition installed_tree : tree :=
  <[1 := TDir {["home"%string := 2]}]>
    (<[2 := TDir {["u"%string := 3]}]>
      (<[3 := TDir (<["bin"%string := 4]> {["store"%string := 5]})]>
        (<[4 := TDir (<["microfat"%string := 6]>
                       (<["microfat-stub"%string := 7]> {["other"%string := 8]}))]>
          (<[5 := TDir {["owner.json"%string := 9]}]>
            (<[6 := TLink "/home/u/store/current/microfat"]> (<[7 := TFile]> (<[8 := TFile]> {[9 := TFile]}))))))).

Definition sample_owner : Owner := mkOwner 1 "microfat-installer" first_id 1000 "/home/u/bin" "/home/u/store".

Definition installed_disk : fs := mkFs installed_tree
  (<[1 := root_attr 493]> (<[2 := root_attr 493]> (<[3 := plain_attr 493 []]> (<[4 := plain_attr 493 []]>
    (<[5 := plain_attr 493 []]> (<[6 := plain_attr 511 []]> (<[7 := plain_attr 420 []]> (<[8 := plain_attr 420 []]>
      {[9 := plain_attr 420 (put_fields (owner_fields sample_owner))]})))))))) ∅.

Definition removal_snapshot : Snapshot := mkSnap sample_paths (Some sample_owner) None None "" None None false [].

Definition removal : res (list string * list string * gerror) * world :=
  @Uninstall calm_kernel plain_json removal_snapshot (sample_world installed_disk).

Lemma removal_result : removal.1 = Done (["microfat"%string], ["microfat-stub"%string], ErrConflict).
Proof. vm_compute. reflexivity. Qed.

(** One link goes; the file that took the place of another stays. *)
Lemma Uninstall_own_links_witness :
  exists w', removal = (Done (["microfat"%string], ["microfat-stub"%string], ErrConflict), w') /\
    kept plain (@own_links calm_kernel installed_disk sample_paths ["microfat"%string]) installed_disk (w_fs w') /\
    ["microfat"%string] ⊆ Products /\
    forall bin n, @bin_of calm_kernel installed_disk sample_paths = Some bin -> n ∈ ["microfat"%string] ->
      entry (f_tree (w_fs w')) bin n = None.
Proof.
  pose proof (@Uninstall_own_links calm_kernel plain_json installed_disk removal_snapshot ltac:(by intros n F)
    ltac:(apply wf_check_sound; vm_compute; reflexivity) (sample_world installed_disk) eq_refl) as Hr.
  fold removal in Hr. pose proof removal_result as Ha. destruct removal as [r w']. cbn [fst] in Ha. subst r.
  exists w'. split; [done|]. exact Hr.
Defined.
