(* ===== verification/StubEnv.v ===== *)
(** * The environment of the payload ([cmd/microfat-stub])

    The launcher passes the user's environment on to the payload, with hints
    about its choice and the limits of the container, and with settings for the
    Go runtime where the user has none.  The list of strings is kept with an
    index of the position of every variable. *)

From S2P Require Import Prelude GoStrings GoPath GoFloat Format MicroarchFeatures MicroarchSelect CgroupSize CgroupTuning CgroupHierarchy.
From stdpp Require Import base list strings gmap.
From Stdlib Require Import ZArith Lia Floats Strings.Ascii.

Local Open Scope Z_scope.

(** ** Names ([format.go]) *)

Local Open Scope string_scope.

Definition EnvSelectedVariant : string := "MICROFAT_SELECTED_VARIANT".
Definition EnvHostArch : string := "MICROFAT_HOST_ARCH".
Definition EnvHostLevel : string := "MICROFAT_HOST_LEVEL".
Definition EnvExecMode : string := "MICROFAT_EXEC_MODE".
Definition EnvDispatchMode : string := "MICROFAT_DISPATCH_MODE".
Definition EnvSelectedSHA256 : string := "MICROFAT_SELECTED_SHA256".
Definition EnvSelectedSize : string := "MICROFAT_SELECTED_SIZE".
Definition EnvCgroupVersion : string := "MICROFAT_CGROUP_VERSION".
Definition EnvCgroupGOMEMLIMIT : string := "MICROFAT_CGROUP_GOMEMLIMIT".
Definition EnvCgroupGOMAXPROCS : string := "MICROFAT_CGROUP_GOMAXPROCS".
Definition EnvCgroupLimitBytes : string := "MICROFAT_CGROUP_LIMIT_BYTES".
Definition EnvCgroupHighBytes : string := "MICROFAT_CGROUP_HIGH_BYTES".
Definition EnvCgroupEffectiveLimitBytes : string := "MICROFAT_CGROUP_EFFECTIVE_LIMIT_BYTES".
Definition EnvCgroupCPUs : string := "MICROFAT_CGROUP_CPUS".
Definition EnvCgroupGOGC : string := "MICROFAT_CGROUP_GOGC".
Definition EnvCgroupGOGCSkippedReason : string := "MICROFAT_CGROUP_GOGC_SKIPPED_REASON".
Definition EnvCgroupGCProfile : string := "MICROFAT_CGROUP_GC_PROFILE".
Definition EnvAutotune : string := "MICROFAT_AUTOTUNE".
Definition EnvCPUPolicy : string := "MICROFAT_CPU_POLICY".
Definition EnvDryRun : string := "MICROFAT_DRY_RUN".
Definition EnvMemRatio : string := "MICROFAT_MEM_RATIO".
Definition EnvGCProfile : string := "MICROFAT_GC_PROFILE".
Definition EnvLiveHeapEstimate : string := "MICROFAT_LIVE_HEAP_ESTIMATE".
Definition EnvPolicyApplied : string := "MICROFAT_POLICY_APPLIED".
Definition EnvOverrideReason : string := "MICROFAT_OVERRIDE_REASON".
Definition EnvOriginalExe : string := "MICROFAT_ORIGINAL_EXE".

Definition ExecModeAuto : string := "auto".
Definition ExecModeMemfd : string := "memfd".
Definition ExecModeCache : string := "cache".

(** ** Environments in Go *)

(** [strings.Cut(s, "=")]: what is before and after, if it is there. *)
Fixpoint Cut (s : string) (sep : ascii) : option (string * string) :=
  match s with
  | EmptyString => None
  | String c rest =>
      if Ascii.eqb c sep then Some ("", rest)
      else match Cut rest sep with
           | Some (before, after) => Some (String c before, after)
           | None => None
           end
  end.

Definition eq_sign : ascii := "=".

(** [os.LookupEnv]: the first string of the environment with the key. *)
Fixpoint lookup_env (env : list string) (key : string) : option string :=
  match env with
  | [] => None
  | e :: rest =>
      match Cut e eq_sign with
      | Some (k, v) => if String.eqb k key then Some v else lookup_env rest key
      | None => lookup_env rest key
      end
  end.

Definition LookupEnv (env : list string) (key : string) : option string :=
  if String.eqb key "" then None else lookup_env env key.

Definition Getenv (env : list string) (key : string) : string := default "" (LookupEnv env key).

(** [fmt.Sprintf("%.2f", x)]: the exact value in hundredths, half to even. *)
Definition hundredths (m : positive) (e : Z) : Z :=
  let n := Zpos m * 100 in
  if (0 <=? e)%Z then n * 2 ^ e
  else
    let d := 2 ^ (- e) in
    let q := n / d in
    let r := n mod d in
    if (d <? 2 * r)%Z || ((2 * r =? d)%Z && Z.odd q) then q + 1 else q.

(** Up to 309 digits before the point. *)
Definition digits_2f (n : Z) : string :=
  dec_digits 310 (n / 100) "" ++ "." ++ String (digit_char (n / 10 mod 10)) (String (digit_char (n mod 10)) "").

Definition Sprintf_2f (x : float64) : string :=
  match x with
  | S754_nan => "NaN"
  | S754_infinity s => if s then "-Inf" else "+Inf"
  | S754_zero s => if s then "-0.00" else "0.00"
  | S754_finite s m e => (if s then "-" else "") ++ digits_2f (hundredths m e)
  end.

(** ** The list with its index ([exec_linux.go]) *)

Record environ := mkEnviron { ev_list : list string; keyIndex : gmap string nat }.

(** Indexes in [keyIndex] are lengths of the list at some time, so never out
    of range ([environ_index]). *)
Definition upsertEnv (env : environ) (key val : string) : environ :=
  let entry := key ++ "=" ++ val in
  match keyIndex env !! key with
  | Some idx => mkEnviron (<[idx := entry]> (ev_list env)) (keyIndex env)
  | None => mkEnviron (ev_list env ++ [entry]) (<[key := length (ev_list env)]> (keyIndex env))
  end.

Definition internal_keys : list string :=
  [EnvOriginalExe; EnvSelectedVariant; EnvHostArch; EnvHostLevel; EnvExecMode; EnvDispatchMode; EnvSelectedSHA256;
   EnvSelectedSize; EnvPolicyApplied; EnvOverrideReason; EnvCgroupVersion; EnvCgroupLimitBytes; EnvCgroupHighBytes;
   EnvCgroupEffectiveLimitBytes; EnvCgroupCPUs; EnvCgroupGOMEMLIMIT; EnvCgroupGOMAXPROCS; EnvCgroupGOGC;
   EnvCgroupGCProfile; EnvCgroupGOGCSkippedReason].

Definition isMicrofatInternalEnv (k : string) : bool := existsb (String.eqb k) internal_keys.

(** One string of the inherited environment. *)
Definition inherit (env : environ) (e : string) : environ :=
  match Cut e eq_sign with
  | None => mkEnviron (ev_list env ++ [e]) (keyIndex env)
  | Some (k, _) =>
      if String.eqb k "" then mkEnviron (ev_list env ++ [e]) (keyIndex env)
      else if isMicrofatInternalEnv k then env
      else match keyIndex env !! k with
           | Some idx => mkEnviron (<[idx := e]> (ev_list env)) (keyIndex env)
           | None => mkEnviron (ev_list env ++ [e]) (<[k := length (ev_list env)]> (keyIndex env))
           end
  end.

Definition inherited_environ (baseEnv : list string) : environ := foldl inherit (mkEnviron [] ∅) baseEnv.

Section stub.
Context {GU : GoUnicode} {GF : GoFloat}.

(** The launcher's own environment, the page size, [filepath.Abs], and the
    result of [cgroup.ReadLimits]. *)
Context (process : list string) (page : Z) (abs : string -> option string) (read : outcome cgroup_err Limits).

(** ** Tuning ([runtime_tuning_linux.go]) *)

Definition autotuneEnabled : string := "enabled".
Definition autotuneDisabled : string := "disabled".
Definition autotuneDryRun : string := "dry-run".

Definition resolveRequestedExecMode : string :=
  let requested := Getenv process EnvExecMode in
  let requested := if String.eqb requested "" then Getenv process EnvDispatchMode else requested in
  if EqualFold requested ExecModeCache then ExecModeCache
  else if EqualFold requested ExecModeMemfd then ExecModeMemfd
  else ExecModeAuto.

Definition runtimeAutotuneStatus : string :=
  let opt := TrimSpace (Getenv process EnvAutotune) in
  if String.eqb opt "0" || EqualFold opt "false" then autotuneDisabled
  else
    let opt := TrimSpace (Getenv process EnvDryRun) in
    if String.eqb opt "1" || EqualFold opt "true" then autotuneDryRun else autotuneEnabled.

Definition runtimeRetainedExecutableBytes (entry : VariantEntry) (execMode : string) : Z :=
  if negb (String.eqb execMode ExecModeMemfd) || (UncompressedSize entry <=? 0)%Z ||
     (MaxPayloadSize <? UncompressedSize entry)%Z
  then 0
  else i64_mul (Z.quot (i64_sub (i64_add (UncompressedSize entry) page) 1) page) page.

Definition retain (limits : Limits) (retained : Z) : Limits :=
  mkLimits retained (CgroupVersion limits) (MemoryLimitBytes limits) (MemoryHighBytes limits)
    (EffectiveMemoryLimitBytes limits) (MemoryLimitFinite limits) (MemoryHighFinite limits) (CPUQuota limits) (CPUs limits).

(** The value of an indexed variable: [_, value, _ := strings.Cut(env[index], "=")]. *)
Definition indexed_value (env : environ) (key : string) : option string :=
  match keyIndex env !! key with
  | Some index => Some match ev_list env !! index with
                       | Some e => match Cut e eq_sign with Some (_, v) => v | None => "" end
                       | None => ""
                       end
  | None => None
  end.

Definition resolveRuntimeTuning (limits : Limits) (entry : VariantEntry) (execMode : string) (env : environ) :
    Limits * TuningPlan :=
  let gcProfile := (ParseGCProfile (Getenv process EnvGCProfile)).1 in
  let liveHeap := match ParseByteSize (Getenv process EnvLiveHeapEstimate) with Ok v => v | _ => 0 end in
  let retained := runtimeRetainedExecutableBytes entry execMode in
  let limits := if (0 <? retained)%Z then retain limits retained else limits in
  let plan := ResolveTuningPlanWithProfile limits (Getenv process EnvMemRatio) DefaultMemoryRatio
                DefaultMinHeadroomBytes gcProfile liveHeap in
  let plan := ApplyCPUPolicy plan (ResolveCPUPolicy (Getenv process EnvCPUPolicy) CPUPolicyStatic) in
  let plan := match indexed_value env "GOMEMLIMIT" with
              | Some value => ResolveBatchGOGC plan (RuntimeMemoryLimit value)
              | None => plan
              end in
  (limits, plan).

(** ** Building the environment ([exec_linux.go]) *)

Definition has_key (env : environ) (key : string) : bool := bool_decide (is_Some (keyIndex env !! key)).

Definition upsert_if (b : bool) (env : environ) (key val : string) : environ :=
  if b then upsertEnv env key val else env.

Definition populateCgroupEnviron (env : environ) (limits : Limits) : environ :=
  let env := upsertEnv env EnvCgroupVersion (Itoa (CgroupVersion limits)) in
  let env := upsertEnv env EnvCgroupLimitBytes (Itoa (MemoryLimitBytes limits)) in
  let env := upsert_if (HasMemoryHigh limits) env EnvCgroupHighBytes (Itoa (MemoryHighBytes limits)) in
  let env := upsert_if (EffectiveMemoryLimit limits).2 env EnvCgroupEffectiveLimitBytes
               (Itoa (EffectiveMemoryLimitBytes limits)) in
  upsertEnv env EnvCgroupCPUs (Sprintf_2f (CPUQuota limits)).

Definition resolveBatchGCEnviron (env : environ) (plan : TuningPlan) : environ :=
  upsert_if (negb (has_key env "GOGC") && negb (String.eqb (GOGCSkippedReason plan) "")) env
    EnvCgroupGOGCSkippedReason (GOGCSkippedReason plan).

Definition applyRuntimeTuningPlan (env : environ) (plan : TuningPlan) : environ :=
  let env := upsert_if (negb (has_key env "GOMEMLIMIT") && negb (String.eqb (GOMEMLIMITStr plan) "")) env
               "GOMEMLIMIT" (GOMEMLIMITStr plan) in
  let env := upsert_if (negb (has_key env "GOMAXPROCS") && negb (String.eqb (GOMAXPROCSStr plan) "")) env
               "GOMAXPROCS" (GOMAXPROCSStr plan) in
  upsert_if (negb (has_key env "GOGC") && GOGCApplied plan && negb (String.eqb (GOGCStr plan) "")) env
    "GOGC" (GOGCStr plan).

(** The hints about the choice. *)
Definition selection_environ (env : environ) (selfPath : string) (entry : VariantEntry) (execMode : string)
    (hostInfo : Info) (policyRes : PolicyResult) : environ :=
  let env := if String.eqb selfPath "" then env
             else upsertEnv env EnvOriginalExe (default (filepath_Clean selfPath) (abs selfPath)) in
  let env := upsertEnv env EnvSelectedVariant (ve_Level entry) in
  let env := upsertEnv env EnvHostArch (Arch hostInfo) in
  let env := upsertEnv env EnvHostLevel (Level hostInfo) in
  let env := upsertEnv env EnvExecMode execMode in
  let env := upsertEnv env EnvDispatchMode execMode in
  let env := upsertEnv env EnvSelectedSHA256 (SHA256 entry) in
  let env := upsertEnv env EnvSelectedSize (Itoa (UncompressedSize entry)) in
  if String.eqb (PolicyApplied policyRes) "" then env
  else upsertEnv (upsertEnv env EnvPolicyApplied (PolicyApplied policyRes)) EnvOverrideReason (OverrideReason policyRes).

(** The recommendations, whether applied or not. *)
Definition plan_environ (env : environ) (plan : TuningPlan) : environ :=
  let env := upsert_if (negb (String.eqb (GOMEMLIMITStr plan) "")) env EnvCgroupGOMEMLIMIT (GOMEMLIMITStr plan) in
  let env := upsert_if (negb (String.eqb (GOMAXPROCSStr plan) "")) env EnvCgroupGOMAXPROCS (GOMAXPROCSStr plan) in
  let env := upsert_if (negb (String.eqb (GOGCStr plan) "")) env EnvCgroupGOGC (GOGCStr plan) in
  upsert_if (negb (String.eqb (plan_GCProfile plan) GCProfileDefault)) env EnvCgroupGCProfile (plan_GCProfile plan).

Definition buildAutoTunedEnviron (selfPath : string) (baseEnv : list string) (entry : VariantEntry) (execMode : string)
    (hostInfo : Info) (policyRes : PolicyResult) : environ * option Limits :=
  let env := selection_environ (inherited_environ baseEnv) selfPath entry execMode hostInfo policyRes in
  match read with
  | Ok limits =>
      if (CgroupVersion limits =? VersionUnknown)%Z then (env, None)
      else
        let env := populateCgroupEnviron env limits in
        let '(limits, plan) := resolveRuntimeTuning limits entry execMode env in
        let env := resolveBatchGCEnviron env plan in
        let env := plan_environ env plan in
        if negb (String.eqb runtimeAutotuneStatus autotuneEnabled) then (env, Some limits)
        else (applyRuntimeTuningPlan env plan, Some limits)
  | _ => (env, None)
  end.

End stub.
