(* ===== verification/StubEnvProofs.v ===== *)
(** * What the payload finds in its environment

    The index and the list agree ([indexed]) and are changed together; every
    variable then has the value of the last assignment.  On top of that: what
    the user set passes, what the launcher says cannot be forged by the
    environment it was started with. *)

From S2P Require Import Prelude GoStrings GoPath GoFloat Format MicroarchFeatures MicroarchSelect CgroupSize CgroupTuning CgroupHierarchy StubEnv.
From stdpp Require Import base list strings gmap.
From Stdlib Require Import ZArith Lia Floats Strings.Ascii.

Local Open Scope string_scope.

(** ** Assignments *)

(** A key an assignment can name. *)
Definition assignable (k : string) : Prop := k <> "" /\ Cut k eq_sign = None.

Lemma Cut_assignment k v : Cut k eq_sign = None -> Cut (k ++ "=" ++ v) eq_sign = Some (k, v).
Proof.
  induction k as [|c k IH]; [done|]. rewrite sapp_cons. cbn [Cut].
  destruct (Ascii.eqb c eq_sign); [done|]. destruct (Cut k eq_sign) as [[? ?]|]; [done|].
  intros _. by rewrite IH.
Qed.

Lemma Cut_inv e k v : Cut e eq_sign = Some (k, v) -> e = k ++ "=" ++ v /\ Cut k eq_sign = None.
Proof.
  revert k. induction e as [|c e IH]; intros k; cbn [Cut]; [done|].
  destruct (Ascii.eqb_spec c eq_sign) as [-> |Hc]; [by intros [= <- <-]|].
  destruct (Cut e eq_sign) as [[b a]|]; [|done]. intros [= <- <-].
  destruct (IH b eq_refl) as [-> Hb]. rewrite sapp_cons. split; [done|]. cbn [Cut].
  destruct (Ascii.eqb_spec c eq_sign); [done|]. by rewrite Hb.
Qed.

Lemma lookup_env_Some env k v :
  lookup_env env k = Some v -> exists i e, env !! i = Some e /\ Cut e eq_sign = Some (k, v).
Proof.
  induction env as [|e env IH]; cbn [lookup_env]; [done|].
  destruct (Cut e eq_sign) as [[k' v']|] eqn:He.
  - destruct (String.eqb_spec k' k) as [-> |]; [intros [= ->]; by exists 0%nat, e|].
    intros H. destruct (IH H) as (i & e' & ? & ?). by exists (S i), e'.
  - intros H. destruct (IH H) as (i & e' & ? & ?). by exists (S i), e'.
Qed.

Lemma lookup_env_is_Some env k i e v :
  env !! i = Some e -> Cut e eq_sign = Some (k, v) -> is_Some (lookup_env env k).
Proof.
  revert i. induction env as [|e' env IH]; intros i; [done|]. destruct i as [|i]; cbn [lookup_env lookup].
  - intros [= ->] ->. rewrite String.eqb_refl. eauto.
  - intros Hi Hc. destruct (Cut e' eq_sign) as [[k' v']|]; [|by eapply IH].
    destruct (String.eqb k' k); [eauto|by eapply IH].
Qed.

(** ** The index *)

(** Every position of the index is that of an assignment to its key. *)
Definition pointed (env : environ) : Prop :=
  forall k i, keyIndex env !! k = Some i -> assignable k /\ exists v, ev_list env !! i = Some (k ++ "=" ++ v).

(** And there are no other assignments. *)
Record indexed (env : environ) : Prop := {
  ix_entry : pointed env;
  ix_key i e k v : ev_list env !! i = Some e -> Cut e eq_sign = Some (k, v) -> k <> "" -> keyIndex env !! k = Some i
}.

Abbreviation value env k := (LookupEnv (ev_list env) k).

(** Looking a variable up by its index is what the payload's [os.LookupEnv]
    does by search. *)
Lemma indexed_value_eq env k : indexed env -> k <> "" -> indexed_value env k = value env k.
Proof.
  intros Hix Hk. unfold LookupEnv, indexed_value. rewrite (proj2 (String.eqb_neq _ _)) by done.
  destruct (keyIndex env !! k) as [i|] eqn:Hi.
  - destruct (ix_entry _ Hix _ _ Hi) as [[_ Hp] [v Hv]]. rewrite Hv, (Cut_assignment _ _ Hp).
    destruct (lookup_env_is_Some _ _ _ _ _ Hv (Cut_assignment _ _ Hp)) as [v' Hv']. rewrite Hv'.
    destruct (lookup_env_Some _ _ _ Hv') as (j & e & He & Hc).
    pose proof (ix_key _ Hix _ _ _ _ He Hc Hk) as Hj. rewrite Hi in Hj. injection Hj as <-.
    rewrite Hv in He. injection He as <-. rewrite (Cut_assignment _ _ Hp) in Hc. by injection Hc as ->.
  - destruct (lookup_env (ev_list env) k) as [v|] eqn:Hl; [|done].
    destruct (lookup_env_Some _ _ _ Hl) as (j & e & He & Hc).
    pose proof (ix_key _ Hix _ _ _ _ He Hc Hk). congruence.
Qed.

Lemma has_key_indexed env k : has_key env k = bool_decide (is_Some (indexed_value env k)).
Proof.
  unfold has_key, indexed_value. apply bool_decide_ext.
  destruct (keyIndex env !! k); split; intros []; eauto; discriminate.
Qed.

Lemma has_key_value env k : indexed env -> k <> "" -> has_key env k = bool_decide (is_Some (value env k)).
Proof. intros. by rewrite has_key_indexed, indexed_value_eq. Qed.

Lemma assignment_key k v k' v' : assignable k -> assignable k' -> k ++ "=" ++ v = k' ++ "=" ++ v' -> k = k'.
Proof.
  intros [_ Hp] [_ Hp'] Heq. apply (f_equal (fun s => Cut s eq_sign)) in Heq.
  rewrite !Cut_assignment in Heq by done. by injection Heq.
Qed.

Lemma upsert_pointed env k v : pointed env -> assignable k -> pointed (upsertEnv env k v).
Proof.
  intros Hpt Hp. unfold upsertEnv. destruct (keyIndex env !! k) as [i|] eqn:Hi; intros k' j; simpl.
  - destruct (Hpt _ _ Hi) as (_ & v0 & Hv0). intros Hj. destruct (Hpt _ _ Hj) as (Hp' & v' & Hv'). split; [done|].
    destruct (decide (i = j)) as [<- |]; [|rewrite list_lookup_insert_ne by done; eauto].
    rewrite list_lookup_insert_eq by by eapply lookup_lt_Some. exists v. rewrite Hv0 in Hv'. injection Hv' as Heq.
    by rewrite (assignment_key _ _ _ _ Hp Hp' Heq).
  - destruct (decide (k = k')) as [<- |].
    + rewrite lookup_insert_eq. intros [= <-]. split; [done|]. exists v. by rewrite list_lookup_middle.
    + rewrite lookup_insert_ne by done. intros Hj. destruct (Hpt _ _ Hj) as (Hp' & v' & Hv').
      split; [done|]. exists v'. by apply lookup_app_l_Some.
Qed.

Lemma upsert_indexed env k v : indexed env -> assignable k -> indexed (upsertEnv env k v).
Proof.
  intros Hix Hp. split; [apply upsert_pointed; [apply Hix|done]|]. unfold upsertEnv.
  intros j e k' v'. destruct (keyIndex env !! k) as [i|] eqn:Hi; simpl; intros Hj Hc Hk'.
  - destruct (ix_entry _ Hix _ _ Hi) as (_ & v0 & Hv0). destruct (decide (i = j)) as [<- |].
    + rewrite list_lookup_insert_eq in Hj by by eapply lookup_lt_Some. injection Hj as <-.
      rewrite Cut_assignment in Hc by apply Hp. by injection Hc as <- _.
    + rewrite list_lookup_insert_ne in Hj by done. by eapply ix_key.
  - apply lookup_app_Some in Hj as [Hj|[Hge Hj]].
    + pose proof (ix_key _ Hix _ _ _ _ Hj Hc Hk') as Hk2. rewrite lookup_insert_ne; congruence.
    + apply list_lookup_singleton_Some in Hj as [Hj <-]. rewrite Cut_assignment in Hc by apply Hp.
      injection Hc as <- _. rewrite lookup_insert_eq. f_equal. lia.
Qed.

Lemma upsert_indexed_value env k v k' :
  pointed env -> assignable k ->
  indexed_value (upsertEnv env k v) k' = if decide (k = k') then Some v else indexed_value env k'.
Proof.
  intros Hpt Hp. unfold indexed_value, upsertEnv. destruct (keyIndex env !! k) as [i|] eqn:Hi; simpl.
  - destruct (Hpt _ _ Hi) as (_ & v0 & Hv0). case_decide as Hk; [subst k'|].
    + rewrite Hi, list_lookup_insert_eq by by eapply lookup_lt_Some. by rewrite Cut_assignment by apply Hp.
    + destruct (keyIndex env !! k') as [j|] eqn:Hj; [|done]. rewrite list_lookup_insert_ne; [done|].
      intros <-. destruct (Hpt _ _ Hj) as (Hp' & v' & Hv'). rewrite Hv0 in Hv'. injection Hv' as Heq.
      by apply Hk, (assignment_key _ _ _ _ Hp Hp' Heq).
  - case_decide as Hk; [subst k'|].
    + rewrite lookup_insert_eq, list_lookup_middle by done. by rewrite Cut_assignment by apply Hp.
    + rewrite lookup_insert_ne by done. destruct (keyIndex env !! k') as [j|] eqn:Hj; [|done].
      destruct (Hpt _ _ Hj) as (_ & v' & Hv'). by rewrite (lookup_app_l_Some _ _ _ _ Hv'), Hv'.
Qed.

Lemma upsert_value env k v k' :
  indexed env -> assignable k -> value (upsertEnv env k v) k' = if decide (k = k') then Some v else value env k'.
Proof.
  intros Hix Hp. destruct (decide (k' = "")) as [-> |Hk'].
  { unfold LookupEnv. simpl. case_decide; [|done]. by destruct Hp. }
  rewrite <- !indexed_value_eq by auto using upsert_indexed. by apply upsert_indexed_value; [apply Hix|].
Qed.

Lemma append_indexed env e :
  indexed env -> (forall k v, Cut e eq_sign = Some (k, v) -> k = "") ->
  indexed (mkEnviron (ev_list env ++ [e]) (keyIndex env)).
Proof.
  intros Hix He. split; simpl.
  - intros k i Hi. destruct (ix_entry _ Hix _ _ Hi) as (Hp & v & Hv). split; [done|]. exists v.
    by apply lookup_app_l_Some.
  - intros i e' k v Hi Hc Hk. apply lookup_app_Some in Hi as [Hi|[_ Hi]]; [by eapply ix_key|].
    apply list_lookup_singleton_Some in Hi as [_ <-]. by destruct Hk; eapply He.
Qed.

Lemma empty_indexed : indexed (mkEnviron [] ∅).
Proof. by split. Qed.

(** ** What is inherited *)

(** The value of a variable by its last assignment. *)
Definition last_binding (base : list string) (k : string) : option string :=
  foldl (fun acc e => match Cut e eq_sign with
                      | Some (k', v) => if String.eqb k' k then Some v else acc
                      | None => acc
                      end) None base.

Lemma inherit_cases env e :
  (forall k v, Cut e eq_sign = Some (k, v) -> k = "") /\ inherit env e = mkEnviron (ev_list env ++ [e]) (keyIndex env) \/
  (exists k v, Cut e eq_sign = Some (k, v) /\ isMicrofatInternalEnv k = true /\ inherit env e = env) \/
  (exists k v, Cut e eq_sign = Some (k, v) /\ isMicrofatInternalEnv k = false /\ assignable k /\ inherit env e = upsertEnv env k v).
Proof.
  unfold inherit. destruct (Cut e eq_sign) as [[k v]|] eqn:He; [|left; done].
  destruct (Cut_inv _ _ _ He) as [Heq Hk].
  destruct (String.eqb_spec k "") as [-> |Hne]; [left; split; [by intros ? ? [= <- _]|done]|].
  right. destruct (isMicrofatInternalEnv k) eqn:Hi; [left; eauto|right].
  exists k, v. split_and!; [done..|]. unfold upsertEnv. rewrite Heq. by destruct (keyIndex env !! k).
Qed.

Lemma append_value env e k :
  (forall k v, Cut e eq_sign = Some (k, v) -> k = "") -> indexed env -> k <> "" ->
  value (mkEnviron (ev_list env ++ [e]) (keyIndex env)) k = value env k.
Proof.
  intros He Hix Hk. rewrite <- !indexed_value_eq by (done || by apply append_indexed). unfold indexed_value; simpl.
  destruct (keyIndex env !! k) as [j|] eqn:Hj; [|done].
  destruct (ix_entry _ Hix _ _ Hj) as (_ & v & Hv). by rewrite (lookup_app_l_Some _ _ _ _ Hv), Hv.
Qed.

Lemma inherited_spec base :
  indexed (inherited_environ base) /\
  forall k, k <> "" -> value (inherited_environ base) k = if isMicrofatInternalEnv k then None else last_binding base k.
Proof.
  induction base as [|e base [Hix IH]] using rev_ind.
  { split; [apply empty_indexed|]. intros k _. unfold LookupEnv. simpl. by destruct (_ =? _), (isMicrofatInternalEnv k). }
  unfold inherited_environ, last_binding in *. setoid_rewrite foldl_snoc. simpl.
  destruct (inherit_cases (foldl inherit (mkEnviron [] ∅) base) e) as [[He ->]|[(k0 & v & Hc & Hi & ->)|(k0 & v & Hc & Hi & Hp & ->)]].
  - split; [by apply append_indexed|]. intros k Hk. rewrite append_value, IH by done.
    destruct (isMicrofatInternalEnv k); [done|]. destruct (Cut e eq_sign) as [[k' v]|]; [|done].
    destruct (String.eqb_spec k' k) as [<- |]; [|done]. by destruct Hk; eapply He.
  - split; [done|]. intros k Hk. rewrite IH, Hc by done. destruct (String.eqb_spec k0 k) as [<- |]; [|done].
    by rewrite Hi.
  - split; [by apply upsert_indexed|]. intros k Hk. rewrite upsert_value, IH, Hc by done.
    case_decide as Hkk; [subst k0; by rewrite Hi, String.eqb_refl|].
    by rewrite (proj2 (String.eqb_neq _ _)) by done.
Qed.

(** ** Assignments one after the other *)

Definition upsert_list (env : environ) (l : list (string * string)) : environ :=
  foldl (fun env kv => upsertEnv env kv.1 kv.2) env l.

Definition assigned (l : list (string * string)) (k : string) : option string :=
  foldl (fun acc kv => if String.eqb kv.1 k then Some kv.2 else acc) None l.

Definition when (b : bool) (k v : string) : list (string * string) := if b then [(k, v)] else [].

Lemma assigned_app l l' k :
  assigned (l ++ l') k = match assigned l' k with Some v => Some v | None => assigned l k end.
Proof.
  induction l' as [|[k' v'] l' IH] using rev_ind; [by rewrite app_nil_r|].
  unfold assigned in *. rewrite app_assoc, !foldl_snoc. simpl. by destruct (String.eqb k' k).
Qed.

Lemma assigned_when b k' v k : assigned (when b k' v) k = if b && String.eqb k' k then Some v else None.
Proof. by destruct b. Qed.

Lemma upsert_list_app env l l' : upsert_list (upsert_list env l) l' = upsert_list env (l ++ l').
Proof. symmetry. apply foldl_app. Qed.

Lemma upsert_list_spec env l :
  indexed env -> Forall (fun kv => assignable kv.1) l ->
  indexed (upsert_list env l) /\
  forall k, value (upsert_list env l) k = match assigned l k with Some v => Some v | None => value env k end.
Proof.
  intros Hix. induction l as [|[k0 v0] l IH] using rev_ind; [done|].
  rewrite Forall_app, Forall_singleton. intros [Hl Hp]. destruct (IH Hl) as [Hix' Hv].
  unfold upsert_list, assigned in *. setoid_rewrite foldl_snoc. simpl in *. split; [by apply upsert_indexed|].
  intros k. rewrite upsert_value, Hv by done. case_decide as Hk; [subst k0; by rewrite String.eqb_refl|].
  by rewrite (proj2 (String.eqb_neq _ _)) by done.
Qed.

Lemma internal_plain k : isMicrofatInternalEnv k = true -> assignable k.
Proof.
  unfold isMicrofatInternalEnv. rewrite existsb_exists. intros (k' & Hin & Heq).
  apply String.eqb_eq in Heq as ->. revert k' Hin. apply List.Forall_forall. by repeat constructor.
Qed.

(** ** The launcher's variables *)

Section stub.
Context {GU : GoUnicode} {GF : GoFloat}.
Context (process : list string) (page : Z) (abs : string -> option string) (read : outcome cgroup_err Limits).

Definition selection_hints (selfPath : string) (ve : VariantEntry) (execMode : string) (hostInfo : Info)
    (policyRes : PolicyResult) : list (string * string) :=
  when (negb (String.eqb selfPath "")) EnvOriginalExe (default (filepath_Clean selfPath) (abs selfPath)) ++
  [(EnvSelectedVariant, ve_Level ve); (EnvHostArch, Arch hostInfo); (EnvHostLevel, Level hostInfo);
   (EnvExecMode, execMode); (EnvDispatchMode, execMode); (EnvSelectedSHA256, SHA256 ve);
   (EnvSelectedSize, Itoa (UncompressedSize ve))] ++
  (if String.eqb (PolicyApplied policyRes) "" then []
   else [(EnvPolicyApplied, PolicyApplied policyRes); (EnvOverrideReason, OverrideReason policyRes)]).

Definition cgroup_hints (limits : Limits) : list (string * string) :=
  [(EnvCgroupVersion, Itoa (CgroupVersion limits)); (EnvCgroupLimitBytes, Itoa (MemoryLimitBytes limits))] ++
  when (HasMemoryHigh limits) EnvCgroupHighBytes (Itoa (MemoryHighBytes limits)) ++
  when (EffectiveMemoryLimit limits).2 EnvCgroupEffectiveLimitBytes (Itoa (EffectiveMemoryLimitBytes limits)) ++
  [(EnvCgroupCPUs, Sprintf_2f (CPUQuota limits))].

Definition plan_hints (gogcSet : bool) (plan : TuningPlan) : list (string * string) :=
  when (negb gogcSet && negb (String.eqb (GOGCSkippedReason plan) "")) EnvCgroupGOGCSkippedReason (GOGCSkippedReason plan) ++
  when (negb (String.eqb (GOMEMLIMITStr plan) "")) EnvCgroupGOMEMLIMIT (GOMEMLIMITStr plan) ++
  when (negb (String.eqb (GOMAXPROCSStr plan) "")) EnvCgroupGOMAXPROCS (GOMAXPROCSStr plan) ++
  when (negb (String.eqb (GOGCStr plan) "")) EnvCgroupGOGC (GOGCStr plan) ++
  when (negb (String.eqb (plan_GCProfile plan) GCProfileDefault)) EnvCgroupGCProfile (plan_GCProfile plan).

(** What the plan says about the three settings of the Go runtime. *)
Definition plan_setting (plan : TuningPlan) (k : string) : option string :=
  if String.eqb k "GOMEMLIMIT" then if String.eqb (GOMEMLIMITStr plan) "" then None else Some (GOMEMLIMITStr plan)
  else if String.eqb k "GOMAXPROCS" then if String.eqb (GOMAXPROCSStr plan) "" then None else Some (GOMAXPROCSStr plan)
  else if String.eqb k "GOGC" then if GOGCApplied plan && negb (String.eqb (GOGCStr plan) "") then Some (GOGCStr plan) else None
  else None.

Lemma selection_environ_list env selfPath ve execMode hostInfo policyRes :
  selection_environ abs env selfPath ve execMode hostInfo policyRes =
  upsert_list env (selection_hints selfPath ve execMode hostInfo policyRes).
Proof.
  unfold selection_environ, selection_hints, upsert_list.
  destruct (String.eqb selfPath ""), (String.eqb (PolicyApplied policyRes) ""); cbn [when negb app foldl fst snd]; reflexivity.
Qed.

Lemma populateCgroupEnviron_list env limits :
  populateCgroupEnviron env limits = upsert_list env (cgroup_hints limits).
Proof.
  unfold populateCgroupEnviron, cgroup_hints, upsert_list, upsert_if.
  destruct (HasMemoryHigh limits), (EffectiveMemoryLimit limits).2; cbn [when negb app foldl fst snd]; reflexivity.
Qed.

Lemma plan_environ_list env plan :
  plan_environ (resolveBatchGCEnviron env plan) plan = upsert_list env (plan_hints (has_key env "GOGC") plan).
Proof.
  unfold plan_environ, resolveBatchGCEnviron, plan_hints, upsert_list, upsert_if.
  rewrite !foldl_app. by repeat (case_match || f_equal).
Qed.

(** Every hint is a variable of the launcher's own. *)
Abbreviation internal_pairs := (Forall (fun kv : string * string => isMicrofatInternalEnv kv.1 = true)).

Lemma internal_when b k v : isMicrofatInternalEnv k = true -> internal_pairs (when b k v).
Proof. destruct b; simpl; auto. Qed.

Lemma internal_selection selfPath ve execMode hostInfo policyRes :
  internal_pairs (selection_hints selfPath ve execMode hostInfo policyRes).
Proof.
  unfold selection_hints. rewrite !Forall_app. split_and!; [by apply internal_when|by repeat constructor|].
  destruct (String.eqb _ _); by repeat constructor.
Qed.

Lemma internal_cgroup limits : internal_pairs (cgroup_hints limits).
Proof.
  unfold cgroup_hints. rewrite !Forall_app. split_and!; try (by apply internal_when); by repeat constructor.
Qed.

Lemma internal_plan gogcSet plan : internal_pairs (plan_hints gogcSet plan).
Proof. unfold plan_hints. rewrite !Forall_app. split_and!; by apply internal_when. Qed.

Lemma internal_pairs_plain l : internal_pairs l -> Forall (fun kv => assignable kv.1) l.
Proof. intros. eapply Forall_impl; [done|]. intros. by apply internal_plain. Qed.

Lemma assigned_internal l k : internal_pairs l -> isMicrofatInternalEnv k = false -> assigned l k = None.
Proof.
  intros Hl Hk. induction l as [|[k0 v0] l IH] using rev_ind; [done|].
  rewrite Forall_app, Forall_singleton in Hl. destruct Hl as [Hl H0]. simpl in H0.
  unfold assigned in *. rewrite foldl_snoc. simpl. rewrite (proj2 (String.eqb_neq _ _)) by congruence. auto.
Qed.

(** ** Settings where there are none *)

Lemma fill_spec env k v b :
  pointed env -> assignable k ->
  pointed (upsert_if (negb (has_key env k) && b) env k v) /\
  forall k', indexed_value (upsert_if (negb (has_key env k) && b) env k v) k' =
    match indexed_value env k' with
    | Some x => Some x
    | None => if String.eqb k' k && b then Some v else None
    end.
Proof.
  intros Hpt Hp. rewrite has_key_indexed. unfold upsert_if.
  destruct b; rewrite ?andb_false_r, ?andb_true_r.
  2: { split; [done|]. intros k'. rewrite andb_false_r. by destruct (indexed_value env k'). }
  case_bool_decide as Hs; simpl.
  - split; [done|]. intros k'. destruct (indexed_value env k') eqn:Hk'; [done|].
    destruct (String.eqb_spec k' k) as [-> |]; [|done]. rewrite Hk' in Hs. by destruct Hs.
  - split; [by apply upsert_pointed|]. intros k'. rewrite upsert_indexed_value, andb_true_r by done.
    destruct (decide (k = k')) as [<- |Hne].
    + rewrite String.eqb_refl. destruct (indexed_value env k); [|done]. by destruct Hs; eauto.
    + rewrite (proj2 (String.eqb_neq _ _)) by done. by destruct (indexed_value env k').
Qed.

Lemma applyRuntimeTuningPlan_spec env plan :
  pointed env ->
  pointed (applyRuntimeTuningPlan env plan) /\
  forall k, indexed_value (applyRuntimeTuningPlan env plan) k =
    match indexed_value env k with Some x => Some x | None => plan_setting plan k end.
Proof.
  intros Hix. unfold applyRuntimeTuningPlan. rewrite <- andb_assoc.
  destruct (fill_spec env "GOMEMLIMIT" (GOMEMLIMITStr plan) (negb (String.eqb (GOMEMLIMITStr plan) "")) Hix) as [H1 V1]; [done|].
  destruct (fill_spec _ "GOMAXPROCS" (GOMAXPROCSStr plan) (negb (String.eqb (GOMAXPROCSStr plan) "")) H1) as [H2 V2]; [done|].
  destruct (fill_spec _ "GOGC" (GOGCStr plan) (GOGCApplied plan && negb (String.eqb (GOGCStr plan) "")) H2) as [H3 V3]; [done|].
  split; [done|]. intros k. rewrite V3, V2, V1. unfold plan_setting. destruct (indexed_value env k); [done|].
  destruct (String.eqb_spec k "GOMEMLIMIT") as [-> |]; simpl; [by destruct (String.eqb (GOMEMLIMITStr plan) "")|].
  destruct (String.eqb_spec k "GOMAXPROCS") as [-> |]; simpl; [by destruct (String.eqb (GOMAXPROCSStr plan) "")|].
  by destruct (String.eqb_spec k "GOGC") as [-> |].
Qed.

Lemma upsert_if_indexed b env k v : indexed env -> assignable k -> indexed (upsert_if b env k v).
Proof. destruct b; simpl; auto using upsert_indexed. Qed.

Lemma applyRuntimeTuningPlan_indexed env plan : indexed env -> indexed (applyRuntimeTuningPlan env plan).
Proof. intros. unfold applyRuntimeTuningPlan. by repeat apply upsert_if_indexed. Qed.

(** The plan depends on the environment through one variable. *)
Lemma resolveRuntimeTuning_ext limits ve execMode env env' :
  indexed_value env "GOMEMLIMIT" = indexed_value env' "GOMEMLIMIT" ->
  resolveRuntimeTuning process page limits ve execMode env = resolveRuntimeTuning process page limits ve execMode env'.
Proof. intros He. unfold resolveRuntimeTuning. by rewrite He. Qed.

(** ** The specification

    The launcher's hints, then what the user set, then what the plan sets. *)

Definition known_limits : option Limits :=
  match read with
  | Ok limits => if (CgroupVersion limits =? VersionUnknown)%Z then None else Some limits
  | _ => None
  end.

Definition payload_plan (base : list string) (ve : VariantEntry) (execMode : string) (limits : Limits) : TuningPlan :=
  (resolveRuntimeTuning process page limits ve execMode (inherited_environ base)).2.

Definition payload_hints (selfPath : string) (base : list string) (ve : VariantEntry) (execMode : string)
    (hostInfo : Info) (policyRes : PolicyResult) : list (string * string) :=
  selection_hints selfPath ve execMode hostInfo policyRes ++
  match known_limits with
  | None => []
  | Some limits =>
      cgroup_hints limits ++
      plan_hints (bool_decide (is_Some (last_binding base "GOGC"))) (payload_plan base ve execMode limits)
  end.

Definition payload_setting (base : list string) (ve : VariantEntry) (execMode : string) (k : string) : option string :=
  match known_limits with
  | Some limits =>
      if String.eqb (runtimeAutotuneStatus process) autotuneEnabled
      then plan_setting (payload_plan base ve execMode limits) k else None
  | None => None
  end.

Definition payload_value (selfPath : string) (base : list string) (ve : VariantEntry) (execMode : string)
    (hostInfo : Info) (policyRes : PolicyResult) (k : string) : option string :=
  match assigned (payload_hints selfPath base ve execMode hostInfo policyRes) k with
  | Some v => Some v
  | None =>
      if isMicrofatInternalEnv k then None
      else match last_binding base k with
           | Some v => Some v
           | None => payload_setting base ve execMode k
           end
  end.

Lemma hinted_value base l k :
  internal_pairs l -> k <> "" ->
  indexed (upsert_list (inherited_environ base) l) /\
  value (upsert_list (inherited_environ base) l) k =
    match assigned l k with
    | Some v => Some v
    | None => if isMicrofatInternalEnv k then None else last_binding base k
    end.
Proof.
  intros Hl Hk. destruct (inherited_spec base) as [Hix Hv].
  destruct (upsert_list_spec (inherited_environ base) l Hix (internal_pairs_plain _ Hl)) as [Hix' Hv'].
  split; [done|]. by rewrite Hv', Hv.
Qed.

(** A user variable is not changed by hints. *)
Lemma hinted_user base l k :
  internal_pairs l -> k <> "" -> isMicrofatInternalEnv k = false ->
  value (upsert_list (inherited_environ base) l) k = last_binding base k.
Proof.
  intros Hl Hk Hi. destruct (hinted_value base l k Hl Hk) as [_ ->]. by rewrite assigned_internal, Hi.
Qed.

Lemma hinted_plan base l limits ve execMode :
  internal_pairs l ->
  resolveRuntimeTuning process page limits ve execMode (upsert_list (inherited_environ base) l) =
  resolveRuntimeTuning process page limits ve execMode (inherited_environ base).
Proof.
  intros Hl. apply resolveRuntimeTuning_ext. destruct (hinted_value base l "GOMEMLIMIT" Hl) as [Hix _]; [done|].
  destruct (inherited_spec base) as [Hix0 Hv]. rewrite !indexed_value_eq by done.
  rewrite hinted_user by done. by rewrite Hv by done.
Qed.

Lemma hinted_has_key base l k :
  internal_pairs l -> k <> "" -> isMicrofatInternalEnv k = false ->
  has_key (upsert_list (inherited_environ base) l) k = bool_decide (is_Some (last_binding base k)).
Proof.
  intros Hl Hk Hi. rewrite has_key_value; [by rewrite hinted_user| |done]. by apply (hinted_value base l k).
Qed.

(** The environment before the plan is applied. *)
Lemma internal_payload selfPath base ve execMode hostInfo policyRes :
  internal_pairs (payload_hints selfPath base ve execMode hostInfo policyRes).
Proof.
  unfold payload_hints. rewrite Forall_app. split; [apply internal_selection|].
  destruct known_limits; [|done]. rewrite Forall_app. auto using internal_cgroup, internal_plan.
Qed.

Lemma plan_setting_internal plan k : isMicrofatInternalEnv k = true -> plan_setting plan k = None.
Proof.
  unfold plan_setting. destruct (String.eqb_spec k "GOMEMLIMIT") as [-> |]; [discriminate|].
  destruct (String.eqb_spec k "GOMAXPROCS") as [-> |]; [discriminate|].
  by destruct (String.eqb_spec k "GOGC") as [-> |].
Qed.

Lemma buildAutoTunedEnviron_value selfPath base ve execMode hostInfo policyRes k :
  k <> "" ->
  let env := (buildAutoTunedEnviron process page abs read selfPath base ve execMode hostInfo policyRes).1 in
  indexed env /\ value env k = payload_value selfPath base ve execMode hostInfo policyRes k.
Proof.
  intros Hk. pose proof (internal_payload selfPath base ve execMode hostInfo policyRes) as Hint.
  destruct (hinted_value base _ k Hint Hk) as [Hix Hv].
  unfold buildAutoTunedEnviron, payload_value, payload_setting, payload_hints, known_limits in *.
  rewrite selection_environ_list. set (sel := selection_hints _ _ _ _ _) in *.
  pose proof (internal_selection selfPath ve execMode hostInfo policyRes : internal_pairs sel) as Hsel.
  destruct read as [limits|e|]; cbn [fst snd]; rewrite ?app_nil_r in *.
  2,3: split; [done|]; rewrite Hv; by repeat case_match.
  destruct (CgroupVersion limits =? VersionUnknown)%Z; cbn [fst snd]; rewrite ?app_nil_r in *.
  { split; [done|]. rewrite Hv. by repeat case_match. }
  rewrite populateCgroupEnviron_list, upsert_list_app.
  assert (internal_pairs (sel ++ cgroup_hints limits)) as Hc by (apply Forall_app; auto using internal_cgroup).
  rewrite hinted_plan by done. unfold payload_plan in *.
  destruct (resolveRuntimeTuning process page limits ve execMode (inherited_environ base)) as [limits' plan]. cbn [fst snd] in *.
  rewrite plan_environ_list, hinted_has_key, upsert_list_app, <- app_assoc by done.
  destruct (String.eqb (runtimeAutotuneStatus process) autotuneEnabled); cbn [negb fst].
  - pose proof (applyRuntimeTuningPlan_indexed _ plan Hix) as Hix'. split; [done|].
    rewrite <- indexed_value_eq by done. destruct (applyRuntimeTuningPlan_spec _ plan (ix_entry _ Hix)) as [_ ->].
    rewrite indexed_value_eq, Hv by done.
    destruct (assigned _ k) eqn:Ha; [done|]. destruct (isMicrofatInternalEnv k) eqn:Hi; [|done].
    by rewrite plan_setting_internal.
  - split; [done|]. rewrite Hv. by repeat case_match.
Qed.

Lemma plan_setting_keys plan k v :
  plan_setting plan k = Some v -> k ∈ ["GOMEMLIMIT"; "GOMAXPROCS"; "GOGC"] /\ v <> "".
Proof.
  unfold plan_setting. destruct (String.eqb_spec k "GOMEMLIMIT") as [-> |].
  { destruct (String.eqb_spec (GOMEMLIMITStr plan) ""); [done|]. intros [= <-]. split; [by left|done]. }
  destruct (String.eqb_spec k "GOMAXPROCS") as [-> |].
  { destruct (String.eqb_spec (GOMAXPROCSStr plan) ""); [done|]. intros [= <-]. split; [by right; left|done]. }
  destruct (String.eqb_spec k "GOGC") as [-> |]; [|done].
  destruct (GOGCApplied plan); [|done]. destruct (String.eqb_spec (GOGCStr plan) ""); [done|].
  intros [= <-]. split; [by right; right; left|done].
Qed.

(** C23. The environment of the payload refines its specification: every variable has one value.
    A variable of the user's has the value of its last assignment, [GOMEMLIMIT], [GOMAXPROCS]
    and [GOGC] included; where the user set none of these three and tuning is enabled, the plan
    does; nothing else is added but the launcher's own variables, and of those only what the
    launcher itself found. *)
Theorem payload_environment (selfPath : string) (base : list string) (ve : VariantEntry) (execMode : string)
    (hostInfo : Info) (policyRes : PolicyResult) (k : string) :
  k <> "" ->
  let env := (buildAutoTunedEnviron process page abs read selfPath base ve execMode hostInfo policyRes).1 in
  (forall i j e e' v v', ev_list env !! i = Some e -> ev_list env !! j = Some e' ->
     Cut e eq_sign = Some (k, v) -> Cut e' eq_sign = Some (k, v') -> i = j) /\
  (isMicrofatInternalEnv k = false ->
     LookupEnv (ev_list env) k =
       match last_binding base k with
       | Some v => Some v
       | None =>
           match known_limits with
           | Some limits =>
               if String.eqb (runtimeAutotuneStatus process) autotuneEnabled
               then plan_setting (payload_plan base ve execMode limits) k else None
           | None => None
           end
       end) /\
  (isMicrofatInternalEnv k = true ->
     LookupEnv (ev_list env) k = assigned (payload_hints selfPath base ve execMode hostInfo policyRes) k) /\
  (forall v, LookupEnv (ev_list env) k = Some v -> last_binding base k = Some v \/
     isMicrofatInternalEnv k = true \/ k ∈ ["GOMEMLIMIT"; "GOMAXPROCS"; "GOGC"]).
Proof.
  intros Hk env. destruct (buildAutoTunedEnviron_value selfPath base ve execMode hostInfo policyRes k Hk) as [Hix Hv].
  fold env in Hix, Hv. pose proof (internal_payload selfPath base ve execMode hostInfo policyRes) as Hint.
  split_and!.
  - intros i j e e' v v' Hi Hj He He'. pose proof (ix_key _ Hix _ _ _ _ Hi He Hk). pose proof (ix_key _ Hix _ _ _ _ Hj He' Hk).
    congruence.
  - intros Hi. rewrite Hv. unfold payload_value, payload_setting. by rewrite assigned_internal, Hi.
  - intros Hi. rewrite Hv. unfold payload_value. rewrite Hi. by destruct (assigned _ k).
  - intros v. rewrite Hv. unfold payload_value. destruct (isMicrofatInternalEnv k) eqn:Hi; [eauto|].
    rewrite assigned_internal by done. destruct (last_binding base k) as [u|]; [intros [= ->]; eauto|].
    unfold payload_setting. repeat case_match; try discriminate. intros Hp. by apply plan_setting_keys in Hp as [? _]; eauto.
Qed.

End stub.

(** ** A launch in a container of 1 GiB *)

Definition sample_limits : Limits := mkLimits 0 VersionV2 1073741824 0 1073741824 true false fzero 0.

Definition sample_entry : VariantEntry :=
  mkVariant "v3" 0 100 4096 "0123456789abcdef0123456789abcdef0123456789abcdef0123456789abcdef" "none".

Definition sample_host : Info := mkInfo "linux" "amd64" "v3" [] [].

Definition sample_base : list string :=
  ["PATH=/bin"; "MICROFAT_SELECTED_VARIANT=v9"; "GOGC=50"; "PATH=/usr/bin"; "=odd"].

Definition sample_launch : environ :=
  (@buildAutoTunedEnviron ascii_tables amd64_float [] 4096 (fun _ => None) (Ok sample_limits) "app" sample_base
     sample_entry ExecModeCache sample_host (mkResult "v3" "" "")).1.

Example sample_launch_env :
  (LookupEnv (ev_list sample_launch) <$> ["PATH"; EnvSelectedVariant; "GOGC"; "GOMEMLIMIT"; "HOME"]) =
  [Some "/usr/bin"; Some "v3"; Some "50"; Some "966367641B"; None].
Proof. vm_compute. reflexivity. Qed.

Lemma payload_environment_witness : LookupEnv (ev_list sample_launch) "PATH" = Some "/usr/bin".
Proof.
  destruct (@payload_environment ascii_tables amd64_float [] 4096 (fun _ => None) (Ok sample_limits) "app" sample_base
    sample_entry ExecModeCache sample_host (mkResult "v3" "" "") "PATH") as (_ & Huser & _); [discriminate|].
  etransitivity; [apply Huser; reflexivity|reflexivity].
Defined.
