(* ===== verification/RuntimeInfo.v ===== *)
(** * Runtime information ([runtimeinfo], [cmd/microfat-stub/runtime_info.go])

    What a payload can read back about its launch, and what the launcher
    reports, without launching, about the environment a payload would get. *)

From S2P Require Import Prelude GoStrings GoPath GoFloat Format MicroarchFeatures MicroarchSelect CgroupSize CgroupTuning CgroupHierarchy StubEnv.
From stdpp Require Import base list strings gmap.
From Stdlib Require Import ZArith Lia Floats Strings.Ascii.

Local Open Scope string_scope.

(** ** Fields ([parse.go]) *)

Inductive Status : Set :=
| StatusPresent | StatusMissing | StatusInvalid | StatusUnsupported | StatusUnavailable.

Global Instance Status_eq_dec : EqDecision Status.
Proof. solve_decision. Defined.

Record Field (T : Type) := mkField {
  fd_Value : T;
  fd_Raw : string;
  fd_Status : Status;
  fd_Source : string
}.
Arguments mkField {T} fd_Value fd_Raw fd_Status fd_Source.
Arguments fd_Value {T} f.
Arguments fd_Raw {T} f.
Arguments fd_Status {T} f.
Arguments fd_Source {T} f.

Definition decimalDigits (raw : string) : bool := negb (String.eqb raw "") && sforallb is_digit raw.

(** The length of what [hex.DecodeString] decodes. *)
Definition hex_DecodeString (s : string) : option nat :=
  if Nat.even (String.length s) && sforallb is_hex s then Some (Nat.div2 (String.length s)) else None.

Section fields.
Context {GU : GoUnicode} {GF : GoFloat} (lookup : string -> option string).

Definition textField (key : string) : Field string :=
  match lookup key with
  | Some raw => mkField raw raw StatusPresent key
  | None => mkField "" "" StatusMissing key
  end.

Definition enumField (key : string) (supported : list string) : Field string :=
  let f := textField key in
  if negb (bool_decide (fd_Status f = StatusPresent)) then f
  else if existsb (String.eqb (fd_Raw f)) supported then f
  else mkField "" (fd_Raw f) StatusUnsupported key.

Definition digestBytes : nat := 32.

Definition digestField (key : string) : Field string :=
  let f := textField key in
  if negb (bool_decide (fd_Status f = StatusPresent)) then f
  else match hex_DecodeString (fd_Raw f) with
       | Some n => if (n =? digestBytes)%nat then mkField (ToLower (fd_Raw f)) (fd_Raw f) StatusPresent key
                   else mkField "" (fd_Raw f) StatusInvalid key
       | None => mkField "" (fd_Raw f) StatusInvalid key
       end.

Definition integerField (key : string) (minimum : Z) : Field Z :=
  match lookup key with
  | None => mkField 0%Z "" StatusMissing key
  | Some raw =>
      if negb (decimalDigits raw) then mkField 0%Z raw StatusInvalid key
      else match ParseInt raw with
           | Some value => if (minimum <=? value)%Z then mkField value raw StatusPresent key
                           else mkField 0%Z raw StatusInvalid key
           | None => mkField 0%Z raw StatusInvalid key
           end
  end.

Definition gcField (key : string) : Field Z :=
  let f := integerField key 0 in
  if String.eqb (fd_Raw f) "off" then mkField (-1)%Z (fd_Raw f) StatusPresent key else f.

Definition dot_sign : ascii := ".".

Definition quotaField (key : string) : Field float64 :=
  match lookup key with
  | None => mkField fzero "" StatusMissing key
  | Some raw =>
      let '(whole, fraction, dot) :=
        match Cut raw dot_sign with Some (b, a) => (b, a, true) | None => (raw, "", false) end in
      if negb (decimalDigits whole) || dot && negb (decimalDigits fraction) then mkField fzero raw StatusInvalid key
      else match ParseFloat raw with
           | Some value => if negb (IsInf value) && negb (IsNaN value) then mkField value raw StatusPresent key
                           else mkField fzero raw StatusInvalid key
           | None => mkField fzero raw StatusInvalid key
           end
  end.

(** ** Snapshots ([runtimeinfo.go]) *)

Record CgroupHints := mkCgroupHints {
  ch_Version : Field Z;
  ch_MemoryLimitBytes : Field Z;
  ch_MemoryHighBytes : Field Z;
  ch_EffectiveMemoryLimitBytes : Field Z;
  ch_CPUQuota : Field float64;
  ch_RecommendedGOMEMLIMIT : Field string;
  ch_RecommendedGOMAXPROCS : Field Z;
  ch_RecommendedGOGC : Field Z;
  ch_GCProfile : Field string;
  ch_GOGCSkippedReason : Field string
}.

Record LauncherHints := mkLauncherHints {
  lh_SelectedVariant : Field string;
  lh_HostArch : Field string;
  lh_HostLevel : Field string;
  lh_ExecMode : Field string;
  lh_DispatchMode : Field string;
  lh_SelectedSHA256 : Field string;
  lh_SelectedSizeBytes : Field Z;
  lh_OriginalExecutable : Field string;
  lh_PolicyApplied : Field string;
  lh_OverrideReason : Field string;
  lh_Cgroup : CgroupHints
}.

Record ConfiguredEnvironment := mkConfigured {
  ce_GOMEMLIMIT : Field string;
  ce_GOMAXPROCS : Field string;
  ce_GOGC : Field string;
  ce_CPUPolicy : Field string;
  ce_GCProfile : Field string;
  ce_Autotune : Field string;
  ce_DryRun : Field string;
  ce_MemoryRatio : Field string;
  ce_LiveHeapEstimate : Field string
}.

Definition readCgroup : CgroupHints :=
  let version := integerField "MICROFAT_CGROUP_VERSION" 0 in
  let version :=
    if bool_decide (fd_Status version = StatusPresent) && negb (fd_Value version =? 1)%Z && negb (fd_Value version =? 2)%Z
    then mkField 0%Z (fd_Raw version) StatusUnsupported (fd_Source version) else version in
  mkCgroupHints version
    (integerField "MICROFAT_CGROUP_LIMIT_BYTES" 0)
    (integerField "MICROFAT_CGROUP_HIGH_BYTES" 0)
    (integerField "MICROFAT_CGROUP_EFFECTIVE_LIMIT_BYTES" 0)
    (quotaField "MICROFAT_CGROUP_CPUS")
    (textField "MICROFAT_CGROUP_GOMEMLIMIT")
    (integerField "MICROFAT_CGROUP_GOMAXPROCS" 1)
    (gcField "MICROFAT_CGROUP_GOGC")
    (enumField "MICROFAT_CGROUP_GC_PROFILE" ["default"; "latency_critical"; "memory_constrained"; "batch_etl"; "adaptive"])
    (textField "MICROFAT_CGROUP_GOGC_SKIPPED_REASON").

Definition readLauncher : LauncherHints :=
  mkLauncherHints
    (textField "MICROFAT_SELECTED_VARIANT")
    (enumField "MICROFAT_HOST_ARCH" ["amd64"; "arm64"])
    (textField "MICROFAT_HOST_LEVEL")
    (enumField "MICROFAT_EXEC_MODE" ["memfd"; "cache"])
    (enumField "MICROFAT_DISPATCH_MODE" ["memfd"; "cache"])
    (digestField "MICROFAT_SELECTED_SHA256")
    (integerField "MICROFAT_SELECTED_SIZE" 1)
    (textField "MICROFAT_ORIGINAL_EXE")
    (textField "MICROFAT_POLICY_APPLIED")
    (textField "MICROFAT_OVERRIDE_REASON")
    readCgroup.

Definition readConfigured : ConfiguredEnvironment :=
  mkConfigured (textField "GOMEMLIMIT") (textField "GOMAXPROCS") (textField "GOGC")
    (textField "MICROFAT_CPU_POLICY") (textField "MICROFAT_GC_PROFILE") (textField "MICROFAT_AUTOTUNE")
    (textField "MICROFAT_DRY_RUN") (textField "MICROFAT_MEM_RATIO") (textField "MICROFAT_LIVE_HEAP_ESTIMATE").

(** A metric has a value where its kind is an unsigned integer. *)
Definition observe (name : string) (sample : option Z) : Field Z :=
  match sample with
  | Some value => mkField value "" StatusPresent ("runtime/metrics:" ++ name)
  | None => mkField 0%Z "" StatusUnavailable ("runtime/metrics:" ++ name)
  end.

Record ObservedRuntime := mkObserved {
  or_GOMEMLIMITBytes : Field Z;
  or_GOMAXPROCS : Field Z;
  or_GOGCPercent : Field Z
}.

Record Snapshot := mkSnapshot {
  sn_Launcher : LauncherHints;
  sn_Configured : ConfiguredEnvironment;
  sn_Observed : ObservedRuntime
}.

(** [Read], with the environment and the metrics of the process. *)
Definition Read (metrics : string -> option Z) : Snapshot :=
  let sample name := observe name (metrics name) in
  mkSnapshot readLauncher readConfigured
    (mkObserved (sample "/gc/gomemlimit:bytes") (sample "/sched/gomaxprocs:threads") (sample "/gc/gogc:percent")).

End fields.

(** ** What the launcher reports ([cmd/microfat-stub/runtime_info.go]) *)

Definition observationCollected : string := "collected".
Definition observationUnavailable : string := "unavailable".
Definition observationUnknown : string := "unknown".
Definition observationFinite : string := "finite".
Definition environmentInherited : string := "inherited".
Definition environmentAutotune : string := "autotune".
Definition environmentUnset : string := "unset".

Definition runtimeEnvironmentKeys : list string := ["GOMEMLIMIT"; "GOMAXPROCS"; "GOGC"].

(** [format.CgroupInfo]; an error is kept as a value, not as its text. *)
Record CgroupInfo := mkCgroupInfo {
  ci_Version : Z;
  ci_Status : string;
  ci_Error : option cgroup_err;
  ci_MemoryLimitBytes : Z;
  ci_MemoryLimitStatus : string;
  ci_MemoryHighBytes : Z;
  ci_MemoryHighStatus : string;
  ci_EffectiveMemoryLimitBytes : Z;
  ci_EffectiveMemoryLimitStatus : string;
  ci_CPUQuota : float64;
  ci_CPUQuotaStatus : string;
  ci_GOMEMLIMIT : string;
  ci_GOMAXPROCS : Z;
  ci_GOGC : string;
  ci_GCProfile : string
}.

Record RuntimeTuningInfo := mkTuningInfo {
  ti_Available : bool;
  ti_GOMEMLIMIT : string;
  ti_GOMEMLIMITBytes : Z;
  ti_GOMAXPROCS : Z;
  ti_GOMAXPROCSValue : string;
  ti_GOGC : string;
  ti_GCProfile : string;
  ti_AppliedRatio : float64;
  ti_ConstrainingLimit : string;
  ti_GOGCSkippedReason : string
}.

Record RuntimeEnvironmentValue := mkEnvironmentValue {
  rv_Present : bool;
  rv_Value : string;
  rv_Source : string
}.

Record RuntimeCandidate := mkCandidate {
  rc_ExecMode : string;
  rc_RetainedExecutableBytes : Z;
  rc_Tuning : RuntimeTuningInfo;
  rc_EffectiveEnvironment : gmap string RuntimeEnvironmentValue
}.

Record RuntimeInfo := mkRuntimeInfo {
  ri_Autotune : string;
  ri_CPUPolicy : string;
  ri_Candidates : list RuntimeCandidate
}.

Definition numericObservationStatus (finite : bool) : string :=
  if finite then observationFinite else observationUnknown.

Definition cgroupObservationInfo (limits : Limits) (err : option cgroup_err) : CgroupInfo :=
  let status := match err with
                | Some _ => observationUnavailable
                | None => if (CgroupVersion limits =? VersionUnknown)%Z then observationUnknown else observationCollected
                end in
  let numeric finite := if String.eqb status observationCollected then numericObservationStatus finite
                        else observationUnknown in
  mkCgroupInfo (CgroupVersion limits) status err
    (MemoryLimitBytes limits) (numeric (HasMemoryLimit limits))
    (MemoryHighBytes limits) (numeric (HasMemoryHigh limits))
    (EffectiveMemoryLimitBytes limits) (numeric (EffectiveMemoryLimit limits).2)
    (CPUQuota limits) (numeric (flt fzero (CPUQuota limits))) "" 0 "" "".

(** [cgroup.TuningPlan{}] *)
Definition zero_plan : TuningPlan := mkPlan 0 "" "" 0 "" fzero 0 "" "" false "".

(** The inherited environment as it is, with the last position of every key. *)
Definition copied_environ (baseEnv : list string) : environ :=
  mkEnviron baseEnv
    (foldl (fun m ie => match Cut ie.2 eq_sign with
                        | Some (k, _) => if String.eqb k "" then m else <[k := ie.1]> m
                        | None => m
                        end) ∅ (imap pair baseEnv)).

Section inspection.
Context {GU : GoUnicode} {GF : GoFloat}.
Context (process : list string) (page : Z) (read : outcome cgroup_err Limits).

(** The limits and the error of [cgroup.ReadLimits]; an error comes with no
    limits. *)
Definition read_limits : Limits := match read with Ok limits => limits | _ => no_limits VersionUnknown end.
Definition read_error : option cgroup_err := match read with Err e => Some e | _ => None end.

Definition environment_value (env inherited : environ) (key : string) : RuntimeEnvironmentValue :=
  match indexed_value env key with
  | None => mkEnvironmentValue false "" environmentUnset
  | Some v => mkEnvironmentValue true v (if has_key inherited key then environmentInherited else environmentAutotune)
  end.

Definition tuning_info (available : bool) (plan : TuningPlan) : RuntimeTuningInfo :=
  mkTuningInfo available (GOMEMLIMITStr plan) (GOMEMLIMITBytes plan) (GOMAXPROCS plan) (GOMAXPROCSStr plan)
    (GOGCStr plan) (plan_GCProfile plan) (AppliedRatio plan) (ConstrainingLimit plan) (GOGCSkippedReason plan).

Definition buildRuntimeCandidate (baseEnv : list string) (entry : VariantEntry) (limits : Limits)
    (mode autotune : string) (available : bool) : RuntimeCandidate :=
  let inherited := copied_environ baseEnv in
  let '(retained, plan, env) :=
    if available then
      let '(limits, plan) := resolveRuntimeTuning process page limits entry mode inherited in
      (RetainedExecutableBytes limits, plan,
       if String.eqb autotune autotuneEnabled then applyRuntimeTuningPlan inherited plan else inherited)
    else (runtimeRetainedExecutableBytes page entry mode, zero_plan, inherited) in
  mkCandidate mode retained (tuning_info available plan)
    (list_to_map ((fun key => (key, environment_value env inherited key)) <$> runtimeEnvironmentKeys)).

Definition with_tuning (cg : CgroupInfo) (plan : RuntimeTuningInfo) : CgroupInfo :=
  mkCgroupInfo (ci_Version cg) (ci_Status cg) (ci_Error cg) (ci_MemoryLimitBytes cg) (ci_MemoryLimitStatus cg)
    (ci_MemoryHighBytes cg) (ci_MemoryHighStatus cg) (ci_EffectiveMemoryLimitBytes cg) (ci_EffectiveMemoryLimitStatus cg)
    (ci_CPUQuota cg) (ci_CPUQuotaStatus cg) (ti_GOMEMLIMIT plan) (ti_GOMAXPROCS plan) (ti_GOGC plan) (ti_GCProfile plan).

Definition buildRuntimeInfo (baseEnv : list string) (entry : option VariantEntry) : CgroupInfo * RuntimeInfo :=
  let cgInfo := cgroupObservationInfo read_limits read_error in
  let autotune := runtimeAutotuneStatus process in
  let requested := resolveRequestedExecMode process in
  let modes := if String.eqb requested ExecModeAuto then [ExecModeCache; ExecModeMemfd] else [requested] in
  let candidates :=
    match entry with
    | None => []
    | Some entry =>
        (fun mode => buildRuntimeCandidate baseEnv entry read_limits mode autotune
                       (String.eqb (ci_Status cgInfo) observationCollected)) <$> modes
    end in
  let info := mkRuntimeInfo autotune (ResolveCPUPolicy (Getenv process EnvCPUPolicy) CPUPolicyStatic) candidates in
  (match candidates with [c] => with_tuning cgInfo (rc_Tuning c) | _ => cgInfo end, info).

End inspection.
