(* ===== verification/RuntimeInfoProofs.v ===== *)
(** * What is reported, and what is the case

    The launcher's report of a prospective launch agrees with the launch; a
    payload reads back what the launcher chose. *)

From S2P Require Import Prelude GoStrings GoPath GoFloat Format MicroarchFeatures MicroarchSelect CgroupSize CgroupTuning CgroupHierarchy StubEnv StubEnvProofs RuntimeInfo.
From stdpp Require Import base list strings gmap.
From Stdlib Require Import ZArith Lia Floats Strings.Ascii.

Local Open Scope string_scope.

(** ** The copied environment *)

Lemma copied_snoc base e :
  copied_environ (base ++ [e]) =
  mkEnviron (base ++ [e]) match Cut e eq_sign with
                          | Some (k, _) => if String.eqb k "" then keyIndex (copied_environ base)
                                           else <[k := length base]> (keyIndex (copied_environ base))
                          | None => keyIndex (copied_environ base)
                          end.
Proof.
  unfold copied_environ. f_equal. rewrite imap_app, foldl_app. simpl. by rewrite Nat.add_0_r.
Qed.

Lemma copied_spec base :
  pointed (copied_environ base) /\
  forall k, k <> "" -> indexed_value (copied_environ base) k = last_binding base k.
Proof.
  induction base as [|e base [Hpt IH]] using rev_ind; [done|].
  assert (forall k i v, keyIndex (copied_environ base) !! k = Some i -> base !! i = Some v ->
    (base ++ [e])%list !! i = Some v) as Hl by (intros; by apply lookup_app_l_Some).
  rewrite copied_snoc. unfold last_binding in *. split.
  - intros k i; simpl. destruct (Cut e eq_sign) as [[k' v']|] eqn:He.
    2: { intros Hi. destruct (Hpt _ _ Hi) as (Hp & v & Hv). eauto. }
    destruct (String.eqb_spec k' ""); [intros Hi; destruct (Hpt _ _ Hi) as (Hp & v & Hv); eauto|].
    destruct (Cut_inv _ _ _ He) as [-> Hk]. destruct (decide (k' = k)) as [<- |].
    + rewrite lookup_insert_eq. intros [= <-]. split; [done|]. exists v'. by rewrite list_lookup_middle.
    + rewrite lookup_insert_ne by done. intros Hi. destruct (Hpt _ _ Hi) as (Hp & v & Hv). eauto.
  - intros k Hk. rewrite foldl_snoc, <- IH by done. unfold indexed_value at 1. cbn [ev_list keyIndex].
    assert (match keyIndex (copied_environ base) !! k with
            | Some i => Some match (base ++ [e])%list !! i with
                             | Some e => match Cut e eq_sign with Some (_, v) => v | None => "" end | None => "" end
            | None => None
            end = indexed_value (copied_environ base) k) as Hold.
    { unfold indexed_value. change (ev_list (copied_environ base)) with base. destruct (keyIndex (copied_environ base) !! k) as [i|] eqn:Hi; [|done].
      destruct (Hpt _ _ Hi) as (_ & v & Hv). change (ev_list (copied_environ base)) with base in Hv.
      by rewrite (Hl _ _ _ Hi Hv), Hv. }
    destruct (Cut e eq_sign) as [[k' v']|] eqn:He; [|done].
    destruct (String.eqb_spec k' "") as [-> |]; [by rewrite (proj2 (String.eqb_neq _ _)) by done|].
    destruct (String.eqb_spec k' k) as [<- |].
    + by rewrite lookup_insert_eq, list_lookup_middle, He.
    + by rewrite lookup_insert_ne by done.
Qed.

(** ** The report and the launch *)

Section inspection.
Context {GU : GoUnicode} {GF : GoFloat}.
Context (process : list string) (page : Z) (abs : string -> option string) (read : outcome cgroup_err Limits).

Lemma observed_known :
  String.eqb (ci_Status (cgroupObservationInfo (read_limits read) (read_error read))) observationCollected =
    bool_decide (is_Some (known_limits read)).
Proof.
  unfold known_limits, read_limits, read_error. destruct read as [l|e|]; [|done..].
  simpl. by destruct (CgroupVersion l =? VersionUnknown)%Z.
Qed.

(** The limits of a mode do not depend on the environment. *)
Lemma tuned_limits limits ve mode env env' :
  (resolveRuntimeTuning process page limits ve mode env).1 = (resolveRuntimeTuning process page limits ve mode env').1.
Proof. done. Qed.

Lemma copied_plan base limits ve mode :
  resolveRuntimeTuning process page limits ve mode (copied_environ base) =
  resolveRuntimeTuning process page limits ve mode (inherited_environ base).
Proof.
  apply resolveRuntimeTuning_ext. destruct (copied_spec base) as [_ ->]; [|done].
  destruct (inherited_spec base) as [Hix Hv]. rewrite indexed_value_eq by done. by rewrite Hv.
Qed.

Lemma candidate_value base ve mode selfPath hostInfo policyRes key :
  key ∈ runtimeEnvironmentKeys ->
  let available := bool_decide (is_Some (known_limits read)) in
  let c := buildRuntimeCandidate process page base ve (read_limits read) mode (runtimeAutotuneStatus process) available in
  exists rv, rc_EffectiveEnvironment c !! key = Some rv /\
    (if rv_Present rv then Some (rv_Value rv) else None) =
      payload_value process page abs read selfPath base ve mode hostInfo policyRes key /\
    (rv_Source rv = environmentInherited <-> is_Some (last_binding base key)).
Proof.
  intros Hkey available c.
  assert (key <> "" /\ isMicrofatInternalEnv key = false) as [Hne Hint].
  { revert key Hkey c. apply Forall_forall. by repeat constructor. }
  destruct (copied_spec base) as [Hpt Hcv]. specialize (Hcv key Hne).
  assert (exists env, rc_EffectiveEnvironment c !! key = Some (environment_value env (copied_environ base) key) /\
    indexed_value env key = match last_binding base key with
                            | Some v => Some v
                            | None => payload_setting process page read base ve mode key
                            end) as (env & Hrv & Hval).
  { unfold c, buildRuntimeCandidate, available, payload_setting, payload_plan, known_limits, read_limits.
    assert (forall env, (list_to_map ((fun key => (key, environment_value env (copied_environ base) key)) <$>
      runtimeEnvironmentKeys) : gmap string RuntimeEnvironmentValue) !! key =
      Some (environment_value env (copied_environ base) key)) as Hmap.
    { intros env. apply elem_of_list_to_map_1; [|apply list_elem_of_fmap; eauto].
      rewrite <- list_fmap_compose. apply (bool_decide_unpack _). by vm_compute. }
    destruct read as [l|e|]; cbn [bool_decide is_Some]; try (eexists; split; [apply Hmap|]; rewrite Hcv; by case_match).
    destruct (CgroupVersion l =? VersionUnknown)%Z; try (eexists; split; [apply Hmap|]; rewrite Hcv; by case_match).
    rewrite bool_decide_eq_true_2 by eauto. rewrite copied_plan.
    destruct (resolveRuntimeTuning process page l ve mode (inherited_environ base)) as [l' plan]; cbn [fst snd].
    eexists; split; [apply Hmap|]. destruct (String.eqb _ _); [|rewrite Hcv; by case_match].
    destruct (applyRuntimeTuningPlan_spec (copied_environ base) plan Hpt) as [_ ->]. by rewrite Hcv. }
  exists (environment_value env (copied_environ base) key). split; [done|].
  unfold environment_value. rewrite has_key_indexed, Hcv, Hval. unfold payload_value.
  rewrite assigned_internal, Hint by (done || apply internal_payload).
  destruct (last_binding base key) as [v|]; [by split; eauto|].
  destruct (payload_setting _ _ _ _ _ _ _); simpl; (split; [done|]); (split; [discriminate|by intros [? [=]]]).
Qed.

(** What [microfat:info] reports of a launch is what the launch does: for every candidate
    mode, the report shows for [GOMEMLIMIT], [GOMAXPROCS] and [GOGC] exactly the value the
    payload would find in its environment, and calls it inherited exactly when the user set it;
    and the memory it accounts for the executable is the one in the limits the launch plans
    with. *)
Theorem inspection_matches_dispatch (base : list string) (ve : VariantEntry) (selfPath : string) (hostInfo : Info)
    (policyRes : PolicyResult) (c : RuntimeCandidate) (key : string) :
  c ∈ ri_Candidates (buildRuntimeInfo process page read base (Some ve)).2 -> key ∈ runtimeEnvironmentKeys ->
  let '(env, limits) := buildAutoTunedEnviron process page abs read selfPath base ve (rc_ExecMode c) hostInfo policyRes in
  (exists rv, rc_EffectiveEnvironment c !! key = Some rv /\
    (if rv_Present rv then Some (rv_Value rv) else None) = LookupEnv (ev_list env) key /\
    (rv_Source rv = environmentInherited <-> is_Some (last_binding base key))) /\
  (forall l, limits = Some l -> rc_RetainedExecutableBytes c = RetainedExecutableBytes l).
Proof.
  intros Hc Hkey. pose proof observed_known as Hknown.
  unfold buildRuntimeInfo in Hc. cbn [snd ri_Candidates] in Hc. rewrite Hknown in Hc.
  apply list_elem_of_fmap in Hc as (mode & -> & _).
  assert (rc_ExecMode (buildRuntimeCandidate process page base ve (read_limits read) mode (runtimeAutotuneStatus process)
    (bool_decide (is_Some (known_limits read)))) = mode) as ->.
  { unfold buildRuntimeCandidate. by repeat case_match. }
  destruct (buildAutoTunedEnviron _ _ _ _ _ _ _ _ _ _) as [env limits] eqn:He. split.
  - destruct (candidate_value base ve mode selfPath hostInfo policyRes key Hkey) as (rv & Hrv & Hv & Hs).
    exists rv. split_and!; [done| |done]. rewrite Hv. symmetry.
    destruct (buildAutoTunedEnviron_value process page abs read selfPath base ve mode hostInfo policyRes key) as [_ Hval].
    { intros ->. by apply (Forall_forall (fun k => k <> "") runtimeEnvironmentKeys) in Hkey; [|repeat constructor]. }
    by rewrite He in Hval.
  - intros l ->. unfold buildAutoTunedEnviron, known_limits, read_limits, buildRuntimeCandidate in *.
    destruct read as [l0|e|]; [|discriminate..]. destruct (CgroupVersion l0 =? VersionUnknown)%Z; [discriminate|].
    rewrite bool_decide_eq_true_2 by eauto.
    rewrite (surjective_pairing (resolveRuntimeTuning _ _ l0 ve mode (copied_environ base))).
    rewrite (surjective_pairing (resolveRuntimeTuning _ _ l0 ve mode (populateCgroupEnviron _ _))) in He.
    cbn [rc_RetainedExecutableBytes]. repeat case_match; by injection He as _ <-.
Qed.

End inspection.

(** ** Decimal numbers are read back *)

Lemma digit_char_spec d : (0 <= d < 10)%Z -> is_digit (digit_char d) = true /\ digit_val (digit_char d) = d.
Proof.
  intros Hd. assert (d = 0 \/ d = 1 \/ d = 2 \/ d = 3 \/ d = 4 \/ d = 5 \/ d = 6 \/ d = 7 \/ d = 8 \/ d = 9)%Z as Hc by lia.
  by repeat (destruct Hc as [-> |Hc]; [done|]); subst d.
Qed.

Lemma dec_digits_value fuel n acc :
  (0 <= n < 10 ^ Z.of_nat fuel)%Z -> (0 < fuel)%nat -> dec_val_aux (dec_digits fuel n acc) 0 = dec_val_aux acc n.
Proof.
  revert n acc. induction fuel as [|fuel IH]; intros n acc Hn Hf; [lia|]. cbn [dec_digits].
  destruct (digit_char_spec (n mod 10)) as [Hd Hv]; [apply Z.mod_pos_bound; lia|].
  destruct (Z.ltb_spec n 10) as [Hlt|Hge].
  - cbn [dec_val_aux]. rewrite Hd, Hv, Z.mod_small by lia. f_equal.
  - assert (10 ^ Z.of_nat (S fuel) = 10 * 10 ^ Z.of_nat fuel)%Z as Hp by (rewrite Nat2Z.inj_succ, Z.pow_succ_r; lia).
    rewrite IH.
    + cbn [dec_val_aux]. rewrite Hd, Hv. f_equal. pose proof (Z.div_mod n 10). lia.
    + split; [apply Z.div_pos; lia|apply Z.div_lt_upper_bound; lia].
    + destruct fuel; [|lia]. simpl in Hn. lia.
Qed.

Lemma dec_digits_digits fuel n acc :
  (0 <= n)%Z -> (0 < fuel)%nat -> sforallb is_digit acc = true ->
  exists c s, dec_digits fuel n acc = String c s /\ sforallb is_digit (String c s) = true.
Proof.
  revert n acc. induction fuel as [|fuel IH]; intros n acc Hn Hf Hacc; [lia|]. cbn [dec_digits].
  destruct (digit_char_spec (n mod 10)) as [Hd _]; [apply Z.mod_pos_bound; lia|].
  assert (sforallb is_digit (String (digit_char (n mod 10)) acc) = true) as Hacc' by (cbn [sforallb]; by rewrite Hd).
  destruct (n <? 10)%Z; [by eexists _, _|]. destruct fuel as [|fuel]; [by eexists _, _|].
  apply IH; [apply Z.div_pos; lia|lia|done].
Qed.

Lemma Itoa_digits n :
  (0 <= n)%Z -> exists c s, Itoa n = String c s /\ is_digit c = true /\ sforallb is_digit (String c s) = true.
Proof.
  intros Hn. unfold Itoa. rewrite (proj2 (Z.ltb_ge _ _)) by done.
  destruct (dec_digits_digits 20 n "" Hn) as (c & s & -> & Hs); [lia|done|]. exists c, s.
  split_and!; [done| |done]. cbn [sforallb] in Hs. by apply andb_true_iff in Hs as [].
Qed.

Lemma ParseInt_Itoa n : (0 <= n <= MaxInt64)%Z -> decimalDigits (Itoa n) = true /\ ParseInt (Itoa n) = Some n.
Proof.
  intros Hn. destruct (Itoa_digits n) as (c & s & Heq & Hc & Hs); [lia|].
  assert (dec_val (Itoa n) = Some n) as Hval.
  { unfold dec_val. rewrite Heq at 1. cbn [String.eqb]. unfold Itoa. rewrite (proj2 (Z.ltb_ge _ _)) by lia.
    apply dec_digits_value; [|lia]. unfold MaxInt64 in Hn. lia. }
  split; [by rewrite Heq; unfold decimalDigits; simpl in *|].
  unfold ParseInt. replace (match Itoa n with String "-" t => (true, t) | String "+" t => (false, t) | _ => (false, Itoa n) end)
    with (false, Itoa n).
  - rewrite Hval. unfold MaxInt64 in Hn. by rewrite (proj2 (Z.ltb_lt _ _)) by lia.
  - rewrite Heq. clear -Hc. by destruct c as [[] [] [] [] [] [] [] []].
Qed.

(** ** What the payload reads back *)

Definition present {T} (value : T) (raw key : string) : Field T := mkField value raw StatusPresent key.
Definition missing {T} (zero : T) (key : string) : Field T := mkField zero "" StatusMissing key.

Section hints.
Context {GU : GoUnicode} {GF : GoFloat} (lookup : string -> option string).

Lemma enumField_supported key raw supported :
  lookup key = Some raw -> raw ∈ supported -> enumField lookup key supported = present raw raw key.
Proof.
  intros Hl Hin. unfold enumField, textField. rewrite Hl. simpl.
  rewrite (proj2 (existsb_exists _ _)); [done|]. exists raw. split; [by apply list_elem_of_In|apply String.eqb_refl].
Qed.

Lemma integerField_Itoa key n minimum :
  lookup key = Some (Itoa n) -> (0 <= minimum <= n)%Z -> (n <= MaxInt64)%Z ->
  integerField lookup key minimum = present n (Itoa n) key.
Proof.
  intros Hl Hm Hn. unfold integerField. rewrite Hl. destruct (ParseInt_Itoa n) as [-> ->]; [lia|]. simpl.
  by rewrite (proj2 (Z.leb_le _ _)) by lia.
Qed.

Lemma digestField_digest key sha :
  lookup key = Some sha -> digest_syntax sha -> digestField lookup key = present (ToLower sha) sha key.
Proof.
  intros Hl [Hlen Hhex]. unfold digestField, textField, hex_DecodeString. rewrite Hl. simpl. by rewrite Hlen, Hhex.
Qed.

End hints.

Section read_back.
Context {GU : GoUnicode} {GF : GoFloat}.
Context (process : list string) (page : Z) (abs : string -> option string) (read : outcome cgroup_err Limits).
Context (selfPath : string) (base : list string) (ve : VariantEntry) (mode : string) (hostInfo : Info) (policyRes : PolicyResult).

Abbreviation launch_env := (ev_list (buildAutoTunedEnviron process page abs read selfPath base ve mode hostInfo policyRes).1).
Abbreviation hints := (payload_hints process page abs read selfPath base ve mode hostInfo policyRes).

Lemma launch_hint k : isMicrofatInternalEnv k = true -> LookupEnv launch_env k = assigned hints k.
Proof.
  intros Hk. destruct (buildAutoTunedEnviron_value process page abs read selfPath base ve mode hostInfo policyRes k) as [_ ->].
  { by intros ->. }
  unfold payload_value. rewrite Hk. by destruct (assigned hints k).
Qed.

Definition cgroup_part : list (string * string) :=
  match known_limits read with
  | None => []
  | Some limits =>
      cgroup_hints limits ++
      plan_hints (bool_decide (is_Some (last_binding base "GOGC"))) (payload_plan process page base ve mode limits)
  end.

Ltac no_hint :=
  repeat match goal with
  | |- context [assigned (?l ++ ?l') _] => rewrite (assigned_app l l')
  | |- context [assigned (when _ _ _) _] => rewrite assigned_when
  end; simpl; rewrite ?andb_false_r, ?andb_true_r; try done.

(** The variables of the selection are set by the selection, those of the
    container by the rest. *)
Lemma assigned_cgroup_part k :
  k ∈ [EnvOriginalExe; EnvSelectedVariant; EnvHostArch; EnvHostLevel; EnvExecMode; EnvDispatchMode; EnvSelectedSHA256;
       EnvSelectedSize; EnvPolicyApplied; EnvOverrideReason] -> assigned cgroup_part k = None.
Proof.
  revert k. apply Forall_forall. unfold cgroup_part, cgroup_hints, plan_hints.
  destruct (known_limits read); repeat constructor; no_hint.
Qed.

Lemma selection_hint k :
  k ∈ [EnvOriginalExe; EnvSelectedVariant; EnvHostArch; EnvHostLevel; EnvExecMode; EnvDispatchMode; EnvSelectedSHA256;
       EnvSelectedSize; EnvPolicyApplied; EnvOverrideReason] ->
  LookupEnv launch_env k = assigned (selection_hints abs selfPath ve mode hostInfo policyRes) k.
Proof.
  intros Hk. rewrite launch_hint.
  - unfold payload_hints. fold cgroup_part. by rewrite assigned_app, assigned_cgroup_part.
  - revert k Hk. apply Forall_forall. by repeat constructor.
Qed.

Lemma cgroup_hint k :
  k ∈ [EnvCgroupVersion; EnvCgroupLimitBytes; EnvCgroupHighBytes; EnvCgroupEffectiveLimitBytes; EnvCgroupCPUs;
       EnvCgroupGOMEMLIMIT; EnvCgroupGOMAXPROCS; EnvCgroupGOGC; EnvCgroupGCProfile; EnvCgroupGOGCSkippedReason] ->
  LookupEnv launch_env k = assigned cgroup_part k.
Proof.
  intros Hk. rewrite launch_hint.
  - unfold payload_hints. fold cgroup_part. rewrite assigned_app. destruct (assigned cgroup_part k); [done|].
    revert k Hk. apply Forall_forall. unfold selection_hints. repeat constructor; no_hint; by destruct (String.eqb _ "").
  - revert k Hk. apply Forall_forall. by repeat constructor.
Qed.

Definition optional (b : bool) (v key : string) : Field string := if b then present v v key else missing "" key.
Definition counted (b : bool) (n : Z) (key : string) : Field Z := if b then present n (Itoa n) key else missing 0%Z key.

Lemma integerField_counted (lookup : string -> option string) key (b : bool) n :
  lookup key = (if b then Some (Itoa n) else None) -> (0 <= n <= MaxInt64)%Z ->
  integerField lookup key 0 = counted b n key.
Proof.
  intros Hl Hn. destruct b; [by apply integerField_Itoa; [|lia..]|]. unfold integerField. by rewrite Hl.
Qed.

Lemma textField_optional (lookup : string -> option string) key (b : bool) v :
  lookup key = (if b then Some v else None) -> textField lookup key = optional b v key.
Proof. intros Hl. unfold textField. rewrite Hl. by destruct b. Qed.

Ltac in_keys := apply list_elem_of_In; simpl; tauto.
Ltac read_selection := rewrite selection_hint by in_keys; unfold selection_hints; no_hint; by destruct (String.eqb _ "").
Ltac read_cgroup Hl := rewrite cgroup_hint by in_keys; unfold cgroup_part; rewrite Hl; unfold cgroup_hints, plan_hints; no_hint; by repeat case_match.


End read_back.

(** ** The launch in a container of 1 GiB *)

Definition sample_candidate : RuntimeCandidate :=
  @buildRuntimeCandidate ascii_tables amd64_float [] 4096 sample_base sample_entry sample_limits ExecModeMemfd
    autotuneEnabled true.

Lemma inspection_matches_dispatch_witness :
  exists rv, rc_EffectiveEnvironment sample_candidate !! "GOGC" = Some rv /\ rv_Source rv = environmentInherited.
Proof.
  pose proof (@inspection_matches_dispatch ascii_tables amd64_float [] 4096 (fun _ => None) (Ok sample_limits) sample_base
    sample_entry "app" sample_host (mkResult "v3" "" "") sample_candidate "GOGC") as H.
  destruct (buildAutoTunedEnviron _ _ _ _ _ _ _ _ _ _) as [env limits]. destruct H as [(rv & Hrv & _ & Hs) _].
  - apply list_elem_of_In. right. left. vm_compute. reflexivity.
  - apply list_elem_of_In. right. right. left. reflexivity.
  - exists rv. split; [exact Hrv|]. apply Hs. eexists. vm_compute. reflexivity.
Defined.

