(* ===== verification/Diagnostics.v ===== *)
(** * Failed launches: attempts, hints and telemetry ([format.go],
    [format/diagnostics.go], [cmd/microfat-stub/telemetry.go])

    A dispatch error lists the attempts in order.  A hint is derived from the
    stage and the sentinels and error numbers of an error.  Telemetry is JSON
    text written without the standard encoder. *)

From S2P Require Import Prelude GoStrings GoFloat Vfs Cache CgroupSize.
From stdpp Require Import base list strings.
From Stdlib Require Import ZArith Lia Floats Strings.Ascii.
Import CacheErr.

Local Open Scope string_scope.

(** ** Sentinels *)

Module StubErr.

Definition ErrMemfdCreate : gerror := [Sentinel "format.ErrMemfdCreate"].
Definition ErrMemfdSealingFailed : gerror := [Sentinel "format.ErrMemfdSealingFailed"].
Definition ErrMemfdExtract : gerror := [Sentinel "format.ErrMemfdExtract"].
Definition ErrExecve : gerror := [Sentinel "format.ErrExecve"].
Definition ErrDictionaryCorrupted : gerror := [Sentinel "format.ErrDictionaryCorrupted"].
Definition ErrPayloadCorrupted : gerror := [Sentinel "format.ErrPayloadCorrupted"].
Definition ErrInvalidDictionary : gerror := [Sentinel "format.ErrInvalidDictionary"].
Definition ErrMemoryBudget : gerror := [Sentinel "cgroup.ErrMemoryBudget"].
Definition ErrUnsupportedCodec : gerror := [Sentinel "codec.ErrUnsupportedCodec"].
Definition ErrDecompressionFailed : gerror := [Sentinel "codec.ErrDecompressionFailed"].
Definition ErrSizeMismatch : gerror := [Sentinel "codec.ErrSizeMismatch"].

End StubErr.
Import StubErr.

(** ** Error numbers *)

(** [syscall.Errno] on Linux; a path that escapes an [os.Root] has none. *)
Definition errno_number (e : errno) : option Z :=
  match e with
  | EPERM => Some 1 | ENOENT => Some 2 | EINTR => Some 4 | EIO => Some 5 | ENOEXEC => Some 8
  | EBADF => Some 9 | EWOULDBLOCK => Some 11 | ENOMEM => Some 12 | EACCES => Some 13 | EEXIST => Some 17
  | EXDEV => Some 18 | ENOTDIR => Some 20 | EISDIR => Some 21 | EINVAL => Some 22 | ENFILE => Some 23
  | EMFILE => Some 24 | ETXTBSY => Some 26 | ENOSPC => Some 28 | EROFS => Some 30 | ERANGE => Some 34
  | ENOSYS => Some 38 | ENOTEMPTY => Some 39 | ELOOP => Some 40 | ENODATA => Some 61 | ENOTSUP => Some 95
  | PathEscapes => None
  end%Z.

Definition errnoName (e : errno) : string :=
  match e with
  | EPERM => "EPERM" | ENOENT => "ENOENT" | EACCES => "EACCES" | EBADF => "EBADF" | ENOMEM => "ENOMEM"
  | EEXIST => "EEXIST" | EINVAL => "EINVAL" | ENFILE => "ENFILE" | EMFILE => "EMFILE" | ETXTBSY => "ETXTBSY"
  | ENOSPC => "ENOSPC" | EROFS => "EROFS" | ENOEXEC => "ENOEXEC" | ENOSYS => "ENOSYS"
  | _ => "ERRNO_" ++ Itoa (default 0%Z (errno_number e))
  end.

(** [errors.As] finds the first error number. *)
Fixpoint ExtractErrno (err : gerror) : Z * string :=
  match err with
  | [] => (0%Z, "")
  | Errno e :: rest => match errno_number e with Some n => (n, errnoName e) | None => ExtractErrno rest end
  | Sentinel _ :: rest => ExtractErrno rest
  end.

(** ** Attempts *)

(** [format.ExecutionAttempt]; the text of the error is left out. *)
Record ExecutionAttempt := mkAttempt {
  at_Stage : string;
  at_RequestedMode : string;
  at_AttemptedMode : string;
  at_Err : gerror;
  at_Errno : Z;
  at_ErrnoName : string
}.

Record DispatchError := mkDispatchError {
  de_PrimarySentinel : gerror;
  de_RequestedMode : string;
  de_Attempts : list ExecutionAttempt
}.

(** What [DispatchError.Is] and [As] look through. *)
Definition dispatch_tags (e : DispatchError) : gerror :=
  (de_PrimarySentinel e ++ concat (at_Err <$> de_Attempts e))%list.

(** ** Hints *)

Definition StageMemfdCreate : string := "memfd_create".
Definition StageMemfdSeal : string := "memfd_seal".
Definition StageMemfdExtract : string := "extract_memfd".
Definition StageMemfdExec : string := "execve_memfd".
Definition StageCacheDirInit : string := "cache_dir_init".
Definition StageCacheCreateTemp : string := "cache_create_temp".
Definition StageCacheExtract : string := "cache_extract".
Definition StageCacheExec : string := "execve_cache".
Definition StageCodecLookup : string := "codec_lookup".
Definition StageDecompress : string := "decompress".
Definition StageLauncherMain : string := "launcher_main".

Definition HintMemfdEPERM : string :=
  "memfd_create failed with EPERM. " ++
   "Possible causes include host security policy, seccomp filters, or container profile restrictions. " ++
   "If disk cache execution is permitted, run with MICROFAT_EXEC_MODE=cache.".
Definition HintMemfdEACCES : string :=
  "memfd_create failed with EACCES. " ++
   "Possible causes include permission restrictions or kernel memfd policy limits. " ++
   "If disk cache execution is permitted, run with MICROFAT_EXEC_MODE=cache.".
Definition HintMemfdSeal : string :=
  "memfd sealing (F_ADD_SEALS) failed or was restricted by kernel security policy. " ++
   "If disk cache execution is permitted, run with MICROFAT_EXEC_MODE=cache, or adjust kernel sealing permissions.".
Definition HintMemfdKernelUnsupported : string :=
  "memfd_create is unsupported on this Linux kernel or disabled (ENOSYS). " ++
   "If disk cache execution is permitted, run with MICROFAT_EXEC_MODE=cache.".
Definition HintFileDescriptorLimit : string :=
  "File descriptor limit reached. " ++
   "Increase nofile limits (ulimit -n) or free open file descriptors.".
Definition HintReadOnlyFS : string :=
  "Read-only filesystem detected. " ++
   "Set $MICROFAT_CACHE_DIR or $TMPDIR to a writable tmpfs/volume.".
Definition HintCacheUnwritable : string :=
  "Unable to write cached binary. " ++
   "Ensure $XDG_CACHE_HOME or $TMPDIR is writable, or mount a writable tmpfs.".
Definition HintPermissionDenied : string :=
  "Permission denied. Check the permissions and security policy for the path named in the error.".
Definition HintDiskFull : string :=
  "No space left on device. " ++
   "Free disk space in cache directory or set $MICROFAT_CACHE_DIR to a volume with available space.".
Definition HintExecEACCES : string :=
  "execve failed with EACCES. " ++
   "Possible causes include missing execute permissions, a 'noexec' filesystem mount, or security policy restrictions.".
Definition HintExecEPERM : string :=
  "execve failed with EPERM. " ++
   "Possible causes include security policy (seccomp, LSM/AppArmor/SELinux), or container execution restrictions.".
Definition HintTextBusy : string :=
  "Binary is currently open for writing by another process (ETXTBSY). " ++
   "Retrying or prewarming with --microfat:prewarm avoids concurrency contention.".
Definition HintExecFormat : string :=
  "Binary format is invalid or incompatible with host kernel/architecture.".
Definition HintUnsupportedCodec : string :=
  "Binary variant uses an unsupported compression algorithm. " ++
   "Update microfat launcher stub or re-package with a supported codec (e.g. zstd, lz4, none).".
Definition HintDecompressFailed : string :=
  "Payload decompression failed or corrupted. " ++
   "Re-package the binary with 'microfat pack' or verify integrity with 'microfat verify'.".
Definition HintInsecureCacheDir : string :=
  "Cache directory has insecure permissions, is a symlink, or is owned by another user. " ++
   "Use a private directory owned by your UID with mode 0700 or set MICROFAT_CACHE_DIR.".

Definition is_err (e : gerror) (n : errno) : bool := errors_Is e (Errno n).

Definition diagnoseMemfdCreate (err : gerror) : string :=
  if is_err err EPERM then HintMemfdEPERM
  else if is_err err EACCES then HintMemfdEACCES
  else if is_err err ENOSYS then HintMemfdKernelUnsupported
  else if is_err err EMFILE || is_err err ENFILE then HintFileDescriptorLimit
  else "".

Definition diagnoseMemfdSeal (err : gerror) : string :=
  if is_err err ENOSYS then HintMemfdKernelUnsupported else HintMemfdSeal.

Definition diagnoseCacheWrite (err : gerror) : string :=
  if has err ErrInsecureCacheDir then HintInsecureCacheDir
  else if is_err err EROFS then HintReadOnlyFS
  else if is_err err EACCES || is_err err EPERM then HintCacheUnwritable
  else if is_err err ENOSPC then HintDiskFull
  else if is_err err EMFILE || is_err err ENFILE then HintFileDescriptorLimit
  else "".

Definition diagnoseExec (err : gerror) : string :=
  if is_err err EACCES then HintExecEACCES
  else if is_err err EPERM then HintExecEPERM
  else if is_err err ETXTBSY then HintTextBusy
  else if is_err err ENOEXEC then HintExecFormat
  else "".

Definition diagnoseCodecAndIntegrity (err : gerror) : string :=
  if has err ErrUnsupportedCodec then HintUnsupportedCodec
  else if has err ErrDecompressionFailed || has err ErrSizeMismatch || has err ErrDictionaryCorrupted || has err ErrPayloadCorrupted
  then HintDecompressFailed
  else "".

Definition diagnoseExecutionSentinels (err : gerror) : string :=
  if has err ErrExecve then diagnoseExec err
  else if has err ErrMemfdCreate then diagnoseMemfdCreate err
  else if has err ErrMemfdSealingFailed then diagnoseMemfdSeal err
  else if has err ErrCacheInit || has err ErrCacheWrite || has err ErrCacheExtract then diagnoseCacheWrite err
  else "".

Definition diagnoseFallbackSyscall (err : gerror) : string :=
  if is_err err EROFS then HintReadOnlyFS
  else if is_err err ENOSPC then HintDiskFull
  else if is_err err ENOSYS then HintMemfdKernelUnsupported
  else if is_err err ETXTBSY then HintTextBusy
  else if is_err err ENOEXEC then HintExecFormat
  else if is_err err EMFILE || is_err err ENFILE then HintFileDescriptorLimit
  else if is_err err EACCES || is_err err EPERM then HintPermissionDenied
  else "".

Definition diagnoseGeneric (err : gerror) : string :=
  let hint := diagnoseCodecAndIntegrity err in
  if negb (String.eqb hint "") then hint
  else
    let hint := diagnoseExecutionSentinels err in
    if negb (String.eqb hint "") then hint else diagnoseFallbackSyscall err.

Definition diagnoseCodec (err : gerror) : string :=
  if has err ErrUnsupportedCodec then HintUnsupportedCodec else diagnoseGeneric err.

Definition diagnoseDecompress (err : gerror) : string :=
  if has err ErrDecompressionFailed || has err ErrSizeMismatch || has err ErrDictionaryCorrupted ||
     has err ErrPayloadCorrupted || has err ErrPayloadTooLarge || has err ErrMemfdExtract || has err ErrCacheExtract
  then HintDecompressFailed
  else diagnoseGeneric err.

Definition DiagnoseError (stage : string) (err : gerror) : string :=
  if String.eqb stage StageMemfdCreate then diagnoseMemfdCreate err
  else if String.eqb stage StageMemfdSeal then diagnoseMemfdSeal err
  else if String.eqb stage StageMemfdExec then diagnoseExec err
  else if String.eqb stage StageCacheDirInit || String.eqb stage StageCacheCreateTemp || String.eqb stage StageCacheExtract
  then diagnoseCacheWrite err
  else if String.eqb stage StageCacheExec then diagnoseExec err
  else if String.eqb stage StageCodecLookup then diagnoseCodec err
  else if String.eqb stage StageMemfdExtract || String.eqb stage StageDecompress then diagnoseDecompress err
  else diagnoseGeneric err.
