(* ===== verification/Telemetry.v ===== *)
(** * Telemetry lines are JSON ([cmd/microfat-stub/telemetry.go])

    The launcher writes its telemetry as JSON text by concatenation.  A reader
    of JSON gets back the fields that were recorded. *)

From S2P Require Import Prelude GoStrings GoFloat Vfs Diagnostics.
From stdpp Require Import base list strings.
From Stdlib Require Import ZArith Lia Floats Strings.Ascii.

Local Open Scope string_scope.

Definition dquote : ascii := ascii_of_N 34.
Definition backslash : ascii := ascii_of_N 92.
Definition q : string := String dquote "".

(** ** Escaping ([format.go]) *)

Definition hex_char (n : N) : ascii := if (n <? 10)%N then ascii_of_N (48 + n) else ascii_of_N (87 + n).

(** [fmt.Fprintf(&sb, `\u%04x`, c)] for a byte. *)
Definition unicode_escape (c : ascii) : string :=
  String backslash ("u00" ++ String (hex_char (chr c / 16)) (String (hex_char (chr c mod 16)) "")).

Definition escape_char (c : ascii) : string :=
  let n := chr c in
  if (n =? 34)%N then String backslash (String dquote "")
  else if (n =? 92)%N then String backslash (String backslash "")
  else if (n =? 8)%N then String backslash "b"
  else if (n =? 12)%N then String backslash "f"
  else if (n =? 10)%N then String backslash "n"
  else if (n =? 13)%N then String backslash "r"
  else if (n =? 9)%N then String backslash "t"
  else if (n <? 32)%N then unicode_escape c
  else String c "".

Fixpoint EscapeJSONString (s : string) : string :=
  match s with
  | "" => ""
  | String c s => escape_char c ++ EscapeJSONString s
  end.

(** ** Records *)

Record DispatchTelemetry := mkDispatchTelemetry {
  dt_Event : string;
  dt_TimestampUnixNano : Z;
  dt_HostArch : string;
  dt_HostLevel : string;
  dt_SelectedVariant : string;
  dt_SelectedSHA256 : string;
  dt_SelectedSizeBytes : Z;
  dt_ExecMode : string;
  dt_PolicyApplied : string;
  dt_PolicyReason : string;
  dt_CgroupVersion : Z;
  dt_CgroupMemLimitBytes : Z;
  dt_CgroupCPUQuota : float64;
  dt_GOMEMLIMIT : string;
  dt_GOMAXPROCS : string;
  dt_GOGC : string;
  dt_GCProfile : string;
  dt_DecompressionDurationUs : Z;
  dt_TotalLauncherUs : Z
}.

(** An attempt with the text of its error. *)
Record AttemptTelemetry := mkAttemptTelemetry {
  tm_Stage : string;
  tm_RequestedMode : string;
  tm_AttemptedMode : string;
  tm_Error : string;
  tm_Errno : Z;
  tm_ErrnoName : string
}.

Record ErrorTelemetry := mkErrorTelemetry {
  et_Event : string;
  et_TimestampUnixNano : Z;
  et_HostArch : string;
  et_HostLevel : string;
  et_SelectedVariant : string;
  et_PolicyApplied : string;
  et_PolicyReason : string;
  et_Stage : string;
  et_RequestedMode : string;
  et_AttemptedMode : string;
  et_Error : string;
  et_Errno : Z;
  et_ErrnoName : string;
  et_Attempts : list AttemptTelemetry;
  et_Details : string;
  et_Hint : string
}.

(** ** Writing *)

(** The pieces of text between two values. *)
Definition open_string (key : string) : string := q ++ key ++ q ++ ":" ++ q.
Definition open_number (key : string) : string := q ++ key ++ q ++ ":".

Definition write_string (key value : string) : string := "," ++ open_string key ++ EscapeJSONString value ++ q.
Definition write_number (key value : string) : string := "," ++ open_number key ++ value.

Definition string_unless_empty (key value : string) : string :=
  if negb (String.eqb value "") then write_string key value else "".

Definition number_if (b : bool) (key value : string) : string := if b then write_number key value else "".

(** The attempts, separated by commas. *)
Definition format_attempt (a : AttemptTelemetry) : string :=
  "{" ++ open_string "stage" ++ EscapeJSONString (tm_Stage a) ++ q ++
  write_string "requested_mode" (tm_RequestedMode a) ++
  write_string "attempted_mode" (tm_AttemptedMode a) ++
  write_string "error" (tm_Error a) ++
  number_if (negb (tm_Errno a =? 0)%Z) "errno" (Itoa (tm_Errno a)) ++
  string_unless_empty "errno_name" (tm_ErrnoName a) ++ "}".

Fixpoint format_attempts (l : list AttemptTelemetry) : string :=
  match l with
  | [] => ""
  | [a] => format_attempt a
  | a :: rest => format_attempt a ++ "," ++ format_attempts rest
  end.

Definition formatErrorTelemetryJSON (e : ErrorTelemetry) : string :=
  "{" ++ open_string "event" ++ EscapeJSONString (et_Event e) ++ q ++
  write_number "timestamp_unix_nano" (Itoa (et_TimestampUnixNano e)) ++
  string_unless_empty "host_arch" (et_HostArch e) ++
  string_unless_empty "host_level" (et_HostLevel e) ++
  string_unless_empty "selected_variant" (et_SelectedVariant e) ++
  string_unless_empty "policy_applied" (et_PolicyApplied e) ++
  string_unless_empty "policy_reason" (et_PolicyReason e) ++
  string_unless_empty "requested_mode" (et_RequestedMode e) ++
  string_unless_empty "attempted_mode" (et_AttemptedMode e) ++
  write_string "stage" (et_Stage e) ++
  write_string "error" (et_Error e) ++
  number_if (negb (et_Errno e =? 0)%Z) "errno" (Itoa (et_Errno e)) ++
  string_unless_empty "errno_name" (et_ErrnoName e) ++
  match et_Attempts e with
  | [] => ""
  | attempts => "," ++ open_number "attempts" ++ "[" ++ format_attempts attempts ++ "]"
  end ++
  string_unless_empty "details" (et_Details e) ++
  string_unless_empty "hint" (et_Hint e) ++ "}".

(** A zero, or digits that do not start with one. *)
Definition whole_part (s : string) : bool :=
  match s with
  | "" => false
  | String c t => String.eqb s "0" || negb (Ascii.eqb c "0")
  end && sforallb is_digit s.

(** [strconv.FormatFloat(x, 'f', -1, 64)]: the shortest decimal that reads back
    as [x]; for a positive finite number it is digits with at most one point. *)
Class FormatFloat := {
  format_float : float64 -> string;
  format_float_literal x : flt fzero x = true -> IsInf x = false ->
    exists whole frac, format_float x = whole ++ frac /\ whole_part whole = true /\
      (frac = "" \/ exists digits, frac = String "." digits /\ digits <> "" /\ sforallb is_digit digits = true)
}.

Definition formatDispatchTelemetryJSON `{FormatFloat} (d : DispatchTelemetry) : string :=
  "{" ++ open_string "event" ++ EscapeJSONString (dt_Event d) ++ q ++
  write_number "timestamp_unix_nano" (Itoa (dt_TimestampUnixNano d)) ++
  string_unless_empty "host_arch" (dt_HostArch d) ++
  string_unless_empty "host_level" (dt_HostLevel d) ++
  string_unless_empty "selected_variant" (dt_SelectedVariant d) ++
  string_unless_empty "selected_sha256" (dt_SelectedSHA256 d) ++
  number_if (0 <? dt_SelectedSizeBytes d)%Z "selected_size_bytes" (Itoa (dt_SelectedSizeBytes d)) ++
  write_string "exec_mode" (dt_ExecMode d) ++
  string_unless_empty "policy_applied" (dt_PolicyApplied d) ++
  string_unless_empty "policy_reason" (dt_PolicyReason d) ++
  number_if (0 <? dt_CgroupVersion d)%Z "cgroup_version" (Itoa (dt_CgroupVersion d)) ++
  number_if (0 <? dt_CgroupMemLimitBytes d)%Z "cgroup_mem_limit_bytes" (Itoa (dt_CgroupMemLimitBytes d)) ++
  number_if (flt fzero (dt_CgroupCPUQuota d)) "cgroup_cpu_quota" (format_float (dt_CgroupCPUQuota d)) ++
  string_unless_empty "gomemlimit" (dt_GOMEMLIMIT d) ++
  string_unless_empty "gomaxprocs" (dt_GOMAXPROCS d) ++
  string_unless_empty "gogc" (dt_GOGC d) ++
  string_unless_empty "gc_profile" (dt_GCProfile d) ++
  number_if (0 <? dt_DecompressionDurationUs d)%Z "decompression_duration_us" (Itoa (dt_DecompressionDurationUs d)) ++
  write_number "total_launcher_us" (Itoa (dt_TotalLauncherUs d)) ++ "}".

(** ** Reading JSON *)

Inductive json :=
| JString (s : string)
| JNumber (text : string)
| JArray (l : list json)
| JObject (fields : list (string * json)).

Definition hex_val (c : ascii) : option N :=
  let n := chr c in
  if ((48 <=? n) && (n <=? 57))%N then Some (n - 48)%N
  else if ((97 <=? n) && (n <=? 102))%N then Some (n - 87)%N
  else if ((65 <=? n) && (n <=? 70))%N then Some (n - 55)%N
  else None.

(** A string literal after its opening quote: characters and escapes up to the
    closing quote; an escape by number stands for a character of ASCII. *)
Fixpoint read_string (s : string) : option (string * string) :=
  match s with
  | "" => None
  | String c s =>
      if Ascii.eqb c dquote then Some ("", s)
      else if Ascii.eqb c backslash then
        match s with
        | String e s =>
            let put r := option_map (fun p => (String r p.1, p.2)) (read_string s) in
            if Ascii.eqb e dquote || Ascii.eqb e backslash || Ascii.eqb e "/" then put e
            else if Ascii.eqb e "b" then put (ascii_of_N 8)
            else if Ascii.eqb e "f" then put (ascii_of_N 12)
            else if Ascii.eqb e "n" then put (ascii_of_N 10)
            else if Ascii.eqb e "r" then put (ascii_of_N 13)
            else if Ascii.eqb e "t" then put (ascii_of_N 9)
            else if Ascii.eqb e "u" then
              match s with
              | String "0" (String "0" (String h (String l s))) =>
                  match hex_val h, hex_val l with
                  | Some h, Some l =>
                      if (h <? 8)%N then option_map (fun p => (String (ascii_of_N (16 * h + l)) p.1, p.2)) (read_string s)
                      else None
                  | _, _ => None
                  end
              | _ => None
              end
            else None
        | "" => None
        end
      else if (chr c <? 32)%N then None
      else option_map (fun p => (String c p.1, p.2)) (read_string s)
  end.

(** The characters of a number, as far as they go. *)
Definition number_char (c : ascii) : bool := is_digit c || Ascii.eqb c "-" || Ascii.eqb c ".".

Fixpoint span (p : ascii -> bool) (s : string) : string * string :=
  match s with
  | "" => ("", "")
  | String c t => if p c then (String c (span p t).1, (span p t).2) else ("", s)
  end.

(** A sign, digits, and digits behind a point. *)
Definition number_literal (s : string) : bool :=
  let s := match s with String "-" t => t | _ => s end in
  let '(whole, rest) := span is_digit s in
  whole_part whole &&
  match rest with
  | "" => true
  | String "." digits => negb (String.eqb digits "") && sforallb is_digit digits
  | _ => false
  end.

(** Values; [fuel] bounds nesting and number of elements. *)
Fixpoint read_value (fuel : nat) (s : string) : option (json * string) :=
  match fuel with
  | O => None
  | S fuel =>
      match s with
      | String c t =>
          if Ascii.eqb c dquote then option_map (fun p => (JString p.1, p.2)) (read_string t)
          else if Ascii.eqb c "[" then
            match t with
            | String "]" t => Some (JArray [], t)
            | _ => option_map (fun p => (JArray p.1, p.2)) (read_elements fuel t)
            end
          else if Ascii.eqb c "{" then
            match t with
            | String "}" t => Some (JObject [], t)
            | _ => option_map (fun p => (JObject p.1, p.2)) (read_members fuel t)
            end
          else
            let '(lit, rest) := span number_char s in
            if number_literal lit then Some (JNumber lit, rest) else None
      | "" => None
      end
  end
with read_elements (fuel : nat) (s : string) : option (list json * string) :=
  match fuel with
  | O => None
  | S fuel =>
      match read_value fuel s with
      | Some (v, String "," t) => option_map (fun p => (v :: p.1, p.2)) (read_elements fuel t)
      | Some (v, String "]" t) => Some ([v], t)
      | _ => None
      end
  end
with read_members (fuel : nat) (s : string) : option (list (string * json) * string) :=
  match fuel with
  | O => None
  | S fuel =>
      match s with
      | String c t =>
          if Ascii.eqb c dquote then
            match read_string t with
            | Some (key, String ":" t) =>
                match read_value fuel t with
                | Some (v, String "," t) => option_map (fun p => ((key, v) :: p.1, p.2)) (read_members fuel t)
                | Some (v, String "}" t) => Some ([(key, v)], t)
                | _ => None
                end
            | _ => None
            end
          else None
      | "" => None
      end
  end.

(** A whole text. *)
Definition parse_json (s : string) : option json :=
  match read_value (S (S (String.length s))) s with
  | Some (v, "") => Some v
  | _ => None
  end.
