(* ===== verification/TelemetryProofs.v ===== *)
(** * A reader of JSON gets the telemetry back

    JSON values have a printer; the reader inverts it.  The two formatters
    print the object of the fields they record. *)

From S2P Require Import Prelude GoStrings GoFloat Vfs Diagnostics Telemetry CgroupSize RuntimeInfoProofs.
From stdpp Require Import base list strings.
From Stdlib Require Import ZArith Lia Floats Strings.Ascii.

Local Open Scope string_scope.

(** ** Strings *)

(** An escaped character is read back as itself. *)
Lemma read_escaped c s r :
  read_string s = Some r -> read_string (escape_char c ++ s) = Some (String c r.1, r.2).
Proof.
  intros Hs. destruct c as [[] [] [] [] [] [] [] []]; 
    simpl; rewrite ?sapp_nil_l, Hs; reflexivity.
Qed.

Lemma read_string_escape s rest : read_string (EscapeJSONString s ++ q ++ rest) = Some (s, rest).
Proof.
  induction s as [|c s IH]; [done|]. cbn [EscapeJSONString]. rewrite sapp_assoc.
  by rewrite (read_escaped c _ _ IH).
Qed.

(** ** Numbers *)

Definition delimited (rest : string) : Prop :=
  match rest with "" => True | String c _ => number_char c = false end.

Lemma span_app p s rest :
  sforallb p s = true -> match rest with "" => True | String c _ => p c = false end -> span p (s ++ rest) = (s, rest).
Proof.
  induction s as [|c s IH]; cbn [sforallb]; intros Hs Hr.
  - rewrite sapp_nil_l. destruct rest as [|c t]; [done|]. cbn [span]. by rewrite Hr.
  - apply andb_true_iff in Hs as [Hc Hs]. rewrite sapp_cons. cbn [span]. by rewrite Hc, IH.
Qed.

Lemma digits_number s : sforallb is_digit s = true -> sforallb number_char s = true.
Proof. apply sforallb_impl. intros c Hc. unfold number_char. by rewrite Hc. Qed.

(** A literal, as the program writes them. *)
Definition printed_number (text : string) : Prop :=
  exists (neg : bool) whole frac, text = (if neg then "-" else "") ++ whole ++ frac /\ whole_part whole = true /\
    (frac = "" \/ exists digits, frac = String "." digits /\ digits <> "" /\ sforallb is_digit digits = true).

Lemma whole_part_inv s :
  whole_part s = true -> exists c t, s = String c t /\ is_digit c = true /\ sforallb is_digit s = true.
Proof.
  unfold whole_part. destruct s as [|c t]; [done|]. intros [_ Hd]%andb_true_iff. exists c, t. split_and!; [done| |done].
  cbn [sforallb] in Hd. by apply andb_true_iff in Hd as [].
Qed.

Lemma printed_number_chars text : printed_number text -> sforallb number_char text = true /\ text <> "".
Proof.
  intros (neg & whole & frac & -> & Hw & Hf). destruct (whole_part_inv _ Hw) as (c & t & -> & Hc & Hd).
  rewrite !sforallb_app, (digits_number _ Hd). split.
  - destruct Hf as [-> |(digits & -> & _ & Hfd)]; destruct neg; cbn [sforallb]; rewrite ?(digits_number _ Hfd); done.
  - destruct neg; rewrite ?sapp_cons, ?sapp_nil_l; discriminate.
Qed.

Lemma printed_number_literal text : printed_number text -> number_literal text = true.
Proof.
  intros (neg & whole & frac & -> & Hw & Hf). destruct (whole_part_inv _ Hw) as (c & t & Hwc & Hc & Hd).
  unfold number_literal.
  assert ((match (if neg then "-" else "") ++ whole ++ frac with String "-" t => t
    | _ => (if neg then "-" else "") ++ whole ++ frac end) = whole ++ frac) as ->.
  { subst whole. destruct neg; rewrite ?sapp_cons, ?sapp_nil_l; [done|]. by destruct c as [[] [] [] [] [] [] [] []]. }
  rewrite span_app; [|done|by destruct Hf as [-> |(digits & -> & _)]]. rewrite Hw.
  destruct Hf as [-> |(digits & -> & Hne & Hfd)]; [done|]. simpl. rewrite Hfd.
  by rewrite (proj2 (String.eqb_neq _ _)).
Qed.

Lemma dec_digits_whole fuel n acc :
  (0 < n < 10 ^ Z.of_nat fuel)%Z ->
  exists c t, dec_digits fuel n acc = String c t ++ acc /\ Ascii.eqb c "0" = false /\ sforallb is_digit (String c t) = true.
Proof.
  revert n acc. induction fuel as [|fuel IH]; intros n acc Hn; [simpl in Hn; lia|]. cbn [dec_digits].
  destruct (digit_char_spec (n mod 10)) as [Hd Hv]; [apply Z.mod_pos_bound; lia|].
  destruct (Z.ltb_spec n 10) as [Hlt|Hge].
  - exists (digit_char (n mod 10)), "". rewrite sapp_cons, sapp_nil_l. cbn [sforallb]. split_and!; [done| |by rewrite Hd].
    destruct (Ascii.eqb_spec (digit_char (n mod 10)) "0") as [He|]; [|done]. rewrite He in Hv.
    rewrite Z.mod_small in Hv by lia. vm_compute in Hv. lia.
  - assert (10 ^ Z.of_nat (S fuel) = 10 * 10 ^ Z.of_nat fuel)%Z as Hp by (rewrite Nat2Z.inj_succ, Z.pow_succ_r; lia).
    destruct (IH (n / 10)%Z (String (digit_char (n mod 10)) acc)) as (c & t & -> & Hc & Ht).
    { split; [apply Z.div_str_pos; lia|apply Z.div_lt_upper_bound; lia]. }
    exists c, (t ++ String (digit_char (n mod 10)) ""). rewrite !sapp_cons, sapp_assoc, sapp_cons, sapp_nil_l.
    split_and!; [done..|]. cbn [sforallb] in *. apply andb_true_iff in Ht as [-> Ht]. rewrite sforallb_app, Ht. cbn [sforallb].
    by rewrite Hd.
Qed.

Lemma Itoa_printed n : int64_range n -> printed_number (Itoa n).
Proof.
  unfold int64_range, Itoa. intros Hn. assert (forall m, (0 < m < 10 ^ Z.of_nat 20)%Z -> whole_part (dec_digits 20 m "") = true) as Hpos.
  { intros m Hm. destruct (dec_digits_whole 20 m "" Hm) as (c & t & -> & Hc & Ht). rewrite sapp_nil_r.
    unfold whole_part. by rewrite Ht, Hc, orb_true_r. }
  destruct (Z.ltb_spec n 0) as [Hneg|Hpos'].
  - exists true, (dec_digits 20 (- n) ""), "". rewrite sapp_nil_r. split_and!; [done| |by left]. apply Hpos. lia.
  - exists false, (dec_digits 20 n ""), "". rewrite sapp_nil_r, sapp_nil_l. split_and!; [done| |by left].
    destruct (decide (n = 0)%Z) as [-> |]; [done|]. apply Hpos. lia.
Qed.

(** ** Values *)

Fixpoint json_ind' (P : json -> Prop) (HS : forall s, P (JString s)) (HN : forall t, P (JNumber t))
    (HA : forall l, Forall P l -> P (JArray l)) (HO : forall fs, Forall (fun kv => P kv.2) fs -> P (JObject fs))
    (j : json) : P j :=
  match j with
  | JString s => HS s
  | JNumber t => HN t
  | JArray l => HA l 
      ((fix go l : Forall P l := match l with [] => Forall_nil_2 _ | v :: l => Forall_cons_2 _ _ _ (json_ind' P HS HN HA HO v) (go l) end) l)
  | JObject fs => HO fs 
      ((fix go l : Forall (fun kv => P kv.2) l :=
          match l with [] => Forall_nil_2 _ | kv :: l => Forall_cons_2 _ _ _ (json_ind' P HS HN HA HO kv.2) (go l) end) fs)
  end.

Definition commas {A} (f : A -> string) : list A -> string := foldr (fun x acc => "," ++ f x ++ acc) "".

Definition separated {A} (f : A -> string) (l : list A) : string :=
  match l with
  | [] => ""
  | x :: rest => f x ++ commas f rest
  end.

Fixpoint print (j : json) : string :=
  match j with
  | JString s => q ++ EscapeJSONString s ++ q
  | JNumber t => t
  | JArray l => "[" ++ separated print l ++ "]"
  | JObject fs => "{" ++ separated (fun kv => q ++ EscapeJSONString kv.1 ++ q ++ ":" ++ print kv.2) fs ++ "}"
  end.

Definition member (kv : string * json) : string := q ++ EscapeJSONString kv.1 ++ q ++ ":" ++ print kv.2.

(** Every number is one. *)
Fixpoint well_formed (j : json) : Prop :=
  match j with
  | JString _ => True
  | JNumber t => printed_number t
  | JArray l => (fix all l := match l with [] => True | v :: l => well_formed v /\ all l end) l
  | JObject fs => (fix all l := match l with [] => True | kv :: l => well_formed kv.2 /\ all l end) fs
  end.

Lemma well_formed_array l : well_formed (JArray l) <-> Forall well_formed l.
Proof. simpl. induction l as [|v l IH]; [done|]. by rewrite Forall_cons, IH. Qed.

Lemma well_formed_object fs : well_formed (JObject fs) <-> Forall (fun kv => well_formed kv.2) fs.
Proof. simpl. induction fs as [|kv l IH]; [done|]. by rewrite Forall_cons, IH. Qed.

(** The fuel a value takes. *)
Fixpoint cost (j : json) : nat :=
  match j with
  | JString _ | JNumber _ => 1
  | JArray l => S (foldr (fun v n => S (cost v + n)) 0 l)
  | JObject fs => S (foldr (fun kv n => S (cost kv.2 + n)) 0 fs)
  end%nat.

Lemma commas_length {A} (f : A -> string) (c : A -> nat) l :
  Forall (fun x => c x <= String.length (f x))%nat l ->
  (foldr (fun v n => S (c v + n)) 0 l <= String.length (commas f l))%nat.
Proof.
  induction 1 as [|x l Hx Hl IH]; [done|]. cbn [foldr commas]. rewrite !slength_app. fold (commas f l). simpl. lia.
Qed.

Lemma separated_length {A} (f : A -> string) (c : A -> nat) l :
  Forall (fun x => c x <= String.length (f x))%nat l ->
  (foldr (fun v n => S (c v + n)) 0 l <= 1 + String.length (separated f l))%nat.
Proof.
  destruct 1 as [|x l Hx Hl]; [simpl; lia|]. cbn [foldr separated]. rewrite slength_app.
  pose proof (commas_length f c l Hl). lia.
Qed.

Lemma cost_length j : well_formed j -> (cost j <= String.length (print j))%nat.
Proof.
  induction j as [s|t|l IH|fs IH] using json_ind'; intros Hwf.
  - cbn [cost print]. rewrite slength_app. simpl. lia.
  - destruct (printed_number_chars t Hwf) as [_ Ht]. cbn [cost print]. destruct t; [done|]. simpl. lia.
  - apply well_formed_array in Hwf. cbn [cost print]. rewrite !slength_app.
    assert (Forall (fun j => cost j <= String.length (print j))%nat l) as Hs.
    { rewrite Forall_forall in *. auto. }
    pose proof (separated_length print cost l Hs). simpl. lia.
  - apply well_formed_object in Hwf. cbn [cost print]. rewrite !slength_app.
    assert (Forall (fun kv => cost kv.2 <= String.length (member kv))%nat fs) as Hs.
    { rewrite Forall_forall in *. intros kv Hin. unfold member. rewrite !slength_app. specialize (IH kv Hin (Hwf kv Hin)). lia. }
    pose proof (separated_length member (fun kv => cost kv.2) fs Hs). unfold member in *. simpl. lia.
Qed.

(** Reading, with what follows delimited. *)
Definition reads (j : json) : Prop :=
  forall fuel rest, (cost j <= fuel)%nat -> delimited rest -> read_value fuel (print j ++ rest) = Some (j, rest).

Lemma read_elements_spec v l fuel rest :
  reads v -> Forall reads l -> (foldr (fun v n => S (cost v + n)) 0 (v :: l) <= fuel)%nat ->
  read_elements fuel (separated print (v :: l) ++ "]" ++ rest) = Some (v :: l, rest).
Proof.
  intros Hv Hl. revert v Hv fuel. induction Hl as [|v' l Hv' Hl IH]; intros v Hv fuel Hfuel; destruct fuel as [|fuel];
    cbn [foldr] in Hfuel; [lia| |lia|]; cbn [separated commas foldr read_elements].
  - rewrite !sapp_nil_r, (Hv fuel) by (lia || done). reflexivity.
  - rewrite !sapp_assoc, (Hv fuel) by (lia || done). rewrite sapp_cons, sapp_nil_l.
    assert (read_elements fuel (separated print (v' :: l) ++ "]" ++ rest) = Some (v' :: l, rest)) as IH'
      by (apply IH; [done|cbn [foldr]; lia]).
    cbn [separated] in IH'. rewrite sapp_assoc in IH'. by rewrite IH'.
Qed.

Lemma read_members_spec kv l fuel rest :
  reads kv.2 -> Forall (fun kv => reads kv.2) l -> (foldr (fun kv n => S (cost kv.2 + n)) 0 (kv :: l) <= fuel)%nat ->
  read_members fuel (separated member (kv :: l) ++ "}" ++ rest) = Some (kv :: l, rest).
Proof.
  intros Hv Hl. revert kv Hv fuel. induction Hl as [|kv' l Hv' Hl IH]; intros [k v] Hv fuel Hfuel; destruct fuel as [|fuel];
    cbn [foldr snd] in *; [lia| |lia|]; cbn [separated commas foldr]; unfold member at 1; cbn [fst snd];
    rewrite ?sapp_nil_r, !sapp_assoc; unfold q at 1; rewrite sapp_cons; cbn [read_members]; rewrite sapp_nil_l;
    rewrite read_string_escape, sapp_cons, sapp_nil_l, (Hv fuel) by (lia || done).
  - reflexivity.
  - rewrite sapp_cons, sapp_nil_l.
    assert (read_members fuel (separated member (kv' :: l) ++ "}" ++ rest) = Some (kv' :: l, rest)) as IH'
      by (apply IH; [done|cbn [foldr]; lia]).
    cbn [separated] in IH'. rewrite sapp_assoc in IH'. by rewrite IH'.
Qed.

Lemma print_head j rest :
  well_formed j ->
  exists c t, print j ++ rest = String c t /\ Ascii.eqb c "]" = false /\ Ascii.eqb c "}" = false.
Proof.
  destruct j as [s|t|l|fs]; intros Hwf; cbn [print]; unfold q; rewrite ?sapp_assoc, ?sapp_cons; [by eexists _, _| |by eexists _, _..].
  destruct Hwf as (neg & whole & frac & -> & Hw & _). destruct (whole_part_inv _ Hw) as (c & t & -> & Hc & _).
  destruct neg; rewrite ?sapp_assoc, ?sapp_cons, ?sapp_nil_l; eexists _, _; (split; [done|]); [done|].
  by destruct c as [[] [] [] [] [] [] [] []].
Qed.

(** The reader inverts the printer. *)
Lemma read_print j : well_formed j -> reads j.
Proof.
  induction j as [s|t|l IH|fs IH] using json_ind'; intros Hwf fuel rest Hfuel Hrest; destruct fuel as [|fuel];
    cbn [cost] in Hfuel; try lia; cbn [print].
  - unfold q at 1. rewrite !sapp_assoc, sapp_cons, sapp_nil_l. cbn [read_value]. by rewrite read_string_escape.
  - destruct (printed_number_chars t Hwf) as [Hc Hne]. pose proof (span_app number_char t rest Hc Hrest) as Hspan.
    pose proof (printed_number_literal t Hwf) as Hlit. destruct t as [|c t]; [done|]. rewrite sapp_cons in *.
    cbn [read_value]. rewrite Hspan, Hlit. cbn [sforallb] in Hc. apply andb_true_iff in Hc as [Hc _].
    by destruct c as [[] [] [] [] [] [] [] []].
  - apply well_formed_array in Hwf. rewrite !sapp_assoc, sapp_cons, sapp_nil_l. cbn [read_value].
    destruct l as [|v l]; [done|]. destruct (print_head v (commas print l ++ "]" ++ rest)) as (c & t & Hh & Hb & _).
    { by inversion Hwf. }
    assert (reads v /\ Forall reads l) as [Hv Hl].
    { rewrite <- Forall_cons. rewrite Forall_forall in *. auto. }
    pose proof (read_elements_spec v l fuel rest Hv Hl) as Hel. cbn [separated] in *. rewrite !sapp_assoc in *.
    rewrite Hh in *. simpl in Hfuel. rewrite Hel by (cbn [foldr]; lia). cbn [option_map fst snd].
    by destruct c as [[] [] [] [] [] [] [] []].
  - apply well_formed_object in Hwf. rewrite !sapp_assoc, sapp_cons, sapp_nil_l. cbn [read_value].
    destruct fs as [|kv fs]; [done|].
    assert (reads kv.2 /\ Forall (fun kv => reads kv.2) fs) as [Hv Hl].
    { rewrite <- (Forall_cons (fun kv => reads kv.2)). rewrite Forall_forall in *. auto. }
    pose proof (read_members_spec kv fs fuel rest Hv Hl) as Hel. fold member in *.
    change (fun kv => q ++ EscapeJSONString kv.1 ++ q ++ ":" ++ print kv.2) with member in *.
    simpl in Hfuel. rewrite Hel by (cbn [foldr]; lia). cbn [separated]. unfold member at 1, q at 1.
    by rewrite !sapp_assoc, sapp_cons.
Qed.

Lemma parse_print j : well_formed j -> parse_json (print j) = Some j.
Proof.
  intros Hwf. unfold parse_json. rewrite <- (sapp_nil_r (print j)) at 2.
  rewrite (read_print j Hwf); [done| |done]. pose proof (cost_length j Hwf). lia.
Qed.

(** ** The fields of a record *)

Definition string_field (key value : string) : list (string * json) :=
  if negb (String.eqb value "") then [(key, JString value)] else [].

Definition number_field (b : bool) (key value : string) : list (string * json) :=
  if b then [(key, JNumber value)] else [].

Definition attempt_object (a : AttemptTelemetry) : json :=
  JObject ([("stage", JString (tm_Stage a)); ("requested_mode", JString (tm_RequestedMode a));
     ("attempted_mode", JString (tm_AttemptedMode a)); ("error", JString (tm_Error a))] ++
    number_field (negb (tm_Errno a =? 0)%Z) "errno" (Itoa (tm_Errno a)) ++
    string_field "errno_name" (tm_ErrnoName a)).

Definition error_object (e : ErrorTelemetry) : json :=
  JObject ([("event", JString (et_Event e)); ("timestamp_unix_nano", JNumber (Itoa (et_TimestampUnixNano e)))] ++
    string_field "host_arch" (et_HostArch e) ++ string_field "host_level" (et_HostLevel e) ++
    string_field "selected_variant" (et_SelectedVariant e) ++ string_field "policy_applied" (et_PolicyApplied e) ++
    string_field "policy_reason" (et_PolicyReason e) ++ string_field "requested_mode" (et_RequestedMode e) ++
    string_field "attempted_mode" (et_AttemptedMode e) ++
    [("stage", JString (et_Stage e)); ("error", JString (et_Error e))] ++
    number_field (negb (et_Errno e =? 0)%Z) "errno" (Itoa (et_Errno e)) ++
    string_field "errno_name" (et_ErrnoName e) ++
    match et_Attempts e with [] => [] | attempts => [("attempts", JArray (attempt_object <$> attempts))] end ++
    string_field "details" (et_Details e) ++ string_field "hint" (et_Hint e)).

Definition dispatch_object `{FormatFloat} (d : DispatchTelemetry) : json :=
  JObject ([("event", JString (dt_Event d)); ("timestamp_unix_nano", JNumber (Itoa (dt_TimestampUnixNano d)))] ++
    string_field "host_arch" (dt_HostArch d) ++ string_field "host_level" (dt_HostLevel d) ++
    string_field "selected_variant" (dt_SelectedVariant d) ++ string_field "selected_sha256" (dt_SelectedSHA256 d) ++
    number_field (0 <? dt_SelectedSizeBytes d)%Z "selected_size_bytes" (Itoa (dt_SelectedSizeBytes d)) ++
    [("exec_mode", JString (dt_ExecMode d))] ++
    string_field "policy_applied" (dt_PolicyApplied d) ++ string_field "policy_reason" (dt_PolicyReason d) ++
    number_field (0 <? dt_CgroupVersion d)%Z "cgroup_version" (Itoa (dt_CgroupVersion d)) ++
    number_field (0 <? dt_CgroupMemLimitBytes d)%Z "cgroup_mem_limit_bytes" (Itoa (dt_CgroupMemLimitBytes d)) ++
    number_field (flt fzero (dt_CgroupCPUQuota d)) "cgroup_cpu_quota" (format_float (dt_CgroupCPUQuota d)) ++
    string_field "gomemlimit" (dt_GOMEMLIMIT d) ++ string_field "gomaxprocs" (dt_GOMAXPROCS d) ++
    string_field "gogc" (dt_GOGC d) ++ string_field "gc_profile" (dt_GCProfile d) ++
    number_field (0 <? dt_DecompressionDurationUs d)%Z "decompression_duration_us" (Itoa (dt_DecompressionDurationUs d)) ++
    [("total_launcher_us", JNumber (Itoa (dt_TotalLauncherUs d)))]).

Lemma commas_app {A} (f : A -> string) l l' : commas f (l ++ l') = commas f l ++ commas f l'.
Proof.
  induction l as [|x l IH]; [done|]. rewrite <- app_comm_cons. cbn [commas foldr]. fold (commas f (l ++ l')) (commas f l).
  by rewrite IH, !sapp_assoc.
Qed.

(** Keys need no escapes. *)
Definition plain_key (k : string) : Prop := EscapeJSONString k = k.

Lemma commas_string k v : plain_key k -> commas member (string_field k v) = string_unless_empty k v.
Proof.
  intros Hk. unfold string_field, string_unless_empty, write_string, open_string. destruct (negb _); [|done].
  cbn [commas foldr]. unfold member. cbn [fst snd print]. by rewrite Hk, sapp_nil_r, !sapp_assoc.
Qed.

Lemma commas_number b k v : plain_key k -> commas member (number_field b k v) = number_if b k v.
Proof.
  intros Hk. unfold number_field, number_if, write_number, open_number. destruct b; [|done].
  cbn [commas foldr]. unfold member. cbn [fst snd print]. by rewrite Hk, sapp_nil_r, !sapp_assoc.
Qed.

Lemma commas_cons k v l :
  plain_key k -> commas member ((k, v) :: l) = "," ++ open_number k ++ print v ++ commas member l.
Proof. intros Hk. cbn [commas foldr]. unfold member at 1, open_number. cbn [fst snd]. by rewrite Hk, !sapp_assoc. Qed.

Lemma print_object k v l : plain_key k -> print (JObject ((k, v) :: l)) = "{" ++ open_number k ++ print v ++ commas member l ++ "}".
Proof.
  intros Hk. cbn [print separated]. change (fun kv => q ++ EscapeJSONString kv.1 ++ q ++ ":" ++ print kv.2) with member.
  unfold open_number. cbn [fst snd]. by rewrite Hk, !sapp_assoc.
Qed.

Ltac printed :=
  rewrite <- ?app_comm_cons, ?app_nil_l, print_object by done;
  repeat first [rewrite commas_cons by done | rewrite commas_app | rewrite commas_string by done | rewrite commas_number by done];
  unfold write_string, write_number, open_string, open_number; cbn [print commas foldr];
  rewrite ?sapp_assoc, ?sapp_nil_l; reflexivity.

Lemma format_attempt_print a : format_attempt a = print (attempt_object a).
Proof. unfold format_attempt, attempt_object. printed. Qed.

Lemma format_attempts_print l : format_attempts l = separated print (attempt_object <$> l).
Proof.
  destruct l as [|a l]; [done|]. revert a. induction l as [|a' l IH]; intros a.
  - cbn [format_attempts fmap list_fmap separated commas foldr]. by rewrite sapp_nil_r, format_attempt_print.
  - change (format_attempts (a :: a' :: l)) with (format_attempt a ++ "," ++ format_attempts (a' :: l)).
    by rewrite IH, format_attempt_print.
Qed.

Lemma formatDispatchTelemetryJSON_print `{FormatFloat} d : formatDispatchTelemetryJSON d = print (dispatch_object d).
Proof. unfold formatDispatchTelemetryJSON, dispatch_object. printed. Qed.

Lemma formatErrorTelemetryJSON_print e : formatErrorTelemetryJSON e = print (error_object e).
Proof.
  unfold formatErrorTelemetryJSON, error_object. destruct (et_Attempts e) as [|a l]; [printed|].
  rewrite format_attempts_print. printed.
Qed.

(** ** The fields are read back *)

Lemma well_string k v : Forall (fun kv => well_formed kv.2) (string_field k v).
Proof. unfold string_field. destruct (negb _); repeat constructor. Qed.

Lemma well_number b k v : (b = true -> printed_number v) -> Forall (fun kv => well_formed kv.2) (number_field b k v).
Proof. unfold number_field. destruct b; repeat constructor. simpl. auto. Qed.

Lemma well_attempt a : int64_range (tm_Errno a) -> well_formed (attempt_object a).
Proof.
  intros He. unfold attempt_object. apply well_formed_object. rewrite !Forall_app. split_and!; [by repeat constructor| |].
  - apply well_number. intros _. by apply Itoa_printed.
  - apply well_string.
Qed.

(** A finite quota is printed as a number. *)
Lemma quota_printed `{FormatFloat} x : flt fzero x = true -> IsInf x = false -> printed_number (format_float x).
Proof.
  intros Hx Hi. destruct (format_float_literal x Hx Hi) as (whole & frac & -> & Hw & Hf).
  exists false, whole, frac. by rewrite sapp_nil_l.
Qed.

(** A reader of JSON gets exactly the recorded fields back from a line of dispatch telemetry, whatever
    bytes the strings hold: nothing in a value can end it early or add a field. *)
Theorem dispatch_telemetry_round_trip `{FormatFloat} (d : DispatchTelemetry) :
  Forall int64_range [dt_TimestampUnixNano d; dt_SelectedSizeBytes d; dt_CgroupVersion d; dt_CgroupMemLimitBytes d;
    dt_DecompressionDurationUs d; dt_TotalLauncherUs d] ->
  IsInf (dt_CgroupCPUQuota d) = false ->
  parse_json (formatDispatchTelemetryJSON d) = Some (dispatch_object d).
Proof.
  intros Hi Hq. rewrite formatDispatchTelemetryJSON_print. apply parse_print, well_formed_object.
  rewrite !Forall_cons in Hi. destruct Hi as (H1 & H2 & H3 & H4 & H5 & H6 & _).
  rewrite !Forall_app. split_and!; try apply well_string; try apply well_number; auto using Itoa_printed, quota_printed;
    repeat constructor; by apply Itoa_printed.
Qed.


(** A line with quotes, control characters and a second line inside a value. *)
Definition hostile : string :=
  "a" ++ q ++ "," ++ q ++ "event" ++ q ++ ":" ++ String (ascii_of_N 10) (String (ascii_of_N 1) (String backslash "")).

Definition sample_error : ErrorTelemetry :=
  mkErrorTelemetry "dispatch_error" 1700000000000000000 "amd64" "v3" "" "" "" StageMemfdExec "auto" "memfd" hostile 13 "EACCES"
    [mkAttemptTelemetry StageMemfdExec "auto" "memfd" hostile 13 "EACCES"; mkAttemptTelemetry StageCacheDirInit "auto" "cache" "" 0 ""]
    "" HintExecEACCES.

