(* ===== verification/Stub.v ===== *)
(** * The launcher ([cmd/microfat-stub], [internal/memfd])

    From its own file to the payload: the privilege check, the index, the
    variant, then the program itself, from the cache, from sealed memory, or
    from a freshly filled cache.  A successful [execve] replaces the process,
    so a run ends in an [execution] or in a [failure]; deferred calls run only
    in the second case.  Diagnostics on standard error have no part in it. *)

From S2P Require Import Prelude GoStrings GoPath GoFloat GoIO Vfs GoOS InputFile Lifecycle Sha256 Format FormatTrailer Codec PackTrim Microarch MicroarchFeatures MicroarchSelect CgroupSize CgroupTuning CgroupHierarchy PackPrewarm Cache Diagnostics StubEnv.
From stdpp Require Import base list strings gmap.
From Stdlib Require Import ZArith Lia Strings.Ascii Strings.Byte.
Import CacheErr StubErr.

Local Open Scope Z_scope.

(** ** Privileges ([privilege_linux.go]) *)

Definition errElevatedExecution : gerror := [Sentinel "errElevatedExecution"].

Definition AT_SECURE : Z := 23.

(** The words of the auxiliary vector, two at a time; [seen] once the entry was
    there.  The machine is little-endian on both targets. *)
Fixpoint secure_entries (fuel : nat) (data : list byte) (seen : bool) : outcome gerror unit :=
  match fuel with
  | O => Err errElevatedExecution
  | S fuel =>
      if (length data <? 16)%nat then Err errElevatedExecution
      else
        let tag := le_val (take 8 data) in
        let value := le_val (take 8 (drop 8 data)) in
        let data := drop 16 data in
        if tag =? 0 then if seen then Ok tt else Err errElevatedExecution
        else if tag =? AT_SECURE then
          if seen || negb (value =? 0) then Err errElevatedExecution else secure_entries fuel data true
        else secure_entries fuel data seen
  end.

(** Every round takes bytes away. *)
Definition validateSecureAuxv (data : list byte) : outcome gerror unit := secure_entries (S (length data)) data false.

(** What the kernel says about the process and its program: the identifiers,
    [/proc/self/auxv], and the attempt to read the file capabilities. *)
Record Privileges := mkPrivileges {
  p_uid : Z;
  p_euid : Z;
  p_gid : Z;
  p_egid : Z;
  p_auxv : outcome gerror (list byte);
  p_capability : option errno
}.

Definition maxAuxvBytes : nat := Z.to_nat 4096.

Definition readSecureAuxv (p : Privileges) : outcome gerror (list byte) :=
  data ← p_auxv p;
  let data := take (S maxAuxvBytes) data in
  if (maxAuxvBytes <? length data)%nat then Err (errors_New "oversized auxiliary vector") else Ok data.

Definition checkLauncherPrivilege (p : Privileges) : outcome gerror unit :=
  if negb (p_uid p =? p_euid p) || negb (p_gid p =? p_egid p) then Err errElevatedExecution
  else
    match readSecureAuxv p with
    | Err e => Err errElevatedExecution
    | Panic => Panic
    | Ok data =>
        _ ← validateSecureAuxv data;
        match p_capability p with
        | None => Err errElevatedExecution
        | Some ENODATA | Some ENOTSUP => Ok tt
        | Some _ => Err errElevatedExecution
        end
    end.

(** ** Extraction ([extract_linux.go]) *)

Definition codec_tags (e : codec_err) : gerror :=
  match e with
  | Codec.ErrUnsupportedCodec => ErrUnsupportedCodec
  | Codec.ErrDecompressionFailed => ErrDecompressionFailed
  | Codec.ErrSizeMismatch => ErrSizeMismatch
  | _ => errors_New "codec"
  end.

(** ** Sealed memory ([internal/memfd]) *)

Definition MFD_CLOEXEC : Z := 1.
Definition MFD_ALLOW_SEALING : Z := 2.
Definition MFD_EXEC : Z := 16.
Definition F_SEAL_SEAL : Z := 1.
Definition F_SEAL_SHRINK : Z := 2.
Definition F_SEAL_GROW : Z := 4.
Definition F_SEAL_WRITE : Z := 8.

Definition LegacyFlags : Z := Z.lor MFD_CLOEXEC MFD_ALLOW_SEALING.
Definition PreferredFlags : Z := Z.lor LegacyFlags MFD_EXEC.
Definition TargetSeals : Z := Z.lor (Z.lor (Z.lor F_SEAL_WRITE F_SEAL_SHRINK) F_SEAL_GROW) F_SEAL_SEAL.

(** An anonymous file: no other process has a name or a descriptor for it. *)
Record memfd := mkMemfd { mf_data : list byte; mf_offset : nat; mf_seals : Z }.

(** Bytes at an offset within the file, over what is there. *)
Definition overwrite (data : list byte) (off : nat) (p : list byte) : list byte :=
  take off data ++ p ++ drop (off + length p) data.

Definition resize (data : list byte) (n : nat) : list byte := take n data ++ replicate (n - length data) x00.

(** A run of the launcher: the program image as the kernel took it, with the
    seals of a memory file, arguments and environment. *)
Record execution := mkExecution {
  x_image : list byte;
  x_seals : Z;
  x_args : list string;
  x_env : list string
}.

Inductive failure :=
| Wrapped (e : gerror)
| Combined (d : DispatchError).

Definition failure_tags (f : failure) : gerror :=
  match f with Wrapped e => e | Combined d => dispatch_tags d end.

Section stub.
Context `{Kernel}.

Definition memfd_create (flags : Z) : io memfd :=
  inspect (fun _ => Ok (mkMemfd [] 0 (if has_bits flags MFD_ALLOW_SEALING then 0 else F_SEAL_SEAL))).

Definition memfd_truncate (m : memfd) (size : Z) : io memfd :=
  inspect (fun _ =>
    if size <? 0 then Err EINVAL
    else if has_bits (mf_seals m) F_SEAL_SHRINK && (size <? Z.of_nat (length (mf_data m))) then Err EPERM
    else if has_bits (mf_seals m) F_SEAL_GROW && (Z.of_nat (length (mf_data m)) <? size) then Err EPERM
    else Ok (mkMemfd (resize (mf_data m) (Z.to_nat size)) (mf_offset m) (mf_seals m))).

Definition memfd_write (m : memfd) (p : list byte) : io memfd :=
  inspect (fun _ =>
    if has_bits (mf_seals m) F_SEAL_WRITE then Err EPERM
    else Ok (mkMemfd (overwrite (mf_data m) (mf_offset m) p) (mf_offset m + length p) (mf_seals m))).

Definition memfd_add_seals (m : memfd) (seals : Z) : io memfd :=
  inspect (fun _ =>
    if has_bits (mf_seals m) F_SEAL_SEAL then Err EPERM
    else Ok (mkMemfd (mf_data m) (mf_offset m) (Z.lor (mf_seals m) seals))).

Definition memfd_close (m : memfd) : io unit := inspect (fun _ => Ok tt).

(** [execve] on [/proc/self/fd/<fd>]: the kernel takes the file the descriptor
    is open on, whatever its name has become. *)
Definition execve_memfd (m : memfd) (args env : list string) : io execution :=
  inspect (fun _ => Ok (mkExecution (mf_data m) (mf_seals m) args env)).

Definition execve_fd (fd : Z) (args env : list string) : io execution :=
  inspect (fun F =>
    match f_tree F !! fd, f_attr F !! fd with
    | Some TFile, Some a => if has_bits (a_perm a) 73 then Ok (mkExecution (a_data a) 0 args env) else Err EACCES
    | _, _ => Err EACCES
    end).

(** At most one retry, and only where the flag is unknown. *)
Definition CreateExecutable : io (memfd * Z) :=
  r ← try (memfd_create PreferredFlags);
  match r with
  | inl m => mret (m, PreferredFlags)
  | inr e =>
      if errors_Is e (Errno EINVAL) then m ← memfd_create LegacyFlags; mret (m, LegacyFlags)
      else fail e
  end.

Definition createExecutableMemfd : io memfd := r ← CreateExecutable; mret r.1.

(** ** Extraction, continued *)

Context {GU : GoUnicode} {GF : GoFloat} {D : Decoders}.

Definition read_dictionary (selfFile : list byte) (idx : option Index) : outcome gerror (list byte) :=
  match idx with
  | None => Ok []
  | Some idx =>
      if negb (0 <? DictionarySize idx) then Ok []
      else if (MaxDictionarySize <? DictionarySize idx) || (DictionaryOffset idx <? 0) then Err ErrInvalidDictionary
      else if bad_checksum (DictionarySHA256 idx) then Err ErrInvalidChecksum
      else match ReadAt selfFile (Z.to_nat (DictionarySize idx)) (DictionaryOffset idx) with
           | None => Err (errors_New "reading shared dictionary")
           | Some dictBytes =>
               if negb (String.eqb (EncodeToString (Sum256 dictBytes)) (DictionarySHA256 idx))
               then Err ErrDictionaryCorrupted else Ok dictBytes
           end
  end.

Definition decompressVariantToWriter `{Writer W} (selfFile : list byte) (ve : VariantEntry) (idx : option Index) (w : W) :
    W * outcome gerror unit :=
  match read_dictionary selfFile idx with
  | Err e => (w, Err e)
  | Panic => (w, Panic)
  | Ok dictBytes =>
      if (UncompressedSize ve <=? 0) || (MaxPayloadSize <? UncompressedSize ve) then (w, Err ErrPayloadTooLarge)
      else if bad_checksum (SHA256 ve) then (w, Err ErrInvalidChecksum)
      else match Get registry_init (Compression ve) with
           | Err e => (w, Err (codec_tags e))
           | Panic => (w, Panic)
           | Ok c =>
               match DecompressWithOptionalDict c w (section_stream selfFile (Offset ve) (CompressedSize ve))
                       (UncompressedSize ve) dictBytes with
               | (w, Ok _) => (w, Ok tt)
               | (w, Err e) => (w, Err (codec_tags e))
               | (w, Panic) => (w, Panic)
               end
           end
  end.

Definition payload_error (r : outcome gerror unit) : option gerror :=
  match r with Ok _ => None | Err e => Some e | Panic => Some [] end.

(** [decompressVariantToWriter] as the callback of the cache. *)
Definition payload_of (self : Z) (ve : VariantEntry) (idx : option Index) : PayloadFunc := fun F =>
  let '(w, r) := decompressVariantToWriter (image self F) ve idx (mkPieces []) in
  (piece_list w, payload_error r).

(** The same with the digest of what was written checked at the end. *)
Definition extractVariantToWriter (self : Z) (ve : VariantEntry) (idx : option Index) : TransformFunc := fun F =>
  match payload_of self ve idx F with
  | (ps, None) =>
      (ps, if String.eqb (EncodeToString (Sum256 (concat ps))) (SHA256 ve) then None else Some ErrPayloadCorrupted)
  | r => r
  end.

(** The pieces go to the memory file one by one; a failing write is a failed
    decompression. *)
Fixpoint write_pieces (m : memfd) (ps : list (list byte)) : io memfd :=
  match ps with
  | [] => mret m
  | p :: rest => m ← wrapping (app ErrDecompressionFailed) (memfd_write m p); write_pieces m rest
  end.

Definition extract_to_memfd (self : Z) (ve : VariantEntry) (idx : option Index) (m : memfd) : io memfd :=
  F ← inspect (fun F => Ok F);
  let '(ps, err) := extractVariantToWriter self ve idx F in
  m ← write_pieces m ps;
  match err with Some e => fail e | None => mret m end.

(** ** Dispatch ([exec_linux.go], [memory_linux.go], [runtime_tuning_linux.go]) *)

(** The environment of the launcher, the page size, [filepath.Abs], and the
    limits [cgroup.ReadLimits] finds, call by call. *)
Context (process : list string) (page : Z) (abs : string -> option string) (limits_at : nat -> outcome cgroup_err Limits).

Definition read_cgroup : io (outcome cgroup_err Limits) := fun w => (Done (limits_at (w_clock w)), w).

Definition cache_env : CacheEnv :=
  let home := Getenv process "HOME" in
  let tmp := Getenv process "TMPDIR" in
  mkCacheEnv (Getenv process "MICROFAT_CACHE_DIR") (Getenv process "XDG_CACHE_HOME")
    (if String.eqb home "" then None else Some home) (if String.eqb tmp "" then "/tmp"%string else tmp).

Definition isPayloadCorruptionOrDecompressionError (e : gerror) : bool :=
  has e ErrMemfdExtract || has e ErrPayloadCorrupted || has e ErrDictionaryCorrupted || has e ErrInvalidDictionary ||
  has e ErrInvalidChecksum || has e ErrPayloadTooLarge || has e ErrDecompressionFailed || has e ErrSizeMismatch ||
  has e ErrUnsupportedCodec.

Definition NoneCopyBufferSize : Z := 128 * 1024.
Definition DefaultDecoderMaxMemory : Z := 512 * 1024 * 1024.

Definition decoder_allowance (compression : string) : Z :=
  let copyBuffer := 32 * 1024 in
  let lz4Buffers := 12 * 1024 * 1024 in
  if String.eqb compression AlgorithmNone then NoneCopyBufferSize
  else if String.eqb compression AlgorithmZstd then copyBuffer + DefaultDecoderMaxMemory
  else if String.eqb compression AlgorithmLZ4 then copyBuffer + lz4Buffers
  else copyBuffer.

Definition checkExtractionBudget (ve : VariantEntry) (idx : option Index) : io (option gerror) :=
  if (UncompressedSize ve <=? 0) || (MaxPayloadSize <? UncompressedSize ve) then mret (Some ErrPayloadTooLarge)
  else
    let dictionary := match idx with Some idx => DictionarySize idx | None => 0 end in
    if (dictionary <? 0) || (MaxDictionarySize <? dictionary) then mret (Some ErrInvalidDictionary)
    else
      read ← read_cgroup;
      mret match read with
      | Ok limits =>
          if CgroupVersion limits =? VersionUnknown then None
          else
            let '(limit, finite) := EffectiveMemoryLimit limits in
            if negb finite || (UnlimitedCgroupV1MemoryThreshold <=? limit) then None
            else match ExtractionMemory (UncompressedSize ve) dictionary (decoder_allowance (Compression ve)) DefaultMinHeadroomBytes with
                 | None => Some ErrMemoryBudget
                 | Some estimate => if limit <? estimate then Some ErrMemoryBudget else None
                 end
      | _ => None
      end.

(** The mode as it was asked for. *)
Definition requestedMode : string :=
  let requested := Getenv process EnvExecMode in
  let requested := if String.eqb requested "" then Getenv process EnvDispatchMode else requested in
  if String.eqb requested "" then ExecModeAuto else requested.

Definition attempt (stage requested mode : string) (e : gerror) : ExecutionAttempt :=
  mkAttempt stage requested mode e (ExtractErrno e).1 (ExtractErrno e).2.

Definition buildCombinedDispatchError (sentinel : gerror) (requested : string) (primaryErr : gerror) (cacheStage : string)
    (cacheErr : gerror) : DispatchError :=
  let memfdStage :=
    if has primaryErr ErrExecve then StageMemfdExec
    else if has primaryErr ErrMemfdSealingFailed then StageMemfdSeal
    else if has primaryErr ErrMemfdExtract then StageMemfdExtract
    else StageMemfdCreate in
  mkDispatchError sentinel requested
    [attempt memfdStage requested ExecModeMemfd primaryErr; attempt cacheStage requested ExecModeCache cacheErr].

Definition handleCacheError (sentinel : gerror) (stage : string) (e : gerror) (primaryErr : option gerror)
    (requested : string) : failure :=
  match primaryErr with
  | Some primary => Combined (buildCombinedDispatchError sentinel requested primary stage e)
  | None => Wrapped (sentinel ++ e)
  end.

(** [defer] in a function that may be replaced by the payload. *)
Definition unless_executed {A} (cleanup : io unit) (m : io (execution + A)) : io (execution + A) :=
  r ← m;
  match r with
  | inl x => mret (inl x)
  | inr a => _ ← ignore cleanup; mret (inr a)
  end.

Section variant.
Context (selfPath selfName : string) (self : Z) (ve : VariantEntry) (idx : option Index) (args baseEnv : list string).
Context (hostInfo : Info) (policyRes : PolicyResult).

Definition launch_environ (execMode : string) : io (list string) :=
  read ← read_cgroup;
  let selfPath := if String.eqb selfPath "" then selfName else selfPath in
  mret (ev_list (buildAutoTunedEnviron process page abs read selfPath baseEnv ve execMode hostInfo policyRes).1).

(** The memory file filled, sealed and executed. *)
Definition run_memfd (m : memfd) (env : list string) : io (execution + failure) :=
  size ← try (memfd_truncate m (UncompressedSize ve));
  let m := match size with inl m => m | inr _ => m end in
  filled ← try (extract_to_memfd self ve idx m);
  match filled with
  | inr e => mret (inr (Wrapped (ErrMemfdExtract ++ e)))
  | inl m =>
      sealed ← try (memfd_add_seals m TargetSeals);
      match sealed with
      | inr e => mret (inr (Wrapped (ErrMemfdSealingFailed ++ e)))
      | inl m =>
          x ← try (execve_memfd m args env);
          match x with
          | inl x => mret (inl x)
          | inr e => mret (inr (Wrapped (ErrExecve ++ e)))
          end
      end
  end.

Definition executeViaMemfd : io (execution + failure) :=
  budget ← checkExtractionBudget ve idx;
  match budget with
  | Some e => mret (inr (Wrapped e))
  | None =>
      env ← launch_environ ExecModeMemfd;
      created ← try createExecutableMemfd;
      match created with
      | inr e => mret (inr (Wrapped (ErrMemfdCreate ++ e)))
      | inl m => unless_executed (memfd_close m) (run_memfd m env)
      end
  end.

Definition unsafe_entry (e : gerror) : bool := IsSymlinkErr e || has e ErrNonRegularFile || has e ErrUnsafeFile.

(** An entry open for execution, or the descriptor's failure. *)
Definition exec_cached (fd : Z) (env : list string) (primaryErr : option gerror) (requested : string) :
    io (execution + failure) :=
  unless_executed (sys_close fd)
    (x ← try (execve_fd fd args env);
     match x with
     | inl x => mret (inl x)
     | inr e => mret (inr (handleCacheError ErrExecve StageCacheExec e primaryErr requested))
     end).

(** The entry, or a new one. *)
Definition open_or_materialize (dirFD : Z) (cacheDir : string) (primaryErr : option gerror) : io (Z + failure) :=
  let cachedName := filepath_Clean (SHA256 ve) in
  opened ← try (OpenAndValidateVariantAtFD dirFD cachedName ve true);
  match opened with
  | inl fd => mret (inl fd)
  | inr openErr =>
      if unsafe_entry openErr
      then mret (inr (handleCacheError ErrCacheWrite StageCacheCreateTemp openErr primaryErr requestedMode))
      else
        budget ← checkExtractionBudget ve idx;
        match budget with
        | Some e => mret (inr (Wrapped (ErrCacheExtract ++ e)))
        | None =>
            r ← try (materializeAndOpenVariantAtFD dirFD cacheDir (Some ve) (Some (payload_of self ve idx)));
            match r with
            | inl (_, fd) => mret (inl fd)
            | inr matErr =>
                let extraction := negb (has matErr ErrCacheWrite) &&
                  (has matErr ErrCacheExtract || isPayloadCorruptionOrDecompressionError matErr) in
                mret (inr (handleCacheError (if extraction then ErrCacheExtract else ErrCacheWrite)
                  (if extraction then StageCacheExtract else StageCacheCreateTemp) matErr primaryErr requestedMode))
            end
        end
  end.

Definition executeViaCache (primaryErr : option gerror) : io (execution + failure) :=
  env ← launch_environ ExecModeCache;
  dir ← try (resolveCacheDirFD cache_env "" true);
  match dir with
  | inr e => mret (inr (handleCacheError ErrCacheInit StageCacheDirInit e primaryErr requestedMode))
  | inl (dirFD, cacheDir) =>
      if dirFD <? 0 then mret (inr (Wrapped ErrCacheInit))
      else
        unless_executed (sys_close dirFD)
          (if bad_checksum (SHA256 ve) then
             mret (inr (handleCacheError ErrCacheWrite StageCacheCreateTemp (errors_New "invalid variant sha256 checksum format")
                     primaryErr requestedMode))
           else
             fd ← open_or_materialize dirFD cacheDir primaryErr;
             match fd with
             | inr f => mret (inr f)
             | inl fd => exec_cached fd env primaryErr requestedMode
             end)
  end.

(** A miss is no failure, and no hit. *)
Record cache_miss := mkMiss { hit : bool; cacheErr : option failure }.

Definition executeExistingCache : io (execution + cache_miss) :=
  if negb (ValidateChecksum (SHA256 ve)) then mret (inr (mkMiss false None))
  else
    dir ← try (resolveCacheDirFD cache_env "" false);
    match dir with
    | inr _ => mret (inr (mkMiss false None))
    | inl (dirFD, _) =>
        if dirFD <? 0 then mret (inr (mkMiss false None))
        else
          unless_executed (sys_close dirFD)
            (opened ← try (OpenAndValidateVariantAtFD dirFD (SHA256 ve) ve false);
             match opened with
             | inr e =>
                 mret (inr (mkMiss false
                   (if unsafe_entry e
                    then Some (handleCacheError ErrCacheWrite StageCacheCreateTemp e None ExecModeAuto) else None)))
             | inl fd =>
                 env ← launch_environ ExecModeCache;
                 x ← exec_cached fd env None ExecModeAuto;
                 mret match x with inl x => inl x | inr f => inr (mkMiss true (Some f)) end
             end)
    end.

Definition swap_attempts (d : DispatchError) : DispatchError :=
  match de_Attempts d with
  | [a; b] => mkDispatchError (de_PrimarySentinel d) (de_RequestedMode d) [b; a]
  | _ => d
  end.

Definition executeVariant : io (execution + failure) :=
  let mode := resolveRequestedExecMode process in
  if String.eqb mode ExecModeCache then executeViaCache None
  else if String.eqb mode ExecModeMemfd then executeViaMemfd
  else
    r ← executeExistingCache;
    match r with
    | inl x => mret (inl x)
    | inr (mkMiss hit cacheErr) =>
        let cacheTags := match cacheErr with Some f => failure_tags f | None => [] end in
        let refused :=
          match cacheErr with
          | Some f => if negb (has cacheTags ErrExecve) then Some f else None
          | None => None
          end in
        match refused with
        | Some f => mret (inr f)
        | None =>
            m ← executeViaMemfd;
            match m with
            | inl x => mret (inl x)
            | inr e =>
                let memfdTags := failure_tags e in
                if hit : bool then
                  mret (inr (Combined (swap_attempts
                    (buildCombinedDispatchError ErrExecve ExecModeAuto memfdTags StageCacheExec cacheTags))))
                else if has memfdTags ErrMemoryBudget || isPayloadCorruptionOrDecompressionError memfdTags
                then mret (inr e)
                else executeViaCache (Some memfdTags)
            end
        end
    end.

End variant.

(** ** The launcher's main line ([main.go]) *)

(** [os.Environ]: the first assignment to every key. *)
Fixpoint environ_from (seen : list string) (env : list string) : list string :=
  match env with
  | [] => []
  | e :: rest =>
      match Cut e eq_sign with
      | None => if String.eqb e "" then environ_from seen rest else e :: environ_from seen rest
      | Some (k, _) =>
          if bool_decide (k ∈ seen) then environ_from seen rest else e :: environ_from (k :: seen) rest
      end
  end.

Definition os_Environ : list string := environ_from [] process.

(** A program that ran, or what [run] returned: an error, or nothing after a
    command of the launcher's own. *)
Inductive ending :=
| Executed (x : execution)
| Returned (err : option failure).

Definition returned_error {A} (e : gerror) : io (A + option failure) := mret (inr (Some (Wrapped e))).

Definition metaPrefix : string := "--microfat:".

(** Meta-commands in the minimal profile of the launcher ([meta_minimal.go]):
    [None] is an argument that is none. *)
Definition minimal_handleMetaCommand (arg1 : string) : option (option failure) :=
  if HasPrefix arg1 metaPrefix then Some (Some (Wrapped (errors_New "meta-commands are disabled"))) else None.

(** Meta-commands in general: the file, its size, the index, and the variant where one
    was selected. *)
Context (handleMetaCommand : string -> Z -> Z -> Index -> option VariantEntry -> io (option (option failure))).
Context (privileges : Privileges) (skylake : bool) (hostInfo : Info) `{SliceSort}.

Definition meta_or {A} (args : list string) (self statSize : Z) (idx : Index) (ve : option VariantEntry)
    (k : io (A + option failure)) : io (A + option failure) :=
  match args with
  | _ :: arg1 :: _ =>
      r ← handleMetaCommand arg1 self statSize idx ve;
      match r with
      | Some err => mret (inr err)
      | None => k
      end
  | _ => k
  end.

(** With the file open.  Of the errors of this line only the texts of their outermost layer are kept:
    nothing tests for what they wrap. *)
Definition run_opened (selfPath selfName : string) (args : list string) (self : Z) : io (execution + option failure) :=
  st ← try (sys_fstat self);
  match st with
  | inr e => returned_error e
  | inl fi =>
      F ← inspect (fun F => Ok F);
      match ReadTrailerAndIndex (image self F) (fi_size fi) with
      | Err e => returned_error (errors_New "reading binary manifest")
      | Panic => returned_error []
      | Ok idx =>
          match SelectVariantForHost skylake (TargetArch idx) hostInfo (VariantLevels idx) (ReadPolicyFromEnv (Getenv process)) with
          | Err e => meta_or args self (fi_size fi) idx None (returned_error (errors_New "selecting compatible CPU microarchitecture variant"))
          | Panic => returned_error []
          | Ok policyRes =>
              match FindVariant idx (SelectedVariant policyRes) with
              | None => returned_error (errors_New "internal error: matched variant not present in index")
              | Some ve =>
                  meta_or args self (fi_size fi) idx (Some ve)
                    (r ← executeVariant selfPath selfName self ve (Some idx) args os_Environ hostInfo policyRes;
                     mret match r with inl x => inl x | inr f => inr (Some f) end)
              end
          end
      end
  end.

Definition runImage (selfPath imagePath : string) (args : list string) : io ending :=
  match checkLauncherPrivilege privileges with
  | Err e => mret (Returned (Some (Wrapped e)))
  | Panic => mret (Returned (Some (Wrapped [])))
  | Ok _ =>
      opened ← try (inputfile_Open (filepath_Clean imagePath));
      match opened with
      | inr e => mret (Returned (Some (Wrapped e)))
      | inl self =>
          r ← unless_executed (sys_close self) (run_opened selfPath (filepath_Clean imagePath) args self);
          mret match r with inl x => Executed x | inr err => Returned err end
      end
  end.

(** [os.Executable] is an argument. *)
Definition run (executable : outcome gerror string) (args : list string) : io ending :=
  match checkLauncherPrivilege privileges with
  | Err e => mret (Returned (Some (Wrapped e)))
  | Panic => mret (Returned (Some (Wrapped [])))
  | Ok _ =>
      match executable with
      | Ok selfPath => runImage selfPath "/proc/self/exe" args
      | Err e => mret (Returned (Some (Wrapped e)))
      | Panic => mret (Returned (Some (Wrapped [])))
      end
  end.

End stub.
