(* ===== verification/StubProofs.v ===== *)
(** * What the launcher runs

    Whatever fails on the way: a program that runs has the digest and the size
    the index gives for the selected variant, and a program in memory is sealed.
    The memory file needs no assumption on other processes; the cache needs that
    they leave its files alone while the launcher runs. *)

From S2P Require Import Prelude GoStrings GoPath GoFloat GoIO Vfs GoOS VfsLogic VfsEffects VfsStage Lifecycle LifecycleProofs Sha256 Format FormatTrailer Codec PackTrim Microarch MicroarchFeatures MicroarchSelect CgroupSize CgroupTuning CgroupHierarchy PackPrewarm Cache CacheProofs CacheMaterialize Diagnostics StubEnv Stub.
From stdpp Require Import base list strings gmap.
From Stdlib Require Import ZArith Lia Strings.Ascii Strings.Byte.
Import CacheErr StubErr.

Local Open Scope Z_scope.

(** ** Results alone *)

(** Whatever happens in the file system, a return has [Q]; [sure] calls always
    return. *)
Definition partly {A} (m : io A) (Q : A -> Prop) : Prop :=
  hoare (fun _ => True) m (fun a _ => Q a) (fun _ _ => True) (fun _ => True).

Definition sure {A} (m : io A) (Q : A -> Prop) : Prop :=
  hoare (fun _ => True) m (fun a _ => Q a) (fun _ _ => False) (fun _ => True).

Section results.
Context {A B : Type}.

Lemma partly_any (m : io A) : partly m (fun _ => True).
Proof. intros w _. by destruct (m w) as [[]]. Qed.

Lemma partly_ret (a : A) (Q : A -> Prop) : Q a -> partly (mret a) Q.
Proof. intros HQ. by apply hoare_ret. Qed.

Lemma sure_ret (a : A) (Q : A -> Prop) : Q a -> sure (mret a) Q.
Proof. intros HQ. by apply hoare_ret. Qed.

Lemma partly_fail e (Q : A -> Prop) : partly (fail e) Q.
Proof. by apply hoare_fail. Qed.

Lemma partly_bind (m : io A) (k : A -> io B) R Q : partly m R -> (forall a, R a -> partly (k a) Q) -> partly (m ≫= k) Q.
Proof.
  intros Hm Hk. eapply hoare_bind; [exact Hm|]. intros a w Ha. by apply Hk.
Qed.

Lemma sure_bind (m : io A) (k : A -> io B) R Q : sure m R -> (forall a, R a -> sure (k a) Q) -> sure (m ≫= k) Q.
Proof. intros Hm Hk. eapply hoare_bind; [exact Hm|]. intros a w Ha. by apply Hk. Qed.

Lemma sure_try (m : io A) Q : partly m Q -> sure (try m) (fun r => match r with inl a => Q a | inr _ => True end).
Proof. intros Hm. apply hoare_try. eapply hoare_conseq; [exact Hm|..]; done. Qed.

Lemma sure_ignore m : sure (ignore m) (fun _ => True).
Proof. intros w _. unfold ignore. by destruct (m w) as [[]]. Qed.

Lemma partly_wrapping f (m : io A) Q : partly m Q -> partly (wrapping f m) Q.
Proof. intros Hm. by apply hoare_wrapping. Qed.

Lemma sure_partly (m : io A) Q : sure m Q -> partly m Q.
Proof. intros Hm. eapply hoare_conseq; [exact Hm|..]; done. Qed.

Lemma sure_impl (m : io A) (Q Q' : A -> Prop) : sure m Q -> (forall a, Q a -> Q' a) -> sure m Q'.
Proof. intros Hm HQ. eapply hoare_conseq; [exact Hm|..]; auto. Qed.

End results.

Lemma sure_unless_executed {A} cleanup (m : io (execution + A)) Q : sure m Q -> sure (unless_executed cleanup m) Q.
Proof.
  intros Hm. eapply sure_bind; [exact Hm|]. intros [x|a] Ha; [by apply sure_ret|].
  eapply sure_bind; [apply sure_ignore|]. intros [] _. by apply sure_ret.
Qed.

Lemma partly_inspect `{Kernel} {A} (f : fs -> outcome errno A) (Q : A -> Prop) :
  (forall F a, f F = Ok a -> Q a) -> partly (inspect f) Q.
Proof.
  intros HQ w _. unfold inspect, syscall. destruct (k_fault _); [|done..].
  destruct (f _) as [a|e|] eqn:Hf; simpl; [by eapply HQ|done..].
Qed.

(** ** The payload *)

(** Keeping pieces is writing to a file, cut where the writes were. *)
Lemma bounded_Write_pieces (ps : list (list byte)) limit written p :
  bounded_Write (mkBounded (mkPieces ps) limit written) p =
  let '(bw, n, e) := bounded_Write (mkBounded ([] : list byte) limit written) p in
  (mkBounded (mkPieces (if decide (bw_w bw = []) then ps else ps ++ [bw_w bw])) (bw_limit bw) (bw_written bw), n, e).
Proof.
  unfold bounded_Write. cbn [bw_limit bw_written bw_w]. destruct p as [|b p]; [done|].
  cbn [length Nat.eqb]. destruct (_ <=? 0) eqn:Hr; [done|]. apply Z.leb_gt in Hr.
  destruct (_ >? _).
  - unfold Write; cbn. destruct (Z.to_nat _) eqn:Hn; [lia|]. done.
  - done.
Qed.

Lemma copy_stream_pieces (ps : list (list byte)) (out : list byte) limit written cs fails :
  concat ps = out ->
  exists ps' bw e, copy_stream (mkBounded (mkPieces ps) limit written) cs fails = (mkBounded (mkPieces ps') (bw_limit bw) (bw_written bw), e) /\
    copy_stream (mkBounded out limit written) cs fails = (bw, e) /\ concat ps' = bw_w bw.
Proof.
  revert ps out limit written. induction cs as [|c cs IH]; intros ps out limit written Hout; cbn [copy_stream].
  { by exists ps, (mkBounded out limit written), (if fails then CopyFailed else CopyOk). }
  rewrite bounded_Write_pieces.
  assert (bounded_Write (mkBounded out limit written) c =
    let '(bw, n, e) := bounded_Write (mkBounded ([] : list byte) limit written) c in
    (mkBounded (out ++ bw_w bw) (bw_limit bw) (bw_written bw), n, e)) as ->.
  { unfold bounded_Write. cbn [bw_limit bw_written bw_w Write file_writer]. unfold file_append. cbv zeta.
    destruct (length c =? 0)%nat; [cbn [bw_w bw_limit bw_written]; by rewrite app_nil_r|].
    destruct (_ <=? 0); [cbn [bw_w bw_limit bw_written]; by rewrite app_nil_r|]. by destruct (_ >? _). }
  destruct (bounded_Write (mkBounded [] limit written) c) as [[bw n] e].
  set (ps1 := if decide (bw_w bw = []) then ps else ps ++ [bw_w bw]).
  assert (concat ps1 = out ++ bw_w bw) as Hps1.
  { unfold ps1. case_decide as Hb; [by rewrite Hb, app_nil_r|]. by rewrite concat_app, Hout; simpl; rewrite app_nil_r. }
  destruct e; [|by eexists _, (mkBounded (out ++ bw_w bw) (bw_limit bw) (bw_written bw)), _..].
  destruct (n =? length c)%nat; [by apply IH|].
  by eexists _, (mkBounded (out ++ bw_w bw) (bw_limit bw) (bw_written bw)), _.
Qed.

Lemma decompress_pieces (o : option stream) size ps :
  exists ps' r, decompress (mkPieces ps) o size = (mkPieces ps', r) /\ decompress (concat ps) o size = (concat ps', r).
Proof.
  unfold decompress. destruct (size <? 0); [by eexists _, _|]. destruct (size >? _); [by eexists _, _|].
  destruct o as [s|]; [|by eexists _, _].
  destruct (copy_stream_pieces ps (concat ps) (bw_limit (newBoundedWriter (concat ps) size)) 0 (chunks s) (ends_in_error s) eq_refl)
    as (ps' & bw & e & H1 & H2 & H3).
  unfold newBoundedWriter in *. cbn [bw_limit] in *. rewrite H1, H2. cbn [bw_w bw_written].
  destruct e; [|by eexists _, _; rewrite H3..]. destruct (negb _); by eexists _, _; rewrite H3.
Qed.

Section payload.
Context {GU : GoUnicode} {D : Decoders} (self : Z) (ve : VariantEntry) (idx : option Index).

(** What the callback delivers without an error is of the declared size. *)
Lemma payload_size F ps :
  payload_of self ve idx F = (ps, None) ->
  Z.of_nat (length (concat ps)) = UncompressedSize ve /\ 0 < UncompressedSize ve <= MaxPayloadSize /\ digest_syntax (SHA256 ve).
Proof.
  unfold payload_of, decompressVariantToWriter. destruct (read_dictionary _ _) as [dict|e|]; [|done..].
  destruct (_ || _) eqn:Hsize; [done|]. apply orb_false_iff in Hsize as [H1%Z.leb_gt H2%Z.ltb_ge].
  destruct (bad_checksum _) eqn:Hsha; [done|]. apply bad_checksum_false in Hsha.
  destruct (Get _ _) as [c|e|]; [|done..].
  set (s := section_stream _ _ _).
  assert (DecompressWithOptionalDict c (mkPieces []) s (UncompressedSize ve) dict =
    decompress (mkPieces []) (decoded_stream c s dict) (UncompressedSize ve)) as -> by by destruct c, dict.
  destruct (decompress_pieces (decoded_stream c s dict) (UncompressedSize ve) []) as (ps' & r & -> & Hd).
  destruct (decompress_delivers (decoded_stream c s dict) (UncompressedSize ve) []) as [(data & Hdel & Hd')|(_ & w' & e & Hd')].
  - unfold MaxPayloadSize, DefaultMaxPayloadSize in *. lia.
  - simpl in Hd. rewrite Hd in Hd'. injection Hd' as Hps ->. intros [= <-].
    destruct Hdel as (s' & _ & _ & _ & Hlen). by rewrite Hps.
  - simpl in Hd. rewrite Hd in Hd'. injection Hd' as _ ->. by intros [= _].
Qed.

Lemma extracted F ps :
  extractVariantToWriter self ve idx F = (ps, None) ->
  payload_of self ve idx F = (ps, None) /\ EncodeToString (Sum256 (concat ps)) = SHA256 ve.
Proof.
  unfold extractVariantToWriter. destruct (payload_of self ve idx F) as [ps' [e|]]; [done|].
  destruct (String.eqb_spec (EncodeToString (Sum256 (concat ps'))) (SHA256 ve)) as [He|]; [|done]. by intros [= <-].
Qed.

End payload.

(** ** The memory file *)

Lemma overwrite_app data off p p' :
  (off <= length data)%nat ->
  overwrite (overwrite data off p) (off + length p) p' = overwrite data off (p ++ p').
Proof.
  intros Hoff. unfold overwrite. assert (length (take off data) = off) as Hlen by (rewrite length_take; lia).
  assert (length (take off data ++ p) = (off + length p)%nat) as Hlen2 by (rewrite length_app; lia).
  rewrite !(app_assoc (take off data) p), <- Hlen2, take_app_length, drop_app_add'.
  - by rewrite drop_drop, <- !app_assoc, Hlen2, length_app, Nat.add_assoc.
  - done.
Qed.

Lemma overwrite_length data off p : (off <= length data)%nat -> (off + length p <= length (overwrite data off p))%nat.
Proof. intros Hoff. unfold overwrite. rewrite !length_app, length_take. lia. Qed.

Section memfd.
Context `{Kernel}.

Lemma partly_write_pieces ps m :
  (mf_offset m <= length (mf_data m))%nat ->
  partly (write_pieces m ps) (fun m' =>
    mf_data m' = overwrite (mf_data m) (mf_offset m) (concat ps) /\ mf_seals m' = mf_seals m).
Proof.
  revert m. induction ps as [|p ps IH]; intros m Hm; cbn [write_pieces concat].
  - apply partly_ret. split; [|done]. unfold overwrite. by rewrite app_nil_l, Nat.add_0_r, take_drop.
  - eapply partly_bind.
    + apply partly_wrapping, partly_inspect with (Q := fun m' =>
        m' = mkMemfd (overwrite (mf_data m) (mf_offset m) p) (mf_offset m + length p) (mf_seals m)).
      intros _ m'. destruct (has_bits _ _); [done|]. by intros [= <-].
    + intros m' ->. eapply hoare_conseq; [apply IH|..]; [|done| |done..].
      * cbn [mf_offset mf_data]. by apply overwrite_length.
      * cbn [mf_offset mf_data mf_seals]. intros m' F [-> ->]. by rewrite overwrite_app.
Qed.

Lemma partly_create : partly createExecutableMemfd (fun m => m = mkMemfd [] 0 0).
Proof.
  unfold createExecutableMemfd. eapply partly_bind with (R := fun r => r.1 = mkMemfd [] 0 0); [|by intros [m f] ->; apply partly_ret].
  unfold CreateExecutable. eapply partly_bind with (R := fun r => match r with inl m => m = mkMemfd [] 0 0 | inr _ => True end).
  - apply sure_partly, (sure_try _ (fun m => m = mkMemfd [] 0 0)), partly_inspect. by intros F m [= <-].
  - intros [m|e] Hm; [by apply partly_ret|]. destruct (errors_Is e (Errno EINVAL)); [|apply partly_fail].
    eapply partly_bind with (R := fun m => m = mkMemfd [] 0 0); [apply partly_inspect; by intros F m [= <-]|].
    intros m ->. by apply partly_ret.
Qed.

Context {GU : GoUnicode} {GF : GoFloat} {D : Decoders}.
Context (self : Z) (ve : VariantEntry) (idx : option Index).

(** Presized or not, the file holds the payload and nothing else. *)
Lemma partly_extract m :
  mf_offset m = 0%nat -> (mf_data m = [] \/ Z.of_nat (length (mf_data m)) = UncompressedSize ve) ->
  partly (extract_to_memfd self ve idx m) (fun m' =>
    EncodeToString (Sum256 (mf_data m')) = SHA256 ve /\ Z.of_nat (length (mf_data m')) = UncompressedSize ve /\
    mf_seals m' = mf_seals m).
Proof.
  intros Hoff Hlen. unfold extract_to_memfd.
  eapply partly_bind with (R := fun _ => True); [apply partly_any|]. intros F _.
  destruct (extractVariantToWriter self ve idx F) as [ps err] eqn:He.
  eapply partly_bind; [apply partly_write_pieces; rewrite Hoff; lia|]. intros m' [Hd Hs].
  destruct err as [e|]; [apply partly_fail|]. apply partly_ret.
  apply extracted in He as [Hp Hsha]. apply payload_size in Hp as [Hsize _].
  assert (mf_data m' = concat ps) as ->; [|done]. rewrite Hd, Hoff. unfold overwrite. rewrite take_0, app_nil_l.
  rewrite drop_ge, app_nil_r; [done|]. destruct Hlen as [-> |Hlen]; simpl; lia.
Qed.

End memfd.

(** ** Launching *)

Section launch.
Context `{Kernel} {GU : GoUnicode} {GF : GoFloat} {D : Decoders}.
Context (process : list string) (page : Z) (abs : string -> option string) (limits_at : nat -> outcome cgroup_err Limits).
Context (selfPath selfName : string) (self : Z) (ve : VariantEntry) (idx : option Index) (args baseEnv : list string).
Context (hostInfo : Info) (policyRes : PolicyResult).

(** An environment built for a mode, with limits read at some time. *)
Definition launch_env (execMode : string) (env : list string) : Prop :=
  exists n, env = ev_list (buildAutoTunedEnviron process page abs (limits_at n)
    (if String.eqb selfPath "" then selfName else selfPath) baseEnv ve execMode hostInfo policyRes).1.

(** The recorded payload with the right arguments, in sealed memory or from
    the cache. *)
Record genuine (x : execution) : Prop := {
  gen_digest : EncodeToString (Sum256 (x_image x)) = SHA256 ve;
  gen_size : Z.of_nat (length (x_image x)) = UncompressedSize ve;
  gen_args : x_args x = args;
  gen_mode : launch_env ExecModeMemfd (x_env x) /\ Z.land (x_seals x) TargetSeals = TargetSeals \/
             launch_env ExecModeCache (x_env x)
}.

Definition runs_genuine {A} (r : execution + A) : Prop := match r with inl x => genuine x | inr _ => True end.

Lemma sure_launch_environ execMode :
  sure (launch_environ process page abs limits_at selfPath selfName ve baseEnv hostInfo policyRes execMode) (launch_env execMode).
Proof. intros w _. simpl. by exists (w_clock w). Qed.

Lemma sure_checkExtractionBudget : sure (checkExtractionBudget limits_at ve idx) (fun _ => True).
Proof.
  intros w _. unfold checkExtractionBudget. destruct (_ || _); [done|]. cbv zeta. destruct (_ || _); [done|]. done.
Qed.

Lemma sure_run_memfd m env :
  m = mkMemfd [] 0 0 -> launch_env ExecModeMemfd env -> sure (run_memfd self ve idx args m env) runs_genuine.
Proof.
  intros -> Henv. unfold run_memfd.
  eapply sure_bind; [apply (sure_try _ (fun m => mf_offset m = 0%nat /\ mf_seals m = 0 /\
    Z.of_nat (length (mf_data m)) = UncompressedSize ve)), partly_inspect|].
  { intros _ m. cbn [mf_data mf_seals mf_offset]. destruct (Z.ltb_spec (UncompressedSize ve) 0); [done|].
    change (has_bits 0 F_SEAL_SHRINK) with false. change (has_bits 0 F_SEAL_GROW) with false. cbn [andb].
    intros [= <-]. cbn [mf_data mf_seals mf_offset].
    split_and!; [done..|]. unfold Stub.resize. rewrite length_app, length_take, length_replicate. simpl. lia. }
  intros presized Hp. cbv zeta. set (m := match presized with inl m => m | inr _ => _ end).
  assert (mf_offset m = 0%nat /\ mf_seals m = 0 /\ (mf_data m = [] \/ Z.of_nat (length (mf_data m)) = UncompressedSize ve)) as (Ho & Hs & Hd).
  { destruct presized as [m'|e]; unfold m; cbn [mf_data mf_seals mf_offset]; naive_solver. }
  eapply sure_bind; [apply sure_try, (partly_extract self ve idx m Ho Hd)|].
  intros [m'|e] Hm'; [|by apply sure_ret]. destruct Hm' as (Hsha & Hsize & Hseals).
  eapply sure_bind; [apply (sure_try _ (fun m => mf_data m = mf_data m' /\ mf_seals m = TargetSeals)), partly_inspect|].
  { intros _ m''. rewrite Hseals, Hs. by intros [= <-]. }
  intros [m''|e] Hm''; [|by apply sure_ret]. destruct Hm'' as [Hdata Hsealed].
  eapply sure_bind; [apply (sure_try _ genuine), partly_inspect|].
  { intros _ x [= <-]. split; cbn; rewrite ?Hdata; try done. left. by rewrite Hsealed. }
  intros [x|e] Hx; by apply sure_ret.
Qed.

(** The memory file, whatever other processes do. *)
Lemma sure_executeViaMemfd :
  sure (executeViaMemfd process page abs limits_at selfPath selfName self ve idx args baseEnv hostInfo policyRes) runs_genuine.
Proof.
  unfold executeViaMemfd. eapply sure_bind; [apply sure_checkExtractionBudget|].
  intros [e|] _; [by apply sure_ret|]. eapply sure_bind; [apply sure_launch_environ|]. intros env Henv.
  eapply sure_bind; [apply sure_try, partly_create|]. intros [m|e] Hm; [|by apply sure_ret].
  apply sure_unless_executed. by apply sure_run_memfd.
Qed.

(** ** The cache *)

Context (Hquiet : quiet).

Abbreviation valid F fd := (valid_entry F fd (UncompressedSize ve) (SHA256 ve)).

(** A descriptor that is returned does not depend on what happens to a corrupt
    entry. *)
Lemma validate_done fd size sha c1 c2 w a w' :
  validateOpenedDescriptor fd size sha c1 w = (Done a, w') -> validateOpenedDescriptor fd size sha c2 w = (Done a, w').
Proof.
  unfold validateOpenedDescriptor. unfold mbind, io_bind. destruct (stat_or_close _ _ w) as [[fi|e|] w1]; [|done..].
  destruct (validateCacheEntryMetadata fi); [|done..]. destruct (negb _); [done|]. destruct (negb _).
  - destruct (ignore (sys_close fd) w1) as [[[]|e|] w2]; [|done..]. destruct (c1 w2) as [[[]|e|] w3]; done.
  - destruct (verifyCachedFD _ _ _ w1) as [[[]|e|] w2]; [done| |done..].
    destruct (ignore (sys_close fd) w2) as [[[]|e|] w3]; [|done..]. destruct (c1 w3) as [[[]|e|] w4]; done.
Qed.

Lemma hoare_open b name c :
  hoare (fun _ => True) (open_and_validate b name (UncompressedSize ve) (SHA256 ve) c)
    (fun fd F => valid F fd) (fun _ _ => True) (fun _ => True).
Proof using Hquiet.
  intros w _. destruct (open_and_validate b name (UncompressedSize ve) (SHA256 ve) c w) as [[fd|e|] w'] eqn:He; [|done..].
  pose proof (hoare_open_and_validate Hquiet (w_fs w) b name (UncompressedSize ve) (SHA256 ve) False
    (False_ind _) (False_ind _) w eq_refl) as Ho.
  assert (open_and_validate b name (UncompressedSize ve) (SHA256 ve) (mret tt) w = (Done fd, w')) as Hr.
  { revert He. unfold open_and_validate, mbind, io_bind. destruct (try (sys_open b true name) w) as [[[fd'|e]|e|] w1]; [|by auto..].
    apply validate_done. }
  rewrite Hr in Ho. destruct Ho as (<- & _ & Hv). done.
Qed.

Lemma hoare_exec_cached fd env primaryErr requested :
  launch_env ExecModeCache env ->
  hoare (fun F => valid F fd) (exec_cached args fd env primaryErr requested) (fun r _ => runs_genuine r) (fun _ _ => False) (fun _ => True).
Proof using Hquiet.
  intros Henv. unfold exec_cached, unless_executed.
  eapply hoare_bind with (R := fun r _ => runs_genuine r).
  - eapply hoare_bind with (R := fun r _ => match r with inl x => genuine x | inr _ => True end).
    + apply hoare_try, hoare_inspect; [done..|]. intros F x [Hf (a & Ha & _ & _ & _ & Hlen & Hsha)].
      rewrite Hf, Ha. destruct (has_bits _ _); [|done]. intros [= <-]. split; cbn; [done..|]. by right.
    + intros [x|e]; by apply hoare_ret.
  - intros [x|f]; [by apply hoare_ret|].
    eapply hoare_bind with (R := fun _ _ => True); [|intros []; by apply hoare_ret].
    eapply hoare_conseq; [apply sure_ignore|..]; done.
Qed.

Lemma hoare_materialize_valid dirFD dirPath payload :
  hoare (fun _ => True) (materializeAndOpenVariantAtFD dirFD dirPath (Some ve) payload)
    (fun r F => valid F r.2) (fun _ _ => True) (fun _ => True).
Proof using Hquiet.
  unfold materializeAndOpenVariantAtFD. repeat (destruct (_ : bool); [by apply hoare_fail|]).
  destruct payload as [payload|]; [|by apply hoare_fail].
  assert (forall A (m : io A), hoare (fun _ => True) m (fun _ _ => True) (fun _ _ => True) (fun _ => True)) as Hany
    by (intros; apply partly_any).
  eapply hoare_bind; [apply Hany|]. intros []. eapply hoare_bind; [apply Hany|]. intros [tmp tn].
  eapply hoare_bind; [apply Hany|]. intros []. eapply hoare_bind; [apply Hany|]. intros [].
  eapply hoare_bind with (R := fun r F => match r with inl fd => valid F fd | inr _ => True end).
  - apply hoare_try. eapply hoare_conseq; [apply hoare_open|..]; done.
  - intros [fd|e]; [by apply hoare_ret|]. eapply hoare_bind; [|intros []; by apply hoare_fail].
    eapply hoare_conseq; [apply (Hany _ (ignore (sys_unlink (fd_base dirFD) (filepath_Clean (SHA256 ve)))))|..]; done.
Qed.

Lemma hoare_open_or_materialize dirFD cacheDir primaryErr :
  hoare (fun _ => True) (open_or_materialize process limits_at self ve idx dirFD cacheDir primaryErr)
    (fun r F => match r with inl fd => valid F fd | inr _ => True end) (fun _ _ => False) (fun _ => True).
Proof using Hquiet.
  unfold open_or_materialize.
  eapply hoare_bind with (R := fun r F => match r with inl fd => valid F fd | inr _ => True end).
  { apply hoare_try. eapply hoare_conseq; [apply hoare_open|..]; done. }
  intros [fd|e]; [by apply hoare_ret|]. destruct (unsafe_entry e); [by apply hoare_ret|].
  eapply hoare_bind; [apply sure_checkExtractionBudget|]. intros [e'|]; [by apply hoare_ret|].
  eapply hoare_bind with (R := fun r F => match r with inl r => valid F r.2 | inr _ => True end).
  { apply hoare_try. eapply hoare_conseq; [apply hoare_materialize_valid|..]; done. }
  intros [[path fd]|e']; by apply hoare_ret.
Qed.

Lemma sure_executeViaCache primaryErr :
  sure (executeViaCache process page abs limits_at selfPath selfName self ve idx args baseEnv hostInfo policyRes primaryErr) runs_genuine.
Proof using Hquiet.
  unfold executeViaCache. eapply sure_bind; [apply sure_launch_environ|]. intros env Henv.
  eapply sure_bind; [apply sure_try, partly_any|]. intros [[dirFD cacheDir]|e] _; [|by apply sure_ret].
  destruct (dirFD <? 0); [by apply sure_ret|]. apply sure_unless_executed. destruct (bad_checksum _); [by apply sure_ret|].
  eapply hoare_bind; [apply hoare_open_or_materialize|]. intros [fd|f]; [|by apply hoare_ret].
  by apply hoare_exec_cached.
Qed.

Lemma sure_executeExistingCache :
  sure (executeExistingCache process page abs limits_at selfPath selfName ve args baseEnv hostInfo policyRes) runs_genuine.
Proof using Hquiet.
  unfold executeExistingCache. destruct (negb _); [by apply sure_ret|].
  eapply sure_bind; [apply sure_try, partly_any|]. intros [[dirFD cacheDir]|e] _; [|by apply sure_ret].
  destruct (dirFD <? 0); [by apply sure_ret|]. apply sure_unless_executed.
  eapply hoare_bind with (R := fun r F => match r with inl fd => valid F fd | inr _ => True end).
  { apply hoare_try. eapply hoare_conseq; [apply hoare_open|..]; done. }
  intros [fd|e]; [|by apply hoare_ret].
  eapply hoare_bind with (R := fun env F => launch_env ExecModeCache env /\ valid F fd).
  { intros w Hv. simpl. split; [by exists (w_clock w)|done]. }
  intros env. intros w [Henv Hv]. revert w Hv. change (hoare (fun F => valid F fd) (x ← exec_cached args fd env None ExecModeAuto;
    mret match x with inl x => inl x | inr f => inr (mkMiss true (Some f)) end) (fun r _ => runs_genuine r) (fun _ _ => False) (fun _ => True)).
  eapply hoare_bind; [by apply hoare_exec_cached|]. intros [x|f]; by apply hoare_ret.
Qed.

Lemma sure_executeVariant :
  sure (executeVariant process page abs limits_at selfPath selfName self ve idx args baseEnv hostInfo policyRes) runs_genuine.
Proof using Hquiet.
  unfold executeVariant. destruct (String.eqb _ _); [apply sure_executeViaCache|].
  destruct (String.eqb _ _); [apply sure_executeViaMemfd|].
  eapply sure_bind; [apply sure_executeExistingCache|]. intros [x|[hit cacheErr]] Hx; [by apply sure_ret|].
  cbv zeta. destruct (match cacheErr with Some f => _ | None => _ end); [by apply sure_ret|].
  eapply sure_bind; [apply sure_executeViaMemfd|]. intros [x|e] He; [by apply sure_ret|].
  destruct hit; [by apply sure_ret|]. destruct (_ || _); [by apply sure_ret|]. apply sure_executeViaCache.
Qed.

End launch.
