(* ===== verification/StubRun.v ===== *)
(** * The launcher's promises

    What the privilege check lets through; that the launcher takes exactly the
    payloads verification calls valid; that whatever runs is such a payload of
    the launcher's own file; that a valid payload does run; and that a damaged
    one is neither run nor written to the cache. *)

From S2P Require Import Prelude GoStrings GoPath GoFloat GoIO Vfs GoOS InputFile VfsLogic VfsEffects VfsStage Lifecycle LifecycleProofs Sha256 Format FormatIndex FormatTrailer Codec PackTrim Microarch MicroarchFeatures MicroarchSelect CgroupSize CgroupTuning CgroupHierarchy PackPrewarm Cache CacheProofs CacheMaterialize CacheDirProofs Diagnostics StubEnv StubEnvProofs Stub StubProofs.
From stdpp Require Import base list strings gmap.
From Stdlib Require Import ZArith Lia Strings.Ascii Strings.Byte.
Import CacheErr StubErr.

Local Open Scope Z_scope.

(** ** The auxiliary vector *)

(** Entries of two words each. *)
Definition auxv_bytes (entries : list (Z * Z)) : list byte :=
  concat ((fun e => le_bytes 8 e.1 ++ le_bytes 8 e.2) <$> entries).

(** The values recorded for a tag. *)
Definition values_of (tag : Z) (entries : list (Z * Z)) : list Z :=
  snd <$> List.filter (fun e => e.1 =? tag) entries.

(** A vector that says once, and says "no", whether the program runs with
    raised privileges; what follows the end mark does not count. *)
Definition unprivileged_auxv (data : list byte) : Prop :=
  exists entries v rest,
    data = auxv_bytes entries ++ le_bytes 8 0 ++ le_bytes 8 v ++ rest /\ uint64_range v /\
    Forall (fun e => e.1 <> 0 /\ uint64_range e.1 /\ uint64_range e.2) entries /\
    values_of AT_SECURE entries = [0].

Lemma le_val_word l : length l = 8%nat -> uint64_range (le_val l).
Proof. intros Hl. pose proof (le_val_range l) as Hb. by rewrite Hl in Hb. Qed.

(** The first two words of a longer list. *)
Lemma two_words (data : list byte) :
  (16 <= length data)%nat ->
  exists tag v rest, data = le_bytes 8 tag ++ le_bytes 8 v ++ rest /\ uint64_range tag /\ uint64_range v /\
    length rest = (length data - 16)%nat.
Proof.
  intros Hl. exists (le_val (take 8 data)), (le_val (take 8 (drop 8 data))), (drop 16 data).
  assert (length (take 8 data) = 8%nat) as H1 by (rewrite length_take; lia).
  assert (length (take 8 (drop 8 data)) = 8%nat) as H2 by (rewrite length_take, length_drop; lia).
  rewrite !le_bytes_val by done. split_and!; [|by apply le_val_word..|by rewrite length_drop].
  replace (drop 16 data) with (drop 8 (drop 8 data)) by (by rewrite drop_drop). by rewrite !take_drop.
Qed.

Lemma secure_entries_step fuel tag v rest seen :
  uint64_range tag -> uint64_range v ->
  secure_entries (S fuel) (le_bytes 8 tag ++ le_bytes 8 v ++ rest) seen =
    if tag =? 0 then if seen then Ok tt else Err errElevatedExecution
    else if tag =? AT_SECURE then
      if seen || negb (v =? 0) then Err errElevatedExecution else secure_entries fuel rest true
    else secure_entries fuel rest seen.
Proof.
  intros Ht Hv. cbn [secure_entries]. rewrite (proj2 (Nat.ltb_ge _ _)) by (rewrite !length_app, !length_le_bytes; lia).
  rewrite take_app_length' by (by rewrite length_le_bytes). rewrite drop_app_length' by (by rewrite length_le_bytes).
  rewrite take_app_length' by (by rewrite length_le_bytes). rewrite !le_val_uint64 by done.
  rewrite (app_assoc (le_bytes 8 tag)), drop_app_length' by (by rewrite length_app, !length_le_bytes). done.
Qed.

Definition secure_from (seen : bool) (data : list byte) : Prop :=
  exists entries v rest,
    data = auxv_bytes entries ++ le_bytes 8 0 ++ le_bytes 8 v ++ rest /\ uint64_range v /\
    Forall (fun e => e.1 <> 0 /\ uint64_range e.1 /\ uint64_range e.2) entries /\
    values_of AT_SECURE entries = if seen then [] else [0].

Lemma secure_entries_sound fuel data seen : secure_entries fuel data seen = Ok tt -> secure_from seen data.
Proof.
  revert data seen. induction fuel as [|fuel IH]; intros data seen; [done|].
  destruct (decide (16 <= length data)%nat) as [Hl|Hl].
  2: { cbn [secure_entries]. by rewrite (proj2 (Nat.ltb_lt _ _)) by lia. }
  destruct (two_words data Hl) as (tag & v & rest & -> & Ht & Hv & _). rewrite secure_entries_step by done.
  assert (forall seen', secure_from seen' rest -> tag <> 0 ->
    (if tag =? AT_SECURE then v = 0 /\ seen = false /\ seen' = true else seen' = seen) ->
    secure_from seen (le_bytes 8 tag ++ le_bytes 8 v ++ rest)) as Hcons.
  { intros seen' (entries & v' & rest' & -> & Hv' & He & Hs) Hne Hseen. exists ((tag, v) :: entries), v', rest'.
    split_and!; [unfold auxv_bytes; cbn [fmap list_fmap concat fst snd]; by rewrite <- !app_assoc|done|by constructor|].
    unfold values_of in *. cbn. destruct (tag =? AT_SECURE).
    - destruct Hseen as (-> & -> & ->). cbn. by rewrite Hs.
    - by rewrite Hs, Hseen. }
  destruct (Z.eqb_spec tag 0) as [-> |Hne].
  { destruct seen; [|done]. intros _. by exists [], v, rest. }
  destruct (tag =? AT_SECURE) eqn:Hs.
  - destruct seen; [done|]. destruct (Z.eqb_spec v 0) as [-> |]; [|done]. intros Hr%IH. by eapply Hcons.
  - intros Hr%IH. by eapply Hcons.
Qed.

Lemma secure_entries_complete fuel data seen :
  (length data < fuel)%nat -> secure_from seen data -> secure_entries fuel data seen = Ok tt.
Proof.
  intros Hf (entries & v & rest & -> & Hv & He & Hs). revert fuel seen Hf Hs.
  induction He as [|[tag w] entries (Hne & Ht & Hw) He IH]; intros [|fuel] seen Hf Hs; try (cbn in *; lia).
  - change (auxv_bytes []) with ([] : list byte). rewrite app_nil_l, secure_entries_step by done. cbn. by destruct seen.
  - unfold auxv_bytes in *. cbn [fmap list_fmap concat fst snd] in *. rewrite <- !app_assoc in *.
    rewrite secure_entries_step by done. rewrite !length_app, !length_le_bytes in Hf. cbn [fst] in Hne.
    rewrite (proj2 (Z.eqb_neq _ _)) by done. unfold values_of in Hs. cbn in Hs.
    destruct (tag =? AT_SECURE); [destruct seen; [done|]; injection Hs as -> Hs; cbn|];
      apply IH; rewrite ?length_app, ?length_le_bytes; try lia; done.
Qed.

(** The launcher goes on exactly when the process has the identifiers of its user, the
    auxiliary vector can be read, has at most 4096 bytes, and marks the process as unprivileged,
    once, before its end mark, and the program is known to have no file capabilities. *)
Theorem checkLauncherPrivilege_exact (p : Privileges) :
  checkLauncherPrivilege p = Ok tt <->
  p_uid p = p_euid p /\ p_gid p = p_egid p /\
  (exists data, p_auxv p = Ok data /\ (length data <= 4096)%nat /\ unprivileged_auxv data) /\
  (p_capability p = Some ENODATA \/ p_capability p = Some ENOTSUP).
Proof.
  unfold checkLauncherPrivilege. destruct (Z.eqb_spec (p_uid p) (p_euid p)) as [Hu|]; [|by split; [|intros (? & _)]].
  destruct (Z.eqb_spec (p_gid p) (p_egid p)) as [Hg|]; [|by split; [|intros (_ & ? & _)]]. cbn [negb orb].
  unfold readSecureAuxv. destruct (p_auxv p) as [data|e|]; cbn [mbind outcome_bind].
  2,3: by split; [|intros (_ & _ & (? & ? & _) & _)].
  assert (maxAuxvBytes = 4096%nat) as Hm by reflexivity. rewrite Hm, length_take.
  destruct (Nat.ltb_spec 4096 (S 4096 `min` length data)) as [Hl|Hl].
  { split; [done|]. intros (_ & _ & (d & [= <-] & ? & _) & _). lia. }
  rewrite take_ge by lia. unfold validateSecureAuxv. split.
  - destruct (secure_entries _ _ _) as [[]|e|] eqn:Hs; [|done..]. cbn. intros Hc. split_and!; [done..| |].
    + exists data. split_and!; [done|lia|]. by apply secure_entries_sound in Hs.
    + destruct (p_capability p) as [[]|]; try done; auto.
  - intros (_ & _ & (d & [= <-] & _ & Hd) & Hc). rewrite (secure_entries_complete _ data false) by (lia || done).
    cbn. by destruct Hc as [-> | ->].
Qed.

(** ** Extraction and verification *)

Section verify.
Context {GU : GoUnicode} {D : Decoders}.

Lemma read_dictionary_verified (file : list byte) idx dict :
  read_dictionary file (Some idx) = Ok dict <-> verify_dictionary file idx = Ok dict.
Proof.
  unfold read_dictionary, verify_dictionary. rewrite Z.gtb_ltb. rewrite Z.gtb_ltb.
  repeat case_match; split; congruence.
Qed.

(** The callback's outcome in terms of the stream the decoder delivers. *)
Lemma payload_delivers self ve idx F dict :
  0 < UncompressedSize ve <= MaxPayloadSize -> digest_syntax (SHA256 ve) ->
  read_dictionary (image self F) idx = Ok dict ->
  (exists ps c, payload_of self ve idx F = (ps, None) /\ Get registry_init (Compression ve) = Ok c /\
     delivers (decoded_stream c (section_stream (image self F) (Offset ve) (CompressedSize ve)) dict)
       (UncompressedSize ve) (concat ps)) \/
  ((exists ps e, payload_of self ve idx F = (ps, Some e)) /\
   forall c data, Get registry_init (Compression ve) = Ok c ->
     ~ delivers (decoded_stream c (section_stream (image self F) (Offset ve) (CompressedSize ve)) dict)
         (UncompressedSize ve) data).
Proof.
  intros Hs Hd Hdict. unfold payload_of, decompressVariantToWriter. rewrite Hdict.
  rewrite (proj2 (Z.leb_gt _ _)), (proj2 (Z.ltb_ge _ _)) by lia. cbn [orb].
  rewrite (proj2 (bad_checksum_false _)) by done.
  destruct (Get _ _) as [c|e|]; [|right; split; [by eexists _, _|done]..].
  set (s := section_stream _ _ _).
  assert (DecompressWithOptionalDict c (mkPieces []) s (UncompressedSize ve) dict =
    decompress (mkPieces []) (decoded_stream c s dict) (UncompressedSize ve)) as -> by by destruct c, dict.
  destruct (decompress_pieces (decoded_stream c s dict) (UncompressedSize ve) []) as (ps & r & -> & Hp).
  destruct (decompress_delivers (decoded_stream c s dict) (UncompressedSize ve) []) as [(data & Hdel & Hd')|(Hnot & w' & e & Hd')].
  - unfold MaxPayloadSize, DefaultMaxPayloadSize in *. lia.
  - simpl in Hp. rewrite Hp in Hd'. injection Hd' as Hps ->. left. exists ps, c. by rewrite Hps.
  - simpl in Hp. rewrite Hp in Hd'. injection Hd' as _ ->. right. split; [by eexists _, _|].
    intros c' data [= <-]. apply Hnot.
Qed.

(** Results of a traversal, entry by entry. *)
Lemma mapM_Ok_elem {A B E} (f : A -> outcome E B) l rs :
  mapM f l = Ok rs ->
  (forall r, r ∈ rs -> exists a, a ∈ l /\ f a = Ok r) /\ (forall a, a ∈ l -> exists r, r ∈ rs /\ f a = Ok r).
Proof.
  revert rs. induction l as [|a l IH]; cbn; intros rs.
  - intros [= <-]. split; intros ? []%elem_of_nil.
  - destruct (f a) as [b|e|] eqn:Hf; [|done..]. cbn. destruct (mapM f l) as [bs|e|]; [|done..]. cbn. intros [= <-].
    destruct (IH bs eq_refl) as [H1 H2]. split.
    + intros r [-> |Hr]%elem_of_cons; [exists a; split; [by left|done]|].
      destruct (H1 r Hr) as (a' & ? & ?). exists a'. split; [by right|done].
    + intros a' [-> |Ha]%elem_of_cons; [exists b; split; [by left|done]|].
      destruct (H2 a' Ha) as (r & ? & ?). exists r. split; [by right|done].
Qed.

(** What the reports of verification are about. *)
Lemma verified_entries (file : list byte) totalSize idx results :
  int64_range totalSize -> VerifyBinary file totalSize = Ok (idx, results) ->
  exists dict, verify_dictionary file idx = Ok dict /\ ReadTrailerAndIndex file totalSize = Ok idx /\ 0 < totalSize /\
  (forall v, v ∈ Variants idx -> 0 < UncompressedSize v <= MaxPayloadSize /\ digest_syntax (SHA256 v) /\
     exists res, res ∈ results /\ vr_entry res = v) /\
  (forall res, res ∈ results -> vr_entry res ∈ Variants idx /\ verify_variant file dict (vr_entry res) = Ok res).
Proof.
  intros Hr. unfold VerifyBinary. destruct (ReadTrailerAndIndex file totalSize) as [idx'|e|] eqn:Hread; [|done..]. cbn.
  destruct (verify_dictionary file idx') as [dict|e|] eqn:Hdict; [|done..]. cbn.
  destruct (mapM _ _) as [rs|e|] eqn:Hm; [|done..]. intros [= -> ->].
  apply read_trailer_opened in Hread as Hopened; [|done]. destruct Hopened as (o & b & [H0 H1 H2 _ _ _ Hu Hb]).
  apply unmarshal_sound in Hu as (Ht & _). unfold TrailerSize in *.
  apply ValidateBounds_layout in Hb as Hl; [|done|int_range].
  pose proof (vl_variants _ _ Hl) as Hvs. rewrite Forall_forall in Hvs.
  assert (forall v res, v ∈ Variants idx -> verify_variant file dict v = Ok res -> vr_entry res = v /\
    0 < UncompressedSize v <= MaxPayloadSize /\ digest_syntax (SHA256 v)) as Hentry.
  { intros v res Hv Hres. destruct (Hvs v Hv) as (_ & _ & _ & _ & Hs & _ & Hd).
    destruct (verify_variant_spec file dict v) as (res' & Hres' & He & _);
      [unfold MaxPayloadSize, DefaultMaxPayloadSize in *; lia|done|].
    assert (res' = res) as -> by congruence. split_and!; try done; lia. }
  apply mapM_Ok_elem in Hm as [Hfrom Hto]. exists dict. split_and!; [done..|lia| |].
  - intros v Hv. destruct (Hto v Hv) as (res & Hin & Hres). destruct (Hentry v res Hv Hres) as (He & Hs & Hd). eauto 10.
  - intros res Hin. destruct (Hfrom res Hin) as (v & Hv & Hres). destruct (Hentry v res Hv Hres) as (<- & _). done.
Qed.

(** Extraction and verification of one variant. *)
Lemma verified_extracts self F idx dict ve res :
  0 < UncompressedSize ve <= MaxPayloadSize -> digest_syntax (SHA256 ve) ->
  verify_dictionary (image self F) idx = Ok dict -> verify_variant (image self F) dict ve = Ok res ->
  Valid res = true <-> exists ps, extractVariantToWriter self ve (Some idx) F = (ps, None).
Proof.
  intros Hs Hd Hdict%read_dictionary_verified Hres.
  destruct (verify_variant_spec (image self F) dict ve) as (res' & Hres' & _ & Hvalid);
    [unfold MaxPayloadSize, DefaultMaxPayloadSize in *; lia|done|].
  assert (res' = res) as -> by congruence. rewrite Hvalid.
  destruct (payload_delivers self ve (Some idx) F dict Hs Hd Hdict) as [(ps & c & Hp & Hc & Hdel)|((ps & e & Hp) & Hnot)].
  - split.
    + intros (c' & data & Hc' & Hdel' & Hsha). exists ps. unfold extractVariantToWriter. rewrite Hp.
      assert (c' = c) as -> by congruence.
      destruct Hdel as (s & E1 & _ & E2 & _), Hdel' as (s' & E1' & _ & E2' & _).
      assert (data = concat ps) as -> by congruence. by rewrite Hsha, String.eqb_refl.
    + intros (ps' & He). apply extracted in He as [Hp' Hsha]. assert (ps' = ps) as -> by congruence. eauto.
  - split; [intros (c & data & Hc & Hdel & _); by destruct (Hnot c data)|].
    intros (ps' & He). apply extracted in He as [Hp' _]. congruence.
Qed.

(** C32. The launcher takes a payload exactly when verification reports the variant valid, and
    what it writes then has the recorded size and digest. *)
Theorem extraction_agrees_with_verify (self : Z) (F : fs) (totalSize : Z) (idx : Index) (results : list VerificationResult)
    (res : VerificationResult) :
  int64_range totalSize -> VerifyBinary (image self F) totalSize = Ok (idx, results) -> res ∈ results ->
  (Valid res = true <-> exists ps, extractVariantToWriter self (vr_entry res) (Some idx) F = (ps, None)) /\
  (forall ps, extractVariantToWriter self (vr_entry res) (Some idx) F = (ps, None) ->
     EncodeToString (Sum256 (concat ps)) = SHA256 (vr_entry res) /\
     Z.of_nat (length (concat ps)) = UncompressedSize (vr_entry res)).
Proof.
  intros Hr Hv Hin. destruct (verified_entries _ _ _ _ Hr Hv) as (dict & Hdict & _ & _ & Hto & Hfrom).
  destruct (Hfrom res Hin) as [Hvar Hres]. destruct (Hto _ Hvar) as (Hs & Hd & _). split; [by eapply verified_extracts|].
  intros ps He. apply extracted in He as [Hp Hsha]. by apply payload_size in Hp as [Hsize _].
Qed.

End verify.

(** ** From the launcher's file to the program *)

Section program.
Context `{Kernel} {GU : GoUnicode} {GF : GoFloat} {D : Decoders}.
Context (process : list string) (page : Z) (abs : string -> option string) (limits_at : nat -> outcome cgroup_err Limits).
Context (handleMetaCommand : string -> Z -> Z -> Index -> option VariantEntry -> io (option (option failure))).
Context (privileges : Privileges) (skylake : bool) (hostInfo : Info) `{SliceSort}.

(** The regular file a path leads to. *)
Definition file_at (F : fs) (path : string) (self : Z) : Prop :=
  (exists l, locate cwd_base true path F = Ok l /\ l_ino l = Some self) /\ f_tree F !! self = Some TFile.

(** The variant of a file the policy selects for this host. *)
Definition selected (file : list byte) (idx : Index) (policyRes : PolicyResult) (ve : VariantEntry) : Prop :=
  ReadTrailerAndIndex file (Z.of_nat (length file)) = Ok idx /\
  SelectVariantForHost skylake (TargetArch idx) hostInfo (VariantLevels idx) (ReadPolicyFromEnv (Getenv process)) = Ok policyRes /\
  FindVariant idx (SelectedVariant policyRes) = Some ve.

(** What a program is that the launcher starts from a file. *)
Definition launched_from (F : fs) (self : Z) (selfPath selfName : string) (args : list string) (x : execution) : Prop :=
  exists idx policyRes ve, selected (image self F) idx policyRes ve /\
    genuine process page abs limits_at selfPath selfName ve args (os_Environ process) hostInfo policyRes x.

Context (Hquiet : quiet).

Lemma hoare_inputfile_Open F path :
  hoare (eq F) (inputfile_Open path) (fun self F' => F = F' /\ file_at F (filepath_Clean path) self) (fun _ => eq F) (eq F).
Proof using Hquiet.
  unfold inputfile_Open. eapply hoare_bind with (R := fun self F' => F = F' /\
    (exists l, locate cwd_base true (filepath_Clean path) F = Ok l /\ l_ino l = Some self)).
  { apply hoare_inspect; [done..|]. intros F' self <-. cbn [negb]. destruct (locate _ _ _ _) as [l|e|]; [|done..]. cbn.
    destruct (found l) as [i|e|] eqn:Hi; [|done..]. cbn. apply found_inv in Hi.
    destruct (f_tree F !! i) as [[]|]; try done; intros [= <-]; split; eauto. }
  intros self. eapply hoare_bind with (R := fun r F' => (F = F' /\
    (exists l, locate cwd_base true (filepath_Clean path) F = Ok l /\ l_ino l = Some self)) /\
    match r with inl fi => f_tree F !! self = Some (fi_node fi) | inr _ => True end).
  { apply hoare_try, hoare_inspect; [done|by intros F' [<- _]|by intros F' e [<- ?]|]. intros F' fi [<- Hl].
    unfold info_of. destruct (f_tree F !! self); [|done]. destruct (f_attr F !! self); [|done]. by intros [= <-]. }
  assert (forall e, hoare (fun F' => F = F') (_ ← ignore (sys_close self); fail e)
    (fun self F' => F = F' /\ file_at F (filepath_Clean path) self) (fun _ => eq F) (eq F)) as Hclose.
  { intros e. apply hoare_observe; [unfold sys_close; observe|done..|]. intros []. by apply hoare_fail. }
  intros [fi|e]; [|eapply hoare_pre; [apply Hclose|by intros F' [[<- _] _]]].
  destruct (fi_node fi) eqn:Hn; try (eapply hoare_pre; [apply Hclose|by intros F' [[<- _] _]]).
  destruct (_ <=? _); [eapply hoare_pre; [apply Hclose|by intros F' [[<- _] _]]|].
  apply hoare_ret. intros F' [[<- Hl] Hnode]. by split.
Qed.

Lemma hoare_meta_or {A} P args self statSize idx ve (k : io (A + option failure)) (Q : A -> Prop) :
  (sure k (fun r => match r with inl x => Q x | inr _ => True end)) ->
  hoare P (meta_or handleMetaCommand args self statSize idx ve k)
    (fun r _ => match r with inl x => Q x | inr _ => True end) (fun _ _ => True) (fun _ => True).
Proof using Type.
  intros Hk. assert (partly (meta_or handleMetaCommand args self statSize idx ve k)
    (fun r => match r with inl x => Q x | inr _ => True end)) as Hm.
  { unfold meta_or. destruct args as [|? [|arg1 ?]]; [by apply sure_partly..|].
    eapply partly_bind; [apply partly_any|]. intros [err|] _; [by apply partly_ret|by apply sure_partly]. }
  eapply hoare_pre; [exact Hm|done].
Qed.

Lemma hoare_run_opened F self selfPath selfName args :
  hoare (eq F) (run_opened process page abs limits_at handleMetaCommand skylake hostInfo selfPath selfName args self)
    (fun r _ => match r with inl x => launched_from F self selfPath selfName args x | inr _ => True end)
    (fun _ _ => True) (fun _ => True).
Proof using Hquiet.
  unfold run_opened. eapply hoare_bind with (R := fun r F' => F = F' /\
    match r with inl fi => fi_size fi = Z.of_nat (length (image self F)) | inr _ => True end).
  { apply hoare_try, hoare_inspect; [done..|]. intros F' fi <-. unfold info_of, image.
    destruct (f_tree F !! self); [|done]. destruct (f_attr F !! self); [|done]. by intros [= <-]. }
  intros [fi|e]; [|by apply hoare_ret].
  eapply hoare_bind with (R := fun F1 F' => (F = F' /\ fi_size fi = Z.of_nat (length (image self F))) /\ F1 = F).
  { apply hoare_inspect; [done..|]. by intros F' F1 [<- ?] [= <-]. }
  intros F1. apply hoare_ghost. intros ? [[<- Hsize] ->]. rewrite Hsize.
  destruct (ReadTrailerAndIndex _ _) as [idx|e|] eqn:Hread; [|by apply hoare_ret..].
  destruct (SelectVariantForHost _ _ _ _ _) as [policyRes|e|] eqn:Hsel;
    [|apply (hoare_meta_or _ _ _ _ _ _ _ (launched_from F self selfPath selfName args)); by apply sure_ret|by apply hoare_ret].
  destruct (FindVariant _ _) as [ve|] eqn:Hfind; [|by apply hoare_ret].
  apply (hoare_meta_or _ _ _ _ _ _ _ (launched_from F self selfPath selfName args)).
  eapply sure_bind; [by apply sure_executeVariant|]. intros [x|f] Hx; apply sure_ret; [|done].
  by exists idx, policyRes, ve.
Qed.

Lemma hoare_runImage F selfPath imagePath args :
  hoare (eq F) (runImage process page abs limits_at handleMetaCommand privileges skylake hostInfo selfPath imagePath args)
    (fun r _ => match r with
     | Executed x => checkLauncherPrivilege privileges = Ok tt /\
         exists self, file_at F (filepath_Clean (filepath_Clean imagePath)) self /\
           launched_from F self selfPath (filepath_Clean imagePath) args x
     | Returned _ => True
     end) (fun _ _ => True) (fun _ => True).
Proof using Hquiet.
  unfold runImage. destruct (checkLauncherPrivilege privileges) as [[]|e|] eqn:Hp; [|by apply hoare_ret..].
  eapply hoare_bind with (R := fun r F' => F = F' /\
    match r with inl self => file_at F (filepath_Clean (filepath_Clean imagePath)) self | inr _ => True end).
  { apply hoare_try. eapply hoare_conseq; [apply hoare_inputfile_Open|..]; by intros; subst. }
  intros [self|e]; [|by apply hoare_ret]. apply hoare_ghost. intros ? [<- Hat].
  eapply hoare_bind with (R := fun r _ => match r with inl x => launched_from F self selfPath (filepath_Clean imagePath) args x | inr _ => True end).
  - unfold unless_executed. eapply hoare_bind; [apply hoare_run_opened|]. intros [x|err]; [by apply hoare_ret|].
    eapply hoare_bind with (R := fun _ _ => True); [|intros []; by apply hoare_ret].
    eapply hoare_conseq; [apply sure_ignore|..]; done.
  - intros [x|err]; apply hoare_ret; [|done]. intros F' Hx. eauto.
Qed.

End program.

(** ** When no call fails *)

Section faultless.
Context `{Kernel} (Hquiet : quiet) (Hcalm : faultless).

Abbreviation never := (fun (_ : gerror) (_ : fs) => False).
Abbreviation nowhere := (fun _ : fs => False).

Lemma hoare_inspect_ok {A} P (f : fs -> outcome errno A) Q :
  (forall F, P F -> exists a, f F = Ok a /\ Q a F) -> hoare P (inspect f) Q never nowhere.
Proof using Hquiet Hcalm.
  intros Hf w HP. unfold inspect, syscall. rewrite (Hquiet (w_clock w) (w_fs w)), (Hcalm _).
  destruct (Hf _ HP) as (a & -> & HQ). done.
Qed.

Lemma hoare_try_inspect_ok {A} P (f : fs -> outcome errno A) (Q : A + gerror -> fs -> Prop) :
  (forall F, P F -> exists a, f F = Ok a /\ Q (inl a) F) -> hoare P (try (inspect f)) Q never nowhere.
Proof using Hquiet Hcalm.
  intros Hf. apply hoare_try. eapply hoare_conseq; [by apply (hoare_inspect_ok P f (fun a => Q (inl a)))|..]; done.
Qed.

(** An error instead of a result, at most. *)
Lemma hoare_try_inspect {A} P (f : fs -> outcome errno A) (Q : A -> Prop) :
  (forall F a, P F -> f F = Ok a -> Q a) ->
  hoare P (try (inspect f)) (fun r F' => P F' /\ match r with inl a => Q a | inr _ => True end) never nowhere.
Proof using Hquiet Hcalm.
  intros Hf w HP. unfold try, inspect, syscall. rewrite (Hquiet (w_clock w) (w_fs w)), (Hcalm _).
  destruct (f (w_fs w)) as [a|e|] eqn:Hfa; cbn; [split; [done|by eapply Hf]|done..].
Qed.

Lemma hoare_fill_pieces P ps m :
  mf_seals m = 0 -> hoare P (write_pieces m ps) (fun m' F' => P F' /\ mf_seals m' = 0) never nowhere.
Proof using Hquiet Hcalm.
  revert m. induction ps as [|p ps IH]; intros m Hm; cbn [write_pieces]; [by apply hoare_ret|].
  eapply hoare_bind with (R := fun m' F' => P F' /\ mf_seals m' = 0).
  - apply hoare_wrapping, hoare_inspect_ok. intros F HP. rewrite Hm. by eexists.
  - intros m'. intros w [HP Hm']. exact (IH m' Hm' w HP).
Qed.

Context {GU : GoUnicode} {GF : GoFloat} {D : Decoders}.
Context (process : list string) (page : Z) (abs : string -> option string) (limits_at : nat -> outcome cgroup_err Limits).
Context (selfPath selfName : string) (self : Z) (ve : VariantEntry) (idx : option Index) (args baseEnv : list string).
Context (hostInfo : Info) (policyRes : PolicyResult) (F : fs).

(** What the end of a run in memory depends on. *)
Definition memory_outcome (r : execution + failure) : Prop :=
  match (extractVariantToWriter self ve idx F).2 with
  | None => exists x, r = inl x
  | Some e => r = inr (Wrapped (ErrMemfdExtract ++ e))
  end.

Lemma hoare_extract m :
  mf_seals m = 0 ->
  hoare (eq F) (try (extract_to_memfd self ve idx m)) (fun r F' => F = F' /\
    match (extractVariantToWriter self ve idx F).2 with
    | None => exists m', r = inl m' /\ mf_seals m' = 0
    | Some e => r = inr e
    end) never nowhere.
Proof using Hquiet Hcalm.
  intros Hm. apply hoare_try. unfold extract_to_memfd.
  eapply hoare_bind with (R := fun F1 F' => F = F' /\ F1 = F).
  { eapply hoare_conseq; [apply (hoare_inspect_ok (eq F) _ (fun F1 F' => F = F' /\ F1 = F))|..]; try done. intros F' <-. by exists F. }
  intros F1. apply hoare_ghost. intros ? [<- ->]. destruct (extractVariantToWriter self ve idx F) as [ps err]. cbn [snd].
  eapply hoare_bind with (R := fun m' F' => F = F' /\ mf_seals m' = 0).
  { eapply hoare_conseq; [apply (hoare_fill_pieces (eq F) ps m Hm)|..]; done. }
  intros m'. destruct err as [e|]; [apply hoare_fail|apply hoare_ret]; intros F' [<- Hm']; eauto.
Qed.

Lemma hoare_run_memfd env :
  hoare (eq F) (run_memfd self ve idx args (mkMemfd [] 0 0) env) (fun r F' => F = F' /\ memory_outcome r) never nowhere.
Proof using Hquiet Hcalm.
  unfold run_memfd. eapply hoare_bind; [apply (hoare_try_inspect _ _ (fun m => mf_seals m = 0))|].
  { intros F' m _. cbn [mf_data mf_seals mf_offset]. repeat case_match; try done. by intros [= <-]. }
  intros presized. apply hoare_ghost. intros ? [<- Hp]. cbv zeta. set (m := match presized with inl m => m | inr _ => _ end).
  assert (mf_seals m = 0) as Hm by by destruct presized.
  eapply hoare_bind; [by apply hoare_extract|]. unfold memory_outcome. intros filled. apply hoare_ghost. intros ? [<- Hf].
  destruct (extractVariantToWriter self ve idx F).2 as [e|]; [subst filled; by apply hoare_ret|].
  destruct Hf as (m' & -> & Hm').
  eapply hoare_bind with (R := fun r F' => F = F' /\ exists m'', r = inl m'').
  { apply hoare_try_inspect_ok. intros F' <-. rewrite Hm'. eexists. eauto. }
  intros sealed. apply hoare_ghost. intros ? [<- [m'' ->]].
  eapply hoare_bind with (R := fun r F' => F = F' /\ exists x, r = inl x).
  { apply hoare_try_inspect_ok. intros F' <-. eexists. eauto. }
  intros r. apply hoare_ghost. intros ? [<- [x ->]]. apply hoare_ret. eauto.
Qed.

Lemma hoare_createExecutableMemfd :
  hoare (eq F) (try createExecutableMemfd) (fun r F' => F = F' /\ r = inl (mkMemfd [] 0 0)) never nowhere.
Proof using Hquiet Hcalm.
  apply hoare_try. apply hoare_conseq with (P := eq F) (Q := fun m F' => F = F' /\ m = mkMemfd [] 0 0) (E := never) (C := nowhere);
    [|done|by intros m F' [<- ->]|done..]. unfold createExecutableMemfd, CreateExecutable.
  eapply hoare_bind with (R := fun r F' => F = F' /\ r.1 = mkMemfd [] 0 0).
  - eapply hoare_bind with (R := fun r F' => F = F' /\ r = inl (mkMemfd [] 0 0)).
    + apply hoare_try_inspect_ok. intros F' <-. by eexists.
    + intros r. apply hoare_ghost. intros ? [<- ->]. by apply hoare_ret.
  - intros [m f]. apply hoare_ret. by intros F' [<- ->].
Qed.

(** An error the budget gives is one that ends the run. *)
Definition refusal (e : gerror) : Prop := has e ErrMemoryBudget || isPayloadCorruptionOrDecompressionError e = true.

(** The payload fits whatever limits are read. *)
Definition within_budget : Prop := forall w, (checkExtractionBudget limits_at ve idx w).1 = Done None.

Lemma hoare_budget :
  hoare (eq F) (checkExtractionBudget limits_at ve idx)
    (fun r F' => F = F' /\ match r with Some e => refusal e /\ ~ within_budget | None => True end) never nowhere.
Proof using Type.
  intros w Hw. assert (exists r, checkExtractionBudget limits_at ve idx w = (Done r, w) /\
    match r with Some e => refusal e | None => True end) as (r & Hr & He).
  { unfold checkExtractionBudget. destruct (_ || _); [by eexists|]. cbv zeta. destruct (_ || _); [by eexists|].
    eexists. split; [reflexivity|]. by repeat case_match; simplify_eq. }
  rewrite Hr. split; [done|]. destruct r as [e|]; [|done]. split; [done|]. intros Hb. specialize (Hb w). by rewrite Hr in Hb.
Qed.

Lemma hoare_executeViaMemfd :
  hoare (eq F) (executeViaMemfd process page abs limits_at selfPath selfName self ve idx args baseEnv hostInfo policyRes)
    (fun r F' => F = F' /\ (memory_outcome r \/ exists e, r = inr (Wrapped e) /\ refusal e /\ ~ within_budget)) never nowhere.
Proof using Hquiet Hcalm.
  unfold executeViaMemfd. eapply hoare_bind; [apply hoare_budget|].
  intros [e|]; apply hoare_ghost; intros ? [<- He]; [apply hoare_ret; naive_solver|].
  eapply hoare_bind with (R := fun _ F' => F = F'); [by intros w Hw|]. intros env.
  eapply hoare_bind; [apply hoare_createExecutableMemfd|]. intros r. apply hoare_ghost. intros ? [<- ->].
  unfold unless_executed. eapply hoare_bind; [apply hoare_run_memfd|]. intros [x|f]; [apply hoare_ret; naive_solver|].
  apply hoare_ghost. intros ? [<- Hf]. eapply hoare_bind with (R := fun _ F' => F = F'); [|intros []; apply hoare_ret; by auto].
  apply hoare_ignore. eapply hoare_conseq; [apply (hoare_inspect_ok (eq F) _ (fun _ => eq F))|..]; try done. intros F' <-. by exists tt.
Qed.

Lemma observes_executeExistingCache :
  observes (executeExistingCache process page abs limits_at selfPath selfName ve args baseEnv hostInfo policyRes).
Proof using Hquiet.
  unfold executeExistingCache. destruct (negb _); [apply observes_ret|].
  apply observes_bind; [apply observes_try, observes_resolveCacheDirFD; done|]. intros [[dirFD cacheDir]|e]; [|apply observes_ret].
  destruct (dirFD <? 0); [apply observes_ret|].
  assert (forall A cleanup (m : io (execution + A)), observes cleanup -> observes m -> observes (unless_executed cleanup m)) as Hunless.
  { intros A cleanup m Hc Hm. unfold unless_executed. observe. }
  apply Hunless; [unfold sys_close; observe|]. apply observes_bind.
  - apply observes_try. unfold OpenAndValidateVariantAtFD, OpenAndValidateAtFD. intros F0.
    eapply hoare_conseq; [apply (hoare_open_and_validate Hquiet F0 _ _ _ _ False (False_ind _) (False_ind _))|..]; try done;
      naive_solver.
  - intros [fd|e]; [|apply observes_ret]. apply observes_bind; [by intros F0 w Hw|]. intros env.
    apply observes_bind; [|intros; apply observes_ret]. unfold exec_cached. apply Hunless; [unfold sys_close; observe|].
    unfold execve_fd. observe.
Qed.

Lemma hoare_executeVariant_damaged e :
  (extractVariantToWriter self ve idx F).2 = Some e -> resolveRequestedExecMode process = ExecModeAuto ->
  hoare (eq F) (executeVariant process page abs limits_at selfPath selfName self ve idx args baseEnv hostInfo policyRes)
    (fun _ F' => F = F') (fun _ F' => F = F') (eq F).
Proof using Hquiet Hcalm.
  intros He Hmode. unfold executeVariant. rewrite Hmode. cbn [String.eqb].
  change (String.eqb ExecModeAuto ExecModeCache) with false. change (String.eqb ExecModeAuto ExecModeMemfd) with false. cbv iota.
  eapply hoare_bind; [apply observes_executeExistingCache|]. intros [x|[hit cacheErr]]; [by apply hoare_ret|].
  cbv zeta. destruct (match cacheErr with Some f => _ | None => _ end); [by apply hoare_ret|].
  eapply hoare_bind; [eapply hoare_conseq; [apply hoare_executeViaMemfd|..]; done|].
  intros r. apply hoare_ghost. intros ? [<- Hr].
  assert (exists e, r = inr (Wrapped e) /\ refusal e) as (e' & -> & Hrefuse).
  { destruct Hr as [Hr|(e' & -> & ? & _)]; [|eauto]. unfold memory_outcome in Hr. rewrite He in Hr. subst r.
    eexists. split; [done|]. unfold refusal, isPayloadCorruptionOrDecompressionError. by rewrite orb_true_r. }
  cbn [failure_tags]. destruct hit; [by apply hoare_ret|]. unfold refusal in Hrefuse. rewrite Hrefuse. by apply hoare_ret.
Qed.

End faultless.

(** ** Launching a verified file *)

Lemma FindVariant_elem {GU : GoUnicode} idx level ve : FindVariant idx level = Some ve -> ve ∈ Variants idx.
Proof.
  unfold FindVariant. intros Hf. apply list_elem_of_In. eapply find_some, Hf.
Qed.

Section liveness.
Context `{Kernel} (Hquiet : quiet) (Hcalm : faultless) {GU : GoUnicode} {GF : GoFloat} {D : Decoders}.
Context (process : list string) (page : Z) (abs : string -> option string) (limits_at : nat -> outcome cgroup_err Limits).
Context (handleMetaCommand : string -> Z -> Z -> Index -> option VariantEntry -> io (option (option failure))).
Context (privileges : Privileges) (skylake : bool) (hostInfo : Info) `{SliceSort}.
Context (F : fs).

Abbreviation never := (fun (_ : gerror) (_ : fs) => False).
Abbreviation nowhere := (fun _ : fs => False).

Lemma hoare_inputfile_Open_ok path self a :
  file_at F (filepath_Clean path) self -> f_attr F !! self = Some a -> a_data a <> [] ->
  hoare (eq F) (inputfile_Open path) (fun self' F' => F = F' /\ self' = self) never nowhere.
Proof using Hquiet Hcalm.
  intros [(l & Hl & Hi) Hf] Ha Hne. unfold inputfile_Open.
  eapply hoare_bind with (R := fun self' F' => F = F' /\ self' = self).
  { apply hoare_inspect_ok; [done..|]. intros F' <-. exists self. cbn [negb]. rewrite Hl. cbn. unfold found. rewrite Hi. cbn. by rewrite Hf. }
  intros self'. apply hoare_ghost. intros ? [<- ->].
  eapply hoare_bind with (R := fun r F' => F = F' /\ r = inl (Vfs.mkInfo self TFile a (nlink (f_tree F) self))).
  { apply hoare_try_inspect_ok; [done..|]. intros F' <-. unfold info_of. rewrite Hf, Ha. by eexists. }
  intros r. apply hoare_ghost. intros ? [<- ->]. cbn [fi_node]. unfold fi_size. cbn.
  destruct (a_data a); [done|]. cbn. by apply hoare_ret.
Qed.

(** A command line the launcher does not take for itself. *)
Definition passes_on (args : list string) (self : Z) (idx : Index) (ve : VariantEntry) : Prop :=
  forall arg0 arg1 rest statSize, args = arg0 :: arg1 :: rest -> handleMetaCommand arg1 self statSize idx (Some ve) = mret None.

Lemma hoare_runImage_ok selfPath imagePath args self idx policyRes ve a ps :
  checkLauncherPrivilege privileges = Ok tt -> file_at F (filepath_Clean (filepath_Clean imagePath)) self ->
  f_attr F !! self = Some a -> a_data a <> [] -> selected process skylake hostInfo (a_data a) idx policyRes ve ->
  extractVariantToWriter self ve (Some idx) F = (ps, None) -> within_budget limits_at ve (Some idx) ->
  resolveRequestedExecMode process = ExecModeMemfd -> passes_on args self idx ve ->
  hoare (eq F) (runImage process page abs limits_at handleMetaCommand privileges skylake hostInfo selfPath imagePath args)
    (fun r F' => F = F' /\ exists x, r = Executed x) never nowhere.
Proof using Hquiet Hcalm.
  intros Hpriv Hat Ha Hne (Hread & Hsel & Hfind) Hex Hbudget Hmode Hpass.
  destruct (Hat) as [_ Hf].
  unfold runImage. rewrite Hpriv. eapply hoare_bind with (R := fun r F' => F = F' /\ r = inl self).
  { apply hoare_try. eapply hoare_conseq; [by eapply hoare_inputfile_Open_ok|..]; try done. by intros r F' [<- ->]. }
  intros r. apply hoare_ghost. intros ? [<- ->].
  eapply hoare_bind with (R := fun r F' => F = F' /\ exists x, r = inl x).
  2: { intros r. apply hoare_ret. intros F' [<- [x ->]]. eauto. }
  unfold unless_executed. eapply hoare_bind with (R := fun r F' => F = F' /\ exists x, r = inl x).
  2: { intros r. apply hoare_ghost. intros ? [<- [x ->]]. apply hoare_ret. eauto. }
  unfold run_opened. eapply hoare_bind with (R := fun r F' => F = F' /\ r = inl (Vfs.mkInfo self TFile a (nlink (f_tree F) self))).
  { apply hoare_try_inspect_ok; [done..|]. intros F' <-. unfold info_of. rewrite Hf, Ha. by eexists. }
  intros r. apply hoare_ghost. intros ? [<- ->]. eapply hoare_bind with (R := fun F1 F' => F = F' /\ F1 = F).
  { apply hoare_inspect_ok; [done..|]. intros F' <-. by eexists. }
  intros F1. apply hoare_ghost. intros ? [<- ->]. unfold image, fi_size. rewrite Ha. cbn. rewrite Hread, Hsel, Hfind.
  assert (forall statSize (k : io (execution + option failure)),
    hoare (eq F) k (fun r F' => F = F' /\ exists x, r = inl x) never nowhere ->
    hoare (eq F) (meta_or handleMetaCommand args self statSize idx (Some ve) k) (fun r F' => F = F' /\ exists x, r = inl x) never nowhere) as Hmeta.
  { intros statSize k Hk. unfold meta_or. destruct args as [|? [|arg1 rest]]; [done..|].
    rewrite (Hpass _ _ _ _ eq_refl). intros w Hw. exact (Hk w Hw). }
  apply Hmeta. unfold executeVariant. rewrite Hmode. change (String.eqb ExecModeMemfd ExecModeCache) with false.
  rewrite String.eqb_refl. cbv iota. eapply hoare_bind; [by apply hoare_executeViaMemfd|].
  intros r. apply hoare_ghost. intros ? [<- Hr]. apply hoare_ret. intros F' <-. split; [done|].
  destruct Hr as [Hr|(e & _ & _ & Hover)]; [|by destruct Hover]. unfold memory_outcome in Hr. rewrite Hex in Hr. destruct Hr as [x ->]. eauto.
Qed.

End liveness.

(** ** The launcher's contract *)

Section contract.
Context `{Kernel} {GU : GoUnicode} {GF : GoFloat} {D : Decoders}.
Context (process : list string) (page : Z) (abs : string -> option string) (limits_at : nat -> outcome cgroup_err Limits).
Context (handleMetaCommand : string -> Z -> Z -> Index -> option VariantEntry -> io (option (option failure))).
Context (privileges : Privileges) (skylake : bool) (hostInfo : Info) `{SliceSort}.

Abbreviation launcher := (runImage process page abs limits_at handleMetaCommand privileges skylake hostInfo).

(** C3. Whatever calls fail and whatever the launcher's own commands do: a program that is
    started has passed the privilege check and is the variant the policy selects from the index
    of the launcher's file, with the recorded size and SHA-256, the arguments as given and an
    environment built for the way it is started, and a program in memory is sealed. *)
Theorem launched_program_verified (selfPath imagePath : string) (args : list string) (w w' : world) (x : execution) :
  quiet -> launcher selfPath imagePath args w = (Done (Executed x), w') ->
  checkLauncherPrivilege privileges = Ok tt /\
  exists self idx policyRes ve,
    file_at (w_fs w) (filepath_Clean (filepath_Clean imagePath)) self /\
    selected process skylake hostInfo (image self (w_fs w)) idx policyRes ve /\
    genuine process page abs limits_at selfPath (filepath_Clean imagePath) ve args (os_Environ process) hostInfo policyRes x.
Proof.
  intros Hq Hrun. pose proof (hoare_runImage process page abs limits_at handleMetaCommand privileges skylake hostInfo
    Hq (w_fs w) selfPath imagePath args w eq_refl) as Hr. rewrite Hrun in Hr.
  destruct Hr as (Hp & self & Hat & idx & policyRes & ve & Hsel & Hg). split; [done|]. by exists self, idx, policyRes, ve.
Qed.

(** C13. When verification reports every variant of a file valid, no call fails, the process is
    not privileged, the memory limits leave room and the mode is [memfd], the launcher starts
    the selected variant and leaves the file system as it was. *)
Theorem verified_file_launches (selfPath imagePath : string) (args : list string) (w : world) (self : Z) (idx : Index)
    (results : list VerificationResult) (policyRes : PolicyResult) (ve : VariantEntry) :
  let file := image self (w_fs w) in
  quiet -> faultless -> checkLauncherPrivilege privileges = Ok tt ->
  file_at (w_fs w) (filepath_Clean (filepath_Clean imagePath)) self -> int64_range (Z.of_nat (length file)) ->
  VerifyBinary file (Z.of_nat (length file)) = Ok (idx, results) -> Forall (fun res => Valid res = true) results ->
  selected process skylake hostInfo file idx policyRes ve -> within_budget limits_at ve (Some idx) ->
  resolveRequestedExecMode process = ExecModeMemfd -> passes_on handleMetaCommand args self idx ve ->
  exists x w', launcher selfPath imagePath args w = (Done (Executed x), w') /\ w_fs w' = w_fs w.
Proof.
  intros file Hq Hc Hp Hat Hr Hv Hall Hsel Hbudget Hmode Hpass. destruct (Hsel) as (_ & _ & Hfind).
  destruct (verified_entries _ _ _ _ Hr Hv) as (dict & Hdict & Hread & Hpos & Hto & Hfrom).
  apply FindVariant_elem in Hfind. destruct (Hto ve Hfind) as (Hs & Hd & res & Hin & He).
  destruct (Hfrom res Hin) as [_ Hres]. rewrite He in Hres. rewrite Forall_forall in Hall.
  apply (verified_extracts _ _ _ _ _ _ Hs Hd Hdict) in Hres as [Hex _]. destruct (Hex (Hall _ Hin)) as [ps Hps].
  unfold file, image in *. destruct (f_attr (w_fs w) !! self) as [a|] eqn:Ha; [|cbn in Hpos; lia].
  assert (a_data a <> []) as Hne by (intros Ha0; rewrite Ha0 in Hpos; cbn in Hpos; lia).
  pose proof (hoare_runImage_ok Hq Hc process page abs limits_at handleMetaCommand privileges skylake hostInfo (w_fs w)
    selfPath imagePath args self idx policyRes ve a ps Hp Hat Ha Hne Hsel Hps Hbudget Hmode Hpass w eq_refl) as Hrun.
  destruct (launcher selfPath imagePath args w) as [[r|e|] w']; [|done..]. destruct Hrun as [-> [x ->]]. by exists x, w'.
Qed.

(** C14. In automatic mode a payload that does not decompress to the recorded bytes stops the
    launcher when no call fails: nothing is written to the file system, and what is started, if
    anything, is an intact program from the cache. *)
Theorem damaged_payload_stops (selfPath selfName : string) (self : Z) (ve : VariantEntry) (idx : option Index)
    (args baseEnv : list string) (policyRes : PolicyResult) (ps : list (list byte)) (e : gerror) (w : world) :
  quiet -> faultless -> extractVariantToWriter self ve idx (w_fs w) = (ps, Some e) ->
  resolveRequestedExecMode process = ExecModeAuto ->
  let '(r, w') := executeVariant process page abs limits_at selfPath selfName self ve idx args baseEnv hostInfo policyRes w in
  w_fs w' = w_fs w /\
  forall x, r = Done (inl x) -> genuine process page abs limits_at selfPath selfName ve args baseEnv hostInfo policyRes x.
Proof.
  intros Hq Hc He Hmode. pose proof (hoare_executeVariant_damaged Hq Hc process page abs limits_at selfPath selfName self ve idx
    args baseEnv hostInfo policyRes (w_fs w) e ltac:(by rewrite He) Hmode w eq_refl) as Hw.
  pose proof (sure_executeVariant process page abs limits_at selfPath selfName self ve idx args baseEnv hostInfo policyRes
    Hq w I) as Hg.
  destruct (executeVariant _ _ _ _ _ _ _ _ _ _ _ _ _ w) as [[r|e'|] w']; split; try done. by intros x [= ->].
Qed.

End contract.

(** ** A launcher on a concrete machine *)

Local Open Scope string_scope.

Definition launcher_disk : fs := mkFs
  (<[1 := TDir {["opt" := 2]}]> (<[2 := TDir {["app" := 3]}]> {[3 := TFile]}))
  (<[1 := plain_attr 493 []]> (<[2 := plain_attr 493 []]> {[3 := plain_attr 493 sample_file]})) ∅.

Definition plain_user : Privileges :=
  mkPrivileges 1000 1000 1000 1000 (Ok (auxv_bytes [(6, 4096); (AT_SECURE, 0)] ++ le_bytes 8 0 ++ le_bytes 8 0)%list) (Some ENODATA).

Definition sample_process : list string := ["MICROFAT_EXEC_MODE=memfd"; "PATH=/usr/bin"].

Definition sample_machine : Info := MicroarchFeatures.mkInfo "linux" "amd64" "v3" [] [].

Abbreviation sample_launcher F :=
  (@runImage calm_kernel ascii_tables amd64_float no_decoders sample_process 4096 Some (fun _ => Ok sample_limits)
    (fun arg1 _ _ _ _ => mret (minimal_handleMetaCommand arg1)) plain_user false sample_machine merge_slice_sort
    "/opt/app" "/opt/app" ["app"; "serve"] (sample_world F)).

Lemma launcher_image : image 3 launcher_disk = sample_file.
Proof. vm_compute. reflexivity. Qed.

Lemma sample_size : int64_range (Z.of_nat (length sample_file)).
Proof. vm_compute. split; [discriminate|reflexivity]. Qed.

Definition sample_reports : list VerificationResult :=
  (fun v => mkVerified v (SHA256 v) None) <$> Variants sample_index.

Lemma sample_reports_valid :
  @VerifyBinary ascii_tables _ _ no_decoders sample_file (Z.of_nat (length sample_file)) = Ok (sample_index, sample_reports).
Proof. vm_compute. reflexivity. Qed.

(** The program the sample launcher starts. *)
Definition sample_execution : execution :=
  match (sample_launcher launcher_disk).1 with Done (Executed x) => x | _ => mkExecution [] 0 [] [] end.

Lemma sample_launches : sample_launcher launcher_disk = (Done (Executed sample_execution), (sample_launcher launcher_disk).2).
Proof.
  assert ((sample_launcher launcher_disk).1 = Done (Executed sample_execution)) as <- by (vm_compute; reflexivity).
  apply surjective_pairing.
Qed.

Lemma launched_program_verified_witness :
  @checkLauncherPrivilege plain_user = Ok tt /\
  exists self idx policyRes ve,
    @file_at calm_kernel launcher_disk (filepath_Clean (filepath_Clean "/opt/app")) self /\
    @selected ascii_tables sample_process false sample_machine merge_slice_sort (image self launcher_disk) idx policyRes ve /\
    @genuine ascii_tables amd64_float sample_process 4096 Some (fun _ => Ok sample_limits) "/opt/app"
      (filepath_Clean "/opt/app") ve ["app"; "serve"] (os_Environ sample_process) sample_machine policyRes sample_execution.
Proof.
  apply (@launched_program_verified calm_kernel ascii_tables amd64_float no_decoders sample_process 4096 Some (fun _ => Ok sample_limits)
    (fun arg1 _ _ _ _ => mret (minimal_handleMetaCommand arg1)) plain_user false sample_machine merge_slice_sort
    "/opt/app" "/opt/app" ["app"; "serve"] (sample_world launcher_disk) (sample_launcher launcher_disk).2 sample_execution).
  - apply kernel_with_quiet.
  - exact sample_launches.
Defined.

Lemma extraction_agrees_with_verify_witness :
  exists ps, @extractVariantToWriter ascii_tables no_decoders 3 sample_v3 (Some sample_index) launcher_disk = (ps, None).
Proof.
  destruct (@extraction_agrees_with_verify ascii_tables no_decoders 3 launcher_disk (Z.of_nat (length sample_file))
    sample_index sample_reports (mkVerified sample_v3 (SHA256 sample_v3) None)) as [[Hex _] _].
  - apply sample_size.
  - rewrite launcher_image. apply sample_reports_valid.
  - right. left.
  - by apply Hex.
Defined.

Lemma verified_file_launches_witness :
  exists x w', sample_launcher launcher_disk = (Done (Executed x), w') /\ w_fs w' = launcher_disk.
Proof.
  apply (@verified_file_launches calm_kernel ascii_tables amd64_float no_decoders sample_process 4096 Some (fun _ => Ok sample_limits)
    (fun arg1 _ _ _ _ => mret (minimal_handleMetaCommand arg1)) plain_user false sample_machine merge_slice_sort
    "/opt/app" "/opt/app" ["app"; "serve"] (sample_world launcher_disk) 3 sample_index sample_reports
    (mkResult "amd64_v3" "" "") sample_v3); cbn [w_fs sample_world]; rewrite ?launcher_image.
  - apply kernel_with_quiet.
  - by intros n.
  - vm_compute. reflexivity.
  - split; [eexists; split|]; vm_compute; reflexivity.
  - apply sample_size.
  - apply sample_reports_valid.
  - by repeat constructor.
  - split_and!; vm_compute; reflexivity.
  - intros w. vm_compute. reflexivity.
  - vm_compute. reflexivity.
  - by intros arg0 arg1 rest statSize [= _ <- _].
Defined.

(** The same file with one byte of a payload changed. *)
Definition damaged_disk : fs := mkFs (f_tree launcher_disk)
  (<[3 := plain_attr 493 (<[8%nat := x00]> sample_file)]> (f_attr launcher_disk)) ∅.

Lemma damaged_payload_stops_witness :
  w_fs (@executeVariant calm_kernel ascii_tables amd64_float no_decoders ["PATH=/usr/bin"] 4096 Some (fun _ => Ok sample_limits)
    "/opt/app" "/opt/app" 3 sample_v3 (Some sample_index) ["app"] ["PATH=/usr/bin"] sample_machine (mkResult "amd64_v3" "" "")
    (sample_world damaged_disk)).2 = damaged_disk.
Proof.
  pose proof (@damaged_payload_stops calm_kernel ascii_tables amd64_float no_decoders ["PATH=/usr/bin"] 4096 Some
    (fun _ => Ok sample_limits) sample_machine "/opt/app" "/opt/app" 3 sample_v3 (Some sample_index) ["app"] ["PATH=/usr/bin"]
    (mkResult "amd64_v3" "" "") [[x61; x00; x63]] ErrPayloadCorrupted (sample_world damaged_disk)
    (kernel_with_quiet _) (fun _ => eq_refl) ltac:(vm_compute; reflexivity) ltac:(vm_compute; reflexivity)) as Hr.
  destruct (executeVariant _ _ _ _ _ _ _ _ _ _ _ _ _ _) as [r w']. apply Hr.
Defined.
