(* ===== verification/Abi.v ===== *)
(** * ELF ABI inspection ([internal/pack/abi.go], first half)

    What a packed program declares about its surroundings, read from its ELF
    file: linkage, interpreter, needed libraries, symbol versions.  The file is
    not trusted, so every table is charged to budgets, per input and for the
    whole artifact, before it is read.  Inspection is in a monad that keeps the
    accounts also where it fails, and counts the bytes asked of the reader. *)

From S2P Require Import Prelude GoStrings GoIO MicroarchSelect.
From stdpp Require Import base list strings gmap.
From Stdlib Require Import ZArith Lia Strings.Ascii Strings.Byte.

Local Open Scope Z_scope.

(** [OtherError] is an error without a sentinel. *)
Inductive abi_err :=
| ErrInvalidELF
| ErrABIMetadata
| ErrABIResourceLimit
| OtherError.

(** ** Budgets *)

Definition MaxProgramHeaders : Z := 4096.
Definition MaxSectionHeaders : Z := 65536.
Definition MaxInterpreterSize : Z := 4 * 1024.
Definition MaxDynamicEntries : Z := 65536.
Definition MaxABIStringBytesPerInput : Z := 8 * 1024 * 1024.
Definition MaxVersionRecordsPerInput : Z := 65536.
Definition MaxMetadataBytesPerInput : Z := 32 * 1024 * 1024.
Definition MaxArtifactMetadataBytes : Z := 256 * 1024 * 1024.
Definition minELFHeaderSize : Z := 64.
Definition minProgramHeaderSize : Z := 56.
Definition minSectionHeaderSize : Z := 64.
Definition dynamicEntrySize : Z := 16.
Definition verneedEntrySize : Z := 16.
Definition vernauxEntrySize : Z := 16.

(** [ArtifactMetadataAccounting]; [nil] is [None] where it is optional. *)
Record ArtifactMetadataAccounting := mkShared { am_maxBytes : Z; am_usedBytes : Z }.

Definition NewArtifactMetadataAccounting (maxBytes : Z) : ArtifactMetadataAccounting :=
  mkShared (if maxBytes =? 0 then MaxArtifactMetadataBytes else maxBytes) 0.

Definition am_check (a : ArtifactMetadataAccounting) (n : Z) : outcome abi_err unit :=
  if (am_maxBytes a <? n) || (u64_sub (am_maxBytes a) n <? am_usedBytes a) then Err ErrABIResourceLimit else Ok tt.

Definition am_commit (a : ArtifactMetadataAccounting) (n : Z) : ArtifactMetadataAccounting :=
  mkShared (am_maxBytes a) (u64_add (am_usedBytes a) n).

Definition am_remaining (a : ArtifactMetadataAccounting) : Z :=
  let limit := if am_maxBytes a =? 0 then MaxArtifactMetadataBytes else am_maxBytes a in
  if limit <=? am_usedBytes a then 0 else limit - am_usedBytes a.

Definition am_refund (a : ArtifactMetadataAccounting) (n : Z) : ArtifactMetadataAccounting :=
  mkShared (am_maxBytes a) (if am_usedBytes a <? n then 0 else am_usedBytes a - n).

Record inputAccounting := mkAccount {
  shared : option ArtifactMetadataAccounting;
  maxMetadataBytes : Z;
  maxStringBytes : Z;
  maxStringScanBytes : Z;
  maxVersionRecords : Z;
  metadataBytesRead : Z;
  stringScanBytesRead : Z;
  retainedStringBytes : Z;
  versionRecords : Z
}.

Definition default_to (limit default : Z) : Z := if limit =? 0 then default else limit.

Definition metadata_limit (acc : inputAccounting) : Z := default_to (maxMetadataBytes acc) MaxMetadataBytesPerInput.
Definition string_limit (acc : inputAccounting) : Z := default_to (maxStringBytes acc) MaxABIStringBytesPerInput.
Definition scan_limit (acc : inputAccounting) : Z := default_to (maxStringScanBytes acc) (string_limit acc).
Definition record_limit (acc : inputAccounting) : Z := default_to (maxVersionRecords acc) MaxVersionRecordsPerInput.

Definition checkMetadata (acc : inputAccounting) (n : Z) : outcome abi_err unit :=
  let limit := metadata_limit acc in
  if (limit <? n) || (u64_sub limit n <? metadataBytesRead acc) then Err ErrABIResourceLimit
  else match shared acc with Some a => am_check a n | None => Ok tt end.

(** [n] more bytes of metadata; [scan] of them count as scanned text too. *)
Definition add_metadata (acc : inputAccounting) (n scan : Z) : inputAccounting :=
  mkAccount ((fun a => am_commit a n) <$> shared acc) (maxMetadataBytes acc) (maxStringBytes acc) (maxStringScanBytes acc)
    (maxVersionRecords acc) (u64_add (metadataBytesRead acc) n) (u64_add (stringScanBytesRead acc) scan)
    (retainedStringBytes acc) (versionRecords acc).

Definition chargeMetadata (acc : inputAccounting) (n : Z) : outcome abi_err inputAccounting :=
  _ ← checkMetadata acc n; Ok (add_metadata acc n 0).

Definition remainingMetadataBudget (acc : inputAccounting) : Z :=
  let limit := metadata_limit acc in
  if limit <=? metadataBytesRead acc then 0 else limit - metadataBytesRead acc.

Definition checkStringScan (acc : inputAccounting) (n : Z) : outcome abi_err unit :=
  let limit := scan_limit acc in
  if (limit <? n) || (u64_sub limit n <? stringScanBytesRead acc) then Err ErrABIResourceLimit else Ok tt.

Definition checkAndChargeStringScan (acc : inputAccounting) (n : Z) : outcome abi_err inputAccounting :=
  _ ← checkStringScan acc n; _ ← checkMetadata acc n; Ok (add_metadata acc n n).

Definition remainingStringScanBudget (acc : inputAccounting) : Z :=
  let limit := scan_limit acc in
  if limit <=? stringScanBytesRead acc then 0 else limit - stringScanBytesRead acc.

Definition refundAllStringScan (acc : inputAccounting) (n : Z) : inputAccounting :=
  mkAccount ((fun a => am_refund a n) <$> shared acc) (maxMetadataBytes acc) (maxStringBytes acc) (maxStringScanBytes acc)
    (maxVersionRecords acc)
    (if metadataBytesRead acc <? n then 0 else metadataBytesRead acc - n)
    (if stringScanBytesRead acc <? n then 0 else stringScanBytesRead acc - n)
    (retainedStringBytes acc) (versionRecords acc).

Definition chargeString (acc : inputAccounting) (n : Z) : outcome abi_err inputAccounting :=
  let limit := string_limit acc in
  if (limit <? n) || (u64_sub limit n <? retainedStringBytes acc) then Err ErrABIResourceLimit
  else Ok (mkAccount (shared acc) (maxMetadataBytes acc) (maxStringBytes acc) (maxStringScanBytes acc) (maxVersionRecords acc)
    (metadataBytesRead acc) (stringScanBytesRead acc) (u64_add (retainedStringBytes acc) n) (versionRecords acc)).

Definition chargeVersionRecord (acc : inputAccounting) : outcome abi_err inputAccounting :=
  if record_limit acc <=? versionRecords acc then Err ErrABIResourceLimit
  else Ok (mkAccount (shared acc) (maxMetadataBytes acc) (maxStringBytes acc) (maxStringScanBytes acc) (maxVersionRecords acc)
    (metadataBytesRead acc) (stringScanBytesRead acc) (retainedStringBytes acc) (u64_add (versionRecords acc) 1)).

(** ** Metered code *)

(** The account, and the bytes asked of the reader so far. *)
Record meter := mkMeter { account : inputAccounting; bytes_asked : Z }.

Definition metered (A : Type) : Type := meter -> outcome abi_err A * meter.

Global Instance metered_ret : MRet metered := fun A a s => (Ok a, s).
Global Instance metered_bind : MBind metered := fun A B k m s =>
  match m s with
  | (Ok a, s) => k a s
  | (Err e, s) => (Err e, s)
  | (Panic, s) => (Panic, s)
  end.

Definition lift {A} (m : outcome abi_err A) : metered A := fun s => (m, s).
Definition refuse {A} (e : abi_err) : metered A := lift (Err e).

(** An operation on the account. *)
Definition charge (f : inputAccounting -> outcome abi_err inputAccounting) : metered unit := fun s =>
  match f (account s) with
  | Ok acc => (Ok tt, mkMeter acc (bytes_asked s))
  | Err e => (Err e, s)
  | Panic => (Panic, s)
  end.

Definition accounted : metered inputAccounting := fun s => (Ok (account s), s).

(** ** Reading *)

Inductive ByteOrder := LittleEndian | BigEndian.

(** [order.Uint16], [Uint32] or [Uint64], by the number of bytes. *)
Definition Uint (order : ByteOrder) (b : list byte) : Z :=
  match order with LittleEndian => le_val b | BigEndian => le_val (reverse b) end.

Definition field (order : ByteOrder) (data : list byte) (lo hi : nat) : metered Z :=
  lift (b ← go_slice data lo hi; Ok (Uint order b)).

Section inspect.
Context `{ReaderAt R}.

Definition readIntoAt (r : R) (n : nat) (off : Z) : metered (list byte) :=
  if (n =? 0)%nat then mret []
  else if (MaxInt64 <? off) || (MaxInt64 <? Z.of_nat n) || (MaxInt64 - Z.of_nat n <? off) then refuse ErrABIMetadata
  else fun s =>
    (match ReadAt r n off with Some data => Ok data | None => Err ErrABIMetadata end,
     mkMeter (account s) (bytes_asked s + Z.of_nat n)).

Definition readExactAt (r : R) (off size : Z) : metered (list byte) :=
  if size =? 0 then mret []
  else if (MaxInt64 <? off) || (MaxInt64 <? size) || (MaxInt64 - size <? off) then refuse ErrABIMetadata
  else readIntoAt r (Z.to_nat size) off.

(** ** Strings *)

Definition stringScanChunkSize : Z := 64.

Definition IndexByte (data : list byte) (b : byte) : option nat := fst <$> list_find (eq b) data.

(** One round reads a piece of the table; [fuel] is its length, and a round
    advances. *)
Fixpoint scan_string (fuel : nat) (strtab : list byte) (curr scanned : Z) : metered (option Z) :=
  let strtabSize := Z.of_nat (length strtab) in
  if negb (curr <? strtabSize) then mret None
  else
    match fuel with
    | O => lift Panic
    | S fuel =>
        acc ← accounted;
        let wantScan := Z.min stringScanChunkSize (strtabSize - curr) in
        let remShared := match shared acc with Some a => am_remaining a | None => MaxUint64 end in
        let toCharge := Z.min (Z.min wantScan (remainingStringScanBudget acc)) (Z.min (remainingMetadataBudget acc) remShared) in
        if toCharge =? 0 then _ ← charge (fun acc => checkAndChargeStringScan acc 1); mret (Some (-1))
        else
          _ ← charge (fun acc => checkAndChargeStringScan acc toCharge);
          piece ← lift (go_slice strtab (Z.to_nat curr) (Z.to_nat (curr + toCharge)));
          match IndexByte piece x00 with
          | Some idx =>
              let bytesScanned := Z.of_nat idx + 1 in
              _ ← (if bytesScanned <? toCharge then charge (fun acc => Ok (refundAllStringScan acc (toCharge - bytesScanned)))
                   else mret tt);
              mret (Some (scanned + Z.of_nat idx))
          | None =>
              if toCharge <? wantScan then _ ← charge (fun acc => checkAndChargeStringScan acc 1); mret (Some (-1))
              else scan_string fuel strtab (curr + toCharge) (scanned + toCharge)
          end
    end.

(** [scan_string] gives the length of the string, [None] without a final zero,
    and [-1] where the code returns the empty string with the error of the last
    charge. *)
Definition scanBoundedCString (strtab : list byte) (off : Z) (requireNonEmpty : bool) : metered string :=
  if Z.of_nat (length strtab) <=? off then refuse ErrABIMetadata
  else
    found ← scan_string (length strtab) strtab off 0;
    match found with
    | None => refuse ErrABIMetadata
    | Some strLen =>
        if strLen =? -1 then mret ""%string
        else if requireNonEmpty && (strLen =? 0) then refuse ErrABIMetadata
        else
          _ ← charge (fun acc => chargeString acc strLen);
          s ← lift (go_slice strtab (Z.to_nat off) (Z.to_nat (off + strLen)));
          mret (string_of s)
    end.

(** ** Headers *)

Definition ELFCLASS64 : byte := x02.
Definition ELFDATA2LSB : byte := x01.
Definition ELFDATA2MSB : byte := x02.

Definition byte_eqb (a b : byte) : bool := bool_decide (a = b).

Definition validateELFHeaderMagicAndEncoding (data : list byte) : metered ByteOrder :=
  if Z.of_nat (length data) <? minELFHeaderSize then refuse ErrABIMetadata
  else
    m0 ← lift (go_index data 0); m1 ← lift (go_index data 1); m2 ← lift (go_index data 2); m3 ← lift (go_index data 3);
    if negb (byte_eqb m0 x7f) || negb (byte_eqb m1 x45) || negb (byte_eqb m2 x4c) || negb (byte_eqb m3 x46)
    then refuse ErrInvalidELF
    else
      class ← lift (go_index data 4);
      if negb (byte_eqb class ELFCLASS64) then refuse ErrInvalidELF
      else
        encoding ← lift (go_index data 5);
        version ← lift (go_index data 6);
        if byte_eqb encoding ELFDATA2LSB then
          if negb (byte_eqb version x01) then refuse ErrInvalidELF else mret LittleEndian
        else if byte_eqb encoding ELFDATA2MSB then
          if negb (byte_eqb version x01) then refuse ErrInvalidELF else mret BigEndian
        else refuse ErrInvalidELF.

Definition validateProgramHeaderTable (fileSize ePhoff ePhentsize ePhnum : Z) : metered unit :=
  if MaxProgramHeaders <? ePhnum then refuse ErrABIResourceLimit
  else if ePhnum =? 0 then mret tt
  else if ePhentsize <? minProgramHeaderSize then refuse ErrABIMetadata
  else if fileSize <? ePhoff then refuse ErrABIMetadata
  else
    let tableSize := u64_mul ePhentsize ePhnum in
    if u64_sub fileSize ePhoff <? tableSize then refuse ErrABIMetadata
    else charge (fun acc => chargeMetadata acc tableSize).

Definition sectionZeroShnumOff : Z := 32.
Definition sectionZeroShnumBytes : nat := 8.

Definition validateSectionHeaderTableReaderAt (r : R) (order : ByteOrder) (fileSize eShoff eShentsize eShnum : Z) : metered unit :=
  if eShoff =? 0 then mret tt
  else if eShentsize <? minSectionHeaderSize then refuse ErrABIMetadata
  else if fileSize <? eShoff then refuse ErrABIMetadata
  else if eShnum =? 0 then
    if u64_sub fileSize eShoff <? eShentsize then refuse ErrABIMetadata
    else
      shSizeBuf ← readIntoAt r sectionZeroShnumBytes (u64_add eShoff sectionZeroShnumOff);
      let realShnum := Uint order shSizeBuf in
      if MaxSectionHeaders <? realShnum then refuse ErrABIResourceLimit
      else if 0 <? realShnum then
        let extTableSize := u64_mul realShnum eShentsize in
        if u64_sub fileSize eShoff <? extTableSize then refuse ErrABIMetadata
        else charge (fun acc => chargeMetadata acc extTableSize)
      else mret tt
  else
    let tableSize := u64_mul eShnum eShentsize in
    if u64_sub fileSize eShoff <? tableSize then refuse ErrABIMetadata
    else charge (fun acc => chargeMetadata acc tableSize).

Definition preflightELFHeadersReaderAtWithAccounting (r : R) (fileSize : Z) : metered (list byte) :=
  if fileSize <? minELFHeaderSize then refuse ErrABIMetadata
  else
    _ ← charge (fun acc => chargeMetadata acc minELFHeaderSize);
    headerBuf ← readIntoAt r (Z.to_nat minELFHeaderSize) 0;
    order ← validateELFHeaderMagicAndEncoding headerBuf;
    eEhsize ← field order headerBuf 52 54;
    if (eEhsize <? minELFHeaderSize) || (fileSize <? eEhsize) then refuse ErrABIMetadata
    else
      ePhoff ← field order headerBuf 32 40;
      ePhentsize ← field order headerBuf 54 56;
      ePhnum ← field order headerBuf 56 58;
      _ ← validateProgramHeaderTable fileSize ePhoff ePhentsize ePhnum;
      eShoff ← field order headerBuf 40 48;
      eShentsize ← field order headerBuf 58 60;
      eShnum ← field order headerBuf 60 62;
      _ ← validateSectionHeaderTableReaderAt r order fileSize eShoff eShentsize eShnum;
      mret headerBuf.

(** ** Addresses *)

Record loadSegment := mkSegment { seg_off : Z; seg_vaddr : Z; seg_filesz : Z; seg_memsz : Z }.

(** The offset of the last segment that holds the address, with their number. *)
Fixpoint match_segments (loads : list loadSegment) (fileSize vaddr size : Z) (foundOffset : Z) (matchCount : nat) :
    outcome abi_err (Z * nat) :=
  match loads with
  | [] => Ok (foundOffset, matchCount)
  | seg :: rest =>
      if seg_filesz seg =? 0 then match_segments rest fileSize vaddr size foundOffset matchCount
      else if (seg_vaddr seg <=? vaddr) && (vaddr <? u64_add (seg_vaddr seg) (seg_filesz seg)) then
        let offsetInSeg := vaddr - seg_vaddr seg in
        if u64_sub (seg_filesz seg) offsetInSeg <? size then Err ErrABIMetadata
        else
          let fileOff := u64_add (seg_off seg) offsetInSeg in
          if (fileSize <? fileOff) || (u64_sub fileSize fileOff <? size) then Err ErrABIMetadata
          else match_segments rest fileSize vaddr size fileOff (S matchCount)
      else match_segments rest fileSize vaddr size foundOffset matchCount
  end.

Definition translateVaddr (loads : list loadSegment) (fileSize vaddr size : Z) : outcome abi_err Z :=
  if fileSize <? size then Err ErrABIMetadata
  else
    '(foundOffset, matchCount) ← match_segments loads fileSize vaddr size 0 0;
    match matchCount with
    | 1%nat => Ok foundOffset
    | _ => Err ErrABIMetadata
    end.

(** ** Program headers *)

Definition PT_LOAD : Z := 1.
Definition PT_DYNAMIC : Z := 2.
Definition PT_INTERP : Z := 3.

Record programs := mkPrograms {
  loads : list loadSegment;
  interpProg : option loadSegment;
  dynamicProg : option loadSegment
}.

Definition beyond_file (fileSize pOffset pFilesz : Z) : bool := (fileSize <? pOffset) || (u64_sub fileSize pOffset <? pFilesz).

(** One header of the table. *)
Definition program_header (p : programs) (fileSize pType pOffset pVaddr pFilesz pMemsz : Z) : outcome abi_err programs :=
  let seg := mkSegment pOffset pVaddr pFilesz pMemsz in
  if pType =? PT_LOAD then
    if (pMemsz <? pFilesz) || beyond_file fileSize pOffset pFilesz || (u64_sub MaxUint64 pVaddr <? pMemsz)
    then Err ErrABIMetadata
    else Ok (mkPrograms (loads p ++ [seg]) (interpProg p) (dynamicProg p))
  else if pType =? PT_INTERP then
    match interpProg p with
    | Some _ => Err ErrABIMetadata
    | None =>
        if MaxInterpreterSize <? pFilesz then Err ErrABIResourceLimit
        else if pFilesz =? 0 then Err ErrABIMetadata
        else if beyond_file fileSize pOffset pFilesz then Err ErrABIMetadata
        else Ok (mkPrograms (loads p) (Some seg) (dynamicProg p))
    end
  else if pType =? PT_DYNAMIC then
    if beyond_file fileSize pOffset pFilesz then Err ErrABIMetadata
    else Ok (mkPrograms (loads p) (interpProg p) (Some seg))
  else Ok p.

(** [n] headers of the table are left, from the [i]-th on. *)
Fixpoint program_headers (n i : nat) (phTable : list byte) (ePhentsize fileSize : Z) (order : ByteOrder) (p : programs) :
    metered programs :=
  match n with
  | O => mret p
  | S n =>
      ph ← lift (go_slice phTable (i * Z.to_nat ePhentsize) (length phTable));
      pType ← field order ph 0 4;
      pOffset ← field order ph 8 16;
      pVaddr ← field order ph 16 24;
      pFilesz ← field order ph 32 40;
      pMemsz ← field order ph 40 48;
      p ← lift (program_header p fileSize pType pOffset pVaddr pFilesz pMemsz);
      program_headers n (S i) phTable ePhentsize fileSize order p
  end.

Definition parseABIProgramHeaders (phTable : list byte) (ePhnum ePhentsize fileSize : Z) (order : ByteOrder) : metered programs :=
  program_headers (Z.to_nat ePhnum) 0 phTable ePhentsize fileSize order (mkPrograms [] None None).

(** ** The dynamic section *)

Definition DT_NULL : Z := 0.
Definition DT_NEEDED : Z := 1.
Definition DT_STRTAB : Z := 5.
Definition DT_STRSZ : Z := 10.
Definition DT_VERNEED : Z := 1879048190.
Definition DT_VERNEEDNUM : Z := 1879048191.

(** A tag with its value, where it occurred. *)
Record dynamicTags := mkTags {
  neededOffsets : list Z;
  strtabVaddr : option Z;
  strtabSize : option Z;
  verneedVaddr : option Z;
  verneedNum : option Z
}.

Definition conflicts (old : option Z) (v : Z) : bool := match old with Some o => negb (o =? v) | None => false end.

(** One entry; [None] ends the table. *)
Definition dynamic_entry (tags : dynamicTags) (dTag dVal : Z) : outcome abi_err (option dynamicTags) :=
  let '(mkTags needed vaddr size verneed num) := tags in
  if dTag =? DT_NULL then Ok None
  else if dTag =? DT_NEEDED then Ok (Some (mkTags (needed ++ [dVal]) vaddr size verneed num))
  else if dTag =? DT_STRTAB then
    if conflicts vaddr dVal then Err ErrABIMetadata else Ok (Some (mkTags needed (Some dVal) size verneed num))
  else if dTag =? DT_STRSZ then
    if conflicts size dVal then Err ErrABIMetadata else Ok (Some (mkTags needed vaddr (Some dVal) verneed num))
  else if dTag =? DT_VERNEED then
    if conflicts verneed dVal then Err ErrABIMetadata else Ok (Some (mkTags needed vaddr size (Some dVal) num))
  else if dTag =? DT_VERNEEDNUM then
    if conflicts num dVal then Err ErrABIMetadata else Ok (Some (mkTags needed vaddr size verneed (Some dVal)))
  else Ok (Some tags).

(** [n] entries are left, from the [i]-th on; a table that is not empty needs
    its end mark. *)
Fixpoint dynamic_entries (n i : nat) (dynBytes : list byte) (order : ByteOrder) (tags : dynamicTags) : metered dynamicTags :=
  match n with
  | O => if (i =? 0)%nat then mret tags else refuse ErrABIMetadata
  | S n =>
      let entryOff := (i * Z.to_nat dynamicEntrySize)%nat in
      dTag ← field order dynBytes entryOff (entryOff + 8);
      dVal ← field order dynBytes (entryOff + 8) (entryOff + 16);
      next ← lift (dynamic_entry tags dTag dVal);
      match next with
      | None => mret tags
      | Some tags => dynamic_entries n (S i) dynBytes order tags
      end
  end.

Definition scanDynamicEntriesBuf (dynBytes : list byte) (numDyn : Z) (order : ByteOrder) : metered dynamicTags :=
  dynamic_entries (Z.to_nat numDyn) 0 dynBytes order (mkTags [] None None None None).

Fixpoint needed_names (strtab : list byte) (offsets : list Z) : metered (list string) :=
  match offsets with
  | [] => mret []
  | off :: rest =>
      depName ← scanBoundedCString strtab off true;
      deps ← needed_names strtab rest;
      mret (depName :: deps)
  end.

(** [strtab[:strtabSize]] where it is longer. *)
Definition clip (strtab : list byte) (size : Z) : list byte :=
  if size <? Z.of_nat (length strtab) then take (Z.to_nat size) strtab else strtab.

Definition parseNeededDependencies (strtab : list byte) (size : Z) (offsets : list Z) : metered (list string) :=
  if MaxDynamicEntries <? Z.of_nat (length offsets) then refuse ErrABIResourceLimit
  else needed_names (clip strtab size) offsets.

Definition validateVersionTagPairing (tags : dynamicTags) : outcome abi_err unit :=
  match verneedVaddr tags, verneedNum tags with
  | Some _, None | None, Some _ => Err ErrABIMetadata
  | _, _ => Ok tt
  end.

Definition resolveDynamicStrtabReaderAt (r : R) (loads : list loadSegment) (fileSize : Z) (tags : dynamicTags) : metered (list byte) :=
  let needsStrtab :=
    match neededOffsets tags with [] => false | _ => true end ||
    match verneedVaddr tags with Some _ => 0 <? default 0 (verneedNum tags) | None => false end in
  if negb needsStrtab then mret []
  else
    match strtabVaddr tags, strtabSize tags with
    | Some vaddr, Some size =>
        if MaxABIStringBytesPerInput <? size then refuse ErrABIResourceLimit
        else
          _ ← charge (fun acc => chargeMetadata acc size);
          strtabOff ← lift (translateVaddr loads fileSize vaddr size);
          readExactAt r strtabOff size
    | _, _ => refuse ErrABIMetadata
    end.

(** ** Reports *)

Inductive LinkageForm := LinkageUnset | LinkageStatic | LinkageStaticPIE | LinkageDynamic | LinkageAmbiguous.

Inductive Completeness :=
| MetadataUnset
| MetadataComplete
| MetadataAbsent
| MetadataPartial
| MetadataUnsupported
| MetadataSkipped.

Record VersionRequirement := mkVersion { vr_Library : string; vr_Version : string; vr_Flags : Z }.

Record VariantABIReport := mkABIReport {
  ab_Level : string;
  ab_Path : string;
  ab_Class : string;
  ab_Type : string;
  ab_Machine : string;
  ab_Linkage : LinkageForm;
  ab_HasInterpreter : bool;
  ab_Interpreter : string;
  ab_Dependencies : list string;
  ab_VersionRequirements : list VersionRequirement;
  ab_Completeness : Completeness;
  ab_InspectionSource : string;
  ab_Warnings : list string
}.

Global Instance version_eq_dec : EqDecision VersionRequirement.
Proof. solve_decision. Defined.
Global Instance linkage_eq_dec : EqDecision LinkageForm.
Proof. solve_decision. Defined.
Global Instance completeness_eq_dec : EqDecision Completeness.
Proof. solve_decision. Defined.

(** ** Version requirements *)

Definition advanceELFRelativeOffset (currOff relOffset minOff maxOff entrySize : Z) : outcome abi_err Z :=
  if relOffset =? 0 then Err ErrABIMetadata
  else
    newOff ← (if Z.land relOffset 2147483648 =? 0 then Ok (u64_add currOff relOffset)
              else
                let neg := 4294967296 - relOffset in
                if currOff <? neg then Err ErrABIMetadata else Ok (currOff - neg));
    if (newOff <? minOff) || (maxOff <? u64_add newOff entrySize) then Err ErrABIMetadata else Ok newOff.

(** What the dynamic section adds to a report. *)
Record versions := mkVersions {
  vs_requirements : list VersionRequirement;
  vs_unsupported : bool;
  vs_warnings : list string
}.

(** [n] auxiliary entries are left after the current one. *)
Fixpoint vernaux_entries (n : nat) (r : R) (order : ByteOrder) (verneedOff availableBytes currVernauxOff parentVerneedOff : Z)
    (libName : string) (strtab : list byte) (visited : gset Z) (reqs : list VersionRequirement) :
    metered (list VersionRequirement) :=
  _ ← charge chargeVersionRecord;
  _ ← charge (fun acc => chargeMetadata acc vernauxEntrySize);
  let maxVernaux := u64_sub (u64_add verneedOff availableBytes) vernauxEntrySize in
  if (availableBytes <? vernauxEntrySize) || (currVernauxOff <? verneedOff) || (maxVernaux <? currVernauxOff)
  then refuse ErrABIMetadata
  else if (currVernauxOff <? u64_add parentVerneedOff verneedEntrySize) &&
          (parentVerneedOff <? u64_add currVernauxOff vernauxEntrySize) then refuse ErrABIMetadata
  else if bool_decide (currVernauxOff ∈ visited) then refuse ErrABIMetadata
  else
    auxBuf ← readIntoAt r (Z.to_nat vernauxEntrySize) currVernauxOff;
    vnaFlags ← field order auxBuf 4 6;
    vnaName ← field order auxBuf 8 12;
    vnaNext ← field order auxBuf 12 16;
    verName ← scanBoundedCString strtab vnaName true;
    let reqs := reqs ++ [mkVersion libName verName vnaFlags] in
    match n with
    | O => if negb (vnaNext =? 0) then refuse ErrABIMetadata else mret reqs
    | S n =>
        if vnaNext =? 0 then refuse ErrABIMetadata
        else
          nextOff ← lift (advanceELFRelativeOffset currVernauxOff vnaNext verneedOff (u64_add verneedOff availableBytes) vernauxEntrySize);
          vernaux_entries n r order verneedOff availableBytes nextOff parentVerneedOff libName strtab
            ({[currVernauxOff]} ∪ visited) reqs
    end.

Definition parseVernauxChainReaderAt (r : R) (order : ByteOrder) (verneedOff availableBytes currVernauxOff vnCnt parentVerneedOff : Z)
    (libName : string) (strtab : list byte) (size : Z) (reqs : list VersionRequirement) : metered (list VersionRequirement) :=
  match Z.to_nat vnCnt with
  | O => mret reqs
  | S n => vernaux_entries n r order verneedOff availableBytes currVernauxOff parentVerneedOff libName (clip strtab size) ∅ reqs
  end.

(** [last] is [recordIdx >= verneedNum - 1]. *)
Definition advanceVerneedOffset (last : bool) (currVerneedOff vnNext verneedOff availableBytes : Z) : outcome abi_err Z :=
  if negb last then
    if vnNext =? 0 then Err ErrABIMetadata
    else advanceELFRelativeOffset currVerneedOff vnNext verneedOff (u64_add verneedOff availableBytes) verneedEntrySize
  else if negb (vnNext =? 0) then Err ErrABIMetadata
  else Ok currVerneedOff.

Definition validateVerneedAuxOffset (vnCnt vnAux currVerneedOff verneedOff availableBytes : Z) : outcome abi_err unit :=
  if vnCnt =? 0 then Ok tt
  else if vnAux <? verneedEntrySize then Err ErrABIMetadata
  else
    let remBytes := u64_sub (u64_add verneedOff availableBytes) currVerneedOff in
    if (remBytes <? vernauxEntrySize) || (u64_sub remBytes vernauxEntrySize <? vnAux) then Err ErrABIMetadata else Ok tt.

Definition unsupported_warning (vnVersion : Z) : string := ("unsupported Elf64_Verneed version " ++ Itoa vnVersion)%string.

(** [n] records are left after the current one. *)
Fixpoint verneed_records (n : nat) (r : R) (order : ByteOrder) (verneedOff availableBytes currVerneedOff : Z)
    (strtab : list byte) (visited : gset Z) (vs : versions) : metered versions :=
  _ ← charge chargeVersionRecord;
  _ ← charge (fun acc => chargeMetadata acc verneedEntrySize);
  let maxVerneed := u64_sub (u64_add verneedOff availableBytes) verneedEntrySize in
  if (availableBytes <? verneedEntrySize) || (currVerneedOff <? verneedOff) || (maxVerneed <? currVerneedOff)
  then refuse ErrABIMetadata
  else if bool_decide (currVerneedOff ∈ visited) then refuse ErrABIMetadata
  else
    vnBuf ← readIntoAt r (Z.to_nat verneedEntrySize) currVerneedOff;
    vnVersion ← field order vnBuf 0 2;
    if negb (vnVersion =? 1) then
      let vnWarn := unsupported_warning vnVersion in
      _ ← charge (fun acc => chargeString acc (Z.of_nat (String.length vnWarn)));
      mret (mkVersions (vs_requirements vs) true (vs_warnings vs ++ [vnWarn]))
    else
      vnCnt ← field order vnBuf 2 4;
      vnFile ← field order vnBuf 4 8;
      vnAux ← field order vnBuf 8 12;
      vnNext ← field order vnBuf 12 16;
      _ ← lift (validateVerneedAuxOffset vnCnt vnAux currVerneedOff verneedOff availableBytes);
      libName ← scanBoundedCString strtab vnFile true;
      reqs ← (if 0 <? vnCnt then
                parseVernauxChainReaderAt r order verneedOff availableBytes (u64_add currVerneedOff vnAux) vnCnt currVerneedOff
                  libName strtab (Z.of_nat (length strtab)) (vs_requirements vs)
              else mret (vs_requirements vs));
      let vs := mkVersions reqs (vs_unsupported vs) (vs_warnings vs) in
      nextOff ← lift (advanceVerneedOffset (match n with O => true | S _ => false end) currVerneedOff vnNext verneedOff availableBytes);
      match n with
      | O => mret vs
      | S n => verneed_records n r order verneedOff availableBytes nextOff strtab ({[currVerneedOff]} ∪ visited) vs
      end.

(** What is left of the first segment that holds the address. *)
Fixpoint available_from (loads : list loadSegment) (vaddr : Z) : Z :=
  match loads with
  | [] => 0
  | seg :: rest =>
      if (seg_vaddr seg <=? vaddr) && (vaddr <? u64_add (seg_vaddr seg) (seg_filesz seg))
      then u64_sub (seg_filesz seg) (vaddr - seg_vaddr seg) else available_from rest vaddr
  end.

Definition parseVerneedReaderAt (r : R) (loads : list loadSegment) (fileSize : Z) (order : ByteOrder) (vaddr num : Z)
    (strtab : list byte) : metered versions :=
  if MaxVersionRecordsPerInput <? num then refuse ErrABIResourceLimit
  else
    _ ← (if 0 <? num then charge (fun acc => _ ← checkMetadata acc verneedEntrySize; Ok acc) else mret tt);
    verneedOff ← lift (translateVaddr loads fileSize vaddr verneedEntrySize);
    let availableBytes := available_from loads vaddr in
    match Z.to_nat num with
    | O => mret (mkVersions [] false [])
    | S n => verneed_records n r order verneedOff availableBytes verneedOff strtab ∅ (mkVersions [] false [])
    end.

(** What the dynamic section declares: libraries, and the versions where the
    section has them; the flag is set when the records were read. *)
Definition parseDynamicMetadataReaderAt (r : R) (dynamic : loadSegment) (loads : list loadSegment) (fileSize : Z)
    (order : ByteOrder) : metered (list string * option versions) :=
  if negb (seg_filesz dynamic mod dynamicEntrySize =? 0) then refuse ErrABIMetadata
  else
    let numDyn := seg_filesz dynamic / dynamicEntrySize in
    if MaxDynamicEntries <? numDyn then refuse ErrABIResourceLimit
    else
      _ ← charge (fun acc => chargeMetadata acc (seg_filesz dynamic));
      dynBytes ← readExactAt r (seg_off dynamic) (seg_filesz dynamic);
      tags ← scanDynamicEntriesBuf dynBytes numDyn order;
      _ ← lift (validateVersionTagPairing tags);
      strtab ← resolveDynamicStrtabReaderAt r loads fileSize tags;
      deps ← parseNeededDependencies strtab (default 0 (strtabSize tags)) (neededOffsets tags);
      match verneedVaddr tags, verneedNum tags with
      | Some vaddr, Some num =>
          if num =? 0 then mret (deps, None)
          else
            match strtabVaddr tags, strtabSize tags with
            | Some _, Some _ =>
                vs ← parseVerneedReaderAt r loads fileSize order vaddr num strtab;
                mret (deps, Some vs)
            | _, _ => refuse ErrABIMetadata
            end
      | _, _ => mret (deps, None)
      end.

Definition ET_DYN : Z := 3.

Definition ambiguous_warning : string := "payload declares dynamic dependencies but has no PT_INTERP".

(** The linkage, with the completeness and the warnings it leaves. *)
Definition classifyLinkage (hasInterpreter : bool) (deps : list string) (completeness : Completeness) (warnings : list string)
    (eType : Z) : LinkageForm * Completeness * list string :=
  if hasInterpreter then (LinkageDynamic, completeness, warnings)
  else
    match deps with
    | [] =>
        (if eType =? ET_DYN then LinkageStaticPIE else LinkageStatic,
         match completeness with MetadataUnsupported | MetadataPartial => completeness | _ => MetadataAbsent end, warnings)
    | _ => (LinkageAmbiguous, completeness, warnings ++ [ambiguous_warning])
    end.

(** Names of types and machines are [debug/elf]'s. *)
Context {SS : SliceSort} (Type_String Machine_String : Z -> string).

Definition version_less (a b : VersionRequirement) : bool :=
  if negb (String.eqb (vr_Library a) (vr_Library b)) then String.ltb (vr_Library a) (vr_Library b)
  else if negb (String.eqb (vr_Version a) (vr_Version b)) then String.ltb (vr_Version a) (vr_Version b)
  else vr_Flags a <? vr_Flags b.

(** The first occurrences. *)
Definition add_new (result : list VersionRequirement) (r : VersionRequirement) : list VersionRequirement :=
  if bool_decide (r ∈ result) then result else result ++ [r].

Definition normalizeVersionRequirements (reqs : list VersionRequirement) : list VersionRequirement :=
  if (length reqs <=? 1)%nat then reqs else sort_slice version_less (foldl add_new [] reqs).

(** The interpreter of the program, where it has one. *)
Definition read_interpreter (r : R) (interp : option loadSegment) : metered (option string) :=
  match interp with
  | None => mret None
  | Some seg =>
      _ ← charge (fun acc => chargeMetadata acc (seg_filesz seg));
      rawInterp ← readExactAt r (seg_off seg) (seg_filesz seg);
      match IndexByte rawInterp x00 with
      | None | Some O => refuse ErrABIMetadata
      | Some nulIdx =>
          _ ← charge (fun acc => chargeString acc (Z.of_nat nulIdx));
          path ← lift (go_slice rawInterp 0 nulIdx);
          mret (Some (string_of path))
      end
  end.

(** The header is the one the preflight read, so it is not read again. *)
Definition inspectELFABIReaderAtWithAccounting (r : R) (fileSize : Z) (header : list byte) : metered VariantABIReport :=
  encoding ← lift (go_index header 5);
  let order := if byte_eqb encoding ELFDATA2LSB then LittleEndian else BigEndian in
  eType ← field order header 16 18;
  eMachine ← field order header 18 20;
  ePhoff ← field order header 32 40;
  ePhentsize ← field order header 54 56;
  ePhnum ← field order header 56 58;
  phTable ← (if 0 <? ePhnum then readExactAt r ePhoff (u64_mul ePhnum ePhentsize) else mret []);
  p ← parseABIProgramHeaders phTable ePhnum ePhentsize fileSize order;
  interpreter ← read_interpreter r (interpProg p);
  '(source, deps, vs) ←
    match dynamicProg p with
    | None => mret ("program_headers"%string, [], None)
    | Some dynamic =>
        '(deps, vs) ← parseDynamicMetadataReaderAt r dynamic (loads p) fileSize order;
        mret ("program_headers/dynamic_metadata"%string, deps, vs)
    end;
  let hasInterpreter := match interpreter with Some _ => true | None => false end in
  let completeness :=
    match vs with Some vs => if vs_unsupported vs then MetadataUnsupported else MetadataComplete | None => MetadataAbsent end in
  let warnings := match vs with Some vs => vs_warnings vs | None => [] end in
  let requirements := match vs with Some vs => vs_requirements vs | None => [] end in
  let '(linkage, completeness, warnings) := classifyLinkage hasInterpreter deps completeness warnings eType in
  mret (mkABIReport "" "" "ELFCLASS64" (Type_String eType) (Machine_String eMachine) linkage hasInterpreter
    (default "" interpreter)%string deps (normalizeVersionRequirements requirements) completeness source warnings).

Definition new_account (shared : option ArtifactMetadataAccounting) : inputAccounting := mkAccount shared 0 0 0 0 0 0 0 0.

Definition InspectELFABI_metered (r : R) (fileSize : Z) : metered VariantABIReport :=
  header ← preflightELFHeadersReaderAtWithAccounting r fileSize;
  inspectELFABIReaderAtWithAccounting r fileSize header.

(** The report, and what the shared account holds afterwards. *)
Definition InspectELFABIReaderAtWithAccounting (r : R) (fileSize : Z) (sh : option ArtifactMetadataAccounting) :
    outcome abi_err VariantABIReport * option ArtifactMetadataAccounting :=
  let '(result, s) := InspectELFABI_metered r fileSize (mkMeter (new_account sh) 0) in
  (result, shared (account s)).

Definition InspectELFABIReaderAt (r : R) (fileSize : Z) : outcome abi_err VariantABIReport :=
  (InspectELFABIReaderAtWithAccounting r fileSize None).1.

Definition PreflightELFHeadersReaderAt (r : R) (fileSize : Z) : outcome abi_err unit :=
  match (preflightELFHeadersReaderAtWithAccounting r fileSize (mkMeter (new_account None) 0)).1 with
  | Ok _ => Ok tt
  | Err e => Err e
  | Panic => Panic
  end.

End inspect.

(** ** Files in memory *)

Definition PreflightELFHeaders (data : list byte) : outcome abi_err unit := PreflightELFHeadersReaderAt data (Z.of_nat (length data)).

Definition InspectELFABIWithAccounting {SS : SliceSort} (Type_String Machine_String : Z -> string) (data : list byte)
    (sh : option ArtifactMetadataAccounting) : outcome abi_err VariantABIReport * option ArtifactMetadataAccounting :=
  InspectELFABIReaderAtWithAccounting Type_String Machine_String data (Z.of_nat (length data)) sh.

Definition InspectELFABI {SS : SliceSort} (Type_String Machine_String : Z -> string) (data : list byte) : outcome abi_err VariantABIReport :=
  (InspectELFABIWithAccounting Type_String Machine_String data None).1.
