(* ===== verification/AbiBounds.v ===== *)
(** * Inspection stays within its budgets

    Whatever the file holds: no slice is out of range, no loop runs out of its
    bound, the accounts stay within their limits, and the bytes asked of the
    reader were charged before, but for eight of them.  [spends k k' m Q] says
    that [m], started with [k] bytes charged and not yet read, ends with [k']
    of them left and a result in [Q]. *)

From S2P Require Import Prelude GoStrings GoIO MicroarchSelect Abi.
From stdpp Require Import base list strings gmap.
From Stdlib Require Import ZArith Lia Strings.Ascii Strings.Byte.

Local Open Scope Z_scope.

(** ** Accounts within their limits *)

Definition shared_ok (sh : option ArtifactMetadataAccounting) : Prop :=
  match sh with Some a => uint64_range (am_maxBytes a) /\ 0 <= am_usedBytes a <= am_maxBytes a | None => True end.

Record budgeted (acc : inputAccounting) : Prop := {
  bg_metadata : 0 <= metadataBytesRead acc <= metadata_limit acc;
  bg_scan : 0 <= stringScanBytesRead acc <= scan_limit acc;
  bg_scan_metadata : stringScanBytesRead acc <= metadataBytesRead acc;
  bg_string : 0 <= retainedStringBytes acc <= string_limit acc;
  bg_records : 0 <= versionRecords acc <= record_limit acc;
  bg_limits : uint64_range (metadata_limit acc) /\ uint64_range (scan_limit acc) /\ uint64_range (string_limit acc) /\
              uint64_range (record_limit acc);
  bg_shared : shared_ok (shared acc)
}.

(** The limits, which no operation changes. *)
Definition same_limits (acc acc' : inputAccounting) : Prop :=
  metadata_limit acc' = metadata_limit acc /\ scan_limit acc' = scan_limit acc /\ string_limit acc' = string_limit acc /\
  record_limit acc' = record_limit acc.

(** Bytes that were charged other than for scanning text. *)
Definition charged (acc : inputAccounting) : Z := metadataBytesRead acc - stringScanBytesRead acc.

Lemma u64_sub_small a b : 0 <= b <= a -> uint64_range a -> u64_sub a b = a - b.
Proof. intros Hab [? ?]. unfold u64_sub. apply to_uint64_small. split; lia. Qed.

Lemma u64_add_small a b : 0 <= a -> 0 <= b -> a + b < 2 ^ 64 -> u64_add a b = a + b.
Proof. intros. unfold u64_add. apply to_uint64_small. split; lia. Qed.

Lemma am_check_ok a n :
  shared_ok (Some a) -> 0 <= n -> am_check a n = Ok tt -> shared_ok (Some (am_commit a n)) /\ n <= am_usedBytes (am_commit a n).
Proof.
  intros [Hr Hu] Hn. unfold am_check. destruct (_ || _) eqn:E; [done|]. intros _.
  apply orb_false_iff in E as [E1%Z.ltb_ge E2%Z.ltb_ge]. rewrite u64_sub_small in E2 by (done || lia).
  unfold am_commit, shared_ok; cbn. unfold uint64_range in *. rewrite u64_add_small by lia. lia.
Qed.

Lemma checkMetadata_ok acc n :
  budgeted acc -> 0 <= n -> checkMetadata acc n = Ok tt ->
  metadataBytesRead acc + n <= metadata_limit acc /\ shared_ok ((fun a => am_commit a n) <$> shared acc).
Proof.
  intros Hb Hn. unfold checkMetadata. destruct (_ || _) eqn:E; [done|].
  apply orb_false_iff in E as [E1%Z.ltb_ge E2%Z.ltb_ge].
  pose proof (bg_limits _ Hb) as (? & _). pose proof (bg_metadata _ Hb). rewrite u64_sub_small in E2 by (done || lia).
  intros Hs. split; [lia|]. destruct (shared acc) as [a|] eqn:Ha; [|done].
  apply am_check_ok; [|done..]. pose proof (bg_shared _ Hb) as Hsh. by rewrite Ha in Hsh.
Qed.

(** Charging a checked amount. *)
Lemma add_metadata_ok acc n scan :
  budgeted acc -> 0 <= n -> 0 <= scan <= n -> checkMetadata acc n = Ok tt -> stringScanBytesRead acc + scan <= scan_limit acc ->
  budgeted (add_metadata acc n scan) /\ same_limits acc (add_metadata acc n scan) /\
  charged (add_metadata acc n scan) = charged acc + (n - scan) /\
  stringScanBytesRead (add_metadata acc n scan) = stringScanBytesRead acc + scan.
Proof.
  intros Hb Hn Hsc Hc Hl. destruct (checkMetadata_ok acc n Hb Hn Hc) as [Hm Hs]. destruct Hb as [? ? ? ? ? (Hr1 & Hr2 & Hr3 & Hr4) ?].
  assert (metadataBytesRead acc + n < 2 ^ 64) by (unfold uint64_range in *; lia).
  unfold add_metadata. rewrite !u64_add_small by lia.
  split_and!; [|done|unfold charged; cbn; lia|done].
  split; cbn; try done; unfold metadata_limit, scan_limit, string_limit, record_limit in *; cbn; lia.
Qed.

Lemma checkStringScan_ok acc n :
  budgeted acc -> 0 <= n -> checkStringScan acc n = Ok tt -> stringScanBytesRead acc + n <= scan_limit acc.
Proof.
  intros Hb Hn. unfold checkStringScan. destruct (_ || _) eqn:E; [done|].
  apply orb_false_iff in E as [E1%Z.ltb_ge E2%Z.ltb_ge].
  pose proof (bg_limits _ Hb) as (_ & ? & _). pose proof (bg_scan _ Hb). rewrite u64_sub_small in E2 by (done || lia). lia.
Qed.

(** An operation that charges [n] bytes for reading. *)
Definition charges (f : inputAccounting -> outcome abi_err inputAccounting) (n : Z) : Prop :=
  forall acc, budgeted acc ->
    match f acc with
    | Ok acc' => budgeted acc' /\ same_limits acc acc' /\ charged acc' = charged acc + n
    | Err e => e = ErrABIResourceLimit
    | Panic => False
    end.

Lemma checkMetadata_cases acc n : checkMetadata acc n = Ok tt \/ checkMetadata acc n = Err ErrABIResourceLimit.
Proof. unfold checkMetadata, am_check. repeat case_match; auto. Qed.

Lemma chargeMetadata_charges n : 0 <= n -> charges (fun acc => chargeMetadata acc n) n.
Proof.
  intros Hn acc Hb. unfold chargeMetadata. destruct (checkMetadata_cases acc n) as [Hc|Hc]; rewrite Hc; cbn; [|done].
  destruct (add_metadata_ok acc n 0 Hb Hn ltac:(lia) Hc) as (? & ? & Hch & _); [pose proof (bg_scan _ Hb); lia|].
  split_and!; [done..|]. rewrite Hch. lia.
Qed.

Lemma checked_charges n : charges (fun acc => _ ← checkMetadata acc n; Ok acc) 0.
Proof.
  intros acc Hb. destruct (checkMetadata_cases acc n) as [-> | ->]; cbn; [|done]. split_and!; [done..|lia].
Qed.

Lemma scan_charges n : 0 <= n -> charges (fun acc => checkAndChargeStringScan acc n) 0.
Proof.
  intros Hn acc Hb. unfold checkAndChargeStringScan.
  destruct (checkStringScan acc n) as [[]|e|] eqn:Hs; cbn.
  - destruct (checkMetadata_cases acc n) as [Hc|Hc]; rewrite Hc; cbn; [|done].
    destruct (add_metadata_ok acc n n Hb Hn ltac:(lia) Hc) as (? & ? & Hch & _); [by apply checkStringScan_ok|].
    split_and!; [done..|]. rewrite Hch. lia.
  - unfold checkStringScan in Hs. destruct (_ || _); congruence.
  - unfold checkStringScan in Hs. by destruct (_ || _).
Qed.

Lemma chargeString_charges n : 0 <= n -> charges (fun acc => chargeString acc n) 0.
Proof.
  intros Hn acc Hb. unfold chargeString. destruct (_ || _) eqn:E; [done|].
  apply orb_false_iff in E as [E1%Z.ltb_ge E2%Z.ltb_ge]. destruct Hb as [? ? ? ? ? (Hr1 & Hr2 & Hr3 & Hr4) ?].
  rewrite u64_sub_small in E2 by (done || lia). unfold uint64_range in *. rewrite u64_add_small by lia.
  split_and!; [split; cbn; unfold metadata_limit, scan_limit, string_limit, record_limit, uint64_range in *; cbn; try lia; done|done|].
  unfold charged; cbn; lia.
Qed.

Lemma chargeVersionRecord_charges : charges chargeVersionRecord 0.
Proof.
  intros acc Hb. unfold chargeVersionRecord. destruct (Z.leb_spec (record_limit acc) (versionRecords acc)); [done|].
  destruct Hb as [? ? ? ? ? (Hr1 & Hr2 & Hr3 & Hr4) ?]. unfold uint64_range in *. rewrite u64_add_small by lia.
  split_and!; [split; cbn; unfold metadata_limit, scan_limit, string_limit, record_limit, uint64_range in *; cbn; try lia; done|done|].
  unfold charged; cbn; lia.
Qed.

(** Giving back what was charged for text that was not scanned. *)
Lemma refund_charges acc n :
  budgeted acc -> 0 <= n <= stringScanBytesRead acc ->
  budgeted (refundAllStringScan acc n) /\ same_limits acc (refundAllStringScan acc n) /\
  charged (refundAllStringScan acc n) = charged acc.
Proof.
  intros Hb Hn. destruct Hb as [? ? ? ? ? ? Hsh]. unfold refundAllStringScan.
  rewrite (proj2 (Z.ltb_ge (metadataBytesRead acc) n)), (proj2 (Z.ltb_ge (stringScanBytesRead acc) n)) by lia.
  split_and!; [|done|unfold charged; cbn; lia].
  split; cbn; unfold metadata_limit, scan_limit, string_limit, record_limit in *; cbn; try lia; [done|].
  destruct (shared acc) as [a|]; [|done]. cbn in *. destruct Hsh as [? ?]. split; [done|].
  destruct (Z.ltb_spec (am_usedBytes a) n); lia.
Qed.

(** ** Metered code *)

Section spends.
Context (start : inputAccounting).

(** [k] bytes may still be read. *)
Record credit (k : Z) (s : meter) : Prop := {
  cr_budget : budgeted (account s);
  cr_limits : same_limits start (account s);
  cr_nonneg : 0 <= k;
  cr_asked : bytes_asked s + k <= charged (account s) + 8
}.

Definition spends {A} (k : Z) (m : metered A) (k' : A -> Z) (Q : A -> Prop) : Prop :=
  forall s, credit k s ->
    match m s with
    | (Ok a, s') => credit (k' a) s' /\ Q a
    | (Err _, s') => credit 0 s'
    | (Panic, _) => False
    end.

Lemma credit_less k k' s : credit k s -> 0 <= k' <= k -> credit k' s.
Proof. intros [? ? ? ?] ?. split; [done..|lia|lia]. Qed.

Section rules.
Context {A B : Type}.

Lemma spends_ret k (a : A) (Q : A -> Prop) : Q a -> spends k (mret a) (fun _ => k) Q.
Proof. by intros HQ s Hs. Qed.

Lemma spends_refuse k e k' (Q : A -> Prop) : spends k (refuse e) k' Q.
Proof. intros s Hs. apply (credit_less k); [done|]. pose proof (cr_nonneg _ _ Hs). lia. Qed.

Lemma spends_bind k (m : metered A) k1 R (f : A -> metered B) k2 Q :
  spends k m k1 R -> (forall a, R a -> spends (k1 a) (f a) k2 Q) -> spends k (m ≫= f) k2 Q.
Proof.
  intros Hm Hf s Hs. specialize (Hm s Hs). unfold mbind, metered_bind. destruct (m s) as [[a|e|] s']; [|done..].
  destruct Hm as [Hc HR]. by apply Hf.
Qed.

Lemma spends_impl k (m : metered A) k1 Q k2 (Q' : A -> Prop) :
  spends k m k1 Q -> (forall a, 0 <= k -> Q a -> 0 <= k2 a <= k1 a) -> (forall a, Q a -> Q' a) -> spends k m k2 Q'.
Proof.
  intros Hm Hk2 HQ s Hs. specialize (Hm s Hs). destruct (m s) as [[a|e|] s']; [|done..].
  destruct Hm as [Hc Ha]. split; [|by apply HQ]. eapply credit_less; [done|apply Hk2; [exact (cr_nonneg _ _ Hs)|done]].
Qed.

Lemma spends_lift_ok k (a : A) (f : A -> metered B) k' Q : spends k (f a) k' Q -> spends k (lift (Ok a) ≫= f) k' Q.
Proof. intros Hf s. exact (Hf s). Qed.

Lemma spends_lift k (m : outcome abi_err A) (Q : A -> Prop) :
  m <> Panic -> (forall a, m = Ok a -> Q a) -> spends k (lift m) (fun _ => k) Q.
Proof.
  intros Hm HQ s Hs. unfold lift. destruct m as [a|e|]; [by split; [|apply HQ]| |done].
  eapply credit_less; [done|]. pose proof (cr_nonneg _ _ Hs). lia.
Qed.

End rules.

Lemma spends_charge k f n : charges f n -> 0 <= n -> spends k (charge f) (fun _ => k + n) (fun _ => True).
Proof.
  intros Hf Hn s Hs. specialize (Hf (account s) (cr_budget _ _ Hs)). unfold charge.
  destruct (f (account s)) as [acc|e|]; [|eapply credit_less; [done|]; pose proof (cr_nonneg _ _ Hs); lia|done].
  destruct Hf as (Hb & (E1 & E2 & E3 & E4) & Hc). destruct Hs as [? (? & ? & ? & ?) ? ?]. split; [|done].
  split; cbn; [done| |lia|rewrite Hc; lia]. split_and!; congruence.
Qed.

Lemma spends_charge_free k f : charges f 0 -> spends k (charge f) (fun _ => k) (fun _ => True).
Proof.
  intros Hf s Hs. pose proof (spends_charge k f 0 Hf ltac:(lia) s Hs) as H. rewrite Z.add_0_r in H. exact H.
Qed.

Lemma spends_field k order data lo hi :
  (lo <= hi <= length data)%nat ->
  spends k (field order data lo hi) (fun _ => k) (fun v => v = Uint order (take (hi - lo) (drop lo data)) /\ 0 <= v < 256 ^ Z.of_nat (hi - lo)).
Proof.
  intros Hl. unfold field. rewrite go_slice_ok by lia. cbn. apply spends_lift; [done|]. intros v [= <-]. split; [done|].
  assert (length (take (hi - lo) (drop lo data)) = (hi - lo)%nat) as Hlen by (rewrite length_take, length_drop; lia).
  unfold Uint. destruct order; [rewrite <- Hlen at 3; apply le_val_range|].
  rewrite <- Hlen at 3. rewrite <- length_reverse. apply le_val_range.
Qed.

Section reading.
Context `{ReaderAt R}.

Lemma spends_readIntoAt k (r : R) n off :
  Z.of_nat n <= k -> spends k (readIntoAt r n off) (fun _ => k - Z.of_nat n)
    (fun data => length data = n /\ (n = 0%nat \/ ReadAt r n off = Some data /\ off + Z.of_nat n <= MaxInt64)).
Proof.
  intros Hn. unfold readIntoAt. destruct (Nat.eqb_spec n 0) as [-> |Hz].
  { intros s Hs. split; [|auto]. apply (credit_less k); [done|]. pose proof (cr_nonneg _ _ Hs). lia. }
  destruct (_ || _) eqn:Hover; [apply spends_refuse|].
  apply orb_false_iff in Hover as [_ Hover%Z.ltb_ge].
  intros s [? ? ? ?]. destruct (ReadAt r n off) as [data|] eqn:Hr.
  - split; [|split; [exact (ReadAt_full _ _ _ _ Hr)|right; split; [done|lia]]]. split; cbn; [done..|lia|lia].
  - split; cbn; [done..|lia|lia].
Qed.

Lemma spends_readExactAt k (r : R) off size :
  0 <= size <= k -> spends k (readExactAt r off size) (fun _ => k - size)
    (fun data => Z.of_nat (length data) = size /\
       (size = 0 \/ ReadAt r (Z.to_nat size) off = Some data /\ off + size <= MaxInt64)).
Proof.
  intros Hs. unfold readExactAt. destruct (Z.eqb_spec size 0) as [-> |Hz].
  { intros s Hc. split; [|auto]. apply (credit_less k); [done|]. lia. }
  destruct (_ || _); [apply spends_refuse|].
  eapply spends_impl; [apply (spends_readIntoAt k); lia|intros; cbv beta in *; lia|].
  intros data [Hlen [Hd|[Hd Hm]]]; [lia|]. split; [lia|]. right. split; [done|lia].
Qed.

End reading.
End spends.

(** ** Scanning for the end of a string *)

(** What the budgets leave for scanning. *)
Definition spare (acc : inputAccounting) : Z :=
  Z.min (remainingStringScanBudget acc)
    (Z.min (remainingMetadataBudget acc) match shared acc with Some a => am_remaining a | None => MaxUint64 end).

Lemma spare_nonneg acc : budgeted acc -> 0 <= spare acc.
Proof.
  intros Hb. unfold spare, remainingStringScanBudget, remainingMetadataBudget, am_remaining.
  repeat case_match; try lia; unfold MaxUint64; lia.
Qed.

Lemma checkMetadata_shared acc n a :
  budgeted acc -> 0 <= n -> shared acc = Some a -> checkMetadata acc n = Ok tt -> am_usedBytes a + n <= am_maxBytes a.
Proof.
  intros Hb Hn Ha. unfold checkMetadata. destruct (_ || _); [done|]. rewrite Ha. unfold am_check.
  pose proof (bg_shared _ Hb) as Hs. rewrite Ha in Hs. destruct Hs as [? ?].
  destruct (_ || _) eqn:E; [done|]. apply orb_false_iff in E as [E1%Z.ltb_ge E2%Z.ltb_ge].
  rewrite u64_sub_small in E2 by (done || lia). lia.
Qed.

(** What a successful charge leaves room for. *)
Lemma scan_room acc n acc' :
  budgeted acc -> 0 <= n -> checkAndChargeStringScan acc n = Ok acc' ->
  checkMetadata acc n = Ok tt /\ acc' = add_metadata acc n n /\ stringScanBytesRead acc + n <= scan_limit acc /\
  metadataBytesRead acc + n <= metadata_limit acc /\
  (forall a, shared acc = Some a -> am_usedBytes a + n <= am_maxBytes a).
Proof.
  intros Hb Hn. unfold checkAndChargeStringScan. destruct (checkStringScan acc n) as [[]|e|] eqn:Hscan; cbn; [|done..].
  destruct (checkMetadata_cases acc n) as [Hm|Hm]; rewrite Hm; cbn; [|done]. intros [= <-].
  split_and!; try done; [by apply checkStringScan_ok|by apply checkMetadata_ok|].
  intros a Ha. by eapply checkMetadata_shared.
Qed.

(** Nothing left: the next byte is refused. *)
Lemma exhausted acc acc' : budgeted acc -> spare acc = 0 -> checkAndChargeStringScan acc 1 <> Ok acc'.
Proof.
  intros Hb Hs Hc. apply scan_room in Hc as (_ & _ & H1 & H2 & H3); [|done|lia].
  revert Hs. unfold spare, remainingStringScanBudget, remainingMetadataBudget, am_remaining.
  rewrite (proj2 (Z.leb_gt _ _)), (proj2 (Z.leb_gt _ _)) by lia.
  destruct (shared acc) as [a|] eqn:Ha; [|unfold MaxUint64; lia]. specialize (H3 a eq_refl).
  pose proof (bg_shared _ Hb) as Hsh. rewrite Ha in Hsh. destruct Hsh as [_ Hsh].
  destruct (Z.eqb_spec (am_maxBytes a) 0); [lia|]. destruct (Z.leb_spec (am_maxBytes a) (am_usedBytes a)); lia.
Qed.

(** Everything left was charged. *)
Lemma spare_charged acc acc' :
  budgeted acc -> 0 < spare acc -> checkAndChargeStringScan acc (spare acc) = Ok acc' -> spare acc' = 0.
Proof.
  intros Hb Hpos Hc. apply scan_room in Hc as (Hm & -> & H1 & H2 & H3); [|done|lia].
  destruct (add_metadata_ok acc (spare acc) (spare acc) Hb ltac:(lia) ltac:(lia) Hm H1) as (Hb' & _ & _ & _).
  clear Hm. destruct Hb as [? ? ? ? ? (Hr1 & Hr2 & Hr3 & Hr4) Hsh]. unfold uint64_range in *.
  assert (forall x n limit, 0 < n -> x + n <= limit -> (if limit <=? x then 0 else limit - x) = limit - x) as Hrem.
  { intros x n limit ? ?. destruct (Z.leb_spec limit x); lia. }
  assert (forall x n limit, x + n <= limit -> (if limit <=? x + n then 0 else limit - (x + n)) = limit - x - n) as Hrem'.
  { intros x n limit ?. destruct (Z.leb_spec limit (x + n)); lia. }
  remember (spare acc) as n eqn:Hspare. unfold spare, add_metadata in *. rewrite !u64_add_small by lia.
  unfold remainingStringScanBudget, remainingMetadataBudget, am_remaining in *. cbn in *.
  change (scan_limit _) with (scan_limit acc). change (metadata_limit _) with (metadata_limit acc).
  rewrite (Hrem _ n) in Hspare by lia. rewrite (Hrem _ n) in Hspare by lia. rewrite !Hrem' by lia.
  unfold MaxUint64 in *. destruct (shared acc) as [a|] eqn:Ha; cbn in *; [|lia]. specialize (H3 a eq_refl).
  destruct (Z.eqb_spec (am_maxBytes a) 0); [lia|]. rewrite (Hrem _ n) in Hspare by lia.
  unfold uint64_range in *. rewrite u64_add_small by lia. rewrite Hrem' by lia. lia.
Qed.

(** The position of the first zero in a list, counted from its start. *)
Definition first_zero (data : list byte) (n : nat) : Prop := data !! n = Some x00 /\ x00 ∉ take n data.

Lemma IndexByte_zero data : match IndexByte data x00 with Some n => first_zero data n | None => x00 ∉ data end.
Proof.
  unfold IndexByte. destruct (list_find (eq x00) data) as [[n b]|] eqn:E; cbn.
  - apply list_find_Some in E as (Hn & <- & Hmin). split; [done|]. intros Hin.
    apply list_elem_of_lookup_1 in Hin as [j Hj]. apply lookup_take_Some in Hj as [Hj Hlt]. by destruct (Hmin j x00 Hj Hlt).
  - apply list_find_None in E. intros Hin. rewrite Forall_forall in E. by apply (E x00 Hin).
Qed.

Lemma first_zero_app pre data n : x00 ∉ pre -> first_zero data n -> first_zero (pre ++ data) (length pre + n).
Proof.
  intros Hpre [Hn Hmin]. split; [by rewrite lookup_app_r, Nat.add_comm, Nat.add_sub by lia|].
  rewrite take_app_ge by lia. rewrite Nat.add_comm, Nat.add_sub. by rewrite not_elem_of_app.
Qed.

Lemma first_zero_take data k n : first_zero (take k data) n -> first_zero data n.
Proof.
  intros [Hn Hmin]. apply lookup_take_Some in Hn as [Hn Hlt]. split; [done|].
  by rewrite take_take, Nat.min_l in Hmin by lia.
Qed.

Lemma charge_bind {A} f (g : unit -> metered A) s :
  (charge f ≫= g) s =
    match f (account s) with
    | Ok acc => g tt (mkMeter acc (bytes_asked s))
    | Err e => (Err e, s)
    | Panic => (Panic, s)
    end.
Proof. unfold mbind, metered_bind, charge. by destruct (f (account s)). Qed.

Lemma lift_bind {A B} (a : A) (g : A -> metered B) s : (lift (Ok a) ≫= g) s = g a s.
Proof. done. Qed.

Lemma accounted_bind {A} (g : inputAccounting -> metered A) s : (accounted ≫= g) s = g (account s) s.
Proof. done. Qed.

Section scan.
Context (start : inputAccounting).
Abbreviation spends := (spends start).

Lemma spends_refused k acc n {A} (f : metered A) k' Q :
  budgeted acc -> (forall acc', checkAndChargeStringScan acc n <> Ok acc') -> 0 <= n ->
  forall s, account s = acc -> credit start k s ->
  match (_ ← charge (fun acc => checkAndChargeStringScan acc n); f) s with
  | (Ok a, s') => credit start (k' a) s' /\ Q a
  | (Err _, s') => credit start 0 s'
  | (Panic, _) => False
  end.
Proof.
  intros Hb Hno Hn s <- Hs. rewrite charge_bind.
  pose proof (scan_charges n Hn (account s) Hb) as Hc.
  destruct (checkAndChargeStringScan (account s) n) as [acc'|e|] eqn:E; [by destruct (Hno acc')| |done].
  eapply credit_less; [done|]. pose proof (cr_nonneg _ _ _ Hs). lia.
Qed.

Lemma spends_scan_string k fuel strtab curr scanned :
  0 <= curr -> Z.of_nat (length strtab) - curr <= Z.of_nat fuel ->
  spends k (scan_string fuel strtab curr scanned) (fun _ => k) (fun o =>
    match o with
    | None => x00 ∉ drop (Z.to_nat curr) strtab
    | Some n => exists m, n = scanned + Z.of_nat m /\ first_zero (drop (Z.to_nat curr) strtab) m
    end).
Proof.
  revert curr scanned. induction fuel as [|fuel IH]; intros curr scanned Hc Hf; cbn [scan_string];
    destruct (Z.ltb_spec curr (Z.of_nat (length strtab))) as [Hlt|Hge]; cbn [negb]; try lia.
  1,3: apply spends_ret; rewrite drop_ge by lia; by apply not_elem_of_nil.
  intros s Hs. rewrite accounted_bind. cbv zeta. remember (account s) as acc eqn:Hacc. set (want := Z.min stringScanChunkSize _). set (rest := Z.min _ _).
  assert (rest = Z.min want (spare acc)) as Hrest by (unfold rest, spare; lia). clearbody rest.
  pose proof (cr_budget _ _ _ Hs) as Hb. rewrite <- Hacc in Hb. pose proof (spare_nonneg acc Hb) as Hspare.
  assert (0 < want <= Z.of_nat (length strtab) - curr) as Hwant by (unfold want, stringScanChunkSize; lia).
  destruct (Z.eqb_spec rest 0) as [Hz|Hz].
  { apply (spends_refused k acc 1 (mret (Some (-1)))); [done|intros acc'; apply exhausted; [done|lia]|lia|done|done]. }
  rewrite charge_bind, <- Hacc. pose proof (scan_charges rest ltac:(lia) acc Hb) as Hch.
  destruct (checkAndChargeStringScan acc rest) as [acc'|e|] eqn:Echarge; [|apply (credit_less start k); [done|pose proof (cr_nonneg _ _ _ Hs); lia]|done].
  destruct Hch as (Hb' & Hl' & Hc').
  assert (credit start k (mkMeter acc' (bytes_asked s))) as Hs'.
  { destruct Hs as [_ (L1 & L2 & L3 & L4) ? ?]. destruct Hl' as (M1 & M2 & M3 & M4). split; cbn; [done| |lia|rewrite <- Hacc in *; lia].
    unfold same_limits. rewrite <- Hacc in *. split_and!; congruence. }
  rewrite go_slice_ok by lia. rewrite lift_bind.
  set (piece := take _ (drop (Z.to_nat curr) strtab)).
  assert (length piece = Z.to_nat rest) as Hpiece by (unfold piece; rewrite length_take, length_drop; lia).
  pose proof (IndexByte_zero piece) as Hzero. destruct (IndexByte piece x00) as [idx|].
  - assert (exists m, scanned + Z.of_nat idx = scanned + Z.of_nat m /\ first_zero (drop (Z.to_nat curr) strtab) m) as Hres.
    { exists idx. split; [done|]. by eapply first_zero_take. }
    destruct Hzero as [Hidx%lookup_lt_Some _]. destruct (Z.ltb_spec (Z.of_nat idx + 1) rest) as [Hr|Hr]; [rewrite charge_bind; cbn [account]|by split].
    apply scan_room in Echarge as (Hm & -> & H1 & _ & _); [|done|lia].
    destruct (add_metadata_ok acc rest rest Hb ltac:(lia) ltac:(lia) Hm H1) as (_ & _ & _ & Hscan).
    destruct (refund_charges _ (rest - (Z.of_nat idx + 1)) Hb') as (Hb2 & (M1 & M2 & M3 & M4) & Hc2); [pose proof (bg_scan _ Hb); lia|].
    split; [|done]. destruct Hs' as [_ (L1 & L2 & L3 & L4) ? ?]. cbn in *. split; cbn; [done| |done|lia].
    unfold same_limits. split_and!; congruence.
  - destruct (Z.ltb_spec rest want) as [Hr|Hr].
    + assert (rest = spare acc) as -> by lia.
      apply (spends_refused k acc' 1 (mret (Some (-1)))); [done| |lia|done|done].
      intros acc2. apply exhausted; [done|]. eapply spare_charged; [exact Hb|lia|done].
    + specialize (IH (curr + rest) (scanned + rest) ltac:(lia) ltac:(lia) _ Hs').
      assert (drop (Z.to_nat curr) strtab = piece ++ drop (Z.to_nat (curr + rest)) strtab) as Hsplit.
      { rewrite <- (take_drop (Z.to_nat rest) (drop (Z.to_nat curr) strtab)) at 1. f_equal.
        - unfold piece. f_equal. lia.
        - rewrite drop_drop. f_equal. lia. }
      rewrite Hsplit. destruct (scan_string _ _ _ _ _) as [[[n|]|e|] s2]; [..|done|done].
      * destruct IH as [Hcr (m & -> & Hm)]. split; [done|]. exists (length piece + m)%nat.
        split; [lia|]. by apply first_zero_app.
      * destruct IH as [Hcr Hnone]. split; [done|]. by rewrite not_elem_of_app.
Qed.

(** The text at an offset, up to the first zero. *)
Definition c_string (strtab : list byte) (off : nat) (s : string) : Prop :=
  exists n, first_zero (drop off strtab) n /\ bytes_of s = take n (drop off strtab).

Lemma spends_cstring k strtab off requireNonEmpty :
  0 <= off -> spends k (scanBoundedCString strtab off requireNonEmpty) (fun _ => k)
    (fun s => c_string strtab (Z.to_nat off) s /\ (requireNonEmpty = true -> s <> ""%string)).
Proof.
  intros Hoff. unfold scanBoundedCString. destruct (Z.leb_spec (Z.of_nat (length strtab)) off) as [|Hlt]; [apply spends_refuse|].
  eapply spends_bind; [apply spends_scan_string; lia|]. intros [n|] Hn; [|apply spends_refuse].
  destruct Hn as (m & -> & Hm). destruct (Z.eqb_spec (0 + Z.of_nat m) (-1)); [lia|].
  destruct (_ && _) eqn:Hempty; [apply spends_refuse|].
  eapply spends_bind; [apply spends_charge_free, chargeString_charges; lia|]. intros [] _.
  assert (m < length (drop (Z.to_nat off) strtab))%nat as Hlen by by destruct Hm as [Hm%lookup_lt_Some _].
  rewrite length_drop in Hlen. rewrite go_slice_ok by lia.
  apply spends_lift_ok. replace (Z.to_nat (off + (0 + Z.of_nat m)) - Z.to_nat off)%nat with m by lia. apply spends_ret. split.
  - exists m. split; [done|]. by rewrite String.list_byte_of_string_of_list_byte.
  - intros -> Hs. apply andb_false_iff in Hempty as [?|Hz%Z.eqb_neq]; [done|].
    apply (f_equal String.list_byte_of_string) in Hs. rewrite String.list_byte_of_string_of_list_byte in Hs.
    apply (f_equal length) in Hs. rewrite length_take, length_drop in Hs. cbn in Hs. lia.
Qed.

(** ** Headers *)

Section headers.
Context `{ReaderAt R} (r : R).

Lemma spends_magic k data :
  length data = 64%nat -> spends k (validateELFHeaderMagicAndEncoding data) (fun _ => k) (fun order =>
    exists b, data !! 5%nat = Some b /\ (b = ELFDATA2LSB \/ b = ELFDATA2MSB) /\ order = if byte_eqb b ELFDATA2LSB then LittleEndian else BigEndian).
Proof.
  intros Hl. unfold validateELFHeaderMagicAndEncoding. rewrite Hl. cbn [Z.ltb]. change (Z.of_nat 64 <? minELFHeaderSize) with false.
  assert (forall i, (i < 64)%nat -> exists b, go_index (E := abi_err) data i = Ok b /\ data !! i = Some b) as Hi by (intros; apply go_index_ok; lia).
  destruct (Hi 0%nat ltac:(lia)) as (b0 & -> & _), (Hi 1%nat ltac:(lia)) as (b1 & -> & _), (Hi 2%nat ltac:(lia)) as (b2 & -> & _),
    (Hi 3%nat ltac:(lia)) as (b3 & -> & _), (Hi 4%nat ltac:(lia)) as (b4 & -> & _), (Hi 5%nat ltac:(lia)) as (b5 & -> & H5),
    (Hi 6%nat ltac:(lia)) as (b6 & -> & _).
  do 4 apply spends_lift_ok. destruct (_ || _); [apply spends_refuse|]. apply spends_lift_ok.
  destruct (negb _); [apply spends_refuse|]. do 2 apply spends_lift_ok. destruct (byte_eqb b5 ELFDATA2LSB) eqn:E5.
  - destruct (negb _); [apply spends_refuse|]. apply spends_ret. exists b5. rewrite E5. apply bool_decide_eq_true in E5. auto.
  - destruct (byte_eqb b5 ELFDATA2MSB) eqn:E6; [|apply spends_refuse]. destruct (negb _); [apply spends_refuse|].
    apply spends_ret. exists b5. rewrite E5. apply bool_decide_eq_true in E6. auto.
Qed.

(** What a table of program headers takes. *)
Definition table_size (ePhentsize ePhnum : Z) : Z := ePhnum * ePhentsize.

Lemma spends_program_table k fileSize ePhoff ePhentsize ePhnum :
  uint64_range fileSize -> 0 <= ePhoff -> 0 <= ePhentsize < 65536 -> 0 <= ePhnum < 65536 ->
  spends k (validateProgramHeaderTable fileSize ePhoff ePhentsize ePhnum) (fun _ => k + table_size ePhentsize ePhnum)
    (fun _ => ePhnum = 0 \/ 56 <= ePhentsize).
Proof.
  intros Hf Ho He Hn. unfold validateProgramHeaderTable, table_size. destruct (_ <? _); [apply spends_refuse|].
  destruct (Z.eqb_spec ePhnum 0) as [-> |Hz].
  { rewrite Z.mul_0_l, Z.add_0_r. apply spends_ret. by left. }
  destruct (Z.ltb_spec ePhentsize minProgramHeaderSize) as [|Hmin]; [apply spends_refuse|].
  destruct (_ <? _); [apply spends_refuse|]. destruct (_ <? _); [apply spends_refuse|].
  assert (u64_mul ePhentsize ePhnum = ePhnum * ePhentsize) as -> by (unfold u64_mul; rewrite to_uint64_small by (split; nia); lia).
  assert (0 <= ePhnum * ePhentsize) by nia.
  eapply spends_impl; [apply (spends_charge start k); [by apply chargeMetadata_charges|done]|intros; cbv beta in *; lia|auto].
Qed.

Lemma spends_section_table k order fileSize eShoff eShentsize eShnum :
  8 <= k -> uint64_range fileSize -> uint64_range eShoff -> 0 <= eShentsize < 65536 -> 0 <= eShnum < 65536 ->
  spends k (validateSectionHeaderTableReaderAt r order fileSize eShoff eShentsize eShnum) (fun _ => k - 8) (fun _ => True).
Proof.
  intros Hk Hf Ho He Hn. unfold validateSectionHeaderTableReaderAt.
  assert (forall k' : Z, k' = k \/ k' = k - 8 -> forall n, 0 <= n -> 
    spends k' (charge (fun acc => chargeMetadata acc n)) (fun _ => k - 8) (fun _ => True)) as Hcharge.
  { intros k' Hk' n ?. eapply spends_impl; [apply (spends_charge start k'); [by apply chargeMetadata_charges|done]|intros; cbv beta; lia|done]. }
  destruct (eShoff =? 0); [eapply spends_impl; [by apply (spends_ret start k tt (fun _ => True))|intros; cbv beta; lia|done]|].
  destruct (_ <? _); [apply spends_refuse|]. destruct (_ <? _); [apply spends_refuse|]. destruct (eShnum =? 0).
  - destruct (_ <? _); [apply spends_refuse|].
    eapply spends_bind; [apply spends_readIntoAt; change (Z.of_nat sectionZeroShnumBytes) with 8; lia|]. intros b _. change (Z.of_nat sectionZeroShnumBytes) with 8. cbv zeta beta.
    destruct (_ <? _); [apply spends_refuse|]. destruct (Z.ltb_spec 0 (Uint order b)).
    + destruct (_ <? _); [apply spends_refuse|]. apply Hcharge; [by right|]. apply to_uint64_range.
    + apply spends_ret. done.
  - cbv zeta. destruct (_ <? _); [apply spends_refuse|]. apply Hcharge; [by left|]. apply to_uint64_range.
Qed.

(** Fields of a header, in the byte order it declares. *)
Definition header_order (header : list byte) : ByteOrder :=
  match header !! 5%nat with Some b => if byte_eqb b ELFDATA2LSB then LittleEndian else BigEndian | None => BigEndian end.

Definition value_at (order : ByteOrder) (data : list byte) (lo hi : nat) : Z := Uint order (take (hi - lo) (drop lo data)).

Definition hd_phentsize (header : list byte) : Z := value_at (header_order header) header 54 56.
Definition hd_phnum (header : list byte) : Z := value_at (header_order header) header 56 58.
Definition hd_phoff (header : list byte) : Z := value_at (header_order header) header 32 40.
Definition hd_type (header : list byte) : Z := value_at (header_order header) header 16 18.

Definition header_table (header : list byte) : Z := table_size (hd_phentsize header) (hd_phnum header).

(** A header the preflight accepts. *)
Record good_header (header : list byte) : Prop := {
  gh_length : length header = 64%nat;
  gh_read : ReadAt r 64 0 = Some header;
  gh_encoding : header !! 5%nat = Some ELFDATA2LSB \/ header !! 5%nat = Some ELFDATA2MSB;
  gh_entsize : hd_phnum header = 0 \/ 56 <= hd_phentsize header < 65536;
  gh_phnum : 0 <= hd_phnum header < 65536
}.

Lemma spends_preflight k fileSize :
  8 <= k -> uint64_range fileSize ->
  spends k (preflightELFHeadersReaderAtWithAccounting r fileSize) (fun header => k - 8 + header_table header) good_header.
Proof.
  intros Hk Hf. unfold preflightELFHeadersReaderAtWithAccounting. destruct (_ <? _); [apply spends_refuse|].
  eapply spends_bind; [apply (spends_charge start k); [by apply chargeMetadata_charges|done]|]. intros [] _.
  eapply spends_bind; [apply spends_readIntoAt; cbv beta; change (Z.of_nat (Z.to_nat minELFHeaderSize)) with minELFHeaderSize; lia|].
  change (Z.to_nat minELFHeaderSize) with 64%nat. intros header [Hlen [?|[Hread _]]]; [done|].
  replace (k + minELFHeaderSize - Z.of_nat 64) with k by (unfold minELFHeaderSize; lia).
  eapply spends_bind; [by apply spends_magic|]. intros order (b & Hb & Henc & Horder).
  assert (header_order header = order) as Ho by (unfold header_order; by rewrite Hb).
  eapply spends_bind; [apply spends_field; lia|]. intros eEhsize _. destruct (_ || _); [apply spends_refuse|].
  eapply spends_bind; [apply spends_field; lia|]. intros ePhoff [_ Hphoff].
  eapply spends_bind; [apply spends_field; lia|]. intros ePhentsize [Hent Hentr].
  eapply spends_bind; [apply spends_field; lia|]. intros ePhnum [Hnum Hnumr].
  eapply spends_bind; [apply spends_program_table; [done|lia|exact Hentr|exact Hnumr]|]. intros [] Htable. cbv beta.
  assert (header_table header = table_size ePhentsize ePhnum) as Htab.
  { unfold header_table, hd_phentsize, hd_phnum, value_at. by rewrite Ho, Hent, Hnum. }
  eapply spends_bind; [apply spends_field; lia|]. intros eShoff [_ Hshoff].
  eapply spends_bind; [apply spends_field; lia|]. intros eShentsize [_ Hshent].
  eapply spends_bind; [apply spends_field; lia|]. intros eShnum [_ Hshnum]. cbv beta.
  assert (0 <= table_size ePhentsize ePhnum) by (unfold table_size; change (256 ^ Z.of_nat 2) with 65536 in *; nia).
  eapply spends_bind; [apply spends_section_table; [lia|done|exact Hshoff|exact Hshent|exact Hshnum]|]. intros [] _. cbv beta.
  replace (k + table_size ePhentsize ePhnum - 8) with (k - 8 + table_size ePhentsize ePhnum) by lia.
  intros s Hs. split; [by rewrite Htab|]. change (256 ^ Z.of_nat (56 - 54)) with 65536 in *. change (256 ^ Z.of_nat (58 - 56)) with 65536 in *.
  split; [done..| | |]; [by destruct Henc as [-> | ->]; auto|..]; unfold hd_phentsize, hd_phnum, value_at; rewrite Ho, <- ?Hent, <- ?Hnum; [|done].
  destruct Htable; auto with lia.
Qed.

(** ** Program headers *)

(** The [i]-th header of a table: its type and its segment. *)
Definition raw_header (order : ByteOrder) (phTable : list byte) (entsize : Z) (i : nat) : Z * loadSegment :=
  let ph := drop (i * Z.to_nat entsize) phTable in
  (value_at order ph 0 4,
   mkSegment (value_at order ph 8 16) (value_at order ph 16 24) (value_at order ph 32 40) (value_at order ph 40 48)).

Definition of_type (t : Z) (hs : list (Z * loadSegment)) : list loadSegment := snd <$> List.filter (fun h => h.1 =? t) hs.

Definition region_ok (fileSize : Z) (seg : loadSegment) : Prop :=
  0 <= seg_off seg /\ 0 <= seg_filesz seg /\ seg_off seg + seg_filesz seg <= fileSize.

Definition segment_ok (fileSize : Z) (seg : loadSegment) : Prop :=
  region_ok fileSize seg /\ 0 <= seg_vaddr seg /\ seg_filesz seg <= seg_memsz seg /\ seg_vaddr seg + seg_memsz seg <= MaxUint64.

(** What the parser keeps of the headers: the loaded segments, the only
    interpreter and the last dynamic section, all within the file. *)
Record programs_of (fileSize : Z) (hs : list (Z * loadSegment)) (p : programs) : Prop := {
  po_loads : loads p = of_type PT_LOAD hs;
  po_interp : option_list (interpProg p) = of_type PT_INTERP hs;
  po_dynamic : dynamicProg p = last (of_type PT_DYNAMIC hs);
  po_loads_ok : Forall (segment_ok fileSize) (loads p);
  po_interp_ok : forall seg, interpProg p = Some seg -> region_ok fileSize seg /\ 0 < seg_filesz seg <= MaxInterpreterSize;
  po_dynamic_ok : forall seg, dynamicProg p = Some seg -> region_ok fileSize seg
}.

Lemma of_type_snoc t hs h : of_type t (hs ++ [h]) = of_type t hs ++ (if h.1 =? t then [h.2] else []).
Proof. unfold of_type. rewrite List.filter_app, fmap_app. cbn. by destruct (h.1 =? t). Qed.

Lemma beyond_file_false fileSize off n :
  uint64_range fileSize -> uint64_range off -> 0 <= n -> beyond_file fileSize off n = false -> off + n <= fileSize.
Proof.
  intros Hf Ho Hn. unfold beyond_file. rewrite orb_false_iff, !Z.ltb_ge. intros [H1 H2].
  rewrite u64_sub_small in H2 by (unfold uint64_range in *; lia || done). lia.
Qed.

Lemma program_header_spec fileSize hs p t off vaddr filesz memsz :
  uint64_range fileSize -> uint64_range off -> uint64_range vaddr -> uint64_range filesz -> uint64_range memsz ->
  programs_of fileSize hs p ->
  program_header p fileSize t off vaddr filesz memsz <> Panic /\
  forall p', program_header p fileSize t off vaddr filesz memsz = Ok p' ->
    programs_of fileSize (hs ++ [(t, mkSegment off vaddr filesz memsz)]) p'.
Proof.
  intros Hf Ho Hv Hs Hm [Hl Hi Hd Hlok Hiok Hdok]. unfold program_header.
  destruct (Z.eqb_spec t PT_LOAD) as [-> |H1].
  { destruct (_ || _) eqn:E; [done|]. split; [done|]. intros p' [= <-].
    apply orb_false_iff in E as [[E1%Z.ltb_ge E2]%orb_false_iff E3%Z.ltb_ge].
    apply beyond_file_false in E2; [|unfold uint64_range in *; lia || done..].
    rewrite u64_sub_small in E3 by (unfold uint64_range, MaxUint64 in *; lia).
    split; cbn; rewrite ?of_type_snoc; cbn; rewrite ?app_nil_r; try done; [by rewrite Hl|].
    apply Forall_app. split; [done|]. constructor; [|constructor].
    unfold segment_ok, region_ok, uint64_range in *; cbn. split_and!; lia. }
  destruct (Z.eqb_spec t PT_INTERP) as [-> |H2].
  { destruct (interpProg p) as [seg|] eqn:Hp; [done|]. destruct (Z.ltb_spec MaxInterpreterSize filesz); [done|].
    destruct (Z.eqb_spec filesz 0); [done|]. destruct (beyond_file _ _ _) eqn:E; [done|]. split; [done|]. intros p' [= <-].
    apply beyond_file_false in E; [|unfold uint64_range in *; lia || done..].
    split; cbn; rewrite ?of_type_snoc; cbn; rewrite ?app_nil_r; try done; [by rewrite <- Hi|].
    intros seg [= <-]. unfold region_ok, uint64_range in *; cbn. split_and!; lia. }
  destruct (Z.eqb_spec t PT_DYNAMIC) as [-> |H3].
  { destruct (beyond_file _ _ _) eqn:E; [done|]. split; [done|]. intros p' [= <-].
    apply beyond_file_false in E; [|unfold uint64_range in *; lia || done..].
    split; cbn; rewrite ?of_type_snoc; cbn; rewrite ?app_nil_r; try done; [by rewrite last_snoc|].
    intros seg [= <-]. unfold region_ok, uint64_range in *; cbn. split_and!; lia. }
  split; [done|]. intros p' [= <-]. apply Z.eqb_neq in H1, H2, H3.
  split; rewrite ?of_type_snoc; cbn; rewrite ?H1, ?H2, ?H3, ?app_nil_r; done.
Qed.

Definition decoded_headers (order : ByteOrder) (phTable : list byte) (entsize : Z) (n : nat) : list (Z * loadSegment) :=
  raw_header order phTable entsize <$> seq 0 n.

Lemma spends_program_headers k n i phTable entsize fileSize order p :
  uint64_range fileSize -> 56 <= entsize -> length phTable = ((i + n) * Z.to_nat entsize)%nat ->
  programs_of fileSize (decoded_headers order phTable entsize i) p ->
  spends k (program_headers n i phTable entsize fileSize order p) (fun _ => k)
    (programs_of fileSize (decoded_headers order phTable entsize (i + n))).
Proof.
  revert i p. induction n as [|n IH]; intros i p Hf He Hl Hp; cbn [program_headers].
  { apply spends_ret. by rewrite Nat.add_0_r. }
  rewrite go_slice_ok by (rewrite Hl; nia). apply spends_lift_ok. rewrite take_ge by (rewrite length_drop; lia).
  assert (56 <= length (drop (i * Z.to_nat entsize) phTable))%nat as Hph by (rewrite length_drop, Hl; nia).
  eapply spends_bind; [apply spends_field; lia|]. intros pType [Et _].
  eapply spends_bind; [apply spends_field; lia|]. intros pOffset [Eo Ho].
  eapply spends_bind; [apply spends_field; lia|]. intros pVaddr [Ev Hv].
  eapply spends_bind; [apply spends_field; lia|]. intros pFilesz [Ef Hfs].
  eapply spends_bind; [apply spends_field; lia|]. intros pMemsz [Em Hm]. cbv beta.
  destruct (program_header_spec fileSize _ p pType pOffset pVaddr pFilesz pMemsz Hf Ho Hv Hfs Hm Hp) as [Hnp Hspec].
  eapply spends_bind; [by apply (spends_lift start k _ _ Hnp Hspec)|]. intros p' Hp'. cbv beta.
  rewrite Nat.add_succ_r, <- Nat.add_succ_l. apply IH; [done..|rewrite Hl; f_equal; lia|].
  unfold decoded_headers. rewrite seq_S, fmap_app. cbn. by rewrite Et, Eo, Ev, Ef, Em in Hp'.
Qed.

End headers.
End scan.
