(* ===== verification/AbiParse.v ===== *)
(** * What inspection finds

    Addresses translate exactly as the loaded segments say, and a report
    states what the file declares: the interpreter, the needed libraries and
    the symbol versions, read off the program headers, the dynamic section and
    its string table. *)

From S2P Require Import Prelude GoStrings GoIO MicroarchSelect Abi AbiBounds.
From stdpp Require Import base list strings gmap.
From Stdlib Require Import ZArith Lia Strings.Ascii Strings.Byte.

Local Open Scope Z_scope.

(** ** Addresses *)

(** The segment has bytes of the file at the address. *)
Definition covers (seg : loadSegment) (vaddr : Z) : Prop :=
  seg_vaddr seg <= vaddr < seg_vaddr seg + seg_filesz seg.

Global Instance covers_dec seg vaddr : Decision (covers seg vaddr).
Proof. unfold covers. apply _. Defined.

(** Exactly one segment has the address, and it has the whole range. *)
Definition mapped (loads : list loadSegment) (vaddr size off : Z) : Prop :=
  exists pre seg post, loads = pre ++ seg :: post /\ covers seg vaddr /\
    Forall (fun s => ~ covers s vaddr) (pre ++ post) /\
    vaddr + size <= seg_vaddr seg + seg_filesz seg /\ off = seg_off seg + (vaddr - seg_vaddr seg).

Lemma filter_none {A} (f : A -> bool) l : List.filter f l = [] <-> Forall (fun x => f x = false) l.
Proof.
  induction l as [|x l IH]; cbn; [by split|]. rewrite Forall_cons. destruct (f x); [by split; [|intros [? _]]|].
  rewrite IH. tauto.
Qed.

Lemma filter_single {A} (f : A -> bool) l x :
  List.filter f l = [x] <-> exists pre post, l = pre ++ x :: post /\ f x = true /\ Forall (fun y => f y = false) (pre ++ post).
Proof.
  split.
  - induction l as [|y l IH]; cbn; [done|]. destruct (f y) eqn:Hy.
    + intros [= -> Hl]. exists [], l. split_and!; [done..|]. by apply filter_none.
    + intros Hl. destruct (IH Hl) as (pre & post & -> & Hx & Hall). exists (y :: pre), post. split_and!; [done..|]. by constructor.
  - intros (pre & post & -> & Hx & Hall). apply Forall_app in Hall as [H1 H2]. rewrite List.filter_app.
    rewrite (proj2 (filter_none f pre)) by done. cbn. rewrite Hx. by rewrite (proj2 (filter_none f post)).
Qed.

(** Where nothing is found, nothing is taken over. *)
Lemma fold_skip {A B} (f : A -> bool) (g : A -> B) l o :
  Forall (fun x => f x = false) l -> fold_left (fun o x => if f x then g x else o) l o = o.
Proof. intros Hl. induction Hl as [|x l Hx Hl IH]; cbn; [done|]. by rewrite Hx. Qed.

Section translate.
Context (fileSize vaddr size : Z) (Hf : uint64_range fileSize) (Hv : uint64_range vaddr) (Hs : 0 <= size).

Lemma covers_test seg :
  segment_ok fileSize seg ->
  (negb (seg_filesz seg =? 0) && ((seg_vaddr seg <=? vaddr) && (vaddr <? u64_add (seg_vaddr seg) (seg_filesz seg)))) =
    bool_decide (covers seg vaddr).
Proof using Hv.
  intros ((H1 & H2 & H3) & H4 & H5 & H6). unfold MaxUint64, uint64_range in *. rewrite u64_add_small by lia.
  unfold covers. destruct (Z.eqb_spec (seg_filesz seg) 0); cbn [negb andb].
  { symmetry. apply bool_decide_eq_false. lia. }
  destruct (Z.leb_spec (seg_vaddr seg) vaddr); cbn [andb]; [|symmetry; apply bool_decide_eq_false; lia].
  destruct (Z.ltb_spec vaddr (seg_vaddr seg + seg_filesz seg)); symmetry; [apply bool_decide_eq_true|apply bool_decide_eq_false]; lia.
Qed.

(** The loop over the segments that have the address. *)
Lemma match_segments_spec loads off0 n :
  Forall (segment_ok fileSize) loads ->
  match_segments loads fileSize vaddr size off0 n =
    if bool_decide (Forall (fun s => covers s vaddr -> vaddr + size <= seg_vaddr s + seg_filesz s) loads)
    then Ok (fold_left (fun o s => if bool_decide (covers s vaddr) then seg_off s + (vaddr - seg_vaddr s) else o) loads off0,
             (n + length (List.filter (fun s => bool_decide (covers s vaddr)) loads))%nat)
    else Err ErrABIMetadata.
Proof using Hf Hv Hs.
  intros Hok. revert off0 n. induction Hok as [|seg loads Hseg Hok IH]; intros off0 n; cbn [match_segments].
  { cbn. by rewrite Nat.add_0_r. }
  pose proof (covers_test seg Hseg) as Hc. destruct Hseg as ((H1 & H2 & H3) & H4 & H5 & H6).
  cbn [fold_left List.filter].
  destruct (bool_decide (covers seg vaddr)) eqn:Hb.
  - apply andb_true_iff in Hc as [Hc1 Hc2]. apply negb_true_iff in Hc1. rewrite Hc1, Hc2. cbv zeta. apply bool_decide_eq_true in Hb.
    unfold covers, MaxUint64, uint64_range in *. rewrite (u64_sub_small (seg_filesz seg)) by (unfold uint64_range; lia).
    rewrite u64_add_small by lia. destruct (Z.ltb_spec (seg_filesz seg - (vaddr - seg_vaddr seg)) size) as [Hlt|Hge].
    { symmetry. rewrite bool_decide_eq_false_2; [done|]. rewrite Forall_cons. intros [Hb' _]. specialize (Hb' Hb). lia. }
    rewrite (proj2 (Z.ltb_ge fileSize _)) by lia. rewrite u64_sub_small by (unfold uint64_range; lia).
    rewrite (proj2 (Z.ltb_ge _ size)) by lia. cbn [orb]. rewrite IH. cbn [length]. rewrite Nat.add_succ_r.
    rewrite (bool_decide_ext (Forall _ (seg :: loads)) (Forall (fun s => seg_vaddr s <= vaddr < seg_vaddr s + seg_filesz s ->
      vaddr + size <= seg_vaddr s + seg_filesz s) loads)); [done|]. rewrite Forall_cons. split; [tauto|]. intros ?. split; [lia|done].
  - assert (match_segments loads fileSize vaddr size off0 n = match_segments loads fileSize vaddr size off0 n) as _ by done.
    apply bool_decide_eq_false in Hb.
    rewrite (bool_decide_ext (Forall _ (seg :: loads)) (Forall (fun s => covers s vaddr ->
      vaddr + size <= seg_vaddr s + seg_filesz s) loads)) by (rewrite Forall_cons; tauto).
    rewrite <- IH. destruct (seg_filesz seg =? 0); [done|]. cbn [negb andb] in Hc. by rewrite Hc.
Qed.

Lemma translateVaddr_mapped loads off :
  Forall (segment_ok fileSize) loads ->
  translateVaddr loads fileSize vaddr size = Ok off <-> size <= fileSize /\ mapped loads vaddr size off.
Proof using Hf Hv Hs.
  intros Hok. unfold translateVaddr. destruct (Z.ltb_spec fileSize size) as [|Hle]; [split; [done|lia]|].
  rewrite match_segments_spec by done.
  assert (forall l, Forall (fun s => bool_decide (covers s vaddr) = false) l <-> Forall (fun s => ~ covers s vaddr) l) as Hnot.
  { intros l. apply Forall_iff. intros s. apply bool_decide_eq_false. }
  split.
  - case_bool_decide as Hall; [|done]. cbn.
    destruct (List.filter _ loads) as [|seg [|? ?]] eqn:Hfil; cbn; [done| |done].
    apply filter_single in Hfil as (pre & post & -> & Hcov & Hno). intros [= <-]. split; [done|]. exists pre, seg, post.
    rewrite fold_left_app. cbn. rewrite Hcov. apply Forall_app in Hno as [Hno1 Hno2].
    rewrite (fold_skip (fun s => bool_decide (covers s vaddr)) (fun s => seg_off s + (vaddr - seg_vaddr s)) post) by done. apply bool_decide_eq_true in Hcov.
    split_and!; [done..|apply Hnot, Forall_app; done| |done]. rewrite Forall_app, Forall_cons in Hall. by apply Hall.
  - intros (_ & pre & seg & post & -> & Hcov & Hno & Hend & ->). apply Hnot in Hno.
    rewrite bool_decide_eq_true_2.
    2: { apply Hnot, Forall_app in Hno as [Hno1 Hno2]. rewrite Forall_app, Forall_cons. split_and!; [| done|];
         (eapply Forall_impl; [eassumption|]; intros s ? ?; done). }
    rewrite (proj2 (filter_single _ _ seg)) by (exists pre, post; split_and!; [done|by apply bool_decide_eq_true|done]).
    cbn. rewrite fold_left_app. cbn. rewrite bool_decide_eq_true_2 by done. apply Forall_app in Hno as [Hno1 Hno2].
    by rewrite (fold_skip (fun s => bool_decide (covers s vaddr)) (fun s => seg_off s + (vaddr - seg_vaddr s)) post).
Qed.

End translate.

(** ** The dynamic section *)

(** The entries of a table, as tags with values. *)
Definition dyn_word (order : ByteOrder) (dynBytes : list byte) (i : nat) : Z * Z :=
  (value_at order dynBytes (i * 16) (i * 16 + 8), value_at order dynBytes (i * 16 + 8) (i * 16 + 16)).

Definition dyn_words (order : ByteOrder) (dynBytes : list byte) (n : nat) : list (Z * Z) := dyn_word order dynBytes <$> seq 0 n.

Definition tag_values (t : Z) (ws : list (Z * Z)) : list Z := snd <$> List.filter (fun w => w.1 =? t) ws.

(** The one value of a tag, or none. *)
Definition tag_is (ws : list (Z * Z)) (t : Z) (o : option Z) : Prop :=
  match o with Some v => tag_values t ws <> [] /\ Forall (eq v) (tag_values t ws) | None => tag_values t ws = [] end.

Record tags_of (ws : list (Z * Z)) (tags : dynamicTags) : Prop := {
  to_plain : Forall (fun w => w.1 <> DT_NULL) ws;
  to_needed : neededOffsets tags = tag_values DT_NEEDED ws;
  to_strtab : tag_is ws DT_STRTAB (strtabVaddr tags);
  to_strsz : tag_is ws DT_STRSZ (strtabSize tags);
  to_verneed : tag_is ws DT_VERNEED (verneedVaddr tags);
  to_verneednum : tag_is ws DT_VERNEEDNUM (verneedNum tags)
}.

(** Entries up to the end mark, or an empty table. *)
Definition declared_tags (order : ByteOrder) (dynBytes : list byte) (n : nat) (tags : dynamicTags) : Prop :=
  exists ws, tags_of ws tags /\
    (n = 0%nat /\ ws = [] \/ exists v rest, dyn_words order dynBytes n = ws ++ (DT_NULL, v) :: rest).

Lemma tag_values_snoc t ws w : tag_values t (ws ++ [w]) = tag_values t ws ++ (if w.1 =? t then [w.2] else []).
Proof. unfold tag_values. rewrite List.filter_app, fmap_app. cbn. by destruct (w.1 =? t). Qed.

Lemma tag_is_snoc_same ws t o v :
  tag_is ws t o -> conflicts o v = false -> tag_is (ws ++ [(t, v)]) t (Some v).
Proof.
  unfold tag_is. intros Ho Hc. rewrite tag_values_snoc. cbn. rewrite Z.eqb_refl.
  split; [by destruct (tag_values t ws)|]. apply Forall_app. split; [|by constructor].
  destruct o as [o|]; [|by rewrite Ho]. cbn in Hc. apply negb_false_iff, Z.eqb_eq in Hc as ->. apply Ho.
Qed.

Lemma tag_is_snoc_other ws t o t' v : tag_is ws t o -> t' <> t -> tag_is (ws ++ [(t', v)]) t o.
Proof.
  unfold tag_is. intros Ho Hne. rewrite tag_values_snoc. cbn. apply Z.eqb_neq in Hne. by rewrite Hne, app_nil_r.
Qed.

Lemma dynamic_entry_spec ws tags t v :
  tags_of ws tags ->
  dynamic_entry tags t v <> Panic /\
  (dynamic_entry tags t v = Ok None -> t = DT_NULL) /\
  (forall tags', dynamic_entry tags t v = Ok (Some tags') -> tags_of (ws ++ [(t, v)]) tags').
Proof.
  intros [Hp Hn H1 H2 H3 H4]. destruct tags as [needed vaddr size verneed num]. cbn in *.
  assert (Forall (fun w => w.1 <> DT_NULL) (ws ++ [(t, v)]) <-> t <> DT_NULL) as Hplain.
  { rewrite Forall_app, Forall_singleton. cbn. tauto. }
  assert (t <> DT_NEEDED -> needed = tag_values DT_NEEDED (ws ++ [(t, v)])) as Hneed.
  { intros Hne. rewrite tag_values_snoc, <- Hn. cbn. apply Z.eqb_neq in Hne. by rewrite Hne, app_nil_r. }
  destruct (Z.eqb_spec t DT_NULL) as [-> |E0]; [done|].
  destruct (Z.eqb_spec t DT_NEEDED) as [-> |E1].
  { split_and!; [done..|]. intros tags' [= <-]. split; cbn; try (by apply tag_is_snoc_other); [by apply Hplain|].
    rewrite tag_values_snoc. cbn. by rewrite Hn. }
  destruct (Z.eqb_spec t DT_STRTAB) as [-> |E2];
    [|destruct (Z.eqb_spec t DT_STRSZ) as [-> |E3];
      [|destruct (Z.eqb_spec t DT_VERNEED) as [-> |E4]; [|destruct (Z.eqb_spec t DT_VERNEEDNUM) as [-> |E5]]]].
  1-4: destruct (conflicts _ v) eqn:Hc; [done|]; split_and!; [done..|]; intros tags' [= <-];
    split; cbn; [by apply Hplain|by apply Hneed|..]; try (by apply tag_is_snoc_other); by eapply tag_is_snoc_same.
  split_and!; [done..|]. intros tags' [= <-]. split; cbn; [by apply Hplain|by apply Hneed|..]; by apply tag_is_snoc_other.
Qed.

(** ** Version records *)

(** A 32-bit offset, read as a signed number. *)
Definition signed32 (v : Z) : Z := if v <? 2147483648 then v else v - 4294967296.

Lemma land_bit31 v : 0 <= v < 4294967296 -> Z.land v 2147483648 = if v <? 2147483648 then 0 else 2147483648.
Proof.
  intros Hv. change 2147483648 with (2 ^ 31). apply Z.bits_inj'. intros n Hn. rewrite Z.land_spec, Z.pow2_bits_eqb by lia.
  destruct (Z.eqb_spec 31 n) as [<- |Hne].
  - rewrite andb_true_r, Z.testbit_odd, Z.shiftr_div_pow2 by lia. destruct (Z.ltb_spec v (2 ^ 31)).
    + by rewrite Z.div_small, Z.bits_0 by lia.
    + rewrite <- (Z.div_unique v (2 ^ 31) 1 (v - 2 ^ 31)) by lia. by rewrite Z.pow2_bits_true.
  - rewrite andb_false_r. destruct (v <? 2 ^ 31); [by rewrite Z.bits_0|]. by rewrite Z.pow2_bits_false.
Qed.

Lemma advance_spec currOff rel minOff maxOff entrySize :
  0 <= currOff <= MaxInt64 -> 0 <= rel < 4294967296 ->
  advanceELFRelativeOffset currOff rel minOff maxOff entrySize <> Panic /\
  forall off, advanceELFRelativeOffset currOff rel minOff maxOff entrySize = Ok off ->
    rel <> 0 /\ off = currOff + signed32 rel /\ 0 <= off /\ minOff <= off.
Proof.
  intros Hc Hr. unfold advanceELFRelativeOffset. destruct (Z.eqb_spec rel 0); [by split|].
  rewrite land_bit31 by done. unfold signed32, MaxInt64 in *. destruct (Z.ltb_spec rel 2147483648); cbn.
  - rewrite u64_add_small by lia. destruct (_ || _) eqn:E; [by split|]. split; [done|]. intros off [= <-].
    apply orb_false_iff in E as [E%Z.ltb_ge _]. split_and!; [done|lia..].
  - destruct (Z.ltb_spec currOff (4294967296 - rel)); cbn; [by split|]. destruct (_ || _) eqn:E; [by split|].
    split; [done|]. intros off [= <-]. apply orb_false_iff in E as [E%Z.ltb_ge _]. split_and!; [done|lia..].
Qed.

Section chains.
Context `{ReaderAt R} (r : R) (order : ByteOrder) (strtab : list byte).

Definition name_at (off : Z) (s : string) : Prop := c_string strtab (Z.to_nat off) s /\ s <> ""%string.

(** [n] more auxiliary entries from an offset, each naming a version of the
    library and pointing to the next. *)
Inductive aux_chain (lib : string) : nat -> Z -> list VersionRequirement -> Prop :=
| aux_last off buf name :
    ReadAt r 16 off = Some buf -> name_at (value_at order buf 8 12) name -> value_at order buf 12 16 = 0 ->
    aux_chain lib 1 off [mkVersion lib name (value_at order buf 4 6)]
| aux_more n off buf name vs :
    ReadAt r 16 off = Some buf -> name_at (value_at order buf 8 12) name -> value_at order buf 12 16 <> 0 ->
    aux_chain lib n (off + signed32 (value_at order buf 12 16)) vs ->
    aux_chain lib (S n) off (mkVersion lib name (value_at order buf 4 6) :: vs).

(** The entries of one record. *)
Definition record_entries (off : Z) (buf : list byte) (vs : list VersionRequirement) : Prop :=
  exists lib, name_at (value_at order buf 4 8) lib /\
    match Z.to_nat (value_at order buf 2 4) with
    | O => vs = []
    | n => aux_chain lib n (off + value_at order buf 8 12) vs
    end.

(** [n] more records from an offset; a record of an unknown version ends the
    list, with a warning. *)
Inductive record_chain : nat -> Z -> list VersionRequirement -> option Z -> Prop :=
| record_unknown n off buf :
    ReadAt r 16 off = Some buf -> value_at order buf 0 2 <> 1 -> record_chain n off [] (Some (value_at order buf 0 2))
| record_last off buf vs :
    ReadAt r 16 off = Some buf -> value_at order buf 0 2 = 1 -> record_entries off buf vs -> value_at order buf 12 16 = 0 ->
    record_chain 1 off vs None
| record_more n off buf vs vs' unknown :
    ReadAt r 16 off = Some buf -> value_at order buf 0 2 = 1 -> record_entries off buf vs -> value_at order buf 12 16 <> 0 ->
    record_chain n (off + signed32 (value_at order buf 12 16)) vs' unknown ->
    record_chain (S n) off (vs ++ vs') unknown.

(** What a chain of records leaves in a report. *)
Definition versions_of (vs : versions) (reqs : list VersionRequirement) (unknown : option Z) : versions :=
  mkVersions (vs_requirements vs ++ reqs) (match unknown with Some _ => true | None => vs_unsupported vs end)
    (vs_warnings vs ++ option_list (unsupported_warning <$> unknown)).

End chains.

Section inspection.
Context (start : inputAccounting).
Abbreviation spends := (spends start).

Lemma spends_dynamic_entries k n i dynBytes order tags :
  length dynBytes = ((i + n) * 16)%nat -> tags_of (dyn_words order dynBytes i) tags ->
  spends k (dynamic_entries n i dynBytes order tags) (fun _ => k) (declared_tags order dynBytes (i + n)).
Proof.
  revert i tags. induction n as [|n IH]; intros i tags Hl Ht; cbn [dynamic_entries].
  { destruct (Nat.eqb_spec i 0) as [-> |]; [|apply spends_refuse]. apply spends_ret. exists []. split; [done|]. by left. }
  change (Z.to_nat dynamicEntrySize) with 16%nat. cbv zeta.
  eapply spends_bind; [apply spends_field; lia|]. intros dTag [Et _].
  eapply spends_bind; [apply spends_field; lia|]. intros dVal [Ev _]. cbv beta.
  assert (dyn_words order dynBytes (S i) = dyn_words order dynBytes i ++ [(dTag, dVal)]) as Hstep.
  { unfold dyn_words. rewrite seq_S, fmap_app. cbn. unfold dyn_word, value_at. by rewrite Et, Ev. }
  destruct (dynamic_entry_spec _ _ dTag dVal Ht) as (Hnp & Hnull & Hnext).
  eapply spends_bind; [apply (spends_lift start k _ (fun o => dynamic_entry tags dTag dVal = Ok o) Hnp); by intros o Ho|].
  intros [tags'|] Ho; cbv beta.
  - rewrite Nat.add_succ_r, <- Nat.add_succ_l. apply IH; [rewrite Hl; lia|]. rewrite Hstep. by apply Hnext.
  - apply spends_ret. exists (dyn_words order dynBytes i). split; [done|]. right.
    specialize (Hnull Ho). rewrite Hnull in Et. exists dVal, (dyn_word order dynBytes <$> seq (S i) n).
    unfold dyn_words. rewrite seq_app, fmap_app. cbn. unfold dyn_word at 2, value_at. by rewrite <- Et, <- Ev.
Qed.

Lemma spends_dynamic k dynBytes numDyn order :
  0 <= numDyn -> length dynBytes = (Z.to_nat numDyn * 16)%nat ->
  spends k (scanDynamicEntriesBuf dynBytes numDyn order) (fun _ => k) (declared_tags order dynBytes (Z.to_nat numDyn)).
Proof. intros Hn Hl. apply spends_dynamic_entries; [done|]. by split. Qed.

Lemma value_at_range order data lo hi : 0 <= value_at order data lo hi < 256 ^ Z.of_nat (hi - lo).
Proof.
  unfold value_at. set (b := take (hi - lo) (drop lo data)).
  assert (0 <= Uint order b < 256 ^ Z.of_nat (length b)) as [H1 H2].
  { unfold Uint. destruct order; [apply le_val_range|]. rewrite <- length_reverse. apply le_val_range. }
  split; [done|]. eapply Z.lt_le_trans; [exact H2|]. apply Z.pow_le_mono_r; [lia|]. unfold b. rewrite length_take. lia.
Qed.

Lemma value_at_u64 order data lo : uint64_range (value_at order data lo (lo + 8)).
Proof. pose proof (value_at_range order data lo (lo + 8)) as Hr. by replace (lo + 8 - lo)%nat with 8%nat in Hr by lia. Qed.

(** Values of tags are numbers of the table. *)
Lemma tag_values_range order dynBytes n ws rest t :
  dyn_words order dynBytes n = ws ++ rest -> Forall uint64_range (tag_values t ws).
Proof.
  intros Hw. apply Forall_fmap, List.Forall_forall. intros w [Hin _]%List.filter_In.
  assert (w ∈ dyn_words order dynBytes n) as He by (rewrite Hw; apply elem_of_app; left; by apply list_elem_of_In).
  apply list_elem_of_fmap in He as (i & -> & _). cbn.
  replace (i * 16 + 16)%nat with (i * 16 + 8 + 8)%nat by lia. apply value_at_u64.
Qed.

Lemma tag_is_range ws t o v : Forall uint64_range (tag_values t ws) -> tag_is ws t o -> o = Some v -> uint64_range v.
Proof.
  intros Hall Ho ->. destruct Ho as [Hne Heq]. destruct (tag_values t ws) as [|w l]; [done|].
  apply Forall_cons in Hall as [? _]. apply Forall_cons in Heq as [-> _]. done.
Qed.

Lemma declared_range order dynBytes n tags :
  declared_tags order dynBytes n tags ->
  Forall uint64_range (neededOffsets tags) /\ (forall v, strtabVaddr tags = Some v -> uint64_range v) /\
  (forall v, strtabSize tags = Some v -> uint64_range v) /\ (forall v, verneedVaddr tags = Some v -> uint64_range v) /\
  (forall v, verneedNum tags = Some v -> uint64_range v).
Proof.
  intros (ws & [_ Hn H1 H2 H3 H4] & Hw).
  assert (forall t, Forall uint64_range (tag_values t ws)) as Hall.
  { intros t. destruct Hw as [[_ ->]|(v & rest & Hw)]; [constructor|]. by eapply tag_values_range. }
  split; [rewrite Hn; apply Hall|]. split_and!; intros v Hv; by (eapply tag_is_range; [apply Hall| |exact Hv]).
Qed.

Lemma spends_name k strtab off : 0 <= off -> spends k (scanBoundedCString strtab off true) (fun _ => k) (name_at strtab off).
Proof.
  intros Hoff. eapply spends_impl; [by apply spends_cstring|intros; cbv beta; lia|]. intros s [Hs Hne]. split; [done|by apply Hne].
Qed.

Lemma spends_needed k strtab offsets :
  Forall uint64_range offsets ->
  spends k (needed_names strtab offsets) (fun _ => k) (Forall2 (name_at strtab) offsets).
Proof.
  induction 1 as [|off offsets Hoff _ IH]; cbn [needed_names]; [by apply spends_ret|].
  eapply spends_bind; [apply spends_name, Hoff|]. intros name Hname.
  eapply spends_bind; [exact IH|]. intros names Hnames. apply spends_ret. by constructor.
Qed.

(** An entry of sixteen bytes, charged and read. *)
Lemma spends_entry `{ReaderAt R} {B} k (r : R) off (f : list byte -> metered B) k' Q :
  0 <= k -> (forall buf, length buf = 16%nat -> ReadAt r 16 off = Some buf -> off + 16 <= MaxInt64 -> spends k (f buf) k' Q) ->
  spends (k + 16) (buf ← readIntoAt r (Z.to_nat vernauxEntrySize) off; f buf) k' Q.
Proof.
  intros Hk Hf. eapply spends_bind.
  - apply spends_readIntoAt. change (Z.of_nat (Z.to_nat vernauxEntrySize)) with 16. lia.
  - change (Z.to_nat vernauxEntrySize) with 16%nat. intros buf [Hl [?|[Hread Hmax]]]; [done|].
    replace (k + 16 - Z.of_nat 16) with k by lia. by apply Hf.
Qed.

Lemma spends_value {B} k order data lo hi (f : Z -> metered B) k' Q :
  (lo <= hi <= length data)%nat -> spends k (f (value_at order data lo hi)) k' Q ->
  spends k (v ← field order data lo hi; f v) k' Q.
Proof. intros Hl Hf. eapply spends_bind; [by apply spends_field|]. by intros v [-> _]. Qed.

Section versions.
Context `{ReaderAt R} (r : R) (order : ByteOrder) (strtab : list byte).

Lemma spends_vernaux k n verneedOff avail curr parent lib visited reqs :
  0 <= k -> 0 <= curr ->
  spends k (vernaux_entries n r order verneedOff avail curr parent lib strtab visited reqs) (fun _ => k)
    (fun out => exists vs, aux_chain r order strtab lib (S n) curr vs /\ out = reqs ++ vs).
Proof.
  intros Hk. revert curr visited reqs. induction n as [|n IH]; intros curr visited reqs Hc; cbn [vernaux_entries].
  all: eapply spends_bind; [apply spends_charge_free, chargeVersionRecord_charges|]; intros [] _.
  all: eapply spends_bind; [by apply (spends_charge start k _ 16); [apply chargeMetadata_charges|]|]; intros [] _; cbv beta zeta.
  all: repeat (destruct (_ || _) || destruct (_ && _) || destruct (bool_decide _); [apply spends_refuse|]).
  all: apply spends_entry; [done|]; intros buf Hl Hread Hmax; do 3 (apply spends_value; [lia|]).
  all: eapply spends_bind; [apply spends_name, value_at_range|]; intros name Hname; cbv beta zeta.
  all: destruct (Z.eqb_spec (value_at order buf 12 16) 0) as [Hz|Hz]; cbn [negb]; try apply spends_refuse.
  - apply spends_ret. eexists. split; [|done]. by eapply aux_last.
  - destruct (advance_spec curr (value_at order buf 12 16) verneedOff (u64_add verneedOff avail) vernauxEntrySize) as [Hnp Hadv];
      [lia|apply (value_at_range order buf 12 16)|].
    eapply spends_bind; [by apply (spends_lift start k _ _ Hnp Hadv)|]. intros off (_ & -> & Hpos & _). cbv beta.
    eapply spends_impl; [by apply IH|done|]. intros out (vs & Hvs & ->).
    eexists. split; [by eapply aux_more|]. by rewrite <- List.app_assoc.
Qed.

Lemma clip_all (l : list byte) size : Z.of_nat (length l) <= size -> clip l size = l.
Proof. intros Hs. unfold clip. by rewrite (proj2 (Z.ltb_ge size _)). Qed.

(** The entries of one record. *)
Lemma spends_record_entries k off buf verneedOff avail lib reqs :
  0 <= k -> 0 <= off -> off + 16 <= MaxInt64 -> name_at strtab (value_at order buf 4 8) lib ->
  spends k (if 0 <? value_at order buf 2 4 then
              parseVernauxChainReaderAt r order verneedOff avail (u64_add off (value_at order buf 8 12)) (value_at order buf 2 4) off
                lib strtab (Z.of_nat (length strtab)) reqs
            else mret reqs) (fun _ => k)
    (fun out => exists vs, record_entries r order strtab off buf vs /\ out = reqs ++ vs).
Proof.
  intros Hk Ho Hmax Hlib. pose proof (value_at_range order buf 8 12) as Haux. pose proof (value_at_range order buf 2 4) as Hcnt.
  change (256 ^ Z.of_nat (12 - 8)) with 4294967296 in Haux. unfold MaxInt64 in Hmax.
  rewrite u64_add_small by lia. destruct (Z.ltb_spec 0 (value_at order buf 2 4)) as [Hpos|Hz].
  - unfold parseVernauxChainReaderAt. rewrite clip_all by lia.
    destruct (Z.to_nat (value_at order buf 2 4)) as [|n] eqn:En; [lia|].
    eapply spends_impl; [apply spends_vernaux; lia|intros; cbv beta; lia|].
    intros out (vs & Hvs & ->). exists vs. split; [|done]. exists lib. by rewrite En.
  - apply spends_ret. exists []. split; [|by rewrite app_nil_r]. exists lib. split; [done|].
    by replace (Z.to_nat (value_at order buf 2 4)) with 0%nat by lia.
Qed.

(** What comes after a record: nothing, or where the next one is. *)
Lemma advance_record_spec last curr next verneedOff avail :
  0 <= curr <= MaxInt64 -> 0 <= next < 4294967296 ->
  advanceVerneedOffset last curr next verneedOff avail <> Panic /\
  forall off, advanceVerneedOffset last curr next verneedOff avail = Ok off ->
    if last : bool then next = 0 else next <> 0 /\ off = curr + signed32 next /\ 0 <= off.
Proof.
  intros Hc Hn. unfold advanceVerneedOffset. destruct last; cbn.
  - destruct (Z.eqb_spec next 0); cbn; by split.
  - destruct (Z.eqb_spec next 0); [by split|].
    destruct (advance_spec curr next verneedOff (u64_add verneedOff avail) verneedEntrySize Hc Hn) as [Hnp Hadv].
    split; [done|]. intros off Hoff%Hadv. tauto.
Qed.

Lemma validateVerneedAux_total vnCnt vnAux curr verneedOff avail : validateVerneedAuxOffset vnCnt vnAux curr verneedOff avail <> Panic.
Proof. unfold validateVerneedAuxOffset. by repeat case_match. Qed.

Lemma spends_records k n verneedOff avail curr visited vs :
  0 <= k -> 0 <= curr ->
  spends k (verneed_records n r order verneedOff avail curr strtab visited vs) (fun _ => k)
    (fun out => exists reqs unknown, record_chain r order strtab (S n) curr reqs unknown /\ out = versions_of vs reqs unknown).
Proof.
  intros Hk. revert curr visited vs. induction n as [|n IH]; intros curr visited vs Hc; cbn [verneed_records].
  all: eapply spends_bind; [apply spends_charge_free, chargeVersionRecord_charges|]; intros [] _.
  all: eapply spends_bind; [by apply (spends_charge start k _ 16); [apply chargeMetadata_charges|]|]; intros [] _; cbv beta zeta.
  all: repeat (destruct (_ || _) || destruct (bool_decide _); [apply spends_refuse|]).
  all: apply spends_entry; [done|]; intros buf Hl Hread Hmax; apply spends_value; [lia|].
  all: destruct (Z.eqb_spec (value_at order buf 0 2) 1) as [Hver|Hver]; cbn [negb].
  all: try (eapply spends_bind; [apply spends_charge_free, chargeString_charges; lia|]; intros [] _; apply spends_ret;
    eexists [], _; split; [by eapply record_unknown|]; unfold versions_of; by rewrite app_nil_r).
  all: do 4 (apply spends_value; [lia|]).
  all: eapply spends_bind; [apply (spends_lift start k _ (fun _ => True)); [apply validateVerneedAux_total|done]|]; intros [] _; cbv beta.
  all: eapply spends_bind; [apply spends_name, value_at_range|]; intros lib Hlib; cbv beta.
  all: eapply spends_bind; [by apply spends_record_entries|]; intros out (es & Hes & ->); cbv beta zeta.
  1: destruct (advance_record_spec true curr (value_at order buf 12 16) verneedOff avail) as [Hnp Hadv];
    [lia|apply (value_at_range order buf 12 16)|].
  2: destruct (advance_record_spec false curr (value_at order buf 12 16) verneedOff avail) as [Hnp Hadv];
    [lia|apply (value_at_range order buf 12 16)|].
  all: eapply spends_bind; [by apply (spends_lift start k _ _ Hnp Hadv)|].
  - intros off Hz. apply spends_ret. eexists es, None. split; [by eapply record_last|]. unfold versions_of. cbn. by rewrite app_nil_r.
  - intros off (Hz & -> & Hpos). cbv beta. eapply spends_impl; [by apply IH|done|]. intros out (reqs & unknown & Hch & ->).
    exists (es ++ reqs), unknown. split; [by eapply record_more|]. unfold versions_of. cbn. by rewrite List.app_assoc.
Qed.

End versions.

(** ** The whole section *)

Section whole.
Context `{ReaderAt R} (r : R) (fileSize : Z) (Hfile : uint64_range fileSize).

(** Bytes of the file. *)
Definition file_bytes (off size : Z) (data : list byte) : Prop :=
  Z.of_nat (length data) = size /\ (size = 0 \/ ReadAt r (Z.to_nat size) off = Some data).

Lemma spends_file k off size : 0 <= k -> 0 <= size -> spends (k + size) (readExactAt r off size) (fun _ => k) (file_bytes off size).
Proof.
  intros Hk Hs. eapply spends_impl; [apply (spends_readExactAt start (k + size)); lia|intros; cbv beta; lia|].
  intros data [Hl [Hz|[Hread _]]]; (split; [done|auto]).
Qed.

Lemma spends_translate k segs vaddr size :
  Forall (segment_ok fileSize) segs -> uint64_range vaddr -> 0 <= size ->
  spends k (lift (translateVaddr segs fileSize vaddr size)) (fun _ => k) (fun off => mapped segs vaddr size off /\ 0 <= off).
Proof using Hfile.
  intros Hok Hv Hs. apply spends_lift.
  - unfold translateVaddr. destruct (_ <? _); [done|]. rewrite match_segments_spec by done.
    case_bool_decide; cbn; [|done]. by destruct (length _) as [|[|?]].
  - intros off Hoff. apply translateVaddr_mapped in Hoff as [_ Hoff]; [|done..]. split; [done|].
    destruct Hoff as (pre & seg & post & -> & [Hc _] & _ & _ & ->). apply Forall_app in Hok as [_ [((? & _) & _) _]%Forall_cons]. lia.
Qed.

(** The string table the tags point to, where something needs it. *)
Definition names_table (segs : list loadSegment) (tags : dynamicTags) (strtab : list byte) : Prop :=
  match strtabVaddr tags, strtabSize tags with
  | Some vaddr, Some size => strtab = [] \/ exists off, mapped segs vaddr size off /\ file_bytes off size strtab
  | _, _ => strtab = [] /\ neededOffsets tags = []
  end.

Lemma spends_strtab k segs tags order dynBytes n :
  0 <= k -> Forall (segment_ok fileSize) segs -> declared_tags order dynBytes n tags ->
  spends k (resolveDynamicStrtabReaderAt r segs fileSize tags) (fun _ => k) (names_table segs tags).
Proof using Hfile.
  intros Hk Hok Hdecl. destruct (declared_range _ _ _ _ Hdecl) as (_ & Hr1 & Hr2 & _).
  unfold resolveDynamicStrtabReaderAt. destruct (negb _) eqn:Hneed.
  { apply spends_ret. unfold names_table. apply negb_true_iff, orb_false_iff in Hneed as [Hneed _].
    assert (neededOffsets tags = []) by by destruct (neededOffsets tags). repeat case_match; auto. }
  unfold names_table. destruct (strtabVaddr tags) as [vaddr|], (strtabSize tags) as [size|]; try apply spends_refuse.
  specialize (Hr1 _ eq_refl). specialize (Hr2 _ eq_refl). destruct (MaxABIStringBytesPerInput <? size); [apply spends_refuse|].
  eapply spends_bind; [apply (spends_charge start k _ size); [apply chargeMetadata_charges|]; apply Hr2|]. intros [] _.
  eapply spends_bind; [apply spends_translate; [done..|apply Hr2]|]. intros off [Hmap _]. cbv beta.
  eapply spends_impl; [apply spends_file; [done|apply Hr2]|intros; cbv beta; lia|]. intros data Hd. right. by exists off.
Qed.

(** The libraries and versions that a dynamic section declares. *)
Definition versions_declared (order : ByteOrder) (segs : list loadSegment) (tags : dynamicTags) (strtab : list byte)
    (vs : option versions) : Prop :=
  match verneedVaddr tags, verneedNum tags with
  | Some vaddr, Some num =>
      if num =? 0 then vs = None
      else exists off reqs unknown, mapped segs vaddr 16 off /\
        record_chain r order strtab (Z.to_nat num) off reqs unknown /\ vs = Some (versions_of (mkVersions [] false []) reqs unknown)
  | _, _ => vs = None
  end.

Definition dynamic_declared (order : ByteOrder) (segs : list loadSegment) (dynamic : loadSegment)
    (deps : list string) (vs : option versions) : Prop :=
  exists dynBytes tags strtab,
    file_bytes (seg_off dynamic) (seg_filesz dynamic) dynBytes /\
    declared_tags order dynBytes (Z.to_nat (seg_filesz dynamic / 16)) tags /\
    names_table segs tags strtab /\ Forall2 (name_at strtab) (neededOffsets tags) deps /\
    versions_declared order segs tags strtab vs.

Lemma spends_verneed k segs order vaddr num strtab :
  0 <= k -> Forall (segment_ok fileSize) segs -> uint64_range vaddr -> 0 < num ->
  spends k (parseVerneedReaderAt r segs fileSize order vaddr num strtab) (fun _ => k)
    (fun vs => exists off reqs unknown, mapped segs vaddr 16 off /\
      record_chain r order strtab (Z.to_nat num) off reqs unknown /\ vs = versions_of (mkVersions [] false []) reqs unknown).
Proof using Hfile.
  intros Hk Hok Hv Hnum. unfold parseVerneedReaderAt. destruct (_ <? _); [apply spends_refuse|].
  rewrite (proj2 (Z.ltb_lt 0 num)) by done.
  eapply spends_bind; [apply spends_charge_free, checked_charges|]. intros [] _.
  eapply spends_bind; [by apply spends_translate|]. intros off [Hmap Hoff]. cbv beta zeta.
  destruct (Z.to_nat num) as [|n] eqn:En; [lia|].
  eapply spends_impl; [by apply spends_records|intros; cbv beta; lia|]. intros vs (reqs & unknown & Hch & ->).
  by exists off, reqs, unknown.
Qed.

Lemma names_table_clip segs tags strtab : names_table segs tags strtab -> clip strtab (default 0 (strtabSize tags)) = strtab.
Proof.
  intros Hn. assert (strtab = [] \/ Z.of_nat (length strtab) <= default 0 (strtabSize tags)) as [-> |Hl].
  - unfold names_table in Hn. destruct (strtabVaddr tags), (strtabSize tags) as [size|]; try (by left; apply Hn).
    destruct Hn as [->|(off & _ & Hl & _)]; [by left|right]. cbn. lia.
  - unfold clip. by destruct (_ <? _); [apply take_nil|].
  - by apply clip_all.
Qed.

Lemma spends_dynamic_section k order segs dynamic :
  0 <= k -> Forall (segment_ok fileSize) segs -> region_ok fileSize dynamic ->
  spends k (parseDynamicMetadataReaderAt r dynamic segs fileSize order) (fun _ => k)
    (fun out => dynamic_declared order segs dynamic out.1 out.2).
Proof using Hfile.
  intros Hk Hok (_ & Hsz & _). unfold parseDynamicMetadataReaderAt, dynamicEntrySize.
  destruct (Z.eqb_spec (seg_filesz dynamic mod 16) 0) as [Hmod|]; cbn [negb]; [|apply spends_refuse].
  assert (seg_filesz dynamic = seg_filesz dynamic / 16 * 16) as Hdiv by (pose proof (Z.div_mod (seg_filesz dynamic) 16); lia).
  cbv zeta. destruct (_ <? _); [apply spends_refuse|].
  eapply spends_bind; [by apply (spends_charge start k _ (seg_filesz dynamic)); [apply chargeMetadata_charges|]|]. intros [] _.
  eapply spends_bind; [by apply spends_file|]. intros dynBytes Hbytes. cbv beta.
  eapply spends_bind; [apply spends_dynamic; [lia|destruct Hbytes; lia]|]. intros tags Htags.
  eapply spends_bind; [apply (spends_lift start k _ (fun _ => True)); [unfold validateVersionTagPairing; by repeat case_match|done]|].
  intros [] _. eapply spends_bind; [by eapply spends_strtab|]. intros strtab Hstr. cbv beta.
  destruct (declared_range _ _ _ _ Htags) as (Hr0 & _ & _ & Hr3 & Hr4).
  unfold parseNeededDependencies. rewrite (names_table_clip segs tags strtab) by done.
  eapply (spends_bind start k _ (fun _ => k)); [destruct (_ <? _); [apply spends_refuse|by apply spends_needed]|].
  intros deps Hdeps. cbv beta.
  assert (forall vs, versions_declared order segs tags strtab vs -> dynamic_declared order segs dynamic deps vs) as Hall.
  { intros vs Hvs. by exists dynBytes, tags, strtab. }
  unfold versions_declared in Hall.
  destruct (verneedVaddr tags) as [vaddr|], (verneedNum tags) as [num|]; try (by apply spends_ret, Hall).
  destruct (Z.eqb_spec num 0) as [-> |Hnum]; [by apply spends_ret, Hall|].
  destruct (strtabVaddr tags), (strtabSize tags); try apply spends_refuse.
  specialize (Hr3 _ eq_refl). specialize (Hr4 _ eq_refl).
  eapply spends_bind; [apply spends_verneed; [done..|destruct Hr4; lia]|]. intros vs (off & reqs & unknown & Hmap & Hch & ->).
  apply spends_ret, Hall. by exists off, reqs, unknown.
Qed.

(** The interpreter: the text of its segment up to the first zero. *)
Definition interpreter_declared (interp : option loadSegment) (path : option string) : Prop :=
  match interp with
  | None => path = None
  | Some seg => exists raw s, file_bytes (seg_off seg) (seg_filesz seg) raw /\ name_at raw 0 s /\ path = Some s
  end.

Lemma spends_interpreter k interp :
  0 <= k -> (forall seg, interp = Some seg -> 0 <= seg_filesz seg) ->
  spends k (read_interpreter r interp) (fun _ => k) (interpreter_declared interp).
Proof.
  intros Hk Hsz. unfold read_interpreter. destruct interp as [seg|]; [|by apply spends_ret].
  specialize (Hsz _ eq_refl).
  eapply spends_bind; [by apply (spends_charge start k _ (seg_filesz seg)); [apply chargeMetadata_charges|]|]. intros [] _.
  eapply spends_bind; [by apply spends_file|]. intros raw Hraw. cbv beta.
  pose proof (IndexByte_zero raw) as Hzero. destruct (IndexByte raw x00) as [[|idx]|]; try apply spends_refuse.
  eapply spends_bind; [apply spends_charge_free, chargeString_charges; lia|]. intros [] _.
  assert (S idx < length raw)%nat as Hlen by by destruct Hzero as [?%lookup_lt_Some _].
  rewrite go_slice_ok by lia. apply spends_lift_ok. apply spends_ret. exists raw, (string_of (take (S idx) raw)).
  rewrite drop_0, Nat.sub_0_r. split_and!; [done| |done]. split.
  - exists (S idx). rewrite drop_0. split; [done|]. by rewrite String.list_byte_of_string_of_list_byte.
  - intros Hs%(f_equal bytes_of). rewrite String.list_byte_of_string_of_list_byte in Hs.
    apply (f_equal length) in Hs. rewrite length_take, Nat.min_l in Hs by lia. done.
Qed.

End whole.
End inspection.
