(* ===== verification/AbiReport.v ===== *)
(** * Inspection reports

    Inspection of any file ends within its budgets, and a report states what
    the file declares. *)

From S2P Require Import Prelude GoStrings GoIO MicroarchSelect Abi AbiBounds AbiParse.
From stdpp Require Import base list strings gmap.
From Stdlib Require Import ZArith Lia Strings.Ascii Strings.Byte.

Local Open Scope Z_scope.

(** ** Normalised requirements *)

Section normalised.
Context {SS : SliceSort}.

Lemma add_new_elem reqs result v : v ∈ foldl add_new result reqs <-> v ∈ result \/ v ∈ reqs.
Proof.
  revert result. induction reqs as [|q reqs IH]; intros result; cbn; [set_solver|].
  rewrite IH. unfold add_new. case_bool_decide; set_solver.
Qed.

Lemma add_new_NoDup reqs result : NoDup result -> NoDup (foldl add_new result reqs).
Proof.
  revert result. induction reqs as [|q reqs IH]; intros result Hr; cbn; [done|]. apply IH. unfold add_new.
  case_bool_decide; [done|]. apply NoDup_app. split_and!; [done|set_solver|apply NoDup_singleton].
Qed.

Lemma normalize_elem reqs v : v ∈ normalizeVersionRequirements reqs <-> v ∈ reqs.
Proof.
  unfold normalizeVersionRequirements. destruct (_ <=? 1)%nat; [done|].
  rewrite sort_slice_Permutation, add_new_elem. set_solver.
Qed.

Lemma normalize_NoDup reqs : NoDup (normalizeVersionRequirements reqs).
Proof.
  unfold normalizeVersionRequirements. destruct (Nat.leb_spec (length reqs) 1).
  - destruct reqs as [|? [|? ?]]; [constructor|apply NoDup_singleton|cbn in *; lia].
  - rewrite sort_slice_Permutation. apply add_new_NoDup. constructor.
Qed.

End normalised.

(** ** Reports *)

Section report.
Context `{ReaderAt R} {SS : SliceSort} (Type_String Machine_String : Z -> string).
Context (r : R) (fileSize : Z).

(** What the headers, the interpreter and the dynamic section of a file
    declare. *)
Record declaration := mkDeclaration {
  dc_type : Z;
  dc_interpreter : option string;
  dc_deps : list string;
  dc_versions : option versions
}.

Definition declares (d : declaration) : Prop :=
  exists header phTable p,
    good_header r header /\ dc_type d = hd_type header /\
    file_bytes r (hd_phoff header) (header_table header) phTable /\
    programs_of fileSize (decoded_headers (header_order header) phTable (hd_phentsize header) (Z.to_nat (hd_phnum header))) p /\
    interpreter_declared r (interpProg p) (dc_interpreter d) /\
    match dynamicProg p with
    | None => dc_deps d = [] /\ dc_versions d = None
    | Some dynamic => dynamic_declared r (header_order header) (loads p) dynamic (dc_deps d) (dc_versions d)
    end.

(** Programs with an interpreter are dynamic, others static if they need no
    library. *)
Definition linkage_of (d : declaration) : LinkageForm :=
  match dc_interpreter d, dc_deps d with
  | Some _, _ => LinkageDynamic
  | None, [] => if dc_type d =? ET_DYN then LinkageStaticPIE else LinkageStatic
  | None, _ => LinkageAmbiguous
  end.

(** A report with the contents of a declaration. *)
Record reports (report : VariantABIReport) (d : declaration) : Prop := {
  rp_has : ab_HasInterpreter report = match dc_interpreter d with Some _ => true | None => false end;
  rp_interpreter : ab_Interpreter report = default ""%string (dc_interpreter d);
  rp_deps : ab_Dependencies report = dc_deps d;
  rp_versions : forall v, v ∈ ab_VersionRequirements report <-> exists vs, dc_versions d = Some vs /\ v ∈ vs_requirements vs;
  rp_once : NoDup (ab_VersionRequirements report);
  rp_linkage : ab_Linkage report = linkage_of d;
  rp_unsupported : ab_Completeness report = MetadataUnsupported <-> exists vs, dc_versions d = Some vs /\ vs_unsupported vs = true
}.

(** ** The whole inspection *)

Section inspection.
Context (start : inputAccounting).
Abbreviation spends := (spends start).

Lemma spends_program_table_read k header :
  0 <= k -> good_header r header ->
  spends (k + header_table header)
    (if 0 <? hd_phnum header then readExactAt r (hd_phoff header) (u64_mul (hd_phnum header) (hd_phentsize header)) else mret [])
    (fun _ => k) (file_bytes r (hd_phoff header) (header_table header)).
Proof.
  intros Hk [_ _ _ He Hn]. unfold header_table, table_size. destruct (Z.ltb_spec 0 (hd_phnum header)) as [Hpos|Hz].
  - assert (u64_mul (hd_phnum header) (hd_phentsize header) = hd_phnum header * hd_phentsize header) as ->
      by (unfold u64_mul; apply to_uint64_small; split; nia).
    apply spends_file; [done|nia].
  - assert (hd_phnum header = 0) as -> by lia. rewrite Z.mul_0_l, Z.add_0_r. apply spends_ret. split; auto.
Qed.

Lemma spends_programs k header phTable :
  uint64_range fileSize -> good_header r header -> file_bytes r (hd_phoff header) (header_table header) phTable ->
  spends k (parseABIProgramHeaders phTable (hd_phnum header) (hd_phentsize header) fileSize (header_order header)) (fun _ => k)
    (programs_of fileSize (decoded_headers (header_order header) phTable (hd_phentsize header) (Z.to_nat (hd_phnum header)))).
Proof.
  intros Hf [_ _ _ He Hn] [Hl _]. unfold header_table, table_size in Hl.
  assert (programs_of fileSize [] (mkPrograms [] None None)) as Hinit by by split.
  unfold parseABIProgramHeaders. destruct He as [Hz|He].
  - rewrite Hz. cbn. by apply spends_ret.
  - apply (spends_program_headers start k (Z.to_nat (hd_phnum header)) 0); [done|lia|cbn; nia|done].
Qed.

Lemma classify_report d header_type machine source :
  dc_type d = header_type ->
  let completeness := match dc_versions d with
    | Some vs => if vs_unsupported vs then MetadataUnsupported else MetadataComplete | None => MetadataAbsent end in
  let warnings := match dc_versions d with Some vs => vs_warnings vs | None => [] end in
  let requirements := match dc_versions d with Some vs => vs_requirements vs | None => [] end in
  let has := match dc_interpreter d with Some _ => true | None => false end in
  let '(linkage, completeness, warnings) := classifyLinkage has (dc_deps d) completeness warnings header_type in
  reports (mkABIReport "" "" "ELFCLASS64" (Type_String header_type) (Machine_String machine) linkage has
    (default "" (dc_interpreter d))%string (dc_deps d) (normalizeVersionRequirements requirements) completeness source warnings) d.
Proof.
  destruct d as [t interp deps vs]. cbn. intros ->.
  destruct (classifyLinkage _ _ _ _ _) as [[linkage completeness] warnings] eqn:Hc. split; cbn; try done.
  - intros v. rewrite normalize_elem. destruct vs as [vs|]; [naive_solver|]. split; [by intros ?%not_elem_of_nil|naive_solver].
  - apply normalize_NoDup.
  - unfold classifyLinkage in Hc. unfold linkage_of. cbn. destruct interp, deps; by injection Hc as <- _ _.
  - transitivity (match vs with Some vs => vs_unsupported vs = true | None => False end); [|destruct vs; naive_solver].
    unfold classifyLinkage in Hc. destruct vs as [[? [|] ?]|], interp, deps; cbn in *; injection Hc as <- <- <-; naive_solver.
Qed.

Lemma spends_inspect k header :
  0 <= k -> uint64_range fileSize -> good_header r header ->
  spends (k + header_table header) (inspectELFABIReaderAtWithAccounting Type_String Machine_String r fileSize header) (fun _ => k)
    (fun report => exists d, declares d /\ reports report d).
Proof.
  intros Hk Hf Hg. pose proof (gh_length _ _ Hg) as Hl. unfold inspectELFABIReaderAtWithAccounting.
  destruct (go_index_ok (E := abi_err) header 5 ltac:(lia)) as (b & -> & Hb). apply spends_lift_ok. cbv zeta.
  assert ((if byte_eqb b ELFDATA2LSB then LittleEndian else BigEndian) = header_order header) as -> by (unfold header_order; by rewrite Hb).
  do 5 (apply spends_value; [lia|]).
  eapply spends_bind; [by apply spends_program_table_read|]. intros phTable Htable. cbv beta.
  eapply spends_bind; [by apply spends_programs|]. intros p Hp. cbv beta.
  eapply spends_bind; [apply spends_interpreter; [done|intros seg Hseg; by apply (po_interp_ok _ _ _ Hp)]|].
  intros interp Hinterp. cbv beta.
  eapply (spends_bind start k _ (fun _ => k) (fun out => match dynamicProg p with
    | None => out.1.2 = [] /\ out.2 = None
    | Some dynamic => dynamic_declared r (header_order header) (loads p) dynamic out.1.2 out.2 end)).
  { destruct (dynamicProg p) as [dynamic|] eqn:Hdyn; [|by apply spends_ret].
    eapply spends_bind; [apply spends_dynamic_section; [done..|apply Hp|by apply (po_dynamic_ok _ _ _ Hp)]|].
    intros [deps vs] Hd. by apply spends_ret. }
  intros [[source deps] vs] Hdyn. cbv beta.
  set (d := mkDeclaration (hd_type header) interp deps vs).
  pose proof (classify_report d (hd_type header) (value_at (header_order header) header 18 20) source eq_refl) as Hrep.
  cbn in Hrep. unfold hd_type in Hrep at 1.
  destruct (classifyLinkage _ _ _ _ _) as [[linkage completeness] warnings]. apply spends_ret.
  exists d. split; [|done]. by exists header, phTable, p.
Qed.

Lemma spends_InspectELFABI :
  uint64_range fileSize -> spends 8 (InspectELFABI_metered Type_String Machine_String r fileSize) (fun _ => 0)
    (fun report => exists d, declares d /\ reports report d).
Proof.
  intros Hf. eapply spends_bind; [by apply spends_preflight|]. intros header Hg. cbv beta.
  by apply (spends_inspect 0).
Qed.

End inspection.
End report.

(** ** What inspection promises *)

Lemma start_credit sh : shared_ok sh -> credit (new_account sh) 8 (mkMeter (new_account sh) 0).
Proof. intros Hsh. split; [|done..]. split; done. Qed.

(** C16. Whatever a file holds, its inspection returns: no index is out of range and no scan
    runs out of its bound. It charges at most 32 MiB of metadata, scans at most 8 MiB of text,
    keeps as much, follows at most 65536 version records, leaves the account shared by an
    artifact within its maximum, and asks the reader for no more than was charged, but for eight
    bytes. *)
Theorem inspection_bounded `{ReaderAt R} {SS : SliceSort} (Type_String Machine_String : Z -> string) (r : R) (fileSize : Z)
    (sh : option ArtifactMetadataAccounting) :
  uint64_range fileSize -> shared_ok sh ->
  let '(result, s) := InspectELFABI_metered Type_String Machine_String r fileSize (mkMeter (new_account sh) 0) in
  result <> Panic /\ 0 <= metadataBytesRead (account s) <= MaxMetadataBytesPerInput /\
  stringScanBytesRead (account s) <= MaxABIStringBytesPerInput /\ retainedStringBytes (account s) <= MaxABIStringBytesPerInput /\
  versionRecords (account s) <= MaxVersionRecordsPerInput /\ shared_ok (shared (account s)) /\
  bytes_asked s <= metadataBytesRead (account s) + 8.
Proof.
  intros Hf Hsh.
  pose proof (spends_InspectELFABI Type_String Machine_String r fileSize (new_account sh) Hf _ (start_credit sh Hsh)) as Hrun.
  destruct (InspectELFABI_metered _ _ _ _ _) as [result s].
  assert (credit (new_account sh) 0 s /\ result <> Panic) as [[Hb (L1 & L2 & L3 & L4) _ Hasked] Hok].
  { destruct result; [by destruct Hrun as [? _]|done|done]. }
  change (metadata_limit (new_account sh)) with MaxMetadataBytesPerInput in L1.
  change (scan_limit (new_account sh)) with MaxABIStringBytesPerInput in L2.
  change (string_limit (new_account sh)) with MaxABIStringBytesPerInput in L3.
  change (record_limit (new_account sh)) with MaxVersionRecordsPerInput in L4.
  destruct Hb. unfold charged in Hasked. split_and!; try done; lia.
Qed.

(** C17. A report states what the file declares: the interpreter is the text of the only
    interpreter segment, the libraries are the names the dynamic section needs, in order, the
    version requirements are those of its version records, each once, and the linkage follows
    from them. *)
Theorem report_sound `{ReaderAt R} {SS : SliceSort} (Type_String Machine_String : Z -> string) (r : R) (fileSize : Z)
    (sh : option ArtifactMetadataAccounting) (report : VariantABIReport) :
  uint64_range fileSize -> shared_ok sh ->
  (InspectELFABIReaderAtWithAccounting Type_String Machine_String r fileSize sh).1 = Ok report ->
  exists d, declares r fileSize d /\ reports report d.
Proof.
  intros Hf Hsh.
  pose proof (spends_InspectELFABI Type_String Machine_String r fileSize (new_account sh) Hf _ (start_credit sh Hsh)) as Hrun.
  unfold InspectELFABIReaderAtWithAccounting. destruct (InspectELFABI_metered _ _ _ _ _) as [result s]. cbn.
  intros ->. apply Hrun.
Qed.

(** An address of a file translates to an offset exactly when one segment and
    no other has bytes there, the whole range lies in that segment, and the
    offset is the segment's, moved by as much as the address. *)
Theorem translateVaddr_exact (segs : list loadSegment) (fileSize vaddr size off : Z) :
  uint64_range fileSize -> uint64_range vaddr -> 0 <= size -> Forall (segment_ok fileSize) segs ->
  translateVaddr segs fileSize vaddr size = Ok off <-> size <= fileSize /\ mapped segs vaddr size off.
Proof. intros. by apply translateVaddr_mapped. Qed.

(** ** A program with an interpreter and one library *)

Definition sample_segment (t off vaddr size : Z) : list byte :=
  le_bytes 4 t ++ le_bytes 4 0 ++ le_bytes 8 off ++ le_bytes 8 vaddr ++ le_bytes 8 0 ++ le_bytes 8 size ++ le_bytes 8 size ++ le_bytes 8 1.

Definition sample_entry (t v : Z) : list byte := le_bytes 8 t ++ le_bytes 8 v.

Definition sample_elf : list byte :=
  [x7f; x45; x4c; x46; x02; x01; x01; x00] ++ le_bytes 8 0 ++ le_bytes 2 3 ++ le_bytes 2 62 ++ le_bytes 4 1 ++ le_bytes 8 0 ++
  le_bytes 8 64 ++ le_bytes 8 0 ++ le_bytes 4 0 ++ le_bytes 2 64 ++ le_bytes 2 56 ++ le_bytes 2 3 ++ le_bytes 2 0 ++ le_bytes 2 0 ++ le_bytes 2 0 ++
  sample_segment PT_LOAD 0 4096 400 ++ sample_segment PT_INTERP 232 0 16 ++ sample_segment PT_DYNAMIC 248 0 96 ++
  bytes_of "/lib/ld.so" ++ le_bytes 6 0 ++
  sample_entry DT_NEEDED 1 ++ sample_entry DT_STRTAB 4440 ++ sample_entry DT_STRSZ 24 ++ sample_entry DT_VERNEED 4464 ++
  sample_entry DT_VERNEEDNUM 1 ++ sample_entry DT_NULL 0 ++
  [x00] ++ bytes_of "libc.so.6" ++ [x00] ++ bytes_of "GLIBC_2.34" ++ [x00] ++ le_bytes 2 0 ++
  le_bytes 2 1 ++ le_bytes 2 1 ++ le_bytes 4 1 ++ le_bytes 4 16 ++ le_bytes 4 0 ++
  le_bytes 4 0 ++ le_bytes 2 0 ++ le_bytes 2 2 ++ le_bytes 4 11 ++ le_bytes 4 0.

Definition sample_report : VariantABIReport :=
  mkABIReport "" "" "ELFCLASS64" "ET_DYN" "EM_X86_64" LinkageDynamic true "/lib/ld.so" ["libc.so.6"%string]
    [mkVersion "libc.so.6" "GLIBC_2.34" 0] MetadataComplete "program_headers/dynamic_metadata" [].

Lemma sample_inspected :
  (InspectELFABIReaderAtWithAccounting (SS := merge_slice_sort) (fun _ => "ET_DYN"%string) (fun _ => "EM_X86_64"%string)
    sample_elf 400 (Some (NewArtifactMetadataAccounting 0))) =
  (Ok sample_report, Some (mkShared MaxArtifactMetadataBytes 431)).
Proof. vm_compute. reflexivity. Qed.

Lemma inspection_bounded_witness :
  let '(result, s) := InspectELFABI_metered (SS := merge_slice_sort) (fun _ => "ET_DYN"%string) (fun _ => "EM_X86_64"%string)
    sample_elf 400 (mkMeter (new_account (Some (NewArtifactMetadataAccounting 0))) 0) in
  result <> Panic /\ 0 <= metadataBytesRead (account s) <= MaxMetadataBytesPerInput /\
  stringScanBytesRead (account s) <= MaxABIStringBytesPerInput /\ retainedStringBytes (account s) <= MaxABIStringBytesPerInput /\
  versionRecords (account s) <= MaxVersionRecordsPerInput /\ shared_ok (shared (account s)) /\
  bytes_asked s <= metadataBytesRead (account s) + 8.
Proof.
  apply (inspection_bounded (SS := merge_slice_sort) (fun _ => "ET_DYN"%string) (fun _ => "EM_X86_64"%string) sample_elf 400
    (Some (NewArtifactMetadataAccounting 0))); done.
Defined.

Lemma report_sound_witness : exists d, declares sample_elf 400 d /\ reports sample_report d.
Proof.
  apply (report_sound (SS := merge_slice_sort) (fun _ => "ET_DYN"%string) (fun _ => "EM_X86_64"%string) sample_elf 400
    (Some (NewArtifactMetadataAccounting 0))); [done..|]. by rewrite sample_inspected.
Defined.

Lemma translateVaddr_exact_witness :
  translateVaddr [mkSegment 0 4096 400 400; mkSegment 400 8192 100 100] 500 4440 24 = Ok 344 /\
  mapped [mkSegment 0 4096 400 400; mkSegment 400 8192 100 100] 4440 24 344.
Proof.
  assert (translateVaddr [mkSegment 0 4096 400 400; mkSegment 400 8192 100 100] 500 4440 24 = Ok 344) as Ht by reflexivity.
  split; [done|]. apply (translateVaddr_exact _ 500); [done..| |done].
  repeat constructor; cbn; unfold MaxUint64; lia.
Defined.
