(* ===== verification/AbiText.v ===== *)
(** * Showing metadata ([internal/pack/abi.go], escapes)

    Names taken from a file are shown with their control characters and broken
    UTF-8 escaped.  The decoder and encoder are those of [unicode/utf8]; the
    loops over the runes of a string have its length as fuel, since a rune takes
    at least one byte.  The theorems say what escaping keeps and removes. *)

From S2P Require Import Prelude GoStrings.
From stdpp Require Import base list strings.
From Stdlib Require Import ZArith Lia Strings.Ascii.

Local Open Scope Z_scope.

(** ** [unicode/utf8] *)

Definition RuneError : Z := 65533.

Definition code (c : ascii) : Z := Z.of_N (chr c).
Definition char_of (z : Z) : ascii := ascii_of_N (Z.to_N z).

Definition inrange (lo hi z : Z) : bool := (lo <=? z) && (z <=? hi).

(** What a first byte says: the size of the rune, and the range of its second
    byte; [None] where no rune starts with it. *)
Definition first_byte (b : Z) : option (nat * Z * Z) :=
  if b <? 128 then Some (1%nat, 0, 0)
  else if inrange 194 223 b then Some (2%nat, 128, 191)
  else if b =? 224 then Some (3%nat, 160, 191)
  else if inrange 225 236 b || inrange 238 239 b then Some (3%nat, 128, 191)
  else if b =? 237 then Some (3%nat, 128, 159)
  else if b =? 240 then Some (4%nat, 144, 191)
  else if inrange 241 243 b then Some (4%nat, 128, 191)
  else if b =? 244 then Some (4%nat, 128, 143)
  else None.

Definition continues (b : Z) : bool := inrange 128 191 b.

(** The rune, and its size; [RuneError] of size 1 where the bytes are no rune. *)
Definition DecodeRuneInString (s : string) : Z * nat :=
  match s with
  | EmptyString => (RuneError, 0%nat)
  | String c0 s1 =>
      let b0 := code c0 in
      match first_byte b0 with
      | None => (RuneError, 1%nat)
      | Some (1%nat, _, _) => (b0, 1%nat)
      | Some (size, lo, hi) =>
          match s1 with
          | EmptyString => (RuneError, 1%nat)
          | String c1 s2 =>
              let b1 := code c1 in
              match size with
              | 2%nat => if inrange lo hi b1 then (Z.land b0 31 * 64 + Z.land b1 63, 2%nat) else (RuneError, 1%nat)
              | _ =>
                  match s2 with
                  | EmptyString => (RuneError, 1%nat)
                  | String c2 s3 =>
                      let b2 := code c2 in
                      match size with
                      | 3%nat =>
                          if inrange lo hi b1 && continues b2
                          then (Z.land b0 15 * 4096 + Z.land b1 63 * 64 + Z.land b2 63, 3%nat) else (RuneError, 1%nat)
                      | _ =>
                          match s3 with
                          | EmptyString => (RuneError, 1%nat)
                          | String c3 _ =>
                              let b3 := code c3 in
                              if inrange lo hi b1 && continues b2 && continues b3
                              then (Z.land b0 7 * 262144 + Z.land b1 63 * 4096 + Z.land b2 63 * 64 + Z.land b3 63, 4%nat)
                              else (RuneError, 1%nat)
                          end
                      end
                  end
              end
          end
      end
  end.

Definition chars (l : list Z) : string := foldr (fun z s => String (char_of z) s) EmptyString l.

Definition surrogate (r : Z) : bool := inrange 55296 57343 r.
Definition MaxRune : Z := 1114111.

(** [utf8.EncodeRune] and [WriteRune] *)
Definition EncodeRune (r : Z) : string :=
  let three r := chars [224 + r / 4096; 128 + r / 64 mod 64; 128 + r mod 64] in
  if inrange 0 127 r then chars [r]
  else if inrange 0 2047 r then chars [192 + r / 64; 128 + r mod 64]
  else if negb (inrange 0 MaxRune r) || surrogate r then three RuneError
  else if r <=? 65535 then three r
  else chars [240 + r / 262144; 128 + r / 4096 mod 64; 128 + r / 64 mod 64; 128 + r mod 64].

Fixpoint sdrop (n : nat) (s : string) : string :=
  match n, s with
  | O, _ => s
  | S n, String _ s => sdrop n s
  | S _, EmptyString => EmptyString
  end.

Fixpoint stake (n : nat) (s : string) : string :=
  match n, s with
  | S n, String c s => String c (stake n s)
  | _, _ => EmptyString
  end.

(** ** Escapes *)

Definition hex_of (d : Z) : ascii := char_of (if d <? 10 then 48 + d else 87 + d).

(** [\xNN], with two digits for a value below 256. *)
Definition hex_escape (z : Z) : string :=
  String (char_of 92) (String (char_of 120) (String (hex_of (z / 16)) (String (hex_of (z mod 16)) EmptyString))).

Definition control (r : Z) : bool := (r <? 32) || (r =? 127) || inrange 128 159 r.

Definition maxDisplayLen : nat := 4096.
Definition truncMarker : string := "...[truncated]".

(** [s[:maxDisplayLen]], and whether it is shorter. *)
Definition cut (s : string) : string * bool :=
  if (maxDisplayLen <? String.length s)%nat then (stake maxDisplayLen s, true) else (s, false).

Definition invalid (r : Z) (size : nat) : bool := (r =? RuneError) && (size =? 1)%nat.

Fixpoint escaped_len (fuel : nat) (s : string) : Z :=
  match fuel, s with
  | S fuel, String _ rest =>
      let '(r, size) := DecodeRuneInString s in
      if invalid r size then 4 + escaped_len fuel rest
      else (if control r then 4 else Z.of_nat size) + escaped_len fuel (sdrop size s)
  | _, _ => 0
  end.

Definition EscapedMetadataLen (s : string) : Z * bool :=
  let '(s, truncated) := cut s in
  (escaped_len (String.length s) s + (if truncated then 14 else 0), truncated).

Fixpoint escaped_runes (fuel : nat) (s : string) : string :=
  match fuel, s with
  | S fuel, String c rest =>
      let '(r, size) := DecodeRuneInString s in
      if invalid r size then (hex_escape (code c) ++ escaped_runes fuel rest)%string
      else ((if control r then hex_escape r else EncodeRune r) ++ escaped_runes fuel (sdrop size s))%string
  | _, _ => EmptyString
  end.

(** What [writeEscapedIntoBuilder] appends. *)
Definition writeEscapedIntoBuilder (s : string) : string :=
  let '(s, truncated) := cut s in
  (escaped_runes (String.length s) s ++ (if truncated then truncMarker else EmptyString))%string.

Definition EscapeMetadata (s : string) : string := writeEscapedIntoBuilder s.

Definition SanitizeName (name : string) : string := EscapeMetadata name.
Definition sanitizeStringSlice (ss : list string) : list string := EscapeMetadata <$> ss.

(** The runes that a reader of UTF-8 sees. *)
Fixpoint runes (fuel : nat) (s : string) : list (Z * nat) :=
  match fuel, s with
  | S fuel, String _ _ => let '(r, size) := DecodeRuneInString s in (r, size) :: runes fuel (sdrop size s)
  | _, _ => []
  end.

(** ** UTF-8 *)

Lemma code_range c : 0 <= code c < 256.
Proof. unfold code, chr. pose proof (N_ascii_bounded c). lia. Qed.

Lemma code_char_of z : 0 <= z < 256 -> code (char_of z) = z.
Proof. intros Hz. unfold code, char_of, chr. rewrite N_ascii_embedding by lia. lia. Qed.

Lemma char_of_code c : char_of (code c) = c.
Proof. unfold code, char_of, chr. rewrite N2Z.id. apply ascii_N_embedding. Qed.

Lemma land_31 z : Z.land z 31 = z mod 32.
Proof. exact (Z.land_ones z 5 ltac:(lia)). Qed.
Lemma land_63 z : Z.land z 63 = z mod 64.
Proof. exact (Z.land_ones z 6 ltac:(lia)). Qed.
Lemma land_15 z : Z.land z 15 = z mod 16.
Proof. exact (Z.land_ones z 4 ltac:(lia)). Qed.
Lemma land_7 z : Z.land z 7 = z mod 8.
Proof. exact (Z.land_ones z 3 ltac:(lia)). Qed.

Lemma inrangeP lo hi z : Bool.reflect (lo <= z <= hi) (inrange lo hi z).
Proof. apply Bool.iff_reflect. unfold inrange. rewrite andb_true_iff, !Z.leb_le. done. Qed.

Lemma append_cons c s t : (String c s ++ t)%string = String c (s ++ t).
Proof. done. Qed.

Definition valid_rune (r : Z) : Prop := 0 <= r <= MaxRune /\ ~ 55296 <= r <= 57343.

(** Comparisons with literals, decided. *)
Ltac compare_all :=
  repeat match goal with
  | |- context [inrange ?a ?b ?z] => destruct (inrangeP a b z); try (exfalso; lia)
  | |- context [?a <? ?b] => destruct (Z.ltb_spec a b); try (exfalso; lia)
  | |- context [?a <=? ?b] => destruct (Z.leb_spec a b); try (exfalso; lia)
  | |- context [?a =? ?b] => destruct (Z.eqb_spec a b); try (exfalso; lia)
  end; cbn [orb andb negb].

Ltac Zify.zify_post_hook ::= Z.to_euclidean_division_equations.

Lemma decode_encode r s :
  valid_rune r -> DecodeRuneInString (EncodeRune r ++ s) = (r, String.length (EncodeRune r)).
Proof.
  intros [Hr Hs]. unfold EncodeRune, surrogate, MaxRune in *. compare_all; cbn [chars foldr String.length].
  all: rewrite !append_cons; cbn [DecodeRuneInString].
  all: rewrite !code_char_of by lia. all: unfold first_byte, continues. all: compare_all. all: compare_all.
  all: rewrite ?land_31, ?land_63, ?land_15, ?land_7. all: f_equal; lia.
Qed.

Lemma encode_two b0 b1 :
  194 <= b0 <= 223 -> 128 <= b1 <= 191 ->
  valid_rune (b0 mod 32 * 64 + b1 mod 64) /\ EncodeRune (b0 mod 32 * 64 + b1 mod 64) = chars [b0; b1].
Proof.
  intros H0 H1. set (r := b0 mod 32 * 64 + b1 mod 64). assert (128 <= r <= 2047 /\ 192 + r / 64 = b0 /\ 128 + r mod 64 = b1) as (Hr & E0 & E1) by lia.
  clearbody r. split; [unfold valid_rune, MaxRune; lia|]. unfold EncodeRune. compare_all. by rewrite E0, E1.
Qed.

Lemma encode_three b0 b1 b2 :
  224 <= b0 <= 239 -> 128 <= b1 <= 191 -> 128 <= b2 <= 191 -> (b0 = 224 -> 160 <= b1) -> (b0 = 237 -> b1 <= 159) ->
  valid_rune (b0 mod 16 * 4096 + b1 mod 64 * 64 + b2 mod 64) /\
  EncodeRune (b0 mod 16 * 4096 + b1 mod 64 * 64 + b2 mod 64) = chars [b0; b1; b2].
Proof.
  intros H0 H1 H2 Ha Hb. set (r := b0 mod 16 * 4096 + b1 mod 64 * 64 + b2 mod 64).
  assert (2048 <= r <= 65535 /\ ~ 55296 <= r <= 57343 /\ 224 + r / 4096 = b0 /\ 128 + r / 64 mod 64 = b1 /\ 128 + r mod 64 = b2)
    as (Hr & Hs & E0 & E1 & E2) by lia.
  clearbody r. split; [unfold valid_rune, MaxRune; lia|]. unfold EncodeRune, surrogate, MaxRune. compare_all. by rewrite E0, E1, E2.
Qed.

Lemma encode_four b0 b1 b2 b3 :
  240 <= b0 <= 244 -> 128 <= b1 <= 191 -> 128 <= b2 <= 191 -> 128 <= b3 <= 191 -> (b0 = 240 -> 144 <= b1) -> (b0 = 244 -> b1 <= 143) ->
  valid_rune (b0 mod 8 * 262144 + b1 mod 64 * 4096 + b2 mod 64 * 64 + b3 mod 64) /\
  EncodeRune (b0 mod 8 * 262144 + b1 mod 64 * 4096 + b2 mod 64 * 64 + b3 mod 64) = chars [b0; b1; b2; b3].
Proof.
  intros H0 H1 H2 H3 Ha Hb. set (r := b0 mod 8 * 262144 + b1 mod 64 * 4096 + b2 mod 64 * 64 + b3 mod 64).
  assert (65536 <= r <= 1114111 /\ 240 + r / 262144 = b0 /\ 128 + r / 4096 mod 64 = b1 /\ 128 + r / 64 mod 64 = b2 /\ 128 + r mod 64 = b3)
    as (Hr & E0 & E1 & E2 & E3) by lia.
  clearbody r. split; [unfold valid_rune, MaxRune; lia|]. unfold EncodeRune, surrogate, MaxRune. compare_all. by rewrite E0, E1, E2, E3.
Qed.

(** What the first byte of a rune allows for the others. *)
Lemma first_byte_spec b :
  0 <= b < 256 ->
  match first_byte b with
  | Some (1%nat, _, _) => b < 128
  | Some (2%nat, lo, hi) => 194 <= b <= 223 /\ 128 <= lo /\ hi <= 191
  | Some (3%nat, lo, hi) => 224 <= b <= 239 /\ 128 <= lo /\ hi <= 191 /\ (b = 224 -> 160 <= lo) /\ (b = 237 -> hi <= 159)
  | Some (4%nat, lo, hi) => 240 <= b <= 244 /\ 128 <= lo /\ hi <= 191 /\ (b = 240 -> 144 <= lo) /\ (b = 244 -> hi <= 143)
  | Some _ => False
  | None => True
  end.
Proof. intros Hb. unfold first_byte. compare_all; try done; lia. Qed.

(** A rune at the start of a string, with its bytes. *)
Definition starts_with (s : string) (r : Z) (size : nat) : Prop :=
  valid_rune r /\ stake size s = EncodeRune r /\ String.length (EncodeRune r) = size /\ invalid r size = false.

Lemma starts_with_bytes s r bs :
  (0 < length bs)%nat -> (length bs = 1%nat -> r < 128) ->
  valid_rune r /\ EncodeRune r = chars bs -> stake (length bs) s = chars bs -> starts_with s r (length bs).
Proof.
  intros Hne Hone [Hv He] Hs. split_and!; [done|by rewrite He|rewrite He; clear|].
  - induction bs as [|b bs IH]; [done|]. change (S (String.length (chars bs)) = S (length bs)). by rewrite IH.
  - unfold invalid, RuneError. destruct (Z.eqb_spec r 65533) as [-> |]; [|done]. destruct (Nat.eqb_spec (length bs) 1) as [E|]; [|done].
    specialize (Hone E). lia.
Qed.

Lemma decode_cases s :
  s <> EmptyString -> DecodeRuneInString s = (RuneError, 1%nat) \/
  exists r size, DecodeRuneInString s = (r, size) /\ starts_with s r size.
Proof.
  destruct s as [|c0 s]; [done|]. intros _. cbn [DecodeRuneInString]. pose proof (code_range c0) as Hc0.
  pose proof (first_byte_spec (code c0) Hc0) as Hf. pose proof (char_of_code c0) as E0.
  destruct (first_byte (code c0)) as [[[size lo] hi]|]; [|by left].
  destruct size as [|[|[|[|[|size]]]]]; try done.
  { right. eexists _, _. split; [done|]. apply (starts_with_bytes _ _ [code c0]); [cbn; lia|done| |by cbn; rewrite E0].
    unfold valid_rune, EncodeRune, MaxRune. compare_all. split; [lia|done]. }
  all: destruct s as [|c1 s]; [by left|]; pose proof (char_of_code c1) as E1.
  { destruct (inrangeP lo hi (code c1)); [|by left]. right. eexists _, _. split; [done|]. rewrite land_31, land_63.
    apply (starts_with_bytes _ _ [code c0; code c1]); [cbn; lia|done|apply encode_two; lia|by cbn; rewrite E0, E1]. }
  all: destruct s as [|c2 s]; [by left|]; pose proof (char_of_code c2) as E2.
  { unfold continues. destruct (inrangeP lo hi (code c1)), (inrangeP 128 191 (code c2)); cbn [andb]; try (by left). right. eexists _, _. split; [done|].
    rewrite land_15, !land_63.
    apply (starts_with_bytes _ _ [code c0; code c1; code c2]); [cbn; lia|done|apply encode_three; lia|by cbn; rewrite E0, E1, E2]. }
  destruct s as [|c3 s]; [by left|]; pose proof (char_of_code c3) as E3.
  unfold continues. destruct (inrangeP lo hi (code c1)), (inrangeP 128 191 (code c2)), (inrangeP 128 191 (code c3)); cbn [andb]; try (by left).
  right. eexists _, _. split; [done|]. rewrite land_7, !land_63.
  apply (starts_with_bytes _ _ [code c0; code c1; code c2; code c3]); [cbn; lia|done|apply encode_four; lia|by cbn; rewrite E0, E1, E2, E3].
Qed.

(** ** Escapes *)

Local Open Scope string_scope.

Lemma stake_sdrop n s : stake n s ++ sdrop n s = s.
Proof.
  revert s. induction n as [|n IH]; intros [|c s]; cbn; try done. rewrite append_cons. by rewrite IH.
Qed.

Lemma append_length s t : String.length (s ++ t) = (String.length s + String.length t)%nat.
Proof. induction s as [|c s IH]; [done|]. rewrite append_cons. cbn. by rewrite IH. Qed.

Lemma append_assoc s t u : (s ++ t) ++ u = s ++ (t ++ u).
Proof. induction s as [|c s IH]; [done|]. rewrite !append_cons. by rewrite IH. Qed.

Lemma append_empty s : s ++ "" = s.
Proof. induction s as [|c s IH]; [done|]. rewrite append_cons. by rewrite IH. Qed.

Lemma starts_with_split s r size :
  starts_with s r size -> s = EncodeRune r ++ sdrop size s /\ (0 < size)%nat /\ (String.length s = size + String.length (sdrop size s))%nat.
Proof.
  intros (Hv & Hs & Hl & _). assert (s = EncodeRune r ++ sdrop size s) as Hsplit by (rewrite <- Hs; symmetry; apply stake_sdrop).
  split; [done|]. split.
  - rewrite <- Hl. unfold EncodeRune. repeat case_match; cbn; lia.
  - rewrite Hsplit at 1. by rewrite append_length, Hl.
Qed.

Lemma invalid_error : invalid RuneError 1 = true.
Proof. done. Qed.

(** The measured length is that of the text. *)
Lemma escaped_len_runes fuel s : escaped_len fuel s = Z.of_nat (String.length (escaped_runes fuel s)).
Proof.
  revert s. induction fuel as [|fuel IH]; intros [|c s]; cbn [escaped_len escaped_runes]; try done.
  destruct (decode_cases (String c s)) as [-> | (r & size & -> & Hst)]; [done| |].
  - rewrite invalid_error, append_length, IH. cbn [hex_escape String.length]. lia.
  - destruct Hst as (_ & _ & Hl & Hi). rewrite Hi, append_length, IH, <- Hl. destruct (control r); cbn [hex_escape String.length]; lia.
Qed.

(** Text as a sequence of runes. *)
Definition encode_all (rs : list Z) : string := foldr (fun r s => EncodeRune r ++ s) "" rs.

Lemma encode_all_app rs rs' : encode_all (rs ++ rs')%list = encode_all rs ++ encode_all rs'.
Proof.
  induction rs as [|r rs IH]; [done|]. change (EncodeRune r ++ encode_all (rs ++ rs')%list = (EncodeRune r ++ encode_all rs) ++ encode_all rs').
  by rewrite IH, append_assoc.
Qed.

(** The controls of Unicode: C0, DEL and C1. *)
Definition control_char (r : Z) : Prop := (0 <= r < 32 \/ 127 <= r <= 159)%Z.

Lemma control_spec r : (0 <= r)%Z -> control r = false <-> ~ control_char r.
Proof. intros Hr. unfold control, control_char. compare_all; split; try done; lia. Qed.

Definition shown (r : Z) : Prop := valid_rune r /\ ~ control_char r.

(** Text that shows the given runes, none of them a control. *)
Definition clean (s : string) : Prop := exists rs, s = encode_all rs /\ Forall shown rs.

Lemma clean_nil : clean "".
Proof. by exists []. Qed.

Lemma clean_app s t : clean s -> clean t -> clean (s ++ t).
Proof.
  intros (rs & -> & Hrs) (rs' & -> & Hrs'). exists (rs ++ rs')%list. split; [by rewrite encode_all_app|by apply Forall_app].
Qed.

Lemma clean_rune r : shown r -> clean (EncodeRune r).
Proof. intros Hr. exists [r]. split; [symmetry; apply append_empty|by constructor]. Qed.

Lemma hex_of_code d : (0 <= d < 16)%Z -> (48 <= (if d <? 10 then 48 + d else 87 + d) <= 102)%Z.
Proof. destruct (Z.ltb_spec d 10); lia. Qed.

Lemma clean_hex z : (0 <= z < 256)%Z -> clean (hex_escape z).
Proof.
  intros Hz.
  set (h1 := (if z / 16 <? 10 then 48 + z / 16 else 87 + z / 16)%Z). set (h2 := (if z mod 16 <? 10 then 48 + z mod 16 else 87 + z mod 16)%Z).
  pose proof (hex_of_code (z / 16) ltac:(lia)) as H1. pose proof (hex_of_code (z mod 16) ltac:(lia)) as H2. fold h1 in H1. fold h2 in H2.
  exists [92; 120; h1; h2]%Z. unfold hex_escape, hex_of. fold h1 h2. clearbody h1 h2. split.
  - cbn. unfold EncodeRune. compare_all. done.
  - repeat constructor; cbn; unfold valid_rune, MaxRune, control_char; lia.
Qed.

Lemma escaped_clean fuel s : clean (escaped_runes fuel s).
Proof.
  revert s. induction fuel as [|fuel IH]; intros [|c s]; cbn [escaped_runes]; try apply clean_nil.
  destruct (decode_cases (String c s)) as [-> | (r & size & -> & Hst)]; [done| |].
  - rewrite invalid_error. apply clean_app; [apply clean_hex, code_range|apply IH].
  - destruct Hst as (Hv & _ & Hl & Hi). rewrite Hi. apply clean_app; [|apply IH].
    destruct Hv as [Hr Hs]. destruct (control r) eqn:Hc; [apply clean_hex|apply clean_rune; split; [done|apply control_spec; [lia|done]]].
    unfold control in Hc. revert Hc. compare_all; lia.
Qed.

(** Reading text back. *)
Lemma runes_encode rs fuel :
  Forall valid_rune rs -> (String.length (encode_all rs) <= fuel)%nat ->
  runes fuel (encode_all rs) = (fun r => (r, String.length (EncodeRune r))) <$> rs.
Proof.
  intros Hrs. revert fuel. induction Hrs as [|r rs Hr Hrs IH]; intros fuel Hf; [by destruct fuel|].
  change (encode_all (r :: rs)) with (EncodeRune r ++ encode_all rs) in *. rewrite append_length in Hf.
  assert (0 < String.length (EncodeRune r))%nat as Hpos by (unfold EncodeRune; repeat case_match; cbn; lia).
  destruct fuel as [|fuel]; [lia|]. destruct (EncodeRune r ++ encode_all rs) as [|c s] eqn:Hs.
  { apply (f_equal String.length) in Hs. rewrite append_length in Hs. cbn in Hs. lia. }
  cbn [runes]. rewrite <- Hs, decode_encode by done. cbn. f_equal.
  assert (forall a b, sdrop (String.length a) (a ++ b) = b) as -> by (clear; intros a b; induction a as [|c a IH]; [done|rewrite append_cons; apply IH]).
  apply IH. lia.
Qed.

Lemma escaped_bound fuel s : (String.length (escaped_runes fuel s) <= 4 * String.length s)%nat.
Proof.
  revert s. induction fuel as [|fuel IH]; intros [|c s]; cbn [escaped_runes]; try (cbn; lia).
  destruct (decode_cases (String c s)) as [-> | (r & size & -> & Hst)]; [done| |].
  - rewrite invalid_error, append_length. specialize (IH s). cbn [hex_escape String.length]. lia.
  - destruct (starts_with_split _ _ _ Hst) as (_ & Hpos & Hlen). destruct Hst as (_ & _ & Hl & Hi). rewrite Hi, append_length, Hlen.
    specialize (IH (sdrop size (String c s))). destruct (control r); cbn [hex_escape String.length]; lia.
Qed.

(** Runes that need no escape. *)
Definition plain (rs : Z * nat) : Prop := ~ control_char rs.1 /\ rs <> (RuneError, 1%nat).

Lemma escaped_plain fuel s : (String.length s <= fuel)%nat -> Forall plain (runes fuel s) -> escaped_runes fuel s = s.
Proof.
  revert s. induction fuel as [|fuel IH]; intros [|c s]; cbn [escaped_runes runes]; try done; [cbn; lia|]. intros Hf.
  destruct (decode_cases (String c s)) as [-> | (r & size & -> & Hst)]; [done| |]; intros [[Hc Hi] Hrest]%Forall_cons; [done|].
  destruct (starts_with_split _ _ _ Hst) as (Hsplit & Hpos & Hlen). cbn [fst snd] in Hc, Hi.
  destruct Hst as (Hv & _ & _ & ->). rewrite (proj2 (control_spec r ltac:(destruct Hv; lia)) Hc).
  rewrite IH; [done| |done]. lia.
Qed.

Lemma clean_plain s : clean s -> Forall plain (runes (String.length s) s).
Proof.
  intros (rs & -> & Hrs). rewrite runes_encode; [|eapply Forall_impl; [exact Hrs|]; by intros r []|lia].
  apply Forall_fmap. eapply Forall_impl; [exact Hrs|]. intros r [Hv Hc]. split; [done|]. by intros [= -> ?].
Qed.

Lemma escape_clean s : clean (EscapeMetadata s).
Proof.
  unfold EscapeMetadata, writeEscapedIntoBuilder. destruct (cut s) as [t truncated]. apply clean_app; [apply escaped_clean|].
  destruct truncated; [|apply clean_nil]. exists [46; 46; 46; 91; 116; 114; 117; 110; 99; 97; 116; 101; 100; 93]%Z.
  split; [done|]. repeat constructor; unfold MaxRune, control_char; cbn; lia.
Qed.

Lemma EscapedMetadataLen_exact s : (EscapedMetadataLen s).1 = Z.of_nat (String.length (EscapeMetadata s)).
Proof.
  unfold EscapedMetadataLen, EscapeMetadata, writeEscapedIntoBuilder. destruct (cut s) as [t truncated]. cbn.
  rewrite append_length, escaped_len_runes. destruct truncated; cbn; lia.
Qed.

Lemma stake_length n s : (String.length (stake n s) <= n)%nat.
Proof. revert s. induction n as [|n IH]; intros [|c s]; cbn; try lia. specialize (IH s). lia. Qed.

Lemma cut_length s : (String.length (cut s).1 <= maxDisplayLen)%nat.
Proof. unfold cut. destruct (Nat.ltb_spec maxDisplayLen (String.length s)); [apply stake_length|done]. Qed.

Lemma EscapeMetadata_bound s : (String.length (EscapeMetadata s) <= 4 * maxDisplayLen + String.length truncMarker)%nat.
Proof.
  unfold EscapeMetadata, writeEscapedIntoBuilder. pose proof (cut_length s) as Hl. destruct (cut s) as [t truncated].
  rewrite append_length. pose proof (escaped_bound (String.length t) t). cbn [fst] in Hl. destruct truncated; cbn [String.length]; lia.
Qed.

(** C20. Text taken from a file is safe to show: it reads as UTF-8 without any control
    character, whatever bytes the file held, in at most 16398 bytes; its length is the one
    announced, so that buffers and budgets are exact; and short text that needs no escape is
    shown as it is. *)
Theorem EscapeMetadata_safe (s : string) :
  Forall plain (runes (String.length (EscapeMetadata s)) (EscapeMetadata s)) /\
  (EscapedMetadataLen s).1 = Z.of_nat (String.length (EscapeMetadata s)) /\
  (String.length (EscapeMetadata s) <= 4 * maxDisplayLen + String.length truncMarker)%nat /\
  ((String.length s <= maxDisplayLen)%nat /\ Forall plain (runes (String.length s) s) -> EscapeMetadata s = s).
Proof.
  split_and!.
  - apply clean_plain, escape_clean.
  - apply EscapedMetadataLen_exact.
  - apply EscapeMetadata_bound.
  - intros [Hl Hp]. unfold EscapeMetadata, writeEscapedIntoBuilder, cut.
    rewrite (proj2 (Nat.ltb_ge maxDisplayLen (String.length s))) by done. rewrite append_empty. by apply escaped_plain.
Qed.

Lemma escape_sample :
  EscapeMetadata (String (char_of 27) (String (char_of 226) (String (char_of 130) (String (char_of 172) (String (char_of 255) "ok"))))) =
  "\x1b" ++ String (char_of 226) (String (char_of 130) (String (char_of 172) "")) ++ "\xffok".
Proof. vm_compute. reflexivity. Qed.

(** A newline is shown as its code, like every other control. *)
Lemma newline_escape : EscapeMetadata (chars [10]%Z) = "\x0a".
Proof. vm_compute. reflexivity. Qed.
