(* ===== verification/AbiRender.v ===== *)
(** * Presentation of reports ([internal/pack/abi_render.go])

    One description of the text serves to measure it and to write it: an
    emitter without a writer only counts.  The measured text is the written
    text, and safe to show. *)

From S2P Require Import Prelude GoStrings GoIO Abi AbiText.
From stdpp Require Import base list strings.
From Stdlib Require Import ZArith Lia Strings.Ascii Strings.Byte.

Local Open Scope Z_scope.

(** ** Reports of an artifact *)

Inductive ComparisonStatus := ComparisonConsistent | ComparisonInconsistent | ComparisonUnknown | ComparisonSkipped.

Global Instance status_eq_dec : EqDecision ComparisonStatus.
Proof. solve_decision. Defined.

Record ArtifactABIReport := mkArtifact {
  ar_TargetOS : string;
  ar_TargetArch : string;
  ar_Variants : list (option VariantABIReport);
  ar_Status : ComparisonStatus;
  ar_Consistent : bool;
  ar_Overridden : bool;
  ar_Differences : list string;
  ar_Warnings : list string;
  ar_DeploymentDisclaimer : string
}.

Definition linkage_string (l : LinkageForm) : string :=
  match l with
  | LinkageUnset => ""
  | LinkageStatic => "static"
  | LinkageStaticPIE => "static-pie"
  | LinkageDynamic => "dynamic"
  | LinkageAmbiguous => "ambiguous"
  end.

Definition completeness_string (c : Completeness) : string :=
  match c with
  | MetadataUnset => ""
  | MetadataComplete => "complete"
  | MetadataAbsent => "absent"
  | MetadataPartial => "partial"
  | MetadataUnsupported => "unsupported"
  | MetadataSkipped => "skipped"
  end.

Definition slen (s : string) : Z := Z.of_nat (String.length s).

(** ** Emitters *)

Inductive emit_err := EmitOverflow | EmitWrite.

Section emit.
Context `{Writer W}.

Record reportEmitter := mkEmitter { em_w : option W; em_written : Z; em_err : option emit_err }.

(** [n] more bytes, written by [out] where there is a writer. *)
Definition emit_bytes (n : Z) (out : W -> W * bool) (e : reportEmitter) : reportEmitter :=
  match em_err e with
  | Some _ => e
  | None =>
      if u64_sub MaxUint64 n <? em_written e then mkEmitter (em_w e) (em_written e) (Some EmitOverflow)
      else
        match em_w e with
        | None => mkEmitter None (em_written e + n) None
        | Some w =>
            let '(w, failed) := out w in
            mkEmitter (Some w) (em_written e + n) (if failed then Some EmitWrite else None)
        end
  end.

Definition WriteString (s : string) (w : W) : W * bool :=
  let '(w, _, failed) := Write w (bytes_of s) in (w, failed).

Definition writeLiteral (s : string) : reportEmitter -> reportEmitter := emit_bytes (slen s) (WriteString s).

(** A write after one that may have failed. *)
Definition and_then (f g : W -> W * bool) (w : W) : W * bool :=
  let '(w, failed) := f w in if failed then (w, true) else g w.

Fixpoint write_escaped_runes (fuel : nat) (s : string) : W -> W * bool :=
  match fuel, s with
  | S fuel, String c rest =>
      let '(r, size) := DecodeRuneInString s in
      if invalid r size then and_then (WriteString (hex_escape (code c))) (write_escaped_runes fuel rest)
      else and_then (WriteString (if control r then hex_escape r else EncodeRune r)) (write_escaped_runes fuel (sdrop size s))
  | _, _ => fun w => (w, false)
  end.

Definition writeEscapedToWriter (s : string) : W -> W * bool :=
  let '(s, truncated) := cut s in
  and_then (write_escaped_runes (String.length s) s) (if truncated then WriteString truncMarker else fun w => (w, false)).

Definition writeEscaped (s : string) (e : reportEmitter) : reportEmitter :=
  let escLen := (EscapedMetadataLen s).1 in
  if escLen <? 0 then e else emit_bytes escLen (writeEscapedToWriter s) e.

(** Statements in a row. *)
Definition seq_emit (steps : list (reportEmitter -> reportEmitter)) (e : reportEmitter) : reportEmitter :=
  foldl (fun e step => step e) e steps.

Definition skip (e : reportEmitter) : reportEmitter := e.

(** ** The text of a report *)

Definition minLevelColumnWidth : Z := 6.
Definition maxDisplayDeps : nat := 8.
Definition maxDisplayVers : nat := 8.

(** The items that are shown, with commas between them, and how many are not. *)
Definition emit_items {A} (item : A -> reportEmitter -> reportEmitter) (items : list A) (limit : nat) : reportEmitter -> reportEmitter :=
  seq_emit
    (imap (fun i a => seq_emit [if (0 <? i)%nat then writeLiteral ", " else skip; item a]) (take limit items) ++
     [if (limit <? length items)%nat
      then writeLiteral (" ... (+" ++ Itoa (Z.of_nat (length items - limit)) ++ " more)")%string else skip]).

Definition emitVariantDependencies (deps : list string) : reportEmitter -> reportEmitter :=
  seq_emit [writeLiteral " | deps: ";
    match deps with [] => writeLiteral "none" | _ => emit_items writeEscaped deps maxDisplayDeps end].

(** [%04x] *)
Definition hex4 (z : Z) : string :=
  chars ((fun d => if d <? 10 then 48 + d else 87 + d) <$> [z / 4096 mod 16; z / 256 mod 16; z / 16 mod 16; z mod 16]).

Definition emit_version (vr : VersionRequirement) : reportEmitter -> reportEmitter :=
  seq_emit [writeEscaped (vr_Library vr); writeLiteral " ("; writeEscaped (vr_Version vr);
    if negb (vr_Flags vr =? 0) then writeLiteral (" [flags=0x" ++ hex4 (vr_Flags vr) ++ "]")%string else skip;
    writeLiteral ")"].

Definition emitVariantVersions (vers : list VersionRequirement) : reportEmitter -> reportEmitter :=
  seq_emit [writeLiteral " | versions: ";
    match vers with [] => writeLiteral "none" | _ => emit_items emit_version vers maxDisplayVers end].

(** [strings.Repeat(" ", n)] *)
Definition spaces (n : nat) : string := chars (replicate n 32).

Definition bullet : string := chars [32; 32; 226; 128; 162; 32].
Definition newline : string := chars [10].

Definition emitVariantLine (v : option VariantABIReport) : reportEmitter -> reportEmitter :=
  match v with
  | None => skip
  | Some v =>
      let escLevelLen := (EscapedMetadataLen (ab_Level v)).1 in
      seq_emit [writeLiteral bullet; writeEscaped (ab_Level v);
        if escLevelLen <? minLevelColumnWidth then writeLiteral (spaces (Z.to_nat (minLevelColumnWidth - escLevelLen))) else skip;
        writeLiteral " ["; writeLiteral (linkage_string (ab_Linkage v)); writeLiteral "] -> interpreter: ";
        if ab_HasInterpreter v then writeEscaped (ab_Interpreter v) else writeLiteral "none";
        emitVariantDependencies (ab_Dependencies v); emitVariantVersions (ab_VersionRequirements v);
        writeLiteral " ("; writeLiteral (completeness_string (ab_Completeness v)); writeLiteral (")" ++ newline)%string]
  end.

Definition incomplete_note : string :=
  "  [!] Note: symbol version metadata is partial or unsupported; complete compatibility could not be verified" ++ newline.
Definition ambiguous_note : string :=
  "  [!] Note: linkage is ambiguous (payload declares dynamic dependencies but has no PT_INTERP); " ++
  "complete compatibility could not be verified" ++ newline.
Definition overridden_note : string :=
  "  [!] Note: declared ABI differences were explicitly allowed via --allow-mixed-abi" ++ newline.

Definition incomplete (c : Completeness) : bool := bool_decide (c = MetadataPartial \/ c = MetadataUnsupported).
Definition ambiguous (l : LinkageForm) : bool := bool_decide (l = LinkageAmbiguous).

Definition emitReportNotes (report : ArtifactABIReport) : reportEmitter -> reportEmitter :=
  let variants := omap id (ar_Variants report) in
  let hasVersionIncomplete := existsb (fun v => incomplete (ab_Completeness v)) variants in
  let hasAmbiguousLinkage := existsb (fun v => ambiguous (ab_Linkage v)) variants in
  seq_emit [
    if ar_Overridden report then writeLiteral overridden_note else skip;
    match ar_Status report with
    | ComparisonUnknown =>
        seq_emit [if hasVersionIncomplete then writeLiteral incomplete_note else skip;
          if hasAmbiguousLinkage then writeLiteral ambiguous_note else skip;
          if negb hasVersionIncomplete && negb hasAmbiguousLinkage then writeLiteral incomplete_note else skip]
    | _ => skip
    end;
    if (0 <? String.length (ar_DeploymentDisclaimer report))%nat
    then seq_emit [writeLiteral "  [i] "; writeLiteral (ar_DeploymentDisclaimer report); writeLiteral newline] else skip].

Definition emitReport (report : ArtifactABIReport) : reportEmitter -> reportEmitter :=
  match ar_Variants report with
  | [] => skip
  | variants =>
      match ar_Status report with
      | ComparisonSkipped =>
          writeLiteral (newline ++ "Declared ABI Requirements: skipped (--skip-elf-validation)" ++ newline)%string
      | _ =>
          seq_emit ([writeLiteral (newline ++ "Declared ABI Requirements:" ++ newline)%string] ++
            (emitVariantLine <$> variants) ++ [emitReportNotes report])
      end
  end.

(** The writer afterwards. *)
Definition RenderABIReport (w : W) (report : ArtifactABIReport) : W * option emit_err :=
  match ar_Variants report with
  | [] => (w, None)
  | _ =>
      let e := emitReport report (mkEmitter (Some w) 0 None) in
      (default w (em_w e), em_err e)
  end.

End emit.

(** An emitter without a writer, whose type does not matter. *)
Definition MeasureABIReportPresentation (report : ArtifactABIReport) : outcome abi_err Z :=
  let e := emitReport (W := list byte) report (mkEmitter None 0 None) in
  match em_err e with Some _ => Err ErrABIResourceLimit | None => Ok (em_written e) end.

(** ** Lines of text *)

(** A rune that is shown, or ends a line. *)
Definition line_rune (r : Z) : Prop := shown r \/ r = 10.

Definition lined (s : string) : Prop := exists rs, s = encode_all rs /\ Forall line_rune rs.

Lemma lined_app s t : lined s -> lined t -> lined (s ++ t).
Proof.
  intros (rs & -> & Hrs) (rs' & -> & Hrs'). exists (rs ++ rs')%list. split; [by rewrite encode_all_app|by apply Forall_app].
Qed.

Lemma clean_lined s : clean s -> lined s.
Proof. intros (rs & -> & Hrs). exists rs. split; [done|]. eapply Forall_impl; [exact Hrs|]. by left. Qed.

Definition line_test (rs : Z * nat) : bool := negb (invalid rs.1 rs.2) && (negb (control rs.1) || (rs.1 =? 10)).

Definition lined_test (s : string) : bool := forallb line_test (runes (String.length s) s).

Lemma lined_test_ok fuel s : (String.length s <= fuel)%nat -> forallb line_test (runes fuel s) = true -> lined s.
Proof.
  revert s. induction fuel as [|fuel IH]; intros [|c s]; cbn [runes]; [by exists []|cbn; lia|by exists []|]. intros Hf.
  destruct (decode_cases (String c s)) as [-> | (r & size & -> & Hst)]; [done| |]; [done|]. cbn [forallb].
  destruct (starts_with_split _ _ _ Hst) as (Hsplit & Hpos & Hlen). rewrite andb_true_iff. intros [Hr Hrest].
  rewrite Hsplit. apply lined_app; [|apply IH; [lia|done]]. exists [r]. split; [symmetry; apply append_empty|]. constructor; [|done].
  unfold line_test in Hr. cbn in Hr. apply andb_true_iff in Hr as [_ Hr]. apply orb_true_iff in Hr as [Hc%negb_true_iff|He%Z.eqb_eq]; [left|by right].
  destruct Hst as ([Hv Hs] & _). split; [done|]. apply control_spec; [lia|done].
Qed.

Lemma lined_literal s : lined_test s = true -> lined s.
Proof. by apply lined_test_ok. Qed.

Lemma lined_chars l : Forall (fun z => 32 <= z < 127) l -> lined (chars l).
Proof.
  intros Hl. exists l. split.
  - induction Hl as [|z l Hz _ IH]; [done|]. change (encode_all (z :: l)) with (EncodeRune z ++ encode_all l)%string. rewrite <- IH.
    unfold EncodeRune. compare_all. done.
  - eapply Forall_impl; [exact Hl|]. intros z Hz. cbv beta in Hz. left. unfold shown, valid_rune, MaxRune, control_char. lia.
Qed.

Lemma lined_read s : lined s -> Forall (fun rs => plain rs \/ rs.1 = 10) (runes (String.length s) s).
Proof.
  intros (rs & -> & Hrs).
  assert (Forall valid_rune rs) as Hv.
  { eapply Forall_impl; [exact Hrs|]. intros r [[Hr _]| ->]; [done|]. unfold valid_rune, MaxRune. lia. }
  rewrite runes_encode; [|done|lia]. apply Forall_fmap. eapply Forall_impl; [exact Hrs|]. intros r [[_ Hc]| ->]; [left|by right].
  split; [done|]. by intros [= -> ?].
Qed.

(** ** Emitters *)

Abbreviation step := (reportEmitter (W := list byte) -> reportEmitter (W := list byte)).

(** The step adds the text: counted, and written where there is a writer. *)
Definition emits (f : step) (t : string) : Prop :=
  forall w n, let e := f (mkEmitter w n None) in let e0 := f (mkEmitter None n None) in
    em_written e = em_written e0 /\ em_err e = em_err e0 /\
    (em_err e = None -> e = mkEmitter ((fun file => file ++ bytes_of t) <$> w) (n + slen t) None).

(** A step after an error does nothing. *)
Definition stops (f : step) : Prop := forall e, em_err e <> None -> f e = e.

Definition prints (f : step) : Prop := exists t, emits f t /\ stops f /\ lined t.

Lemma bytes_of_app s t : bytes_of (s ++ t) = (bytes_of s ++ bytes_of t)%list.
Proof. induction s as [|c s IH]; [done|]. rewrite append_cons. by apply (f_equal (cons (byte_of_ascii c))). Qed.

Lemma slen_app s t : slen (s ++ t) = slen s + slen t.
Proof. unfold slen. rewrite append_length. lia. Qed.

Lemma emits_comp f g s t : emits f s -> emits g t -> stops g -> emits (fun e => g (f e)) (s ++ t).
Proof.
  intros Hf Hg Hst w n. cbv zeta. destruct (Hf w n) as (Hw & He & Ht). destruct (em_err (f (mkEmitter w n None))) as [err|] eqn:Herr.
  - rewrite !Hst by congruence. rewrite Herr. split_and!; [done..|]. done.
  - rewrite (Ht eq_refl). destruct (Hf None n) as (_ & _ & H0). rewrite (H0 (eq_sym He)). cbn [fmap option_fmap option_map].
    destruct (Hg ((fun file => file ++ bytes_of s) <$> w) (n + slen s)) as (Hw2 & He2 & Ht2). split_and!; [done..|].
    intros Hok. rewrite (Ht2 Hok), slen_app. f_equal; [|lia]. destruct w; cbn; [|done]. by rewrite bytes_of_app, List.app_assoc.
Qed.

Lemma prints_skip : prints skip.
Proof.
  exists EmptyString. split_and!; [|done|by exists []]. intros w n. cbn. split_and!; [done..|]. intros _. unfold skip, slen. cbn.
  rewrite Z.add_0_r. f_equal. destruct w; cbn; by rewrite ?app_nil_r.
Qed.

Lemma prints_seq steps : Forall prints steps -> prints (seq_emit steps).
Proof.
  intros Hs. assert (forall f, prints f -> prints (fun e => seq_emit steps (f e))) as Hall; [|exact (Hall skip prints_skip)].
  induction Hs as [|g steps (t & Hg & Hgs & Hgl) Hs IH]; intros f Hf; [exact Hf|]. destruct Hf as (s & Hf & Hfs & Hfl).
  apply (IH (fun e => g (f e))). exists (s ++ t)%string. split_and!; [by apply emits_comp| |by apply lined_app].
  intros e He. by rewrite (Hfs e He), (Hgs e He).
Qed.

(** What is written is the text. *)
Definition writes (out : list byte -> list byte * bool) (t : string) : Prop := forall w, out w = (w ++ bytes_of t, false).

Lemma prints_bytes out t : writes out t -> lined t -> prints (emit_bytes (slen t) out).
Proof.
  intros Hout Hl. exists t. split_and!; [| |done].
  - intros w n. unfold emit_bytes. cbn. destruct (_ <? _); [done|]. destruct w as [w|]; cbn; [|done]. by rewrite Hout.
  - intros e He. unfold emit_bytes. by destruct (em_err e).
Qed.

Lemma prints_literal s : lined s -> prints (writeLiteral s).
Proof. intros Hs. by apply prints_bytes. Qed.

Lemma writes_then out out' s t : writes out s -> writes out' t -> writes (and_then out out') (s ++ t).
Proof. intros Ho Ho' w. unfold and_then. by rewrite Ho, Ho', bytes_of_app, List.app_assoc. Qed.

Lemma writes_nothing : writes (fun w => (w, false)) EmptyString.
Proof. intros w. cbn. by rewrite app_nil_r. Qed.

Lemma writes_escaped_runes fuel s : writes (write_escaped_runes fuel s) (escaped_runes fuel s).
Proof.
  revert s. induction fuel as [|fuel IH]; intros [|c s]; cbn [write_escaped_runes escaped_runes]; try apply writes_nothing.
  destruct (DecodeRuneInString (String c s)) as [r size]. destruct (invalid r size); by apply writes_then.
Qed.

Lemma prints_escaped s : prints (writeEscaped s).
Proof.
  unfold writeEscaped. rewrite EscapedMetadataLen_exact, (proj2 (Z.ltb_ge _ _)) by lia.
  apply prints_bytes; [|apply clean_lined, escape_clean].
  unfold EscapeMetadata, writeEscapedIntoBuilder, writeEscapedToWriter. destruct (cut s) as [t truncated].
  apply writes_then; [apply writes_escaped_runes|]. by destruct truncated; [|apply writes_nothing].
Qed.

(** ** Reports *)

Lemma Forall_imap_all {A B} (P : B -> Prop) (f : nat -> A -> B) l : (forall i a, P (f i a)) -> Forall P (imap f l).
Proof. revert f. induction l as [|a l IH]; intros f Hf; cbn; constructor; [apply Hf|]. apply IH. intros i b. apply Hf. Qed.

Lemma lined_char z s : 32 <= z < 127 -> lined s -> lined (String (char_of z) s).
Proof. intros Hz Hs. apply (lined_app (chars [z])); [|done]. apply lined_chars. by constructor. Qed.

Lemma lined_digits fuel n acc : 0 <= n -> lined acc -> lined (dec_digits fuel n acc).
Proof.
  revert n acc. induction fuel as [|fuel IH]; intros n acc Hn Hacc; cbn [dec_digits]; [done|].
  assert (lined (String (digit_char (n mod 10)) acc)) as Hd by (apply (lined_char (n mod 10 + 48)); [lia|done]).
  destruct (n <? 10); [done|]. apply IH; [lia|done].
Qed.

Lemma lined_Itoa n : 0 <= n -> lined (Itoa n).
Proof. intros Hn. unfold Itoa. rewrite (proj2 (Z.ltb_ge n 0)) by done. apply lined_digits; [done|by exists []]. Qed.

Lemma lined_hex4 z : lined (hex4 z).
Proof.
  apply lined_chars, Forall_fmap. assert (Forall (fun d => 0 <= d < 16) [z / 4096 mod 16; z / 256 mod 16; z / 16 mod 16; z mod 16]) as Hd.
  { repeat (apply Forall_cons; split; [lia|]). constructor. }
  eapply Forall_impl; [exact Hd|]. intros d Hd'. unfold compose. cbv beta in *. destruct (Z.ltb_spec d 10); lia.
Qed.

Lemma lined_spaces n : lined (spaces n).
Proof. apply lined_chars, Forall_replicate. lia. Qed.

Create HintDb prints.
#[local] Hint Resolve prints_skip prints_escaped lined_hex4 lined_spaces : prints.

Ltac printed :=
  repeat match goal with
  | |- prints (seq_emit _) => apply prints_seq
  | |- prints (writeLiteral _) => apply prints_literal
  | |- prints (match ?x with _ => _ end) => destruct x
  | |- lined (match ?x with _ => _ end) => destruct x
  | |- Forall _ (_ :: _) => constructor
  | |- Forall _ [] => constructor
  | |- Forall _ (_ ++ _) => apply Forall_app; split
  end; eauto with prints.

Ltac literals := apply lined_literal; vm_compute; reflexivity.

Lemma prints_items {A} (item : A -> step) items limit : (forall a, prints (item a)) -> prints (emit_items item items limit).
Proof.
  intros Hitem. unfold emit_items. printed.
  - apply Forall_imap_all. intros i a. printed. literals.
  - apply lined_app; [literals|]. apply lined_app; [apply lined_Itoa; lia|literals].
Qed.

Lemma prints_version vr : prints (emit_version vr).
Proof.
  unfold emit_version. printed; [literals| |literals]. apply lined_app; [literals|]. apply lined_app; [apply lined_hex4|literals].
Qed.

Lemma prints_deps deps : prints (emitVariantDependencies deps).
Proof. unfold emitVariantDependencies. printed; [literals..|]. apply prints_items, prints_escaped. Qed.

Lemma prints_versions vers : prints (emitVariantVersions vers).
Proof. unfold emitVariantVersions. printed; [literals..|]. apply prints_items, prints_version. Qed.

#[local] Hint Resolve prints_deps prints_versions : prints.

Lemma prints_line v : prints (emitVariantLine v).
Proof.
  destruct v as [v|]; [|apply prints_skip]. unfold emitVariantLine, linkage_string, completeness_string. cbv zeta. printed; literals.
Qed.

Lemma prints_notes report : lined (ar_DeploymentDisclaimer report) -> prints (emitReportNotes report).
Proof. intros Hd. unfold emitReportNotes. cbv zeta. printed; literals. Qed.

Lemma prints_report report : lined (ar_DeploymentDisclaimer report) -> prints (emitReport report).
Proof.
  intros Hd. unfold emitReport. printed; try apply prints_line; try (by apply prints_notes); try literals.
  all: apply Forall_fmap, Forall_true, prints_line.
Qed.

(** Measuring a report gives the length of what rendering it appends, and the text reads as
    lines without control characters. *)
Theorem RenderABIReport_measured (report : ArtifactABIReport) (file : list byte) (n : Z) :
  lined_test (ar_DeploymentDisclaimer report) = true -> MeasureABIReportPresentation report = Ok n ->
  exists text, RenderABIReport file report = (file ++ bytes_of text, None) /\ slen text = n /\
    Forall (fun rs => plain rs \/ rs.1 = 10) (runes (String.length text) text).
Proof.
  intros Hd%lined_literal. unfold MeasureABIReportPresentation, RenderABIReport.
  destruct (prints_report report Hd) as (t & Ht & _ & Hl). destruct (ar_Variants report) as [|v vs] eqn:Hv.
  { unfold emitReport. rewrite Hv. cbn. intros [= <-]. exists EmptyString. by rewrite app_nil_r. }
  destruct (Ht (Some file) 0) as (_ & He & Hok). destruct (Ht None 0) as (_ & _ & Hnone).
  destruct (em_err (emitReport report (mkEmitter None 0 None))) eqn:E; [done|]. intros [= <-].
  rewrite (Hok He), (Hnone eq_refl). exists t. split_and!; [done|done|by apply lined_read].
Qed.

(** ** A report with a name that would move the cursor *)

Definition hostile_variant : VariantABIReport :=
  mkABIReport "v3" "" "ELFCLASS64" "ET_DYN" "EM_X86_64" LinkageDynamic true (chars [27; 91; 50; 74]) ["libc.so.6"%string]
    [mkVersion "libc.so.6" "GLIBC_2.34" 2] MetadataComplete "program_headers/dynamic_metadata" [].

Definition hostile_report : ArtifactABIReport :=
  mkArtifact "" "" [Some hostile_variant] ComparisonConsistent true false [] [] "not checked on a host".

Lemma RenderABIReport_measured_witness :
  exists text, RenderABIReport [] hostile_report = ([] ++ bytes_of text, None) /\ slen text = 182 /\
    Forall (fun rs => plain rs \/ rs.1 = 10) (runes (String.length text) text).
Proof. apply (RenderABIReport_measured hostile_report [] 182); vm_compute; reflexivity. Defined.
