(* ===== verification/AbiCompare.v ===== *)
(** * Comparing variants ([internal/pack/abi.go], second half)

    The variants of an artifact are compared by what they declare.  Every byte
    of the resulting report is reserved in an account before it is made. *)

From S2P Require Import Prelude GoStrings GoIO MicroarchSelect PackPlan Abi AbiText AbiRender.
From stdpp Require Import base list strings gmap.
From Stdlib Require Import ZArith Lia Strings.Ascii.

Local Open Scope Z_scope.

Definition MaxArtifactReportBytes : Z := 64 * 1024 * 1024.
Definition versionReportSeparatorOverhead : Z := 2.
Definition mismatchDiffSeparator : string := chars [10; 32; 32; 226; 128; 162; 32].

Record ABILimits := mkLimits {
  lim_MaxProgramHeaders : Z;
  lim_MaxSectionHeaders : Z;
  lim_MaxInterpreterSize : Z;
  lim_MaxDynamicEntries : Z;
  lim_MaxABIStringBytesPerInput : Z;
  lim_MaxVersionRecordsPerInput : Z;
  lim_MaxMetadataBytesPerInput : Z;
  lim_MaxArtifactMetadataBytes : Z;
  lim_MaxArtifactReportBytes : Z
}.

Definition defaultABILimits : ABILimits :=
  mkLimits MaxProgramHeaders MaxSectionHeaders MaxInterpreterSize MaxDynamicEntries MaxABIStringBytesPerInput
    MaxVersionRecordsPerInput MaxMetadataBytesPerInput MaxArtifactMetadataBytes MaxArtifactReportBytes.

(** ** The account *)

Record ReportAccounting := mkReportAcc { ra_maxBytes : Z; ra_usedBytes : Z }.

Definition NewReportAccounting (maxBytes : Z) : ReportAccounting :=
  mkReportAcc (if maxBytes =? 0 then MaxArtifactReportBytes else maxBytes) 0.

(** Code with the account. *)
Definition budget (A : Type) : Type := ReportAccounting -> outcome abi_err (A * ReportAccounting).

Global Instance budget_ret : MRet budget := fun A a ra => Ok (a, ra).
Global Instance budget_bind : MBind budget := fun A B k m ra =>
  match m ra with
  | Ok (a, ra) => k a ra
  | Err e => Err e
  | Panic => Panic
  end.

Definition fails {A} (e : abi_err) : budget A := fun _ => Err e.

Definition reserve (n : Z) : budget unit := fun ra =>
  if (ra_maxBytes ra <? n) || (u64_sub (ra_maxBytes ra) n <? ra_usedBytes ra) then Err ErrABIResourceLimit
  else Ok (tt, mkReportAcc (ra_maxBytes ra) (u64_add (ra_usedBytes ra) n)).

(** ** Bounded builders *)

(** A builder appends to its text what it has reserved. *)
Definition building : Type := string -> budget string.

Definition writeString (s : string) : building := fun sb => _ ← reserve (slen s); mret (sb ++ s)%string.

Definition b_writeEscaped (s : string) : building := fun sb =>
  let needed := (EscapedMetadataLen s).1 in
  if needed <? 0 then fails ErrABIMetadata
  else _ ← reserve needed; mret (sb ++ writeEscapedIntoBuilder s)%string.

Definition quote : string := chars [34].

Definition writeQuotedEscaped (s : string) : building := fun sb =>
  let needed := (EscapedMetadataLen s).1 in
  if needed <? 0 then fails ErrABIMetadata
  else _ ← reserve (u64_add needed 2); mret (sb ++ quote ++ writeEscapedIntoBuilder s ++ quote)%string.

Definition writeInt (n : Z) : building := writeString (Itoa n).

Fixpoint build_all (steps : list building) : building := fun sb =>
  match steps with
  | [] => mret sb
  | step :: steps => sb ← step sb; build_all steps sb
  end.

Definition writeBoundedDepList (deps : list string) (maxItems : nat) : building :=
  match deps with
  | [] => writeString "none"
  | _ =>
      build_all ([writeString "["] ++
        imap (fun i d => build_all ((if (0 <? i)%nat then [writeString ", "] else []) ++ [b_writeEscaped d])) (take maxItems deps) ++
        (if (maxItems <? length deps)%nat
         then [writeString " ... (+"; writeInt (Z.of_nat (length deps - maxItems)); writeString " more)"] else []) ++
        [writeString "]"])
  end.

(** [newBoundedReportBuilder], the steps, and [string]. *)
Definition built (steps : list building) : budget string := build_all steps EmptyString.

(** ** Budgets of reports *)

Definition sum_len (l : list string) : Z := foldr (fun s n => slen s + n) 0 l.

Definition input_string_bytes (r : VariantABIReport) : Z :=
  slen (ab_Interpreter r) + sum_len (ab_Dependencies r) +
  foldr (fun v n => slen (vr_Library v) + slen (vr_Version v) + n) 0 (ab_VersionRequirements r).

Definition report_bytes (r : VariantABIReport) : Z :=
  slen (ab_Level r) + slen (ab_Path r) + slen (ab_Class r) + slen (ab_Type r) + slen (ab_Machine r) + slen (ab_Interpreter r) +
  slen (linkage_string (ab_Linkage r)) + slen (completeness_string (ab_Completeness r)) + slen (ab_InspectionSource r) +
  sum_len (ab_Dependencies r) +
  foldr (fun v n => slen (vr_Library v) + slen (vr_Version v) + versionReportSeparatorOverhead + n) 0 (ab_VersionRequirements r) +
  sum_len (ab_Warnings r).

Fixpoint validateReportBudgetWithLimits (reports : list (option VariantABIReport)) (limits : ABILimits) : budget unit :=
  match reports with
  | [] => mret tt
  | None :: _ => fails ErrABIMetadata
  | Some r :: rest =>
      if lim_MaxInterpreterSize limits <? slen (ab_Interpreter r) then fails ErrABIResourceLimit
      else if lim_MaxDynamicEntries limits <? Z.of_nat (length (ab_Dependencies r)) then fails ErrABIResourceLimit
      else if lim_MaxVersionRecordsPerInput limits <? Z.of_nat (length (ab_VersionRequirements r)) then fails ErrABIResourceLimit
      else if lim_MaxABIStringBytesPerInput limits <? input_string_bytes r then fails ErrABIResourceLimit
      else _ ← reserve (report_bytes r); validateReportBudgetWithLimits rest limits
  end.

(** ** Differences *)

Section compare.
Context {SS : SliceSort}.

Definition formatDependencySetDiff (baseline current : VariantABIReport) (missingInCurr missingInBase : list string) : budget string :=
  built [writeString "differing declared dependencies between variant "; b_writeEscaped (ab_Level baseline);
    writeString " and "; b_writeEscaped (ab_Level current); writeString ": missing in "; b_writeEscaped (ab_Level current);
    writeString ": "; writeBoundedDepList missingInCurr 8; writeString "; missing in "; b_writeEscaped (ab_Level baseline);
    writeString ": "; writeBoundedDepList missingInBase 8].

Definition formatDependencyOrderWarning (baseline current : VariantABIReport) : budget string :=
  built [writeString "declared dependency search order differs between variant "; b_writeEscaped (ab_Level baseline);
    writeString " and "; b_writeEscaped (ab_Level current); writeString " (may affect dynamic symbol resolution order)"].

(** The difference and the warning, empty where there is none. *)
Definition compareDependencySets (baseline current : VariantABIReport) : budget (string * string) :=
  let baseDeps := ab_Dependencies baseline in
  let currDeps := ab_Dependencies current in
  let missingInCurr := List.filter (fun d => negb (bool_decide (d ∈ currDeps))) baseDeps in
  let missingInBase := List.filter (fun d => negb (bool_decide (d ∈ baseDeps))) currDeps in
  if (0 <? length missingInCurr)%nat || (0 <? length missingInBase)%nat then
    diff ← formatDependencySetDiff baseline current missingInCurr missingInBase; mret (diff, EmptyString)
  else if (length baseDeps =? length currDeps)%nat && negb (bool_decide (baseDeps = currDeps)) then
    warn ← formatDependencyOrderWarning baseline current; mret (EmptyString, warn)
  else mret (EmptyString, EmptyString).

Definition evaluateVariantUncertainty (rep : VariantABIReport) : bool * bool :=
  match ab_Completeness rep with
  | MetadataSkipped => (true, false)
  | MetadataPartial | MetadataUnsupported => (false, true)
  | _ => if ambiguous (ab_Linkage rep) then (false, true) else (false, false)
  end.

Definition formatAmbiguousLinkageWarning (rep : VariantABIReport) : budget string :=
  built [writeString "variant "; b_writeEscaped (ab_Level rep);
    writeString (" has ambiguous linkage (dynamic dependencies declared without PT_INTERP); " ++
      "complete compatibility cannot be verified")%string].

Definition formatIncompleteMetadataWarning (rep : VariantABIReport) : budget string :=
  built [writeString "variant "; b_writeEscaped (ab_Level rep); writeString " has partial or unsupported version metadata (";
    writeString (completeness_string (ab_Completeness rep));
    writeString "); complete symbol version compatibility cannot be verified"].

Definition isVersionKnown (r : VariantABIReport) : bool :=
  match ab_Completeness r with MetadataPartial | MetadataUnsupported | MetadataSkipped => false | _ => true end.

(** What is said of a report whose metadata is uncertain. *)
Definition uncertainty_warnings (r : VariantABIReport) : budget (list string) :=
  w1 ← (if incomplete (ab_Completeness r) then warn ← formatIncompleteMetadataWarning r; mret [warn] else mret []);
  w2 ← (if ambiguous (ab_Linkage r) && negb (existsb (fun w => Contains w "PT_INTERP" || Contains w "ambiguous") (ab_Warnings r))
        then warn ← formatAmbiguousLinkageWarning r; mret [warn] else mret []);
  mret (w1 ++ w2).

(** The warnings of a report, reserved one by one. *)
Fixpoint reserve_warnings (ws : list string) : budget (list string) :=
  match ws with
  | [] => mret []
  | w :: ws => _ ← reserve (slen w); ws ← reserve_warnings ws; mret (w :: ws)
  end.

Definition handleSingleReport (r : VariantABIReport) (artifact : ArtifactABIReport) : budget ArtifactABIReport :=
  let '(isSkipped, isUnknown) := evaluateVariantUncertainty r in
  ws ← (if isSkipped then mret [] else if isUnknown then uncertainty_warnings r else mret []);
  rest ← reserve_warnings (ab_Warnings r);
  let status := if isSkipped then ComparisonSkipped else if isUnknown then ComparisonUnknown else ComparisonConsistent in
  mret (mkArtifact (ar_TargetOS artifact) (ar_TargetArch artifact) (ar_Variants artifact) status
    (negb isSkipped && negb isUnknown) (ar_Overridden artifact) (ar_Differences artifact)
    (ar_Warnings artifact ++ ws ++ rest) (ar_DeploymentDisclaimer artifact)).

Definition is_static (r : VariantABIReport) : bool :=
  match ab_Linkage r with LinkageStatic | LinkageStaticPIE => true | _ => false end.
Definition is_dynamic (r : VariantABIReport) : bool := match ab_Linkage r with LinkageDynamic => true | _ => false end.

Definition compareVariantLinkages (reports : list VariantABIReport) : budget (list string) :=
  match List.find is_static reports, List.find is_dynamic reports with
  | Some firstStatic, Some firstDynamic =>
      diff ← built [writeString "mixed static and dynamic payloads: variant "; b_writeEscaped (ab_Level firstStatic);
        writeString " is "; writeString (linkage_string (ab_Linkage firstStatic)); writeString ", variant ";
        b_writeEscaped (ab_Level firstDynamic); writeString " is "; writeString (linkage_string (ab_Linkage firstDynamic))];
      mret [diff]
  | _, _ => mret []
  end.

Definition formatInterpreterConfigDiff (interpRef r : VariantABIReport) : budget string :=
  built [writeString "differing interpreter configuration: variant "; b_writeEscaped (ab_Level interpRef);
    writeString " has interpreter ("; writeQuotedEscaped (ab_Interpreter interpRef); writeString "), variant ";
    b_writeEscaped (ab_Level r); writeString " does not"].

Definition formatInterpreterPathDiff (interpRef r : VariantABIReport) : budget string :=
  built [writeString "differing interpreter pathnames: variant "; b_writeEscaped (ab_Level interpRef); writeString " requires ";
    writeQuotedEscaped (ab_Interpreter interpRef); writeString ", variant "; b_writeEscaped (ab_Level r);
    writeString " requires "; writeQuotedEscaped (ab_Interpreter r)].

Definition has_interp (r : VariantABIReport) : bool := ab_HasInterpreter r || negb (String.eqb (ab_Interpreter r) EmptyString).

Definition interp_known (r : VariantABIReport) : bool :=
  is_dynamic r || (bool_decide (ab_Linkage r = LinkageUnset) && has_interp r).

(** What a report adds against the first of its kind. *)
Definition interpreter_diff (interpRef r : VariantABIReport) : budget (list string) :=
  if negb (Bool.eqb (has_interp interpRef) (has_interp r)) then diff ← formatInterpreterConfigDiff interpRef r; mret [diff]
  else if has_interp interpRef && has_interp r && negb (String.eqb (ab_Interpreter interpRef) (ab_Interpreter r))
  then diff ← formatInterpreterPathDiff interpRef r; mret [diff]
  else mret [].

(** Each of the reports of a kind, compared with the first of them. *)
Fixpoint compare_rest {A} (diff : VariantABIReport -> budget (list A)) (rest : list VariantABIReport) : budget (list A) :=
  match rest with
  | [] => mret []
  | r :: rest => d ← diff r; ds ← compare_rest diff rest; mret (d ++ ds)
  end.

Definition compare_known {A} (known : VariantABIReport -> bool) (diff : VariantABIReport -> VariantABIReport -> budget (list A))
    (reports : list VariantABIReport) : budget (list A) :=
  match List.filter known reports with
  | [] => mret []
  | ref :: rest => compare_rest (diff ref) rest
  end.

Definition compareVariantInterpreters : list VariantABIReport -> budget (list string) := compare_known interp_known interpreter_diff.

Definition isDependencyKnown (r : VariantABIReport) : bool :=
  negb (bool_decide (ab_Completeness r = MetadataSkipped)) &&
  (negb (bool_decide (ab_Linkage r = LinkageUnset)) ||
   ((0 <? length (ab_Dependencies r))%nat || negb (String.eqb (ab_InspectionSource r) EmptyString))).

Definition nonempty (s : string) : list string := if String.eqb s EmptyString then [] else [s].

(** Differences on the left, warnings on the right. *)
Definition dependency_diff (depRef r : VariantABIReport) : budget (list (string + string)) :=
  '(diff, warn) ← compareDependencySets depRef r;
  mret ((inl <$> nonempty diff) ++ (inr <$> nonempty warn)).

Definition lefts {A B} (l : list (A + B)) : list A := omap (fun x => match x with inl a => Some a | inr _ => None end) l.
Definition rights {A B} (l : list (A + B)) : list B := omap (fun x => match x with inl _ => None | inr b => Some b end) l.

Definition compareVariantDependencies (reports : list VariantABIReport) : budget (list string * list string) :=
  ds ← compare_known isDependencyKnown dependency_diff reports; mret (lefts ds, rights ds).

Definition versionRequirementsEqual (a b : list VersionRequirement) : bool := bool_decide (a = b).

Definition version_diff (verRef r : VariantABIReport) : budget (list string) :=
  if versionRequirementsEqual (normalizeVersionRequirements (ab_VersionRequirements verRef))
       (normalizeVersionRequirements (ab_VersionRequirements r)) then mret []
  else
    diff ← built [writeString "differing symbol version requirements: variant "; b_writeEscaped (ab_Level verRef); writeString " (";
      writeInt (Z.of_nat (length (ab_VersionRequirements verRef))); writeString " requirements) vs variant ";
      b_writeEscaped (ab_Level r); writeString " ("; writeInt (Z.of_nat (length (ab_VersionRequirements r)));
      writeString " requirements)"];
    mret [diff].

Definition compareVariantVersions : list VariantABIReport -> budget (list string) := compare_known isVersionKnown version_diff.

(** ** The comparison *)

Inductive mismatch := MismatchText (msg : string) | MismatchOmitted (count : nat).

Definition mismatchMessage : string := "declared ABI requirements mismatch between variants".

Definition formatMismatchError (differences : list string) : budget mismatch := fun ra =>
  let needed := foldl (fun n d => n + (slen d + slen mismatchDiffSeparator)) (slen mismatchMessage) differences in
  match reserve needed ra with
  | Ok (_, ra) => Ok (MismatchText (foldl (fun s d => s ++ mismatchDiffSeparator ++ d) mismatchMessage differences)%string, ra)
  | Err _ => Ok (MismatchOmitted (length differences), ra)
  | Panic => Panic
  end.

Fixpoint evaluateAllReportsCompleteness (reports : list VariantABIReport) : budget (bool * bool * list string) :=
  match reports with
  | [] => mret (false, false, [])
  | r :: rest =>
      let '(isSkipped, isUnknownVar) := evaluateVariantUncertainty r in
      ws ← (if isUnknownVar then uncertainty_warnings r else mret []);
      own ← reserve_warnings (ab_Warnings r);
      '(hasSkipped, hasUnknown, warnings) ← evaluateAllReportsCompleteness rest;
      mret (isSkipped || hasSkipped, isUnknownVar || hasUnknown, ws ++ own ++ warnings)
  end.

Definition collectVariantDifferences (reports : list VariantABIReport) : budget (list string * list string) :=
  diffs ← compareVariantLinkages reports;
  interpDiffs ← compareVariantInterpreters reports;
  '(depDiffs, depWarns) ← compareVariantDependencies reports;
  verDiffs ← compareVariantVersions reports;
  mret (diffs ++ interpDiffs ++ depDiffs ++ verDiffs, depWarns).

Fixpoint applyOverriddenDifferences (differences : list string) : budget (list string) :=
  match differences with
  | [] => mret []
  | d :: rest =>
      w ← built [writeString "[OVERRIDDEN] "; writeString d];
      ws ← applyOverriddenDifferences rest;
      mret (w :: ws)
  end.

Definition deploymentDisclaimer : string :=
  "Matching declared ABI requirements does not guarantee deployment host compatibility; " ++
  "the target system must provide the required dynamic linker and libraries.".

(** The presentation is reserved too. *)
Definition reserve_presentation (report : ArtifactABIReport) : budget unit := fun ra =>
  match MeasureABIReportPresentation report with
  | Ok presBytes => reserve presBytes ra
  | Err e => Err e
  | Panic => Panic
  end.

(** The report, with the error of a mismatch where one is returned with it. *)
Definition aggregate_outcome (reports : list (option VariantABIReport)) (allowMixedABI hasSkipped hasUnknown : bool)
    (warnings differences : list string) : budget (ArtifactABIReport * option mismatch) :=
  let report (status : ComparisonStatus) (consistent overridden : bool) (warnings : list string) :=
    mkArtifact EmptyString EmptyString reports status consistent overridden differences warnings deploymentDisclaimer in
  match differences with
  | _ :: _ =>
      if negb allowMixedABI then
        err ← formatMismatchError differences;
        mret (report ComparisonInconsistent false false warnings, Some err)
      else
        ws ← applyOverriddenDifferences differences;
        let rep := report ComparisonInconsistent false true (warnings ++ ws) in
        _ ← reserve_presentation rep; mret (rep, None)
  | [] =>
      let rep :=
        if hasSkipped then report ComparisonSkipped false false warnings
        else if hasUnknown then report ComparisonUnknown false false warnings
        else report ComparisonConsistent true false warnings in
      _ ← reserve_presentation rep; mret (rep, None)
  end.

Definition compare_variants (reports : list (option VariantABIReport)) (allowMixedABI : bool) (limits : ABILimits) :
    budget (ArtifactABIReport * option mismatch) :=
  _ ← validateReportBudgetWithLimits reports limits;
  let artifact := mkArtifact EmptyString EmptyString reports ComparisonConsistent true false [] [] deploymentDisclaimer in
  _ ← reserve (slen deploymentDisclaimer);
  match omap id reports with
  | [] => _ ← reserve_presentation artifact; mret (artifact, None)
  | [r] => rep ← handleSingleReport r artifact; _ ← reserve_presentation rep; mret (rep, None)
  | rs =>
      '(hasSkipped, hasUnknown, warnings) ← evaluateAllReportsCompleteness rs;
      '(differences, depWarns) ← collectVariantDifferences rs;
      aggregate_outcome reports allowMixedABI hasSkipped hasUnknown (warnings ++ depWarns) differences
  end.

Definition CompareVariantABIsWithOptions (reports : list (option VariantABIReport)) (allowMixedABI : bool) (limits : ABILimits) :
    outcome abi_err (ArtifactABIReport * option mismatch) :=
  match compare_variants reports allowMixedABI limits (NewReportAccounting (lim_MaxArtifactReportBytes limits)) with
  | Ok (result, _) => Ok result
  | Err e => Err e
  | Panic => Panic
  end.

Definition CompareVariantABIs (reports : list (option VariantABIReport)) (allowMixedABI : bool) :
    outcome abi_err (ArtifactABIReport * option mismatch) :=
  CompareVariantABIsWithOptions reports allowMixedABI defaultABILimits.

End compare.
