(* ===== verification/AbiCompareProofs.v ===== *)
(** * What comparing variants shows *)

From S2P Require Import Prelude GoStrings GoIO MicroarchSelect PackPlan Abi AbiBounds AbiParse AbiReport AbiText AbiRender AbiCompare.
From stdpp Require Import base list strings gmap sorting.
From Stdlib Require Import ZArith Lia Strings.Ascii.

Local Open Scope Z_scope.

#[local] Arguments slen : simpl never.

(** ** Version requirements in order *)

Definition slt (a b : string) : Prop := String.ltb a b = true.

Lemma slt_not_le a b : slt a b <-> ~ String.le b a.
Proof.
  unfold slt, String.le, String.ltb, String.leb. rewrite (String.compare_antisym b a).
  destruct (String.compare a b); cbn; naive_solver.
Qed.

Lemma slt_irrefl a : ~ slt a a.
Proof. rewrite slt_not_le. intros H. by apply H. Qed.

Lemma slt_trans a b c : slt a b -> slt b c -> slt a c.
Proof.
  rewrite !slt_not_le. intros H1 H2 H3. destruct (String.le_total a b) as [H|H]; [|done]. apply H2. by etrans.
Qed.

Lemma slt_total a b : slt a b \/ a = b \/ slt b a.
Proof.
  rewrite !slt_not_le. destruct (decide (String.le a b)) as [H1|H1], (decide (String.le b a)) as [H2|H2]; auto.
  right. left. by apply (anti_symm String.le).
Qed.

Lemma version_less_spec a b :
  version_less a b = true <-> slt (vr_Library a) (vr_Library b) \/
    vr_Library a = vr_Library b /\ (slt (vr_Version a) (vr_Version b) \/ vr_Version a = vr_Version b /\ vr_Flags a < vr_Flags b).
Proof.
  unfold version_less, slt. pose proof (slt_irrefl (vr_Library a)) as H1. pose proof (slt_irrefl (vr_Version a)) as H2. unfold slt in *.
  destruct (String.eqb_spec (vr_Library a) (vr_Library b)) as [E1|E1]; cbn [negb]; [rewrite E1 in *|naive_solver].
  destruct (String.eqb_spec (vr_Version a) (vr_Version b)) as [E2|E2]; cbn [negb]; [rewrite E2 in *|naive_solver].
  rewrite Z.ltb_lt. naive_solver.
Qed.

Lemma version_less_irrefl a : version_less a a = false.
Proof. apply not_true_iff_false. rewrite version_less_spec. intros [H|[_ [H|[_ H]]]]; [by apply slt_irrefl in H..|lia]. Qed.

Lemma version_less_trans a b c : version_less a b = true -> version_less b c = true -> version_less a c = true.
Proof.
  rewrite !version_less_spec. intros [H1|[-> [H1|[-> H1]]]] [H2|[<- [H2|[<- H2]]]]; auto.
  - left. by eapply slt_trans.
  - right. split; [done|]. left. by eapply slt_trans.
  - right. split; [done|]. right. split; [done|]. lia.
Qed.

Lemma version_less_total a b : version_less a b = true \/ a = b \/ version_less b a = true.
Proof.
  rewrite !version_less_spec. destruct a as [l1 v1 f1], b as [l2 v2 f2]. cbn.
  destruct (slt_total l1 l2) as [H|[-> |H]]; [by auto| |by auto]. destruct (slt_total v1 v2) as [H|[-> |H]]; [by auto| |by auto 10].
  destruct (Z.lt_trichotomy f1 f2) as [H|[-> |H]]; auto 10.
Qed.

Lemma version_order : weak_order version_less.
Proof.
  split; [apply version_less_irrefl|apply version_less_trans|]. intros a b c H1 H2. apply not_true_iff_false. intros H3.
  destruct (version_less_total a b) as [H|[-> |H]]; [congruence..|]. pose proof (version_less_trans b a c H H3). congruence.
Qed.

Global Instance version_antisym : AntiSymm (=) (not_after version_less).
Proof. intros a b H1 H2. unfold not_after in *. destruct (version_less_total a b) as [?|[?|?]]; [congruence|done|congruence]. Qed.

Section order.
Context {SS : SliceSort}.

Lemma normalize_sorted reqs : StronglySorted (not_after version_less) (normalizeVersionRequirements reqs).
Proof.
  unfold normalizeVersionRequirements. destruct (Nat.leb_spec (length reqs) 1).
  - destruct reqs as [|? [|? ?]]; [constructor|by repeat constructor|cbn in *; lia].
  - apply sort_slice_ordered, version_order.
Qed.

(** Lists are normalised to one form when they have the same elements. *)
Lemma normalize_eq a b :
  normalizeVersionRequirements a = normalizeVersionRequirements b <-> forall v, v ∈ a <-> v ∈ b.
Proof.
  split.
  - intros H v. rewrite <- (normalize_elem a v), <- (normalize_elem b v). by rewrite H.
  - intros H. apply (StronglySorted_unique (not_after version_less)); [apply normalize_sorted..|].
    apply NoDup_Permutation; [apply normalize_NoDup..|]. intros v. by rewrite !normalize_elem.
Qed.

End order.

(** ** Code with the account *)

Definition account_ok (ra : ReportAccounting) : Prop := uint64_range (ra_maxBytes ra) /\ 0 <= ra_usedBytes ra <= ra_maxBytes ra.

(** The code returns, what it returns was reserved and is in [Q]; or there is
    no room left in the account. *)
Definition reserves {A} (m : budget A) (size : A -> Z) (Q : A -> Prop) : Prop :=
  forall ra, account_ok ra ->
    match m ra with
    | Ok (a, ra') => account_ok ra' /\ ra_maxBytes ra' = ra_maxBytes ra /\ ra_usedBytes ra + size a <= ra_usedBytes ra' /\ Q a
    | Err e => e = ErrABIResourceLimit
    | Panic => False
    end.

Section rules.
Context {A B : Type}.

Lemma reserves_ret (a : A) (size : A -> Z) (Q : A -> Prop) : size a <= 0 -> Q a -> reserves (mret a) size Q.
Proof. intros Hs HQ ra Hra. cbn. split_and!; [done..|lia|done]. Qed.

Lemma reserves_fails (size : A -> Z) (Q : A -> Prop) : reserves (fails ErrABIResourceLimit) size Q.
Proof. done. Qed.

Lemma reserves_bind (m : budget A) size R (f : A -> budget B) (size' : B -> Z) Q :
  reserves m size R -> (forall a, R a -> reserves (f a) (fun b => size' b - size a) Q) -> reserves (m ≫= f) size' Q.
Proof.
  intros Hm Hf ra Hra. specialize (Hm ra Hra). unfold mbind, budget_bind. destruct (m ra) as [[a ra1]|e|]; [|done..].
  destruct Hm as (H1 & H2 & H3 & HR). specialize (Hf a HR ra1 H1). destruct (f a ra1) as [[b ra2]|e|]; [|done..].
  destruct Hf as (H4 & H5 & H6 & HQ). split_and!; [done|congruence|lia|done].
Qed.

Lemma reserves_impl (m : budget A) size Q (size' : A -> Z) (Q' : A -> Prop) :
  reserves m size Q -> (forall a, Q a -> size' a <= size a /\ Q' a) -> reserves m size' Q'.
Proof.
  intros Hm Himp ra Hra. specialize (Hm ra Hra). destruct (m ra) as [[a ra']|e|]; [|done..].
  destruct Hm as (H1 & H2 & H3 & HQ). destruct (Himp a HQ). split_and!; [done..|lia|done].
Qed.

End rules.

Lemma reserves_reserve n : 0 <= n -> reserves (reserve n) (fun _ => n) (fun _ => True).
Proof.
  intros Hn [max used] [Hr Hu]. cbn in *. unfold reserve. cbn. destruct (_ || _) eqn:E; [done|].
  apply orb_false_iff in E as [E1%Z.ltb_ge E2%Z.ltb_ge]. rewrite u64_sub_small in E2 by (done || lia).
  unfold uint64_range in *. rewrite u64_add_small by lia. split_and!; [split; cbn; unfold uint64_range in *; lia|done|done|done].
Qed.

(** ** Builders *)

(** A step of a builder appends what it reserves. *)
Definition appends (step : building) : Prop :=
  forall sb, reserves (step sb) (fun t => slen t - slen sb) (fun t => exists u, t = (sb ++ u)%string).

Lemma slen_nonneg s : 0 <= slen s.
Proof. unfold slen. lia. Qed.

Lemma appends_reserved n u : 0 <= n -> slen u <= n -> forall sb, reserves (_ ← reserve n; mret (sb ++ u)%string) (fun t => slen t - slen sb)
  (fun t => exists v, t = (sb ++ v)%string).
Proof.
  intros Hn Hu sb. eapply reserves_bind; [by apply reserves_reserve|]. intros [] _. apply reserves_ret; [rewrite slen_app; lia|by exists u].
Qed.

Lemma appends_string s : appends (writeString s).
Proof. intros sb. by apply appends_reserved; [apply slen_nonneg|]. Qed.

Lemma escaped_slen s : (EscapedMetadataLen s).1 = slen (writeEscapedIntoBuilder s).
Proof. apply EscapedMetadataLen_exact. Qed.

Lemma appends_escaped s : appends (b_writeEscaped s).
Proof.
  intros sb. unfold b_writeEscaped. cbv zeta. rewrite escaped_slen, (proj2 (Z.ltb_ge _ _)) by apply slen_nonneg.
  apply appends_reserved; [apply slen_nonneg|done].
Qed.

Lemma appends_quoted s : appends (writeQuotedEscaped s).
Proof.
  intros sb. unfold writeQuotedEscaped. cbv zeta. rewrite escaped_slen, (proj2 (Z.ltb_ge _ _)) by apply slen_nonneg.
  pose proof (slen_nonneg (writeEscapedIntoBuilder s)) as H0. pose proof (EscapeMetadata_bound s) as H1.
  unfold maxDisplayLen, EscapeMetadata in H1. change (String.length truncMarker) with 14%nat in H1.
  assert (u64_add (slen (writeEscapedIntoBuilder s)) 2 = slen (writeEscapedIntoBuilder s) + 2) as -> by (unfold slen in *; rewrite u64_add_small; lia).
  apply appends_reserved; rewrite ?slen_app; change (slen quote) with 1; lia.
Qed.

Lemma appends_all steps : Forall appends steps -> appends (build_all steps).
Proof.
  induction 1 as [|step steps Hs _ IH]; intros sb; cbn [build_all].
  { apply reserves_ret; [lia|]. exists EmptyString. by rewrite append_empty. }
  eapply reserves_bind; [apply Hs|]. intros t [u ->]. eapply reserves_impl; [apply IH|]. intros t' [v ->].
  split; [cbv beta; lia|]. exists (u ++ v)%string. by rewrite append_assoc.
Qed.

Ltac appended :=
  repeat match goal with
  | |- appends (build_all _) => apply appends_all
  | |- appends (writeString _) => apply appends_string
  | |- appends (writeInt _) => apply appends_string
  | |- appends (b_writeEscaped _) => apply appends_escaped
  | |- appends (writeQuotedEscaped _) => apply appends_quoted
  | |- Forall _ (_ ++ _) => apply Forall_app; split
  | |- Forall _ (_ :: _) => constructor
  | |- Forall _ [] => constructor
  | |- Forall _ (imap _ _) => apply Forall_imap_all; intros
  | |- Forall _ (if ?b then _ else _) => destruct b
  end.

Lemma appends_deps deps n : appends (writeBoundedDepList deps n).
Proof. unfold writeBoundedDepList. destruct deps; appended. Qed.

(** Text that starts with a literal is not empty. *)
Lemma reserves_built s steps :
  s <> EmptyString -> Forall appends steps -> reserves (built (writeString s :: steps)) slen (fun t => t <> EmptyString).
Proof.
  intros Hne Hs. unfold built. cbn [build_all]. apply (reserves_bind _ slen (fun t => t = s)).
  - eapply reserves_bind; [apply reserves_reserve, slen_nonneg|]. intros [] _. apply reserves_ret; [|done]. change (EmptyString ++ s)%string with s. lia.
  - intros t ->. eapply reserves_impl; [by apply appends_all|]. intros t [u ->]. split; [cbv beta; lia|]. by destruct s.
Qed.

(** ** Differences *)

Lemma sum_len_app a b : sum_len (a ++ b) = sum_len a + sum_len b.
Proof. induction a as [|s a IH]; [done|]. change (slen s + sum_len (a ++ b) = slen s + sum_len a + sum_len b). lia. Qed.

Lemma sum_len_cons s l : sum_len (s :: l) = slen s + sum_len l.
Proof. done. Qed.

Lemma sum_len_nonneg l : 0 <= sum_len l.
Proof. induction l as [|s l IH]; [done|]. change (0 <= slen s + sum_len l). pose proof (slen_nonneg s). lia. Qed.

Lemma sum_len_one s : sum_len [s] = slen s.
Proof. cbn. lia. Qed.

Lemma reserves_one s steps Q :
  s <> EmptyString -> Forall appends steps -> (forall t, t <> EmptyString -> Q [t]) ->
  reserves (t ← built (writeString s :: steps); mret [t]) sum_len Q.
Proof.
  intros Hs Hst HQ. eapply reserves_bind; [by apply reserves_built|]. intros t Ht.
  apply reserves_ret; [rewrite sum_len_one; lia|by apply HQ].
Qed.

(** Two variants agree. *)
Definition same_interpreter (a b : VariantABIReport) : Prop :=
  has_interp a = has_interp b /\ (has_interp a = true -> ab_Interpreter a = ab_Interpreter b).

Definition same_deps (a b : VariantABIReport) : Prop := forall d, d ∈ ab_Dependencies a <-> d ∈ ab_Dependencies b.

Definition same_versions (a b : VariantABIReport) : Prop := forall v, v ∈ ab_VersionRequirements a <-> v ∈ ab_VersionRequirements b.

Lemma reserves_interpreter ref r :
  reserves (interpreter_diff ref r) sum_len (fun ds => ds = [] <-> same_interpreter ref r).
Proof.
  unfold interpreter_diff, same_interpreter. destruct (Bool.eqb (has_interp ref) (has_interp r)) eqn:E; cbn [negb].
  - apply eqb_prop in E. rewrite <- E. destruct (has_interp ref); cbn [andb]; [|by apply reserves_ret].
    destruct (String.eqb_spec (ab_Interpreter ref) (ab_Interpreter r)) as [Hi|Hi]; cbn [negb]; [by apply reserves_ret|].
    apply reserves_one; [done|appended|]. intros t _. split; [done|]. intros [_ H]. by specialize (H eq_refl).
  - apply eqb_false_iff in E. apply reserves_one; [done|appended|]. intros t _. split; [done|tauto].
Qed.

Section versions.
Context {SS : SliceSort}.

Lemma reserves_versions ref r : reserves (version_diff ref r) sum_len (fun ds => ds = [] <-> same_versions ref r).
Proof.
  unfold version_diff, versionRequirementsEqual. pose proof (normalize_eq (ab_VersionRequirements ref) (ab_VersionRequirements r)) as Hn.
  case_bool_decide as H.
  - apply reserves_ret; [done|]. split; [intros _; exact (proj1 Hn H)|done].
  - apply reserves_one; [done|appended|]. intros t _. split; [done|]. intros Hs. destruct (H (proj2 Hn Hs)).
Qed.

End versions.

(** The text of differences and warnings. *)
Definition either_len (l : list (string + string)) : Z := sum_len (lefts l) + sum_len (rights l).

Lemma missing_nil (a b : list string) : List.filter (fun d => negb (bool_decide (d ∈ b))) a = [] <-> forall d, d ∈ a -> d ∈ b.
Proof.
  rewrite (filter_none (fun d => negb (bool_decide (d ∈ b)))), Forall_forall. apply forall_proper. intros d.
  by rewrite negb_false_iff, bool_decide_eq_true.
Qed.

Lemma reserves_deps ref r : reserves (dependency_diff ref r) either_len (fun ds => lefts ds = [] <-> same_deps ref r).
Proof.
  unfold dependency_diff, compareDependencySets. cbv zeta.
  set (m1 := List.filter _ (ab_Dependencies ref)). set (m2 := List.filter _ (ab_Dependencies r)).
  assert (m1 = [] /\ m2 = [] <-> same_deps ref r) as Hsame.
  { unfold m1, m2, same_deps. rewrite !missing_nil. split; [intros [H1 H2] d; split; auto|intros H; split; intros d; apply H]. }
  destruct (_ || _) eqn:Hm.
  - assert (~ same_deps ref r) as Hne.
    { rewrite <- Hsame. intros [H1 H2]. rewrite H1, H2 in Hm. done. }
    eapply (reserves_bind _ (fun p => slen p.1) (fun p => p.1 <> EmptyString /\ p.2 = EmptyString)).
    + eapply reserves_bind; [apply reserves_built; [done|]; appended; apply appends_deps|]. intros t Ht.
      apply reserves_ret; [cbv beta; cbn; lia|done].
    + intros [diff warn] [Hd Hw]. cbn in Hd, Hw. subst warn. unfold nonempty. destruct (String.eqb_spec diff EmptyString); [done|].
      apply reserves_ret; [unfold either_len; cbn; lia|]. cbn. split; [done|]. tauto.
  - assert (same_deps ref r) as Heq.
    { apply Hsame. destruct m1, m2; cbn in Hm; done. }
    destruct (_ && _).
    + eapply (reserves_bind _ (fun p => slen p.2) (fun p => p.1 = EmptyString)).
      * eapply reserves_bind; [apply reserves_built; [done|]; appended|]. intros t Ht. apply reserves_ret; [cbv beta; cbn; lia|done].
      * intros [diff warn] Hd. cbn in Hd. subst diff. cbn. apply reserves_ret; [|].
        -- unfold nonempty, either_len. destruct (String.eqb_spec warn EmptyString) as [-> |]; cbn; [change (slen EmptyString) with 0|]; lia.
        -- unfold nonempty. destruct (String.eqb_spec warn EmptyString); cbn; done.
    + apply reserves_ret; [unfold either_len; cbn; lia|]. cbn. done.
Qed.

(** ** All variants *)

(** Any two variants of a kind agree. *)
Definition pairwise (known : VariantABIReport -> bool) (same : VariantABIReport -> VariantABIReport -> Prop)
    (rs : list VariantABIReport) : Prop :=
  forall a b, a ∈ rs -> b ∈ rs -> known a = true -> known b = true -> same a b.

Section known.
Context {A B : Type} (known : VariantABIReport -> bool) (diff : VariantABIReport -> VariantABIReport -> budget (list A)).
Context (size : list A -> Z) (proj : list A -> list B) (same : VariantABIReport -> VariantABIReport -> Prop).
Context (size_nil : size [] = 0) (size_app : forall a b, size (a ++ b) = size a + size b).
Context (proj_nil : proj [] = []) (proj_app : forall a b, proj (a ++ b) = proj a ++ proj b).
Context (Hdiff : forall ref r, reserves (diff ref r) size (fun ds => proj ds = [] <-> same ref r)).
Context `{Equivalence _ same}.

Lemma reserves_rest ref rest :
  reserves (compare_rest (diff ref) rest) size (fun ds => proj ds = [] <-> Forall (same ref) rest).
Proof using known size_nil size_app proj_nil proj_app Hdiff.
  induction rest as [|r rest IH]; cbn [compare_rest]; [by apply reserves_ret; [lia|]|].
  eapply reserves_bind; [apply Hdiff|]. intros d Hd. eapply reserves_bind; [exact IH|]. intros ds Hds. cbv beta.
  apply reserves_ret; [rewrite size_app; lia|]. rewrite proj_app, Forall_cons, <- Hd, <- Hds. apply app_nil.
Qed.

Lemma reserves_known rs : reserves (compare_known known diff rs) size (fun ds => proj ds = [] <-> pairwise known same rs).
Proof using All.
  unfold compare_known.
  assert (forall a, a ∈ List.filter known rs <-> a ∈ rs /\ known a = true) as Hin.
  { intros a. rewrite !list_elem_of_In. apply List.filter_In. }
  destruct (List.filter known rs) as [|ref rest] eqn:Hf.
  - apply reserves_ret; [lia|]. split; [|done]. intros _ a b Ha _ Hk _. exfalso. by apply (not_elem_of_nil a), Hin.
  - eapply reserves_impl; [apply reserves_rest|]. intros ds Hds. split; [lia|]. rewrite Hds. split.
    + intros Hall. assert (forall a, a ∈ rs -> known a = true -> same ref a) as Href.
      { intros a Ha Hk. destruct (proj1 (elem_of_cons _ _ _) (proj2 (Hin a) (conj Ha Hk))) as [-> |Hr]; [done|].
        rewrite Forall_forall in Hall. by apply Hall. }
      intros a b Ha Hb Hka Hkb. etrans; [symmetry|]; by apply Href.
    + intros Hp. apply Forall_forall. intros r Hr. destruct (proj1 (Hin ref)) as [H1 H2]; [by left|].
      destruct (proj1 (Hin r)) as [H3 H4]; [by right|]. by apply Hp.
Qed.

End known.

Global Instance same_interpreter_equiv : Equivalence same_interpreter.
Proof.
  unfold same_interpreter. split; [by intros a|intros a b [H1 H2]|intros a b c [H1 H2] [H3 H4]].
  - rewrite <- H1. split; [done|]. intros H. by rewrite H2.
  - rewrite <- H3, <- H1. split; [done|]. intros H. rewrite H2 by done. apply H4. by rewrite <- H1.
Qed.

Global Instance same_deps_equiv : Equivalence same_deps.
Proof. split; [intros a|intros a b H|intros a b c H1 H2]; unfold same_deps in *; naive_solver. Qed.

Global Instance same_versions_equiv : Equivalence same_versions.
Proof. split; [intros a|intros a b H|intros a b c H1 H2]; unfold same_versions in *; naive_solver. Qed.

(** No difference is declared between the variants. *)
Record agree (rs : list VariantABIReport) : Prop := {
  ag_linkage : forall a b, a ∈ rs -> b ∈ rs -> is_static a = true -> is_dynamic b = false;
  ag_interpreter : pairwise interp_known same_interpreter rs;
  ag_deps : pairwise isDependencyKnown same_deps rs;
  ag_versions : pairwise isVersionKnown same_versions rs
}.

Lemma find_none {A} (f : A -> bool) l : List.find f l = None <-> forall a, a ∈ l -> f a = false.
Proof.
  split; [intros H a Ha; eapply List.find_none; [exact H|by apply list_elem_of_In]|].
  intros H. destruct (List.find f l) as [a|] eqn:E; [|done]. apply List.find_some in E as [Hin Hf].
  rewrite H in Hf; [done|by apply list_elem_of_In].
Qed.

Lemma reserves_linkages rs :
  reserves (compareVariantLinkages rs) sum_len (fun ds => ds = [] <-> forall a b, a ∈ rs -> b ∈ rs -> is_static a = true -> is_dynamic b = false).
Proof.
  unfold compareVariantLinkages. destruct (List.find is_static rs) as [s|] eqn:Hs; [destruct (List.find is_dynamic rs) as [d|] eqn:Hd|].
  - apply reserves_one; [done|appended|]. intros t _. split; [done|]. intros H.
    apply List.find_some in Hs as [Hs1 Hs2]. apply List.find_some in Hd as [Hd1 Hd2].
    rewrite (H s d) in Hd2; [done|by apply list_elem_of_In..|done].
  - apply reserves_ret; [done|]. split; [|done]. intros _ a b _ Hb _. rewrite find_none in Hd. by apply Hd.
  - apply reserves_ret; [done|]. split; [|done]. intros _ a b Ha _ Hst. rewrite find_none in Hs. by rewrite (Hs a Ha) in Hst.
Qed.

Lemma lefts_app {A B} (a b : list (A + B)) : lefts (a ++ b) = lefts a ++ lefts b.
Proof. apply omap_app. Qed.
Lemma rights_app {A B} (a b : list (A + B)) : rights (a ++ b) = rights a ++ rights b.
Proof. apply omap_app. Qed.

Section compared.
Context {SS : SliceSort}.

Lemma reserves_collect rs :
  reserves (collectVariantDifferences rs) (fun p => sum_len p.1 + sum_len p.2) (fun p => p.1 = [] <-> agree rs).
Proof.
  unfold collectVariantDifferences. eapply reserves_bind; [apply reserves_linkages|]. intros d1 H1.
  eapply reserves_bind; [apply (reserves_known interp_known interpreter_diff sum_len id same_interpreter);
    [done|apply sum_len_app|done|done|apply reserves_interpreter|apply _]|]. intros d2 H2.
  eapply (reserves_bind _ (fun p => sum_len p.1 + sum_len p.2) (fun p => p.1 = [] <-> pairwise isDependencyKnown same_deps rs)).
  { unfold compareVariantDependencies. eapply reserves_bind; [apply (reserves_known isDependencyKnown dependency_diff either_len lefts same_deps);
      [done| |done|apply lefts_app|apply reserves_deps|apply _]|].
    - intros a b. unfold either_len. rewrite lefts_app, rights_app, !sum_len_app. lia.
    - intros ds Hds. apply reserves_ret; [unfold either_len; cbn [fst snd]; lia|done]. }
  intros [d3 w3] H3. eapply reserves_bind; [apply (reserves_known isVersionKnown version_diff sum_len id same_versions);
    [done|apply sum_len_app|done|done|apply reserves_versions|apply _]|]. intros d4 H4.
  cbn in H2, H3, H4. apply reserves_ret; [cbn [fst snd]; rewrite !sum_len_app; lia|]. cbn. split.
  - intros Hn. apply app_nil in Hn as [E1 Hn]. apply app_nil in Hn as [E2 Hn]. apply app_nil in Hn as [E3 E4].
    split; [by apply H1|by apply H2|by apply H3|by apply H4].
  - intros [Ha Hb Hc Hd]. apply H1 in Ha as ->. apply H2 in Hb as ->. apply H3 in Hc as ->. by apply H4 in Hd as ->.
Qed.

(** ** Completeness *)

Definition skipped (rs : list VariantABIReport) : bool := existsb (fun r => (evaluateVariantUncertainty r).1) rs.
Definition unknown (rs : list VariantABIReport) : bool := existsb (fun r => (evaluateVariantUncertainty r).2) rs.

Lemma reserves_option (b : bool) (m : budget (list string)) :
  reserves m sum_len (fun _ => True) -> reserves (if b then m else mret []) sum_len (fun _ => True).
Proof. intros Hm. by destruct b; [|apply reserves_ret]. Qed.

Lemma reserves_uncertainty r : reserves (uncertainty_warnings r) sum_len (fun _ => True).
Proof.
  unfold uncertainty_warnings.
  eapply reserves_bind; [apply reserves_option; by apply reserves_one; [|appended|]|]. intros w1 _.
  eapply reserves_bind; [apply reserves_option; by apply reserves_one; [|appended|]|]. intros w2 _.
  apply reserves_ret; [rewrite sum_len_app; lia|done].
Qed.

Lemma reserves_warnings ws : reserves (reserve_warnings ws) sum_len (fun out => out = ws).
Proof.
  induction ws as [|w ws IH]; cbn [reserve_warnings]; [by apply reserves_ret|].
  eapply reserves_bind; [apply reserves_reserve, slen_nonneg|]. intros [] _.
  eapply reserves_bind; [exact IH|]. intros out ->. apply reserves_ret; [rewrite sum_len_cons; lia|done].
Qed.

Lemma reserves_completeness rs :
  reserves (evaluateAllReportsCompleteness rs) (fun p => sum_len p.2) (fun p => p.1 = (skipped rs, unknown rs)).
Proof.
  induction rs as [|r rs IH]; cbn [evaluateAllReportsCompleteness]; [by apply reserves_ret|].
  unfold skipped, unknown in *. cbn [existsb]. destruct (evaluateVariantUncertainty r) as [sk un]. cbn [fst snd].
  eapply reserves_bind; [apply reserves_option, reserves_uncertainty|]. intros w1 _.
  eapply reserves_bind; [apply reserves_warnings|]. intros own _.
  eapply reserves_bind; [exact IH|]. intros [[hs hu] ws] [= -> ->]. cbn [snd].
  apply reserves_ret; [cbn [snd]; rewrite !sum_len_app; lia|done].
Qed.

Lemma reserves_overridden ds : reserves (applyOverriddenDifferences ds) sum_len (fun _ => True).
Proof.
  induction ds as [|d ds IH]; cbn [applyOverriddenDifferences]; [by apply reserves_ret|].
  eapply reserves_bind; [apply reserves_built; [done|appended]|]. intros w _.
  eapply reserves_bind; [exact IH|]. intros ws _. apply reserves_ret; [rewrite sum_len_cons; lia|done].
Qed.

(** ** Sizes *)

Definition variants_bytes (rs : list VariantABIReport) : Z := foldr (fun r n => report_bytes r + n) 0 rs.

Lemma version_sum_nonneg (k : Z) vs : 0 <= k -> 0 <= foldr (fun v n => slen (vr_Library v) + slen (vr_Version v) + k + n) 0 vs.
Proof.
  intros Hk. induction vs as [|v vs IH]; cbn [foldr]; [done|]. pose proof (slen_nonneg (vr_Library v)). pose proof (slen_nonneg (vr_Version v)). lia.
Qed.

Lemma report_bytes_nonneg r : 0 <= report_bytes r.
Proof.
  unfold report_bytes. pose proof (version_sum_nonneg versionReportSeparatorOverhead (ab_VersionRequirements r) ltac:(done)).
  pose proof (sum_len_nonneg (ab_Dependencies r)). pose proof (sum_len_nonneg (ab_Warnings r)). unfold slen in *. lia.
Qed.

Lemma reserves_validate rs limits :
  reserves (validateReportBudgetWithLimits (Some <$> rs) limits) (fun _ => variants_bytes rs) (fun _ => True).
Proof.
  induction rs as [|r rs IH]; cbn [fmap list_fmap validateReportBudgetWithLimits]; [by apply reserves_ret|].
  repeat (destruct (_ <? _); [apply reserves_fails|]).
  eapply reserves_bind; [apply reserves_reserve, report_bytes_nonneg|]. intros [] _.
  eapply reserves_impl; [exact IH|]. intros [] _. split; [cbn [variants_bytes foldr]; unfold variants_bytes; lia|done].
Qed.

Definition presentation (rep : ArtifactABIReport) : Z := match MeasureABIReportPresentation rep with Ok n => n | _ => 0 end.

Lemma disclaimer_lined : lined deploymentDisclaimer.
Proof. apply lined_literal. vm_compute. reflexivity. Qed.

Lemma measured_nonneg rep n :
  ar_DeploymentDisclaimer rep = deploymentDisclaimer -> MeasureABIReportPresentation rep = Ok n -> 0 <= n.
Proof.
  intros Hd. unfold MeasureABIReportPresentation. destruct (prints_report rep) as (t & Ht & _); [rewrite Hd; apply disclaimer_lined|].
  destruct (Ht None 0) as (_ & _ & Hok). destruct (em_err _); [done|]. intros [= <-]. rewrite (Hok eq_refl). cbn. apply slen_nonneg.
Qed.

Lemma reserves_presentation rep :
  ar_DeploymentDisclaimer rep = deploymentDisclaimer -> reserves (reserve_presentation rep) (fun _ => presentation rep) (fun _ => True).
Proof.
  intros Hd. unfold reserve_presentation, presentation. destruct (MeasureABIReportPresentation rep) as [n|e|] eqn:Hm.
  - apply reserves_reserve. by eapply measured_nonneg.
  - unfold MeasureABIReportPresentation in Hm. intros ra _. destruct (em_err _); congruence.
  - unfold MeasureABIReportPresentation in Hm. by destruct (em_err _).
Qed.

Definition mismatch_bytes (m : mismatch) : Z := match m with MismatchText msg => slen msg | MismatchOmitted _ => 0 end.

Lemma mismatch_length ds n s :
  n = slen s -> foldl (fun n d => n + (slen d + slen mismatchDiffSeparator)) n ds =
    slen (foldl (fun s d => s ++ mismatchDiffSeparator ++ d)%string s ds).
Proof.
  revert n s. induction ds as [|d ds IH]; intros n s ->; cbn [foldl]; [done|]. apply IH. rewrite !slen_app. lia.
Qed.

Lemma reserves_mismatch ds : reserves (formatMismatchError ds) mismatch_bytes (fun _ => True).
Proof.
  intros ra Hra. unfold formatMismatchError. rewrite (mismatch_length ds _ mismatchMessage eq_refl).
  pose proof (reserves_reserve _ (slen_nonneg (foldl (fun s d => s ++ mismatchDiffSeparator ++ d)%string mismatchMessage ds)) ra Hra) as Hr.
  destruct (reserve _ ra) as [[[] ra']|e|]; [exact Hr| |done]. split_and!; [done..|cbn; lia|done].
Qed.

End compared.
