(* ===== verification/AbiVerdict.v ===== *)
(** * The verdict on an artifact

    What [CompareVariantABIsWithOptions] answers says exactly whether the
    variants agree, and all it returns was reserved in its account. *)

From S2P Require Import Prelude GoStrings GoIO MicroarchSelect PackPlan Abi AbiBounds AbiReport AbiText AbiRender AbiCompare AbiCompareProofs.
From stdpp Require Import base list strings gmap.
From Stdlib Require Import ZArith Lia Strings.Ascii.

Local Open Scope Z_scope.

#[local] Arguments slen : simpl never.

Section verdict.
Context {SS : SliceSort}.

(** The verdict on some variants: whether they agree, and how certain that is. *)
Record verdict (rs : list VariantABIReport) (allowMixedABI : bool) (rep : ArtifactABIReport) (err : option mismatch) : Prop := {
  vd_differences : ar_Differences rep = [] <-> agree rs;
  vd_inconsistent : ar_Status rep = ComparisonInconsistent <-> ~ agree rs;
  vd_consistent : ar_Status rep = ComparisonConsistent <-> agree rs /\ skipped rs = false /\ unknown rs = false;
  vd_skipped : ar_Status rep = ComparisonSkipped <-> agree rs /\ skipped rs = true;
  vd_flag : ar_Consistent rep = true <-> ar_Status rep = ComparisonConsistent;
  vd_error : err = None <-> agree rs \/ allowMixedABI = true;
  vd_overridden : ar_Overridden rep = true <-> ~ agree rs /\ allowMixedABI = true
}.

(** The status where nothing differs. *)
Definition settled (rs : list VariantABIReport) : ComparisonStatus :=
  if skipped rs then ComparisonSkipped else if unknown rs then ComparisonUnknown else ComparisonConsistent.

Lemma verdict_agree rs allow rep :
  agree rs -> ar_Differences rep = [] -> ar_Status rep = settled rs ->
  ar_Consistent rep = bool_decide (settled rs = ComparisonConsistent) -> ar_Overridden rep = false -> verdict rs allow rep None.
Proof.
  intros Ha Hd Hs Hc Ho. unfold settled in *.
  split; rewrite ?Hd, ?Hs, ?Hc, ?Ho, ?bool_decide_eq_true; destruct (skipped rs), (unknown rs); naive_solver.
Qed.

Lemma verdict_differ rs allow rep err :
  ~ agree rs -> ar_Differences rep <> [] -> ar_Status rep = ComparisonInconsistent -> ar_Consistent rep = false ->
  ar_Overridden rep = allow -> (err = None <-> allow = true) -> verdict rs allow rep err.
Proof. intros Ha Hd Hs Hc Ho He. split; rewrite ?Hs, ?Hc, ?Ho; naive_solver. Qed.

Lemma agree_one r : agree [r].
Proof.
  assert (forall known (same : VariantABIReport -> VariantABIReport -> Prop), Equivalence same -> pairwise known same [r]) as Hp.
  { intros known same Heq a b Ha%list_elem_of_singleton Hb%list_elem_of_singleton _ _. by subst. }
  split; [|by apply Hp, _..]. intros a b Ha%list_elem_of_singleton Hb%list_elem_of_singleton. subst. unfold is_static, is_dynamic. by destruct (ab_Linkage r).
Qed.

Lemma agree_none : agree [].
Proof. split; [|by intros a b ?%not_elem_of_nil..]. by intros a b ?%not_elem_of_nil. Qed.

(** What a report holds, and what comes with it. *)
Definition artifact_bytes (rep : ArtifactABIReport) : Z :=
  variants_bytes (omap id (ar_Variants rep)) + slen (ar_DeploymentDisclaimer rep) + sum_len (ar_Differences rep) + sum_len (ar_Warnings rep).

Definition answer_bytes (answer : ArtifactABIReport * option mismatch) : Z :=
  artifact_bytes answer.1 + match answer.2 with None => presentation answer.1 | Some m => mismatch_bytes m end.

Definition answers (rs : list VariantABIReport) (allow : bool) (answer : ArtifactABIReport * option mismatch) : Prop :=
  verdict rs allow answer.1 answer.2.

Lemma reserves_single r artifact :
  ar_Differences artifact = [] -> ar_Overridden artifact = false -> ar_Warnings artifact = [] ->
  reserves (handleSingleReport r artifact) (fun rep => sum_len (ar_Warnings rep))
    (fun rep => ar_Variants rep = ar_Variants artifact /\ ar_DeploymentDisclaimer rep = ar_DeploymentDisclaimer artifact /\
      ar_Differences rep = [] /\ forall allow, verdict [r] allow rep None).
Proof.
  intros Hd Ho Hw. unfold handleSingleReport. destruct (evaluateVariantUncertainty r) as [sk un] eqn:Hu.
  eapply (reserves_bind _ sum_len (fun _ => True)).
  { destruct sk; [by apply reserves_ret|]. apply reserves_option, reserves_uncertainty. }
  intros ws _. eapply reserves_bind; [apply reserves_warnings|]. intros own ->.
  apply reserves_ret; [cbn [ar_Warnings]; rewrite Hw, !sum_len_app; change (sum_len []) with 0; lia|]. cbn. split_and!; [done..|].
  intros allow. apply verdict_agree; [apply agree_one|done|..|done]; unfold settled, skipped, unknown; cbn; rewrite Hu; by destruct sk, un.
Qed.

(** The report is presented, and its bytes are reserved. *)
Lemma reserves_presented rs allow rep (paid : Z) :
  ar_DeploymentDisclaimer rep = deploymentDisclaimer -> artifact_bytes rep <= paid -> answers rs allow (rep, None) ->
  reserves (_ ← reserve_presentation rep; mret (rep, None)) (fun answer => answer_bytes answer - paid) (answers rs allow).
Proof.
  intros Hd Hp Ha. eapply reserves_bind; [by apply reserves_presentation|]. intros [] _. apply reserves_ret; [unfold answer_bytes; cbn; lia|done].
Qed.

Lemma artifact_bytes_eq os arch reports st c o d w disc :
  artifact_bytes (mkArtifact os arch reports st c o d w disc) = variants_bytes (omap id reports) + slen disc + sum_len d + sum_len w.
Proof. done. Qed.

Lemma omap_Some (rs : list VariantABIReport) : omap id (Some <$> rs) = rs.
Proof. induction rs as [|r rs IH]; cbn; [done|]. by f_equal. Qed.

(** The table of outcomes. *)
Lemma reserves_outcome rs allow ws ds :
  (ds = [] <-> agree rs) ->
  reserves (aggregate_outcome (Some <$> rs) allow (skipped rs) (unknown rs) ws ds)
    (fun answer => answer_bytes answer - (variants_bytes rs + slen deploymentDisclaimer + sum_len ds + sum_len ws)) (answers rs allow).
Proof.
  intros Hds. unfold aggregate_outcome. cbv zeta. destruct ds as [|d ds].
  - set (rep := if skipped rs then _ else _).
    assert (rep = mkArtifact EmptyString EmptyString (Some <$> rs) (settled rs) (bool_decide (settled rs = ComparisonConsistent)) false []
      ws deploymentDisclaimer) as -> by (unfold rep, settled; by destruct (skipped rs), (unknown rs)).
    apply reserves_presented; [done|rewrite artifact_bytes_eq, omap_Some; lia|]. by apply verdict_agree; [apply Hds|..].
  - assert (~ agree rs) as Hno by (intros H; by apply Hds in H). destruct allow; cbn [negb].
    + eapply reserves_bind; [apply reserves_overridden|]. intros os _.
      eapply reserves_impl; [apply (reserves_presented rs true _ (variants_bytes rs + slen deploymentDisclaimer + sum_len (d :: ds) + sum_len ws + sum_len os))|];
        [done|rewrite artifact_bytes_eq, omap_Some, sum_len_app; lia| |intros a Ha; split; [lia|exact Ha]].
      by apply verdict_differ.
    + eapply reserves_bind; [apply reserves_mismatch|]. intros err _.
      apply reserves_ret; [unfold answer_bytes; cbn [fst snd]; rewrite artifact_bytes_eq, omap_Some; lia|].
      by apply verdict_differ.
Qed.

Lemma compare_answers rs allow limits :
  reserves (compare_variants (Some <$> rs) allow limits) answer_bytes (answers rs allow).
Proof.
  unfold compare_variants. eapply reserves_bind; [apply reserves_validate|]. intros [] _. cbv zeta.
  eapply reserves_bind; [apply reserves_reserve, slen_nonneg|]. intros [] _. cbv beta. rewrite omap_Some.
  set (rs0 := rs). assert (rs0 = rs) as Ers by done. clearbody rs0. rewrite Ers at 2. destruct rs as [|r [|r2 rest]]; subst rs0.
  - eapply reserves_impl; [apply (reserves_presented [] allow _ (variants_bytes [] + slen deploymentDisclaimer))|]; [done|by vm_compute| |].
    + apply verdict_agree; [apply agree_none|done..].
    + intros a Ha. split; [lia|exact Ha].
  - eapply reserves_bind; [by apply reserves_single|]. cbn [ar_Variants ar_DeploymentDisclaimer]. intros rep (Hv & Hd & Hdf & Hver).
    eapply reserves_impl; [apply (reserves_presented [r] allow _ (variants_bytes [r] + slen deploymentDisclaimer + sum_len (ar_Warnings rep)))|]; [done| |apply Hver|].
    + unfold artifact_bytes. rewrite Hv, Hd, Hdf, omap_Some. change (sum_len []) with 0. lia.
    + intros a Ha. split; [lia|exact Ha].
  - eapply reserves_bind; [apply reserves_completeness|]. intros [[hs hu] ws] [= -> ->]. cbn [snd].
    eapply reserves_bind; [apply reserves_collect|]. intros [ds dws] Hds. cbn [fst snd] in *.
    eapply reserves_impl; [by apply reserves_outcome|]. intros answer Ha. cbv beta. split; [rewrite sum_len_app; lia|exact Ha].
Qed.

Lemma new_account_ok n : uint64_range n -> account_ok (NewReportAccounting n).
Proof. intros Hn. unfold NewReportAccounting, account_ok. cbn. destruct (n =? 0); [done|]. split; [done|]. destruct Hn. lia. Qed.

(** C18. Comparing the variants of an artifact always answers, or finds no room for the report.
    The answer is right: differences are listed, and the status is inconsistent, exactly when
    two variants disagree on static or dynamic linking, the interpreter, the set of libraries or
    the set of symbol versions; it is consistent exactly when they agree and all metadata was
    read in full; and a mismatch is an error unless mixing is allowed. *)
Theorem comparison_verdict (rs : list VariantABIReport) (allowMixedABI : bool) (limits : ABILimits) :
  uint64_range (lim_MaxArtifactReportBytes limits) ->
  match CompareVariantABIsWithOptions (Some <$> rs) allowMixedABI limits with
  | Ok (rep, err) => verdict rs allowMixedABI rep err
  | Err e => e = ErrABIResourceLimit
  | Panic => False
  end.
Proof.
  intros Hl. unfold CompareVariantABIsWithOptions.
  pose proof (compare_answers rs allowMixedABI limits _ (new_account_ok _ Hl)) as H.
  destruct (compare_variants _ _ _ _) as [[[rep err] ra]|e|]; [|done..]. apply H.
Qed.

(** C19. All the text of an answer, the variants' own, what it adds, and its presentation or the
    message of a mismatch, fits the budget. *)
Theorem comparison_bounded (rs : list VariantABIReport) (allowMixedABI : bool) (limits : ABILimits)
    (answer : ArtifactABIReport * option mismatch) :
  uint64_range (lim_MaxArtifactReportBytes limits) ->
  CompareVariantABIsWithOptions (Some <$> rs) allowMixedABI limits = Ok answer ->
  answer_bytes answer <= default_to (lim_MaxArtifactReportBytes limits) MaxArtifactReportBytes.
Proof.
  intros Hl. unfold CompareVariantABIsWithOptions.
  pose proof (compare_answers rs allowMixedABI limits _ (new_account_ok _ Hl)) as H.
  destruct (compare_variants _ _ _ _) as [[a ra]|e|]; [|done..]. intros [= <-].
  destruct H as ([_ Hu] & Hm & Hs & _). unfold default_to. cbn in *. rewrite Hm in Hu. lia.
Qed.

End verdict.

(** ** Two variants *)

Definition variant (level : string) (deps : list string) : VariantABIReport :=
  mkABIReport level "" "ELFCLASS64" "ET_DYN" "EM_X86_64" LinkageDynamic true "/lib/ld.so" deps [mkVersion "libc.so.6" "GLIBC_2.34" 0]
    MetadataComplete "program_headers/dynamic_metadata" [].

Definition two_variants : list VariantABIReport := [variant "v1" ["libc.so.6"; "libm.so.6"]; variant "v3" ["libm.so.6"; "libc.so.6"]].

Definition two_others : list VariantABIReport := [variant "v1" ["libc.so.6"]; variant "v3" ["libm.so.6"; "libc.so.6"]].

Abbreviation compared rs allow := (CompareVariantABIsWithOptions (SS := merge_slice_sort) (Some <$> rs) allow defaultABILimits).

Lemma two_variants_consistent :
  (a ← compared two_variants false; Ok (ar_Status a.1, ar_Consistent a.1, length (ar_Warnings a.1), a.2)) =
  Ok (ComparisonConsistent, true, 1%nat, None).
Proof. vm_compute. reflexivity. Qed.

Lemma two_others_refused :
  (a ← compared two_others false;
   Ok (ar_Status a.1, length (ar_Differences a.1), match a.2 with Some (MismatchText _) => true | _ => false end)) =
  Ok (ComparisonInconsistent, 1%nat, true).
Proof. vm_compute. reflexivity. Qed.

(** The set of libraries differs. *)
Lemma comparison_verdict_witness : ~ agree two_others.
Proof.
  pose proof (comparison_verdict (SS := merge_slice_sort) two_others false defaultABILimits ltac:(done)) as H.
  pose proof two_others_refused as Hr. destruct (compared two_others false) as [[rep err]|e|]; [|done..].
  injection Hr as Hs _ _. by apply (vd_inconsistent _ _ _ _ H).
Defined.

Lemma comparison_bounded_witness :
  match compared two_variants false with Ok answer => answer_bytes answer <= 67108864 | _ => False end.
Proof.
  pose proof (comparison_bounded (SS := merge_slice_sort) two_variants false defaultABILimits) as H.
  pose proof two_variants_consistent as Hr. destruct (compared two_variants false) as [answer|e|]; [|done..].
  by apply (H answer).
Defined.
