(* ===== verification/Elf.v ===== *)
(** * Executable and platform checks ([internal/pack/elf.go], [platform.go])

    What a packed file must be: an executable of the right kind whose segments
    the kernel can load, and no declaration of another operating system.  The
    Go build information is searched in windows of the writable segments. *)

From S2P Require Import Prelude GoStrings GoIO MicroarchSelect Abi.
From stdpp Require Import base list strings gmap.
From Stdlib Require Import ZArith Lia Strings.Ascii Strings.Byte.

Local Open Scope Z_scope.

(** Code outside the accounts of an inspection. *)
Definition unmetered {A} (m : metered A) : outcome abi_err A := (m (mkMeter (new_account None) 0)).1.

(** ** Headers *)

Record elf_Prog := mkProg {
  p_Type : Z; p_Flags : Z; p_Off : Z; p_Vaddr : Z; p_Paddr : Z; p_Filesz : Z; p_Memsz : Z; p_Align : Z
}.

Record elf_File := mkElf {
  e_Class : byte; e_Data : byte; e_Version : Z; e_OSABI : byte; e_ABIVersion : byte; e_ByteOrder : ByteOrder;
  e_Type : Z; e_Machine : Z; e_Entry : Z; e_Progs : list elf_Prog
}.

Definition uint_at (order : ByteOrder) (data : list byte) (lo hi : nat) : outcome abi_err Z := b ← go_slice data lo hi; Ok (Uint order b).

Section read.
Context `{ReaderAt R}.

(** [n] entries of the table are left, from the [i]-th on. *)
Fixpoint executable_progs (n i : nat) (phTable : list byte) (phentsize : Z) (order : ByteOrder) : outcome abi_err (list elf_Prog) :=
  match n with
  | O => Ok []
  | S n =>
      ent ← go_slice phTable (i * Z.to_nat phentsize) (length phTable);
      pOff ← uint_at order ent 8 16;
      pFilesz ← uint_at order ent 32 40;
      if (MaxInt64 <? pOff) || (MaxInt64 <? pFilesz) then Err OtherError
      else
        pType ← uint_at order ent 0 4;
        pFlags ← uint_at order ent 4 8;
        pVaddr ← uint_at order ent 16 24;
        pPaddr ← uint_at order ent 24 32;
        pMemsz ← uint_at order ent 40 48;
        pAlign ← uint_at order ent 48 56;
        rest ← executable_progs n (S i) phTable phentsize order;
        Ok (mkProg pType pFlags pOff pVaddr pPaddr pFilesz pMemsz pAlign :: rest)
  end.

Definition readExecutableELFReaderAt (r : R) (fileSize : Z) : outcome abi_err elf_File :=
  headerBytes ← unmetered (preflightELFHeadersReaderAtWithAccounting r fileSize);
  encoding ← go_index headerBytes 5;
  let order := if byte_eqb encoding ELFDATA2MSB then BigEndian else LittleEndian in
  version ← uint_at order headerBytes 20 24;
  if negb (version =? 1) then Err OtherError
  else
    phoff ← uint_at order headerBytes 32 40;
    if MaxInt64 <? phoff then Err OtherError
    else
      phnum ← uint_at order headerBytes 56 58;
      phentsize ← uint_at order headerBytes 54 56;
      class ← go_index headerBytes 4;
      osabi ← go_index headerBytes 7;
      abiversion ← go_index headerBytes 8;
      eType ← uint_at order headerBytes 16 18;
      eMachine ← uint_at order headerBytes 18 20;
      entry ← uint_at order headerBytes 24 32;
      progs ← (if phnum =? 0 then Ok []
               else
                 phTable ← unmetered (readExactAt r phoff (u64_mul phnum phentsize));
                 executable_progs (Z.to_nat phnum) 0 phTable phentsize order);
      Ok (mkElf class encoding version osabi abiversion order eType eMachine entry progs).

End read.

(** ** Executables *)

Definition ET_EXEC : Z := 2.
Definition PF_X : Z := 1.
Definition PF_W : Z := 2.

(** Whether the entry point was found so far. *)
Fixpoint check_loads (progs : list elf_Prog) (entry size : Z) (entryLoaded : bool) : outcome abi_err bool :=
  match progs with
  | [] => Ok entryLoaded
  | p :: rest =>
      if negb (p_Type p =? PT_LOAD) then check_loads rest entry size entryLoaded
      else if (p_Memsz p <? p_Filesz p) || (size <? p_Off p) || (u64_sub size (p_Off p) <? p_Filesz p) ||
              (u64_sub MaxUint64 (p_Vaddr p) <? p_Memsz p) then Err OtherError
      else if (1 <? p_Align p) &&
              (negb (Z.land (p_Align p) (u64_sub (p_Align p) 1) =? 0) || negb (p_Vaddr p mod p_Align p =? p_Off p mod p_Align p))
      then Err OtherError
      else
        check_loads rest entry size
          (entryLoaded || (negb (Z.land (p_Flags p) PF_X =? 0) && (p_Vaddr p <=? entry) && (u64_sub entry (p_Vaddr p) <? p_Filesz p)))
  end.

Definition validateExecutableELF (f : elf_File) (size : Z) : outcome abi_err unit :=
  if negb (e_Type f =? ET_EXEC) && negb (e_Type f =? ET_DYN) then Err OtherError
  else if e_Entry f =? 0 then Err OtherError
  else
    entryLoaded ← check_loads (e_Progs f) (e_Entry f) size false;
    if negb entryLoaded then Err OtherError else Ok tt.

(** ** Go build information *)

Definition chars_bytes (l : list Z) : list byte := byte_of <$> l.

Definition goBuildInfoMagic : list byte := chars_bytes [255; 32; 71; 111; 32; 98; 117; 105; 108; 100; 105; 110; 102; 58].
Definition goBuildInfoHeaderSize : Z := 32.
Definition goBuildInfoAlignment : Z := 16.
Definition goBuildInfoFrameSize : nat := 16.
Definition goBuildInfoFrameStart : list byte := chars_bytes [48; 119; 175; 12; 146; 116; 8; 2; 65; 225; 193; 7; 230; 214; 24; 230].
Definition goBuildInfoFrameEnd : list byte := chars_bytes [249; 50; 67; 49; 134; 24; 32; 114; 0; 130; 66; 16; 65; 22; 216; 242].
Definition goBuildInfoScanWindow : Z := 64 * 1024.

Record goBuildInfoAccounting := mkBuildInfo { bi_stringBytes : Z; bi_records : Z }.

Definition has_prefix (data pre : list byte) : bool := bool_decide (take (length pre) data = pre).
Definition has_suffix (data suf : list byte) : bool := bool_decide (drop (length data - length suf) data = suf) && (length suf <=? length data)%nat.

(** [bytes.Index] *)
Fixpoint bytes_Index (data sub : list byte) : option nat :=
  if has_prefix data sub then Some O
  else match data with [] => None | _ :: rest => S <$> bytes_Index rest sub end.

(** [bytes.Count] of one byte *)
Definition count_byte (data : list byte) (b : byte) : Z := Z.of_nat (length (List.filter (byte_eqb b) data)).

Definition newline_byte : byte := x0a.
Definition tab_byte : byte := x09.

Definition bi_charge (acc : goBuildInfoAccounting) (module : list byte) : outcome abi_err goBuildInfoAccounting :=
  let stringBytes := Z.of_nat (length module) in
  if MaxABIStringBytesPerInput - bi_stringBytes acc <? stringBytes then Err ErrABIResourceLimit
  else
    let records := count_byte module newline_byte in
    if MaxVersionRecordsPerInput - bi_records acc <? records then Err ErrABIResourceLimit
    else Ok (mkBuildInfo (bi_stringBytes acc + stringBytes) (bi_records acc + records)).

(** The lines of a module block; a final newline ends the last. *)
Fixpoint byte_lines (module : list byte) : list (list byte) :=
  match module with
  | [] => []
  | b :: rest =>
      if byte_eqb b newline_byte then [] :: byte_lines rest
      else match byte_lines rest with [] => [[b]] | line :: lines => (b :: line) :: lines end
  end.

Definition valid_columns (line : list byte) : bool :=
  if has_prefix line (chars_bytes [109; 111; 100; 9]) || has_prefix line (chars_bytes [100; 101; 112; 9]) then
    let columns := count_byte (drop 4 line) tab_byte in (columns =? 1) || (columns =? 2)
  else if has_prefix line (chars_bytes [61; 62; 9]) then count_byte (drop 3 line) tab_byte =? 2
  else true.

Definition validGoBuildInfoModuleColumns (module : list byte) : bool := forallb valid_columns (byte_lines module).

Section platform.
Context `{ReaderAt R}.

(** [debug.ParseBuildInfo], of which the settings are used. *)
Context (ParseBuildInfo : string -> option (list (string * string))).

(** Whether the block was understood, and the account. *)
Definition checkGoBuildInfoTarget (module : list byte) (targetOS : string) (acc : goBuildInfoAccounting) :
    outcome abi_err (bool * goBuildInfoAccounting) :=
  if (length module <=? goBuildInfoFrameSize * 2)%nat || negb (has_prefix module goBuildInfoFrameStart) ||
     negb (has_suffix module goBuildInfoFrameEnd) then Ok (false, acc)
  else
    module ← go_slice module goBuildInfoFrameSize (length module - goBuildInfoFrameSize);
    final ← go_index module (length module - 1);
    if negb (byte_eqb final newline_byte) then Ok (false, acc)
    else
      acc ← bi_charge acc module;
      if negb (validGoBuildInfoModuleColumns module) then Ok (false, acc)
      else
        match ParseBuildInfo (string_of module) with
        | None => Ok (false, acc)
        | Some settings =>
            if existsb (fun kv => String.eqb kv.1 "GOOS" && negb (String.eqb kv.2 "") && negb (String.eqb kv.2 targetOS)) settings
            then Err OtherError else Ok (true, acc)
        end.

(** [binary.Uvarint]: the value and its length, [None] where none can be read. *)
Fixpoint uvarint_from (buf : list byte) (i : nat) (x s : Z) : option (Z * nat) :=
  match buf with
  | [] => None
  | b :: rest =>
      if (i =? 10)%nat then None
      else if byte_val b <? 128 then
        if (i =? 9)%nat && (1 <? byte_val b) then None else Some (Z.lor x (Z.shiftl (byte_val b) s), S i)
      else uvarint_from rest (S i) (Z.lor x (Z.shiftl (Z.land (byte_val b) 127) s)) (s + 7)
  end.

Definition Uvarint (buf : list byte) : option (Z * nat) := uvarint_from buf 0 0 0.

(** The bytes, and where they end. *)
Definition readGoBuildInfoInlineStringReaderAt (r : R) (pos segEnd : Z) : outcome abi_err (list byte * Z) :=
  if segEnd <=? pos then Ok ([], 0)
  else
    let avail := Z.min 10 (segEnd - pos) in
    buf ← unmetered (readIntoAt r (Z.to_nat avail) pos);
    match Uvarint buf with
    | None => Ok ([], 0)
    | Some (len, prefix) =>
        let remAfterPrefix := u64_sub (segEnd - pos) (Z.of_nat prefix) in
        if remAfterPrefix <? len then Ok ([], 0)
        else if MaxABIStringBytesPerInput <? len then Err ErrABIResourceLimit
        else
          let strOff := u64_add pos (Z.of_nat prefix) in
          strBytes ← unmetered (readExactAt r strOff len);
          Ok (strBytes, u64_add strOff len)
    end.

Definition readGoBuildInfoPointer (data : list byte) (pointerSize : nat) (order : ByteOrder) : outcome abi_err Z :=
  uint_at order data 0 (if (pointerSize =? 4)%nat then 4 else 8).

Definition readGoBuildInfoPointerStringReaderAt (r : R) (fileSize : Z) (loads : list loadSegment) (rawPointer : list byte)
    (pointerSize : nat) (order : ByteOrder) : outcome abi_err (list byte) :=
  headerAddr ← readGoBuildInfoPointer rawPointer pointerSize order;
  let headerSize := (pointerSize * 2)%nat in
  match translateVaddr loads fileSize headerAddr (Z.of_nat headerSize) with
  | Err _ => Ok []
  | Panic => Panic
  | Ok headerOff =>
      header ← unmetered (readIntoAt r headerSize headerOff);
      address ← readGoBuildInfoPointer header pointerSize order;
      second ← go_slice header pointerSize headerSize;
      len ← readGoBuildInfoPointer second pointerSize order;
      if MaxABIStringBytesPerInput <? len then Err ErrABIResourceLimit
      else if len =? 0 then Ok []
      else
        match translateVaddr loads fileSize address len with
        | Err _ => Ok []
        | Panic => Panic
        | Ok offset => unmetered (readExactAt r offset len)
        end
  end.

Definition readGoBuildInfoModuleReaderAt (r : R) (fileSize : Z) (loads : list loadSegment) (header : list byte)
    (inlinePos segEnd : Z) : outcome abi_err (list byte) :=
  flags ← go_index header 15;
  '(version, module) ←
    (if negb (Z.land (byte_val flags) 2 =? 0) then
       '(version, nextPos) ← readGoBuildInfoInlineStringReaderAt r inlinePos segEnd;
       match version with
       | [] => Ok ([], [])
       | _ => '(module, _) ← readGoBuildInfoInlineStringReaderAt r nextPos segEnd; Ok (version, module)
       end
     else
       pointerSize ← go_index header 14;
       if negb (byte_val pointerSize =? 4) && negb (byte_val pointerSize =? 8) then Ok ([], [])
       else
         let size := Z.to_nat (byte_val pointerSize) in
         let order := if negb (Z.land (byte_val flags) 1 =? 0) then BigEndian else LittleEndian in
         first ← go_slice header 16 (length header);
         version ← readGoBuildInfoPointerStringReaderAt r fileSize loads first size order;
         match version with
         | [] => Ok ([], [])
         | _ =>
             second ← go_slice header (16 + size) (length header);
             module ← readGoBuildInfoPointerStringReaderAt r fileSize loads second size order;
             Ok (version, module)
         end);
  match version with
  | [] => Ok []
  | _ => if MaxABIStringBytesPerInput - Z.of_nat (length version) <? Z.of_nat (length module) then Err ErrABIResourceLimit else Ok module
  end.

(** The candidates of one window, from [rel] on. *)
Fixpoint scan_window (fuel : nat) (r : R) (fileSize : Z) (loads : list loadSegment) (p : elf_Prog) (targetOS : string)
    (window : list byte) (windowStart rel : Z) (acc : goBuildInfoAccounting) : outcome abi_err (bool * goBuildInfoAccounting) :=
  let maxRelStart := Z.of_nat (length window) - goBuildInfoHeaderSize in
  if maxRelStart <? rel then Ok (false, acc)
  else
    match fuel with
    | O => Panic
    | S fuel =>
        tail ← go_slice window (Z.to_nat rel) (length window);
        match bytes_Index tail goBuildInfoMagic with
        | None => Ok (false, acc)
        | Some idx =>
            let candRel := rel + Z.of_nat idx in
            let rel := candRel + Z.of_nat (length goBuildInfoMagic) in
            if maxRelStart <? candRel then Ok (false, acc)
            else
              let offset := windowStart + candRel in
              if negb (u64_add (p_Vaddr p) offset mod goBuildInfoAlignment =? 0)
              then scan_window fuel r fileSize loads p targetOS window windowStart rel acc
              else
                header ← go_slice window (Z.to_nat candRel) (Z.to_nat (candRel + goBuildInfoHeaderSize));
                module ← readGoBuildInfoModuleReaderAt r fileSize loads header
                  (u64_add (u64_add (p_Off p) offset) goBuildInfoHeaderSize) (u64_add (p_Off p) (p_Filesz p));
                '(found, acc) ← checkGoBuildInfoTarget module targetOS acc;
                if (found : bool) then Ok (true, acc)
                else scan_window fuel r fileSize loads p targetOS window windowStart rel acc
        end
    end.

Fixpoint scan_windows (fuel : nat) (r : R) (fileSize : Z) (loads : list loadSegment) (p : elf_Prog) (targetOS : string)
    (bufLen windowStart : Z) (acc : goBuildInfoAccounting) : outcome abi_err (bool * goBuildInfoAccounting) :=
  if p_Filesz p <=? windowStart then Ok (false, acc)
  else
    let rem := p_Filesz p - windowStart in
    if rem <? goBuildInfoHeaderSize then Ok (false, acc)
    else
      match fuel with
      | O => Panic
      | S fuel =>
          let windowLen := Z.min bufLen rem in
          window ← unmetered (readIntoAt r (Z.to_nat windowLen) (u64_add (p_Off p) windowStart));
          let rel := (goBuildInfoAlignment - u64_add (p_Vaddr p) windowStart mod goBuildInfoAlignment) mod goBuildInfoAlignment in
          '(found, acc) ← scan_window (length window) r fileSize loads p targetOS window windowStart rel acc;
          if (found : bool) then Ok (true, acc)
          else if p_Filesz p <=? windowStart + windowLen then Ok (false, acc)
          else scan_windows fuel r fileSize loads p targetOS bufLen (windowStart + (windowLen - (goBuildInfoHeaderSize - 1))) acc
      end.

(** A window takes at least one byte more than the last, so the size of the
    segment is fuel enough. *)
Definition checkGoBuildInfoSegmentReaderAt (r : R) (fileSize : Z) (loads : list loadSegment) (p : elf_Prog) (targetOS : string)
    (acc : goBuildInfoAccounting) (bufLen : Z) : outcome abi_err (bool * goBuildInfoAccounting) :=
  scan_windows (Z.to_nat (p_Filesz p)) r fileSize loads p targetOS bufLen 0 acc.

Definition writable_load (p : elf_Prog) : bool :=
  (p_Type p =? PT_LOAD) && negb (Z.land (p_Flags p) PF_W =? 0) && (goBuildInfoHeaderSize <=? p_Filesz p).

Fixpoint check_segments (r : R) (fileSize : Z) (loads : list loadSegment) (progs : list elf_Prog) (targetOS : string)
    (acc : goBuildInfoAccounting) (bufLen : Z) : outcome abi_err unit :=
  match progs with
  | [] => Ok tt
  | p :: rest =>
      if negb (writable_load p) then check_segments r fileSize loads rest targetOS acc bufLen
      else
        '(found, acc) ← checkGoBuildInfoSegmentReaderAt r fileSize loads p targetOS acc bufLen;
        if (found : bool) then Ok tt else check_segments r fileSize loads rest targetOS acc bufLen
  end.

Definition load_of (p : elf_Prog) : loadSegment := mkSegment (p_Off p) (p_Vaddr p) (p_Filesz p) (p_Memsz p).

Definition validateELFPlatformReaderAt (r : R) (fileSize : Z) (f : elf_File) (targetOS : string) : outcome abi_err unit :=
  if negb (byte_eqb (e_OSABI f) x00) && negb (byte_eqb (e_OSABI f) x03) then Err OtherError
  else
    let loads := load_of <$> List.filter (fun p => p_Type p =? PT_LOAD) (e_Progs f) in
    let maxWritable := foldl Z.max 0 (p_Filesz <$> List.filter writable_load (e_Progs f)) in
    if maxWritable =? 0 then Ok tt
    else check_segments r fileSize loads (e_Progs f) targetOS (mkBuildInfo 0 0) (Z.min maxWritable goBuildInfoScanWindow).

End platform.
