(* ===== verification/ElfProofs.v ===== *)
(** * What the executable and platform checks decide *)

From S2P Require Import Prelude GoStrings GoIO MicroarchSelect Abi AbiBounds AbiParse Elf.
From stdpp Require Import base list strings gmap.
From Stdlib Require Import ZArith Lia Strings.Ascii Strings.Byte.

Local Open Scope Z_scope.

(** ** Executables *)

Definition prog_typed (p : elf_Prog) : Prop :=
  uint64_range (p_Off p) /\ uint64_range (p_Vaddr p) /\ uint64_range (p_Filesz p) /\ uint64_range (p_Memsz p) /\ uint64_range (p_Align p).

Definition power_of_two (a : Z) : Prop := exists k, 0 <= k /\ a = 2 ^ k.

Lemma land_pred a : 1 < a -> Z.land a (a - 1) = 0 <-> power_of_two a.
Proof.
  intros Ha. pose proof (Z.log2_spec a ltac:(lia)) as [Hlo Hhi]. pose proof (Z.log2_nonneg a) as Hk. set (k := Z.log2 a) in *.
  split.
  - intros Hz. exists k. split; [done|]. destruct (Z.eq_dec a (2 ^ k)) as [|Hne]; [done|]. exfalso.
    assert (Z.testbit (Z.land a (a - 1)) k = true) as Hb; [|by rewrite Hz, Z.bits_0 in Hb].
    assert (forall x, 2 ^ k <= x < 2 ^ Z.succ k -> Z.testbit x k = true) as Hbit.
    { intros x Hx. rewrite <- (Z.log2_unique x k Hk Hx). apply Z.bit_log2. lia. }
    rewrite Z.land_spec, !Hbit by lia. done.
  - intros (j & Hj & ->). replace (2 ^ j - 1) with (Z.ones j) by (rewrite Z.ones_equiv; lia).
    rewrite Z.land_ones by done. apply Z.mod_same. pose proof (Z.pow_pos_nonneg 2 j). lia.
Qed.

(** A segment that the kernel can load from a file of the size. *)
Record loadable (size : Z) (p : elf_Prog) : Prop := {
  ld_memory : p_Filesz p <= p_Memsz p;
  ld_file : p_Off p + p_Filesz p <= size;
  ld_address : p_Vaddr p + p_Memsz p <= MaxUint64;
  ld_align : 1 < p_Align p -> power_of_two (p_Align p) /\ p_Vaddr p mod p_Align p = p_Off p mod p_Align p
}.

(** The entry point lies in bytes of the file that are loaded to be run. *)
Definition holds_entry (entry : Z) (p : elf_Prog) : Prop :=
  p_Type p = PT_LOAD /\ Z.land (p_Flags p) PF_X <> 0 /\ p_Vaddr p <= entry < p_Vaddr p + p_Filesz p.

Lemma check_loads_exact progs entry size found b :
  Forall prog_typed progs -> uint64_range size -> uint64_range entry ->
  check_loads progs entry size found = Ok b <->
  Forall (fun p => p_Type p = PT_LOAD -> loadable size p) progs /\ (b = true <-> found = true \/ Exists (holds_entry entry) progs).
Proof.
  intros Ht Hsz Hen. revert found. induction Ht as [|p progs Hp Ht IH]; intros found; cbn [check_loads].
  { rewrite Exists_nil. split; [intros [= ->]; split; [done|tauto]|]. intros [_ Hb]. f_equal. destruct found, b; naive_solver. }
  rewrite Forall_cons, Exists_cons. destruct Hp as (H1 & H2 & H3 & H4 & H5). unfold uint64_range, MaxUint64 in *.
  destruct (Z.eqb_spec (p_Type p) PT_LOAD) as [Hty|Hty]; cbn [negb].
  2: { rewrite IH. unfold holds_entry. naive_solver. }
  assert ((p_Memsz p <? p_Filesz p) || (size <? p_Off p) || (u64_sub size (p_Off p) <? p_Filesz p) ||
    (u64_sub 18446744073709551615 (p_Vaddr p) <? p_Memsz p) = false <->
    p_Filesz p <= p_Memsz p /\ p_Off p + p_Filesz p <= size /\ p_Vaddr p + p_Memsz p <= MaxUint64) as Hbounds.
  { rewrite !orb_false_iff, !Z.ltb_ge. rewrite (u64_sub_small 18446744073709551615) by (unfold uint64_range; lia). unfold MaxUint64.
    destruct (Z_lt_le_dec size (p_Off p)); [lia|]. rewrite u64_sub_small by (unfold uint64_range; lia). lia. }
  assert (((1 <? p_Align p) && (negb (Z.land (p_Align p) (u64_sub (p_Align p) 1) =? 0) || negb (p_Vaddr p mod p_Align p =? p_Off p mod p_Align p))) = false
    <-> (1 < p_Align p -> power_of_two (p_Align p) /\ p_Vaddr p mod p_Align p = p_Off p mod p_Align p)) as Halign.
  { destruct (Z.ltb_spec 1 (p_Align p)) as [Ha|Ha]; cbn [andb]; [|split; [lia|done]].
    rewrite orb_false_iff, !negb_false_iff, !Z.eqb_eq, u64_sub_small by (unfold uint64_range; lia). rewrite land_pred by done. tauto. }
  assert (loadable size p <-> (p_Filesz p <= p_Memsz p /\ p_Off p + p_Filesz p <= size /\ p_Vaddr p + p_Memsz p <= MaxUint64) /\
    (1 < p_Align p -> power_of_two (p_Align p) /\ p_Vaddr p mod p_Align p = p_Off p mod p_Align p)) as Hload.
  { split; [intros []; split_and!; tauto|]. intros ((? & ? & ?) & ?). by split. }
  rewrite Hload, <- Hbounds, <- Halign. clear Hload Hbounds Halign.
  destruct (_ || _ || _ || _); [split; [done|intros [[Hx _] _]; by destruct (Hx Hty)]|].
  destruct (_ && (_ || _)); [split; [done|intros [[Hx _] _]; by destruct (Hx Hty)]|]. rewrite IH.
  assert (negb (Z.land (p_Flags p) PF_X =? 0) && (p_Vaddr p <=? entry) && (u64_sub entry (p_Vaddr p) <? p_Filesz p) = true <-> holds_entry entry p) as Hent.
  { unfold holds_entry. rewrite !andb_true_iff, negb_true_iff, Z.eqb_neq, Z.leb_le, Z.ltb_lt.
    destruct (Z_lt_le_dec entry (p_Vaddr p)); [lia|]. rewrite u64_sub_small by (unfold uint64_range; lia). split; [intros [[? ?] ?]; split_and!; [done|done|lia|lia]|]. intros (_ & ? & ?). split_and!; [done|lia|lia]. }
  rewrite orb_true_iff, Hent. naive_solver.
Qed.

Lemma executable_exact (f : elf_File) (size : Z) :
  Forall prog_typed (e_Progs f) -> uint64_range (e_Entry f) -> uint64_range size ->
  validateExecutableELF f size = Ok tt <->
  (e_Type f = ET_EXEC \/ e_Type f = ET_DYN) /\ e_Entry f <> 0 /\
  Forall (fun p => p_Type p = PT_LOAD -> loadable size p) (e_Progs f) /\ Exists (holds_entry (e_Entry f)) (e_Progs f).
Proof.
  intros Ht Hen Hsz. unfold validateExecutableELF.
  assert (forall x : outcome abi_err bool, (b ← x; if negb b then Err OtherError else Ok tt) = Ok tt <-> x = Ok true) as Hx
    by (intros [[]|e|]; by cbn).
  pose proof (check_loads_exact (e_Progs f) (e_Entry f) size false true Ht Hsz Hen) as Hc.
  destruct (Z.eqb_spec (e_Entry f) 0) as [He|He]; [split; [by destruct (_ && _)|tauto]|].
  destruct (Z.eqb_spec (e_Type f) ET_EXEC) as [H1|H1], (Z.eqb_spec (e_Type f) ET_DYN) as [H2|H2]; cbn [negb andb]; rewrite ?Hx, ?Hc; naive_solver.
Qed.

(** C21. The check of an executable is exact: it passes for executable types with an entry
    point, whose loaded segments lie in the file and in the address space with a possible
    alignment, and one of them holds the entry point in bytes of the file to be run. *)
Theorem validateExecutableELF_exact (f : elf_File) (size : Z) :
  Forall prog_typed (e_Progs f) -> uint64_range (e_Entry f) -> uint64_range size ->
  validateExecutableELF f size = Ok tt <->
  (e_Type f = ET_EXEC \/ e_Type f = ET_DYN) /\ e_Entry f <> 0 /\
  Forall (fun p => p_Type p = PT_LOAD -> loadable size p) (e_Progs f) /\ Exists (holds_entry (e_Entry f)) (e_Progs f).
Proof. apply executable_exact. Qed.

(** ** The search for build information *)

Lemma has_prefix_lookup data pre i b :
  has_prefix data pre = true -> pre !! i = Some b -> data !! i = Some b.
Proof.
  intros Hp%bool_decide_eq_true Hi. pose proof (lookup_lt_Some _ _ _ Hi) as Hl.
  rewrite <- (lookup_take_lt data (length pre) i) by done. by rewrite Hp.
Qed.

(** The magic does not overlap itself. *)
Lemma magic_apart data d :
  has_prefix data goBuildInfoMagic = true -> (0 < d < 14)%nat -> has_prefix (drop d data) goBuildInfoMagic = false.
Proof.
  intros H1 Hd. destruct (has_prefix (drop d data) goBuildInfoMagic) eqn:H2; [|done]. exfalso.
  pose proof (has_prefix_lookup _ _ 0 (byte_of 255) H2 eq_refl) as E. rewrite lookup_drop, Nat.add_0_r in E.
  assert (exists b, goBuildInfoMagic !! d = Some b /\ b <> byte_of 255) as (b & Hb & Hne).
  { do 14 (destruct d as [|d]; [first [lia|eexists; split; [reflexivity|discriminate]]|]). lia. }
  rewrite (has_prefix_lookup _ _ d b H1 Hb) in E. congruence.
Qed.

Lemma bytes_Index_spec data sub :
  match bytes_Index data sub with
  | Some i => has_prefix (drop i data) sub = true /\ forall j, (j < i)%nat -> has_prefix (drop j data) sub = false
  | None => forall j, has_prefix (drop j data) sub = false
  end.
Proof.
  induction data as [|b data IH]; cbn [bytes_Index].
  - destruct (has_prefix [] sub) eqn:E; [split; [done|lia]|]. intros j. by rewrite drop_nil.
  - destruct (has_prefix (b :: data) sub) eqn:E; [split; [done|lia]|]. destruct (bytes_Index data sub) as [i|]; cbn.
    + destruct IH as [H1 H2]. split; [done|]. intros [|j] Hj; [done|]. apply H2. lia.
    + intros [|j]; [done|apply IH].
Qed.

Section search.
Context `{ReaderAt R} (ParseBuildInfo : string -> option (list (string * string))).
Context (r : R) (fileSize : Z) (loads : list loadSegment) (p : elf_Prog) (targetOS : string).

(** The bytes of the segment in the file. *)
Context (seg : list byte) (Hlen : Z.of_nat (length seg) = p_Filesz p).
Context (Hread : forall o n, (0 < n)%nat -> (o + n <= length seg)%nat -> ReadAt r n (p_Off p + Z.of_nat o) = Some (take n (drop o seg))).
Context (Hoff : 0 <= p_Off p) (Hend : p_Off p + p_Filesz p <= MaxInt64).
Context (Hvaddr : 0 <= p_Vaddr p) (Hvend : p_Vaddr p + p_Filesz p <= MaxUint64).

(** A header may start here: the address is aligned, the magic is there, and so
    is the rest of the header. *)
Definition header_at (o : nat) : bool :=
  ((p_Vaddr p + Z.of_nat o) mod 16 =? 0) && has_prefix (drop o seg) goBuildInfoMagic && (o + 32 <=? length seg)%nat.

(** What a header leads to. *)
Definition inspect_header (o : nat) (acc : goBuildInfoAccounting) : outcome abi_err (bool * goBuildInfoAccounting) :=
  module ← readGoBuildInfoModuleReaderAt r fileSize loads (take 32 (drop o seg))
    (p_Off p + Z.of_nat o + 32) (p_Off p + p_Filesz p);
  checkGoBuildInfoTarget ParseBuildInfo module targetOS acc.

(** One header after the other. *)
Fixpoint search (headers : list nat) (acc : goBuildInfoAccounting) : outcome abi_err (bool * goBuildInfoAccounting) :=
  match headers with
  | [] => Ok (false, acc)
  | o :: rest =>
      '(found, acc) ← inspect_header o acc;
      if (found : bool) then Ok (true, acc) else search rest acc
  end.

(** The headers from one offset up to another. *)
Definition headers_in (lo hi : nat) : list nat := List.filter header_at (seq lo (hi - lo)).

Lemma headers_in_split lo mid hi : (lo <= mid <= hi)%nat -> headers_in lo hi = headers_in lo mid ++ headers_in mid hi.
Proof.
  intros Hm. unfold headers_in. rewrite <- List.filter_app. f_equal.
  replace (hi - lo)%nat with ((mid - lo) + (hi - mid))%nat by lia. rewrite seq_app. by replace (lo + (mid - lo))%nat with mid by lia.
Qed.

Lemma headers_in_none lo hi : (forall o, (lo <= o < hi)%nat -> header_at o = false) -> headers_in lo hi = [].
Proof.
  intros Hno. apply filter_none, List.Forall_forall. intros o Ho%List.in_seq. apply Hno. lia.
Qed.

Lemma headers_in_one o : header_at o = true -> headers_in o (S o) = [o].
Proof. intros Ho. unfold headers_in. replace (S o - o)%nat with 1%nat by lia. cbn. by rewrite Ho. Qed.

Lemma search_app l1 l2 acc :
  search (l1 ++ l2) acc = '(found, acc) ← search l1 acc; if (found : bool) then Ok (true, acc) else search l2 acc.
Proof.
  revert acc. induction l1 as [|o l1 IH]; intros acc; cbn; [done|].
  destruct (inspect_header o acc) as [[[] acc']|e|]; cbn; [done|apply IH|done..].
Qed.

(** The magic in a window is the magic in the segment. *)
Lemma window_magic ws wl j :
  (j + 14 <= wl)%nat -> has_prefix (drop j (take wl (drop ws seg))) goBuildInfoMagic = has_prefix (drop (ws + j) seg) goBuildInfoMagic.
Proof.
  intros Hj. unfold has_prefix. change (length goBuildInfoMagic) with 14%nat. apply bool_decide_ext.
  rewrite skipn_firstn_comm, take_take, drop_drop, Nat.min_l by lia. done.
Qed.

Lemma magic_room data : has_prefix data goBuildInfoMagic = true -> (14 <= length data)%nat.
Proof.
  intros Hp%bool_decide_eq_true. apply (f_equal length) in Hp. rewrite length_take in Hp. change (length goBuildInfoMagic) with 14%nat in Hp. lia.
Qed.

Lemma not_header o : has_prefix (drop o seg) goBuildInfoMagic = false -> header_at o = false.
Proof. intros Hp. unfold header_at. by rewrite Hp, andb_false_r. Qed.

(** After a header's magic the next one is at least as far away. *)
Lemma headers_after c hi :
  has_prefix (drop c seg) goBuildInfoMagic = true -> (c < hi)%nat -> headers_in (S c) hi = headers_in (c + 14) hi.
Proof.
  intros Hm Hc. assert (forall o, (S c <= o < c + 14)%nat -> header_at o = false) as Hno.
  { intros o Ho. apply not_header. replace o with (c + (o - c))%nat by lia. rewrite <- drop_drop. apply magic_apart; [done|lia]. }
  destruct (Nat.le_gt_cases (c + 14) hi) as [Hle|Hgt].
  - rewrite (headers_in_split (S c) (c + 14) hi) by lia. by rewrite (headers_in_none (S c) (c + 14) Hno).
  - rewrite !headers_in_none; [done| |]; [lia|]. intros o Ho. apply Hno. lia.
Qed.

Lemma scan_window_search fuel ws wl rel acc :
  (ws + wl <= length seg)%nat -> (32 <= wl)%nat -> (wl <= fuel + rel)%nat ->
  scan_window ParseBuildInfo fuel r fileSize loads p targetOS (take wl (drop ws seg)) (Z.of_nat ws) (Z.of_nat rel) acc =
  search (headers_in (ws + rel) (ws + wl - 31)) acc.
Proof.
  intros Hw H32. revert rel acc. induction fuel as [|fuel IH]; intros rel acc Hf.
  all: assert (length (take wl (drop ws seg)) = wl) as Hwl by (rewrite length_take, length_drop; lia).
  all: cbn [scan_window]; rewrite Hwl; unfold goBuildInfoHeaderSize; destruct (Z.ltb_spec (Z.of_nat wl - 32) (Z.of_nat rel)) as [Hlt|Hge]; try lia.
  1, 2: rewrite headers_in_none by lia; done.
  rewrite go_slice_ok by lia. cbn [mbind outcome_bind]. rewrite Nat2Z.id, take_ge by (rewrite length_drop; lia).
  set (window := take wl (drop ws seg)) in *. pose proof (bytes_Index_spec (drop rel window) goBuildInfoMagic) as Hidx.
  destruct (bytes_Index (drop rel window) goBuildInfoMagic) as [idx|].
  2: { rewrite headers_in_none; [done|]. intros o Ho. apply not_header. replace o with (ws + (o - ws))%nat by lia.
       rewrite <- (window_magic ws wl) by lia. fold window. replace (o - ws)%nat with (rel + (o - ws - rel))%nat by lia. rewrite <- drop_drop. apply Hidx. }
  destruct Hidx as [Hm Hfirst]. rewrite drop_drop in Hm. pose proof (magic_room _ Hm) as Hroom. rewrite length_drop, Hwl in Hroom.
  set (c := (rel + idx)%nat) in *.
  assert (forall o, (ws + rel <= o < ws + c)%nat -> header_at o = false) as Hbefore.
  { intros o Ho. apply not_header. replace o with (ws + (o - ws))%nat by lia.
    rewrite <- (window_magic ws wl) by lia. fold window. replace (o - ws)%nat with (rel + (o - ws - rel))%nat by lia. rewrite <- drop_drop. apply Hfirst. lia. }
  rewrite (window_magic ws wl) in Hm by lia.
  replace (Z.of_nat rel + Z.of_nat idx) with (Z.of_nat c) by lia. change (Z.of_nat (length goBuildInfoMagic)) with 14.
  destruct (Z.ltb_spec (Z.of_nat wl - 32) (Z.of_nat c)) as [Hlate|Hin].
  { rewrite headers_in_none; [done|]. intros o Ho. apply Hbefore. lia. }
  rewrite (headers_in_split (ws + rel) (ws + c) (ws + wl - 31)) by lia. rewrite (headers_in_none (ws + rel) (ws + c) Hbefore). cbn [app].
  rewrite (headers_in_split (ws + c) (S (ws + c)) (ws + wl - 31)) by lia. rewrite headers_after by (done || lia).
  replace (Z.of_nat c + 14) with (Z.of_nat (c + 14)) by lia. unfold MaxInt64, MaxUint64 in *.
  rewrite u64_add_small by lia. change goBuildInfoAlignment with 16.
  replace (p_Vaddr p + (Z.of_nat ws + Z.of_nat c)) with (p_Vaddr p + Z.of_nat (ws + c)) by lia.
  rewrite IH by lia. replace (ws + (c + 14))%nat with (ws + c + 14)%nat by lia.
  destruct (Z.eqb_spec ((p_Vaddr p + Z.of_nat (ws + c)) mod 16) 0) as [Hal|Hal]; cbn [negb].
  - rewrite headers_in_one. 2: { unfold header_at. rewrite Hm, (proj2 (Z.eqb_eq _ _)) by done. cbn. apply Nat.leb_le. lia. }
    cbn [app search]. rewrite go_slice_ok by lia. cbn [mbind outcome_bind].
    rewrite (u64_add_small (p_Off p) (Z.of_nat ws + Z.of_nat c)) by lia. rewrite !u64_add_small by lia. unfold inspect_header.
    replace (take (Z.to_nat (Z.of_nat c + 32) - Z.to_nat (Z.of_nat c)) (drop (Z.to_nat (Z.of_nat c)) window)) with (take 32 (drop (ws + c) seg)).
    2: { rewrite Nat2Z.id. replace (Z.to_nat (Z.of_nat c + 32) - c)%nat with 32%nat by lia. unfold window.
         rewrite skipn_firstn_comm, take_take, drop_drop, Nat.min_l by lia. done. }
    replace (p_Off p + (Z.of_nat ws + Z.of_nat c) + 32) with (p_Off p + Z.of_nat (ws + c) + 32) by lia.
    destruct (readGoBuildInfoModuleReaderAt _ _ _ _ _ _) as [module|e|]; cbn [mbind outcome_bind]; [|done..].
    destruct (checkGoBuildInfoTarget _ _ _ _) as [[[] acc']|e|]; cbn [mbind outcome_bind]; [done| |done..].
    rewrite IH by lia. by replace (ws + (c + 14))%nat with (ws + c + 14)%nat by lia.
  - rewrite (headers_in_none (ws + c)); [done|]. intros o Ho. assert (o = ws + c)%nat as -> by lia. unfold header_at.
    by rewrite (proj2 (Z.eqb_neq _ _)).
Qed.

Lemma read_window ws wl :
  (0 < wl)%nat -> (ws + wl <= length seg)%nat ->
  unmetered (readIntoAt r wl (u64_add (p_Off p) (Z.of_nat ws))) = Ok (take wl (drop ws seg)).
Proof.
  intros Hwl Hw. unfold MaxInt64, MaxUint64 in *. rewrite u64_add_small by lia. unfold unmetered, readIntoAt.
  rewrite (proj2 (Nat.eqb_neq wl 0)) by lia. unfold MaxInt64.
  rewrite (proj2 (orb_false_iff _ _)) by (rewrite orb_false_iff, !Z.ltb_ge; lia). cbn. by rewrite Hread.
Qed.

(** Before the first aligned address of a window there is no header. *)
Lemma aligned_start ws hi :
  let rel := Z.to_nat ((16 - (p_Vaddr p + Z.of_nat ws) mod 16) mod 16) in headers_in ws hi = headers_in (ws + rel) hi.
Proof.
  intros rel.
  assert (forall o, (ws <= o < ws + rel)%nat -> header_at o = false) as Hno.
  { intros o Ho. unfold header_at. rewrite (proj2 (Z.eqb_neq _ 0)); [done|]. unfold rel in Ho.
    pose proof (Z.mod_pos_bound (p_Vaddr p + Z.of_nat ws) 16 ltac:(lia)) as Hb.
    pose proof (Z.div_mod (p_Vaddr p + Z.of_nat ws) 16 ltac:(lia)) as Hd.
    set (m := (p_Vaddr p + Z.of_nat ws) mod 16) in *. destruct (Z.eq_dec m 0) as [Hz|Hz]; [assert ((16 - m) mod 16 = 0) as E by by rewrite Hz|]; [rewrite E in Ho; lia|].
    rewrite (Z.mod_small (16 - m) 16) in Ho by lia. intros Hal.
    pose proof (Z.div_mod (p_Vaddr p + Z.of_nat o) 16 ltac:(lia)) as Hd2. lia. }
  destruct (Nat.le_gt_cases (ws + rel) hi) as [Hle|Hgt].
  - rewrite (headers_in_split ws (ws + rel) hi) by lia. by rewrite (headers_in_none _ _ Hno).
  - rewrite !headers_in_none; [done|lia|]. intros o Ho. apply Hno. lia.
Qed.

Lemma scan_windows_search fuel bufLen ws acc :
  32 <= bufLen -> (length seg <= fuel + ws)%nat ->
  scan_windows ParseBuildInfo fuel r fileSize loads p targetOS bufLen (Z.of_nat ws) acc =
  search (headers_in ws (length seg - 31)) acc.
Proof.
  intros Hbuf. revert ws acc. induction fuel as [|fuel IH]; intros ws acc Hf; cbn [scan_windows];
    destruct (Z.leb_spec (p_Filesz p) (Z.of_nat ws)) as [Hle|Hgt]; try (rewrite headers_in_none by lia; done); try lia.
  unfold goBuildInfoHeaderSize. destruct (Z.ltb_spec (p_Filesz p - Z.of_nat ws) 32) as [Hs|Hs]; [rewrite headers_in_none by lia; done|].
  set (wl := Z.to_nat (Z.min bufLen (p_Filesz p - Z.of_nat ws))).
  replace (Z.min bufLen (p_Filesz p - Z.of_nat ws)) with (Z.of_nat wl) by lia. rewrite ?Nat2Z.id.
  rewrite read_window by lia. cbn [mbind outcome_bind]. rewrite length_take, length_drop, Nat.min_l by lia.
  change goBuildInfoAlignment with 16. unfold MaxInt64, MaxUint64 in *. rewrite u64_add_small by lia.
  pose proof (aligned_start ws (ws + wl - 31)) as Hal. cbv zeta in Hal.
  pose proof (Z.mod_pos_bound (16 - (p_Vaddr p + Z.of_nat ws) mod 16) 16 ltac:(lia)) as Hmod.
  set (rel := (16 - (p_Vaddr p + Z.of_nat ws) mod 16) mod 16) in *. replace rel with (Z.of_nat (Z.to_nat rel)) at 1 by lia.
  rewrite scan_window_search by lia. rewrite <- Hal.
  rewrite (headers_in_split ws (ws + wl - 31) (length seg - 31)) by lia. rewrite search_app.
  destruct (search (headers_in ws (ws + wl - 31)) acc) as [[[] acc']|e|]; cbn [mbind outcome_bind]; [done| |done..].
  destruct (Z.leb_spec (p_Filesz p) (Z.of_nat ws + Z.of_nat wl)) as [Hlast|Hmore].
  - rewrite headers_in_none by lia. done.
  - replace (Z.of_nat ws + (Z.of_nat wl - (32 - 1))) with (Z.of_nat (ws + wl - 31)) by lia. apply IH. lia.
Qed.

End search.

Lemma segment_search (ParseBuildInfo : string -> option (list (string * string))) (file : list byte) (fileSize : Z)
    (loads : list loadSegment) (p : elf_Prog) (targetOS : string) (bufLen : Z) (acc : goBuildInfoAccounting) :
  32 <= bufLen -> loadable (Z.of_nat (length file)) p -> prog_typed p -> Z.of_nat (length file) <= MaxInt64 ->
  let seg := take (Z.to_nat (p_Filesz p)) (drop (Z.to_nat (p_Off p)) file) in
  checkGoBuildInfoSegmentReaderAt ParseBuildInfo file fileSize loads p targetOS acc bufLen =
  search ParseBuildInfo file fileSize loads p targetOS seg (headers_in p seg 0 (length seg - 31)) acc.
Proof.
  intros Hbuf [H1 H2 H3 H4] (Ho & Hv & Hf & _) Hmax seg. unfold uint64_range in *.
  assert (Z.of_nat (length seg) = p_Filesz p) as Hlen by (unfold seg; rewrite length_take, length_drop; lia).
  unfold checkGoBuildInfoSegmentReaderAt. change 0 with (Z.of_nat 0) at 1.
  apply scan_windows_search; [done| |lia..|]; [|lia].
  intros o n Hn Hon. cbn. unfold file_read.
  rewrite (proj2 (andb_true_iff _ _)) by (rewrite !Z.leb_le; lia). f_equal. unfold seg.
  rewrite skipn_firstn_comm, take_take, drop_drop, Nat.min_l by lia. f_equal. f_equal. lia.
Qed.

(** C22. Searching a segment in windows of any size that holds a header finds the same as
    looking at every header of the segment in order: no header is missed where windows meet,
    none is looked at twice, and the search ends. *)
Theorem window_search_complete (ParseBuildInfo : string -> option (list (string * string))) (file : list byte) (fileSize : Z)
    (loads : list loadSegment) (p : elf_Prog) (targetOS : string) (bufLen : Z) (acc : goBuildInfoAccounting) :
  32 <= bufLen -> loadable (Z.of_nat (length file)) p -> prog_typed p -> Z.of_nat (length file) <= MaxInt64 ->
  let seg := take (Z.to_nat (p_Filesz p)) (drop (Z.to_nat (p_Off p)) file) in
  checkGoBuildInfoSegmentReaderAt ParseBuildInfo file fileSize loads p targetOS acc bufLen =
  search ParseBuildInfo file fileSize loads p targetOS seg (headers_in p seg 0 (length seg - 31)) acc.
Proof. apply segment_search. Qed.

(** ** Reading headers *)

Section reading.
Context `{ReaderAt R}.

Lemma uint_at_ok order data lo hi : (lo <= hi <= length data)%nat -> uint_at order data lo hi = Ok (value_at order data lo hi).
Proof. intros Hl. unfold uint_at. by rewrite go_slice_ok by lia. Qed.

Lemma read_not_panic (r : R) n off : unmetered (readIntoAt r n off) <> Panic.
Proof. unfold unmetered, readIntoAt. destruct (n =? 0)%nat; [done|]. destruct (_ || _); [done|]. cbn. by destruct (ReadAt r n off). Qed.

Lemma read_into_length (r : R) n off data : unmetered (readIntoAt r n off) = Ok data -> length data = n.
Proof.
  unfold unmetered, readIntoAt. destruct (Nat.eqb_spec n 0) as [-> |]; [by intros [= <-]|]. destruct (_ || _); [done|]. cbn.
  destruct (ReadAt r n off) as [d|] eqn:E; [|done]. intros [= <-]. exact (ReadAt_full _ _ _ _ E).
Qed.

Lemma read_exact_not_panic (r : R) off size : unmetered (readExactAt r off size) <> Panic.
Proof. unfold readExactAt. destruct (size =? 0); [done|]. destruct (_ || _); [done|]. apply read_not_panic. Qed.

Lemma read_exact_length (r : R) off size data :
  0 <= size -> unmetered (readExactAt r off size) = Ok data -> Z.of_nat (length data) = size.
Proof.
  intros Hs. unfold readExactAt. destruct (Z.eqb_spec size 0) as [-> |]; [by intros [= <-]|]. destruct (_ || _); [done|].
  intros Hd%read_into_length. lia.
Qed.

Lemma preflight_header (r : R) fileSize :
  uint64_range fileSize ->
  unmetered (preflightELFHeadersReaderAtWithAccounting r fileSize) <> Panic /\
  forall header, unmetered (preflightELFHeadersReaderAtWithAccounting r fileSize) = Ok header -> good_header r header.
Proof.
  intros Hf. assert (credit (new_account None) 8 (mkMeter (new_account None) 0)) as Hc by (split; [|done..]; split; done).
  pose proof (spends_preflight (new_account None) r 8 fileSize ltac:(lia) Hf _ Hc) as Hs. unfold unmetered.
  destruct (preflightELFHeadersReaderAtWithAccounting r fileSize _) as [[header|e|] s]; cbn; [|by split|done].
  split; [done|]. intros h [= <-]. apply Hs.
Qed.

Lemma executable_progs_ok n i phTable entsize order :
  56 <= entsize -> length phTable = ((i + n) * Z.to_nat entsize)%nat ->
  executable_progs n i phTable entsize order <> Panic /\
  forall progs, executable_progs n i phTable entsize order = Ok progs -> Forall prog_typed progs.
Proof.
  intros He. revert i. induction n as [|n IH]; intros i Hl; cbn [executable_progs]; [split; [done|]; by intros ? [= <-]|].
  rewrite go_slice_ok by (rewrite Hl; nia). cbn [mbind outcome_bind]. rewrite take_ge by (rewrite length_drop; lia).
  set (ent := drop _ phTable). assert (56 <= length ent)%nat as Hent by (unfold ent; rewrite length_drop, Hl; nia).
  rewrite !uint_at_ok by lia. cbn [mbind outcome_bind]. destruct (_ || _); [by split|].
  destruct (IH (S i)) as [Hnp Hty]; [rewrite Hl; f_equal; lia|].
  destruct (executable_progs n (S i) phTable entsize order) as [rest|e|]; cbn; [|by split|done].
  split; [done|]. intros progs [= <-]. constructor; [|by apply Hty].
  unfold prog_typed. cbn. split_and!; (eapply value_at_u64 || exact (value_at_range order ent 8 16)).
Qed.

(** Reading the headers of any file ends without an index out of range, with
    fields of their types. *)
Lemma readExecutableELF_typed (r : R) fileSize :
  uint64_range fileSize ->
  readExecutableELFReaderAt r fileSize <> Panic /\
  forall f, readExecutableELFReaderAt r fileSize = Ok f -> Forall prog_typed (e_Progs f) /\ uint64_range (e_Entry f).
Proof.
  intros Hf. unfold readExecutableELFReaderAt. destruct (preflight_header r fileSize Hf) as [Hnp Hgood].
  destruct (unmetered (preflightELFHeadersReaderAtWithAccounting r fileSize)) as [header|e|]; [|by split|done]. cbn [mbind outcome_bind].
  specialize (Hgood _ eq_refl). destruct Hgood as [Hl _ Henc He Hn].
  destruct (go_index_ok (E := abi_err) header 5 ltac:(lia)) as (b5 & -> & Hb5), (go_index_ok (E := abi_err) header 4 ltac:(lia)) as (b4 & -> & _),
    (go_index_ok (E := abi_err) header 7 ltac:(lia)) as (b7 & -> & _), (go_index_ok (E := abi_err) header 8 ltac:(lia)) as (b8 & -> & _).
  cbn [mbind outcome_bind].
  assert ((if byte_eqb b5 ELFDATA2MSB then BigEndian else LittleEndian) = header_order header) as ->.
  { unfold header_order. rewrite Hb5. destruct Henc as [E|E]; rewrite Hb5 in E; by injection E as ->. }
  rewrite !uint_at_ok by lia. cbn [mbind outcome_bind]. destruct (negb _); [by split|]. destruct (_ <? _); [by split|].
  fold (hd_phnum header) (hd_phentsize header) (hd_phoff header).
  assert (uint64_range (value_at (header_order header) header 24 32)) as Hentry by apply (value_at_u64 _ header 24).
  destruct (Z.eqb_spec (hd_phnum header) 0) as [Hz|Hz]; cbn [mbind outcome_bind]; [split; [done|]; by intros f [= <-]|].
  destruct He as [?|He]; [done|].
  assert (u64_mul (hd_phnum header) (hd_phentsize header) = hd_phnum header * hd_phentsize header) as ->
    by (unfold u64_mul; apply to_uint64_small; split; nia).
  pose proof (read_exact_not_panic r (hd_phoff header) (hd_phnum header * hd_phentsize header)) as Hrp.
  pose proof (read_exact_length r (hd_phoff header) (hd_phnum header * hd_phentsize header)) as Hrl.
  destruct (unmetered (readExactAt _ _ _)) as [phTable|e|]; cbn [mbind outcome_bind]; [|by split|done].
  specialize (Hrl phTable ltac:(nia) eq_refl).
  destruct (executable_progs_ok (Z.to_nat (hd_phnum header)) 0 phTable (hd_phentsize header) (header_order header)) as [Hpp Hpt]; [lia|cbn; nia|].
  destruct (executable_progs _ _ _ _ _) as [progs|e|]; cbn; [|by split|done]. split; [done|]. intros f [= <-]. cbn. auto.
Qed.


(** ** No header makes the search panic *)

Lemma inline_not_panic (r : R) pos segEnd : readGoBuildInfoInlineStringReaderAt r pos segEnd <> Panic.
Proof.
  unfold readGoBuildInfoInlineStringReaderAt. destruct (_ <=? _); [done|]. apply bind_not_panic; [apply read_not_panic|]. intros buf _.
  destruct (Uvarint buf) as [[len prefix]|]; [|done]. destruct (_ <? _); [done|]. destruct (_ <? _); [done|].
  apply bind_not_panic; [apply read_exact_not_panic|done].
Qed.

Lemma pointer_ok data size order : size = 4%nat \/ size = 8%nat -> (size <= length data)%nat -> exists v, readGoBuildInfoPointer data size order = Ok v.
Proof.
  intros Hs Hl. unfold readGoBuildInfoPointer. eexists. apply uint_at_ok. destruct Hs as [-> | ->]; cbn; lia.
Qed.

Lemma translate_not_panic segs fileSize vaddr size : translateVaddr segs fileSize vaddr size <> Panic.
Proof.
  unfold translateVaddr. destruct (_ <? _); [done|]. apply bind_not_panic; [|intros [? [|[|?]]] _; done].
  generalize 0, 0%nat. induction segs as [|seg segs IH]; intros o n; cbn [match_segments]; [done|]. by repeat case_match.
Qed.

Lemma pointer_string_not_panic (r : R) fileSize segs raw size order :
  size = 4%nat \/ size = 8%nat -> (size <= length raw)%nat ->
  readGoBuildInfoPointerStringReaderAt r fileSize segs raw size order <> Panic.
Proof.
  intros Hs Hl. unfold readGoBuildInfoPointerStringReaderAt. destruct (pointer_ok raw size order Hs Hl) as [v ->]. cbn [mbind outcome_bind].
  pose proof (translate_not_panic segs fileSize v (Z.of_nat (size * 2))) as Ht.
  destruct (translateVaddr segs fileSize v _) as [off|e|]; [|done..]. apply bind_not_panic; [apply read_not_panic|].
  intros header Hh%read_into_length. destruct (pointer_ok header size order Hs ltac:(lia)) as [address ->]. cbn [mbind outcome_bind].
  rewrite go_slice_ok by lia. cbn [mbind outcome_bind].
  destruct (pointer_ok (take (size * 2 - size) (drop size header)) size order Hs) as [len ->]; [rewrite length_take, length_drop; lia|].
  cbn [mbind outcome_bind]. destruct (_ <? _); [done|]. destruct (_ =? _); [done|].
  pose proof (translate_not_panic segs fileSize address len) as Ht2. destruct (translateVaddr segs fileSize address len) as [off2|e|]; [|done..].
  apply read_exact_not_panic.
Qed.

Lemma module_not_panic (r : R) fileSize segs header inlinePos segEnd :
  length header = 32%nat -> readGoBuildInfoModuleReaderAt r fileSize segs header inlinePos segEnd <> Panic.
Proof.
  intros Hl. unfold readGoBuildInfoModuleReaderAt. destruct (go_index_ok (E := abi_err) header 15 ltac:(lia)) as (flags & -> & _).
  cbn [mbind outcome_bind]. apply bind_not_panic; [|intros [[|b version] module] _; by repeat case_match].
  destruct (negb (Z.land _ 2 =? 0)).
  - apply bind_not_panic; [apply inline_not_panic|]. intros [[|b version] nextPos] _; [done|].
    apply bind_not_panic; [apply inline_not_panic|by intros []].
  - destruct (go_index_ok (E := abi_err) header 14 ltac:(lia)) as (size & -> & _). cbn [mbind outcome_bind].
    destruct (Z.eqb_spec (byte_val size) 4) as [E|E], (Z.eqb_spec (byte_val size) 8) as [E2|E2]; cbn [negb andb]; try done; try lia.
    all: rewrite (go_slice_ok header 16) by lia; cbn [mbind outcome_bind]; apply bind_not_panic;
      [apply pointer_string_not_panic; [lia|rewrite length_take, length_drop; lia]|]; intros [|b version] _; [done|].
    all: rewrite go_slice_ok by lia; cbn [mbind outcome_bind]; apply bind_not_panic; [|done];
      apply pointer_string_not_panic; [lia|rewrite length_take, length_drop; lia].
Qed.

Lemma target_not_panic parse module os acc : checkGoBuildInfoTarget parse module os acc <> Panic.
Proof.
  unfold checkGoBuildInfoTarget. destruct (Nat.leb_spec (length module) (goBuildInfoFrameSize * 2)) as [|Hlong]; [done|]. cbn [orb].
  destruct (_ || _); [done|]. unfold goBuildInfoFrameSize in *. rewrite go_slice_ok by lia. cbn [mbind outcome_bind].
  set (inner := take _ _). assert (length inner = length module - 16 - 16)%nat as Hin by (unfold inner; rewrite length_take, length_drop; lia).
  destruct (go_index_ok (E := abi_err) inner (length inner - 1) ltac:(lia)) as (b & -> & _). cbn [mbind outcome_bind].
  destruct (negb _); [done|]. apply bind_not_panic; [unfold bi_charge; by repeat case_match|]. intros acc' _. by repeat case_match.
Qed.

Lemma search_not_panic parse (r : R) fileSize segs p os seg headers acc :
  Forall (fun o => header_at p seg o = true) headers -> search parse r fileSize segs p os seg headers acc <> Panic.
Proof.
  intros Hh. revert acc. induction Hh as [|o headers Ho _ IH]; intros acc; cbn [search]; [done|].
  apply bind_not_panic; [|intros [[] acc'] _; [done|apply IH]]. unfold inspect_header.
  apply andb_true_iff in Ho as [_ Ho%Nat.leb_le]. apply bind_not_panic; [|intros m _; apply target_not_panic].
  apply module_not_panic. rewrite length_take, length_drop. lia.
Qed.

End reading.

(** The buffer of the search holds a header. *)
Lemma scan_buffer_room progs :
  foldl Z.max 0 (p_Filesz <$> List.filter writable_load progs) <> 0 ->
  32 <= Z.min (foldl Z.max 0 (p_Filesz <$> List.filter writable_load progs)) goBuildInfoScanWindow.
Proof.
  intros Hw. unfold goBuildInfoScanWindow. destruct (List.filter writable_load progs) as [|p rest] eqn:Hf; [done|].
  assert (In p (List.filter writable_load progs)) as [_ Hp]%List.filter_In by (rewrite Hf; by left).
  unfold writable_load in Hp. rewrite !andb_true_iff, Z.leb_le in Hp. destruct Hp as [_ Hp]. unfold goBuildInfoHeaderSize in Hp. cbn [fmap list_fmap foldl].
  assert (forall l z, z <= foldl Z.max z l) as Hge by (clear; induction l as [|x l IH]; intros z; cbn; [done|]; specialize (IH (Z.max z x)); lia).
  specialize (Hge (p_Filesz <$> rest) (Z.max 0 (p_Filesz p))). lia.
Qed.

(** The checks of a file that is to be packed return on every input: reading
    its headers, and once its segments passed, the search for the declared
    platform in all of them. *)
Theorem executable_checks_return (ParseBuildInfo : string -> option (list (string * string))) (file : list byte) (targetOS : string) :
  Z.of_nat (length file) <= MaxInt64 ->
  match readExecutableELFReaderAt file (Z.of_nat (length file)) with
  | Ok f =>
      validateExecutableELF f (Z.of_nat (length file)) <> Panic /\
      (validateExecutableELF f (Z.of_nat (length file)) = Ok tt ->
       validateELFPlatformReaderAt ParseBuildInfo file (Z.of_nat (length file)) f targetOS <> Panic)
  | Err _ => True
  | Panic => False
  end.
Proof.
  intros Hmax. assert (uint64_range (Z.of_nat (length file))) as Hsz by (unfold uint64_range, MaxInt64 in *; lia).
  destruct (readExecutableELF_typed file (Z.of_nat (length file)) Hsz) as [Hnp Hty].
  destruct (readExecutableELFReaderAt file (Z.of_nat (length file))) as [f|e|]; [|done..].
  destruct (Hty f eq_refl) as [Ht He]. split.
  { unfold validateExecutableELF. destruct (_ && _); [done|]. destruct (_ =? _); [done|]. apply bind_not_panic; [|by intros []].
    generalize false. induction (e_Progs f) as [|p progs IH]; intros b; cbn [check_loads]; [done|]. apply Forall_cons in Ht as [_ Ht].
    by repeat (case_match; try by apply IH). }
  intros Hok. apply executable_exact in Hok as (_ & _ & Hall & _); [|done..].
  unfold validateELFPlatformReaderAt. destruct (_ && _); [done|]. cbv zeta. destruct (_ =? 0) eqn:Hw; [done|]. apply Z.eqb_neq in Hw.
  set (segs := load_of <$> _). set (bufLen := Z.min _ _).
  assert (32 <= bufLen) as Hbuf by by apply scan_buffer_room.
  generalize (mkBuildInfo 0 0). clear Hw. revert Ht Hall. generalize (e_Progs f). induction l as [|p progs IH]; intros Ht Hall acc; cbn [check_segments]; [done|].
  apply Forall_cons in Ht as [Hp Ht]. apply Forall_cons in Hall as [Hload Hall].
  destruct (writable_load p) eqn:Hwp; cbn [negb]; [|by apply IH]. unfold writable_load in Hwp. rewrite !andb_true_iff, Z.eqb_eq in Hwp.
  apply bind_not_panic; [|intros [[] acc'] _; [done|by apply IH]].
  rewrite segment_search by (done || by apply Hload, Hwp). apply search_not_panic.
  apply List.Forall_forall. by intros o [_ Ho]%List.filter_In.
Qed.

(** ** A segment with build information of another system *)

Definition foreign_module : list byte :=
  goBuildInfoFrameStart ++ chars_bytes [98; 117; 105; 108; 100; 9; 71; 79; 79; 83; 61; 119; 105; 110; 100; 111; 119; 115; 10] ++ goBuildInfoFrameEnd.

Definition foreign_segment : list byte :=
  replicate 48 x00 ++ goBuildInfoMagic ++ [x08; x02] ++ replicate 16 x00 ++ [x03; x67; x6f; x31] ++ [x33] ++ foreign_module.

Definition foreign_prog : elf_Prog := mkProg PT_LOAD 6 0 4096 4096 136 136 4096.

Definition foreign_settings (s : string) : option (list (string * string)) := Some [("GOOS"%string, "windows"%string)].

(** The header starts in the second of the windows. *)
Lemma window_search_complete_witness :
  checkGoBuildInfoSegmentReaderAt foreign_settings foreign_segment 136 [] foreign_prog "linux" (mkBuildInfo 0 0) 64 = Err OtherError /\
  headers_in foreign_prog foreign_segment 0 105 = [48%nat] /\
  search foreign_settings foreign_segment 136 [] foreign_prog "linux" foreign_segment (headers_in foreign_prog foreign_segment 0 105) (mkBuildInfo 0 0) = Err OtherError.
Proof.
  assert (checkGoBuildInfoSegmentReaderAt foreign_settings foreign_segment 136 [] foreign_prog "linux" (mkBuildInfo 0 0) 64 = Err OtherError) as Hc
    by (vm_compute; reflexivity).
  split; [exact Hc|]. split; [vm_compute; reflexivity|].
  assert (loadable 136 foreign_prog) as Hl.
  { split; cbn; [done|done|done|]. intros _. split; [exists 12; split; [lia|reflexivity]|reflexivity]. }
  pose proof (window_search_complete foreign_settings foreign_segment 136 [] foreign_prog "linux" 64 (mkBuildInfo 0 0) ltac:(lia) Hl) as H.
  assert (take (Z.to_nat (p_Filesz foreign_prog)) (drop (Z.to_nat (p_Off foreign_prog)) foreign_segment) = foreign_segment) as Hseg by (vm_compute; reflexivity).
  cbv zeta in H. rewrite Hseg in H. change (length foreign_segment - 31)%nat with 105%nat in H. rewrite <- H, Hc; [reflexivity| |].
  - repeat split; discriminate.
  - discriminate.
Defined.

Definition runnable : elf_File :=
  mkElf x02 x01 1 x00 x00 LittleEndian ET_DYN 62 4100 [mkProg PT_LOAD 5 0 4096 4096 136 136 4096; mkProg PT_INTERP 4 0 0 0 16 16 1].

Lemma validateExecutableELF_exact_witness :
  validateExecutableELF runnable 136 = Ok tt /\ Exists (holds_entry 4100) (e_Progs runnable).
Proof.
  assert (validateExecutableELF runnable 136 = Ok tt) as Hv by reflexivity. split; [done|].
  apply (validateExecutableELF_exact runnable 136) in Hv; [apply Hv|by repeat constructor|done|done].
Defined.

Lemma executable_checks_return_witness :
  match readExecutableELFReaderAt foreign_segment 136 with
  | Ok f => validateExecutableELF f 136 <> Panic /\
      (validateExecutableELF f 136 = Ok tt -> validateELFPlatformReaderAt foreign_settings foreign_segment 136 f "linux" <> Panic)
  | Err _ => True
  | Panic => False
  end.
Proof. apply (executable_checks_return foreign_settings foreign_segment "linux"). done. Defined.
