(* ===== verification/PackOptions.v ===== *)
(** * Options of packing ([internal/pack/pack.go])

    The configuration of [Pack], its checks and normal forms, the order of the
    variants and the choice of a codec for each.

    At the end the [Compress] methods of the codecs ([internal/codec/lz4.go],
    [zstd.go], [none.go]).  The encoders of the libraries are an interface: what
    they hand to their writer, as a list of pieces, and whether they fail at the
    end.  What the code relies on, that a decoder gives back what was encoded,
    is [EncoderLaws]. *)

From S2P Require Import Prelude GoStrings GoPath GoIO Microarch MicroarchSelect Format Codec Vfs GoOS Cache AbiText PackTrim.
From stdpp Require Import base list strings gmap sorting.
From Stdlib Require Import ZArith Lia Strings.Ascii Strings.Byte.

Local Open Scope Z_scope.

(** ** Errors *)

Module PackErr.

Definition ErrNoVariantsSpecified : gerror := [Sentinel "format.ErrNoVariantsSpecified"].
Definition ErrDuplicateVariant : gerror := [Sentinel "format.ErrDuplicateVariant"].
Definition ErrInvalidVariant : gerror := [Sentinel "format.ErrInvalidVariant"].
Definition ErrStubMissing : gerror := [Sentinel "pack.ErrStubMissing"].
Definition ErrVariantNotFound : gerror := [Sentinel "pack.ErrVariantNotFound"].
Definition ErrSizeMismatch : gerror := [Sentinel "codec.ErrSizeMismatch"].
Definition ErrInvalidELF : gerror := [Sentinel "pack.ErrInvalidELF"].
Definition ErrUnsupportedArch : gerror := [Sentinel "pack.ErrUnsupportedArch"].
Definition ErrUnsupportedOS : gerror := [Sentinel "pack.ErrUnsupportedOS"].
Definition ErrConflictingDictOptions : gerror := [Sentinel "pack.ErrConflictingDictOptions"].
Definition ErrSpoolBudgetExceeded : gerror := [Sentinel "pack.ErrSpoolBudgetExceeded"].
Definition ErrUnsupportedVersion : gerror := [Sentinel "format.ErrUnsupportedVersion"].
Definition ErrPayloadTooLarge : gerror := [Sentinel "format.ErrPayloadTooLarge"].
Definition ErrUnsupportedCodec : gerror := [Sentinel "codec.ErrUnsupportedCodec"].
Definition ErrUnsupportedProfile : gerror := [Sentinel "codec.ErrUnsupportedProfile"].
Definition ErrInvalidCompressionLevel : gerror := [Sentinel "codec.ErrInvalidCompressionLevel"].

End PackErr.
Import PackErr.

(** The identity of a codec error. *)
Definition pack_codec_tags (e : codec_err) : gerror :=
  match e with
  | Codec.ErrUnsupportedCodec => ErrUnsupportedCodec
  | Codec.ErrUnsupportedProfile => ErrUnsupportedProfile
  | Codec.ErrInvalidCompressionLevel => ErrInvalidCompressionLevel
  | Codec.ErrSizeMismatch => ErrSizeMismatch
  | _ => errors_New "codec"
  end.

(** ** Maps

    A loop over a map takes its entries in an order Go leaves open, another one
    each time: [map_range k m] is the order of the [k]-th loop. *)
Class MapRange := {
  map_range : forall {A}, nat -> gmap string A -> list (string * A);
  map_range_Permutation : forall {A} k (m : gmap string A), map_range k m ≡ₚ map_to_list m
}.

Definition sorted_range : MapRange :=
  {| map_range := fun A _ m => map_to_list m; map_range_Permutation := fun A _ m => Permutation_refl _ |}.

(** ** The configuration *)

Definition defaultFileMode : Z := 493.

Record VariantCompressionOptions := mkVariantCompression {
  vc_Profile : string;
  vc_Compression : string;
  vc_Level : string
}.

(** Reports and warnings go to callbacks that are not kept; the validator of
    snapshots is code of the caller. *)
Record Options := mkOptions {
  o_StubPath : string;
  o_OutputPath : string;
  o_AppName : string;
  o_TargetOS : string;
  o_TargetArch : string;
  o_Variants : gmap string string;
  o_Profile : string;
  o_Compression : string;
  o_CompressionLevel : string;
  o_EnableDict : bool;
  o_DictProfitable : bool;
  o_DictSize : Z;
  o_MaxSpoolBytes : Z;
  o_VariantCompression : gmap string VariantCompressionOptions;
  o_Permissions : Z;
  o_FormatVersion : Z;
  o_CreatedUnix : option Z;
  o_SkipELFValidation : bool;
  o_AllowMixedABI : bool;
  o_VariantValidator : option (string -> string -> io unit)
}.

Definition DefaultOptions : Options :=
  mkOptions "" "" "" "linux" ArchAMD64 ∅ ProfileBalanced "" "" false false 0 0 ∅ defaultFileMode
    FormatVersionCurrent None false false None.

Section options.
Context {GU : GoUnicode} {MR : MapRange}.

Definition NormalizeTargetArch (arch : string) : outcome gerror string :=
  let a := ToLower arch in
  if String.eqb a ArchAMD64 || String.eqb a "x86_64" || String.eqb a "x86-64" then Ok ArchAMD64
  else if String.eqb a ArchARM64 || String.eqb a "aarch64" then Ok ArchARM64
  else Err ErrUnsupportedArch.

Definition NormalizeTargetOS (targetOS : string) : outcome gerror string :=
  if String.eqb targetOS "" || EqualFold targetOS "linux" then Ok "linux"%string else Err ErrUnsupportedOS.

(** [utf8.ValidString]: no rune is the replacement of a bad byte. *)
Definition ValidString (s : string) : bool := forallb (fun '(r, size) => negb (invalid r size)) (runes (String.length s) s).

Definition validateDictionaryAndFormatOptions (opts : Options) : outcome gerror Z :=
  if o_EnableDict opts && o_DictProfitable opts then Err ErrConflictingDictOptions
  else if o_MaxSpoolBytes opts <? 0 then Err ErrSpoolBudgetExceeded
  else if o_FormatVersion opts =? FormatVersion1 then Err ErrUnsupportedVersion
  else if negb (o_FormatVersion opts =? 0) && negb (o_FormatVersion opts =? FormatVersion2) then Err ErrUnsupportedVersion
  else Ok (if o_FormatVersion opts =? 0 then FormatVersionCurrent else o_FormatVersion opts).

(** The checks of one level name: its normal form, unless it is taken. *)
Definition check_level (arch lvl : string) (seen : gset string) : outcome gerror string :=
  if String.eqb (TrimSpace lvl) "" then Err ErrInvalidVariant
  else
    let normLvl := NormalizeVariant lvl in
    if Rank arch normLvl <? 0 then Err ErrInvalidVariant
    else if bool_decide (normLvl ∈ seen) then Err ErrDuplicateVariant
    else Ok normLvl.

(** [lift]ed into file system code. *)
Definition of_outcome {A} (m : outcome gerror A) : io A :=
  match m with
  | Ok a => mret a
  | Err e => fail e
  | Panic => fail (errors_New "panic")
  end.

(** The levels of the compression overrides under their normal names. *)
Fixpoint normalize_compression (arch : string) (l : list (string * VariantCompressionOptions)) (seen : gset string)
    (acc : gmap string VariantCompressionOptions) : outcome gerror (gmap string VariantCompressionOptions) :=
  match l with
  | [] => Ok acc
  | (lvl, comp) :: rest =>
      normLvl ← check_level arch lvl seen;
      normalize_compression arch rest ({[normLvl]} ∪ seen) (<[normLvl := comp]> acc)
  end.

Section validate.
Context (ValidateELFBinary : string -> string -> string -> io unit).

Fixpoint check_levels (opts : Options) (osName arch : string) (l : list (string * string)) (seen : gset string) : io unit :=
  match l with
  | [] => mret tt
  | (lvl, varPath) :: rest =>
      normLvl ← of_outcome (check_level arch lvl seen);
      _ ← (if o_SkipELFValidation opts then mret tt else ValidateELFBinary varPath osName arch);
      check_levels opts osName arch rest ({[normLvl]} ∪ seen)
  end.

Definition with_checked (opts : Options) (osName arch : string) (version : Z) (comp : gmap string VariantCompressionOptions) : Options :=
  mkOptions (o_StubPath opts) (o_OutputPath opts) (o_AppName opts) osName arch (o_Variants opts) (o_Profile opts)
    (o_Compression opts) (o_CompressionLevel opts) (o_EnableDict opts) (o_DictProfitable opts) (o_DictSize opts)
    (o_MaxSpoolBytes opts) comp (if o_Permissions opts =? 0 then defaultFileMode else o_Permissions opts) version
    (o_CreatedUnix opts) (o_SkipELFValidation opts) (o_AllowMixedABI opts) (o_VariantValidator opts).

(** The options as the rest of packing sees them. *)
Definition validateOptions (opts : Options) : io Options :=
  if bool_decide (o_Variants opts = ∅) then fail ErrNoVariantsSpecified
  else if String.eqb (o_StubPath opts) "" then fail ErrStubMissing
  else if String.eqb (o_OutputPath opts) "" then fail (errors_New "output path must not be empty")
  else if negb (ValidString (o_AppName opts)) then fail (errors_New "application name must be valid UTF-8")
  else
    osName ← of_outcome (NormalizeTargetOS (o_TargetOS opts));
    arch ← of_outcome (NormalizeTargetArch (if String.eqb (o_TargetArch opts) "" then ArchAMD64 else o_TargetArch opts));
    version ← of_outcome (validateDictionaryAndFormatOptions opts);
    _ ← check_levels opts osName arch (map_range 0 (o_Variants opts)) ∅;
    comp ← of_outcome (normalize_compression arch (map_range 1 (o_VariantCompression opts)) ∅ ∅);
    _ ← (if o_SkipELFValidation opts then mret tt else ValidateELFBinary (o_StubPath opts) osName arch);
    mret (with_checked opts osName arch version comp).

End validate.

(** ** Variants *)

Definition sortVariantLevels {SS : SliceSort} (variants : gmap string string) (targetArch : string) : list string :=
  sort_slice (fun a b => Compare targetArch a b <? 0) (fst <$> map_range 2 variants).

Definition resolveVariantCompression (opts : Options) (lvl : string) (uncompressedSize : Z) : outcome gerror (Codec * string) :=
  let '(profile, compAlgo, compLevel) :=
    match o_VariantCompression opts !! NormalizeVariant lvl with
    | None => (o_Profile opts, o_Compression opts, o_CompressionLevel opts)
    | Some varComp =>
        let profile := if String.eqb (vc_Profile varComp) "" then o_Profile opts else vc_Profile varComp in
        let '(compAlgo, compLevel) :=
          if String.eqb (vc_Compression varComp) "" then (o_Compression opts, o_CompressionLevel opts)
          else
            let inlineLevel := (ParseCompressionSpec (vc_Compression varComp)).2 in
            (vc_Compression varComp, if String.eqb inlineLevel "" then o_CompressionLevel opts else inlineLevel) in
        (profile, compAlgo, if String.eqb (vc_Level varComp) "" then compLevel else vc_Level varComp)
    end in
  match ResolveCompression registry_init profile compAlgo compLevel uncompressedSize with
  | Ok r => Ok r
  | Err e => Err (pack_codec_tags e)
  | Panic => Panic
  end.

End options.

(** ** Compression *)

Record encoded := mkEncoded { enc_pieces : list (list byte); enc_fails : bool }.

Class Encoders := {
  (** [writer.Apply] takes the options *)
  lz4_Apply : lz4_level -> Z -> bool;
  lz4_Writer : lz4_level -> Z -> list byte -> encoded;
  (** [zstd.NewWriter] takes the options, a dictionary among them *)
  zstd_NewWriter : zstd_level -> Z -> list byte -> bool;
  zstd_EncodeAll : zstd_level -> Z -> list byte -> list byte -> list byte;
  zstd_Writer : zstd_level -> Z -> list byte -> list byte -> encoded
}.

Section compress.
Context {GU : GoUnicode} {E : Encoders}.

(** [runtime.GOMAXPROCS(0)] and what the host offers. *)
Context (gomaxprocs : Z) (res : codecResources).

(** What reaches the writer, and the error; a writer that fails stops them. *)
Definition frames_and_error (e : encoded) : list (list byte) * option gerror :=
  (enc_pieces e, if enc_fails e then Some (errors_New "compressing payload") else None).

Definition lz4_Compress (src : list byte) (level : string) : list (list byte) * option gerror :=
  match lz4_MapLevel level with
  | Ok encLevel =>
      let concurrency := resolveLZ4Concurrency gomaxprocs (Z.of_nat (length src)) res in
      if negb (lz4_Apply encLevel concurrency) then ([], Some (errors_New "applying lz4 compression options"))
      else frames_and_error (lz4_Writer encLevel concurrency src)
  | Err e => ([], Some (pack_codec_tags e))
  | Panic => ([], Some (errors_New "panic"))
  end.

Definition zstd_CompressWithDict (src : list byte) (level : string) (dict : list byte) : list (list byte) * option gerror :=
  match zstd_MapLevel level with
  | Ok encLevel =>
      let hasDict := (0 <? length dict)%nat in
      let plan := resolveZstdEncodePlan gomaxprocs (Z.of_nat (length src)) encLevel hasDict res in
      if negb (zstd_NewWriter encLevel (concurrency plan) dict) then ([], Some (errors_New "initializing zstd encoder"))
      else if singleShot plan then ([zstd_EncodeAll encLevel (concurrency plan) dict src], None)
      else frames_and_error (zstd_Writer encLevel (concurrency plan) dict src)
  | Err e => ([], Some (pack_codec_tags e))
  | Panic => ([], Some (errors_New "panic"))
  end.

Definition zstd_Compress (src : list byte) (level : string) : list (list byte) * option gerror :=
  zstd_CompressWithDict src level [].

Definition codec_Compress (c : Codec) (src : list byte) (level : string) : list (list byte) * option gerror :=
  match c with
  | ZstdCodec => zstd_Compress src level
  | LZ4Codec => lz4_Compress src level
  | NoneCodec => ([src], None)
  end.

(** [compressVariantIntoWriter]: a dictionary goes to codecs that take one. *)
Definition compressVariantIntoWriter (c : Codec) (resolvedLevel : string) (variantBytes dict : list byte) :
    list (list byte) * option gerror :=
  if (0 <? length dict)%nat && is_dict_codec c then zstd_CompressWithDict variantBytes resolvedLevel dict
  else codec_Compress c variantBytes resolvedLevel.

End compress.

(** What the libraries promise of a frame that was written without an error:
    however it is cut into reads, the decoder delivers the source, and a frame
    is not empty. *)
Definition reads_back (decode : stream -> option stream) (frame src : list byte) : Prop :=
  forall cs, concat cs = frame -> delivers (decode (mkStream cs false)) (Z.of_nat (length src)) src.

Class EncoderLaws (E : Encoders) (D : Decoders) : Prop := {
  lz4_round_trip l c src : enc_fails (lz4_Writer l c src) = false ->
    reads_back (fun s => Some (lz4_reader s)) (concat (enc_pieces (lz4_Writer l c src))) src;
  lz4_some l c src : concat (enc_pieces (lz4_Writer l c src)) <> [];
  zstd_all_round_trip l c dict src : zstd_NewWriter l c dict = true ->
    reads_back (fun s => zstd_reader s dict) (zstd_EncodeAll l c dict src) src;
  zstd_all_some l c dict src : zstd_EncodeAll l c dict src <> [];
  zstd_round_trip l c dict src : zstd_NewWriter l c dict = true -> enc_fails (zstd_Writer l c dict src) = false ->
    reads_back (fun s => zstd_reader s dict) (concat (enc_pieces (zstd_Writer l c dict src))) src;
  zstd_some l c dict src : concat (enc_pieces (zstd_Writer l c dict src)) <> []
}.

(** The frame of a variant reads back through the codec that wrote it. *)
Lemma compress_round_trip {GU : GoUnicode} {E : Encoders} {D : Decoders} {L : EncoderLaws E D} gomaxprocs res c level src dict pieces :
  compressVariantIntoWriter gomaxprocs res c level src dict = (pieces, None) -> src <> [] ->
  concat pieces <> [] /\ reads_back (fun s => decoded_stream c s dict) (concat pieces) src.
Proof.
  assert (forall d, zstd_CompressWithDict gomaxprocs res src level d = (pieces, None) ->
    concat pieces <> [] /\ reads_back (fun s => zstd_reader s d) (concat pieces) src) as Hz.
  { intros d. unfold zstd_CompressWithDict, frames_and_error. destruct (zstd_MapLevel level) as [l|e|]; [|done..].
    destruct (zstd_NewWriter _ _ _) eqn:Hn; cbn [negb]; [|done]. destruct (singleShot _).
    - intros [= <-]. cbn [concat]. rewrite app_nil_r. split; [apply zstd_all_some|by apply zstd_all_round_trip].
    - destruct (enc_fails _) eqn:Hf; [done|]. intros [= <-]. split; [apply zstd_some|by apply zstd_round_trip]. }
  unfold compressVariantIntoWriter. intros Hc Hs. destruct c; cbn [is_dict_codec decoded_stream codec_Compress] in *.
  - destruct dict as [|b dict]; cbn [length Nat.ltb Nat.leb andb] in Hc; by apply Hz.
  - rewrite andb_false_r in Hc. unfold lz4_Compress, frames_and_error in Hc. destruct (lz4_MapLevel level) as [l|e|]; [|done..].
    destruct (lz4_Apply _ _); cbn [negb] in Hc; [|done]. destruct (enc_fails _) eqn:Hf; [done|]. injection Hc as <-.
    split; [apply lz4_some|by apply lz4_round_trip].
  - rewrite andb_false_r in Hc. injection Hc as <-. cbn [concat]. rewrite app_nil_r. split; [done|].
    intros cs Hcs. exists (mkStream cs false). cbn [chunks ends_in_error]. by rewrite Hcs.
Qed.
