(* ===== verification/PackInput.v ===== *)
(** * Inputs of packing ([internal/pack/input.go], [pack.go])

    Inputs are opened, checked and read through bounded readers, and copied
    once into a private directory; the checks of executables and the inspection
    of declared ABIs read these copies.  Code that parses an open file is given
    what the file holds at one moment. *)

From S2P Require Import Prelude GoStrings GoPath GoIO Vfs GoOS InputFile Microarch MicroarchSelect Format Codec Cache Abi AbiCompare Elf PackOptions.
From stdpp Require Import base list strings gmap.
From Stdlib Require Import ZArith Lia Strings.Ascii Strings.Byte.
Import PackErr.

Local Open Scope Z_scope.

Definition abi_tags (e : abi_err) : gerror :=
  match e with
  | Abi.ErrInvalidELF => ErrInvalidELF
  | ErrABIMetadata => [Sentinel "pack.ErrABIMetadata"]
  | ErrABIResourceLimit => [Sentinel "pack.ErrABIResourceLimit"]
  | OtherError => errors_New "elf"
  end.

Definition ErrABIMismatch : gerror := [Sentinel "pack.ErrABIMismatch"].

Definition inputSnapshotMode : Z := 384.
Definition EM_AARCH64 : Z := 183.
Definition EM_X86_64 : Z := 62.

Definition sampleChunkSize : Z := 4 * 1024.
Definition maxSamplesPerFile : Z := 32.
Definition maxSampleBytes : Z := 4 * 1024 * 1024.

(** [rep.Level = lvl; rep.Path = path] *)
Definition with_level_path (rep : VariantABIReport) (lvl path : string) : VariantABIReport :=
  mkABIReport lvl path (ab_Class rep) (ab_Type rep) (ab_Machine rep) (ab_Linkage rep) (ab_HasInterpreter rep)
    (ab_Interpreter rep) (ab_Dependencies rep) (ab_VersionRequirements rep) (ab_Completeness rep)
    (ab_InspectionSource rep) (ab_Warnings rep).

Section input.
Context `{Kernel}.

(** ** Bounded readers *)

Definition openInput (path : string) : io Z :=
  r ← try (inputfile_Open path);
  match r with
  | inl f => mret f
  | inr e => fail (if has e ErrNotRegular then ErrInvalidELF ++ e else e)
  end.

Definition bad_limit (limit : Z) : bool := (limit <=? 0) || (MaxPayloadSize <? limit).

Definition openBoundedReaderAt (path : string) (limit : Z) : io (Z * Z) :=
  if bad_limit limit then fail ErrPayloadTooLarge
  else
    f ← openInput path;
    st ← try (sys_fstat f);
    match st with
    | inr e => _ ← ignore (sys_close f); fail e
    | inl stat =>
        if negb (IsRegular (Mode stat)) || (fi_size stat <=? 0) then _ ← ignore (sys_close f); fail ErrInvalidELF
        else if limit <? fi_size stat then _ ← ignore (sys_close f); fail ErrPayloadTooLarge
        else mret (f, fi_size stat)
    end.

Definition verifyBoundedReaderAtUnchanged (f expectedSize limit : Z) : io unit :=
  stat ← sys_fstat f;
  if limit <? fi_size stat then fail ErrPayloadTooLarge
  else if negb (fi_size stat =? expectedSize) then fail ErrSizeMismatch
  else mret tt.

Definition readBoundedFromFile (f size limit : Z) : io (list byte) :=
  data ← read_limit size (fun _ => mret tt) f size;
  if Z.of_nat (length data) <? size then fail ErrSizeMismatch
  else
    extra ← sys_pread f 1 size;
    if (0 <? length extra)%nat then
      if limit <? i64_add (Z.of_nat (length data)) (Z.of_nat (length extra)) then fail ErrPayloadTooLarge
      else
        st ← try (sys_fstat f);
        match st with
        | inl stat => if limit <? fi_size stat then fail ErrPayloadTooLarge else fail ErrSizeMismatch
        | inr _ => fail ErrSizeMismatch
        end
    else mret data.

Definition readBoundedInput (path : string) (limit : Z) : io (list byte) :=
  '(f, size) ← openBoundedReaderAt path limit;
  deferring (ignore (sys_close f)) (readBoundedFromFile f size limit).

(** [io.Copy] through a [LimitReader] that lets one byte too many pass. *)
Definition copyBoundedInput (output input limit expectedSize : Z) : io unit :=
  if bad_limit limit then fail ErrPayloadTooLarge
  else
    data ← read_limit 32768 (fun piece => sys_write output (fun old => old ++ piece)) input (limit + 1);
    let n := Z.of_nat (length data) in
    if limit <? n then fail ErrPayloadTooLarge
    else if n =? 0 then fail ErrInvalidELF
    else if negb (n =? expectedSize) then fail ErrSizeMismatch
    else mret tt.

Definition snapshotInput (source destination : string) (limit : Z) : io unit :=
  input ← openInput source;
  deferring (ignore (sys_close input))
    (stat ← sys_fstat input;
     if negb (IsRegular (Mode stat)) || (fi_size stat <=? 0) then fail ErrInvalidELF
     else if limit <? fi_size stat then fail ErrPayloadTooLarge
     else
       output ← sys_create_excl cwd_base (filepath_Clean destination) inputSnapshotMode;
       deferring (ignore (sys_close output))
         (_ ← copyBoundedInput output input limit (fi_size stat);
          sys_close output)).

(** ** Executables *)

Context {GU : GoUnicode} {SS : SliceSort} {MR : MapRange}.
Context (Type_String Machine_String : Z -> string) (ParseBuildInfo : string -> option (list (string * string))).

(** The result of a check of an open file, as an error of packing. *)
Definition elf_check {A} (m : outcome abi_err A) : io A :=
  match m with
  | Ok a => mret a
  | Err e => fail (ErrInvalidELF ++ abi_tags e)
  | Panic => fail (errors_New "panic")
  end.

Definition machine_of (arch : string) : Z := if String.eqb arch ArchAMD64 then EM_X86_64 else EM_AARCH64.

Definition ValidateELFBinary (path targetOS targetArch : string) : io unit :=
  osName ← of_outcome (NormalizeTargetOS targetOS);
  arch ← of_outcome (NormalizeTargetArch targetArch);
  '(f, size) ← openBoundedReaderAt path MaxPayloadSize;
  deferring (ignore (sys_close f))
    (file ← inspect (fun F => Ok (image f F));
     elfFile ← elf_check (readExecutableELFReaderAt file size);
     if negb (byte_eqb (e_Class elfFile) ELFCLASS64) then fail ErrInvalidELF
     else if negb (e_Machine elfFile =? machine_of arch) then fail ErrInvalidELF
     else
       _ ← elf_check (validateExecutableELF elfFile size);
       _ ← elf_check (validateELFPlatformReaderAt ParseBuildInfo file size elfFile osName);
       verifyBoundedReaderAtUnchanged f size MaxPayloadSize).

(** The report of one variant, and the shared account afterwards. *)
Definition inspectVariantABIFile (path : string) (shared : ArtifactMetadataAccounting) :
    io (VariantABIReport * ArtifactMetadataAccounting) :=
  '(f, size) ← openBoundedReaderAt path MaxPayloadSize;
  deferring (ignore (sys_close f))
    (file ← inspect (fun F => Ok (image f F));
     match InspectELFABIReaderAtWithAccounting Type_String Machine_String file size (Some shared) with
     | (Ok rep, acc) =>
         _ ← verifyBoundedReaderAtUnchanged f size MaxPayloadSize;
         mret (rep, default shared acc)
     | (Err e, _) => fail (abi_tags e)
     | (Panic, _) => fail (errors_New "panic")
     end).

Fixpoint inspect_variants (variants : gmap string string) (levels : list string) (shared : ArtifactMetadataAccounting) :
    io (list VariantABIReport) :=
  match levels with
  | [] => mret []
  | lvl :: rest =>
      let path := default ""%string (variants !! lvl) in
      '(rep, shared) ← inspectVariantABIFile path shared;
      reports ← inspect_variants variants rest shared;
      mret (with_level_path rep lvl path :: reports)
  end.

(** The report goes to a callback, which is not modelled. *)
Definition validatePayloadABIs (opts : Options) (levels : list string) : io unit :=
  if o_SkipELFValidation opts then mret tt
  else
    reports ← inspect_variants (o_Variants opts) levels (NewArtifactMetadataAccounting MaxArtifactMetadataBytes);
    match CompareVariantABIs (Some <$> reports) (o_AllowMixedABI opts) with
    | Ok (_, None) => mret tt
    | Ok (_, Some _) => fail ErrABIMismatch
    | Err e => fail (abi_tags e)
    | Panic => fail (errors_New "panic")
    end.

(** ** Snapshots *)

Definition input_name (k : nat) : string := ("input-" ++ Itoa (Z.of_nat k))%string.

(** The copies made so far, by clean path. *)
Definition snapshot (opts : Options) (dir : string) (paths : gmap string string) (path : string) :
    io (string * gmap string string) :=
  let clean := filepath_Clean path in
  match paths !! clean with
  | Some existing => mret (existing, paths)
  | None =>
      let target := filepath_Join [dir; input_name (size paths)] in
      _ ← snapshotInput clean target MaxPayloadSize;
      _ ← (if o_SkipELFValidation opts then mret tt else ValidateELFBinary target (o_TargetOS opts) (o_TargetArch opts));
      mret (target, <[clean := target]> paths)
  end.

Fixpoint snapshot_variants (opts : Options) (dir : string) (l : list (string * string)) (paths variants : gmap string string) :
    io (gmap string string) :=
  match l with
  | [] => mret variants
  | (level, path) :: rest =>
      '(target, paths) ← wrapping (app ErrVariantNotFound) (snapshot opts dir paths path);
      _ ← match o_VariantValidator opts with
          | Some validate => validate level target
          | None => mret tt
          end;
      snapshot_variants opts dir rest paths (<[level := target]> variants)
  end.

Definition with_inputs (opts : Options) (stub : string) (variants : gmap string string) : Options :=
  mkOptions stub (o_OutputPath opts) (o_AppName opts) (o_TargetOS opts) (o_TargetArch opts) variants (o_Profile opts)
    (o_Compression opts) (o_CompressionLevel opts) (o_EnableDict opts) (o_DictProfitable opts) (o_DictSize opts)
    (o_MaxSpoolBytes opts) (o_VariantCompression opts) (o_Permissions opts) (o_FormatVersion opts)
    (o_CreatedUnix opts) (o_SkipELFValidation opts) (o_AllowMixedABI opts) (o_VariantValidator opts).

(** Runs [cleanup] when [m] fails. *)
Definition or_cleanup {A} (cleanup : io unit) (m : io A) : io A :=
  r ← try m;
  match r with
  | inl a => mret a
  | inr e => _ ← ignore cleanup; fail e
  end.

(** The options with the paths of the copies, and the directory to remove;
    [tmpdir] is [os.TempDir()]. *)
Definition snapshotInputs (tmpdir : string) (opts : Options) : io (Options * string) :=
  dir ← os_MkdirTemp tmpdir "microfat-inputs-" "";
  or_cleanup (os_RemoveAll dir)
    ('(stub, paths) ← wrapping (app ErrStubMissing) (snapshot opts dir ∅ (o_StubPath opts));
     variants ← snapshot_variants opts dir (map_range 3 (o_Variants opts)) paths ∅;
     mret (with_inputs opts stub variants, dir)).

(** ** Samples for the dictionary *)

Fixpoint sample_from (fuel : nat) (f fileSize step offset budget : Z) (count : Z) : io (list (list byte)) :=
  if negb ((offset <? fileSize) && (count <? maxSamplesPerFile)) then mret []
  else
    match fuel with
    | O => fail (errors_New "fuel")
    | S fuel =>
        let n := Z.min sampleChunkSize (fileSize - offset) in
        if budget <? n then fail ErrPayloadTooLarge
        else
          chunk ← sys_pread f (Z.to_nat n) offset;
          if Z.of_nat (length chunk) <? n then fail (errors_New "EOF")
          else
            rest ← sample_from fuel f fileSize step (offset + step) (budget - n) (count + 1);
            mret (chunk :: rest)
    end.

Definition sampleInput (path : string) (budget : Z) : io (list (list byte)) :=
  f ← openInput path;
  deferring (ignore (sys_close f))
    (stat ← sys_fstat f;
     if negb (IsRegular (Mode stat)) || (fi_size stat <=? 0) then fail ErrInvalidELF
     else if MaxPayloadSize <? fi_size stat then fail ErrPayloadTooLarge
     else
       sample_from (Z.to_nat maxSamplesPerFile) f (fi_size stat) (Z.max (fi_size stat / maxSamplesPerFile) sampleChunkSize)
         0 budget 0).

Fixpoint sampleVariantPayloads (variantPaths : gmap string string) (levels : list string) (remaining : Z) : io (list (list byte)) :=
  match levels with
  | [] => mret []
  | lvl :: rest =>
      chunks ← sampleInput (default ""%string (variantPaths !! lvl)) remaining;
      others ← sampleVariantPayloads variantPaths rest (remaining - Z.of_nat (sum_list_with length chunks));
      mret (chunks ++ others)
  end.

End input.
