(* ===== verification/PackStage.v ===== *)
(** * Staging and writing payloads ([internal/pack/parallel.go], [profitability.go])

    Variants are compressed one after the other straight into the output, or by
    a pool of workers into files of their own that are appended afterwards.  A
    worker is a small machine: it takes a position from the channel, reads the
    input, makes its staging file, writes the frame piece by piece and stores
    the result; a schedule says which worker takes the next step, so that the
    steps of different workers interleave.  Between two changes of shared state
    a worker only looks, so a step holds at most one change. *)

From S2P Require Import Prelude GoStrings GoPath GoIO Vfs GoOS InputFile Microarch MicroarchSelect Sha256 Format FormatTrailer Codec CgroupSize CgroupTuning PackAssemble PackPlan Cache PackOptions PackInput.
From stdpp Require Import base list strings gmap.
From Stdlib Require Import ZArith Lia Strings.Ascii Strings.Byte.
Import PackErr.

Local Open Scope Z_scope.

(** ** The pool *)

(** [parallelVariantResult] *)
Record stagedVariant := mkStaged { sv_entry : VariantEntry; sv_path : string; sv_err : option gerror }.

Definition not_staged : stagedVariant := mkStaged (mkVariant "" 0 0 0 "" "") "" None.

(** A variant that was read, with the codec chosen for it. *)
Record loaded := mkLoaded { ld_codec : Codec; ld_level : string; ld_data : list byte }.

Inductive phase :=
| Idle
| Taken (pos : nat)
| Loaded (pos : nat) (v : loaded)
| Writing (pos : nat) (v : loaded) (file : Z) (path : string) (left : list (list byte)) (err : option gerror)
| Finished.

Definition finished (ph : phase) : bool := match ph with Finished => true | _ => false end.

(** What the workers share: the channel, whether the context is cancelled, the
    results, and the spool budget. *)
Record pool := mkPool {
  queue : list nat;
  cancelled : bool;
  results : list stagedVariant;
  tracker : option spoolBudgetTracker
}.

Definition with_tracker (p : pool) (t : option spoolBudgetTracker) : pool := mkPool (queue p) (cancelled p) (results p) t.

(** [results[pos] = res; if res.err != nil { cancel() }] *)
Definition store (p : pool) (pos : nat) (res : stagedVariant) : pool :=
  mkPool (queue p) (cancelled p || match sv_err res with Some _ => true | None => false end)
    (<[pos := res]> (results p)) (tracker p).

Definition failed_with (path : string) (e : gerror) : stagedVariant := mkStaged (sv_entry not_staged) path (Some e).

(** Which of the workers that can run takes the [k]-th step, and how many steps
    are taken at most: a run that has not ended by then is left where it is. *)
Record schedule := mkSchedule { sch_pick : nat -> nat; sch_steps : nat }.

Definition packStageTempPrefix : string := ".microfat-pack-var-".

(** What packing asks of its host. *)
Record host := mkHost {
  h_gomaxprocs : Z;
  h_gomemlimit : Z;
  h_limits : Limits;
  h_limitsFailed : bool;
  h_avail : Z * bool;
  h_codec : codecResources
}.

Section stage.
Context `{Kernel} {GU : GoUnicode} {SS : SliceSort} {E : Encoders}.
Context (hst : host) (sch : schedule) (EncoderLevel_String : zstd_level -> string).

Definition compress_variant (c : Codec) (level : string) (data dict : list byte) : list (list byte) * option gerror :=
  compressVariantIntoWriter (h_gomaxprocs hst) (h_codec hst) c level data dict.

(** The next piece through a [spoolBoundedWriter]: the budget afterwards, and
    the error. *)
Definition spool_to_file (file : Z) (t : option spoolBudgetTracker) (piece : list byte) :
    io (option spoolBudgetTracker * option gerror) :=
  match t with
  | None =>
      r ← try (sys_write file (fun old => old ++ piece));
      mret (None, match r with inl _ => None | inr e => Some e end)
  | Some t =>
      if (length piece =? 0)%nat then mret (Some t, None)
      else
        let '(_, t, _, over, _) := spool_Write ([] : list byte) t piece in
        match over with
        | Some _ => mret (Some t, Some ErrSpoolBudgetExceeded)
        | None =>
            r ← try (sys_write file (fun old => old ++ piece));
            mret (Some t, match r with inl _ => None | inr e => Some e end)
        end
  end.

(** [f.Seek(0, io.SeekCurrent)] of a file that was only appended to. *)
Definition file_offset (file : Z) : io Z := inspect (fun F => Ok (Z.of_nat (length (image file F)))).

Section pool.
Context (outDir : string) (plans : list variantWorkPlan) (indices : list nat) (opts : Options) (dictBytes : list byte).

(** Reading a variant, and choosing again when its size is not the one that
    was planned with. *)
Definition load_variant (plan : variantWorkPlan) : io loaded :=
  variantBytes ← wrapping (app ErrVariantNotFound) (readBoundedInput (wp_cleanPath plan) MaxPayloadSize);
  let uncompressedSize := Z.of_nat (length variantBytes) in
  if negb (uncompressedSize =? wp_statSize plan) then
    '(c, level) ← of_outcome (resolveVariantCompression opts (wp_level plan) uncompressedSize);
    mret (mkLoaded c level variantBytes)
  else mret (mkLoaded (wp_codec plan) (wp_resolvedLevel plan) variantBytes).

Definition staged_entry (plan : variantWorkPlan) (v : loaded) (compressedSize : Z) : VariantEntry :=
  mkVariant (wp_normalizedLvl plan) 0 compressedSize (Z.of_nat (length (ld_data v)))
    (EncodeToString (Sum256 (ld_data v))) (codec_Name (ld_codec v)).

Definition plan_at (pos : nat) : option variantWorkPlan := i ← indices !! pos; plans !! i.

(** One step of a worker. *)
Definition worker_step (ph : phase) (p : pool) : io (phase * pool) :=
  match ph with
  | Finished => mret (Finished, p)
  | Idle =>
      match queue p with
      | [] => mret (Finished, p)
      | pos :: rest => mret (Taken pos, mkPool rest (cancelled p) (results p) (tracker p))
      end
  | Taken pos =>
      if cancelled p then mret (Idle, p)
      else
        match plan_at pos with
        | None => mret (Idle, store p pos (failed_with "" (errors_New "panic")))
        | Some plan =>
            r ← try (load_variant plan);
            match r with
            | inl v => mret (Loaded pos v, p)
            | inr e => mret (Idle, store p pos (failed_with "" e))
            end
        end
  | Loaded pos v =>
      r ← try (os_CreateTemp outDir packStageTempPrefix ".tmp");
      match r with
      | inl (file, path) =>
          let '(pieces, err) := compress_variant (ld_codec v) (ld_level v) (ld_data v) dictBytes in
          mret (Writing pos v file path pieces err, p)
      | inr e => mret (Idle, store p pos (failed_with "" e))
      end
  | Writing pos v file path (piece :: rest) err =>
      '(t, werr) ← spool_to_file file (tracker p) piece;
      match werr with
      | None => mret (Writing pos v file path rest err, with_tracker p t)
      | Some e =>
          _ ← ignore (sys_close file);
          mret (Idle, store (with_tracker p t) pos (failed_with path e))
      end
  | Writing pos v file path [] (Some e) =>
      _ ← ignore (sys_close file);
      mret (Idle, store p pos (failed_with path e))
  | Writing pos v file path [] None =>
      compressedSize ← try (file_offset file);
      closed ← try (sys_close file);
      mret (Idle, store p pos
        match compressedSize, closed, plan_at pos with
        | inr e, _, _ => failed_with path e
        | _, inr e, _ => failed_with path e
        | inl n, inl _, Some plan => mkStaged (staged_entry plan v n) path None
        | _, _, None => failed_with path (errors_New "panic")
        end)
  end.

(** Which workers can run. *)
Definition can_run (ws : list phase) : list nat :=
  List.filter (fun i => match ws !! i with Some ph => negb (finished ph) | None => false end) (seq 0 (length ws)).

Definition stopped {A} : io A := fun w => (Dead, w).

Fixpoint run_pool (fuel k : nat) (ws : list phase) (p : pool) : io pool :=
  match can_run ws with
  | [] => mret p
  | i0 :: rest =>
      match fuel with
      | O => stopped
      | S fuel =>
          let i := nth (sch_pick sch k mod length (i0 :: rest)) (i0 :: rest) i0 in
          '(ph, p) ← worker_step (default Finished (ws !! i)) p;
          run_pool fuel (S k) (<[i := ph]> ws) p
      end
  end.

(** The results of all positions, when every worker is done. *)
Definition stage_positions (workers : Z) (t : option spoolBudgetTracker) : io pool :=
  let n := length indices in
  run_pool (sch_steps sch) 0 (replicate (Z.to_nat workers) Idle)
    (mkPool (seq 0 n) false (replicate n not_staged) t).

End pool.

Fixpoint first_error_of (rs : list stagedVariant) : option gerror :=
  match rs with
  | [] => None
  | r :: rest => match sv_err r with Some e => Some e | None => first_error_of rest end
  end.

(** The staged files that are left are removed. *)
Definition remove_staged (rs : list stagedVariant) : io unit :=
  each (fun r => if String.eqb (sv_path r) "" then mret tt else ignore (os_Remove (sv_path r))) rs.

Definition appendStagedFrame (dst : Z) (stagedPath : string) (expectedBytes : Z) : io Z :=
  f ← inputfile_Open (filepath_Clean stagedPath);
  deferring (ignore (sys_close f))
    (data ← read_limit 32768 (fun piece => sys_write dst (fun old => old ++ piece)) f (i64_add expectedBytes 1);
     let copied := Z.of_nat (length data) in
     if negb (copied =? expectedBytes) then fail ErrSizeMismatch else mret copied).

(** The staged frames one after the other; each file is removed once it is
    copied, all that are left when a copy fails. *)
Fixpoint append_staged (tmpFile : Z) (rs : list stagedVariant) (offset : Z) : io (list VariantEntry * Z) :=
  match rs with
  | [] => mret ([], offset)
  | r :: rest =>
      copied ← or_cleanup (remove_staged (r :: rest)) (appendStagedFrame tmpFile (sv_path r) (CompressedSize (sv_entry r)));
      _ ← ignore (os_Remove (sv_path r));
      '(entries, finish) ← append_staged tmpFile rest (i64_add offset copied);
      mret (with_offset (sv_entry r) offset :: entries, finish)
  end.

Definition writeVariantPayloadsParallel (tmpFile : Z) (outDir : string) (plans : list variantWorkPlan) (opts : Options)
    (currentOffset : Z) (dictBytes : list byte) (workers : Z) : io (list VariantEntry * Z) :=
  p ← stage_positions outDir plans (seq 0 (length plans)) opts dictBytes workers None;
  match first_error_of (results p) with
  | Some e => _ ← remove_staged (results p); fail e
  | None => append_staged tmpFile (results p) currentOffset
  end.

(** ** One variant after the other *)

Definition writeVariantPayload (tmpFile : Z) (lvl path : string) (opts : Options) (currentOffset : Z) (dict : list byte) :
    io (VariantEntry * Z) :=
  variantBytes ← wrapping (app ErrVariantNotFound) (readBoundedInput (filepath_Clean path) MaxPayloadSize);
  let uncompressedSize := Z.of_nat (length variantBytes) in
  '(c, resolvedLevel) ← of_outcome (resolveVariantCompression opts lvl uncompressedSize);
  let '(pieces, err) := compress_variant c resolvedLevel variantBytes dict in
  _ ← each (fun piece => sys_write tmpFile (fun old => old ++ piece)) pieces;
  _ ← match err with Some e => fail e | None => mret tt end;
  newOffset ← file_offset tmpFile;
  mret (mkVariant (NormalizeVariant lvl) currentOffset (i64_sub newOffset currentOffset) uncompressedSize
          (EncodeToString (Sum256 variantBytes)) (codec_Name c), newOffset).

Fixpoint write_variants (tmpFile : Z) (plans : list variantWorkPlan) (opts : Options) (offset : Z) (dict : list byte) :
    io (list VariantEntry * Z) :=
  match plans with
  | [] => mret ([], offset)
  | plan :: rest =>
      '(e, next) ← writeVariantPayload tmpFile (wp_level plan) (wp_cleanPath plan) opts offset dict;
      '(es, finish) ← write_variants tmpFile rest opts next dict;
      mret (e :: es, finish)
  end.

Fixpoint prepareVariantWorkPlans (levels : list string) (opts : Options) : io (list variantWorkPlan) :=
  match levels with
  | [] => mret []
  | lvl :: rest =>
      let cleanPath := filepath_Clean (default ""%string (o_Variants opts !! lvl)) in
      stat ← wrapping (app ErrVariantNotFound) (os_Stat cleanPath);
      '(c, resolvedLevel) ← of_outcome (resolveVariantCompression opts lvl (fi_size stat));
      plans ← prepareVariantWorkPlans rest opts;
      mret (mkWork lvl (NormalizeVariant lvl) cleanPath (fi_size stat) c resolvedLevel
              (estimateVariantWorkerMemoryBytes EncoderLevel_String (fi_size stat) (codec_Name c) resolvedLevel) :: plans)
  end.

Definition worker_count (plans : list variantWorkPlan) : io Z :=
  match resolvePackWorkerCount plans (h_gomaxprocs hst) (h_limits hst) (h_limitsFailed hst) (h_gomemlimit hst) (h_avail hst) with
  | Ok n => mret n
  | _ => fail (errors_New "panic")
  end.

Definition writeAllVariantPayloads (tmpFile : Z) (outDir : string) (levels : list string) (opts : Options) (currentOffset : Z)
    (dictBytes : list byte) : io (list VariantEntry * Z) :=
  plans ← prepareVariantWorkPlans levels opts;
  workers ← worker_count plans;
  if workers <? packMinParallelVariants then write_variants tmpFile plans opts currentOffset dictBytes
  else writeVariantPayloadsParallel tmpFile outDir plans opts currentOffset dictBytes workers.

End stage.
