(* ===== verification/PackStop.v ===== *)
(** * Staging ends

    The workers stop under every schedule: each step takes a position from the
    queue, or brings one worker nearer to the end of what it holds.  A run that
    no kill ends therefore has a result after some number of steps, and more
    steps change nothing. *)

From S2P Require Import Prelude GoStrings GoPath GoIO Vfs GoOS VfsStage InputFile Microarch MicroarchSelect Codec PackAssemble PackPlan PackOptions PackInput PackStage.
From stdpp Require Import base list strings gmap.
From Stdlib Require Import ZArith Lia Strings.Ascii Strings.Byte.

Local Open Scope Z_scope.

(** ** Code that does not die *)

(** It returns something that satisfies [phi], or an error. *)
Definition reaches {A} (m : io A) (phi : A -> Prop) : Prop := forall w,
  match (m w).1 with Done a => phi a | Failed _ => True | Dead => False end.

Definition alive {A} (m : io A) : Prop := reaches m (fun _ => True).

Section reaches.
Context {A B : Type}.

Lemma reaches_ret (a : A) (phi : A -> Prop) : phi a -> reaches (mret a) phi.
Proof. by intros Ha w. Qed.

Lemma reaches_fail e (phi : A -> Prop) : reaches (fail e) phi.
Proof. by intros w. Qed.

Lemma reaches_bind (m : io A) (k : A -> io B) phi psi : reaches m phi -> (forall a, phi a -> reaches (k a) psi) -> reaches (m ≫= k) psi.
Proof. intros Hm Hk w. specialize (Hm w). unfold mbind, io_bind. destruct (m w) as [[a|e|] w']; [by apply Hk|done|done]. Qed.

Lemma reaches_after (m : io A) (k : A -> io B) psi : alive m -> (forall a, reaches (k a) psi) -> reaches (m ≫= k) psi.
Proof. intros Hm Hk. eapply reaches_bind; [exact Hm|auto]. Qed.

Lemma alive_wrapping f (m : io A) : alive m -> alive (wrapping f m).
Proof. intros Hm w. specialize (Hm w). unfold wrapping. by destruct (m w) as [[a|e|] w']. Qed.

Lemma alive_try (m : io A) : alive m -> alive (try m).
Proof. intros Hm w. specialize (Hm w). unfold try. by destruct (m w) as [[a|e|] w']. Qed.

Lemma alive_ignore m : alive m -> alive (ignore m).
Proof. intros Hm w. specialize (Hm w). unfold ignore. by destruct (m w) as [[a|e|] w']. Qed.

Lemma alive_deferring c (m : io A) : alive c -> alive m -> alive (deferring c m).
Proof.
  intros Hc Hm w. specialize (Hm w). unfold deferring. destruct (m w) as [[a|e|] w']; [..|done]; specialize (Hc w'); by destruct (c w') as [[]].
Qed.

End reaches.

Lemma alive_ret {A} (a : A) : alive (mret a).
Proof. by apply reaches_ret. Qed.

Lemma alive_fail {A} e : alive (A := A) (fail e).
Proof. apply reaches_fail. Qed.

Lemma alive_bind {A B} (m : io A) (k : A -> io B) : alive m -> (forall a, alive (k a)) -> alive (m ≫= k).
Proof. apply reaches_after. Qed.

(** The base cases of the calls, and the structure of code that only binds. *)
Create HintDb alive.
#[export] Hint Resolve alive_ret alive_fail alive_try alive_ignore alive_wrapping : alive.

Ltac living := repeat first [solve [auto with alive nocore] | progress intros | apply alive_bind | apply alive_deferring
  | apply alive_try | apply alive_ignore | apply alive_wrapping | case_match].

Section stop.
Context `{Kernel} {GU : GoUnicode} {SS : SliceSort} {E : Encoders} (Hlive : forall n, k_fault n <> Dies).

Lemma alive_syscall {A} (f : nat -> fs -> outcome errno (A * fs)) : alive (syscall f).
Proof using Hlive.
  intros w. unfold syscall. specialize (Hlive (w_clock w)). destruct (k_fault _); [|done|done]. by destruct (f _ _) as [[a F]|e|].
Qed.

Lemma alive_inspect {A} (f : fs -> outcome errno A) : alive (inspect f).
Proof using Hlive. apply alive_syscall. Qed.

Lemma alive_close f : alive (sys_close f).
Proof using Hlive. apply alive_inspect. Qed.

Lemma alive_fstat f : alive (sys_fstat f).
Proof using Hlive. apply alive_inspect. Qed.

Lemma alive_pread f n off : alive (sys_pread f n off).
Proof using Hlive. apply alive_inspect. Qed.

Lemma alive_open b nofollow p : alive (sys_open b nofollow p).
Proof using Hlive. apply alive_inspect. Qed.

Lemma alive_create b p perm : alive (sys_create_excl b p perm).
Proof using Hlive. apply alive_syscall. Qed.

Lemma alive_write f g : alive (sys_write f g).
Proof using Hlive. apply alive_syscall. Qed.

Lemma alive_of_outcome {A} (m : outcome gerror A) : alive (of_outcome m).
Proof using Type. by destruct m. Qed.

Local Hint Resolve alive_close alive_fstat alive_pread alive_open alive_create alive_write alive_of_outcome : alive.

Lemma alive_read_pieces fuel chunk sink f off remaining acc :
  (forall piece, alive (sink piece)) -> alive (read_pieces fuel chunk sink f off remaining acc).
Proof using Hlive.
  intros Hs. revert off remaining acc. induction fuel as [|fuel IH]; intros off remaining acc; cbn [read_pieces]; (destruct (remaining <=? 0); [apply alive_ret|]).
  - apply alive_fail.
  - apply alive_bind; [apply alive_pread|]. intros [|b piece]; [apply alive_ret|]. apply alive_bind; [apply Hs|]. intros []. apply IH.
Qed.

Lemma alive_openBounded path limit : alive (openBoundedReaderAt path limit).
Proof using Hlive. unfold openBoundedReaderAt, openInput, inputfile_Open. living. Qed.

Local Hint Resolve alive_openBounded : alive.

Lemma alive_readBounded path limit : alive (readBoundedInput path limit).
Proof using Hlive.
  unfold readBoundedInput, readBoundedFromFile, read_limit. living. apply alive_read_pieces. intros piece. apply alive_ret.
Qed.

Lemma alive_CreateTemp dir prefix suffix : alive (os_CreateTemp dir prefix suffix).
Proof using Hlive.
  unfold os_CreateTemp. generalize (Z.to_nat 9999) as tries. induction tries as [|tries IH]; cbn [create_temp];
    (apply alive_bind; [by intros w|]); intros r; (apply alive_bind; [by apply alive_try, alive_create|]); intros [i|e];
    try apply alive_ret; [apply alive_fail|]. destruct (is_exist e); [apply IH|apply alive_fail].
Qed.

(** ** One step *)

Context (hst : host) (outDir : string) (plans : list variantWorkPlan) (indices : list nat) (opts : Options) (dict : list byte).

Local Abbreviation step := (worker_step hst outDir plans indices opts dict).

Lemma alive_load plan : alive (load_variant opts plan).
Proof using Hlive.
  unfold load_variant. apply alive_bind; [apply alive_wrapping, alive_readBounded|]. intros data. cbv zeta. destruct (negb _); [|apply alive_ret].
  apply alive_bind; [apply alive_of_outcome|]. intros [c level]. apply alive_ret.
Qed.

Lemma alive_spool f t piece : alive (spool_to_file f t piece).
Proof using Hlive.
  assert (forall T (k : unit + gerror -> io T), (forall r, alive (k r)) -> alive (r ← try (sys_write f (fun old => old ++ piece)); k r)) as Hw.
  { intros T k Hk. apply alive_bind; [apply alive_try, alive_write|done]. }
  unfold spool_to_file. destruct t as [t|]; [|apply Hw; intros; apply alive_ret]. destruct (_ =? _)%nat; [apply alive_ret|].
  destruct (spool_Write _ _ _) as [[[[? ?] ?] [|]] ?]; [apply alive_ret|]. apply Hw. intros. apply alive_ret.
Qed.

(** What a worker has before it, the most significant first. *)
Definition taken (ph : phase) : nat := match ph with Taken _ => 1 | _ => 0 end.
Definition loading (ph : phase) : nat := match ph with Loaded _ _ => 1 | _ => 0 end.
Definition writing (ph : phase) : nat := match ph with Writing _ _ _ _ pieces _ => S (length pieces) | _ => 0 end.
Definition idle (ph : phase) : nat := match ph with Idle => 1 | _ => 0 end.

(** Every step gets nearer to the end. *)
Definition nearer (ph : phase) (p : pool) (r : phase * pool) : Prop :=
  (length (queue r.2) < length (queue p))%nat \/
  length (queue r.2) = length (queue p) /\
    ((taken r.1 < taken ph)%nat \/ taken r.1 = taken ph /\
      ((loading r.1 < loading ph)%nat \/ loading r.1 = loading ph /\
        ((writing r.1 < writing ph)%nat \/ writing r.1 = writing ph /\ (idle r.1 < idle ph)%nat))).

Lemma step_nearer ph p : finished ph = false -> reaches (step ph p) (nearer ph p).
Proof using Hlive.
  unfold nearer. destruct ph as [|pos|pos v|pos v f path [|piece rest] [e|]|]; cbn [worker_step finished taken loading writing idle length]; intros Hf; try discriminate.
  - destruct (queue p) as [|pos rest] eqn:Hq; apply reaches_ret; cbn [fst snd queue taken loading writing idle]; rewrite ?Hq; cbn [length]; lia.
  - destruct (cancelled p); [apply reaches_ret; cbn; lia|]. destruct (plan_at _ _ _) as [plan|]; [|apply reaches_ret; cbn; lia].
    apply reaches_after; [apply alive_try, alive_load|]. intros [v|e]; apply reaches_ret; cbn; lia.
  - apply reaches_after; [apply alive_try, alive_CreateTemp|]. intros [[file path]|e]; [|apply reaches_ret; cbn; lia].
    destruct (compress_variant _ _ _ _ _) as [pieces err]. apply reaches_ret; cbn; lia.
  - apply reaches_after; [apply alive_ignore, alive_close|]. intros []. apply reaches_ret; cbn; lia.
  - apply reaches_after; [apply alive_try, alive_inspect|]. intros n. apply reaches_after; [apply alive_try, alive_close|]. intros c. apply reaches_ret; cbn; lia.
  - apply reaches_after; [apply alive_spool|]. intros [t [e1|]]; [|apply reaches_ret; cbn; lia].
    apply reaches_after; [apply alive_ignore, alive_close|]. intros []. apply reaches_ret; cbn; lia.
  - apply reaches_after; [apply alive_spool|]. intros [t [e1|]]; [|apply reaches_ret; cbn; lia].
    apply reaches_after; [apply alive_ignore, alive_close|]. intros []. apply reaches_ret; cbn; lia.
Qed.

(** ** All of them *)

Definition total (f : phase -> nat) (ws : list phase) : nat := sum_list_with f ws.

Lemma total_insert f ws i ph ph' : ws !! i = Some ph -> (total f (<[i := ph']> ws) + f ph = total f ws + f ph')%nat.
Proof using Type.
  unfold total. revert i. induction ws as [|x ws IH]; intros [|i] Hi; try discriminate; simpl in *.
  - injection Hi as ->. lia.
  - specialize (IH i Hi). lia.
Qed.

Context (pick : nat -> nat).

Local Abbreviation running n := (run_pool hst (mkSchedule pick 0) outDir plans indices opts dict n).

Lemma picked k i0 rest ws : can_run ws = i0 :: rest ->
  exists ph, ws !! nth (pick k mod length (i0 :: rest)) (i0 :: rest) i0 = Some ph /\ finished ph = false.
Proof using Type.
  intros Hc. assert (nth (pick k mod length (i0 :: rest)) (i0 :: rest) i0 ∈ can_run ws) as Hin.
  { rewrite Hc, list_elem_of_In. apply nth_In, Nat.mod_upper_bound. done. }
  unfold can_run in Hin. rewrite list_elem_of_In, filter_In in Hin. destruct Hin as [_ Hf].
  destruct (ws !! _) as [ph|]; [|done]. exists ph. split; [done|]. by apply negb_true_iff.
Qed.

(** Enough steps give a result, and more give the same. *)
Definition ends (k : nat) (ws : list phase) (p : pool) (w : world) : Prop :=
  exists N, (running N k ws p w).1 <> Dead /\ forall n, (N <= n)%nat -> running n k ws p w = running N k ws p w.

Lemma ends_now k ws p w : can_run ws = [] -> ends k ws p w.
Proof using Type.
  intros Hc. assert (forall n, running n k ws p w = (Done p, w)) as Hn by (intros n; destruct n; cbn [run_pool]; by rewrite Hc).
  exists 0%nat. split; [by rewrite Hn|]. intros n _. by rewrite !Hn.
Qed.

Lemma ends_step k ws p w :
  (forall i ph ph' p' w', ws !! i = Some ph -> nearer ph p (ph', p') -> ends (S k) (<[i := ph']> ws) p' w') -> ends k ws p w.
Proof using Hlive.
  intros Hnext. destruct (can_run ws) as [|i0 rest] eqn:Hc; [by apply ends_now|].
  destruct (picked k i0 rest ws Hc) as (ph & Hph & Hf). set (i := nth _ _ _) in *.
  assert (forall n, running (S n) k ws p w = match step ph p w with
    | (Done (ph', p'), w') => running n (S k) (<[i := ph']> ws) p' w' | (Failed e, w') => (Failed e, w') | (Dead, w') => (Dead, w') end) as Hn.
  { intros n. cbn [run_pool]. rewrite Hc. cbn [sch_pick]. fold i. rewrite Hph. cbn [default]. unfold mbind at 1, io_bind.
    change (step (id ph) p w) with (step ph p w). by destruct (step ph p w) as [[[? ?]|e|] ?]. }
  pose proof (step_nearer ph p Hf w) as Hs. destruct (step ph p w) as [[[ph' p']|e|] w'] eqn:Hr; cbn [fst] in Hs; [|..|done].
  - destruct (Hnext i ph ph' p' w' Hph Hs) as (N & Hd & HN). exists (S N). rewrite Hn. split; [done|].
    intros [|n] Hle; [lia|]. rewrite Hn. apply HN. lia.
  - exists 1%nat. rewrite Hn. split; [done|]. intros [|n] Hle; [lia|]. by rewrite Hn.
Qed.

Lemma run_pool_ends q : forall t l r d k ws p w, length (queue p) = q -> total taken ws = t -> total loading ws = l ->
  total writing ws = r -> total idle ws = d -> ends k ws p w.
Proof using Hlive.
  induction q as [q IHq] using lt_wf_ind. intros t. induction t as [t IHt] using lt_wf_ind. intros l. induction l as [l IHl] using lt_wf_ind.
  intros r. induction r as [r IHr] using lt_wf_ind. intros d. induction d as [d IHd] using lt_wf_ind.
  intros k ws p w Hq Ht Hl Hr Hd. apply ends_step. intros i ph ph' p' w' Hi Hnear. unfold nearer in Hnear. cbn [fst snd] in Hnear.
  pose proof (total_insert taken ws i ph ph' Hi). pose proof (total_insert loading ws i ph ph' Hi).
  pose proof (total_insert writing ws i ph ph' Hi). pose proof (total_insert idle ws i ph ph' Hi).
  destruct Hnear as [Hlt|(Hq' & [Hlt|(Ht' & [Hlt|(Hl' & [Hlt|(Hr' & Hlt)])])])].
  - by eapply (IHq (length (queue p'))); [lia|..].
  - by eapply (IHt (total taken (<[i:=ph']> ws))); [lia|lia|..].
  - by eapply (IHl (total loading (<[i:=ph']> ws))); [lia|lia|lia|..].
  - by eapply (IHr (total writing (<[i:=ph']> ws))); [lia|lia|lia|lia|..].
  - by eapply (IHd (total idle (<[i:=ph']> ws))); [lia|lia|lia|lia|lia|..].
Qed.

(** The workers finish.  Unless the process is killed, staging under any schedule has a result
    after some number of steps, and that result whatever more it is given. *)
Lemma staging_ends (workers : Z) (t : option spoolBudgetTracker) (w : world) :
  exists N r, r.1 <> Dead /\ forall steps, (N <= steps)%nat ->
    stage_positions hst (mkSchedule pick steps) outDir plans indices opts dict workers t w = r.
Proof using Hlive.
  unfold stage_positions. cbn zeta. destruct (run_pool_ends _ _ _ _ _ 0 (replicate (Z.to_nat workers) Idle)
    (mkPool (seq 0 (length indices)) false (replicate (length indices) not_staged) t) w eq_refl eq_refl eq_refl eq_refl eq_refl) as (N & Hd & HN).
  exists N, (running N 0 (replicate (Z.to_nat workers) Idle)
    (mkPool (seq 0 (length indices)) false (replicate (length indices) not_staged) t) w). split; [exact Hd|]. intros steps Hle. exact (HN steps Hle).
Qed.

End stop.
