(* ===== verification/Pack.v ===== *)
(** * Packing a fat binary ([internal/pack/pack.go], [profitability.go])

    The main line: options are checked, inputs are copied, the dictionary is
    trained, and the stub, the dictionary, the payloads, the index and the
    trailer are written to a temporary file beside the output, which takes the
    output's name at the end. *)

From S2P Require Import Prelude GoStrings GoPath GoIO Vfs GoOS InputFile Microarch MicroarchSelect Sha256 Format FormatIndex FormatTrailer Codec PackAssemble PackPlan Cache PackOptions PackInput PackStage.
From stdpp Require Import base list strings gmap.
From Stdlib Require Import ZArith Lia Strings.Ascii Strings.Byte.
Import PackErr.

Local Open Scope Z_scope.

Definition minVariantsForDict : nat := 2.
Definition packTempPrefix : string := ".microfat-pack-".

Definition pack_tags (e : pack_err) : gerror :=
  match e with
  | ErrFormat _ => errors_New "format"
  | ErrFrameSizeMismatch => ErrSizeMismatch
  | PackAssemble.ErrSpoolBudgetExceeded => ErrSpoolBudgetExceeded
  end.

Definition with_skip (opts : Options) (skip : bool) : Options :=
  mkOptions (o_StubPath opts) (o_OutputPath opts) (o_AppName opts) (o_TargetOS opts) (o_TargetArch opts) (o_Variants opts)
    (o_Profile opts) (o_Compression opts) (o_CompressionLevel opts) (o_EnableDict opts) (o_DictProfitable opts)
    (o_DictSize opts) (o_MaxSpoolBytes opts) (o_VariantCompression opts) (o_Permissions opts) (o_FormatVersion opts)
    (o_CreatedUnix opts) skip (o_AllowMixedABI opts) (o_VariantValidator opts).

Section pack.
Context `{Kernel} {GU : GoUnicode} {SS : SliceSort} {MR : MapRange} {E : Encoders} {DB : DictBuilder}.
Context (Type_String Machine_String : Z -> string) (ParseBuildInfo : string -> option (list (string * string))).
Context (hst : host) (sch : schedule) (EncoderLevel_String : zstd_level -> string) (tmpdir : string) (now : Z).

(** ** The dictionary *)

Fixpoint hasDictionaryCapableVariant (opts : Options) (levels : list string) : io bool :=
  match levels with
  | [] => mret false
  | lvl :: rest =>
      stat ← os_Stat (default ""%string (o_Variants opts !! lvl));
      '(c, _) ← of_outcome (resolveVariantCompression opts lvl (fi_size stat));
      if is_dict_codec c then mret true else hasDictionaryCapableVariant opts rest
  end.

(** An error where the dictionary was asked for, and none otherwise. *)
Definition no_dictionary (opts : Options) (e : gerror) : io (list byte * string) :=
  if o_EnableDict opts then fail e else mret ([], ""%string).

(** The dictionary and its digest; empty when there is none. *)
Definition prepareSharedDictionary (opts : Options) (levels : list string) : io (list byte * string) :=
  let autoCandidate := o_DictProfitable opts || EqualFold (TrimSpace (o_Profile opts)) ProfileSize in
  enableDict ←
    (if negb (o_EnableDict opts) && autoCandidate && (minVariantsForDict <=? length levels)%nat
     then hasDictionaryCapableVariant opts levels else mret (o_EnableDict opts));
  if negb enableDict then mret ([], ""%string)
  else if (length levels <? minVariantsForDict)%nat then fail (errors_New "training shared dictionary")
  else
    sampled ← try (sampleVariantPayloads (o_Variants opts) levels maxSampleBytes);
    match sampled with
    | inr e => no_dictionary opts e
    | inl samples =>
        if (length samples =? 0)%nat then no_dictionary opts (errors_New "training shared dictionary")
        else
          match TrainDictionary samples (if o_DictSize opts <=? 0 then DefaultDictSize else o_DictSize opts) (o_CompressionLevel opts) with
          | Ok dict =>
              if (length dict =? 0)%nat then no_dictionary opts (errors_New "training shared dictionary")
              else mret (dict, EncodeToString (Sum256 dict))
          | Err e => no_dictionary opts (pack_codec_tags e)
          | Panic => fail (errors_New "panic")
          end
    end.

(** ** Writing *)

(** [tmpFile.Write(p)] *)
Definition append_bytes (file : Z) (p : list byte) : io unit := sys_write file (fun old => old ++ p).

Definition writeStubBinaryFromPath (tmpFile : Z) (stubPath : string) : io Z :=
  '(f, size) ← wrapping (app ErrStubMissing) (openBoundedReaderAt stubPath MaxPayloadSize);
  deferring (ignore (sys_close f))
    (_ ← copyBoundedInput tmpFile f MaxPayloadSize size;
     mret size).

(** [format.WriteIndexAndTrailerWithVersion] on an open file: its bytes in the
    calls that write them. *)
Definition write_index (tmpFile : Z) (idx : Index) (offset version : Z) : io Index :=
  match WriteIndexAndTrailerWithVersion (mkPieces []) idx offset version with
  | (calls, idx, Ok _) => _ ← each (append_bytes tmpFile) (piece_list calls); mret idx
  | (_, _, Err e) => fail (errors_New "writing index and trailer")
  | (_, _, Panic) => fail (errors_New "panic")
  end.

Definition finalizeOutputFile (tmpFile : Z) (tmpPath outputPath : string) (perms : Z) : io unit :=
  _ ← sys_fsync tmpFile;
  _ ← File_Chmod tmpFile perms;
  _ ← sys_close tmpFile;
  os_Rename tmpPath outputPath.

(** ** With and without the dictionary ([profitability.go]) *)

Definition dict_indices (plans : list variantWorkPlan) : list nat :=
  List.filter (fun i => match plans !! i with Some p => is_dict_codec (wp_codec p) | None => false end) (seq 0 (length plans)).

(** The results with those of the dictionary in their places. *)
Definition merge_results (noDict : list stagedVariant) (indices : list nat) (subset : list stagedVariant) : list stagedVariant :=
  foldl (fun rs '(i, r) => <[i := r]> rs) noDict (zip indices subset).

Definition entry_only (r : stagedVariant) : parallelVariantResult := mkResult (sv_entry r) [].

Definition of_pack {A} (m : outcome pack_err A) : io A :=
  match m with
  | Ok a => mret a
  | Err e => fail (pack_tags e)
  | Panic => fail (errors_New "panic")
  end.

Definition stage_or_fail (m : io pool) (cleanup : list stagedVariant -> io unit) : io pool :=
  p ← m;
  match first_error_of (results p) with
  | Some e => _ ← cleanup (results p); fail e
  | None => mret p
  end.

Fixpoint append_chosen (tmpFile : Z) (rs : list stagedVariant) (writeOffset : Z) : io Z :=
  match rs with
  | [] => mret writeOffset
  | r :: rest =>
      copied ← appendStagedFrame tmpFile (sv_path r) (CompressedSize (sv_entry r));
      append_chosen tmpFile rest (i64_add writeOffset copied)
  end.

Definition write_chosen (tmpFile : Z) (chosen : Index * Z * Z) (rs : list stagedVariant) (writeOffset version : Z) : io Index :=
  let '(chosenIdx, chosenEnd, _) := chosen in
  writeOffset ← append_chosen tmpFile rs writeOffset;
  if negb (writeOffset =? chosenEnd) then fail ErrSizeMismatch
  else write_index tmpFile chosenIdx writeOffset version.

(** Both candidates are measured; the smaller one is written. *)
Definition choose_and_write (tmpFile : Z) (opts : Options) (stubOffset : Z) (baseIdx : Index) (dictBytes : list byte)
    (dictSHAHex : string) (noDictResults withDictResults : list stagedVariant) : io Index :=
  noDict ← of_pack (measureCandidateCompleteBytes baseIdx stubOffset [] "" (entry_only <$> noDictResults) (o_FormatVersion opts));
  withDict ← of_pack (measureCandidateCompleteBytes baseIdx stubOffset dictBytes dictSHAHex (entry_only <$> withDictResults) (o_FormatVersion opts));
  if withDict.2 <? noDict.2 then
    _ ← append_bytes tmpFile dictBytes;
    write_chosen tmpFile withDict withDictResults (i64_add stubOffset (Z.of_nat (length dictBytes))) (o_FormatVersion opts)
  else write_chosen tmpFile noDict noDictResults stubOffset (o_FormatVersion opts).

Definition assembleProfitable (tmpFile : Z) (outDir : string) (levels : list string) (opts : Options) (stubOffset : Z)
    (baseIdx : Index) (dictBytes : list byte) (dictSHAHex : string) : io Index :=
  plans ← prepareVariantWorkPlans EncoderLevel_String levels opts;
  workers ← worker_count hst plans;
  let workers := Z.max workers 1 in
  let n := Z.of_nat (length plans) in
  let dictIndices := dict_indices plans in
  noDict ← stage_or_fail
    (stage_positions hst sch outDir plans (seq 0 (length plans)) opts [] (Z.max (Z.min workers n) 1)
       (Some (newSpoolBudgetTracker (o_MaxSpoolBytes opts)))) remove_staged;
  withDict ←
    (if (length dictIndices =? 0)%nat then mret (mkPool [] false [] (tracker noDict))
     else
       stage_or_fail
         (stage_positions hst sch outDir plans dictIndices opts dictBytes
            (Z.max (Z.min (Z.min workers (Z.of_nat (length dictIndices))) (Z.of_nat (length dictIndices))) 1) (tracker noDict))
         (fun rs => remove_staged (results noDict ++ rs)));
  deferring (remove_staged (results noDict ++ results withDict))
    (choose_and_write tmpFile opts stubOffset baseIdx dictBytes dictSHAHex (results noDict)
       (merge_results (results noDict) dictIndices (results withDict))).

(** ** The main line *)

(** The payloads and the tail without the choice. *)
Definition assemble_plain (tmpFile : Z) (outDir : string) (levels : list string) (opts : Options) (stubOffset : Z)
    (baseIdx : Index) (dictBytes : list byte) (dictSHAHex : string) : io Index :=
  let hasDict := (0 <? length dictBytes)%nat in
  let dictSize := Z.of_nat (length dictBytes) in
  _ ← (if hasDict then append_bytes tmpFile dictBytes else mret tt);
  let start := if hasDict then i64_add stubOffset dictSize else stubOffset in
  '(entries, finish) ← writeAllVariantPayloads hst sch EncoderLevel_String tmpFile outDir levels opts start dictBytes;
  let idx :=
    mkIndex (Version baseIdx) (AppName baseIdx) (TargetOS baseIdx) (TargetArch baseIdx) (CreatedUnix baseIdx)
      (if hasDict then stubOffset else 0) (if hasDict then dictSize else 0) (if hasDict then dictSHAHex else ""%string)
      (if hasDict then DefaultDictionaryID else 0) entries in
  write_index tmpFile idx finish (o_FormatVersion opts).

(** Everything that is written under the temporary name, and the renaming. *)
Definition write_output (tmpFile : Z) (tmpPath outDir : string) (levels : list string) (opts : Options) (createdUnix : Z)
    (dictBytes : list byte) (dictSHAHex : string) : io Index :=
  stubOffset ← writeStubBinaryFromPath tmpFile (o_StubPath opts);
  let baseIdx := mkIndex (o_FormatVersion opts) (o_AppName opts) (o_TargetOS opts) (o_TargetArch opts) createdUnix 0 0 "" 0 [] in
  let assemble := if o_DictProfitable opts && (0 <? length dictBytes)%nat then assembleProfitable else assemble_plain in
  idx ← assemble tmpFile outDir levels opts stubOffset baseIdx dictBytes dictSHAHex;
  _ ← finalizeOutputFile tmpFile tmpPath (o_OutputPath opts) (o_Permissions opts);
  mret idx.

(** From the copies of the inputs on. *)
Definition pack_snapshots (opts : Options) (createdUnix : Z) : io Index :=
  let levels := sortVariantLevels (o_Variants opts) (o_TargetArch opts) in
  _ ← validatePayloadABIs Type_String Machine_String opts levels;
  '(dictBytes, dictSHAHex) ← prepareSharedDictionary opts levels;
  let outDir := filepath_Dir (o_OutputPath opts) in
  '(tmpFile, tmpPath) ← os_CreateTemp outDir packTempPrefix ".tmp";
  deferring (_ ← ignore (sys_close tmpFile); ignore (os_Remove tmpPath))
    (write_output tmpFile tmpPath outDir levels opts createdUnix dictBytes dictSHAHex).

Definition Pack (opts : Options) : io Index :=
  let createdUnix := default now (o_CreatedUnix opts) in
  checked ← validateOptions (ValidateELFBinary ParseBuildInfo) (with_skip opts true);
  '(opts, dir) ← snapshotInputs ParseBuildInfo tmpdir (with_skip checked (o_SkipELFValidation opts));
  deferring (ignore (os_RemoveAll dir)) (pack_snapshots opts createdUnix).

End pack.
