(* ===== verification/PackHeld.v ===== *)
(** * Paths that packing makes, and what packing leaves as it was

    Cleaning a path that has nothing to clean leaves its components; the name of
    a temporary file in a clean directory is such a path, and so is the name of
    a copy in the directory of copies.

    [held lax own x F F'] bounds what packing has changed between two states:
    everything that was there is as it was, but for the attributes of the
    inodes in [own] and the name [x]; a new name stands for a new inode and is
    one of packing's temporary names, or is in a directory of [lax].  The
    relation composes.  A path that resolved to a name resolves to it still, as
    long as no directory and no link on its way was taken away. *)

From S2P Require Import Prelude GoStrings GoPath Vfs GoOS VfsLogic VfsEffects VfsStage VfsKept Pack.
From stdpp Require Import base list strings gmap.
From Stdlib Require Import ZArith Lia Strings.Ascii Strings.Byte.


Local Open Scope string_scope.

(** Two paths the kernel resolves in the same steps. *)
Definition same_way (p q : string) : Prop :=
  p <> "" /\ q <> "" /\ is_rooted p = is_rooted q /\ components p = components q.

Lemma locate_same_way `{Kernel} p q b follow F : same_way p q -> locate b follow p F = locate b follow q F.
Proof.
  intros (Hp & Hq & Hr & Hc). unfold locate. by rewrite !(proj2 (String.eqb_neq _ _)), Hr, Hc.
Qed.

(** ** Cleaning *)

Definition kept_component (c : string) : bool := negb (String.eqb c "" || String.eqb c ".").

Lemma components_filter p : components p = List.filter kept_component (Split p slash).
Proof. reflexivity. Qed.

Lemma foldl_clean_filter rooted kept cs :
  foldl (clean_step rooted) kept cs = foldl (clean_step rooted) kept (List.filter kept_component cs).
Proof.
  revert kept. induction cs as [|c cs IH]; intros kept; [done|]. cbn [foldl List.filter]. rewrite IH. unfold kept_component at 2.
  unfold clean_step at 2. destruct (String.eqb c "" || String.eqb c ".") eqn:Hc; cbn [negb]; [done|]. cbn [foldl]. f_equal.
  unfold clean_step. by rewrite Hc.
Qed.

Lemma clean_components_Split rooted p : clean_components rooted (Split p slash) = clean_components rooted (components p).
Proof. unfold clean_components. rewrite components_filter. by rewrite <- foldl_clean_filter. Qed.

Lemma component_dots : component "..".
Proof. done. Qed.

Lemma clean_step_component rooted kept c :
  Forall component kept -> component c -> Forall component (clean_step rooted kept c).
Proof.
  intros Hk Hc. unfold clean_step. destruct (_ || _); [done|]. destruct (String.eqb c ".."); [|by constructor].
  destruct kept as [|t0 rest]; [destruct rooted; repeat constructor; done|].
  inversion Hk; subst. destruct (String.eqb t0 ".."); [|done]. by constructor.
Qed.

Lemma foldl_clean_component rooted kept cs :
  Forall component kept -> Forall component cs -> Forall component (foldl (clean_step rooted) kept cs).
Proof. intros Hk Hcs. revert kept Hk. induction Hcs as [|c cs Hc _ IH]; intros kept Hk; [done|]. apply IH. by apply clean_step_component. Qed.

Lemma clean_components_ok rooted cs : Forall component cs -> Forall component (clean_components rooted cs).
Proof. intros Hcs. unfold clean_components. apply Forall_rev. by apply foldl_clean_component. Qed.

Lemma Split_join_slashless c cs :
  Forall component (c :: cs) -> Split (strings_Join (c :: cs) "/") slash = (c :: cs)%list.
Proof.
  revert c. induction cs as [|d cs IH]; intros c Hp; inversion Hp as [|? ? (_ & _ & Hs) Hp']; subst.
  { by apply slashless_Split. }
  change (strings_Join (c :: d :: cs) "/") with (c ++ String slash (strings_Join (d :: cs) "/")).
  by rewrite Split_app, (slashless_Split c Hs), IH.
Qed.

Lemma filter_components cs : Forall component cs -> List.filter kept_component cs = cs.
Proof.
  induction 1 as [|c cs (H1 & H2 & _) _ IH]; [done|]. cbn [List.filter].
  assert (kept_component c = true) as -> by (unfold kept_component; by rewrite !(proj2 (String.eqb_neq c _))).
  by rewrite IH.
Qed.

Lemma join_not_rooted c cs : component c -> is_rooted (strings_Join (c :: cs) "/") = false /\ strings_Join (c :: cs) "/" <> "".
Proof.
  intros (H1 & _ & Hs). destruct c as [|a c]; [done|]. unfold slashless in Hs. cbn [sforallb] in Hs.
  assert (forall t, is_rooted (String a t) = false /\ String a t <> "") as Ha.
  { intros t. split; [|done]. unfold is_rooted. rewrite HasPrefix_slash. by destruct (Ascii.eqb a slash). }
  destruct cs as [|d cs]; [apply Ha|]. change (strings_Join (String a c :: d :: cs) "/") with (String a (c ++ "/" ++ strings_Join (d :: cs) "/")).
  apply Ha.
Qed.

(** What cleaning does to a path. *)
Lemma clean_path p :
  filepath_Clean p <> "" /\ is_rooted (filepath_Clean p) = is_rooted p /\
  components (filepath_Clean p) = clean_components (is_rooted p) (components p).
Proof.
  unfold filepath_Clean. rewrite clean_components_Split. pose proof (clean_components_ok (is_rooted p) _ (components_ok p)) as Hk.
  destruct (is_rooted p); [|destruct (clean_components false (components p)) as [|c cs] eqn:Hcs; [done|]].
  - rewrite sapp_cons, sapp_nil_l. split; [done|]. split; [unfold is_rooted; by rewrite HasPrefix_slash|]. rewrite components_filter at 1. cbn [Split].
    change (Ascii.eqb "/" slash) with true. cbv iota. change (List.filter kept_component ("" :: ?l)) with (List.filter kept_component l).
    destruct (clean_components true (components p)) as [|c cs]; [done|]. rewrite Split_join_slashless by done. by apply filter_components.
  - inversion Hk as [|? ? Hc _]; subst. destruct (join_not_rooted c cs Hc) as [Hr Hne]. split; [done|]. split; [done|].
    rewrite components_filter, Split_join_slashless by done. by apply filter_components.
Qed.

(** Nothing is left to clean. *)
Definition tidy (p : string) : Prop := p <> "" /\ clean_components (is_rooted p) (components p) = components p.

Lemma tidy_same_way p : tidy p -> same_way p (filepath_Clean p).
Proof. intros [Hne Ht]. destruct (clean_path p) as (H1 & H2 & H3). repeat split; [done..|by rewrite H3]. Qed.

(** The components kept, last first: plain ones over double dots, and these
    only where the path is relative. *)
Definition layered (rooted : bool) (kept : list string) : Prop :=
  exists ps n, kept = (ps ++ replicate n "..")%list /\ Forall single ps /\ (rooted = true -> n = 0%nat).

Lemma clean_step_layered rooted kept c : layered rooted kept -> component c -> layered rooted (clean_step rooted kept c).
Proof.
  intros (ps & n & -> & Hps & Hn) (H1 & H2 & Hs). unfold clean_step. rewrite !(proj2 (String.eqb_neq c _)) by done. cbn [orb].
  destruct (String.eqb_spec c "..") as [-> |H3]; [|exists (c :: ps), n; split_and!; [done|by repeat constructor|done]].
  destruct Hps as [|p ps (? & ? & H3 & ?) Hps]; cbn [app].
  - destruct n as [|n]; cbn [replicate]; [destruct rooted; [by exists [], 0%nat|by exists [], 1%nat]|].
    cbn. exists [], (S (S n)). split_and!; [done|done|]. intros Hr. by specialize (Hn Hr).
  - rewrite (proj2 (String.eqb_neq p _)) by done. by exists ps, n.
Qed.

Lemma foldl_layered rooted kept cs :
  layered rooted kept -> Forall component cs -> layered rooted (foldl (clean_step rooted) kept cs).
Proof. intros Hk Hcs. revert kept Hk. induction Hcs as [|c cs Hc _ IH]; intros kept Hk; [done|]. apply IH. by apply clean_step_layered. Qed.

Lemma foldl_dots n kept k :
  kept = replicate k ".." -> foldl (clean_step false) kept (replicate n "..") = replicate (n + k) "..".
Proof.
  revert kept k. induction n as [|n IH]; intros kept k ->; [done|]. cbn [replicate foldl].
  rewrite (IH _ (S k)); [by rewrite <- plus_n_Sm|]. by destruct k.
Qed.

Lemma foldl_single rooted kept cs : Forall single cs -> foldl (clean_step rooted) kept cs = (rev cs ++ kept)%list.
Proof.
  intros Hcs. apply foldl_plain. eapply Forall_impl; [exact Hcs|]. intros c (? & ? & ? & Hs). split_and!; try done. by apply slashless_Split.
Qed.

Lemma layered_fixed rooted kept : layered rooted kept -> foldl (clean_step rooted) [] (rev kept) = kept.
Proof.
  intros (ps & n & -> & Hps & Hn). rewrite rev_app_distr. assert (rev (replicate n "..") = replicate n "..") as ->.
  { clear. induction n as [|n IH]; [done|]. cbn [replicate rev]. rewrite IH. clear. induction n as [|n IH]; [done|]. cbn. by rewrite IH. }
  rewrite foldl_app. assert (foldl (clean_step rooted) [] (replicate n "..") = replicate n "..") as ->.
  { destruct rooted; [by rewrite Hn|]. rewrite (foldl_dots n [] 0) by done. by rewrite Nat.add_0_r. }
  rewrite foldl_single by by apply Forall_rev. by rewrite rev_involutive.
Qed.

Lemma clean_components_idem rooted cs :
  Forall component cs -> clean_components rooted (clean_components rooted cs) = clean_components rooted cs.
Proof.
  intros Hcs. unfold clean_components at 1 2 3. f_equal. apply layered_fixed, foldl_layered; [|done]. by exists [], 0%nat.
Qed.

Lemma tidy_Clean p : tidy (filepath_Clean p).
Proof.
  destruct (clean_path p) as (H1 & H2 & H3). split; [done|]. rewrite H2, H3. apply clean_components_idem, components_ok.
Qed.

Lemma tidy_snoc rooted cs c : clean_components rooted cs = cs -> single c -> clean_components rooted (cs ++ [c]) = (cs ++ [c])%list.
Proof.
  unfold clean_components. intros Hcs Hc. rewrite foldl_app. rewrite (foldl_single rooted _ [c]) by (repeat constructor; apply Hc).
  cbn [rev app]. by rewrite Hcs.
Qed.

(** ** Names in a directory *)

Lemma components_in_dir dir c :
  dir <> "" -> single c ->
  components (dir ++ String slash c) = (components dir ++ [c])%list /\ is_rooted (dir ++ String slash c) = is_rooted dir.
Proof.
  intros Hd (H1 & H2 & H3 & Hs). split.
  - unfold components. rewrite Split_app, (slashless_Split c Hs), List.filter_app. f_equal. cbn [List.filter].
    by rewrite !(proj2 (String.eqb_neq c _)).
  - destruct dir as [|a dir]; [done|]. unfold is_rooted. by rewrite sapp_cons, !HasPrefix_slash.
Qed.

(** A path in a tidy directory. *)
Definition in_dir (dir p c : string) : Prop :=
  p <> "" /\ is_rooted p = is_rooted dir /\ components p = (components dir ++ [c])%list.

Lemma in_dir_tidy dir p c : tidy dir -> single c -> in_dir dir p c -> tidy p.
Proof. intros [_ Ht] Hc (Hne & Hr & Hcs). split; [done|]. rewrite Hr, Hcs. by apply tidy_snoc. Qed.

Lemma temp_path_in_dir dir prefix suffix r :
  let name := prefix ++ Itoa (r mod 2 ^ 32) ++ suffix in
  dir <> "" -> single name -> in_dir dir (temp_path dir prefix suffix r) name.
Proof.
  intros name Hd Hn. unfold temp_path. fold name. destruct (HasSuffix dir "/") eqn:Hs.
  - apply HasSuffix_slash in Hs as [q ->]. rewrite sapp_assoc. change ("/" ++ name) with (String slash name).
    assert (components (q ++ "/") = components q) as Hc.
    { unfold components. change (q ++ "/") with (q ++ String slash ""). rewrite Split_app, List.filter_app. cbn. by rewrite app_nil_r. }
    split; [by destruct q|]. split; [destruct q; unfold is_rooted; rewrite ?sapp_cons, ?sapp_nil_l, ?HasPrefix_slash; done|].
    rewrite Hc. destruct q as [|a q]; [|by apply components_in_dir].
    rewrite sapp_nil_l. unfold components. cbn [Split]. change (Ascii.eqb slash slash) with true. cbv iota. destruct Hn as (H1 & H2 & H3 & Hs).
    rewrite (slashless_Split name Hs). cbn [List.filter]. by rewrite !(proj2 (String.eqb_neq name _)).
  - rewrite sapp_assoc. change ("/" ++ name) with (String slash name). destruct (components_in_dir dir name Hd Hn) as [Hc Hr].
    split; [by destruct dir|done].
Qed.

Lemma join_in_dir dir c : tidy dir -> single c -> in_dir dir (filepath_Join [dir; c]) c.
Proof.
  intros [Hne Ht] Hc. cbn [filepath_Join]. rewrite (proj2 (String.eqb_neq dir "")) by done.
  change (strings_Join [dir; c] "/") with (dir ++ String slash c). destruct (components_in_dir dir c Hne Hc) as [Hcs Hr].
  destruct (clean_path (dir ++ String slash c)) as (H1 & H2 & H3). split; [done|]. rewrite H2, H3, Hr, Hcs.
  split; [done|by apply tidy_snoc].
Qed.

(** [splitPath] undoes it for an absolute directory. *)
Lemma drop_last_snoc s c : drop_last (s ++ String c "") = s.
Proof.
  induction s as [|a s IH]; [done|]. rewrite sapp_cons. destruct s as [|b s]; [done|].
  rewrite sapp_cons in *. cbn [drop_last]. cbn [drop_last] in IH. by rewrite IH.
Qed.

Lemma drop_slashes_id s : HasPrefix s "/" = false -> drop_slashes s = s.
Proof. destruct s as [|c s]; [done|]. rewrite HasPrefix_slash. cbn [drop_slashes]. by intros ->. Qed.

Lemma slashless_no_suffix q c : single c -> HasPrefix (srev (q ++ String slash c)) "/" = false.
Proof.
  intros (H1 & _ & _ & Hs). change (String slash c) with (String slash "" ++ c). rewrite <- sapp_assoc, srev_app_distr.
  destruct (srev c) as [|a r] eqn:Hr.
  { apply (f_equal srev) in Hr. rewrite srev_involutive in Hr. done. }
  rewrite sapp_cons, HasPrefix_slash. unfold slashless in Hs. apply (f_equal srev) in Hr. rewrite srev_involutive, srev_cons in Hr.
  subst c. rewrite sforallb_app in Hs. apply andb_true_iff in Hs as [_ Hs]. cbn in Hs. by destruct (Ascii.eqb a slash).
Qed.

Lemma abs_path_split c cs : Forall single (c :: cs) ->
  exists q d a rest, abs_path (c :: cs) = q ++ String slash d /\ single d /\
    abs_path (c :: cs) = String slash (String a rest) /\ Ascii.eqb a slash = false.
Proof.
  intros Hs. assert (exists a rest, strings_Join (c :: cs) "/" = String a rest /\ Ascii.eqb a slash = false) as (a & rest & Hj & Ha).
  { inversion Hs as [|? ? (H1 & _ & _ & Hc) _]; subst. destruct c as [|a c]; [done|]. unfold slashless in Hc. cbn [sforallb] in Hc.
    apply andb_true_iff in Hc as [Ha%negb_true_iff _]. destruct cs as [|d cs]; [by exists a, c|].
    by exists a, (c ++ "/" ++ strings_Join (d :: cs) "/"). }
  unfold abs_path. destruct (exists_last (l := c :: cs)) as (l & d & Hl); [done|].
  assert (single d) as Hd.
  { rewrite Hl, Forall_app in Hs. destruct Hs as [_ Hs]. by inversion Hs. }
  destruct l as [|x l].
  - injection Hl as -> ->. exists "", d, a, rest. cbn [strings_Join] in *. subst d. by split_and!.
  - exists ("/" ++ strings_Join (x :: l) "/"), d, a, rest. split; [|by rewrite Hj].
    rewrite Hl, GoPath.join_app. by rewrite sapp_assoc.
Qed.

Lemma os_splitPath_temp cs prefix suffix r :
  let name := prefix ++ Itoa (r mod 2 ^ 32) ++ suffix in
  cs <> []%list -> Forall single cs -> single name ->
  os_splitPath (temp_path (abs_path cs) prefix suffix r) = (abs_path cs, name).
Proof.
  intros name Hne Hcs Hname. destruct cs as [|c cs]; [done|].
  destruct (abs_path_split c cs Hcs) as (q & d & a & rest & Hq & Hd & Ha & Hsl). set (p := abs_path (c :: cs)) in *.
  assert (temp_path p prefix suffix r = p ++ String slash name) as ->.
  { unfold temp_path. fold name. unfold HasSuffix. change (String.prefix (srev "/") (srev p)) with (HasPrefix (srev p) "/").
    by rewrite Hq, slashless_no_suffix, !sapp_assoc. }
  unfold os_splitPath. assert (one_slash (p ++ String slash name) = p ++ String slash name) as ->.
  { rewrite Ha, !sapp_cons. cbn [one_slash]. by rewrite Hsl, andb_false_r. }
  cbv zeta. rewrite drop_slashes_id, srev_involutive by by apply slashless_no_suffix.
  assert (String.eqb (p ++ String slash name) "" = false) as -> by (by rewrite Ha, sapp_cons).
  rewrite up_to_last_slash_app by (apply slashless_Split, Hname).
  assert (String.eqb (p ++ "/") "" = false) as -> by (by rewrite Ha, sapp_cons).
  assert (String.eqb (p ++ "/") "/" = false) as -> by (rewrite Ha; by destruct rest).
  change (p ++ "/") with (p ++ String slash ""). rewrite drop_last_snoc. f_equal. unfold TrimPrefix.
  replace (p ++ String slash name) with ((p ++ String slash "") ++ name) by (by rewrite sapp_assoc).
  rewrite HasPrefix_app. apply sdrop_app.
Qed.

Local Close Scope string_scope.
Local Open Scope Z_scope.

(** ** Paths *)

Definition passable (T : tree) (j : Z) : Prop := (exists m, T !! j = Some (TDir m)) \/ exists t, T !! j = Some (TLink t).

Record paths_kept (T T' : tree) : Prop := {
  pk_node : node_kept T T';
  pk_entry : forall d n j, entry T d n = Some j -> passable T j -> entry T' d n = Some j;
  pk_wf : forall d n j, entry T d n = Some j -> is_Some (T !! j)
}.

(** A name that stands for the same inode, or for a regular file if for any. *)
Definition settled (T T' : tree) (d : Z) (n : string) : Prop :=
  entry T' d n = entry T d n \/ forall j, entry T' d n = Some j -> T' !! j = Some TFile.

Lemma passable_kept T T' j : node_kept T T' -> passable T j -> passable T' j.
Proof.
  intros Hk [[m Hj]|[t Hj]]; specialize (Hk j _ Hj); simpl in Hk; [left|by right; exists t].
  unfold entries in Hk. destruct (T' !! j) as [[]|]; destruct Hk; try done. eauto.
Qed.

Local Ltac here := eexists; split; [reflexivity|]; split_and!; [done|done|first [done|intros Hplace; by destruct (Hplace _ eq_refl)]].

Lemma walk_settled T T' root follow links stack cs l :
  paths_kept T T' -> walk T root follow links stack cs = Ok l ->
  (forall d ds n, l_dir l = d :: ds -> l_name l = Some n -> settled T T' d n) ->
  exists l', walk T' root follow links stack cs = Ok l' /\ l_dir l' = l_dir l /\ l_name l' = l_name l /\
    ((forall p, place l <> Ok p) -> l_ino l' = l_ino l).
Proof.
  intros [Hk He Hwf]. revert stack cs. induction links as [links IHl] using lt_wf_ind.
  intros stack cs. revert stack. induction cs as [|c rest IH]; intros stack.
  { rewrite !walk_nil. intros [= <-] _. here. }
  rewrite !walk_cons. destruct (String.eqb c "..").
  { destruct stack as [|x [|y up]]; try (destruct root; [apply IH|discriminate]); apply IH. }
  destruct stack as [|d0 ds0]; [discriminate|].
  destruct (entries T d0) as [m|] eqn:Hm; [|discriminate].
  assert (exists m', entries T' d0 = Some m') as [m' Hm'].
  { unfold entries in Hm. destruct (T !! d0) as [[]|] eqn:Hd0; try discriminate. exact (Hk d0 _ Hd0). }
  rewrite Hm'.
  assert (forall oi, m !! c = oi -> (forall i, oi = Some i -> ~ passable T i) -> rest = [] ->
    Ok (E := errno) (mkLoc (d0 :: ds0) (Some c) oi) = Ok l ->
    (forall d ds n, l_dir l = d :: ds -> l_name l = Some n -> settled T T' d n) ->
    exists j, m' !! c = j /\ match j with Some j => forall t, T' !! j <> Some (TLink t) | None => True end) as Hlast.
  { intros oi Hoi Hnp _ [= <-] Hset. exists (m' !! c). split; [done|]. destruct (m' !! c) as [j|] eqn:Hj; [|done].
    destruct (Hset d0 ds0 c eq_refl eq_refl) as [Heq|Hf].
    - unfold entry in Heq. rewrite Hm, Hm' in Heq. simpl in Heq. rewrite Hj, Hoi in Heq. subst oi.
      intros t Ht. assert (entry T d0 c = Some j) as Hcj by (unfold entry; by rewrite Hm). destruct (Hwf _ _ _ Hcj) as [node Hnode].
      specialize (Hk j node Hnode). destruct node; [congruence|apply (Hnp j); [done|left; eauto]|apply (Hnp j); [done|right; eauto]|congruence].
    - intros t Ht. rewrite (Hf j) in Ht; [done|]. unfold entry. by rewrite Hm'. }
  destruct (m !! c) as [i|] eqn:Hmc.
  2: { destruct rest; [|discriminate]. intros Hl Hset. destruct (Hlast None eq_refl ltac:(done) eq_refl Hl Hset) as (j & Hj & Hnl).
    injection Hl as <-. rewrite Hj. destruct j as [j|]; [|here]. destruct (T' !! j) as [[| |t0|]|] eqn:HTj; try (by destruct (Hnl t0)); here. }
  assert (entry T d0 c = Some i) as Hc by (unfold entry; by rewrite Hm).
  destruct (Hwf _ _ _ Hc) as [node Hi]. rewrite Hi.
  assert (passable T i -> m' !! c = Some i) as Hpass.
  { intros Hp. specialize (He _ _ _ Hc Hp). unfold entry in He. by rewrite Hm' in He. }
  destruct node as [|mi|t|].
  1, 4: destruct rest; [|discriminate]; intros Hl Hset;
    destruct (Hlast (Some i) eq_refl) as (j & Hj & Hnl); [by intros ? [= <-] [[? ?]|[? ?]]; congruence|done|done|done|];
    injection Hl as <-; rewrite Hj; destruct j as [j|]; [|here]; destruct (T' !! j) as [[| |t0|]|] eqn:HTj; try (by destruct (Hnl t0)); here.
  - rewrite Hpass by (left; eauto). destruct (passable_kept T T' i Hk) as [[m2 Hi']|[? Hi']]; [left; eauto|rewrite Hi'|].
    2: { specialize (Hk i _ Hi). simpl in Hk. unfold entries in Hk. rewrite Hi' in Hk. by destruct Hk. }
    destruct rest; [intros [= <-]; here|apply IH].
  - rewrite Hpass by (right; eauto). rewrite (Hk i _ Hi). destruct rest as [|r rest']; simpl.
    + destruct follow; simpl; [|intros [= <-]; here]. destruct links as [|k]; [discriminate|].
      destruct (is_rooted t); [destruct root; [|discriminate]|]; apply IHl; lia.
    + destruct links as [|k]; [discriminate|].
      destruct (is_rooted t); [destruct root; [|discriminate]|]; apply IHl; lia.
Qed.

(** The directory a path ends in is where its other components lead. *)
Lemma walk_parent T root links stack cs n l d n' :
  n <> ".."%string -> walk T root false links stack (cs ++ [n]) = Ok l -> place l = Ok (d, n') ->
  exists l', walk T root true links stack cs = Ok l' /\ l_ino l' = Some d.
Proof.
  intros Hn. revert stack cs. induction links as [links IHl] using lt_wf_ind.
  intros stack cs. revert stack. induction cs as [|c rest IH]; intros stack; cbn [app].
  - rewrite walk_cons, (walk_nil _ _ true). destruct (String.eqb_spec n ".."); [done|].
    destruct stack as [|d0 ds0]; [discriminate|]. destruct (entries T d0) as [m|]; [|discriminate].
    assert (forall oi, Ok (E := errno) (mkLoc (d0 :: ds0) (Some n) oi) = Ok l -> place l = Ok (d, n') ->
      exists l', Ok (E := errno) (mkLoc (d0 :: ds0) None (Some d0)) = Ok l' /\ l_ino l' = Some d) as Hd.
    { intros oi [= <-] [= -> ->]. eauto. }
    destruct (m !! n) as [i|]; [|apply Hd]. destruct (T !! i) as [[]|]; apply Hd.
  - rewrite !walk_cons. destruct (String.eqb c "..").
    { destruct stack as [|x [|y up]]; try (destruct root; [apply IH|discriminate]); apply IH. }
    destruct stack as [|d0 ds0]; [discriminate|]. destruct (entries T d0) as [m|]; [|discriminate].
    assert (exists r rest', rest ++ [n] = r :: rest') as (r & rest' & Hr) by (destruct rest; simpl; eauto).
    rewrite Hr. destruct (m !! c) as [i|]; [|discriminate].
    destruct (T !! i) as [[|m'|t|]|] eqn:Hi; try discriminate.
    + rewrite <- Hr. destruct rest as [|r2 rest2]; [|apply IH]. cbn [app]. rewrite walk_cons. destruct (String.eqb_spec n ".."); [done|].
      assert (forall oi, Ok (E := errno) (mkLoc (i :: d0 :: ds0) (Some n) oi) = Ok l -> place l = Ok (d, n') ->
        exists l', Ok (E := errno) (mkLoc (d0 :: ds0) (Some c) (Some i)) = Ok l' /\ l_ino l' = Some d) as Hd.
      { intros oi [= <-] [= -> ->]. eauto. }
      destruct (entries T i) as [mi|]; [|discriminate]. destruct (mi !! n) as [j|]; [|apply Hd].
      destruct (T !! j) as [[]|]; apply Hd.
    + destruct links as [|k]; [destruct rest; discriminate|]. rewrite <- Hr, app_assoc.
      destruct rest; cbn [negb]; (destruct (is_rooted t); [destruct root; [|discriminate]|]; apply IHl; lia).
Qed.

(** ** The relation *)

Definition pack_temp (n : string) : Prop := HasPrefix n packTempPrefix = true.
Definition inputs_temp (n : string) : Prop := HasPrefix n "microfat-inputs-" = true.

(** A new name: of a staging file; or in one of the directories [lax], or of
    such a directory. *)
Definition allowed (lax : Z -> Prop) (F' : fs) (d : Z) (n : string) (j : Z) : Prop :=
  pack_temp n /\ f_tree F' !! j = Some TFile \/ lax d \/ inputs_temp n /\ is_dir F' j = true /\ lax j.

Record held (lax own : Z -> Prop) (x : option (Z * string)) (F F' : fs) : Prop := {
  hd_wf : wf_fs F';
  hd_attr : forall j a, ~ own j -> f_attr F !! j = Some a -> f_attr F' !! j = Some a;
  hd_node : node_kept (f_tree F) (f_tree F');
  hd_entry : forall d n j, x <> Some (d, n) -> entry (f_tree F) d n = Some j -> entry (f_tree F') d n = Some j;
  hd_new : forall d n j, x <> Some (d, n) -> entry (f_tree F') d n = Some j ->
    entry (f_tree F) d n = Some j \/ f_tree F !! j = None /\ allowed lax F' d n j
}.

Definition nobody : Z -> Prop := fun _ => False.

Section held.
Context (lax own : Z -> Prop) (x : option (Z * string)).

Lemma held_refl F : wf_fs F -> held lax own x F F.
Proof. intros Hwf. split; auto with vfs. Qed.

Lemma allowed_later F' F'' d n j :
  node_kept (f_tree F') (f_tree F'') -> allowed lax F' d n j -> allowed lax F'' d n j.
Proof.
  intros Hk [[Hn Hj]|[Hd|(Hn & Hj & Hl)]]; [left; split; [done|exact (Hk j _ Hj)]|by right; left|right; right].
  split_and!; [done| |done]. by eapply is_dir_kept.
Qed.

Lemma held_fresh F F' j : node_kept (f_tree F) (f_tree F') -> f_tree F' !! j = None -> f_tree F !! j = None.
Proof.
  intros Hk Hj. destruct (f_tree F !! j) eqn:Hx; [|done].
  destruct (node_kept_is_Some _ _ j Hk (ex_intro _ _ Hx)). congruence.
Qed.

Lemma held_trans F1 F2 F3 : held lax own x F1 F2 -> held lax own x F2 F3 -> held lax own x F1 F3.
Proof.
  intros [Hw Ha Hk He Hn] [Hw' Ha' Hk' He' Hn']. split; auto; [by eapply node_kept_trans|].
  intros d n j Hx Hj. destruct (Hn' d n j Hx Hj) as [Hj'|[Hf Hal]].
  - destruct (Hn d n j Hx Hj') as [|[Hf Hal]]; [by left|right]. split; [done|by eapply allowed_later].
  - right. split; [by eapply held_fresh|done].
Qed.

Lemma held_mono (own' : Z -> Prop) x' F F' :
  (forall j, own j -> own' j) -> (x = None \/ x = x') -> held lax own x F F' -> held lax own' x' F F'.
Proof.
  intros Ho Hx [Hw Ha Hk He Hn]. split; auto.
  - intros d n j Hne. apply He. destruct Hx; congruence.
  - intros d n j Hne. apply Hn. destruct Hx; congruence.
Qed.

Lemma held_lax (lax' : Z -> Prop) F F' : (forall d, lax d -> lax' d) -> held lax own x F F' -> held lax' own x F F'.
Proof.
  intros Hl [Hw Ha Hk He Hn]. split; auto. intros d n j Hx Hj. destruct (Hn d n j Hx Hj) as [|[Hf Hal]]; [by left|right].
  split; [done|]. destruct Hal as [|[Hd|(? & ? & ?)]]; [by left|right; left; auto|right; right; auto].
Qed.

Lemma held_added `{Kernel} b p node a F i F' d n :
  wf_fs F -> (forall m, node = TDir m -> m = ∅) -> added b p node a F i F' d n -> allowed lax F' d n i -> held lax own x F F'.
Proof.
  intros Hwf Hm Hadd Hal. pose proof (next_ino_fresh F) as [Hf1 Hf2]. rewrite <- (add_ino Hadd) in *.
  assert (forall d' n', entry (f_tree F') d' n' = if decide ((d, n) = (d', n')) then Some i else entry (f_tree F) d' n')
    as He by (intros; by eapply added_entry).
  split; [by eapply wf_added| |by eapply added_kept|..].
  - intros j aj _ Hj. rewrite (add_attr Hadd), lookup_insert_ne; [done|]. intros <-. congruence.
  - intros d' n' j _ Hj. rewrite He. case_decide as Heq; [|done]. injection Heq as <- <-. rewrite (add_free Hadd) in Hj. done.
  - intros d' n' j _. rewrite He. case_decide as Heq; [|by left]. injection Heq as <- <-. intros [= <-]. by right.
Qed.

Lemma held_change F F' i a : held lax own x F F' -> own i \/ f_attr F !! i = None -> held lax own x F (set_attr F' i a).
Proof.
  intros [Hw Ha Hk He Hn] Hi. split; simpl; auto.
  - by apply wf_set_attr.
  - intros j aj Hj Hja. rewrite lookup_insert_ne; [auto|]. intros <-. destruct Hi; congruence.
Qed.

(** A name that was not there at first goes. *)
Lemma held_drop F F' d n :
  held lax own x F F' -> entry (f_tree F) d n = None -> held lax own x F (with_tree F' (del_entry (f_tree F') d n)).
Proof.
  intros [Hw Ha Hk He Hn] Hd. split; simpl; auto; [by apply wf_del_entry|eapply node_kept_trans; [exact Hk|apply node_kept_del_entry]|..].
  - intros d' n' j Hx Hj. rewrite entry_del_entry. case_decide as Heq; [|auto]. injection Heq as <- <-. congruence.
  - intros d' n' j Hx. rewrite entry_del_entry. case_decide; [discriminate|]. intros Hj.
    destruct (Hn d' n' j Hx Hj) as [|[Hf Hal]]; [by left|right]. split; [done|]. eapply allowed_later; [|exact Hal]. apply node_kept_del_entry.
Qed.

Lemma held_paths F F' :
  wf_fs F -> (forall d n j, x = Some (d, n) -> entry (f_tree F) d n = Some j -> ~ passable (f_tree F) j) ->
  held lax own x F F' -> paths_kept (f_tree F) (f_tree F').
Proof.
  intros Hwf Hx [Hw Ha Hk He Hn]. split; [done| |apply Hwf]. intros d n j Hj Hp. apply He; [|done].
  intros Heq. by apply (Hx d n j Heq Hj).
Qed.

End held.

(** An inode that is not there at first can change. *)
Lemma held_absorb (lax own own' : Z -> Prop) x F F1 F2 :
  held lax own x F F1 -> held lax own' x F1 F2 -> (forall j, own' j -> own j \/ f_attr F !! j = None) -> held lax own x F F2.
Proof.
  intros H1 H2 Ho. assert (held lax (fun j => own j \/ own' j) x F F2) as [Hw Ha Hk He Hn].
  { apply held_trans with (F2 := F1); (eapply held_mono; [|by right|eassumption]); simpl; auto. }
  split; auto. intros j a Hj Hja. apply Ha; [|done]. intros [|Hj']; [done|]. destruct (Ho j Hj'); congruence.
Qed.

(** ** What paths stand for *)

Section paths.
Context `{Kernel}.

Definition at_path (F : fs) (p : string) (d : Z) (n : string) : Prop :=
  exists l, locate cwd_base false p F = Ok l /\ place l = Ok (d, n).

(** Opening the path gives this regular file. *)
Definition opens (F : fs) (p : string) (i : Z) : Prop :=
  exists l, locate cwd_base true p F = Ok l /\ l_ino l = Some i /\ f_tree F !! i = Some TFile.

Lemma locate_settled follow p F F' l :
  paths_kept (f_tree F) (f_tree F') -> locate cwd_base follow p F = Ok l ->
  (forall d n, place l = Ok (d, n) -> settled (f_tree F) (f_tree F') d n) ->
  exists l', locate cwd_base follow p F' = Ok l' /\ place l' = place l /\ ((forall q, place l <> Ok q) -> l_ino l' = l_ino l).
Proof.
  intros Hk Hl Hs. assert (forall d ds n, l_dir l = d :: ds -> l_name l = Some n -> settled (f_tree F) (f_tree F') d n) as Hs'
    by (intros d ds n Hd Hn; apply Hs; unfold place; by rewrite Hd, Hn).
  unfold locate in *. cbn [b_root cwd_base b_stack] in *. unfold place.
  repeat split_if; try discriminate; (eapply walk_settled in Hl as (l' & Hl' & Hd & Hn & Hi); [|done..]); exists l'; by rewrite Hd, Hn.
Qed.

Lemma at_path_stays F F' p d n :
  paths_kept (f_tree F) (f_tree F') -> settled (f_tree F) (f_tree F') d n -> at_path F p d n -> at_path F' p d n.
Proof.
  intros Hk Hs (l & Hl & Hp). destruct (locate_settled false p F F' l Hk Hl) as (l' & Hl' & Hp' & _); [congruence|].
  exists l'. by rewrite Hp'.
Qed.

Lemma opens_stays F F' p i :
  paths_kept (f_tree F) (f_tree F') ->
  (forall d n, entry (f_tree F) d n = Some i -> entry (f_tree F') d n = Some i) -> opens F p i -> opens F' p i.
Proof.
  intros Hk He (l & Hl & Hi & Hf). assert (forall d n, place l = Ok (d, n) -> entry (f_tree F) d n = Some i) as Hpl.
  { intros d n Hp. destruct (locate_entry _ _ _ _ _ _ _ Hl Hp) as [-> _]. done. }
  destruct (locate_settled true p F F' l Hk Hl) as (l' & Hl' & Hp' & Hn').
  { intros d n Hp. left. specialize (Hpl d n Hp). by rewrite Hpl, (He d n). }
  exists l'. split; [done|]. split; [|exact (pk_node _ _ Hk i _ Hf)].
  destruct (place l) as [[d n]|e|] eqn:Hp; [|by rewrite Hn'..].
  destruct (locate_entry _ _ _ _ _ _ _ Hl' Hp') as [<- _]. by apply He, Hpl.
Qed.

End paths.
