(* ===== verification/Prewarm.v ===== *)
(** * Prewarming the cache from an artifact ([internal/pack/pack.go])

    The selected variants of a fat binary are put in the cache one after the
    other, each validated again when it is already there, and a cache is
    compared with a fat binary.  The index, the selection and the dictionary are
    those of the plan ([PackPrewarm.v]), the cache is [Cache.v].  The durations
    of the extractions are left out. *)

From S2P Require Import Prelude GoStrings GoPath GoIO Vfs GoOS Sha256 Format FormatIndex FormatTrailer Codec PackTrim PackPrewarm Lifecycle Cache Stub.
From stdpp Require Import base list strings gmap.
From Stdlib Require Import ZArith Lia Strings.Ascii Strings.Byte.
Import CacheErr.

Local Open Scope Z_scope.

(** What [errors.Is] finds in an error of the format or of the selection. *)
Definition format_tags (e : format_err) : gerror :=
  match e with
  | ErrBinaryTooSmall => [Sentinel "format.ErrBinaryTooSmall"]
  | ErrInvalidMagic => [Sentinel "format.ErrInvalidMagic"]
  | ErrTrailerRead => [Sentinel "format.ErrTrailerRead"]
  | ErrUnsupportedVersion => [Sentinel "format.ErrUnsupportedVersion"]
  | ErrInvalidIndexOffset => [Sentinel "format.ErrInvalidIndexOffset"]
  | ErrInvalidIndexSize => [Sentinel "format.ErrInvalidIndexSize"]
  | ErrIndexCorrupted => [Sentinel "format.ErrIndexCorrupted"]
  | ErrOutOfBounds => [Sentinel "format.ErrOutOfBounds"]
  | Format.ErrPayloadTooLarge => ErrPayloadTooLarge
  | ErrOverlappingVariant => [Sentinel "format.ErrOverlappingVariant"]
  | ErrTruncatedIndex => [Sentinel "format.ErrTruncatedIndex"]
  | Format.ErrDictionaryCorrupted => [Sentinel "format.ErrDictionaryCorrupted"]
  | Format.ErrPayloadCorrupted => [Sentinel "format.ErrPayloadCorrupted"]
  | Format.ErrInvalidDictionary => [Sentinel "format.ErrInvalidDictionary"]
  | Format.ErrInvalidChecksum => ErrInvalidChecksum
  | ErrNoVariantsSpecified => [Sentinel "format.ErrNoVariantsSpecified"]
  | ErrDuplicateVariant => [Sentinel "format.ErrDuplicateVariant"]
  | ErrInvalidVariant => [Sentinel "format.ErrInvalidVariant"]
  | ErrFieldLimit => errors_New "exceeds binary format limits"
  | ErrIndexTooLarge => errors_New "index size exceeds maximum"
  | ErrNegativeOffset => errors_New "invalid negative offset"
  | ErrIndexRead => errors_New "reading index payload"
  | ErrWrite => errors_New "write"
  end.

Definition prewarm_tags (e : prewarm_err) : gerror :=
  match e with
  | PrewarmFormat e => format_tags e
  | PrewarmLevelNotFound => errors_New "variant level not found in binary manifest"
  | PackPrewarm.ErrPrewarmPayloadLimit => [Sentinel "pack.ErrPrewarmPayloadLimit"]
  | PackPrewarm.ErrPrewarmAccounting => [Sentinel "pack.ErrPrewarmAccounting"]
  end.

Section prewarm.
Context `{Kernel} {GU : GoUnicode} {D : Decoders} `{ReaderAt R}.
Context (E : CacheEnv) (r : R).

(** [ResolveCacheDir] and [ResolveExistingCacheDir]: the path alone. *)
Definition resolveCacheDir (customDir : string) (materialize : bool) : io string :=
  '(fd, dir) ← resolveCacheDirFD E customDir materialize;
  _ ← (if 0 <=? fd then ignore (sys_close fd) else mret tt);
  mret dir.

(** The decompression of the section of a variant, as the callback of the cache. *)
Definition prewarm_payload (c : Codec) (entry : VariantEntry) (dict : list byte) : PayloadFunc := fun _ =>
  let '(w, res) := DecompressWithOptionalDict c (mkPieces []) (section_stream r (Offset entry) (CompressedSize entry))
                     (UncompressedSize entry) dict in
  (piece_list w, match res with Ok _ => None | Err e => Some (codec_tags e) | Panic => Some [] end).

(** Whether the entry can be reused; a link or a file that is not safe is refused. *)
Definition reusable (dirFD : Z) (cachedName cachedBinary : string) (entry : VariantEntry) : io bool :=
  if 0 <=? dirFD then
    v ← try (OpenAndValidateVariantAtFD dirFD cachedName entry false);
    match v with
    | inl vfd => _ ← ignore (sys_close vfd); mret true
    | inr openErr =>
        if IsSymlinkErr openErr || has openErr ErrNonRegularFile || has openErr ErrUnsafeFile
        then fail (ErrCacheWrite ++ openErr) else mret false
    end
  else
    st ← try (os_Lstat cachedBinary);
    match st with
    | inr _ => mret false
    | inl fi =>
        match fi_node fi with
        | TFile => VerifyCachedBinary cachedBinary (UncompressedSize entry) (SHA256 entry)
        | _ => fail ErrCacheWrite
        end
    end.

(** Reused, or extracted: the path, and whether it was there. *)
Definition prewarm_in (dirFD : Z) (cleanDir : string) (entry : VariantEntry) (dict : list byte) : io (string * bool) :=
  let cachedName := filepath_Clean (SHA256 entry) in
  let cachedBinary := filepath_Join [cleanDir; cachedName] in
  cached ← reusable dirFD cachedName cachedBinary entry;
  if cached : bool then mret (cachedBinary, true)
  else
    match Get registry_init (Compression entry) with
    | Ok c =>
        path ← MaterializeVariantAtFD dirFD cleanDir (Some entry) (Some (prewarm_payload c entry dict));
        mret (path, false)
    | Err e => fail (codec_tags e)
    | Panic => fail []
    end.

Definition PrewarmVariantWithDict (entry : option VariantEntry) (cacheDir : string) (dict : list byte) : io (string * bool) :=
  match entry with
  | None => fail (errors_New "nil variant entry")
  | Some entry =>
      if bad_checksum (SHA256 entry) then fail ErrInvalidChecksum
      else if (UncompressedSize entry <=? 0) || (UncompressedSize entry >? MaxPayloadSize) then fail ErrPayloadTooLarge
      else
        '(dirFD, cleanDir) ← resolveCacheDirFD E cacheDir true;
        if 0 <=? dirFD then deferring (ignore (sys_close dirFD)) (prewarm_in dirFD cleanDir entry dict)
        else prewarm_in dirFD cleanDir entry dict
  end.

Definition PrewarmVariant (entry : option VariantEntry) (cacheDir : string) : io (string * bool) :=
  PrewarmVariantWithDict entry cacheDir [].

Definition prewarm_result (entry : VariantEntry) (path : string) (alreadyCached : bool) : PrewarmResult :=
  mkPrewarmResult (ve_Level entry) (SHA256 entry) path (UncompressedSize entry) alreadyCached true
    (if alreadyCached then PrewarmStatusAlreadyCached else PrewarmStatusExtracted).

(** The entries one by one, up to the first that fails. *)
Fixpoint prewarm_entries (cacheDir : string) (dict : list byte) (selected : list VariantEntry)
    (results : list PrewarmResult) : io (list PrewarmResult * option gerror) :=
  match selected with
  | [] => mret (results, None)
  | entry :: rest =>
      p ← try (PrewarmVariantWithDict (Some entry) cacheDir dict);
      match p with
      | inr e => mret (results, Some e)
      | inl (path, alreadyCached) =>
          prewarm_entries cacheDir dict rest (results ++ [prewarm_result entry path alreadyCached])
      end
  end.

(** The index, the results so far and the error of an entry; an error before
    the first entry fails. *)
Definition PrewarmBinaryWithOptions (totalSize : Z) (targetLevels : list string) (cacheDir : string)
    (maxPayloadBytes : option Z) : io (Index * list PrewarmResult * option gerror) :=
  idx ← lift (wrap_err format_tags (ReadTrailerAndIndex r totalSize));
  '(selected, _) ← lift (wrap_err prewarm_tags (selectPrewarmVariants idx targetLevels maxPayloadBytes));
  dictBytes ← lift (wrap_err format_tags (readPrewarmDictionary r idx));
  cacheDir ← (if String.eqb cacheDir "" then resolveCacheDir "" true else mret cacheDir);
  '(results, err) ← prewarm_entries cacheDir dictBytes selected [];
  mret (idx, results, err).

Definition PrewarmBinary (totalSize : Z) (targetLevels : list string) (cacheDir : string) : io (Index * list PrewarmResult) :=
  '(idx, results, err) ← PrewarmBinaryWithOptions totalSize targetLevels cacheDir None;
  match err with
  | Some e => fail e
  | None => mret (idx, results)
  end.

Definition VerifyCacheVariant (entry : VariantEntry) (cacheDir : string) : io PrewarmResult := VerifyVariant E entry cacheDir.

Fixpoint verify_entries (cacheDir : string) (targetSet : option (gset string)) (vs : list VariantEntry)
    (results : list PrewarmResult) : io (list PrewarmResult) :=
  match vs with
  | [] => mret results
  | v :: rest =>
      if negb (chosen targetSet v) then verify_entries cacheDir targetSet rest results
      else
        res ← VerifyCacheVariant v cacheDir;
        verify_entries cacheDir targetSet rest (results ++ [res])
  end.

Definition VerifyCacheBinary (totalSize : Z) (targetLevels : list string) (cacheDir : string) : io (Index * list PrewarmResult) :=
  idx ← lift (wrap_err format_tags (ReadTrailerAndIndex r totalSize));
  cacheDir ← (if String.eqb cacheDir "" then resolveCacheDir "" false else mret cacheDir);
  targetSet ← match targetLevels with
              | [] => mret None
              | _ => s ← lift (wrap_err prewarm_tags (target_levels idx targetLevels ∅)); mret (Some s)
              end;
  results ← verify_entries cacheDir targetSet (Variants idx) [];
  mret (idx, results).

End prewarm.
