(* ===== verification/PrewarmProofs.v ===== *)
(** * A prewarmed cache verifies

    What a prewarm may leave behind under every failure and crash, and that the
    cache it filled passes the verification against the same artifact. *)

From S2P Require Import Prelude GoStrings GoPath GoIO Vfs GoOS Sha256 Format FormatIndex FormatTrailer Codec PackTrim PackPrewarm.
From S2P Require Import VfsLogic VfsEffects VfsStage Lifecycle LifecycleProofs LifecycleAtomic Cache CacheProofs CacheMaterialize CacheDirProofs Stub PackHeld Prewarm.
From stdpp Require Import base list strings gmap.
From Stdlib Require Import ZArith Lia Strings.Ascii Strings.Byte.
Import CacheErr.

Local Open Scope Z_scope.

Lemma Clean_Clean p : filepath_Clean (filepath_Clean p) = filepath_Clean p.
Proof.
  destruct (clean_path p) as (_ & Hr & Hc). unfold filepath_Clean at 1. rewrite clean_components_Split, Hr, Hc.
  rewrite clean_components_idem by apply components_ok. unfold filepath_Clean. by rewrite clean_components_Split.
Qed.

(** ** What a step of a prewarm may change *)

(** No directory holds a wrong file under a digest. *)
Definition consistent (F : fs) : Prop := forall d, cache_consistent F d.

Definition sound (F0 F : fs) : Prop :=
  wf_fs F /\ node_kept (f_tree F0) (f_tree F) /\ (consistent F0 -> consistent F).

Lemma sound_refl F : wf_fs F -> sound F F.
Proof. intros Hw. unfold sound. split_and!; auto with vfs. Qed.

Lemma sound_trans F1 F2 F3 : sound F1 F2 -> sound F2 F3 -> sound F1 F3.
Proof. intros (Hw & Hk & Hc) (Hw' & Hk' & Hc'). unfold sound. split_and!; [done|by eapply node_kept_trans|auto]. Qed.

Lemma evolves_more (tmp tmp' : string -> Prop) x F0 F :
  (forall n, tmp n -> tmp' n) -> evolves tmp x F0 F -> evolves tmp' x F0 F.
Proof. intros Ht [Ha Hn He Hw]. split; auto. intros d n j Hx Hj. destruct (Hw d n j Hx Hj) as [|[|]]; auto. Qed.

Lemma sound_unpublished F0 F : wf_fs F0 -> unpublished no_name F0 F -> sound F0 F.
Proof.
  intros Hwf [Hw Hev]. unfold sound. split_and!; [done|apply (ev_node _ _ _ _ Hev)|]. intros Hc d n i a Hn He Hi Ha.
  eapply (evolves_consistent None F0 F d Hwf); [|apply Hc|done..]. by eapply evolves_more; [|exact Hev].
Qed.

Lemma sound_outcome F0 d sha F : wf_fs F0 -> cache_outcome F0 d sha F -> sound F0 F.
Proof.
  intros Hwf Ho. unfold sound. split_and!; [apply Ho|destruct Ho as (_ & [Hev|[Hev _]]); apply (ev_node _ _ _ _ Hev)|].
  intros Hc d'. destruct (decide (d = d')) as [<- |Hne]; [by eapply outcome_consistent|].
  destruct Ho as (_ & [Hev|[Hev _]]); intros n i a Hn He Hi Ha;
    (eapply evolves_consistent; [exact Hwf|exact Hev|apply Hc|by intros [=]|done..]).
Qed.

Section kept.
Context `{Kernel}.

(** The program of the entry is in the directory, and can be used. *)
Definition cached_at (F : fs) (d : Z) (e : VariantEntry) : Prop :=
  exists fd, entry (f_tree F) d (SHA256 e) = Some fd /\ valid_entry F fd (UncompressedSize e) (SHA256 e).

(** The cache of a path: the directory a resolution of it opens. *)
Definition cache_dir (F : fs) (dir : string) (d : Z) : Prop :=
  private_dir F d /\ leads_to F cwd_base (filepath_Clean dir) d.

Definition in_cache (F : fs) (dir : string) (e : VariantEntry) : Prop :=
  exists d, cache_dir F dir d /\ cached_at F d e.

(** A materialization replaces one name, and no directory or link. *)
Definition replaces (F F' : fs) (d : Z) (sha : string) : Prop :=
  evolves exec_name (Some (d, sha)) F F' /\
  forall j, entry (f_tree F) d sha = Some j -> f_tree F !! j = Some TFile.

Lemma valid_entry_kept tmp x F F' i size sha :
  evolves tmp x F F' -> valid_entry F i size sha -> valid_entry F' i size sha.
Proof.
  intros Hev [Hi (a & Ha & Hr)]. split; [exact (ev_node _ _ _ _ Hev i _ Hi)|]. exists a. split; [|done].
  exact (lookup_weaken _ _ _ _ Ha (ev_attr _ _ _ _ Hev)).
Qed.

Lemma entries_kept T T' d : node_kept T T' -> is_Some (entries T d) -> is_Some (entries T' d).
Proof using Type.
  intros Hk [m Hd]. unfold entries in Hd at 1. destruct (T !! d) as [[]|] eqn:Hn; try discriminate. exact (Hk d _ Hn).
Qed.

Lemma private_dir_kept tmp x F F' d : evolves tmp x F F' -> private_dir F d -> private_dir F' d.
Proof.
  intros Hev [Hd (a & Ha & Hr) Hu]. split; [by eapply entries_kept; [apply (ev_node _ _ _ _ Hev)|]| |done].
  exists a. split; [|done]. exact (lookup_weaken _ _ _ _ Ha (ev_attr _ _ _ _ Hev)).
Qed.

(** What was in the cache stays there while directories are made. *)
Lemma in_cache_unpublished F F' dir e : wf_fs F -> unpublished no_name F F' -> in_cache F dir e -> in_cache F' dir e.
Proof.
  intros Hwf [Hwf' Hev] (d & [Hp (l & Hl & Hi)] & fd & He & Hv). exists d. split.
  - split; [by eapply private_dir_kept|]. exists l. split; [|done].
    eapply locate_mono; [exact Hwf|apply (ev_node _ _ _ _ Hev)| |done..]. intros d' n j. by apply (ev_entry _ _ _ _ Hev).
  - exists fd. split; [by apply (ev_entry _ _ _ _ Hev)|by eapply valid_entry_kept].
Qed.

(** A path to a directory stays one when a file is replaced. *)
Lemma cache_dir_replaces F F' dir d d' sha :
  wf_fs F -> replaces F F' d' sha -> cache_dir F dir d -> cache_dir F' dir d.
Proof.
  intros Hwf [Hev Hfile] [Hp (l & Hl & Hi)]. split; [by eapply private_dir_kept|].
  assert (forall a n, entry (f_tree F) a n = Some d -> entry (f_tree F') a n = Some d) as Hd.
  { intros a n Ha. apply (ev_entry _ _ _ _ Hev); [|done]. intros [= -> ->]. pose proof (Hfile d Ha) as Hf.
    destruct (pd_dir _ _ Hp) as [m Hm]. unfold entries in Hm. by rewrite Hf in Hm. }
  assert (paths_kept (f_tree F) (f_tree F')) as Hk.
  { split; [apply (ev_node _ _ _ _ Hev)| |apply Hwf]. intros a n j Ha Hj. apply (ev_entry _ _ _ _ Hev); [|done].
    intros [= -> ->]. pose proof (Hfile j Ha). destruct Hj as [[m Hj]|[t Hj]]; congruence. }
  destruct (locate_settled false _ F F' l Hk Hl) as (l' & Hl' & Hp' & Hno).
  { intros a n Ha. left. destruct (locate_entry _ _ _ _ _ _ _ Hl Ha) as [He _]. rewrite Hi in He. by rewrite He, (Hd a n). }
  exists l'. split; [done|]. destruct (place l) as [[a n]|e|] eqn:Hpl.
  - destruct (locate_entry _ _ _ _ _ _ _ Hl Hpl) as [He _]. destruct (locate_entry _ _ _ _ _ _ _ Hl' Hp') as [<- _].
    apply Hd. congruence.
  - by rewrite Hno.
  - by rewrite Hno.
Qed.

(** Entries with one digest have one size, so a replaced file is as good. *)
Lemma in_cache_replaces F F' dir d e e' :
  wf_fs F -> replaces F F' d (SHA256 e) -> cache_dir F dir d -> cached_at F' d e ->
  (SHA256 e' = SHA256 e -> UncompressedSize e' = UncompressedSize e) ->
  in_cache F dir e' -> in_cache F' dir e'.
Proof.
  intros Hwf Hr Hd Hc Hs (d' & Hd' & fd & He & Hv).
  assert (d' = d) as -> by (destruct Hd as [_ H1], Hd' as [_ H2]; by eapply leads_to_unique).
  exists d. split; [by eapply cache_dir_replaces|].
  destruct (decide (SHA256 e' = SHA256 e)) as [Heq|Hne].
  - unfold cached_at. by rewrite Heq, (Hs Heq).
  - destruct Hr as [Hev _]. exists fd. split; [apply (ev_entry _ _ _ _ Hev); [congruence|done]|by eapply valid_entry_kept].
Qed.

End kept.

(** ** One variant *)

Section variant.
Context `{Kernel} {GU : GoUnicode} {D : Decoders} `{ReaderAt R} (Hquiet : quiet) (E : CacheEnv) (r : R).

(** What a materialization replaces was a regular file. *)
Lemma materialize_replaces d dirPath ve payload out w w' :
  truthful -> wf_fs (w_fs w) -> digest_syntax (SHA256 ve) ->
  materializeAndOpenVariantAtFD d dirPath (Some ve) (Some payload) w = (Done out, w') ->
  forall j, entry (f_tree (w_fs w)) d (SHA256 ve) = Some j -> f_tree (w_fs w) !! j = Some TFile.
Proof using Hquiet.
  intros Htruth Hwf Hsha Hrun. set (F0 := w_fs w) in *. pose proof (digest_single _ Hsha) as Hs.
  set (old := forall j, entry (f_tree F0) d (SHA256 ve) = Some j -> f_tree F0 !! j = Some TFile).
  assert (hoare (eq F0) (validateCacheReplacementAt d (SHA256 ve)) (fun _ _ => old) (fun _ _ => True) (fun _ => True)) as Hold.
  { unfold validateCacheReplacementAt. eapply hoare_bind with (R := fun x _ => match x with
      | inl fi => forall j, entry (f_tree F0) d (SHA256 ve) = Some j -> info_of j F0 = Ok fi
      | inr e => isNotExistErr e = true -> forall j, entry (f_tree F0) d (SHA256 ve) <> Some j end).
    - apply hoare_try, hoare_inspect_err; [done..| |].
      + intros F e <- He Hno j Hj. unfold isNotExistErr, errors_Is in Hno.
        apply bool_decide_eq_true_1, list_elem_of_singleton in Hno as [= <-].
        destruct (wf_entry _ Hwf _ _ _ Hj) as [node Hn]. destruct (wf_attr _ Hwf j (ex_intro _ _ Hn)) as [a Ha].
        rewrite locate_name in He by done. unfold entry in Hj. destruct (entries _ d); [|done].
        simpl in He, Hj. unfold found, info_of in He. rewrite Hj in He. simpl in He. rewrite Hn, Ha in He.
        destruct He as [[n He]|[He|He]]; [by destruct (Htruth n)|discriminate..].
      + intros F fi <- Hfi j Hj. rewrite locate_name in Hfi by done. unfold entry in Hj.
        destruct (entries _ d); [|done]. simpl in Hfi, Hj. unfold found in Hfi. by rewrite Hj in Hfi.
    - intros [fi|e]; apply hoare_ghost; intros F HF.
      + intros w1 _. unfold lift. destruct (validateCacheEntryMetadata fi) as [[]|e|] eqn:Hv; [|exact I..].
        intros j Hj. apply regular_metadata in Hv as (Hn & _). destruct (info_of_inv _ _ _ (HF j Hj)) as (_ & Hnode & _). congruence.
      + destruct (isNotExistErr e) eqn:He; [|by apply hoare_fail]. apply hoare_ret. intros _ _ j Hj. by destruct (HF eq_refl j). }
  unfold materializeAndOpenVariantAtFD in Hrun. repeat (destruct (_ : bool); [discriminate|]).
  rewrite (Clean_digest (SHA256 ve)) in Hrun by done. specialize (Hold w eq_refl).
  unfold mbind at 1, io_bind at 1, wrapping at 1 in Hrun. destruct (validateCacheReplacementAt _ _ w) as [[[]|e|] w1]; [exact Hold|discriminate..].
Qed.

Definition grows (F F' : fs) (d : Z) (sha : string) : Prop := F' = F \/ replaces F F' d sha.

(** Nothing is reused but a program that can be. *)
Lemma hoare_reusable F d path e :
  digest_syntax (SHA256 e) ->
  hoare (eq F) (reusable d (SHA256 e) path e)
    (fun b F' => F = F' /\ (b = true -> 0 <= d -> cached_at F d e)) (fun _ => eq F) (eq F).
Proof using Hquiet.
  intros Hsha. unfold reusable. destruct (Z.leb_spec 0 d).
  - eapply hoare_bind with (R := fun v F' => F = F' /\ match v with inl _ => cached_at F d e | inr _ => True end).
    { apply hoare_try. eapply hoare_conseq; [apply (hoare_open_and_validate Hquiet F (fd_base d) (SHA256 e)
        (UncompressedSize e) (SHA256 e) False (False_ind _) (False_ind _))|done|..].
      - intros fd F' (<- & Hl & Hv). split; [done|]. exists fd. split; [|done]. by apply leads_to_name in Hl; [|apply digest_single].
      - by intros e' F' [<- _].
      - by intros F' [<- _]. }
    intros [fd|e']; apply hoare_ghost; intros F' [<- Hv].
    + apply hoare_observe; [unfold sys_close; observe|by intros..|]. intros []. by apply hoare_ret.
    + destruct (_ || _); [by apply hoare_fail|]. apply hoare_ret. by intros F' <-.
  - apply hoare_observe; [apply observes_try, observes_stat; done|by intros..|]. intros [fi|e'].
    2: { apply hoare_ret. by intros F' <-. }
    destruct (fi_node fi); try by apply hoare_fail. unfold VerifyCachedBinary.
    apply hoare_bind with (R := fun _ => eq F).
    { apply hoare_try. eapply hoare_conseq; [by apply (hoare_validation Hquiet (eq F) cwd_base path
        (UncompressedSize e) (SHA256 e) (mret tt)), hoare_ret|done..]. }
    intros [fd|e']; [apply hoare_observe; [unfold sys_close; observe|by intros..|]; intros []|];
      apply hoare_ret; intros F' <-; split; [done|lia|done|done].
Qed.

Lemma hoare_materialized F d dir e payload :
  truthful -> wf_fs F -> declared e -> 0 <= d -> dir <> ""%string ->
  hoare (eq F) (materializeAndOpenVariantAtFD d dir (Some e) (Some payload))
    (fun out F' => sound F F' /\ out.1 = filepath_Join [filepath_Clean dir; SHA256 e] /\ cached_at F' d e /\ replaces F F' d (SHA256 e))
    (fun _ => sound F) (sound F).
Proof using Hquiet.
  intros Htruth Hwf [Hsha Hsize] Hd Hne w ->.
  pose proof (hoare_materialize Hquiet (w_fs w) Hwf d e payload Hsha dir Hd Hne Hsize w eq_refl) as Hm.
  destruct (materializeAndOpenVariantAtFD _ _ _ _ w) as [[[path fd]|e'|] w1] eqn:Hrun;
    [|by apply (sound_outcome _ d (SHA256 e)); [|apply Hm]..].
  pose proof (materialize_replaces _ _ _ _ _ _ _ Htruth Hwf Hsha Hrun) as Hrep.
  destruct Hm as (Hpath & Ho & He & Hv). split; [by eapply sound_outcome|]. split; [done|]. split; [by exists fd|].
  split; [|done]. destruct Ho as (_ & [Hev|[Hev _]]); [by apply evolves_weaken|done].
Qed.

(** A variant that was put in a cache, or found there. *)
Lemma hoare_prewarm_in F d cleanDir e dict :
  truthful -> wf_fs F -> declared e -> filepath_Clean cleanDir = cleanDir -> cleanDir <> ""%string ->
  hoare (eq F) (prewarm_in r d cleanDir e dict)
    (fun out F' => sound F F' /\ out.1 = filepath_Join [cleanDir; SHA256 e] /\
      (0 <= d -> cached_at F' d e /\ grows F F' d (SHA256 e)))
    (fun _ => sound F) (sound F).
Proof using Hquiet.
  intros Htruth Hwf He Hclean Hne. pose proof (sound_refl F Hwf) as Hs. unfold prewarm_in.
  rewrite (Clean_digest (SHA256 e)) by apply He.
  eapply hoare_seq; [by apply hoare_reusable, He|by intros e' F' <-|by intros F' <-|].
  intros [|]; apply hoare_ghost; intros F' [<- Hb].
  { apply hoare_ret. intros F' <-. split; [done|]. split; [done|]. intros Hd. split; [auto|by left]. }
  destruct (Get _ _) as [c|e'|]; [|by apply hoare_fail; intros F' <-..].
  unfold MaterializeVariantAtFD. destruct (Z.lt_ge_cases d 0) as [Hd|Hd].
  { unfold materializeAndOpenVariantAtFD. rewrite (proj2 (Z.ltb_lt _ _)) by done. intros w Hw. subst F. done. }
  eapply hoare_bind with (R := fun path F' => sound F F' /\ path = filepath_Join [cleanDir; SHA256 e] /\
    cached_at F' d e /\ replaces F F' d (SHA256 e)).
  - eapply hoare_bind; [by apply hoare_materialized|]. intros [path fd]. rewrite Hclean.
    apply hoare_observe; [unfold sys_close; observe|by intros ? ? [? _]|by intros ? [? _]|]. intros []. by apply hoare_ret.
  - intros path. apply hoare_ret. intros F' (? & ? & ? & ?). split; [done|]. split; [done|]. intros _. split; [done|by right].
Qed.

(** Under the path of the cache, with what was there still there. *)
Definition prewarmed (F F' : fs) (dir : string) (e : VariantEntry) : Prop :=
  in_cache F' dir e /\
  forall e', (SHA256 e' = SHA256 e -> UncompressedSize e' = UncompressedSize e) -> in_cache F dir e' -> in_cache F' dir e'.

Definition natural (F : fs) : Prop := forall i, is_Some (f_tree F !! i) -> 0 <= i.

Lemma natural_back F F' : node_kept (f_tree F) (f_tree F') -> natural F' -> natural F.
Proof using Type. intros Hk Hn i Hi. apply Hn. by eapply node_kept_is_Some. Qed.

Lemma prewarmed_grows F F1 F' dir d e :
  wf_fs F -> unpublished no_name F F1 -> cache_dir F1 dir d -> cached_at F' d e -> grows F1 F' d (SHA256 e) ->
  prewarmed F F' dir e.
Proof using Type.
  intros Hwf Hup Hdir Hc Hg. pose proof (proj1 Hup) as Hwf1.
  assert (cache_dir F' dir d) as Hdir' by (destruct Hg as [-> |Hg]; [done|by eapply cache_dir_replaces]).
  split; [by exists d|]. intros e' Hs He'. apply (in_cache_unpublished F F1) in He'; [|done..].
  destruct Hg as [-> |Hg]; [done|by eapply in_cache_replaces].
Qed.

Lemma hoare_PrewarmVariantWithDict F dir e dict :
  truthful -> wf_fs F -> declared e -> dir <> ""%string ->
  hoare (eq F) (PrewarmVariantWithDict E r (Some e) dir dict)
    (fun out F' => sound F F' /\ out.1 = filepath_Join [filepath_Clean dir; SHA256 e] /\ (natural F' -> prewarmed F F' dir e))
    (fun _ => sound F) (sound F).
Proof using Hquiet.
  intros Htruth Hwf He Hne. unfold PrewarmVariantWithDict, resolveCacheDirFD.
  rewrite (proj2 (bad_checksum_false _)) by apply He.
  assert ((UncompressedSize e <=? 0) || (UncompressedSize e >? MaxPayloadSize) = false) as -> by (destruct He; lia).
  rewrite (proj2 (String.eqb_neq dir "")) by done. cbn [negb].
  eapply hoare_seq; [by apply hoare_explicit_dir|intros e' F'; by apply sound_unpublished|intros F'; by apply sound_unpublished|].
  intros [d cleanDir]. cbn [fst snd]. apply hoare_ghost. intros F1 (Hup & -> & Hdir). rewrite Clean_Clean in Hdir.
  pose proof (sound_unpublished _ _ Hwf Hup) as Hs1.
  assert (hoare (eq F1) (prewarm_in r d (filepath_Clean dir) e dict)
    (fun out F' => sound F F' /\ out.1 = filepath_Join [filepath_Clean dir; SHA256 e] /\ (natural F' -> prewarmed F F' dir e))
    (fun _ => sound F) (sound F)) as Hin.
  { eapply hoare_conseq; [apply hoare_prewarm_in; [done|apply Hs1|done|apply Clean_Clean|apply clean_path]|done|..].
    - intros out F' (Hs & Hp & Hlive). split; [by eapply sound_trans|]. split; [done|]. intros Hn.
      assert (0 <= d) as Hd.
      { apply Hn. destruct (entries_kept _ _ d (proj1 (proj2 Hs)) (pd_dir _ _ (proj1 Hdir))) as [m Hm].
        unfold entries in Hm. by destruct (f_tree F' !! d). }
      destruct (Hlive Hd) as [Hc Hg]. by apply (prewarmed_grows F F1 F' dir d e).
    - intros e' F' Hs. by eapply sound_trans.
    - intros F' Hs. by eapply sound_trans. }
  destruct (0 <=? d); [|exact Hin]. apply hoare_deferring_observes; [unfold sys_close; observe|by intros ? ? [? _]|done|exact Hin].
Qed.

(** ** All variants *)

Definition reported (dir : string) (e : VariantEntry) (res : PrewarmResult) : Prop :=
  exists alreadyCached, res = prewarm_result e (filepath_Join [filepath_Clean dir; SHA256 e]) alreadyCached.

(** One size for one digest. *)
Definition one_size (es : list VariantEntry) : Prop :=
  forall e e', e ∈ es -> e' ∈ es -> SHA256 e = SHA256 e' -> UncompressedSize e = UncompressedSize e'.

Lemma hoare_prewarm_entries dir dict sel F results :
  truthful -> wf_fs F -> Forall declared sel -> dir <> ""%string ->
  hoare (eq F) (prewarm_entries E r dir dict sel results)
    (fun out F' => sound F F' /\
      (exists rs, out.1 = results ++ rs /\ Forall2 (reported dir) (take (length rs) sel) rs /\ (out.2 = None -> length rs = length sel)) /\
      (natural F' -> out.2 = None -> forall old, one_size (old ++ sel) ->
         Forall (in_cache F dir) old -> Forall (in_cache F' dir) (old ++ sel)))
    (fun _ => sound F) (sound F).
Proof using Hquiet.
  intros Htruth Hwf Hsel Hne. revert F results Hwf. induction Hsel as [|e sel He _ IH]; intros F results Hwf; cbn [prewarm_entries].
  { apply hoare_ret. intros F' <-. split; [by apply sound_refl|]. split; [exists []; by rewrite app_nil_r|].
    intros _ _ old _ Hold. by rewrite app_nil_r. }
  eapply hoare_bind with (R := fun x F' => match x with
    | inl out => sound F F' /\ out.1 = filepath_Join [filepath_Clean dir; SHA256 e] /\ (natural F' -> prewarmed F F' dir e)
    | inr _ => sound F F' end); [by apply hoare_try, hoare_PrewarmVariantWithDict|].
  intros [[path b]|err]; apply hoare_ghost; intros F1 H1; cbn [fst snd] in H1.
  2: { apply hoare_ret. intros F' <-. split; [done|]. split; [exists []; by rewrite app_nil_r|done]. }
  destruct H1 as (Hs1 & -> & Hp). eapply hoare_conseq; [apply IH, Hs1|done|..].
  - intros out F' (Hs & (rs & Hrs & Hf & Hlen) & Hin). split; [by eapply sound_trans|]. split.
    + exists (prewarm_result e (filepath_Join [filepath_Clean dir; SHA256 e]) b :: rs). rewrite Hrs, <- app_assoc.
      split; [done|]. split; [constructor; [by exists b|done]|]. intros Ho. simpl. by rewrite Hlen.
    + intros Hn Ho old Hone Hold. destruct (Hp (natural_back _ _ (proj1 (proj2 Hs)) Hn)) as [Hnew Hkept].
      replace (old ++ e :: sel) with ((old ++ [e]) ++ sel) in * by by rewrite <- app_assoc.
      apply Hin; [done..|]. apply Forall_app. split; [|by constructor].
      apply Forall_forall. intros e' Hel. apply Hkept; [|by apply (proj1 (Forall_forall _ _) Hold)]. intros Hsha.
      apply Hone; [set_solver..|done].
  - intros e' F' Hs. by eapply sound_trans.
  - intros F' Hs. by eapply sound_trans.
Qed.

(** ** Verification of what was put there *)

(** The run returns [a] and changes nothing. *)
Definition yields {A} (F : fs) (m : io A) (a : A) : Prop :=
  hoare (eq F) m (fun x F' => F = F' /\ x = a) (fun _ _ => False) (fun _ => False).

Lemma yields_ret {A} F (a : A) : yields F (mret a) a.
Proof using Type. by apply hoare_ret; intros F' <-. Qed.

Lemma yields_bind {A B} F (m : io A) (k : A -> io B) a b : yields F m a -> yields F (k a) b -> yields F (m ≫= k) b.
Proof using Type. intros Hm Hk. eapply hoare_bind; [exact Hm|]. intros x. apply hoare_ghost. by intros F' [<- ->]. Qed.

Lemma yields_try {A} F (m : io A) a : yields F m a -> yields F (try m) (inl a).
Proof using Type.
  intros Hm. apply hoare_try. eapply hoare_conseq; [exact Hm|done|..]; [|done..]. by intros x F' [<- ->].
Qed.

Lemma yields_deferring {A} F cleanup (m : io A) a : yields F cleanup tt -> yields F m a -> yields F (deferring cleanup m) a.
Proof using Type.
  intros Hc Hm. eapply hoare_deferring; [exact Hm|..]; [|by intros e w []].
  intros x. apply hoare_ghost. intros F' [<- ->]. eapply hoare_conseq; [exact Hc|done|..]; [|done..]. by intros [] F' [<- _].
Qed.

Context (Hcalm : faultless).

Lemma yields_inspect {A} F (f : fs -> outcome errno A) a : f F = Ok a -> yields F (inspect f) a.
Proof using Hquiet Hcalm.
  intros Hf. apply (hoare_look Hquiet True (fun _ => Hcalm)); [by intros ? ? []|by intros ? ? ? []| |].
  - intros F' <- _. by exists a.
  - intros F' x <- Hx. split; [done|]. congruence.
Qed.

Lemma yields_close F i : yields F (ignore (sys_close i)) tt.
Proof using Hquiet Hcalm. apply (hoare_close Hquiet True (fun _ => Hcalm)); [by intros ? ? []|by intros F' <-]. Qed.

Lemma yields_dir F dir d : cache_dir F dir d -> yields F (OpenAndValidateCacheDirFD dir false) d.
Proof using Hquiet Hcalm.
  intros [[[m Hd] (a & Ha & Hu & Hperm) Huser] (l & Hl & Hi)]. unfold OpenAndValidateCacheDirFD.
  assert (f_tree F !! d = Some (TDir m)) as Hn by (unfold entries in Hd; by destruct (f_tree F !! d) as [[]|]; simplify_eq/=).
  set (fi := mkInfo d (TDir m) a (nlink (f_tree F) d)).
  eapply yields_bind; [apply yields_try, (yields_inspect F _ d); rewrite Hl; cbn; unfold found; rewrite Hi; cbn; by rewrite Hn|].
  apply yields_bind with fi.
  { unfold stat_or_close. apply yields_bind with (inl fi); [|apply yields_ret].
    apply yields_try, yields_inspect. unfold info_of. by rewrite Hn, Ha. }
  assert ((Z.land (st_mode fi) S_IFMT =? S_IFDIR) = true) as -> by (unfold st_mode; by rewrite st_mode_type).
  rewrite (proj2 (Z.ltb_ge _ _)) by done. cbn [fi fi_attr negb orb]. rewrite Hu, Z.eqb_refl. cbn [negb].
  rewrite (proj2 (insecure_bits fi)) by done. apply yields_ret.
Qed.

(** Every entry of the cache is reported as valid. *)
Definition verified (dir : string) (e : VariantEntry) : PrewarmResult :=
  mkPrewarmResult (ve_Level e) (SHA256 e) (filepath_Join [filepath_Clean dir; SHA256 e]) (UncompressedSize e) true true PrewarmStatusValid.

Lemma yields_VerifyVariant F dir e :
  declared e -> dir <> ""%string -> in_cache F dir e -> yields F (VerifyVariant E e dir) (verified dir e).
Proof using Hquiet Hcalm.
  intros [Hsha Hsize] Hne (d & [Hp Hl] & fd & He & Hv). unfold VerifyVariant.
  rewrite (proj2 (String.eqb_neq dir "")) by done.
  apply yields_bind with (inl (d, filepath_Clean dir)).
  { apply yields_bind with (inl d); [|apply yields_ret]. apply yields_try, yields_dir. split; [done|]. by rewrite Clean_Clean. }
  cbn beta iota. rewrite (proj2 (bad_checksum_false _) Hsha), (Clean_digest (SHA256 e)) by done.
  apply leads_to_name in He; [|by apply digest_single]. apply yields_deferring; [apply yields_close|].
  apply yields_bind with (inl fd); [|eapply yields_bind; [apply yields_close|apply yields_ret]].
  apply yields_try. eapply hoare_conseq; [apply (hoare_open_and_validate Hquiet F (fd_base d) (SHA256 e) (UncompressedSize e)
    (SHA256 e) True (fun _ => Hcalm) (fun _ => ex_intro _ fd (conj He Hv)))|done|..].
  - intros x F' (<- & Hx & _). split; [done|]. by eapply leads_to_unique.
  - by intros e' F' [_ []].
  - by intros F' [_ []].
Qed.

Lemma yields_verify_entries F dir ts vs results :
  dir <> ""%string -> Forall (fun v => declared v /\ in_cache F dir v) (List.filter (chosen ts) vs) ->
  yields F (verify_entries E dir ts vs results) (results ++ (verified dir <$> List.filter (chosen ts) vs)).
Proof using Hquiet Hcalm.
  intros Hne. revert results. induction vs as [|v vs IH]; intros results Hvs; cbn [verify_entries List.filter] in *.
  { rewrite app_nil_r. apply yields_ret. }
  destruct (chosen ts v); cbn [negb]; [|by apply IH]. inversion Hvs as [|? ? [Hc Hin] Hvs']; subst.
  eapply yields_bind; [by apply yields_VerifyVariant|]. 
  assert (results ++ (verified dir <$> v :: List.filter (chosen ts) vs) =
    (results ++ [verified dir v]) ++ (verified dir <$> List.filter (chosen ts) vs)) as -> by by rewrite <- app_assoc.
  by apply IH.
Qed.

End variant.

(** ** The index of a file *)

Section index.
Context {GU : GoUnicode} `{ReaderAt R}.

Lemma smap_lower_idem s : smap lower_char (smap lower_char s) = smap lower_char s.
Proof. induction s as [|c s IH]; [done|]. cbn [smap]. rewrite IH. f_equal. apply Ascii.eqb_eq, lower_char_idem. Qed.

Lemma digest_lower_idem s : digest_syntax s -> ToLower (ToLower s) = ToLower s.
Proof.
  assert (forall t, digest_syntax t -> ToLower t = smap lower_char t) as Hl.
  { intros t [_ Hx]. unfold ToLower, is_ascii. by rewrite (sforallb_impl _ _ _ is_hex_ascii Hx). }
  intros Hs. rewrite (Hl (ToLower s)) by by apply digest_syntax_lower. rewrite (Hl s) by done. apply smap_lower_idem.
Qed.

(** The decoder lowers the digests, so a selection has nothing left to lower. *)
Lemma decoded_lower n data o vs : decode_variants n data o = Ok vs -> Forall (fun v => lower_digest v = v) vs.
Proof.
  revert o vs. induction n as [|n IH]; intros o vs; cbn [decode_variants]; [by intros [= <-]|].
  intros Hd. inv_bind Hd. destruct a as [v o']. inv_bind Hd. injection Hd as <-. constructor; [|by eapply IH].
  unfold decodeBinaryVariant in Ha. inv_bind Ha. destruct a0 as [level p]. destruct (_ <? _)%nat; [done|].
  inv_bind Ha. destruct a3 as [sha q]. destruct (bad_checksum sha) eqn:Es; [done|]. inv_bind Ha. destruct a3 as [comp r].
  injection Ha as <- _. apply bad_checksum_false in Es. unfold lower_digest. cbn. by rewrite digest_lower_idem.
Qed.

Lemma unmarshal_lower data idx : UnmarshalBinaryIndex data = Ok idx -> Forall (fun v => lower_digest v = v) (Variants idx).
Proof.
  unfold UnmarshalBinaryIndex. destruct (_ <? _)%nat; [done|]. intros Hu.
  inv_bind Hu. destruct (negb _); [done|]. inv_bind Hu. destruct (negb _); [done|].
  inv_bind Hu. destruct a5 as [sha o1]. destruct (_ && _); [done|].
  inv_bind Hu. destruct a5 as [os o2]. inv_bind Hu. destruct a5 as [arch o3].
  inv_bind Hu. destruct a5 as [appLen o4]. destruct (_ <? _)%nat; [done|].
  inv_bind Hu. destruct a6 as [cnt o5]. inv_bind Hu. injection Hu as <-. cbn [Variants].
  match goal with Hd : decode_variants _ _ _ = Ok _ |- _ => by apply decoded_lower in Hd end.
Qed.

(** What is selected from the index of a file: the variants that are wanted, as
    the index has them, fit for the cache and with one size for each digest. *)
Lemma selected_variants (r : R) totalSize idx targets limit selected total :
  int64_range totalSize -> ReadTrailerAndIndex r totalSize = Ok idx ->
  selectPrewarmVariants idx targets limit = Ok (selected, total) ->
  (forall t, t ∈ targets -> FindVariant idx t <> None) /\ selected = List.filter (wanted idx targets) (Variants idx) /\
  Forall declared selected /\ one_size selected.
Proof.
  intros Ht Hr Hs. apply read_trailer_opened in Hr as (o & b & [H0 H1 H2 _ _ _ Hu Hb]); [|done].
  pose proof (unmarshal_count _ _ Hu) as Hcount. pose proof (unmarshal_lower _ _ Hu) as Hlow.
  apply unmarshal_sound in Hu as (Hty & _). unfold TrailerSize in *. apply ValidateBounds_layout in Hb; [|done|int_range].
  destruct (selected_declared idx o targets limit selected total Hb Hcount Hs) as (Hd & _ & _).
  apply (select_prewarm_spec idx o) in Hs as (Hf & Hsel & Hone & _ & _); [|done..].
  split; [done|]. split; [|done]. rewrite Hsel. apply list_eq_Forall2, Forall2_fmap_l, Forall_Forall2_diag, Forall_forall.
  intros v Hv. apply (proj1 (Forall_forall _ _) Hlow). apply list_elem_of_In, filter_In in Hv as [Hv _]. by apply list_elem_of_In.
Qed.

End index.

(** ** The whole binary *)

Section binary.
Context `{Kernel} {GU : GoUnicode} {D : Decoders} `{ReaderAt R} (Hquiet : quiet) (E : CacheEnv) (r : R).
Context (totalSize : Z) (Htotal : int64_range totalSize) (targets : list string) (dir : string) (Hdir : dir <> ""%string).

Lemma hoare_PrewarmBinary F limit :
  truthful -> wf_fs F ->
  hoare (eq F) (PrewarmBinaryWithOptions E r totalSize targets dir limit)
    (fun out F' => sound F F' /\ exists selected total,
      ReadTrailerAndIndex r totalSize = Ok out.1.1 /\ selectPrewarmVariants out.1.1 targets limit = Ok (selected, total) /\
      Forall2 (reported dir) (take (length out.1.2) selected) out.1.2 /\
      (out.2 = None -> Forall2 (reported dir) selected out.1.2 /\ (natural F' -> Forall (in_cache F' dir) selected)))
    (fun _ => sound F) (sound F).
Proof using Hquiet Htotal Hdir.
  intros Htruth Hwf. pose proof (sound_refl F Hwf) as Hs. unfold PrewarmBinaryWithOptions.
  assert (forall A B (m : outcome gerror A) (k : A -> io B) Q, (forall a, m = Ok a -> hoare (eq F) (k a) Q (fun _ => sound F) (sound F)) ->
    hoare (eq F) (lift m ≫= k) Q (fun _ => sound F) (sound F)) as Hlift.
  { intros A B m k Q Hk. destruct m as [a|e|] eqn:Hm; [by apply Hk|intros w Hw; subst F; done..]. }
  apply Hlift. intros idx Hidx%wrap_err_Ok. apply Hlift. intros [selected total] Hsel%wrap_err_Ok.
  apply Hlift. intros dict _. rewrite (proj2 (String.eqb_neq dir "")) by done.
  destruct (selected_variants r totalSize idx targets limit selected total Htotal Hidx Hsel) as (_ & _ & Hd & Hone).
  eapply hoare_bind with (R := fun d F' => F = F' /\ d = dir); [by apply hoare_ret; intros F' <-|].
  intros d. apply hoare_ghost. intros F' [<- ->].
  eapply hoare_bind; [by apply hoare_prewarm_entries|]. intros [results err]. apply hoare_ret.
  intros F' (HF & (rs & Hrs & Hf & Hlen) & Hin). cbn [fst snd app] in *. subst rs. split; [done|]. exists selected, total.
  split_and!; [done..|]. intros ->. rewrite take_ge in Hf by (by rewrite Hlen). split; [done|]. intros Hn.
  by apply (Hin Hn eq_refl []).
Qed.

(** What the verification makes of the report of a prewarm. *)
Definition as_verified (res : PrewarmResult) : PrewarmResult :=
  mkPrewarmResult (pr_Level res) (pr_SHA256 res) (pr_CachedPath res) (pr_Size res) true true PrewarmStatusValid.

Lemma reported_verified es rs : Forall2 (reported dir) es rs -> verified dir <$> es = as_verified <$> rs.
Proof using Type. induction 1 as [|e res es rs [b ->] _ IH]; [done|]. cbn. by rewrite IH. Qed.

Lemma yields_VerifyCacheBinary F limit idx selected total :
  faultless -> ReadTrailerAndIndex r totalSize = Ok idx -> selectPrewarmVariants idx targets limit = Ok (selected, total) ->
  Forall (in_cache F dir) selected ->
  yields F (VerifyCacheBinary E r totalSize targets dir) (idx, verified dir <$> selected).
Proof using Hquiet Htotal Hdir.
  intros Hcalm Hidx Hsel Hin. destruct (selected_variants r totalSize idx targets limit selected total Htotal Hidx Hsel) as (Hf & -> & Hd & _).
  unfold VerifyCacheBinary. rewrite Hidx, (proj2 (String.eqb_neq dir "")) by done.
  apply yields_bind with idx; [apply yields_ret|]. apply yields_bind with dir; [apply yields_ret|].
  pose proof (chosen_wanted idx targets) as Hc.
  assert (exists ts, (forall v, chosen ts v = wanted idx targets v) /\ yields F (match targets with
    | [] => mret None
    | _ => s ← lift (wrap_err prewarm_tags (target_levels idx targets ∅)); mret (Some s)
    end) ts) as (ts & Hts & Hrun).
  { destruct targets as [|t0 tl]; [exists None; split; [apply Hc|apply yields_ret]|].
    destruct (target_levels idx (t0 :: tl) ∅) as [s|e|]; cbn [mbind outcome_bind] in Hc; [|destruct Hc as (t & Ht & He); by destruct (Hf t Ht)|done].
    exists (Some s). split; [apply Hc|]. eapply yields_bind; [apply yields_ret|apply yields_ret]. }
  eapply yields_bind; [exact Hrun|]. rewrite <- (filter_ext _ _ Hts) in *.
  eapply yields_bind; [apply (yields_verify_entries Hquiet E Hcalm F dir ts _ []); [done|]|apply yields_ret].
  apply Forall_forall. intros v Hv. split; [by apply (proj1 (Forall_forall _ _) Hd)|by apply (proj1 (Forall_forall _ _) Hin)].
Qed.

End binary.

(** ** A cache to fill *)

Definition natural_check (F : fs) : bool := forallb (fun e => 0 <=? e.1) (map_to_list (f_tree F)).

Lemma natural_check_sound F : natural_check F = true -> natural F.
Proof.
  unfold natural_check. rewrite forallb_forall. intros Hall i [node Hi]. apply Z.leb_le, (Hall (i, node)).
  by apply list_elem_of_In, elem_of_map_to_list.
Qed.

Lemma cache_disk_sound : consistent cache_disk.
Proof.
  intros d n i a _ _ Hi. exfalso. cbn in Hi. apply lookup_insert_Some in Hi as [[_ [=]]|[_ Hi]].
  by apply lookup_singleton_Some in Hi as [_ [=]].
Qed.

Abbreviation prewarm_run := (@PrewarmBinaryWithOptions calm_kernel ascii_tables no_decoders _ _ CacheDirProofs.cache_env
  sample_file (Z.of_nat (length sample_file)) [] "/cache" None (sample_world cache_disk)).

(** Both variants of the sample have one digest: the second is found in the cache. *)
Definition prewarm_report : list PrewarmResult :=
  [prewarm_result sample_v1 (filepath_Join ["/cache"%string; SHA256 sample_v1]) false;
   prewarm_result sample_v3 (filepath_Join ["/cache"%string; SHA256 sample_v3]) true].

Lemma prewarm_run_result : prewarm_run.1 = Done (sample_index, prewarm_report, None).
Proof. vm_compute. reflexivity. Qed.

Lemma prewarm_run_done : prewarm_run = (Done (sample_index, prewarm_report, None), prewarm_run.2).
Proof. rewrite <- prewarm_run_result. exact (surjective_pairing prewarm_run). Qed.

(** ** Theorems *)

(** C36. Whatever calls fail and wherever the process dies, a prewarm leaves no directory with a
    wrong file under a digest. When it reports success, every selected variant is reported, in
    the order of the index, and stands under its digest in the directory named, which is
    private, as a program of the user with the recorded size and digest. *)
Theorem PrewarmBinary_fills `{Kernel} {GU : GoUnicode} {D : Decoders} `{ReaderAt R} (E : CacheEnv) (r : R) (totalSize : Z)
    (targets : list string) (dir : string) (limit : option Z) (w w' : world) out :
  quiet -> truthful -> wf_fs (w_fs w) -> int64_range totalSize -> dir <> ""%string -> consistent (w_fs w) ->
  PrewarmBinaryWithOptions E r totalSize targets dir limit w = (out, w') ->
  consistent (w_fs w') /\
  forall idx results, out = Done (idx, results, None) -> natural (w_fs w') ->
    exists selected total, ReadTrailerAndIndex r totalSize = Ok idx /\
      selectPrewarmVariants idx targets limit = Ok (selected, total) /\
      Forall2 (reported dir) selected results /\ Forall (in_cache (w_fs w') dir) selected.
Proof.
  intros Hq Htruth Hwf Ht Hdir Hc Hrun.
  pose proof (hoare_PrewarmBinary Hq E r totalSize Ht targets dir Hdir (w_fs w) limit Htruth Hwf w eq_refl) as Hp.
  rewrite Hrun in Hp. destruct out as [[[idx results] err]|e|]; [|split; [by apply Hp|done]..].
  destruct Hp as (Hs & selected & total & Hidx & Hsel & _ & Hdone). split; [by apply Hs|].
  intros idx' results' [= -> -> ->] Hn. destruct (Hdone eq_refl) as [Hf Hin]. exists selected, total. split_and!; auto.
Qed.

Lemma PrewarmBinary_fills_witness :
  consistent (w_fs prewarm_run.2) /\
  forall idx results, prewarm_run.1 = Done (idx, results, None) -> natural (w_fs prewarm_run.2) ->
    exists selected total, @ReadTrailerAndIndex ascii_tables _ _ sample_file (Z.of_nat (length sample_file)) = Ok idx /\
      @selectPrewarmVariants ascii_tables idx [] None = Ok (selected, total) /\
      Forall2 (reported "/cache") selected results /\ Forall (@in_cache calm_kernel (w_fs prewarm_run.2) "/cache") selected.
Proof.
  apply (@PrewarmBinary_fills calm_kernel ascii_tables no_decoders _ _ CacheDirProofs.cache_env sample_file (Z.of_nat (length sample_file))
    [] "/cache" None (sample_world cache_disk) prewarm_run.2 prewarm_run.1).
  - by intros n F.
  - by intros n.
  - apply cache_disk_wf.
  - vm_compute. split; [discriminate|reflexivity].
  - discriminate.
  - apply cache_disk_sound.
  - exact (surjective_pairing prewarm_run).
Defined.

(** C35. The cache a prewarm filled passes the verification against the same artifact: the same
    levels are reported in the same order, with the same paths, sizes and digests, all cached
    and valid, and looking changes nothing. *)
Theorem VerifyCacheBinary_after_PrewarmBinary `{Kernel} {GU : GoUnicode} {D : Decoders} `{ReaderAt R} (E : CacheEnv) (r : R)
    (totalSize : Z) (targets : list string) (dir : string) (limit : option Z) (idx : Index) (results : list PrewarmResult)
    (w w' : world) :
  quiet -> faultless -> wf_fs (w_fs w) -> int64_range totalSize -> dir <> ""%string -> natural (w_fs w') ->
  PrewarmBinaryWithOptions E r totalSize targets dir limit w = (Done (idx, results, None), w') ->
  forall n log, exists w'',
    VerifyCacheBinary E r totalSize targets dir (mkWorld (w_fs w') n log) = (Done (idx, as_verified <$> results), w'') /\
    w_fs w'' = w_fs w'.
Proof.
  intros Hq Hcalm Hwf Ht Hdir Hn Hrun n log. assert (truthful) as Htruth by (intros k; by rewrite Hcalm).
  pose proof (hoare_PrewarmBinary Hq E r totalSize Ht targets dir Hdir (w_fs w) limit Htruth Hwf w eq_refl) as Hp.
  rewrite Hrun in Hp. destruct Hp as (_ & selected & total & Hidx & Hsel & _ & Hdone).
  destruct (Hdone eq_refl) as [Hf Hin]. cbn [fst snd] in *. rewrite <- (reported_verified dir _ _ Hf).
  pose proof (yields_VerifyCacheBinary Hq E r totalSize Ht targets dir Hdir (w_fs w') limit idx selected total Hcalm Hidx Hsel (Hin Hn)
    (mkWorld (w_fs w') n log) eq_refl) as Hv.
  destruct (VerifyCacheBinary _ _ _ _ _ _) as [[out|e|] w'']; [|done..]. destruct Hv as [Hw ->]. by exists w''.
Qed.

Lemma VerifyCacheBinary_after_PrewarmBinary_witness :
  exists w'',
    @VerifyCacheBinary calm_kernel ascii_tables _ _ CacheDirProofs.cache_env sample_file (Z.of_nat (length sample_file)) [] "/cache"
      (mkWorld (w_fs prewarm_run.2) 0 []) =
      (Done (sample_index, as_verified <$> prewarm_report), w'') /\
    w_fs w'' = w_fs prewarm_run.2.
Proof.
  apply (@VerifyCacheBinary_after_PrewarmBinary calm_kernel ascii_tables no_decoders _ _ CacheDirProofs.cache_env sample_file
    (Z.of_nat (length sample_file)) [] "/cache" None sample_index _ (sample_world cache_disk) prewarm_run.2).
  - by intros n F.
  - by intros n.
  - apply cache_disk_wf.
  - vm_compute. split; [discriminate|reflexivity].
  - discriminate.
  - apply natural_check_sound. vm_compute. reflexivity.
  - exact prewarm_run_done.
Defined.
