(* ===== verification/StubCommands.v ===== *)
(** * The launcher's own commands ([meta_full.go], [optimize.go], [trim.go], [image_path.go])

    The commands of the full profile of the launcher: extracting or trimming
    itself in place or to another file, filling and checking the cache, and the
    routing between them.  What is printed is not modelled: printing is an
    argument, and of a command its error is kept.  At the end what a command
    that writes a program leaves behind. *)

From S2P Require Import Prelude GoStrings GoPath GoIO Vfs GoOS Sha256 Microarch Format FormatIndex FormatTrailer Codec PackTrim PackPlan PackPrewarm.
From S2P Require Import InputFile VfsLogic VfsEffects VfsStage Lifecycle LifecycleProofs LifecycleAtomic Cache StubEnv Stub StubProofs StubRun Prewarm.
From stdpp Require Import base list strings gmap.
From Stdlib Require Import ZArith Lia Strings.Ascii Strings.Byte.

Local Open Scope Z_scope.

(** ** Flags *)

Definition flagInfo : string := "--microfat:info".
Definition flagOptimize : string := "--microfat:optimize".
Definition flagOptimizeTo : string := "--microfat:optimize-to".
Definition flagTrim : string := "--microfat:trim".
Definition flagTrimTo : string := "--microfat:trim-to".
Definition flagSpecialize : string := "--microfat:specialize".
Definition flagSpecializeTo : string := "--microfat:specialize-to".
Definition flagPrewarm : string := "--microfat:prewarm".
Definition flagHelp : string := "--microfat:help".
Definition flagMetadataPolicyPrefix : string := "--microfat:metadata-policy=".
Definition flagBreakHardlinks : string := "--microfat:break-hardlinks".

Definition isPrefixOrExact (arg flag : string) : bool :=
  if String.eqb flag "" then false else String.eqb arg flag || HasPrefix arg (flag ++ "=").

Definition hasJSONFlag (args : list string) : bool :=
  existsb (fun a => String.eqb a "--json" || String.eqb a "-json") args.

Definition hasVerifyFlag (args : list string) : bool :=
  existsb (fun a => String.eqb a "--verify" || String.eqb a "-verify") args.

(** [strings.CutPrefix] *)
Definition CutPrefix (s prefix : string) : option string :=
  if HasPrefix s prefix then Some (sdrop (String.length prefix) s) else None.

(** The first argument after the command that is not one of the launcher's. *)
Fixpoint first_operand (args : list string) : outcome gerror string :=
  match args with
  | [] => Err (errors_New "requires a destination path")
  | a :: rest =>
      if HasPrefix a metaPrefix then first_operand rest
      else if String.eqb a "" then Err (errors_New "requires a destination path") else Ok a
  end.

(** [rest] is [os.Args[2:]]. *)
Definition extractTargetPath (arg primaryFlag aliasFlag : string) (rest : list string) : outcome gerror string :=
  let required target := if String.eqb target "" then Err (errors_New "requires a destination path") else Ok target in
  match CutPrefix arg (primaryFlag ++ "=") with
  | Some after => required after
  | None =>
      if negb (String.eqb aliasFlag "") && HasPrefix arg (aliasFlag ++ "=") then required (TrimPrefix arg (aliasFlag ++ "="))
      else first_operand rest
  end.

Definition isImageMutation (arg : string) : bool :=
  String.eqb arg flagTrim || String.eqb arg flagSpecialize || String.eqb arg flagOptimize ||
  isPrefixOrExact arg flagTrimTo || isPrefixOrExact arg flagSpecializeTo || isPrefixOrExact arg flagOptimizeTo.

(** ** Options *)

(** [lifecycle.Options] *)
Record Options := mkOptions { opt_Policy : MetadataPolicy; opt_BreakHardlinks : bool }.

Definition DefaultOptions : Options := mkOptions PolicyStrict false.

(** A policy as the string it is in the code. *)
Definition policy_string (p : MetadataPolicy) : string :=
  match p with PolicyStrict => "strict" | PolicyStrip => "strip" end.

Definition errDeploymentChanged : gerror := [Sentinel "errDeploymentChanged"].

(** What [errors.Is] finds in an error of [TrimBinary]: none of its callers asks. *)
Definition trim_tags (e : trim_err) : gerror :=
  match e with TrimIndex e => format_tags e | TrimWrite e => format_tags e | _ => errors_New "trim" end.

Section options.
Context {GU : GoUnicode}.

Fixpoint parse_options (args : list string) (opts : Options) : outcome gerror Options :=
  match args with
  | [] => Ok opts
  | arg :: rest =>
      if HasPrefix arg flagMetadataPolicyPrefix then
        pol ← ParsePolicy (TrimPrefix arg flagMetadataPolicyPrefix);
        parse_options rest (mkOptions pol (opt_BreakHardlinks opts))
      else if String.eqb arg flagBreakHardlinks then parse_options rest (mkOptions (opt_Policy opts) true)
      else parse_options rest opts
  end.

Definition parseLifecycleOptions (args : list string) : outcome gerror Options := parse_options args DefaultOptions.

(** The levels named after [=], without repetitions, and the two words among
    them; [idx] of the code is never nil here. *)
Record prewarm_args := mkPrewarmArgs { pa_levels : list string; pa_json : bool; pa_verify : bool }.

Definition addLevel (targetLevels : list string) (lvl : string) : list string :=
  if bool_decide (lvl ∈ targetLevels) then targetLevels else targetLevels ++ [lvl].

Fixpoint parse_tokens (idx : Index) (tokens : list string) (a : prewarm_args) : outcome gerror prewarm_args :=
  match tokens with
  | [] => Ok a
  | token :: rest =>
      let token := TrimSpace token in
      if EqualFold token "verify" then parse_tokens idx rest (mkPrewarmArgs (pa_levels a) (pa_json a) true)
      else if EqualFold token "all" then
        parse_tokens idx rest (mkPrewarmArgs (foldl addLevel (pa_levels a) (VariantLevels idx)) (pa_json a) (pa_verify a))
      else if EqualFold token "json" then parse_tokens idx rest (mkPrewarmArgs (pa_levels a) true (pa_verify a))
      else if negb (String.eqb token "") then
        match FindVariant idx token with
        | None => Err (errors_New "variant level not found in binary manifest")
        | Some entry => parse_tokens idx rest (mkPrewarmArgs (addLevel (pa_levels a) (ve_Level entry)) (pa_json a) (pa_verify a))
        end
      else parse_tokens idx rest a
  end.

Definition parsePrewarmArgs (arg defaultLevel : string) (idx : Index) : outcome gerror prewarm_args :=
  a ← match CutPrefix arg (flagPrewarm ++ "=") with
      | Some val => parse_tokens idx (Split val ",") (mkPrewarmArgs [] false false)
      | None => Ok (mkPrewarmArgs [] false false)
      end;
  if bool_decide (pa_levels a = []) && negb (String.eqb defaultLevel "") then
    let canonicalDefault := match FindVariant idx defaultLevel with Some entry => ve_Level entry | None => defaultLevel end in
    Ok (mkPrewarmArgs [canonicalDefault] (pa_json a) (pa_verify a))
  else Ok a.

End options.

(** ** Writing a program *)

Section commands.
Context `{Kernel} {GU : GoUnicode} {D : Decoders}.

(** The environment of the launcher, its arguments, the path it was started
    by, the name its file was opened under, and the time. *)
Context (process args : list string) (selfPath selfName : string) (now : Z).

Definition validateDeploymentPath (path : string) (image : Z) : io unit :=
  if String.eqb path "" then fail errDeploymentChanged
  else
    running ← wrapping (app errDeploymentChanged) (sys_fstat image);
    current ← wrapping (app errDeploymentChanged) (os_Stat path);
    if SameFile running current then mret tt
    else fail errDeploymentChanged.

(** [TrimBinary] writing to the staged file. *)
Definition trim_transform (selfFile totalSize : Z) (targetLevel : string) : TransformFunc := fun F =>
  let '(w, r) := TrimBinary (image selfFile F) totalSize targetLevel now (mkPieces []) in
  (piece_list w, match r with Ok _ => None | Err e => Some (trim_tags e) | Panic => Some [] end).

(** The transaction over the launcher's own file. *)
Definition replace_self (selfFile : Z) (opts : Options) (transform : TransformFunc) : io unit :=
  _ ← validateDeploymentPath selfPath selfFile;
  real ← try (filepath_EvalSymlinks selfPath);
  let realPath := match real with inl p => p | inr _ => selfPath end in
  Execute (mkTx realPath (Some selfFile) realPath IntentReplaceSource (policy_string (opt_Policy opts))
    (opt_BreakHardlinks opts) (Some transform)).

Definition create_copy (destPath : string) (selfFile : Z) (opts : Options) (transform : TransformFunc) : io unit :=
  if String.eqb destPath "" then fail (errors_New "destination path must not be empty")
  else
    Execute (mkTx selfName (Some selfFile) destPath IntentCreateOnly (policy_string (opt_Policy opts))
      (opt_BreakHardlinks opts) (Some transform)).

Definition optimizeInPlace (selfFile : Z) (entry : VariantEntry) (idx : Index) (opts : Options) : io unit :=
  replace_self selfFile opts (extractVariantToWriter selfFile entry (Some idx)).

Definition optimizeTo (destPath : string) (selfFile : Z) (entry : VariantEntry) (idx : Index) (opts : Options) : io unit :=
  create_copy destPath selfFile opts (extractVariantToWriter selfFile entry (Some idx)).

Definition trimInPlace (selfFile totalSize : Z) (targetLevel : string) (opts : Options) : io unit :=
  replace_self selfFile opts (trim_transform selfFile totalSize targetLevel).

Definition trimTo (destPath : string) (selfFile totalSize : Z) (targetLevel : string) (opts : Options) : io unit :=
  create_copy destPath selfFile opts (trim_transform selfFile totalSize targetLevel).

(** The size of the new file is looked up to be printed. *)
Definition handleTrimInPlace (selfFile statSize : Z) (selectedLevel : string) (opts : Options) : io unit :=
  _ ← trimInPlace selfFile statSize selectedLevel opts;
  _ ← try (os_Stat selfPath);
  mret tt.

Definition handleTrimTo (arg1 : string) (selfFile statSize : Z) (selectedLevel : string) (opts : Options) : io unit :=
  targetPath ← lift (extractTargetPath arg1 flagTrimTo flagSpecializeTo (drop 2 args));
  let cleanTarget := filepath_Clean targetPath in
  _ ← trimTo cleanTarget selfFile statSize selectedLevel opts;
  _ ← try (os_Stat cleanTarget);
  mret tt.

Definition handleOptimizeInPlace (selfFile : Z) (selectedEntry : VariantEntry) (idx : Index) (opts : Options) : io unit :=
  optimizeInPlace selfFile selectedEntry idx opts.

Definition handleOptimizeTo (arg1 : string) (selfFile : Z) (selectedEntry : VariantEntry) (idx : Index) (opts : Options) : io unit :=
  targetPath ← lift (extractTargetPath arg1 flagOptimizeTo "" (drop 2 args));
  optimizeTo (filepath_Clean targetPath) selfFile selectedEntry idx opts.

(** ** Filling and checking the cache *)

(** What is sent to standard output, and whether as JSON. *)
Inductive output :=
| HelpText
| InfoReport (json : bool)
| PrewarmReport (json : bool) (results : list PrewarmResult).

(** Printing: it can only fail. *)
Context (print : output -> io unit).

Definition json_wanted (jsonOutput : bool) : bool := jsonOutput || EqualFold (Getenv process "MICROFAT_LOG") "json".

Definition handlePrewarmVerify (selfFile statSize : Z) (targetLevels : list string) (cacheDir : string) (jsonOutput : bool) : io unit :=
  F ← inspect (fun F => Ok F);
  '(_, results) ← VerifyCacheBinary (cache_env process) (image selfFile F) statSize targetLevels cacheDir;
  _ ← print (PrewarmReport (json_wanted jsonOutput) results);
  if forallb pr_Valid results then mret tt
  else fail (errors_New "cache verification failed for one or more variants").

Definition handlePrewarmExtract (selfFile statSize : Z) (targetLevels : list string) (cacheDir : string) (jsonOutput : bool) : io unit :=
  F ← inspect (fun F => Ok F);
  '(_, results) ← PrewarmBinary (cache_env process) (image selfFile F) statSize targetLevels cacheDir;
  print (PrewarmReport (json_wanted jsonOutput) results).

Definition prewarmStub (selfFile statSize : Z) (idx : Index) (defaultLevel arg : string) (jsonOutput verifyOnly : bool) : io unit :=
  a ← lift (parsePrewarmArgs arg defaultLevel idx);
  let jsonOutput := pa_json a || jsonOutput in
  let verifyOnly := pa_verify a || verifyOnly in
  if bool_decide (pa_levels a = []) then fail (errors_New "no compatible selected variant")
  else
    '(dirFD, cacheDir) ← resolveCacheDirFD (cache_env process) "" (negb verifyOnly);
    _ ← (if 0 <=? dirFD then ignore (sys_close dirFD) else mret tt);
    if verifyOnly then handlePrewarmVerify selfFile statSize (pa_levels a) cacheDir jsonOutput
    else handlePrewarmExtract selfFile statSize (pa_levels a) cacheDir jsonOutput.

(** ** Routing *)

(** A command was taken: its error, if any. *)
Definition handled (m : io unit) : io (option (option failure)) :=
  r ← try m;
  mret (Some match r with inl _ => None | inr e => Some (Wrapped e) end).

Definition info_json (arg1 : string) : bool := String.eqb arg1 (flagInfo ++ "=json") || hasJSONFlag (drop 2 args).
Definition prewarm_json (arg1 : string) : bool := HasSuffix arg1 "=json" || hasJSONFlag (drop 2 args).
Definition prewarm_verify (arg1 : string) : bool := Contains arg1 "verify" || hasVerifyFlag (drop 2 args).

Definition handleSelectionFailure (arg : string) (selfFile size : Z) (idx : Index) : io (option (option failure)) :=
  if String.eqb arg flagHelp then handled (ignore (print HelpText))
  else if isPrefixOrExact arg flagInfo then handled (print (InfoReport (info_json arg)))
  else if isPrefixOrExact arg flagPrewarm then
    handled (prewarmStub selfFile size idx "" arg (prewarm_json arg) (prewarm_verify arg))
  else mret None.

(** The file is checked and the options are read before a program is written. *)
Definition mutation_options (arg1 : string) (selfFile : Z) : io Options :=
  if isImageMutation arg1 then
    _ ← validateDeploymentPath selfPath selfFile;
    lift (parseLifecycleOptions (drop 1 args))
  else mret DefaultOptions.

Definition route (arg1 : string) (selfFile statSize : Z) (idx : Index) (selectedEntry : VariantEntry) (opts : Options) :
    option (io unit) :=
  if String.eqb arg1 flagHelp then Some (ignore (print HelpText))
  else if isPrefixOrExact arg1 flagInfo then Some (print (InfoReport (info_json arg1)))
  else if String.eqb arg1 flagTrim || String.eqb arg1 flagSpecialize then
    Some (handleTrimInPlace selfFile statSize (ve_Level selectedEntry) opts)
  else if isPrefixOrExact arg1 flagTrimTo || isPrefixOrExact arg1 flagSpecializeTo then
    Some (handleTrimTo arg1 selfFile statSize (ve_Level selectedEntry) opts)
  else if String.eqb arg1 flagOptimize then Some (handleOptimizeInPlace selfFile selectedEntry idx opts)
  else if isPrefixOrExact arg1 flagOptimizeTo then Some (handleOptimizeTo arg1 selfFile selectedEntry idx opts)
  else if isPrefixOrExact arg1 flagPrewarm then
    Some (prewarmStub selfFile statSize idx (ve_Level selectedEntry) arg1 (prewarm_json arg1) (prewarm_verify arg1))
  else None.

Definition handleMetaCommand (arg1 : string) (selfFile statSize : Z) (idx : Index) (selectedEntry : VariantEntry) :
    io (option (option failure)) :=
  o ← try (mutation_options arg1 selfFile);
  match o with
  | inr e => mret (Some (Some (Wrapped e)))
  | inl opts =>
      match route arg1 selfFile statSize idx selectedEntry opts with
      | Some m => handled m
      | None => mret None
      end
  end.

(** Both as the main line calls them. *)
Definition full_handleMetaCommand (arg1 : string) (selfFile statSize : Z) (idx : Index) (ve : option VariantEntry) :
    io (option (option failure)) :=
  match ve with
  | Some ve => handleMetaCommand arg1 selfFile statSize idx ve
  | None => handleSelectionFailure arg1 selfFile statSize idx
  end.

End commands.

(** ** Trimming into pieces *)

(** The same bytes reach a file and a list of pieces. *)
Definition same_bytes {A} (m : pieces * A) (m' : list byte * A) : Prop :=
  concat (piece_list m.1) = m'.1 /\ m.2 = m'.2.

Lemma same_bytes_andthen {A B} (m : pieces * outcome trim_err A) m' (k : pieces -> A -> pieces * outcome trim_err B) k' :
  same_bytes m m' -> (forall ps out a, concat (piece_list ps) = out -> same_bytes (k ps a) (k' out a)) ->
  same_bytes (andthen m k) (andthen m' k').
Proof. destruct m as [ps r], m' as [out r']. intros [Hb [= <-]] Hk. destruct r; [by apply Hk|done..]. Qed.

Lemma same_bytes_write ps out p :
  concat (piece_list ps) = out -> concat (piece_list (mkPieces (piece_list ps ++ [p]))) = out ++ p.
Proof. intros <-. cbn. by rewrite concat_app; cbn; rewrite app_nil_r. Qed.

Lemma same_bytes_section `{ReaderAt R} (r : R) off n ps out :
  concat (piece_list ps) = out -> same_bytes (copy_section r off n ps) (copy_section r off n out).
Proof.
  intros Hb. unfold copy_section. destruct (ReadAt _ _ _); [|done]. cbn. split; [|done]. by apply same_bytes_write.
Qed.

Lemma same_bytes_index idx offset ps out :
  concat (piece_list ps) = out ->
  same_bytes (WriteIndexAndTrailer ps idx offset).1 (WriteIndexAndTrailer out idx offset).1 /\
  (WriteIndexAndTrailer ps idx offset).2 = (WriteIndexAndTrailer out idx offset).2.
Proof.
  intros Hb. unfold WriteIndexAndTrailer. generalize (if Version idx =? 0 then FormatVersionCurrent else Version idx) as v.
  intros v. unfold WriteIndexAndTrailerWithVersion. do 3 (destruct (_ : bool); [done|]).
  destruct (MarshalBinaryIndex _) as [b|e|]; [|done..]. destruct (_ >? _); [done|].
  cbn [Write pieces_writer file_writer pieces_write file_append]. apply same_bytes_write with (p := b) in Hb.
  destruct (make_trailer _ _ _) as [t|e|]; cbn; [|done..].
  split; [|done]. split; [|done]. by apply (same_bytes_write (mkPieces _)).
Qed.

Lemma same_bytes_TrimBinary {GU : GoUnicode} `{ReaderAt R} (r : R) size level now ps out :
  concat (piece_list ps) = out ->
  same_bytes (TrimBinary r size level now ps) (TrimBinary r size level now out).
Proof.
  intros Hb. unfold TrimBinary. apply same_bytes_andthen; [by split|]. clear ps out Hb. intros ps out idx Hb.
  destruct (_ =? _)%nat; [done|]. destruct (FindVariant _ _) as [v|]; [|done].
  apply same_bytes_andthen; [by split|]. clear ps out Hb. intros ps out first Hb. cbv zeta.
  destruct (_ || _); [done|].
  apply same_bytes_andthen; [by apply same_bytes_section|]. clear ps out Hb. intros ps out [] Hb.
  apply same_bytes_andthen; [destruct (_ >? _); [by apply same_bytes_section|by split]|]. clear ps out Hb. intros ps out [] Hb.
  apply same_bytes_andthen; [by apply same_bytes_section|]. clear ps out Hb. intros ps out [] Hb.
  match goal with |- context [WriteIndexAndTrailer ps ?i ?o] => pose proof (same_bytes_index i o ps out Hb) as [[H1 H2] H3];
    destruct (WriteIndexAndTrailer ps i o) as [[w i1] [n|e|]], (WriteIndexAndTrailer out i o) as [[w' i2] [n'|e'|]] end;
    cbn in *; try done; split; cbn; congruence.
Qed.

(** ** Flags apart *)

Lemma HasPrefix_inv p s : HasPrefix s p = true -> exists r, s = (p ++ r)%string.
Proof.
  unfold HasPrefix. revert s. induction p as [|c p IH]; intros s; [by exists s|].
  destruct s as [|d s]; cbn; [done|]. destruct (Ascii.ascii_dec c d) as [<-|]; [|done].
  intros [r ->]%IH. by exists r.
Qed.

Lemma isPrefixOrExact_inv arg flag :
  isPrefixOrExact arg flag = true -> arg = flag \/ exists r, arg = (flag ++ "=" ++ r)%string.
Proof.
  unfold isPrefixOrExact. destruct (String.eqb flag ""); [done|].
  intros [->%String.eqb_eq|[r ->]%HasPrefix_inv]%orb_true_iff; [by left|]. right. exists r. by rewrite <- sapp_assoc.
Qed.

(** ** Arguments of the program *)

(** Every flag begins as the launcher's flags do. *)
Lemma not_exact arg s : HasPrefix arg metaPrefix = false -> String.eqb arg (metaPrefix ++ s) = false.
Proof.
  intros Hp. destruct (String.eqb_spec arg (metaPrefix ++ s)) as [->|]; [|done]. by rewrite HasPrefix_app in Hp.
Qed.

Lemma not_prefix arg s : HasPrefix arg metaPrefix = false -> isPrefixOrExact arg (metaPrefix ++ s) = false.
Proof.
  intros Hp. destruct (isPrefixOrExact _ _) eqn:Hi; [|done].
  apply isPrefixOrExact_inv in Hi as [->|[r ->]]; by rewrite ?sapp_assoc, HasPrefix_app in Hp.
Qed.

(** So a command line of the program is not taken by the launcher. *)
Lemma full_passes_on `{Kernel} {GU : GoUnicode} {D : Decoders} process args selfPath selfName now print self idx ve :
  match args with _ :: arg1 :: _ => HasPrefix arg1 metaPrefix = false | _ => True end ->
  passes_on (full_handleMetaCommand process args selfPath selfName now print) args self idx ve.
Proof.
  intros Hp arg0 arg1 rest statSize ->. cbn [full_handleMetaCommand].
  pose proof (fun s => not_exact arg1 s Hp) as He. pose proof (fun s => not_prefix arg1 s Hp) as Hx.
  unfold handleMetaCommand, mutation_options, isImageMutation, route.
  change flagHelp with (metaPrefix ++ "help")%string. change flagInfo with (metaPrefix ++ "info")%string.
  change flagTrim with (metaPrefix ++ "trim")%string. change flagTrimTo with (metaPrefix ++ "trim-to")%string.
  change flagSpecialize with (metaPrefix ++ "specialize")%string. change flagSpecializeTo with (metaPrefix ++ "specialize-to")%string.
  change flagOptimize with (metaPrefix ++ "optimize")%string. change flagOptimizeTo with (metaPrefix ++ "optimize-to")%string.
  change flagPrewarm with (metaPrefix ++ "prewarm")%string. by rewrite !He, !Hx.
Qed.

(** ** What a command that writes a program leaves behind *)

Section mutation.
Context `{Kernel} {GU : GoUnicode} {D : Decoders}.
Context (args : list string) (selfPath selfName : string) (now : Z).
Context (selfFile statSize : Z) (ve : VariantEntry).
Context (F0 : fs).

(** Commands that keep the launcher, and commands that replace the file. *)
Definition trims (arg1 : string) : bool :=
  String.eqb arg1 flagTrim || String.eqb arg1 flagSpecialize || isPrefixOrExact arg1 flagTrimTo || isPrefixOrExact arg1 flagSpecializeTo.

Definition in_place (arg1 : string) : bool :=
  String.eqb arg1 flagTrim || String.eqb arg1 flagSpecialize || String.eqb arg1 flagOptimize.

(** The new program: the running file trimmed to the selected variant, or the
    payload the index records for it. *)
Definition program (arg1 : string) (data : list byte) : Prop :=
  if trims arg1
  then exists newIdx, TrimBinary (image selfFile F0) statSize (ve_Level ve) now [] = (data, Ok newIdx)
  else EncodeToString (Sum256 data) = SHA256 ve /\ Z.of_nat (length data) = UncompressedSize ve.

(** The target that is asked for. *)
Definition requested_target (arg1 : string) : outcome gerror string :=
  if trims arg1 then extractTargetPath arg1 flagTrimTo flagSpecializeTo (drop 2 args)
  else extractTargetPath arg1 flagOptimizeTo "" (drop 2 args).

(** The program was asked for, by a launcher that still is what its path leads
    to, and replaced it or took a name that was free; other names of the file
    are left behind only on demand. *)
Record written (arg1 : string) (F : fs) : Prop := {
  wr_running : exists l, locate cwd_base true selfPath F0 = Ok l /\ l_ino l = Some selfFile;
  wr_program : exists opts dest,
    parseLifecycleOptions (drop 1 args) = Ok opts /\
    (if in_place arg1 then 1 < nlink (f_tree F0) selfFile -> opt_BreakHardlinks opts = true
     else exists target, requested_target arg1 = Ok target /\ dest = filepath_Clean (filepath_Clean target)) /\
    published F0 dest (in_place arg1) selfFile (fun a => program arg1 (a_data a)) F
}.

(** Nothing but temporary names and new directories, or the program; an error
    with the program in place is that of making it durable. *)
Inductive mutation_outcome (arg1 : string) : res (option (option failure)) -> fs -> Prop :=
| nothing_written r F :
    r = Dead \/ (exists e, r = Done (Some (Some (Wrapped e)))) ->
    unpublished staging_name F0 F -> mutation_outcome arg1 r F
| program_written r F :
    r = Done (Some None) \/ r = Dead \/ (exists e, r = Done (Some (Some (Wrapped (ErrDurabilitySyncFailed ++ e))))) ->
    written arg1 F -> mutation_outcome arg1 r F.

(** ** Proofs *)

Context (Hquiet : quiet) (Hwf : wf_fs F0).
Abbreviation unpub := (unpublished staging_name F0).

(** The conditions of a command. *)
Definition publishes (m : io unit) (W : fs -> Prop) : Prop :=
  hoare (eq F0) m (fun _ => W) (fun e F => unpub F \/ (exists e', e = ErrDurabilitySyncFailed ++ e') /\ W F)
    (fun F => unpub F \/ W F).

Lemma unpub_start : unpub F0.
Proof using Hwf. split; [done|apply evolves_refl]. Qed.

Lemma publishes_fail e W : publishes (fail e) W.
Proof using Hwf. apply hoare_fail. intros F <-. left. apply unpub_start. Qed.

Lemma publishes_observe {A} (m : io A) k W : observes m -> (forall a, publishes (k a) W) -> publishes (m ≫= k) W.
Proof using Hwf. intros Hm Hk. apply hoare_observe; [done|..|done]; intros; subst; left; apply unpub_start. Qed.

Lemma publishes_lift {A} (o : outcome gerror A) k W : (forall a, o = Ok a -> publishes (k a) W) -> publishes (lift o ≫= k) W.
Proof using Hwf. intros Hk. destruct o as [a|e|]; [by apply Hk|apply (publishes_fail e)|apply (publishes_fail [])]. Qed.

(** What is only looked at afterwards changes nothing. *)
Lemma publishes_then {A} (m : io unit) (l : io A) W :
  observes l -> publishes m W -> publishes (_ ← m; _ ← try l; mret tt) W.
Proof using Type.
  intros Hl Hm. eapply hoare_bind; [exact Hm|]. intros [].
  eapply hoare_bind with (R := fun _ => W); [|intros a; by apply hoare_ret].
  apply hoare_try. eapply hoare_conseq; [apply observes_hoare, Hl|..]; eauto.
Qed.

(** A transaction over the running file. *)
Lemma publishes_Execute src dest intent opts transform W :
  (forall policy snap dest' inPlace F,
    (match intent with
     | IntentReplaceSource => inPlace = true /\ (1 < nlink (f_tree F0) selfFile -> opt_BreakHardlinks opts = true)
     | IntentCreateOnly => inPlace = false /\ dest' = filepath_Clean dest
     | IntentOther _ => True
     end) ->
    is_Some (f_attr F0 !! selfFile) ->
    published F0 dest' inPlace selfFile (complete F0 transform snap policy) F -> W F) ->
  publishes (Execute (mkTx src (Some selfFile) dest intent (policy_string (opt_Policy opts)) (opt_BreakHardlinks opts) (Some transform))) W.
Proof using Hquiet Hwf.
  intros HW w Hw. set (tx := mkTx _ _ _ _ _ _ _).
  pose proof (Execute_refines Hquiet tx w) as Hr. rewrite <- Hw in Hr. specialize (Hr Hwf).
  destruct (Execute tx w) as [r w']. cbn [fst snd] in Hr.
  destruct Hr as [r F Hne Hun|t policy snap dest' inPlace r F Ht _ [Hsrc _ Htgt] Hr Hpub].
  { destruct r as [[]|e|]; [done|by left..]. }
  injection Ht as <-. destruct Hsrc as (fi & Hfi & Hsnap). cbn in Hfi.
  apply info_of_inv in Hfi as (Hino & _ & Ha & Hn). destruct Hsnap as (_ & Hs & _ & _ & _ & Hk & _).
  rewrite Hino in Hs. rewrite Hs in Hpub.
  assert (W F) as HF.
  { eapply HW; [|by eexists|exact Hpub]. cbn in Htgt. rewrite Hk, Hn in Htgt. by destruct intent. }
  destruct Hr as [->|[->|[e ->]]]; eauto.
Qed.

(** The bytes of the running file do not change before the transformation
    reads them. *)
Lemma image_kept F : is_Some (f_attr F0 !! selfFile) -> evolves staging_name None F0 F -> image selfFile F = image selfFile F0.
Proof using Type.
  intros [a Ha] Hev. unfold image. by rewrite Ha, (lookup_weaken _ _ _ _ Ha (ev_attr _ _ _ _ Hev)).
Qed.

Lemma trim_transform_program arg1 data :
  trims arg1 = true -> is_Some (f_attr F0 !! selfFile) ->
  transformed F0 (trim_transform now selfFile statSize (ve_Level ve)) data -> program arg1 data.
Proof using Type.
  intros Ht Ha (F & Hev & Hok & ->). unfold program. rewrite Ht. unfold trim_transform in *. rewrite (image_kept F Ha Hev) in *.
  destruct (same_bytes_TrimBinary (image selfFile F0) statSize (ve_Level ve) now (mkPieces []) [] eq_refl) as [Hb Hr].
  destruct (TrimBinary _ _ _ _ (mkPieces [])) as [w [i|e|]]; [|done..]. cbn [fst snd] in *.
  exists i. rewrite Hb, Hr. apply surjective_pairing.
Qed.

Lemma extract_transform_program arg1 idx data :
  trims arg1 = false -> transformed F0 (extractVariantToWriter selfFile ve idx) data -> program arg1 data.
Proof using Type.
  intros Ht (F & _ & Hok & ->). unfold program. rewrite Ht.
  destruct (extractVariantToWriter selfFile ve idx F) as [ps r] eqn:He. cbn in Hok. subst r.
  apply extracted in He as [Hp Hsha]. by apply payload_size in Hp as [Hsize _].
Qed.

Lemma observes_validateDeploymentPath : observes (validateDeploymentPath selfPath selfFile).
Proof using Hquiet. unfold validateDeploymentPath, sys_fstat, os_Stat, sys_stat. observe. Qed.

Lemma hoare_validateDeploymentPath :
  hoare (eq F0) (validateDeploymentPath selfPath selfFile)
    (fun _ F => F0 = F /\ exists l, locate cwd_base true selfPath F0 = Ok l /\ l_ino l = Some selfFile)
    (fun _ => eq F0) (eq F0).
Proof using Hquiet.
  unfold validateDeploymentPath. destruct (String.eqb _ _); [by apply hoare_fail|].
  eapply hoare_bind with (R := fun fi F => F0 = F /\ fi_ino fi = selfFile).
  { apply hoare_wrapping, hoare_inspect; [done..|]. intros F fi <- Hfi. by apply info_of_inv in Hfi as (<- & _). }
  intros fi. apply hoare_ghost. intros ? [<- Hfi].
  eapply hoare_bind with (R := fun fi' F => F0 = F /\ exists l, locate cwd_base true selfPath F0 = Ok l /\ l_ino l = Some (fi_ino fi')).
  { apply hoare_wrapping, hoare_inspect; [done..|]. intros F fi' <- Hl.
    apply bind_Ok_inv in Hl as (l & Hl & Hr). apply bind_Ok_inv in Hr as (i & Hi & Hr).
    apply found_inv in Hi. apply info_of_inv in Hr as (-> & _). split; [done|]. by exists l. }
  intros fi'. apply hoare_ghost. intros ? (<- & Hl). unfold SameFile.
  destruct (_ && _) eqn:Hs; [|by apply hoare_fail]. apply andb_true_iff in Hs as [Hs%Z.eqb_eq _].
  apply hoare_ret. intros ? <-. split; [done|]. by rewrite <- Hfi, Hs.
Qed.

(** The two ways of writing a program, after the checks. *)
Section ways.
Context (arg1 : string) (opts : Options).
Hypothesis Hrun : exists l, locate cwd_base true selfPath F0 = Ok l /\ l_ino l = Some selfFile.
Hypothesis Hopts : parseLifecycleOptions (drop 1 args) = Ok opts.
Context (transform : TransformFunc).
Hypothesis Hprog : forall data, is_Some (f_attr F0 !! selfFile) -> transformed F0 transform data -> program arg1 data.

Lemma published_program snap policy dest inPlace F :
  is_Some (f_attr F0 !! selfFile) ->
  published F0 dest inPlace selfFile (complete F0 transform snap policy) F ->
  published F0 dest inPlace selfFile (fun a => program arg1 (a_data a)) F.
Proof using Hprog.
  intros Ha [Hw (d & n & i & a & Hev & Hd & He & Hnew & Hi & Hat & Hc)]. split; [done|].
  exists d, n, i, a. split_and!; try done. apply Hprog; [done|]. by destruct Hc.
Qed.

Lemma publishes_replace_self : in_place arg1 = true -> publishes (replace_self selfPath selfFile opts transform) (written arg1).
Proof using All.
  intros Hin. unfold replace_self. apply publishes_observe; [apply observes_validateDeploymentPath|]. intros [].
  apply publishes_observe; [apply observes_try, observes_EvalSymlinks; done|]. intros real.
  apply publishes_Execute. intros policy snap dest inPlace F [-> Hlinks] Ha Hpub. split; [done|]. rewrite Hin.
  exists opts, dest. split_and!; [done..|]. by eapply published_program.
Qed.

Lemma publishes_create_copy target :
  in_place arg1 = false -> requested_target arg1 = Ok target ->
  publishes (create_copy selfName (filepath_Clean target) selfFile opts transform) (written arg1).
Proof using All.
  intros Hin Htgt. unfold create_copy. destruct (String.eqb _ _); [apply publishes_fail|].
  apply publishes_Execute. intros policy snap dest inPlace F [-> ->] Ha Hpub. split; [done|]. rewrite Hin.
  exists opts, (filepath_Clean (filepath_Clean target)). split_and!; [done|by exists target|]. by eapply published_program.
Qed.

End ways.

Context (print : output -> io unit) (process : list string) (idx : Index).

(** The command behind a flag that writes a program. *)
Definition mutation_command (arg1 : string) (opts : Options) : io unit :=
  if in_place arg1 then
    if trims arg1 then handleTrimInPlace selfPath now selfFile statSize (ve_Level ve) opts
    else handleOptimizeInPlace selfPath selfFile ve idx opts
  else
    if trims arg1 then handleTrimTo args selfName now arg1 selfFile statSize (ve_Level ve) opts
    else handleOptimizeTo args selfName arg1 selfFile ve idx opts.

Lemma route_mutation arg1 opts :
  isImageMutation arg1 = true ->
  route process args selfPath selfName now print arg1 selfFile statSize idx ve opts = Some (mutation_command arg1 opts).
Proof using Type.
  unfold isImageMutation. rewrite !orb_true_iff, !String.eqb_eq.
  intros [[[[[->| ->]| ->]|Hp]|Hp]|Hp]; [reflexivity..| | |];
    apply isPrefixOrExact_inv in Hp as [->|[[|c r] ->]]; reflexivity.
Qed.

Lemma publishes_mutation_command arg1 opts :
  (exists l, locate cwd_base true selfPath F0 = Ok l /\ l_ino l = Some selfFile) ->
  parseLifecycleOptions (drop 1 args) = Ok opts ->
  publishes (mutation_command arg1 opts) (written arg1).
Proof using Hquiet Hwf.
  intros Hrun Hopts. unfold mutation_command.
  destruct (trims arg1) eqn:Ht, (in_place arg1) eqn:Hin.
  - unfold handleTrimInPlace. apply publishes_then; [by apply observes_stat|].
    apply publishes_replace_self; try done. intros data. by apply trim_transform_program.
  - unfold handleTrimTo. apply publishes_lift. intros target Htgt. cbv zeta.
    apply publishes_then; [by apply observes_stat|].
    apply publishes_create_copy; try done; [intros data; by apply trim_transform_program|].
    unfold requested_target. by rewrite Ht.
  - apply publishes_replace_self; try done. intros data _. by apply extract_transform_program.
  - unfold handleOptimizeTo. apply publishes_lift. intros target Htgt.
    apply publishes_create_copy; try done; [intros data _; by apply extract_transform_program|].
    unfold requested_target. by rewrite Ht.
Qed.

Lemma hoare_mutation_options arg1 :
  isImageMutation arg1 = true ->
  hoare (eq F0) (mutation_options args selfPath arg1 selfFile)
    (fun opts F => F0 = F /\ (exists l, locate cwd_base true selfPath F0 = Ok l /\ l_ino l = Some selfFile) /\
       parseLifecycleOptions (drop 1 args) = Ok opts)
    (fun _ => eq F0) (eq F0).
Proof using Hquiet.
  intros Hm. unfold mutation_options. rewrite Hm.
  eapply hoare_bind; [apply hoare_validateDeploymentPath|]. intros []. apply hoare_ghost. intros ? [<- Hl].
  destruct (parseLifecycleOptions _) as [opts|e|]; [|by apply (hoare_fail _ e)|by apply (hoare_fail _ [])].
  apply hoare_ret. by intros F <-.
Qed.

Lemma hoare_mutation arg1 :
  isImageMutation arg1 = true ->
  hoare (eq F0) (handleMetaCommand process args selfPath selfName now print arg1 selfFile statSize idx ve)
    (fun r => mutation_outcome arg1 (Done r)) (fun _ _ => False) (mutation_outcome arg1 Dead).
Proof using Hquiet Hwf.
  intros Hm. pose proof unpub_start as Hstart.
  assert (forall F, unpub F \/ written arg1 F -> mutation_outcome arg1 Dead F) as Hdead.
  { intros F [Hu|Hw]; [apply nothing_written|apply program_written]; auto. }
  unfold handleMetaCommand.
  eapply hoare_bind with (R := fun r F => F0 = F /\ match r with
    | inl opts => (exists l, locate cwd_base true selfPath F0 = Ok l /\ l_ino l = Some selfFile) /\
        parseLifecycleOptions (drop 1 args) = Ok opts
    | inr _ => True end).
  { apply hoare_try. eapply hoare_conseq; [by apply hoare_mutation_options|..]; try done. intros F <-. auto. }
  intros [opts|e]; apply hoare_ghost; intros ? [<- Ho].
  - destruct Ho as [Hl Ho]. rewrite route_mutation by done. unfold handled.
    eapply hoare_bind with (R := fun r => mutation_outcome arg1 (Done (Some match r with inl _ => None | inr e => Some (Wrapped e) end))).
    + apply hoare_try. eapply hoare_conseq; [by apply publishes_mutation_command|..]; [done|..|exact Hdead].
      * intros u F Hw. apply program_written; auto.
      * intros e F [Hu|[[e' ->] Hw]]; [apply nothing_written|apply program_written]; eauto.
    + intros r. by apply hoare_ret.
  - apply hoare_ret. intros F <-. apply nothing_written; eauto.
Qed.

End mutation.

(** C15. A command of the launcher that writes a program does it in one step or not at all:
    whatever call fails and wherever the process dies, either nothing is there but temporary
    names and new directories, and success is not reported, or the running file was still what
    its path leads to, and its name, or for a copy a name that was free, stands for exactly the
    program that was asked for: the file trimmed to the selected variant, or the payload with
    the size and digest of the index. Other names of a file that is replaced are left behind
    only when this was asked for. *)
Theorem mutation_atomic `{Kernel} {GU : GoUnicode} {D : Decoders}
    (process args : list string) (selfPath selfName : string) (now : Z) (print : output -> io unit)
    (arg1 : string) (selfFile statSize : Z) (idx : Index) (ve : VariantEntry) (w : world) :
  quiet -> wf_fs (w_fs w) -> isImageMutation arg1 = true ->
  let '(r, w') := handleMetaCommand process args selfPath selfName now print arg1 selfFile statSize idx ve w in
  mutation_outcome args selfPath now selfFile statSize ve (w_fs w) arg1 r (w_fs w').
Proof.
  intros Hq Hwf Hm.
  pose proof (hoare_mutation args selfPath selfName now selfFile statSize ve (w_fs w) Hq Hwf print process idx arg1 Hm w eq_refl) as Hr.
  by destruct (handleMetaCommand _ _ _ _ _ _ _ _ _ _ _ w) as [[r|e|] w'].
Qed.

(** ** A launcher that copies itself trimmed *)

Abbreviation copy_run := (@handleMetaCommand calm_kernel ascii_tables no_decoders sample_process
  ["app"; "--microfat:trim-to=/opt/app-v3"] "/opt/app" "/opt/app" 1800000000 (fun _ => mret tt)
  "--microfat:trim-to=/opt/app-v3" 3 (Z.of_nat (length sample_file)) sample_index sample_v3 (sample_world launcher_disk)).

Lemma copy_run_done : copy_run = (Done (Some None), copy_run.2).
Proof.
  assert (copy_run.1 = Done (Some None)) as <- by (vm_compute; reflexivity).
  apply surjective_pairing.
Qed.

(** The variant, and nothing else of the sample, under a new name. *)
Lemma mutation_atomic_witness :
  match entry (f_tree (w_fs copy_run.2)) 2 "app-v3" with Some i => image i (w_fs copy_run.2) | None => [] end =
    (@TrimBinary ascii_tables _ _ _ _ sample_file (Z.of_nat (length sample_file)) "amd64_v3" 1800000000 []).1 /\
  @mutation_outcome calm_kernel ascii_tables ["app"; "--microfat:trim-to=/opt/app-v3"] "/opt/app" 1800000000 3
    (Z.of_nat (length sample_file)) sample_v3 launcher_disk "--microfat:trim-to=/opt/app-v3" (Done (Some None)) (w_fs copy_run.2).
Proof.
  split; [vm_compute; reflexivity|].
  pose proof (@mutation_atomic calm_kernel ascii_tables no_decoders sample_process
    ["app"; "--microfat:trim-to=/opt/app-v3"] "/opt/app" "/opt/app" 1800000000 (fun _ => mret tt)
    "--microfat:trim-to=/opt/app-v3" 3 (Z.of_nat (length sample_file)) sample_index sample_v3 (sample_world launcher_disk)
    (kernel_with_quiet _) ltac:(apply wf_check_sound; vm_compute; reflexivity) ltac:(reflexivity)) as Hr.
  rewrite copy_run_done in Hr. exact Hr.
Defined.
