(* ===== verification/PackTemp.v ===== *)
(** * What packing reads, and its temporary files

    Code of packing that only looks, specified by what it returns: opening and
    reading inputs, planning, inspecting, sampling.

    The file under construction and the staged frames are files of their own
    under temporary names, the copies of the inputs under names in a directory
    of their own.  [working lax B S F] describes a moment of packing: what was
    there in [B] is as it was, and each file of [S] is where packing put it, in
    a directory of [lax] or under a temporary name, with the contents it wrote. *)

From S2P Require Import Prelude GoStrings GoPath GoIO Microarch MicroarchSelect Format Sha256 Codec PackPlan Vfs GoOS InputFile VfsLogic VfsEffects VfsStage Cache Abi AbiCompare Elf PackOptions PackInput PackStage Pack PackHeld.
From stdpp Require Import base list strings gmap.
From Stdlib Require Import ZArith Lia Strings.Ascii Strings.Byte.
Import PackErr.

Local Open Scope Z_scope.

Definition tells {A} (F : fs) (m : io A) (phi : A -> Prop) : Prop :=
  hoare (eq F) m (fun a F' => F = F' /\ phi a) (fun _ => eq F) (eq F).

Section tells.
Context {A B : Type}.

Lemma tells_ret F (a : A) (phi : A -> Prop) : phi a -> tells F (mret a) phi.
Proof. intros Ha. apply hoare_ret. by intros F' <-. Qed.

Lemma tells_fail F e (phi : A -> Prop) : tells F (fail e) phi.
Proof. by apply hoare_fail. Qed.

Lemma tells_bind F (m : io A) (k : A -> io B) phi psi :
  tells F m phi -> (forall a, phi a -> tells F (k a) psi) -> tells F (m ≫= k) psi.
Proof.
  intros Hm Hk. eapply hoare_bind; [exact Hm|]. intros a. apply hoare_ghost. intros F' [<- Ha]. by apply Hk.
Qed.

Lemma tells_impl F (m : io A) (phi psi : A -> Prop) : tells F m phi -> (forall a, phi a -> psi a) -> tells F m psi.
Proof. intros Hm Hi. eapply hoare_conseq; [exact Hm|done| |done..]. intros a F' [<- Ha]. auto. Qed.

Lemma tells_any F (m : io A) : observes m -> tells F m (fun _ => True).
Proof. intros Hm. eapply hoare_conseq; [exact (Hm F)|..]; try done. Qed.

Lemma tells_observes (m : io A) (phi : fs -> A -> Prop) : (forall F, tells F m (phi F)) -> observes m.
Proof. intros Hm F. eapply hoare_conseq; [exact (Hm F)|..]; try done. by intros a F' [<- _]. Qed.

Lemma tells_try F (m : io A) phi :
  tells F m phi -> tells F (try m) (fun r => match r with inl a => phi a | inr _ => True end).
Proof. intros Hm. apply hoare_try. eapply hoare_conseq; [exact Hm|..]; try done. Qed.

Lemma tells_wrapping F f (m : io A) phi : tells F m phi -> tells F (wrapping f m) phi.
Proof. intros Hm. by apply hoare_wrapping. Qed.

Lemma tells_deferring F c (m : io A) phi : observes c -> tells F m phi -> tells F (deferring c m) phi.
Proof.
  intros Hc Hm. eapply hoare_deferring; [exact Hm|..].
  - intros a. apply hoare_ghost. intros F' [<- Ha]. eapply hoare_conseq; [exact (Hc F)|..]; by try intros ? ? <-.
  - intros e. apply hoare_ghost. intros F' <-. apply Hc.
Qed.

Lemma tells_inspect `{Kernel} F (f : fs -> outcome errno A) : quiet -> tells F (inspect f) (fun a => f F = Ok a).
Proof. intros Hq. apply hoare_inspect; try done. by intros F' a <-. Qed.

Lemma tells_of_outcome F (m : outcome gerror A) : tells F (of_outcome m) (fun a => m = Ok a).
Proof. destruct m; [by apply tells_ret|apply tells_fail..]. Qed.

End tells.

Section reads.
Context `{Kernel} (Hquiet : quiet).

Lemma observes_close f : observes (ignore (sys_close f)).
Proof using Hquiet. apply observes_ignore. by apply observes_inspect. Qed.

(** A nonempty regular file is open. *)
Definition opened (F : fs) (path : string) (f : Z) : Prop := opens F path f /\ image f F <> [].

Lemma fstat_tells F f : tells F (sys_fstat f) (fun fi =>
  f_tree F !! f = Some (fi_node fi) /\ f_attr F !! f = Some (fi_attr fi) /\ fi_size fi = Z.of_nat (length (image f F))).
Proof using Hquiet.
  eapply tells_impl; [by apply tells_inspect|]. intros fi Hi. unfold info_of in Hi. unfold fi_size, image.
  destruct (f_tree F !! f) as [node|]; [|discriminate]. destruct (f_attr F !! f) as [a|]; [|discriminate].
  by injection Hi as <-.
Qed.

Lemma Open_tells F path : tells F (inputfile_Open path) (opened F (filepath_Clean path)).
Proof using Hquiet.
  unfold inputfile_Open. eapply tells_bind with (phi := fun f => exists l, locate cwd_base true (filepath_Clean path) F = Ok l /\ l_ino l = Some f).
  { eapply tells_impl; [unfold sys_open; by apply tells_inspect|]. simpl. intros f Hf.
    apply bind_Ok_inv in Hf as (l & Hl & Hf). exists l. split; [done|].
    apply bind_Ok_inv in Hf as (i & Hi & Hf). apply found_inv in Hi.
    destruct (f_tree F !! i) as [[]|]; simpl in Hf; try discriminate; by injection Hf as <-. }
  intros f (l & Hl & Hf). eapply tells_bind; [apply tells_try, fstat_tells|]. intros [fi|e].
  2: { intros _. eapply tells_bind; [apply tells_any, observes_close|]. intros [] _. apply tells_fail. }
  intros (Hnode & Ha & Hsz). assert (tells F (_ ← ignore (sys_close f); fail (A := Z) ErrNotRegular) (opened F (filepath_Clean path))) as Hno.
  { eapply tells_bind; [apply tells_any, observes_close|]. intros [] _. apply tells_fail. }
  destruct (fi_node fi) eqn:Hk; try exact Hno. destruct (Z.leb_spec (fi_size fi) 0); [exact Hno|].
  apply tells_ret. split; [by exists l|]. intros Hnil. rewrite Hnil in Hsz. simpl in Hsz. lia.
Qed.

Lemma openInput_tells F path : tells F (openInput path) (opened F (filepath_Clean path)).
Proof using Hquiet.
  unfold openInput. eapply tells_bind; [apply tells_try, Open_tells|]. intros [f|e] Hf; [by apply tells_ret|apply tells_fail].
Qed.

Lemma openBounded_tells F path limit :
  tells F (openBoundedReaderAt path limit) (fun r =>
    opened F (filepath_Clean path) r.1 /\ r.2 = Z.of_nat (length (image r.1 F)) /\ r.2 <= limit).
Proof using Hquiet.
  unfold openBoundedReaderAt. destruct (bad_limit limit); [apply tells_fail|].
  eapply tells_bind; [apply openInput_tells|]. intros f Hf. eapply tells_bind; [apply tells_try, fstat_tells|].
  assert (forall e, tells F (_ ← ignore (sys_close f); fail (A := Z * Z) e) (fun r =>
    opened F (filepath_Clean path) r.1 /\ r.2 = Z.of_nat (length (image r.1 F)) /\ r.2 <= limit)) as Hno.
  { intros e. eapply tells_bind; [apply tells_any, observes_close|]. intros [] _. apply tells_fail. }
  intros [fi|e]; [|intros _; apply Hno]. intros (_ & _ & Hsz). destruct (_ || _); [apply Hno|].
  destruct (Z.ltb_spec limit (fi_size fi)); [apply Hno|]. apply tells_ret. cbn [fst snd]. by split_and!.
Qed.

(** ** Reading a file to a limit *)

Lemma image_attr F f a : f_attr F !! f = Some a -> image f F = a_data a.
Proof using Type. unfold image. by intros ->. Qed.

Lemma take_piece {A} (D piece : list A) o n k :
  piece = take k (drop o D) -> n = (o + length piece)%nat -> take o D ++ piece = take n D.
Proof using Type.
  intros Hp ->. rewrite <- (take_drop o (take (o + length piece) D)), take_take, Nat.min_l by lia. f_equal.
  rewrite skipn_firstn_comm. replace (o + length piece - o)%nat with (length piece) by lia.
  rewrite <- (take_drop k (drop o D)), <- Hp. by rewrite take_app_length.
Qed.

(** What has been read is a prefix; [R acc] is kept by the sink. *)
Lemma hoare_read_pieces (R : list byte -> fs -> Prop) (E : gerror -> fs -> Prop) (C : fs -> Prop) D sink fuel chunk f off remaining acc :
  0 < chunk -> (forall acc F, R acc F -> image f F = D) ->
  (forall acc F, R acc F -> C F) -> (forall acc F e, R acc F -> E e F) ->
  (forall acc piece, hoare (R acc) (sink piece) (fun _ => R (acc ++ piece)) E C) ->
  0 <= off -> 0 <= remaining -> acc = take (Z.to_nat off) D ->
  hoare (R acc) (read_pieces fuel chunk sink f off remaining acc)
    (fun data F => R data F /\ data = take (Z.to_nat (off + remaining)) D) E C.
Proof using Hquiet.
  intros Hc Himg HC HE Hsink. revert off remaining acc. induction fuel as [|fuel IH]; intros off remaining acc Ho Hr Hacc; cbn [read_pieces].
  all: destruct (Z.leb_spec remaining 0); [replace remaining with 0 by lia; rewrite Z.add_0_r; by apply hoare_ret|].
  { apply hoare_fail. intros F. apply HE. }
  eapply hoare_bind with (R := fun piece F => R acc F /\ piece = take (Z.to_nat (Z.min chunk remaining)) (drop (Z.to_nat off) D)).
  { apply hoare_inspect; [done|intros F; apply HC|intros F e HR; by eapply HE|]. intros F piece HR Hp. split; [done|].
    unfold read_attr in Hp. rewrite <- (Himg _ _ HR). destruct (f_attr F !! f) as [a|] eqn:Ha; [|discriminate].
    rewrite (image_attr _ _ _ Ha). by injection Hp as <-. }
  intros piece. apply hoare_ghost. intros F [HR Hp].
  assert (0 < Z.to_nat (Z.min chunk remaining))%nat as Hpos by lia.
  destruct piece as [|b piece].
  - apply hoare_ret. intros F' <-. split; [done|]. rewrite Hacc.
    assert (length D <= Z.to_nat off)%nat as Hlen.
    { destruct (drop (Z.to_nat off) D) eqn:Hd; [|exfalso; destruct (Z.to_nat (Z.min chunk remaining)); [lia|done]].
      pose proof (length_drop D (Z.to_nat off)) as Hl. rewrite Hd in Hl. simpl in Hl. lia. }
    rewrite !firstn_all2 by lia. done.
  - eapply hoare_bind with (R := fun _ => R (acc ++ b :: piece)).
    { eapply hoare_pre; [apply Hsink|]. by intros F' <-. }
    intros []. set (n := Z.of_nat (length (b :: piece))).
    assert (n <= remaining) as Hn.
    { unfold n. rewrite Hp, length_take. lia. }
    replace (off + remaining) with ((off + n) + (remaining - n)) by lia. apply IH; [lia|lia|].
    rewrite Hacc. by apply take_piece with (k := Z.to_nat (Z.min chunk remaining)); [|unfold n; lia].
Qed.

Lemma hoare_read_limit (R : list byte -> fs -> Prop) (E : gerror -> fs -> Prop) (C : fs -> Prop) D sink chunk f limit :
  0 < chunk -> (forall acc F, R acc F -> image f F = D) ->
  (forall acc F, R acc F -> C F) -> (forall acc F e, R acc F -> E e F) ->
  (forall acc piece, hoare (R acc) (sink piece) (fun _ => R (acc ++ piece)) E C) ->
  hoare (R []) (read_limit chunk sink f limit) (fun data F => R data F /\ data = take (Z.to_nat limit) D) E C.
Proof using Hquiet.
  intros Hc H1 H2 H3 H4. unfold read_limit. destruct (Z.leb_spec 0 limit) as [Hl|Hl]; [by apply hoare_read_pieces|].
  replace (Z.to_nat limit) with 0%nat by lia. generalize (Z.to_nat (limit / chunk + 2)) as fuel. intros fuel.
  destruct fuel; cbn [read_pieces]; (destruct (Z.leb_spec limit 0); [by apply hoare_ret|lia]).
Qed.

Lemma readBounded_tells F f size limit :
  0 < size -> size = Z.of_nat (length (image f F)) -> tells F (readBoundedFromFile f size limit) (eq (image f F)).
Proof using Hquiet.
  intros Hpos Hsz. unfold readBoundedFromFile.
  eapply tells_bind with (phi := eq (image f F)).
  { eapply hoare_conseq; [apply (hoare_read_limit (fun _ => eq F) (fun _ => eq F) (eq F) (image f F))|..]; try done; try lia.
    - by intros acc F' <-.
    - intros acc piece. by apply hoare_ret.
    - intros data F' [<- ->]. split; [done|]. rewrite Hsz, Nat2Z.id. by rewrite firstn_all. }
  intros data <-. rewrite Hsz. destruct (Z.ltb_spec (Z.of_nat (length (image f F))) (Z.of_nat (length (image f F)))); [lia|].
  eapply tells_bind with (phi := eq []).
  { eapply tells_impl; [by apply tells_inspect|]. intros extra Hx. unfold read_attr in Hx.
    destruct (f_attr F !! f) as [a|] eqn:Ha; [|discriminate]. injection Hx as <-. rewrite <- (image_attr _ _ _ Ha), Nat2Z.id, drop_all. done. }
  intros extra <-. cbn [length Nat.ltb Nat.leb]. by apply tells_ret.
Qed.

(** The whole file, or nothing. *)
Lemma readBoundedInput_tells F path limit :
  tells F (readBoundedInput path limit) (fun data =>
    exists f, opened F (filepath_Clean path) f /\ data = image f F /\ Z.of_nat (length data) <= limit).
Proof using Hquiet.
  unfold readBoundedInput. eapply tells_bind; [apply openBounded_tells|]. intros [f size] (Hf & Hsz & Hl). cbn [fst snd] in *.
  apply tells_deferring; [apply observes_close|]. eapply tells_impl; [apply readBounded_tells; [|done]|].
  - destruct Hf as [_ Hne]. destruct (image f F); [done|simpl in *; lia].
  - intros data <-. exists f. split_and!; [done..|lia].
Qed.

(** ** Checks, plans and samples *)

Lemma observes_openInput path : observes (openInput path).
Proof using Hquiet. exact (tells_observes _ _ (fun F => openInput_tells F path)). Qed.

Lemma observes_openBounded path limit : observes (openBoundedReaderAt path limit).
Proof using Hquiet. exact (tells_observes _ _ (fun F => openBounded_tells F path limit)). Qed.

Lemma observes_readBoundedInput path limit : observes (readBoundedInput path limit).
Proof using Hquiet. exact (tells_observes _ _ (fun F => readBoundedInput_tells F path limit)). Qed.

Lemma observes_of_outcome {A} (m : outcome gerror A) : observes (of_outcome m).
Proof using Type. destruct m; [apply observes_ret|apply observes_fail..]. Qed.

Lemma observes_elf_check {A} (m : outcome abi_err A) : observes (elf_check m).
Proof using Type. destruct m; [apply observes_ret|apply observes_fail..]. Qed.

Lemma observes_fstat f : observes (sys_fstat f).
Proof using Hquiet. by apply observes_inspect. Qed.

Context {GU : GoUnicode} {SS : SliceSort} {MR : MapRange} {E : Encoders} {DB : DictBuilder}.
Context (Type_String Machine_String : Z -> string) (ParseBuildInfo : string -> option (list (string * string))).

Lemma observes_unchanged f size limit : observes (verifyBoundedReaderAtUnchanged f size limit).
Proof using Hquiet. unfold verifyBoundedReaderAtUnchanged. apply observes_bind; [apply observes_fstat|]. intros stat. observe. Qed.

Lemma observes_ValidateELFBinary path os arch : observes (ValidateELFBinary ParseBuildInfo path os arch).
Proof using Hquiet.
  unfold ValidateELFBinary. apply observes_bind; [apply observes_of_outcome|]. intros osName.
  apply observes_bind; [apply observes_of_outcome|]. intros a. apply observes_bind; [apply observes_openBounded|]. intros [f size].
  apply observes_deferring; [apply observes_close|]. apply observes_bind; [by apply observes_inspect|]. intros file.
  apply observes_bind; [apply observes_elf_check|]. intros elf. destruct (negb _); [apply observes_fail|]. destruct (negb _); [apply observes_fail|].
  apply observes_bind; [apply observes_elf_check|]. intros _. apply observes_bind; [apply observes_elf_check|]. intros _.
  apply observes_unchanged.
Qed.

Lemma observes_inspectVariantABIFile path shared : observes (inspectVariantABIFile Type_String Machine_String path shared).
Proof using Hquiet.
  unfold inspectVariantABIFile. apply observes_bind; [apply observes_openBounded|]. intros [f size].
  apply observes_deferring; [apply observes_close|]. apply observes_bind; [by apply observes_inspect|]. intros file.
  destruct (InspectELFABIReaderAtWithAccounting _ _ _ _ _) as [[rep|e|] acc]; try apply observes_fail.
  apply observes_bind; [apply observes_unchanged|]. intros _. apply observes_ret.
Qed.

Lemma observes_validatePayloadABIs opts levels : observes (validatePayloadABIs Type_String Machine_String opts levels).
Proof using Hquiet.
  unfold validatePayloadABIs. destruct (o_SkipELFValidation opts); [apply observes_ret|]. apply observes_bind.
  - generalize (NewArtifactMetadataAccounting MaxArtifactMetadataBytes).
    induction levels as [|lvl rest IH]; intros shared; cbn [inspect_variants]; [apply observes_ret|].
    apply observes_bind; [apply observes_inspectVariantABIFile|]. intros [rep shared']. apply observes_bind; [apply IH|]. intros. apply observes_ret.
  - intros reports. destruct (CompareVariantABIs _ _) as [[? []]| |]; observe.
Qed.

Lemma observes_sample_from fuel f size step off budget count : observes (sample_from fuel f size step off budget count).
Proof using Hquiet.
  revert off budget count. induction fuel as [|fuel IH]; intros off b count; cbn [sample_from];
    (destruct (negb _); [apply observes_ret|]); [apply observes_fail|].
  destruct (_ <? _); [apply observes_fail|]. apply observes_bind; [by apply observes_inspect|]. intros chunk.
  destruct (_ <? _); [apply observes_fail|]. apply observes_bind; [apply IH|]. intros. apply observes_ret.
Qed.

Lemma observes_sampleInput path budget : observes (sampleInput path budget).
Proof using Hquiet.
  unfold sampleInput. apply observes_bind; [apply observes_openInput|]. intros f. apply observes_deferring; [apply observes_close|].
  apply observes_bind; [apply observes_fstat|]. intros stat. destruct (_ || _); [apply observes_fail|]. destruct (_ <? _); [apply observes_fail|].
  apply observes_sample_from.
Qed.

Lemma observes_sampleVariantPayloads paths levels budget : observes (sampleVariantPayloads paths levels budget).
Proof using Hquiet.
  revert budget. induction levels as [|lvl rest IH]; intros budget; cbn [sampleVariantPayloads]; [apply observes_ret|].
  apply observes_bind; [apply observes_sampleInput|]. intros chunks. apply observes_bind; [apply IH|]. intros. apply observes_ret.
Qed.

(** A dictionary comes with its digest, and from the library. *)
Definition dictionary_made (r : list byte * string) : Prop :=
  r.1 = [] \/ (exists h l e, BuildDict h l e = Some r.1) /\ r.2 = EncodeToString (Sum256 r.1).

Lemma no_dictionary_tells F opts e : tells F (no_dictionary opts e) dictionary_made.
Proof using Type. unfold no_dictionary. destruct (o_EnableDict opts); [apply tells_fail|apply tells_ret; by left]. Qed.

Lemma TrainDictionary_made samples n level dict :
  TrainDictionary samples n level = Ok dict -> exists h l e, BuildDict h l e = Some dict.
Proof using Type.
  unfold TrainDictionary. destruct (_ =? _)%nat; [done|]. destruct (_ <? _); [done|]. destruct (_ <? _)%nat; [done|].
  destruct (BuildDict _ _ _) eqn:Hb; [|done]. intros [= <-]. eauto.
Qed.

Lemma prepareSharedDictionary_tells F opts levels : tells F (prepareSharedDictionary opts levels) dictionary_made.
Proof using Hquiet.
  unfold prepareSharedDictionary. eapply tells_bind with (phi := fun _ => True).
  { destruct (_ && _); [|by apply tells_ret]. apply tells_any. induction levels as [|lvl rest IH]; cbn [hasDictionaryCapableVariant]; [apply observes_ret|].
    apply observes_bind; [by apply observes_stat|]. intros stat. apply observes_bind; [apply observes_of_outcome|]. intros [c l].
    destruct (is_dict_codec c); [apply observes_ret|apply IH]. }
  intros enable _. destruct (negb enable); [apply tells_ret; by left|]. destruct (_ <? _)%nat; [apply tells_fail|].
  eapply tells_bind; [apply tells_try, tells_any, observes_sampleVariantPayloads|]. intros [samples|e] _; [|apply no_dictionary_tells].
  destruct (_ =? _)%nat; [apply no_dictionary_tells|]. destruct (TrainDictionary _ _ _) as [dict|e|] eqn:Ht; [|apply no_dictionary_tells|apply tells_fail].
  destruct (_ =? _)%nat; [apply no_dictionary_tells|]. apply tells_ret. right. split; [by eapply TrainDictionary_made|done].
Qed.

(** A plan is for its level and reads its input. *)
Definition plan_for (opts : Options) (lvl : string) (plan : variantWorkPlan) : Prop :=
  wp_level plan = lvl /\ wp_normalizedLvl plan = NormalizeVariant lvl /\
  wp_cleanPath plan = filepath_Clean (default ""%string (o_Variants opts !! lvl)).

Lemma prepare_tells F names levels opts :
  tells F (prepareVariantWorkPlans names levels opts) (Forall2 (plan_for opts) levels).
Proof using Hquiet.
  induction levels as [|lvl rest IH]; cbn [prepareVariantWorkPlans]; [by apply tells_ret; constructor|].
  eapply tells_bind; [apply tells_any, observes_wrapping; by apply observes_stat|]. intros stat _.
  eapply tells_bind; [apply tells_any, observes_of_outcome|]. intros [c level] _. eapply tells_bind; [apply IH|]. intros plans Hp.
  apply tells_ret. constructor; [|done]. by split_and!.
Qed.

Lemma observes_worker_count hst plans : observes (worker_count hst plans).
Proof using Type. unfold worker_count. destruct (resolvePackWorkerCount _ _ _ _ _ _); [apply observes_ret|apply observes_fail..]. Qed.

(** What a path of the plans holds. *)
Definition holds_input (F : fs) (path : string) (data : list byte) : Prop :=
  (exists f, opened F (filepath_Clean path) f /\ data = image f F) /\ Z.of_nat (length data) <= MaxPayloadSize.

Lemma load_variant_tells F opts plan : tells F (load_variant opts plan) (fun v => holds_input F (wp_cleanPath plan) (ld_data v)).
Proof using Hquiet.
  unfold load_variant. eapply tells_bind; [apply tells_wrapping, readBoundedInput_tells|]. intros data (f & Hf & Hd & Hl).
  assert (holds_input F (wp_cleanPath plan) data) as Hh by (split; [by exists f|done]).
  destruct (negb _); [|by apply tells_ret]. eapply tells_bind; [apply tells_any, observes_of_outcome|]. intros [c l] _. by apply tells_ret.
Qed.

End reads.

Record sfile := mkSfile { sf_ino : Z; sf_dir : Z; sf_name : string; sf_path : string; sf_data : list byte }.

Definition with_data (s : sfile) (data : list byte) : sfile := mkSfile (sf_ino s) (sf_dir s) (sf_name s) (sf_path s) data.

(** Removing the name of a regular file leaves every way. *)
Lemma paths_kept_del F d n i :
  wf_fs F -> entry (f_tree F) d n = Some i -> f_tree F !! i = Some TFile ->
  paths_kept (f_tree F) (del_entry (f_tree F) d n).
Proof.
  intros Hwf He Hi. split; [auto with vfs| |apply Hwf]. intros d' n' j Hj Hp. rewrite entry_del_entry.
  case_decide as Heq; [|done]. injection Heq as <- <-. assert (j = i) as -> by congruence.
  destruct Hp as [[m Hm]|[t Ht]]; congruence.
Qed.

Section temp.
Context `{Kernel} (Hquiet : quiet) (lax : Z -> Prop) (B : fs).

(** Nothing that was there has changed. *)
Definition intact (F : fs) : Prop := held lax nobody None B F.

Record present (F : fs) (s : sfile) : Prop := {
  pr_at : at_path F (sf_path s) (sf_dir s) (sf_name s);
  pr_tidy : tidy (sf_path s);
  pr_entry : entry (f_tree F) (sf_dir s) (sf_name s) = Some (sf_ino s);
  pr_file : f_tree F !! sf_ino s = Some TFile;
  pr_data : exists a, f_attr F !! sf_ino s = Some a /\ a_data a = sf_data s;
  pr_free : entry (f_tree B) (sf_dir s) (sf_name s) = None;
  pr_new : f_attr B !! sf_ino s = None;
  pr_temp : pack_temp (sf_name s) \/ lax (sf_dir s)
}.

Record working (S : list sfile) (F : fs) : Prop := {
  wk_intact : intact F;
  wk_present : Forall (present F) S;
  wk_distinct : NoDup (sf_ino <$> S)
}.

Lemma working_perm S S' F : S ≡ₚ S' -> working S F -> working S' F.
Proof using Type. intros Hp [Hi Hf Hd]. split; [done|by rewrite <- Hp|by rewrite <- Hp]. Qed.

Lemma working_drop s S F : working (s :: S) F -> working S F.
Proof using Type. intros [Hi Hf Hd]. inversion Hf; inversion Hd; subst. by split. Qed.

Lemma working_drop_second s t S F : working (s :: t :: S) F -> working (s :: S) F.
Proof using Type. intros Hw. apply (working_drop t). eapply working_perm; [|exact Hw]. apply Permutation_swap. Qed.

Lemma present_step F F' s :
  paths_kept (f_tree F) (f_tree F') -> entry (f_tree F') (sf_dir s) (sf_name s) = entry (f_tree F) (sf_dir s) (sf_name s) ->
  f_attr F' !! sf_ino s = f_attr F !! sf_ino s -> present F s -> present F' s.
Proof using Type.
  intros Hk He Ha [H1 H2 H3 H4 H5 H6 H7 H8]. split; try done.
  - eapply at_path_stays; [exact Hk|by left|done].
  - by rewrite He.
  - exact (pk_node _ _ Hk _ _ H4).
  - by rewrite Ha.
Qed.

Lemma paths_kept_same F F' : wf_fs F -> f_tree F' = f_tree F -> paths_kept (f_tree F) (f_tree F').
Proof using Type. intros Hwf ->. split; [auto with vfs|done|apply Hwf]. Qed.

(** ** Changing, making and removing *)

Lemma working_update s S F a f :
  working (s :: S) F -> f_attr F !! sf_ino s = Some a ->
  working (with_data s (a_data (f a)) :: S) (set_attr F (sf_ino s) (f a)).
Proof using Type.
  intros [Hi Hf Hd] Ha. inversion Hf as [|? ? Hs HS]; subst. cbn in Hd. apply NoDup_cons in Hd as [Hni Hd].
  assert (paths_kept (f_tree F) (f_tree (set_attr F (sf_ino s) (f a)))) as Hk by (apply paths_kept_same; [apply Hi|done]).
  split.
  - apply held_change; [done|]. right. apply Hs.
  - constructor.
    + destruct Hs as [H1 H2 H3 H4 H5 H6 H7 H8]. split; try done; cbn [sf_ino sf_dir sf_name sf_path with_data sf_data].
      exists (f a). simpl. by rewrite lookup_insert_eq.
    + rewrite Forall_forall in *. intros s' Hs'. apply (present_step F); [done|done| |by apply HS]. simpl.
      rewrite lookup_insert_ne; [done|]. intros Heq. apply Hni. rewrite Heq. by apply list_elem_of_fmap_2.
  - cbn. by constructor.
Qed.

(** A change of one file's attributes. *)
Lemma working_update_attr s S (f : nat -> attr -> outcome errno attr) data (C : fs -> Prop) :
  (forall n a a', a_data a = sf_data s -> f n a = Ok a' -> a_data a' = data) -> (forall F, working (s :: S) F -> C F) ->
  hoare (working (s :: S)) (update_attr (sf_ino s) f) (fun _ => working (with_data s data :: S)) (fun _ => working (s :: S)) C.
Proof using Hquiet.
  intros Hf HC. apply hoare_syscall; [done..|]. intros n F u F' Hw Hu.
  apply update_attr_inv in Hu as (a & a' & Ha & Hfa & ->).
  pose proof (wk_present _ _ Hw) as Hp. inversion Hp as [|? ? Hs _]; subst. destruct (pr_data _ _ Hs) as (a0 & Ha0 & Hd0).
  assert (a0 = a) as -> by congruence. rewrite <- (Hf n a a' Hd0 Hfa). by apply (working_update s S F a (fun _ => a')).
Qed.

Lemma working_write s S p (C : fs -> Prop) :
  (forall F, working (s :: S) F -> C F) ->
  hoare (working (s :: S)) (sys_write (sf_ino s) (fun old => old ++ p))
    (fun _ => working (with_data s (sf_data s ++ p) :: S)) (fun _ => working (s :: S)) C.
Proof using Hquiet. intros HC. apply working_update_attr; [|done]. by intros n a a' <- [= <-]. Qed.

Lemma working_create p c cs perm S (C : fs -> Prop) :
  tidy p -> components p = (cs ++ [c])%list -> c <> ".."%string ->
  (forall F d, working S F -> at_path F p d c -> pack_temp c \/ lax d) -> (forall F, working S F -> C F) ->
  hoare (working S) (sys_create_excl cwd_base p perm)
    (fun i F => exists d, working (mkSfile i d c p [] :: S) F) (fun _ => working S) C.
Proof using Hquiet.
  intros Ht Hcs Hc Htmp HC. apply hoare_syscall; [done..|]. intros k F i F' [Hi Hf Hd] Hadd.
  apply add_node_inv in Hadd as (d & n & Hadd). destruct (add_at Hadd) as (l & Hl & Hp & Hil).
  assert (n = c) as ->.
  { pose proof (locate_last _ _ _ _ _ _ Hcs Hc Hl) as Hn. unfold place in Hp. rewrite Hn in Hp. destruct (l_dir l); congruence. }
  pose proof (next_ino_fresh F) as [Hn1 Hn2]. rewrite <- (add_ino Hadd) in Hn1, Hn2.
  assert (forall m : gmap string Z, TFile = TDir m -> m = ∅) as Hnd by done.
  assert (pack_temp c \/ lax d) as Hcd by (apply (Htmp F); [by split|by exists l]).
  assert (held lax nobody None F F') as Hstep.
  { eapply held_added; [apply Hi|done|exact Hadd|]. destruct Hcd; [left; split; [done|by eapply added_node]|by right; left]. }
  pose proof (held_paths lax nobody None F F' (hd_wf _ _ _ _ _ Hi) ltac:(done) Hstep) as Hk.
  exists d. split.
  - by eapply held_trans.
  - constructor.
    + split; try done; cbn [sf_ino sf_dir sf_name sf_path sf_data].
      * exists (mkLoc (l_dir l) (l_name l) (Some i)). split; [|done]. eapply locate_added; [exact Hadd|done..].
      * rewrite (added_entry _ _ _ _ _ _ _ _ _ d c Hadd) by done. by rewrite decide_True.
      * by eapply added_node.
      * exists (new_attr k perm). rewrite (add_attr Hadd), lookup_insert_eq. done.
      * destruct (entry (f_tree B) d c) as [j|] eqn:Hj; [|done].
        apply (hd_entry _ _ _ _ _ Hi) in Hj; [|done]. rewrite (add_free Hadd) in Hj. done.
      * destruct (f_attr B !! i) eqn:Hx; [|done]. apply (hd_attr _ _ _ _ _ Hi) in Hx; [congruence|by intros []].
    + rewrite Forall_forall in *. intros s Hs. specialize (Hf s Hs). apply (present_step F); [done|..|done].
      * rewrite (added_entry _ _ _ _ _ _ _ _ _ _ _ Hadd) by done. case_decide as Heq; [|done]. injection Heq as -> ->.
        pose proof (pr_entry _ _ Hf) as He. by rewrite (add_free Hadd) in He.
      * rewrite (add_attr Hadd), lookup_insert_ne; [done|]. intros Heq. destruct (pr_data _ _ Hf) as (a & Ha & _). congruence.
  - cbn. constructor; [|done]. intros (s & Heq & Hs)%list_elem_of_fmap. rewrite Forall_forall in Hf.
    destruct (pr_data _ _ (Hf s Hs)) as (a & Ha & _). congruence.
Qed.

(** [os.CreateTemp] in a tidy directory, for names that count as packing's. *)
Lemma working_CreateTemp dir prefix suffix S (C : fs -> Prop) :
  tidy dir -> (forall r, single (prefix ++ Itoa r ++ suffix)) -> (forall s, pack_temp (prefix ++ s)) ->
  (forall F, working S F -> C F) ->
  hoare (working S) (os_CreateTemp dir prefix suffix)
    (fun r F => exists s, sf_ino s = r.1 /\ sf_path s = r.2 /\ sf_data s = [] /\ working (s :: S) F) (fun _ => working S) C.
Proof using Hquiet.
  intros Hdir Hname Htmp HC. unfold os_CreateTemp. generalize (Z.to_nat 9999) as tries. induction tries as [|tries IH]; cbn [create_temp].
  all: apply hoare_observe; [apply observes_random|done..|intros r].
  all: eapply hoare_bind with (R := fun x F => match x with
      | inl i => exists s, sf_ino s = i /\ sf_path s = temp_path dir prefix suffix r /\ sf_data s = [] /\ working (s :: S) F
      | inr _ => working S F end).
  1, 3: apply hoare_try; pose proof (temp_path_in_dir dir prefix suffix r (proj1 Hdir) (Hname _)) as Hin;
    eapply hoare_conseq; [eapply (working_create (temp_path dir prefix suffix r) (prefix ++ Itoa (r mod 2 ^ 32) ++ suffix)
      (components dir) 384 S C); [by eapply in_dir_tidy|apply Hin|apply Hname|by left; apply Htmp|done]|..]; try done;
    intros i F [d Hw]; eexists; split_and!; [..|exact Hw]; done.
  all: intros [i|e]; [apply hoare_ret; intros F (s & ? & ? & ? & ?); by exists s|].
  - by apply hoare_fail.
  - destruct (is_exist e); [apply IH|by apply hoare_fail].
Qed.

Lemma working_del s S F :
  working (s :: S) F -> working S (with_tree F (del_entry (f_tree F) (sf_dir s) (sf_name s))).
Proof using Type.
  intros [Hi Hf Hd]. inversion Hf as [|? ? Hs HS]; subst. cbn in Hd. apply NoDup_cons in Hd as [Hni Hd]. split; [|..|done].
  - apply held_drop; [done|apply Hs].
  - assert (paths_kept (f_tree F) (del_entry (f_tree F) (sf_dir s) (sf_name s))) as Hk
      by (eapply paths_kept_del; [apply Hi|apply Hs..]).
    rewrite Forall_forall in *. intros s' Hs'. apply (present_step F); [done| |done|by apply HS]. simpl.
    rewrite entry_del_entry, decide_False; [done|]. intros [= Hdd Hnn]. apply Hni.
    replace (sf_ino s) with (sf_ino s'); [by apply list_elem_of_fmap_2|].
    specialize (HS s' Hs'). pose proof (pr_entry _ _ Hs) as H1. pose proof (pr_entry _ _ HS) as H2. rewrite Hdd, Hnn in H1. congruence.
Qed.

Lemma working_unlink want s S F u F' :
  working (s :: S) F -> (l ← locate cwd_base false (sf_path s) F; unlink_at l want F) = Ok (u, F') -> working S F'.
Proof using Type.
  intros Hw Hu. apply bind_Ok_inv in Hu as (l & Hl & Hu).
  destruct (unlink_at_inv _ _ _ _ _ _ _ _ Hl Hu) as (d & n & i & Hp & _ & _ & -> & _).
  pose proof (wk_present _ _ Hw) as Hf. inversion Hf as [|? ? Hs _]; subst. destruct (pr_at _ _ Hs) as (l' & Hl' & Hp').
  assert (l' = l) as -> by congruence. assert ((d, n) = (sf_dir s, sf_name s)) as [= -> ->] by congruence. by apply working_del.
Qed.

(** Whatever comes of it, the other files are not touched. *)
Lemma working_remove s S E (C : fs -> Prop) :
  (forall F, working S F -> C F) ->
  hoare (working (s :: S)) (ignore (os_Remove (sf_path s))) (fun _ => working S) E C.
Proof using Hquiet.
  intros HC. apply hoare_ignore. unfold os_Remove, remove_at.
  assert (forall F, working (s :: S) F -> C F) as HC1 by (intros F Hw; by apply HC, working_drop with s).
  eapply hoare_bind with (R := fun r F => match r with inl _ => working S F | inr _ => working (s :: S) F end).
  { apply hoare_try, hoare_syscall; [done..|]. intros n F u F' Hw Hu. by eapply working_unlink. }
  intros [u|e]; [by apply hoare_ret|].
  eapply hoare_bind with (R := fun _ => working S); [|intros [u|e1]; [by apply hoare_ret|by apply hoare_fail]].
  apply hoare_try, hoare_syscall; [done|done|intros; by eapply working_drop|]. intros n F u F' Hw Hu. by eapply working_unlink.
Qed.

(** ** Looking *)

Lemma hoare_tells {A} (P : fs -> Prop) (m : io A) (phi : fs -> A -> Prop) (C : fs -> Prop) :
  (forall F, P F -> tells F m (phi F)) -> (forall F, P F -> C F) ->
  hoare P m (fun a F => P F /\ phi F a) (fun _ => P) C.
Proof using Type.
  intros Hm HC. apply hoare_ghost. intros F HP. eapply hoare_conseq; [by apply Hm|..]; try done.
  - by intros a F' [<- Ha].
  - by intros e F' <-.
  - intros F' <-. auto.
Qed.

Lemma hoare_looking {A D} (P : fs -> Prop) (m : io A) (k : A -> io D) (phi : fs -> A -> Prop) Q E C :
  (forall F, P F -> tells F m (phi F)) -> (forall F e, P F -> E e F) -> (forall F, P F -> C F) ->
  (forall a, hoare (fun F => P F /\ phi F a) (k a) Q E C) -> hoare P (m ≫= k) Q E C.
Proof using Type.
  intros Hm HE HC Hk. eapply hoare_bind; [|exact Hk]. eapply hoare_conseq; [by apply hoare_tells|..]; try done. auto.
Qed.

(** The path of a file of ours, as it is or cleaned, opens that file. *)
Lemma present_opens F s q f : present F s -> same_way (sf_path s) q -> opens F q f -> f = sf_ino s.
Proof using Type.
  intros Hs Hq (l & Hl & Hf & _). rewrite <- (locate_same_way _ _ _ _ _ Hq) in Hl.
  destruct (pr_at _ _ Hs) as (l' & Hl' & Hp'). destruct (locate_entry _ _ _ _ _ _ _ Hl' Hp') as [He _].
  rewrite (pr_entry _ _ Hs) in He. rewrite (locate_follow _ _ _ l' (sf_ino s)) in Hl; [congruence|done|done|].
  intros t. rewrite (pr_file _ _ Hs). done.
Qed.

Lemma present_image F s : present F s -> image (sf_ino s) F = sf_data s.
Proof using Type. intros Hs. destruct (pr_data _ _ Hs) as (a & Ha & <-). by apply image_attr. Qed.

Lemma same_way_trans p q r : same_way p q -> same_way q r -> same_way p r.
Proof using Type. intros (? & ? & ? & ?) (? & ? & ? & ?). repeat split; congruence. Qed.

End temp.

(** What is made on the way from a later state is made on the way from the
    first. *)
Lemma working_extend `{Kernel} lax B F S S' F' : working lax B S F -> working lax F S' F' -> working lax B (S' ++ S) F'.
Proof.
  intros [Hi Hf Hd] [Hi' Hf' Hd']. split; [by eapply held_trans|apply Forall_app; split|].
  - eapply Forall_impl; [exact Hf'|]. intros s [H1 H2 H3 H4 H5 H6 H7 H8]. split; try done.
    + destruct (entry (f_tree B) _ _) as [j|] eqn:Hj; [|done]. apply (hd_entry _ _ _ _ _ Hi) in Hj; [congruence|done].
    + destruct (f_attr B !! _) eqn:Hj; [|done]. apply (hd_attr _ _ _ _ _ Hi) in Hj; [congruence|by intros []].
  - assert (paths_kept (f_tree F) (f_tree F')) as Hk by (eapply held_paths; [apply Hi| |exact Hi']; done).
    eapply Forall_impl; [exact Hf|]. intros s Hs. eapply present_step; [exact Hk| | |exact Hs].
    + rewrite (pr_entry _ _ _ _ Hs). by apply (hd_entry _ _ _ _ _ Hi'), Hs.
    + destruct (pr_data _ _ _ _ Hs) as (a & Ha & _). rewrite Ha. by apply (hd_attr _ _ _ _ _ Hi'); [intros []|].
  - rewrite fmap_app. apply NoDup_app. split_and!; [done| |done]. intros i (s & -> & Hs)%list_elem_of_fmap (t & Ht & Hin)%list_elem_of_fmap.
    rewrite Forall_forall in Hf, Hf'. destruct (pr_data _ _ _ _ (Hf t Hin)) as (a & Ha & _). pose proof (pr_new _ _ _ _ (Hf' s Hs)). congruence.
Qed.
