(* ===== verification/PackWrite.v ===== *)
(** * What packing writes

    The bytes appended to the file under construction: the copy of the stub,
    the frames of the variants in their order, the index and the trailer.
    Inputs are files that were there at the start ([input]), so what is read
    does not depend on what packing has written since. *)

From S2P Require Import Prelude GoStrings GoPath GoIO Microarch MicroarchSelect Format FormatIndex Sha256 FormatTrailer Codec PackAssemble PackPlan Vfs GoOS InputFile VfsLogic VfsEffects VfsStage Cache PackOptions PackInput PackStage Pack PackHeld PackTemp.
From stdpp Require Import base list strings gmap.
From Stdlib Require Import ZArith Lia Strings.Ascii Strings.Byte.
Import PackErr.

Local Open Scope Z_scope.

Section inputs.
Context `{Kernel} (Hquiet : quiet) (B : fs) (HB : wf_fs B).

Definition input (path : string) (data : list byte) : Prop := exists i, opens B path i /\ image i B = data /\ data <> [].

Lemma opens_det F p i j : opens F p i -> opens F p j -> i = j.
Proof using Type. intros (l & Hl & Hi & _) (l' & Hl' & Hj & _). congruence. Qed.

Lemma intact_paths F : intact nobody B F -> paths_kept (f_tree B) (f_tree F).
Proof using HB. intros Hi. eapply held_paths; [done| |exact Hi]. done. Qed.

Lemma intact_image F i a : intact nobody B F -> f_attr B !! i = Some a -> image i F = image i B.
Proof using Type. intros Hi Ha. rewrite (image_attr _ _ _ Ha). apply image_attr. apply (hd_attr _ _ _ _ _ Hi); [by intros []|done]. Qed.

Lemma opens_intact F p i : intact nobody B F -> opens B p i -> opens F p i.
Proof using HB.
  intros Hi Ho. eapply opens_stays; [by apply intact_paths| |exact Ho]. intros d n. by apply (hd_entry _ _ _ _ _ Hi).
Qed.

(** An input is opened where it was, and keeps its contents. *)
Lemma opened_input F path data q f :
  intact nobody B F -> input path data -> same_way path q -> opens F q f ->
  is_Some (f_attr B !! f) /\ forall F', intact nobody B F' -> image f F' = data.
Proof using HB.
  intros Hi (i & Ho & Hd & _) Hq (l & Hl & Hf & Hn). assert (f = i) as ->.
  { apply (opens_det F path); [|by apply opens_intact]. exists l. by rewrite (locate_same_way _ _ _ _ _ Hq). }
  destruct Ho as (_ & _ & _ & Hnode). destruct (wf_attr _ HB i (ex_intro _ _ Hnode)) as [a Ha]. split; [eauto|].
  intros F' Hi'. by rewrite (intact_image F' i a).
Qed.

Lemma input_fun path d1 d2 : input path d1 -> input path d2 -> d1 = d2.
Proof using Type. intros (i & Hi & <- & _) (j & Hj & <- & _). by rewrite (opens_det B path i j). Qed.

End inputs.

Section write.
Context `{Kernel} (Hquiet : quiet) {GU : GoUnicode} {SS : SliceSort} {E : Encoders}.
Context (hst : host) (names : zstd_level -> string) (B : fs) (HB : wf_fs B) (C : fs -> Prop) (HC : forall F, intact nobody B F -> C F).

(** The file under construction holds [D]; the others are [S]. *)
Definition drafted (out : sfile) (S : list sfile) (D : list byte) : fs -> Prop := working nobody B (with_data out D :: S).

Definition scrapped (out : sfile) (S : list sfile) (F : fs) : Prop := exists D, drafted out S D F.

Lemma drafted_C out S D F : drafted out S D F -> C F.
Proof using HC. intros Hw. apply HC, Hw. Qed.

Lemma drafted_scrapped out S D F : drafted out S D F -> scrapped out S F.
Proof using Type. by exists D. Qed.

Hint Resolve drafted_C drafted_scrapped : core.

Lemma append_drafted out S D p :
  hoare (drafted out S D) (append_bytes (sf_ino out) p) (fun _ => drafted out S (D ++ p)) (fun _ => scrapped out S) C.
Proof using Hquiet HC.
  eapply hoare_conseq; [apply (working_write Hquiet nobody B (with_data out D) S p C)|..]; try done; intros F Hw.
  - by eapply drafted_C.
  - by exists D.
Qed.

Lemma each_drafted out S D ps :
  hoare (drafted out S D) (each (append_bytes (sf_ino out)) ps) (fun _ => drafted out S (D ++ concat ps))
    (fun _ => scrapped out S) C.
Proof using Hquiet HC.
  revert D. induction ps as [|p ps IH]; intros D; cbn [each concat]; [apply hoare_ret; by rewrite app_nil_r|].
  eapply hoare_bind; [apply append_drafted|]. intros []. eapply hoare_conseq; [apply IH|..]; eauto. intros u F. by rewrite app_assoc.
Qed.

(** Looking between two writes. *)
Lemma looking {A R} out S D (m : io A) (k : A -> io R) (phi : A -> Prop) Q :
  (forall F, intact nobody B F -> tells F m phi) ->
  (forall a, phi a -> hoare (drafted out S D) (k a) Q (fun _ => scrapped out S) C) ->
  hoare (drafted out S D) (m ≫= k) Q (fun _ => scrapped out S) C.
Proof using HC.
  intros Hm Hk. eapply (hoare_looking _ _ _ (fun _ => phi)); eauto.
  - intros F Hw. apply Hm, Hw.
  - intros a. apply hoare_ghost. intros F [Hw Ha]. eapply hoare_pre; [by apply Hk|]. by intros F' <-.
Qed.

(** Copying a file that is not the one under construction. *)
Lemma copy_drafted out S D f data chunk limit :
  0 < chunk -> (forall D' F, drafted out S D' F -> image f F = data) ->
  hoare (drafted out S D) (read_limit chunk (append_bytes (sf_ino out)) f limit)
    (fun read F => drafted out S (D ++ read) F /\ read = take (Z.to_nat limit) data) (fun _ => scrapped out S) C.
Proof using Hquiet HC.
  intros Hc Hf. eapply hoare_pre; [eapply (hoare_read_limit Hquiet (fun acc => drafted out S (D ++ acc)))|]; eauto.
  - intros acc piece. rewrite app_assoc. apply append_drafted.
  - by rewrite app_nil_r.
Qed.

(** ** The stub *)

Lemma writeStub_drafted out S D path data :
  input B (filepath_Clean path) data ->
  hoare (drafted out S D) (writeStubBinaryFromPath (sf_ino out) path)
    (fun n F => n = Z.of_nat (length data) /\ n <= MaxPayloadSize /\ drafted out S (D ++ data) F) (fun _ => scrapped out S) C.
Proof using Hquiet HC HB.
  intros Hin. unfold writeStubBinaryFromPath.
  apply (looking _ _ _ _ _ (fun r => r.2 = Z.of_nat (length data) /\ r.2 <= MaxPayloadSize /\ forall F, intact nobody B F -> image r.1 F = data)).
  { intros F Hi. apply tells_wrapping. eapply tells_impl; [by apply openBounded_tells|]. intros [f size] ([Ho _] & Hsz & Hl).
    cbn [fst snd] in *. destruct (opened_input B HB F _ data (filepath_Clean path) f Hi Hin) as [_ Himg]; [by repeat split; apply clean_path|done|].
    split_and!; [by rewrite Hsz, Himg|done|done]. }
  intros [f size] (Hsz & Hl & Himg). cbn [fst snd] in *. eapply hoare_deferring_observes; [by apply observes_close|intros n F (_ & _ & Hw); eauto|intros e F [D' Hw]; eauto|].
  unfold copyBoundedInput. change (bad_limit MaxPayloadSize) with false. cbv iota.
  eapply hoare_bind with (R := fun _ => drafted out S (D ++ data)).
  - eapply hoare_bind; [apply copy_drafted; [done|intros D' F Hw; apply Himg, Hw]|]. intros read. apply hoare_ghost. intros F [Hw Hr].
    rewrite firstn_all2 in Hr by lia. subst read. eapply hoare_pre; [|by intros F' <-]. rewrite <- Hsz.
    destruct (Z.ltb_spec MaxPayloadSize size); [lia|]. destruct (Z.eqb_spec size 0).
    { exfalso. destruct Hin as (i & _ & _ & Hne). destruct data; [done|simpl in *; lia]. }
    rewrite Z.eqb_refl. cbn [negb]. by apply hoare_ret.
  - intros []. by apply hoare_ret.
Qed.

(** ** Plans and frames *)

(** A plan reads an input of the size it was made for, with the codec that
    fits that size. *)
Definition planned (opts : Options) (plan : variantWorkPlan) : Prop := exists data,
  input B (wp_cleanPath plan) data /\ tidy (wp_cleanPath plan) /\ wp_statSize plan = Z.of_nat (length data) /\
  wp_normalizedLvl plan = NormalizeVariant (wp_level plan) /\
  resolveVariantCompression opts (wp_level plan) (Z.of_nat (length data)) = Ok (wp_codec plan, wp_resolvedLevel plan).

(** What the frame of a plan is. *)
Definition made (dict : list byte) (plan : variantWorkPlan) (r : parallelVariantResult) : Prop := exists data pieces,
  input B (wp_cleanPath plan) data /\ Z.of_nat (length data) <= MaxPayloadSize /\
  compress_variant hst (wp_codec plan) (wp_resolvedLevel plan) data dict = (pieces, None) /\
  staged r = concat pieces /\
  PackAssemble.entry r = staged_entry plan (mkLoaded (wp_codec plan) (wp_resolvedLevel plan) data) (Z.of_nat (length (staged r))).

Lemma made_honest dict plans rs : Forall2 (made dict) plans rs -> Forall honest rs.
Proof using Type.
  induction 1 as [|plan r plans rs (data & pieces & _ & _ & _ & _ & He) _ IH]; constructor; [|done]. unfold honest. by rewrite He.
Qed.

Lemma stat_tells F path : tells F (os_Stat path) (fun fi =>
  exists l i, locate cwd_base true path F = Ok l /\ l_ino l = Some i /\ fi_size fi = Z.of_nat (length (image i F))).
Proof using Hquiet.
  eapply tells_impl; [unfold os_Stat, sys_stat; by apply tells_inspect|]. simpl. intros fi Hfi.
  apply bind_Ok_inv in Hfi as (l & Hl & Hfi). apply bind_Ok_inv in Hfi as (i & Hi & Hfi). apply found_inv in Hi.
  exists l, i. split_and!; [done..|]. unfold info_of in Hfi. unfold fi_size, image.
  destruct (f_tree F !! i) as [node|]; [|discriminate]. destruct (f_attr F !! i) as [a|]; [|discriminate]. by injection Hfi as <-.
Qed.

Lemma prepare_planned F opts levels :
  intact nobody B F -> Forall (fun lvl => exists data, input B (filepath_Clean (default ""%string (o_Variants opts !! lvl))) data) levels ->
  tells F (prepareVariantWorkPlans names levels opts) (fun plans =>
    Forall2 (plan_for opts) levels plans /\ Forall (planned opts) plans).
Proof using Hquiet HB.
  intros Hi. induction 1 as [|lvl rest [data Hin] _ IH]; cbn [prepareVariantWorkPlans]; [apply tells_ret; by split; constructor|].
  eapply tells_bind; [apply tells_wrapping, stat_tells|]. intros fi (l & i & Hl & Hli & Hsz).
  assert (fi_size fi = Z.of_nat (length data)) as Hfi.
  { rewrite Hsz. destruct Hin as (j & Hj & Hd & _). pose proof (opens_intact B HB F _ j Hi Hj) as (l' & Hl' & Hj' & _).
    assert (i = j) as -> by congruence. destruct Hj as (_ & _ & _ & Hnode). destruct (wf_attr _ HB j (ex_intro _ _ Hnode)) as [a Ha].
    by rewrite (intact_image B F j a), Hd. }
  rewrite Hfi. eapply tells_bind; [apply tells_of_outcome|]. intros [c level] Hr. eapply tells_bind; [apply IH|]. intros plans [Hf Hp].
  apply tells_ret. split; [constructor; [by split_and!|done]|]. constructor; [|done]. exists data. split_and!; try done. apply tidy_Clean.
Qed.

Lemma readBounded_input F path data :
  intact nobody B F -> input B path data -> tidy path ->
  tells F (readBoundedInput path MaxPayloadSize) (fun read => read = data /\ Z.of_nat (length data) <= MaxPayloadSize).
Proof using Hquiet HB.
  intros Hi Hin Ht. eapply tells_impl; [by apply readBoundedInput_tells|]. intros read (f & [Ho _] & -> & Hl).
  destruct (opened_input B HB F path data _ f Hi Hin (tidy_same_way _ Ht) Ho) as [_ Himg]. by rewrite (Himg F Hi) in *.
Qed.

(** ** One variant after the other *)

Lemma file_offset_tells out S D F : drafted out S D F -> tells F (file_offset (sf_ino out)) (fun n => n = Z.of_nat (length D)).
Proof using Hquiet.
  intros [_ Hp _]. inversion Hp as [|? ? Hs _]; subst. eapply tells_impl; [by apply tells_inspect|]. simpl. intros n [= <-].
  pose proof (present_image nobody B F _ Hs) as Hd. simpl in Hd. by rewrite Hd.
Qed.

Lemma writeVariantPayload_drafted out S D opts plan off dict :
  planned opts plan ->
  hoare (drafted out S D) (writeVariantPayload hst (sf_ino out) (wp_level plan) (wp_cleanPath plan) opts off dict)
    (fun r F => exists res, made dict plan res /\ drafted out S (D ++ staged res) F /\
       r.2 = Z.of_nat (length (D ++ staged res)) /\
       r.1 = with_offset (mkVariant (ve_Level (PackAssemble.entry res)) 0 (i64_sub r.2 off) (UncompressedSize (PackAssemble.entry res))
               (SHA256 (PackAssemble.entry res)) (Compression (PackAssemble.entry res))) off)
    (fun _ => scrapped out S) C.
Proof using Hquiet HB HC.
  intros (data & Hin & Ht & _ & Hn & Hr). unfold writeVariantPayload.
  assert (input B (filepath_Clean (wp_cleanPath plan)) data) as Hin'.
  { destruct Hin as (i & (l & Hl & Hi) & Hd). exists i. split; [|done]. exists l. by rewrite <- (locate_same_way _ _ _ _ _ (tidy_same_way _ Ht)). }
  apply (looking _ _ _ _ _ (fun read => read = data /\ Z.of_nat (length data) <= MaxPayloadSize)).
  { intros F Hi. apply tells_wrapping. apply readBounded_input; [done..|apply tidy_Clean]. }
  intros read [-> Hmax]. rewrite Hr. apply (looking _ _ _ _ _ (fun r => r = (wp_codec plan, wp_resolvedLevel plan))).
  { intros F _. by apply tells_ret. }
  intros r ->. destruct (compress_variant hst (wp_codec plan) (wp_resolvedLevel plan) data dict) as [pieces err] eqn:Hc.
  eapply hoare_bind; [apply (each_drafted out S D pieces)|]. intros [].
  destruct err as [e|]; [eapply hoare_bind with (R := fun _ _ => False);
    [apply hoare_fail; intros F Hw; by eapply drafted_scrapped|intros a w []]|].
  eapply hoare_bind with (R := fun _ => drafted out S (D ++ concat pieces)); [by apply hoare_ret|]. intros [].
  eapply hoare_looking; [by apply file_offset_tells|intros F e Hw; by eapply drafted_scrapped|by apply drafted_C|].
  intros n. apply hoare_ghost. intros F [Hw ->]. apply hoare_ret. intros F' <-.
  exists (mkResult (staged_entry plan (mkLoaded (wp_codec plan) (wp_resolvedLevel plan) data) (Z.of_nat (length (concat pieces)))) (concat pieces)).
  cbn [PackAssemble.entry staged fst snd]. split; [by exists data, pieces|]. split_and!; [done..|]. unfold staged_entry, with_offset.
  cbn [ve_Level UncompressedSize SHA256 Compression CompressedSize ld_data ld_codec]. by rewrite Hn.
Qed.

Lemma write_variants_drafted out S opts dict plans : Forall (planned opts) plans -> forall D off,
  hoare (drafted out S D) (write_variants hst (sf_ino out) plans opts off dict)
    (fun r F => exists rs, Forall2 (made dict) plans rs /\ drafted out S (D ++ frames rs) F /\
       (off = Z.of_nat (length D) -> Z.of_nat (length (D ++ frames rs)) <= 2 ^ 61 ->
        r = (placed off rs, off + Z.of_nat (length (frames rs)))))
    (fun _ => scrapped out S) C.
Proof using Hquiet HB HC.
  induction 1 as [|plan rest Hp _ IH]; intros D off; cbn [write_variants].
  { apply hoare_ret. intros F Hw. exists []. split_and!; [constructor| |]; cbn; [by rewrite app_nil_r|]. by rewrite Z.add_0_r. }
  eapply hoare_bind; [by apply writeVariantPayload_drafted|]. intros [e next]. apply hoare_ghost.
  intros F (res & Hm & Hw & Hnext & He). cbn [fst snd] in *.
  eapply hoare_bind; [eapply hoare_pre; [by apply (IH (D ++ staged res) next)|by intros F' <-]|]. intros [es finish]. apply hoare_ret.
  intros F' (rs & Hrs & Hw' & Hes). exists (res :: rs). rewrite frames_cons, app_assoc. split_and!; [by constructor|done|].
  intros -> Hsmall. specialize (Hes Hnext Hsmall). injection Hes as -> ->. rewrite Hnext in He |- *. cbn [placed].
  destruct Hm as (data & pieces & _ & _ & _ & _ & Hent). rewrite Hent in *. cbn [CompressedSize staged_entry] in *.
  rewrite !length_app in *. f_equal; [|lia]. f_equal; [|f_equal; lia].
  rewrite He. unfold with_offset, staged_entry. cbn [ve_Level CompressedSize UncompressedSize SHA256 Compression]. f_equal.
  unfold i64_sub. rewrite to_int64_small by int_range. lia.
Qed.

(** ** The index and the trailer *)

Lemma write_index_drafted out S D idx off version :
  hoare (drafted out S D) (write_index (sf_ino out) idx off version)
    (fun idx' F => 0 <= off /\ version = FormatVersion2 /\ idx' = with_version idx FormatVersion2 /\ encodable idx' /\
       Z.of_nat (length (encode_index idx')) <= MaxIndexSize /\
       drafted out S (D ++ encode_index idx' ++
         encode_trailer off (Z.of_nat (length (encode_index idx'))) (Sum256 (encode_index idx'))) F)
    (fun _ => scrapped out S) C.
Proof using Hquiet HC.
  unfold write_index. destruct (WriteIndexAndTrailerWithVersion _ _ _ _) as [[calls idx'] [n|e|]] eqn:Hw;
    [|apply hoare_fail; intros F; by apply drafted_scrapped..].
  apply write_ok_inv in Hw as (H1 & H2 & H3 & H4 & H5 & _ & w1 & n1 & n2 & E1 & E2).
  eapply hoare_bind; [apply each_drafted|]. intros []. apply hoare_ret. intros F HF. split_and!; [done..|].
  cbn [Write pieces_writer] in E1, E2. unfold pieces_write in E1, E2. injection E1 as <- _. injection E2 as <- _.
  cbn [piece_list app concat] in HF. by rewrite app_nil_r in HF.
Qed.

End write.
