(* ===== verification/PackPool.v ===== *)
(** * The staged frames

    Frames are staged in files of their own, which are appended to the file
    under construction and removed.  The workers that stage them run under a
    schedule: whatever it is, every file that was made is the one its result
    names, and each result holds the frame of its plan. *)

From S2P Require Import Prelude GoStrings GoPath GoIO Microarch MicroarchSelect Format FormatIndex Sha256 FormatTrailer Codec PackAssemble PackPlan Vfs GoOS InputFile VfsLogic VfsEffects VfsStage Cache PackOptions PackInput PackStage Pack PackHeld PackTemp PackWrite.
From stdpp Require Import base list strings gmap.
From Stdlib Require Import ZArith Lia Strings.Ascii Strings.Byte.
Import PackErr.

Local Open Scope Z_scope.

(** The file of a result; a variant that was not staged has none. *)
Definition staged_as (r : stagedVariant) (so : option sfile) : Prop :=
  match so with
  | Some s => sv_path r = sf_path s
  | None => sv_path r = ""%string /\ CompressedSize (sv_entry r) = 0
  end.

Definition files (R : list (option sfile)) : list sfile := omap id R.

Definition result_of (r : stagedVariant) (s : sfile) : parallelVariantResult := mkResult (sv_entry r) (sf_data s).

Lemma hoare_or_cleanup {A} P cleanup (m : io A) Q (E0 E : gerror -> fs -> Prop) C :
  hoare P m Q E0 C -> (forall e, hoare (E0 e) cleanup (fun _ => E e) (fun _ => E e) C) ->
  hoare P (or_cleanup cleanup m) Q E C.
Proof.
  intros Hm Hc. unfold or_cleanup.
  eapply hoare_bind with (R := fun r F => match r with inl a => Q a F | inr e => E0 e F end); [by apply hoare_try|].
  intros [a|e]; [by apply hoare_ret|]. eapply hoare_bind with (R := fun _ => E e); [by apply hoare_ignore|].
  intros []. by apply hoare_fail.
Qed.

Section append.
Context `{Kernel} (Hquiet : quiet).
Context (B : fs) (HB : wf_fs B) (C : fs -> Prop) (HC : forall F, intact nobody B F -> C F).

Local Abbreviation drafted := (drafted B).
Local Abbreviation scrapped := (scrapped B).

Lemma drafted_perm out S S' D F : S ≡ₚ S' -> drafted out S D F -> drafted out S' D F.
Proof using Type. intros Hp. apply working_perm. by rewrite Hp. Qed.

Lemma scrapped_perm out S S' F : S ≡ₚ S' -> scrapped out S F -> scrapped out S' F.
Proof using Type. intros Hp [D Hw]. exists D. by eapply drafted_perm. Qed.

(** ** Removing *)

Lemma remove_drafted out s S D E :
  hoare (drafted out (s :: S) D) (ignore (os_Remove (sf_path s))) (fun _ => drafted out S D) E C.
Proof using Hquiet HC.
  eapply hoare_pre; [apply (working_remove Hquiet nobody B s (with_data out D :: S)); intros F Hw; apply HC, Hw|].
  intros F. apply working_perm. apply Permutation_swap.
Qed.

Lemma remove_staged_drafted out S D rs R E :
  Forall2 staged_as rs R ->
  hoare (drafted out (files R ++ S) D) (remove_staged rs) (fun _ => drafted out S D) E C.
Proof using Hquiet HC.
  unfold remove_staged. induction 1 as [|r so rs R Hr _ IH]; cbn [each]; [by apply hoare_ret|].
  eapply hoare_bind with (R := fun _ => drafted out (files R ++ S) D); [|intros []; exact IH].
  destruct so as [s|].
  - cbn in Hr. rewrite Hr. destruct (String.eqb _ _); [|apply remove_drafted].
    apply hoare_ret. intros F. apply working_drop_second.
  - destruct Hr as [-> _]. by apply hoare_ret.
Qed.

(** What could not be appended is removed, whatever was written so far. *)
Lemma remove_staged_scrapped out S rs R E :
  Forall2 staged_as rs R ->
  hoare (scrapped out (files R ++ S)) (remove_staged rs) (fun _ => scrapped out S) E C.
Proof using Hquiet HC.
  intros Hrs. apply hoare_ghost. intros F [D Hw]. eapply hoare_conseq; [by apply (remove_staged_drafted out S D rs R E)|..]; try done.
  - by intros F' <-.
  - intros u F'. by apply drafted_scrapped.
Qed.

(** ** Copying *)

Lemma copied_whole (data read : list byte) n :
  read = take (Z.to_nat (i64_add n 1)) data -> Z.of_nat (length read) = n -> read = data.
Proof using Type.
  intros Hr Hn. assert (n + 1 <= MaxInt64 \/ MaxInt64 < n + 1) as [Hl|Hl] by lia.
  - unfold i64_add in Hr. rewrite to_int64_small in Hr by (unfold MaxInt64 in *; int_range).
    rewrite Hr in Hn. rewrite length_take in Hn. rewrite Hr. apply firstn_all2. lia.
  - exfalso. pose proof (to_int64_range (n + 1)) as [_ Hu]. assert (length read <= Z.to_nat (i64_add n 1))%nat as Hlen
      by (rewrite Hr, length_take; lia). unfold i64_add in Hlen. unfold MaxInt64 in *.
    assert (n = 2 ^ 63 - 1) as -> by lia. change (to_int64 (2 ^ 63 - 1 + 1)) with (- 2 ^ 63) in Hlen. lia.
Qed.

Lemma present_in out S D F s : drafted out S D F -> s ∈ S -> present nobody B F s.
Proof using Type. intros Hw Hs. pose proof (wk_present _ _ _ _ Hw) as Hp. rewrite Forall_forall in Hp. apply Hp. by right. Qed.

Lemma append_frame out S D s n :
  s ∈ S ->
  hoare (drafted out S D) (appendStagedFrame (sf_ino out) (sf_path s) n)
    (fun c F => c = n /\ n = Z.of_nat (length (sf_data s)) /\ drafted out S (D ++ sf_data s) F) (fun _ => scrapped out S) C.
Proof using Hquiet HC.
  intros Hs. unfold appendStagedFrame.
  eapply hoare_looking with (phi := fun _ f => f = sf_ino s);
    [|intros F e; by apply drafted_scrapped|intros F; by apply drafted_C|].
  { intros F Hw. eapply tells_impl; [by apply Open_tells|]. intros f [Ho _]. pose proof (present_in _ _ _ _ _ Hw Hs) as Hp.
    eapply present_opens; [exact Hp| |exact Ho]. eapply same_way_trans; [apply tidy_same_way, Hp|]. apply tidy_same_way, tidy_Clean. }
  intros f. apply hoare_ghost. intros F0 [Hw0 ->]. eapply hoare_pre; [|intros F' <-; exact Hw0].
  eapply hoare_deferring_observes; [by apply observes_close|intros c F (_ & _ & Hw); by eapply drafted_C|intros e F [D' Hw]; by eapply drafted_C|].
  eapply hoare_bind.
  - apply (copy_drafted Hquiet B C HC out S D (sf_ino s) (sf_data s)); [done|]. intros D' F Hw. by eapply present_image, present_in.
  - intros read. apply hoare_ghost. intros F [Hw Hr]. destruct (Z.eqb_spec (Z.of_nat (length read)) n) as [Hn|Hn]; cbn [negb].
    + apply hoare_ret. intros F' <-. rewrite <- (copied_whole _ _ _ Hr Hn). by split_and!.
    + apply hoare_fail. intros F' <-. by eapply drafted_scrapped.
Qed.

(** A variant that was not staged stops the packing: its path is the working
    directory, which is no file, or one that is not empty. *)
Lemma append_nothing out S D :
  hoare (drafted out S D) (appendStagedFrame (sf_ino out) "" 0) (fun _ _ => False) (fun _ => scrapped out S) C.
Proof using Hquiet HC.
  unfold appendStagedFrame. change (i64_add 0 1) with 1.
  eapply hoare_looking with (phi := fun F f => image f F <> []);
    [|intros F e; by apply drafted_scrapped|intros F; by apply drafted_C|].
  { intros F Hw. eapply tells_impl; [by apply Open_tells|]. by intros f [_ Hne]. }
  intros f. apply hoare_ghost. intros F0 [Hw0 Hne].
  eapply hoare_deferring_observes; [by apply observes_close|by intros c F []|intros e F [D' Hw]; by eapply drafted_C|].
  eapply hoare_bind with (R := fun read F => Z.of_nat (length read) = 1 /\ scrapped out S F).
  2: { intros read. apply hoare_ghost. intros F [-> Hw]. by apply hoare_fail; intros F' <-. }
  unfold read_limit. change (Z.to_nat (1 / 32768 + 2)) with 2%nat. cbn [read_pieces Z.leb Z.compare]. change (Z.to_nat (Z.min 32768 1)) with 1%nat.
  eapply hoare_bind with (R := fun piece F => length piece = 1%nat /\ drafted out S D F).
  { apply hoare_inspect; [done|intros F <-; by eapply drafted_C|intros F e <-; by eapply drafted_scrapped|]. intros F piece <- Hp. split; [|done].
    unfold read_attr in Hp. unfold image in Hne. destruct (f_attr F0 !! f) as [a|]; [|discriminate]. injection Hp as <-.
    change (Z.to_nat 0) with 0%nat. rewrite drop_0, length_take. destruct (a_data a); [done|simpl; lia]. }
  intros piece. apply hoare_ghost. intros F [Hlen Hw]. destruct piece as [|b [|? ?]]; [done| |done].
  eapply hoare_bind with (R := fun _ => scrapped out S).
  { eapply hoare_conseq; [apply (append_drafted Hquiet B C HC out S D [b])|..]; try done; [by intros F' <-|]. intros u F'. by apply drafted_scrapped. }
  intros []. cbn [length app]. change (1 - Z.of_nat 1) with 0. cbn. apply hoare_ret. done.
Qed.

Lemma append_result out S D r so :
  staged_as r so -> (forall s, so = Some s -> s ∈ S) ->
  hoare (drafted out S D) (appendStagedFrame (sf_ino out) (sv_path r) (CompressedSize (sv_entry r)))
    (fun c F => exists s, so = Some s /\ c = CompressedSize (sv_entry r) /\ honest (result_of r s) /\ drafted out S (D ++ sf_data s) F)
    (fun _ => scrapped out S) C.
Proof using Hquiet HC.
  intros Hr Hs. destruct so as [s|]; cbn in Hr.
  - rewrite Hr. eapply hoare_conseq; [apply append_frame; by apply Hs|..]; try done. intros c F (-> & Hn & Hw). by exists s.
  - destruct Hr as [-> ->]. eapply hoare_conseq; [apply append_nothing|..]; try done.
Qed.

(** ** All of them *)

Lemma append_staged_drafted out rs R : Forall2 staged_as rs R -> forall D off,
  hoare (drafted out (files R) D) (append_staged (sf_ino out) rs off)
    (fun r F => exists ss, R = Some <$> ss /\ let res := zip_with result_of rs ss in
       Forall honest res /\ drafted out [] (D ++ frames res) F /\ r = place_entries off res)
    (fun _ => scrapped out []) C.
Proof using Hquiet HC.
  induction 1 as [|r so rs R Hr Hrs IH]; intros D off; cbn [append_staged].
  { apply hoare_ret. intros F Hw. exists []. cbn. rewrite app_nil_r. by split_and!. }
  eapply hoare_bind.
  { eapply hoare_or_cleanup; [apply append_result; [exact Hr|intros s ->; left]|]. intros e.
    pose proof (remove_staged_scrapped out [] (r :: rs) (so :: R) (fun _ => scrapped out [])) as Hrm.
    rewrite app_nil_r in Hrm. apply Hrm. by constructor. }
  intros copied. apply hoare_ghost. intros F (s & -> & -> & Hh & Hw).
  eapply hoare_bind with (R := fun _ => drafted out (files R) (D ++ sf_data s)).
  { cbn in Hr. rewrite Hr. eapply hoare_pre; [apply remove_drafted|by intros F' <-]. }
  intros []. eapply hoare_bind; [apply IH|]. intros [es finish]. apply hoare_ret. intros F' (ss & -> & Hhs & Hw' & He).
  exists (s :: ss). split; [done|]. cbn [zip_with]. cbn [place_entries]. change (PackAssemble.entry (result_of r s)) with (sv_entry r).
  rewrite <- He, frames_cons, app_assoc. split_and!; [by constructor|done|done].
Qed.

Lemma append_chosen_drafted out S rs R : Forall2 staged_as rs R -> (forall s, Some s ∈ R -> s ∈ S) -> forall D off,
  hoare (drafted out S D) (append_chosen (sf_ino out) rs off)
    (fun finish F => exists ss, R = Some <$> ss /\ let res := zip_with result_of rs ss in
       Forall honest res /\ drafted out S (D ++ frames res) F /\ finish = (place_entries off res).2)
    (fun _ => scrapped out S) C.
Proof using Hquiet HC.
  induction 1 as [|r so rs R Hr Hrs IH]; intros HS D off; cbn [append_chosen].
  { apply hoare_ret. intros F Hw. exists []. cbn. rewrite app_nil_r. by split_and!. }
  eapply hoare_bind; [apply append_result; [exact Hr|intros s ->; apply HS; left]|].
  intros copied. apply hoare_ghost. intros F (s & -> & -> & Hh & Hw).
  eapply hoare_conseq; [apply IH; intros s' Hs'; apply HS; by right|by intros F' <-| |done|done].
  intros finish F' (ss & -> & Hhs & Hw' & He). exists (s :: ss). split; [done|]. cbn [zip_with place_entries].
  change (PackAssemble.entry (result_of r s)) with (sv_entry r). rewrite frames_cons, app_assoc. split_and!; [by constructor|done|].
  rewrite He. by destruct (place_entries _ _).
Qed.

End append.

Lemma files_insert W i w w0 :
  W !! i = Some w0 -> files (<[i:=w]> W) ≡ₚ (option_list w ++ files (<[i:=None]> W))%list.
Proof.
  revert i. induction W as [|x W IH]; intros [|i] Hi; [done..| |].
  - by destruct w.
  - specialize (IH i Hi). cbn [files omap list_omap insert list_insert] in *. destruct x as [s|]; cbn [id].
    + rewrite IH. by rewrite Permutation_middle.
    + exact IH.
Qed.

Lemma files_take W i w : W !! i = Some w -> files W ≡ₚ (option_list w ++ files (<[i:=None]> W))%list.
Proof. intros Hi. rewrite <- (files_insert W i w w Hi). by rewrite list_insert_id. Qed.

Lemma files_None n : files (replicate n None) = [].
Proof. by induction n. Qed.

Section pool.
Context `{Kernel} (Hquiet : quiet) {GU : GoUnicode} {SS : SliceSort} {E : Encoders}.
Context (hst : host) (B : fs) (HB : wf_fs B) (C : fs -> Prop) (HC : forall F, intact nobody B F -> C F).
Context (outDir : string) (plans : list variantWorkPlan) (indices : list nat) (opts : Options) (dict : list byte).
Context (HoutDir : tidy outDir) (Hplans : Forall (planned B opts) plans).

Local Abbreviation drafted := (drafted B).
Local Abbreviation plan_at := (plan_at plans indices).

Definition loads (plan : variantWorkPlan) (v : loaded) : Prop := exists data,
  input B (wp_cleanPath plan) data /\ Z.of_nat (length data) <= MaxPayloadSize /\
  v = mkLoaded (wp_codec plan) (wp_resolvedLevel plan) data.

(** The frame of the variant at a position, in pieces. *)
Definition framed (pos : nat) (v : loaded) (pieces : list (list byte)) (err : option gerror) : Prop := exists plan,
  plan_at pos = Some plan /\ loads plan v /\
  compress_variant hst (ld_codec v) (ld_level v) (ld_data v) dict = (pieces, err).

(** What a worker is at, and its file. *)
Definition phase_ok (ph : phase) (w : option sfile) : Prop :=
  match ph with
  | Loaded pos v => w = None /\ exists plan, plan_at pos = Some plan /\ loads plan v
  | Writing pos v file path todo err => exists s pieces, w = Some s /\ sf_ino s = file /\ sf_path s = path /\
      framed pos v pieces err /\ (sf_data s ++ concat todo)%list = concat pieces
  | _ => w = None
  end.

(** A result and its file. *)
Definition result_good (pos : nat) (r : stagedVariant) (so : option sfile) : Prop :=
  staged_as r so /\
  forall s, so = Some s -> sv_err r = None -> exists plan v pieces, plan_at pos = Some plan /\ framed pos v pieces None /\
    sf_data s = concat pieces /\ sv_entry r = staged_entry plan v (Z.of_nat (length (sf_data s))).

Definition results_good (rs : list stagedVariant) (R : list (option sfile)) : Prop :=
  length rs = length R /\ forall pos r so, rs !! pos = Some r -> R !! pos = Some so -> result_good pos r so.

Lemma results_good_store p R pos r so :
  results_good (results p) R -> result_good pos r so -> results_good (results (store p pos r)) (<[pos:=so]> R).
Proof using Type.
  intros [Hl Hr] Hg. split; [cbn; by rewrite !length_insert|]. intros k r' so'. cbn [results store].
  destruct (decide (k = pos)) as [-> |Hne].
  - intros H1 H2. assert (pos < length (results p))%nat as Hlt by (apply lookup_lt_Some in H1; by rewrite length_insert in H1).
    rewrite list_lookup_insert_eq in H1 by done. rewrite list_lookup_insert_eq in H2 by congruence. by simplify_eq.
  - rewrite !list_lookup_insert_ne by done. apply Hr.
Qed.

(** A file more, or in place of another. *)
Lemma drafted_store out D w R X pos F :
  drafted out (option_list w ++ files R ++ X) D F -> drafted out (files (<[pos:=w]> R) ++ X) D F.
Proof using Type.
  intros Hw. destruct (R !! pos) as [w0|] eqn:Hp.
  - pose proof (files_take R pos w0 Hp) as HR. pose proof (files_insert R pos w w0 Hp) as HI. set (rest := files (<[pos:=None]> R)) in *.
    assert (drafted out ((option_list w ++ rest) ++ X) D F) as Hr.
    { assert (drafted out (option_list w0 ++ ((option_list w ++ rest) ++ X)) D F) as Hw'.
      { eapply drafted_perm; [|exact Hw]. rewrite HR, !app_assoc. do 2 apply Permutation_app_tail. apply Permutation_app_comm. }
      destruct w0; [|done]. by apply working_drop_second in Hw'. }
    eapply drafted_perm; [|exact Hr]. apply Permutation_app_tail. by rewrite HI.
  - rewrite list_insert_ge by (by apply lookup_ge_None). destruct w; [|done]. by apply working_drop_second in Hw.
Qed.

Definition stepped (out : sfile) (X : list sfile) (D : list byte) (n : nat) (r : phase * pool) (F : fs) : Prop :=
  exists w R, phase_ok r.1 w /\ results_good (results r.2) R /\ length (results r.2) = n /\
    drafted out (option_list w ++ files R ++ X) D F.

(** Giving a result up for its position. *)
Lemma stepped_store out X D p R pos r w F :
  results_good (results p) R -> result_good pos r w -> drafted out (option_list w ++ files R ++ X) D F ->
  stepped out X D (length (results p)) (Idle, store p pos r) F.
Proof using Type.
  intros HR Hr Hw. exists None, (<[pos:=w]> R). split; [done|]. split; [by apply results_good_store|].
  split; [cbn; by rewrite length_insert|]. by apply drafted_store.
Qed.

Lemma failed_good pos path e w :
  staged_as (failed_with path e) w -> result_good pos (failed_with path e) w.
Proof using Type. by split. Qed.

Lemma planned_at pos plan : plan_at pos = Some plan -> planned B opts plan.
Proof using Hplans.
  intros Hp. unfold PackStage.plan_at in Hp. destruct (indices !! pos) as [i|]; [|discriminate]. simpl in Hp.
  rewrite Forall_lookup in Hplans. by eapply Hplans.
Qed.

Lemma load_planned F plan : intact nobody B F -> planned B opts plan -> tells F (load_variant opts plan) (loads plan).
Proof using Hquiet HB.
  intros Hi (data & Hin & Ht & Hsz & _ & _). unfold load_variant. eapply tells_bind; [apply tells_wrapping, (readBounded_input Hquiet B HB F _ data Hi Hin Ht)|].
  intros read [-> Hmax]. rewrite Hsz, Z.eqb_refl. cbn [negb]. apply tells_ret. by exists data.
Qed.

Lemma working_front out s X D F : drafted out (s :: X) D F <-> working nobody B (s :: with_data out D :: X) F.
Proof using Type. split; apply working_perm, Permutation_swap. Qed.

Lemma spool_drafted out s X D t piece E' :
  hoare (drafted out (s :: X) D) (spool_to_file (sf_ino s) t piece)
    (fun r F => match r.2 with None => drafted out (with_data s (sf_data s ++ piece) :: X) D F
                          | Some _ => drafted out (s :: X) D F end) E' C.
Proof using Hquiet HC.
  assert (forall T (k : T), hoare (drafted out (s :: X) D) (r ← try (sys_write (sf_ino s) (fun old => old ++ piece));
    mret (k, match r with inl _ => None | inr e => Some e end))
    (fun r F => match r.2 with None => drafted out (with_data s (sf_data s ++ piece) :: X) D F
                          | Some _ => drafted out (s :: X) D F end) E' C) as Hwrite.
  { intros T k. eapply hoare_bind with (R := fun r F => match r with inl _ => drafted out (with_data s (sf_data s ++ piece) :: X) D F
                          | inr _ => drafted out (s :: X) D F end).
    - apply hoare_try. eapply hoare_conseq; [apply (working_write Hquiet nobody B s (with_data out D :: X) piece C); intros F Hw; apply HC, Hw|..]; try done;
        intros; by apply working_front.
    - intros [u|e]; by apply hoare_ret. }
  unfold spool_to_file. destruct t as [t|]; [|apply Hwrite]. destruct (Nat.eqb_spec (length piece) 0) as [Hz|_].
  { apply hoare_ret. cbn [snd]. intros F. destruct piece; [|done]. rewrite app_nil_r. by destruct s. }
  destruct (spool_Write _ _ _) as [[[[? t'] ?] [over|]] ?]; [by apply hoare_ret|apply Hwrite].
Qed.

(** ** One step of a worker *)

Local Abbreviation stepping p := (worker_step hst outDir plans indices opts dict p).

Lemma pack_temp_stage s : pack_temp (packStageTempPrefix ++ s)%string.
Proof using Type. unfold pack_temp. change (packStageTempPrefix ++ s)%string with (packTempPrefix ++ ("var-" ++ s))%string. apply HasPrefix_app. Qed.

Lemma stage_name_single r : single (packStageTempPrefix ++ Itoa r ++ ".tmp")%string.
Proof using Type. split_and!; [done..|]. by rewrite !slashless_app, Itoa_slashless. Qed.

(** From one state to the next where nothing is left to do. *)
Lemma stepped_ret out X D p R w ph (E' : gerror -> fs -> Prop) :
  phase_ok ph w -> results_good (results p) R ->
  hoare (drafted out (option_list w ++ files R ++ X) D) (mret (ph, p)) (stepped out X D (length (results p))) E' C.
Proof using Type. intros Hph HR. apply hoare_ret. intros F Hw. by exists w, R. Qed.

Lemma step_taken out X D p R pos (E' : gerror -> fs -> Prop) :
  results_good (results p) R ->
  hoare (drafted out (files R ++ X) D) (stepping (Taken pos) p) (stepped out X D (length (results p))) E' C.
Proof using Hquiet HB HC Hplans.
  intros HR. cbn [worker_step]. destruct (cancelled p); [by apply (stepped_ret _ _ _ _ _ None)|].
  assert (forall e, hoare (drafted out (files R ++ X) D) (mret (Idle, store p pos (failed_with "" e)))
    (stepped out X D (length (results p))) E' C) as Hfail.
  { intros e. apply hoare_ret. intros F Hw. by apply (stepped_store _ _ _ p R pos (failed_with "" e) None). }
  destruct (plan_at pos) as [plan|] eqn:Hp; [|apply Hfail].
  eapply hoare_bind with (R := fun r F => drafted out (files R ++ X) D F /\ match r with inl v => loads plan v | inr _ => True end).
  { apply hoare_try. eapply hoare_conseq; [apply (hoare_tells (drafted out (files R ++ X) D) _ (fun _ => loads plan) C)|done..].
    - intros F Hw. apply load_planned; [exact (wk_intact _ _ _ _ Hw)|by eapply planned_at].
    - intros F Hw. exact (HC F (wk_intact _ _ _ _ Hw)). }
  intros [v|e]; apply hoare_ghost; intros F [Hw Hv]; (eapply hoare_pre; [|by intros F' <-]); [|apply Hfail].
  apply (stepped_ret _ _ _ _ _ None); [|done]. split; [done|]. by exists plan.
Qed.

Lemma step_loaded out X D p R pos v w (E' : gerror -> fs -> Prop) :
  phase_ok (Loaded pos v) w -> results_good (results p) R ->
  hoare (drafted out (files R ++ X) D) (stepping (Loaded pos v) p) (stepped out X D (length (results p))) E' C.
Proof using Hquiet HC HoutDir.
  intros [_ (plan & Hp & Hv)] HR. cbn [worker_step].
  eapply hoare_bind with (R := fun r F => match r with
    | inl (file, path) => exists s, sf_ino s = file /\ sf_path s = path /\ sf_data s = [] /\ drafted out (s :: files R ++ X) D F
    | inr _ => drafted out (files R ++ X) D F end).
  { apply hoare_try. eapply hoare_conseq; [apply (working_CreateTemp Hquiet nobody B outDir packStageTempPrefix ".tmp" (with_data out D :: files R ++ X) C);
      [done|apply stage_name_single|apply pack_temp_stage|intros F Hw; apply HC, Hw]|..]; try done.
    intros [file path] F (s & Hi & Hpa & Hd & Hw). exists s. split_and!; [done..|]. by apply working_front. }
  intros [[file path]|e].
  - apply hoare_ghost. intros F (s & <- & <- & Hd & Hw).
    destruct (compress_variant hst (ld_codec v) (ld_level v) (ld_data v) dict) as [pieces err] eqn:Hc.
    eapply hoare_pre; [apply (stepped_ret out X D p R (Some s)); [|done]|by intros F' <-].
    exists s, pieces. split_and!; [done..|by exists plan|]. by rewrite Hd.
  - apply hoare_ret. intros F Hw. by apply (stepped_store _ _ _ p R pos (failed_with "" e) None).
Qed.

(** Closing a file, with or without looking at the error. *)
Lemma hoare_closing {A} (P : fs -> Prop) f (k : io A) Q (E' : gerror -> fs -> Prop) :
  (forall F, P F -> C F) -> hoare P k Q E' C -> hoare P (_ ← ignore (sys_close f); k) Q E' C.
Proof using Hquiet. intros HP Hk. eapply hoare_bind with (R := fun _ => P); [by apply hoare_ignore, hoare_inspect|by intros []]. Qed.

Lemma step_piece out X D p R pos v s piece todo err (E' : gerror -> fs -> Prop) :
  phase_ok (Writing pos v (sf_ino s) (sf_path s) (piece :: todo) err) (Some s) -> results_good (results p) R ->
  hoare (drafted out (s :: files R ++ X) D) (stepping (Writing pos v (sf_ino s) (sf_path s) (piece :: todo) err) p)
    (stepped out X D (length (results p))) E' C.
Proof using Hquiet HC.
  intros (s' & pieces & [= <-] & _ & _ & Hf & Hd) HR. cbn [worker_step]. eapply hoare_bind; [apply spool_drafted|].
  intros [t [e|]]; cbn [snd].
  - apply hoare_closing; [intros F Hw; apply HC, Hw|]. apply hoare_ret. intros F Hw.
    by apply (stepped_store _ _ _ (with_tracker p t) R pos (failed_with (sf_path s) e) (Some s)).
  - apply (stepped_ret out X D (with_tracker p t) R (Some (with_data s (sf_data s ++ piece)))); [|done].
    exists (with_data s (sf_data s ++ piece)), pieces. split_and!; try done. cbn [sf_data with_data]. by rewrite <- app_assoc.
Qed.

Lemma step_closing out X D p R pos v s err (E' : gerror -> fs -> Prop) :
  phase_ok (Writing pos v (sf_ino s) (sf_path s) [] err) (Some s) -> results_good (results p) R ->
  hoare (drafted out (s :: files R ++ X) D) (stepping (Writing pos v (sf_ino s) (sf_path s) [] err) p)
    (stepped out X D (length (results p))) E' C.
Proof using Hquiet HC.
  intros (s' & pieces & [= <-] & _ & _ & Hf & Hd) HR. cbn [concat] in Hd. rewrite app_nil_r in Hd. cbn [worker_step].
  assert (forall F, drafted out (s :: files R ++ X) D F -> C F) as HwC by (intros F Hw; apply HC, Hw).
  assert (forall r, result_good pos r (Some s) -> hoare (drafted out (s :: files R ++ X) D) (mret (Idle, store p pos r))
    (stepped out X D (length (results p))) E' C) as Hstore.
  { intros r Hr. apply hoare_ret. intros F Hw. by apply (stepped_store _ _ _ p R pos r (Some s)). }
  destruct err as [e|]; [apply hoare_closing; [done|]; apply Hstore; by apply failed_good|].
  eapply hoare_bind with (R := fun r F => drafted out (s :: files R ++ X) D F /\
    match r with inl n => n = Z.of_nat (length (sf_data s)) | inr _ => True end).
  { apply hoare_try. eapply hoare_conseq; [apply (hoare_tells (drafted out (s :: files R ++ X) D) _ (fun _ n => n = Z.of_nat (length (sf_data s))) C); [|exact HwC]|done..].
    intros F Hw. unfold file_offset. eapply tells_impl; [by apply tells_inspect|]. intros n [= <-].
    assert (present nobody B F s) as Hp by (eapply (present_in B out _ D F s); [exact Hw|left]). by rewrite (present_image nobody B F s Hp). }
  intros n. apply hoare_ghost. intros F [Hw Hn]. eapply hoare_pre; [|intros F' <-; exact Hw].
  eapply hoare_bind with (R := fun _ => drafted out (s :: files R ++ X) D); [by apply hoare_try, hoare_inspect|].
  intros closed. apply Hstore. destruct n as [n|e]; [subst n|by apply failed_good].
  destruct closed as [[]|e]; [|by apply failed_good]. pose proof Hf as (plan & Hp & _). rewrite Hp. split; [done|].
  intros s' [= <-] _. by exists plan, v, pieces.
Qed.

Lemma step_worker out X D ph p w R (E' : gerror -> fs -> Prop) :
  phase_ok ph w -> results_good (results p) R ->
  hoare (drafted out (option_list w ++ files R ++ X) D) (stepping ph p) (stepped out X D (length (results p))) E' C.
Proof using Hquiet HB HC HoutDir Hplans.
  intros Hph HR. destruct ph as [|pos|pos v|pos v file path todo err|].
  - cbn in Hph. subst w. cbn [worker_step]. destruct (queue p) as [|pos rest]; [by apply (stepped_ret _ _ _ _ _ None)|].
    by apply (stepped_ret out X D (mkPool rest (cancelled p) (results p) (tracker p)) R None).
  - cbn in Hph. subst w. by apply step_taken.
  - pose proof Hph as [-> _]. by eapply step_loaded.
  - pose proof Hph as (s & pieces & -> & <- & <- & _). destruct todo as [|piece todo]; [by apply step_closing|by apply step_piece].
  - cbn in Hph. subst w. by apply (stepped_ret _ _ _ _ _ None).
Qed.

(** ** The whole pool *)

Definition pooled (out : sfile) (X : list sfile) (D : list byte) (n : nat) (ws : list phase) (p : pool) (F : fs) : Prop :=
  exists W R, Forall2 phase_ok ws W /\ results_good (results p) R /\ length (results p) = n /\
    drafted out (files W ++ files R ++ X) D F.

Lemma pooled_step out X D n ws p i ph (E' : gerror -> fs -> Prop) :
  ws !! i = Some ph ->
  hoare (pooled out X D n ws p) (stepping ph p) (fun r => pooled out X D n (<[i:=r.1]> ws) r.2) E' C.
Proof using Hquiet HB HC HoutDir Hplans.
  intros Hi. apply hoare_ghost. intros F (W & R & HW & HR & Hn & Hw).
  destruct (Forall2_lookup_l _ _ _ _ _ HW Hi) as (w & HWi & Hph).
  eapply hoare_conseq; [apply (step_worker out (files (<[i:=None]> W) ++ X) D ph p w R E' Hph HR)|..]; try done.
  - intros F' <-. eapply drafted_perm; [|exact Hw]. rewrite (files_take W i w HWi), <- !app_assoc.
    apply Permutation_app_head. rewrite !app_assoc. apply Permutation_app_tail, Permutation_app_comm.
  - intros [ph' p'] F' (w' & R' & Hph' & HR' & Hn' & Hw'). cbn [fst snd] in *. exists (<[i:=w']> W), R'.
    split_and!; [by apply Forall2_insert|done|congruence|]. eapply drafted_perm; [|exact Hw'].
    rewrite (files_insert W i w' w HWi), <- !app_assoc.
    apply Permutation_app_head. rewrite !app_assoc. apply Permutation_app_tail, Permutation_app_comm.
Qed.

Lemma can_run_spec ws i : i ∈ can_run ws <-> exists ph, ws !! i = Some ph /\ finished ph = false.
Proof using Type.
  unfold can_run. rewrite list_elem_of_In, filter_In, in_seq. split.
  - intros [_ Hi]. destruct (ws !! i) as [ph|]; [|done]. exists ph. split; [done|]. by apply negb_true_iff.
  - intros (ph & Hph & Hf). rewrite Hph, Hf. split; [|done]. apply lookup_lt_Some in Hph. lia.
Qed.

Lemma all_finished ws W : can_run ws = [] -> Forall2 phase_ok ws W -> files W = [].
Proof using Type.
  intros Hc HW. assert (forall i ph, ws !! i = Some ph -> finished ph = true) as Hf.
  { intros i ph Hi. destruct (finished ph) eqn:Hf; [done|]. assert (i ∈ can_run ws) as Hin by (apply can_run_spec; eauto).
    rewrite Hc in Hin. by apply not_elem_of_nil in Hin. }
  clear Hc. induction HW as [|ph w ws W Hph _ IH]; [done|]. pose proof (Hf 0%nat ph eq_refl) as H0. destruct ph; try done.
  cbn in Hph. subst w. apply IH. intros i ph. apply (Hf (S i)).
Qed.

Lemma run_pool_drafted sch out X D n fuel (E' : gerror -> fs -> Prop) : forall k ws p,
  hoare (pooled out X D n ws p) (run_pool hst sch outDir plans indices opts dict fuel k ws p)
    (fun p' F => exists R, results_good (results p') R /\ length (results p') = n /\ drafted out (files R ++ X) D F) E' C.
Proof using Hquiet HB HC HoutDir Hplans.
  induction fuel as [|fuel IH]; intros k ws p; cbn [run_pool]; destruct (can_run ws) as [|i0 rest] eqn:Hc.
  1, 3: apply hoare_ret; intros F (W & R & HW & HR & Hn & Hw); exists R; rewrite (all_finished ws W Hc HW) in Hw; done.
  - intros w (W & R & _ & _ & _ & Hw). apply HC, Hw.
  - assert (forall i, i ∈ i0 :: rest -> hoare (pooled out X D n ws p)
      ('(ph, p) ← stepping (default Finished (ws !! i)) p;
       run_pool hst sch outDir plans indices opts dict fuel (S k) (<[i:=ph]> ws) p)
      (fun p' F => exists R, results_good (results p') R /\ length (results p') = n /\ drafted out (files R ++ X) D F) E' C) as Hstep.
    { intros i Hi. rewrite <- Hc in Hi. apply can_run_spec in Hi as (ph & Hi & _). rewrite Hi. cbn [default].
      eapply hoare_bind; [by apply pooled_step|]. intros [ph' p']. apply IH. }
    apply Hstep. apply list_elem_of_In, nth_In. apply Nat.mod_upper_bound. done.
Qed.

Lemma stage_positions_drafted sch out X D workers t (E' : gerror -> fs -> Prop) :
  hoare (drafted out X D) (stage_positions hst sch outDir plans indices opts dict workers t)
    (fun p F => exists R, results_good (results p) R /\ length (results p) = length indices /\ drafted out (files R ++ X) D F) E' C.
Proof using Hquiet HB HC HoutDir Hplans.
  unfold stage_positions. eapply hoare_pre; [apply run_pool_drafted|]. intros F Hw.
  exists (replicate (Z.to_nat workers) None), (replicate (length indices) None). cbn [results]. split_and!.
  - generalize (Z.to_nat workers) as n. induction n; constructor; done.
  - split; [by rewrite !length_replicate|]. intros pos r so [-> _]%lookup_replicate [-> _]%lookup_replicate. by split.
  - apply length_replicate.
  - by rewrite !files_None.
Qed.

Lemma results_staged rs R : results_good rs R -> Forall2 staged_as rs R.
Proof using Type.
  intros [Hl Hr]. apply Forall2_same_length_lookup. split; [done|]. intros i r so Hi Hso. by apply (Hr i).
Qed.

Lemma first_error_none rs pos r : first_error_of rs = None -> rs !! pos = Some r -> sv_err r = None.
Proof using Type.
  revert pos. induction rs as [|x rs IH]; intros [|pos]; [done..| |]; cbn; destruct (sv_err x) eqn:Hx; try done; [by intros _ [= <-]|apply IH].
Qed.

(** A result without an error is the frame of its plan. *)
Lemma results_made rs R pos r s :
  results_good rs R -> first_error_of rs = None -> rs !! pos = Some r -> R !! pos = Some (Some s) ->
  exists plan, plan_at pos = Some plan /\ made hst B dict plan (result_of r s).
Proof using Type.
  intros [_ Hr] He Hpr Hps. destruct (Hr pos r (Some s) Hpr Hps) as [_ Hg].
  destruct (Hg s eq_refl (first_error_none _ _ _ He Hpr)) as (plan & v & pieces & Hp & (plan' & Hp' & Hl & Hc) & Hd & Hent).
  assert (plan' = plan) as -> by congruence. exists plan. split; [done|]. destruct Hl as (data & Hin & Hmax & ->). cbn [ld_codec ld_level ld_data] in Hc.
  exists data, pieces. by split_and!.
Qed.

End pool.
