(* ===== verification/PackArtifact.v ===== *)
(** * The artifact

    What [Pack] has written when the index is sealed: the stub, the dictionary
    if the smaller candidate has one, the frame of every level in order, and an
    index that says where each is.  Both ways of assembling get there. *)

From S2P Require Import Prelude GoStrings GoPath GoIO Microarch MicroarchSelect Format FormatIndex Sha256 FormatTrailer Codec PackAssemble PackPlan Vfs GoOS InputFile VfsLogic VfsEffects VfsStage Cache PackOptions PackInput PackStage Pack PackHeld PackTemp PackWrite PackPool.
From stdpp Require Import base list strings gmap.
From Stdlib Require Import ZArith Lia Strings.Ascii Strings.Byte.
Import PackErr.

Local Open Scope Z_scope.

(** ** Replacing results *)

Definition merge {A} (l : list A) (ix : list nat) (subs : list A) : list A :=
  foldl (fun l '(i, r) => <[i:=r]> l) l (zip ix subs).

Lemma merge_Forall2 {A A'} (P : A -> A' -> Prop) ix : forall l l' subs subs',
  Forall2 P l l' -> Forall2 P subs subs' -> Forall2 P (merge l ix subs) (merge l' ix subs').
Proof.
  induction ix as [|i ix IH]; intros l l' subs subs' Hl Hs; [done|]. destruct Hs as [|s s' subs subs' Hss Hs]; [done|].
  apply (IH (<[i:=s]> l) (<[i:=s']> l')); [|done]. by apply Forall2_insert.
Qed.

Lemma merge_cases {A A'} ix : forall (l : list A) (l' : list A') subs subs' pos r r',
  length subs = length ix -> length subs' = length ix ->
  merge l ix subs !! pos = Some r -> merge l' ix subs' !! pos = Some r' ->
  ((pos ∉ ix) /\ l !! pos = Some r /\ l' !! pos = Some r') \/
  exists k, ix !! k = Some pos /\ subs !! k = Some r /\ subs' !! k = Some r'.
Proof.
  induction ix as [|i ix IH]; intros l l' subs subs' pos r r' H1 H2 Hr Hr'.
  { left. split; [apply not_elem_of_nil|done]. }
  destruct subs as [|x subs], subs' as [|x' subs']; try discriminate.
  destruct (IH (<[i:=x]> l) (<[i:=x']> l') subs subs' pos r r') as [(Hni & Hl & Hl')|(k & Hk)]; [by injection H1|by injection H2|done..| |].
  - destruct (decide (i = pos)) as [-> |Hne].
    + right. exists 0%nat. apply list_lookup_insert_Some in Hl as [(_ & -> & _)|(? & _)]; [|done].
      by apply list_lookup_insert_Some in Hl' as [(_ & -> & _)|(? & _)].
    + left. rewrite !list_lookup_insert_ne in * by done. split; [|done]. by apply not_elem_of_cons.
  - right. by exists (S k).
Qed.

Lemma merge_in {A} (P : A -> Prop) ix : forall l subs, Forall P l -> Forall P subs -> Forall P (merge l ix subs).
Proof.
  induction ix as [|i ix IH]; intros l subs Hl Hs; [done|]. destruct Hs as [|s subs Hss Hs]; [done|].
  apply IH; [|done]. by apply Forall_insert.
Qed.

Lemma merge_results_merge l ix subs : merge_results l ix subs = merge l ix subs.
Proof. reflexivity. Qed.

(** ** Entries *)

Lemma place_entries_same off rs ss :
  length rs = length ss -> place_entries off (entry_only <$> rs) = place_entries off (zip_with result_of rs ss).
Proof.
  revert off ss. induction rs as [|r rs IH]; intros off [|s ss] Hl; try discriminate; [done|]. cbn.
  rewrite (IH (i64_add off (CompressedSize (sv_entry r))) ss) by (by injection Hl). done.
Qed.

Lemma place_small off (D : list byte) rs :
  Forall honest rs -> off = Z.of_nat (length D) -> Z.of_nat (length (D ++ frames rs)) <= 2 ^ 61 ->
  place_entries off rs = (placed off rs, off + Z.of_nat (length (frames rs))).
Proof.
  intros Hh -> Hs. rewrite length_app in Hs. apply place_entries_placed; [done|lia|]. unfold MaxInt64. lia.
Qed.

Section artifact.
Context `{Kernel} (Hquiet : quiet) {GU : GoUnicode} {SS : SliceSort} {E : Encoders}.
Context (hst : host) (sch : schedule) (names : zstd_level -> string).
Context (B : fs) (HB : wf_fs B) (C : fs -> Prop) (HC : forall F, intact nobody B F -> C F).
Context (outDir : string) (levels : list string) (opts : Options) (HoutDir : tidy outDir).
Context (Hinputs : Forall (fun lvl => exists data, input B (filepath_Clean (default ""%string (o_Variants opts !! lvl))) data) levels).

Local Abbreviation drafted := (drafted B).
Local Abbreviation scrapped := (scrapped B).

(** The sealed file: the index tells the truth as long as sizes are below any
    real file's. *)
Definition artifact (base : Index) (stub dict : list byte) (sha : string) (D : list byte) (idx : Index) : Prop :=
  exists plans rs d s, (d = dict /\ s = sha \/ d = [] /\ s = ""%string) /\
    Forall2 (plan_for opts) levels plans /\ Forall (planned B opts) plans /\ Forall2 (made hst B d) plans rs /\
    (Z.of_nat (length D) <= 2 ^ 61 -> idx = candidate base (Z.of_nat (length stub)) d s rs /\
       D = sealed ((stub ++ d) ++ frames rs) (encode_index idx) /\ encodable idx /\
       Z.of_nat (length (encode_index idx)) <= MaxIndexSize).

Lemma seal_small (D : list byte) off table :
  0 <= off -> (Z.of_nat (length (D ++ table ++ encode_trailer off (Z.of_nat (length table)) (Sum256 table))) <= 2 ^ 61 ->
    off = Z.of_nat (length D)) ->
  Z.of_nat (length (D ++ table ++ encode_trailer off (Z.of_nat (length table)) (Sum256 table))) <= 2 ^ 61 ->
  D ++ table ++ encode_trailer off (Z.of_nat (length table)) (Sum256 table) = sealed D table.
Proof using Type. intros _ Ho Hs. unfold sealed. by rewrite <- (Ho Hs). Qed.

(** ** Without the choice *)

Lemma made_results dict plans rs ss :
  results_good hst B plans (seq 0 (length plans)) dict rs (Some <$> ss) -> length rs = length plans ->
  first_error_of rs = None -> Forall2 (made hst B dict) plans (zip_with result_of rs ss).
Proof using Type.
  intros Hg Hl He. pose proof Hg as [Hls _]. rewrite length_fmap in Hls. apply Forall2_same_length_lookup.
  split; [rewrite length_zip_with; lia|]. intros i plan r Hp Hr. apply lookup_zip_with_Some in Hr as (x & s & -> & Hx & Hs).
  destruct (results_made hst B plans (seq 0 (length plans)) dict rs _ i x s Hg He Hx) as (plan' & Hp' & Hm); [by rewrite list_lookup_fmap, Hs|].
  unfold PackStage.plan_at in Hp'. apply lookup_lt_Some in Hp as Hlt. rewrite lookup_seq_lt in Hp' by done. simpl in Hp'. congruence.
Qed.

Lemma parallel_drafted out D plans dict off workers :
  Forall (planned B opts) plans ->
  hoare (drafted out [] D) (writeVariantPayloadsParallel hst sch (sf_ino out) outDir plans opts off dict workers)
    (fun r F => exists rs, Forall2 (made hst B dict) plans rs /\ drafted out [] (D ++ frames rs) F /\
       (off = Z.of_nat (length D) -> Z.of_nat (length (D ++ frames rs)) <= 2 ^ 61 ->
        r = (placed off rs, off + Z.of_nat (length (frames rs)))))
    (fun _ => scrapped out []) C.
Proof using Hquiet HB HC HoutDir.
  intros Hp. unfold writeVariantPayloadsParallel.
  eapply hoare_bind; [by apply (stage_positions_drafted Hquiet hst B HB C HC outDir plans _ opts dict HoutDir Hp sch out [] D)|].
  intros p. apply hoare_ghost. intros F (R & HR & Hl & Hw). rewrite length_seq in Hl. rewrite app_nil_r in Hw.
  pose proof (results_staged _ _ _ _ _ _ _ HR) as Hs. destruct (first_error_of (results p)) as [e|] eqn:He.
  - eapply hoare_bind with (R := fun _ => drafted out [] D); [|intros []; apply hoare_fail; intros F'; by apply drafted_scrapped].
    eapply hoare_pre; [apply (remove_staged_drafted Hquiet B C HC out [] D (results p) R); exact Hs|]. intros F' <-. by rewrite app_nil_r.
  - eapply hoare_conseq; [apply (append_staged_drafted Hquiet B C HC out (results p) R Hs D off)|by intros F' <-| |done|done].
    intros r F' (ss & -> & Hh & Hw' & ->). exists (zip_with result_of (results p) ss). split_and!; [by apply made_results|done|].
    intros Ho Hsm. by eapply place_small.
Qed.

Lemma writeAll_drafted out D dict off :
  hoare (drafted out [] D) (writeAllVariantPayloads hst sch names (sf_ino out) outDir levels opts off dict)
    (fun r F => exists plans rs, Forall2 (plan_for opts) levels plans /\ Forall (planned B opts) plans /\
       Forall2 (made hst B dict) plans rs /\ drafted out [] (D ++ frames rs) F /\
       (off = Z.of_nat (length D) -> Z.of_nat (length (D ++ frames rs)) <= 2 ^ 61 ->
        r = (placed off rs, off + Z.of_nat (length (frames rs)))))
    (fun _ => scrapped out []) C.
Proof using Hquiet HB HC HoutDir Hinputs.
  unfold writeAllVariantPayloads. eapply (looking B C HC); [intros F Hi; by apply prepare_planned|]. intros plans [Hpf Hp].
  eapply (looking B C HC _ _ _ _ _ (fun _ => True)); [intros F _; by apply tells_any, observes_worker_count|]. intros workers _.
  destruct (workers <? packMinParallelVariants).
  - eapply hoare_conseq; [by apply (write_variants_drafted Hquiet hst B HB C HC out [] opts dict plans Hp D off)|done| |done|done].
    intros r F (rs & Hm & Hw & Hr). by exists plans, rs.
  - eapply hoare_conseq; [by apply (parallel_drafted out D plans dict off workers)|done| |done|done].
    intros r F (rs & Hm & Hw & Hr). by exists plans, rs.
Qed.

Lemma assemble_plain_drafted out stub base dict sha :
  hoare (drafted out [] stub)
    (assemble_plain hst sch names (sf_ino out) outDir levels opts (Z.of_nat (length stub)) base dict sha)
    (fun idx F => exists D, drafted out [] D F /\ artifact base stub dict sha D idx) (fun _ => scrapped out []) C.
Proof using Hquiet HB HC HoutDir Hinputs.
  unfold assemble_plain. eapply hoare_bind with (R := fun _ => drafted out [] (stub ++ dict)).
  { destruct (Nat.ltb_spec 0 (length dict)) as [Hd|Hd]; [apply (append_drafted Hquiet B C HC)|].
    apply hoare_ret. destruct dict; [by rewrite app_nil_r|simpl in Hd; lia]. }
  intros []. set (start := if (0 <? length dict)%nat then i64_add (Z.of_nat (length stub)) (Z.of_nat (length dict)) else Z.of_nat (length stub)).
  eapply hoare_bind; [apply (writeAll_drafted out (stub ++ dict) dict start)|]. intros [es finish].
  apply hoare_ghost. intros F (plans & rs & Hpf & Hp & Hm & Hw & Hr).
  eapply hoare_conseq; [apply (write_index_drafted Hquiet B C HC out [] ((stub ++ dict) ++ frames rs))|by intros F' <-| |done|done].
  intros idx F' (H1 & H2 & Hidx & H4 & H5 & Hw'). eexists. split; [exact Hw'|].
  exists plans, rs, dict, sha. split_and!; [by left|done..|]. intros Hsm.
  assert (Z.of_nat (length ((stub ++ dict) ++ frames rs)) <= 2 ^ 61) as Hs2 by (rewrite (length_app ((stub ++ dict) ++ _)) in Hsm; lia).
  assert (start = Z.of_nat (length (stub ++ dict))) as Hst.
  { unfold start. rewrite !length_app in *. destruct (Nat.ltb_spec 0 (length dict)); [|lia]. unfold i64_add. rewrite to_int64_small by int_range. lia. }
  specialize (Hr Hst Hs2). injection Hr as -> ->. rewrite Hst in *. split_and!; [| |done|done].
  - rewrite Hidx. unfold candidate, with_version. cbn. by rewrite length_app, Nat2Z.inj_add.
  - apply seal_small; [lia| |done]. intros _. rewrite (length_app (stub ++ dict)). lia.
Qed.

(** ** With the choice *)

Definition start_of (stub dict : list byte) : Z :=
  if (0 <? length dict)%nat then i64_add (Z.of_nat (length stub)) (Z.of_nat (length dict)) else Z.of_nat (length stub).

Lemma start_small (stub dict : list byte) :
  Z.of_nat (length (stub ++ dict)) <= 2 ^ 61 -> start_of stub dict = Z.of_nat (length (stub ++ dict)).
Proof using Type.
  rewrite !length_app. intros Hs. unfold start_of. destruct (Nat.ltb_spec 0 (length dict)); [|lia].
  unfold i64_add. rewrite to_int64_small by int_range. lia.
Qed.

Lemma measure_inv base (stub dict : list byte) sha rs version cand finish total :
  measureCandidateCompleteBytes base (Z.of_nat (length stub)) dict sha (entry_only <$> rs) version = Ok (cand, finish, total) ->
  let hasDict := (0 <? length dict)%nat in
  cand = mkIndex FormatVersion2 (AppName base) (TargetOS base) (TargetArch base) (CreatedUnix base)
    (if hasDict then Z.of_nat (length stub) else 0) (if hasDict then Z.of_nat (length dict) else 0)
    (if hasDict then sha else ""%string) (if hasDict then DefaultDictionaryID else 0)
    (place_entries (start_of stub dict) (entry_only <$> rs)).1.
Proof using Type.
  unfold measureCandidateCompleteBytes. fold (start_of stub dict). destruct (place_entries _ _) as [vs off].
  destruct (WriteIndexAndTrailerWithVersion _ _ _ _) as [[w c] [n|e|]] eqn:Hw; [|done..]. intros [= <- <- <-].
  by apply write_ok_inv in Hw as (_ & _ & -> & _).
Qed.

Lemma write_chosen_drafted out S base stub d s rs R version cand finish total off0 :
  measureCandidateCompleteBytes base (Z.of_nat (length stub)) d s (entry_only <$> rs) version = Ok (cand, finish, total) ->
  Forall2 staged_as rs R -> (forall x, Some x ∈ R -> x ∈ S) ->
  (Z.of_nat (length (stub ++ d)) <= 2 ^ 61 -> off0 = Z.of_nat (length (stub ++ d))) ->
  hoare (drafted out S (stub ++ d)) (write_chosen (sf_ino out) (cand, finish, total) rs off0 version)
    (fun idx F => exists D ss, R = Some <$> ss /\ drafted out S D F /\ let res := zip_with result_of rs ss in
       (Z.of_nat (length D) <= 2 ^ 61 -> idx = candidate base (Z.of_nat (length stub)) d s res /\
          D = sealed ((stub ++ d) ++ frames res) (encode_index idx) /\ encodable idx /\
          Z.of_nat (length (encode_index idx)) <= MaxIndexSize))
    (fun _ => scrapped out S) C.
Proof using Hquiet HC.
  intros Hm Hs HS Ho. apply measure_inv in Hm. unfold write_chosen.
  eapply hoare_bind; [by apply (append_chosen_drafted Hquiet B C HC out S rs R Hs HS)|]. intros off. apply hoare_ghost.
  intros F (ss & -> & Hh & Hw & Hoff). destruct (negb _); [apply hoare_fail; intros F' <-; by eapply drafted_scrapped|].
  eapply hoare_conseq; [apply (write_index_drafted Hquiet B C HC out S)|by intros F' <-| |done|done].
  intros idx F' (H1 & _ & Hidx & H4 & H5 & Hw'). eexists _, ss. split; [done|]. split; [exact Hw'|].
  set (res := zip_with result_of rs ss) in *. intros Hsm.
  assert (Z.of_nat (length ((stub ++ d) ++ frames res)) <= 2 ^ 61) as Hs2 by (rewrite (length_app ((stub ++ d) ++ _)) in Hsm; lia).
  assert (Z.of_nat (length (stub ++ d)) <= 2 ^ 61) as Hs3 by (rewrite (length_app (stub ++ d)) in Hs2; lia).
  assert (length rs = length ss) as Hlen by (apply Forall2_length in Hs; by rewrite length_fmap in Hs).
  rewrite (place_small off0 (stub ++ d) res Hh (Ho Hs3) Hs2) in Hoff. cbn [snd] in Hoff. rewrite (Ho Hs3) in Hoff.
  split_and!; [| |done|done].
  - rewrite Hidx, Hm. unfold candidate, with_version. cbn [Version AppName TargetOS TargetArch CreatedUnix DictionaryOffset DictionarySize DictionarySHA256 DictionaryID Variants].
    rewrite (place_entries_same _ rs ss Hlen). fold res. rewrite (place_small _ (stub ++ d) res Hh (start_small _ _ Hs3) Hs2), (start_small _ _ Hs3).
    cbn [fst]. by rewrite length_app, Nat2Z.inj_add.
  - apply seal_small; [lia| |done]. intros _. rewrite Hoff. rewrite (length_app (stub ++ d)). lia.
Qed.

(** What a codec without dictionaries makes is the same with one. *)
Lemma made_any_dict dict plan r : is_dict_codec (wp_codec plan) = false -> made hst B [] plan r -> made hst B dict plan r.
Proof using Type.
  intros Hc (data & pieces & Hin & Hm & Hcv & Hrest). exists data, pieces. split_and!; [done..| |by apply Hrest|by apply Hrest].
  rewrite <- Hcv. unfold compress_variant, compressVariantIntoWriter. by rewrite Hc, !andb_false_r.
Qed.

Lemma merged_made plans dict rs1 ss rs2 R1 R2 :
  results_good hst B plans (seq 0 (length plans)) [] rs1 R1 -> length rs1 = length plans -> first_error_of rs1 = None ->
  results_good hst B plans (dict_indices plans) dict rs2 R2 -> length rs2 = length (dict_indices plans) -> first_error_of rs2 = None ->
  merge R1 (dict_indices plans) R2 = Some <$> ss ->
  Forall2 (made hst B dict) plans (zip_with result_of (merge rs1 (dict_indices plans) rs2) ss).
Proof using Type.
  intros Hg1 Hl1 He1 Hg2 Hl2 He2 Hss. pose proof (merge_Forall2 staged_as (dict_indices plans) rs1 R1 rs2 R2
    (results_staged _ _ _ _ _ _ _ Hg1) (results_staged _ _ _ _ _ _ _ Hg2)) as Hst.
  assert (length (merge rs1 (dict_indices plans) rs2) = length plans) as Hlm.
  { rewrite <- Hl1. pose proof (merge_Forall2 (fun _ _ => True) (dict_indices plans) rs1 rs1 rs2 rs2) as _.
    clear. unfold merge. generalize (zip (dict_indices plans) rs2) as l. intros l. revert rs1.
    induction l as [|[i r] l IH]; intros rs1; [done|]. cbn [foldl]. by rewrite IH, length_insert. }
  apply Forall2_length in Hst as Hls. rewrite Hss, length_fmap in Hls.
  apply Forall2_same_length_lookup. split; [rewrite length_zip_with; lia|]. intros i plan r Hp Hr.
  apply lookup_zip_with_Some in Hr as (x & s & -> & Hx & Hs).
  assert (merge R1 (dict_indices plans) R2 !! i = Some (Some s)) as HR by (by rewrite Hss, list_lookup_fmap, Hs).
  assert (length R2 = length (dict_indices plans)) as HlR by (rewrite <- Hl2; symmetry; apply Hg2).
  destruct (merge_cases _ _ _ _ _ _ _ _ Hl2 HlR Hx HR) as [(Hni & Hx1 & HR1)|(k & Hk & Hx2 & HR2)].
  - destruct (results_made hst B plans _ [] rs1 _ i x s Hg1 He1 Hx1 HR1) as (plan' & Hp' & Hm).
    unfold PackStage.plan_at in Hp'. apply lookup_lt_Some in Hp as Hlt. rewrite lookup_seq_lt in Hp' by done. simpl in Hp'.
    assert (plan' = plan) as -> by congruence. apply made_any_dict; [|done]. destruct (is_dict_codec (wp_codec plan)) eqn:Hc; [|done].
    exfalso. apply Hni. unfold dict_indices. rewrite list_elem_of_In, filter_In, in_seq, Hp, Hc. split; [lia|done].
  - destruct (results_made hst B plans _ dict rs2 _ k x s Hg2 He2 Hx2 HR2) as (plan' & Hp' & Hm).
    unfold PackStage.plan_at in Hp'. rewrite Hk in Hp'. simpl in Hp'. congruence.
Qed.

Lemma choose_drafted out stub base dict sha plans rs1 R1 rs2 R2 :
  Forall2 (plan_for opts) levels plans -> Forall (planned B opts) plans -> dict <> [] ->
  results_good hst B plans (seq 0 (length plans)) [] rs1 R1 -> length rs1 = length plans -> first_error_of rs1 = None ->
  results_good hst B plans (dict_indices plans) dict rs2 R2 -> length rs2 = length (dict_indices plans) -> first_error_of rs2 = None ->
  hoare (drafted out (files (R1 ++ R2)) stub)
    (choose_and_write (sf_ino out) opts (Z.of_nat (length stub)) base dict sha rs1 (merge_results rs1 (dict_indices plans) rs2))
    (fun idx F => exists D, drafted out (files (R1 ++ R2)) D F /\ artifact base stub dict sha D idx)
    (fun _ => scrapped out (files (R1 ++ R2))) C.
Proof using Hquiet HC.
  intros Hpf Hp Hd Hg1 Hl1 He1 Hg2 Hl2 He2. pose proof (results_staged _ _ _ _ _ _ _ Hg1) as Hs1.
  pose proof (results_staged _ _ _ _ _ _ _ Hg2) as Hs2.
  assert (forall s, Some s ∈ R1 ++ R2 -> s ∈ files (R1 ++ R2)) as Hin.
  { intros s Hs. unfold files. apply list_elem_of_omap. by exists (Some s). }
  assert (forall F, drafted out (files (R1 ++ R2)) stub F -> scrapped out (files (R1 ++ R2)) F) as Hscr by (intros F; by apply drafted_scrapped).
  assert (forall F, drafted out (files (R1 ++ R2)) stub F -> C F) as HwC by (intros F Hw; apply HC, Hw).
  unfold choose_and_write.
  eapply (looking B C HC); [intros F _; unfold of_pack; destruct (measureCandidateCompleteBytes _ _ _ _ (entry_only <$> rs1) _) as [m| |] eqn:Hm;
    [apply (tells_ret F m (fun m' => measureCandidateCompleteBytes base (Z.of_nat (length stub)) [] "" (entry_only <$> rs1) (o_FormatVersion opts) = Ok m')); exact Hm|apply tells_fail..]|].
  intros [[c1 f1] t1] Hm1. rewrite merge_results_merge.
  eapply (looking B C HC); [intros F _; unfold of_pack; destruct (measureCandidateCompleteBytes _ _ dict _ _ _) as [m| |] eqn:Hm;
    [apply (tells_ret F m (fun m' => measureCandidateCompleteBytes base (Z.of_nat (length stub)) dict sha
      (entry_only <$> merge rs1 (dict_indices plans) rs2) (o_FormatVersion opts) = Ok m')); exact Hm|apply tells_fail..]|].
  intros [[c2 f2] t2] Hm2. cbn [snd]. destruct (t2 <? t1).
  - eapply hoare_bind; [apply (append_drafted Hquiet B C HC)|]. intros [].
    eapply hoare_conseq; [eapply (write_chosen_drafted out (files (R1 ++ R2)) base stub dict sha _ (merge R1 (dict_indices plans) R2)); [exact Hm2|by apply merge_Forall2|..]|done| |done|done].
    + intros x Hx. apply Hin. assert (Forall (fun y => y ∈ R1 ++ R2) (merge R1 (dict_indices plans) R2)) as Hall.
      { apply merge_in; rewrite Forall_forall; intros y Hy; apply elem_of_app; auto. }
      rewrite Forall_forall in Hall. by apply Hall.
    + intros Hsm. rewrite <- start_small by done. unfold start_of. destruct dict; [done|reflexivity].
    + intros idx F (D & ss & Hss & Hw & Hres). exists D. split; [done|]. eexists plans, _, dict, sha. split_and!; [by left|done..| |exact Hres].
      by eapply merged_made.
  - rewrite <- (app_nil_r stub) at 1.
    eapply hoare_conseq; [eapply (write_chosen_drafted out (files (R1 ++ R2)) base stub [] "" rs1 R1); [exact Hm1|done|..]|done| |done|done].
    + intros x Hx. apply Hin, elem_of_app. by left.
    + intros _. by rewrite app_nil_r.
    + intros idx F (D & ss & Hss & Hw & Hres). exists D. split; [done|]. eexists plans, _, [], ""%string. split_and!; [by right|done..| |exact Hres].
      apply made_results; [by rewrite <- Hss|done|done].
Qed.

(** ** Frames do not depend on how they were made *)

Lemma made_det dict lvl p1 p2 r1 r2 :
  plan_for opts lvl p1 -> plan_for opts lvl p2 -> planned B opts p1 -> planned B opts p2 ->
  made hst B dict p1 r1 -> made hst B dict p2 r2 -> r1 = r2.
Proof using Type.
  intros (Hl1 & Hn1 & Hc1) (Hl2 & Hn2 & Hc2) (d1 & Hd1 & _ & _ & _ & Hr1) (d2 & Hd2 & _ & _ & _ & Hr2).
  intros (e1 & ps1 & Hi1 & _ & Hv1 & Hs1 & He1) (e2 & ps2 & Hi2 & _ & Hv2 & Hs2 & He2).
  rewrite Hc1 in Hd1, Hi1. rewrite Hc2 in Hd2, Hi2.
  pose proof (input_fun B _ _ _ Hd1 Hi1). pose proof (input_fun B _ _ _ Hd2 Hi2). pose proof (input_fun B _ _ _ Hi1 Hi2). subst d1 d2 e2.
  rewrite Hl1, <- Hl2 in Hr1. rewrite Hr1 in Hr2. injection Hr2 as Hcodec Hlevel. rewrite <- Hcodec, <- Hlevel, Hv1 in Hv2. injection Hv2 as <-.
  destruct r1 as [x1 y1], r2 as [x2 y2]. cbn [PackAssemble.entry PackAssemble.staged] in *. subst y1 y2 x1 x2.
  unfold staged_entry. by rewrite Hn1, Hn2, Hcodec, Hlevel.
Qed.

Lemma all_made_det dict lvls : forall ps1 ps2 rs1 rs2,
  Forall2 (plan_for opts) lvls ps1 -> Forall2 (plan_for opts) lvls ps2 -> Forall (planned B opts) ps1 -> Forall (planned B opts) ps2 ->
  Forall2 (made hst B dict) ps1 rs1 -> Forall2 (made hst B dict) ps2 rs2 -> rs1 = rs2.
Proof using Type.
  induction lvls as [|lvl lvls IH]; intros ps1 ps2 rs1 rs2 H1 H2 H3 H4 H5 H6.
  - apply Forall2_nil_inv_l in H1, H2. subst. apply Forall2_nil_inv_l in H5, H6. by subst.
  - apply Forall2_cons_inv_l in H1 as (p1 & l1 & Hp1 & Hl1 & ->), H2 as (p2 & l2 & Hp2 & Hl2 & ->).
    apply Forall2_cons_inv_l in H5 as (r1 & k1 & Hr1 & Hk1 & ->), H6 as (r2 & k2 & Hr2 & Hk2 & ->).
    apply Forall_cons in H3 as [Hq1 H3], H4 as [Hq2 H4]. f_equal; [by eapply (made_det dict lvl p1 p2)|by apply (IH l1 l2)].
Qed.

(** Staging, and stopping when a variant failed. *)
Lemma stage_or_fail_drafted out X D plans indices dict workers t cleanup :
  Forall (planned B opts) plans ->
  (forall rs R, Forall2 staged_as rs R -> hoare (drafted out (files R ++ X) D) (cleanup rs) (fun _ => scrapped out []) (fun _ => scrapped out []) C) ->
  hoare (drafted out X D) (stage_or_fail (stage_positions hst sch outDir plans indices opts dict workers t) cleanup)
    (fun p F => exists R, results_good hst B plans indices dict (results p) R /\ length (results p) = length indices /\
       first_error_of (results p) = None /\ drafted out (files R ++ X) D F) (fun _ => scrapped out []) C.
Proof using Hquiet HB HC HoutDir.
  intros Hp Hc. unfold stage_or_fail.
  eapply hoare_bind; [by apply (stage_positions_drafted Hquiet hst B HB C HC outDir plans indices opts dict HoutDir Hp)|].
  intros p. apply hoare_ghost. intros F (R & HR & Hl & Hw). destruct (first_error_of (results p)) as [e|] eqn:He.
  - eapply hoare_bind with (R := fun _ => scrapped out []); [|intros []; by apply hoare_fail].
    eapply hoare_pre; [apply (Hc _ R); by eapply results_staged|]. by intros F' <-.
  - apply hoare_ret. intros F' <-. by exists R.
Qed.

Lemma assembleProfitable_drafted out stub base dict sha :
  dict <> [] ->
  hoare (drafted out [] stub)
    (assembleProfitable hst sch names (sf_ino out) outDir levels opts (Z.of_nat (length stub)) base dict sha)
    (fun idx F => exists D, drafted out [] D F /\ artifact base stub dict sha D idx) (fun _ => scrapped out []) C.
Proof using Hquiet HB HC HoutDir Hinputs.
  intros Hd. unfold assembleProfitable. eapply (looking B C HC); [intros F Hi; by apply prepare_planned|]. intros plans [Hpf Hp].
  eapply (looking B C HC _ _ _ _ _ (fun _ => True)); [intros F _; by apply tells_any, observes_worker_count|]. intros workers _.
  assert (forall D F, drafted out [] D F -> scrapped out [] F) as Hscr by (intros D F; by apply drafted_scrapped).
  eapply hoare_bind.
  { apply (stage_or_fail_drafted out [] stub plans _ [] _ _ remove_staged Hp). intros rs R Hrs.
    eapply hoare_conseq; [by apply (remove_staged_drafted Hquiet B C HC out [] stub rs R (fun _ => scrapped out []))|done|intros u F'; apply Hscr|done|done]. }
  intros noDict. apply hoare_ghost. intros F (R1 & Hg1 & Hl1 & He1 & Hw1). rewrite length_seq in Hl1. rewrite app_nil_r in Hw1.
  pose proof (results_staged _ _ _ _ _ _ _ Hg1) as Hs1.
  eapply hoare_bind with (R := fun p F' => exists R2, results_good hst B plans (dict_indices plans) dict (results p) R2 /\
    length (results p) = length (dict_indices plans) /\ first_error_of (results p) = None /\ drafted out (files R2 ++ files R1) stub F').
  { destruct (Nat.eqb_spec (length (dict_indices plans)) 0) as [Hz|_].
    { apply hoare_ret. intros F' <-. exists []. cbn [results]. split_and!; [by split|done|done|done]. }
    eapply hoare_pre; [apply (stage_or_fail_drafted out (files R1) stub plans _ dict); [done|]|by intros F' <-]. intros rs R Hrs.
    eapply hoare_conseq; [apply (remove_staged_drafted Hquiet B C HC out [] stub (results noDict ++ rs) (R1 ++ R) (fun _ => scrapped out [])); by apply Forall2_app| |intros u F'; apply Hscr|done|done].
    intros F' Hw. eapply drafted_perm; [|exact Hw]. unfold files. rewrite omap_app, app_nil_r. apply Permutation_app_comm. }
  intros withDict. apply hoare_ghost. intros F2 (R2 & Hg2 & Hl2 & He2 & Hw2).
  pose proof (results_staged _ _ _ _ _ _ _ Hg2) as Hs2.
  eapply hoare_deferring.
  - eapply hoare_pre; [by apply (choose_drafted out stub base dict sha plans _ R1 _ R2 Hpf Hp Hd Hg1 Hl1 He1 Hg2)|]. intros F' <-.
    eapply drafted_perm; [|exact Hw2]. unfold files. rewrite omap_app. apply Permutation_app_comm.
  - intros idx. apply hoare_ghost. intros F3 (D & Hw & Ha).
    eapply hoare_conseq; [apply (remove_staged_drafted Hquiet B C HC out [] D _ (R1 ++ R2) (fun _ => drafted out [] D)); by apply Forall2_app|..]; try done.
    + intros F' <-. by rewrite app_nil_r.
    + intros u F' Hw'. by exists D.
    + intros e F' Hw'. by exists D.
  - intros e. rewrite <- (app_nil_r (files (R1 ++ R2))).
    apply (remove_staged_scrapped Hquiet B C HC out [] _ (R1 ++ R2) (fun _ => scrapped out [])). by apply Forall2_app.
Qed.

End artifact.
