(* ===== verification/PackAtomic.v ===== *)
(** * Publication and copies

    The last steps of packing: the sealed file takes the name of the output in
    one rename, so at every moment the name stands for what it stood for at the
    start or for the whole artifact.

    [Pack] works on copies: a directory of its own under the directory for
    temporary files holds one copy of each input, made before anything else is
    read.  A copy holds the bytes of its source, and the directory goes at the
    end without touching anything that was there before. *)

From S2P Require Import Prelude GoStrings GoPath GoIO Microarch MicroarchSelect Format FormatIndex Sha256 Codec PackPlan Vfs GoOS InputFile VfsLogic VfsEffects VfsStage VfsKept Cache PackOptions PackInput PackStage Pack PackHeld PackTemp PackWrite PackPool PackArtifact.
From stdpp Require Import base list strings gmap.
From Stdlib Require Import ZArith Lia Strings.Ascii Strings.Byte.

Local Open Scope Z_scope.

(** A name for the output: not a temporary one, and free or of a regular file. *)
Record target `{Kernel} (B : fs) (path : string) (dT : Z) (nT : string) : Prop := {
  tg_at : at_path B path dT nT;
  tg_name : ~ pack_temp nT;
  tg_file : forall j, entry (f_tree B) dT nT = Some j -> f_tree B !! j = Some TFile
}.

(** The name stands for a new regular file with these bytes, and the rest is as
    it was but for what [lax] allows. *)
Record released (lax : Z -> Prop) (B : fs) (dT : Z) (nT : string) (D : list byte) (F : fs) : Prop := {
  rl_held : held lax nobody (Some (dT, nT)) B F;
  rl_file : exists i a, entry (f_tree F) dT nT = Some i /\ f_tree F !! i = Some TFile /\
    f_attr F !! i = Some a /\ a_data a = D /\ f_attr B !! i = None
}.

Section publish.
Context `{Kernel} (Hquiet : quiet) {GU : GoUnicode} {SS : SliceSort} {E : Encoders}.
Context (B : fs) (HB : wf_fs B) (path : string) (dT : Z) (nT : string) (Htgt : target B path dT nT).

Lemma target_entry F : intact nobody B F -> entry (f_tree F) dT nT = entry (f_tree B) dT nT.
Proof using Htgt.
  intros Hi. destruct (entry (f_tree B) dT nT) as [j|] eqn:Hj; [by apply (hd_entry _ _ _ _ _ Hi)|].
  destruct (entry (f_tree F) dT nT) as [j|] eqn:Hj'; [|done].
  destruct (hd_new _ _ _ _ _ Hi dT nT j) as [|[_ Hal]]; [done|done|congruence|].
  destruct Hal as [[Hn _]|[[]|(_ & _ & [])]]. by destruct (tg_name _ _ _ _ Htgt).
Qed.

Lemma target_at F : intact nobody B F -> at_path F path dT nT.
Proof using HB Htgt.
  intros Hi. eapply at_path_stays; [by apply intact_paths| |apply Htgt]. left. by apply target_entry.
Qed.

Lemma target_impassable F j : intact nobody B F -> entry (f_tree F) dT nT = Some j -> f_tree F !! j = Some TFile.
Proof using Htgt.
  intros Hi Hj. rewrite target_entry in Hj by done. apply (hd_node _ _ _ _ _ Hi j _ (tg_file _ _ _ _ Htgt j Hj)).
Qed.

(** The temporary name is free, and still on its way. *)
Definition vacated (out : sfile) (F : fs) : Prop :=
  at_path F (sf_path out) (sf_dir out) (sf_name out) /\ entry (f_tree F) (sf_dir out) (sf_name out) = None.

Lemma paths_kept_move F out i :
  intact nobody B F -> present nobody B F out -> i = sf_ino out -> is_Some (entries (f_tree F) dT) -> single nT ->
  paths_kept (f_tree F) (move (f_tree F) (sf_dir out, sf_name out) (dT, nT) i).
Proof using Htgt.
  intros Hi Hp -> Hd Hn. split; [apply node_kept_move| |apply Hi]. intros d n j He Hpass. rewrite entry_move by done.
  assert (f_tree F !! j <> Some TFile) as Hnf by (destruct Hpass as [[m Hm]|[t Ht]]; congruence).
  case_decide as H1; [injection H1 as <- <-; by destruct Hnf; eapply target_impassable|].
  case_decide as H2; [|done]. injection H2 as <- <-. destruct Hnf. rewrite (pr_entry _ _ _ _ Hp) in He. injection He as <-. apply Hp.
Qed.

Lemma released_move F out D :
  working nobody B [with_data out D] F -> is_Some (entries (f_tree F) dT) -> single nT ->
  let F' := with_tree F (move (f_tree F) (sf_dir out, sf_name out) (dT, nT) (sf_ino out)) in
  released nobody B dT nT D F' /\ vacated out F'.
Proof using Htgt.
  intros [Hi Hf _] Hd Hn F'. inversion Hf as [|? ? Hp _]; subst. clear Hf.
  assert ((dT, nT) <> (sf_dir out, sf_name out)) as Hne.
  { intros [= _ Heq]. apply (tg_name _ _ _ _ Htgt). rewrite Heq. by destruct (pr_temp _ _ _ _ Hp) as [|[]]. }
  pose proof (paths_kept_move F (with_data out D) _ Hi Hp eq_refl Hd Hn) as Hk. destruct Hp as [H1 H2 H3 H4 H5 H6 H7 H8].
  cbn [with_data sf_ino sf_dir sf_name sf_path sf_data] in *. split; split.
  - split; [apply wf_move; [apply Hi|done..]|apply Hi|eapply node_kept_trans; [apply Hi|apply node_kept_move]|..].
    + intros d n j Hx Hj. cbn. rewrite entry_move by done. rewrite decide_False by congruence.
      case_decide as Heq; [injection Heq as <- <-; congruence|]. by apply (hd_entry _ _ _ _ _ Hi).
    + intros d n j Hx. cbn. rewrite entry_move by done. rewrite decide_False by congruence. case_decide; [done|]. intros Hj.
      destruct (hd_new _ _ _ _ _ Hi d n j) as [|[Hfr Hal]]; [done|done|by left|right]. split; [done|].
      eapply allowed_later; [|exact Hal]. apply node_kept_move.
  - destruct H5 as (a & Ha & HD). exists (sf_ino out), a. cbn. rewrite entry_move by done. rewrite decide_True by done. split_and!; try done.
    exact (node_kept_move _ _ _ _ _ _ H4).
  - eapply at_path_stays; [exact Hk| |exact H1]. right. intros j. cbn. rewrite entry_move by done.
    rewrite decide_False, decide_True by done. done.
  - cbn. rewrite entry_move by done. by rewrite decide_False, decide_True by done.
Qed.

Lemma rename_released out D F u F' :
  working nobody B [with_data out D] F ->
  (from ← locate cwd_base false (sf_path out) F; to ← locate cwd_base false path F; rename_at false from to F) = Ok (u, F') ->
  released nobody B dT nT D F' /\ vacated out F'.
Proof using HB Htgt.
  intros Hw Hr. apply bind_Ok_inv in Hr as (from & Hfrom & Hr). apply bind_Ok_inv in Hr as (to & Hto & Hr).
  pose proof (wk_present _ _ _ _ Hw) as Hf. inversion Hf as [|? ? Hp _]; subst. pose proof (wk_intact _ _ _ _ Hw) as Hi.
  destruct (rename_at_inv _ _ _ _ _ _ _ _ _ _ _ _ Hfrom Hto Hr) as (i & ds & ns & dt & nt & Hpf & Hii & Hes & Hpt & Het & Hd & Hcase).
  destruct (pr_at _ _ _ _ Hp) as (l & Hl & Hlp). cbn [with_data sf_path sf_dir sf_name] in Hl, Hlp.
  assert (l = from) as -> by congruence. assert ((ds, ns) = (sf_dir out, sf_name out)) as [= -> ->] by congruence.
  destruct (target_at F Hi) as (l & Hl' & Hlp'). assert (l = to) as -> by congruence. assert ((dt, nt) = (dT, nT)) as [= -> ->] by congruence.
  pose proof (pr_entry _ _ _ _ Hp) as He. cbn [with_data sf_ino sf_dir sf_name] in He. assert (i = sf_ino out) as -> by congruence.
  assert (single nT) as Hn by (eapply locate_proper; [exact Hl'|done]).
  destruct Hcase as [(_ & Hto' & _)|(-> & _)]; [|by apply released_move].
  exfalso. rewrite target_entry, Hto' in Het by done. destruct (wf_attr _ HB (sf_ino out)) as [a Ha]; [by eapply wf_entry|].
  pose proof (pr_new _ _ _ _ Hp) as Hnew. cbn in Hnew. congruence.
Qed.

(** ** The steps *)

Context (C : fs -> Prop) (HC : forall F, intact nobody B F -> C F).

Lemma finalize_released out D perms :
  hoare (drafted B out [] D) (finalizeOutputFile (sf_ino out) (sf_path out) path perms)
    (fun _ F => released nobody B dT nT D F /\ vacated out F) (fun _ => scrapped B out []) C.
Proof using Hquiet HB Htgt HC.
  unfold finalizeOutputFile. assert (forall F, drafted B out [] D F -> C F) as HwC by (intros F Hw; apply HC, Hw).
  assert (forall F, drafted B out [] D F -> scrapped B out [] F) as Hsc by (intros F; by apply drafted_scrapped).
  apply hoare_observe; [by apply observes_inspect|done|auto|intros _].
  eapply hoare_bind with (R := fun _ => drafted B out [] D).
  { eapply hoare_conseq; [apply (working_update_attr Hquiet nobody B (with_data out D) [] _ D C); [|done]|..]; try done.
    by intros n a a' Hd [= <-]. }
  intros []. apply hoare_observe; [by apply observes_inspect|done|auto|intros _]. unfold os_Rename.
  assert (hoare (drafted B out [] D) (sys_rename false cwd_base (sf_path out) cwd_base path)
    (fun _ F => released nobody B dT nT D F /\ vacated out F) (fun _ => scrapped B out []) C) as Hren.
  { apply hoare_syscall; [done|done|by intros F e; apply Hsc|]. intros n F u F' Hw Hr. by eapply rename_released. }
  apply hoare_observe; [apply observes_try; unfold os_Lstat; by apply observes_stat|done|auto|]. intros [fi|e]; [|done].
  destruct (IsDir fi); [|done]. apply hoare_observe; [by apply observes_stat|done|auto|]. intros ofi. destruct (_ || _); [|done]. by apply hoare_fail.
Qed.

(** Nothing is left to remove. *)
Lemma vacated_no_unlink out want F u F' :
  vacated out F -> (l ← locate cwd_base false (sf_path out) F; unlink_at l want F) <> Ok (u, F').
Proof using Type.
  intros [(l & Hl & Hp) Hn] Hu. rewrite Hl in Hu. simpl in Hu.
  destruct (unlink_at_inv _ _ _ _ _ _ _ _ Hl Hu) as (d & n & i & Hp' & _ & He & _). congruence.
Qed.

Lemma remove_vacated out D :
  (forall F, released nobody B dT nT D F -> C F) ->
  hoare (fun F => released nobody B dT nT D F /\ vacated out F) (ignore (os_Remove (sf_path out)))
    (fun _ => released nobody B dT nT D) (fun _ => released nobody B dT nT D) C.
Proof using Hquiet.
  intros HD. apply hoare_ignore. unfold os_Remove, remove_at.
  set (P := fun F => released nobody B dT nT D F /\ vacated out F).
  assert (forall F, P F -> C F) as HPC by (intros F [? _]; auto).
  assert (forall want, hoare P (syscall (fun _ F => l ← locate cwd_base false (sf_path out) F; unlink_at l want F))
    (fun _ => P) (fun _ => P) C) as Hun.
  { intros want. apply hoare_syscall; [done..|]. intros n F u F' [_ Hv] Hu. by destruct (vacated_no_unlink out want F u F'). }
  eapply hoare_bind with (R := fun _ => P); [apply hoare_try, (Hun false)|]. intros [u|e]; [apply hoare_ret; by intros F [? _]|].
  eapply hoare_bind with (R := fun _ => P); [apply hoare_try, (Hun true)|].
  intros [u|e1]; [apply hoare_ret|apply hoare_fail]; by intros F [? _].
Qed.

Lemma pack_name_single r : single (packTempPrefix ++ Itoa r ++ ".tmp")%string.
Proof using Type. split_and!; [done|done|done|]. by rewrite !slashless_app, Itoa_slashless. Qed.

(** ** Everything under the temporary name *)

Context (hst : host) (sch : schedule) (names : zstd_level -> string) (opts : Options) (levels : list string).
Context (Hpath : o_OutputPath opts = path) (stub : list byte) (created : Z).
Context (Hstub : input B (filepath_Clean (o_StubPath opts)) stub).
Context (Hinputs : Forall (fun lvl => exists data, input B (filepath_Clean (default ""%string (o_Variants opts !! lvl))) data) levels).

Definition base_index : Index :=
  mkIndex (o_FormatVersion opts) (o_AppName opts) (o_TargetOS opts) (o_TargetArch opts) created 0 0 "" 0 [].

(** The output is there, and is the artifact. *)
Definition delivered (dict : list byte) (sha : string) (idx : Index) (F : fs) : Prop := exists D,
  released nobody B dT nT D F /\ artifact hst B levels opts base_index stub dict sha D idx.

Lemma write_output_delivered out dict sha outDir :
  tidy outDir -> (forall idx F, delivered dict sha idx F -> C F) ->
  hoare (drafted B out [] []) (write_output hst sch names (sf_ino out) (sf_path out) outDir levels opts created dict sha)
    (fun idx F => delivered dict sha idx F /\ vacated out F) (fun _ => scrapped B out []) C.
Proof using Hquiet HB HC Htgt Hpath Hstub Hinputs.
  intros HoutDir HD. unfold write_output. rewrite Hpath.
  eapply hoare_bind; [by apply (writeStub_drafted Hquiet B HB C HC out [] [] _ stub)|]. intros n. apply hoare_ghost.
  intros F (-> & _ & Hw). fold base_index. eapply hoare_bind with (R := fun idx F => exists D, drafted B out [] D F /\
    artifact hst B levels opts base_index stub dict sha D idx).
  { eapply hoare_pre; [|by intros F' <-; exact Hw]. destruct (o_DictProfitable opts && (0 <? length dict)%nat) eqn:Hd.
    - apply assembleProfitable_drafted; try done. intros ->. by rewrite andb_false_r in Hd.
    - by apply assemble_plain_drafted. }
  intros idx. apply hoare_ghost. intros F' (D & Hw' & Ha).
  eapply hoare_bind; [eapply hoare_pre; [apply (finalize_released out D)|by intros F'' <-]|]. intros []. apply hoare_ret.
  intros F'' [Hr Hv]. split; [|done]. by exists D.
Qed.

Lemma pack_snapshots_delivered `{DB : DictBuilder} {MR : MapRange} types machines :
  levels = sortVariantLevels (o_Variants opts) (o_TargetArch opts) ->
  (forall dict sha idx F, dictionary_made (dict, sha) -> delivered dict sha idx F -> C F) ->
  hoare (intact nobody B) (pack_snapshots types machines hst sch names opts created)
    (fun idx F => exists dict sha, dictionary_made (dict, sha) /\ delivered dict sha idx F) (fun _ => intact nobody B) C.
Proof using Hquiet HB HC Htgt Hpath Hstub Hinputs.
  intros Hlv HD. unfold pack_snapshots. rewrite <- Hlv. apply hoare_observe; [by apply observes_validatePayloadABIs|done|done|intros _].
  eapply (hoare_looking _ _ _ (fun _ => dictionary_made)); [intros; by apply prepareSharedDictionary_tells|done|done|].
  intros [dict sha]. apply hoare_ghost. intros F [Hi Hdict]. eapply hoare_pre; [|by intros F' <-]. clear F Hi.
  assert (tidy (filepath_Dir (o_OutputPath opts))) as Hdir by apply tidy_Clean.
  eapply hoare_bind with (R := fun r F => exists s, sf_ino s = r.1 /\ sf_path s = r.2 /\ sf_data s = [] /\ working nobody B [s] F).
  { eapply hoare_conseq; [apply (working_CreateTemp Hquiet nobody B (filepath_Dir (o_OutputPath opts)) packTempPrefix ".tmp" [] C Hdir);
      [apply pack_name_single|intros s; apply HasPrefix_app|intros F Hw; apply HC, Hw]|..]; try done.
    - intros F Hi. split; [done|constructor|constructor].
    - by intros e F [Hi _ _]. }
  intros [f p]. apply hoare_ghost. intros F (out & Hf & Hpo & Hd & Hw). cbn [fst snd] in *. subst f p. eapply hoare_deferring.
  - eapply hoare_pre; [apply (write_output_delivered out dict sha _ Hdir); eauto|]. intros F' <-. destruct out. cbn in *. by subst.
  - intros idx. apply hoare_ghost. intros F' [(D & Hr & Ha) Hv].
    assert (forall F, released nobody B dT nT D F -> C F) as HDC by (intros F'' Hr'; apply (HD dict sha idx); [done|by exists D]).
    apply hoare_observe; [by apply observes_close|intros e F'' <-; exists dict, sha; (split; [done|by exists D])|intros F'' <-; by apply HDC|intros _].
    eapply hoare_conseq; [apply (remove_vacated out D HDC)|by intros F'' <-|..]; try done;
      intros x F'' Hr'; exists dict, sha; (split; [done|by exists D]).
  - intros e. apply hoare_ghost. intros F' [D Hw']. apply hoare_observe; [by apply observes_close|intros e' F'' <-; apply Hw'|intros F'' <-; apply HC, Hw'|intros _].
    eapply hoare_conseq; [apply (working_remove Hquiet nobody B (with_data out D) [] (fun _ => working nobody B []) C); intros F'' Hw''; apply HC, Hw''|by intros F'' <-|..]; try done;
      by intros x F'' [Hi _ _].
Qed.

End publish.

Lemma at_parent `{Kernel} F dir p c d n :
  in_dir dir p c -> dir <> ""%string -> c <> ".."%string -> at_path F p d n ->
  exists l, locate cwd_base true dir F = Ok l /\ l_ino l = Some d.
Proof.
  intros (Hp & Hr & Hcs) Hd Hc (l & Hl & Hpl). unfold locate in *. rewrite !(proj2 (String.eqb_neq _ _)) in * by done.
  rewrite Hr, Hcs in Hl. destruct (is_rooted dir); [destruct (b_root cwd_base); [|discriminate]|]; by eapply walk_parent.
Qed.

Section copies.
Context `{Kernel} (Hquiet : quiet) (F0 : fs) (HF0 : wf_fs F0).

(** Directories made since the start. *)
Definition new_dir (d : Z) : Prop := f_tree F0 !! d = None.

(** What a copy of [src] holds: what [src] held, if it was a file. *)
Definition copy_of (src : string) (data : list byte) : Prop := data <> [] /\ forall d0, input F0 src d0 -> data = d0.

Lemma input_later lax F p data : held lax nobody None F0 F -> input F0 p data -> input F p data.
Proof using HF0.
  intros Hh (i & Ho & Hd & Hne). exists i. split; [|split; [|done]].
  - eapply opens_stays; [eapply held_paths; [done| |exact Hh]; done| |exact Ho]. intros d n. by apply (hd_entry _ _ _ _ _ Hh).
  - destruct Ho as (_ & _ & _ & Hn). destruct (wf_attr _ HF0 i (ex_intro _ _ Hn)) as [a Ha].
    rewrite <- Hd, (image_attr _ _ _ Ha). apply image_attr, (hd_attr _ _ _ _ _ Hh); [by intros []|done].
Qed.

Lemma input_same_way F p q data : same_way p q -> input F p data -> input F q data.
Proof using Type.
  intros Hq (i & (l & Hl & Hi) & Hd). exists i. split; [|done]. exists l. by rewrite <- (locate_same_way _ _ _ _ _ Hq).
Qed.

Lemma same_way_sym p q : same_way p q -> same_way q p.
Proof using Type. by intros (? & ? & ? & ?). Qed.

Lemma copy_of_same_way p q data : same_way p q -> copy_of p data -> copy_of q data.
Proof using Type. intros Hq [Hne Hd]. split; [done|]. intros d0 Hin. apply Hd. by eapply input_same_way, Hin; apply same_way_sym. Qed.

(** ** One directory *)

Record room (dir : string) (dp : Z) (np : string) (dd : Z) (F : fs) : Prop := {
  rm_at : at_path F dir dp np;
  rm_entry : entry (f_tree F) dp np = Some dd;
  rm_dir : exists m, f_tree F !! dd = Some (TDir m)
}.

Context (F1 : fs) (Hmade : held new_dir nobody None F0 F1) (dir : string) (dp : Z) (np : string) (dd : Z).
Context (Hroom : room dir dp np dd F1) (Hdir : tidy dir) (Hdd : new_dir dd).
Context (C : fs -> Prop) (HC : forall F, intact (eq dd) F1 F -> C F).

Lemma room_later F : intact (eq dd) F1 F -> room dir dp np dd F.
Proof using Hroom Hmade.
  intros Hi. destruct Hroom as [H1 H2 [m H3]]. assert (entry (f_tree F) dp np = Some dd) as He by by apply (hd_entry _ _ _ _ _ Hi).
  split; [|done|].
  - eapply (at_path_stays F1); [|left; by rewrite He|exact H1]. eapply held_paths; [apply Hmade| |exact Hi]. done.
  - pose proof (hd_node _ _ _ _ _ Hi dd _ H3) as Hn. simpl in Hn. unfold entries in Hn. destruct (f_tree F !! dd) as [[]|]; destruct Hn; try done. eauto.
Qed.

Lemma since_start F : intact (eq dd) F1 F -> held new_dir nobody None F0 F.
Proof using Hmade Hdd. intros Hi. eapply held_trans; [exact Hmade|]. eapply held_lax; [|exact Hi]. by intros d <-. Qed.

(** A name in the directory is at the directory. *)
Lemma in_room F p c d : intact (eq dd) F1 F -> in_dir dir p c -> c <> ".."%string -> at_path F p d c -> d = dd.
Proof using Hroom Hmade Hdir.
  intros Hi Hin Hc Hp. destruct (at_parent F dir p c d c Hin (proj1 Hdir) Hc Hp) as (l & Hl & Hd).
  destruct (room_later F Hi) as [(l' & Hl' & Hpl) He [m Hm]]. destruct (locate_entry _ _ _ _ _ _ _ Hl' Hpl) as [He' _].
  rewrite (locate_follow _ _ _ l' dd) in Hl; [congruence|done|congruence|]. intros t. by rewrite Hm.
Qed.

(** ** One copy *)

Lemma opened_input_here F src f : opened F src f -> input F src (image f F).
Proof using Type. intros [Ho Hne]. by exists f. Qed.

(** What is read where a source was, is that source. *)
Lemma read_copy F src f : intact (eq dd) F1 F -> opened F src f -> copy_of src (image f F).
Proof using HF0 Hmade Hdd.
  intros Hi Ho. split; [apply Ho|]. intros d0 Hin. eapply (input_fun F); [by apply opened_input_here|].
  eapply input_later; [|exact Hin]. by apply since_start.
Qed.

Lemma working_C F S F' : intact (eq dd) F1 F -> working (eq dd) F S F' -> C F'.
Proof using HC. intros Hi Hw. apply HC. eapply held_trans; [exact Hi|apply Hw]. Qed.

(** The copy of an open file, from the state in which it was opened. *)
Lemma copyBounded_working F f s limit size :
  wf_fs F -> intact (eq dd) F1 F -> is_Some (f_attr F !! f) -> size = Z.of_nat (length (image f F)) ->
  hoare (working (eq dd) F [with_data s []]) (copyBoundedInput (sf_ino s) f limit size)
    (fun _ F' => working (eq dd) F [with_data s (image f F)] F') (fun _ F' => intact (eq dd) F1 F') C.
Proof using Hquiet HC.
  intros Hwf Hi [a Ha] Hsz. assert (forall S F', working (eq dd) F S F' -> intact (eq dd) F1 F') as Hw.
  { intros S F' Hw. eapply held_trans; [exact Hi|apply Hw]. }
  unfold copyBoundedInput. destruct (bad_limit limit); [apply hoare_fail; eauto|].
  eapply hoare_bind.
  - apply (hoare_read_limit Hquiet (fun acc => working (eq dd) F [with_data s acc]) _ C (image f F)); [done|..].
    + intros acc F' Hw'. rewrite (image_attr _ _ _ Ha). apply image_attr. by apply (hd_attr _ _ _ _ _ (wk_intact _ _ _ _ Hw')); [intros []|].
    + intros acc F' Hw'. apply HC. eauto.
    + intros acc F' e Hw'. simpl. eauto.
    + intros acc piece. eapply hoare_conseq; [apply (working_write Hquiet (eq dd) F (with_data s acc) [] piece C)|..]; try done; simpl; eauto.
  - intros data. apply hoare_ghost. intros F' [Hw' Hd]. destruct (_ <? _) eqn:Hl; [apply hoare_fail; intros ? <-; eauto|].
    destruct (_ =? _); [apply hoare_fail; intros ? <-; eauto|]. destruct (Z.eqb_spec (Z.of_nat (length data)) size) as [Hn|]; [|apply hoare_fail; intros ? <-; eauto].
    apply hoare_ret. intros F'' <-. replace (image f F) with data; [done|]. rewrite Hd. apply firstn_all2.
    apply (f_equal length) in Hd. rewrite length_take in Hd. lia.
Qed.

Lemma snapshotInput_copies S source destination c limit :
  in_dir dir (filepath_Clean destination) c -> single c ->
  hoare (working (eq dd) F1 S) (snapshotInput source destination limit)
    (fun _ F => exists s, sf_path s = filepath_Clean destination /\ copy_of (filepath_Clean source) (sf_data s) /\
       working (eq dd) F1 (s :: S) F) (fun _ F => intact (eq dd) F1 F) C.
Proof using Hquiet HF0 Hmade Hroom Hdir Hdd HC.
  intros Hin Hc. apply hoare_ghost. intros F Hw. pose proof (wk_intact _ _ _ _ Hw) as Hi.
  assert (forall F', F = F' -> intact (eq dd) F1 F') as Hself by by intros ? <-.
  unfold snapshotInput. eapply (hoare_looking _ _ _ (fun F' f => F = F' /\ opened F (filepath_Clean source) f)).
  { intros F' <-. eapply tells_impl; [by apply openInput_tells|]. done. }
  { intros F' e. apply Hself. } { intros F' <-. by apply HC. }
  intros f. apply hoare_ghost. intros F' [<- [_ Hf]]. apply hoare_deferring_observes; [by apply observes_close|..].
  { intros [] F' (s & _ & _ & Hw'). apply HC, Hw'. } { intros e F'. apply HC. }
  eapply (hoare_looking _ _ _ (fun F' fi => F = F' /\ fi_size fi = Z.of_nat (length (image f F)))).
  { intros F' <-. eapply tells_impl; [by apply fstat_tells|]. by intros fi (_ & _ & ?). }
  { intros F' e. apply Hself. } { intros F' <-. by apply HC. }
  intros stat. apply hoare_ghost. intros F' [<- [_ Hsz]]. destruct (_ || _); [by apply hoare_fail|]. destruct (_ <? _); [by apply hoare_fail|].
  assert (wf_fs F) as HwfF by apply Hi.
  eapply hoare_bind with (R := fun i F' => exists s, sf_ino s = i /\ sf_path s = filepath_Clean destination /\ sf_data s = [] /\ working (eq dd) F [s] F').
  { eapply hoare_conseq; [apply (working_create Hquiet (eq dd) F (filepath_Clean destination) c (components dir) inputSnapshotMode [] C)|..].
    - apply tidy_Clean.
    - apply Hin.
    - apply Hc.
    - intros F' d Hw' Hat. right. symmetry. eapply in_room; [|exact Hin|apply Hc|exact Hat]. eapply held_trans; [exact Hi|apply Hw'].
    - intros F' Hw'. by eapply working_C.
    - intros F' <-. split; [by apply held_refl|constructor|constructor].
    - intros i F' [d Hw']. eexists. split_and!; [..|exact Hw']; done.
    - intros e F' Hw'. eapply held_trans; [exact Hi|apply Hw'].
    - done. }
  intros i. apply hoare_ghost. intros F' (s & <- & Hp & Hd & Hw'). apply hoare_deferring_observes; [by apply observes_close|..].
  { intros [] F'' (t & _ & _ & Hw''). apply HC, Hw''. } { intros e F''. apply HC. }
  eapply hoare_bind.
  - eapply hoare_pre; [apply (copyBounded_working F f s limit (fi_size stat)); try done|].
    + destruct Hf as [(_ & _ & _ & Hn) _]. by apply (wf_attr _ HwfF).
    + intros F'' <-. destruct s. simpl in Hd. by subst.
  - intros []. apply hoare_ghost. intros F'' Hw''. pose proof (working_extend _ _ _ _ _ _ Hw Hw'') as Hall.
    eapply hoare_conseq; [apply (observes_hoare _ (eq F'')); by apply observes_inspect|done|..].
    + intros [] F3 <-. exists (with_data s (image f F)). split; [done|]. split; [by apply read_copy|exact Hall].
    + intros e F3 <-. apply Hall.
    + intros F3 <-. apply HC, Hall.
Qed.

(** ** All of them *)

Context {GU : GoUnicode} {SS : SliceSort} {MR : MapRange} (ParseBuildInfo : string -> option (list (string * string))).

(** A copy of [src] is among the files, under the path [target]. *)
Definition copied (S : list sfile) (src target : string) : Prop := exists s,
  s ∈ S /\ sf_path s = filepath_Clean target /\ copy_of (filepath_Clean src) (sf_data s).

Lemma copied_mono S S' src t : S ⊆ S' -> copied S src t -> copied S' src t.
Proof using Type. intros HS (s & Hs & Hr). exists s. split; [by apply HS|done]. Qed.

Definition recorded (paths : gmap string string) (S : list sfile) : Prop := forall clean t,
  paths !! clean = Some t -> copied S clean t.

Lemma input_name_single k : single (input_name k).
Proof using Type. split_and!; [done|done|done|]. unfold input_name. by rewrite slashless_app, Itoa_slashless. Qed.

Lemma input_in_dir k : in_dir dir (filepath_Clean (filepath_Join [dir; input_name k])) (input_name k).
Proof using Hdir.
  pose proof (join_in_dir dir (input_name k) Hdir (input_name_single k)) as Hj.
  destruct (tidy_same_way _ (in_dir_tidy _ _ _ Hdir (input_name_single k) Hj)) as (_ & Hne & Hr & Hc).
  destruct Hj as (_ & Hr' & Hc'). split; [done|]. by rewrite <- Hr, <- Hc.
Qed.

Lemma snapshot_copies opts paths S path :
  recorded paths S ->
  hoare (working (eq dd) F1 S) (snapshot ParseBuildInfo opts dir paths path)
    (fun r F => exists S', S ⊆ S' /\ recorded r.2 S' /\ copied S' path r.1 /\ working (eq dd) F1 S' F)
    (fun _ F => intact (eq dd) F1 F) C.
Proof using Hquiet HF0 Hmade Hroom Hdir Hdd HC.
  intros Hrec. unfold snapshot. set (clean := filepath_Clean path).
  assert (forall S t, copied S clean t -> copied S path t) as Hclean.
  { intros S0 t (s & Hs & Hp & Hcp). exists s. split_and!; [done..|]. eapply copy_of_same_way; [|exact Hcp].
    apply same_way_sym, tidy_same_way, tidy_Clean. }
  destruct (paths !! clean) as [t|] eqn:Hpc.
  { apply hoare_ret. intros F Hw. exists S. split_and!; [done|done| |done]. apply Hclean. by apply Hrec. }
  set (target := filepath_Join _). eapply hoare_bind; [apply (snapshotInput_copies S clean target _ _ (input_in_dir _) (input_name_single _))|].
  intros []. apply hoare_ghost. intros F (s & Hp & Hcp & Hw). eapply hoare_pre; [|intros F' <-; exact Hw].
  assert (forall F, working (eq dd) F1 (s :: S) F -> C F) as HwC by (intros F' Hw'; apply HC, Hw').
  apply hoare_observe; [|by intros e F' [Hi _ _]|done|].
  { destruct (o_SkipELFValidation opts); [apply observes_ret|by apply observes_ValidateELFBinary]. }
  intros []. apply hoare_ret. intros F' Hw'. exists (s :: S). cbn [fst snd].
  assert (copied (s :: S) clean target) as Ht by (exists s; split_and!; [left|done|done]).
  split_and!; [by intros x Hx; right| |by apply Hclean|done].
  intros c t. destruct (decide (c = clean)) as [-> |Hne]; [rewrite lookup_insert_eq; by intros [= <-]|].
  rewrite lookup_insert_ne by done. intros Hc. eapply copied_mono; [|by apply Hrec]. by intros x Hx; right.
Qed.

Definition observing (opts : Options) : Prop := forall validate level path, o_VariantValidator opts = Some validate -> observes (validate level path).

(** What the loop over the variants has recorded. *)
Definition variants_copied (S : list sfile) (l : list (string * string)) (old new : gmap string string) : Prop :=
  (forall lvl t, new !! lvl = Some t -> old !! lvl = Some t \/ exists src, (lvl, src) ∈ l /\ copied S src t) /\
  (forall lvl, lvl ∈ l.*1 \/ is_Some (old !! lvl) -> is_Some (new !! lvl)).

Lemma variants_copied_cons S lvl path t l old new :
  copied S path t -> variants_copied S l (<[lvl := t]> old) new -> variants_copied S ((lvl, path) :: l) old new.
Proof using Type.
  intros Hc [H1 H2]. split.
  - intros lvl' t' Ht. destruct (H1 lvl' t' Ht) as [Ho|(src & Hin & Hs)]; [|right; exists src; split; [by right|done]].
    destruct (decide (lvl = lvl')) as [<- |]; [|left; by rewrite lookup_insert_ne in Ho].
    rewrite lookup_insert_eq in Ho. injection Ho as <-. right. exists path. split; [left|done].
  - intros lvl' Hl. apply H2. cbn [fmap list_fmap fst] in Hl. destruct (decide (lvl = lvl')) as [<- |]; [right; rewrite lookup_insert_eq; eauto|].
    rewrite lookup_insert_ne by done. destruct Hl as [Hl|Hl]; [|by right]. apply elem_of_cons in Hl as [|]; [congruence|by left].
Qed.

Lemma snapshot_variants_copies opts l paths old S :
  observing opts -> recorded paths S ->
  hoare (working (eq dd) F1 S) (snapshot_variants ParseBuildInfo opts dir l paths old)
    (fun new F => exists S', S ⊆ S' /\ variants_copied S' l old new /\ working (eq dd) F1 S' F)
    (fun _ F => intact (eq dd) F1 F) C.
Proof using Hquiet HF0 Hmade Hroom Hdir Hdd HC.
  intros Hobs. revert paths old S. induction l as [|[level path] l IH]; intros paths old S Hrec; cbn [snapshot_variants].
  { apply hoare_ret. intros F Hw. exists S. split_and!; [done| |done]. split; [by left|]. intros lvl [Hl|Hl]; [by apply not_elem_of_nil in Hl|done]. }
  eapply hoare_bind; [apply hoare_wrapping, snapshot_copies, Hrec|]. intros [target paths']. apply hoare_ghost.
  intros F (S1 & HS1 & Hrec' & Hcp & Hw). cbn [fst snd] in *. eapply hoare_pre; [|intros F' <-; exact Hw].
  assert (forall F, working (eq dd) F1 S1 F -> C F) as HwC by (intros F' Hw'; apply HC, Hw').
  apply hoare_observe; [|by intros e F' [Hi _ _]|done|].
  { destruct (o_VariantValidator opts) as [validate|] eqn:Hv; [by eapply Hobs|apply observes_ret]. }
  intros []. eapply hoare_conseq; [by apply (IH paths' (<[level := target]> old) S1)|done| |done|done].
  intros new F' (S2 & HS2 & Hnew & Hw'). exists S2. split_and!; [by etransitivity| |done].
  apply (variants_copied_cons S2 level path target); [by eapply copied_mono|done].
Qed.

End copies.

Definition inputs_prefix : string := "microfat-inputs-".

Section atomic.
Context `{Kernel} (Hquiet : quiet) (F0 : fs) (HF0 : wf_fs F0) (cs : list string) (Hcs : Forall single cs) (Hne : cs <> []).

Local Abbreviation tmpdir := (abs_path cs).
Local Abbreviation new_dir := (new_dir F0).

Lemma tidy_abs : tidy tmpdir.
Proof using Hcs Hne.
  assert (Forall component cs) as Hc by (eapply Forall_impl; [exact Hcs|]; by intros c (? & ? & _ & ?)).
  assert (components tmpdir = cs) as Hcomp.
  { destruct cs as [|c l]; [done|]. unfold abs_path. rewrite components_filter, sapp_cons, sapp_nil_l. cbn [Split].
    change (Ascii.eqb "/" slash) with true. cbv iota. change (List.filter kept_component ("" :: ?l)%string) with (List.filter kept_component l).
    rewrite Split_join_slashless by done. by apply filter_components. }
  split; [done|]. rewrite Hcomp. unfold clean_components. rewrite foldl_single by done. by rewrite app_nil_r, rev_involutive.
Qed.

(** ** The directory of the copies *)

Definition inputs_name (r : Z) : string := inputs_prefix ++ Itoa (r mod 2 ^ 32) ++ "".

Lemma inputs_name_single r : single (inputs_name r).
Proof using Type. split_and!; [done|done|done|]. unfold inputs_name. by rewrite !slashless_app, Itoa_slashless. Qed.

Lemma inputs_name_temp r : inputs_temp (inputs_name r).
Proof using Type. unfold inputs_temp, inputs_name. change "microfat-inputs-"%string with inputs_prefix. apply HasPrefix_app. Qed.

(** Its directory, its name and the path to it. *)
Definition inputs_at (dir : string) (dp : Z) (np : string) : Prop :=
  entry (f_tree F0) dp np = None /\ exists r, dir = temp_path tmpdir inputs_prefix "" r /\ np = inputs_name r.

Lemma made_inputs r a i F1 d c :
  added cwd_base (temp_path tmpdir inputs_prefix "" r) (TDir ∅) a F0 i F1 d c ->
  exists dp np dd, inputs_at (temp_path tmpdir inputs_prefix "" r) dp np /\ held new_dir nobody None F0 F1 /\
    room (temp_path tmpdir inputs_prefix "" r) dp np dd F1 /\ new_dir dd.
Proof using HF0 Hcs Hne.
  intros Hadd. destruct (add_at Hadd) as (l & Hl & Hp & Hi).
  destruct (temp_path_in_dir tmpdir inputs_prefix "" r (proj1 tidy_abs) (inputs_name_single r)) as (_ & _ & Hcomp).
  assert (c = inputs_name r) as ->.
  { pose proof (locate_last _ _ _ _ _ _ Hcomp (proj1 (proj2 (proj2 (inputs_name_single r)))) Hl) as Hn. unfold place in Hp. rewrite Hn in Hp.
    destruct (l_dir l); [done|]. by injection Hp. }
  assert (forall m : gmap string Z, TDir ∅ = TDir m -> m = ∅) as Hm by by intros m [= <-].
  pose proof (next_ino_fresh F0) as [Hfr _]. rewrite <- (add_ino Hadd) in Hfr.
  assert (exists m, f_tree F1 !! i = Some (TDir m)) as [m Hdir].
  { pose proof (node_kept_set_entry (<[i := TDir ∅]> (f_tree F0)) d (inputs_name r) i i _ (lookup_insert_eq _ _ _)) as Hk.
    rewrite <- (add_tree Hadd) in *. destruct Hk as [m Hk]. unfold entries in Hk.
    destruct (f_tree F1 !! i) as [[|m'| |]|]; try discriminate. by exists m'. }
  exists d, (inputs_name r), i. split_and!; [|eapply held_added; [done|exact Hm|exact Hadd|]| |done].
  - split; [exact (add_free Hadd)|by exists r].
  - right. right. split_and!; [apply inputs_name_temp| |done]. unfold is_dir. by rewrite Hdir.
  - split; [|rewrite (added_entry _ _ _ _ _ _ _ _ _ _ _ Hadd) by done; by rewrite decide_True|eauto].
    eexists. split; [by eapply locate_added|done].
Qed.

Lemma mkdir_inputs (C : fs -> Prop) :
  C F0 ->
  hoare (eq F0) (os_MkdirTemp tmpdir "microfat-inputs-" "")
    (fun dir F1 => exists dp np dd, inputs_at dir dp np /\ held new_dir nobody None F0 F1 /\ room dir dp np dd F1 /\ new_dir dd)
    (fun _ => eq F0) C.
Proof using Hquiet HF0 Hcs Hne.
  intros HC. assert (forall F, F0 = F -> C F) as HC0 by by intros F <-.
  unfold os_MkdirTemp. generalize (Z.to_nat 9999) as tries. induction tries as [|tries IH]; cbn [mkdir_temp].
  all: apply hoare_observe; [apply observes_random|done|done|intros r].
  all: change "microfat-inputs-"%string with inputs_prefix; set (dir := temp_path tmpdir inputs_prefix "" r).
  all: eapply hoare_bind with (R := fun x F => match x with
      | inl _ => exists dp np dd, inputs_at dir dp np /\ held new_dir nobody None F0 F /\ room dir dp np dd F /\ new_dir dd
      | inr _ => F0 = F end).
  1, 3: apply hoare_try, hoare_syscall; [done..|]; intros n F u F' <- Hadd; apply bind_Ok_inv in Hadd as ([i F1] & Hadd & [= <- <-]);
    apply add_node_inv in Hadd as (d & c & Hadd); by eapply made_inputs.
  all: intros [[]|e]; [apply hoare_ret; intros F (dp & np & dd & Hr); by exists dp, np, dd|].
  all: destruct (is_exist e); [first [by apply hoare_fail|apply IH]|].
  all: destruct (is_not_exist e); [|by apply hoare_fail].
  all: apply hoare_observe; [apply observes_try; by apply observes_stat|done|done|]; intros [st|e1]; [by apply hoare_fail|].
  all: destruct (is_not_exist e1); by apply hoare_fail.
Qed.

(** ** Removing it *)

Section remove.
Context (Phi : fs -> Prop) (dir : string) (dp : Z) (np : string) (Hat : inputs_at dir dp np).

Definition ours (d : Z) (n : string) : Prop := new_dir d \/ (d, n) = (dp, np).

Context (Hwf : forall F, Phi F -> wf_fs F).
Context (Hdel : forall F d n, Phi F -> ours d n -> Phi (with_tree F (del_entry (f_tree F) d n))).
Context (Hnew : forall F d n j, Phi F -> ours d n -> entry (f_tree F) d n = Some j -> new_dir j).

Lemma remove_inputs :
  hoare (fun F => Phi F /\ at_path F dir dp np) (os_RemoveAll dir) (fun _ => Phi) (fun _ => Phi) Phi.
Proof using Hquiet Hcs Hne Hat Hwf Hdel Hnew.
  destruct Hat as [_ (r & -> & ->)]. set (dir0 := temp_path tmpdir inputs_prefix "" r) in *.
  pose proof (temp_path_in_dir tmpdir inputs_prefix "" r (proj1 tidy_abs) (inputs_name_single r)) as Hin.
  pose proof (inputs_name_single r) as Hs. set (P := fun F => Phi F /\ at_path F dir0 dp (inputs_name r)).
  assert (forall F, P F -> Phi F) as HP by by intros F [? _].
  unfold os_RemoveAll. destruct (String.eqb dir0 ""); [by apply hoare_ret|]. destruct (_ || _); [by apply hoare_fail|].
  eapply hoare_bind with (R := fun x F => match x with inl _ => Phi F | inr _ => P F end).
  { apply hoare_try. assert (forall want, hoare P (syscall (fun _ F => l ← locate cwd_base false dir0 F; unlink_at l want F))
      (fun _ => Phi) (fun _ => P) Phi) as Hun.
    { intros want. apply hoare_syscall; [done..|]. intros n F u F' [HF (l & Hl & Hp)] Hu. rewrite Hl in Hu. simpl in Hu.
      destruct (unlink_at_inv _ _ _ _ _ _ _ _ Hl Hu) as (d & m & i & Hp' & _ & _ & -> & _). apply Hdel; [done|]. right. congruence. }
    unfold os_Remove, remove_at. eapply hoare_bind with (R := fun x F => match x with inl _ => Phi F | inr _ => P F end); [apply hoare_try, (Hun false)|]. intros [u|e]; [by apply hoare_ret|].
    eapply hoare_bind with (R := fun x F => match x with inl _ => Phi F | inr _ => P F end); [apply hoare_try, (Hun true)|]. intros [u|e1]; [by apply hoare_ret|by apply hoare_fail]. }
  intros [u|e]; [by apply hoare_ret|]. destruct (is_not_exist e); [by apply hoare_ret|].
  replace (os_splitPath dir0) with (tmpdir, inputs_name r) by (symmetry; by apply os_splitPath_temp).
  eapply hoare_bind with (R := fun x F => Phi F /\ match x with inl f => f = dp | inr _ => True end).
  { apply hoare_try, hoare_inspect; [done|done|by intros F e0 [? _]|]. intros F f [HF Hd] Hf. split; [done|].
    destruct (at_parent F tmpdir dir0 _ _ _ Hin (proj1 tidy_abs) (proj1 (proj2 (proj2 Hs))) Hd) as (l & Hl & Hi). cbn [negb] in Hf.
    rewrite Hl in Hf. simpl in Hf. unfold found in Hf. rewrite Hi in Hf. simpl in Hf.
    destruct (f_tree F !! dp) as [[]|]; try discriminate; by injection Hf. }
  intros [f|e1]; apply hoare_ghost; intros F [HF Hf]; (eapply hoare_pre; [|by intros F' <-]).
  2: { destruct (is_not_exist e1); [by apply hoare_ret|by apply hoare_fail]. }
  subst f. apply hoare_deferring_observes; [by apply observes_inspect|done|done|].
  apply (hoare_remove_all Hquiet new_dir Phi); try done.
  - intros F' d n j HF' Hd Hj _. eapply Hnew; [exact HF'|by left|exact Hj].
  - intros F' d n HF' Hd. apply Hdel; [done|by left].
  - intros F' HF'. apply Hdel; [done|right; congruence].
  - intros F' j HF' Hj _. apply (Hnew F' dp (inputs_name r)); [exact HF'|right; congruence|exact Hj].
Qed.

End remove.

Lemma held_new x F d n j :
  held new_dir nobody x F0 F -> x <> Some (d, n) -> entry (f_tree F0) d n = None -> entry (f_tree F) d n = Some j -> new_dir j.
Proof using Type. intros Hh Hx Hn Hj. destruct (hd_new _ _ _ _ _ Hh d n j Hx Hj) as [|[? _]]; [congruence|done]. Qed.

Lemma ours_free dir dp np d n : inputs_at dir dp np -> ours dp np d n -> entry (f_tree F0) d n = None.
Proof using Type.
  intros [Hfree _] [Hd|[= -> ->]]; [|done]. unfold entry, entries. unfold new_dir in Hd. by rewrite Hd.
Qed.

(** What was there stays, whatever is removed. *)
Lemma remove_inputs_held dir dp np :
  inputs_at dir dp np ->
  hoare (fun F => held new_dir nobody None F0 F /\ at_path F dir dp np) (os_RemoveAll dir)
    (fun _ => held new_dir nobody None F0) (fun _ => held new_dir nobody None F0) (held new_dir nobody None F0).
Proof using Hquiet Hcs Hne.
  intros Hat. apply (remove_inputs _ dir dp np Hat).
  - by intros F [].
  - intros F d n Hh Ho. apply held_drop; [done|]. by eapply ours_free.
  - intros F d n j Hh Ho. eapply held_new; [exact Hh|done|]. by eapply ours_free.
Qed.

(** ** The copies *)

Context {GU : GoUnicode} {SS : SliceSort} {MR : MapRange} (ParseBuildInfo : string -> option (list (string * string))).

Definition holds_copy (F : fs) (src target : string) : Prop := exists data,
  input F (filepath_Clean target) data /\ copy_of F0 (filepath_Clean src) data.

(** The options name copies in the place of the inputs. *)
Definition snapshotted (opts opts' : Options) (F : fs) : Prop := exists stub variants,
  opts' = with_inputs opts stub variants /\ holds_copy F (o_StubPath opts) stub /\
  (forall lvl t, variants !! lvl = Some t -> exists src, o_Variants opts !! lvl = Some src /\ holds_copy F src t) /\
  (forall lvl, is_Some (o_Variants opts !! lvl) -> is_Some (variants !! lvl)).

Lemma copied_holds lax F1 S F src t : working lax F1 S F -> copied F0 S src t -> holds_copy F src t.
Proof using Type.
  intros Hw (s & Hs & Hp & Hc). exists (sf_data s). split; [|done]. pose proof (wk_present _ _ _ _ Hw) as Hf. rewrite Forall_forall in Hf.
  specialize (Hf s Hs). exists (sf_ino s). split_and!; [|by eapply present_image|apply Hc]. rewrite <- Hp.
  destruct (pr_at _ _ _ _ Hf) as (l & Hl & Hpl). destruct (locate_entry _ _ _ _ _ _ _ Hl Hpl) as [He _]. rewrite (pr_entry _ _ _ _ Hf) in He.
  exists l. split_and!; [|done|apply Hf]. eapply locate_follow; [done|done|]. intros u. rewrite (pr_file _ _ _ _ Hf). done.
Qed.

Lemma snapshotted_intro lax F1 S F opts stub variants :
  working lax F1 S F -> copied F0 S (o_StubPath opts) stub ->
  variants_copied F0 S (map_range 3 (o_Variants opts)) ∅ variants -> snapshotted opts (with_inputs opts stub variants) F.
Proof using Type.
  intros Hw Hs [H1 H2]. exists stub, variants. split_and!; [done|by eapply copied_holds| |].
  - intros lvl t Ht. destruct (H1 lvl t Ht) as [He|(src & Hin & Hc)]; [by rewrite lookup_empty in He|].
    exists src. split; [|by eapply copied_holds]. by rewrite map_range_Permutation, elem_of_map_to_list in Hin.
  - intros lvl [src Hsrc]. apply H2. left. apply list_elem_of_fmap. exists (lvl, src). split; [done|].
    by rewrite map_range_Permutation, elem_of_map_to_list.
Qed.

Lemma snapshotInputs_taken opts (C : fs -> Prop) :
  observing opts -> (forall F, held new_dir nobody None F0 F -> C F) ->
  hoare (eq F0) (snapshotInputs ParseBuildInfo tmpdir opts)
    (fun r F => exists dp np, inputs_at r.2 dp np /\ held new_dir nobody None F0 F /\ at_path F r.2 dp np /\ snapshotted opts r.1 F)
    (fun _ => held new_dir nobody None F0) C.
Proof using Hquiet HF0 Hcs Hne.
  intros Hobs HC. unfold snapshotInputs. eapply hoare_bind with (R := fun dir F1 => exists dp np dd,
    inputs_at dir dp np /\ held new_dir nobody None F0 F1 /\ room dir dp np dd F1 /\ new_dir dd).
  { eapply hoare_conseq; [apply (mkdir_inputs C), HC, held_refl, HF0|done|done| |done]. intros e F <-. by apply held_refl. }
  intros dir. apply hoare_ghost. intros F1 (dp & np & dd & Hat & Hmade & Hroom & Hdd).
  assert (tidy dir) as Hdir.
  { destruct Hat as [_ (r & -> & _)]. eapply in_dir_tidy; [apply tidy_abs|apply (inputs_name_single r)|].
    apply temp_path_in_dir; [apply tidy_abs|apply (inputs_name_single r)]. }
  assert (forall F, intact (eq dd) F1 F -> held new_dir nobody None F0 F /\ at_path F dir dp np) as Hst.
  { intros F Hi. split; [by eapply since_start|]. by destruct (room_later F0 F1 Hmade dir dp np dd Hroom F Hi). }
  assert (forall F, intact (eq dd) F1 F -> C F) as HiC by (intros F Hi; by apply HC, Hst).
  unfold or_cleanup. eapply hoare_bind with (R := fun x F => match x with
    | inl r => held new_dir nobody None F0 F /\ at_path F r.2 dp np /\ snapshotted opts r.1 F /\ r.2 = dir
    | inr _ => held new_dir nobody None F0 F /\ at_path F dir dp np end).
  - apply hoare_try. eapply hoare_bind.
    { eapply hoare_conseq; [apply (hoare_wrapping _ _ _ _ (fun _ F => intact (eq dd) F1 F)), (snapshot_copies Hquiet F0 HF0 F1 Hmade dir dp np dd Hroom Hdir Hdd C HiC ParseBuildInfo opts ∅ [] (o_StubPath opts))|..].
      - intros c t. by rewrite lookup_empty.
      - intros F <-. split; [by apply held_refl, Hmade|constructor|constructor].
      - done.
      - intros e F. apply Hst.
      - done. }
    intros [stub paths]. apply hoare_ghost. intros F (S1 & _ & Hrec & Hstub & Hw). cbn [fst snd] in *.
    eapply hoare_bind.
    { eapply hoare_conseq; [apply (snapshot_variants_copies Hquiet F0 HF0 F1 Hmade dir dp np dd Hroom Hdir Hdd C HiC ParseBuildInfo opts
        (map_range 3 (o_Variants opts)) paths ∅ S1 Hobs Hrec)|by intros F' <-|done|intros e F'; apply Hst|done]. }
    intros variants. apply hoare_ret. intros F' (S2 & HS & Hv & Hw'). cbn [fst snd].
    destruct (Hst F' (wk_intact _ _ _ _ Hw')) as [H1 H2]. split_and!; [done|done| |done].
    eapply snapshotted_intro; [exact Hw'| |exact Hv]. by eapply copied_mono.
  - intros [r|e].
    + apply hoare_ret. intros F (H1 & H2 & H3 & Hr). exists dp, np. by rewrite Hr in *.
    + eapply hoare_bind with (R := fun _ => held new_dir nobody None F0); [|intros []; by apply hoare_fail].
      apply hoare_ignore. eapply hoare_conseq; [by apply remove_inputs_held|done..|done].
Qed.

End atomic.
