(* ===== verification/PackVerifies.v ===== *)
(** * What packing leaves

    [Pack] from the first check to the removal of the copies, and its artifact:
    it opens as a fat binary, and the verification of the launcher finds every
    variant valid; the recorded digests are those of the inputs, and the frames
    read back to them. *)

From S2P Require Import Prelude GoStrings GoPath GoIO Microarch MicroarchSelect Format FormatIndex Sha256 FormatTrailer Codec PackTrim PackPlan Vfs GoOS InputFile VfsLogic VfsEffects VfsStage PackOptions PackInput PackStage Pack PackHeld PackTemp PackWrite PackArtifact PackAtomic.
From S2P Require PackAssemble.
From stdpp Require Import base list strings gmap.
From Stdlib Require Import ZArith Lia Strings.Ascii Strings.Byte.

Local Open Scope Z_scope.

Section validated.
Context `{Kernel} (Hquiet : quiet) {GU : GoUnicode} {SS : SliceSort} {MR : MapRange}.
Context (ParseBuildInfo : string -> option (list (string * string))).

(** The levels are known and distinct when normalized. *)
Definition levels_ok (arch : string) (levels : list string) : Prop :=
  Forall (fun lvl => TrimSpace lvl <> ""%string /\ 0 <= Rank arch (NormalizeVariant lvl)) levels /\
  NoDup (NormalizeVariant <$> levels).

(** What the checks of the options establish. *)
Definition accepted (opts o : Options) : Prop := exists osName arch version comp,
  o = with_checked opts osName arch version comp /\
  NormalizeTargetOS (o_TargetOS opts) = Ok osName /\
  NormalizeTargetArch (if String.eqb (o_TargetArch opts) "" then ArchAMD64 else o_TargetArch opts) = Ok arch /\
  validateDictionaryAndFormatOptions opts = Ok version /\ o_Variants opts <> ∅ /\
  ValidString (o_AppName opts) = true /\ levels_ok arch (map_to_list (o_Variants opts)).*1.

Lemma check_level_inv arch lvl seen n :
  check_level arch lvl seen = Ok n -> n = NormalizeVariant lvl /\ TrimSpace lvl <> ""%string /\ 0 <= Rank arch n /\ n ∉ seen.
Proof using Type.
  unfold check_level. destruct (String.eqb_spec (TrimSpace lvl) ""); [done|]. destruct (Z.ltb_spec (Rank arch (NormalizeVariant lvl)) 0); [done|].
  case_bool_decide; [done|]. by intros [= <-].
Qed.

Lemma check_levels_tells F opts osName arch l seen :
  tells F (check_levels (ValidateELFBinary ParseBuildInfo) opts osName arch l seen) (fun _ =>
    levels_ok arch l.*1 /\ Forall (fun lvl => NormalizeVariant lvl ∉ seen) l.*1).
Proof using Hquiet.
  revert seen. induction l as [|[lvl p] l IH]; intros seen; cbn [check_levels].
  { apply tells_ret. split; [split|]; constructor. }
  eapply tells_bind; [apply tells_of_outcome|]. intros n (-> & Ht & Hr & Hs)%check_level_inv.
  eapply tells_bind with (phi := fun _ => True).
  { destruct (o_SkipELFValidation opts); [by apply tells_ret|]. apply tells_any. by apply observes_ValidateELFBinary. }
  intros [] _. eapply tells_impl; [apply IH|]. intros [] [[Hl Hd] Hn]. cbn [fmap list_fmap fst]. split; [split|].
  - by constructor.
  - cbn. constructor; [|done]. intros (lvl' & Heq & Hin)%list_elem_of_fmap. rewrite Forall_forall in Hn. apply (Hn lvl' Hin). rewrite <- Heq. set_solver.
  - constructor; [done|]. eapply Forall_impl; [exact Hn|]. intros x. set_solver.
Qed.

Lemma levels_ok_perm arch l l' : l ≡ₚ l' -> levels_ok arch l -> levels_ok arch l'.
Proof using Type. intros Hp [H1 H2]. split; [by rewrite <- Hp|]. by rewrite <- Hp. Qed.

Lemma validateOptions_tells F opts : tells F (validateOptions (ValidateELFBinary ParseBuildInfo) opts) (accepted opts).
Proof using Hquiet.
  unfold validateOptions. case_bool_decide as Hv; [apply tells_fail|]. destruct (String.eqb _ _); [apply tells_fail|].
  destruct (String.eqb _ _); [apply tells_fail|]. destruct (ValidString (o_AppName opts)) eqn:Hu; [|apply tells_fail]. cbn [negb].
  eapply tells_bind; [apply tells_of_outcome|]. intros osName Hos. eapply tells_bind; [apply tells_of_outcome|]. intros arch Harch.
  eapply tells_bind; [apply tells_of_outcome|]. intros version Hversion. eapply tells_bind; [apply check_levels_tells|]. intros [] [Hl _].
  eapply tells_bind; [apply tells_of_outcome|]. intros comp _. eapply tells_bind with (phi := fun _ => True).
  { destruct (o_SkipELFValidation opts); [by apply tells_ret|]. apply tells_any. by apply observes_ValidateELFBinary. }
  intros [] _. apply tells_ret. exists osName, arch, version, comp. split_and!; try done.
  eapply levels_ok_perm; [|exact Hl]. by rewrite map_range_Permutation.
Qed.

End validated.

(** ** What is packed *)

Section packed.
Context `{Kernel} (Hquiet : quiet) {GU : GoUnicode} {SS : SliceSort} {MR : MapRange} {E : Encoders} {DB : DictBuilder}.
Context (types machines : Z -> string) (ParseBuildInfo : string -> option (list (string * string))).
Context (hst : host) (sch : schedule) (names : zstd_level -> string) (now : Z).
Context (F0 : fs) (HF0 : wf_fs F0).

(** The frame of a level: its source, compressed as the options say. *)
Definition frame_for (opts checked : Options) (dict : list byte) (lvl : string) (r : PackAssemble.parallelVariantResult) : Prop :=
  exists src data c level pieces,
  o_Variants opts !! lvl = Some src /\ copy_of F0 (filepath_Clean src) data /\ Z.of_nat (length data) <= MaxPayloadSize /\
  resolveVariantCompression checked lvl (Z.of_nat (length data)) = Ok (c, level) /\
  compress_variant hst c level data dict = (pieces, None) /\ PackAssemble.staged r = concat pieces /\
  PackAssemble.entry r = mkVariant (NormalizeVariant lvl) 0 (Z.of_nat (length (PackAssemble.staged r)))
    (Z.of_nat (length data)) (EncodeToString (Sum256 data)) (codec_Name c).

(** The artifact of [opts]: a frame for every level, behind the stub and the
    dictionary if there is one, sealed with the index that is returned. *)
Definition packed (opts checked : Options) (D : list byte) (idx : Index) : Prop :=
  exists levels stub dict sha rs,
  levels ≡ₚ (map_to_list (o_Variants opts)).*1 /\ copy_of F0 (filepath_Clean (o_StubPath opts)) stub /\
  (dictionary_made (dict, sha) \/ dict = [] /\ sha = ""%string) /\ Forall2 (frame_for opts checked dict) levels rs /\
  let base := base_index checked (default now (o_CreatedUnix opts)) in
  (Z.of_nat (length D) <= 2 ^ 61 ->
   idx = PackAssemble.candidate base (Z.of_nat (length stub)) dict sha rs /\
   D = sealed ((stub ++ dict) ++ PackAssemble.frames rs) (encode_index idx) /\ encodable idx /\
   Z.of_nat (length (encode_index idx)) <= MaxIndexSize).

(** The levels of the copies are those of the inputs. *)
Lemma snapshot_levels opts opts' F :
  snapshotted F0 opts opts' F -> sortVariantLevels (o_Variants opts') (o_TargetArch opts') ≡ₚ (map_to_list (o_Variants opts)).*1.
Proof using Type.
  intros (stub & variants & -> & _ & H1 & H2). cbn [o_Variants with_inputs]. unfold sortVariantLevels.
  rewrite sort_slice_Permutation, map_range_Permutation. apply NoDup_Permutation; [apply NoDup_fst_map_to_list..|].
  intros lvl. rewrite !list_elem_of_fmap. split.
  - intros ([l t] & -> & Hin). apply elem_of_map_to_list in Hin. destruct (H1 l t Hin) as (src & Hsrc & _).
    exists (l, src). by rewrite elem_of_map_to_list.
  - intros ([l src] & -> & Hin). apply elem_of_map_to_list in Hin. destruct (H2 l (ex_intro _ _ Hin)) as [t Ht].
    exists (l, t). by rewrite elem_of_map_to_list.
Qed.

Lemma snapshot_inputs opts opts' F :
  snapshotted F0 opts opts' F ->
  Forall (fun lvl => exists data, input F (filepath_Clean (default ""%string (o_Variants opts' !! lvl))) data)
    (sortVariantLevels (o_Variants opts') (o_TargetArch opts')).
Proof using Type.
  intros Hs. apply Forall_forall. intros lvl Hin. rewrite (snapshot_levels _ _ _ Hs) in Hin.
  destruct Hs as (stub & variants & -> & _ & H1 & H2). apply list_elem_of_fmap in Hin as ([l src] & -> & Hin%elem_of_map_to_list).
  cbn [o_Variants with_inputs fst]. destruct (H2 l (ex_intro _ _ Hin)) as [t Ht]. rewrite Ht.
  destruct (H1 l t Ht) as (? & _ & data & Hd & _). by exists data.
Qed.

Lemma made_frame opts checked opts' B dict lvl plan r :
  o_Variants opts = o_Variants checked -> snapshotted F0 checked opts' B -> is_Some (o_Variants opts' !! lvl) ->
  plan_for opts' lvl plan -> planned B opts' plan -> made hst B dict plan r -> frame_for opts checked dict lvl r.
Proof using Type.
  intros Hv Hs [t Ht] (Hpl & Hpn & Hpp) (data & Hin & _ & _ & _ & Hres) (data' & pieces & Hin' & Hmax & Hcv & Hst & Hent).
  assert (data' = data) as -> by by eapply input_fun.
  destruct Hs as (stub & variants & -> & _ & H1 & _). cbn [o_Variants with_inputs] in *.
  destruct (H1 lvl t Ht) as (src & Hsrc & d & Hd & Hcp). rewrite Ht in Hpp. cbn in Hpp. rewrite Hpp in Hin.
  assert (d = data) as -> by by eapply input_fun.
  exists src, data, (wp_codec plan), (wp_resolvedLevel plan), pieces. rewrite Hv. rewrite Hpl in Hres. split_and!; try done.
  by rewrite Hent, <- Hpn.
Qed.

(** The artifact made from the copies is that of the inputs. *)
Lemma artifact_packed opts checked opts' B stub dict sha D idx :
  o_CreatedUnix opts = o_CreatedUnix checked -> o_Variants opts = o_Variants checked -> o_StubPath opts = o_StubPath checked ->
  snapshotted F0 checked opts' B -> input B (filepath_Clean (o_StubPath opts')) stub -> dictionary_made (dict, sha) ->
  artifact hst B (sortVariantLevels (o_Variants opts') (o_TargetArch opts')) opts'
    (base_index opts' (default now (o_CreatedUnix opts))) stub dict sha D idx ->
  packed opts checked D idx.
Proof using Type.
  intros Hc Hv Hst Hs Hstub Hdm (plans & rs & d & s & Hd & Hpf & Hp & Hm & Hsm).
  exists (sortVariantLevels (o_Variants opts') (o_TargetArch opts')), stub, d, s, rs. pose proof (snapshot_levels _ _ _ Hs) as Hl.
  split_and!; [by rewrite Hv| | | |].
  - destruct Hs as (stubp & variants & -> & (sd & Hsd & Hscp) & _). rewrite Hst. by rewrite (input_fun B _ _ _ Hstub Hsd).
  - destruct Hd as [[-> ->]|[-> ->]]; [by left|by right].
  - assert (Forall (fun lvl => is_Some (o_Variants opts' !! lvl)) (sortVariantLevels (o_Variants opts') (o_TargetArch opts'))) as Hdom.
    { apply Forall_forall. intros lvl Hin. rewrite Hl in Hin. apply list_elem_of_fmap in Hin as ([l src] & -> & Hin%elem_of_map_to_list).
      destruct Hs as (stubp & variants & -> & _ & _ & H2). by apply H2; exists src. }
    clear Hl Hsm. revert Hdom rs Hm. induction Hpf as [|lvl plan levels plans Hpl _ IH]; intros Hdom rs Hm; inversion Hm; subst; [constructor|].
    inversion Hp; inversion Hdom; subst. constructor; [by eapply made_frame|]. by apply IH.
  - destruct Hs as (stubp & variants & -> & _). exact Hsm.
Qed.

End packed.

(** ** The main line *)

Section main.
Context `{Kernel} (Hquiet : quiet) {GU : GoUnicode} {SS : SliceSort} {MR : MapRange} {E : Encoders} {DB : DictBuilder}.
Context (types machines : Z -> string) (ParseBuildInfo : string -> option (list (string * string))).
Context (hst : host) (sch : schedule) (names : zstd_level -> string) (now : Z) (cs : list string) (Hcs : Forall single cs) (Hne : cs <> []).
Context (F0 : fs) (HF0 : wf_fs F0) (path : string) (dT : Z) (nT : string) (Htgt : target F0 path dT nT) (Hni : ~ inputs_temp nT).

Local Abbreviation untouched := (held (new_dir F0) nobody None F0).
Local Abbreviation released_at := (released (new_dir F0) F0 dT nT).

Lemma target_old : ~ new_dir F0 dT.
Proof using Htgt.
  intros Hd. destruct (tg_at _ _ _ _ Htgt) as (l & Hl & Hp). destruct (locate_entry _ _ _ _ _ _ _ Hl Hp) as [_ [m Hm]].
  unfold entries in Hm. unfold new_dir in Hd. by rewrite Hd in Hm.
Qed.

Lemma target_later B : untouched B -> target B path dT nT.
Proof using HF0 Htgt Hni.
  intros Hh. assert (entry (f_tree B) dT nT = entry (f_tree F0) dT nT) as He.
  { destruct (entry (f_tree F0) dT nT) as [j|] eqn:Hj; [by apply (hd_entry _ _ _ _ _ Hh)|].
    destruct (entry (f_tree B) dT nT) as [j|] eqn:Hj'; [|done]. destruct (hd_new _ _ _ _ _ Hh dT nT j) as [|[_ Hal]]; [done|done|congruence|].
    destruct Hal as [[Hn _]|[Hn|[Hn _]]]; [by destruct (tg_name _ _ _ _ Htgt)|by destruct target_old|done]. }
  destruct Htgt as [H1 H2 H3]. split; [|done|].
  - eapply at_path_stays; [eapply held_paths; [done| |exact Hh]; done|by left|done].
  - intros j. rewrite He. intros Hj. exact (hd_node _ _ _ _ _ Hh j _ (H3 j Hj)).
Qed.

(** What is published over the copies is published over the start. *)
Lemma released_start B D F : untouched B -> released nobody B dT nT D F -> released_at D F.
Proof using Type.
  intros HB [Hh (i & a & H1 & H2 & H3 & H4 & H5)]. split.
  - eapply held_trans; [eapply held_mono; [|by left|exact HB]; done|]. eapply held_lax; [|exact Hh]. by intros d [].
  - exists i, a. split_and!; try done. destruct (f_attr F0 !! i) as [b|] eqn:Hb; [|done].
    apply (hd_attr _ _ _ _ _ HB) in Hb; [congruence|by intros []].
Qed.

Lemma inputs_name_free dp np dir : inputs_at F0 cs dir dp np -> (dp, np) <> (dT, nT) /\ ~ pack_temp np.
Proof using Hni.
  intros [_ (r & _ & ->)]. split; [|done]. intros [= _ Heq]. apply Hni. rewrite <- Heq. apply inputs_name_temp.
Qed.

Lemma inputs_path_later dir dp np B x F :
  inputs_at F0 cs dir dp np -> wf_fs B -> at_path B dir dp np ->
  (x = None \/ x = Some (dT, nT) /\ forall j, entry (f_tree B) dT nT = Some j -> f_tree B !! j = Some TFile) ->
  held nobody nobody x B F -> at_path F dir dp np.
Proof using Hni.
  intros Hat HB Hp Hx Hh. destruct (inputs_name_free _ _ _ Hat) as [Hd Hn].
  assert (x <> Some (dp, np)) as Hxd by (destruct Hx as [->|[-> _]]; congruence).
  eapply at_path_stays; [| |exact Hp].
  - eapply held_paths; [done| |exact Hh]. intros d n j -> Hj Hpass. destruct Hx as [|[[= -> ->] Hf]]; [done|].
    specialize (Hf j Hj). destruct Hpass as [[m Hm]|[t Ht]]; congruence.
  - left. destruct (entry (f_tree B) dp np) as [j|] eqn:Hj; [by apply (hd_entry _ _ _ _ _ Hh)|].
    destruct (entry (f_tree F) dp np) as [j|] eqn:Hj'; [|done].
    destruct (hd_new _ _ _ _ _ Hh dp np j) as [|[_ Hal]]; [done|done|congruence|]. by destruct Hal as [[? _]|[[]|(_ & _ & [])]].
Qed.

(** Removing the copies leaves the output. *)
Lemma remove_inputs_released dir dp np D :
  inputs_at F0 cs dir dp np ->
  hoare (fun F => released_at D F /\ at_path F dir dp np) (os_RemoveAll dir)
    (fun _ => released_at D) (fun _ => released_at D) (released_at D).
Proof using Hquiet Hcs Hne HF0 Htgt Hni.
  intros Hat. assert (forall d n, ours F0 dp np d n -> entry (f_tree F0) d n = None /\ Some (dT, nT) <> Some (d, n)) as Ho.
  { intros d n Hd. split; [by eapply ours_free|]. intros [= H1 H2]. destruct (inputs_name_free _ _ _ Hat) as [Hne' _].
    destruct Hd as [Hd|Hd]; [apply target_old; by rewrite H1|congruence]. }
  apply (remove_inputs Hquiet F0 cs Hcs Hne _ dir dp np Hat).
  - intros F HF. apply HF.
  - intros F d n [Hh (i & a & H1 & H2 & H3 & H4 & H5)] Hd. destruct (Ho d n Hd) as [Hfree Hx]. split; [by apply held_drop|].
    exists i, a. cbn. rewrite entry_del_entry, decide_False by congruence. split_and!; try done. exact (node_kept_del_entry _ _ _ _ _ H2).
  - intros F d n j [Hh _] Hd. destruct (Ho d n Hd). by eapply held_new.
Qed.

Context (opts : Options) (Hpath : o_OutputPath opts = path) (Hobs : observing opts).

Definition published (D : list byte) (idx : Index) (F : fs) : Prop :=
  released_at D F /\ exists checked, accepted (with_skip opts true) checked /\
    packed hst now F0 opts (with_skip checked (o_SkipELFValidation opts)) D idx.

Lemma Pack_publishes :
  hoare (eq F0) (Pack types machines ParseBuildInfo hst sch names (abs_path cs) now opts)
    (fun idx F => exists D, published D idx F) (fun _ => untouched)
    (fun F => untouched F \/ exists D idx, published D idx F).
Proof using Hquiet Hcs Hne HF0 Htgt Hni Hpath Hobs.
  set (C := fun F => untouched F \/ exists D idx, published D idx F).
  assert (forall F, untouched F -> C F) as HC by (intros F ?; by left).
  unfold Pack. eapply (hoare_looking _ _ _ (fun _ => accepted (with_skip opts true))); [intros F <-; by apply validateOptions_tells| | |].
  { intros F e <-. by apply held_refl. } { intros F <-. by apply HC, held_refl. }
  intros checked. apply hoare_ghost. intros F [<- Hchk]. set (checked' := with_skip checked (o_SkipELFValidation opts)).
  assert (o_OutputPath checked' = path /\ o_Variants opts = o_Variants checked' /\ o_CreatedUnix opts = o_CreatedUnix checked' /\
    o_StubPath opts = o_StubPath checked' /\ observing checked') as (Hp' & Hv' & Hc' & Hs' & Hobs').
  { destruct Hchk as (? & ? & ? & ? & -> & _). by split_and!. }
  eapply hoare_bind; [by apply (snapshotInputs_taken Hquiet F0 HF0 cs Hcs Hne ParseBuildInfo checked' C Hobs' HC)|].
  intros [opts' dir]. apply hoare_ghost. intros B (dp & np & Hat & HB & Hdirat & Hsn). cbn [fst snd] in *.
  pose proof (target_later B HB) as HtB. assert (o_OutputPath opts' = path) as HpO by by destruct Hsn as (? & ? & -> & _).
  pose proof (snapshot_inputs F0 checked' opts' B Hsn) as Hin.
  assert (exists stub, input B (filepath_Clean (o_StubPath opts')) stub) as [stub Hstub].
  { destruct Hsn as (? & ? & -> & (d & Hd & _) & _). by exists d. }
  assert (wf_fs B) as HwB by apply HB.
  assert (forall F, intact nobody B F -> untouched F /\ at_path F dir dp np) as HI.
  { intros F Hi. split; [eapply held_trans; [exact HB|]; eapply held_lax; [|exact Hi]; by intros d []|].
    eapply inputs_path_later; [exact Hat|done|done|by left|exact Hi]. }
  assert (forall dict sha idx F, dictionary_made (dict, sha) ->
    delivered B dT nT hst opts' (sortVariantLevels (o_Variants opts') (o_TargetArch opts')) stub (default now (o_CreatedUnix opts)) dict sha idx F ->
    exists D, published D idx F /\ at_path F dir dp np) as HP.
  { intros dict sha idx F Hdm (D & Hr & Ha). exists D. split.
    - split; [by eapply released_start|]. exists checked. split; [done|]. by eapply artifact_packed.
    - eapply inputs_path_later; [exact Hat|done|done|right; split; [done|apply HtB]|apply Hr]. }
  eapply hoare_deferring.
  - eapply hoare_pre; [eapply (pack_snapshots_delivered Hquiet B HwB path dT nT HtB C); try done|].
    + intros F Hi. by apply HC, HI.
    + intros dict sha idx F Hdm Hdel. right. destruct (HP dict sha idx F Hdm Hdel) as (D & HD & _). by exists D, idx.
    + intros F <-. by apply held_refl.
  - intros idx. apply hoare_ghost. intros F (dict & sha & Hdm & Hdel). destruct (HP dict sha idx F Hdm Hdel) as (D & [Hr Hpk] & Hd).
    apply hoare_ignore. eapply hoare_conseq; [by apply (remove_inputs_released dir dp np D)|by intros F' <-|..].
    + intros u F' Hr'. by exists D.
    + intros e F' Hr'. by exists D.
    + intros F' Hr'. right. by exists D, idx.
  - intros e. apply hoare_ghost. intros F Hi. destruct (HI F Hi) as [Hu Hd]. apply hoare_ignore.
    eapply hoare_conseq; [by apply (remove_inputs_held Hquiet F0 cs Hcs Hne dir dp np)|by intros F' <-|done..|done].
Qed.

End main.

(** ** Digests and levels *)

Lemma digest_hex data : digest_syntax (EncodeToString (Sum256 data)).
Proof.
  assert (forall l, String.length (EncodeToString l) = (2 * length l)%nat /\ sforallb is_hex (EncodeToString l) = true) as H.
  { induction l as [|b l [IHl IHh]]; [done|]. cbn [EncodeToString String.length length sforallb]. rewrite IHl, IHh. split; [lia|by destruct b]. }
  destruct (H (Sum256 data)) as [H1 H2]. split; [|done]. by rewrite H1, length_Sum256.
Qed.

Lemma EncodeToString_lower `{GoUnicode} l : ToLower (EncodeToString l) = EncodeToString l.
Proof.
  assert (is_ascii (EncodeToString l) = true /\ smap lower_char (EncodeToString l) = EncodeToString l) as [Ha Hs].
  { unfold is_ascii. induction l as [|b l [IHa IHs]]; [done|]. cbn [EncodeToString sforallb smap]. rewrite IHa, IHs. by destruct b. }
  unfold ToLower. by rewrite Ha.
Qed.

Section levels.
Context {GU : GoUnicode}.

(** A known level has its normal form for good. *)
Lemma known_level arch level :
  0 <= Rank arch level ->
  0 < Rank arch level /\ Normalize (Normalize level) = Normalize level /\ TrimSpace (Normalize level) <> ""%string.
Proof.
  intros H. apply Rank_nonneg in H. revert H. generalize (Normalize level) (Rank arch level). intros n r.
  destruct (arch_table arch); cbn [rank_table]; unfold amd64_ranks, arm64_ranks; rewrite ?elem_of_cons, elem_of_nil; intros Hin;
    repeat destruct Hin as [[= -> ->]|Hin]; try done; (split; [done|by split]).
Qed.

Lemma known_normal arch level :
  is_ascii level = true -> 0 <= Rank arch (NormalizeVariant level) ->
  0 < Rank arch (Normalize (NormalizeVariant level)) /\ TrimSpace (NormalizeVariant level) <> ""%string.
Proof.
  intros Ha. pose proof (Normalize_idempotent level Ha) as Hi. unfold NormalizeVariant. revert Hi. generalize (Normalize level). intros n Hi Hr.
  destruct (known_level arch n Hr) as (Hpos & _ & Ht). rewrite Hi in Ht. by rewrite Hi.
Qed.

Lemma NormalizeTargetArch_known arch a : NormalizeTargetArch arch = Ok a -> known_target a.
Proof.
  unfold NormalizeTargetArch. destruct (_ || _); [intros [= <-]; by left|]. destruct (_ || _); [intros [= <-]; by right|done].
Qed.

Lemma Get_effective c : Get registry_init (effective_compression (codec_Name c)) = Ok c.
Proof. by destruct c. Qed.

End levels.

(** ** The artifact *)

Lemma dictionary_verifies {GU : GoUnicode} base (stub dict : list byte) sha rs table :
  Z.of_nat (length dict) <= MaxDictionarySize -> (dict <> [] -> sha = EncodeToString (Sum256 dict)) ->
  verify_dictionary (sealed ((stub ++ dict) ++ PackAssemble.frames rs) table)
    (canonical (PackAssemble.candidate base (Z.of_nat (length stub)) dict sha rs)) = Ok dict.
Proof.
  intros Hm Hs. unfold verify_dictionary. cbn [canonical PackAssemble.candidate DictionarySize DictionaryOffset DictionarySHA256].
  destruct dict as [|b dict]; [done|]. rewrite Hs by done. set (d := b :: dict) in *.
  change (0 <? length d)%nat with true. cbv iota. rewrite EncodeToString_lower, (proj2 (bad_checksum_false _) (digest_hex d)).
  assert (0 < Z.of_nat (length d)) by (simpl; lia). rewrite !Z.gtb_ltb.
  destruct (Z.ltb_spec 0 (Z.of_nat (length d))); [|lia]. destruct (Z.ltb_spec MaxDictionarySize (Z.of_nat (length d))); [lia|].
  destruct (Z.ltb_spec (Z.of_nat (length stub)) 0); [lia|]. cbn [negb orb ReadAt file_reader]. unfold sealed.
  rewrite <- !app_assoc, file_read_app by (done || by rewrite Nat2Z.id). by rewrite String.eqb_refl.
Qed.

Lemma placed_lookup offset rs i r v :
  rs !! i = Some r -> PackAssemble.placed offset rs !! i = Some v -> v = PackAssemble.with_offset (PackAssemble.entry r) (Offset v).
Proof.
  revert offset i. induction rs as [|x rs IH]; intros offset [|i] Hr Hv; try discriminate; cbn in Hr, Hv; [by simplify_eq|].
  by eapply IH.
Qed.

Section verifies.
Context `{Kernel} {GU : GoUnicode} {E : Encoders} {D : Decoders} {L : EncoderLaws E D} {DB : DictBuilder}.
Context (hst : host) (now : Z) (F0 : fs) (opts checked : Options) (dict : list byte).

Local Abbreviation frame := (frame_for hst F0 opts checked dict).

Lemma frame_result_ok arch lvl r : is_ascii lvl = true -> 0 <= Rank arch (NormalizeVariant lvl) -> frame lvl r ->
  PackAssemble.result_ok arch r /\ ve_Level (PackAssemble.entry r) = NormalizeVariant lvl.
Proof using L.
  intros Ha Hr (src & data & c & level & pieces & _ & [Hne _] & Hmax & _ & Hcv & Hst & Hent).
  destruct (compress_round_trip _ _ _ _ _ _ _ Hcv Hne) as [Hp _]. rewrite <- Hst in Hp.
  destruct (known_normal arch lvl Ha Hr) as [Hpos Ht].
  rewrite Hent. split; [|done]. unfold PackAssemble.result_ok, PackAssemble.honest. rewrite Hent.
  cbn [ve_Level CompressedSize UncompressedSize SHA256]. assert (0 < Z.of_nat (length data)) by (destruct data; [done|simpl; lia]).
  split; [done|]. split; [done|]. split; [exact Hpos|].
  split; [done|]. split; [lia|apply digest_hex].
Qed.

Lemma frames_levels arch levels rs :
  Forall (fun lvl => is_ascii lvl = true) levels -> Forall (fun lvl => 0 <= Rank arch (NormalizeVariant lvl)) levels ->
  Forall2 frame levels rs ->
  Forall (PackAssemble.result_ok arch) rs /\ ve_Level <$> (PackAssemble.entry <$> rs) = NormalizeVariant <$> levels /\
  Normalize <$> (NormalizeVariant <$> levels) = NormalizeVariant <$> levels.
Proof using L.
  intros Ha Hr Hf. induction Hf as [|lvl r levels rs Hl _ IH]; [rewrite !fmap_nil; by repeat split|].
  inversion Ha as [|? ? Ha1 Ha2]; inversion Hr as [|? ? Hr1 Hr2]; subst. destruct (IH Ha2 Hr2) as (H1 & H2 & H3).
  destruct (frame_result_ok arch lvl r Ha1 Hr1 Hl) as [Hok Hlv]. rewrite !fmap_cons, H2, H3, Hlv.
  split; [by constructor|]. split; [done|]. f_equal. exact (Normalize_idempotent lvl Ha1).
Qed.

Lemma frames_ok arch levels rs :
  levels <> [] -> Forall (fun lvl => is_ascii lvl = true) levels -> levels_ok arch levels -> Forall2 frame levels rs ->
  PackAssemble.results_ok arch rs.
Proof using L.
  intros Hne Ha [Hl Hd] Hf. destruct (frames_levels arch levels rs Ha) as (H1 & H2 & H3); [|done|].
  { eapply Forall_impl; [exact Hl|]. by intros lvl [_ ?]. }
  split_and!; [|done|by rewrite H2, H3]. intros ->. by inversion Hf; subst.
Qed.

(** The section of an entry reads back to the source. *)
Lemma frame_reads_back lvl r v file :
  frame lvl r -> v = PackAssemble.with_offset (PackAssemble.entry r) (Offset v) ->
  file_read file (Z.to_nat (CompressedSize v)) (Offset v) = Some (PackAssemble.staged r) ->
  let w := canonical_variant v in
  exists c data, Get registry_init (Compression w) = Ok c /\
    delivers (decoded_stream c (section_stream file (Offset w) (CompressedSize w)) dict) (UncompressedSize w) data /\
    EncodeToString (Sum256 data) = SHA256 w.
Proof using L.
  intros (src & data & c & level & pieces & _ & [Hne _] & _ & _ & Hcv & Hst & Hent) Hv Hread.
  destruct (compress_round_trip _ _ _ _ _ _ _ Hcv Hne) as [_ Hrb]. exists c, data.
  assert (section_stream file (Offset v) (CompressedSize v) = mkStream [PackAssemble.staged r] false) as Hsec.
  { unfold section_stream. cbn [ReadAt file_reader]. by rewrite Hread. }
  cbn [canonical_variant Offset CompressedSize UncompressedSize SHA256 Compression]. rewrite Hsec.
  assert (Compression v = codec_Name c /\ UncompressedSize v = Z.of_nat (length data) /\ SHA256 v = EncodeToString (Sum256 data)) as (-> & -> & ->).
  { rewrite Hv, Hent. done. }
  split_and!; [apply Get_effective| |by rewrite EncodeToString_lower]. apply Hrb. rewrite Hst. apply app_nil_r.
Qed.

End verifies.

(** A sealed candidate of the frames of the levels opens and verifies. *)
Section sealed.
Context `{Kernel} {GU : GoUnicode} {E : Encoders} {D : Decoders} {L : EncoderLaws E D} {DB : DictBuilder}.
Context (hst : host) (F0 : fs) (opts checked : Options) (base : Index) (levels : list string) (rs : list PackAssemble.parallelVariantResult).
Context (stub dict : list byte) (sha : string).
Context (Hbase : PackAssemble.base_ok base) (Hdict : dict = [] \/ Z.of_nat (length dict) <= MaxDictionarySize /\ sha = EncodeToString (Sum256 dict)).
Context (Hf : Forall2 (frame_for hst F0 opts checked dict) levels rs) (Hrs : PackAssemble.results_ok (TargetArch base) rs).

Local Abbreviation idx := (PackAssemble.candidate base (Z.of_nat (length stub)) dict sha rs).
Local Abbreviation file := (sealed ((stub ++ dict) ++ PackAssemble.frames rs) (encode_index idx)).

Context (Henc : encodable idx) (Hmax : Z.of_nat (length (encode_index idx)) <= MaxIndexSize) (Hlen : Z.of_nat (length file) <= 2 ^ 61).

Lemma candidate_opens :
  ReadTrailerAndIndex file (Z.of_nat (length file)) = Ok (canonical idx) /\ length (Variants idx) = length rs /\
  (forall i r v, rs !! i = Some r -> Variants idx !! i = Some v ->
     file_read file (Z.to_nat (CompressedSize v)) (Offset v) = Some (PackAssemble.staged r)).
Proof using Hbase Hdict Hrs Henc Hmax Hlen.
  apply PackAssemble.sealed_candidate; try assumption.
  - destruct Hdict as [Hd|[Hm Hs]]; [left; exact Hd|right; split; [exact Hm|rewrite Hs; apply digest_hex]].
  - unfold sealed in Hlen. rewrite !length_app, !Nat2Z.inj_add in Hlen. lia.
Qed.

Lemma candidate_valid :
  exists results, VerifyBinary file (Z.of_nat (length file)) = Ok (canonical idx, results) /\
    vr_entry <$> results = Variants (canonical idx) /\ Forall (fun res => Valid res = true) results.
Proof using L Hbase Hdict Hf Hrs Henc Hmax Hlen.
  destruct candidate_opens as (Hopen & Hlv & Hreads).
  assert (verify_dictionary file (canonical idx) = Ok dict) as Hvd.
  { apply dictionary_verifies; [|intros Hne; by destruct Hdict as [|[_ ?]]].
    destruct Hdict as [-> |[? _]]; [|done]. unfold MaxDictionarySize. simpl. lia. }
  destruct (VerifyBinary_reports file (Z.of_nat (length file)) (canonical idx) dict) as (results & Hv & He & Hvalid); [split; lia|exact Hopen|exact Hvd|].
  exists results. split; [exact Hv|]. split; [exact He|]. rewrite Forall_lookup in *. intros i res Hi. apply (Hvalid i res Hi).
  assert (Variants (canonical idx) !! i = Some (vr_entry res)) as Hw by by rewrite <- He, list_lookup_fmap, Hi.
  cbn [Variants canonical] in Hw. apply list_lookup_fmap_Some in Hw as (v & Hvr & Hvi).
  assert (i < length rs)%nat as Hir by (rewrite <- Hlv; by eapply lookup_lt_Some).
  destruct (lookup_lt_is_Some_2 rs i Hir) as [r Hr]. destruct (Forall2_lookup_r _ _ _ _ _ Hf Hr) as (lvl & _ & Hfr).
  rewrite Hvr. apply (frame_reads_back hst F0 opts checked dict lvl r); [exact Hfr|exact (placed_lookup _ _ _ _ _ Hr Hvi)|exact (Hreads i r v Hr Hvi)].
Qed.

(** The entry of a level records its source. *)
Lemma candidate_records lvl :
  lvl ∈ levels -> exists src data v, o_Variants opts !! lvl = Some src /\ copy_of F0 (filepath_Clean src) data /\
    v ∈ Variants (canonical idx) /\ ve_Level v = NormalizeVariant lvl /\ UncompressedSize v = Z.of_nat (length data) /\
    SHA256 v = EncodeToString (Sum256 data).
Proof using Hf.
  intros (i & Hi)%list_elem_of_lookup. destruct (Forall2_lookup_l _ _ _ _ _ Hf Hi) as (r & Hr & src & data & c & level & pieces & Hsrc & Hcp & _ & _ & _ & _ & Hent).
  assert (is_Some (PackAssemble.placed (Z.of_nat (length stub) + Z.of_nat (length dict)) rs !! i)) as [v Hv].
  { apply lookup_lt_is_Some. pose proof (PackAssemble.placed_levels (Z.of_nat (length stub) + Z.of_nat (length dict)) rs) as Hl.
    apply (f_equal length) in Hl. rewrite !length_fmap in Hl. rewrite Hl. by eapply lookup_lt_Some. }
  exists src, data, (canonical_variant v). split; [exact Hsrc|]. split; [exact Hcp|]. split.
  { cbn [Variants canonical PackAssemble.candidate]. apply list_elem_of_fmap. exists v. split; [done|]. by eapply list_elem_of_lookup_2. }
  cbn [canonical_variant ve_Level UncompressedSize SHA256]. rewrite (placed_lookup _ _ _ _ _ Hr Hv), Hent.
  cbn [PackAssemble.with_offset ve_Level UncompressedSize SHA256]. split; [done|]. split; [done|]. apply EncodeToString_lower.
Qed.

End sealed.

Section opens.
Context `{Kernel} {GU : GoUnicode} {E : Encoders} {D : Decoders} {L : EncoderLaws E D} {DB : DictBuilder}.
Context (hst : host) (now : Z) (F0 : fs).

(** The artifact opens with its index, every variant is valid, and the index
    records the digests of the inputs. *)
Lemma packed_verifies opts skip checked file idx :
  accepted (with_skip opts true) checked -> packed hst now F0 opts (with_skip checked skip) file idx ->
  (forall lvl, is_Some (o_Variants opts !! lvl) -> is_ascii lvl = true) ->
  Z.of_nat (length file) <= 2 ^ 61 -> int64_range (CreatedUnix idx) -> DictionarySize idx <= MaxDictionarySize ->
  ReadTrailerAndIndex file (Z.of_nat (length file)) = Ok (canonical idx) /\
  (exists results, VerifyBinary file (Z.of_nat (length file)) = Ok (canonical idx, results) /\
     vr_entry <$> results = Variants (canonical idx) /\ Forall (fun res => Valid res = true) results) /\
  VariantLevels (canonical idx) ≡ₚ NormalizeVariant <$> (map_to_list (o_Variants opts)).*1 /\
  (forall lvl src data, o_Variants opts !! lvl = Some src -> input F0 (filepath_Clean src) data ->
     exists v, v ∈ Variants (canonical idx) /\ ve_Level v = NormalizeVariant lvl /\
       UncompressedSize v = Z.of_nat (length data) /\ SHA256 v = EncodeToString (Sum256 data)) /\
  (forall stub, input F0 (filepath_Clean (o_StubPath opts)) stub -> take (length stub) file = stub).
Proof using L.
  intros (os & arch & version & comp & -> & _ & Harch & _ & Hvne & _ & Hlv) (levels & stub & dict & sha & rs & Hlevels & Hstub & Hdict & Hf & Hsm).
  intros Hascii Hlen Hcreated Hds. destruct (Hsm Hlen) as (-> & -> & Henc & Hidx). clear Hsm. set (chk := with_skip (with_checked _ _ _ _ _) _) in *.
  set (base := base_index chk (default now (o_CreatedUnix opts))) in *. change (o_Variants (with_skip opts true)) with (o_Variants opts) in *.
  assert (Forall (fun lvl => is_ascii lvl = true) levels) as Ha.
  { apply Forall_forall. intros lvl Hin. rewrite Hlevels in Hin. apply list_elem_of_fmap in Hin as ([l src] & -> & Hin%elem_of_map_to_list).
    apply Hascii. by exists src. }
  apply (levels_ok_perm arch _ levels) in Hlv; [|by symmetry].
  assert (levels <> []) as Hne.
  { intros ->. symmetry in Hlevels. apply Permutation_nil_r, fmap_nil_inv, map_to_list_empty_iff in Hlevels. done. }
  assert (PackAssemble.results_ok arch rs) as Hrs by (by eapply frames_ok).
  assert (PackAssemble.base_ok base) as Hbase by (split; [by eapply NormalizeTargetArch_known|exact Hcreated]).
  assert (dict = [] \/ Z.of_nat (length dict) <= MaxDictionarySize /\ sha = EncodeToString (Sum256 dict)) as Hd.
  { cbn [PackAssemble.candidate DictionarySize] in Hds. destruct dict as [|b dict]; [by left|right]. split; [exact Hds|].
    destruct Hdict as [[|[_ ?]]|[? _]]; done. }
  split; [by eapply candidate_opens|]. split; [by eapply candidate_valid|]. split; [|split].
  - rewrite <- Hlevels. destruct (frames_levels hst F0 opts chk dict arch levels rs Ha) as (_ & Hl & _); [|exact Hf|].
    { eapply Forall_impl; [exact (proj1 Hlv)|]. by intros lvl [_ ?]. }
    rewrite <- Hl, <- (PackAssemble.placed_levels (Z.of_nat (length stub) + Z.of_nat (length dict))).
    unfold VariantLevels. cbn [canonical PackAssemble.candidate Variants]. by rewrite <- list_fmap_compose.
  - intros lvl src data Hsrc Hin.
    destruct (candidate_records hst F0 opts chk base levels rs stub dict sha Hf lvl) as (src' & data' & v & Hs' & [_ Hcp] & Hv).
    + rewrite Hlevels. apply list_elem_of_fmap. exists (lvl, src). split; [done|]. by apply elem_of_map_to_list.
    + exists v. assert (src' = src) as -> by congruence. by rewrite (Hcp data Hin) in Hv.
  - intros stub0 Hin. destruct Hstub as [_ Hcp]. rewrite (Hcp stub0 Hin). unfold sealed. rewrite <- !app_assoc. apply take_app_length.
Qed.

End opens.
