(* ===== verification/PackTheorems.v ===== *)
(** * The theorems of packing

    [Pack] as a whole: atomic whatever stops it, its output verifies, and what
    is staged does not depend on the schedule.  The witnesses run on a disk with
    two builds and a stub under [/in], an output directory, a directory for
    temporary files, and libraries that frame a payload with one byte. *)

From S2P Require Import Prelude GoStrings GoPath GoIO Microarch MicroarchSelect Format FormatIndex Sha256 FormatTrailer CgroupSize CgroupTuning Codec PackAssemble PackTrim PackPlan Vfs GoOS InputFile VfsLogic VfsEffects VfsStage Cache PackOptions PackInput PackStage PackStop Pack PackHeld PackTemp PackWrite PackArtifact PackAtomic PackVerifies.
From stdpp Require Import base list strings gmap.
From Stdlib Require Import ZArith Lia Strings.Ascii Strings.Byte.

Local Open Scope Z_scope.

Definition stub_bytes : list byte := byte_of <$> [127; 69; 76; 70; 2].
Definition v1_bytes : list byte := byte_of <$> [97; 98; 99; 100].
Definition v3_bytes : list byte := byte_of <$> [97; 98; 99; 100; 101; 102].

Definition pack_tree : tree :=
  list_to_map
    [(1, TDir (list_to_map [("in", 2); ("out", 3); ("tmp", 4)]%string));
     (2, TDir (list_to_map [("stub", 5); ("v1", 6); ("v3", 7)]%string));
     (3, TDir (list_to_map [("app", 8)]%string));
     (4, TDir ∅); (5, TFile); (6, TFile); (7, TFile); (8, TFile)].

Definition pack_disk : fs :=
  mkFs pack_tree
    (list_to_map
       ((fun i => (i, plain_attr 493 [])) <$> [1; 2; 3; 4]) ∪
     list_to_map
       [(5, plain_attr 493 stub_bytes); (6, plain_attr 493 v1_bytes); (7, plain_attr 493 v3_bytes);
        (8, plain_attr 493 program_bytes)]) ∅.

(** An encoder that writes a mark and the payload, and its decoder. *)
Definition marked (src : list byte) : encoded := mkEncoded [[x01]; src] false.

Definition mark_encoders : Encoders := {|
  lz4_Apply := fun _ _ => true;
  lz4_Writer := fun _ _ src => marked src;
  zstd_NewWriter := fun _ _ _ => true;
  zstd_EncodeAll := fun _ _ _ src => x01 :: src;
  zstd_Writer := fun _ _ _ src => marked src
|}.

Definition unmark (s : stream) : stream := mkStream [drop 1 (concat (chunks s))] (ends_in_error s).

Definition mark_decoders : Decoders := {|
  lz4_reader := unmark;
  zstd_reader := fun s _ => Some (unmark s)
|}.

Lemma mark_laws : EncoderLaws mark_encoders mark_decoders.
Proof.
  assert (forall frame src, frame = x01 :: src -> reads_back (fun s => Some (unmark s)) frame src) as Hd.
  { intros frame src -> cs Hcs. exists (unmark (mkStream cs false)). split; [done|]. split; [done|]. split; [|done].
    cbn. by rewrite Hcs, app_nil_r. }
  split; cbn; try done; intros; apply Hd; by rewrite ?app_nil_r.
Qed.

Definition no_dict_builder : DictBuilder := {| BuildDict := fun _ _ _ => None |}.

Definition first_dict_builder : DictBuilder := {| BuildDict := fun h _ _ => Some h |}.

Definition round_robin : schedule := mkSchedule (fun k => k) 100.

Definition pack_host (cpus : Z) : host :=
  mkHost cpus MaxInt64 sample_limits true (0, false) (mkResources 1 0 false).

Definition sample_options : Options :=
  mkOptions "/in/stub" "/out/app" "app" "linux" "x86_64"
    (list_to_map [("v1", "/in/v1"); ("v3", "/in/v3")]%string)
    "balanced" "zstd" "" false false 0 0 ∅ 493 0 (Some 1700000000) true false None.

Definition sample_pack (K : Kernel) (DB : DictBuilder) (cpus : Z) (opts : Options) : io Index :=
  @Pack K ascii_tables merge_slice_sort sorted_range mark_encoders DB (fun _ => ""%string) (fun _ => ""%string)
    (fun _ => None) (pack_host cpus) round_robin sample_level_names "/tmp" 0 opts.

Section theorems.
Context `{Kernel} {GU : GoUnicode} {SS : SliceSort} {MR : MapRange} {E : Encoders} {DB : DictBuilder}.
Context (types machines : Z -> string) (ParseBuildInfo : string -> option (list (string * string))).
Context (hst : host) (sch : schedule) (names : zstd_level -> string) (now : Z) (cs : list string) (opts : Options).

Local Abbreviation pack := (Pack types machines ParseBuildInfo hst sch names (abs_path cs) now opts).

(** C6. [Pack] is atomic. Whatever stops it, and however the workers are scheduled, everything
    that was there at the start is there as it was, but for the name of the output: this stands
    for what it stood for, or for a new file with the whole artifact. The artifact is there when
    [Pack] succeeds, and the old output when it fails. *)
Theorem Pack_atomic (w : world) (dT : Z) (nT : string) :
  quiet -> wf_fs (w_fs w) -> Forall single cs -> cs <> [] ->
  target (w_fs w) (o_OutputPath opts) dT nT -> ~ inputs_temp nT -> observing opts ->
  let F0 := w_fs w in
  let '(r, w') := pack w in
  match r with
  | Done idx => exists D, published hst now F0 dT nT opts D idx (w_fs w')
  | Failed _ => held (new_dir F0) nobody None F0 (w_fs w')
  | Dead => held (new_dir F0) nobody None F0 (w_fs w') \/ exists D idx, published hst now F0 dT nT opts D idx (w_fs w')
  end.
Proof.
  intros Hq Hwf Hcs Hne Ht Hn Hobs F0.
  exact (Pack_publishes Hq types machines ParseBuildInfo hst sch names now cs Hcs Hne F0 Hwf _ dT nT Ht Hn opts eq_refl Hobs w eq_refl).
Qed.


End theorems.

(** C28. The workers finish. Unless the process is killed, staging has a result under every
    order of turns after some number of steps, and the same result whatever more steps there
    are. *)
Theorem stage_positions_ends `{Kernel} {GU : GoUnicode} {E : Encoders} (hst : host) (outDir : string) (plans : list variantWorkPlan)
    (indices : list nat) (opts : Options) (dict : list byte) (pick : nat -> nat) (workers : Z) (t : option PackAssemble.spoolBudgetTracker) (w : world) :
  (forall n, k_fault n <> Dies) ->
  exists N r, r.1 <> Dead /\ forall steps, (N <= steps)%nat ->
    stage_positions hst (mkSchedule pick steps) outDir plans indices opts dict workers t w = r.
Proof. intros Hlive. by apply staging_ends. Qed.

Section schedules.
Context `{Kernel} {GU : GoUnicode} {SS : SliceSort} {E : Encoders}.
Context (hst : host) (names : zstd_level -> string) (outDir : string) (levels : list string) (opts : Options) (dict : list byte).

(** C27. Staging does not depend on the schedule: however the workers take turns, and in
    whatever order they finish, the same bytes are appended in the same order and the entries
    are the same. *)
Theorem writeAllVariantPayloads_schedule (sch1 sch2 : schedule) (w w0 w1 w2 : world) (f : Z) (p : string) r1 r2 :
  quiet -> wf_fs (w_fs w) ->
  Forall (fun lvl => exists data, input (w_fs w) (filepath_Clean (default ""%string (o_Variants opts !! lvl))) data) levels ->
  os_CreateTemp (filepath_Dir outDir) packTempPrefix ".tmp" w = (Done (f, p), w0) ->
  writeAllVariantPayloads hst sch1 names f (filepath_Dir outDir) levels opts 0 dict w0 = (Done r1, w1) ->
  writeAllVariantPayloads hst sch2 names f (filepath_Dir outDir) levels opts 0 dict w0 = (Done r2, w2) ->
  Z.of_nat (length (image f (w_fs w1))) <= 2 ^ 61 ->
  r1 = r2 /\ image f (w_fs w1) = image f (w_fs w2).
Proof.
  intros Hq Hwf Hin Hcreate H1 H2 Hlen. set (B := w_fs w) in *. set (C := fun _ : fs => True).
  assert (tidy (filepath_Dir outDir)) as Hdir by apply tidy_Clean.
  pose proof (working_CreateTemp Hq nobody B _ packTempPrefix ".tmp" [] C Hdir pack_name_single ltac:(intros s; apply HasPrefix_app) ltac:(done) w) as Hc.
  rewrite Hcreate in Hc. destruct Hc as (out & Hf & _ & Hd & Hw); [split; [by apply held_refl|constructor|constructor]|]. cbn [fst] in Hf. subst f.
  assert (drafted B out [] [] (w_fs w0)) as Hdr by (destruct out; cbn in *; by subst).
  assert (forall sch w' r, writeAllVariantPayloads hst sch names (sf_ino out) (filepath_Dir outDir) levels opts 0 dict w0 = (Done r, w') ->
    exists plans rs, Forall2 (plan_for opts) levels plans /\ Forall (planned B opts) plans /\ Forall2 (made hst B dict) plans rs /\
      image (sf_ino out) (w_fs w') = PackAssemble.frames rs /\
      (Z.of_nat (length (PackAssemble.frames rs)) <= 2 ^ 61 -> r = (PackAssemble.placed 0 rs, Z.of_nat (length (PackAssemble.frames rs))))) as Hrun.
  { intros sch w' r Hr. pose proof (writeAll_drafted Hq hst sch names B Hwf C ltac:(done) (filepath_Dir outDir) levels opts Hdir Hin out [] dict 0 w0 Hdr) as Hp.
    rewrite Hr in Hp. destruct Hp as (plans & rs & Hpf & Hpl & Hm & Hw' & Hres). exists plans, rs. split_and!; try done; [|intros Hs; by rewrite Hres].
    pose proof (wk_present _ _ _ _ Hw') as Hpr. inversion Hpr as [|? ? Hpo _]; subst. exact (present_image nobody B _ _ Hpo). }
  destruct (Hrun _ _ _ H1) as (ps1 & rs1 & A1 & A2 & A3 & A4 & A5). destruct (Hrun _ _ _ H2) as (ps2 & rs2 & B1 & B2 & B3 & B4 & B5).
  assert (rs1 = rs2) as -> by by eapply (all_made_det hst B opts dict levels ps1 ps2). rewrite A4 in *. rewrite B4. split; [|done].
  by rewrite A5, B5.
Qed.

End schedules.

(** ** Runs *)

(** The smaller of the two candidates, packed by four workers. *)
Definition choosing_options : Options :=
  mkOptions "/in/stub" "/out/app" "app" "linux" "x86_64"
    (list_to_map [("v1", "/in/v1"); ("v3", "/in/v3")]%string)
    "balanced" "zstd" "" false true 0 0 ∅ 493 0 (Some 1700000000) true false None.

Lemma pack_disk_wf : wf_fs pack_disk.
Proof. apply wf_check_sound. vm_compute. reflexivity. Qed.

Lemma pack_disk_target : @target calm_kernel pack_disk "/out/app" 3 "app".
Proof.
  split.
  - eexists. split; [vm_compute; reflexivity|reflexivity].
  - discriminate.
  - intros j Hj. vm_compute in Hj. injection Hj as <-. reflexivity.
Qed.

Lemma choosing_observes : observing choosing_options.
Proof. by intros validate level path. Qed.

Definition sample_run : res Index * world := sample_pack calm_kernel first_dict_builder 4 choosing_options (sample_world pack_disk).

Lemma Pack_atomic_witness :
  match sample_run with
  | (Done idx, w') => exists D, @published calm_kernel ascii_tables mark_encoders first_dict_builder
      (pack_host 4) 0 pack_disk 3 "app" choosing_options D idx (w_fs w')
  | _ => False
  end.
Proof.
  pose proof (@Pack_atomic calm_kernel ascii_tables merge_slice_sort sorted_range mark_encoders first_dict_builder
    (fun _ => ""%string) (fun _ => ""%string) (fun _ => None) (pack_host 4) round_robin sample_level_names 0 ["tmp"%string] choosing_options
    (sample_world pack_disk) 3 "app" (kernel_with_quiet _) pack_disk_wf ltac:(by repeat constructor) ltac:(done) pack_disk_target
    ltac:(done) choosing_observes) as Hp.
  change (abs_path ["tmp"%string]) with "/tmp"%string in Hp.
  assert (match sample_run.1 with Done _ => True | _ => False end) as Hd by (vm_compute; exact I).
  revert Hp Hd. unfold sample_run, sample_pack. destruct (Pack _ _ _ _ _ _ _ _ _ _) as [[idx|e|] w']; intros Hp Hd; [exact Hp|destruct Hd..].
Defined.

Definition packed_index : Index :=
  match sample_run.1 with Done idx => idx | _ => mkIndex 0 "" "" "" 0 0 0 "" 0 [] end.

Lemma sample_run_done : sample_run.1 = Done packed_index.
Proof.
  assert (match sample_run.1 with Done _ => True | _ => False end) as Hd by (vm_compute; exact I).
  unfold packed_index. destruct sample_run.1; [reflexivity|destruct Hd..].
Qed.

Definition packed_file : Z := default 0 (Vfs.entry (f_tree (w_fs sample_run.2)) 3 "app").

(** Both levels are there, and the output is a new file. *)
Example packed_levels : VariantLevels packed_index = ["v1"; "v3"]%string /\ packed_file <> 8.
Proof. vm_compute. split; [reflexivity|discriminate]. Qed.


(** Workers that take turns backwards. *)
Definition backwards : schedule := mkSchedule (fun k => 7 * (100 - k))%nat 100.

Definition draft_run : res (Z * string) * world := @os_CreateTemp calm_kernel (filepath_Dir "/out/app") packTempPrefix ".tmp" (sample_world pack_disk).

Definition payload_run (sch : schedule) : res (list VariantEntry * Z) * world :=
  @writeAllVariantPayloads calm_kernel ascii_tables merge_slice_sort mark_encoders (pack_host 4) sch sample_level_names 9 (filepath_Dir "/out/app")
    ["v1"; "v3"]%string choosing_options 0 [] draft_run.2.

Definition payload_result (sch : schedule) : list VariantEntry * Z := match (payload_run sch).1 with Done r => r | _ => ([], 0) end.

Lemma sample_inputs : Forall (fun lvl => exists data, @input calm_kernel pack_disk
  (filepath_Clean (default ""%string (o_Variants choosing_options !! lvl))) data) ["v1"; "v3"]%string.
Proof.
  assert (forall p data i, (exists l, @locate calm_kernel (@cwd_base calm_kernel) true p pack_disk = Ok l /\ l_ino l = Some i /\ f_tree pack_disk !! i = Some TFile) ->
    image i pack_disk = data -> data <> [] -> exists data, @input calm_kernel pack_disk p data) as Hin by (intros p data i; by exists data, i).
  constructor; [|constructor; [|constructor]].
  - apply (Hin _ v1_bytes 6); [|reflexivity|discriminate]. eexists. split; [vm_compute; reflexivity|]. by split.
  - apply (Hin _ v3_bytes 7); [|reflexivity|discriminate]. eexists. split; [vm_compute; reflexivity|]. by split.
Qed.

Lemma writeAllVariantPayloads_schedule_witness :
  payload_result round_robin = payload_result backwards /\ image 9 (w_fs (payload_run round_robin).2) = image 9 (w_fs (payload_run backwards).2).
Proof.
  apply (@writeAllVariantPayloads_schedule calm_kernel ascii_tables merge_slice_sort mark_encoders (pack_host 4) sample_level_names "/out/app"
    ["v1"; "v3"]%string choosing_options [] round_robin backwards (sample_world pack_disk) draft_run.2 (payload_run round_robin).2
    (payload_run backwards).2 9 (match draft_run.1 with Done r => r.2 | _ => ""%string end)
    (payload_result round_robin) (payload_result backwards)
    (kernel_with_quiet _) pack_disk_wf sample_inputs).
  - apply (run_result _ (sample_world pack_disk)). vm_compute. reflexivity.
  - apply (run_result _ draft_run.2). vm_compute. reflexivity.
  - apply (run_result _ draft_run.2). vm_compute. reflexivity.
  - vm_compute. discriminate.
Defined.

Definition work_plan (lvl path : string) (size : Z) : variantWorkPlan := mkWork lvl lvl path size ZstdCodec "default" 0.

Lemma stage_positions_ends_witness :
  exists N r, r.1 <> Dead /\ forall steps, (N <= steps)%nat ->
    @stage_positions calm_kernel ascii_tables mark_encoders (pack_host 4) (mkSchedule (fun k => k * k)%nat steps) "/out"
      [work_plan "v1" "/in/v1" 4; work_plan "v3" "/in/v3" 6] [0; 1]%nat choosing_options [] 2 None (sample_world pack_disk) = r.
Proof.
  apply (@stage_positions_ends calm_kernel ascii_tables mark_encoders (pack_host 4) "/out"
    [work_plan "v1" "/in/v1" 4; work_plan "v3" "/in/v3" 6] [0; 1]%nat choosing_options [] (fun k => k * k)%nat 2 None (sample_world pack_disk)).
  intros n. discriminate.
Defined.
